(* ===== verification/_CoqProject ===== *)
-Q . S2P
Prelude.v
Regex.v
GoStrings.v
CheckRegistry.v
CheckRun.v
RepoAllowlist.v
Kube.v
Api.v
Features.v
Effects.v
Sha256.v
Webhook.v
Names.v
Dispatcher.v
Queue.v
GitResolver.v
Paths.v
SourceArchive.v
BuildJob.v
RegistryDigest.v
BuildController.v
AppController.v
DomainController.v
RegistryCert.v
Database.v
DatabaseTool.v
PostgresController.v
MongoController.v
RateLimit.v
OidcIdentity.v
AesGcm.v
Credentials.v
Session.v
Oidc.v
Auth.v
AuthStore.v
ApiServer.v
ApiPolicy.v
ApiVault.v
ApiApps.v
ApiViews.v
ApiDatabases.v
ApiGitHub.v
ApiSetup.v
ApiRoutes.v
ApiAudit.v
ApiNames.v
ApiBlind.v
ApiUpdates.v
ApiFlows.v
ApiExample.v
GitHubApp.v
GitHubLink.v
PlatformSecrets.v
Net.v
InstallNode.v
Install.v
InstallFlow.v
InstallRegistry.v
InstallToken.v
Host.v
K3s.v
NodePrep.v
InitFlow.v
InitFacts.v
InstallExample.v
Probes.v
Preflight.v
Canary.v
Doctor.v
DoctorFacts.v
DoctorNetpol.v
DoctorReport.v
ClusterPreflight.v
ClusterFacts.v
