(* ===== verification/Prelude.v ===== *)
(** * Orkano: a verification library

    Orkano is a self-hosted platform that builds and runs applications on a
    Kubernetes cluster.  A push to GitHub reaches the webhook receiver, which
    verifies it and records a delivery in Postgres; the dispatcher of the operator
    claims deliveries, resolves the commit of every App they concern and creates
    Build objects; the Build controller runs each Build as one confined Job and
    records the digest-pinned image it pushed; the App controller rolls that image
    out as a Deployment and a Service.  Sources may also be uploaded as ZIP
    archives, kept in the in-cluster registry and unpacked by an init container of
    the build.  The Domain controller routes hosts to Apps, the Postgres and Mongo
    controllers provision databases with an admin UI.  The dashboard signs an
    administrator in with two factors or through an OIDC provider and gates
    destructive actions on a fresh step-up; behind these gates its API creates and
    changes Apps, domains, databases and vault connections, uploads archives, edits the
    repository policy, connects GitHub and an identity provider, and shows logs, builds
    and the audit log.  The command line installs the platform: [orkano init] checks each
    machine over SSH, bootstraps hardened k3s servers one by one, writes the manifests and
    generates the Secrets on the first one and wires every node to the in-cluster registry.
    Doctor and the two preflights (of a machine, of an existing cluster) run checks through
    one registry and runner.

    This library models that core of the program in Rocq, file by file, and proves
    what makes it correct.  Every definition is executable and keeps the name of
    the Go function it translates; worked examples evaluate them.

    ** How code is modelled

    - Go strings are byte strings ([GoStrings]), maps are [gmap], pointers are
      [option], [(T, error)] is [result E T], [int] and [int64] are [Z] with the
      wrap-around of [i64] written out where it matters.
    - Code that talks to the outside is a [prog] ([Effects]): a finite tree of
      calls whose replies are arbitrary.  A theorem about [exec] therefore holds for
      every database content, stale cache, lost write and error; [run] evaluates a
      program against a concrete environment for the examples.  Every program is a
      finite tree, so every handler and reconcile returns whatever is answered.
    - Libraries outside the repository are class arguments ([KubeLib] with its laws
      [KubeLibLaws], [UnstructuredLib], [QuantityLib], [UnicodeTables], [AuthJSON],
      [OidcLib], [UrlLib], [UrlRefs] and those that [ApiLib] bundles for the API) or calls (bcrypt, TOTP, HTTP, DNS, ZIP, SQL); the
      concrete instances used by the examples satisfy the laws.  SHA-256, HMAC,
      AES-256-GCM, Base64, hexadecimal and regular expressions are defined and
      evaluated on published test vectors, so no theorem assumes anything of them,
      in particular not that hashes have no collisions.
    - Log lines are left out.  Concurrency enters as arbitrary replies between the
      calls of a program; the mutex of the rate limiter makes it a sequence.  The two
      stores on Postgres are transition systems, and the programs that use them are
      linked to them: the dispatcher to the delivery table ([Queue]), the sign-in
      handlers to the users and sessions ([AuthStore]), with any interleaving; the
      dispatcher is linked to the GitHub token source as well ([GitHubLink]).  Requests
      to the API that share the name lock are threads of a transition system
      ([ApiNames]).
    - A discipline a program keeps along its calls (look before you create, audit what
      you write, read before you update) is a predicate on a ghost state, carried through
      the program by [wp] of [Effects]; the ghost state [hist] is the trace itself.

    ** Files and what their theorems show

    Shared: [Prelude] (results, machine integers, automation), [Regex] (patterns,
    derivative matcher), [GoStrings], [Effects], [Kube] (Kubernetes objects and the
    library calls on them), [Names] (DNS-1123 names), [Paths] (package [path]),
    [Sha256], [AesGcm].

    - [CheckRegistry] ([api/check], [internal/checks/registry.go]): the invariant of
      registration; [Plan] is a topological order, equals the greedy reference
      walk, succeeds exactly when some order exists, ends within one iteration per
      check, and its errors name real culprits.
    - [CheckRun] ([run.go], [fix.go], [score.go], [format.go]): which checks are
      probed, blocked or skipped, what is remediated, the exit code gate, the score
      and its bounds, the reports.
    - [RepoAllowlist], [Features] ([internal/repoallowlist], [internal/features]):
      normalization and text round trips; the feature gate is exact.
    - [Api] ([api/v1alpha1]): App and Build records and the admission schema.
    - [Webhook] ([receiver/internal/webhook]): only authentic pushes of allowed
      repositories are recorded, once; the status code tells what happened.
    - [Dispatcher] ([operator/internal/dispatcher/dispatcher.go]): no delivery is
      lost, Builds are genuine and pinned, the budget is respected, names are valid
      and distinct.
    - [Queue] ([queue.go], [internal/db/webhook_deliveries.sql.go]): any number of
      dispatcher rounds on the delivery table with its locks refine a queue whose steps
      are labelled with the transaction and the delivery they are about; linked to it a
      round loses nothing and leaves no transaction open.
    - [GitResolver] ([operator/internal/gitresolver]): the advertisement parser accepts
      exactly the well-formed ones and reads back what a server prints; only public
      addresses are dialed; a resolved commit was advertised for the ref; which errors
      are retried.
    - [SourceArchive] ([internal/sourcearchive], [operator/internal/sourcefetch]):
      inspection is exact, extraction stays inside and bounded, uploads publish what
      was stored, a fetch is pinned to its digest.
    - [RegistryDigest] ([operator/internal/registry]): the digest is of the image the
      build pushed.
    - [BuildJob] ([operator/internal/buildjob]): admitted Builds render; rendered
      Jobs are confined, push only to their own reference and take their source
      from the recorded commit.
    - [BuildController] ([build_controller.go]): a finished Build is closed, phases
      never regress, success carries the resolved image, one Job per Build, deletion
      touches only the Build's own Job, disabled features start nothing.
    - [AppController] ([app_controller.go]): status follows from the Builds, only
      digest-pinned images are deployed, the Service follows the workload type,
      mutations settle.
    - [DomainController] ([domain_controller.go]): each host has one owner, only the
      owner is routed, readiness is earned, the App's URL follows its Domains, the
      finalizer waits, certificates wake their Domain.
    - [RegistryCert] ([registrycert_controller.go]): the registry is rolled once per
      certificate.
    - [Database], [DatabaseTool] and their instances [PostgresController],
      [MongoController] ([postgres_controller.go], [mongo_controller.go]): the two
      reconcilers share their design, so it is proved once against the class [Engine]
      and its laws, which each controller discharges: credentials are stable, storage
      only grows, the StatefulSet is safe, readiness is earned, a refused spec changes
      nothing, the admin UI is isolated and removed when disabled.
    - [RateLimit] ([dashboard/internal/server/ratelimit.go]): how many requests an
      address gets through, fairness, bounded memory.
    - [Credentials] ([dashboard/internal/auth]): the cipher round trip, recovery
      codes, tokens.
    - [Session], [Auth] ([session.go], [auth.go]): two factors for every local
      session, uniform answers to failed logins, lockout, the guarded bootstrap,
      step-up.
    - [OidcIdentity], [Oidc] ([dashboard/internal/oidc], [server/oidc.go]): the
      allowlist is exact, the sealed flow survives the round trip, a step-up is bound
      to the session that started it.
    - [AuthStore] ([server/store.go], [internal/db/users.sql.go], [sessions.sql.go],
      [recovery_codes.sql.go], [audit_log.sql.go]): the tables keep their invariant
      under any interleaving, an administrator is created whole, a recovery code works
      once, and every signed-in request goes back to an earned session.
    - [ApiServer], [ApiPolicy], [ApiVault], [ApiApps], [ApiViews], [ApiDatabases],
      [ApiGitHub], [ApiSetup] ([dashboard/internal/server]: [api.go], [resource_names.go],
      [impersonate.go]; [repo_allowlist.go]; [vault.go]; [app.go], [secrets.go];
      [builds.go], [deploys.go], [domain.go], [source_archive.go], [features.go],
      [nodes.go], [audit_view.go], [logs.go]; [postgres.go], [mongo.go]; [github.go];
      [setup.go]): every handler of the API.  A policy update is recorded before and after.
    - [ApiRoutes] ([mountAPIRoutes]): nothing happens without a session and nothing
      destructive without a fresh second factor.
    - [ApiAudit], [ApiNames], [ApiBlind], [ApiUpdates], [ApiFlows]: over all routes, every
      write has an entry that the audit log took or itself refused; a name has one kind under any interleaving; secret values reach
      nothing but Secrets; an update changes only what its route is about; reads are
      bounded and logs scoped; uploads are vetted, the GitHub callback is bound to a flow
      of this dashboard, a written OIDC configuration loads, the wizard's status is
      complete.
    - [ApiExample]: a small cluster, the API theorems at concrete requests, a write whose
      entry the log refused, and two collisions of Secret names the handlers do not prevent.
    - [GitHubApp], [GitHubLink] ([operator/internal/githubapp]): a commit comes from GitHub
      for the repository and ref asked for; every request carries the credential of that
      repository; what is given up for good and what is retried; the credentials the
      dashboard stored are those the operator loads; all of it in runs of the dispatcher.
    - [PlatformSecrets] ([internal/platformsecrets], [operator/internal/bootstrap],
      [internal/db/roles.go], [cli/internal/cmd/bootstraptoken.go]): Secrets are generated
      once, roles get quoted passwords, a token is shown only when stored, the rollout wait
      returns.
    - [Net] (IP addresses), [InstallNode], [Install], [InstallFlow], [InstallRegistry],
      [InstallToken] ([internal/install]): files of a node are replaced atomically by lines
      of bounded length; the write set has legal names; [Apply] settles policy, CRDs and
      manifests in order; the hosts file keeps its other lines; what becomes of the token
      of an install.
    - [Host], [K3s] ([internal/k3s]), [NodePrep] ([internal/nodeprep]): a bootstrap that
      reports success leaves a hardened server, exactly one line touches the service, input
      stays data; the AppArmor profile is loaded and verified.
    - [InitFlow], [InitFacts] ([cli/internal/cmd/init.go]): both flows of [orkano init]
      composed of these parts; which machines are trusted and touched when; the bootstrap
      token is never lost and never shown twice.
    - [InstallExample]: a machine, the installer theorems on it, a lost restart of the
      registry and an upgrade that did not happen.
    - [Probes], [Preflight] ([internal/preflight], [runPreflight] of [init.go]): probes that
      make calls under the runner; the gate lets a machine through only on answers that say
      so; the verdict of the clock check.
    - [Canary], [Doctor], [DoctorFacts], [DoctorNetpol], [DoctorReport] ([internal/doctor],
      [cli/internal/cmd/doctor.go], [dashboard/internal/server/doctor.go]): a passing check
      rests on answers; what the exposure, certificate, snapshot and network policy verdicts
      mean; canaries are removed; the exit code says what the report says; the face of the
      dashboard reads no Secret.
    - [ClusterPreflight], [ClusterFacts] ([internal/preflight/cluster]): the supported
      version window, the reviewed access set, and no verdict leaves a scratch namespace.

    ** Bounds and fuel

    Fixpoints are structural except where noted: [Plan]'s loop has as
    much fuel as there are checks, proved enough ([Plan_terminates]); splitting a list
    into blocks ([chunks], [groups], [runes]) takes the length as fuel, and each
    step consumes at least one element; the packet loop of the Git resolver has one
    more than the length of its input, proved enough ([advertisement_iff]); AES and SHA
    run their fixed number of rounds.  Waiting loops take the number of their looks: the
    dashboard rollout 62, proved enough when the clock advances by one interval a poll
    ([rollout_wait_returns]); a canary 90 sleeps of two seconds in its budget of three
    minutes, a scratch namespace 30 in one minute, at most six batches of canaries, which
    are the code's own constants.  The waits of the installer, of k3s and of [orkano init],
    whose contexts end when they please, take arbitrary fuel and give [None] without it; a
    theorem about them holds for every fuel and every answer.

    ** Not modelled

    Process start-up and the wiring in the [main] functions, flag parsing, the SSH and
    local transports of commands, the look-up of the primary address, log and progress
    lines, the wiring of the cluster preflight command, database migrations and the
    read-only queries, generated code, embedded manifests and templates, and the web front
    end.  JSON decoding, URL parsing, PEM, X.509 and RSA, YAML, time parsing and ZIP reading
    are arguments or calls.  Of the log routes the pumping of lines into server-sent events,
    and of the database tools the transport of the reverse proxy, are I/O. *)
From stdpp Require Export prelude gmap strings sorting pretty.

(** ** Results

    A Go function that returns [(T, error)] is modelled as a value of
    [result E T]: [Ok] when the error is nil, [Err] otherwise. *)
Inductive result (E A : Type) : Type :=
| Ok (a : A)
| Err (e : E).
Arguments Ok {_ _} _.
Arguments Err {_ _} _.

#[export] Instance result_ret E : MRet (result E) := λ A a, Ok a.
#[export] Instance result_bind E : MBind (result E) := λ A B f r,
  match r with Ok a => f a | Err e => Err e end.
#[export] Instance result_fmap E : FMap (result E) := λ A B f r,
  match r with Ok a => Ok (f a) | Err e => Err e end.

#[export] Instance result_eq_dec `{EqDecision E, EqDecision A} :
  EqDecision (result E A).
Proof. solve_decision. Defined.

Definition is_ok {E A} (r : result E A) : bool :=
  match r with Ok _ => true | Err _ => false end.

(** The Go test [p != nil] of a pointer. *)
Definition has {A} (o : option A) : bool := match o with Some _ => true | None => false end.

(** ** Machine integers

    Go's [int] and [int64] on the 64-bit targets Orkano ships for: two's
    complement wrap-around. *)
Definition i64_min : Z := - 2 ^ 63.
Definition i64_max : Z := 2 ^ 63 - 1.
Definition i64 (z : Z) : Z := (z + 2 ^ 63) `mod` 2 ^ 64 - 2 ^ 63.
Definition in_i64 (z : Z) : Prop := (i64_min ≤ z ≤ i64_max)%Z.

Lemma i64_id z : in_i64 z → i64 z = z.
Proof.
  unfold in_i64, i64, i64_min, i64_max. intros H.
  rewrite Z.mod_small; lia.
Qed.

Lemma i64_range z : in_i64 (i64 z).
Proof.
  unfold in_i64, i64, i64_min, i64_max.
  pose proof (Z.mod_pos_bound (z + 2 ^ 63) (2 ^ 64)). lia.
Qed.

(** ** Proof automation *)
Create HintDb orkano.

(** Decide every boolean equality and conditional the goal depends on. *)
Ltac split_ifs := repeat (case_match || case_decide); simplify_eq/=.

(** Clear a goal that follows from the branches the code takes. *)
Ltac by_cases := repeat (case_match; simplify_eq/=); try done; eauto with orkano.

#[export] Hint Resolve i64_range : orkano.

(** ** Lists *)
Lemma elem_of_filter_bool {A} (f : A → bool) (l : list A) x :
  x ∈ filter (λ y, Is_true (f y)) l ↔ f x = true ∧ x ∈ l.
Proof. rewrite list_elem_of_filter. by rewrite Is_true_true. Qed.

(** Position of an element that occurs in a list: the part before its first
    occurrence does not contain it. *)
Lemma elem_of_split_first `{EqDecision A} (l : list A) x :
  x ∈ l → ∃ l1 l2, l = l1 ++ x :: l2 ∧ x ∉ l1.
Proof.
  induction l as [|y l IH]; [by intros ?%not_elem_of_nil|].
  intros Hx. destruct (decide (x = y)) as [->|Hne].
  { exists [], l. split; [done|]. apply not_elem_of_nil. }
  apply elem_of_cons in Hx as [?|Hx]; [done|].
  destruct (IH Hx) as (l1 & l2 & -> & Hl1).
  exists (y :: l1), l2. split; [done|]. set_solver.
Qed.

Lemma StronglySorted_filter {A} (R : relation A) (P : A → Prop) `{∀ x, Decision (P x)} l :
  StronglySorted R l → StronglySorted R (filter P l).
Proof.
  induction 1 as [|x l Hs IH HF]; [constructor|].
  rewrite filter_cons. case_decide; [|done]. constructor; [done|].
  rewrite Forall_forall in HF |- *. intros y [_ ?]%list_elem_of_filter. auto.
Qed.

Lemma StronglySorted_lookup {A} (R : relation A) (l : list A) :
  (∀ i j x y, i < j → l !! i = Some x → l !! j = Some y → R x y) → StronglySorted R l.
Proof.
  induction l as [|x l IH]; intros Hl; constructor.
  - apply IH. intros i j ? ? ? ? ?. apply (Hl (S i) (S j)); [lia|done..].
  - apply Forall_forall. intros y [j Hj]%list_elem_of_lookup.
    apply (Hl 0 (S j)); [lia|done..].
Qed.

Lemma filter_all {A} (P : A → Prop) `{∀ x, Decision (P x)} (l : list A) :
  (∀ x, x ∈ l → P x) → filter P l = l.
Proof.
  induction l as [|x l IH]; intros HP; [done|].
  rewrite filter_cons, decide_True by set_solver. f_equal. apply IH. set_solver.
Qed.

Lemma filter_length_0 {A} (P : A → Prop) `{∀ x, Decision (P x)} (l : list A) :
  length (filter P l) = 0 ↔ ∀ x, x ∈ l → ¬ P x.
Proof.
  induction l as [|x l IH]; [set_solver|].
  rewrite filter_cons. case_decide; simpl; [|rewrite IH]; set_solver.
Qed.

(** Strengthening a filter to exclude one element of a duplicate-free list
    removes at most that element. *)
Lemma filter_length_exclude `{EqDecision A} (P : A → Prop) `{∀ x, Decision (P x)}
    (l : list A) (a : A) :
  NoDup l →
  length (filter P l) =
    length (filter (λ x, P x ∧ x ≠ a) l) + (if decide (a ∈ l ∧ P a) then 1 else 0).
Proof.
  induction l as [|x l IH]; intros Hnd; [by rewrite decide_False by set_solver|].
  apply NoDup_cons in Hnd as [Hx Hnd]. specialize (IH Hnd). rewrite !filter_cons.
  destruct (decide (x = a)) as [->|Hne].
  - rewrite (decide_False (P := P a ∧ a ≠ a)) by naive_solver.
    rewrite (decide_False (P := a ∈ l ∧ P a)) in IH by naive_solver.
    destruct (decide (P a)).
    + rewrite (decide_True (P := a ∈ a :: l ∧ P a)) by set_solver. simpl. lia.
    + rewrite (decide_False (P := a ∈ a :: l ∧ P a)) by set_solver. lia.
  - rewrite (decide_ext (a ∈ x :: l ∧ P a) (a ∈ l ∧ P a)) by set_solver.
    destruct (decide (P x)); [rewrite decide_True by done|rewrite decide_False by naive_solver];
      simpl; lia.
Qed.

Lemma filter_ext_in {A} (P Q : A → Prop) `{∀ x, Decision (P x), ∀ x, Decision (Q x)} (l : list A) :
  (∀ x, x ∈ l → P x ↔ Q x) → filter P l = filter Q l.
Proof.
  induction l as [|x l IH]; intros HPQ; [done|]. rewrite !filter_cons.
  rewrite IH by (intros; apply HPQ; by right).
  specialize (HPQ x ltac:(by left)). repeat case_decide; tauto || done.
Qed.

(** Filling a map from a list with distinct keys, as a Go loop does. *)
Lemma foldl_insert_notin {A V} (f : A → string) (g : A → V) (l : list A)
    (m : gmap string V) k :
  k ∉ f <$> l → foldl (λ m x, <[f x := g x]> m) m l !! k = m !! k.
Proof.
  revert m. induction l as [|x l IH]; intros m Hk; [done|].
  simpl. rewrite IH by set_solver. apply lookup_insert_ne. set_solver.
Qed.

Lemma foldl_insert_lookup {A V} (f : A → string) (g : A → V) (l : list A)
    (m : gmap string V) i x :
  NoDup (f <$> l) → l !! i = Some x →
  foldl (λ m x, <[f x := g x]> m) m l !! f x = Some (g x).
Proof.
  revert m i. induction l as [|y l IH]; intros m i Hnd Hi; [done|].
  simpl in *. apply NoDup_cons in Hnd as [Hy Hnd]. destruct i as [|i]; simplify_eq/=.
  - rewrite foldl_insert_notin by done. apply lookup_insert_eq.
  - eauto.
Qed.
