(* ===== verification/Regex.v ===== *)
(** * Regular expressions

    Orkano validates names, revisions and digests with anchored Go regular
    expressions ([regexp.MustCompile(`^...$`)] and CRD patterns).  This file
    holds the expression language those patterns use, an executable matcher by
    derivatives, its correctness against the language of an expression, and
    the facts about accepted words the components rely on.  A pattern is
    transcribed literally by the component that owns it. *)
From S2P Require Import Prelude.
From Stdlib Require Import Ascii.

Inductive re : Type :=
| Void
| Eps
| Cls (p : ascii → bool)
| Cat (r1 r2 : re)
| Alt (r1 r2 : re)
| Star (r : re).

(** Derived forms of the pattern syntax: a literal byte, [r+], [r?], [r{n}]. *)
Definition Lit (c : ascii) : re := Cls (λ d, bool_decide (d = c)).
Definition Plus (r : re) : re := Cat r (Star r).
Definition Opt (r : re) : re := Alt Eps r.

Fixpoint Rep (n : nat) (r : re) : re :=
  match n with 0 => Eps | S n => Cat r (Rep n r) end.

Fixpoint Word (s : string) : re :=
  match s with "" => Eps | String c s => Cat (Lit c) (Word s) end.

(** ** Byte classes *)
Definition in_range (lo hi : ascii) (c : ascii) : bool :=
  bool_decide (nat_of_ascii lo ≤ nat_of_ascii c ≤ nat_of_ascii hi).
Definition is_upper := in_range "A" "Z".
Definition is_lower := in_range "a" "z".
Definition is_digit := in_range "0" "9".
Definition is_hex (c : ascii) : bool := is_digit c || in_range "a" "f" c.
Definition is_alnum (c : ascii) : bool := is_upper c || is_lower c || is_digit c.
Definition one_of (s : string) (c : ascii) : bool :=
  bool_decide (c ∈ String.list_ascii_of_string s).

(** ** The language of an expression *)
Inductive re_match : re → list ascii → Prop :=
| match_eps : re_match Eps []
| match_cls p c : p c = true → re_match (Cls p) [c]
| match_cat r1 r2 s1 s2 : re_match r1 s1 → re_match r2 s2 → re_match (Cat r1 r2) (s1 ++ s2)
| match_alt_l r1 r2 s : re_match r1 s → re_match (Alt r1 r2) s
| match_alt_r r1 r2 s : re_match r2 s → re_match (Alt r1 r2) s
| match_star_nil r : re_match (Star r) []
| match_star_cons r s1 s2 : re_match r s1 → re_match (Star r) s2 → re_match (Star r) (s1 ++ s2).
#[export] Hint Constructors re_match : orkano.

(** ** The matcher *)
Fixpoint nullable (r : re) : bool :=
  match r with
  | Void | Cls _ => false
  | Eps | Star _ => true
  | Cat r1 r2 => nullable r1 && nullable r2
  | Alt r1 r2 => nullable r1 || nullable r2
  end.

Fixpoint deriv (c : ascii) (r : re) : re :=
  match r with
  | Void | Eps => Void
  | Cls p => if p c then Eps else Void
  | Cat r1 r2 =>
      if nullable r1 then Alt (Cat (deriv c r1) r2) (deriv c r2)
      else Cat (deriv c r1) r2
  | Alt r1 r2 => Alt (deriv c r1) (deriv c r2)
  | Star r => Cat (deriv c r) (Star r)
  end.

Fixpoint matchb (r : re) (s : list ascii) : bool :=
  match s with [] => nullable r | c :: s => matchb (deriv c r) s end.

(** [re.MatchString(s)] for a pattern anchored at both ends. *)
Definition MatchString (r : re) (s : string) : bool :=
  matchb r (String.list_ascii_of_string s).

(** ** Correctness of the matcher *)
Lemma nullable_spec r : nullable r = true ↔ re_match r [].
Proof.
  split.
  - induction r; simpl; intros H; try done; eauto with orkano.
    + apply andb_true_iff in H as [H1 H2].
      change (@nil ascii) with (@nil ascii ++ []). eauto with orkano.
    + apply orb_true_iff in H as [H|H]; eauto with orkano.
  - remember [] as s eqn:Hs. induction 1; simplify_eq/=; try done.
    + apply app_eq_nil in Hs as [-> ->]. by rewrite IHre_match1, IHre_match2.
    + by rewrite IHre_match.
    + rewrite IHre_match by done. apply orb_true_r.
Qed.

Lemma cat_cons_inv r1 r2 c s :
  re_match (Cat r1 r2) (c :: s) →
  (∃ s1 s2, s = s1 ++ s2 ∧ re_match r1 (c :: s1) ∧ re_match r2 s2) ∨
  (re_match r1 [] ∧ re_match r2 (c :: s)).
Proof.
  inversion 1 as [| |? ? s1 s2 H1 H2 | | | |]; simplify_eq.
  destruct s1 as [|c' s1]; simplify_eq/=; [by right|left; eauto].
Qed.

Lemma star_cons_inv r c s :
  re_match (Star r) (c :: s) →
  ∃ s1 s2, s = s1 ++ s2 ∧ re_match r (c :: s1) ∧ re_match (Star r) s2.
Proof.
  remember (Star r) as r' eqn:Hr. remember (c :: s) as w eqn:Hw.
  intros Hm. revert c s Hw. induction Hm as [| | | | | |r0 s1 s2 H1 _ H2 IH]; intros c0 s0 Hw;
    simplify_eq/=.
  destruct s1 as [|c' s1]; simplify_eq/=; eauto.
Qed.

Lemma deriv_spec c r s : re_match (deriv c r) s ↔ re_match r (c :: s).
Proof.
  revert s. induction r as [| |p|r1 IH1 r2 IH2|r1 IH1 r2 IH2|r IH]; intros s; simpl.
  - split; by inversion 1.
  - split; by inversion 1.
  - destruct (p c) eqn:Hp; split; inversion 1; simplify_eq; try congruence; [by apply match_cls|by apply match_eps].
  - destruct (nullable r1) eqn:Hn.
    + split.
      * inversion 1 as [| | |? ? ? Hm|? ? ? Hm| |]; simplify_eq.
        -- inversion Hm as [| |? ? s1 s2 Hm1 Hm2| | | |]; simplify_eq.
           rewrite app_comm_cons. constructor; [by apply IH1|done].
        -- apply IH2 in Hm. apply nullable_spec in Hn.
           change (c :: s) with ([] ++ c :: s). eauto with orkano.
      * intros [(s1&s2&->&?&?)|[? ?]]%cat_cons_inv.
        -- apply match_alt_l. constructor; [by apply IH1|done].
        -- apply match_alt_r. by apply IH2.
    + split.
      * inversion 1 as [| |? ? s1 s2 Hm1 Hm2| | | |]; simplify_eq.
        rewrite app_comm_cons. constructor; [by apply IH1|done].
      * intros [(s1&s2&->&?&?)|[Hm _]]%cat_cons_inv.
        -- constructor; [by apply IH1|done].
        -- apply nullable_spec in Hm. congruence.
  - split.
    + inversion 1; simplify_eq; [apply match_alt_l; by apply IH1|apply match_alt_r; by apply IH2].
    + inversion 1; simplify_eq; [apply match_alt_l; by apply IH1|apply match_alt_r; by apply IH2].
  - split.
    + inversion 1 as [| |? ? s1 s2 Hm1 Hm2| | | |]; simplify_eq.
      rewrite app_comm_cons. constructor; [by apply IH|done].
    + intros (s1&s2&->&?&?)%star_cons_inv. constructor; [by apply IH|done].
Qed.

Lemma matchb_spec r s : matchb r s = true ↔ re_match r s.
Proof.
  revert r. induction s as [|c s IH]; intros r; simpl.
  - apply nullable_spec.
  - by rewrite IH, deriv_spec.
Qed.

(** ** Bytes of accepted words *)
Fixpoint alphabet (r : re) (c : ascii) : bool :=
  match r with
  | Void | Eps => false
  | Cls p => p c
  | Cat r1 r2 | Alt r1 r2 => alphabet r1 c || alphabet r2 c
  | Star r => alphabet r c
  end.

Lemma re_match_alphabet r s : re_match r s → Forall (λ c, alphabet r c = true) s.
Proof.
  induction 1; simpl; eauto.
  - apply Forall_app; split; eapply Forall_impl; eauto; simpl; intros ? ->;
      auto using orb_true_r.
  - eapply Forall_impl; eauto; simpl; by intros ? ->.
  - eapply Forall_impl; eauto; simpl; intros ? ->; apply orb_true_r.
  - by apply Forall_app.
Qed.

Lemma MatchString_alphabet r s :
  MatchString r s = true → Forall (λ c, alphabet r c = true) (String.list_ascii_of_string s).
Proof. intros H%matchb_spec. by apply re_match_alphabet. Qed.

(** A class repeated [n] times accepts the words of length [n] over the class. *)
Lemma rep_cls_match n p s :
  re_match (Rep n (Cls p)) s ↔ length s = n ∧ Forall (λ c, p c = true) s.
Proof.
  revert s. induction n as [|n IH]; intros s; simpl.
  - split; [by inversion 1|]. intros [->%nil_length_inv _]. constructor.
  - split.
    + inversion 1 as [| |? ? s1 s2 Hm1 Hm2| | | |]; simplify_eq.
      inversion Hm1; simplify_eq/=. apply IH in Hm2 as [-> ?]. auto.
    + intros [Hl HF]. destruct s as [|c s]; simplify_eq/=.
      apply Forall_cons in HF as [Hc HF].
      change (c :: s) with ([c] ++ s). constructor; [by constructor|by apply IH].
Qed.

Lemma star_cls_match p s : re_match (Star (Cls p)) s ↔ Forall (λ c, p c = true) s.
Proof.
  split; [intros H%re_match_alphabet; exact H|].
  induction s as [|c s IH]; intros HF; [constructor|].
  apply Forall_cons in HF as [Hc HF].
  change (c :: s) with ([c] ++ s). eauto with orkano.
Qed.

Lemma plus_cls_match p s :
  re_match (Plus (Cls p)) s ↔ s ≠ [] ∧ Forall (λ c, p c = true) s.
Proof.
  split.
  - inversion 1 as [| |? ? s1 s2 Hm1 Hm2| | | |]; simplify_eq.
    inversion Hm1; simplify_eq/=. apply star_cls_match in Hm2. auto.
  - intros [Hne HF]. destruct s as [|c s]; [done|].
    apply Forall_cons in HF as [Hc HF].
    change (c :: s) with ([c] ++ s).
    constructor; [by constructor|by apply star_cls_match].
Qed.

(** A language whose classes are closed under a map of bytes is closed under it. *)
Fixpoint closed_under (f : ascii → ascii) (r : re) : Prop :=
  match r with
  | Void | Eps => True
  | Cls p => ∀ c, p c = true → p (f c) = true
  | Cat r1 r2 | Alt r1 r2 => closed_under f r1 ∧ closed_under f r2
  | Star r => closed_under f r
  end.

Lemma re_match_map f r s : closed_under f r → re_match r s → re_match r (f <$> s).
Proof.
  intros Hf Hm. induction Hm; simpl in *; destruct_and?; rewrite ?fmap_app; eauto with orkano.
Qed.
