(* ===== verification/GoStrings.v ===== *)
(** * Go strings

    The part of Go's [strings] package Orkano calls, on byte strings:
    [TrimSpace], [ToLower], [ToUpper], [Split], [Join], [TrimPrefix], [TrimRight], [Trim],
    [Contains], [Cut], [IndexByte], [FieldsFunc], [EqualFold] and slicing, with the facts the components use.  A Go string is
    a byte sequence, and so is [string].  White space follows
    [unicode.IsSpace], by the UTF-8 encodings of its runes.  Letter case
    and quoting outside ASCII need the Unicode tables, which are a parameter
    ([UnicodeTables]); inside ASCII both are defined here. *)
From S2P Require Import Prelude Regex.
From Stdlib Require Import Ascii.

Definition bytes (s : string) : list ascii := String.list_ascii_of_string s.
Definition of_bytes (l : list ascii) : string := String.string_of_list_ascii l.

(** [len(s)] *)
Definition len (s : string) : nat := String.length s.

(** [s[:n]], for [n <= len(s)] *)
Definition slice_to (n : nat) (s : string) : string := of_bytes (take n (bytes s)).

Definition byte (n : nat) : ascii := ascii_of_nat n.
Definition newline : ascii := byte 10.
Definition is_ascii (s : string) : bool := forallb (λ c, nat_of_ascii c <? 128) (bytes s).

(** ** TrimSpace *)
Definition space1 (c : ascii) : bool :=
  bool_decide (nat_of_ascii c ∈ [9; 10; 11; 12; 13; 32]).

Definition space2 (a b : ascii) : bool :=
  bool_decide ((nat_of_ascii a, nat_of_ascii b) ∈ [(194, 133); (194, 160)]).

Definition space3 (a b c : ascii) : bool :=
  let x := nat_of_ascii a in let y := nat_of_ascii b in let z := nat_of_ascii c in
  bool_decide ((x = 225 ∧ y = 154 ∧ z = 128) ∨
               (x = 226 ∧ y = 128 ∧ 128 ≤ z ≤ 138) ∨
               (x = 226 ∧ y = 128 ∧ z ∈ [168; 169; 175]) ∨
               (x = 226 ∧ y = 129 ∧ z = 159) ∨
               (x = 227 ∧ y = 128 ∧ z = 128)).

Fixpoint trim_front (s1 : ascii → bool) (s2 : ascii → ascii → bool)
    (s3 : ascii → ascii → ascii → bool) (l : list ascii) : list ascii :=
  match l with
  | [] => []
  | a :: l1 =>
      if s1 a then trim_front s1 s2 s3 l1 else
      match l1 with
      | [] => l
      | b :: l2 =>
          if s2 a b then trim_front s1 s2 s3 l2 else
          match l2 with
          | [] => l
          | c :: l3 => if s3 a b c then trim_front s1 s2 s3 l3 else l
          end
      end
  end.

Definition trim_left : list ascii → list ascii := trim_front space1 space2 space3.
Definition trim_right (l : list ascii) : list ascii :=
  rev (trim_front space1 (λ a b, space2 b a) (λ a b c, space3 c b a) (rev l)).
Definition TrimSpace (s : string) : string := of_bytes (trim_right (trim_left (bytes s))).

(** ** Cutsets (ASCII): [TrimRight], [Trim] *)
Fixpoint drop_while (p : ascii → bool) (l : list ascii) : list ascii :=
  match l with [] => [] | c :: l' => if p c then drop_while p l' else l end.

Definition TrimRight (s cutset : string) : string :=
  of_bytes (rev (drop_while (one_of cutset) (rev (bytes s)))).
Definition TrimLeft (s cutset : string) : string :=
  of_bytes (drop_while (one_of cutset) (bytes s)).
Definition Trim (s cutset : string) : string := TrimRight (TrimLeft s cutset) cutset.

(** ** Prefixes and substrings *)
Fixpoint HasPrefix (s prefix : string) : bool :=
  match prefix, s with
  | "", _ => true
  | String c p, String d s => bool_decide (c = d) && HasPrefix s p
  | String _ _, "" => false
  end.

Definition TrimPrefix (s prefix : string) : string :=
  if HasPrefix s prefix then of_bytes (drop (len prefix) (bytes s)) else s.

Definition HasSuffix (s suffix : string) : bool :=
  (len suffix <=? len s) && bool_decide (drop (len s - len suffix) (bytes s) = bytes suffix).
(** [strings.CutSuffix]; [None] when not found *)
Definition CutSuffix (s suffix : string) : option string :=
  if HasSuffix s suffix then Some (slice_to (len s - len suffix) s) else None.

Fixpoint Contains (s sub : string) : bool :=
  HasPrefix s sub || match s with "" => false | String _ s => Contains s sub end.

(** [strings.Cut(s, sep)] at a byte *)
Fixpoint cut_byte (sep : ascii) (l : list ascii) : option (list ascii * list ascii) :=
  match l with
  | [] => None
  | c :: l => if decide (c = sep) then Some ([], l) else (λ p, (c :: p.1, p.2)) <$> cut_byte sep l
  end.
Definition Cut (s : string) (sep : ascii) : option (string * string) :=
  (λ p, (of_bytes p.1, of_bytes p.2)) <$> cut_byte sep (bytes s).

(** First and last position of a byte. *)
Fixpoint IndexByte (l : list ascii) (c : ascii) : option nat :=
  match l with
  | [] => None
  | d :: l => if decide (d = c) then Some 0%nat else S <$> IndexByte l c
  end.
Fixpoint LastIndexByte (l : list ascii) (c : ascii) : option nat :=
  match l with
  | [] => None
  | d :: l =>
      match LastIndexByte l c with
      | Some i => Some (S i)
      | None => if decide (d = c) then Some 0%nat else None
      end
  end.

(** ** Split and Join *)
Fixpoint split_bytes (sep : ascii) (l : list ascii) : list (list ascii) :=
  match l with
  | [] => [[]]
  | c :: l =>
      if decide (c = sep) then [] :: split_bytes sep l
      else match split_bytes sep l with
           | [] => [[c]]
           | w :: ws => (c :: w) :: ws
           end
  end.
Definition Split (s : string) (sep : ascii) : list string := of_bytes <$> split_bytes sep (bytes s).

Fixpoint Join (l : list string) (sep : string) : string :=
  match l with
  | [] => ""
  | [s] => s
  | s :: l => s +:+ sep +:+ Join l sep
  end.

(** ** ToLower and ToUpper *)
Class UnicodeTables : Type := {
  unicode_lower : string → string;
  unicode_upper : string → string;
  unicode_quote : string → string;
  unicode_fold : string → string → bool;
}.

(** Tables that leave text outside ASCII alone, to evaluate examples. *)
Definition ascii_tables : UnicodeTables :=
  {| unicode_lower s := s; unicode_upper s := s; unicode_quote s := s; unicode_fold s t := bool_decide (s = t) |}.

Definition lower_ascii (c : ascii) : ascii :=
  if is_upper c then byte (nat_of_ascii c + 32) else c.
Definition ascii_lower (s : string) : string := of_bytes (lower_ascii <$> bytes s).

Definition ToLower `{UnicodeTables} (s : string) : string :=
  if is_ascii s then ascii_lower s else unicode_lower s.

Definition upper_ascii (c : ascii) : ascii :=
  if is_lower c then byte (nat_of_ascii c - 32) else c.
Definition ToUpper `{UnicodeTables} (s : string) : string :=
  if is_ascii s then of_bytes (upper_ascii <$> bytes s) else unicode_upper s.

(** [strings.EqualFold] *)
Definition EqualFold `{UnicodeTables} (s t : string) : bool :=
  if is_ascii s && is_ascii t then bool_decide (ascii_lower s = ascii_lower t) else unicode_fold s t.

(** [strings.FieldsFunc] with an ASCII predicate: the maximal runs outside it *)
Fixpoint fields_func (p : ascii → bool) (l cur : list ascii) : list (list ascii) :=
  match l with
  | [] => if decide (cur = []) then [] else [cur]
  | c :: l =>
      if p c then (if decide (cur = []) then fields_func p l [] else cur :: fields_func p l [])
      else fields_func p l (cur ++ [c])
  end.
Definition FieldsFunc (p : ascii → bool) (s : string) : list string := of_bytes <$> fields_func p (bytes s) [].

(** ** Formatting verbs: [%q] and [%v] of a string slice *)
Definition hex_digit (n : nat) : ascii :=
  if n <? 10 then byte (48 + n) else byte (87 + n).

Definition quote_byte (c : ascii) : list ascii :=
  let n := nat_of_ascii c in
  let esc x := [byte 92; x] in
  if bool_decide (n = 34 ∨ n = 92) then esc c
  else if n =? 7 then esc "a"%char else if n =? 8 then esc "b"%char
  else if n =? 12 then esc "f"%char else if n =? 10 then esc "n"%char
  else if n =? 13 then esc "r"%char else if n =? 9 then esc "t"%char
  else if n =? 11 then esc "v"%char
  else if (n <? 32) || (n =? 127) then
    [byte 92; "x"%char; hex_digit (n / 16); hex_digit (n mod 16)]
  else [c].

Definition Quote `{UnicodeTables} (s : string) : string :=
  if is_ascii s then of_bytes ([byte 34] ++ concat (quote_byte <$> bytes s) ++ [byte 34])
  else unicode_quote s.

Definition fmt_strings (l : list string) : string := "[" +:+ Join l " " +:+ "]".

(** ** Conversions *)
Lemma of_bytes_bytes s : of_bytes (bytes s) = s.
Proof. apply String.string_of_list_ascii_of_string. Qed.

Lemma bytes_of_bytes l : bytes (of_bytes l) = l.
Proof. apply String.list_ascii_of_string_of_list_ascii. Qed.

Lemma bytes_inj s t : bytes s = bytes t → s = t.
Proof. intros H. by rewrite <- (of_bytes_bytes s), H, of_bytes_bytes. Qed.

Lemma bytes_app s t : bytes (s +:+ t) = bytes s ++ bytes t.
Proof. induction s; simpl; [done|]. unfold bytes in *. simpl. by f_equal. Qed.

Lemma str_app_assoc (s t u : string) : (s +:+ t) +:+ u = s +:+ t +:+ u.
Proof. apply bytes_inj. by rewrite !bytes_app, <- app_assoc. Qed.

Lemma len_bytes s : len s = length (bytes s).
Proof. unfold len, bytes. induction s; simpl; [done|]. by f_equal. Qed.

Lemma len_app s t : len (s +:+ t) = len s + len t.
Proof. by rewrite !len_bytes, bytes_app, length_app. Qed.

Lemma len_slice_to n s : len (slice_to n s) = min n (len s).
Proof. unfold slice_to. by rewrite !len_bytes, bytes_of_bytes, length_take. Qed.

Create Rewrite HintDb gostr.
#[export] Hint Rewrite of_bytes_bytes bytes_of_bytes bytes_app : gostr.

(** ** Prefixes and substrings *)
Lemma HasPrefix_spec s p : HasPrefix s p = true ↔ ∃ t, bytes s = bytes p ++ t.
Proof.
  revert s. induction p as [|c p IH]; intros s; simpl.
  { split; [intros _; by exists (bytes s)|by destruct s]. }
  destruct s as [|d s]; [split; [done|by intros [? ?]]|].
  simpl. rewrite andb_true_iff, bool_decide_eq_true, IH.
  change (bytes (String d s)) with (d :: bytes s). split.
  - intros (-> & t & ->). by exists t.
  - intros [t [= -> Ht]]. eauto.
Qed.

Lemma CutSuffix_spec s suffix t : CutSuffix s suffix = Some t ↔ s = t +:+ suffix.
Proof.
  unfold CutSuffix, HasSuffix. split.
  - destruct (_ && _) eqn:H; [|done]. apply andb_true_iff in H as [_ H%bool_decide_eq_true]. intros [= <-].
    apply bytes_inj. rewrite bytes_app, <- H. unfold slice_to. rewrite bytes_of_bytes. by rewrite take_drop.
  - intros ->. rewrite len_app, Nat.add_sub. unfold slice_to.
    rewrite bytes_app, !len_bytes, drop_app_length, take_app_length, bool_decide_true, of_bytes_bytes by done.
    by rewrite (proj2 (Nat.leb_le _ _)) by lia.
Qed.

Lemma Contains_unfold s sub :
  Contains s sub = HasPrefix s sub || match s with "" => false | String _ s => Contains s sub end.
Proof. by destruct s. Qed.

Lemma Contains_spec s sub : Contains s sub = true ↔ ∃ a c, bytes s = a ++ bytes sub ++ c.
Proof.
  induction s as [|d s IH]; rewrite Contains_unfold, orb_true_iff, HasPrefix_spec.
  - split; [intros [[t Ht]|Hf]; [by exists [], t|discriminate Hf]|].
    intros (a & c & Hb). left. destruct a; [by exists c|discriminate Hb].
  - rewrite IH. split.
    + intros [[t Ht]|(a & c & Hb)]; [by exists [], t|exists (d :: a), c].
      change (bytes (String d s)) with (d :: bytes s). by rewrite Hb.
    + intros ([|e a] & c & Hb); [left; by exists c|right]. exists a, c.
      change (bytes (String d s)) with (d :: bytes s) in Hb. by injection Hb as _ ->.
Qed.

(** A part of a string contains no more than the string. *)
Lemma Contains_part s t a c sub :
  bytes s = a ++ bytes t ++ c → Contains s sub = false → Contains t sub = false.
Proof.
  intros Hb Hs. apply not_true_iff_false. intros (a' & c' & Ht)%Contains_spec.
  apply not_true_iff_false in Hs. apply Hs, Contains_spec. exists (a ++ a'), (c' ++ c).
  by rewrite Hb, Ht, <- !app_assoc.
Qed.

(** ** ASCII case *)
Definition all_ascii (P : ascii → bool) : bool :=
  forallb (λ n, P (ascii_of_nat n)) (seq 0 256).

(** A boolean property of bytes holds of every byte when it holds of the 256. *)
Lemma all_ascii_forall P : all_ascii P = true → ∀ c, P c = true.
Proof.
  intros H c. unfold all_ascii in H. rewrite forallb_forall in H.
  rewrite <- (ascii_nat_embedding c). apply H.
  apply in_seq. pose proof (nat_ascii_bounded c). lia.
Qed.

Lemma lower_ascii_idemp c : lower_ascii (lower_ascii c) = lower_ascii c.
Proof.
  apply (bool_decide_eq_true_1 (lower_ascii (lower_ascii c) = lower_ascii c)). revert c.
  apply all_ascii_forall. vm_compute. reflexivity.
Qed.

Lemma ascii_lower_idemp s : ascii_lower (ascii_lower s) = ascii_lower s.
Proof.
  unfold ascii_lower. rewrite bytes_of_bytes, <- list_fmap_compose. f_equal.
  apply list_fmap_ext. intros i c _. apply lower_ascii_idemp.
Qed.

Lemma len_ascii_lower s : len (ascii_lower s) = len s.
Proof. unfold ascii_lower. by rewrite !len_bytes, bytes_of_bytes, length_fmap. Qed.

Lemma is_ascii_Forall s :
  is_ascii s = true ↔ Forall (λ c, nat_of_ascii c < 128) (bytes s).
Proof.
  unfold is_ascii. rewrite forallb_forall, Forall_forall.
  setoid_rewrite list_elem_of_In. setoid_rewrite Nat.ltb_lt. done.
Qed.

Lemma ToLower_ascii `{UnicodeTables} s : is_ascii s = true → ToLower s = ascii_lower s.
Proof. unfold ToLower. by intros ->. Qed.

(** ** Trimming words without white space *)
Definition solid (c : ascii) : bool := negb (space1 c) && (nat_of_ascii c <? 128).

Lemma trim_front_solid l (s1 : ascii → bool) s2 s3 :
  (∀ c, solid c = true → s1 c = false) →
  (∀ a b, solid a = true → s2 a b = false) →
  (∀ a b c, solid a = true → s3 a b c = false) →
  (∀ c l', l = c :: l' → solid c = true) →
  trim_front s1 s2 s3 l = l.
Proof.
  intros H1 H2 H3 Hl. destruct l as [|a l]; [done|].
  pose proof (Hl a l eq_refl) as Ha. simpl. rewrite H1 by done.
  destruct l as [|b l]; [done|]. rewrite H2 by done.
  destruct l as [|c l]; [done|]. by rewrite H3.
Qed.

Lemma solid_inv c : solid c = true → space1 c = false ∧ nat_of_ascii c < 128.
Proof.
  unfold solid. rewrite andb_true_iff, negb_true_iff, Nat.ltb_lt. done.
Qed.

Lemma space2_solid_l a b : solid a = true → space2 a b = false.
Proof.
  intros [_ ?]%solid_inv. apply bool_decide_eq_false_2.
  rewrite !elem_of_cons, elem_of_nil. intros [?|[?|?]]; simplify_eq; lia.
Qed.

Lemma space2_solid_r a b : solid b = true → space2 a b = false.
Proof.
  intros [_ ?]%solid_inv. apply bool_decide_eq_false_2.
  rewrite !elem_of_cons, elem_of_nil. intros [?|[?|?]]; simplify_eq; lia.
Qed.

Lemma space3_solid_l a b c : solid a = true → space3 a b c = false.
Proof. intros [_ ?]%solid_inv. apply bool_decide_eq_false_2. lia. Qed.

Lemma space3_solid_r a b c : solid c = true → space3 a b c = false.
Proof.
  intros [_ ?]%solid_inv. apply bool_decide_eq_false_2.
  rewrite !elem_of_cons, elem_of_nil. lia.
Qed.

Lemma solid_space1 c : solid c = true → space1 c = false.
Proof. by intros [? _]%solid_inv. Qed.

(** [TrimSpace] leaves a word alone whose bytes are all ASCII non-spaces. *)
Lemma TrimSpace_solid s : Forall (λ c, solid c = true) (bytes s) → TrimSpace s = s.
Proof.
  intros HF. unfold TrimSpace, trim_left, trim_right.
  rewrite (trim_front_solid (bytes s));
    [|exact solid_space1|exact space2_solid_l|exact space3_solid_l|].
  2:{ intros c l' Hl. rewrite Hl in HF. by apply Forall_cons in HF as [? _]. }
  rewrite trim_front_solid;
    [|exact solid_space1|intros; by apply space2_solid_r|intros; by apply space3_solid_r|].
  - by rewrite rev_involutive, of_bytes_bytes.
  - intros c l' Hl. apply Forall_forall with (x := c) in HF; [done|].
    apply list_elem_of_In, in_rev. rewrite Hl. by left.
Qed.

Lemma cut_byte_spec sep l a b : cut_byte sep l = Some (a, b) → l = a ++ sep :: b.
Proof.
  revert a. induction l as [|c l IH]; intros a; [done|]. simpl. case_decide as Hc; [by intros [= <- <-]; subst|].
  destruct (cut_byte sep l) as [[a' b']|]; [|done]. intros [= <- <-]. simpl. f_equal. by apply IH.
Qed.

Lemma cut_byte_first sep a b : sep ∉ a → cut_byte sep (a ++ sep :: b) = Some (a, b).
Proof.
  induction a as [|c a IH]; intros Ha; cbn; [by rewrite decide_True|].
  rewrite decide_False by set_solver. by rewrite IH by set_solver.
Qed.
Lemma LastIndexByte_last c l r : c ∉ r → LastIndexByte (l ++ c :: r) c = Some (length l).
Proof.
  intros Hr. assert (Hn : LastIndexByte r c = None).
  { induction r as [|d r IH]; [done|]. cbn. rewrite IH by set_solver. by rewrite decide_False by set_solver. }
  induction l as [|d l IH]; cbn; [by rewrite Hn, decide_True|]. by rewrite IH.
Qed.

(** ** Split undoes Join *)
Lemma split_bytes_app sep w l :
  sep ∉ w → split_bytes sep (w ++ sep :: l) = w :: split_bytes sep l.
Proof.
  induction w as [|c w IH]; intros Hw; simpl.
  - by rewrite decide_True.
  - rewrite decide_False by set_solver. by rewrite IH by set_solver.
Qed.

Lemma split_bytes_single sep w : sep ∉ w → split_bytes sep w = [w].
Proof.
  induction w as [|c w IH]; intros Hw; simpl; [done|].
  rewrite decide_False by set_solver. by rewrite IH by set_solver.
Qed.

Lemma Split_field sep s t :
  sep ∉ bytes s → Split (s +:+ String sep t) sep = s :: Split t sep.
Proof.
  intros Hs. unfold Split. rewrite bytes_app. change (bytes (String sep t)) with (sep :: bytes t).
  by rewrite split_bytes_app, fmap_cons, of_bytes_bytes.
Qed.

Lemma Split_last sep s : sep ∉ bytes s → Split s sep = [s].
Proof. intros Hs. unfold Split. rewrite split_bytes_single by done. simpl. by rewrite of_bytes_bytes. Qed.

(** A byte missing from a literal. *)
Lemma not_in_literal (c : ascii) s : forallb (λ d, negb (bool_decide (d = c))) (bytes s) = true → c ∉ bytes s.
Proof.
  rewrite forallb_forall. intros HF Hin%list_elem_of_In%HF.
  by apply negb_true_iff, bool_decide_eq_false in Hin.
Qed.

Lemma Split_Join sep (l : list string) :
  l ≠ [] → Forall (λ w, sep ∉ bytes w) l → Split (Join l (String sep "")) sep = l.
Proof.
  intros Hne HF. unfold Split. induction l as [|w l IH]; [done|].
  apply Forall_cons in HF as [Hw HF]. destruct l as [|w' l].
  - simpl. rewrite split_bytes_single by done. simpl. by rewrite of_bytes_bytes.
  - change (Join (w :: w' :: l) (String sep "")) with
      (w +:+ String sep "" +:+ Join (w' :: l) (String sep "")).
    assert (Hb : bytes (w +:+ String sep "" +:+ Join (w' :: l) (String sep "")) =
        bytes w ++ sep :: bytes (Join (w' :: l) (String sep ""))).
    { by rewrite !bytes_app. }
    rewrite Hb, split_bytes_app by done. by rewrite fmap_cons, of_bytes_bytes, IH.
Qed.

(** The line format used by the allowlist: every word is followed by a
    separator, so the split ends with one empty word. *)
Lemma Split_Join_terminated sep (l : list string) :
  l ≠ [] → Forall (λ w, sep ∉ bytes w) l →
  Split (Join l (String sep "") +:+ String sep "") sep = l ++ [""].
Proof.
  intros Hne HF. unfold Split. induction l as [|w l IH]; [done|].
  apply Forall_cons in HF as [Hw HF]. destruct l as [|w' l].
  - simpl. rewrite bytes_app. change (bytes (String sep "")) with [sep].
    rewrite split_bytes_app by done. simpl. by rewrite of_bytes_bytes.
  - change (Join (w :: w' :: l) (String sep "")) with
      (w +:+ String sep "" +:+ Join (w' :: l) (String sep "")).
    assert (Hb : bytes ((w +:+ String sep "" +:+ Join (w' :: l) (String sep "")) +:+
        String sep "") = bytes w ++ sep :: bytes (Join (w' :: l) (String sep "") +:+ String sep "")).
    { by rewrite !bytes_app, <- !app_assoc. }
    rewrite Hb, split_bytes_app by done.
    by rewrite fmap_cons, of_bytes_bytes, IH.
Qed.
