(* ===== verification/CheckRegistry.v ===== *)
(** * The check registry

    Models [api/check/check.go] and [internal/checks/registry.go]: the check
    contract, registration with its validation, and [Plan], the walk of the
    requirement graph (Kahn's algorithm with registration order as tie-break).

    [Plan] is compared with a reference definition, [greedy], that repeatedly
    takes the earliest-registered check whose requirements were all taken. *)
From S2P Require Import Prelude GoStrings.

(** ** The contract ([api/check/check.go]) *)
Inductive Severity : Type :=
| SeverityCritical
| SeverityWarning
| SeverityInfo
| SeverityOther (s : string).

Inductive Status : Type :=
| StatusPass
| StatusFail
| StatusSkip
| StatusOther (s : string).

Record Result : Type := mkResult { ResultStatus : Status; ResultMessage : string }.

(** A Go call either returns or panics with a value, known by its text. *)
Inductive panics (A : Type) : Type :=
| Returned (a : A)
| Panicked (p : string).
Arguments Returned {_} _.
Arguments Panicked {_} _.

(** [W] is what probes observe and fixes change: the cluster, the node, the
    clock.  An [error] is known by its text. *)
Record Check (W : Type) : Type := mkCheck {
  ID : string;
  CheckSeverity : Severity;
  CheckSummary : string;
  CheckRemediation : string;
  Requires : list string;
  Probe : option (W → panics (result string Result) * W);
  Fix : option (W → panics (option string) * W);
}.
Arguments mkCheck {_} _ _ _ _ _ _ _.
Arguments ID {_} _.
Arguments CheckSeverity {_} _.
Arguments CheckSummary {_} _.
Arguments CheckRemediation {_} _.
Arguments Requires {_} _.
Arguments Probe {_} _.
Arguments Fix {_} _.

(** ** Registration ([internal/checks/registry.go]) *)
Inductive RegisterError : Type :=
| ErrEmptyID
| ErrNoProbe (id : string)
| ErrInvalidSeverity (id : string)
| ErrDuplicateID (id : string).

Inductive GraphError : Type :=
| ErrMissingRequirement (id req : string)
| ErrCycle (stuck : list string).

Record Registry (W : Type) : Type := mkRegistry {
  byID : gmap string (Check W);
  order : list string;
}.
Arguments mkRegistry {_} _ _.
Arguments byID {_} _.
Arguments order {_} _.

Section registry.
Context {W : Type}.
Implicit Types (r : Registry W) (c : Check W).

Definition New : Registry W := mkRegistry ∅ [].

Fixpoint dedupe_loop (seen : gset string) (out ids : list string) : list string :=
  match ids with
  | [] => out
  | id :: ids =>
      if decide (id ∈ seen) then dedupe_loop seen out ids
      else dedupe_loop ({[id]} ∪ seen) (out ++ [id]) ids
  end.

Definition dedupe (ids : list string) : list string :=
  if length ids <? 2 then ids else dedupe_loop ∅ [] ids.

Definition set_Requires c (reqs : list string) : Check W :=
  mkCheck (ID c) (CheckSeverity c) (CheckSummary c) (CheckRemediation c) reqs
    (Probe c) (Fix c).

Definition Register r c : result RegisterError (Registry W) :=
  if decide (ID c = "") then Err ErrEmptyID else
  match Probe c with
  | None => Err (ErrNoProbe (ID c))
  | Some _ =>
      match CheckSeverity c with
      | SeverityOther _ => Err (ErrInvalidSeverity (ID c))
      | SeverityCritical | SeverityWarning | SeverityInfo =>
          match byID r !! ID c with
          | Some _ => Err (ErrDuplicateID (ID c))
          | None =>
              Ok (mkRegistry (<[ID c := set_Requires c (dedupe (Requires c))]> (byID r))
                    (order r ++ [ID c]))
          end
      end
  end.

Definition Get r (id : string) : option (Check W) := byID r !! id.

Definition Len r : nat := length (order r).

(** [r.byID[id].Requires]; the zero [Check] has none. *)
Definition requires r (id : string) : list string :=
  match byID r !! id with Some c => Requires c | None => [] end.

(** ** Plan *)
Definition index_of (ids : list string) : gmap string nat :=
  foldl (λ m p, <[p.2 := p.1]> m) ∅ (imap pair ids).

(** Reading a Go map gives the zero value for a missing key. *)
Definition geti (m : gmap string Z) (k : string) : Z := default 0%Z (m !! k).
Definition getn (m : gmap string nat) (k : string) : nat := default 0 (m !! k).
Definition getl (m : gmap string (list string)) (k : string) : list string :=
  default [] (m !! k).

Abbreviation degrees := (gmap string Z).
Abbreviation edges := (gmap string (list string)).

Fixpoint scan_requires r (id : string) (reqs : list string) (st : degrees * edges)
    : result GraphError (degrees * edges) :=
  match reqs with
  | [] => Ok st
  | req :: reqs =>
      match byID r !! req with
      | None => Err (ErrMissingRequirement id req)
      | Some _ =>
          scan_requires r id reqs
            (<[id := (geti st.1 id + 1)%Z]> st.1, <[req := getl st.2 req ++ [id]]> st.2)
      end
  end.

Fixpoint scan_order r (ids : list string) (st : degrees * edges)
    : result GraphError (degrees * edges) :=
  match ids with
  | [] => Ok st
  | id :: ids => st' ← scan_requires r id (requires r id) st; scan_order r ids st'
  end.

(** The inner loop over [dependents[id]]: one requirement of each is now met. *)
Fixpoint release (deps : list string) (indegree : degrees) (ready : list string)
    : degrees * list string :=
  match deps with
  | [] => (indegree, ready)
  | dep :: deps =>
      let n := (geti indegree dep - 1)%Z in
      release deps (<[dep := n]> indegree) (if decide (n = 0%Z) then ready ++ [dep] else ready)
  end.

Record walk : Type := mkWalk {
  ready : list string;
  indegree : degrees;
  emitted : list string;
}.

(** [cmp.Compare(idx[a], idx[b]) <= 0] *)
Definition not_after (idx : gmap string nat) (a b : string) : Prop := getn idx a ≤ getn idx b.
#[global] Instance not_after_dec idx : RelDecision (not_after idx).
Proof. intros a b. unfold not_after. apply _. Defined.

(** The outer loop, [for len(ready) > 0].  Every iteration emits one check and
    no check is emitted twice, so [length (order r)] iterations are enough:
    [Plan_terminates] shows that the loop ends with [ready] empty. *)
Fixpoint kahn (idx : gmap string nat) (dependents : edges) (fuel : nat) (s : walk) : walk :=
  match fuel with
  | 0 => s
  | S fuel =>
      match merge_sort (not_after idx) (ready s) with
      | [] => s
      | id :: rest =>
          let '(indegree', ready') := release (getl dependents id) (indegree s) rest in
          kahn idx dependents fuel (mkWalk ready' indegree' (emitted s ++ [id]))
      end
  end.

Definition start r (indegree : degrees) : walk :=
  mkWalk (filter (λ id, geti indegree id = 0%Z) (order r)) indegree [].

Definition Plan r : result GraphError (list (Check W)) :=
  st ← scan_order r (order r) (∅, ∅);
  let s := kahn (index_of (order r)) st.2 (length (order r)) (start r st.1) in
  if length (emitted s) <? length (order r) then
    Err (ErrCycle (filter (λ id, geti (indegree s) id > 0)%Z (order r)))
  else Ok (omap (λ id, byID r !! id) (emitted s)).

(** ** Reference definition of the order *)

(** A check is next after [taken] when it was not taken and all it requires was. *)
Definition next_after r (taken : list string) (id : string) : Prop :=
  (id ∉ taken) ∧ Forall (λ req, req ∈ taken) (requires r id).
#[global] Instance next_after_dec r taken id : Decision (next_after r taken id).
Proof. unfold next_after. apply _. Defined.

Fixpoint greedy r (fuel : nat) (taken : list string) : list string :=
  match fuel with
  | 0 => taken
  | S fuel =>
      match filter (next_after r taken) (order r) with
      | [] => taken
      | id :: _ => greedy r fuel (taken ++ [id])
      end
  end.

(** ** The registry invariant *)
Definition known_severity (s : Severity) : bool :=
  match s with SeverityOther _ => false | _ => true end.

Record wf r : Prop := {
  wf_order : NoDup (order r);
  wf_dom id : id ∈ order r ↔ is_Some (byID r !! id);
  wf_check id c : byID r !! id = Some c →
    ID c = id ∧ id ≠ "" ∧ is_Some (Probe c) ∧
    known_severity (CheckSeverity c) = true ∧ NoDup (Requires c);
}.

(** What a program that only registers checks can reach. *)
Inductive reachable : Registry W → Prop :=
| reachable_new : reachable New
| reachable_register r c r' : reachable r → Register r c = Ok r' → reachable r'.

(** A registry is closed when every requirement is registered. *)
Definition closed r : Prop :=
  ∀ id req, id ∈ order r → req ∈ requires r id → is_Some (byID r !! req).

(** ** Lemmas: deduplication and registration *)
Lemma dedupe_loop_spec ids seen out :
  (∀ x, x ∈ seen ↔ x ∈ out) → NoDup out →
  NoDup (dedupe_loop seen out ids) ∧
  (∀ x, x ∈ dedupe_loop seen out ids ↔ x ∈ out ∨ x ∈ ids).
Proof.
  revert seen out. induction ids as [|id ids IH]; intros seen out Hseen Hnd; simpl.
  { set_solver. }
  case_decide as Hid.
  - destruct (IH seen out) as [? Hx]; [done..|]. set_solver.
  - destruct (IH ({[id]} ∪ seen) (out ++ [id])) as [? Hx]; [set_solver| |set_solver].
    apply NoDup_app. split; [done|]. split; [set_solver|apply NoDup_singleton].
Qed.

Lemma dedupe_NoDup ids : NoDup (dedupe ids).
Proof.
  unfold dedupe. destruct (length ids <? 2) eqn:Hl.
  - destruct ids as [|x [|y ids]]; [constructor|apply NoDup_singleton|done].
  - apply dedupe_loop_spec; [set_solver|constructor].
Qed.

Lemma elem_of_dedupe ids x : x ∈ dedupe ids ↔ x ∈ ids.
Proof.
  unfold dedupe. destruct (length ids <? 2); [done|].
  destruct (dedupe_loop_spec ids ∅ []) as [_ ->]; [set_solver|constructor|set_solver].
Qed.

Lemma Register_Ok_inv r c r' :
  Register r c = Ok r' →
  ID c ≠ "" ∧ is_Some (Probe c) ∧ known_severity (CheckSeverity c) = true ∧
  byID r !! ID c = None ∧
  r' = mkRegistry (<[ID c := set_Requires c (dedupe (Requires c))]> (byID r)) (order r ++ [ID c]).
Proof.
  unfold Register. case_decide; [done|].
  destruct (Probe c); [|done]. destruct (CheckSeverity c); try done;
    (destruct (byID r !! ID c); intros; simplify_eq; eauto 10).
Qed.

Lemma Register_wf r c r' : wf r → Register r c = Ok r' → wf r'.
Proof.
  intros [Hnd Hdom Hc] (Hne & Hp & Hs & Hnone & ->)%Register_Ok_inv. split; simpl.
  - apply NoDup_app. split_and!; [done| |apply NoDup_singleton].
    intros x Hx ->%list_elem_of_singleton. apply Hdom in Hx. rewrite Hnone in Hx. by destruct Hx.
  - intros id. rewrite elem_of_app, list_elem_of_singleton, lookup_insert_is_Some, Hdom.
    destruct (decide (ID c = id)); naive_solver.
  - intros id d. rewrite lookup_insert_Some. intros [[<- <-]|[_ Hd]]; [|by apply Hc].
    simpl. split_and!; auto using dedupe_NoDup.
Qed.

Lemma New_wf : wf New.
Proof.
  split; simpl; [constructor| |done].
  intros id. rewrite lookup_empty. split; [set_solver|by intros [? ?]].
Qed.

Lemma reachable_wf r : reachable r → wf r.
Proof. induction 1; eauto using New_wf, Register_wf. Qed.

Lemma requires_NoDup r id : wf r → NoDup (requires r id).
Proof.
  intros Hwf. unfold requires. destruct (byID r !! id) eqn:Hc; [|constructor].
  by apply Hwf in Hc as (_&_&_&_&?).
Qed.

Lemma requires_registered r id : wf r → requires r id ≠ [] → id ∈ order r.
Proof.
  intros Hwf. unfold requires. destruct (byID r !! id) eqn:Hc; [|done].
  intros _. apply Hwf. eauto.
Qed.
End registry.

(** ** Lemmas: the two scans of [Plan] *)
Section scan.
Context {W : Type} (r : Registry W).

(** Effect of scanning one check's requirements, all registered. *)
Lemma scan_requires_Ok id reqs ind dep :
  Forall (λ req, is_Some (byID r !! req)) reqs → NoDup reqs →
  ∃ ind' dep', scan_requires r id reqs (ind, dep) = Ok (ind', dep') ∧
    (∀ x, geti ind' x = geti ind x + Z.of_nat (if decide (x = id) then length reqs else 0%nat))%Z ∧
    (∀ q, getl dep' q = getl dep q ++ (if decide (q ∈ reqs) then [id] else [])).
Proof.
  revert ind dep. induction reqs as [|req reqs IH]; intros ind dep HF Hnd.
  { exists ind, dep. split_and!; [done| |].
    - intros x. case_decide; simpl; lia.
    - intros q. rewrite decide_False by set_solver. by rewrite app_nil_r. }
  apply Forall_cons in HF as [[c Hc] HF]. apply NoDup_cons in Hnd as [Hreq Hnd]. simpl.
  rewrite Hc.
  destruct (IH (<[id := (geti ind id + 1)%Z]> ind) (<[req := getl dep req ++ [id]]> dep))
    as (ind' & dep' & -> & Hi & Hd); [done..|].
  exists ind', dep'. split_and!; [done| |].
  - intros x. rewrite Hi. unfold geti at 1. rewrite lookup_insert.
    destruct (decide (id = x)) as [->|]; simpl.
    + rewrite !decide_True by done. lia.
    + by rewrite !decide_False by done.
  - intros q. rewrite Hd. unfold getl at 1. rewrite lookup_insert.
    destruct (decide (req = q)) as [->|]; simpl.
    + rewrite (decide_False (P := q ∈ reqs)), decide_True by set_solver.
      by rewrite app_nil_r.
    + by rewrite (decide_ext (q ∈ req :: reqs) (q ∈ reqs)) by set_solver.
Qed.

Lemma scan_requires_Err id reqs st e :
  scan_requires r id reqs st = Err e →
  ∃ req, e = ErrMissingRequirement id req ∧ req ∈ reqs ∧ byID r !! req = None.
Proof.
  revert st. induction reqs as [|req reqs IH]; intros st; simpl; [done|].
  destruct (byID r !! req) eqn:Hreq.
  - intros (q & -> & ? & ?)%IH. exists q. set_solver.
  - intros [= <-]. exists req. set_solver.
Qed.

Lemma scan_requires_missing id reqs st :
  (∃ req, req ∈ reqs ∧ byID r !! req = None) → ∃ e, scan_requires r id reqs st = Err e.
Proof.
  revert st. induction reqs as [|req reqs IH]; intros st (q & Hq & Hn); [set_solver|]. simpl.
  destruct (byID r !! req) eqn:Hreq; [|eauto].
  apply IH. exists q. split; [|done]. apply elem_of_cons in Hq as [->|?]; [congruence|done].
Qed.

Lemma scan_order_Err ids st e :
  scan_order r ids st = Err e →
  ∃ id req, e = ErrMissingRequirement id req ∧ id ∈ ids ∧ req ∈ requires r id ∧
    byID r !! req = None.
Proof.
  revert st. induction ids as [|id ids IH]; intros st; simpl; [done|].
  destruct (scan_requires r id (requires r id) st) as [st'|e'] eqn:Hs; simpl.
  - intros (x & q & -> & ? & ? & ?)%IH. exists x, q. set_solver.
  - intros [= <-]. apply scan_requires_Err in Hs as (q & -> & ? & ?).
    exists id, q. set_solver.
Qed.

Lemma scan_order_missing ids st :
  (∃ id req, id ∈ ids ∧ req ∈ requires r id ∧ byID r !! req = None) →
  ∃ e, scan_order r ids st = Err e.
Proof.
  revert st. induction ids as [|id ids IH]; intros st (x & q & Hx & Hq & Hn); [set_solver|].
  simpl. destruct (scan_requires r id (requires r id) st) as [st'|e'] eqn:Hs; simpl; [|eauto].
  apply elem_of_cons in Hx as [->|Hx]; [|apply IH; by exists x, q].
  destruct (scan_requires_missing id (requires r id) st) as [e He]; [eauto|congruence].
Qed.

Definition dependents_in (ids : list string) (q : string) : list string :=
  filter (λ id, q ∈ requires r id) ids.

Lemma scan_order_Ok ids ind dep :
  wf r → NoDup ids → (∀ id req, id ∈ ids → req ∈ requires r id → is_Some (byID r !! req)) →
  ∃ ind' dep', scan_order r ids (ind, dep) = Ok (ind', dep') ∧
    (∀ x, geti ind' x =
       geti ind x + Z.of_nat (if decide (x ∈ ids) then length (requires r x) else 0%nat))%Z ∧
    (∀ q, getl dep' q = getl dep q ++ dependents_in ids q).
Proof.
  intros Hwf. revert ind dep. induction ids as [|id ids IH]; intros ind dep Hnd Hreg.
  { exists ind, dep. split_and!; [done| |].
    - intros x. rewrite decide_False by set_solver. lia.
    - intros q. by rewrite app_nil_r. }
  apply NoDup_cons in Hnd as [Hid Hnd].
  destruct (scan_requires_Ok id (requires r id) ind dep) as (i1 & d1 & Hs & Hi1 & Hd1).
  { apply Forall_forall. intros q Hq. apply (Hreg id); set_solver. }
  { by apply requires_NoDup. }
  destruct (IH i1 d1) as (ind' & dep' & Hs' & Hi & Hd); [done|set_solver|].
  exists ind', dep'. simpl. rewrite Hs. simpl. split_and!; [done| |].
  - intros x. rewrite Hi, Hi1. destruct (decide (x = id)) as [->|].
    + rewrite (decide_False (P := id ∈ ids)), decide_True by set_solver. lia.
    + rewrite (decide_ext (x ∈ id :: ids) (x ∈ ids)) by set_solver. lia.
  - intros q. rewrite Hd, Hd1, <- app_assoc. f_equal. unfold dependents_in.
    rewrite filter_cons. by case_decide.
Qed.
End scan.

(** ** Lemmas: sorting by registration index *)
Lemma index_of_snoc l x : index_of (l ++ [x]) = <[x := length l]> (index_of l).
Proof.
  unfold index_of. rewrite imap_app, foldl_app. simpl. by rewrite Nat.add_0_r.
Qed.

Lemma index_of_lookup l i x : NoDup l → l !! i = Some x → getn (index_of l) x = i.
Proof.
  unfold getn. revert i x. induction l as [|y l IH] using rev_ind; intros i x Hnd Hi; [done|].
  apply NoDup_app in Hnd as (Hnd & Hy & _). rewrite index_of_snoc, lookup_insert.
  apply lookup_snoc_Some in Hi as [[Hlt Hi]|[-> ->]]; [|by rewrite decide_True].
  rewrite decide_False; [by apply IH|].
  intros ->. apply (Hy x); [|set_solver]. by eapply list_elem_of_lookup_2.
Qed.

Lemma order_sorted l : NoDup l → StronglySorted (not_after (index_of l)) l.
Proof.
  intros Hnd. apply StronglySorted_lookup. intros i j x y Hij Hx Hy.
  unfold not_after. rewrite (index_of_lookup l i x), (index_of_lookup l j y) by done. lia.
Qed.

#[export] Instance not_after_trans idx : Transitive (not_after idx).
Proof. intros a b c. unfold not_after. lia. Qed.
#[export] Instance not_after_total idx : Total (not_after idx).
Proof. intros a b. unfold not_after. lia. Qed.

Lemma not_after_antisym l x y :
  NoDup l → x ∈ l → y ∈ l →
  not_after (index_of l) x y → not_after (index_of l) y x → x = y.
Proof.
  unfold not_after. intros Hnd [i Hi]%list_elem_of_lookup [j Hj]%list_elem_of_lookup.
  rewrite (index_of_lookup l i x), (index_of_lookup l j y) by done. intros ? ?.
  assert (i = j) as -> by lia. congruence.
Qed.

(** Sorting a permutation of a selection of the registered checks restores
    registration order. *)
Lemma sort_selection l (P : string → Prop) `{∀ x, Decision (P x)} ks :
  NoDup l → ks ≡ₚ filter P l → merge_sort (not_after (index_of l)) ks = filter P l.
Proof.
  intros Hnd Hks. apply (StronglySorted_unique_strong (not_after (index_of l))).
  - intros x y Hx Hy. rewrite merge_sort_Permutation, Hks in Hx.
    apply list_elem_of_filter in Hx as [_ ?], Hy as [_ ?]. by apply not_after_antisym.
  - apply StronglySorted_merge_sort; apply _.
  - by apply StronglySorted_filter, order_sorted.
  - by rewrite merge_sort_Permutation.
Qed.

(** ** Lemmas: the loop of [Plan] against [greedy] *)
Section loop.
Context {W : Type} (r : Registry W) (Hwf : wf r).

Definition unmet (taken : list string) (id : string) : nat :=
  length (filter (λ q, q ∉ taken) (requires r id)).

Lemma next_after_unmet taken id : next_after r taken id ↔ (id ∉ taken) ∧ unmet taken id = 0.
Proof.
  unfold next_after, unmet. rewrite filter_length_0, Forall_forall.
  split; intros [? Hq]; split; auto; intros q Hq'; specialize (Hq q Hq'); simpl in *.
  by destruct (decide (q ∈ taken)).
Qed.

Lemma unmet_snoc taken id d :
  (id ∉ taken) →
  unmet taken d = unmet (taken ++ [id]) d + (if decide (id ∈ requires r d) then 1 else 0).
Proof.
  intros Hid. unfold unmet.
  rewrite (filter_length_exclude (λ q, q ∉ taken) _ id) by (by apply requires_NoDup).
  f_equal.
  - f_equal. apply list_filter_iff. intros q. rewrite elem_of_app, list_elem_of_singleton. tauto.
  - by rewrite (decide_ext _ (id ∈ requires r d)) by tauto.
Qed.

(** The invariant of the loop: [indegree] counts unmet requirements and
    [ready] holds, in some order, the checks that are next. *)
Record walk_inv (s : walk) : Prop := {
  wi_nodup : NoDup (emitted s);
  wi_sub id : id ∈ emitted s → id ∈ order r;
  wi_done id : id ∈ emitted s → unmet (emitted s) id = 0;
  wi_degree id : id ∈ order r → geti (indegree s) id = Z.of_nat (unmet (emitted s) id);
  wi_ready : ready s ≡ₚ filter (next_after r (emitted s)) (order r);
}.

Lemma release_spec deps ind rdy (P : string → Prop) `{∀ x, Decision (P x)} :
  NoDup deps → (∀ x, x ∈ deps → P x ↔ geti ind x = 1%Z) →
  ∃ ind', release deps ind rdy = (ind', rdy ++ filter P deps) ∧
    (∀ x, geti ind' x = geti ind x - (if decide (x ∈ deps) then 1 else 0))%Z.
Proof.
  revert ind rdy. induction deps as [|d deps IH]; intros ind rdy Hnd HP.
  { exists ind. split; [by rewrite app_nil_r|]. intros x. rewrite decide_False by set_solver. lia. }
  apply NoDup_cons in Hnd as [Hd Hnd]. simpl.
  destruct (IH (<[d := (geti ind d - 1)%Z]> ind)
              (if decide (geti ind d - 1 = 0)%Z then rdy ++ [d] else rdy)) as (ind' & Hr & Hi);
    [done| |].
  { intros x Hx. rewrite (HP x) by set_solver. unfold geti at 2.
    rewrite lookup_insert_ne by set_solver. done. }
  exists ind'. rewrite Hr. split.
  - f_equal. rewrite filter_cons. specialize (HP d ltac:(set_solver)).
    destruct (decide (P d)); [rewrite decide_True by (apply HP in p; lia)|
                              rewrite decide_False by (intros ?; apply n, HP; lia)].
    + by rewrite <- app_assoc.
    + done.
  - intros x. rewrite Hi. unfold geti at 1. rewrite lookup_insert.
    destruct (decide (d = x)) as [->|]; simpl.
    + rewrite (decide_False (P := x ∈ deps)), decide_True by set_solver. lia.
    + rewrite (decide_ext (x ∈ d :: deps) (x ∈ deps)) by set_solver. done.
Qed.

(** One iteration keeps the invariant. *)
Lemma walk_step s id rest :
  walk_inv s → filter (next_after r (emitted s)) (order r) = id :: rest →
  ∃ ind', release (dependents_in r (order r) id) (indegree s) rest =
            (ind', rest ++ filter (λ d, unmet (emitted s) d = 1)
                     (dependents_in r (order r) id)) ∧
    walk_inv (mkWalk (rest ++ filter (λ d, unmet (emitted s) d = 1)
                        (dependents_in r (order r) id)) ind' (emitted s ++ [id])).
Proof.
  intros [Hnd Hsub Hdone Hdeg Hready] Hnext.
  assert (HndO : NoDup (id :: rest)).
  { rewrite <- Hnext. apply NoDup_filter, (wf_order _ Hwf). }
  assert (Hmem : ∀ x, x ∈ id :: rest ↔ (x ∉ emitted s) ∧ unmet (emitted s) x = 0 ∧ x ∈ order r).
  { intros x. rewrite <- Hnext, list_elem_of_filter, next_after_unmet. tauto. }
  destruct (proj1 (Hmem id) ltac:(set_solver)) as (Hid & Hid0 & HidO).
  apply NoDup_cons in HndO as [Hrest HndR].
  destruct (release_spec (dependents_in r (order r) id) (indegree s) rest
              (λ d, unmet (emitted s) d = 1)) as (ind' & Hrel & Hi).
  { apply NoDup_filter, (wf_order _ Hwf). }
  { intros x [_ Hx]%list_elem_of_filter. rewrite Hdeg by done. lia. }
  exists ind'. split; [done|].
  assert (Hun : ∀ d, unmet (emitted s) d = unmet (emitted s ++ [id]) d +
                (if decide (id ∈ requires r d) then 1 else 0)) by (intros; by apply unmet_snoc).
  split; simpl.
  - apply NoDup_app. split_and!; [done|set_solver|apply NoDup_singleton].
  - intros x [?| ->%list_elem_of_singleton]%elem_of_app; auto.
  - intros x [Hx| ->%list_elem_of_singleton]%elem_of_app.
    + specialize (Hdone x Hx). rewrite Hun in Hdone. lia.
    + rewrite Hun in Hid0. lia.
  - intros x Hx. rewrite Hi, Hdeg, Hun by done.
    rewrite (decide_ext (x ∈ dependents_in r (order r) id) (id ∈ requires r x)).
    + case_decide; lia.
    + unfold dependents_in. rewrite list_elem_of_filter. tauto.
  - apply NoDup_Permutation.
    + apply NoDup_app. split_and!; [done| |apply NoDup_filter, NoDup_filter, (wf_order _ Hwf)].
      intros x Hx [H1 _]%list_elem_of_filter.
      destruct (proj1 (Hmem x) ltac:(set_solver)) as (_ & ? & _). lia.
    + apply NoDup_filter, (wf_order _ Hwf).
    + intros x. unfold dependents_in. rewrite elem_of_app, !list_elem_of_filter, next_after_unmet.
      rewrite elem_of_app, list_elem_of_singleton. specialize (Hun x). specialize (Hmem x).
      split.
      * intros [Hx|(Hx & Hq & HxO)].
        -- destruct (proj1 Hmem ltac:(set_solver)) as (? & H0 & ?).
           split_and!; [|lia|done]. intros [?|<-]; done.
        -- rewrite decide_True in Hun by done. split_and!; [|lia|done].
           intros [Hx'|<-]; [apply Hdone in Hx'; lia|lia].
      * intros ((Hne & H0) & HxO).
        destruct (decide (id ∈ requires r x)); [right; split_and!; [lia|done..]|left].
        assert (Hin : x ∈ id :: rest) by (apply Hmem; split_and!; [tauto|lia|done]).
        apply elem_of_cons in Hin as [->|?]; [tauto|done].
Qed.

Lemma kahn_greedy dep fuel s :
  (∀ q, getl dep q = dependents_in r (order r) q) → walk_inv s →
  walk_inv (kahn (index_of (order r)) dep fuel s) ∧
  emitted (kahn (index_of (order r)) dep fuel s) = greedy r fuel (emitted s).
Proof.
  intros Hdep. revert s. induction fuel as [|fuel IH]; intros s Hinv; [done|]. simpl.
  rewrite (sort_selection (order r) (next_after r (emitted s)));
    [|apply (wf_order _ Hwf)|apply (wi_ready _ Hinv)].
  destruct (filter (next_after r (emitted s)) (order r)) as [|id rest] eqn:Hf; [done|].
  destruct (walk_step s id rest Hinv Hf) as (ind' & Hrel & Hinv').
  rewrite Hdep, Hrel. destruct (IH _ Hinv') as [? ->]. done.
Qed.

Lemma start_inv ind :
  (∀ id, id ∈ order r → geti ind id = Z.of_nat (length (requires r id))) →
  walk_inv (start r ind).
Proof.
  intros Hind. assert (Hun : ∀ id, unmet [] id = length (requires r id)).
  { intros id. unfold unmet. f_equal. apply filter_all. set_solver. }
  unfold start. split; simpl; [constructor|set_solver|set_solver| |].
  - intros id Hid. by rewrite Hind, Hun.
  - apply NoDup_Permutation; [apply NoDup_filter, (wf_order _ Hwf)..|].
    intros id. rewrite !list_elem_of_filter, next_after_unmet, Hun.
    split; [intros [H0 Hid]|intros [[_ H0] Hid]]; rewrite Hind in * by done;
      repeat split; [set_solver|lia|done|lia|done].
Qed.

(** ** Lemmas: the reference order *)

(** Every check stands after all it requires. *)
Definition topological (l : list string) : Prop :=
  ∀ l1 id l2, l = l1 ++ id :: l2 → ∀ q, q ∈ requires r id → q ∈ l1.

Lemma topological_snoc l id :
  topological l → (∀ q, q ∈ requires r id → q ∈ l) → topological (l ++ [id]).
Proof.
  intros Hl Hid l1 x l2 Heq q Hq. destruct l2 as [|y l2 _] using rev_ind.
  - apply app_inj_tail in Heq as [-> ->]. auto.
  - rewrite app_comm_cons, app_assoc in Heq. apply app_inj_tail in Heq as [-> ->]. eauto.
Qed.

Record partial_order (l : list string) : Prop := {
  po_nodup : NoDup l;
  po_sub id : id ∈ l → id ∈ order r;
  po_topo : topological l;
}.

Lemma greedy_inv fuel l : partial_order l → partial_order (greedy r fuel l).
Proof.
  revert l. induction fuel as [|fuel IH]; intros l Hl; [done|]. simpl.
  destruct (filter (next_after r l) (order r)) as [|id rest] eqn:Hf; [done|].
  assert (Hid : id ∈ filter (next_after r l) (order r)) by (rewrite Hf; set_solver).
  apply list_elem_of_filter in Hid as [[Hnin Hreq] Hid]. apply IH. destruct Hl as [Hnd Hsub Ht].
  split.
  - apply NoDup_app. split_and!; [done|set_solver|apply NoDup_singleton].
  - set_solver.
  - apply topological_snoc; [done|]. by apply Forall_forall.
Qed.

Lemma partial_full l : partial_order l → length (order r) ≤ length l → l ≡ₚ order r.
Proof.
  intros [Hnd Hsub _] Hlen. apply submseteq_length_Permutation; [|done].
  by apply NoDup_submseteq.
Qed.

Lemma greedy_stuck fuel l :
  partial_order l → length (order r) ≤ fuel + length l →
  filter (next_after r (greedy r fuel l)) (order r) = [].
Proof.
  revert l. induction fuel as [|fuel IH]; intros l Hl Hlen.
  - simpl. apply partial_full in Hl; [|done]. apply length_zero_iff_nil, filter_length_0.
    intros x Hx [Hn _]. apply Hn. by rewrite Hl.
  - simpl. destruct (filter (next_after r l) (order r)) as [|id rest] eqn:Hf; [done|].
    apply IH; [|rewrite length_app; simpl; lia].
    pose proof (greedy_inv 1 l Hl) as H1. simpl in H1. by rewrite Hf in H1.
Qed.

Lemma partial_nil : partial_order [].
Proof. split; [constructor|set_solver|]. by intros [] ? ? ?. Qed.

(** The prefix argument behind completeness: a topological order of all the
    checks cannot leave [greedy] with nothing to take. *)
Lemma greedy_complete l :
  topological l → l ≡ₚ order r → greedy r (length (order r)) [] ≡ₚ order r.
Proof.
  intros Ht Hl. set (g := greedy r (length (order r)) []).
  assert (Hg : partial_order g) by apply greedy_inv, partial_nil.
  assert (Hstuck : filter (next_after r g) (order r) = []).
  { apply greedy_stuck; [apply partial_nil|simpl; lia]. }
  assert (Hall : ∀ n, ∀ x, x ∈ take n l → x ∈ g).
  { induction n as [|n IH]; [set_solver|]. intros x Hx.
    destruct (l !! n) as [y|] eqn:Hy.
    - rewrite (take_S_r _ _ y) in Hx by done.
      apply elem_of_app in Hx as [Hx| ->%list_elem_of_singleton]; [eauto|].
      destruct (decide (y ∈ g)) as [|Hny]; [done|exfalso].
      assert (Hin : y ∈ filter (next_after r g) (order r)); [|rewrite Hstuck in Hin; set_solver].
      apply list_elem_of_filter. split; [split; [done|]|].
      + apply Forall_forall. intros q Hq. apply IH.
        eapply Ht; [|exact Hq]. symmetry. by apply take_drop_middle.
      + rewrite <- Hl. by eapply list_elem_of_lookup_2.
    - apply lookup_ge_None in Hy. rewrite take_ge in Hx by lia. apply IH.
      by rewrite take_ge by lia. }
  apply partial_full; [done|]. rewrite <- Hl.
  apply submseteq_length, NoDup_submseteq.
  - rewrite Hl. apply (wf_order _ Hwf).
  - intros x Hx. apply (Hall (length l)). by rewrite take_ge.
Qed.
End loop.

(** ** Lemmas: [Plan] as a whole *)
Section plan.
Context {W : Type} (r : Registry W) (Hwf : wf r).

Lemma not_closed_missing :
  ¬ closed r → ∃ id req, id ∈ order r ∧ req ∈ requires r id ∧ byID r !! req = None.
Proof.
  intros Hn. destruct (decide (Exists (λ id, Exists (λ q, byID r !! q = None) (requires r id))
                         (order r))) as [He|He].
  - apply Exists_exists in He as (id & Hid & (q & Hq & Hnone)%Exists_exists). eauto.
  - exfalso. apply Hn. intros id q Hid Hq. destruct (byID r !! q) eqn:Hb; [eauto|].
    exfalso. apply He, Exists_exists. exists id. split; [done|]. apply Exists_exists. eauto.
Qed.

Definition final (st : gmap string Z * gmap string (list string)) : walk :=
  kahn (index_of (order r)) st.2 (length (order r)) (start r st.1).

Lemma final_spec :
  closed r →
  ∃ st, scan_order r (order r) (∅, ∅) = Ok st ∧ walk_inv r (final st) ∧
    emitted (final st) = greedy r (length (order r)) [].
Proof.
  intros Hcl. destruct (scan_order_Ok r (order r) ∅ ∅ Hwf) as (ind & dep & Hs & Hi & Hd).
  { apply (wf_order _ Hwf). }
  { intros id q ? ?. by apply (Hcl id). }
  exists (ind, dep). split; [done|]. apply (kahn_greedy r Hwf dep _ (start r ind)).
  - intros q. by rewrite Hd.
  - apply start_inv; [done|]. intros id Hid. rewrite Hi, decide_True by done. done.
Qed.

Lemma Plan_closed :
  closed r →
  Plan r =
    let g := greedy r (length (order r)) [] in
    if length g <? length (order r)
    then Err (ErrCycle (filter (λ id, id ∉ g) (order r)))
    else Ok (omap (λ id, byID r !! id) g).
Proof.
  intros Hcl. destruct (final_spec Hcl) as (st & Hs & Hinv & He).
  unfold Plan. rewrite Hs. simpl. fold (final st). rewrite He. case_match; [|done].
  do 2 f_equal. set (g := greedy r (length (order r)) []) in *.
  assert (Hstuck : filter (next_after r g) (order r) = []).
  { apply greedy_stuck; [done|by apply partial_nil|simpl; lia]. }
  assert (Hx : ∀ x, x ∈ order r → (geti (indegree (final st)) x > 0)%Z ↔ (x ∉ g)).
  { intros x Hx. rewrite (wi_degree _ _ Hinv), He by done. fold g. split.
    - intros Hpos Hin. rewrite <- He in Hin. apply (wi_done _ _ Hinv) in Hin.
      rewrite He in Hin. fold g in Hin. lia.
    - intros Hnin. destruct (unmet r g x) eqn:Hu; [exfalso|lia].
      assert (x ∈ filter (next_after r g) (order r)) as Hin; [|rewrite Hstuck in Hin; set_solver].
      apply list_elem_of_filter. by rewrite next_after_unmet. }
  by apply filter_ext_in.
Qed.

Lemma Plan_not_closed :
  ¬ closed r →
  ∃ id req, Plan r = Err (ErrMissingRequirement id req) ∧ id ∈ order r ∧
    req ∈ requires r id ∧ byID r !! req = None.
Proof.
  intros Hm%not_closed_missing. apply (scan_order_missing r _ (∅, ∅)) in Hm as [e He].
  pose proof (scan_order_Err r _ _ _ He) as (id & q & -> & ? & ? & ?).
  exists id, q. unfold Plan. by rewrite He.
Qed.

Lemma closed_dec : closed r ∨ ¬ closed r.
Proof.
  destruct (decide (Forall (λ id, Forall (λ q, is_Some (byID r !! q)) (requires r id)) (order r)))
    as [HF|HF]; [left|right].
  - intros id q Hid Hq. rewrite Forall_forall in HF. specialize (HF id Hid).
    rewrite Forall_forall in HF. auto.
  - intros Hcl. apply HF, Forall_forall. intros id Hid. apply Forall_forall.
    intros q Hq. by apply (Hcl id).
Qed.

Lemma greedy_registered g :
  partial_order r g → ID <$> omap (λ id, byID r !! id) g = g.
Proof.
  intros [_ Hsub _]. induction g as [|id g IH]; [done|]. simpl.
  destruct (byID r !! id) as [c|] eqn:Hc.
  - simpl. f_equal; [by apply Hwf in Hc as [? _]|]. apply IH. set_solver.
  - exfalso. destruct (proj1 (wf_dom _ Hwf id)) as [? ?]; [set_solver|congruence].
Qed.
Lemma Plan_Ok_inv cs :
  Plan r = Ok cs →
  let g := greedy r (length (order r)) [] in
  partial_order r g ∧ g ≡ₚ order r ∧ cs = omap (λ id, byID r !! id) g ∧ ID <$> cs = g.
Proof.
  intros Hp. destruct closed_dec as [Hcl|Hcl].
  2:{ destruct (Plan_not_closed Hcl) as (? & ? & ? & _). congruence. }
  rewrite (Plan_closed Hcl) in Hp. simpl in *. case_match eqn:Hlt; [done|].
  apply Nat.ltb_ge in Hlt. injection Hp as <-.
  assert (Hg : partial_order r (greedy r (length (order r)) [])).
  { by apply greedy_inv, partial_nil. }
  split_and!; [done|by apply partial_full|done|by apply greedy_registered].
Qed.

Lemma Plan_stored cs c : Plan r = Ok cs → c ∈ cs → byID r !! ID c = Some c.
Proof.
  intros (_ & _ & -> & _)%Plan_Ok_inv (id & _ & Hc)%list_elem_of_omap.
  by pose proof (wf_check _ Hwf id c Hc) as [-> _].
Qed.

Lemma Plan_ok cs :
  Plan r = Ok cs →
  ID <$> cs ≡ₚ order r ∧
  ∀ cs1 c cs2 q, cs = cs1 ++ c :: cs2 → q ∈ Requires c → q ∈ ID <$> cs1.
Proof.
  intros Hp. destruct (Plan_Ok_inv cs Hp) as (Hg & Hperm & _ & Hids).
  split; [by rewrite Hids|]. intros cs1 c cs2 q Heq Hq.
  eapply (po_topo _ _ Hg (ID <$> cs1) (ID c) (ID <$> cs2)).
  - by rewrite <- Hids, Heq, fmap_app, fmap_cons.
  - unfold requires. rewrite (Plan_stored cs c Hp); [done|]. rewrite Heq. set_solver.
Qed.
End plan.

(** ** Properties *)

(** A registry that was only built with [New] and [Register] is
    well formed: the registration order has no duplicates and lists exactly the
    stored checks, each stored under its own non-empty ID with a probe, a known
    severity and duplicate-free requirements. *)
Theorem registry_wf {W} (r : Registry W) : reachable r → wf r.
Proof. apply reachable_wf. Qed.

(** When [Plan] returns an order, it holds every registered check exactly
    once, and every check stands after all the checks it requires. *)
Theorem Plan_topological {W} (r : Registry W) cs :
  reachable r → Plan r = Ok cs →
  ID <$> cs ≡ₚ order r ∧
  ∀ cs1 c cs2 q, cs = cs1 ++ c :: cs2 → q ∈ Requires c → q ∈ ID <$> cs1.
Proof.
  intros Hwf%reachable_wf. by apply Plan_ok.
Qed.

(** [Plan] is the greedy walk: with every requirement registered it returns
    the order that repeatedly takes the earliest-registered check whose
    requirements were all taken, or reports as a cycle exactly the checks that
    walk never takes. *)
Theorem Plan_refines_greedy {W} (r : Registry W) :
  reachable r → closed r →
  Plan r =
    let g := greedy r (length (order r)) [] in
    if length g <? length (order r)
    then Err (ErrCycle (filter (λ id, id ∉ g) (order r)))
    else Ok (omap (λ id, byID r !! id) g).
Proof. intros ?%reachable_wf. by apply Plan_closed. Qed.

(** [Plan] succeeds exactly when every requirement is registered and some
    order of the checks respects the requirements (there is no cycle). *)
Theorem Plan_succeeds_iff {W} (r : Registry W) :
  reachable r →
  (∃ cs, Plan r = Ok cs) ↔ closed r ∧ ∃ l, l ≡ₚ order r ∧ topological r l.
Proof.
  intros Hr. pose proof (reachable_wf r Hr) as Hwf. split.
  - intros [cs Hp]. destruct (closed_dec r) as [Hcl|Hcl].
    2:{ destruct (Plan_not_closed r Hcl) as (? & ? & ? & _). congruence. }
    destruct (Plan_Ok_inv r Hwf cs Hp) as (Hg & Hperm & _).
    split; [done|]. eexists. split; [exact Hperm|apply Hg].
  - intros (Hcl & l & Hl & Ht). rewrite (Plan_closed r Hwf Hcl). simpl.
    pose proof (Permutation_length (greedy_complete r Hwf l Ht Hl)) as ->.
    rewrite Nat.ltb_irrefl. eauto.
Qed.

(** An error of [Plan] names a real defect: a registered check with an
    unregistered requirement, or a non-empty set of registered checks in which
    every member requires another member, so that none of them can ever run. *)
Theorem Plan_error {W} (r : Registry W) e :
  reachable r → Plan r = Err e →
  match e with
  | ErrMissingRequirement id req =>
      id ∈ order r ∧ req ∈ requires r id ∧ byID r !! req = None
  | ErrCycle stuck =>
      stuck ≠ [] ∧ ∀ id, id ∈ stuck →
        id ∈ order r ∧ ∃ req, req ∈ requires r id ∧ req ∈ stuck
  end.
Proof.
  intros Hwf%reachable_wf Hp. destruct (closed_dec r) as [Hcl|Hcl].
  2:{ destruct (Plan_not_closed r Hcl) as (? & ? & Hp' & ?). rewrite Hp' in Hp. by simplify_eq. }
  rewrite (Plan_closed r Hwf Hcl) in Hp. simpl in Hp. case_match eqn:Hlt; [|done].
  apply Nat.ltb_lt in Hlt. injection Hp as <-. set (g := greedy r (length (order r)) []) in *.
  assert (Hstuck : filter (next_after r g) (order r) = []).
  { apply greedy_stuck; [done|by apply partial_nil|simpl; lia]. }
  split.
  - intros Hnil. apply length_zero_iff_nil in Hnil. rewrite filter_length_0 in Hnil.
    assert (Hle : length (order r) ≤ length g); [|lia].
    apply submseteq_length, NoDup_submseteq; [apply (wf_order _ Hwf)|].
    intros x Hx. specialize (Hnil x Hx). by destruct (decide (x ∈ g)).
  - intros id [Hid HidO]%list_elem_of_filter. split; [done|].
    destruct (decide (Exists (λ q, q ∉ g) (requires r id))) as [He|Hne].
    + apply Exists_exists in He as (q & Hq & Hqg). exists q. split; [done|].
      apply list_elem_of_filter. split; [done|]. by apply (wf_dom _ Hwf), (Hcl id).
    + exfalso. assert (Hin : id ∈ filter (next_after r g) (order r)); [|rewrite Hstuck in Hin; set_solver].
      apply list_elem_of_filter. split; [|done]. split; [done|]. apply Forall_forall.
      intros q Hq. destruct (decide (q ∈ g)); [done|]. exfalso. apply Hne, Exists_exists. eauto.
Qed.

(** The loop of [Plan] runs to its end: after as many iterations as there
    are checks, nothing is ready any more. *)
Theorem Plan_terminates {W} (r : Registry W) st :
  reachable r → scan_order r (order r) (∅, ∅) = Ok st →
  ready (kahn (index_of (order r)) st.2 (length (order r)) (start r st.1)) = [].
Proof.
  intros Hwf%reachable_wf Hs. destruct (closed_dec r) as [Hcl|Hcl].
  - destruct (final_spec r Hwf Hcl) as (st' & Hs' & Hinv & He).
    assert (st' = st) as -> by congruence. apply Permutation_nil_r.
    rewrite <- (greedy_stuck r Hwf (length (order r)) [] ltac:(by apply partial_nil) ltac:(simpl; lia)).
    rewrite <- He. apply (wi_ready _ _ Hinv).
  - apply not_closed_missing, (scan_order_missing r _ (∅, ∅)) in Hcl as [e He]. congruence.
Qed.

(** ** Witnesses: a registry of four checks, and one with a cycle *)
Section witnesses.
Definition pass_probe (w : unit) : panics (result string Result) * unit :=
  (Returned (Ok (mkResult StatusPass "")), w).

Definition demo_check (id : string) (reqs : list string) : Check unit :=
  mkCheck id SeverityCritical "" "" reqs (Some pass_probe) None.

Fixpoint register_all {W} (r : Registry W) (cs : list (Check W)) : Registry W :=
  match cs with
  | [] => r
  | c :: cs => match Register r c with Ok r' => register_all r' cs | Err _ => register_all r cs end
  end.

Lemma register_all_reachable {W} (r : Registry W) cs : reachable r → reachable (register_all r cs).
Proof.
  revert r. induction cs as [|c cs IH]; intros r Hr; simpl; [done|].
  destruct (Register r c) eqn:Hc; eauto using reachable_register.
Qed.

Definition demo : Registry unit :=
  register_all New [demo_check "app" ["dns"; "net"; "dns"]; demo_check "net" [];
                    demo_check "tls" ["app"]; demo_check "dns" ["net"]].
Definition cyclic : Registry unit :=
  register_all New [demo_check "net" []; demo_check "a" ["b"; "net"]; demo_check "b" ["a"];
                    demo_check "c" ["b"]].

Definition planned : list (Check unit) :=
  match Plan demo with Ok cs => cs | Err _ => [] end.

Example planned_order : ID <$> planned = ["net"; "dns"; "app"; "tls"].
Proof. vm_compute. reflexivity. Qed.

Lemma demo_reachable : reachable demo.
Proof. apply register_all_reachable. constructor. Qed.
Lemma cyclic_reachable : reachable cyclic.
Proof. apply register_all_reachable. constructor. Qed.

Lemma demo_closed : closed demo.
Proof.
  intros id req Hid Hreq. assert (HF : Forall (λ id, Forall (λ q, is_Some (byID demo !! q))
    (requires demo id)) (order demo)).
  { apply (bool_decide_unpack _). vm_compute. done. }
  rewrite Forall_forall in HF. specialize (HF id Hid). rewrite Forall_forall in HF. auto.
Qed.

Lemma registry_wf_witness : wf demo.
Proof. apply (registry_wf demo), demo_reachable. Defined.

Lemma Plan_topological_witness :
  Plan demo = Ok planned ∧ ID <$> planned ≡ₚ order demo.
Proof.
  split; [vm_compute; reflexivity|].
  apply (Plan_topological demo planned); [apply demo_reachable|vm_compute; reflexivity].
Defined.

Lemma Plan_refines_greedy_witness :
  Plan demo = Ok (omap (λ id, byID demo !! id) (greedy demo 4 [])).
Proof. apply (Plan_refines_greedy demo demo_reachable demo_closed). Defined.

Lemma Plan_succeeds_iff_witness :
  closed demo ∧ ∃ l, l ≡ₚ order demo ∧ topological demo l.
Proof.
  apply (Plan_succeeds_iff demo demo_reachable). exists planned. vm_compute. reflexivity.
Defined.

Lemma Plan_error_witness :
  Plan cyclic = Err (ErrCycle ["a"; "b"; "c"]) ∧
  ∀ id, id ∈ ["a"; "b"; "c"] →
    id ∈ order cyclic ∧ ∃ req, req ∈ requires cyclic id ∧ req ∈ ["a"; "b"; "c"].
Proof.
  assert (Hp : Plan cyclic = Err (ErrCycle ["a"; "b"; "c"])) by (vm_compute; reflexivity).
  split; [exact Hp|]. exact (proj2 (Plan_error cyclic _ cyclic_reachable Hp)).
Defined.

Definition demo_scan : gmap string Z * gmap string (list string) :=
  match scan_order demo (order demo) (∅, ∅) with Ok st => st | Err _ => (∅, ∅) end.

Lemma Plan_terminates_witness :
  ready (kahn (index_of (order demo)) demo_scan.2 4 (start demo demo_scan.1)) = [].
Proof.
  apply (Plan_terminates demo demo_scan demo_reachable). vm_compute. reflexivity.
Defined.
End witnesses.
