(* ===== verification/CheckRun.v ===== *)
(** * Running checks

    Models [internal/checks/run.go], [fix.go], [score.go] and [format.go]:
    the runner over a registry (probe, blocked and skipped checks), the exit
    code gate, the hardening score, the single-pass remediation of
    [RunAndFix], and the text and JSON reports.

    Probes and fixes are contributed code: a probe is any function of the
    world that returns a result, returns an error or panics, and it may change
    the world. *)
From S2P Require Import Prelude GoStrings CheckRegistry.

(** ** Outcomes ([run.go]) *)

(** [OutcomeUnset] is the zero value of the string type, which the runner never
    assigns but a map lookup can return. *)
Inductive Outcome : Type :=
| OutcomePass
| OutcomeFail
| OutcomeSkip
| OutcomeError
| OutcomeBlocked
| OutcomeUnset.

#[export] Instance Outcome_eq_dec : EqDecision Outcome.
Proof. solve_decision. Defined.
#[export] Instance Severity_eq_dec : EqDecision Severity.
Proof. solve_decision. Defined.

Record CheckResult : Type := mkCheckResult {
  ResID : string;
  ResSeverity : Severity;
  ResSummary : string;
  ResRemediation : string;
  Fixable : bool;
  ResOutcome : Outcome;
  ResMessage : string;
  ResErr : option string;
  Blockers : list string;
}.

Definition with_outcome (res : CheckResult) (o : Outcome) (msg : string) (e : option string)
    (blockers : list string) : CheckResult :=
  mkCheckResult (ResID res) (ResSeverity res) (ResSummary res) (ResRemediation res)
    (Fixable res) o msg e blockers.

Definition with_error (res : CheckResult) (e : string) : CheckResult :=
  with_outcome res OutcomeError e (Some e) [].

Section runner.
Context {W : Type} `{UnicodeTables}.
(** [ctx.Err()], read from the world, and the text of [debug.Stack()]. *)
Context (ctx_err : W → option string) (debug_Stack : W → string).

Definition nil_call : string := "runtime error: invalid memory address or nil pointer dereference".

Definition status_text (s : Status) : string :=
  match s with
  | StatusPass => "pass" | StatusFail => "fail" | StatusSkip => "skip" | StatusOther s => s
  end.

Definition probe (c : Check W) (res : CheckResult) (w : W) : CheckResult * W :=
  match ctx_err w with
  | Some e => (with_error res e, w)
  | None =>
      let '(out, w') :=
        match Probe c with Some f => f w | None => (Panicked nil_call, w) end in
      match out with
      | Panicked p =>
          (with_error res ("probe panicked: " +:+ p +:+ String newline (debug_Stack w')), w')
      | Returned (Err e) => (with_error res e, w')
      | Returned (Ok result) =>
          let msg := ResultMessage result in
          match ResultStatus result with
          | StatusPass => (with_outcome res OutcomePass msg None [], w')
          | StatusFail => (with_outcome res OutcomeFail msg None [], w')
          | StatusSkip => (with_outcome res OutcomeSkip msg None [], w')
          | StatusOther s =>
              let unknown := "probe returned unknown status " +:+ Quote s in
              (with_error res (if decide (msg = "") then unknown else unknown +:+ ": " +:+ msg), w')
          end
      end
  end.

Definition outcome_of (results : gmap string CheckResult) (req : string) : Outcome :=
  match results !! req with Some res => ResOutcome res | None => OutcomeUnset end.

(** The requirement loop: which requirements block hard, which were skipped. *)
Fixpoint sort_requirements (results : gmap string CheckResult) (reqs : list string)
    (hard skipped : list string) : list string * list string :=
  match reqs with
  | [] => (hard, skipped)
  | req :: reqs =>
      match outcome_of results req with
      | OutcomePass => sort_requirements results reqs hard skipped
      | OutcomeSkip => sort_requirements results reqs hard (skipped ++ [req])
      | _ => sort_requirements results reqs (hard ++ [req]) skipped
      end
  end.

Definition base_result (c : Check W) : CheckResult :=
  mkCheckResult (ID c) (CheckSeverity c) (CheckSummary c) (CheckRemediation c)
    (match Fix c with Some _ => true | None => false end) OutcomeUnset "" None [].

(** The body of the loop in [Run], for one check. *)
Definition run_check (results : gmap string CheckResult) (c : Check W) (w : W) : CheckResult * W :=
  let res := base_result c in
  let '(hardBlockers, skipped) := sort_requirements results (Requires c) [] [] in
  if decide (0 < length hardBlockers) then
    (with_outcome res OutcomeBlocked
       ("not run: requirement(s) " +:+ fmt_strings hardBlockers +:+ " did not pass") None
       hardBlockers, w)
  else if decide (0 < length skipped) then
    (with_outcome res OutcomeSkip
       ("skipped: requirement(s) " +:+ fmt_strings skipped +:+ " not applicable") None [], w)
  else probe c res w.

Fixpoint run_loop (order : list (Check W)) (results : gmap string CheckResult)
    (run : list CheckResult) (w : W) : list CheckResult * W :=
  match order with
  | [] => (run, w)
  | c :: order =>
      let '(res, w') := run_check results c w in
      run_loop order (<[ID c := res]> results) (run ++ [res]) w'
  end.

(** [Registry.Run]: the list is [run.Results]. *)
Definition Run (r : Registry W) (w : W) : result GraphError (list CheckResult) * W :=
  match Plan r with
  | Err e => (Err e, w)
  | Ok order => let '(run, w') := run_loop order ∅ [] w in (Ok run, w')
  end.

(** ** RunAndFix ([fix.go]) *)
Record FixAttempt : Type := mkFixAttempt {
  AttemptID : string;
  AttemptErr : option string;
  Resolved : bool;
}.

Definition runFix (c : Check W) (w : W) : option string * W :=
  match ctx_err w with
  | Some e => (Some e, w)
  | None =>
      let '(out, w') := match Fix c with Some f => f w | None => (Panicked nil_call, w) end in
      match out with
      | Panicked p => (Some ("fix panicked: " +:+ p +:+ String newline (debug_Stack w')), w')
      | Returned err => (err, w')
      end
  end.

Fixpoint fix_loop (r : Registry W) (results : list CheckResult) (attempts : list FixAttempt)
    (w : W) : list FixAttempt * W :=
  match results with
  | [] => (attempts, w)
  | res :: results =>
      if decide (ResOutcome res = OutcomeFail) then
        match Get r (ResID res) with
        | Some c =>
            match Fix c with
            | None => fix_loop r results attempts w
            | Some _ =>
                let '(err, w') := runFix c w in
                fix_loop r results (attempts ++ [mkFixAttempt (ResID res) err false]) w'
            end
        | None => fix_loop r results attempts w
        end
      else fix_loop r results attempts w
  end.

Definition outcomes (run : list CheckResult) : gmap string Outcome :=
  foldl (λ m res, <[ResID res := ResOutcome res]> m) ∅ run.

Definition mark_resolved (m : gmap string Outcome) (a : FixAttempt) : FixAttempt :=
  mkFixAttempt (AttemptID a) (AttemptErr a)
    (bool_decide (default OutcomeUnset (m !! AttemptID a) = OutcomePass)).

(** [RunAndFix]: the run, the attempts and the error, with the world after it. *)
Definition RunAndFix (r : Registry W) (w : W)
    : option (list CheckResult) * list FixAttempt * option GraphError * W :=
  match Run r w with
  | (Err e, w1) => (None, [], Some e, w1)
  | (Ok first, w1) =>
      let '(attempts, w2) := fix_loop r first [] w1 in
      if decide (length attempts = 0) then (Some first, [], None, w2) else
      match Run r w2 with
      | (Err e, w3) => (None, attempts, Some e, w3)
      | (Ok second, w3) =>
          (Some second, mark_resolved (outcomes second) <$> attempts, None, w3)
      end
  end.
End runner.

(** ** Summary, exit code and gate ([run.go]) *)
Record Summary : Type := mkSummary {
  Total : Z; Passed : Z; Failed : Z; Errored : Z; SumBlocked : Z; Skipped : Z;
}.

Definition count_result (s : Summary) (res : CheckResult) : Summary :=
  let t := (Total s + 1)%Z in
  match ResOutcome res with
  | OutcomePass => mkSummary t (Passed s + 1) (Failed s) (Errored s) (SumBlocked s) (Skipped s)
  | OutcomeFail => mkSummary t (Passed s) (Failed s + 1) (Errored s) (SumBlocked s) (Skipped s)
  | OutcomeError => mkSummary t (Passed s) (Failed s) (Errored s + 1) (SumBlocked s) (Skipped s)
  | OutcomeBlocked => mkSummary t (Passed s) (Failed s) (Errored s) (SumBlocked s + 1) (Skipped s)
  | OutcomeSkip => mkSummary t (Passed s) (Failed s) (Errored s) (SumBlocked s) (Skipped s + 1)
  | OutcomeUnset => mkSummary t (Passed s) (Failed s) (Errored s) (SumBlocked s) (Skipped s)
  end%Z.

Definition RunSummary (run : list CheckResult) : Summary :=
  foldl count_result (mkSummary 0 0 0 0 0 0) run.

Definition ExitOK : Z := 0.
Definition ExitCritical : Z := 1.
Definition ExitIndeterminate : Z := 2.

Fixpoint exit_loop (code : Z) (run : list CheckResult) : Z :=
  match run with
  | [] => code
  | res :: run =>
      if decide (ResSeverity res ≠ SeverityCritical) then exit_loop code run else
      match ResOutcome res with
      | OutcomeFail => ExitCritical
      | OutcomeError | OutcomeBlocked => exit_loop ExitIndeterminate run
      | _ => exit_loop code run
      end
  end.

Definition ExitCode (run : list CheckResult) : Z := exit_loop ExitOK run.
Definition OK (run : list CheckResult) : bool := bool_decide (ExitCode run = ExitOK).

(** ** The hardening score ([score.go]), on 64-bit integers *)
Record Score : Type := mkScore {
  Value : Z; Earned : Z; Possible : Z; ScorePassed : Z; Scored : Z;
}.

Definition severityWeight (sev : Severity) : Z :=
  match sev with
  | SeverityCritical => 10
  | SeverityWarning => 3
  | _ => 1
  end.

Definition scorePercent (earned possible : Z) : Z :=
  (if decide (possible = 0) then 100
  else if decide (earned = possible) then 100
  else if decide (earned = 0) then 0
  else
    let p := i64 (Z.quot (i64 (i64 (earned * 100) + Z.quot possible 2)) possible) in
    if decide (p >= 100) then 99
    else if decide (p <= 0) then 1
    else p)%Z.

Definition score_result (s : Score) (res : CheckResult) : Score :=
  if decide (ResOutcome res = OutcomeSkip) then s else
  let w := severityWeight (ResSeverity res) in
  let pass := bool_decide (ResOutcome res = OutcomePass) in
  mkScore (Value s) (if pass then i64 (Earned s + w)%Z else Earned s) (i64 (Possible s + w)%Z)
    (if pass then i64 (ScorePassed s + 1)%Z else ScorePassed s) (i64 (Scored s + 1)%Z).

Definition RunScore (run : list CheckResult) : Score :=
  let s := foldl score_result (mkScore 0 0 0 0 0) run in
  mkScore (scorePercent (Earned s) (Possible s)) (Earned s) (Possible s) (ScorePassed s) (Scored s).

(** ** Reports ([format.go]) *)
Definition outcomeLabel (o : Outcome) : string :=
  match o with
  | OutcomePass => "PASS"
  | OutcomeFail => "FAIL"
  | OutcomeError => "ERROR"
  | OutcomeBlocked => "BLOCKED"
  | OutcomeSkip => "SKIP"
  | OutcomeUnset => "?"
  end.

Definition isActionable (o : Outcome) : bool :=
  match o with OutcomeFail | OutcomeError => true | _ => false end.

(** [%-7s] *)
Definition pad7 (s : string) : string :=
  s +:+ of_bytes (replicate (7 - len s) (byte 32)).

(** [WriteText] writes lines and stops at the first write that fails; the
    model is the lines of the whole report. *)
Definition text_lines (res : CheckResult) : list string :=
  let line := "[" +:+ pad7 (outcomeLabel (ResOutcome res)) +:+ "] " +:+ ResID res in
  let line := if decide (ResMessage res = "") then line else line +:+ "  " +:+ ResMessage res in
  line :: (if decide (ResRemediation res ≠ "" ∧ isActionable (ResOutcome res))
           then ["          fix: " +:+ ResRemediation res] else []).

Definition WriteText (run : list CheckResult) : list string :=
  let s := RunSummary run in
  concat (text_lines <$> run) ++
  [""; pretty (Total s) +:+ " checks: " +:+ pretty (Passed s) +:+ " passed, " +:+
       pretty (Failed s) +:+ " failed, " +:+ pretty (Errored s) +:+ " errored, " +:+
       pretty (SumBlocked s) +:+ " blocked, " +:+ pretty (Skipped s) +:+ " skipped"].

Record jsonResult : Type := mkJsonResult {
  JsonID : string; JsonSeverity : string; JsonSummary : string; JsonOutcome : string;
  JsonMessage : string; JsonBlockers : list string; JsonRemediation : string;
}.

Record jsonReport : Type := mkJsonReport {
  ReportResults : list jsonResult; ReportSummary : Summary; ReportExitCode : Z;
}.

Definition severity_text (s : Severity) : string :=
  match s with
  | SeverityCritical => "critical" | SeverityWarning => "warning" | SeverityInfo => "info"
  | SeverityOther s => s
  end.

Definition outcome_text (o : Outcome) : string :=
  match o with
  | OutcomePass => "pass" | OutcomeFail => "fail" | OutcomeSkip => "skip"
  | OutcomeError => "error" | OutcomeBlocked => "blocked" | OutcomeUnset => ""
  end.

(** The report [WriteJSON] encodes. *)
Definition WriteJSON (run : list CheckResult) : jsonReport :=
  mkJsonReport
    ((λ res, mkJsonResult (ResID res) (severity_text (ResSeverity res)) (ResSummary res)
               (outcome_text (ResOutcome res)) (ResMessage res) (Blockers res)
               (ResRemediation res)) <$> run)
    (RunSummary run) (ExitCode run).

(** ** Lemmas: the runner *)
Section runner_lemmas.
Context {W : Type} `{UnicodeTables} (ctx_err : W → option string) (debug_Stack : W → string).
Local Abbreviation probe := (probe ctx_err debug_Stack).
Local Abbreviation run_check := (run_check ctx_err debug_Stack).
Local Abbreviation run_loop := (run_loop ctx_err debug_Stack).
Local Abbreviation Run := (Run ctx_err debug_Stack).

(** Requirements that block hard, and those that were skipped. *)
Definition blocks (o : Outcome) : Prop := o ≠ OutcomePass ∧ o ≠ OutcomeSkip.
#[global] Instance blocks_dec o : Decision (blocks o).
Proof. unfold blocks. apply _. Defined.

Lemma sort_requirements_spec results reqs hard skipped :
  sort_requirements results reqs hard skipped =
    (hard ++ filter (λ q, blocks (outcome_of results q)) reqs,
     skipped ++ filter (λ q, outcome_of results q = OutcomeSkip) reqs).
Proof.
  revert hard skipped. induction reqs as [|q reqs IH]; intros hard skipped; simpl.
  { by rewrite !app_nil_r. }
  rewrite !filter_cons. unfold blocks.
  destruct (outcome_of results q); rewrite IH; repeat (rewrite decide_True by naive_solver ||
    rewrite decide_False by naive_solver); by rewrite <- ?app_assoc.
Qed.

Lemma probe_id c res w : ResID (probe c res w).1 = ResID res.
Proof. unfold CheckRun.probe. by repeat case_match; simplify_eq/=. Qed.

Lemma probe_fixable c res w : Fixable (probe c res w).1 = Fixable res.
Proof. unfold CheckRun.probe. by repeat case_match; simplify_eq/=. Qed.

Lemma probe_outcome c res w :
  ResOutcome (probe c res w).1 ≠ OutcomeBlocked ∧ ResOutcome (probe c res w).1 ≠ OutcomeUnset.
Proof. unfold CheckRun.probe. by repeat case_match; simplify_eq/=. Qed.

Lemma run_check_id results c w : ResID (run_check results c w).1 = ID c.
Proof. unfold CheckRun.run_check. repeat case_match; try done. by rewrite probe_id. Qed.

Lemma run_check_fixable results c w :
  Fixable (run_check results c w).1 = match Fix c with Some _ => true | None => false end.
Proof.
  unfold CheckRun.run_check. rewrite sort_requirements_spec.
  repeat case_decide; simpl; rewrite ?probe_fixable; done.
Qed.

Lemma run_check_set results c w : ResOutcome (run_check results c w).1 ≠ OutcomeUnset.
Proof. unfold CheckRun.run_check. repeat case_match; try done. apply probe_outcome. Qed.

(** The results known when the [i]-th check runs are those of the checks before it. *)
Definition known (rs : list CheckResult) : gmap string CheckResult :=
  foldl (λ m res, <[ResID res := res]> m) ∅ rs.

Lemma run_loop_spec cs rs0 w :
  ∃ rs w' (ws : list W), run_loop cs (known rs0) rs0 w = (rs0 ++ rs, w') ∧
    length rs = length cs ∧ ws !! 0 = Some w ∧ ws !! length cs = Some w' ∧
    ∀ i c, cs !! i = Some c → ∃ res wi wi', rs !! i = Some res ∧
      ws !! i = Some wi ∧ ws !! S i = Some wi' ∧
      run_check (known (rs0 ++ take i rs)) c wi = (res, wi').
Proof.
  revert rs0 w. induction cs as [|c cs IH]; intros rs0 w.
  { exists [], w, [w]. simpl. rewrite app_nil_r. done. }
  simpl. destruct (run_check (known rs0) c w) as [res w1] eqn:Hc.
  assert (Hid : ResID res = ID c).
  { pose proof (run_check_id (known rs0) c w) as Hid. by rewrite Hc in Hid. }
  assert (Hk : <[ID c := res]> (known rs0) = known (rs0 ++ [res])).
  { unfold known. rewrite foldl_snoc. by rewrite Hid. }
  rewrite Hk. destruct (IH (rs0 ++ [res]) w1) as (rs & w' & ws & Heq & Hlen & H0 & Hl & Hi).
  exists (res :: rs), w', (w :: ws). rewrite Heq, <- app_assoc. split_and!; try done.
  { simpl. by f_equal. }
  intros [|i] d Hd; simplify_eq/=.
  - exists res, w, w1. rewrite app_nil_r. done.
  - destruct (Hi i d Hd) as (res' & wi & wi' & ? & ? & ? & Hr).
    exists res', wi, wi'. rewrite <- app_assoc in Hr. done.
Qed.

Lemma outcome_of_known rs q : outcome_of (known rs) q = default OutcomeUnset (outcomes rs !! q).
Proof.
  unfold outcome_of, known, outcomes.
  assert (Hg : ∀ m, foldl (λ m res, <[ResID res:=ResOutcome res]> m) (ResOutcome <$> m) rs =
               ResOutcome <$> foldl (λ (m : gmap string CheckResult) res, <[ResID res:=res]> m) m rs).
  { induction rs as [|r rs IH]; intros m; [done|]. simpl. by rewrite <- fmap_insert, IH. }
  rewrite <- (fmap_empty (M := gmap string) ResOutcome), Hg, lookup_fmap.
  by destruct (_ !! q).
Qed.

Lemma outcomes_prefix rs i q :
  NoDup (ResID <$> rs) → q ∈ ResID <$> take i rs → outcomes (take i rs) !! q = outcomes rs !! q.
Proof.
  intros Hnd Hq. apply list_elem_of_fmap in Hq as (res & -> & Hres).
  apply list_elem_of_lookup in Hres as [j Hj]. unfold outcomes.
  rewrite (foldl_insert_lookup ResID ResOutcome (take i rs) ∅ j res); [| |done].
  - symmetry. eapply foldl_insert_lookup; [done|]. eapply lookup_take_Some. exact Hj.
  - rewrite fmap_take. eapply sublist_NoDup; [exact Hnd|apply sublist_take].
Qed.
End runner_lemmas.

(** ** Lemmas: gate and score *)
Definition critical (res : CheckResult) : Prop := ResSeverity res = SeverityCritical.
Definition unknown (res : CheckResult) : Prop :=
  ResOutcome res = OutcomeError ∨ ResOutcome res = OutcomeBlocked.

Lemma exit_loop_spec code run :
  exit_loop code run =
    if decide (Exists (λ res, ResSeverity res = SeverityCritical ∧ ResOutcome res = OutcomeFail) run)
    then ExitCritical
    else if decide (Exists (λ res, ResSeverity res = SeverityCritical ∧
                      (ResOutcome res = OutcomeError ∨ ResOutcome res = OutcomeBlocked)) run)
    then ExitIndeterminate else code.
Proof.
  revert code. induction run as [|res run IH]; intros code; cbn [exit_loop].
  { by rewrite !decide_False by (intros HE; inversion HE). }
  destruct (decide (ResSeverity res ≠ SeverityCritical)) as [Hs|Hs].
  - rewrite IH. repeat case_decide; rewrite ?Exists_cons in *; done || intuition congruence.
  - apply dec_stable in Hs. destruct (ResOutcome res) eqn:Ho; rewrite ?IH;
      repeat case_decide; rewrite ?Exists_cons in *; done || intuition congruence.
Qed.

Lemma severityWeight_bounds sev : (1 ≤ severityWeight sev ≤ 10)%Z.
Proof. destruct sev; simpl; lia. Qed.

(** The running totals of the score, without wrap-around. *)
Definition weight_where (P : CheckResult → Prop) `{∀ r, Decision (P r)} (run : list CheckResult) : Z :=
  foldr (λ res t, if decide (P res) then severityWeight (ResSeverity res) + t else t)%Z 0%Z run.

Definition scored (res : CheckResult) : Prop := ResOutcome res ≠ OutcomeSkip.
#[global] Instance scored_dec res : Decision (scored res).
Proof. unfold scored. apply _. Defined.
Definition passed (res : CheckResult) : Prop := ResOutcome res = OutcomePass.
#[global] Instance passed_dec res : Decision (passed res).
Proof. unfold passed. apply _. Defined.

Lemma weight_where_bounds (P : CheckResult → Prop) `{∀ r, Decision (P r)} run :
  (Z.of_nat (length (filter P run)) ≤ weight_where P run ≤ 10 * Z.of_nat (length (filter P run)))%Z.
Proof.
  induction run as [|res run IH]; simpl; [done|]. rewrite filter_cons.
  pose proof (severityWeight_bounds (ResSeverity res)).
  destruct (decide (P res)); simpl; lia.
Qed.

Lemma filter_passed_scored run :
  (length (filter passed run) ≤ length (filter scored run) ≤ length run) ∧
  (weight_where passed run ≤ weight_where scored run)%Z.
Proof.
  induction run as [|res run IH]; simpl; [done|]. rewrite !filter_cons.
  pose proof (severityWeight_bounds (ResSeverity res)).
  unfold passed, scored in *. repeat case_decide; simplify_eq/=; try congruence; lia.
Qed.

Lemma weight_where_0 (P : CheckResult → Prop) `{∀ r, Decision (P r)} run :
  weight_where P run = 0%Z ↔ ∀ res, res ∈ run → ¬ P res.
Proof.
  rewrite <- (filter_length_0 P). pose proof (weight_where_bounds P run). lia.
Qed.

Lemma weight_where_eq run :
  weight_where passed run = weight_where scored run ↔
  ∀ res, res ∈ run → scored res → passed res.
Proof.
  induction run as [|res run IH]; [set_solver|]. simpl.
  pose proof (proj2 (filter_passed_scored run)).
  pose proof (severityWeight_bounds (ResSeverity res)). setoid_rewrite elem_of_cons.
  destruct (decide (passed res)) as [Hp|Hp], (decide (scored res)) as [Hs|Hs].
  - rewrite Z.add_cancel_l, IH. naive_solver.
  - exfalso. unfold passed, scored in *. apply Hs. congruence.
  - split; [lia|]. intros Hall. exfalso. eauto.
  - rewrite IH. naive_solver.
Qed.

Lemma score_zero (run : list CheckResult) :
  ((∀ res, res ∈ run → ¬ passed res) ∧ ¬ (∀ res, res ∈ run → ¬ scored res)) ↔
  (∃ res, res ∈ run ∧ scored res) ∧ ∀ res, res ∈ run → ¬ passed res.
Proof.
  split; intros [H1 H2]; [|naive_solver]. split; [|done].
  destruct (decide (Exists scored run)) as [He|He]; [by apply Exists_exists|].
  exfalso. apply H2. intros res Hin Hs. apply He, Exists_exists. eauto.
Qed.

Lemma score_fold run s :
  (0 ≤ Earned s)%Z → (Earned s ≤ Possible s)%Z → (0 ≤ ScorePassed s ≤ Scored s)%Z →
  (Possible s + 10 * Z.of_nat (length run) ≤ i64_max)%Z →
  (Scored s + Z.of_nat (length run) ≤ i64_max)%Z →
  foldl score_result s run =
    mkScore (Value s) (Earned s + weight_where passed run) (Possible s + weight_where scored run)
      (ScorePassed s + Z.of_nat (length (filter passed run)))
      (Scored s + Z.of_nat (length (filter scored run))).
Proof.
  revert s. induction run as [|res run IH]; intros [v e p sp sc] He Hp Hs Hb Hc; simpl in *.
  { by rewrite !Z.add_0_r. }
  pose proof (severityWeight_bounds (ResSeverity res)) as Hw.
  assert (Hi : ∀ z, (0 ≤ z ≤ i64_max)%Z → i64 z = z).
  { intros z ?. apply i64_id. unfold in_i64, i64_min. lia. }
  unfold score_result at 2. simpl. rewrite !filter_cons.
  destruct (decide (scored res)) as [Hsc|Hsc], (decide (passed res)) as [Hpa|Hpa],
    (decide (ResOutcome res = OutcomeSkip)); unfold scored, passed in Hsc, Hpa; try congruence;
    try (exfalso; by apply Hsc); try case_bool_decide; try congruence;
    simpl; rewrite ?Hi by lia; rewrite IH by (simpl; lia); simpl; f_equal; lia.
Qed.

Lemma scorePercent_spec e p :
  (0 ≤ e ≤ p)%Z → (p ≤ 2 ^ 50)%Z →
  (0 ≤ scorePercent e p ≤ 100)%Z ∧
  (scorePercent e p = 100 ↔ e = p)%Z ∧
  (scorePercent e p = 0 ↔ e = 0 ∧ p ≠ 0)%Z.
Proof.
  intros He Hp. unfold scorePercent.
  repeat (case_decide; [lia|]). set (q := i64 _).
  repeat case_decide; lia.
Qed.

(** ** Lemmas: runs of a registry *)
Section run_lemmas.
Context {W : Type} `{UnicodeTables} (ctx_err : W → option string) (debug_Stack : W → string).
Context (r : Registry W) (Hwf : wf r).
Local Abbreviation Run := (Run ctx_err debug_Stack).
Local Abbreviation run_check := (run_check ctx_err debug_Stack).

Lemma Run_Ok_inv w run w' :
  Run r w = (Ok run, w') →
  ∃ cs (ws : list W), Plan r = Ok cs ∧ ResID <$> run = ID <$> cs ∧ length run = length cs ∧
    ws !! 0 = Some w ∧ ws !! length cs = Some w' ∧
    ∀ i c, cs !! i = Some c → ∃ res wi wi', run !! i = Some res ∧
      ws !! i = Some wi ∧ ws !! S i = Some wi' ∧
      run_check (known (take i run)) c wi = (res, wi').
Proof.
  unfold CheckRun.Run. destruct (Plan r) as [cs|e]; [|done].
  destruct (run_loop_spec ctx_err debug_Stack cs [] w) as (rs & w1 & ws & Heq & Hlen & H0 & Hl & Hi).
  change (known []) with (∅ : gmap string CheckResult) in Heq. rewrite Heq. simpl.
  intros [= <- <-]. exists cs, ws. split_and!; try done.
  apply list_eq. intros i. rewrite !list_lookup_fmap.
  destruct (cs !! i) as [c|] eqn:Hc.
  - destruct (Hi i c Hc) as (res & wi & wi' & -> & _ & _ & Hr). simpl.
    pose proof (run_check_id ctx_err debug_Stack (known ([] ++ take i rs)) c wi) as Hid.
    rewrite Hr in Hid. simpl in *. by rewrite Hid.
  - apply lookup_ge_None in Hc. by rewrite (lookup_ge_None_2 rs) by lia.
Qed.

Lemma Plan_ids cs :
  Plan r = Ok cs → NoDup (ID <$> cs) ∧
  ∀ cs1 c cs2 q, cs = cs1 ++ c :: cs2 → q ∈ Requires c → q ∈ ID <$> cs1.
Proof.
  intros Hp. destruct (Plan_ok r Hwf cs Hp) as [Hperm Ht]. split; [|done].
  rewrite Hperm. apply (wf_order _ Hwf).
Qed.

Lemma run_result_fixable w run w' res :
  Run r w = (Ok run, w') → res ∈ run →
  ∃ c, Get r (ResID res) = Some c ∧
    Fixable res = match Fix c with Some _ => true | None => false end.
Proof.
  intros (cs & ws & Hp & Hids & Hlen & _ & _ & Hi)%Run_Ok_inv [i Hres]%list_elem_of_lookup.
  destruct (lookup_lt_is_Some_2 cs i) as [c Hc].
  { apply lookup_lt_Some in Hres. lia. }
  destruct (Hi i c Hc) as (res' & wi & wi' & Hres' & _ & _ & Hr). simplify_eq.
  pose proof (run_check_id ctx_err debug_Stack (known (take i run)) c wi) as Hid.
  pose proof (run_check_fixable ctx_err debug_Stack (known (take i run)) c wi) as Hf.
  rewrite Hr in Hid, Hf. simpl in *. exists c. split; [|done].
  unfold Get. rewrite Hid. apply (Plan_stored r Hwf cs c Hp).
  by eapply list_elem_of_lookup_2.
Qed.
(** The fix loop over a list of results of this registry. *)
Lemma fix_loop_spec results attempts w :
  (∀ res, res ∈ results → ∃ c, Get r (ResID res) = Some c ∧
     Fixable res = match Fix c with Some _ => true | None => false end) →
  ∃ new w', fix_loop ctx_err debug_Stack r results attempts w = (attempts ++ new, w') ∧
    AttemptID <$> new =
      ResID <$> filter (λ res, ResOutcome res = OutcomeFail ∧ Fixable res) results ∧
    (new = [] → w' = w).
Proof.
  revert attempts w. induction results as [|res results IH]; intros attempts w Hres.
  { exists [], w. by rewrite app_nil_r. }
  cbn [fix_loop]. rewrite filter_cons. destruct (Hres res ltac:(set_solver)) as (c & Hc & Hf).
  destruct (decide (ResOutcome res = OutcomeFail)) as [Ho|Ho].
  2:{ rewrite (decide_False (P := _ ∧ _)) by naive_solver. apply IH. set_solver. }
  rewrite Hc. destruct (Fix c) as [f|].
  - rewrite decide_True by (by rewrite Hf).
    destruct (runFix ctx_err debug_Stack c w) as [err w1].
    destruct (IH (attempts ++ [mkFixAttempt (ResID res) err false]) w1)
      as (new & w' & -> & Hids & _); [set_solver|].
    exists (mkFixAttempt (ResID res) err false :: new), w'.
    rewrite <- app_assoc, fmap_cons, Hids. done.
  - rewrite decide_False by (rewrite Hf; by intros [_ ?]). apply IH. set_solver.
Qed.

Lemma Run_NoDup w run w' : Run r w = (Ok run, w') → NoDup (ResID <$> run).
Proof.
  intros (cs & ws & Hp & -> & _)%Run_Ok_inv. by apply (Plan_ids cs).
Qed.

(** Whether the graph is valid does not depend on the world. *)
Lemma Run_again w run w1 w2 : Run r w = (Ok run, w1) → ∃ run' w3, Run r w2 = (Ok run', w3).
Proof.
  unfold CheckRun.Run. destruct (Plan r); [|done]. intros _. case_match. eauto.
Qed.

Lemma outcomes_pass run id :
  NoDup (ResID <$> run) →
  default OutcomeUnset (outcomes run !! id) = OutcomePass ↔
  ∃ res, res ∈ run ∧ ResID res = id ∧ ResOutcome res = OutcomePass.
Proof.
  intros Hnd. unfold outcomes. split.
  - intros Ho. destruct (decide (id ∈ ResID <$> run)) as [Hin|Hnin].
    + apply list_elem_of_fmap in Hin as (res & -> & [i Hi]%list_elem_of_lookup).
      exists res. rewrite (foldl_insert_lookup ResID ResOutcome run ∅ i res Hnd Hi) in Ho.
      split_and!; [by eapply list_elem_of_lookup_2|done..].
    + by rewrite foldl_insert_notin, lookup_empty in Ho.
  - intros (res & [i Hi]%list_elem_of_lookup & <- & Ho).
    by rewrite (foldl_insert_lookup ResID ResOutcome run ∅ i res Hnd Hi).
Qed.
End run_lemmas.

(** ** Properties *)
Section properties.
Context {W : Type} `{UnicodeTables} (ctx_err : W → option string) (debug_Stack : W → string).
Local Abbreviation probe := (probe ctx_err debug_Stack).
Local Abbreviation Run := (Run ctx_err debug_Stack).
Local Abbreviation RunAndFix := (RunAndFix ctx_err debug_Stack).

(** A run executes the planned checks one after the other.  A check with a
    requirement that failed, errored or was blocked is reported blocked, with
    exactly those requirements as blockers, and the world is left alone (its
    probe did not run); with skipped requirements only, it is reported skipped,
    again without probing; only a check whose requirements all passed is
    probed. *)
Theorem Run_spec (r : Registry W) w run w' :
  reachable r → Run r w = (Ok run, w') →
  ∃ cs (ws : list W), Plan r = Ok cs ∧ ResID <$> run = ID <$> cs ∧
    ws !! 0 = Some w ∧ ws !! length cs = Some w' ∧
    ∀ i c, cs !! i = Some c → ∃ res wi wi', run !! i = Some res ∧
      ws !! i = Some wi ∧ ws !! S i = Some wi' ∧
      let outcome q := default OutcomeUnset (outcomes run !! q) in
      let hard := filter (λ q, blocks (outcome q)) (Requires c) in
      let skipped := filter (λ q, outcome q = OutcomeSkip) (Requires c) in
      if decide (hard ≠ []) then
        ResOutcome res = OutcomeBlocked ∧ Blockers res = hard ∧ wi' = wi
      else if decide (skipped ≠ []) then ResOutcome res = OutcomeSkip ∧ wi' = wi
      else probe c (base_result c) wi = (res, wi').
Proof.
  intros Hwf%reachable_wf HR.
  destruct (Run_Ok_inv ctx_err debug_Stack r w run w' HR) as (cs & ws & Hp & Hids & Hlen & H0 & Hl & Hi).
  destruct (Plan_ids r Hwf cs Hp) as [Hnd Ht].
  exists cs, ws. split_and!; try done. intros i c Hc.
  destruct (Hi i c Hc) as (res & wi & wi' & Hres & Hwi & Hwi' & Hr).
  exists res, wi, wi'. split_and!; try done. intros outcome hard skipped.
  assert (Hout : ∀ q, q ∈ Requires c → outcome_of (known (take i run)) q = outcome q).
  { intros q Hq. rewrite outcome_of_known. unfold outcome.
    rewrite outcomes_prefix; [done|by rewrite Hids|]. rewrite fmap_take, Hids, <- fmap_take.
    eapply Ht; [|exact Hq]. symmetry. by apply take_drop_middle. }
  unfold run_check in Hr. rewrite sort_requirements_spec in Hr. simpl in Hr.
  rewrite (filter_ext_in (λ q, blocks (outcome_of (known (take i run)) q))
             (λ q, blocks (outcome q))) in Hr by (intros q Hq; by rewrite Hout).
  rewrite (filter_ext_in (λ q, outcome_of (known (take i run)) q = OutcomeSkip)
             (λ q, outcome q = OutcomeSkip)) in Hr by (intros q Hq; by rewrite Hout).
  fold hard skipped in Hr. clearbody hard skipped.
  destruct hard as [|h hard]; [|simpl in Hr; by simplify_eq].
  destruct skipped as [|k skipped]; [done|simpl in Hr; by simplify_eq].
Qed.

(** A probe counts as passed only when the context was live, the probe
    returned normally without an error, and its status is "pass"; a cancelled
    context, an error, a panic or an unknown status is reported as an error. *)
Theorem probe_pass_iff (c : Check W) res w :
  let out := ResOutcome (probe c res w).1 in
  (out = OutcomePass ↔
     ctx_err w = None ∧ ∃ f result w', Probe c = Some f ∧ f w = (Returned (Ok result), w') ∧
       ResultStatus result = StatusPass) ∧
  (out = OutcomeError ↔
     ctx_err w ≠ None ∨ Probe c = None ∨
     ∃ f, Probe c = Some f ∧
       ((∃ p, (f w).1 = Panicked p) ∨ (∃ e, (f w).1 = Returned (Err e)) ∨
        ∃ result s, (f w).1 = Returned (Ok result) ∧ ResultStatus result = StatusOther s)).
Proof.
  unfold CheckRun.probe. destruct (ctx_err w) as [e|].
  { split; split; simpl; [done|by intros [? _]|by left|done]. }
  destruct (Probe c) as [f|].
  2:{ split; split; simpl; [done|by intros (_ & ? & ? & ? & ? & _)|by right; left|done]. }
  destruct (f w) as [out w'] eqn:Hf. split; split.
  - intros Ho. split; [done|]. exists f. destruct out as [[[[] msg]|e]|p]; try done; eauto.
  - intros (_ & f' & res' & w'' & [= <-] & Hf' & Hs). rewrite Hf in Hf'. simplify_eq/=. by rewrite Hs.
  - intros Ho. do 2 right. exists f. split; [done|]. rewrite Hf.
    destruct out as [[[[] msg]|e]|p]; try done; simpl; eauto 8.
  - intros [?|[?|(f' & [= <-] & Ho)]]; [done..|]. rewrite Hf in Ho. simpl in Ho.
    destruct Ho as [[p ->]|[[e ->]|(res' & s & -> & Hs)]]; simpl; [done..|by rewrite Hs].
Qed.

(** [RunAndFix] attempts a fix for exactly the checks that failed in the
    first run and have one, in run order; with nothing to attempt the first run
    is returned as it is; otherwise the registry runs once more and an attempt
    is resolved exactly when its check passed in that second run. *)
Theorem RunAndFix_spec (r : Registry W) w first w1 :
  reachable r → Run r w = (Ok first, w1) →
  ∃ out attempts w', RunAndFix r w = (Some out, attempts, None, w') ∧
    AttemptID <$> attempts = ResID <$> filter (λ res, ResOutcome res = OutcomeFail ∧ Fixable res) first ∧
    (attempts = [] → out = first ∧ w' = w1) ∧
    (attempts ≠ [] → ∃ w2, Run r w2 = (Ok out, w') ∧
       ∀ a, a ∈ attempts → Resolved a = true ↔
         ∃ res, res ∈ out ∧ ResID res = AttemptID a ∧ ResOutcome res = OutcomePass).
Proof.
  intros Hwf%reachable_wf HR. unfold CheckRun.RunAndFix. rewrite HR.
  destruct (fix_loop_spec ctx_err debug_Stack r Hwf first [] w1) as (new & w2 & -> & Hids & Hw2).
  { intros res. by apply (run_result_fixable ctx_err debug_Stack r Hwf w first w1). }
  simpl. destruct new as [|a new].
  { exists first, [], w2. split_and!; try done. intros _. split; [done|by apply Hw2]. }
  rewrite decide_False by done.
  destruct (Run_again ctx_err debug_Stack r w first w1 w2 HR) as (second & w3 & H2). rewrite H2.
  exists second, (mark_resolved (outcomes second) <$> a :: new), w3. split_and!; try done.
  - rewrite <- Hids, <- list_fmap_compose. done.
  - intros _. exists w2. split; [done|].
    intros b (a0 & -> & _)%list_elem_of_fmap. simpl. rewrite bool_decide_eq_true.
    apply outcomes_pass. by apply (Run_NoDup ctx_err debug_Stack r Hwf w2 second w3).
Qed.
End properties.

(** The exit code: 1 exactly when a critical check failed, whatever comes
    before or after it; 2 exactly when none failed but a critical check errored
    or was blocked; 0 exactly when every critical check passed or was skipped
    (or has no outcome, which the runner never produces). *)
Theorem ExitCode_spec run :
  (ExitCode run = ExitCritical ↔ ∃ res, res ∈ run ∧ critical res ∧ ResOutcome res = OutcomeFail) ∧
  (ExitCode run = ExitIndeterminate ↔
     (∀ res, res ∈ run → critical res → ResOutcome res ≠ OutcomeFail) ∧
     ∃ res, res ∈ run ∧ critical res ∧ unknown res) ∧
  (OK run = true ↔
     ∀ res, res ∈ run → critical res →
       ResOutcome res = OutcomePass ∨ ResOutcome res = OutcomeSkip ∨ ResOutcome res = OutcomeUnset).
Proof.
  unfold OK, ExitCode. rewrite exit_loop_spec, bool_decide_eq_true.
  unfold ExitCritical, ExitIndeterminate, ExitOK, critical, unknown.
  destruct (decide (Exists _ run)) as [Hf|Hf]; rewrite Exists_exists in Hf.
  { destruct Hf as (res & ? & ? & Ho). split_and!; split; try done; eauto.
    - intros [Hall _]. exfalso. by apply (Hall res).
    - intros Hall. destruct (Hall res) as [?|[?|?]]; congruence. }
  assert (Hnf : ∀ res, res ∈ run → ResSeverity res = SeverityCritical → ResOutcome res ≠ OutcomeFail).
  { intros res ? ? ?. apply Hf. eauto. }
  destruct (decide (Exists _ run)) as [Hu|Hu]; rewrite Exists_exists in Hu.
  { destruct Hu as (res & ? & ? & Ho). split_and!; split; try done; eauto 6.
    intros Hall. destruct (Hall res) as [?|[?|?]]; intuition congruence. }
  split_and!; split; try done.
  - intros [_ He]. by apply Hu in He.
  - intros _ res Hin Hc. specialize (Hnf res Hin Hc).
    destruct (ResOutcome res) eqn:Ho; auto; try done; exfalso; apply Hu; eauto.
Qed.

(** The hardening score of a run of up to 2^40 checks is between 0 and 100;
    it is 100 exactly when every scored check passed and 0 exactly when
    something was scored and nothing passed; its counts are the plain numbers of
    passed and of non-skipped checks, with no wrap-around on 64-bit integers. *)
Theorem Score_spec run :
  length run ≤ 2 ^ 40 →
  let s := RunScore run in
  (0 ≤ Value s ≤ 100)%Z ∧
  (Value s = 100%Z ↔ ∀ res, res ∈ run → scored res → passed res) ∧
  (Value s = 0%Z ↔ (∃ res, res ∈ run ∧ scored res) ∧ ∀ res, res ∈ run → ¬ passed res) ∧
  ScorePassed s = Z.of_nat (length (filter passed run)) ∧
  Scored s = Z.of_nat (length (filter scored run)).
Proof.
  intros Hlen. unfold RunScore.
  assert (Hl : (Z.of_nat (length run) ≤ 2 ^ 40)%Z).
  { apply Nat2Z.inj_le in Hlen. by rewrite Nat2Z.inj_pow in Hlen. }
  rewrite score_fold by (unfold i64_max; simpl; lia). simpl. rewrite !Z.add_0_l.
  destruct (filter_passed_scored run) as [Hle Hw].
  pose proof (weight_where_bounds passed run). pose proof (weight_where_bounds scored run).
  destruct (scorePercent_spec (weight_where passed run) (weight_where scored run)) as (Hb & H100 & Hz);
    [lia|lia|].
  split_and!; try done; try lia.
  - rewrite H100. apply weight_where_eq.
  - rewrite Hz, !weight_where_0. apply score_zero.
Qed.

(** ** Witnesses: a run in which one check fails, is fixed, and unblocks others *)
Section witnesses.
#[local] Instance no_tables : UnicodeTables :=
  {| unicode_lower := id; unicode_upper := id; unicode_quote := id; unicode_fold := λ s t, bool_decide (s = t) |}.

(** The world says whether the broken part was repaired. *)
Definition db_probe (w : bool) : panics (result string Result) * bool :=
  (Returned (Ok (mkResult (if w then StatusPass else StatusFail) "")), w).
Definition db_fix (w : bool) : panics (option string) * bool := (Returned None, true).
Definition skip_probe (w : bool) : panics (result string Result) * bool :=
  (Returned (Ok (mkResult StatusSkip "n/a")), w).
Definition crash_probe (w : bool) : panics (result string Result) * bool := (Panicked "boom", w).

Definition doctor : Registry bool :=
  register_all New
    [mkCheck "app" SeverityWarning "" "" ["db"] (Some db_probe) None;
     mkCheck "db" SeverityCritical "" "run the fix" [] (Some db_probe) (Some db_fix);
     mkCheck "byo" SeverityInfo "" "" [] (Some skip_probe) None;
     mkCheck "crash" SeverityInfo "" "" [] (Some crash_probe) None].

Definition live (_ : bool) : option string := None.
Definition no_stack (_ : bool) : string := "".
Definition first_run : list CheckResult :=
  match Run live no_stack doctor false with (Ok run, _) => run | _ => [] end.

Example first_run_outcomes :
  (λ res, (ResID res, ResOutcome res)) <$> first_run =
    [("db", OutcomeFail); ("app", OutcomeBlocked); ("byo", OutcomeSkip); ("crash", OutcomeError)].
Proof. vm_compute. reflexivity. Qed.

Lemma doctor_reachable : reachable doctor.
Proof. apply register_all_reachable. constructor. Qed.

Lemma doctor_run : Run live no_stack doctor false = (Ok first_run, false).
Proof. vm_compute. reflexivity. Qed.

Lemma Run_spec_witness :
  ∃ cs (ws : list bool), Plan doctor = Ok cs ∧ ResID <$> first_run = ID <$> cs ∧
    ws !! 0 = Some false ∧ ws !! length cs = Some false.
Proof.
  destruct (Run_spec live no_stack doctor false first_run false doctor_reachable doctor_run)
    as (cs & ws & H1 & H2 & H3 & H4 & _).
  exists cs, ws. exact (conj H1 (conj H2 (conj H3 H4))).
Defined.

Lemma RunAndFix_spec_witness :
  ∃ out attempts w', RunAndFix live no_stack doctor false = (Some out, attempts, None, w') ∧
    AttemptID <$> attempts = ["db"].
Proof.
  destruct (RunAndFix_spec live no_stack doctor false first_run false doctor_reachable doctor_run)
    as (out & attempts & w' & H1 & H2 & _).
  exists out, attempts, w'. split; [exact H1|]. rewrite H2. vm_compute. reflexivity.
Defined.

Lemma Score_spec_witness :
  Value (RunScore first_run) = 0%Z ∧ (0 ≤ Value (RunScore first_run) ≤ 100)%Z ∧
  Scored (RunScore first_run) = 3%Z.
Proof.
  assert (Hl : length first_run ≤ 2 ^ 40).
  { change (length first_run) with 4. apply (Nat.le_trans _ (2 ^ 2)); [done|].
    apply Nat.pow_le_mono_r; lia. }
  destruct (Score_spec first_run Hl) as (Hb & _ & _ & _ & Hs).
  split; [vm_compute; reflexivity|]. split; [exact Hb|]. rewrite Hs. vm_compute. reflexivity.
Defined.
End witnesses.
