(* ===== verification/RepoAllowlist.v ===== *)
(** * The repository allowlist

    Models [internal/repoallowlist/repoallowlist.go], the format shared by the
    installer, the dashboard, the operator and the webhook receiver: a set of
    [owner/repository] names, kept as sorted lower-case lines of a ConfigMap.

    A Go [map[string]struct{}] used as a set is a [gset]; ranging over it gives
    the elements in an unspecified order, which the sort that follows removes. *)
From S2P Require Import Prelude Regex GoStrings.
From Stdlib Require Import Ascii.

Definition MaxRepositoryLength : nat := 140.
Definition MaxRepositories : nat := 400.

(** [^[A-Za-z0-9._-]+/[A-Za-z0-9._-]+$] *)
Definition repo_char (c : ascii) : bool := is_alnum c || one_of "._-" c.
Definition repositoryPattern : re :=
  Cat (Plus (Cls repo_char)) (Cat (Lit "/"%char) (Plus (Cls repo_char))).

Inductive AllowlistError : Type :=
| TooManyRepositories
| RepositoryTooLong (repository : string)
| InvalidRepository (repository : string).

Section allowlist.
Context `{UnicodeTables}.

Fixpoint normalize_loop (repositories : list string) (normalized : gset string) (nonEmpty : nat)
    : result AllowlistError (gset string) :=
  match repositories with
  | [] => Ok normalized
  | raw :: repositories =>
      let repository := TrimSpace raw in
      if decide (repository = "") then normalize_loop repositories normalized nonEmpty else
      let nonEmpty := S nonEmpty in
      if MaxRepositories <? nonEmpty then Err TooManyRepositories
      else if MaxRepositoryLength <? len repository then Err (RepositoryTooLong repository)
      else if negb (MatchString repositoryPattern repository) then Err (InvalidRepository repository)
      else normalize_loop repositories ({[ToLower repository]} ∪ normalized) nonEmpty
  end.

Definition Normalize (repositories : list string) : result AllowlistError (list string) :=
  normalized ← normalize_loop repositories ∅ 0;
  Ok (merge_sort String.le (elements normalized)).

Definition Parse (raw : string) : result AllowlistError (list string) :=
  Normalize (Split raw newline).

Definition Format (repositories : list string) : result AllowlistError string :=
  normalized ← Normalize repositories;
  if decide (length normalized = 0) then Ok ""
  else Ok (Join normalized (String newline "") +:+ String newline "").

(** ** Lemmas: accepted names *)

(** A name in canonical form: what every stored line looks like. *)
Definition canonical (repository : string) : Prop :=
  MatchString repositoryPattern repository = true ∧ len repository ≤ MaxRepositoryLength ∧
  ascii_lower repository = repository.

Lemma repo_alphabet_solid c : alphabet repositoryPattern c = true → solid c = true.
Proof.
  assert (Hi : ∀ c, implb (alphabet repositoryPattern c) (solid c) = true).
  { apply all_ascii_forall. vm_compute. reflexivity. }
  specialize (Hi c). intros Ha. by rewrite Ha in Hi.
Qed.

Lemma repo_pattern_lower : closed_under lower_ascii repositoryPattern.
Proof.
  assert (Hr : ∀ c, implb (repo_char c) (repo_char (lower_ascii c)) = true).
  { apply all_ascii_forall. vm_compute. reflexivity. }
  assert (Hr' : ∀ c, repo_char c = true → repo_char (lower_ascii c) = true).
  { intros c Hc. specialize (Hr c). by rewrite Hc in Hr. }
  simpl. split_and!; try done. intros c Hc%bool_decide_eq_true. subst. done.
Qed.

Lemma match_solid s :
  MatchString repositoryPattern s = true → Forall (λ c, solid c = true) (bytes s).
Proof.
  intros Hm%MatchString_alphabet. eapply Forall_impl; [exact Hm|]. apply repo_alphabet_solid.
Qed.

Lemma match_ascii s : MatchString repositoryPattern s = true → is_ascii s = true.
Proof.
  intros Hm%match_solid. apply is_ascii_Forall. eapply Forall_impl; [exact Hm|].
  by intros c [_ ?]%solid_inv.
Qed.

Lemma match_nonempty s : MatchString repositoryPattern s = true → s ≠ "".
Proof. intros Hm ->. vm_compute in Hm. done. Qed.

Lemma canonical_lower s :
  MatchString repositoryPattern s = true → len s ≤ MaxRepositoryLength → canonical (ToLower s).
Proof.
  intros Hm Hl. rewrite ToLower_ascii by (by apply match_ascii). split_and!.
  - unfold MatchString, ascii_lower. fold (bytes (of_bytes (lower_ascii <$> bytes s))).
    rewrite bytes_of_bytes. apply matchb_spec, re_match_map; [apply repo_pattern_lower|].
    by apply matchb_spec.
  - by rewrite len_ascii_lower.
  - apply ascii_lower_idemp.
Qed.

Lemma canonical_trim s : canonical s → TrimSpace s = s.
Proof. intros (Hm & _). by apply TrimSpace_solid, match_solid. Qed.

Lemma canonical_ToLower s : canonical s → ToLower s = s.
Proof. intros (Hm & _ & Hl). rewrite ToLower_ascii; [done|by apply match_ascii]. Qed.

Lemma canonical_no_newline s : canonical s → newline ∉ bytes s.
Proof.
  intros (Hm%match_solid & _) Hin. rewrite Forall_forall in Hm. specialize (Hm _ Hin).
  vm_compute in Hm. done.
Qed.

(** ** Lemmas: the loop *)

(** The non-blank entries, trimmed. *)
Definition entries (repositories : list string) : list string :=
  filter (λ r, r ≠ "") (TrimSpace <$> repositories).

Definition acceptable (repository : string) : Prop :=
  len repository ≤ MaxRepositoryLength ∧ MatchString repositoryPattern repository = true.

Lemma normalize_loop_Ok repositories set n :
  n + length (entries repositories) ≤ MaxRepositories →
  Forall acceptable (entries repositories) →
  normalize_loop repositories set n =
    Ok (list_to_set (ToLower <$> entries repositories) ∪ set).
Proof.
  unfold entries. revert set n. induction repositories as [|raw l IH]; intros set n Hn HF.
  { simpl. f_equal. set_solver. }
  rewrite fmap_cons, filter_cons in *. cbn [normalize_loop].
  destruct (decide (TrimSpace raw = "")) as [Hb|Hb].
  { rewrite decide_False in * by naive_solver. by apply IH. }
  rewrite decide_True in * by done. apply Forall_cons in HF as [[Hl Hm] HF]. simpl in Hn.
  rewrite !(proj2 (Nat.ltb_ge _ _)) by lia. rewrite Hm. simpl. rewrite IH by (done || lia).
  f_equal. set_solver.
Qed.

Lemma normalize_loop_Ok_inv repositories set n set' :
  normalize_loop repositories set n = Ok set' →
  Forall acceptable (entries repositories) ∧
  (entries repositories ≠ [] → n + length (entries repositories) ≤ MaxRepositories).
Proof.
  unfold entries. revert set n. induction repositories as [|raw l IH]; intros set n.
  { intros _. split; [constructor|done]. }
  rewrite fmap_cons, filter_cons. cbn [normalize_loop].
  destruct (decide (TrimSpace raw = "")) as [Hb|Hb].
  { rewrite decide_False by naive_solver. apply IH. }
  rewrite decide_True by done.
  destruct (MaxRepositories <? S n) eqn:H1; [done|].
  destruct (MaxRepositoryLength <? len (TrimSpace raw)) eqn:H2; [done|].
  apply Nat.ltb_ge in H1, H2.
  destruct (MatchString repositoryPattern (TrimSpace raw)) eqn:Hm; simpl; [|done].
  intros [HF Hn]%IH. split; [constructor; [split; [lia|done]|done]|]. intros _. simpl.
  destruct (filter _ (TrimSpace <$> l)); simpl in *; [lia|]. specialize (Hn ltac:(done)). lia.
Qed.

Lemma Normalize_Ok_inv repositories out :
  Normalize repositories = Ok out →
  Forall acceptable (entries repositories) ∧ length (entries repositories) ≤ MaxRepositories ∧
  out = merge_sort String.le
          (elements (list_to_set (ToLower <$> entries repositories) : gset string)).
Proof.
  unfold Normalize. destruct (normalize_loop repositories ∅ 0) as [set|e] eqn:Hl; [|done].
  intros [= <-]. destruct (normalize_loop_Ok_inv _ _ _ _ Hl) as [HF Hn].
  assert (Hlen : length (entries repositories) ≤ MaxRepositories).
  { destruct (entries repositories); [simpl; lia|]. by apply Hn. }
  split_and!; [done..|]. rewrite normalize_loop_Ok in Hl by done. injection Hl as <-.
  do 2 f_equal. set_solver.
Qed.

Lemma Normalize_acceptable repositories :
  Forall acceptable (entries repositories) → length (entries repositories) ≤ MaxRepositories →
  Normalize repositories = Ok (merge_sort String.le
    (elements (list_to_set (ToLower <$> entries repositories) : gset string))).
Proof.
  intros HF Hl. unfold Normalize. rewrite normalize_loop_Ok by done. simpl.
  do 3 f_equal. set_solver.
Qed.

Lemma Normalize_elem repositories out r :
  Normalize repositories = Ok out → r ∈ out ↔ r ∈ ToLower <$> entries repositories.
Proof.
  intros (_ & _ & ->)%Normalize_Ok_inv.
  by rewrite merge_sort_Permutation, elem_of_elements, elem_of_list_to_set.
Qed.

Lemma Normalize_sorted repositories out :
  Normalize repositories = Ok out → NoDup out ∧ StronglySorted String.le out.
Proof.
  intros (_ & _ & ->)%Normalize_Ok_inv. split.
  - rewrite merge_sort_Permutation. apply NoDup_elements.
  - apply StronglySorted_merge_sort; apply _.
Qed.

Lemma Normalize_canonical_Forall repositories out :
  Normalize repositories = Ok out → Forall canonical out.
Proof.
  intros HN. apply Forall_forall. intros r. rewrite (Normalize_elem _ _ _ HN).
  intros (e & -> & He)%list_elem_of_fmap. apply Normalize_Ok_inv in HN as [HF _].
  rewrite Forall_forall in HF. destruct (HF e He). by apply canonical_lower.
Qed.

Lemma Normalize_length repositories out :
  Normalize repositories = Ok out → length out ≤ length (entries repositories).
Proof.
  intros HN. pose proof (Normalize_sorted _ _ HN) as [Hnd _].
  rewrite <- (length_fmap ToLower (entries repositories)).
  apply submseteq_length, NoDup_submseteq; [done|]. intros r. by apply Normalize_elem.
Qed.

Lemma entries_canonical l : Forall canonical l → entries l = l.
Proof.
  intros HF. unfold entries. assert (Ht : TrimSpace <$> l = l).
  { rewrite <- (list_fmap_id l) at 2. apply list_fmap_ext. intros i r Hr. apply canonical_trim.
    eapply Forall_lookup_1; eauto. }
  rewrite Ht. apply filter_all. intros r Hr. rewrite Forall_forall in HF.
  destruct (HF r Hr) as (Hm & _). by apply match_nonempty.
Qed.

(** Sorting the same set of names gives the same list. *)
Lemma sorted_same l1 l2 :
  NoDup l1 → StronglySorted String.le l1 → NoDup l2 → StronglySorted String.le l2 →
  (∀ r, r ∈ l1 ↔ r ∈ l2) → l1 = l2.
Proof.
  intros Hn1 Hs1 Hn2 Hs2 Hm. apply (StronglySorted_unique String.le); [done..|].
  by apply NoDup_Permutation.
Qed.

Lemma Normalize_fixed l :
  Forall canonical l → NoDup l → StronglySorted String.le l → length l ≤ MaxRepositories →
  Normalize l = Ok l.
Proof.
  intros HF Hnd Hs Hl. pose proof (entries_canonical l HF) as He.
  assert (HN : Normalize l = Ok (merge_sort String.le
    (elements (list_to_set (ToLower <$> entries l) : gset string)))).
  { apply Normalize_acceptable; rewrite He; [|done].
    eapply Forall_impl; [exact HF|]. by intros r (? & ? & _). }
  rewrite HN. f_equal. destruct (Normalize_sorted _ _ HN) as [? ?].
  apply sorted_same; [done..|]. intros r. rewrite (Normalize_elem _ _ _ HN), He.
  assert (Ht : ToLower <$> l = l); [|by rewrite Ht].
  rewrite <- (list_fmap_id l) at 2. apply list_fmap_ext. intros i x Hx.
  apply canonical_ToLower. eapply Forall_lookup_1; eauto.
Qed.

Lemma Normalize_idem repositories out : Normalize repositories = Ok out → Normalize out = Ok out.
Proof.
  intros HN. destruct (Normalize_sorted _ _ HN). apply Normalize_fixed; [|done..|].
  - by eapply Normalize_canonical_Forall.
  - apply Normalize_length in HN as Hl. apply Normalize_Ok_inv in HN as (_ & ? & _). lia.
Qed.

(** A final blank line is not an entry. *)
Lemma Normalize_blank_end repositories : Normalize (repositories ++ [""]) = Normalize repositories.
Proof.
  unfold Normalize. f_equal. generalize (∅ : gset string), 0.
  induction repositories as [|r l IH]; intros set n; [done|].
  cbn [app normalize_loop]. repeat (case_match; [done|]). by rewrite !IH.
Qed.

(** ** Properties *)

(** [Normalize] accepts exactly the lists whose non-blank entries (at most
    400) are well-formed names of at most 140 bytes, and then returns the
    sorted, duplicate-free list of the lower-cased entries, every one of them
    again a well-formed name. *)
Theorem Normalize_spec repositories out :
  Normalize repositories = Ok out ↔
    (Forall acceptable (entries repositories) ∧
     length (entries repositories) ≤ MaxRepositories) ∧
    NoDup out ∧ StronglySorted String.le out ∧ Forall canonical out ∧
    (∀ r, r ∈ out ↔ ∃ entry, entry ∈ entries repositories ∧ r = ToLower entry).
Proof.
  assert (Hm : ∀ r, r ∈ ToLower <$> entries repositories ↔
    ∃ entry, entry ∈ entries repositories ∧ r = ToLower entry).
  { intros r. rewrite list_elem_of_fmap. naive_solver. }
  split.
  - intros HN. pose proof (Normalize_Ok_inv _ _ HN) as (? & ? & _).
    pose proof (Normalize_sorted _ _ HN) as [? ?].
    split_and!; [done..|by eapply Normalize_canonical_Forall|].
    intros r. by rewrite (Normalize_elem _ _ _ HN).
  - intros ((HF & Hl) & Hnd & Hs & _ & Hr). pose proof (Normalize_acceptable _ HF Hl) as HN.
    rewrite HN. f_equal. destruct (Normalize_sorted _ _ HN). apply sorted_same; [done..|].
    intros r. by rewrite (Normalize_elem _ _ _ HN), Hr.
Qed.

(** What [Format] writes, [Parse] reads back as the normalized list; both
    fail on the same input lists, and formatting the list read back gives the
    same text again. *)
Theorem Parse_Format repositories :
  match Format repositories with
  | Ok raw => Parse raw = Normalize repositories ∧
      ∃ out, Normalize repositories = Ok out ∧ Format out = Ok raw
  | Err e => Normalize repositories = Err e
  end.
Proof.
  unfold Format at 1. destruct (Normalize repositories) as [out|e] eqn:HN; [|done]. simpl.
  pose proof (Normalize_idem _ _ HN) as Hid.
  assert (HF : Format out = if decide (length out = 0) then Ok "" else
    Ok (Join out (String newline "") +:+ String newline "")).
  { unfold Format. by rewrite Hid. }
  destruct (decide (length out = 0)) as [->%nil_length_inv|Hne].
  - split; [vm_compute; reflexivity|by exists []].
  - split; [|by exists out]. unfold Parse. rewrite Split_Join_terminated.
    + by rewrite Normalize_blank_end.
    + by intros ->.
    + eapply Forall_impl; [by eapply Normalize_canonical_Forall|]. apply canonical_no_newline.
Qed.
End allowlist.

Lemma Normalize_spec_witness :
  Forall canonical ["acme/api"; "acme/web"].
Proof.
  assert (H : @Normalize ascii_tables ["Acme/Web "; ""; "acme/api"; "ACME/web"]
    = Ok ["acme/api"; "acme/web"]) by (vm_compute; reflexivity).
  exact (proj1 (proj2 (proj2 (proj2 (proj1 (@Normalize_spec ascii_tables _ _) H))))).
Defined.
