(* ===== verification/Kube.v ===== *)
(** * Kubernetes objects

    The parts of the Kubernetes API types ([k8s.io/api], [k8s.io/apimachinery])
    that Orkano's controllers read and write.  A Go struct is a record with the
    fields Orkano touches, a pointer an [option], a map a [gmap]; a nil slice
    or map and an empty one are the same value, as for
    [equality.Semantic.DeepEqual].  Times are seconds since the epoch, the
    granularity of [metav1.Time] in the API. *)
From S2P Require Import Prelude.

Definition Time : Set := Z.

Record OwnerReference : Set := {
  owner_Kind : string;
  owner_Name : string;
  owner_UID : string;
  owner_Controller : bool;
}.
#[export] Instance OwnerReference_eq_dec : EqDecision OwnerReference.
Proof. solve_decision. Defined.

Record ObjectMeta : Set := {
  meta_Namespace : string;
  meta_Name : string;
  meta_UID : string;
  meta_Generation : Z;
  meta_CreationTimestamp : option Time;
  meta_DeletionTimestamp : option Time;
  meta_Labels : gmap string string;
  meta_Annotations : gmap string string;
  meta_Finalizers : list string;
  meta_OwnerReferences : list OwnerReference;
}.
#[export] Instance ObjectMeta_eq_dec : EqDecision ObjectMeta.
Proof. solve_decision. Defined.

(** [metav1.ObjectMeta{Namespace: ..., Name: ..., Labels: ..., Annotations: ...}] *)
Definition new_meta (namespace name : string) (labels annotations : gmap string string)
    : ObjectMeta :=
  {| meta_Namespace := namespace; meta_Name := name; meta_UID := "";
     meta_Generation := 0; meta_CreationTimestamp := None; meta_DeletionTimestamp := None;
     meta_Labels := labels; meta_Annotations := annotations; meta_Finalizers := [];
     meta_OwnerReferences := [] |}.

Definition set_finalizers (m : ObjectMeta) (fs : list string) : ObjectMeta :=
  {| meta_Namespace := meta_Namespace m; meta_Name := meta_Name m; meta_UID := meta_UID m;
     meta_Generation := meta_Generation m; meta_CreationTimestamp := meta_CreationTimestamp m;
     meta_DeletionTimestamp := meta_DeletionTimestamp m; meta_Labels := meta_Labels m;
     meta_Annotations := meta_Annotations m; meta_Finalizers := fs;
     meta_OwnerReferences := meta_OwnerReferences m |}.

Definition set_labels (m : ObjectMeta) (ls : gmap string string) : ObjectMeta :=
  {| meta_Namespace := meta_Namespace m; meta_Name := meta_Name m; meta_UID := meta_UID m;
     meta_Generation := meta_Generation m; meta_CreationTimestamp := meta_CreationTimestamp m;
     meta_DeletionTimestamp := meta_DeletionTimestamp m; meta_Labels := ls;
     meta_Annotations := meta_Annotations m; meta_Finalizers := meta_Finalizers m;
     meta_OwnerReferences := meta_OwnerReferences m |}.

(** [types.NamespacedName] *)
Record NamespacedName : Set := { key_Namespace : string; key_Name : string }.
#[export] Instance NamespacedName_eq_dec : EqDecision NamespacedName.
Proof. solve_decision. Defined.

Definition ObjectKey (m : ObjectMeta) : NamespacedName :=
  {| key_Namespace := meta_Namespace m; key_Name := meta_Name m |}.

(** ** Conditions *)
Definition ConditionTrue : string := "True".
Definition ConditionFalse : string := "False".

(** [metav1.Condition]; the transition time is kept by the library. *)
Record Condition : Set := {
  cond_Type : string;
  cond_Status : string;
  cond_ObservedGeneration : Z;
  cond_Reason : string;
  cond_Message : string;
  cond_LastTransitionTime : option Time;
}.
#[export] Instance Condition_eq_dec : EqDecision Condition.
Proof. solve_decision. Defined.

(** What [SetControllerReference] fails with: [controllerutil.AlreadyOwnedError]
    when the object has another controller. *)
Inductive OwnerError : Set :=
| AlreadyOwned (owner : OwnerReference) (text : string)
| OtherOwnerError (text : string).
Definition owner_text (e : OwnerError) : string :=
  match e with AlreadyOwned _ t | OtherOwnerError t => t end.

(** The library calls of [k8s.io/apimachinery] and [controller-runtime] that
    compute on values.  They are not part of the repository: the components
    take them as an argument, and a theorem that needs one to behave as
    documented says so with [KubeLibLaws]. *)
Class KubeLib : Type := {
  (** [meta.SetStatusCondition], [FindStatusCondition], [RemoveStatusCondition] *)
  SetStatusCondition : list Condition → Condition → list Condition;
  FindStatusCondition : list Condition → string → option Condition;
  RemoveStatusCondition : list Condition → string → list Condition;
  (** [controllerutil.ContainsFinalizer], [AddFinalizer], [RemoveFinalizer]: the
      finalizers after the call; adding reports whether it changed them *)
  ContainsFinalizer : list string → string → bool;
  AddFinalizer : list string → string → list string * bool;
  RemoveFinalizer : list string → string → list string;
  (** [metav1.GetControllerOf] and [metav1.IsControlledBy] *)
  GetControllerOf : ObjectMeta → option OwnerReference;
  IsControlledBy : ObjectMeta → ObjectMeta → bool;
  (** [controllerutil.SetControllerReference(owner, object)] *)
  SetControllerReference : ObjectMeta → ObjectMeta → result OwnerError ObjectMeta;
}.

Class KubeLibLaws `{KubeLib} : Prop := {
  (** The condition of the given type reads back as it was set (its transition
      time, which the call leaves unset, is the library's). *)
  SetStatusCondition_set cs c :
    ∃ c', c' ∈ SetStatusCondition cs c ∧ cond_Type c' = cond_Type c ∧
      cond_Status c' = cond_Status c ∧ cond_Reason c' = cond_Reason c ∧
      cond_Message c' = cond_Message c ∧
      cond_ObservedGeneration c' = cond_ObservedGeneration c;
  (** Conditions of other types are left alone. *)
  SetStatusCondition_other cs c c' :
    cond_Type c' ≠ cond_Type c → c' ∈ SetStatusCondition cs c ↔ c' ∈ cs;
  (** A removed finalizer is gone. *)
  RemoveFinalizer_gone fs f : ContainsFinalizer (RemoveFinalizer fs f) f = false;
  (** Setting the controller touches only the owner references. *)
  SetControllerReference_meta owner m m' :
    SetControllerReference owner m = Ok m' →
    meta_Namespace m' = meta_Namespace m ∧ meta_Name m' = meta_Name m ∧
    meta_Labels m' = meta_Labels m ∧ IsControlledBy m' owner = true;
  (** The condition found is the one last set, whatever happened to others. *)
  FindStatusCondition_set cs c :
    cond_Status <$> FindStatusCondition (SetStatusCondition cs c) (cond_Type c) = Some (cond_Status c);
  FindStatusCondition_set_other cs c t :
    t ≠ cond_Type c → FindStatusCondition (SetStatusCondition cs c) t = FindStatusCondition cs t;
  FindStatusCondition_removed cs t : FindStatusCondition (RemoveStatusCondition cs t) t = None;
  FindStatusCondition_removed_other cs t t' :
    t' ≠ t → FindStatusCondition (RemoveStatusCondition cs t) t' = FindStatusCondition cs t';
}.

(** An instance, to evaluate examples. *)
Definition controls (owner : ObjectMeta) : OwnerReference :=
  {| owner_Kind := "App"; owner_Name := meta_Name owner; owner_UID := meta_UID owner;
     owner_Controller := true |}.
Definition with_owners (m : ObjectMeta) (os : list OwnerReference) : ObjectMeta :=
  {| meta_Namespace := meta_Namespace m; meta_Name := meta_Name m; meta_UID := meta_UID m;
     meta_Generation := meta_Generation m; meta_CreationTimestamp := meta_CreationTimestamp m;
     meta_DeletionTimestamp := meta_DeletionTimestamp m; meta_Labels := meta_Labels m;
     meta_Annotations := meta_Annotations m; meta_Finalizers := meta_Finalizers m;
     meta_OwnerReferences := os |}.
Definition sample_kube_lib : KubeLib :=
  {| SetStatusCondition cs c := filter (λ c', cond_Type c' ≠ cond_Type c) cs ++ [c];
     FindStatusCondition cs t := head (filter (λ c, cond_Type c = t) cs);
     RemoveStatusCondition cs t := filter (λ c, cond_Type c ≠ t) cs;
     ContainsFinalizer fs f := bool_decide (f ∈ fs);
     AddFinalizer fs f := if decide (f ∈ fs) then (fs, false) else (fs ++ [f], true);
     RemoveFinalizer fs f := filter (λ g, g ≠ f) fs;
     GetControllerOf m := snd <$> list_find (λ o, owner_Controller o = true) (meta_OwnerReferences m);
     IsControlledBy m owner := bool_decide (controls owner ∈ meta_OwnerReferences m);
     SetControllerReference owner m := Ok (with_owners m (controls owner :: meta_OwnerReferences m)) |}.

Lemma filter_types cs t t' :
  filter (λ c, cond_Type c = t') (filter (λ c, cond_Type c ≠ t) cs) =
  if decide (t' = t) then [] else filter (λ c, cond_Type c = t') cs.
Proof.
  induction cs as [|c cs IH]; [by case_decide|]. rewrite !filter_cons. repeat case_decide; simplify_eq;
    rewrite ?filter_cons, ?decide_True, ?decide_False by done; congruence.
Qed.

Lemma sample_kube_lib_laws : @KubeLibLaws sample_kube_lib.
Proof.
  split; simpl.
  - intros cs c. exists c. split; [set_solver|done].
  - intros cs c c' Hne. rewrite elem_of_app, list_elem_of_filter, list_elem_of_singleton. naive_solver.
  - intros fs f. apply bool_decide_eq_false. rewrite list_elem_of_filter. naive_solver.
  - intros owner m m' [= <-]. simpl. split_and!; [done..|]. apply bool_decide_eq_true. by left.
  - intros cs c. rewrite filter_app, filter_types, decide_True, filter_cons, decide_True by done. done.
  - intros cs c t Hne. rewrite filter_app, filter_types, filter_cons, !decide_False by done. by rewrite app_nil_r.
  - intros cs t. by rewrite filter_types, decide_True.
  - intros cs t t' Hne. by rewrite filter_types, decide_False.
Qed.

(** ** API errors *)

(** What a client call fails with, as the [apierrors.Is...] predicates tell
    them apart; [text] is the error's text. *)
Inductive ApiError : Set :=
| NotFound (text : string)
| AlreadyExists (text : string)
| Conflict (text : string)
| OtherError (text : string).
#[export] Instance ApiError_eq_dec : EqDecision ApiError.
Proof. solve_decision. Defined.

Definition api_text (e : ApiError) : string :=
  match e with NotFound t | AlreadyExists t | Conflict t | OtherError t => t end.
Definition IsNotFound (e : ApiError) : bool := match e with NotFound _ => true | _ => false end.
Definition IsAlreadyExists (e : ApiError) : bool :=
  match e with AlreadyExists _ => true | _ => false end.
Definition IsConflict (e : ApiError) : bool := match e with Conflict _ => true | _ => false end.

(** ** Pods *)
Inductive Quantity : Set :=
| MustParse (text : string)
| NewQuantity (value : Z).
#[export] Instance Quantity_eq_dec : EqDecision Quantity.
Proof. solve_decision. Defined.

Record ResourceRequirements : Set := {
  res_Requests : gmap string Quantity;
  res_Limits : gmap string Quantity;
}.
#[export] Instance ResourceRequirements_eq_dec : EqDecision ResourceRequirements.
Proof. solve_decision. Defined.

Definition ResourceCPU : string := "cpu".
Definition ResourceMemory : string := "memory".

Record SecretKeySelector : Set := { sel_Name : string; sel_Key : string }.
#[export] Instance SecretKeySelector_eq_dec : EqDecision SecretKeySelector.
Proof. solve_decision. Defined.

(** [corev1.EnvVar]; the only value source Orkano writes is a Secret key. *)
Record CoreEnvVar : Set := {
  cenv_Name : string;
  cenv_Value : string;
  cenv_ValueFrom : option SecretKeySelector;
}.
#[export] Instance CoreEnvVar_eq_dec : EqDecision CoreEnvVar.
Proof. solve_decision. Defined.

Record VolumeMount : Set := { vm_Name : string; vm_MountPath : string; vm_ReadOnly : bool }.
#[export] Instance VolumeMount_eq_dec : EqDecision VolumeMount.
Proof. solve_decision. Defined.

Inductive VolumeSource : Set :=
| EmptyDir (sizeLimit : option Quantity)
| ConfigMapVolume (name : string).
#[export] Instance VolumeSource_eq_dec : EqDecision VolumeSource.
Proof. solve_decision. Defined.

Record Volume : Set := { vol_Name : string; vol_Source : VolumeSource }.
#[export] Instance Volume_eq_dec : EqDecision Volume.
Proof. solve_decision. Defined.

Record SecurityContext : Set := {
  sc_RunAsUser : option Z;
  sc_RunAsGroup : option Z;
  sc_RunAsNonRoot : option bool;
  sc_AllowPrivilegeEscalation : option bool;
  sc_ReadOnlyRootFilesystem : option bool;
  sc_Privileged : option bool;
  sc_CapDrop : list string;
  sc_CapAdd : list string;
  sc_SeccompProfile : option string;
  sc_AppArmorProfile : option (string * string);
}.
#[export] Instance SecurityContext_eq_dec : EqDecision SecurityContext.
Proof. solve_decision. Defined.

Inductive IntOrString : Set :=
| FromInt32 (n : Z)
| FromString (s : string).
#[export] Instance IntOrString_eq_dec : EqDecision IntOrString.
Proof. solve_decision. Defined.

Record ContainerPort : Set := { cp_Name : string; cp_ContainerPort : Z; cp_Protocol : string }.
#[export] Instance ContainerPort_eq_dec : EqDecision ContainerPort.
Proof. solve_decision. Defined.

Inductive ProbeHandler : Set :=
| HTTPGet (path : string) (port : IntOrString) (scheme : string)
| TCPSocket (port : IntOrString)
| ExecAction (command : list string).
#[export] Instance ProbeHandler_eq_dec : EqDecision ProbeHandler.
Proof. solve_decision. Defined.

Record Probe : Set := {
  probe_Handler : ProbeHandler;
  probe_PeriodSeconds : Z;
  probe_TimeoutSeconds : Z;
  probe_SuccessThreshold : Z;
  probe_FailureThreshold : Z;
}.
#[export] Instance Probe_eq_dec : EqDecision Probe.
Proof. solve_decision. Defined.

(** [c_ImagePullPolicy] and [c_TerminationMessagePath] stand for the fields the
    API server defaults and Orkano never assigns. *)
Record Container : Set := {
  c_Name : string;
  c_Image : string;
  c_Command : list string;
  c_Args : list string;
  c_Env : list CoreEnvVar;
  c_Resources : ResourceRequirements;
  c_SecurityContext : option SecurityContext;
  c_VolumeMounts : list VolumeMount;
  c_Ports : list ContainerPort;
  c_ReadinessProbe : option Probe;
  c_LivenessProbe : option Probe;
  c_StartupProbe : option Probe;
  c_ImagePullPolicy : string;
  c_TerminationMessagePath : string;
}.
#[export] Instance Container_eq_dec : EqDecision Container.
Proof. solve_decision. Defined.

Definition no_resources : ResourceRequirements := {| res_Requests := ∅; res_Limits := ∅ |}.

(** [corev1.Container{Name: ..., Image: ..., ...}] of a build Job: no ports, no
    probes, nothing the API server defaults. *)
Definition job_container (name image : string) (command args : list string)
    (env : list CoreEnvVar) (res : ResourceRequirements) (sc : SecurityContext)
    (mounts : list VolumeMount) : Container :=
  {| c_Name := name; c_Image := image; c_Command := command; c_Args := args; c_Env := env;
     c_Resources := res; c_SecurityContext := Some sc; c_VolumeMounts := mounts;
     c_Ports := []; c_ReadinessProbe := None; c_LivenessProbe := None; c_StartupProbe := None;
     c_ImagePullPolicy := ""; c_TerminationMessagePath := "" |}.

Record PodSecurityContext : Set := {
  psc_RunAsNonRoot : option bool;
  psc_RunAsUser : option Z;
  psc_RunAsGroup : option Z;
  psc_FSGroup : option Z;
  psc_SeccompProfile : option string;
}.
#[export] Instance PodSecurityContext_eq_dec : EqDecision PodSecurityContext.
Proof. solve_decision. Defined.

Record PodSpec : Set := {
  pod_RestartPolicy : string;
  pod_ServiceAccountName : string;
  pod_AutomountServiceAccountToken : option bool;
  pod_InitContainers : list Container;
  pod_Containers : list Container;
  pod_Volumes : list Volume;
  pod_HostNetwork : bool;
  pod_SecurityContext : option PodSecurityContext;
}.
#[export] Instance PodSpec_eq_dec : EqDecision PodSpec.
Proof. solve_decision. Defined.

(** ** Jobs and the pods they leave behind *)
Definition JobFailed : string := "Failed".
Definition JobComplete : string := "Complete".
Definition JobReasonDeadlineExceeded : string := "DeadlineExceeded".

Record JobCondition : Set := {
  jc_Type : string;
  jc_Status : string;
  jc_Reason : string;
  jc_Message : string;
  jc_LastTransitionTime : Time;
}.

Record JobStatus : Set := {
  js_StartTime : option Time;
  js_CompletionTime : option Time;
  js_Active : Z;
  js_Conditions : list JobCondition;
}.

Record Job : Set := {
  job_Meta : ObjectMeta;
  job_BackoffLimit : option Z;
  job_ActiveDeadlineSeconds : option Z;
  job_TemplateLabels : gmap string string;
  job_Pod : PodSpec;
  job_Status : JobStatus;
}.

Definition no_job_status : JobStatus :=
  {| js_StartTime := None; js_CompletionTime := None; js_Active := 0; js_Conditions := [] |}.

(** [corev1.ContainerStateTerminated] *)
Record Terminated : Set := { term_Reason : string; term_ExitCode : Z }.

Record ContainerStatus : Set := {
  cs_Terminated : option Terminated;
  cs_LastTerminated : option Terminated;
}.

Record Pod : Set := {
  pod_InitContainerStatuses : list ContainerStatus;
  pod_ContainerStatuses : list ContainerStatus;
}.

(** ** Deployments and Services *)
Record Deployment : Set := {
  dep_Meta : ObjectMeta;
  dep_Replicas : option Z;
  dep_Selector : gmap string string;
  dep_TemplateLabels : gmap string string;
  dep_TemplateAnnotations : gmap string string;
  dep_Pod : PodSpec;
  dep_AvailableReplicas : Z;
}.

Record ServicePort : Set := {
  sp_Name : string;
  sp_Port : Z;
  sp_TargetPort : IntOrString;
  sp_Protocol : string;
}.

Record Service : Set := {
  svc_Meta : ObjectMeta;
  svc_Type : string;
  svc_Selector : gmap string string;
  svc_Ports : list ServicePort;
  svc_ClusterIP : string;
}.

(** ** Stateful workloads *)
Definition ClusterIPNone : string := "None".
Definition SecretTypeOpaque : string := "Opaque".
Definition ResourceStorage : string := "storage".

(** [corev1.Secret]; a value is its bytes. *)
Record Secret : Set := {
  sec_Meta : ObjectMeta;
  sec_Type : string;
  sec_Data : gmap string string;
}.
#[export] Instance Secret_eq_dec : EqDecision Secret.
Proof. solve_decision. Defined.

(** A volume claim template: its name, access modes and requested resources. *)
Record VolumeClaim : Set := {
  claim_Name : string;
  claim_AccessModes : list string;
  claim_Requests : gmap string Quantity;
}.

Record PersistentVolumeClaim : Set := {
  pvc_Meta : ObjectMeta;
  pvc_Requests : gmap string Quantity;
}.

(** [appsv1.StatefulSet]; the retention policy is (when deleted, when scaled). *)
Record StatefulSet : Set := {
  sts_Meta : ObjectMeta;
  sts_Selector : gmap string string;
  sts_ServiceName : string;
  sts_VolumeClaimTemplates : list VolumeClaim;
  sts_Replicas : option Z;
  sts_RetentionPolicy : option (string * string);
  sts_TemplateLabels : gmap string string;
  sts_Pod : PodSpec;
  sts_ReadyReplicas : Z;
}.

(** [networkingv1.NetworkPolicy]: a peer selects pods by their labels in the
    namespaces with the given labels, or in the policy's own namespace. *)
Record NetworkPolicyPeer : Set := {
  peer_NamespaceSelector : option (gmap string string);
  peer_PodSelector : option (gmap string string);
}.
Record NetworkPolicyPort : Set := { npp_Protocol : string; npp_Port : Z }.
Record NetworkPolicyRule : Set := {
  npr_Peers : list NetworkPolicyPeer;
  npr_Ports : list NetworkPolicyPort;
}.
Record NetworkPolicy : Set := {
  np_Meta : ObjectMeta;
  np_PodSelector : gmap string string;
  np_PolicyTypes : list string;
  np_Ingress : list NetworkPolicyRule;
  np_Egress : list NetworkPolicyRule;
}.

(** ** Unstructured objects *)
(** A value of an unstructured object. *)
#[local] Unset Elimination Schemes.
Inductive Any : Set :=
| AnyString (s : string)
| AnyMap (m : list (string * Any))
| AnySlice (l : list Any)
| AnyOther.
#[local] Set Elimination Schemes.

(** [cond[key]] of a map, [nil] when missing *)
Fixpoint any_field (m : list (string * Any)) (key : string) : option Any :=
  match m with
  | [] => None
  | (k, v) :: m => if decide (k = key) then Some v else any_field m key
  end.
(** [s, _ := v.(string)] *)
Definition any_string (v : option Any) : string := match v with Some (AnyString s) => s | _ => "" end.

(** The accessors of [unstructured]; a missing field is [None]. *)
Class UnstructuredLib : Type := {
  NestedSlice : Any → list string → result string (list Any);
  NestedInt64 : Any → list string → result string (option Z);
  GetName : Any → string;
}.
