(* ===== verification/Api.v ===== *)
(** * The Orkano API types

    Models [api/v1alpha1/shared_types.go], [app_types.go] and [build_types.go]:
    the App and Build custom resources as records, and the validation their
    [+kubebuilder:validation] markers put into the CRD schema, as boolean
    functions of the decoded object.  The API server runs that validation
    before an object is stored; a marker on an optional string applies only
    when the field is present, and an absent field decodes to the empty string. *)
From S2P Require Import Prelude Regex GoStrings Kube.
From Stdlib Require Import Ascii.

(** ** Data *)
Record GitHubSource : Set := { github_Repo : string; github_Ref : string }.
#[export] Instance GitHubSource_eq_dec : EqDecision GitHubSource.
Proof. solve_decision. Defined.

Record GitSource : Set := { git_URL : string; git_Ref : string }.
#[export] Instance GitSource_eq_dec : EqDecision GitSource.
Proof. solve_decision. Defined.

Record UploadSource : Set := { upload_Digest : string; upload_FileName : string }.
#[export] Instance UploadSource_eq_dec : EqDecision UploadSource.
Proof. solve_decision. Defined.

Record Source : Set := {
  source_GitHub : option GitHubSource;
  source_Git : option GitSource;
  source_Upload : option UploadSource;
  source_SubPath : string;
}.
#[export] Instance Source_eq_dec : EqDecision Source.
Proof. solve_decision. Defined.

Definition StrategyDockerfile : string := "Dockerfile".
Definition StrategyStatic : string := "Static".
Definition StrategyNixpacks : string := "Nixpacks".

Record DockerfileBuild : Set := { dockerfile_Path : string }.
#[export] Instance DockerfileBuild_eq_dec : EqDecision DockerfileBuild.
Proof. solve_decision. Defined.

Record StaticBuild : Set := { static_Dir : string }.
#[export] Instance StaticBuild_eq_dec : EqDecision StaticBuild.
Proof. solve_decision. Defined.

Record NixpacksBuild : Set := { nixpacks_ConfigPath : string }.
#[export] Instance NixpacksBuild_eq_dec : EqDecision NixpacksBuild.
Proof. solve_decision. Defined.

Record BuildStrategy : Set := {
  strategy_Strategy : string;
  strategy_Dockerfile : option DockerfileBuild;
  strategy_Static : option StaticBuild;
  strategy_Nixpacks : option NixpacksBuild;
}.
#[export] Instance BuildStrategy_eq_dec : EqDecision BuildStrategy.
Proof. solve_decision. Defined.

Record SecretKeyRef : Set := { secretref_Name : string; secretref_Key : string }.
#[export] Instance SecretKeyRef_eq_dec : EqDecision SecretKeyRef.
Proof. solve_decision. Defined.

Record EnvVar : Set := {
  env_Name : string;
  env_Value : string;
  env_SecretRef : option SecretKeyRef;
}.
#[export] Instance EnvVar_eq_dec : EqDecision EnvVar.
Proof. solve_decision. Defined.

Record Resources : Set := { resources_CPU : option Quantity; resources_Memory : option Quantity }.
#[export] Instance Resources_eq_dec : EqDecision Resources.
Proof. solve_decision. Defined.

Record HealthCheck : Set := { health_Path : string }.
#[export] Instance HealthCheck_eq_dec : EqDecision HealthCheck.
Proof. solve_decision. Defined.

Definition WorkloadWeb : string := "Web".
Definition WorkloadWorker : string := "Worker".
Definition ConditionReady : string := "Ready".

Record AppSpec : Set := {
  app_Source : Source;
  app_Build : BuildStrategy;
  app_Type : string;
  app_Command : list string;
  app_Port : option Z;
  app_Replicas : option Z;
  app_Env : list EnvVar;
  app_Resources : option Resources;
  app_HealthCheck : option HealthCheck;
}.
#[export] Instance AppSpec_eq_dec : EqDecision AppSpec.
Proof. solve_decision. Defined.

Record AppStatus : Set := {
  app_ObservedGeneration : Z;
  app_Conditions : list Condition;
  app_Image : string;
  app_URL : string;
  app_AvailableReplicas : Z;
  app_LatestBuild : string;
}.
#[export] Instance AppStatus_eq_dec : EqDecision AppStatus.
Proof. solve_decision. Defined.

Record App : Set := { app_Meta : ObjectMeta; app_Spec : AppSpec; app_Status : AppStatus }.
#[export] Instance App_eq_dec : EqDecision App.
Proof. solve_decision. Defined.

Definition ConditionCompleted : string := "Completed".
Definition BuildPending : string := "Pending".
Definition BuildRunning : string := "Running".
Definition BuildSucceeded : string := "Succeeded".
Definition BuildFailed : string := "Failed".

Record BuildSpec : Set := {
  build_AppName : string;
  build_Commit : string;
  build_Source : Source;
  build_Strategy : BuildStrategy;
  build_TimeoutSeconds : Z;
}.
#[export] Instance BuildSpec_eq_dec : EqDecision BuildSpec.
Proof. solve_decision. Defined.

Record JobReference : Set := { jobref_Namespace : string; jobref_Name : string }.
#[export] Instance JobReference_eq_dec : EqDecision JobReference.
Proof. solve_decision. Defined.

Record BuildStatus : Set := {
  build_ObservedGeneration : Z;
  build_Phase : string;
  build_Image : string;
  build_JobRef : option JobReference;
  build_StartedAt : option Time;
  build_CompletedAt : option Time;
  build_Conditions : list Condition;
}.
#[export] Instance BuildStatus_eq_dec : EqDecision BuildStatus.
Proof. solve_decision. Defined.

Record Build : Set := { build_Meta : ObjectMeta; build_Spec : BuildSpec; build_Status : BuildStatus }.
#[export] Instance Build_eq_dec : EqDecision Build.
Proof. solve_decision. Defined.

(** [orkanov1alpha1.BuildStatus{}] *)
Definition no_build_status : BuildStatus :=
  {| build_ObservedGeneration := 0; build_Phase := ""; build_Image := ""; build_JobRef := None;
     build_StartedAt := None; build_CompletedAt := None; build_Conditions := [] |}.

(** ** Schema validation *)

(** [^[A-Za-z0-9_./-]+$], the paths and Git refs *)
Definition path_char (c : ascii) : bool := is_alnum c || one_of "_./-" c.
Definition pathPattern : re := Plus (Cls path_char).

(** [^[a-z0-9]([-a-z0-9]*[a-z0-9])?(\.[a-z0-9]([-a-z0-9]*[a-z0-9])?)*$] *)
Definition dns_char (c : ascii) : bool := is_lower c || is_digit c.
Definition dnsLabel : re :=
  Cat (Cls dns_char) (Opt (Cat (Star (Cls (λ c, dns_char c || one_of "-" c))) (Cls dns_char))).
Definition dnsSubdomainPattern : re := Cat dnsLabel (Star (Cat (Lit "."%char) dnsLabel)).

(** [^([0-9a-f]{40}|[0-9a-f]{64})$] *)
Definition commitPattern : re := Alt (Rep 40 (Cls is_hex)) (Rep 64 (Cls is_hex)).

(** [^[A-Za-z0-9_.-]+/[A-Za-z0-9_.-]+$] *)
Definition githubRepoPattern : re :=
  Cat (Plus (Cls (λ c, is_alnum c || one_of "_.-" c)))
    (Cat (Lit "/"%char) (Plus (Cls (λ c, is_alnum c || one_of "_.-" c)))).

(** [^https://[A-Za-z0-9.-]+(:443)?/[A-Za-z0-9._~!$&'()*+,;=:%/-]+$] *)
Definition gitURLPattern : re :=
  Cat (Word "https://") (Cat (Plus (Cls (λ c, is_alnum c || one_of ".-" c)))
    (Cat (Opt (Word ":443")) (Cat (Lit "/"%char)
      (Plus (Cls (λ c, is_alnum c || one_of "._~!$&'()*+,;=:%/-" c)))))).

(** [^sha256:[0-9a-f]{64}$] *)
Definition digestPattern : re := Cat (Word "sha256:") (Rep 64 (Cls is_hex)).

(** [r{0,n}], and [^[A-Za-z0-9][A-Za-z0-9._-]{0,250}[.]zip$] *)
Fixpoint UpTo (n : nat) (r : re) : re :=
  match n with 0 => Eps | S n => Opt (Cat r (UpTo n r)) end.
Definition zipNamePattern : re :=
  Cat (Cls is_alnum) (Cat (UpTo 250 (Cls (λ c, is_alnum c || one_of "._-" c))) (Word ".zip")).

(** Unicode characters of a string: the bytes that do not continue one. *)
Definition RuneCount (s : string) : nat :=
  length (filter (λ c, nat_of_ascii c < 128 ∨ 192 ≤ nat_of_ascii c) (bytes s)).

(** An optional string that is absent or passes [p]. *)
Definition optional (p : string → bool) (s : string) : bool := bool_decide (s = "") || p s.

Definition valid_path (s : string) : bool :=
  (len s <=? 512) && MatchString pathPattern s && negb (Contains s "..").

Definition valid_GitHubSource (g : GitHubSource) : bool :=
  MatchString githubRepoPattern (github_Repo g) && (len (github_Repo g) <=? 140) &&
  (RuneCount (github_Ref g) <=? 250).

Definition valid_GitSource (g : GitSource) : bool :=
  (9 <=? len (git_URL g)) && (len (git_URL g) <=? 2048) && MatchString gitURLPattern (git_URL g) &&
  optional (λ s, (len s <=? 250) && MatchString pathPattern s && negb (Contains s "..")) (git_Ref g).

Definition valid_UploadSource (u : UploadSource) : bool :=
  MatchString digestPattern (upload_Digest u) &&
  optional (λ s, (len s <=? 255) && MatchString zipNamePattern s) (upload_FileName u).

Definition all {A} (p : A → bool) (o : option A) : bool :=
  match o with Some a => p a | None => true end.

Definition valid_Source (s : Source) : bool :=
  (if has (source_GitHub s) then negb (has (source_Git s)) && negb (has (source_Upload s))
   else negb (Bool.eqb (has (source_Git s)) (has (source_Upload s)))) &&
  all valid_GitHubSource (source_GitHub s) && all valid_GitSource (source_Git s) &&
  all valid_UploadSource (source_Upload s) && optional valid_path (source_SubPath s).

Definition valid_BuildStrategy (b : BuildStrategy) : bool :=
  bool_decide (strategy_Strategy b ∈ [StrategyDockerfile; StrategyStatic; StrategyNixpacks]) &&
  (if decide (strategy_Strategy b = StrategyDockerfile) then
     negb (has (strategy_Static b)) && negb (has (strategy_Nixpacks b))
   else if decide (strategy_Strategy b = StrategyStatic) then
     has (strategy_Static b) && negb (has (strategy_Dockerfile b)) && negb (has (strategy_Nixpacks b))
   else
     has (strategy_Nixpacks b) && negb (has (strategy_Dockerfile b)) && negb (has (strategy_Static b))) &&
  all (λ d, optional valid_path (dockerfile_Path d)) (strategy_Dockerfile b) &&
  all (λ s, valid_path (static_Dir s)) (strategy_Static b) &&
  all (λ n, optional valid_path (nixpacks_ConfigPath n)) (strategy_Nixpacks b).

Definition valid_BuildSpec (b : BuildSpec) : bool :=
  (1 <=? len (build_AppName b)) && (len (build_AppName b) <=? 253) &&
  MatchString dnsSubdomainPattern (build_AppName b) &&
  MatchString commitPattern (build_Commit b) &&
  valid_Source (build_Source b) && valid_BuildStrategy (build_Strategy b) &&
  ((build_TimeoutSeconds b =? 0)%Z ||
   (60 <=? build_TimeoutSeconds b)%Z && (build_TimeoutSeconds b <=? 3600)%Z).

(** ** What validation guarantees *)
Lemma valid_path_inv s :
  valid_path s = true → MatchString pathPattern s = true ∧ len s ≤ 512 ∧ Contains s ".." = false.
Proof.
  unfold valid_path. rewrite !andb_true_iff, negb_true_iff, Nat.leb_le. tauto.
Qed.

Lemma optional_inv p s : optional p s = true → s = "" ∨ p s = true.
Proof. unfold optional. rewrite orb_true_iff, bool_decide_eq_true. done. Qed.

(** An admitted source names exactly one of GitHub, Git and upload. *)
Lemma valid_Source_one s :
  valid_Source s = true →
  (∃ g, source_GitHub s = Some g ∧ source_Git s = None ∧ source_Upload s = None ∧
        valid_GitHubSource g = true) ∨
  (∃ g, source_GitHub s = None ∧ source_Git s = Some g ∧ source_Upload s = None ∧
        valid_GitSource g = true) ∨
  (∃ u, source_GitHub s = None ∧ source_Git s = None ∧ source_Upload s = Some u ∧
        valid_UploadSource u = true).
Proof.
  unfold valid_Source. rewrite !andb_true_iff.
  destruct (source_GitHub s), (source_Git s), (source_Upload s); simpl; naive_solver.
Qed.

Lemma valid_Source_SubPath s :
  valid_Source s = true → source_SubPath s = "" ∨ valid_path (source_SubPath s) = true.
Proof. unfold valid_Source. rewrite !andb_true_iff. intros [_ H]. by apply optional_inv. Qed.

(** An admitted strategy is one of the three, with the members it needs. *)
Lemma valid_BuildStrategy_cases b :
  valid_BuildStrategy b = true →
  (strategy_Strategy b = StrategyDockerfile ∧ strategy_Static b = None ∧ strategy_Nixpacks b = None ∧
    (∀ d, strategy_Dockerfile b = Some d → dockerfile_Path d = "" ∨ valid_path (dockerfile_Path d) = true)) ∨
  (strategy_Strategy b = StrategyStatic ∧ strategy_Dockerfile b = None ∧ strategy_Nixpacks b = None ∧
    ∃ s, strategy_Static b = Some s ∧ valid_path (static_Dir s) = true) ∨
  (strategy_Strategy b = StrategyNixpacks ∧ strategy_Dockerfile b = None ∧ strategy_Static b = None ∧
    ∃ n, strategy_Nixpacks b = Some n ∧
      (nixpacks_ConfigPath n = "" ∨ valid_path (nixpacks_ConfigPath n) = true)).
Proof.
  destruct b as [st df sb nb]. unfold valid_BuildStrategy. simpl.
  rewrite !andb_true_iff, bool_decide_eq_true, !elem_of_cons, elem_of_nil.
  intros ((((Hs & Hm) & Hd) & Hst) & Hn).
  destruct Hs as [->|[->|[->|[]]]]; simpl in Hm; [left|right; left|right; right];
    destruct df, sb, nb; simpl in *; try done; split_and!; try done.
  - intros d0 [= <-]. by apply optional_inv.
  - eexists. done.
  - eexists. split; [done|]. by apply optional_inv.
Qed.

Lemma valid_BuildSpec_inv b :
  valid_BuildSpec b = true →
  MatchString dnsSubdomainPattern (build_AppName b) = true ∧ len (build_AppName b) ≤ 253 ∧
  MatchString commitPattern (build_Commit b) = true ∧
  valid_Source (build_Source b) = true ∧ valid_BuildStrategy (build_Strategy b) = true ∧
  (build_TimeoutSeconds b = 0 ∨ 60 ≤ build_TimeoutSeconds b ≤ 3600)%Z.
Proof.
  unfold valid_BuildSpec.
  rewrite !andb_true_iff, orb_true_iff, andb_true_iff, Z.eqb_eq, !Z.leb_le, !Nat.leb_le. tauto.
Qed.
