(* ===== verification/Features.v ===== *)
(** * Feature gates

    Models [internal/features/features.go]: the default-off unsafe features,
    their textual configuration, and the gate every component puts in front of
    an App specification.  A [Set] is the set of enabled IDs; its zero value
    (a nil map) is the empty set. *)
From S2P Require Import Prelude Regex GoStrings Kube Api.
From Stdlib Require Import Ascii.

(** ** Data *)
Definition ID : Set := string.
Definition SourceGit : ID := "source.git".
Definition SourceZip : ID := "source.zip".
Definition BuildNixpacks : ID := "build.nixpacks".

Record FeatureDefinition : Type := {
  feature_ID : ID;
  feature_Name : string;
  feature_Description : string;
  feature_Unsafe : bool;
}.

Definition definitions : list FeatureDefinition := [
  {| feature_ID := SourceGit;
     feature_Name := "Generic Git";
     feature_Description := "Build from an unauthenticated public HTTPS Git repository without GitHub App provenance or automatic webhooks.";
     feature_Unsafe := true |};
  {| feature_ID := SourceZip;
     feature_Name := "ZIP upload";
     feature_Description := "Build an uploaded archive with no Git commit provenance. In v1, any build job can read uploaded source archives from the shared registry.";
     feature_Unsafe := true |};
  {| feature_ID := BuildNixpacks;
     feature_Name := "Nixpacks";
     feature_Description := "Generate a Dockerfile with the maintenance-mode Nixpacks tool before the isolated BuildKit build.";
     feature_Unsafe := true |}].

Definition known : gset ID :=
  foldl (λ values d, {[feature_ID d]} ∪ values) ∅ definitions.

Record FeatureSet : Type := { enabled : gset ID }.
Definition no_features : FeatureSet := {| enabled := ∅ |}.

Inductive FeatureError : Type :=
| EmptyFeature
| UnknownFeature (id : ID) (allowed : string).

(** ** Configuration *)
Definition allowedCSV : string :=
  Join (merge_sort String.le (feature_ID <$> definitions)) ",".

Fixpoint parse_loop (values : list string) (set : gset ID) : result FeatureError FeatureSet :=
  match values with
  | [] => Ok {| enabled := set |}
  | raw :: values =>
      let id := TrimSpace raw in
      if decide (id = "") then Err EmptyFeature
      else if decide (id ∉ known) then Err (UnknownFeature id allowedCSV)
      else parse_loop values ({[id]} ∪ set)
  end.

(** [Parse] of the package; the allowlist has one of its own. *)
Definition ParseFeatures (values : list string) : result FeatureError FeatureSet :=
  parse_loop values ∅.

Definition ParseCSV (value : string) : result FeatureError FeatureSet :=
  if decide (TrimSpace value = "") then ParseFeatures []
  else ParseFeatures (Split value ","%char).

Definition Enabled (s : FeatureSet) (id : ID) : bool := bool_decide (id ∈ enabled s).

Definition IDs (s : FeatureSet) : list ID := merge_sort String.le (elements (enabled s)).

Definition CSV (s : FeatureSet) : string := Join (IDs s) ",".

(** ** The gate *)
Definition RequiredForApp (spec : AppSpec) : list ID :=
  (if has (source_Git (app_Source spec)) then [SourceGit] else []) ++
  (if has (source_Upload (app_Source spec)) then [SourceZip] else []) ++
  (if decide (strategy_Strategy (app_Build spec) = StrategyNixpacks) then [BuildNixpacks] else []).

Definition MissingForApp (s : FeatureSet) (spec : AppSpec) : list ID :=
  filter (λ id, Enabled s id = false) (RequiredForApp spec).

Record DisabledError : Type := { disabled_IDs : list ID }.

Definition ErrDisabled : string := "required unsafe feature is disabled".

Definition DisabledError_Error (e : DisabledError) : string :=
  "features: " +:+ ErrDisabled +:+ ": " +:+ Join (disabled_IDs e) ",".

(** [nil] is [None]. *)
Definition ValidateApp (s : FeatureSet) (spec : AppSpec) : option DisabledError :=
  let missing := MissingForApp s spec in
  if decide (length missing = 0) then None else Some {| disabled_IDs := missing |}.

(** ** Lemmas *)
Definition feature_words : list string := [SourceGit; SourceZip; BuildNixpacks].

Lemma elem_of_known id : id ∈ known ↔ id ∈ feature_words.
Proof. unfold known. simpl. set_solver. Qed.

Lemma known_solid id : id ∈ feature_words →
  Forall (λ c, solid c = true) (bytes id) ∧ (","%char ∉ bytes id) ∧ id ≠ "".
Proof.
  assert (Hb : forallb (λ w, forallb solid (bytes w) &&
    negb (bool_decide (","%char ∈ bytes w)) && negb (bool_decide (w = ""))) feature_words = true)
    by (vm_compute; reflexivity).
  rewrite forallb_forall in Hb. intros Hid%list_elem_of_In. specialize (Hb _ Hid).
  rewrite !andb_true_iff, !negb_true_iff, !bool_decide_eq_false in Hb.
  destruct Hb as [[Hs Hc] He]. split_and!; [|done..].
  apply Forall_forall. intros c Hc'%list_elem_of_In. by apply (proj1 (forallb_forall _ _) Hs).
Qed.

Lemma parse_loop_spec values set s :
  parse_loop values set = Ok s ↔
  Forall (λ raw, TrimSpace raw ∈ known) values ∧
  enabled s = (list_to_set (TrimSpace <$> values)) ∪ set.
Proof.
  revert set. induction values as [|raw values IH]; intros set; cbn [parse_loop].
  { destruct s as [e]. simpl. split; [intros [= <-]|intros [_ ->]].
    - split; [constructor|]. simpl. set_solver.
    - do 2 f_equal. set_solver. }
  assert (Hne : TrimSpace raw ∈ known → TrimSpace raw ≠ "").
  { intros Hk%elem_of_known. by apply known_solid. }
  case_decide; [split; [done|]; intros [HF _]; apply Forall_cons in HF as [HF _]; by destruct (Hne HF)|].
  case_decide; [split; [done|]; intros [HF _]; by apply Forall_cons in HF as [HF _]|].
  rewrite IH, Forall_cons, fmap_cons, list_to_set_cons, (assoc_L (∪)),
    (comm_L (∪) _ {[TrimSpace raw]}).
  tauto.
Qed.

Lemma elem_of_IDs s id : id ∈ IDs s ↔ id ∈ enabled s.
Proof. unfold IDs. by rewrite merge_sort_Permutation, elem_of_elements. Qed.


Lemma IDs_nil s : IDs s = [] → enabled s = ∅.
Proof.
  intros HI. apply elem_of_equiv_empty_L. intros id Hid%elem_of_IDs. rewrite HI in Hid.
  by apply not_elem_of_nil in Hid.
Qed.

Lemma CSV_not_blank s : enabled s ⊆ known → IDs s ≠ [] → TrimSpace (CSV s) ≠ "".
Proof.
  intros Hk Hne. unfold CSV.
  assert (HF : Forall (λ w, w ∈ feature_words) (IDs s)).
  { apply Forall_forall. intros w Hw%elem_of_IDs. apply elem_of_known. set_solver. }
  rewrite TrimSpace_solid.
  - destruct (IDs s) as [|w [|w' l]]; [done|..]; apply Forall_cons in HF as [Hw _];
      destruct (known_solid _ Hw) as (_ & _ & ?); destruct w; done.
  - clear Hne. induction HF as [|w l Hw HF IH]; [constructor|].
    destruct (known_solid _ Hw) as (Hs & _ & _). destruct l as [|w' l]; [done|].
    change (Join (w :: w' :: l) ",") with (w +:+ "," +:+ Join (w' :: l) ",").
    rewrite !bytes_app. apply Forall_app. split; [done|]. apply Forall_app. split; [|done].
    constructor; [vm_compute; reflexivity|constructor].
Qed.

(** ** Properties *)

(** A list of feature IDs is accepted exactly when every entry, trimmed, is
    one of the three known features, and then enables exactly those; an empty
    or unknown entry is an error, and the empty configuration enables nothing. *)
Theorem ParseFeatures_spec values s :
  (ParseFeatures values = Ok s ↔
    Forall (λ raw, TrimSpace raw ∈ [SourceGit; SourceZip; BuildNixpacks]) values ∧
    ∀ id, Enabled s id = true ↔ id ∈ TrimSpace <$> values) ∧
  ParseCSV "" = Ok no_features.
Proof.
  split; [|reflexivity]. unfold ParseFeatures. rewrite parse_loop_spec.
  assert (HF : Forall (λ raw, TrimSpace raw ∈ known) values ↔
    Forall (λ raw, TrimSpace raw ∈ feature_words) values).
  { rewrite !Forall_forall. by setoid_rewrite elem_of_known. }
  rewrite HF. apply and_iff_compat_l. unfold Enabled. setoid_rewrite bool_decide_eq_true.
  rewrite union_empty_r_L, set_eq. by setoid_rewrite elem_of_list_to_set.
Qed.

(** The environment form round-trips: parsing what [CSV] prints gives back
    the same set of features. *)
Theorem ParseCSV_CSV s : enabled s ⊆ known → ParseCSV (CSV s) = Ok s.
Proof.
  intros Hk. unfold ParseCSV. destruct (decide (IDs s = [])) as [Hn|Hne].
  { unfold CSV. rewrite Hn. apply IDs_nil in Hn. destruct s as [e]. simpl in Hn. by rewrite Hn. }
  assert (HF : Forall (λ w, w ∈ feature_words) (IDs s)).
  { apply Forall_forall. intros w Hw%elem_of_IDs. apply elem_of_known. set_solver. }
  assert (Ht : TrimSpace <$> IDs s = IDs s).
  { rewrite <- (list_fmap_id (IDs s)) at 2. apply list_fmap_ext. intros i w Hw.
    apply TrimSpace_solid, known_solid. exact (Forall_lookup_1 _ _ _ _ HF Hw). }
  rewrite decide_False by (by apply CSV_not_blank). unfold CSV. rewrite Split_Join; [|done|].
  2:{ eapply Forall_impl; [exact HF|]. intros w Hw. by apply known_solid. }
  apply parse_loop_spec. rewrite Ht. split.
  - apply Forall_forall. intros w Hw. rewrite elem_of_known.
    rewrite Forall_forall in HF. specialize (HF w Hw).
    by rewrite TrimSpace_solid by (by apply known_solid).
  - rewrite union_empty_r_L. apply set_eq. intros id. by rewrite elem_of_list_to_set, elem_of_IDs.
Qed.

Lemma ParseCSV_CSV_witness : ParseCSV "build.nixpacks,source.git" =
  Ok {| enabled := {[SourceGit; BuildNixpacks]} |}.
Proof.
  change "build.nixpacks,source.git" with
    (CSV {| enabled := {[SourceGit; BuildNixpacks]} |}).
  apply ParseCSV_CSV. simpl. intros id. rewrite elem_of_known. set_solver.
Defined.

(** The gate lets an App through exactly when every unsafe feature it uses
    is enabled: generic Git, ZIP upload and Nixpacks each need their own gate,
    anything else needs none; a refusal lists exactly the disabled gates. *)
Theorem ValidateApp_spec s spec :
  let git := has (source_Git (app_Source spec)) in
  let zip := has (source_Upload (app_Source spec)) in
  let nix := bool_decide (strategy_Strategy (app_Build spec) = StrategyNixpacks) in
  (ValidateApp s spec = None ↔
     implb git (Enabled s SourceGit) && implb zip (Enabled s SourceZip) &&
     implb nix (Enabled s BuildNixpacks) = true) ∧
  (∀ e, ValidateApp s spec = Some e → disabled_IDs e ≠ [] ∧ ∀ id, id ∈ disabled_IDs e ↔
     Enabled s id = false ∧
     (id = SourceGit ∧ git = true ∨ id = SourceZip ∧ zip = true ∨ id = BuildNixpacks ∧ nix = true)).
Proof.
  intros git zip nix.
  assert (Hr : ∀ id, id ∈ RequiredForApp spec ↔
    id = SourceGit ∧ git = true ∨ id = SourceZip ∧ zip = true ∨ id = BuildNixpacks ∧ nix = true).
  { intros id. unfold RequiredForApp, git, zip, nix. rewrite !elem_of_app.
    destruct (has (source_Git _)), (has (source_Upload _)); case_decide;
      [rewrite bool_decide_true by done|rewrite bool_decide_false by done|
       rewrite bool_decide_true by done|rewrite bool_decide_false by done|
       rewrite bool_decide_true by done|rewrite bool_decide_false by done|
       rewrite bool_decide_true by done|rewrite bool_decide_false by done];
      rewrite ?elem_of_cons, ?elem_of_nil; intuition congruence. }
  unfold ValidateApp, MissingForApp. split.
  - case_decide as Hl.
    + split; [|done]. intros _. rewrite filter_length_0 in Hl.
      assert (Hg : ∀ id, id ∈ RequiredForApp spec → Enabled s id = true).
      { intros id Hid%Hl. by apply not_false_iff_true. }
      destruct git, zip, nix; simpl; rewrite ?Hg; try done; apply Hr; tauto.
    + split; [done|]. rewrite !andb_true_iff, !implb_true_iff. intros [[Hg Hz] Hn].
      destruct Hl. apply filter_length_0. intros id Hid%Hr. apply not_false_iff_true.
      destruct Hid as [[-> ?]|[[-> ?]|[-> ?]]]; auto.
  - intros e. case_decide as Hl; [done|]. intros [= <-]. simpl. split.
    { intros Hn. by rewrite Hn in Hl. }
    intros id. by rewrite list_elem_of_filter, Hr.
Qed.
