(* ===== verification/Effects.v ===== *)
(** * Effects

    Code that talks to the API server, the database, Git or the registry is
    modelled as a finite tree of calls: [Ret a] returns, [Vis e k] makes the call
    [e] and goes on with its reply.  Nothing is assumed about replies, so a theorem
    over all executions holds for stale caches, lost writes and every error.

    [exec p tr a] says that [p] can return [a] after making the calls [tr], each
    with its reply.  [run] drives a program with a concrete environment, for
    examples; what it does is an execution ([run_exec]), so every program ends
    whatever the environment answers. *)
From S2P Require Import Prelude.

Inductive prog (E : Set → Type) (A : Type) : Type :=
| Ret (a : A)
| Vis {X : Set} (e : E X) (k : X → prog E A).
Arguments Ret {_ _} _.
Arguments Vis {_ _ _} _ _.

Fixpoint prog_bind {E A B} (p : prog E A) (f : A → prog E B) : prog E B :=
  match p with
  | Ret a => f a
  | Vis e k => Vis e (λ x, prog_bind (k x) f)
  end.

Declare Scope prog_scope.
Delimit Scope prog_scope with prog.
Notation "'let!' x := p 'in' k" := (prog_bind p (λ x, k))
  (at level 10, x binder, p at level 200, k at level 200) : prog_scope.
Open Scope prog_scope.

Definition trigger {E X} (e : E X) : prog E X := Vis e Ret.

(** Apply a function to the value of a reply, if there is one. *)
Definition map_ok {E A B} (f : A → B) (r : result E A) : result E B :=
  match r with Ok a => Ok (f a) | Err e => Err e end.

(** A call with the reply it got. *)
Inductive call (E : Set → Type) : Type :=
| Call {X : Set} (e : E X) (x : X).
Arguments Call {_ _} _ _.

Fixpoint exec {E A} (p : prog E A) (tr : list (call E)) (a : A) : Prop :=
  match p with
  | Ret b => tr = [] ∧ a = b
  | Vis e k => ∃ x tr', tr = Call e x :: tr' ∧ exec (k x) tr' a
  end.

(** ** Composition *)
Section exec.
Context {E : Set → Type}.

Lemma exec_ret {A} (a b : A) (tr : list (call E)) : exec (Ret a) tr b ↔ tr = [] ∧ b = a.
Proof. done. Qed.

Lemma exec_bind {A B} (p : prog E A) (f : A → prog E B) tr b :
  exec (prog_bind p f) tr b ↔ ∃ tr1 tr2 a, tr = tr1 ++ tr2 ∧ exec p tr1 a ∧ exec (f a) tr2 b.
Proof.
  revert tr. induction p as [a|X e k IH]; intros tr.
  - split.
    + intros H. by exists [], tr, a.
    + intros (tr1 & tr2 & a' & -> & [-> ->] & H). done.
  - split.
    + intros (x & tr' & -> & H). apply IH in H as (tr1 & tr2 & a & -> & H1 & H2).
      exists (Call e x :: tr1), tr2, a. split_and!; [done| |done]. by exists x, tr1.
    + intros (tr1 & tr2 & a & -> & (x & tr' & -> & H1) & H2). exists x, (tr' ++ tr2).
      split; [done|]. apply IH. by exists tr', tr2, a.
Qed.

Lemma exec_trigger {X} (e : E X) tr x : exec (trigger e) tr x ↔ tr = [Call e x].
Proof.
  split.
  - by intros (y & tr' & -> & -> & ->).
  - intros ->. by exists x, [].
Qed.
End exec.

(** ** Which calls a program can make *)
Section calls.
Context {E : Set → Type} (ok : ∀ X : Set, E X → bool).

(** Whatever is answered, only calls that [ok] accepts are made. *)
Fixpoint calls_only {A} (p : prog E A) : Prop :=
  match p with
  | Ret _ => True
  | Vis e k => ok _ e = true ∧ ∀ x, calls_only (k x)
  end.

Definition call_ok (c : call E) : bool := match c with Call e _ => ok _ e end.

Lemma calls_only_bind {A B} (p : prog E A) (f : A → prog E B) :
  calls_only p → (∀ a, calls_only (f a)) → calls_only (prog_bind p f).
Proof. intros Hp Hf. induction p as [a|X e k IH]; simpl in *; [done|]. destruct Hp as [He Hk]. split; auto. Qed.

Lemma calls_only_trigger {X : Set} (e : E X) : ok _ e = true → calls_only (trigger e).
Proof. done. Qed.

Lemma calls_only_exec {A} (p : prog E A) tr a :
  calls_only p → exec p tr a → Forall (λ c, call_ok c = true) tr.
Proof.
  revert tr. induction p as [b|X e k IH]; intros tr Hp; simpl in *.
  - by intros [-> _].
  - destruct Hp as [He Hk]. intros (x & tr' & -> & H). constructor; [done|]. by eapply IH.
Qed.

(** Then nothing is observed of a call that is not accepted. *)
Lemma calls_only_omap {A B} (obs : call E → option B) (p : prog E A) tr a :
  (∀ c, call_ok c = true → obs c = None) → calls_only p → exec p tr a → omap obs tr = [].
Proof.
  intros Hobs Hp Hex. pose proof (calls_only_exec _ _ _ Hp Hex) as Hf. clear Hp Hex.
  induction Hf as [|c l Hc _ IH]; [done|].
  simpl. by rewrite (Hobs c Hc).
Qed.
End calls.

Lemma calls_only_mono {E : Set → Type} (ok ok' : ∀ X : Set, E X → bool) {A} (p : prog E A) :
  (∀ X e, ok X e = true → ok' X e = true) → calls_only ok p → calls_only ok' p.
Proof. intros Hok. induction p as [a|X e k IH]; simpl; [done|]. intros [He Hk]. split; auto. Qed.

(** Walk a program, one call, bind or branch at a time. *)
Ltac calls_step :=
  lazymatch goal with
  | |- calls_only _ (prog_bind _ _) => apply calls_only_bind; [|intros ?]
  | |- calls_only _ (match ?x with _ => _ end) => destruct x
  | |- calls_only _ (Ret _) => exact I
  | |- calls_only _ (Vis _ _) => split; [reflexivity|intros ?]
  | |- calls_only _ (trigger _) => apply calls_only_trigger; reflexivity
  end.
Create HintDb calls.
Ltac calls := repeat first [calls_step | solve [eauto with calls]].

(** Every result of the program satisfies [P]. *)
Section returns.
Context {E : Set → Type}.
Fixpoint returns {A} (P : A → Prop) (p : prog E A) : Prop :=
  match p with Ret a => P a | Vis e k => ∀ x, returns P (k x) end.
Lemma returns_bind {A B} (P : B → Prop) (p : prog E A) (f : A → prog E B) :
  (∀ a, returns P (f a)) → returns P (prog_bind p f).
Proof. intros Hf. induction p as [a|X e k IH]; [apply Hf|]. intros x. apply IH. Qed.
Lemma returns_through {A B} (P : A → Prop) (Q : B → Prop) (p : prog E A) (f : A → prog E B) :
  returns P p → (∀ a, P a → returns Q (f a)) → returns Q (prog_bind p f).
Proof. intros Hp Hf. induction p as [a|X e k IH]; [by apply Hf|]. intros x. apply IH, Hp. Qed.
Lemma returns_exec {A} (P : A → Prop) (p : prog E A) tr a : returns P p → exec p tr a → P a.
Proof.
  revert tr. induction p as [b|X e k IH]; intros tr Hp; simpl; [by intros [_ ->]|]. intros (x & tr' & _ & Hex). by eapply IH.
Qed.
End returns.

(** ** Running a program *)
Section run.
Context {E : Set → Type} {S : Type} (handler : ∀ X : Set, E X → S → X * S).

Fixpoint run {A} (p : prog E A) (s : S) : A * list (call E) * S :=
  match p with
  | Ret a => (a, [], s)
  | Vis e k =>
      let '(x, s) := handler _ e s in
      let '(a, tr, s) := run (k x) s in
      (a, Call e x :: tr, s)
  end.

Lemma run_exec {A} (p : prog E A) s : exec p (run p s).1.2 (run p s).1.1.
Proof.
  revert s. induction p as [a|X e k IH]; intros s; simpl; [done|].
  destruct (handler X e s) as [x s']. specialize (IH x s').
  destruct (run (k x) s') as [[a tr] s'']. exists x, tr. done.
Qed.
End run.

(** ** Linking

    A program over [E] becomes one over [F] when every [E]-call is carried out by a
    program over [F], with a state [S] threaded through. *)
Section interp.
Context {E F : Set → Type} {S : Type} (h : ∀ X : Set, E X → S → prog F (X * S)).

Fixpoint interp {A} (p : prog E A) (s : S) : prog F (A * S) :=
  match p with
  | Ret a => Ret (a, s)
  | Vis e k => let! xs := h _ e s in interp (k xs.1) xs.2
  end.

(** The [F]-calls [trF] carry out the [E]-calls [tr] one after the other. *)
Fixpoint carries (tr : list (call E)) (s : S) (trF : list (call F)) (s' : S) : Prop :=
  match tr with
  | [] => trF = [] ∧ s' = s
  | Call e x :: tr => ∃ t1 t2 s1, trF = t1 ++ t2 ∧ exec (h _ e s) t1 (x, s1) ∧ carries tr s1 t2 s'
  end.

(** What a linked program does, the program does over the carried-out calls. *)
Lemma exec_interp {A} (p : prog E A) s trF a s' :
  exec (interp p s) trF (a, s') → ∃ tr, exec p tr a ∧ carries tr s trF s'.
Proof.
  revert s trF. induction p as [b|X e k IH]; intros s trF; cbn [interp].
  - intros [-> [= -> ->]]. by exists [].
  - intros (t1 & t2 & [x s1] & -> & Hh & Hk)%exec_bind. apply IH in Hk as (tr & Hp & Hc).
    exists (Call e x :: tr). split; [by exists x, tr|]. by exists t1, t2, s1.
Qed.

Lemma carries_app tr1 tr2 s trF s' :
  carries (tr1 ++ tr2) s trF s' →
  ∃ t1 t2 s1, trF = t1 ++ t2 ∧ carries tr1 s t1 s1 ∧ carries tr2 s1 t2 s'.
Proof.
  revert s trF. induction tr1 as [|[X e x] tr1 IH]; intros s trF; cbn [app carries].
  - intros H. by exists [], trF, s.
  - intros (t1 & t2 & s1 & -> & He & (t3 & t4 & s2 & -> & H1 & H2)%IH).
    exists (t1 ++ t3), t4, s2. split_and!; [by rewrite app_assoc| |done]. by exists t1, t3, s1.
Qed.
End interp.

(** ** Renaming calls

    A program over [E] is one over [F] when every [E]-call is an [F]-call. *)
Section lift.
Context {E F : Set → Type} (h : ∀ X : Set, E X → F X).

Fixpoint lift {A} (p : prog E A) : prog F A :=
  match p with
  | Ret a => Ret a
  | Vis e k => Vis (h _ e) (λ x, lift (k x))
  end.

Definition lift_call (c : call E) : call F := match c with Call e x => Call (h _ e) x end.

Lemma exec_lift {A} (p : prog E A) tr a :
  exec (lift p) tr a ↔ ∃ tr', tr = lift_call <$> tr' ∧ exec p tr' a.
Proof.
  revert tr. induction p as [b|X e k IH]; intros tr; cbn [lift exec].
  - split; [intros [-> ->]; by exists []|by intros (tr' & -> & -> & ->)].
  - split.
    + intros (x & tr' & -> & (tr0 & -> & Hk)%IH). exists (Call e x :: tr0). split; [done|]. by exists x, tr0.
    + intros (tr0 & -> & x & tr' & -> & Hk). exists x, (lift_call <$> tr'). split; [done|]. apply IH. by exists tr'.
Qed.

Lemma calls_only_lift (ok : ∀ X : Set, F X → bool) {A} (p : prog E A) :
  calls_only (λ X e, ok X (h X e)) p → calls_only ok (lift p).
Proof. induction p as [b|X e k IH]; [done|]. intros [He Hk]. split; [done|]. intros x. by apply IH. Qed.
End lift.

(** ** Typestate

    [wp p Q s]: starting in the ghost state [s], every call of [p] is allowed by [pre] in
    the state it is made in, [step] moves the state with the call and its reply, and when
    [p] returns, [Q] holds of the result and the state reached. *)
Section wp.
Context {E : Set → Type} {S : Type} (pre : ∀ X : Set, E X → S → Prop) (step : ∀ X : Set, E X → X → S → S).

Fixpoint wp {A} (p : prog E A) (Q : A → S → Prop) (s : S) : Prop :=
  match p with
  | Ret a => Q a s
  | Vis e k => pre _ e s ∧ ∀ x, wp (k x) Q (step _ e x s)
  end.

Definition step_call (s : S) (c : call E) : S := match c with Call e x => step _ e x s end.

Lemma wp_mono {A} (p : prog E A) (Q Q' : A → S → Prop) s :
  (∀ a s, Q a s → Q' a s) → wp p Q s → wp p Q' s.
Proof. intros HQ. revert s. induction p as [a|X e k IH]; intros s; simpl; [auto|]. intros [Hp Hk]. split; auto. Qed.

Lemma wp_bind {A B} (p : prog E A) (f : A → prog E B) (Q : B → S → Prop) s :
  wp p (λ a s, wp (f a) Q s) s → wp (prog_bind p f) Q s.
Proof.
  revert s. induction p as [a|X e k IH]; intros s; simpl; [done|].
  intros [Hp Hk]. split; [done|]. intros x. by apply IH.
Qed.

Lemma wp_exec {A} (p : prog E A) (Q : A → S → Prop) s tr a :
  wp p Q s → exec p tr a → Q a (foldl step_call s tr).
Proof.
  revert s tr. induction p as [b|X e k IH]; intros s tr; simpl.
  - by intros HQ [-> ->].
  - intros [_ Hk] (x & tr' & -> & Hex). simpl. by eapply IH.
Qed.

(** Calls that are always allowed and leave the state alone. *)
Lemma wp_calls_only (ok : ∀ X : Set, E X → bool) {A} (p : prog E A) (Q : A → S → Prop) s :
  (∀ X (e : E X) s, ok X e = true → pre X e s ∧ ∀ x, step X e x s = s) →
  calls_only ok p → (∀ a, Q a s) → wp p Q s.
Proof.
  intros Hok Hp HQ. induction p as [a|X e k IH]; simpl; [done|]. destruct Hp as [He Hk].
  destruct (Hok X e s He) as [Hpre Hst]. split; [done|]. intros x. rewrite Hst. auto.
Qed.

(** What is allowed when the call is made: the state reached by the calls before it. *)
Lemma wp_pre {A} (p : prog E A) (Q : A → S → Prop) s tr1 c tr2 a :
  wp p Q s → exec p (tr1 ++ c :: tr2) a →
  match c with Call e _ => pre _ e (foldl step_call s tr1) end.
Proof.
  revert s tr1. induction p as [b|X e k IH]; intros s tr1; simpl.
  - intros _ [Hn _]. by destruct tr1.
  - intros [Hp Hk] (x & tr' & E0 & Hex). destruct tr1 as [|c1 tr1]; injection E0 as -> Htr; [done|].
    rewrite <- Htr in Hex. exact (IH x _ tr1 (Hk x) Hex).
Qed.
End wp.

(** The ghost state that remembers everything: the calls so far. *)
Section history.
Context {E : Set → Type} (pre : ∀ X : Set, E X → list (call E) → Prop).
Definition hist (X : Set) (e : E X) (x : X) (tr : list (call E)) : list (call E) := tr ++ [Call e x].

Lemma hist_foldl tr0 tr : foldl (step_call hist) tr0 tr = tr0 ++ tr.
Proof.
  revert tr0. induction tr as [|[X e x] tr IH]; intros tr0; simpl; [by rewrite app_nil_r|].
  rewrite IH. unfold hist. by rewrite <- app_assoc.
Qed.

(** A sub-program whose calls are all allowed from here on contributes its trace. *)
Lemma wp_hist {A} (p : prog E A) (Q : A → list (call E) → Prop) tr :
  (∀ X e tr', pre X e (tr ++ tr')) → (∀ tr' a, exec p tr' a → Q a (tr ++ tr')) → wp pre hist p Q tr.
Proof.
  revert tr. induction p as [a|X e k IH]; intros tr Hp HQ; simpl.
  - rewrite <- (app_nil_r tr). by apply HQ.
  - split; [rewrite <- (app_nil_r tr); apply Hp|]. intros x. unfold hist. apply IH.
    + intros X' e' tr'. rewrite <- app_assoc. apply Hp.
    + intros tr' a Hex. rewrite <- app_assoc. apply HQ. by exists x, tr'.
Qed.
Lemma wp_hist_exec {A} (p : prog E A) (Q : A → list (call E) → Prop) tr a :
  wp pre hist p Q [] → exec p tr a → Q a tr.
Proof. intros Hw Hex. pose proof (wp_exec _ _ _ _ _ _ _ Hw Hex) as HQ. by rewrite hist_foldl in HQ. Qed.
Lemma wp_hist_pre {A} (p : prog E A) (Q : A → list (call E) → Prop) tr1 c tr2 a :
  wp pre hist p Q [] → exec p (tr1 ++ c :: tr2) a → match c with Call e _ => pre _ e tr1 end.
Proof. intros Hw Hex. pose proof (wp_pre _ _ _ _ _ _ _ _ _ Hw Hex) as HQ. by rewrite hist_foldl in HQ. Qed.
End history.

(** Walk a program with its ghost state, one call, bind or branch at a time. *)
Ltac wp_step :=
  lazymatch goal with
  | |- wp _ _ (prog_bind _ _) _ _ => apply wp_bind
  | |- wp _ _ (let _ := _ in _) _ _ => cbv zeta
  | |- wp _ _ (match ?x with _ => _ end) _ _ => destruct x
  | |- wp _ _ (Ret _) _ _ => cbn [wp]
  | |- wp _ _ (trigger _) _ _ => split; [|intros ?]
  end.
