(* ===== verification/Sha256.v ===== *)
(** * SHA-256, HMAC and hexadecimal

    The functions of Go's [crypto/sha256], [crypto/hmac] and [encoding/hex] the
    program calls: [sha256.Sum256], [hmac.New(sha256.New, key)] with [Write] and
    [Sum], [hmac.Equal] and [hex.EncodeToString], executable on 32-bit words
    kept as integers below 2^32 (FIPS 180-4, FIPS 198-1).  The examples are
    published test vectors.  The components use the lengths and the alphabet of
    the encodings, never that the hash has no collisions. *)
From S2P Require Import Prelude Regex GoStrings.
From Stdlib Require Import Ascii.

#[local] Open Scope Z_scope.

(** ** Words *)
Definition w32 (x : Z) : Z := x `mod` 2 ^ 32.
Definition add32 (x y : Z) : Z := w32 (x + y).
Definition rotr (n x : Z) : Z := Z.lor (Z.shiftr x n) (w32 (Z.shiftl x (32 - n))).
Definition not32 (x : Z) : Z := Z.lxor x (2 ^ 32 - 1).

Definition Ch (x y z : Z) : Z := Z.lxor (Z.land x y) (Z.land (not32 x) z).
Definition Maj (x y z : Z) : Z := Z.lxor (Z.lxor (Z.land x y) (Z.land x z)) (Z.land y z).
Definition Sigma0 (x : Z) : Z := Z.lxor (Z.lxor (rotr 2 x) (rotr 13 x)) (rotr 22 x).
Definition Sigma1 (x : Z) : Z := Z.lxor (Z.lxor (rotr 6 x) (rotr 11 x)) (rotr 25 x).
Definition sigma0 (x : Z) : Z := Z.lxor (Z.lxor (rotr 7 x) (rotr 18 x)) (Z.shiftr x 3).
Definition sigma1 (x : Z) : Z := Z.lxor (Z.lxor (rotr 17 x) (rotr 19 x)) (Z.shiftr x 10).

(** The constants are the first 32 bits of the fractional parts of the cube roots
    of the first 64 primes, and of the square roots of the first eight. *)
Definition primes (n : nat) : list Z :=
  take n (filter (λ p, forallb (λ d, negb (p `mod` d =? 0)) (seqZ 2 (p - 2))) (seqZ 2 400)).

(** The largest [r] with [r ^ 3 <= x], given bit by bit. *)
Fixpoint cube_root (bits : nat) (x r : Z) : Z :=
  match bits with
  | O => r
  | S bits =>
      let r' := r + 2 ^ Z.of_nat bits in
      cube_root bits x (if r' ^ 3 <=? x then r' else r)
  end.

Definition K256 : list Z :=
  Eval vm_compute in (λ p, w32 (cube_root 36 (Z.shiftl p 96) 0)) <$> primes 64.
Definition H256 : list Z :=
  Eval vm_compute in (λ p, w32 (Z.sqrt (Z.shiftl p 64))) <$> primes 8.

(** ** Messages *)
Definition byte_z (c : ascii) : Z := Z.of_nat (nat_of_ascii c).
Definition z_byte (z : Z) : ascii := ascii_of_nat (Z.to_nat (z `mod` 256)).

(** [n] bytes, most significant first. *)
Fixpoint be_bytes (n : nat) (z : Z) : list ascii :=
  match n with
  | O => []
  | S n => z_byte (Z.shiftr z (8 * Z.of_nat n)) :: be_bytes n z
  end.

Definition be_word (l : list ascii) : Z := foldl (λ z c, z * 256 + byte_z c) 0 l.

(** The message, a one bit, zeros up to 56 modulo 64, the length in bits. *)
Definition pad (m : list ascii) : list ascii :=
  let n := length m in
  m ++ [byte 128] ++ replicate ((119 - n mod 64) mod 64)%nat (byte 0) ++ be_bytes 8 (8 * Z.of_nat n).

Fixpoint chunks (fuel n : nat) (l : list ascii) : list (list ascii) :=
  match fuel, l with
  | O, _ | _, [] => []
  | S fuel, _ => take n l :: chunks fuel n (drop n l)
  end.

(** The message schedule, kept newest first. *)
Fixpoint schedule (n : nat) (w : list Z) : list Z :=
  match n with
  | O => rev w
  | S n =>
      let at_ i := default 0 (w !! i) in
      schedule n (w32 (sigma1 (at_ 1%nat) + at_ 6%nat + sigma0 (at_ 14%nat) + at_ 15%nat) :: w)
  end.

Definition round (s : list Z) (kw : Z * Z) : list Z :=
  match s with
  | [a; b; c; d; e; f; g; h] =>
      let t1 := h + Sigma1 e + Ch e f g + kw.1 + kw.2 in
      let t2 := Sigma0 a + Maj a b c in
      [w32 (t1 + t2); a; b; c; add32 d t1; e; f; g]
  | _ => s
  end.

Definition compress (h : list Z) (block : list ascii) : list Z :=
  let w := schedule 48 (rev (be_word <$> chunks 16 4 block)) in
  zip_with add32 h (foldl round h (zip K256 w)).

Definition Sum256 (m : list ascii) : list ascii :=
  let p := pad m in
  foldl compress H256 (chunks (length p) 64 p) ≫= be_bytes 4.

(** ** HMAC *)
Definition BlockSize : nat := 64.

Definition hmac_key (key : list ascii) : list ascii :=
  let key := if (BlockSize <? length key)%nat then Sum256 key else key in
  key ++ replicate (BlockSize - length key) (byte 0).

Definition xor_bytes (x : Z) (l : list ascii) : list ascii :=
  (λ c, z_byte (Z.lxor (byte_z c) x)) <$> l.

Definition hmac (key message : list ascii) : list ascii :=
  let k := hmac_key key in
  Sum256 (xor_bytes 0x5c k ++ Sum256 (xor_bytes 0x36 k ++ message)).

(** ** Hexadecimal *)
Definition hex_byte (c : ascii) : list ascii :=
  [hex_digit (nat_of_ascii c / 16); hex_digit (nat_of_ascii c mod 16)].

Definition EncodeToString (l : list ascii) : string := of_bytes (l ≫= hex_byte).

(** ** Test vectors *)
Example Sum256_empty :
  EncodeToString (Sum256 []) = "e3b0c44298fc1c149afbf4c8996fb92427ae41e4649b934ca495991b7852b855".
Proof. vm_compute. reflexivity. Qed.

Example Sum256_abc :
  EncodeToString (Sum256 (bytes "abc")) = "ba7816bf8f01cfea414140de5dae2223b00361a396177a9cb410ff61f20015ad".
Proof. vm_compute. reflexivity. Qed.

Example Sum256_two_blocks :
  EncodeToString (Sum256 (bytes "abcdbcdecdefdefgefghfghighijhijkijkljklmklmnlmnomnopnopq")) =
  "248d6a61d20638b8e5c026930c3e6039a33ce45964ff2167f6ecedd419db06c1".
Proof. vm_compute. reflexivity. Qed.

Example hmac_rfc4231_2 :
  EncodeToString (hmac (bytes "Jefe") (bytes "what do ya want for nothing?")) =
  "5bdcc146bf60754e6a042426089575c75a003f089d2739839dec58b964ec3843".
Proof. vm_compute. reflexivity. Qed.

Example hmac_rfc4231_6 :
  EncodeToString (hmac (replicate 131 (byte 170))
    (bytes "Test Using Larger Than Block-Size Key - Hash Key First")) =
  "60e431591ee0b67f0d8a26aacbf5b77f8e0bc6213728c5140546040f0ee37f54".
Proof. vm_compute. reflexivity. Qed.

(** ** Lengths and alphabet *)
#[local] Close Scope Z_scope.

Lemma length_be_bytes n z : length (be_bytes n z) = n.
Proof. induction n; simpl; auto. Qed.

Lemma length_round s kw : length (round s kw) = length s.
Proof. by do 9 (destruct s as [|? s]; [done|]). Qed.

Lemma length_rounds (kws : list (Z * Z)) s : length (foldl round s kws) = length s.
Proof. revert s. induction kws; intros s; simpl; [done|]. rewrite IHkws. apply length_round. Qed.

Lemma length_compress h block : length (compress h block) = length h.
Proof. unfold compress. rewrite length_zip_with, length_rounds. lia. Qed.

Lemma length_Sum256 m : length (Sum256 m) = 32.
Proof.
  unfold Sum256. set (h := foldl _ _ _). assert (Hh : length h = 8).
  { unfold h. generalize (chunks (length (pad m)) 64 (pad m)). intros bs.
    assert (H8 : length H256 = 8) by reflexivity. revert H8. generalize H256.
    induction bs as [|b bs IH]; intros s Hs; simpl; [done|]. apply IH. by rewrite length_compress. }
  clearbody h. do 8 (destruct h as [|? h]; [done|]). destruct h; [|done]. reflexivity.
Qed.

Lemma length_hmac key message : length (hmac key message) = 32.
Proof. apply length_Sum256. Qed.

Lemma len_EncodeToString l : len (EncodeToString l) = 2 * length l.
Proof.
  unfold EncodeToString. rewrite len_bytes, bytes_of_bytes.
  induction l as [|c l IH]; [done|]. simpl in *. unfold mbind in *. lia.
Qed.

Lemma hex_byte_hex c : Forall (λ d, is_hex d = true) (hex_byte c).
Proof.
  assert (Hc : ∀ c, forallb is_hex (hex_byte c) = true).
  { apply all_ascii_forall. vm_compute. reflexivity. }
  apply Forall_forall. intros d Hd%list_elem_of_In. by apply (proj1 (forallb_forall _ _) (Hc c)).
Qed.

Lemma EncodeToString_hex l : Forall (λ d, is_hex d = true) (bytes (EncodeToString l)).
Proof.
  unfold EncodeToString. rewrite bytes_of_bytes. apply Forall_bind, Forall_true.
  apply hex_byte_hex.
Qed.

Definition unhex_digit (c : ascii) : nat :=
  let n := nat_of_ascii c in if (n <? 58)%nat then n - 48 else n - 87.
Definition unhex (l : list ascii) : ascii :=
  match l with [a; b] => byte (16 * unhex_digit a + unhex_digit b) | _ => byte 0 end.

Lemma hex_byte_inj c d : hex_byte c = hex_byte d → c = d.
Proof.
  assert (Hb : ∀ c, bool_decide (unhex (hex_byte c) = c) = true).
  { apply all_ascii_forall. vm_compute. reflexivity. }
  intros Heq. pose proof (bool_decide_eq_true_1 _ (Hb c)) as <-.
  pose proof (bool_decide_eq_true_1 _ (Hb d)) as Hd. by rewrite Heq.
Qed.

(** Different byte strings of the same length have different encodings. *)
Lemma EncodeToString_inj l1 l2 :
  length l1 = length l2 → EncodeToString l1 = EncodeToString l2 → l1 = l2.
Proof.
  unfold EncodeToString. intros Hl Heq. apply (f_equal bytes) in Heq. rewrite !bytes_of_bytes in Heq.
  revert l2 Hl Heq. induction l1 as [|c l1 IH]; intros [|d l2] Hl Heq; [done..|].
  rewrite !bind_cons in Heq. apply app_inj_1 in Heq as [Hc Heq]; [|done].
  f_equal; [by apply hex_byte_inj|]. apply IH; [by injection Hl|done].
Qed.
