(* ===== verification/Webhook.v ===== *)
(** * The webhook receiver

    Models [receiver/internal/webhook/webhook.go] (and the generated
    [EnqueueDelivery] call it makes): the internet-facing handler that verifies a
    GitHub webhook, filters it by the repository allowlist and records a pointer
    in the delivery queue.  Reading the policy file and inserting the row are
    calls with arbitrary replies; the HTTP request is a value, its response the
    program's result.  Decoding the JSON payload ([json.Unmarshal] into the one
    field the handler reads) is an argument of the model.  Log lines are left
    out. *)
From S2P Require Import Prelude Regex GoStrings RepoAllowlist Effects Sha256.
From Stdlib Require Import Ascii.

(** ** HTTP *)
Record Request : Type := {
  req_Method : string;
  req_Header : gmap string (list string);
  req_Body : list ascii;
  (** the body stream fails after [req_Body] *)
  req_BodyFails : bool;
}.

Record Response : Type := {
  resp_Status : Z;
  resp_Header : gmap string string;
  resp_Body : string;
}.

(** [textproto.CanonicalMIMEHeaderKey] of a token *)
Fixpoint canonical_bytes (upper : bool) (l : list ascii) : list ascii :=
  match l with
  | [] => []
  | c :: l => (if upper then upper_ascii c else lower_ascii c) ::
      canonical_bytes (bool_decide (c = "-"%char)) l
  end.
Definition CanonicalHeaderKey (key : string) : string := of_bytes (canonical_bytes true (bytes key)).

(** [r.Header.Get(key)] *)
Definition HeaderGet (r : Request) (key : string) : string :=
  default "" (req_Header r !! CanonicalHeaderKey key ≫= head).

Inductive BodyError : Type := MaxBytesError | ReadError.

(** [io.ReadAll(http.MaxBytesReader(w, r.Body, n))] *)
Definition ReadAll (r : Request) (n : Z) : result BodyError (list ascii) :=
  if decide (n < Z.of_nat (length (req_Body r)))%Z then Err MaxBytesError
  else if req_BodyFails r then Err ReadError
  else Ok (req_Body r).

(** ** Data *)
Definition DefaultMaxBodyBytes : Z := Z.shiftl 25 20.
Definition eventPush : string := "push".
Definition eventPing : string := "ping".
Definition maxDeliveryIDLen : nat := 72.
Definition maxRepoLen : nat := 200.
Definition signatureHeader : string := "X-Hub-Signature-256".

Record EnqueueDeliveryParams : Type := {
  enq_DeliveryID : string;
  enq_Repo : string;
  enq_EventType : string;
}.

Inductive WebhookE : Set → Type :=
| ReadFile (path : string) : WebhookE (result string string)
| EnqueueDelivery (arg : EnqueueDeliveryParams) : WebhookE (result string Z).

Inductive PolicyError : Type :=
| PolicyUnreadable (path err : string)
| PolicyMalformed (path : string) (err : AllowlistError)
| PolicyInvalid (err : AllowlistError).

Inductive AllowlistSource : Type :=
| FileAllowlist (path : string)
| StaticAllowlist (repositories : list string) (err : option AllowlistError).

Record Config : Type := {
  cfg_Secret : list ascii;
  cfg_Allowlist : list string;
  cfg_AllowlistSource : option AllowlistSource;
  cfg_MaxBody : Z;
}.

Record Handler : Type := {
  h_secret : list ascii;
  h_allowlistSource : AllowlistSource;
  h_maxBody : Z;
}.

Section webhook.
Context `{UnicodeTables} (json_full_name : list ascii → option string).

(** ** Construction and policy *)
Definition NewHandler (cfg : Config) : Handler :=
  {| h_secret := cfg_Secret cfg;
     h_allowlistSource :=
       match cfg_AllowlistSource cfg with
       | Some source => source
       | None =>
           match Normalize (cfg_Allowlist cfg) with
           | Ok repositories => StaticAllowlist repositories None
           | Err err => StaticAllowlist [] (Some err)
           end
       end;
     h_maxBody := if decide (cfg_MaxBody cfg ≤ 0)%Z then DefaultMaxBodyBytes else cfg_MaxBody cfg |}.

(** [Repositories] of the two sources *)
Definition Repositories (source : AllowlistSource) : prog WebhookE (result PolicyError (list string)) :=
  match source with
  | FileAllowlist path =>
      let! raw := trigger (ReadFile path) in
      Ret (match raw with
            | Err err => Err (PolicyUnreadable path err)
            | Ok raw =>
                match Parse raw with
                | Err err => Err (PolicyMalformed path err)
                | Ok repositories => Ok repositories
                end
            end)
  | StaticAllowlist repositories err =>
      Ret (match err with Some err => Err (PolicyInvalid err) | None => Ok repositories end)
  end.

Definition repositories (h : Handler) : prog WebhookE (result PolicyError (list string)) :=
  let! rs := Repositories (h_allowlistSource h) in
  Ret (match rs with
        | Err err => Err err
        | Ok rs => match Normalize rs with Err err => Err (PolicyInvalid err) | Ok rs => Ok rs end
        end).

Definition AllowlistSize (h : Handler) : prog WebhookE (result PolicyError nat) :=
  let! rs := repositories h in
  Ret (length <$> rs).

Definition allowed (h : Handler) (repo : string) : prog WebhookE (result PolicyError bool) :=
  let! rs := repositories h in
  Ret ((λ rs, bool_decide (ToLower repo ∈ rs)) <$> rs).

(** ** The handler *)
Definition validSignature (h : Handler) (header : string) (body : list ascii) : bool :=
  if decide (header = "") then false
  else bool_decide ("sha256=" +:+ EncodeToString (hmac (h_secret h) body) = header).

Definition respond (headers : gmap string string) (status : Z) (msg : string) : Response :=
  {| resp_Status := status;
     resp_Header := <["Content-Type" := "text/plain; charset=utf-8"]> headers;
     resp_Body := msg +:+ String newline "" |}.

Definition ack (msg : string) : Response := respond ∅ 200 msg.
Definition reject (status : Z) (msg : string) : Response := respond ∅ status msg.

Definition Webhook (h : Handler) (r : Request) : prog WebhookE Response :=
  if decide (req_Method r ≠ "POST") then
    Ret (respond {["Allow" := "POST"]} 405 "method not allowed")
  else match ReadAll r (h_maxBody h) with
  | Err MaxBytesError => Ret (reject 413 "body too large")
  | Err ReadError => Ret (reject 400 "cannot read body")
  | Ok body =>
    if negb (validSignature h (HeaderGet r signatureHeader) body) then
      Ret (reject 401 "signature verification failed")
    else
    let event := HeaderGet r "X-GitHub-Event" in
    if decide (event = eventPing) then Ret (ack "pong")
    else if decide (event ≠ eventPush) then Ret (ack "ignored")
    else
    let delivery := HeaderGet r "X-GitHub-Delivery" in
    if decide (delivery = "") then Ret (reject 400 "missing delivery id")
    else if maxDeliveryIDLen <? len delivery then Ret (reject 400 "field too long")
    else match json_full_name body with
    | None => Ret (reject 400 "invalid json")
    | Some repo =>
      if decide (repo = "") then Ret (reject 400 "missing repository")
      else if maxRepoLen <? len repo then Ret (reject 400 "field too long")
      else
      let! ok := allowed h repo in
      match ok with
      | Err _ => Ret (reject 503 "repository policy unavailable")
      | Ok false => Ret (reject 403 "repository not allowed")
      | Ok true =>
          let! rows := trigger (EnqueueDelivery
            {| enq_DeliveryID := delivery; enq_Repo := repo; enq_EventType := event |}) in
          match rows with
          | Err _ => Ret (reject 500 "enqueue failed")
          | Ok _ => Ret (respond ∅ 202 "accepted")
          end
      end
    end
  end.

(** ** What an accepted delivery is *)

(** The rows a call inserts, and what the insert answered. *)
Definition enqueued (c : call WebhookE) : option (EnqueueDeliveryParams * bool) :=
  match c with
  | Call e x =>
      match e in WebhookE X return X → _ with
      | EnqueueDelivery arg => λ x, Some (arg, is_ok x)
      | ReadFile _ => λ _, None
      end x
  end.

Definition well_signed (h : Handler) (r : Request) : Prop :=
  HeaderGet r signatureHeader = "sha256=" +:+ EncodeToString (hmac (h_secret h) (req_Body r)).

(** An authentic push that carries a delivery id and a repository name, before
    the policy is consulted. *)
Definition authentic_push (h : Handler) (r : Request) (arg : EnqueueDeliveryParams) : Prop :=
  req_Method r = "POST" ∧ (Z.of_nat (length (req_Body r)) ≤ h_maxBody h)%Z ∧
  req_BodyFails r = false ∧ well_signed h r ∧
  enq_EventType arg = "push" ∧ HeaderGet r "X-GitHub-Event" = "push" ∧
  HeaderGet r "X-GitHub-Delivery" = enq_DeliveryID arg ∧ 1 ≤ len (enq_DeliveryID arg) ≤ 72 ∧
  json_full_name (req_Body r) = Some (enq_Repo arg) ∧ 1 ≤ len (enq_Repo arg) ≤ 200.

(** The policy the handler gets from a read of the policy file. *)
Definition policy (h : Handler) (tr : list (call WebhookE)) (rs : list string) : Prop :=
  ∃ r, exec (repositories h) tr r ∧ r = Ok rs.

Lemma validSignature_spec h r : validSignature h (HeaderGet r signatureHeader) (req_Body r) = true ↔
  well_signed h r.
Proof.
  unfold validSignature, well_signed. case_decide as Hd.
  - rewrite Hd. split; [done|]. intros Hs. by destruct (EncodeToString _).
  - rewrite bool_decide_eq_true. split; by intros ->.
Qed.

Lemma ReadAll_Ok r n body : ReadAll r n = Ok body ↔
  body = req_Body r ∧ (Z.of_nat (length (req_Body r)) ≤ n)%Z ∧ req_BodyFails r = false.
Proof.
  unfold ReadAll. case_decide; [split; [done|lia]|]. destruct (req_BodyFails r).
  - split; [done|]. by intros (_ & _ & ?).
  - split; [intros [= <-]|intros (-> & _)]; split_and?; done || lia.
Qed.

Lemma len_pos s : s ≠ "" → 1 ≤ len s.
Proof. destruct s; [done|]. simpl. unfold len. simpl. lia. Qed.

Lemma exec_allowed h repo tr ok :
  exec (allowed h repo) tr ok ↔
  ∃ rs, exec (repositories h) tr rs ∧ ok = (λ rs, bool_decide (ToLower repo ∈ rs)) <$> rs.
Proof.
  unfold allowed. rewrite exec_bind. split.
  - intros (tr1 & tr2 & rs & -> & H1 & [-> ->]). rewrite app_nil_r. by exists rs.
  - intros (rs & Hr & ->). exists tr, [], rs. by rewrite app_nil_r.
Qed.

(** Consulting the policy inserts nothing. *)
Lemma repositories_no_enqueue h tr rs : exec (repositories h) tr rs → omap enqueued tr = [].
Proof.
  unfold repositories, Repositories. rewrite exec_bind.
  intros (tr1 & tr2 & rs' & -> & H1 & [-> _]). rewrite app_nil_r.
  destruct (h_allowlistSource h) as [path|reps err].
  - by destruct H1 as (raw & tr & -> & -> & _).
  - by destruct H1 as [-> _].
Qed.

(** An authentic push is forwarded to the policy check with exactly its fields. *)
Lemma Webhook_push h r arg :
  authentic_push h r arg →
  Webhook h r =
    let! ok := allowed h (enq_Repo arg) in
    match ok with
    | Err _ => Ret (reject 503 "repository policy unavailable")
    | Ok false => Ret (reject 403 "repository not allowed")
    | Ok true =>
        let! rows := trigger (EnqueueDelivery arg) in
        match rows with
        | Err _ => Ret (reject 500 "enqueue failed")
        | Ok _ => Ret (respond ∅ 202 "accepted")
        end
    end.
Proof.
  destruct arg as [delivery repo event].
  intros (Hm & Hl & Hf & Hs%validSignature_spec & Hev & He & Hd & Hdl & Hj & Hrl).
  simpl in *. subst event.
  unfold Webhook. rewrite decide_False by (by intros []).
  rewrite (proj2 (ReadAll_Ok r (h_maxBody h) (req_Body r))) by done.
  rewrite Hs, He, Hd, Hj. simpl.
  rewrite !decide_False by (intros ->; simpl in *; lia).
  by rewrite !(proj2 (Nat.ltb_ge _ _)) by (unfold maxDeliveryIDLen, maxRepoLen; lia).
Qed.

(** Any other request is answered without a call. *)
Lemma Webhook_other h r :
  (∀ arg, ¬ authentic_push h r arg) →
  ∃ resp, Webhook h r = Ret resp ∧ resp_Status resp ∈ [405; 413; 400; 401; 200]%Z.
Proof.
  intros Hno. unfold Webhook.
  case_decide as Hm; [eexists; split; [done|set_solver]|].
  destruct (ReadAll _ _) as [body|[]] eqn:Hb; try (eexists; split; [done|set_solver]).
  apply ReadAll_Ok in Hb as (-> & Hl & Hf).
  destruct (validSignature _ _ _) eqn:Hs; simpl; [|eexists; split; [done|set_solver]].
  case_decide; [eexists; split; [done|set_solver]|].
  case_decide as He; [eexists; split; [done|set_solver]|].
  case_decide as Hd; [eexists; split; [done|set_solver]|].
  destruct (maxDeliveryIDLen <? _) eqn:Hdl; [eexists; split; [done|set_solver]|].
  destruct (json_full_name _) as [repo|] eqn:Hj; [|eexists; split; [done|set_solver]].
  case_decide as Hr; [eexists; split; [done|set_solver]|].
  destruct (maxRepoLen <? _) eqn:Hrl; [eexists; split; [done|set_solver]|].
  apply Nat.ltb_ge in Hdl, Hrl. unfold maxDeliveryIDLen, maxRepoLen in *.
  edestruct (Hno {| enq_DeliveryID := HeaderGet r "X-GitHub-Delivery"; enq_Repo := repo;
    enq_EventType := "push" |}).
  split_and!; simpl; auto using len_pos. by apply validSignature_spec.
Qed.

Lemma authentic_push_dec h r : (∃ arg, authentic_push h r arg) ∨ ∀ arg, ¬ authentic_push h r arg.
Proof.
  set (arg0 := {| enq_DeliveryID := HeaderGet r "X-GitHub-Delivery";
    enq_Repo := default "" (json_full_name (req_Body r)); enq_EventType := "push" |}).
  assert (Hd : Decision (authentic_push h r arg0)).
  { unfold authentic_push, well_signed. apply _. }
  destruct Hd as [?|Hno]; [left; by exists arg0|right]. intros [d repo e] Ha. apply Hno.
  destruct Ha as (? & ? & ? & ? & He & ? & Hdel & ? & Hj & ?). unfold arg0. simpl in *.
  split_and!; simpl; rewrite ?Hj, ?Hdel; simpl; done || lia.
Qed.

Lemma authentic_push_unique h r arg1 arg2 :
  authentic_push h r arg1 → authentic_push h r arg2 → arg1 = arg2.
Proof. destruct arg1, arg2. unfold authentic_push. simpl. intuition congruence. Qed.

(** The two ways a request goes: turned away before anything is read, or an
    authentic push for which the policy is read once. *)
Lemma Webhook_cases h r tr resp :
  exec (Webhook h r) tr resp →
  (tr = [] ∧ resp_Status resp ∈ [405; 413; 400; 401; 200]%Z ∧ ∀ arg, ¬ authentic_push h r arg) ∨
  (∃ arg tr1 rs, authentic_push h r arg ∧ exec (repositories h) tr1 rs ∧
    match rs with
    | Err _ => tr = tr1 ∧ resp_Status resp = 503%Z
    | Ok rs =>
        if decide (ToLower (enq_Repo arg) ∈ rs) then
          ∃ x, tr = tr1 ++ [Call (EnqueueDelivery arg) x] ∧
               resp_Status resp = if is_ok x then 202%Z else 500%Z
        else tr = tr1 ∧ resp_Status resp = 403%Z
    end).
Proof.
  destruct (authentic_push_dec h r) as [[arg Ha]|Hno].
  2:{ intros He. left. destruct (Webhook_other h r Hno) as (resp' & Hw & Hs). rewrite Hw in He.
      by destruct He as [-> ->]. }
  rewrite (Webhook_push h r arg Ha), exec_bind.
  intros (tr1 & tr2 & ok & -> & (rs & Hrs & ->)%exec_allowed & He). right.
  exists arg, tr1, rs. split_and!; [done..|]. destruct rs as [rs|err]; simpl in He.
  - case_decide as Hin.
    + rewrite bool_decide_true in He by done. destruct He as (x & tr' & -> & He).
      exists x. destruct x; destruct He as [-> ->]; done.
    + rewrite bool_decide_false in He by done. destruct He as [-> ->]. by rewrite app_nil_r.
  - destruct He as [-> ->]. by rewrite app_nil_r.
Qed.

(** ** Properties *)

(** The reads of the policy in a history. *)
Definition policy_reads (tr : list (call WebhookE)) : list (call WebhookE) :=
  filter (λ c, enqueued c = None) tr.

Lemma omap_nil_filter (tr : list (call WebhookE)) :
  omap enqueued tr = [] → policy_reads tr = tr.
Proof.
  intros Ho. apply filter_all. intros c Hc. destruct (enqueued c) eqn:He; [|done].
  assert (Hin : p ∈ omap enqueued tr) by (apply list_elem_of_omap; eauto).
  rewrite Ho in Hin. by apply not_elem_of_nil in Hin.
Qed.

Definition read_reply (c : call WebhookE) : option (result string string) :=
  match c with
  | Call e x =>
      match e in WebhookE X return X → _ with
      | ReadFile _ => λ x, Some x
      | EnqueueDelivery _ => λ _, None
      end x
  end.

(** The policy is a function of what was read. *)
Lemma repositories_det h tr rs1 rs2 :
  exec (repositories h) tr rs1 → exec (repositories h) tr rs2 → rs1 = rs2.
Proof.
  unfold repositories, Repositories. destruct (h_allowlistSource h) as [path|reps err].
  - intros (x1 & tr1 & -> & _ & ->) (x2 & tr2 & Heq & _ & ->).
    apply (f_equal (λ t, head t ≫= read_reply)) in Heq. simpl in Heq. by injection Heq as <-.
  - by intros (_ & ->) (_ & ->).
Qed.

(** C1. Whatever the policy file and the database answer, a delivery is recorded
    only for an authentic push: a POST with a body within the limit whose
    signature header is the HMAC of exactly that body under the secret, whose
    event is push, with a delivery id of 1 to 72 bytes and a repository of 1 to
    200 bytes that the policy just read contains (lower-cased); at most one is
    recorded, and it carries exactly those fields. *)
Theorem Webhook_enqueues_only_authentic h r tr resp :
  exec (Webhook h r) tr resp →
  length (omap enqueued tr) ≤ 1 ∧
  ∀ arg ok, (arg, ok) ∈ omap enqueued tr →
    authentic_push h r arg ∧
    ∃ rs, exec (repositories h) (policy_reads tr) (Ok rs) ∧ ToLower (enq_Repo arg) ∈ rs.
Proof.
  intros [(-> & _)|(arg & tr1 & rs & Ha & Hrs & Hm)]%Webhook_cases.
  { split; [simpl; lia|]. by intros ? ? ?%not_elem_of_nil. }
  pose proof (repositories_no_enqueue _ _ _ Hrs) as Hno.
  destruct rs as [rs|e]; [case_decide as Hin|].
  2,3: destruct Hm as [-> _]; rewrite Hno; split; [simpl; lia|by intros ? ? ?%not_elem_of_nil].
  destruct Hm as (x & -> & _). rewrite omap_app, Hno. simpl. split; [lia|].
  intros arg' ok [= -> ->]%list_elem_of_singleton. split; [done|]. exists rs. split; [|done].
  unfold policy_reads. rewrite filter_app. simpl. rewrite app_nil_r.
  fold (policy_reads tr1). by rewrite omap_nil_filter.
Qed.

(** The answer tells what happened: 202 exactly when a row was recorded, 500
    exactly when the insert failed, and an authentic push whose repository the
    policy contains is always recorded; when the policy cannot be read or is
    malformed the answer is 503 and nothing is recorded. *)
Theorem Webhook_answer h r tr resp :
  exec (Webhook h r) tr resp →
  (resp_Status resp = 202%Z ↔ ∃ arg, (arg, true) ∈ omap enqueued tr) ∧
  (resp_Status resp = 500%Z ↔ ∃ arg, (arg, false) ∈ omap enqueued tr) ∧
  (∀ arg rs, authentic_push h r arg → exec (repositories h) (policy_reads tr) (Ok rs) →
    ToLower (enq_Repo arg) ∈ rs → ∃ ok, omap enqueued tr = [(arg, ok)]) ∧
  (∀ arg e, authentic_push h r arg → exec (repositories h) (policy_reads tr) (Err e) →
    resp_Status resp = 503%Z ∧ omap enqueued tr = []).
Proof.
  intros [(-> & Hs & Hno)|(arg & tr1 & rs & Ha & Hrs & Hm)]%Webhook_cases.
  { split_and!; try naive_solver.
    - split; [intros Hc; rewrite Hc in Hs; set_solver|intros [? ?%not_elem_of_nil]; done].
    - split; [intros Hc; rewrite Hc in Hs; set_solver|intros [? ?%not_elem_of_nil]; done]. }
  pose proof (repositories_no_enqueue _ _ _ Hrs) as Hnone.
  pose proof (omap_nil_filter _ Hnone) as Hreads.
  assert (Hone : ∀ arg', authentic_push h r arg' → arg' = arg)
    by (intros arg' Ha'; by apply (authentic_push_unique h r)).
  destruct rs as [rs|e]; [case_decide as Hin|].
  - destruct Hm as (x & -> & ->). unfold policy_reads. rewrite omap_app, Hnone, filter_app. simpl.
    rewrite app_nil_r. fold (policy_reads tr1). rewrite Hreads.
    split_and!; [destruct x; simpl; set_solver..| |].
    + intros arg' rs' ->%Hone _ _. eauto.
    + intros arg' e _ He. by pose proof (repositories_det _ _ _ _ Hrs He).
  - destruct Hm as (-> & ->). rewrite Hnone, Hreads. split_and!; [set_solver..| |].
    + intros arg' rs' ->%Hone He Hin'. pose proof (repositories_det _ _ _ _ Hrs He). naive_solver.
    + intros arg' e _ He. by pose proof (repositories_det _ _ _ _ Hrs He).
  - destruct Hm as (-> & ->). rewrite Hnone, Hreads. split_and!; [set_solver..| |done].
    intros arg' rs' _ He. by pose proof (repositories_det _ _ _ _ Hrs He).
Qed.

(** Until a request is proven authentic nothing happens: a request that is
    not a well-signed push causes no read of the policy and no insert, and one
    with a wrong or missing signature is answered 401. *)
Theorem Webhook_unauthentic h r tr resp :
  exec (Webhook h r) tr resp →
  ((∀ arg, ¬ authentic_push h r arg) → tr = []) ∧
  (req_Method r = "POST" → ReadAll r (h_maxBody h) = Ok (req_Body r) → ¬ well_signed h r →
    tr = [] ∧ resp_Status resp = 401%Z).
Proof.
  intros He. split.
  - intros Hno. destruct (Webhook_other h r Hno) as (resp' & Hw & _). rewrite Hw in He.
    by destruct He as [-> _].
  - intros Hm Hb Hs. unfold Webhook in He. rewrite decide_False, Hb in He by (by intros []).
    destruct (validSignature h (HeaderGet r signatureHeader) (req_Body r)) eqn:Hv.
    + by apply validSignature_spec in Hv.
    + by destruct He as [-> ->].
Qed.
End webhook.

(** ** A worked example *)
Module WebhookExample.
Definition tables : UnicodeTables := ascii_tables.
Definition decoder (_ : list ascii) : option string := Some "Acme/Web".
Definition config : Config :=
  {| cfg_Secret := bytes "swordfish"; cfg_Allowlist := [];
     cfg_AllowlistSource := Some (FileAllowlist "/etc/orkano/repo-allowlist/repositories");
     cfg_MaxBody := 0 |}.
Definition server : Handler := @NewHandler tables config.
Definition body : list ascii := bytes "{'repository':{'full_name':'Acme/Web'}}".
Definition sign (secret : string) : string :=
  "sha256=" +:+ EncodeToString (hmac (bytes secret) body).
Definition push (secret : string) : Request :=
  {| req_Method := "POST";
     req_Header := {["X-Hub-Signature-256" := [sign secret]; "X-Github-Event" := ["push"];
                     "X-Github-Delivery" := ["72d3162e"]]};
     req_Body := body; req_BodyFails := false |}.
Definition arg : EnqueueDeliveryParams :=
  {| enq_DeliveryID := "72d3162e"; enq_Repo := "Acme/Web"; enq_EventType := "push" |}.

(** A policy file with one repository, and a database that accepts the row. *)
Definition environment (X : Set) (e : WebhookE X) (s : unit) : X * unit :=
  match e in WebhookE X return X * unit with
  | ReadFile _ => (Ok ("acme/web" +:+ String newline ""), s)
  | EnqueueDelivery _ => (Ok 1%Z, s)
  end.
Definition served (secret : string) : Response * list (call WebhookE) * unit :=
  run environment (@Webhook tables decoder server (push secret)) ().

Lemma served_exec secret : exec (@Webhook tables decoder server (push secret))
  (served secret).1.2 (served secret).1.1.
Proof. apply run_exec. Qed.

Lemma served_enqueued : omap enqueued (served "swordfish").1.2 = [(arg, true)].
Proof. vm_compute. reflexivity. Qed.
End WebhookExample.

Lemma Webhook_enqueues_only_authentic_witness :
  authentic_push WebhookExample.decoder WebhookExample.server
    (WebhookExample.push "swordfish") WebhookExample.arg.
Proof.
  refine (proj1 (proj2 (Webhook_enqueues_only_authentic _ _ _ _ _
    (WebhookExample.served_exec "swordfish")) WebhookExample.arg true _)).
  rewrite WebhookExample.served_enqueued. by left.
Defined.

Lemma Webhook_answer_witness : resp_Status (WebhookExample.served "swordfish").1.1 = 202%Z.
Proof.
  apply (Webhook_answer _ _ _ _ _ (WebhookExample.served_exec "swordfish")).
  exists WebhookExample.arg. rewrite WebhookExample.served_enqueued. by left.
Defined.

Lemma Webhook_unauthentic_witness :
  (WebhookExample.served "guess").1.2 = [] ∧ resp_Status (WebhookExample.served "guess").1.1 = 401%Z.
Proof.
  apply (Webhook_unauthentic _ _ _ _ _ (WebhookExample.served_exec "guess")).
  - reflexivity.
  - vm_compute. reflexivity.
  - unfold well_signed. refine (bool_decide_eq_false_1 _ _). vm_compute. reflexivity.
Defined.
