(* ===== verification/Names.v ===== *)
(** * Object names

    Kubernetes object names are DNS-1123 subdomains.  The program derives names
    from names ([JobName], [buildName]) by cutting a valid name, trimming what a
    name may not end with and appending a hash; this file holds the automaton of
    the subdomain pattern, its equivalence with the pattern the API types use,
    and the facts that make such derived names valid. *)
From S2P Require Import Prelude Regex GoStrings Kube Api.
From Stdlib Require Import Ascii.

(** ** The automaton: at the start of a label, after an alphanumeric, after a dash *)
Inductive dns_state : Type := LabelStart | AfterAlnum | AfterDash.

Definition dns_step (s : dns_state) (c : ascii) : option dns_state :=
  if dns_char c then Some AfterAlnum
  else match s with
  | LabelStart => None
  | AfterAlnum =>
      if one_of "-" c then Some AfterDash else if one_of "." c then Some LabelStart else None
  | AfterDash => if one_of "-" c then Some AfterDash else None
  end.

Fixpoint dns_run (s : dns_state) (l : list ascii) : option dns_state :=
  match l with
  | [] => Some s
  | c :: l => match dns_step s c with Some s => dns_run s l | None => None end
  end.

Lemma dns_run_app s l1 l2 :
  dns_run s (l1 ++ l2) = match dns_run s l1 with Some s => dns_run s l2 | None => None end.
Proof.
  revert s. induction l1 as [|c l1 IH]; intros s; simpl; [done|].
  destruct (dns_step s c); [apply IH|done].
Qed.

(** ** Equivalence with the pattern *)
Definition dns_or_dash (c : ascii) : bool := dns_char c || one_of "-" c.
Definition label_rest : re := Cat (Star (Cls dns_or_dash)) (Cls dns_char).
Definition more_labels : re := Star (Cat (Lit "."%char) dnsLabel).

Lemma one_of_dash c : one_of "-" c = true ↔ c = "-"%char.
Proof. unfold one_of. rewrite bool_decide_eq_true. simpl. set_solver. Qed.

Lemma one_of_dot c : one_of "." c = true ↔ c = "."%char.
Proof. unfold one_of. rewrite bool_decide_eq_true. simpl. set_solver. Qed.

Lemma cat_match r1 r2 l :
  re_match (Cat r1 r2) l ↔ ∃ l1 l2, l = l1 ++ l2 ∧ re_match r1 l1 ∧ re_match r2 l2.
Proof.
  split; [|intros (l1 & l2 & -> & ? & ?); by constructor].
  inversion 1 as [| |? ? s1 s2 H1 H2| | | |]; simplify_eq. eauto.
Qed.

Lemma cls_match p l : re_match (Cls p) l ↔ ∃ c, l = [c] ∧ p c = true.
Proof.
  split; [inversion 1; simplify_eq; eauto|]. intros (c & -> & ?). by constructor.
Qed.

Lemma alt_match r1 r2 l : re_match (Alt r1 r2) l ↔ re_match r1 l ∨ re_match r2 l.
Proof. split; [inversion 1; simplify_eq; auto|]. intros [?|?]; auto with orkano. Qed.

Lemma opt_match r l : re_match (Opt r) l ↔ l = [] ∨ re_match r l.
Proof.
  split; [|by intros [->|?]; [apply match_alt_l; constructor|apply match_alt_r]].
  inversion 1 as [| | |? ? ? H'|? ? ? H'| |]; simplify_eq; [inversion H'|]; auto.
Qed.

Lemma dns_run_in_label l s :
  Forall (λ c, dns_or_dash c = true) l → s ≠ LabelStart →
  ∃ s', s' ≠ LabelStart ∧ dns_run s l = Some s'.
Proof.
  intros HF. revert s. induction HF as [|c l Hc HF IH]; intros s Hs; simpl; [eauto|].
  unfold dns_step, dns_or_dash in *. destruct (dns_char c); [by apply IH|]. simpl in Hc.
  rewrite Hc. destruct s; [done|by apply IH..].
Qed.

Lemma dns_run_label l : re_match dnsLabel l → dns_run LabelStart l = Some AfterAlnum.
Proof.
  intros (l1 & l2 & -> & (c & -> & Hc)%cls_match & Ho)%cat_match.
  simpl. unfold dns_step. rewrite Hc. apply opt_match in Ho as [->|Hr]; [done|].
  apply cat_match in Hr as (m & d & -> & Hm & (e & -> & He)%cls_match).
  apply star_cls_match in Hm. rewrite dns_run_app.
  destruct (dns_run_in_label m AfterAlnum Hm) as (s' & _ & ->); [done|].
  simpl. unfold dns_step. by rewrite He.
Qed.

Lemma dns_run_more l : re_match more_labels l → dns_run AfterAlnum l = Some AfterAlnum.
Proof.
  unfold more_labels. remember (Star _) as r eqn:Hr. induction 1; simplify_eq; [done|].
  match goal with H : re_match (Cat _ _) _ |- _ =>
    apply cat_match in H as (d & l & -> & (c & -> & ->%bool_decide_eq_true)%cls_match & Hl) end.
  rewrite dns_run_app. simpl.
  rewrite (dns_run_label l Hl). auto.
Qed.

Lemma dns_match_run l :
  re_match dnsSubdomainPattern l → dns_run LabelStart l = Some AfterAlnum.
Proof.
  intros (l1 & l2 & -> & H1 & H2)%cat_match. rewrite dns_run_app.
  rewrite (dns_run_label l1 H1). by apply dns_run_more.
Qed.

(** What is left to read in each state. *)
Definition dns_lang (s : dns_state) : re :=
  match s with
  | LabelStart => dnsSubdomainPattern
  | AfterAlnum => Cat (Opt label_rest) more_labels
  | AfterDash => Cat label_rest more_labels
  end.

Lemma label_rest_cons c l :
  dns_or_dash c = true → re_match label_rest l → re_match label_rest (c :: l).
Proof.
  intros Hc (m & d & -> & Hm%star_cls_match & Hd)%cat_match. apply cat_match.
  exists (c :: m), d. split_and!; [done| |done]. apply star_cls_match. by constructor.
Qed.

Lemma label_rest_single c : dns_char c = true → re_match label_rest [c].
Proof.
  intros Hc. apply cat_match. exists [], [c]. split_and!; [done|constructor|by constructor].
Qed.

Lemma dns_run_match s l : dns_run s l = Some AfterAlnum → re_match (dns_lang s) l.
Proof.
  revert s. induction l as [|c l IH]; intros s.
  { simpl. intros [= ->]. apply cat_match. exists [], [].
    split_and!; [done|apply opt_match; by left|constructor]. }
  simpl. unfold dns_step. destruct (dns_char c) eqn:Hc.
  - intros (l1 & l2 & -> & Ho & Hm)%IH%cat_match. apply opt_match in Ho.
    assert (Hr : re_match label_rest (c :: l1)).
    { destruct Ho as [->|Hr]; [by apply label_rest_single|].
      apply label_rest_cons; [|done]. unfold dns_or_dash. by rewrite Hc. }
    destruct s; apply cat_match; exists (c :: l1), l2; split_and!; try done.
    + apply cat_match. exists [c], l1. split_and!; [done|by constructor|].
      apply opt_match. destruct Ho; [by left|by right].
    + apply opt_match. by right.
  - destruct s; [done|destruct (one_of "-" c) eqn:Hd|destruct (one_of "-" c) eqn:Hd; [|done]].
    + intros (l1 & l2 & -> & Ho & Hm)%IH%cat_match. apply cat_match. exists (c :: l1), l2.
      split_and!; [done| |done]. apply opt_match. right. apply label_rest_cons; [|done].
      unfold dns_or_dash. by rewrite Hd, orb_true_r.
    + destruct (one_of "." c) eqn:Hdot; [|done].
      intros (l1 & l2 & -> & Ho & Hm)%IH%cat_match. apply cat_match. exists [], (c :: l1 ++ l2).
      split_and!; [done|apply opt_match; by left|].
      rewrite app_comm_cons. constructor; [|done]. apply cat_match. exists [c], l1.
      split_and!; [done| |done]. constructor. apply one_of_dot in Hdot. by apply bool_decide_eq_true.
    + intros (l1 & l2 & -> & Ho & Hm)%IH%cat_match. apply cat_match. exists (c :: l1), l2.
      split_and!; [done| |done]. apply label_rest_cons; [|done].
      unfold dns_or_dash. by rewrite Hd, orb_true_r.
Qed.

(** A name is a subdomain when the automaton reads it and stops after an
    alphanumeric. *)
Lemma dns_match s :
  MatchString dnsSubdomainPattern s = true ↔ dns_run LabelStart (bytes s) = Some AfterAlnum.
Proof.
  unfold MatchString. fold (bytes s). rewrite matchb_spec. split; [apply dns_match_run|].
  apply (dns_run_match LabelStart).
Qed.

(** ** Cutting and appending *)
Lemma drop_while_spec p l :
  ∃ t, l = t ++ drop_while p l ∧ Forall (λ c, p c = true) t ∧
       ∀ c l', drop_while p l = c :: l' → p c = false.
Proof.
  induction l as [|c l (t & Heq & HF & Hh)]; simpl.
  { exists []. split_and!; [done|constructor|done]. }
  destruct (p c) eqn:Hp.
  - exists (c :: t). split_and!; [simpl; by f_equal|by constructor|done].
  - exists []. split_and!; [done|constructor|]. congruence.
Qed.

(** [TrimRight] removes a suffix made of the cutset. *)
Lemma TrimRight_spec s cutset :
  ∃ t, bytes s = bytes (TrimRight s cutset) ++ t ∧ Forall (λ c, one_of cutset c = true) t ∧
       ∀ l c, bytes (TrimRight s cutset) = l ++ [c] → one_of cutset c = false.
Proof.
  unfold TrimRight. rewrite bytes_of_bytes.
  destruct (drop_while_spec (one_of cutset) (rev (bytes s))) as (t & Heq & HF & Hh).
  exists (rev t). split_and!.
  - by rewrite <- rev_app_distr, <- Heq, rev_involutive.
  - by apply Forall_rev.
  - intros l c Hl. apply (f_equal (@rev ascii)) in Hl. rewrite rev_involutive, rev_app_distr in Hl.
    simpl in Hl. eauto.
Qed.

Lemma len_TrimRight s cutset : len (TrimRight s cutset) ≤ len s.
Proof.
  destruct (TrimRight_spec s cutset) as (t & Heq & _). rewrite !len_bytes, Heq, length_app. lia.
Qed.

Lemma dns_first c l s : dns_run LabelStart (c :: l) = Some s → dns_char c = true.
Proof. simpl. unfold dns_step. by destruct (dns_char c). Qed.

Lemma not_cut_alnum s c s' :
  dns_step s c = Some s' → one_of "-." c = false → s' = AfterAlnum.
Proof.
  unfold dns_step. destruct (dns_char c); [congruence|].
  assert (Hi : ∀ c, implb (one_of "-" c || one_of "." c) (one_of "-." c) = true).
  { apply all_ascii_forall. vm_compute. reflexivity. }
  specialize (Hi c). intros Hs Hc. rewrite Hc in Hi.
  destruct (one_of "-" c), (one_of "." c), s; simpl in *; congruence.
Qed.

Lemma dns_char_not_cut c : dns_char c = true → one_of "-." c = false.
Proof.
  assert (Hi : ∀ c, implb (dns_char c) (negb (one_of "-." c)) = true).
  { apply all_ascii_forall. vm_compute. reflexivity. }
  specialize (Hi c). intros Hc. rewrite Hc in Hi. by apply negb_true_iff in Hi.
Qed.

(** A valid name cut short and trimmed is a valid name. *)
Lemma dns_cut n s :
  1 ≤ n → MatchString dnsSubdomainPattern s = true →
  dns_run LabelStart (bytes (TrimRight (slice_to n s) "-.")) = Some AfterAlnum.
Proof.
  intros Hn Hs%dns_match. unfold slice_to.
  set (p := of_bytes (take n (bytes s))). destruct (TrimRight_spec p "-.") as (t & Heq & HF & Hlast).
  unfold p in Heq. rewrite bytes_of_bytes in Heq.
  rewrite <- (take_drop n (bytes s)), Heq, <- app_assoc, dns_run_app in Hs.
  fold p in Hs, Heq. destruct (dns_run LabelStart (bytes (TrimRight p "-."))) as [q|] eqn:Hq; [|done].
  destruct (bytes (TrimRight p "-.")) as [|c l _] eqn:Hb using rev_ind.
  - exfalso. simpl in *. injection Hq as <-. destruct t as [|c t].
    + destruct (bytes s) eqn:Hbs; [by rewrite drop_nil in Hs|]. destruct n; [lia|done].
    + apply Forall_cons in HF as [Hc _].
      assert (Hd : dns_char c = true).
      { simpl in Hs. unfold dns_step in Hs. by destruct (dns_char c). }
      apply dns_char_not_cut in Hd. congruence.
  - rewrite dns_run_app in Hq. destruct (dns_run LabelStart l) as [q'|]; [|done]. simpl in Hq.
    destruct (dns_step q' c) as [q''|] eqn:Hstep; [|done]. injection Hq as <-. f_equal.
    eapply not_cut_alnum; eauto.
Qed.

(** A dash and a word of lower-case letters and digits extend a valid name. *)
Lemma dns_extend l w :
  w ≠ [] → Forall (λ c, dns_char c = true) w → dns_run LabelStart l = Some AfterAlnum →
  dns_run LabelStart (l ++ "-"%char :: w) = Some AfterAlnum.
Proof.
  intros Hne HF Hl. rewrite dns_run_app, Hl. simpl.
  assert (Hw : ∀ s, dns_run s w = Some AfterAlnum); [|by apply (Hw AfterDash)].
  induction HF as [|c w Hc HF IH]; [done|]. intros s. simpl. unfold dns_step. rewrite Hc.
  destruct w; [done|]. by apply IH.
Qed.

Lemma hex_dns c : is_hex c = true → dns_char c = true.
Proof.
  assert (Hi : ∀ c, implb (is_hex c) (dns_char c) = true).
  { apply all_ascii_forall. vm_compute. reflexivity. }
  specialize (Hi c). intros Hc. by rewrite Hc in Hi.
Qed.

Lemma commit_hex s :
  MatchString commitPattern s = true →
  (len s = 40 ∨ len s = 64) ∧ Forall (λ c, is_hex c = true) (bytes s).
Proof.
  unfold MatchString. fold (bytes s). rewrite matchb_spec, len_bytes. unfold commitPattern.
  rewrite alt_match, !rep_cls_match. tauto.
Qed.
