(* ===== verification/Dispatcher.v ===== *)
(** * The dispatcher

    Models [operator/internal/dispatcher/dispatcher.go]: the leader-only loop
    that claims deliveries, re-fetches the commit of every App they concern and
    creates Builds.  The queue, the API server and the commit resolvers are
    calls with arbitrary replies.  A resolver error is [Unresolvable] when it
    wraps [ErrUnresolvable] (of either resolver package) and [ResolveFailed]
    otherwise.  Log lines are left out. *)
From S2P Require Import Prelude Regex GoStrings Effects Sha256 Kube Api Names Features.
From Stdlib Require Import Ascii.

(** ** Data *)
Definition DefaultPollInterval : Z := 5 * 1000000000.
Definition DefaultMaxConcurrentBuilds : Z := 5.
Definition managedByLabel : string := "app.kubernetes.io/managed-by".
Definition managedByValue : string := "orkano".
Definition maxNameLen : nat := 253.
Definition buildNameSHALen : nat := 12.
Definition manualEventType : string := "manual".
Definition pushEventType : string := "push".
Definition manualHashLen : nat := 8.

(** [^manual-[0-9a-f]{32}$] *)
Definition manualDeliveryIDPattern : re := Cat (Word "manual-") (Rep 32 (Cls is_hex)).
Definition manualAppNamePattern : re := dnsSubdomainPattern.

(** A claimed row; [Ack] and [Nack] are the calls that finalize it. *)
Record Delivery : Set := {
  del_ID : Z;
  del_DeliveryID : string;
  del_Repo : string;
  del_EventType : string;
  del_AppName : string;
}.

Inductive ResolveError : Set :=
| Unresolvable (err : string)
| ResolveFailed (err : string).

Inductive DispatchE : Set → Type :=
| ListBuilds : DispatchE (result ApiError (list Build))
| ListApps : DispatchE (result ApiError (list App))
| ClaimNext : DispatchE (result string (option Delivery))
| Ack (d : Delivery) : DispatchE (result string unit)
| Nack (d : Delivery) : DispatchE (result string unit)
| GitHubResolve (repo ref : string) : DispatchE (result ResolveError string)
| GitResolve (url ref : string) : DispatchE (result ResolveError string)
| CreateBuild (b : Build) : DispatchE (result ApiError unit).

Record Dispatcher : Type := {
  (** a [nil] resolver is not configured *)
  d_hasGitHub : bool;
  d_hasGit : bool;
  d_Features : FeatureSet;
  d_PollInterval : Z;
  d_MaxConcurrentBuilds : Z;
}.

Inductive DeliveryError : Set :=
| EmptyPointer (id : string)
| BadPushScope (id : string)
| BadManualScope (id : string)
| UnsupportedEvent (id event : string).

Inductive HandleError : Set :=
| InvalidDelivery (err : DeliveryError)
| ListingApps (repo : string) (err : ApiError)
| NoApp (repo : string)
| ResolvingCommit (namespace app : string) (err : ResolveError)
| CreatingBuild (namespace app : string) (err : ApiError)
| AllUnresolvable (repo : string).

Inductive ProcessError : Set :=
| Claiming (err : string)
| Handling (err : HandleError)
| Nacking (handleErr : option HandleError) (id err : string)
| Acking (id err : string).

(** ** Names and Builds *)
Definition buildNameWithSuffix (appName sha suffix : string) : string :=
  let short := if buildNameSHALen <? len sha then slice_to buildNameSHALen sha else sha in
  let tail := if decide (suffix = "") then short else short +:+ "-" +:+ suffix in
  let name := appName +:+ "-" +:+ tail in
  if len name <=? maxNameLen then name
  else
    let hash := EncodeToString (take 4 (Sum256 (bytes appName))) in
    let max := maxNameLen - len tail - len hash - 2 in
    let prefix := if max <? len appName then slice_to max appName else appName in
    TrimRight prefix "-." +:+ "-" +:+ hash +:+ "-" +:+ tail.

Definition buildName (appName sha : string) : string := buildNameWithSuffix appName sha "".

Definition buildNameForDelivery (appName sha : string) (d : Delivery) : string :=
  if decide (del_EventType d ≠ manualEventType) then buildName appName sha
  else
    let sum := EncodeToString (Sum256 (bytes (del_DeliveryID d))) in
    buildNameWithSuffix appName sha ("r" +:+ slice_to manualHashLen sum).

Definition buildFromApp (app : App) (sha name : string) : Build :=
  {| build_Meta := new_meta (meta_Namespace (app_Meta app)) name {[managedByLabel := managedByValue]} ∅;
     build_Spec := {| build_AppName := meta_Name (app_Meta app);
                      build_Commit := sha;
                      build_Source := app_Source (app_Spec app);
                      build_Strategy := app_Build (app_Spec app);
                      build_TimeoutSeconds := 0 |};
     build_Status := no_build_status |}.

Definition buildTerminal (b : Build) : bool :=
  bool_decide (build_Phase (build_Status b) = BuildSucceeded ∨
               build_Phase (build_Status b) = BuildFailed).

(** ** Validation and selection *)
Definition validateDelivery (d : Delivery) : option DeliveryError :=
  if decide (del_Repo d = "") then Some (EmptyPointer (del_DeliveryID d))
  else if decide (del_EventType d = pushEventType) then
    if bool_decide (del_DeliveryID d = "") || negb (bool_decide (del_AppName d = ""))
    then Some (BadPushScope (del_DeliveryID d)) else None
  else if decide (del_EventType d = manualEventType) then
    if negb (MatchString manualDeliveryIDPattern (del_DeliveryID d)) ||
       negb (MatchString manualAppNamePattern (del_AppName d)) || (253 <? len (del_AppName d))
    then Some (BadManualScope (del_DeliveryID d)) else None
  else Some (UnsupportedEvent (del_DeliveryID d) (del_EventType d)).

Section dispatcher.
Context `{UnicodeTables} (d : Dispatcher).

Definition resolveCommit (app : App) : prog DispatchE (result ResolveError string) :=
  let source := app_Source (app_Spec app) in
  match source_GitHub source, source_Git source, source_Upload source with
  | Some github, _, _ =>
      if d_hasGitHub d then trigger (GitHubResolve (github_Repo github) (github_Ref github))
      else Ret (Err (ResolveFailed "GitHub commit resolver is not configured"))
  | None, Some git, _ =>
      if d_hasGit d then trigger (GitResolve (git_URL git) (git_Ref git))
      else Ret (Err (ResolveFailed "generic Git commit resolver is not configured"))
  | None, None, Some upload => Ret (Ok (TrimPrefix (upload_Digest upload) "sha256:"))
  | None, None, None =>
      Ret (Err (Unresolvable ("app " +:+ meta_Name (app_Meta app) +:+ " has no source")))
  end.

(** Apps of a repository, compared case-insensitively. *)
Definition repo_matches (repo : string) (app : App) : bool :=
  match source_GitHub (app_Source (app_Spec app)) with
  | Some github => bool_decide (ToLower (github_Repo github) = ToLower (TrimSpace repo))
  | None => false
  end.

Definition appsForRepo (repo : string) : prog DispatchE (result ApiError (list App)) :=
  let! apps := trigger ListApps in
  Ret (map_ok (filter (λ app, repo_matches repo app = true)) apps).

Definition find_app (name : string) (apps : list App) : list App :=
  match list_find (λ app, meta_Name (app_Meta app) = name) apps with
  | Some (_, app) => [app]
  | None => []
  end.

Definition appsForDelivery (del : Delivery) : prog DispatchE (result ApiError (list App)) :=
  if decide (del_AppName del = "") then appsForRepo (del_Repo del)
  else
    let! apps := trigger ListApps in
    Ret (map_ok (find_app (del_AppName del)) apps).

(** ** Creating Builds *)
Definition createBuild (app : App) (sha : string) (del : Delivery)
    : prog DispatchE (result ApiError unit) :=
  let build := buildFromApp app sha (buildNameForDelivery (meta_Name (app_Meta app)) sha del) in
  let! r := trigger (CreateBuild build) in
  Ret (match r with
       | Err e => if IsAlreadyExists e then Ok () else Err e
       | Ok _ => Ok ()
       end).

(** The loop of [handle]: the number of unresolvable Apps, or the transient
    failure that ends it. *)
Fixpoint handle_apps (del : Delivery) (apps : list App) (unresolvable : nat)
    : prog DispatchE (result HandleError nat) :=
  match apps with
  | [] => Ret (Ok unresolvable)
  | app :: apps =>
      match ValidateApp (d_Features d) (app_Spec app) with
      | Some _ => handle_apps del apps (S unresolvable)
      | None =>
          let! r := resolveCommit app in
          match r with
          | Err (Unresolvable _) => handle_apps del apps (S unresolvable)
          | Err e => Ret (Err (ResolvingCommit (meta_Namespace (app_Meta app)) (meta_Name (app_Meta app)) e))
          | Ok sha =>
              let! c := createBuild app sha del in
              match c with
              | Err e => Ret (Err (CreatingBuild (meta_Namespace (app_Meta app)) (meta_Name (app_Meta app)) e))
              | Ok _ => handle_apps del apps unresolvable
              end
          end
      end
  end.

(** [(ack, err)] *)
Definition handle (del : Delivery) : prog DispatchE (bool * option HandleError) :=
  match validateDelivery del with
  | Some err => Ret (true, Some (InvalidDelivery err))
  | None =>
      let! r := appsForDelivery del in
      match r with
      | Err e => Ret (false, Some (ListingApps (del_Repo del) e))
      | Ok [] => Ret (true, Some (NoApp (del_Repo del)))
      | Ok apps =>
          let! u := handle_apps del apps 0 in
          Ret (match u with
               | Err e => (false, Some e)
               | Ok u =>
                   if decide (u = length apps) then (true, Some (AllUnresolvable (del_Repo del)))
                   else (true, None)
               end)
      end
  end.

(** ** The loop *)
Definition processOne : prog DispatchE (bool * option ProcessError) :=
  let! claimed := trigger ClaimNext in
  match claimed with
  | Err e => Ret (false, Some (Claiming e))
  | Ok None => Ret (false, None)
  | Ok (Some del) =>
      let! h := handle del in
      let '(ack, handleErr) := h in
      if negb ack then
        let! n := trigger (Nack del) in
        Ret (match n with
             | Err e => (false, Some (Nacking handleErr (del_DeliveryID del) e))
             | Ok _ => (false, Handling <$> handleErr)
             end)
      else
        let! a := trigger (Ack del) in
        Ret (match a with
             | Err e => (false, Some (Acking (del_DeliveryID del) e))
             | Ok _ => (true, None)
             end)
  end.

Definition budget : prog DispatchE (result ApiError Z) :=
  let! r := trigger ListBuilds in
  Ret (map_ok (λ builds,
    let inflight := Z.of_nat (length (filter (λ b, buildTerminal b = false) builds)) in
    let budget := i64 (d_MaxConcurrentBuilds d - inflight) in
    if decide (0 < budget)%Z then budget else 0%Z) r).

Fixpoint tick_loop (n : nat) : prog DispatchE unit :=
  match n with
  | 0 => Ret ()
  | S n =>
      let! r := processOne in
      match r with
      | (_, Some _) => Ret ()
      | (false, None) => Ret ()
      | (true, None) => tick_loop n
      end
  end.

Definition tick : prog DispatchE unit :=
  let! r := budget in
  match r with
  | Err _ => Ret ()
  | Ok budget => tick_loop (Z.to_nat budget)
  end.
End dispatcher.

(** The defaults [Start] applies before its loop. *)
Definition Start_defaults (d : Dispatcher) : Dispatcher :=
  {| d_hasGitHub := d_hasGitHub d; d_hasGit := d_hasGit d; d_Features := d_Features d;
     d_PollInterval :=
       if decide (d_PollInterval d ≤ 0)%Z then DefaultPollInterval else d_PollInterval d;
     d_MaxConcurrentBuilds :=
       if decide (d_MaxConcurrentBuilds d ≤ 0)%Z then DefaultMaxConcurrentBuilds
       else d_MaxConcurrentBuilds d |}.

(** ** Observing executions *)
Definition created (c : call DispatchE) : option (Build * result ApiError unit) :=
  match c with
  | Call e x =>
      match e in DispatchE X return X → _ with
      | CreateBuild b => λ x, Some (b, x)
      | _ => λ _, None
      end x
  end.

(** The finalizing calls: [true] for [Ack]. *)
Definition finalized (c : call DispatchE) : option (Delivery * bool) :=
  match c with
  | Call (Ack del) _ => Some (del, true)
  | Call (Nack del) _ => Some (del, false)
  | _ => None
  end.

Definition claimed (c : call DispatchE) : option (result string (option Delivery)) :=
  match c with
  | Call e x =>
      match e in DispatchE X return X → _ with
      | ClaimNext => λ x, Some x
      | _ => λ _, None
      end x
  end.

(** [sub] is a contiguous part of [tr]. *)
Definition during (tr sub : list (call DispatchE)) : Prop := ∃ a c, tr = a ++ sub ++ c.

Lemma during_refl tr : during tr tr.
Proof. exists [], []. by rewrite app_nil_r. Qed.

Lemma during_app_l tr1 tr2 sub : during tr1 sub → during (tr1 ++ tr2) sub.
Proof. intros (a & c & ->). exists a, (c ++ tr2). by rewrite <- !app_assoc. Qed.

Lemma during_app_r tr1 tr2 sub : during tr2 sub → during (tr1 ++ tr2) sub.
Proof. intros (a & c & ->). exists (tr1 ++ a), c. by rewrite <- !app_assoc. Qed.
#[export] Hint Resolve during_refl during_app_l during_app_r : orkano.

(** ** Handling one delivery *)
Section handle.
Context `{UnicodeTables} (d : Dispatcher).

(** The Build a delivery asks for. *)
Definition build_for (app : App) (sha : string) (del : Delivery) : Build :=
  buildFromApp app sha (buildNameForDelivery (meta_Name (app_Meta app)) sha del).

(** The Apps a delivery is about. *)
Definition targets (del : Delivery) (app : App) : Prop :=
  if decide (del_AppName del = "") then repo_matches (del_Repo del) app = true
  else meta_Name (app_Meta app) = del_AppName del.

(** Nothing more will come of [app] for this delivery: it uses a disabled
    feature, its source never resolves, or the Build exists. *)
Definition settled (tr : list (call DispatchE)) (del : Delivery) (app : App) : Prop :=
  ValidateApp (d_Features d) (app_Spec app) ≠ None ∨
  (∃ sub e, during tr sub ∧ exec (resolveCommit d app) sub (Err (Unresolvable e))) ∨
  (∃ sub sha x, exec (resolveCommit d app) sub (Ok sha) ∧
    during tr (sub ++ [Call (CreateBuild (build_for app sha del)) x]) ∧
    (x = Ok () ∨ ∃ text, x = Err (AlreadyExists text))).

(** A Build the code created: the snapshot of a permitted App at the commit its
    own source resolved to just before. *)
Definition genuine (tr : list (call DispatchE)) (del : Delivery) (app : App) (b : Build) : Prop :=
  ValidateApp (d_Features d) (app_Spec app) = None ∧
  ∃ sub sha x, exec (resolveCommit d app) sub (Ok sha) ∧
    during tr (sub ++ [Call (CreateBuild b) x]) ∧ b = build_for app sha del.

Lemma settled_mono tr1 tr2 del app :
  settled tr1 del app ∨ settled tr2 del app → settled (tr1 ++ tr2) del app.
Proof.
  unfold settled. intros [Hs|Hs]; (destruct Hs as [?|[(sub & e & ? & ?)|(sub & sha & x & ? & ? & ?)]];
    [by left|right; left; exists sub, e|right; right; exists sub, sha, x]); eauto with orkano.
Qed.

Lemma genuine_mono tr1 tr2 del app b :
  genuine tr1 del app b ∨ genuine tr2 del app b → genuine (tr1 ++ tr2) del app b.
Proof.
  unfold genuine. intros [(Hv & sub & sha & x & ? & ? & ?)|(Hv & sub & sha & x & ? & ? & ?)];
    split; try done; exists sub, sha, x; eauto with orkano.
Qed.

(** Resolving a commit only asks a resolver. *)
Lemma resolveCommit_quiet app tr r :
  exec (resolveCommit d app) tr r →
  omap created tr = [] ∧ omap finalized tr = [] ∧ omap claimed tr = [].
Proof.
  unfold resolveCommit. repeat case_match; intros Hx;
    (destruct Hx as [-> _] || destruct Hx as (x & tr' & -> & -> & _)); done.
Qed.

Lemma createBuild_inv app sha del tr r :
  exec (createBuild app sha del) tr r →
  ∃ x, tr = [Call (CreateBuild (build_for app sha del)) x] ∧
    (r = Ok () ∧ (x = Ok () ∨ ∃ text, x = Err (AlreadyExists text)) ∨
     ∃ e, r = Err e ∧ x = Err e).
Proof.
  intros (x & tr' & -> & -> & ->). exists x. split; [done|].
  destruct x as [[]|[]]; simpl; eauto 6.
Qed.

Lemma created_cons_quiet sub b x (tr : list (call DispatchE)) :
  omap created sub = [] → omap created ((sub ++ [Call (CreateBuild b) x]) ++ tr) = (b, x) :: omap created tr.
Proof. intros Hs. by rewrite !omap_app, Hs. Qed.

(** The loop over the Apps: it only resolves and creates; everything it creates
    is genuine; and when it ends normally every App is settled. *)
Lemma handle_apps_spec del apps u tr r :
  exec (handle_apps d del apps u) tr r →
  omap finalized tr = [] ∧ omap claimed tr = [] ∧
  (∀ b x, (b, x) ∈ omap created tr → ∃ app, app ∈ apps ∧ genuine tr del app b) ∧
  (∀ n, r = Ok n → ∀ app, app ∈ apps → settled tr del app).
Proof.
  revert u tr. induction apps as [|app apps IH]; intros u tr; cbn [handle_apps].
  { intros [-> ->]. split_and!; [done..|by intros ? ? ?%not_elem_of_nil|].
    by intros ? _ ? ?%not_elem_of_nil. }
  destruct (ValidateApp (d_Features d) (app_Spec app)) eqn:Hv.
  { intros (Hf & Hc & Hg & Hs)%IH. split_and!; [done..| |].
    - intros b x Hb. destruct (Hg b x Hb) as (app' & ? & ?). exists app'. split; [by right|done].
    - intros n Hn app' [->|Hin]%elem_of_cons; [left; by rewrite Hv|by eapply Hs]. }
  rewrite exec_bind. intros (sub & tr2 & res & -> & Hres & Hk).
  destruct (resolveCommit_quiet _ _ _ Hres) as (Hq1 & Hq2 & Hq3).
  destruct res as [sha|[e|e]].
  - apply exec_bind in Hk as (tr3 & tr4 & c & -> & (x & -> & Hx)%createBuild_inv & Hk).
    rewrite app_assoc.
    assert (Hgen : genuine (sub ++ [Call (CreateBuild (build_for app sha del)) x]) del app
      (build_for app sha del)).
    { split; [done|]. exists sub, sha, x. eauto with orkano. }
    destruct Hx as [(-> & Hx)|(e & -> & ->)].
    + destruct (IH _ _ Hk) as (Hf & Hc & Hg & Hs).
      rewrite (created_cons_quiet _ _ _ _ Hq1), !omap_app, Hq2, Hq3. simpl. split_and!; [done..| |].
      * intros b y [[= -> ->]|Hb]%elem_of_cons.
        -- exists app. split; [by left|]. apply genuine_mono. by left.
        -- destruct (Hg b y Hb) as (app' & ? & ?). exists app'. split; [by right|].
           apply genuine_mono. by right.
      * intros n Hn app' [->|Hin]%elem_of_cons; apply settled_mono; [left|right; by eapply Hs].
        right; right. exists sub, sha, x. eauto with orkano.
    + destruct Hk as [-> ->]. rewrite (created_cons_quiet _ _ _ _ Hq1), !omap_app, Hq2, Hq3.
      simpl. split_and!; [done..| |done]. intros b y [= -> ->]%list_elem_of_singleton.
      exists app. split; [by left|]. by rewrite app_nil_r.
  - destruct (IH _ _ Hk) as (Hf & Hc & Hg & Hs). rewrite !omap_app, Hq1, Hq2, Hq3. simpl.
    split_and!; [done..| |].
    + intros b x Hb. destruct (Hg b x Hb) as (app' & ? & ?). exists app'. split; [by right|].
      apply genuine_mono. by right.
    + intros n Hn app' [->|Hin]%elem_of_cons; apply settled_mono; [left|right; by eapply Hs].
      right; left. exists sub, e. eauto with orkano.
  - destruct Hk as [-> ->]. rewrite app_nil_r, Hq1, Hq2, Hq3.
    split_and!; [done..|by intros ? ? ?%not_elem_of_nil|done].
Qed.

(** The Apps [appsForDelivery] picks from a list. *)
Definition selected (del : Delivery) (apps : list App) : list App :=
  if decide (del_AppName del = "") then filter (λ app, repo_matches (del_Repo del) app = true) apps
  else find_app (del_AppName del) apps.

Lemma selected_targets del apps app :
  app ∈ selected del apps → app ∈ apps ∧ targets del app.
Proof.
  unfold selected, targets. case_decide; [by rewrite list_elem_of_filter; intros [? ?]|].
  unfold find_app. destruct (list_find _ _) as [[i app']|] eqn:Hl; [|by intros ?%not_elem_of_nil].
  intros ->%list_elem_of_singleton. apply list_find_Some in Hl as (Hi & Hn & _).
  split; [by eapply list_elem_of_lookup_2|done].
Qed.

Lemma appsForDelivery_inv del tr r :
  exec (appsForDelivery del) tr r → ∃ x, tr = [Call ListApps x] ∧ r = map_ok (selected del) x.
Proof.
  unfold appsForDelivery, appsForRepo, selected. case_decide; intros (x & tr' & -> & -> & ->); eauto.
Qed.

Lemma handle_spec del tr ack err :
  exec (handle d del) tr (ack, err) →
  omap finalized tr = [] ∧ omap claimed tr = [] ∧
  (∀ b x, (b, x) ∈ omap created tr → validateDelivery del = None ∧
    ∃ apps app, during tr [Call ListApps (Ok apps)] ∧ app ∈ selected del apps ∧ genuine tr del app b) ∧
  (ack = true → validateDelivery del ≠ None ∨
    ∃ apps, during tr [Call ListApps (Ok apps)] ∧ ∀ app, app ∈ selected del apps → settled tr del app).
Proof.
  assert (Hnone : ∀ (b : Build) (x : result ApiError unit), (b, x) ∉ ([] : list (Build * _)))
    by (intros ? ?; apply not_elem_of_nil).
  unfold handle. destruct (validateDelivery del) eqn:Hv.
  { intros [-> [= -> ->]]. split_and!; [done..|by intros ? ? ?%Hnone|by left]. }
  rewrite exec_bind. intros (tr1 & tr2 & r & -> & (x & -> & ->)%appsForDelivery_inv & Hk).
  destruct x as [apps|e]; simpl in Hk.
  2:{ destruct Hk as [-> [= -> ->]]. split_and!; [done..|by intros ? ? ?%Hnone|done]. }
  destruct (selected del apps) as [|app0 apps0] eqn:Hsel.
  { destruct Hk as [-> [= -> ->]]. split_and!; [done..|by intros ? ? ?%Hnone|].
    intros _. right. exists apps. rewrite Hsel. split; [apply during_refl|].
    by intros ? ?%not_elem_of_nil. }
  rewrite <- Hsel in Hk. apply exec_bind in Hk as (tr3 & tr4 & u & -> & Hk & [-> Hret]).
  destruct (handle_apps_spec _ _ _ _ _ Hk) as (Hf & Hc & Hg & Hs). rewrite app_nil_r, !omap_app.
  split_and!; [done..| |].
  - intros b y Hb. destruct (Hg b y Hb) as (app & Hin & Hgen). split; [done|]. exists apps, app.
    split_and!; [apply during_app_l, during_refl|done|]. apply genuine_mono. by right.
  - intros ->. right. exists apps. split; [apply during_app_l, during_refl|].
    intros app Hin. apply settled_mono. right. destruct u as [n|e]; [by eapply Hs|done].
Qed.

(** One round of the loop: claim, handle, finalize. *)
Lemma processOne_spec tr p err :
  exec (processOne d) tr (p, err) →
  ∃ c tr', tr = Call ClaimNext c :: tr' ∧
    match c with
    | Ok (Some del) => ∃ mid ack herr x, exec (handle d del) mid (ack, herr) ∧
        tr' = mid ++ [Call (if ack then Ack del else Nack del) x] ∧
        (p = true ↔ ack = true ∧ is_ok x = true)
    | _ => tr' = [] ∧ p = false
    end.
Proof.
  intros (c & tr' & -> & Hk). exists c, tr'. split; [done|]. cbn [prog_bind] in Hk.
  destruct c as [[del|]|e]; [|by destruct Hk as [-> [= -> ->]]..].
  apply exec_bind in Hk as (mid & tr2 & [ack herr] & -> & Hh & Hk).
  destruct ack; simpl in Hk; destruct Hk as (x & tr3 & -> & -> & Hret);
    exists mid; [exists true|exists false]; exists herr, x; (split_and!; [done..|]);
    destruct x; simplify_eq; naive_solver.
Qed.
End handle.

(** ** Build names *)
Definition short_sha (sha : string) : string :=
  if buildNameSHALen <? len sha then slice_to buildNameSHALen sha else sha.
Definition name_tail (sha suffix : string) : string :=
  if decide (suffix = "") then short_sha sha else short_sha sha +:+ "-" +:+ suffix.
Definition delivery_suffix (del : Delivery) : string :=
  if decide (del_EventType del ≠ manualEventType) then ""
  else "r" +:+ slice_to manualHashLen (EncodeToString (Sum256 (bytes (del_DeliveryID del)))).

Lemma buildNameForDelivery_suffix appName sha del :
  buildNameForDelivery appName sha del = buildNameWithSuffix appName sha (delivery_suffix del).
Proof. unfold buildNameForDelivery, delivery_suffix, buildName. by case_decide. Qed.

Lemma short_sha_spec sha :
  MatchString commitPattern sha = true →
  short_sha sha = slice_to 12 sha ∧ len (short_sha sha) = 12 ∧
  Forall (λ c, is_hex c = true) (bytes (short_sha sha)).
Proof.
  intros [Hl HF]%commit_hex. unfold short_sha, buildNameSHALen.
  rewrite (proj2 (Nat.ltb_lt 12 (len sha))) by lia. split_and!; [done| |].
  - rewrite len_slice_to. lia.
  - unfold slice_to. rewrite bytes_of_bytes. by apply Forall_take.
Qed.

Lemma delivery_suffix_spec del :
  delivery_suffix del = "" ∨
  ∃ h, bytes (delivery_suffix del) = "r"%char :: h ∧ length h = 8 ∧ Forall (λ c, is_hex c = true) h.
Proof.
  unfold delivery_suffix. case_decide; [by left|right].
  pose proof (EncodeToString_hex (Sum256 (bytes (del_DeliveryID del)))) as HF.
  pose proof (len_EncodeToString (Sum256 (bytes (del_DeliveryID del)))) as Hl.
  rewrite length_Sum256 in Hl. exists (bytes (slice_to manualHashLen (EncodeToString
    (Sum256 (bytes (del_DeliveryID del)))))). split_and!; [done| |].
  - rewrite <- len_bytes, len_slice_to, Hl. done.
  - unfold slice_to. rewrite bytes_of_bytes. by apply Forall_take.
Qed.

(** A derived name is a valid name, a dash and the tail, within the limit. *)
Lemma buildName_shape appName sha suffix :
  MatchString dnsSubdomainPattern appName = true → len (name_tail sha suffix) ≤ 22 →
  ∃ pre, bytes (buildNameWithSuffix appName sha suffix) = pre ++ "-"%char :: bytes (name_tail sha suffix) ∧
    dns_run LabelStart pre = Some AfterAlnum ∧ len (buildNameWithSuffix appName sha suffix) ≤ 253.
Proof.
  intros Ha Ht. unfold buildNameWithSuffix. fold (short_sha sha). fold (name_tail sha suffix).
  set (tail := name_tail sha suffix) in *. set (hash := EncodeToString _).
  assert (Hh : len hash = 8).
  { unfold hash. rewrite len_EncodeToString, length_take, length_Sum256. done. }
  assert (Hhex : Forall (λ c, dns_char c = true) (bytes hash)).
  { eapply Forall_impl; [apply EncodeToString_hex|]. apply hex_dns. }
  destruct (len (appName +:+ "-" +:+ tail) <=? maxNameLen) eqn:Hfit; unfold maxNameLen in *.
  - apply Nat.leb_le in Hfit. exists (bytes appName). split_and!; [by rewrite !bytes_app|by apply dns_match|done].
  - apply Nat.leb_gt in Hfit. rewrite !len_app in Hfit. change (len "-") with 1 in Hfit.
    rewrite (proj2 (Nat.ltb_lt _ _)) by lia.
    set (n := 253 - len tail - len hash - 2).
    exists (bytes (TrimRight (slice_to n appName) "-.") ++ "-"%char :: bytes hash). split_and!.
    + by rewrite !bytes_app, <- !app_assoc.
    + apply dns_extend; [|done|apply dns_cut; [lia|done]].
      intros Hn. rewrite len_bytes, Hn in Hh. done.
    + rewrite !len_app. change (len "-") with 1.
      pose proof (len_TrimRight (slice_to n appName) "-.") as Hl. rewrite len_slice_to in Hl. lia.
Qed.

Lemma name_tail_spec sha del :
  MatchString commitPattern sha = true →
  len (name_tail sha (delivery_suffix del)) ≤ 22 ∧
  ∀ l, dns_run LabelStart l = Some AfterAlnum →
    dns_run LabelStart (l ++ "-"%char :: bytes (name_tail sha (delivery_suffix del))) = Some AfterAlnum.
Proof.
  intros (_ & Hl & HF)%short_sha_spec.
  assert (Hne : bytes (short_sha sha) ≠ []).
  { intros Hn. rewrite len_bytes, Hn in Hl. done. }
  assert (HF' : Forall (λ c, dns_char c = true) (bytes (short_sha sha))).
  { eapply Forall_impl; [exact HF|]. apply hex_dns. }
  unfold name_tail. destruct (delivery_suffix_spec del) as [->|(h & Hb & Hlh & HFh)].
  { rewrite decide_True by done. split; [lia|]. intros l Hrun. by apply dns_extend. }
  rewrite decide_False by (intros Hn; rewrite Hn in Hb; done). split.
  - rewrite !len_app, Hl, (len_bytes (delivery_suffix del)), Hb. simpl. unfold len. simpl. lia.
  - intros l Hrun. rewrite !bytes_app, Hb. simpl. rewrite app_comm_cons, app_assoc.
    apply dns_extend; [done| |by apply dns_extend].
    constructor; [done|]. eapply Forall_impl; [exact HFh|]. apply hex_dns.
Qed.

(** A push tail and a manual tail never end the same name. *)
Lemma mixed_tails (l1 l2 s1 s2 h : list ascii) :
  length s1 = 12 → length s2 = 12 → length h = 8 → Forall (λ c, is_hex c = true) s1 →
  l1 ++ "-"%char :: s1 = l2 ++ "-"%char :: s2 ++ "-"%char :: "r"%char :: h → False.
Proof.
  intros H1 H2 Hh HF Heq. rewrite <- (take_drop 10 s2) in Heq.
  assert (Heq' : (l1 ++ ["-"%char]) ++ s1 =
    (l2 ++ "-"%char :: take 10 s2) ++ (drop 10 s2 ++ "-"%char :: "r"%char :: h)).
  { rewrite <- !app_assoc. simpl. rewrite Heq. by rewrite <- !app_assoc. }
  apply app_inj_2 in Heq' as [_ ->].
  - apply Forall_app in HF as [_ HF]. by apply Forall_cons in HF as [? _].
  - rewrite length_app, length_drop. simpl. lia.
Qed.

(** Two tails end two equal names only if they agree. *)
Lemma name_tail_inj sha1 sha2 del1 del2 l1 l2 :
  MatchString commitPattern sha1 = true → MatchString commitPattern sha2 = true →
  l1 ++ "-"%char :: bytes (name_tail sha1 (delivery_suffix del1)) =
  l2 ++ "-"%char :: bytes (name_tail sha2 (delivery_suffix del2)) →
  short_sha sha1 = short_sha sha2 ∧ delivery_suffix del1 = delivery_suffix del2.
Proof.
  intros (_ & H1 & HF1)%short_sha_spec (_ & H2 & HF2)%short_sha_spec. rewrite len_bytes in H1, H2.
  assert (Hsame : ∀ t1 t2 : list ascii, length t1 = length t2 →
    l1 ++ "-"%char :: t1 = l2 ++ "-"%char :: t2 → t1 = t2).
  { intros t1 t2 Hl [_ Heq]%app_inj_2; [by injection Heq|simpl; lia]. }
  unfold name_tail.
  destruct (delivery_suffix_spec del1) as [E1|(h1 & Hb1 & Hl1 & Hh1)];
    destruct (delivery_suffix_spec del2) as [E2|(h2 & Hb2 & Hl2 & Hh2)];
    [rewrite E1, E2, !decide_True by done|
     rewrite E1, decide_True, decide_False by (done || intros Hn; by rewrite Hn in Hb2)|
     rewrite E2, decide_False, decide_True by (done || intros Hn; by rewrite Hn in Hb1)|
     rewrite !decide_False by (intros Hn; by rewrite Hn in *)];
    rewrite ?bytes_app, ?Hb1, ?Hb2; intros Heq.
  - split; [|done]. apply bytes_inj, Hsame; [lia|done].
  - exfalso. apply (mixed_tails l1 l2 _ _ h2 H1 H2 Hl2 HF1 Heq).
  - exfalso. apply (mixed_tails l2 l1 _ _ h1 H2 H1 Hl1 HF2 (eq_sym Heq)).
  - apply Hsame in Heq; [|rewrite !length_app; simpl; lia].
    apply app_inj_1 in Heq as [Hs Hr]; [|lia]. split; apply bytes_inj; [done|].
    rewrite Hb1, Hb2. simpl in Hr. by injection Hr as ->.
Qed.

(** ** Properties *)
Section properties.
Context `{UnicodeTables} (d : Dispatcher).

Lemma processOne_claims tr p err :
  exec (processOne d) tr (p, err) → length (omap claimed tr) = 1.
Proof.
  intros (c & tr' & -> & Hc)%processOne_spec. simpl. f_equal.
  destruct c as [[del|]|e]; [|destruct Hc as [-> _]; done..].
  destruct Hc as (mid & ack & herr & x & Hh & -> & _). rewrite omap_app.
  destruct (handle_spec _ _ _ _ _ Hh) as (_ & -> & _). by destruct ack.
Qed.

Lemma tick_loop_claims n tr u : exec (tick_loop d n) tr u → length (omap claimed tr) ≤ n.
Proof.
  revert tr. induction n as [|n IH]; intros tr; cbn [tick_loop].
  { intros [-> _]. done. }
  rewrite exec_bind. intros (tr1 & tr2 & [p err] & -> & H1%processOne_claims & H2).
  rewrite omap_app, length_app, H1.
  destruct p, err; try (destruct H2 as [-> _]; simpl; lia). specialize (IH _ H2). lia.
Qed.

(** No delivery is lost: a round that claims a delivery finalizes exactly
    that one, last, by an Ack or a Nack; it acknowledges only a delivery that is
    malformed or every App of which is settled: uses a disabled feature, has a
    source that never resolves, or has its Build created or already there. *)
Theorem processOne_no_loss tr p err del :
  exec (processOne d) tr (p, err) → head tr = Some (Call ClaimNext (Ok (Some del))) →
  ∃ ack, omap finalized tr = [(del, ack)] ∧ (last tr ≫= finalized) = Some (del, ack) ∧
    (p = true → ack = true) ∧
    (ack = true → validateDelivery del ≠ None ∨
      ∃ apps, during tr [Call ListApps (Ok apps)] ∧
        ∀ app, app ∈ selected del apps → settled d tr del app).
Proof.
  intros (c & tr' & -> & Hc)%processOne_spec Hhead. simpl in Hhead.
  apply (f_equal (λ o, o ≫= claimed)) in Hhead. simpl in Hhead. injection Hhead as ->.
  destruct Hc as (mid & ack & herr & x & Hh & -> & Hp). exists ack.
  destruct (handle_spec _ _ _ _ _ Hh) as (Hf & _ & _ & Hs). split_and!.
  - simpl. rewrite omap_app, Hf. by destruct ack.
  - rewrite app_comm_cons, last_snoc. by destruct ack.
  - naive_solver.
  - intros Hack. destruct (Hs Hack) as [?|(apps & Hd & Happs)]; [by left|right]. exists apps.
    assert (Hext : ∀ sub, during mid sub → during (Call ClaimNext (Ok (Some del)) ::
      mid ++ [Call (if ack then Ack del else Nack del) x]) sub).
    { intros sub Hsub. apply (during_app_r [_]), during_app_l, Hsub. }
    split; [by apply Hext|]. intros app Hin.
    apply (settled_mono d [_]). right. apply settled_mono. left. by apply Happs.
Qed.

(** C4. Builds come from Apps, never from the payload: every Build a round
    creates snapshots the source and strategy of an App the claimed, well-formed
    delivery is about (the one named App of a manual request; for a push, an App
    whose GitHub repository is the delivery's, up to case) whose features are all
    enabled, pinned to the commit that App's own source resolved to just before. *)
Theorem processOne_builds_genuine tr p err b x :
  exec (processOne d) tr (p, err) → (b, x) ∈ omap created tr →
  ∃ del apps app, head tr = Some (Call ClaimNext (Ok (Some del))) ∧
    validateDelivery del = None ∧ during tr [Call ListApps (Ok apps)] ∧
    app ∈ apps ∧ targets del app ∧ genuine d tr del app b.
Proof.
  intros (c & tr' & -> & Hc)%processOne_spec Hin. simpl in Hin.
  destruct c as [[del|]|e]; [|destruct Hc as [-> _]; by apply not_elem_of_nil in Hin..].
  destruct Hc as (mid & ack & herr & y & Hh & -> & _).
  destruct (handle_spec _ _ _ _ _ Hh) as (_ & _ & Hg & _).
  assert (Hmid : (b, x) ∈ omap created mid).
  { rewrite omap_app in Hin. destruct ack; simpl in Hin; by rewrite app_nil_r in Hin. }
  destruct (Hg _ _ Hmid) as (Hv & apps & app & Hd & [Happ Ht]%selected_targets & Hgen).
  exists del, apps, app. split_and!; [done..| |done|done|].
  - apply (during_app_r [_]), during_app_l, Hd.
  - apply (genuine_mono d [_]). right. apply genuine_mono. by left.
Qed.

(** A tick claims at most as many deliveries as the in-flight cap has room
    for: the configured maximum (or its default) minus the Builds listed as not
    finished, none when the cap is reached or the listing fails. *)
Theorem tick_budget tr u :
  in_i64 (d_MaxConcurrentBuilds d) → exec (tick (Start_defaults d)) tr u →
  ∃ r tr', tr = Call ListBuilds r :: tr' ∧
    match r with
    | Err _ => tr' = []
    | Ok builds =>
        (Z.of_nat (length builds) ≤ i64_max)%Z →
        (Z.of_nat (length (omap claimed tr')) ≤
          Z.max 0 (d_MaxConcurrentBuilds (Start_defaults d) -
                   Z.of_nat (length (filter (λ b, buildTerminal b = false) builds))))%Z
    end.
Proof.
  intros Hmax (r & tr' & -> & He). exists r, tr'. split; [done|]. cbn [prog_bind] in He.
  destruct r as [builds|e]; [|by destruct He as [-> _]]. intros Hlen. simpl in He.
  apply tick_loop_claims in He. revert He.
  pose proof (length_filter (λ b, buildTerminal b = false) builds) as Hfl.
  set (m := if decide (d_MaxConcurrentBuilds d ≤ 0)%Z then _ else _).
  assert (Hm : (1 ≤ m ≤ i64_max)%Z).
  { unfold m, in_i64, i64_max, DefaultMaxConcurrentBuilds in *. case_decide; lia. }
  change (d_MaxConcurrentBuilds (Start_defaults d)) with m. clearbody m.
  set (inflight := length _) in *. clearbody inflight.
  rewrite i64_id by (unfold in_i64, i64_min, i64_max in *; lia). case_decide; lia.
Qed.
End properties.

(** The name of a Build is always a legal object name: for any App with a
    legal name and any resolved commit it is a DNS-1123 subdomain of at most 253
    bytes, also when the App name has to be cut and hashed. *)
Theorem buildName_valid appName sha del :
  MatchString dnsSubdomainPattern appName = true → MatchString commitPattern sha = true →
  MatchString dnsSubdomainPattern (buildNameForDelivery appName sha del) = true ∧
  len (buildNameForDelivery appName sha del) ≤ 253.
Proof.
  intros Ha Hs. rewrite buildNameForDelivery_suffix.
  destruct (name_tail_spec sha del Hs) as [Hl Hrun].
  destruct (buildName_shape appName sha (delivery_suffix del) Ha Hl) as (pre & Hb & Hpre & Hlen).
  split; [|done]. apply dns_match. rewrite Hb. by apply Hrun.
Qed.

(** Names converge and separate as intended: for one App the names of two
    deliveries are equal only if the commits agree on their first twelve digits
    and the deliveries are both pushes or manual requests with the same id hash;
    and a push names its Build from the App and the commit alone. *)
Theorem buildName_distinct appName sha1 sha2 del1 del2 :
  MatchString dnsSubdomainPattern appName = true →
  MatchString commitPattern sha1 = true → MatchString commitPattern sha2 = true →
  (buildNameForDelivery appName sha1 del1 = buildNameForDelivery appName sha2 del2 ↔
    slice_to 12 sha1 = slice_to 12 sha2 ∧ delivery_suffix del1 = delivery_suffix del2) ∧
  (del_EventType del1 = pushEventType → buildNameForDelivery appName sha1 del1 = buildName appName sha1).
Proof.
  intros Ha H1 H2. rewrite !buildNameForDelivery_suffix. split.
  2:{ intros He. unfold delivery_suffix. by rewrite He. }
  rewrite <- (proj1 (short_sha_spec sha1 H1)), <- (proj1 (short_sha_spec sha2 H2)). split.
  - intros Heq. destruct (name_tail_spec sha1 del1 H1) as [Hl1 _], (name_tail_spec sha2 del2 H2) as [Hl2 _].
    destruct (buildName_shape appName sha1 (delivery_suffix del1) Ha Hl1) as (p1 & Hb1 & _).
    destruct (buildName_shape appName sha2 (delivery_suffix del2) Ha Hl2) as (p2 & Hb2 & _).
    rewrite Heq, Hb2 in Hb1. by eapply name_tail_inj.
  - intros [Hs Hd]. unfold buildNameWithSuffix. fold (short_sha sha1) (short_sha sha2).
    by rewrite Hs, Hd.
Qed.

(** ** A worked example *)
Module DispatcherExample.
#[local] Instance tables : UnicodeTables := ascii_tables.
Definition commit : string := "0123456789abcdef0123456789abcdef01234567".
Definition app (name repo : string) : App :=
  {| app_Meta := new_meta "orkano-apps" name ∅ ∅;
     app_Spec := {| app_Source := {| source_GitHub := Some {| github_Repo := repo; github_Ref := "" |};
                                     source_Git := None; source_Upload := None; source_SubPath := "" |};
                    app_Build := {| strategy_Strategy := StrategyDockerfile; strategy_Dockerfile := None;
                                    strategy_Static := None; strategy_Nixpacks := None |};
                    app_Type := ""; app_Command := []; app_Port := None; app_Replicas := None;
                    app_Env := []; app_Resources := None; app_HealthCheck := None |};
     app_Status := {| app_ObservedGeneration := 0; app_Conditions := []; app_Image := "";
                      app_URL := ""; app_AvailableReplicas := 0; app_LatestBuild := "" |} |}.
Definition apps : list App :=
  [app "shop-web" "acme/shop"; app "shop-api" "acme/shop"; app "shop-jobs" "acme/shop";
   app "blog-web" "acme/blog"; app "blog-api" "acme/blog"; app "blog-jobs" "acme/blog"].
Definition push (id : Z) (delivery repo : string) : Delivery :=
  {| del_ID := id; del_DeliveryID := delivery; del_Repo := repo; del_EventType := "push"; del_AppName := "" |}.
Definition manual (id delivery app : string) : Delivery :=
  {| del_ID := 1; del_DeliveryID := "manual-" +:+ delivery; del_Repo := id; del_EventType := "manual";
     del_AppName := app |}.
Definition dispatcher (max : Z) : Dispatcher :=
  {| d_hasGitHub := true; d_hasGit := false; d_Features := no_features; d_PollInterval := 0;
     d_MaxConcurrentBuilds := max |}.

(** The queue and the Builds so far. *)
Definition world : Type := list Delivery * list Build.
Definition environment (X : Set) (e : DispatchE X) (w : world) : X * world :=
  match e in DispatchE X return X * world with
  | ListBuilds => (Ok w.2, w)
  | ListApps => (Ok apps, w)
  | ClaimNext => (Ok (head w.1), w)
  | Ack _ => (Ok (), (tail w.1, w.2))
  | Nack _ => (Ok (), w)
  | GitHubResolve _ _ => (Ok commit, w)
  | GitResolve _ _ => (Err (ResolveFailed "no resolver"), w)
  | CreateBuild b => (Ok (), (w.1, w.2 ++ [b]))
  end.
Definition queue : list Delivery := [push 1 "d1" "acme/shop"; push 2 "d2" "Acme/Blog"].

Definition round : bool * option ProcessError * list (call DispatchE) * world :=
  run environment (processOne (dispatcher 0)) (queue, []).
Definition ticked (max : Z) : unit * list (call DispatchE) * world :=
  run environment (tick (Start_defaults (dispatcher max))) (queue, []).

Lemma round_exec : exec (processOne (dispatcher 0)) round.1.2 (true, None).
Proof. exact (run_exec environment (processOne (dispatcher 0)) (queue, [])). Qed.
Lemma ticked_exec max : exec (tick (Start_defaults (dispatcher max))) (ticked max).1.2 ().
Proof.
  pose proof (run_exec environment (tick (Start_defaults (dispatcher max))) (queue, [])) as He.
  fold (ticked max) in He. by destruct (ticked max).1.1.
Qed.
End DispatcherExample.

Lemma processOne_no_loss_witness :
  ∃ ack, omap finalized DispatcherExample.round.1.2 = [(DispatcherExample.push 1 "d1" "acme/shop", ack)].
Proof.
  edestruct (@processOne_no_loss ascii_tables) as (ack & Hf & _);
    [apply DispatcherExample.round_exec|vm_compute; reflexivity|by exists ack].
Defined.

Lemma processOne_builds_genuine_witness :
  ∃ b x del (apps : list App) app, (b, x) ∈ omap created DispatcherExample.round.1.2 ∧
    app ∈ apps ∧ targets (H := ascii_tables) del app ∧
    genuine (DispatcherExample.dispatcher 0) DispatcherExample.round.1.2 del app b.
Proof.
  assert (Hin : (build_for (DispatcherExample.app "shop-web" "acme/shop") DispatcherExample.commit
    (DispatcherExample.push 1 "d1" "acme/shop"), Ok ()) ∈ omap created DispatcherExample.round.1.2)
    by (vm_compute; left).
  destruct (@processOne_builds_genuine ascii_tables _ _ _ _ _ _ DispatcherExample.round_exec Hin)
    as (del & apps & app & _ & _ & _ & ? & ? & ?). eauto 10.
Defined.

Lemma tick_budget_witness : ∃ r tr', (DispatcherExample.ticked 1).1.2 = Call ListBuilds r :: tr'.
Proof.
  destruct (@tick_budget ascii_tables (DispatcherExample.dispatcher 1) _ _
    ltac:(unfold in_i64, i64_min, i64_max; simpl; lia) (DispatcherExample.ticked_exec 1))
    as (r & tr' & Heq & _). by exists r, tr'.
Defined.

Lemma buildName_valid_witness : len (buildNameForDelivery "shop" DispatcherExample.commit
  (DispatcherExample.push 1 "d1" "acme/shop")) ≤ 253.
Proof. apply buildName_valid; vm_compute; reflexivity. Defined.

Lemma buildName_distinct_witness : buildNameForDelivery "shop" DispatcherExample.commit
  (DispatcherExample.push 1 "d1" "acme/shop") = buildName "shop" DispatcherExample.commit.
Proof.
  apply (buildName_distinct "shop" DispatcherExample.commit DispatcherExample.commit
    (DispatcherExample.push 1 "d1" "acme/shop") (DispatcherExample.push 1 "d1" "acme/shop"));
    vm_compute; reflexivity.
Defined.

(** The cap is kept per delivery, not per Build: with room for two Builds, one
    tick takes two deliveries and creates three Builds for each of them, more
    than the cap and the fan-out of one delivery together. *)
Theorem tick_fanout_exceeds :
  let d := Start_defaults (DispatcherExample.dispatcher 2) in
  exec (tick (H := ascii_tables) d) (DispatcherExample.ticked 2).1.2 () ∧
  Forall (λ del, length (selected (H := ascii_tables) del DispatcherExample.apps) = 3)
    DispatcherExample.queue ∧
  (d_MaxConcurrentBuilds d + 3 < Z.of_nat (length (omap created (DispatcherExample.ticked 2).1.2)))%Z.
Proof.
  split; [apply DispatcherExample.ticked_exec|]. split.
  - repeat constructor; vm_compute; reflexivity.
  - vm_compute. reflexivity.
Qed.
