(* ===== verification/Queue.v ===== *)
(** * The delivery queue on Postgres

    Models [operator/internal/dispatcher/queue.go], the production [Queue], with
    the statements of [internal/db/webhook_deliveries.sql.go] it and the receiver
    run.  [ClaimNext], [ack] and [nack] are programs over SQL calls with arbitrary
    replies.  The table behind the calls is a transition system ([sql_step]):
    committed rows, and per open transaction the rows it has locked and deleted.
    Any statement may fail, a failed commit may or may not have taken effect, and
    the server may end a transaction at any time.

    [Spec] is what the dispatcher may rely on: a queue that hands out the oldest
    delivery nobody holds, holds it for one consumer, and drops it only when that
    consumer has asked for it and finishes; its steps carry labels.  [sys_step] runs
    any number of dispatcher rounds on the table, and every run of it mirrors a run
    of [Spec], statement by statement ([table_refines_queue]): a round speaks only in
    its own transaction and removes only what it claimed ([linked_own]).  Linking
    the dispatcher to the programs here ([link]) also carries its guarantee down to
    rows: nothing is deleted before its Apps are settled ([linked_no_loss]). *)
From S2P Require Import Prelude Effects Kube Api Features GoStrings Dispatcher.

(** ** The statements *)
Record ClaimDeliveryRow : Set := {
  row_ID : Z;
  row_DeliveryID : string;
  row_Repo : string;
  row_EventType : string;
  row_AppName : option string;
}.

Inductive SqlError : Set := ErrNoRows | SqlFailure (text : string).

(** A transaction handle is a number. *)
Inductive SqlE : Set → Type :=
| Begin : SqlE (result string nat)
| DisableIdleTimeout (tx : nat) : SqlE (result string unit)
| ClaimDelivery (tx : nat) : SqlE (result SqlError ClaimDeliveryRow)
| DeleteDelivery (tx : nat) (id : Z) : SqlE (result string unit)
| Commit (tx : nat) : SqlE (result string unit)
| Rollback (tx : nat) : SqlE (result string unit).

(** ** [PgxQueue] *)
Definition delivery_of (row : ClaimDeliveryRow) : Delivery :=
  {| del_ID := row_ID row; del_DeliveryID := row_DeliveryID row; del_Repo := row_Repo row;
     del_EventType := row_EventType row; del_AppName := default "" (row_AppName row) |}.

(** The delivery with the transaction its [ack] and [nack] are bound to. *)
Definition ClaimNext : prog SqlE (result string (option (Delivery * nat))) :=
  let! b := trigger Begin in
  match b with
  | Err e => Ret (Err ("begin claim transaction: " +:+ e))
  | Ok tx =>
      let! s := trigger (DisableIdleTimeout tx) in
      match s with
      | Err e =>
          let! _ := trigger (Rollback tx) in
          Ret (Err ("relaxing idle-in-transaction timeout for claim: " +:+ e))
      | Ok _ =>
          let! row := trigger (ClaimDelivery tx) in
          match row with
          | Err ErrNoRows =>
              let! _ := trigger (Rollback tx) in
              Ret (Ok None)
          | Err (SqlFailure e) =>
              let! _ := trigger (Rollback tx) in
              Ret (Err ("claim delivery: " +:+ e))
          | Ok row => Ret (Ok (Some (delivery_of row, tx)))
          end
      end
  end.

Definition ack (tx : nat) (id : Z) : prog SqlE (result string unit) :=
  let! d := trigger (DeleteDelivery tx id) in
  match d with
  | Err e =>
      let! _ := trigger (Rollback tx) in
      Ret (Err ("delete delivery " +:+ pretty id +:+ ": " +:+ e))
  | Ok _ =>
      let! c := trigger (Commit tx) in
      Ret (match c with
           | Err e => Err ("commit delivery " +:+ pretty id +:+ " removal: " +:+ e)
           | Ok _ => Ok tt
           end)
  end.

Definition nack (tx : nat) (id : Z) : prog SqlE (result string unit) :=
  let! c := trigger (Rollback tx) in
  Ret (match c with
       | Err e => Err ("rollback delivery " +:+ pretty id +:+ ": " +:+ e)
       | Ok _ => Ok tt
       end).

(** ** The table *)
Record Transaction : Type := { tx_locks : gset Z; tx_deletes : gset Z }.
Record Table : Type := {
  rows : gmap Z ClaimDeliveryRow;
  open : gmap nat Transaction;
  (** the identity sequence, with the values drawn by INSERTs still under way *)
  next_id : Z;
  drawn : gset Z;
}.

Definition with_open (t : Table) (o : gmap nat Transaction) : Table :=
  {| rows := rows t; open := o; next_id := next_id t; drawn := drawn t |}.
Definition without_rows (t : Table) (ids : gset Z) : Table :=
  {| rows := filter (λ kr : Z * ClaimDeliveryRow, (kr.1 ∉ ids)) (rows t);
     open := open t; next_id := next_id t; drawn := drawn t |}.

(** Locked by some open transaction. *)
Definition locked (t : Table) : gset Z := ⋃ ((λ kx : nat * Transaction, tx_locks (kx.2)) <$> map_to_list (open t)).

(** [ORDER BY id FOR UPDATE SKIP LOCKED LIMIT 1] picks this row. *)
Definition oldest_free (t : Table) (id : Z) (row : ClaimDeliveryRow) : Prop :=
  rows t !! id = Some row ∧ (id ∉ locked t) ∧
  ∀ id' row', rows t !! id' = Some row' → id' ∉ locked t → (id ≤ id')%Z.

Definition taking (x : Transaction) (id : Z) : Transaction :=
  {| tx_locks := {[id]} ∪ tx_locks x; tx_deletes := tx_deletes x |}.
Definition deleting (x : Transaction) (id : Z) : Transaction :=
  {| tx_locks := {[id]} ∪ tx_locks x; tx_deletes := {[id]} ∪ tx_deletes x |}.

Definition end_tx (t : Table) (tx : nat) : Table := with_open t (delete tx (open t)).
Definition apply_tx (t : Table) (tx : nat) (x : Transaction) : Table := without_rows (end_tx t tx) (tx_deletes x).

(** One statement of one session, with its reply. *)
Inductive sql_step (t : Table) : call SqlE → Table → Prop :=
| sql_begin tx :
    open t !! tx = None →
    sql_step t (Call Begin (Ok tx)) (with_open t (<[tx := {| tx_locks := ∅; tx_deletes := ∅ |}]> (open t)))
| sql_begin_fails e : sql_step t (Call Begin (Err e)) t
| sql_set tx x : open t !! tx = Some x → sql_step t (Call (DisableIdleTimeout tx) (Ok tt)) t
| sql_set_fails tx e : sql_step t (Call (DisableIdleTimeout tx) (Err e)) t
| sql_claim tx x id row :
    open t !! tx = Some x → oldest_free t id row →
    sql_step t (Call (ClaimDelivery tx) (Ok row)) (with_open t (<[tx := taking x id]> (open t)))
| sql_claim_none tx x :
    open t !! tx = Some x → (∀ id row, rows t !! id = Some row → id ∈ locked t) →
    sql_step t (Call (ClaimDelivery tx) (Err ErrNoRows)) t
| sql_claim_fails tx e : sql_step t (Call (ClaimDelivery tx) (Err (SqlFailure e))) t
(** a DELETE waits for a row another transaction has locked *)
| sql_delete tx x id :
    open t !! tx = Some x → is_Some (rows t !! id) → id ∉ locked (end_tx t tx) →
    sql_step t (Call (DeleteDelivery tx id) (Ok tt)) (with_open t (<[tx := deleting x id]> (open t)))
| sql_delete_nothing tx x id :
    open t !! tx = Some x → rows t !! id = None →
    sql_step t (Call (DeleteDelivery tx id) (Ok tt)) t
| sql_delete_fails tx id e : sql_step t (Call (DeleteDelivery tx id) (Err e)) t
| sql_commit tx x :
    open t !! tx = Some x → sql_step t (Call (Commit tx) (Ok tt)) (apply_tx t tx x)
| sql_commit_fails tx e : sql_step t (Call (Commit tx) (Err e)) (end_tx t tx)
(** the commit took effect but its answer was lost *)
| sql_commit_unknown tx x e :
    open t !! tx = Some x → sql_step t (Call (Commit tx) (Err e)) (apply_tx t tx x)
| sql_rollback tx r : sql_step t (Call (Rollback tx) r) (end_tx t tx)
| sql_rollback_lost tx e : sql_step t (Call (Rollback tx) (Err e)) t.

(** What happens to the table besides: the receiver and the dashboard insert, and
    the server ends a transaction whose session is gone. *)
Inductive env_step (t : Table) : Table → Prop :=
| env_draw :
    env_step t {| rows := rows t; open := open t; next_id := (next_id t + 1)%Z; drawn := {[next_id t]} ∪ drawn t |}
| env_insert row :
    row_ID row ∈ drawn t →
    (∀ id r, rows t !! id = Some r → row_DeliveryID r ≠ row_DeliveryID row) →
    env_step t {| rows := <[row_ID row := row]> (rows t); open := open t; next_id := next_id t;
                  drawn := drawn t ∖ {[row_ID row]} |}
(** ON CONFLICT DO NOTHING, or the statement failed: the value is used up *)
| env_discard id :
    env_step t {| rows := rows t; open := open t; next_id := next_id t; drawn := drawn t ∖ {[id]} |}
| env_end tx : env_step t (end_tx t tx).

Definition empty_table : Table := {| rows := ∅; open := ∅; next_id := 1; drawn := ∅ |}.

Inductive reachable : Table → Prop :=
| reachable_empty : reachable empty_table
| reachable_sql t c t' : reachable t → sql_step t c t' → reachable t'
| reachable_env t t' : reachable t → env_step t t' → reachable t'.

(** ** The specification *)
Module Spec.
(** A delivery is pending until it is finished; [held] says for which consumer, and
    [doomed] are the ones their consumer has asked to drop. *)
Record Queue : Type := { pending : gmap Z ClaimDeliveryRow; held : gmap Z nat; doomed : gset Z }.

Inductive Event : Type :=
| Enqueued (row : ClaimDeliveryRow)
| Handed (c : nat) (row : ClaimDeliveryRow)
| Empty (c : nat)
| Asked (c : nat) (id : Z)
| Finished (c : nat)
| Returned (c : nat)
| Silent.

Definition empty : Queue := {| pending := ∅; held := ∅; doomed := ∅ |}.

(** Consumer [c] holds nothing any more. *)
Definition freed (q : Queue) (c : nat) : Queue :=
  {| pending := pending q; held := filter (λ kc : Z * nat, kc.2 ≠ c) (held q);
     doomed := filter (λ id, held q !! id ≠ Some c) (doomed q) |}.
(** So, and what it had asked to drop is gone. *)
Definition finished (q : Queue) (c : nat) : Queue :=
  {| pending := filter (λ kr : Z * ClaimDeliveryRow, ¬ (held q !! kr.1 = Some c ∧ kr.1 ∈ doomed q)) (pending q);
     held := held (freed q c); doomed := doomed (freed q c) |}.

Inductive step (q : Queue) : Event → Queue → Prop :=
(** a new delivery, under identities no pending delivery has *)
| enqueue row :
    pending q !! row_ID row = None →
    (∀ id r, pending q !! id = Some r → row_DeliveryID r ≠ row_DeliveryID row) →
    step q (Enqueued row) {| pending := <[row_ID row := row]> (pending q); held := held q; doomed := doomed q |}
(** hand the oldest delivery nobody holds to one consumer *)
| hand c row :
    pending q !! row_ID row = Some row → held q !! row_ID row = None →
    (∀ id r, pending q !! id = Some r → held q !! id = None → (row_ID row ≤ id)%Z) →
    step q (Handed c row) {| pending := pending q; held := <[row_ID row := c]> (held q); doomed := doomed q |}
(** every delivery is held *)
| nothing c : (∀ id r, pending q !! id = Some r → is_Some (held q !! id)) → step q (Empty c) q
(** the consumer that holds a delivery asks to drop it *)
| ask c id :
    held q !! id = Some c →
    step q (Asked c id) {| pending := pending q; held := held q; doomed := {[id]} ∪ doomed q |}
| finish c : step q (Finished c) (finished q c)
| give_back c : step q (Returned c) (freed q c)
| idle : step q Silent q.

Inductive run (q : Queue) : list Event → Queue → Prop :=
| run_nil : run q [] q
| run_snoc evs q1 ev q2 : run q evs q1 → step q1 ev q2 → run q (evs ++ [ev]) q2.

(** What a client may conclude: a delivery goes only when the consumer it is held for has
    asked for it and finishes, and until that consumer finishes or gives back it stays
    held for it. *)
Lemma gone_when_finished q ev q' id row :
  step q ev q' → pending q !! id = Some row → pending q' !! id = None →
  ∃ c, ev = Finished c ∧ held q !! id = Some c ∧ id ∈ doomed q.
Proof.
  intros Hs Hr Hn. destruct Hs as [row' Hf _| | | |c| |]; simpl in Hn; try congruence.
  - rewrite lookup_insert in Hn. case_decide; congruence.
  - exists c. split; [done|]. apply map_lookup_filter_None in Hn as [Hn|Hn]; [congruence|]. specialize (Hn _ Hr). simpl in Hn.
    destruct (decide (held q !! id = Some c ∧ id ∈ doomed q)); tauto.
Qed.
Lemma held_until_ended q ev q' id c :
  step q ev q' → held q !! id = Some c → ev = Finished c ∨ ev = Returned c ∨ held q' !! id = Some c.
Proof.
  intros Hs Hh. destruct Hs as [|c' row _ Hf _| | |c'|c'|]; simpl; auto.
  - right; right. rewrite lookup_insert_ne; [done|]. congruence.
  - destruct (decide (c' = c)) as [->|Hne]; [auto|]. right; right. apply map_lookup_filter_Some. by split.
  - destruct (decide (c' = c)) as [->|Hne]; [auto|]. right; right. apply map_lookup_filter_Some. by split.
Qed.
End Spec.

(** What a statement is to the queue.  The consumer is the transaction; a commit whose
    answer was lost finished or gave back, a rollback whose answer was lost gave back or
    did nothing yet. *)
Definition shows (c : call SqlE) (ev : Spec.Event) : Prop :=
  match c with
  | Call (ClaimDelivery tx) (Ok row) => ev = Spec.Handed tx row
  | Call (ClaimDelivery tx) (Err ErrNoRows) => ev = Spec.Empty tx
  | Call (DeleteDelivery tx id) (Ok _) => ev = Spec.Asked tx id
  | Call (Commit tx) (Ok _) => ev = Spec.Finished tx
  | Call (Commit tx) (Err _) => ev = Spec.Finished tx ∨ ev = Spec.Returned tx
  | Call (Rollback tx) (Ok _) => ev = Spec.Returned tx
  | Call (Rollback tx) (Err _) => ev = Spec.Returned tx ∨ ev = Spec.Silent
  | _ => ev = Spec.Silent
  end.
(** What may come from elsewhere: a delivery, or the end of a session. *)
Definition outside (ev : Spec.Event) : Prop :=
  match ev with Spec.Enqueued _ | Spec.Returned _ | Spec.Silent => True | _ => False end.

(** The queue a table stands for. *)
Record stands_for (t : Table) (q : Spec.Queue) : Prop := {
  st_pending : Spec.pending q = rows t;
  st_held id tx : Spec.held q !! id = Some tx ↔ ∃ x, open t !! tx = Some x ∧ id ∈ tx_locks x;
  st_doomed id : id ∈ Spec.doomed q ↔ ∃ tx x, open t !! tx = Some x ∧ id ∈ tx_deletes x;
}.

(** ** Locks *)
Lemma elem_of_locked t id : id ∈ locked t ↔ ∃ tx x, open t !! tx = Some x ∧ id ∈ tx_locks x.
Proof.
  unfold locked. rewrite elem_of_union_list. split.
  - intros (X & ([tx x] & -> & Hin)%list_elem_of_fmap & Hid). apply elem_of_map_to_list in Hin. by exists tx, x.
  - intros (tx & x & Hx & Hid). exists (tx_locks x). split; [|done].
    apply list_elem_of_fmap. exists (tx, x). split; [done|]. by apply elem_of_map_to_list.
Qed.

Lemma locked_end t tx id : id ∈ locked (end_tx t tx) → id ∈ locked t.
Proof.
  rewrite !elem_of_locked. intros (tx' & x & Hx & Hid). simpl in Hx.
  apply lookup_delete_Some in Hx as [_ Hx]. by exists tx', x.
Qed.

Lemma locked_split t tx x id :
  open t !! tx = Some x → id ∈ locked t ↔ id ∈ tx_locks x ∨ id ∈ locked (end_tx t tx).
Proof.
  intros Hx. split; [|intros [H|H]; [rewrite elem_of_locked; by exists tx, x|by eapply locked_end]].
  rewrite !elem_of_locked. intros (tx' & x' & Hx' & Hid). destruct (decide (tx = tx')) as [->|Hne]; [left; naive_solver|].
  right. exists tx', x'. simpl. by rewrite lookup_delete_ne.
Qed.

Lemma locked_insert t tx x id :
  id ∈ locked (with_open t (<[tx := x]> (open t))) ↔ id ∈ tx_locks x ∨ id ∈ locked (end_tx t tx).
Proof.
  rewrite (locked_split _ tx x) by (simpl; by rewrite lookup_insert_eq).
  unfold end_tx, with_open. simpl. by rewrite delete_insert_eq.
Qed.

Lemma locked_none t tx : open t !! tx = None → locked (end_tx t tx) = locked t.
Proof. intros Hx. unfold end_tx, with_open, locked. simpl. by rewrite delete_id. Qed.

(** What holds of every table: a row is locked by one transaction at most, only
    rows that exist are locked, a transaction deletes only what it has locked, and
    neither identities nor delivery identifiers repeat. *)
Record table_ok (t : Table) : Prop := {
  ok_exclusive tx1 x1 tx2 x2 id :
    open t !! tx1 = Some x1 → open t !! tx2 = Some x2 → id ∈ tx_locks x1 → id ∈ tx_locks x2 → tx1 = tx2;
  ok_exists tx x id : open t !! tx = Some x → id ∈ tx_locks x → is_Some (rows t !! id);
  ok_deletes tx x : open t !! tx = Some x → tx_deletes x ⊆ tx_locks x;
  ok_ids id row : rows t !! id = Some row → row_ID row = id ∧ (id < next_id t)%Z ∧ id ∉ drawn t;
  ok_drawn id : id ∈ drawn t → (id < next_id t)%Z;
  ok_unique id1 row1 id2 row2 :
    rows t !! id1 = Some row1 → rows t !! id2 = Some row2 → row_DeliveryID row1 = row_DeliveryID row2 → id1 = id2;
}.

(** Ending a transaction keeps the table in order. *)
Lemma end_tx_ok t tx : table_ok t → table_ok (end_tx t tx).
Proof.
  intros [H1 H2 H3 H4 HD H5]. split; simpl; try done.
  - intros tx1 x1 tx2 x2 id [_ ?]%lookup_delete_Some [_ ?]%lookup_delete_Some. by eapply H1.
  - intros tx1 x1 id [_ ?]%lookup_delete_Some. by eapply H2.
  - intros tx1 x1 [_ ?]%lookup_delete_Some. by eapply H3.
Qed.

(** So does locking a row nobody else has locked. *)
Lemma lock_ok t tx x id (x' : Transaction) :
  table_ok t → open t !! tx = Some x → is_Some (rows t !! id) → id ∉ locked (end_tx t tx) →
  tx_locks x' = {[id]} ∪ tx_locks x → tx_deletes x' ⊆ tx_locks x' →
  table_ok (with_open t (<[tx := x']> (open t))).
Proof.
  intros [H1 H2 H3 H4 HD H5] Hx Hid Hfree El Ed.
  assert (Hother : ∀ tx' y j, tx ≠ tx' → open t !! tx' = Some y → j ∈ tx_locks y → j ∈ tx_locks x' → False).
  { intros tx' y j Hne Hy Hj. rewrite El. intros [->%elem_of_singleton|Hjx]%elem_of_union.
    - apply Hfree, elem_of_locked. exists tx', y. simpl. by rewrite lookup_delete_ne.
    - apply Hne. by eapply H1. }
  split; simpl; try done.
  - intros tx1 x1 tx2 x2 j. rewrite !lookup_insert.
    destruct (decide (tx = tx1)) as [<-|N1], (decide (tx = tx2)) as [<-|N2]; intros E1 E2 J1 J2; simplify_eq; try done.
    + exfalso. by eapply Hother.
    + exfalso. by eapply Hother.
    + by eapply H1.
  - intros tx1 x1 j. rewrite lookup_insert. case_decide; [|apply H2]. intros [= <-]. rewrite El. subst tx1.
    intros [->%elem_of_singleton|Hj]%elem_of_union; [done|by eapply H2].
  - intros tx1 x1. rewrite lookup_insert. case_decide; [by intros [= <-]|apply H3].
Qed.

Lemma apply_tx_ok t tx x : table_ok t → open t !! tx = Some x → table_ok (apply_tx t tx x).
Proof.
  intros Hok Hx. pose proof Hok as [K1 _ K3 _ _ _]. destruct (end_tx_ok t tx Hok) as [H1 H2 H3 H4 HD H5].
  split; simpl in *; try done.
  - intros tx1 x1 id Hx1 Hid. destruct (H2 _ _ _ Hx1 Hid) as [row Hr]. exists row. apply map_lookup_filter_Some. split; [done|].
    simpl. intros Hdel. apply lookup_delete_Some in Hx1 as [Hne Hx1]. apply Hne. eapply K1; [done|done| |done].
    by apply (K3 _ _ Hx).
  - intros id row [? _]%map_lookup_filter_Some. by apply H4.
  - intros id1 row1 id2 row2 [? _]%map_lookup_filter_Some [? _]%map_lookup_filter_Some. by apply H5.
Qed.

Lemma sql_step_ok t c t' : table_ok t → sql_step t c t' → table_ok t'.
Proof.
  intros Hok Hs. destruct Hs as [tx Hx| | | |tx x id row Hx (Hr & Hf & _)| | |tx x id Hx Hr Hf| | |tx x Hx|tx e|tx x e Hx|tx r|];
    try done; try (by apply end_tx_ok); try (by apply apply_tx_ok).
  - destruct Hok as [H1 H2 H3 H4 HD H5]. split; simpl; try done.
    + intros tx1 x1 tx2 x2 j. rewrite !lookup_insert. repeat case_decide; intros ? ?; simplify_eq; simpl; set_solver.
    + intros tx1 x1 j. rewrite lookup_insert. case_decide; [intros [= <-]; set_solver|apply H2].
    + intros tx1 x1. rewrite lookup_insert. case_decide; [by intros [= <-]|apply H3].
  - eapply lock_ok; [done|done|by eexists| |done|].
    + intros Hl. by apply Hf, (locked_end _ tx).
    + simpl. pose proof (ok_deletes _ Hok _ _ Hx). set_solver.
  - eapply lock_ok; [done..|]. simpl. pose proof (ok_deletes _ Hok _ _ Hx). set_solver.
Qed.

Lemma env_step_ok t t' : table_ok t → env_step t t' → table_ok t'.
Proof.
  intros Hok Hs. destruct Hs as [|row Hid Hu|i|tx]; [| | |by apply end_tx_ok]; destruct Hok as [H1 H2 H3 H4 HD H5].
  - split; simpl; try done.
    + intros id r (? & ? & ?)%H4. split_and!; [done|lia|]. intros [?%elem_of_singleton|?]%elem_of_union; [lia|done].
    + intros id [?%elem_of_singleton|?%HD]%elem_of_union; lia.
  - assert (Hfresh : rows t !! row_ID row = None).
    { destruct (rows t !! row_ID row) eqn:E; [|done]. by apply H4 in E as (_ & _ & ?). }
    split; simpl; try done.
    + intros tx x id Hx Hl. destruct (H2 _ _ _ Hx Hl) as [r Hr]. exists r. rewrite lookup_insert_ne; [done|]. congruence.
    + intros id r. rewrite lookup_insert. case_decide as E.
      * intros [= <-]. subst id. apply HD in Hid. split_and!; [done|done|set_solver].
      * intros (? & ? & ?)%H4. split_and!; [done..|set_solver].
    + set_solver.
    + intros id1 r1 id2 r2. rewrite !lookup_insert.
      repeat case_decide; intros E1 E2 E3; simplify_eq; try done.
      * exfalso. by eapply Hu.
      * exfalso. by eapply Hu.
      * by eapply H5.
  - split; simpl; try done; [|set_solver]. intros id r (? & ? & ?)%H4. split_and!; [done..|set_solver].
Qed.

Lemma reachable_ok t : reachable t → table_ok t.
Proof.
  induction 1 as [|t c t' _ IH Hs|t t' _ IH Hs].
  - split; simpl; intros; by rewrite ?lookup_empty in *.
  - by eapply sql_step_ok.
  - by eapply env_step_ok.
Qed.

(** ** The table refines the queue, statement by statement *)
Lemma held_locked t q id : stands_for t q → is_Some (Spec.held q !! id) ↔ id ∈ locked t.
Proof.
  intros Hq. rewrite elem_of_locked. split.
  - intros [tx (x & ? & ?)%(st_held _ _ Hq)]. by exists tx, x.
  - intros (tx & x & ? & ?). exists tx. apply (st_held _ _ Hq). by exists x.
Qed.
Lemma unheld_unlocked t q id : stands_for t q → Spec.held q !! id = None ↔ id ∉ locked t.
Proof. intros Hq. rewrite <- (held_locked _ _ _ Hq), <- eq_None_not_Some. done. Qed.

(** What a transaction deletes is what the queue has doomed of its consumer. *)
Lemma deletes_doomed t q tx x id :
  table_ok t → stands_for t q → open t !! tx = Some x →
  id ∈ tx_deletes x ↔ Spec.held q !! id = Some tx ∧ id ∈ Spec.doomed q.
Proof.
  intros Hok Hq Hx. rewrite (st_held _ _ Hq), (st_doomed _ _ Hq). split.
  - intros Hd. split; [exists x; split; [done|by apply (ok_deletes _ Hok _ _ Hx)]|by exists tx, x].
  - intros [(x1 & Hx1 & Hl) (tx2 & x2 & Hx2 & Hd)]. pose proof (ok_deletes _ Hok _ _ Hx2 _ Hd) as Hl2.
    pose proof (ok_exclusive _ Hok _ _ _ _ _ Hx1 Hx2 Hl Hl2) as ->. by simplify_eq.
Qed.

Lemma end_tx_stands t q tx : table_ok t → stands_for t q → stands_for (end_tx t tx) (Spec.freed q tx).
Proof.
  intros Hok Hq. split; [apply Hq|..]; simpl.
  - intros id tx'. rewrite map_lookup_filter_Some, (st_held _ _ Hq). setoid_rewrite lookup_delete_Some. simpl. naive_solver.
  - intros id. rewrite elem_of_filter, (st_doomed _ _ Hq). setoid_rewrite lookup_delete_Some. split.
    + intros (Hne & tx' & x & Hx & Hd). exists tx', x. split_and!; [|done..]. intros <-. apply Hne.
      by apply (deletes_doomed _ _ _ _ _ Hok Hq Hx).
    + intros (tx' & x & [Hne Hx] & Hd). split; [|by exists tx', x].
      apply (deletes_doomed _ _ _ _ _ Hok Hq Hx) in Hd as [-> _]. congruence.
Qed.

Lemma apply_tx_stands t q tx x :
  table_ok t → stands_for t q → open t !! tx = Some x → stands_for (apply_tx t tx x) (Spec.finished q tx).
Proof.
  intros Hok Hq Hx. destruct (end_tx_stands t q tx Hok Hq) as [_ Hh Hd]. split; [|done..]. simpl.
  rewrite (st_pending _ _ Hq). apply map_filter_ext. intros id row _. simpl. by rewrite <- (deletes_doomed _ _ _ _ _ Hok Hq Hx).
Qed.

(** A DELETE that goes through is of a row its transaction holds. *)
Definition asked_row (c : call SqlE) : option (nat * Z) :=
  match c with Call (DeleteDelivery tx id) (Ok _) => Some (tx, id) | _ => None end.
Definition disciplined (t : Table) (c : call SqlE) : Prop :=
  ∀ tx id x, asked_row c = Some (tx, id) → open t !! tx = Some x → id ∈ tx_locks x.

Lemma claim_stands t q tx x row :
  table_ok t → stands_for t q → open t !! tx = Some x → row_ID row ∉ locked t →
  stands_for (with_open t (<[tx := taking x (row_ID row)]> (open t)))
    {| Spec.pending := Spec.pending q; Spec.held := <[row_ID row := tx]> (Spec.held q); Spec.doomed := Spec.doomed q |}.
Proof.
  intros Hok Hq Hx Hf. split; [apply Hq|..]; simpl; intros id.
  - intros tx'. rewrite lookup_insert_Some, (st_held _ _ Hq). setoid_rewrite lookup_insert_Some. split.
    + intros [[<- <-]|(Hne & x' & Hx' & Hl)]; [exists (taking x (row_ID row)); set_solver|].
      destruct (decide (tx = tx')) as [<-|]; [|by exists x'; auto]. simplify_eq. exists (taking x (row_ID row)). set_solver.
    + intros (x' & [[<- <-]|[Hne Hx']] & Hl).
      * simpl in Hl. destruct (decide (row_ID row = id)) as [->|]; [by left|right; split; [done|]; exists x; set_solver].
      * right. split; [|by exists x']. intros <-. apply Hf, elem_of_locked. by exists tx', x'.
  - rewrite (st_doomed _ _ Hq). setoid_rewrite lookup_insert_Some. split.
    + intros (tx' & x' & Hx' & Hd). destruct (decide (tx = tx')) as [<-|]; [|by exists tx', x'; auto].
      simplify_eq. exists tx, (taking x (row_ID row)). split; [by left|done].
    + intros (tx' & x' & [[<- <-]|[_ Hx']] & Hd); [by exists tx, x|by exists tx', x'].
Qed.

Lemma ask_stands t q tx x id :
  table_ok t → stands_for t q → open t !! tx = Some x → id ∈ tx_locks x →
  stands_for (with_open t (<[tx := deleting x id]> (open t)))
    {| Spec.pending := Spec.pending q; Spec.held := Spec.held q; Spec.doomed := {[id]} ∪ Spec.doomed q |}.
Proof.
  intros Hok Hq Hx Hin. split; [apply Hq|..]; simpl; intros id'.
  - intros tx'. rewrite (st_held _ _ Hq). setoid_rewrite lookup_insert_Some. split.
    + intros (x' & Hx' & Hl). destruct (decide (tx = tx')) as [<-|]; [|by exists x'; auto]. simplify_eq.
      exists (deleting x id). set_solver.
    + intros (x' & [[<- <-]|[_ Hx']] & Hl); [exists x; set_solver|by exists x'].
  - rewrite elem_of_union, elem_of_singleton, (st_doomed _ _ Hq). setoid_rewrite lookup_insert_Some. split.
    + intros [->|(tx' & x' & Hx' & Hd)]; [exists tx, (deleting x id); set_solver|].
      destruct (decide (tx = tx')) as [<-|]; [|by exists tx', x'; auto]. simplify_eq. exists tx, (deleting x id). set_solver.
    + intros (tx' & x' & [[<- <-]|[_ Hx']] & Hd); [|right; by exists tx', x'].
      simpl in Hd. apply elem_of_union in Hd as [->%elem_of_singleton|Hd]; [by left|right; by exists tx, x].
Qed.

Lemma begin_stands t q tx :
  stands_for t q → open t !! tx = None →
  stands_for (with_open t (<[tx := {| tx_locks := ∅; tx_deletes := ∅ |}]> (open t))) q.
Proof.
  intros Hq Hx. split; [apply Hq|..]; simpl; intros id.
  - intros tx'. rewrite (st_held _ _ Hq). setoid_rewrite lookup_insert_Some. split.
    + intros (x' & Hx' & Hl). exists x'. split; [right; split; [congruence|done]|done].
    + intros (x' & [[<- <-]|[_ Hx']] & Hl); [set_solver|by exists x'].
  - rewrite (st_doomed _ _ Hq). setoid_rewrite lookup_insert_Some. split.
    + intros (tx' & x' & Hx' & Hd). exists tx', x'. split; [right; split; [congruence|done]|done].
    + intros (tx' & x' & [[<- <-]|[_ Hx']] & Hd); [set_solver|by exists tx', x'].
Qed.

Lemma sql_step_refines t q c t' :
  table_ok t → stands_for t q → sql_step t c t' → disciplined t c →
  ∃ ev q', shows c ev ∧ Spec.step q ev q' ∧ stands_for t' q'.
Proof.
  intros Hok Hq Hs Hd.
  destruct Hs as [tx Hx| |tx x Hx|tx e|tx x id row Hx (Hr & Hf & Hmin)|tx x Hx Hall|tx e|tx x id Hx Hr Hf|tx x id Hx Hn|tx id e
    |tx x Hx|tx e|tx x e Hx|tx r|tx e].
  - exists Spec.Silent, q. split_and!; [done|constructor|by apply begin_stands].
  - exists Spec.Silent, q. split_and!; [done|constructor|done].
  - exists Spec.Silent, q. split_and!; [done|constructor|done].
  - exists Spec.Silent, q. split_and!; [done|constructor|done].
  - destruct (ok_ids _ Hok _ _ Hr) as [<- _]. eexists _, _. split_and!; [reflexivity|apply Spec.hand|by apply claim_stands].
    + by rewrite (st_pending _ _ Hq).
    + by apply (unheld_unlocked _ _ _ Hq).
    + intros id r. rewrite (st_pending _ _ Hq), (unheld_unlocked _ _ _ Hq). apply Hmin.
  - eexists _, q. split_and!; [reflexivity|apply Spec.nothing|done].
    intros id r. rewrite (st_pending _ _ Hq), (held_locked _ _ _ Hq). apply Hall.
  - exists Spec.Silent, q. split_and!; [done|constructor|done].
  - specialize (Hd tx id x eq_refl Hx). eexists _, _. split_and!; [reflexivity|apply Spec.ask|by apply ask_stands].
    apply (st_held _ _ Hq). by exists x.
  - specialize (Hd tx id x eq_refl Hx). destruct (ok_exists _ Hok _ _ _ Hx Hd). congruence.
  - exists Spec.Silent, q. split_and!; [done|constructor|done].
  - eexists _, _. split_and!; [reflexivity|constructor|by apply apply_tx_stands].
  - eexists _, _. split_and!; [right; reflexivity|constructor|by apply end_tx_stands].
  - eexists _, _. split_and!; [left; reflexivity|constructor|by apply apply_tx_stands].
  - exists (Spec.Returned tx), (Spec.freed q tx). split_and!; [by destruct r; [|left]|constructor|by apply end_tx_stands].
  - exists Spec.Silent, q. split_and!; [by right|constructor|done].
Qed.

Lemma env_step_refines t q t' :
  table_ok t → stands_for t q → env_step t t' → ∃ ev q', outside ev ∧ Spec.step q ev q' ∧ stands_for t' q'.
Proof.
  intros Hok Hq [|row Hid Hu|i|tx].
  - exists Spec.Silent, q. split_and!; [done|constructor|by destruct Hq].
  - eexists (Spec.Enqueued row), _. split_and!; [done|constructor|split; [by rewrite (st_pending _ _ Hq)|apply Hq..]].
    + rewrite (st_pending _ _ Hq). destruct (rows t !! row_ID row) eqn:E; [|done]. by apply (ok_ids _ Hok) in E as (_ & _ & ?).
    + by rewrite (st_pending _ _ Hq).
  - exists Spec.Silent, q. split_and!; [done|constructor|by destruct Hq].
  - eexists (Spec.Returned tx), _. split_and!; [done|constructor|by apply end_tx_stands].
Qed.

(** ** Properties of the table *)

(** In every reachable table each claimed row is locked by one transaction
    only and still exists, a transaction deletes only rows it has locked, and
    neither row identities nor delivery identifiers repeat. *)
Theorem queue_invariant t : reachable t → table_ok t.
Proof. apply reachable_ok. Qed.

(** ** Linking the dispatcher to the queue *)
Inductive LinkE (X : Set) : Type :=
| Sql (e : SqlE X)
| Other (e : DispatchE X).
Arguments Sql {_} _.
Arguments Other {_} _.

Definition lift_sql {A} (p : prog SqlE A) : prog LinkE A :=
  let! r := interp (S := unit) (λ _ e s, let! x := trigger (Sql e) in Ret (x, s)) p tt in Ret r.1.

(** The transaction the outstanding delivery's [ack] and [nack] are bound to.  A
    finalizer of a delivery that is not outstanding does nothing; the code cannot
    name one. *)
Definition link_finalize (f : nat → Z → prog SqlE (result string unit)) (d : Delivery) (s : option (Delivery * nat)) :
    prog LinkE (result string unit * option (Delivery * nat)) :=
  match s with
  | Some (d', tx) =>
      if decide (del_ID d' = del_ID d) then let! r := lift_sql (f tx (del_ID d)) in Ret (r, None)
      else Ret (Err "no such delivery", s)
  | None => Ret (Err "no such delivery", s)
  end.

Definition link (X : Set) (e : DispatchE X) (s : option (Delivery * nat)) : prog LinkE (X * option (Delivery * nat)) :=
  match e in DispatchE X return prog LinkE (X * option (Delivery * nat)) with
  | Dispatcher.ClaimNext =>
      let! r := lift_sql ClaimNext in
      Ret (match r with
           | Ok (Some (d, tx)) => (Ok (Some d), Some (d, tx))
           | Ok None => (Ok None, s)
           | Err e => (Err e, s)
           end)
  | Ack d => link_finalize ack d s
  | Nack d => link_finalize nack d s
  | ListBuilds => let! x := trigger (Other ListBuilds) in Ret (x, s)
  | ListApps => let! x := trigger (Other ListApps) in Ret (x, s)
  | GitHubResolve repo ref => let! x := trigger (Other (GitHubResolve repo ref)) in Ret (x, s)
  | GitResolve url ref => let! x := trigger (Other (GitResolve url ref)) in Ret (x, s)
  | CreateBuild b => let! x := trigger (Other (CreateBuild b)) in Ret (x, s)
  end.

Definition sql_of (c : call LinkE) : option (call SqlE) :=
  match c with Call (Sql e) x => Some (Call e x) | _ => None end.
Definition other_of (c : call LinkE) : option (call DispatchE) :=
  match c with Call (Other e) x => Some (Call e x) | _ => None end.

(** What a round of the table's clients does: statements of the traced session,
    with anything from outside in between. *)
Inductive runs : Table → list (call SqlE) → Table → Prop :=
| runs_nil t : runs t [] t
| runs_sql t c t1 tr t2 : sql_step t c t1 → runs t1 tr t2 → runs t (c :: tr) t2
| runs_env t t1 tr t2 : env_step t t1 → runs t1 tr t2 → runs t tr t2.

(** The statement, observed. *)
Definition begun (c : call SqlE) : option nat := match c with Call Begin (Ok tx) => Some tx | _ => None end.
Definition ended (c : call SqlE) : option nat :=
  match c with Call (Commit tx) _ => Some tx | Call (Rollback tx) _ => Some tx | _ => None end.
Definition claimed_row (c : call SqlE) : option (nat * ClaimDeliveryRow) :=
  match c with Call (ClaimDelivery tx) (Ok row) => Some (tx, row) | _ => None end.
Definition deleted_row (c : call SqlE) : option (nat * Z) :=
  match c with Call (DeleteDelivery tx id) _ => Some (tx, id) | _ => None end.

(** *** The programs, call by call *)
Lemma ClaimNext_spec tr r :
  exec ClaimNext tr r →
  match r with
  | Ok (Some (d, tx)) => ∃ row, d = delivery_of row ∧
      tr = [Call Begin (Ok tx); Call (DisableIdleTimeout tx) (Ok tt); Call (ClaimDelivery tx) (Ok row)]
  | _ => omap deleted_row tr = [] ∧ omap claimed_row tr = [] ∧
      ∀ tx, tx ∈ omap begun tr → (last tr ≫= ended) = Some tx
  end.
Proof.
  intros (b & tr1 & -> & H1). cbn [prog_bind] in H1. destruct b as [tx|e].
  2:{ destruct H1 as [-> ->]. split_and!; [done..|]. intros ? []%not_elem_of_nil. }
  destruct H1 as (s & tr2 & -> & H2). cbn [prog_bind] in H2. destruct s as [[]|e].
  2:{ destruct H2 as (x & tr3 & -> & -> & ->). split_and!; [done..|]. simpl. intros tx' ->%list_elem_of_singleton. done. }
  destruct H2 as (row & tr3 & -> & H3). cbn [prog_bind] in H3. destruct row as [row|[|e]].
  1:{ destruct H3 as [-> ->]. by exists row. }
  all: destruct H3 as (x & tr4 & -> & -> & ->); split_and!; [done..|]; simpl; by intros tx' ->%list_elem_of_singleton.
Qed.

Lemma ack_spec tx id tr r :
  exec (ack tx id) tr r →
  omap deleted_row tr = [(tx, id)] ∧ omap begun tr = [] ∧ (last tr ≫= ended) = Some tx.
Proof.
  intros (x & tr1 & -> & H1). cbn [prog_bind] in H1.
  destruct x as [[]|e]; destruct H1 as (y & tr2 & -> & -> & ->); done.
Qed.

Lemma nack_spec tx id tr r :
  exec (nack tx id) tr r →
  omap deleted_row tr = [] ∧ omap begun tr = [] ∧ (last tr ≫= ended) = Some tx.
Proof. by intros (x & tr1 & -> & -> & ->). Qed.

Lemma lift_sql_exec {A} (p : prog SqlE A) tr a :
  exec (lift_sql p) tr a → exec p (omap sql_of tr) a ∧ omap other_of tr = [].
Proof.
  unfold lift_sql. rewrite exec_bind. intros (tr1 & tr2 & [a' []] & -> & Hp & -> & ->). rewrite app_nil_r. simpl.
  revert tr1 Hp. induction p as [b|X e k IH]; intros tr1; cbn [interp].
  - intros [-> [= ->]]. done.
  - rewrite exec_bind. intros (t1 & t2 & [x []] & -> & (y & t3 & -> & -> & [= ->]) & Hk).
    apply IH in Hk as [Hk Ho]. simpl. split; [|done]. by exists y, (omap sql_of t2).
Qed.

(** Calls that are not about the queue go through unchanged. *)
Lemma link_other tr s trF s' :
  omap claimed tr = [] → omap finalized tr = [] → carries link tr s trF s' →
  s' = s ∧ omap sql_of trF = [] ∧ omap other_of trF = tr.
Proof.
  revert trF. induction tr as [|[X e x] tr IH]; intros trF Hc Hf; cbn [carries].
  { by intros [-> ->]. }
  intros (t1 & t2 & s1 & -> & He & Hk).
  destruct e; simpl in Hc, Hf; try done; simpl in He; destruct He as (y & t3 & -> & -> & [= -> ->]);
    destruct (IH _ Hc Hf Hk) as (-> & E1 & E2); simpl; (split_and!; [reflexivity|exact E1|exact (f_equal (cons _) E2)]).
Qed.

(** A row that is there and that nobody is about to delete. *)
Definition safe (t : Table) (id : Z) : Prop :=
  is_Some (rows t !! id) ∧ ∀ tx x, open t !! tx = Some x → (id ∉ tx_deletes x).

Lemma safe_end t tx id : safe t id → safe (end_tx t tx) id.
Proof. intros [Hr Hd]. split; [done|]. simpl. intros tx' x [_ Hx]%lookup_delete_Some. by eapply Hd. Qed.

Lemma safe_apply t tx x id : open t !! tx = Some x → safe t id → safe (apply_tx t tx x) id.
Proof.
  intros Hx Hs. destruct (safe_end t tx id Hs) as [[row Hr] Hd]. split; [|done]. exists row. simpl.
  apply map_lookup_filter_Some. split; [done|]. simpl. by apply (proj2 Hs tx).
Qed.

Lemma safe_insert t tx x id :
  safe t id → (id ∉ tx_deletes x) → safe (with_open t (<[tx := x]> (open t))) id.
Proof.
  intros [Hr Hd] Hx. split; [done|]. simpl. intros tx' x'. rewrite lookup_insert.
  case_decide; [by intros [= <-]|apply Hd].
Qed.

Lemma sql_step_safe t c t' id :
  sql_step t c t' → safe t id → (∃ tx, deleted_row c = Some (tx, id)) ∨ safe t' id.
Proof.
  intros Hs Hsafe.
  destruct Hs as [tx Hx| | | |tx x i row Hx _| | |tx x i Hx _ _| | |tx x Hx|tx e|tx x e Hx|tx r|];
    try (by right); try (right; by apply safe_end); try (right; by apply safe_apply).
  - right. apply safe_insert; [done|set_solver].
  - right. apply safe_insert; [done|]. by apply (proj2 Hsafe tx x Hx).
  - destruct (decide (id = i)) as [->|Hne]; [left; by exists tx|right].
    apply safe_insert; [done|]. pose proof (proj2 Hsafe tx x Hx). set_solver.
Qed.

Lemma env_step_safe t t' id : table_ok t → env_step t t' → safe t id → safe t' id.
Proof.
  intros Hok Hs Hsafe. destruct Hs as [|row Hid Hu|i|tx]; [done| |done|by apply safe_end].
  destruct Hsafe as [[r Hr] Hd]. split; [|done]. simpl. rewrite lookup_insert. case_decide; by eexists.
Qed.

(** A safe row disappears only by a traced DELETE. *)
Lemma runs_deleted t tr t' id :
  runs t tr t' → table_ok t → safe t id → rows t' !! id = None → ∃ tx, (tx, id) ∈ omap deleted_row tr.
Proof.
  induction 1 as [t|t c t1 tr t2 Hs Hr IH|t t1 tr t2 Hs Hr IH]; intros Hok Hsafe Hgone.
  - destruct Hsafe as [[? ?] _]. congruence.
  - destruct (sql_step_safe _ _ _ _ Hs Hsafe) as [[tx Htx]|H1].
    + exists tx. apply list_elem_of_omap. exists c. split; [by left|done].
    + destruct (IH (sql_step_ok _ _ _ Hok Hs) H1 Hgone) as [tx Htx]. exists tx.
      simpl. case_match; [by right|done].
  - apply IH; [by eapply env_step_ok|by eapply env_step_safe|done].
Qed.

(** *** A round of the dispatcher on the table *)
Section linked.
Context `{UnicodeTables} (d : Dispatcher).

(** What makes it right to drop a delivery. *)
Definition droppable (tr : list (call DispatchE)) (del : Delivery) : Prop :=
  validateDelivery del ≠ None ∨
  ∃ apps, during tr [Call ListApps (Ok apps)] ∧ ∀ app, app ∈ selected del apps → settled d tr del app.

Lemma linked_finalize f del tx r tr s :
  exec (link_finalize f del (Some (del, tx))) tr (r, s) →
  exec (f tx (del_ID del)) (omap sql_of tr) r ∧ omap other_of tr = [].
Proof.
  unfold link_finalize. rewrite decide_True by done. rewrite exec_bind.
  intros (t1 & t2 & r' & -> & Hl & -> & [= -> ->]). rewrite app_nil_r. by apply lift_sql_exec.
Qed.

(** The statements of a round. *)
Lemma linked_round tr p err s :
  exec (interp link (processOne d) None) tr ((p, err), s) →
  (omap deleted_row (omap sql_of tr) = [] ∧
     ∀ tx, tx ∈ omap begun (omap sql_of tr) → (last (omap sql_of tr) ≫= ended) = Some tx) ∨
  ∃ tx row fin ack, omap sql_of tr =
      [Call Begin (Ok tx); Call (DisableIdleTimeout tx) (Ok tt); Call (ClaimDelivery tx) (Ok row)] ++ fin ∧
    omap deleted_row fin = (if ack : bool then [(tx, row_ID row)] else []) ∧ omap begun fin = [] ∧
    (last fin ≫= ended) = Some tx ∧ (ack = true → droppable (omap other_of tr) (delivery_of row)).
Proof.
  intros (trD & (c & tr' & -> & Hc)%processOne_spec & Hcar)%exec_interp.
  cbn [carries] in Hcar. destruct Hcar as (t1 & t2 & s1 & -> & Hclaim & Hcar).
  unfold link in Hclaim. apply exec_bind in Hclaim as (t3 & t4 & r & -> & [Hr Ho]%lift_sql_exec & -> & Hret).
  apply ClaimNext_spec in Hr. rewrite app_nil_r.
  destruct r as [[[del tx]|]|e]; simplify_eq.
  2,3: left; destruct Hc as [-> _], Hcar as [-> _], Hr as (H1 & _ & H2); rewrite app_nil_r; done.
  right. destruct Hr as (row & -> & Hr), Hc as (mid & ack & herr & x & Hh & -> & _).
  destruct (handle_spec _ _ _ _ _ Hh) as (Hf & Hcl & _ & Hs).
  apply carries_app in Hcar as (t5 & t6 & s2 & -> & Hmid & t7 & t8 & s3 & -> & Hfin & -> & ->).
  destruct (link_other _ _ _ _ Hcl Hf Hmid) as (-> & E1 & E2).
  rewrite app_nil_r, !omap_app, Hr, E1, E2, Ho. simpl.
  destruct ack; apply linked_finalize in Hfin as [Hfin Hfo]; rewrite Hfo, app_nil_r.
  - apply ack_spec in Hfin as (? & ? & ?). exists tx, row, (omap sql_of t7), true. split_and!; [done..|naive_solver].
  - apply nack_spec in Hfin as (? & ? & ?). exists tx, row, (omap sql_of t7), false. split_and!; [done..|naive_solver].
Qed.

(** C3. On the database a round of the dispatcher loses nothing: every transaction
    it opens is committed or rolled back by its last statement, and a row that
    nobody else was deleting is gone after the round only if this round claimed it
    and found it malformed or settled all its Apps first, however the server
    answers and whatever else happens to the table meanwhile. *)
Theorem linked_no_loss t tr p err s t' :
  reachable t → exec (interp link (processOne d) None) tr ((p, err), s) → runs t (omap sql_of tr) t' →
  (∀ tx, tx ∈ omap begun (omap sql_of tr) → (last (omap sql_of tr) ≫= ended) = Some tx) ∧
  (∀ id, safe t id → rows t' !! id = None →
    ∃ tx row, (tx, row) ∈ omap claimed_row (omap sql_of tr) ∧ row_ID row = id ∧
      droppable (omap other_of tr) (delivery_of row)).
Proof.
  intros Hok%reachable_ok Hex Hruns.
  destruct (linked_round _ _ _ _ Hex) as [[Hdel Hend]|(tx & row & fin & ack & Etr & Hdel & Hbeg & Hend & Hdrop)].
  - split; [done|]. intros id Hsafe Hgone. destruct (runs_deleted _ _ _ _ Hruns Hok Hsafe Hgone) as [tx Htx].
    rewrite Hdel in Htx. by apply not_elem_of_nil in Htx.
  - split.
    + rewrite Etr, omap_app, Hbeg. simpl. intros tx' ->%list_elem_of_singleton.
      destruct fin using rev_ind; [done|]. rewrite last_snoc in Hend. by rewrite !app_comm_cons, last_snoc.
    + intros id Hsafe Hgone. destruct (runs_deleted _ _ _ _ Hruns Hok Hsafe Hgone) as [tx' Htx].
      rewrite Etr, omap_app, Hdel in Htx. simpl in Htx.
      destruct ack; [|by apply not_elem_of_nil in Htx]. apply list_elem_of_singleton in Htx as [= -> ->].
      exists tx, row. rewrite Etr, omap_app. split_and!; [by left|done|by apply Hdrop].
Qed.
End linked.

(** ** Any number of dispatchers on one table *)
Section system.
Context `{UnicodeTables}.

(** A round of some dispatcher, as far as it has got. *)
Definition Worker : Type := prog LinkE (bool * option ProcessError * option (Delivery * nat)).
Record System : Type := {
  table : Table;
  workers : list Worker;
  (** transaction handles are not used twice *)
  used : gset nat;
}.
Definition with_workers (s : System) (ws : list Worker) : System := {| table := table s; workers := ws; used := used s |}.
Definition start : System := {| table := empty_table; workers := []; used := ∅ |}.

(** What can be seen: a statement of one round, something outside, or nothing of the queue. *)
Inductive Happening : Type := Said (i : nat) (c : call SqlE) | Outside | Elsewhere.

Inductive sys_step (s : System) : Happening → System → Prop :=
| sys_start d : sys_step s Elsewhere (with_workers s (workers s ++ [interp link (processOne d) None]))
| sys_says i (X : Set) (e : SqlE X) k x t' :
    workers s !! i = Some (Vis (Sql e) k) → sql_step (table s) (Call e x) t' →
    (∀ tx, begun (Call e x) = Some tx → tx ∉ used s) →
    sys_step s (Said i (Call e x))
      {| table := t'; workers := <[i := k x]> (workers s); used := list_to_set (option_list (begun (Call e x))) ∪ used s |}
| sys_other i (X : Set) (e : DispatchE X) k x :
    workers s !! i = Some (Vis (Other e) k) → sys_step s Elsewhere (with_workers s (<[i := k x]> (workers s)))
(** the process dies; its transaction is ended from outside, some time *)
| sys_crash i r : sys_step s Elsewhere (with_workers s (<[i := Ret r]> (workers s)))
| sys_world t' : env_step (table s) t' → sys_step s Outside {| table := t'; workers := workers s; used := used s |}.

Inductive sys_run (s : System) : list Happening → System → Prop :=
| sys_nil : sys_run s [] s
| sys_snoc hs s1 h s2 : sys_run s hs s1 → sys_step s1 h s2 → sys_run s (hs ++ [h]) s2.

Definition mirrors (h : Happening) (ev : Spec.Event) : Prop :=
  match h with Said _ c => shows c ev | Outside => outside ev | Elsewhere => ev = Spec.Silent end.
Definition said (i : nat) (h : Happening) : option (call SqlE) :=
  match h with Said j c => if decide (j = i) then Some c else None | _ => None end.

(** *** A round keeps to its own transaction and to the delivery it claimed *)
Definition names {X : Set} (e : SqlE X) : option nat :=
  match e with
  | Begin => None
  | DisableIdleTimeout tx | ClaimDelivery tx | DeleteDelivery tx _ | Commit tx | Rollback tx => Some tx
  end.
Definition names_row {X : Set} (e : SqlE X) : option (nat * Z) :=
  match e with DeleteDelivery tx id => Some (tx, id) | _ => None end.
Definition own (X : Set) (e : LinkE X) (past : list (call LinkE)) : Prop :=
  match e with
  | Sql e => (∀ tx, names e = Some tx → tx ∈ omap begun (omap sql_of past)) ∧
      ∀ tx id, names_row e = Some (tx, id) → ∃ row, (tx, row) ∈ omap claimed_row (omap sql_of past) ∧ row_ID row = id
  | Other _ => True
  end.
Definition bound (s : option (Delivery * nat)) (past : list (call LinkE)) : Prop :=
  match s with
  | Some (d, tx) => tx ∈ omap begun (omap sql_of past) ∧
      ∃ row, (tx, row) ∈ omap claimed_row (omap sql_of past) ∧ row_ID row = del_ID d
  | None => True
  end.

Lemma own_here (X : Set) (e : LinkE X) tx d past :
  bound (Some (d, tx)) past →
  (∀ tx', match e with Sql e => names e | Other _ => None end = Some tx' → tx' = tx) →
  (∀ tx' id, match e with Sql e => names_row e | Other _ => None end = Some (tx', id) → tx' = tx ∧ id = del_ID d) →
  own X e past.
Proof.
  intros [Hb (row & Hr & E)] Hn Hd. destruct e as [e|e]; [|done]. split.
  - intros tx' ->%Hn. done.
  - intros tx' id [-> ->]%Hd. by exists row.
Qed.
Lemma bound_later s past past' : past `prefix_of` past' → bound s past → bound s past'.
Proof.
  intros [l ->] Hb. destruct s as [[d tx]|]; [|done]. destruct Hb as [Hb (row & Hr & E)]. unfold bound.
  rewrite !omap_app. split; [set_solver|]. exists row. set_solver.
Qed.
Lemma hist_later (X : Set) (e : LinkE X) x past : past `prefix_of` hist X e x past.
Proof. by eexists. Qed.

Lemma ack_own tx d past : bound (Some (d, tx)) past → wp own hist (lift_sql (ack tx (del_ID d))) (λ _ _, True) past.
Proof.
  intros Hb. split; [eapply own_here; [done|..]; naive_solver|]. intros x.
  pose proof (bound_later _ _ _ (hist_later _ (Sql (DeleteDelivery tx (del_ID d))) x past) Hb) as Hb'.
  destruct x as [[]|e]; cbn -[own hist bound]; (split; [|done]); eapply own_here; [done|..]; naive_solver.
Qed.
Lemma nack_own tx d past : bound (Some (d, tx)) past → wp own hist (lift_sql (nack tx (del_ID d))) (λ _ _, True) past.
Proof. intros Hb. split; [eapply own_here; [done|..]; naive_solver|done]. Qed.
Lemma link_finalize_own f d s past :
  (∀ tx d' past', bound (Some (d', tx)) past' → wp own hist (lift_sql (f tx (del_ID d'))) (λ _ _, True) past') →
  bound s past → wp own hist (link_finalize f d s) (λ rs past', bound rs.2 past') past.
Proof.
  intros Hf Hb. destruct s as [[d' tx]|]; [|done]. unfold link_finalize. case_decide as E; [|done].
  apply wp_bind. rewrite <- E. eapply wp_mono, Hf, Hb. done.
Qed.

(** The statements after [Begin]. *)
Definition begins (tx : nat) (past : list (call LinkE)) : Prop := tx ∈ omap begun (omap sql_of past).
Lemma begins_later (X : Set) (e : LinkE X) x tx past : begins tx past → begins tx (hist X e x past).
Proof. unfold begins, hist. rewrite !omap_app. set_solver. Qed.
Lemma begins_now tx past : begins tx (hist _ (Sql Begin) (Ok tx) past).
Proof. unfold begins, hist. rewrite !omap_app. set_solver. Qed.
Lemma own_begun (X : Set) (e : SqlE X) tx past :
  begins tx past → names e = Some tx → names_row e = None → own X (Sql e) past.
Proof. intros Hb Hn Hd. split; [intros tx'; rewrite Hn; by intros [= <-]|]. intros tx' id. by rewrite Hd. Qed.

Lemma claim_own s past :
  bound s past →
  wp own hist (lift_sql ClaimNext)
    (λ r past', match r with Ok (Some (d, tx)) => bound (Some (d, tx)) past' | _ => bound s past' end) past.
Proof.
  intros Hs. split; [done|]. intros b. pose proof (bound_later _ _ _ (hist_later _ (Sql Begin) b past) Hs) as Hs1.
  destruct b as [tx|e]; [|done]. cbn -[own hist bound]. pose proof (begins_now tx past) as Hb. revert Hb Hs1.
  generalize (hist _ (Sql Begin) (Ok tx) past). intros p1 Hb Hs1. split; [by apply (own_begun _ _ tx)|]. intros x.
  apply (begins_later _ (Sql (DisableIdleTimeout tx)) x) in Hb.
  apply (bound_later _ _ _ (hist_later _ (Sql (DisableIdleTimeout tx)) x p1)) in Hs1. revert Hb Hs1.
  generalize (hist _ (Sql (DisableIdleTimeout tx)) x p1). intros p2 Hb Hs2.
  assert (Hend : own _ (Sql (Rollback tx)) p2 ∧ ∀ r, bound s (hist _ (Sql (Rollback tx)) r p2)).
  { split; [by apply (own_begun _ _ tx)|]. intros r. eapply bound_later, Hs2. apply hist_later. }
  destruct x as [[]|e]; [|exact Hend]. cbn -[own hist bound]. split; [by apply (own_begun _ _ tx)|]. intros row.
  pose proof (bound_later _ _ _ (hist_later _ (Sql (ClaimDelivery tx)) row p2) Hs2) as Hs3.
  pose proof (begins_later _ (Sql (ClaimDelivery tx)) row _ _ Hb) as Hb3.
  destruct row as [row|[|e]]; cbn -[own hist bound].
  - split; [done|]. exists row. split; [|done]. unfold hist. rewrite !omap_app. set_solver.
  - split; [by apply (own_begun _ _ tx)|]. intros r. eapply bound_later, Hs3. apply hist_later.
  - split; [by apply (own_begun _ _ tx)|]. intros r. eapply bound_later, Hs3. apply hist_later.
Qed.

Lemma link_own (X : Set) (e : DispatchE X) s past :
  bound s past → wp own hist (link X e s) (λ xs past', bound xs.2 past') past.
Proof.
  intros Hb. destruct e; cbn [link]; try (split; [done|]; intros x; eapply bound_later, Hb; apply hist_later).
  - apply wp_bind. eapply wp_mono; [|by apply (claim_own s)]. by intros [[[d tx]|]|err] past' Hc.
  - by apply link_finalize_own; [apply ack_own|].
  - by apply link_finalize_own; [apply nack_own|].
Qed.
Lemma linked_own {A} (p : prog DispatchE A) s past : bound s past → wp own hist (interp link p s) (λ _ _, True) past.
Proof.
  revert s past. induction p as [a|X e k IH]; intros s past Hb; [done|]. cbn [interp]. apply wp_bind.
  eapply wp_mono; [|by apply link_own]. intros [x s'] past' Hb'. by apply IH.
Qed.

(** *** What holds along every run *)
Definition statements_of (i : nat) (hs : list Happening) : list (call SqlE) := omap (said i) hs.
(** The transaction a statement opens or is made in. *)
Definition in_tx (c : call SqlE) : option nat :=
  match begun c with Some tx => Some tx | None => match c with Call e _ => names e end end.

Record sound (hs : list Happening) (s : System) : Prop := {
  so_reachable : reachable (table s);
  so_open tx x : open (table s) !! tx = Some x → tx ∈ used s;
  so_used i tx : tx ∈ omap begun (statements_of i hs) → tx ∈ used s;
  (** a transaction is begun by one round, which alone speaks in it *)
  so_one i j tx : tx ∈ omap begun (statements_of i hs) → tx ∈ omap begun (statements_of j hs) → i = j;
  so_own i c tx : c ∈ statements_of i hs → in_tx c = Some tx → tx ∈ omap begun (statements_of i hs);
  (** while its transaction is open, a claimed row is locked by it *)
  so_holds i tx row x :
    (tx, row) ∈ omap claimed_row (statements_of i hs) → open (table s) !! tx = Some x → row_ID row ∈ tx_locks x;
  so_claims i tx row : (tx, row) ∈ omap claimed_row (statements_of i hs) → tx ∈ used s;
  so_worker i w : workers s !! i = Some w → ∃ past, wp own hist w (λ _ _, True) past ∧ omap sql_of past = statements_of i hs;
  so_fresh i : length (workers s) ≤ i → statements_of i hs = [];
  so_queue : ∃ evs q, Forall2 mirrors hs evs ∧ Spec.run Spec.empty evs q ∧ stands_for (table s) q;
}.

Lemma statements_snoc i hs h : statements_of i (hs ++ [h]) = statements_of i hs ++ option_list (said i h).
Proof. unfold statements_of. rewrite omap_app. simpl. by destruct (said i h). Qed.
Lemma statements_quiet i hs h : (∀ j c, h ≠ Said j c) → statements_of i (hs ++ [h]) = statements_of i hs.
Proof. intros Hq. rewrite statements_snoc. destruct h as [j c| |]; [by destruct (Hq j c)|by rewrite app_nil_r..]. Qed.

Lemma run_mirrored hs s h t' :
  (∃ evs q, Forall2 mirrors hs evs ∧ Spec.run Spec.empty evs q ∧ stands_for (table s) q) →
  (∀ q, stands_for (table s) q → ∃ ev q', mirrors h ev ∧ Spec.step q ev q' ∧ stands_for t' q') →
  ∃ evs q, Forall2 mirrors (hs ++ [h]) evs ∧ Spec.run Spec.empty evs q ∧ stands_for t' q.
Proof.
  intros (evs & q & Hm & Hr & Hq) Hstep. destruct (Hstep q Hq) as (ev & q' & Hev & Hs & Hq'). exists (evs ++ [ev]), q'.
  split_and!; [by apply Forall2_app; [|constructor]|by eapply Spec.run_snoc|done].
Qed.

(** Only a BEGIN opens a transaction, and an open one keeps its locks. *)
Lemma sql_step_keeps t c t' tx x' :
  sql_step t c t' → open t' !! tx = Some x' →
  begun c = Some tx ∨ ∃ x, open t !! tx = Some x ∧ tx_locks x ⊆ tx_locks x'.
Proof.
  intros Hs Ho. destruct Hs as [tx0 Hx| | | |tx0 x id row Hx _| | |tx0 x id Hx _ _| | |tx0 x Hx|tx0 e|tx0 x e Hx|tx0 r|];
    simpl in Ho; try (by right; exists x'); try (by apply lookup_delete_Some in Ho as [_ Ho]; right; exists x').
  - apply lookup_insert_Some in Ho as [[<- _]|[_ Ho]]; [by left|right; by exists x'].
  - right. apply lookup_insert_Some in Ho as [[<- <-]|[_ Ho]]; [exists x; set_solver|by exists x'].
  - right. apply lookup_insert_Some in Ho as [[<- <-]|[_ Ho]]; [exists x; set_solver|by exists x'].
Qed.
Lemma claim_locks t c t' tx row :
  table_ok t → sql_step t c t' → claimed_row c = Some (tx, row) →
  is_Some (open t !! tx) ∧ ∀ x, open t' !! tx = Some x → row_ID row ∈ tx_locks x.
Proof.
  intros Hok Hs Hc. destruct Hs as [| | | |tx0 x id row' Hx (Hr & _ & _)| | | | | | | | | |]; try done.
  injection Hc as -> ->. split; [done|]. simpl. intros x'. rewrite lookup_insert_eq. intros [= <-].
  destruct (ok_ids _ Hok _ _ Hr) as [-> _]. set_solver.
Qed.
Lemma env_step_keeps t t' tx x' : env_step t t' → open t' !! tx = Some x' → open t !! tx = Some x'.
Proof. intros [|row _ _|i|tx0] Ho; simpl in Ho; try done. by apply lookup_delete_Some in Ho as [_ Ho]. Qed.

(** A happening that is no statement. *)
Lemma sound_quiet hs h s s' :
  sound hs s → (∀ j c, h ≠ Said j c) → used s' = used s →
  reachable (table s') → (∀ tx x, open (table s') !! tx = Some x → open (table s) !! tx = Some x) →
  (∀ q, stands_for (table s) q → ∃ ev q', mirrors h ev ∧ Spec.step q ev q' ∧ stands_for (table s') q') →
  (∀ i w, workers s' !! i = Some w → ∃ past, wp own hist w (λ _ _, True) past ∧ omap sql_of past = statements_of i hs) →
  length (workers s) ≤ length (workers s') →
  sound (hs ++ [h]) s'.
Proof.
  intros Hs Hh Hu Hr Ho Hst Hw Hl.
  split; [done| | | | | | | | |apply (run_mirrored hs s); [apply (so_queue _ _ Hs)|done]];
    intros *; rewrite ?(statements_quiet _ _ _ Hh), ?(statements_quiet _ _ _ Hh), ?Hu.
  - intros Hx. eapply (so_open _ _ Hs). by apply Ho.
  - apply (so_used _ _ Hs).
  - apply (so_one _ _ Hs).
  - apply (so_own _ _ Hs).
  - intros Hc Hx. eapply (so_holds _ _ Hs); [done|]. by apply Ho.
  - apply (so_claims _ _ Hs).
  - apply Hw.
  - intros Hi. apply (so_fresh _ _ Hs). lia.
Qed.
Lemma sound_elsewhere hs s ws :
  sound hs s → length (workers s) ≤ length ws →
  (∀ i w, ws !! i = Some w → ∃ past, wp own hist w (λ _ _, True) past ∧ omap sql_of past = statements_of i hs) →
  sound (hs ++ [Elsewhere]) (with_workers s ws).
Proof.
  intros Hs Hl Hw. apply (sound_quiet _ _ s); try done; [apply Hs|]. intros q Hq. exists Spec.Silent, q. split_and!; [done|constructor|done].
Qed.

(** A worker that is owed nothing by the others: replacing one keeps the rest. *)
Lemma workers_insert hs s i w0 w :
  sound hs s → workers s !! i = Some w0 →
  (∃ past, wp own hist w (λ _ _, True) past ∧ omap sql_of past = statements_of i hs) →
  ∀ j w', <[i := w]> (workers s) !! j = Some w' →
  ∃ past, wp own hist w' (λ _ _, True) past ∧ omap sql_of past = statements_of j hs.
Proof. intros Hs Hi Hp j w' [(-> & <- & _)|[_ Hj]]%list_lookup_insert_Some; [done|by apply (so_worker _ _ Hs)]. Qed.

Lemma sound_says hs s i (X : Set) (e : SqlE X) k x t' :
  sound hs s → workers s !! i = Some (Vis (Sql e) k) → sql_step (table s) (Call e x) t' →
  (∀ tx, begun (Call e x) = Some tx → tx ∉ used s) →
  sound (hs ++ [Said i (Call e x)])
    {| table := t'; workers := <[i := k x]> (workers s); used := list_to_set (option_list (begun (Call e x))) ∪ used s |}.
Proof.
  intros Hs Hi Hst Hnew. set (c := Call e x) in *. pose proof (reachable_ok _ (so_reachable _ _ Hs)) as Hok.
  destruct (so_worker _ _ Hs _ _ Hi) as (past & [Hpre Hk] & Hpast). simpl in Hpre. destruct Hpre as [Hnm Hrow]. rewrite Hpast in Hnm, Hrow.
  assert (Hsaid : ∀ j, statements_of j (hs ++ [Said i c]) = statements_of j hs ++ (if decide (i = j) then [c] else [])).
  { intros j. rewrite statements_snoc. simpl. by case_decide. }
  assert (Hbeg : ∀ j tx, tx ∈ omap begun (statements_of j (hs ++ [Said i c])) →
    tx ∈ omap begun (statements_of j hs) ∨ (i = j ∧ begun c = Some tx)).
  { intros j tx. rewrite Hsaid, omap_app, elem_of_app. intros [?|Hin]; [by left|right]. case_decide; [|by apply not_elem_of_nil in Hin].
    split; [done|]. apply list_elem_of_omap in Hin as (c' & ->%list_elem_of_singleton & ?). done. }
  split; cbn [table workers used].
  - by eapply reachable_sql; [apply Hs|].
  - intros tx x0 Ho. destruct (sql_step_keeps _ _ _ _ _ Hst Ho) as [->|(x1 & Hx1 & _)]; [set_solver|].
    apply elem_of_union; right. by eapply (so_open _ _ Hs).
  - intros j tx [Hin|[_ ->]]%Hbeg; [|set_solver]. apply elem_of_union; right. by eapply (so_used _ _ Hs).
  - intros j1 j2 tx [H1|[-> H1]]%Hbeg [H2|[-> H2]]%Hbeg; try done; [by eapply (so_one _ _ Hs)|..].
    + exfalso. eapply Hnew; [done|]. by eapply (so_used _ _ Hs).
    + exfalso. eapply Hnew; [done|]. by eapply (so_used _ _ Hs).
  - intros j c' tx. rewrite Hsaid, omap_app, !elem_of_app. intros [Hin|Hin] Htx; [left; by eapply (so_own _ _ Hs)|].
    case_decide as Ej; [subst j|by apply not_elem_of_nil in Hin]. apply list_elem_of_singleton in Hin as ->. unfold in_tx in Htx.
    destruct (begun c) as [tx'|] eqn:Eb; [|left; by apply Hnm]. injection Htx as ->. right. apply list_elem_of_omap. exists c. split; [by left|done].
  - intros j tx row x0 Hin Ho. rewrite Hsaid, omap_app, elem_of_app in Hin. destruct Hin as [Hin|Hin].
    + destruct (sql_step_keeps _ _ _ _ _ Hst Ho) as [Hb|(x1 & Hx1 & Hsub)]; [|apply Hsub; by eapply (so_holds _ _ Hs)].
      exfalso. eapply Hnew; [done|]. by eapply (so_claims _ _ Hs).
    + case_decide; [|by apply not_elem_of_nil in Hin]. apply list_elem_of_omap in Hin as (c' & ->%list_elem_of_singleton & Hc).
      by eapply claim_locks.
  - intros j tx row Hin. rewrite Hsaid, omap_app, elem_of_app in Hin. apply elem_of_union; right.
    destruct Hin as [Hin|Hin]; [by eapply (so_claims _ _ Hs)|].
    case_decide; [|by apply not_elem_of_nil in Hin]. apply list_elem_of_omap in Hin as (c' & ->%list_elem_of_singleton & Hc).
    destruct (claim_locks _ _ _ _ _ Hok Hst Hc) as [[x1 Hx1] _]. by eapply (so_open _ _ Hs).
  - intros j w. rewrite Hsaid. intros [(-> & <- & _)|[Hne Hj]]%list_lookup_insert_Some.
    + exists (hist _ (Sql e) x past). split; [apply Hk|]. rewrite decide_True by done. unfold hist. by rewrite omap_app, Hpast.
    + rewrite decide_False, app_nil_r by done. by apply (so_worker _ _ Hs).
  - intros j. rewrite length_insert, Hsaid. intros Hj. rewrite (so_fresh _ _ Hs) by done.
    destruct (decide (i = j)) as [->|]; [|done]. apply lookup_ge_None_2 in Hj. discriminate (eq_trans (eq_sym Hj) Hi).
  - apply (run_mirrored hs s); [apply (so_queue _ _ Hs)|]. intros q Hq. apply (sql_step_refines _ _ _ _ Hok Hq Hst).
    intros tx id x0 Ha Ho. assert (Hn : names_row e = Some (tx, id)). { unfold c in Ha. destruct e; try done. by destruct x. }
    destruct (Hrow _ _ Hn) as (row & Hin & <-). by eapply (so_holds _ _ Hs).
Qed.

Lemma sys_run_sound hs s : sys_run start hs s → sound hs s.
Proof.
  induction 1 as [|hs s1 h s2 _ IH Hst].
  - split; simpl; try done; [constructor|set_solver..|]. exists [], Spec.empty. split_and!; [constructor..|].
    split; simpl; [done|intros id tx|intros id]; rewrite ?lookup_empty.
    + split; [done|]. by intros (x & ? & _).
    + split; [set_solver|]. by intros (tx & x & ? & _).
  - destruct Hst as [d|i X e k x t' Hi Hst Hnew|i X e k x Hi|i r|t' Hw].
    + apply sound_elsewhere; [done|rewrite length_app; lia|]. intros i w [Hi|[Hi Hw]]%lookup_app_Some; [by apply (so_worker _ _ IH)|].
      exists []. rewrite (so_fresh _ _ IH) by done. split; [|done].
      apply list_lookup_singleton_Some in Hw as [_ <-]. by apply linked_own.
    + by apply sound_says.
    + apply sound_elsewhere; [done|by rewrite length_insert|]. eapply workers_insert; [done..|].
      destruct (so_worker _ _ IH _ _ Hi) as (past & [_ Hk] & Hp). exists (hist _ (Other e) x past).
      split; [apply Hk|]. unfold hist. by rewrite omap_app, app_nil_r.
    + apply sound_elsewhere; [done|by rewrite length_insert|]. intros j w [(-> & <- & Hj)|[_ Hj]]%list_lookup_insert_Some; [|by apply (so_worker _ _ IH)].
      apply lookup_lt_is_Some in Hj as [w0 Hw0]. destruct (so_worker _ _ IH _ _ Hw0) as (past & _ & Hp). by exists past.
    + apply (sound_quiet _ _ s1); try done; [by apply (reachable_env _ _ (so_reachable _ _ IH))|intros tx x; by apply env_step_keeps| |apply (so_worker _ _ IH)].
      intros q Hq. pose proof (reachable_ok _ (so_reachable _ _ IH)). by eapply env_step_refines.
Qed.

(** C12. Any number of dispatchers and receivers on the table are a queue.  In every run
    of the system - rounds of dispatchers starting, speaking to the database and dying at
    any point, deliveries arriving, sessions lost - each statement a round makes and each
    event from outside is the step of the specification it reads as: a claim hands out the
    oldest delivery nobody holds, to that transaction; an empty claim says that every
    delivery is held; a removal is asked for by the transaction the delivery is held for,
    and the commit of that transaction, no other event, drops it; and what the tables hold
    is at the end the queue the specification has reached.  A transaction, moreover, is
    spoken in by one round only. *)
Theorem table_refines_queue hs s :
  sys_run start hs s →
  (∃ evs q, Forall2 mirrors hs evs ∧ Spec.run Spec.empty evs q ∧ stands_for (table s) q) ∧
  (∀ i j ci cj tx, Said i ci ∈ hs → Said j cj ∈ hs → in_tx ci = Some tx → in_tx cj = Some tx → i = j).
Proof.
  intros Hs%sys_run_sound. split; [apply Hs|]. intros i j ci cj tx Hi Hj Ei Ej.
  assert (Hin : ∀ n c, Said n c ∈ hs → c ∈ statements_of n hs).
  { intros n c Hc. apply list_elem_of_omap. exists (Said n c). simpl. by rewrite decide_True. }
  eapply (so_one _ _ Hs); eapply (so_own _ _ Hs); [by apply Hin|exact Ei|by apply Hin|exact Ej].
Qed.
End system.

(** A round on its own is a run of the system. *)
Lemma runs_nil_inv t t' : runs t [] t' → rtc env_step t t'.
Proof. remember [] as l. induction 1; [done|done|]. by eapply rtc_l; auto. Qed.
Lemma runs_cons_inv t c l t' : runs t (c :: l) t' → ∃ t0 t1, rtc env_step t t0 ∧ sql_step t0 c t1 ∧ runs t1 l t'.
Proof.
  remember (c :: l) as l0. induction 1 as [|t c' t1 tr t2 Hs Hr _|t t1 tr t2 He Hr IH]; [done| |].
  - injection Heql0 as -> ->. by exists t, t1.
  - destruct (IH Heql0) as (t3 & t4 & H3 & ?). exists t3, t4. split; [by eapply rtc_l|done].
Qed.
Lemma env_alone `{UnicodeTables} hs s t' :
  sys_run start hs s → rtc env_step (table s) t' →
  ∃ k, sys_run start (hs ++ replicate k Outside) {| table := t'; workers := workers s; used := used s |}.
Proof.
  intros Hs Hr. remember (table s) as t eqn:Et. revert hs s Hs Et. induction Hr as [t|t t1 t2 He _ IH]; intros hs [t0 ws us] Hs ->; simpl in *.
  - exists 0. by rewrite app_nil_r.
  - destruct (IH (hs ++ [Outside]) {| table := t1; workers := ws; used := us |}) as [k Hk]; [|done|].
    + eapply sys_snoc; [exact Hs|]. by apply (sys_world {| table := t0; workers := ws; used := us |}).
    + exists (S k). by rewrite <- app_assoc in Hk.
Qed.
Lemma begun_in (X : Set) (e : SqlE X) x l tx : begun (Call e x) = Some tx → tx ∈ omap begun (Call e x :: l).
Proof. intros E. apply list_elem_of_omap. exists (Call e x). split; [by left|done]. Qed.
Lemma begun_cons (X : Set) (e : SqlE X) x tr :
  omap begun (omap sql_of (Call (Sql e) x :: tr)) = option_list (begun (Call e x)) ++ omap begun (omap sql_of tr).
Proof. change (omap sql_of (Call (Sql e) x :: tr)) with (Call e x :: omap sql_of tr). cbn [omap list_omap]. by destruct (begun (Call e x)). Qed.
Lemma run_alone `{UnicodeTables} (p : Worker) hs s tr a t' :
  sys_run start hs s → workers s = [p] → exec p tr a → runs (table s) (omap sql_of tr) t' →
  NoDup (omap begun (omap sql_of tr)) ∧ (∀ tx, tx ∈ omap begun (omap sql_of tr) → tx ∉ used s) →
  ∃ hs' s', sys_run start hs' s' ∧ table s' = t' ∧ hs ⊆ hs' ∧ ∀ c, c ∈ omap sql_of tr → Said 0 c ∈ hs'.
Proof.
  revert hs s tr. induction p as [b|X e k IH]; intros hs s tr Hrun Hw.
  - intros [-> _] Hr%runs_nil_inv _. destruct (env_alone _ _ _ Hrun Hr) as [n Hn]. eexists _, _. split_and!; [exact Hn|done|set_solver|].
    intros c []%not_elem_of_nil.
  - intros (x & tr' & -> & Hex) Hr [Hnd Hfresh]. destruct e as [e|e].
    + simpl in Hr. apply runs_cons_inv in Hr as (t0 & t1 & Henv & Hst & Hr). destruct (env_alone _ _ _ Hrun Henv) as [n Hn].
      set (s1 := {| table := t0; workers := workers s; used := used s |}) in *.
      assert (Hi : workers s1 !! 0 = Some (Vis (Sql e) k)) by (simpl; by rewrite Hw).
      assert (Hb : ∀ tx, begun (Call e x) = Some tx → tx ∉ used s1) by (intros tx E; apply Hfresh; exact (begun_in _ e x _ tx E)).
      pose proof (sys_says s1 0 X e k x t1 Hi Hst Hb) as Hstep.
      destruct (IH x _ _ tr' (sys_snoc _ _ _ _ _ Hn Hstep)) as (hs' & s' & H1 & H2 & H3 & H4); [simpl; by rewrite Hw|done|exact Hr| |].
      * rewrite begun_cons in Hnd, Hfresh. cbn [used]. apply NoDup_app in Hnd as (_ & Hd & Hnd). split; [done|].
        intros tx Htx [Hin%elem_of_list_to_set|Hin]%elem_of_union; [by eapply Hd|]. eapply Hfresh, Hin. apply elem_of_app. by right.
      * exists hs', s'. split_and!; [done..|set_solver|]. intros c [->|Hc]%elem_of_cons; [set_solver|by apply H4].
    + set (s1 := with_workers s (<[0 := k x]> (workers s))).
      assert (Hi : workers s !! 0 = Some (Vis (Other e) k)) by by rewrite Hw.
      destruct (IH x _ s1 tr' (sys_snoc _ _ _ _ _ Hrun (sys_other s 0 X e k x Hi))) as (hs' & s' & H1 & H2 & H3 & H4);
        [simpl; by rewrite Hw|done|exact Hr|by split|].
      exists hs', s'. split_and!; [done..|set_solver|done].
Qed.

(** ** A worked example *)
Module QueueExample.
#[local] Instance tables : UnicodeTables := ascii_tables.
Definition row : ClaimDeliveryRow :=
  {| row_ID := 1; row_DeliveryID := "d1"; row_Repo := "acme/shop"; row_EventType := "push"; row_AppName := None |}.
(** One delivery waiting. *)
Definition waiting : Table := {| rows := {[1%Z := row]}; open := ∅; next_id := 2; drawn := ∅ |}.

Definition drawing : Table := {| rows := ∅; open := ∅; next_id := 2; drawn := {[1%Z]} |}.

Lemma waiting_reachable : reachable waiting.
Proof.
  assert (Hd : reachable drawing) by exact (reachable_env _ drawing reachable_empty (env_draw empty_table)).
  refine (reachable_env _ waiting Hd (env_insert drawing row _ _)); [vm_compute; reflexivity|].
  intros id r. simpl. by rewrite lookup_empty.
Qed.

(** A server on which everything works, with transaction 7. *)
Definition server (X : Set) (e : SqlE X) : X :=
  match e in SqlE X return X with
  | Begin => Ok 7
  | DisableIdleTimeout _ => Ok ()
  | ClaimDelivery _ => Ok row
  | DeleteDelivery _ _ => Ok ()
  | Commit _ => Ok ()
  | Rollback _ => Ok ()
  end.
Definition environment (X : Set) (e : LinkE X) (w : DispatcherExample.world) : X * DispatcherExample.world :=
  match e with
  | Sql e => (server X e, w)
  | Other e => DispatcherExample.environment X e w
  end.
Definition round : bool * option ProcessError * option (Delivery * nat) * list (call LinkE) * DispatcherExample.world :=
  run environment (interp link (processOne (DispatcherExample.dispatcher 0)) None) ([], []).

Lemma queue_round_exec :
  exec (interp link (processOne (DispatcherExample.dispatcher 0)) None) round.1.2 ((true, None), None).
Proof. exact (run_exec environment (interp link (processOne (DispatcherExample.dispatcher 0)) None) ([], [])). Qed.

Definition statements : list (call SqlE) :=
  [Call Begin (Ok 7); Call (DisableIdleTimeout 7) (Ok ()); Call (ClaimDelivery 7) (Ok row);
   Call (DeleteDelivery 7 1) (Ok ()); Call (Commit 7) (Ok ())].
Lemma round_statements : omap sql_of round.1.2 = statements.
Proof. vm_compute. reflexivity. Qed.

Definition fresh : Transaction := {| tx_locks := ∅; tx_deletes := ∅ |}.
Definition began : Table := with_open waiting (<[7 := fresh]> (open waiting)).
Definition took : Table := with_open began (<[7 := taking fresh 1]> (open began)).
Definition dropped : Table := with_open took (<[7 := deleting (taking fresh 1) 1]> (open took)).
Definition finished : Table := apply_tx dropped 7 (deleting (taking fresh 1) 1).

Lemma began_unlocked id : id ∉ locked began.
Proof.
  rewrite elem_of_locked. intros (tx & x & Hx & Hid). unfold began in Hx. simpl in Hx.
  rewrite insert_empty, lookup_singleton_Some in Hx. destruct Hx as [_ <-]. set_solver.
Qed.

Lemma claimable : oldest_free began 1 row.
Proof.
  split_and!; [done|apply began_unlocked|]. intros id' row' Hr _. simpl in Hr.
  apply lookup_singleton_Some in Hr as [<- _]. done.
Qed.

Lemma round_runs : runs waiting statements finished.
Proof.
  eapply runs_sql; [by apply sql_begin|]. eapply runs_sql; [by eapply sql_set|].
  eapply runs_sql; [by apply (sql_claim _ _ fresh 1), claimable|].
  eapply runs_sql; [eapply (sql_delete took 7 (taking fresh 1) 1); [done|by eexists|]|].
  { intros Hl. apply elem_of_locked in Hl as (tx & x & Hx & _). simpl in Hx.
    rewrite !insert_insert_eq, insert_empty, delete_singleton_eq, lookup_empty in Hx. done. }
  eapply runs_sql; [by apply sql_commit|]. apply runs_nil.
Qed.

(** The delivery arrives, one dispatcher starts and goes through its round. *)
Definition worker : Worker := interp link (processOne (DispatcherExample.dispatcher 0)) None.
Lemma system_runs : ∃ hs s, sys_run start hs s ∧ table s = finished ∧ Said 0 (Call (Commit 7) (Ok ())) ∈ hs.
Proof.
  assert (Hst : sys_run start [Outside; Outside; Elsewhere] {| table := waiting; workers := [worker]; used := ∅ |}).
  { apply (sys_snoc _ [Outside; Outside] {| table := waiting; workers := []; used := ∅ |}); [|exact (sys_start {| table := waiting; workers := []; used := ∅ |} (DispatcherExample.dispatcher 0))].
    apply (sys_snoc _ [Outside] {| table := drawing; workers := []; used := ∅ |}).
    - apply (sys_snoc _ [] start); [constructor|]. apply (sys_world start drawing), (env_draw empty_table).
    - apply sys_world. apply (env_insert drawing row); [vm_compute; reflexivity|]. intros id r. simpl. by rewrite lookup_empty. }
  pose proof queue_round_exec as Hex. pose proof round_runs as Hruns. rewrite <- round_statements in Hruns.
  destruct (run_alone _ _ _ _ _ _ Hst eq_refl Hex Hruns) as (hs & s & Hrun & Ht & _ & Hs).
  - rewrite round_statements. split; [apply NoDup_singleton|]. intros tx _. apply not_elem_of_empty.
  - exists hs, s. split_and!; [done..|]. apply Hs. rewrite round_statements. by do 4 right; left.
Qed.
End QueueExample.

Lemma table_refines_queue_witness :
  ∃ hs s evs q, @sys_run ascii_tables start hs s ∧ table s = QueueExample.finished ∧ Forall2 mirrors hs evs ∧
    Spec.Finished 7 ∈ evs ∧ Spec.run Spec.empty evs q ∧ Spec.pending q = rows QueueExample.finished.
Proof.
  destruct QueueExample.system_runs as (hs & s & Hrun & Ht & Hin).
  destruct (@table_refines_queue ascii_tables hs s Hrun) as [(evs & q & Hm & Hr & Hq) _].
  exists hs, s, evs, q. split; [exact Hrun|]. split; [exact Ht|]. split; [exact Hm|]. split; [|split; [exact Hr|rewrite <- Ht; apply (st_pending _ _ Hq)]].
  apply list_elem_of_lookup in Hin as [n Hn]. destruct (Forall2_lookup_l _ _ _ _ _ Hm Hn) as (ev & Hev & ->).
  by eapply list_elem_of_lookup_2.
Defined.

Lemma queue_invariant_witness : row_ID QueueExample.row = 1%Z.
Proof. apply (ok_ids _ (queue_invariant _ QueueExample.waiting_reachable) 1%Z). reflexivity. Defined.

Lemma linked_no_loss_witness :
  rows QueueExample.waiting !! 1%Z = Some QueueExample.row ∧ rows QueueExample.finished !! 1%Z = None ∧
  ∃ tx row, (tx, row) ∈ omap claimed_row (omap sql_of QueueExample.round.1.2) ∧ row_ID row = 1%Z.
Proof.
  split; [reflexivity|]. split; [vm_compute; reflexivity|].
  edestruct (@linked_no_loss ascii_tables) as [_ Hrow];
    [apply QueueExample.waiting_reachable|apply QueueExample.queue_round_exec|
     rewrite QueueExample.round_statements; apply QueueExample.round_runs|].
  destruct (Hrow 1%Z) as (tx & row & ? & ? & _); [|vm_compute; reflexivity|by exists tx, row].
  split; [by eexists|]. intros tx x. simpl. by rewrite lookup_empty.
Defined.
