(* ===== verification/GitResolver.v ===== *)
(** * The Git commit resolver

    Models [operator/internal/gitresolver/resolver.go]: resolving a ref of an
    anonymous HTTPS Git repository through the smart-HTTP ref advertisement, without
    reaching private addresses.  Addresses are integers with the classification of
    [net/netip] written out, the advertisement is parsed byte by byte.  URL and media
    type parsing are arguments ([UrlLib]); DNS, dialing and the HTTP round trip are
    calls with arbitrary replies.  The HTTP client reaches the network only through
    [dialContext] and follows only what [checkRedirect] permits. *)
From S2P Require Import Prelude Regex GoStrings Effects Sha256 Kube Api Names Features Dispatcher.
From Stdlib Require Import Ascii.

(** ** Constants *)
Definition advertisementMediaType : string := "application/x-git-upload-pack-advertisement".
Definition maxAdvertisementBytes : Z := 4 * 2 ^ 20.
Definition maxRefLength : nat := 250.
Definition maxRedirects : nat := 10.

(** ** Addresses *)

(** [netip.Addr]: 32 or 128 bits, an IPv6 address with its zone. *)
Inductive Addr : Set :=
| IP4 (a : Z)
| IP6 (a : Z) (zone : string).
#[export] Instance Addr_eq_dec : EqDecision Addr.
Proof. solve_decision. Defined.

Section netip.
#[local] Open Scope Z_scope.

(** The [n]th byte of a [w]-bit address, from the left. *)
Definition octet (w a n : Z) : Z := Z.land (Z.shiftr a (w - 8 * (n + 1))) 255.
Definition v4 (a n : Z) : Z := octet 32 a n.
Definition v6 (a n : Z) : Z := octet 128 a n.
Definition v6u16 (a n : Z) : Z := Z.land (Z.shiftr a (128 - 16 * (n + 1))) 65535.

Definition Zone (ip : Addr) : string := match ip with IP4 _ => "" | IP6 _ z => z end.
Definition Is4 (ip : Addr) : bool := match ip with IP4 _ => true | IP6 _ _ => false end.
Definition Is6 (ip : Addr) : bool := negb (Is4 ip).
Definition Is4In6 (ip : Addr) : bool :=
  match ip with IP4 _ => false | IP6 a _ => Z.shiftr a 32 =? 65535 end.
Definition Unmap (ip : Addr) : Addr :=
  match ip with IP6 a _ => if Is4In6 ip then IP4 (Z.land a (2 ^ 32 - 1)) else ip | IP4 _ => ip end.

Definition IsLoopback (ip : Addr) : bool :=
  match Unmap ip with IP4 a => v4 a 0 =? 127 | IP6 a _ => a =? 1 end.
Definition IsMulticast (ip : Addr) : bool :=
  match Unmap ip with IP4 a => Z.land (v4 a 0) 240 =? 224 | IP6 a _ => v6 a 0 =? 255 end.
Definition IsLinkLocalUnicast (ip : Addr) : bool :=
  match Unmap ip with
  | IP4 a => (v4 a 0 =? 169) && (v4 a 1 =? 254)
  | IP6 a _ => Z.land (v6u16 a 0) 65472 =? 65152
  end.
Definition IsLinkLocalMulticast (ip : Addr) : bool :=
  match Unmap ip with
  | IP4 a => (v4 a 0 =? 224) && (v4 a 1 =? 0) && (v4 a 2 =? 0)
  | IP6 a _ => Z.land (v6u16 a 0) 65295 =? 65282
  end.
Definition IsPrivate (ip : Addr) : bool :=
  match Unmap ip with
  | IP4 a => (v4 a 0 =? 10) || (v4 a 0 =? 172) && (Z.land (v4 a 1) 240 =? 16) || (v4 a 0 =? 192) && (v4 a 1 =? 168)
  | IP6 a _ => Z.land (v6 a 0) 254 =? 252
  end.
(** [IPv4Unspecified], [IPv6Unspecified] *)
Definition IsUnspecified (ip : Addr) : bool :=
  match ip with IP4 a => a =? 0 | IP6 a z => (a =? 0) && bool_decide (z = "") end.
Definition IsGlobalUnicast (ip : Addr) : bool :=
  match ip with
  | IP4 a => negb ((a =? 0) || (a =? 2 ^ 32 - 1)) && negb (IsLoopback ip) && negb (IsMulticast ip) &&
      negb (IsLinkLocalUnicast ip)
  | IP6 _ _ => negb (IsUnspecified ip) && negb (IsLoopback ip) && negb (IsMulticast ip) && negb (IsLinkLocalUnicast ip)
  end.

(** [netip.Prefix]: an address and a length; [Contains] is false across families
    and for an address with a zone. *)
Inductive Prefix : Set :=
| Prefix4 (a bits : Z)
| Prefix6 (a bits : Z).
Definition PrefixContains (p : Prefix) (ip : Addr) : bool :=
  match p, ip with
  | Prefix4 b n, IP4 a => Z.shiftr a (32 - n) =? Z.shiftr b (32 - n)
  | Prefix6 b n, IP6 a z => bool_decide (z = "") && (Z.shiftr a (128 - n) =? Z.shiftr b (128 - n))
  | _, _ => false
  end.

(** Addresses as they are written: four bytes, or the leading 16-bit groups. *)
Definition ip4 (a b c d : Z) : Z := ((a * 256 + b) * 256 + c) * 256 + d.
Definition ip6 (groups : list Z) : Z := foldl (λ z g, z * 65536 + g) 0 groups * 2 ^ (128 - 16 * Z.of_nat (length groups)).

Definition nonPublicSpecialUse : list Prefix :=
  [Prefix4 (ip4 0 0 0 0) 8; Prefix4 (ip4 100 64 0 0) 10; Prefix4 (ip4 192 0 0 0) 24; Prefix4 (ip4 192 0 2 0) 24;
   Prefix4 (ip4 192 88 99 0) 24; Prefix4 (ip4 198 18 0 0) 15; Prefix4 (ip4 198 51 100 0) 24;
   Prefix4 (ip4 203 0 113 0) 24; Prefix4 (ip4 240 0 0 0) 4;
   Prefix6 (ip6 [0x64; 0xff9b; 1]) 48; Prefix6 (ip6 [0x100]) 64; Prefix6 (ip6 [0x2001]) 23;
   Prefix6 (ip6 [0x2001; 0xdb8]) 32; Prefix6 (ip6 [0x2002]) 16; Prefix6 (ip6 [0xfec0]) 10].

Definition isPublicIP (addr : Addr) : bool :=
  if negb (IsGlobalUnicast addr) || IsPrivate addr || IsLoopback addr || IsLinkLocalUnicast addr ||
     IsLinkLocalMulticast addr || IsMulticast addr || IsUnspecified addr
  then false
  else negb (existsb (λ p, PrefixContains p addr) nonPublicSpecialUse).

(** [netip.AddrFromSlice] *)
Definition AddrFromSlice (l : list ascii) : option Addr :=
  if decide (length l = 4%nat) then Some (IP4 (be_word l))
  else if decide (length l = 16%nat) then Some (IP6 (be_word l) "")
  else None.
End netip.

(** ** URLs *)
Record URL : Set := {
  u_Scheme : string;
  u_Opaque : string;
  u_HasUser : bool;
  u_Host : string;
  u_Path : string;
  u_RawPath : string;
  u_ForceQuery : bool;
  u_RawQuery : string;
  u_Fragment : string;
}.

Class UrlLib : Type := {
  ParseURL : string → result string URL;
  Hostname : URL → string;
  Port : URL → string;
  (** [u.Query()], keys in order *)
  Query : URL → list (string * list string);
  Redacted : URL → string;
  (** the error of [http.NewRequestWithContext] *)
  NewRequest : URL → option string;
  ParseMediaType : string → result string string;
  ParseAddr : string → option Addr;
  AddrString : Addr → string;
  SplitHostPort : string → result string (string * string);
}.

Definition with_scheme (u : URL) (s : string) : URL :=
  {| u_Scheme := s; u_Opaque := u_Opaque u; u_HasUser := u_HasUser u; u_Host := u_Host u; u_Path := u_Path u;
     u_RawPath := u_RawPath u; u_ForceQuery := u_ForceQuery u; u_RawQuery := u_RawQuery u; u_Fragment := u_Fragment u |}.

Definition control_char (c : ascii) : bool := (nat_of_ascii c <? 32) || (nat_of_ascii c =? 127).

Section urls.
Context `{UnicodeTables, UrlLib}.

Definition validateURLShape (u : URL) (allowServiceQuery : bool) : option ResolveError :=
  if negb (EqualFold (u_Scheme u) "https") || bool_decide (Hostname u = "") || negb (bool_decide (u_Opaque u = "")) then
    Some (Unresolvable "git: repository URL must be an absolute HTTPS URL")
  else if u_HasUser u then Some (Unresolvable "git: repository URL must not contain credentials")
  else if negb (bool_decide (u_Fragment u = "")) then Some (Unresolvable "git: repository URL must not contain a fragment")
  else if negb (bool_decide (Port u = "")) && negb (bool_decide (Port u = "443")) then
    Some (Unresolvable ("git: repository URL port " +:+ Quote (Port u) +:+ " is not 443"))
  else if negb allowServiceQuery then
    if negb (bool_decide (u_RawQuery u = "")) || u_ForceQuery u then
      Some (Unresolvable "git: repository URL must not contain a query")
    else None
  else if decide (Query u = [("service", ["git-upload-pack"])]) then None
  else Some (Unresolvable "git: redirected upload-pack URL changed its service query").

Definition parseRepositoryURL (raw : string) : result ResolveError URL :=
  if bool_decide (raw = "") || negb (bool_decide (raw = TrimSpace raw)) || existsb control_char (bytes raw) then
    Err (Unresolvable "git: repository URL is empty or contains whitespace/control characters")
  else
    match ParseURL raw with
    | Err e => Err (Unresolvable ("git: parsing repository URL: " +:+ e))
    | Ok u =>
        match validateURLShape u false with
        | Some e => Err e
        | None => Ok (with_scheme u "https")
        end
    end.

Definition endpoint_of (u : URL) : URL :=
  {| u_Scheme := u_Scheme u; u_Opaque := u_Opaque u; u_HasUser := u_HasUser u; u_Host := u_Host u;
     u_Path := TrimRight (u_Path u) "/" +:+ "/info/refs"; u_RawPath := ""; u_ForceQuery := u_ForceQuery u;
     u_RawQuery := "service=git-upload-pack"; u_Fragment := u_Fragment u |}.
End urls.

(** ** Refs *)
Definition bad_ref_char (c : ascii) : bool :=
  (nat_of_ascii c <=? 32) || (nat_of_ascii c =? 127) || one_of "~^:?*[\" c.

Definition validGitRefName (ref : string) : bool :=
  if bool_decide (ref = "@") || HasPrefix ref "/" || HasSuffix ref "/" || HasSuffix ref "." || Contains ref "//" ||
     Contains ref ".." || Contains ref "@{"
  then false
  else if existsb (λ c, bool_decide (c = "") || HasPrefix c "." || HasSuffix c ".lock") (Split ref "/"%char) then false
  else negb (existsb bad_ref_char (bytes ref)).

Definition validateRef `{UnicodeTables} (ref : string) : option ResolveError :=
  if maxRefLength <? len ref then Some (Unresolvable ("git: ref exceeds " +:+ pretty maxRefLength +:+ " bytes"))
  else if bool_decide (ref = "") || bool_decide (ref = "HEAD") then None
  else if HasPrefix ref "refs/" && negb (HasPrefix ref "refs/heads/") && negb (HasPrefix ref "refs/tags/") then
    Some (Unresolvable ("git: ref " +:+ Quote ref +:+ " is outside refs/heads and refs/tags"))
  else
    let full := if HasPrefix ref "refs/" then ref else "refs/heads/" +:+ ref in
    if validGitRefName full then None else Some (Unresolvable ("git: ref " +:+ Quote ref +:+ " is malformed")).

Definition displayRef (ref : string) : string := if decide (ref = "") then "HEAD" else ref.

(** ** The advertisement *)

(** [strconv.ParseUint(s, 16, 16)] of four bytes *)
Definition hex_value (c : ascii) : option Z :=
  let n := Z.of_nat (nat_of_ascii c) in
  if is_digit c then Some (n - 48)%Z
  else if in_range "a" "f" c then Some (n - 87)%Z
  else if in_range "A" "F" c then Some (n - 55)%Z
  else None.
Definition parse_header (h : list ascii) : option Z :=
  foldl (λ acc c, acc ≫= λ z, (λ d, (z * 16 + d)%Z) <$> hex_value c) (Some 0%Z) h.

Inductive PacketError : Set :=
| TruncatedLength
| InvalidLength (header : string)
| SpecialPacket (header : string)
| BeyondResponse.

(** [packetReader.next] on the rest of the data: a payload, or [None] for a flush
    packet, and what is left. *)
Definition next (rest : list ascii) : result PacketError (option (list ascii) * list ascii) :=
  if length rest <? 4 then Err TruncatedLength
  else
    let header := take 4 rest in
    let rest := drop 4 rest in
    match parse_header header with
    | None => Err (InvalidLength (of_bytes header))
    | Some length_ =>
        if (length_ =? 0)%Z then Ok (None, rest)
        else if (length_ <? 4)%Z then Err (SpecialPacket (of_bytes header))
        else
          let payloadLength := Z.to_nat (length_ - 4) in
          if length rest <? payloadLength then Err BeyondResponse
          else Ok (Some (take payloadLength rest), drop payloadLength rest)
    end.

(** [cutBytes] and [bytesIndexByte]: the parts around the first separator. *)
Fixpoint cutBytes (sep : ascii) (l : list ascii) : option (list ascii * list ascii) :=
  match l with
  | [] => None
  | c :: l =>
      if decide (c = sep) then Some ([], l)
      else (λ p, (c :: p.1, p.2)) <$> cutBytes sep l
  end.
Definition before_nul (l : list ascii) : list ascii := match cutBytes zero l with Some (a, _) => a | None => l end.

Definition isLowerHexSHA (l : list ascii) : bool := (length l =? 40) && forallb is_hex l.

Definition validAdvertisedRef (ref : string) : bool :=
  if bool_decide (ref = "HEAD") || bool_decide (ref = ".have") || bool_decide (ref = "capabilities^{}") then true
  else
    match CutSuffix ref "^{}" with
    | Some tag => HasPrefix tag "refs/tags/" && validGitRefName tag
    | None => HasPrefix ref "refs/" && validGitRefName ref
    end.

Inductive AdvError : Set :=
| NotAdvertisement
| PreambleNotFlushed
| BadPacket (e : PacketError)
| UnterminatedRef
| MalformedRef
| RepeatedRef (name : string)
| NotTerminated.

(** One line of the advertisement: the object and the name. *)
Definition parse_line (line : list ascii) : result AdvError (string * string) :=
  match last line with
  | Some c =>
      if decide (c = newline) then
        match cutBytes " "%char (before_nul (take (length line - 1) line)) with
        | Some (sha, name) =>
            if isLowerHexSHA sha && validAdvertisedRef (of_bytes name) then Ok (of_bytes name, of_bytes sha)
            else Err MalformedRef
        | None => Err MalformedRef
        end
      else Err UnterminatedRef
  | None => Err UnterminatedRef
  end.

(** The loop over the refs; every packet takes at least four bytes. *)
Fixpoint parse_refs (fuel : nat) (rest : list ascii) (refs : gmap string string) : result AdvError (gmap string string) :=
  match fuel with
  | 0 => Err NotTerminated
  | S fuel =>
      match rest with
      | [] => Err NotTerminated
      | _ =>
          match next rest with
          | Err e => Err (BadPacket e)
          | Ok (None, rest) => if decide (rest = []) then Ok refs else Err NotTerminated
          | Ok (Some line, rest) =>
              match parse_line line with
              | Err e => Err e
              | Ok (name, sha) =>
                  match refs !! name with
                  | Some previous =>
                      if decide (previous = sha) then parse_refs fuel rest (<[name := sha]> refs)
                      else Err (RepeatedRef name)
                  | None => parse_refs fuel rest (<[name := sha]> refs)
                  end
              end
          end
      end
  end.

Definition service_line : list ascii := bytes "# service=git-upload-pack" ++ [newline].

Definition parseAdvertisement (body : list ascii) : result AdvError (gmap string string) :=
  match next body with
  | Ok (Some service, rest) =>
      if decide (service = service_line) then
        match next rest with
        | Ok (None, rest) => parse_refs (S (length rest)) rest ∅
        | _ => Err PreambleNotFlushed
        end
      else Err NotAdvertisement
  | _ => Err NotAdvertisement
  end.

Definition resolveTag (refs : gmap string string) (tag : string) : option string :=
  match refs !! (tag +:+ "^{}") with Some sha => Some sha | None => refs !! tag end.

Definition resolveRef (refs : gmap string string) (ref : string) : option string :=
  if bool_decide (ref = "") || bool_decide (ref = "HEAD") then refs !! "HEAD"
  else if HasPrefix ref "refs/heads/" then refs !! ref
  else if HasPrefix ref "refs/tags/" then resolveTag refs ref
  else
    match refs !! ("refs/heads/" +:+ ref) with
    | Some sha => Some sha
    | None => resolveTag refs ("refs/tags/" +:+ ref)
    end.

(** ** Calls *)
Record Response : Set := {
  resp_StatusCode : Z;
  resp_Status : string;
  resp_ContentType : string;
  (** what reading the body through its limit, one byte above the maximum, gives *)
  resp_Body : result string (list ascii);
}.

Inductive GitE : Set → Type :=
(** addresses as byte slices with their zones *)
| LookupIP (host : string) : GitE (result string (list (list ascii * string)))
| Dial (network : string) (ip : Addr) (port : string) : GitE (result string unit)
| CtxErr : GitE (option string)
| ClientDo (endpoint : URL) : GitE (result ResolveError Response).

(** An error whose class is that of the error it wraps. *)
Definition wrap (prefix : string) (e : ResolveError) : ResolveError :=
  match e with
  | Unresolvable t => Unresolvable (prefix +:+ t)
  | ResolveFailed t => ResolveFailed (prefix +:+ t)
  end.

Definition adv_error_text (e : AdvError) : string :=
  match e with
  | NotAdvertisement => "git: response is not a git-upload-pack advertisement"
  | PreambleNotFlushed => "git: upload-pack service preamble is not flush-terminated"
  | BadPacket _ => "git: parsing upload-pack advertisement"
  | UnterminatedRef => "git: upload-pack advertisement contains an unterminated ref"
  | MalformedRef => "git: upload-pack advertisement contains a malformed ref"
  | RepeatedRef name => "git: upload-pack advertisement repeats ref " +:+ name +:+ " with different object IDs"
  | NotTerminated => "git: upload-pack advertisement is not cleanly flush-terminated"
  end.

Section resolver.
Context `{UnicodeTables, UrlLib}.

(** The loop over the resolved addresses. *)
Fixpoint vet (host : string) (resolved : list (list ascii * string)) (seen : list Addr) : result ResolveError (list Addr) :=
  match resolved with
  | [] => Ok seen
  | (ip, zone) :: resolved =>
      match AddrFromSlice ip with
      | None => Err (ResolveFailed ("git: resolver returned an invalid address for " +:+ Quote host))
      | Some addr =>
          let addr := Unmap addr in
          if negb (bool_decide (zone = "")) || negb (isPublicIP addr) then
            Err (Unresolvable ("git: host " +:+ Quote host +:+ " resolves to non-public address " +:+ AddrString addr))
          else if decide (addr ∈ seen) then vet host resolved seen
          else vet host resolved (seen ++ [addr])
      end
  end.

Definition publicIPs (host : string) : prog GitE (result ResolveError (list Addr)) :=
  match ParseAddr host with
  | Some literal =>
      let literal := Unmap literal in
      Ret (if negb (bool_decide (Zone literal = "")) || negb (isPublicIP literal) then
             Err (Unresolvable ("git: host resolves to non-public address " +:+ AddrString literal))
           else Ok [literal])
  | None =>
      let! l := trigger (LookupIP host) in
      Ret (match l with
           | Err e => Err (ResolveFailed ("git: resolving " +:+ Quote host +:+ ": " +:+ e))
           | Ok [] => Err (ResolveFailed ("git: resolving " +:+ Quote host +:+ " returned no addresses"))
           | Ok resolved => vet host resolved []
           end)
  end.

(** The loop over the vetted addresses; the last error so far. *)
Fixpoint dial_loop (host network port : string) (ips : list Addr) (lastErr : option string)
    : prog GitE (result ResolveError unit) :=
  match ips with
  | [] => Ret (Err (ResolveFailed ("git: dialing " +:+ host +:+ ": " +:+
            default "no address matched the requested network" lastErr)))
  | ip :: ips =>
      if bool_decide (network = "tcp4") && negb (Is4 ip) || bool_decide (network = "tcp6") && negb (Is6 ip) then
        dial_loop host network port ips lastErr
      else
        let! c := trigger (Dial network ip port) in
        match c with
        | Ok _ => Ret (Ok tt)
        | Err dialErr =>
            let! x := trigger CtxErr in
            match x with
            | Some e => Ret (Err (ResolveFailed e))
            | None => dial_loop host network port ips (Some dialErr)
            end
        end
  end.

Definition dialContext (network address : string) : prog GitE (result ResolveError unit) :=
  match SplitHostPort address with
  | Err e => Ret (Err (Unresolvable ("git: parsing dial address " +:+ Quote address +:+ ": " +:+ e)))
  | Ok (host, port) =>
      if decide (port ≠ "443") then Ret (Err (Unresolvable ("git: refusing dial to port " +:+ Quote port)))
      else
        let! ips := publicIPs host in
        match ips with
        | Err e => Ret (Err (wrap ("git: validating dial host " +:+ Quote host +:+ ": ") e))
        | Ok ips => dial_loop host network port ips None
        end
  end.

(** [via]: the number of requests made so far; the URL to go to, or why not. *)
Definition checkRedirect (u : URL) (via : nat) : prog GitE (result ResolveError URL) :=
  if maxRedirects <=? via then Ret (Err (Unresolvable ("git: stopped after " +:+ pretty maxRedirects +:+ " redirects")))
  else
    match validateURLShape u true with
    | Some e => Ret (Err e)
    | None =>
        let u := with_scheme u "https" in
        let! ips := publicIPs (Hostname u) in
        Ret (match ips with
             | Err e => Err (wrap ("git: validating redirect host " +:+ Quote (Hostname u) +:+ ": ") e)
             | Ok _ => Ok u
             end)
    end.

Definition read_response (repository : URL) (ref : string) (resp : Response) : result ResolveError string :=
  let answered := "git: upload-pack advertisement answered " +:+ resp_Status resp in
  let code := resp_StatusCode resp in
  if ((code =? 408) || (code =? 429))%Z then Err (ResolveFailed answered)
  else if ((400 <=? code) && (code <? 500))%Z then Err (Unresolvable answered)
  else if (500 <=? code)%Z then Err (ResolveFailed answered)
  else if negb (code =? 200)%Z then Err (Unresolvable answered)
  else
    match ParseMediaType (resp_ContentType resp) with
    | Ok mediaType =>
        if EqualFold mediaType advertisementMediaType then
          match resp_Body resp with
          | Err e => Err (ResolveFailed ("git: reading upload-pack advertisement: " +:+ e))
          | Ok body =>
              if (maxAdvertisementBytes <? Z.of_nat (length body))%Z then
                Err (Unresolvable ("git: upload-pack advertisement exceeds " +:+ pretty maxAdvertisementBytes +:+ " bytes"))
              else
                match parseAdvertisement body with
                | Err e => Err (Unresolvable (adv_error_text e))
                | Ok refs =>
                    match resolveRef refs ref with
                    | Some sha => Ok sha
                    | None => Err (Unresolvable ("git: ref " +:+ Quote (displayRef ref) +:+ " is not advertised by " +:+
                                                 Redacted repository))
                    end
                end
          end
        else Err (Unresolvable ("git: upload-pack response has content type " +:+ Quote (resp_ContentType resp)))
    | Err _ => Err (Unresolvable ("git: upload-pack response has content type " +:+ Quote (resp_ContentType resp)))
    end.

Definition ResolveCommit (repoURL ref : string) : prog GitE (result ResolveError string) :=
  match validateRef ref with
  | Some e => Ret (Err e)
  | None =>
    match parseRepositoryURL repoURL with
    | Err e => Ret (Err e)
    | Ok repository =>
      let! ips := publicIPs (Hostname repository) in
      match ips with
      | Err e => Ret (Err (wrap ("git: validating repository host " +:+ Quote (Hostname repository) +:+ ": ") e))
      | Ok _ =>
        let endpoint := endpoint_of repository in
        match NewRequest endpoint with
        | Some e => Ret (Err (Unresolvable ("git: building upload-pack advertisement request: " +:+ e)))
        | None =>
            let! resp := trigger (ClientDo endpoint) in
            Ret (match resp with
                 | Err e => Err (wrap "git: fetching upload-pack advertisement: " e)
                 | Ok resp => read_response repository ref resp
                 end)
        end
      end
    end
  end.
End resolver.

(** ** Public addresses *)
Section public.
#[local] Open Scope Z_scope.

(** The address blocks that are not public, as the registries list them. *)
Definition reserved : list Prefix :=
  [Prefix4 (ip4 0 0 0 0) 8; Prefix4 (ip4 10 0 0 0) 8; Prefix4 (ip4 100 64 0 0) 10; Prefix4 (ip4 127 0 0 0) 8;
   Prefix4 (ip4 169 254 0 0) 16; Prefix4 (ip4 172 16 0 0) 12; Prefix4 (ip4 192 0 0 0) 24; Prefix4 (ip4 192 0 2 0) 24;
   Prefix4 (ip4 192 88 99 0) 24; Prefix4 (ip4 192 168 0 0) 16; Prefix4 (ip4 198 18 0 0) 15;
   Prefix4 (ip4 198 51 100 0) 24; Prefix4 (ip4 203 0 113 0) 24; Prefix4 (ip4 224 0 0 0) 4; Prefix4 (ip4 240 0 0 0) 4;
   Prefix6 0 128; Prefix6 1 128; Prefix6 (ip6 [0x64; 0xff9b; 1]) 48; Prefix6 (ip6 [0x100]) 64;
   Prefix6 (ip6 [0x2001]) 23; Prefix6 (ip6 [0x2001; 0xdb8]) 32; Prefix6 (ip6 [0x2002]) 16; Prefix6 (ip6 [0xfc00]) 7;
   Prefix6 (ip6 [0xfe80]) 10; Prefix6 (ip6 [0xfec0]) 10; Prefix6 (ip6 [0xff00]) 8].

(** An address of the right width that [Unmap] leaves alone, without a zone. *)
Definition plain (ip : Addr) : Prop :=
  match ip with IP4 a => 0 <= a < 2 ^ 32 | IP6 a z => 0 <= a < 2 ^ 128 /\ z = "" /\ Z.shiftr a 32 <> 65535 end.

(** Masking with the high bits of an [n]-bit number. *)
Lemma land_high x n k : 0 <= k <= n -> 0 <= x < 2 ^ n -> Z.land x (2 ^ n - 2 ^ k) = x / 2 ^ k * 2 ^ k.
Proof.
  intros Hk Hx. replace (2 ^ n - 2 ^ k) with (Z.shiftl (Z.ones (n - k)) k).
  2:{ rewrite Z.shiftl_mul_pow2, Z.ones_equiv, <- Z.sub_1_r by lia.
      replace (2 ^ n) with (2 ^ (n - k) * 2 ^ k) by (rewrite <- Z.pow_add_r by lia; f_equal; lia). lia. }
  rewrite <- Z.shiftr_div_pow2, <- Z.shiftl_mul_pow2 by lia. apply Z.bits_inj'. intros i Hi.
  rewrite Z.land_spec. destruct (decide (i < k)).
  - rewrite !Z.shiftl_spec_low, andb_false_r by done. done.
  - rewrite !Z.shiftl_spec, Z.shiftr_spec by lia. replace (i - k + k) with i by lia.
    destruct (decide (i < n)).
    + rewrite Z.ones_spec_low by lia. apply andb_true_r.
    + rewrite <- (Z.mod_small x (2 ^ n)), Z.mod_pow2_bits_high by lia. done.
Qed.

(** The bytes and groups of an address by division. *)
Lemma v4_div a n : 0 <= n < 4 -> v4 a n = a / 2 ^ (24 - 8 * n) mod 2 ^ 8.
Proof.
  intros Hn. unfold v4, octet. change 255 with (Z.ones 8). rewrite Z.land_ones, Z.shiftr_div_pow2 by lia.
  do 3 f_equal. lia.
Qed.
Lemma v6_div a n : 0 <= n < 16 -> v6 a n = a / 2 ^ (120 - 8 * n) mod 2 ^ 8.
Proof.
  intros Hn. unfold v6, octet. change 255 with (Z.ones 8). rewrite Z.land_ones, Z.shiftr_div_pow2 by lia.
  do 3 f_equal. lia.
Qed.
Lemma v6u16_div a n : 0 <= n < 8 -> v6u16 a n = a / 2 ^ (112 - 16 * n) mod 2 ^ 16.
Proof.
  intros Hn. unfold v6u16. change 65535 with (Z.ones 16). rewrite Z.land_ones, Z.shiftr_div_pow2 by lia.
  do 3 f_equal. lia.
Qed.

(** Every predicate of [net/netip] the check uses is membership in a block. *)
Definition in4 (a b n : Z) : bool := Z.shiftr a (32 - n) =? Z.shiftr b (32 - n).
Definition in6 (a b n : Z) : bool := Z.shiftr a (128 - n) =? Z.shiftr b (128 - n).

Ltac by_division :=
  repeat match goal with |- context [Z.of_nat ?n] => let m := eval vm_compute in (Z.of_nat n) in change (Z.of_nat n) with m end;
  repeat match goal with |- context [2 ^ ?n] => let m := eval vm_compute in (2 ^ n) in change (2 ^ n) with m in * end;
  Z.to_euclidean_division_equations; lia.
Ltac blocks :=
  unfold in4, in6, ip4, ip6; cbn [foldl length]; rewrite ?Z.shiftr_div_pow2 by lia;
  apply eq_true_iff_eq; rewrite ?andb_true_iff, ?orb_true_iff, ?Z.eqb_eq; by_division.

Section v4.
Context (a : Z) (Ha : 0 <= a < 2 ^ 32).
Lemma IsLoopback4 : IsLoopback (IP4 a) = in4 a (ip4 127 0 0 0) 8.
Proof. unfold IsLoopback; cbn [Unmap]. rewrite v4_div by lia. blocks. Qed.
Lemma IsMulticast4 : IsMulticast (IP4 a) = in4 a (ip4 224 0 0 0) 4.
Proof.
  unfold IsMulticast; cbn [Unmap]. rewrite v4_div by lia. change 240 with (2 ^ 8 - 2 ^ 4).
  rewrite land_high by (try apply Z.mod_pos_bound; lia). blocks.
Qed.
Lemma IsLinkLocalUnicast4 : IsLinkLocalUnicast (IP4 a) = in4 a (ip4 169 254 0 0) 16.
Proof. unfold IsLinkLocalUnicast; cbn [Unmap]. rewrite !v4_div by lia. blocks. Qed.
Lemma IsPrivate4 :
  IsPrivate (IP4 a) = in4 a (ip4 10 0 0 0) 8 || in4 a (ip4 172 16 0 0) 12 || in4 a (ip4 192 168 0 0) 16.
Proof.
  unfold IsPrivate; cbn [Unmap]. rewrite !v4_div by lia. change 240 with (2 ^ 8 - 2 ^ 4).
  rewrite land_high by (try apply Z.mod_pos_bound; lia). blocks.
Qed.
Lemma IsLinkLocalMulticast4 : IsLinkLocalMulticast (IP4 a) = in4 a (ip4 224 0 0 0) 24.
Proof. unfold IsLinkLocalMulticast; cbn [Unmap]. rewrite !v4_div by lia. blocks. Qed.
End v4.

Section v6.
Context (a : Z) (Ha : 0 <= a < 2 ^ 128) (Hm : Z.shiftr a 32 <> 65535).
Lemma Unmap6 : Unmap (IP6 a "") = IP6 a "".
Proof. cbn. by rewrite (proj2 (Z.eqb_neq _ _) Hm). Qed.
Lemma IsMulticast6 : IsMulticast (IP6 a "") = in6 a (ip6 [0xff00]) 8.
Proof. unfold IsMulticast; rewrite Unmap6. rewrite v6_div by lia. blocks. Qed.
Lemma IsLinkLocalUnicast6 : IsLinkLocalUnicast (IP6 a "") = in6 a (ip6 [0xfe80]) 10.
Proof.
  unfold IsLinkLocalUnicast; rewrite Unmap6. rewrite v6u16_div by lia. change 65472 with (2 ^ 16 - 2 ^ 6).
  rewrite land_high by (try apply Z.mod_pos_bound; lia). blocks.
Qed.
Lemma IsPrivate6 : IsPrivate (IP6 a "") = in6 a (ip6 [0xfc00]) 7.
Proof.
  unfold IsPrivate; rewrite Unmap6. rewrite v6_div by lia. change 254 with (2 ^ 8 - 2 ^ 1).
  rewrite land_high by (try apply Z.mod_pos_bound; lia). blocks.
Qed.
Lemma IsLoopback6 : IsLoopback (IP6 a "") = (a =? 1).
Proof. unfold IsLoopback; by rewrite Unmap6. Qed.
(** A link-local multicast address is a multicast one. *)
Lemma IsLinkLocalMulticast6 : IsLinkLocalMulticast (IP6 a "") = true -> IsMulticast (IP6 a "") = true.
Proof.
  unfold IsLinkLocalMulticast, IsMulticast; rewrite Unmap6, !Z.eqb_eq. intros Hl.
  assert (Hh : Z.land (v6u16 a 0) 65280 = 65280).
  { transitivity (Z.land (Z.land (v6u16 a 0) 65295) 65280); [|by rewrite Hl].
    by rewrite <- Z.land_assoc. }
  change 65280 with (2 ^ 16 - 2 ^ 8) in Hh at 1. rewrite v6u16_div in Hh by lia.
  rewrite land_high in Hh by (try apply Z.mod_pos_bound; lia). rewrite v6_div by lia.
  revert Hh. by_division.
Qed.
End v6.

Lemma PrefixContains4 a b n : PrefixContains (Prefix4 b n) (IP4 a) = in4 a b n.
Proof. done. Qed.
Lemma PrefixContains6 a b n : PrefixContains (Prefix6 b n) (IP6 a "") = in6 a b n.
Proof. done. Qed.

(** In a disjunction of blocks, an address in one of them decides both sides. *)
Ltac decided :=
  cbn [negb orb andb]; intros; rewrite ?orb_true_r, ?andb_false_r; cbn [negb orb andb];
  rewrite ?orb_true_r; try match goal with |- (if ?c then _ else _) = _ => destruct c end; done.
Ltac prune :=
  repeat match goal with
  | |- context [in4 ?a ?b ?n] =>
      lazymatch n with 24 => lazymatch b with ip4 224 _ _ _ => fail | _ => idtac end | _ => idtac end;
      destruct (in4 a b n); [decided|]
  | |- context [in6 ?a ?b ?n] => destruct (in6 a b n); [decided|]
  end.

(** An address is public exactly when no reserved block of the address registries
    holds it: unspecified, private, loopback, link-local, multicast, documentation,
    benchmarking, carrier-grade NAT, transition and reserved blocks, for IPv4 and IPv6. *)
Theorem public_ip_iff ip :
  plain ip -> isPublicIP ip = negb (existsb (λ p, PrefixContains p ip) reserved).
Proof.
  destruct ip as [a|a z]; cbn [plain].
  - intros Ha. unfold isPublicIP, IsGlobalUnicast, IsUnspecified.
    rewrite IsLoopback4, IsMulticast4, IsLinkLocalUnicast4, IsPrivate4, IsLinkLocalMulticast4 by done.
    unfold reserved, nonPublicSpecialUse; cbn [existsb]; rewrite !PrefixContains4; cbn [PrefixContains].
    assert (H0 : a = 0 -> in4 a (ip4 0 0 0 0) 8 = true) by (intros ->; done).
    assert (Hb : a = 2 ^ 32 - 1 -> in4 a (ip4 240 0 0 0) 4 = true) by (intros ->; done).
    assert (Hl : in4 a (ip4 224 0 0 0) 24 = true -> in4 a (ip4 224 0 0 0) 4 = true).
    { unfold in4, ip4. rewrite !Z.shiftr_div_pow2, !Z.eqb_eq by lia. by_division. }
    rewrite <- Z.eqb_eq in H0, Hb. revert H0 Hb Hl. prune.
    destruct (a =? 0); [intros H0; discriminate (H0 eq_refl)|].
    destruct (a =? 2 ^ 32 - 1); [intros _ Hb; discriminate (Hb eq_refl)|].
    by destruct (in4 _ _ 24); [intros _ _ Hl; discriminate (Hl eq_refl)|].
  - intros (Ha & -> & Hm). unfold isPublicIP, IsGlobalUnicast, IsUnspecified.
    pose proof (IsLinkLocalMulticast6 a Ha Hm) as Hl. revert Hl.
    rewrite IsMulticast6, IsLoopback6, IsLinkLocalUnicast6, IsPrivate6 by done.
    unfold reserved, nonPublicSpecialUse; cbn [existsb]; rewrite !PrefixContains6; cbn [PrefixContains].
    replace (in6 a 0 128) with (a =? 0) by (unfold in6; by rewrite !Z.shiftr_0_r).
    replace (in6 a 1 128) with (a =? 1) by (unfold in6; by rewrite !Z.shiftr_0_r).
    rewrite bool_decide_true, andb_true_r by done. prune.
    destruct (IsLinkLocalMulticast _); [intros Hl; discriminate (Hl eq_refl)|]. by destruct (a =? 0), (a =? 1).
Qed.
End public.

(** ** The packet format *)

(** A sequence of packets up to the flush packet that ends it. *)
Inductive Framed : list ascii → list (list ascii) → Prop :=
| framed_flush header : length header = 4 → parse_header header = Some 0%Z → Framed header []
| framed_packet header payload rest lines :
    length header = 4 → parse_header header = Some (4 + Z.of_nat (length payload))%Z → Framed rest lines →
    Framed (header ++ payload ++ rest) (payload :: lines).

Lemma next_flush header rest :
  length header = 4 → parse_header header = Some 0%Z → next (header ++ rest) = Ok (None, rest).
Proof.
  intros Hl Hp. unfold next. rewrite length_app, Hl.
  replace (4 + length rest <? 4) with false by (symmetry; apply Nat.ltb_ge; lia).
  by rewrite take_app_length', drop_app_length', Hp by done.
Qed.
Lemma next_packet header payload rest :
  length header = 4 → parse_header header = Some (4 + Z.of_nat (length payload))%Z →
  next (header ++ payload ++ rest) = Ok (Some payload, rest).
Proof.
  intros Hl Hp. unfold next. rewrite length_app, Hl.
  replace (4 + length (payload ++ rest) <? 4) with false by (symmetry; apply Nat.ltb_ge; lia).
  rewrite take_app_length', drop_app_length', Hp by done.
  rewrite (proj2 (Z.eqb_neq _ _)), (proj2 (Z.ltb_ge _ _)) by lia.
  replace (Z.to_nat (4 + Z.of_nat (length payload) - 4)) with (length payload) by lia.
  rewrite length_app, (proj2 (Nat.ltb_ge _ _)) by lia. by rewrite take_app_length, drop_app_length.
Qed.

(** What [next] accepts, and that it always advances. *)
Lemma next_Ok data p rest :
  next data = Ok (p, rest) →
  ∃ header, length header = 4 ∧
    match p with
    | None => data = header ++ rest ∧ parse_header header = Some 0%Z
    | Some payload => data = header ++ payload ++ rest ∧ parse_header header = Some (4 + Z.of_nat (length payload))%Z
    end.
Proof.
  unfold next. destruct (Nat.ltb_spec (length data) 4) as [|Hl]; [done|].
  destruct (parse_header _) as [n|] eqn:Hp; [|done].
  assert (H4 : length (take 4 data) = 4) by (rewrite length_take; lia).
  destruct (Z.eqb_spec n 0) as [->|Hn].
  { intros [= <- <-]. exists (take 4 data). by rewrite take_drop. }
  destruct (Z.ltb_spec n 4); [done|]. destruct (Nat.ltb_spec (length (drop 4 data)) (Z.to_nat (n - 4))) as [|Hr]; [done|].
  intros [= <- <-]. exists (take 4 data). split_and!; [done|by rewrite !take_drop|]. rewrite Hp, length_take. f_equal. lia.
Qed.

Lemma next_shorter data p rest : next data = Ok (p, rest) → length rest + 4 <= length data.
Proof. intros (h & Hl & Hp)%next_Ok. destruct p as [payload|]; destruct Hp as [-> _]; rewrite !length_app; lia. Qed.

(** Lines that parse, repeating no name with another object. *)
Definition entries_of (lines : list (list ascii)) (entries : list (string * string)) : Prop :=
  Forall2 (λ line e, parse_line line = Ok e) lines entries.
Definition consistent (refs : gmap string string) (entries : list (string * string)) : Prop :=
  (∀ name sha sha', (name, sha) ∈ entries → (name, sha') ∈ entries → sha = sha') ∧
  (∀ name sha sha', (name, sha) ∈ entries → refs !! name = Some sha' → sha = sha').

Definition insert_all (refs : gmap string string) (entries : list (string * string)) : gmap string string :=
  foldl (λ refs e, <[e.1 := e.2]> refs) refs entries.

Lemma consistent_cons refs name sha entries :
  consistent refs ((name, sha) :: entries) ↔
  (∀ sha', refs !! name = Some sha' → sha = sha') ∧ consistent (<[name := sha]> refs) entries.
Proof.
  unfold consistent. split.
  - intros [He Hr]. split_and!.
    + intros sha'. apply Hr. left.
    + intros n s s' H1 H2. by eapply He; right.
    + intros n s s' H1. destruct (decide (n = name)) as [->|Hn].
      * rewrite lookup_insert_eq. intros [= <-]. eapply He; [by right|left].
      * rewrite lookup_insert_ne by done. apply Hr. by right.
  - intros (Hs & He & Hr). split.
    + intros n s s' [?|H1]%elem_of_cons [?|H2]%elem_of_cons; simplify_eq; [done| | |by eapply He].
      * symmetry. eapply Hr; [done|]. by rewrite lookup_insert_eq.
      * eapply Hr; [done|]. by rewrite lookup_insert_eq.
    + intros n s s' [?|H1]%elem_of_cons Hl; simplify_eq; [by apply Hs|].
      destruct (decide (n = name)) as [->|Hn].
      * rewrite <- (Hs s' Hl). eapply Hr; [done|]. by rewrite lookup_insert_eq.
      * eapply Hr; [done|]. by rewrite lookup_insert_ne.
Qed.

Lemma parse_refs_complete rest lines entries refs fuel :
  Framed rest lines → entries_of lines entries → consistent refs entries → length rest < fuel →
  parse_refs fuel rest refs = Ok (insert_all refs entries).
Proof.
  intros Hf. revert entries refs fuel.
  induction Hf as [h Hl Hp|h payload rest lines Hl Hp Hf IH]; intros entries refs fuel He Hc Hfuel;
    (destruct fuel as [|fuel]; [lia|]).
  - apply Forall2_nil_inv_l in He as ->. cbn [parse_refs]. rewrite <- (app_nil_r h), next_flush by done.
    destruct h; [done|]. by rewrite decide_True.
  - apply Forall2_cons_inv_l in He as ([name sha] & entries' & Hline & He & ->).
    apply consistent_cons in Hc as [Hs Hc]. rewrite !length_app in Hfuel.
    cbn [parse_refs]. rewrite next_packet, Hline by done.
    assert (Hne : h ++ payload ++ rest ≠ []) by (by destruct h).
    destruct (h ++ payload ++ rest); [done|].
    destruct (refs !! name) as [prev|] eqn:Hprev; [rewrite decide_True by (symmetry; by apply Hs)|];
      (rewrite (IH entries') by (done || lia)); done.
Qed.

Lemma parse_refs_sound fuel rest refs out :
  parse_refs fuel rest refs = Ok out →
  ∃ lines entries, Framed rest lines ∧ entries_of lines entries ∧ consistent refs entries ∧ out = insert_all refs entries.
Proof.
  revert rest refs. induction fuel as [|fuel IH]; intros rest refs; [done|]. cbn [parse_refs].
  destruct rest as [|c rest']; [done|]. set (rest := c :: rest') in *.
  destruct (next rest) as [[[line|] left]|] eqn:Hn; [| |done].
  - apply next_Ok in Hn as (h & Hl & Hd & Hp).
    destruct (parse_line line) as [[name sha]|] eqn:Hline; [|done].
    intros Hout. assert (Hs : ∀ sha', refs !! name = Some sha' → sha = sha').
    { intros sha' Hl'. rewrite Hl' in Hout. by case_decide. }
    assert (Hout' : parse_refs fuel left (<[name := sha]> refs) = Ok out).
    { destruct (refs !! name); [by case_decide|done]. }
    apply IH in Hout' as (lines & entries & Hf & He & Hc & ->).
    exists (line :: lines), ((name, sha) :: entries). rewrite Hd. split_and!; [by constructor|by constructor| |done].
    apply consistent_cons. auto.
  - apply next_Ok in Hn as (h & Hl & Hd & Hp). case_decide as Hnil; [|done]. intros [= <-].
    exists [], []. rewrite Hd, Hnil, app_nil_r. split_and!; [by constructor|constructor| |done].
    split; set_solver.
Qed.

(** A whole advertisement: the service announcement, a flush, the lines, a flush. *)
Inductive Advertisement : list ascii → list (list ascii) → Prop :=
| advertisement header flush rest lines :
    length header = 4 → parse_header header = Some (4 + Z.of_nat (length service_line))%Z →
    length flush = 4 → parse_header flush = Some 0%Z → Framed rest lines →
    Advertisement (header ++ service_line ++ flush ++ rest) lines.

Lemma insert_all_lookup refs entries name sha :
  consistent refs entries → insert_all refs entries !! name = Some sha ↔ (name, sha) ∈ entries ∨ refs !! name = Some sha.
Proof.
  revert refs. induction entries as [|[n s] entries IH]; intros refs Hc; [set_solver|].
  apply consistent_cons in Hc as [Hs Hc]. cbn. rewrite IH by done. rewrite elem_of_cons, lookup_insert_Some.
  split; [naive_solver|]. intros [[?|?]|Hl]; simplify_eq; [naive_solver|naive_solver|].
  destruct (decide (n = name)) as [->|?]; [|naive_solver]. rewrite (Hs _ Hl). naive_solver.
Qed.

Lemma parse_line_valid line name sha :
  parse_line line = Ok (name, sha) → isLowerHexSHA (bytes sha) = true ∧ validAdvertisedRef name = true.
Proof.
  unfold parse_line. destruct (last line) as [c|]; [|done]. case_decide; [|done].
  destruct (cutBytes _ _) as [[a b]|]; [|done]. destruct (_ && _) eqn:Hv; [|done]. intros [= <- <-].
  rewrite bytes_of_bytes. by apply andb_true_iff in Hv.
Qed.

Lemma cutBytes_Some sep l a b : cutBytes sep l = Some (a, b) ↔ l = a ++ sep :: b ∧ (sep ∉ a).
Proof.
  revert a. induction l as [|c l IH]; intros a; cbn; [by split; [|intros [? _]; destruct a]|].
  case_decide as Hc.
  - subst c. split; [intros [= <- <-]; set_solver|]. intros [Heq Hn]. destruct a; simplify_eq/=; [done|set_solver].
  - rewrite fmap_Some. split.
    + intros ([a' b'] & Hl & [= -> ->]). apply IH in Hl as [-> Hn]. set_solver.
    + intros [Heq Hn]. destruct a as [|x a]; simplify_eq/=. exists (a, b). split; [apply IH; set_solver|done].
Qed.
Lemma cutBytes_None sep l : cutBytes sep l = None ↔ (sep ∉ l).
Proof.
  induction l as [|c l IH]; cbn; [set_solver|]. case_decide; [set_solver|]. rewrite fmap_None, IH. set_solver.
Qed.

(** The declarative form of a line: object, space, name, then capabilities after a
    zero byte when there are any, and a newline. *)
Definition line_of (name sha : string) (caps : option (list ascii)) : list ascii :=
  bytes sha ++ [" "%char] ++ bytes name ++ match caps with Some l => zero :: l | None => [] end ++ [newline].

Lemma forallb_hex l : forallb is_hex l = true → Forall (λ c, is_hex c = true) l.
Proof. rewrite forallb_forall, Forall_forall. intros Hl c Hc. apply Hl. by apply list_elem_of_In. Qed.
Lemma hex_without c l : is_hex c = false → forallb is_hex l = true → (c ∉ l).
Proof. intros Hc Hl%forallb_hex Hin. rewrite Forall_forall in Hl. specialize (Hl _ Hin). congruence. Qed.

Lemma validGitRefName_no_nul name : validGitRefName name = true → (zero ∉ bytes name).
Proof.
  unfold validGitRefName. destruct (_ || _); [done|]. destruct (existsb _ (Split _ _)); [done|].
  rewrite negb_true_iff. intros Hf Hin. apply not_true_iff_false in Hf. apply Hf.
  apply existsb_exists. exists zero. split; [by apply list_elem_of_In|done].
Qed.
Lemma validAdvertisedRef_no_nul name : validAdvertisedRef name = true → (zero ∉ bytes name).
Proof.
  unfold validAdvertisedRef. destruct (_ || _) eqn:Hs.
  - rewrite !orb_true_iff, !bool_decide_eq_true in Hs. intros _.
    destruct Hs as [[->| ->]| ->]; apply (bool_decide_eq_true_1 _); vm_compute; reflexivity.
  - destruct (CutSuffix name _) as [tag|] eqn:Hc.
    + apply CutSuffix_spec in Hc as ->. intros [_ Hv]%andb_true_iff. apply validGitRefName_no_nul in Hv.
      rewrite bytes_app, elem_of_app. intros [?|Hin]; [done|]. revert Hin. apply (bool_decide_eq_true_1 _); vm_compute; reflexivity.
    + intros [_ Hv]%andb_true_iff. by apply validGitRefName_no_nul.
Qed.

Lemma parse_line_iff line name sha :
  parse_line line = Ok (name, sha) ↔
  isLowerHexSHA (bytes sha) = true ∧ validAdvertisedRef name = true ∧ ∃ caps, line = line_of name sha caps.
Proof.
  split.
  - intros Hp. destruct (parse_line_valid _ _ _ Hp) as [Hs Hv]. split_and!; [done..|]. revert Hp. unfold parse_line.
    destruct (last line) as [c|] eqn:Hl; [|done]. case_decide; [|done]. subst. apply last_Some in Hl as [l ->].
    rewrite length_app, Nat.add_sub, take_app_length.
    destruct (cutBytes " "%char _) as [[a b]|] eqn:Hc; [|done]. destruct (_ && _); [|done]. intros [= <- <-].
    apply cutBytes_Some in Hc as [Hc _]. unfold line_of. rewrite !bytes_of_bytes. unfold before_nul in Hc.
    destruct (cutBytes zero l) as [[x y]|] eqn:Hz.
    + apply cutBytes_Some in Hz as [-> _]. exists (Some y). rewrite Hc. simpl. by rewrite <- !app_assoc.
    + exists None. rewrite Hc. simpl. by rewrite <- !app_assoc.
  - intros (Hs & Hv & caps & ->). pose proof (validAdvertisedRef_no_nul _ Hv) as Hnn.
    pose proof Hs as [_ Hh]%andb_true_iff.
    assert (Hz : zero ∉ bytes sha ++ " "%char :: bytes name).
    { pose proof (hex_without zero _ eq_refl Hh). rewrite elem_of_app, elem_of_cons. intros [?|[?|?]]; done. }
    unfold parse_line, line_of. rewrite !app_assoc, last_snoc, decide_True, length_app, Nat.add_sub, take_app_length by done.
    assert (before_nul (((bytes sha ++ [" "%char]) ++ bytes name) ++ match caps with Some l => zero :: l | None => [] end)
            = bytes sha ++ " "%char :: bytes name) as ->.
    { unfold before_nul. rewrite <- (app_assoc (bytes sha)). cbn [app]. destruct caps as [l|].
      - by rewrite (proj2 (cutBytes_Some _ _ _ _) (conj eq_refl Hz)).
      - by rewrite app_nil_r, (proj2 (cutBytes_None _ _) Hz). }
    assert (Hsp : " "%char ∉ bytes sha) by (by apply hex_without).
    rewrite (proj2 (cutBytes_Some _ _ _ _) (conj eq_refl Hsp)), !of_bytes_bytes, Hs, Hv. done.
Qed.

(** C34. The parser accepts exactly the well-formed advertisements, to the last byte: a
    service announcement and flush, then packets that are each a 40-digit lower-case
    hexadecimal object, a space, a valid ref name, capabilities and a newline, then a
    closing flush; no name comes with two objects, and the result is the map of them. *)
Theorem advertisement_iff body refs :
  parseAdvertisement body = Ok refs ↔
  ∃ lines entries, Advertisement body lines ∧
    Forall2 (λ line e, isLowerHexSHA (bytes e.2) = true ∧ validAdvertisedRef e.1 = true ∧
                       ∃ caps, line = line_of e.1 e.2 caps) lines entries ∧
    ∀ name sha, refs !! name = Some sha ↔ (name, sha) ∈ entries.
Proof.
  split.
  - unfold parseAdvertisement. destruct (next body) as [[[service|] rest]|] eqn:H1; [|done..].
    case_decide as Hs; [|done]. subst service. destruct (next rest) as [[[|] rest']|] eqn:H2; [done| |done].
    intros Hp. apply parse_refs_sound in Hp as (lines & entries & Hf & He & Hc & ->).
    apply next_Ok in H1 as (h & Hl & -> & Hh). apply next_Ok in H2 as (h' & Hl' & -> & Hh').
    exists lines, entries. split_and!; [by constructor| |].
    + eapply Forall2_impl; [exact He|]. intros line [name sha]. apply parse_line_iff.
    + intros name sha. rewrite insert_all_lookup by done. rewrite lookup_empty. naive_solver.
  - intros (lines & entries & [h f rest ls Hl Hh Hl' Hf Hfr] & He & Hm). unfold parseAdvertisement.
    rewrite next_packet by done. rewrite decide_True, next_flush by done.
    assert (Hc : consistent ∅ entries).
    { split; [|set_solver]. intros n s s' H1%Hm H2%Hm. congruence. }
    rewrite (parse_refs_complete _ ls entries) by
      (done || lia || (eapply Forall2_impl; [exact He|]; intros line [name sha]; apply parse_line_iff)).
    f_equal. apply map_eq. intros name. apply option_eq. intros sha.
    rewrite insert_all_lookup, Hm by done. rewrite lookup_empty. naive_solver.
Qed.

(** ** Printing an advertisement *)

(** A length as four hexadecimal digits, as a server writes it. *)
Definition hex4 (n : Z) : list ascii :=
  (λ k, hex_digit (Z.to_nat (n / k mod 16))) <$> [4096; 256; 16; 1]%Z.
Definition pkt (payload : list ascii) : list ascii := hex4 (4 + Z.of_nat (length payload)) ++ payload.
Definition flush_pkt : list ascii := bytes "0000".
Definition print_advertisement (lines : list (list ascii)) : list ascii :=
  pkt service_line ++ flush_pkt ++ mjoin (pkt <$> lines) ++ flush_pkt.

Lemma hex_value_digit n : n < 16 → hex_value (hex_digit n) = Some (Z.of_nat n).
Proof. intros Hn. do 16 (destruct n as [|n]; [done|]). lia. Qed.
Lemma parse_header_hex4 n : (0 <= n < 65536)%Z → parse_header (hex4 n) = Some n.
Proof.
  intros Hn. unfold hex4, parse_header. cbn [list_fmap fmap foldl].
  assert (Hd : ∀ k, Z.to_nat (n / k mod 16) < 16).
  { intros k. pose proof (Z.mod_pos_bound (n / k) 16). lia. }
  rewrite !hex_value_digit by done. cbn [mbind option_bind fmap option_fmap option_map]. f_equal.
  rewrite !Z2Nat.id by (apply Z.mod_pos_bound; lia). Z.to_euclidean_division_equations. lia.
Qed.

Lemma Framed_print lines :
  Forall (λ l, Z.of_nat (length l) <= 65531)%Z lines → Framed (mjoin (pkt <$> lines) ++ flush_pkt) lines.
Proof.
  induction 1 as [|l lines Hl _ IH]; [by apply framed_flush|]. rewrite fmap_cons. cbn [mjoin list_join].
  unfold pkt at 1. rewrite <- !app_assoc. apply framed_packet; [done| |exact IH]. apply parse_header_hex4. lia.
Qed.

(** Parsing what a server prints gives back its refs: every list of refs with
    valid names and objects, no name twice, each with any capabilities that fit a
    packet, comes back as the map of them. *)
Theorem advertisement_roundtrip (refs : list (string * string)) (caps : list (option (list ascii))) :
  length caps = length refs → NoDup refs.*1 →
  Forall (λ e, isLowerHexSHA (bytes e.2) = true ∧ validAdvertisedRef e.1 = true) refs →
  let lines := zip_with (λ e c, line_of e.1 e.2 c) refs caps in
  Forall (λ l, Z.of_nat (length l) <= 65531)%Z lines →
  parseAdvertisement (print_advertisement lines) = Ok (list_to_map refs).
Proof.
  intros Hlen Hnd Hv lines Hl. unfold parseAdvertisement, print_advertisement.
  assert (H1 : ∀ r, next (pkt service_line ++ r) = Ok (Some service_line, r)).
  { intros r. unfold pkt. rewrite <- app_assoc. by apply next_packet. }
  rewrite H1, decide_True, next_flush by done.
  assert (Hc : consistent ∅ refs).
  { split; [|set_solver]. intros n s s'. rewrite !(elem_of_list_to_map (M := gmap string)) by done. congruence. }
  rewrite (parse_refs_complete _ lines refs); [|by apply Framed_print| |done|lia].
  - f_equal. apply map_eq. intros n. apply option_eq. intros s.
    rewrite insert_all_lookup, lookup_empty by done. rewrite <- (elem_of_list_to_map (M := gmap string)) by done. naive_solver.
  - clear Hnd Hl Hc H1. subst lines. unfold entries_of. revert caps Hlen.
    induction Hv as [|[n s] refs [Hs Hn] _ IH]; intros [|c caps] Hlen; [constructor|done|done|].
    constructor; [apply parse_line_iff; eauto|]. apply IH. by injection Hlen.
Qed.

(** ** Reaching the network *)
Definition dialed (c : call GitE) : option (string * Addr * string) :=
  match c with Call (Dial network ip port) _ => Some (network, ip, port) | Call _ _ => None end.

(** An entry of a DNS answer that passes: an address, without a zone, public. *)
Definition public_entry (a : list ascii * string) : bool :=
  match AddrFromSlice a.1 with Some addr => bool_decide (a.2 = "") && isPublicIP (Unmap addr) | None => false end.

Section reach.
Context `{UnicodeTables, UrlLib}.

(** What [publicIPs] may rest an address on: the literal itself, or an answer to the
    very lookup it made, all of which is public. *)
Definition vouched (host : string) (tr : list (call GitE)) (ip : Addr) : Prop :=
  match ParseAddr host with
  | Some literal => tr = [] ∧ ip = Unmap literal ∧ Zone ip = "" ∧ isPublicIP ip = true
  | None => ∃ answer, tr = [Call (LookupIP host) (Ok answer)] ∧ Forall (λ a, public_entry a = true) answer ∧
              isPublicIP ip = true ∧ ∃ a, a ∈ answer ∧ Unmap <$> AddrFromSlice a.1 = Some ip
  end.

Lemma vet_Ok host resolved seen ips :
  vet host resolved seen = Ok ips →
  Forall (λ a, public_entry a = true) resolved ∧
  ∀ ip, ip ∈ ips ↔ ip ∈ seen ∨ ∃ a, a ∈ resolved ∧ Unmap <$> AddrFromSlice a.1 = Some ip.
Proof.
  revert seen. induction resolved as [|[b z] resolved IH]; intros seen; cbn [vet].
  { intros [= ->]. split; [constructor|]. set_solver. }
  destruct (AddrFromSlice b) as [addr|] eqn:Ha; [|done].
  destruct (_ || _) eqn:Hb; [done|]. apply orb_false_iff in Hb as [Hz Hp].
  apply negb_false_iff in Hz, Hp.
  destruct (decide (Unmap addr ∈ seen)) as [Hs|Hs]; intros Hv; apply IH in Hv as [Hf Hin];
    (split; [constructor; [unfold public_entry; cbn; by rewrite Ha, Hz, Hp|done]|]);
    intros ip; rewrite Hin; setoid_rewrite elem_of_cons.
  - split; [naive_solver|]. intros [?|(a & [->|?] & Hu)]; [by left| |naive_solver].
    cbn in Hu. rewrite Ha in Hu. simplify_eq/=. by left.
  - rewrite elem_of_app, list_elem_of_singleton. split.
    + intros [[?| ->]|?]; [by left| |naive_solver]. right. exists (b, z). cbn. rewrite Ha. naive_solver.
    + intros [?|(a & [->|?] & Hu)]; [naive_solver| |naive_solver].
      cbn in Hu. rewrite Ha in Hu. simplify_eq/=. naive_solver.
Qed.

Lemma publicIPs_vouched host tr ips :
  exec (publicIPs host) tr (Ok ips) → ∀ ip, ip ∈ ips → vouched host tr ip.
Proof.
  unfold publicIPs, vouched. destruct (ParseAddr host) as [literal|].
  - intros [-> Heq]. destruct (_ || _) eqn:Hb; [done|]. injection Heq as ->.
    apply orb_false_iff in Hb as [Hz%negb_false_iff%bool_decide_eq_true Hp%negb_false_iff].
    intros ip ->%list_elem_of_singleton. done.
  - intros (t1 & t2 & l & -> & ->%exec_trigger & -> & Heq)%exec_bind ip Hip.
    destruct l as [[|a answer]|e]; [done| |done]. symmetry in Heq. apply vet_Ok in Heq as [Hf Hin].
    exists (a :: answer). split_and!; [done|done| |by apply Hin in Hip as [?%not_elem_of_nil|?]].
    apply Hin in Hip as [?%not_elem_of_nil|(x & Hx & Hu)]; [done|].
    rewrite Forall_forall in Hf. specialize (Hf _ Hx). unfold public_entry in Hf.
    destruct (AddrFromSlice x.1); [|done]. simplify_eq/=. by apply andb_true_iff in Hf as [_ ?].
Qed.

Lemma dial_loop_dials host network port ips lastErr tr r n ip p :
  exec (dial_loop host network port ips lastErr) tr r → (n, ip, p) ∈ omap dialed tr → ip ∈ ips ∧ p = port.
Proof.
  revert lastErr tr. induction ips as [|ip0 ips IH]; intros lastErr tr; cbn [dial_loop].
  { intros [-> _] ?%not_elem_of_nil. done. }
  destruct (_ || _). { intros Hex Hin. destruct (IH _ _ Hex Hin). set_solver. }
  intros (t1 & t2 & c & -> & ->%exec_trigger & Hk)%exec_bind. cbn.
  intros [[= -> -> ->]|Hin]%elem_of_cons; [set_solver|]. destruct c as [[]|e].
  { destruct Hk as [-> _]. by apply not_elem_of_nil in Hin. }
  apply exec_bind in Hk as (t3 & t4 & x & -> & ->%exec_trigger & Hk). cbn in Hin. destruct x.
  { destruct Hk as [-> _]. by apply not_elem_of_nil in Hin. }
  destruct (IH _ _ Hk Hin). set_solver.
Qed.

Lemma publicIPs_no_dial host tr r : exec (publicIPs host) tr r → omap dialed tr = [].
Proof.
  unfold publicIPs. destruct (ParseAddr host); [by intros [-> _]|].
  intros (t1 & t2 & l & -> & ->%exec_trigger & -> & _)%exec_bind. done.
Qed.

(** C26. Every connection the resolver's HTTP client opens goes to port 443 of a public
    address that the host of the dialed address is, or that was in the answer to the
    lookup made for this very dial, an answer with nothing but public addresses in it. *)
Theorem dial_only_public network address tr r n ip port :
  exec (dialContext network address) tr r → (n, ip, port) ∈ omap dialed tr →
  ∃ host lookups dials, SplitHostPort address = Ok (host, "443") ∧ port = "443" ∧ tr = lookups ++ dials ∧
    isPublicIP ip = true ∧ vouched host lookups ip.
Proof.
  unfold dialContext. destruct (SplitHostPort address) as [[host p]|e].
  2:{ intros [-> _] ?%not_elem_of_nil. done. }
  case_decide as Hp. { intros [-> _] ?%not_elem_of_nil. done. }
  subst p. intros (t1 & t2 & ips & -> & Hips & Hk)%exec_bind Hin.
  rewrite omap_app, (publicIPs_no_dial _ _ _ Hips), app_nil_l in Hin.
  destruct ips as [ips|e]; [|destruct Hk as [-> _]; by apply not_elem_of_nil in Hin].
  destruct (dial_loop_dials _ _ _ _ _ _ _ _ _ _ Hk Hin) as [Hip ->].
  pose proof (publicIPs_vouched _ _ _ Hips _ Hip) as Hv. exists host, t1, t2. split_and!; try done.
  unfold vouched in Hv. destruct (ParseAddr host); naive_solver.
Qed.

(** ** Resolving a commit *)

(** A URL the resolver goes to. *)
Definition acceptable (u : URL) : Prop :=
  EqualFold (u_Scheme u) "https" = true ∧ Hostname u ≠ "" ∧ u_HasUser u = false ∧ u_Fragment u = "" ∧
  (Port u = "" ∨ Port u = "443").

Lemma validateURLShape_None u b : validateURLShape u b = None → acceptable u.
Proof.
  unfold validateURLShape. destruct (_ || _) eqn:H1; [done|]. destruct (u_HasUser u) eqn:Hu; [done|].
  destruct (negb (bool_decide (u_Fragment u = ""))) eqn:Hf; [done|].
  destruct (negb (bool_decide (Port u = "")) && _) eqn:Hp; [done|]. intros _.
  rewrite !orb_false_iff, !negb_false_iff, bool_decide_eq_false in H1. destruct H1 as ((Hs & Hh) & _).
  apply negb_false_iff, bool_decide_eq_true in Hf.
  rewrite andb_false_iff, !negb_false_iff, !bool_decide_eq_true in Hp. by split_and!.
Qed.

Lemma read_response_Ok repository ref resp sha :
  read_response repository ref resp = Ok sha →
  resp_StatusCode resp = 200%Z ∧
  ∃ body refs, resp_Body resp = Ok body ∧ (Z.of_nat (length body) <= maxAdvertisementBytes)%Z ∧
    parseAdvertisement body = Ok refs ∧ resolveRef refs ref = Some sha.
Proof.
  unfold read_response. set (code := resp_StatusCode resp).
  destruct ((code =? 408) || (code =? 429))%Z; [done|]. destruct ((400 <=? code) && (code <? 500))%Z; [done|].
  destruct (500 <=? code)%Z; [done|]. destruct (Z.eqb_spec code 200) as [Hc|]; [|done]. cbn [negb].
  destruct (ParseMediaType _); [|done]. destruct (EqualFold _ _); [|done].
  destruct (resp_Body resp) as [body|]; [|done]. destruct (Z.ltb_spec maxAdvertisementBytes (Z.of_nat (length body))); [done|].
  destruct (parseAdvertisement body) as [refs|] eqn:Hp; [|done]. destruct (resolveRef refs ref) eqn:Hr; [|done].
  intros [= ->]. split; [done|]. by exists body, refs.
Qed.

Lemma resolveRef_elem refs ref sha : resolveRef refs ref = Some sha → ∃ name, refs !! name = Some sha.
Proof.
  assert (Ht : ∀ tag, resolveTag refs tag = Some sha → ∃ name, refs !! name = Some sha).
  { intros tag. unfold resolveTag. destruct (refs !! (tag +:+ _)) eqn:Hp; [intros [= ->]|]; eauto. }
  unfold resolveRef. destruct (_ || _); [eauto|]. destruct (HasPrefix ref "refs/heads/"); [eauto|].
  destruct (HasPrefix ref "refs/tags/"); [eauto|]. destruct (refs !! ("refs/heads/" +:+ ref)) eqn:Hh; [intros [= ->]|]; eauto.
Qed.

Lemma parse_refs_hex fuel rest refs out name sha :
  parse_refs fuel rest refs = Ok out → out !! name = Some sha →
  refs !! name = Some sha ∨ isLowerHexSHA (bytes sha) = true.
Proof.
  intros (lines & entries & _ & He & Hc & ->)%parse_refs_sound. rewrite insert_all_lookup by done.
  intros [Hin|?]; [right|by left]. apply list_elem_of_lookup in Hin as [i Hi].
  destruct (Forall2_lookup_r _ _ _ _ _ He Hi) as (line & _ & Hl). by apply parse_line_valid in Hl as [? _].
Qed.
Lemma parseAdvertisement_hex body refs name sha :
  parseAdvertisement body = Ok refs → refs !! name = Some sha → isLowerHexSHA (bytes sha) = true.
Proof.
  unfold parseAdvertisement. destruct (next body) as [[[service|] rest]|]; [|done..].
  case_decide; [|done]. destruct (next rest) as [[[|] rest']|]; [done| |done].
  intros Hp Hl. destruct (parse_refs_hex _ _ _ _ _ _ Hp Hl); [by rewrite lookup_empty in *|done].
Qed.

(** C25. A commit the resolver returns is forty lower-case hexadecimal digits that a
    complete, well-formed advertisement of at most 4 MiB gave for the ref, in a 200
    answer to the only request made, sent to the upload-pack endpoint of an HTTPS
    repository URL without credentials, fragment, query or foreign port, after the
    host was found to be public. *)
Theorem ResolveCommit_sound repoURL ref tr sha :
  exec (ResolveCommit repoURL ref) tr (Ok sha) →
  isLowerHexSHA (bytes sha) = true ∧
  ∃ u lookups ips resp body refs,
    ParseURL repoURL = Ok u ∧ acceptable u ∧ validateURLShape u false = None ∧ validateRef ref = None ∧
    exec (publicIPs (Hostname (with_scheme u "https"))) lookups (Ok ips) ∧
    tr = lookups ++ [Call (ClientDo (endpoint_of (with_scheme u "https"))) (Ok resp)] ∧
    resp_StatusCode resp = 200%Z ∧ resp_Body resp = Ok body ∧ (Z.of_nat (length body) <= maxAdvertisementBytes)%Z ∧
    parseAdvertisement body = Ok refs ∧ resolveRef refs ref = Some sha.
Proof.
  unfold ResolveCommit. destruct (validateRef ref) eqn:Hr; [by intros [_ ?]|].
  unfold parseRepositoryURL. destruct (_ || _); [by intros [_ ?]|].
  destruct (ParseURL repoURL) as [u|] eqn:Hu; [|by intros [_ ?]].
  destruct (validateURLShape u false) eqn:Hs; [by intros [_ ?]|].
  intros (t1 & t2 & ips & -> & Hips & Hk)%exec_bind. destruct ips as [ips|]; [|by destruct Hk as [_ ?]].
  cbv zeta in Hk. destruct (NewRequest _); [by destruct Hk as [_ ?]|].
  apply exec_bind in Hk as (t3 & t4 & resp & -> & ->%exec_trigger & -> & Hk).
  destruct resp as [resp|]; [|done]. symmetry in Hk. apply read_response_Ok in Hk as (Hc & body & refs & Hb & Hl & Hp & Hsha).
  split.
  - destruct (resolveRef_elem _ _ _ Hsha) as [name Hn]. by eapply parseAdvertisement_hex.
  - exists u, t1, ips, resp, body, refs. rewrite app_nil_r. split_and!; try done. by eapply validateURLShape_None.
Qed.

(** ** Which failures are retried *)

(** The address that decides a refused DNS answer is no address at all. *)
Definition invalid_first (answer : list (list ascii * string)) : bool :=
  match find (λ a, negb (public_entry a)) answer with Some a => bool_decide (AddrFromSlice a.1 = None) | None => false end.
Definition transient_response (resp : Response) : bool :=
  let code := resp_StatusCode resp in
  ((code =? 408) || (code =? 429) || (500 <=? code))%Z ||
  (code =? 200)%Z && match ParseMediaType (resp_ContentType resp) with Ok m => EqualFold m advertisementMediaType | Err _ => false end &&
    match resp_Body resp with Err _ => true | Ok _ => false end.
(** A reply that says nothing about the repository or the ref: no usable DNS answer, a
    transport error the dialer did not rule out, a timeout, rate limit or server error,
    or a body that could not be read. *)
Definition transient (c : call GitE) : bool :=
  match c with
  | @Call _ X e x =>
      match e in GitE X return X → bool with
      | LookupIP _ => λ l, match l with Err _ => true | Ok [] => true | Ok answer => invalid_first answer end
      | ClientDo _ => λ r, match r with Err (ResolveFailed _) => true | Err _ => false | Ok resp => transient_response resp end
      | _ => λ _, false
      end x
  end.
Definition is_retryable (e : ResolveError) : bool := match e with ResolveFailed _ => true | Unresolvable _ => false end.
Lemma is_retryable_wrap p e : is_retryable (wrap p e) = is_retryable e.
Proof. by destruct e. Qed.
Definition last_transient (tr : list (call GitE)) : bool := match last tr with Some c => transient c | None => false end.

Lemma vet_Err host resolved seen e : vet host resolved seen = Err e → is_retryable e = invalid_first resolved.
Proof.
  revert seen. induction resolved as [|[b z] resolved IH]; intros seen; cbn [vet]; [done|].
  unfold invalid_first. cbn [find]. unfold public_entry at 1; cbn [fst snd].
  destruct (AddrFromSlice b) as [addr|] eqn:Ha.
  - destruct (bool_decide (z = "")), (isPublicIP (Unmap addr)); cbn [negb orb andb].
    2-4: intros [= <-]; cbn; by rewrite Ha.
    destruct (decide (Unmap addr ∈ seen)); apply IH.
  - intros [= <-]. cbn. by rewrite Ha.
Qed.

Lemma publicIPs_Err host tr e : exec (publicIPs host) tr (Err e) → is_retryable e = last_transient tr.
Proof.
  unfold publicIPs. destruct (ParseAddr host) as [literal|].
  - intros [-> Heq]. destruct (_ || _); [|done]. by injection Heq as ->.
  - intros (t1 & t2 & l & -> & ->%exec_trigger & -> & Heq)%exec_bind.
    destruct l as [[|a answer]|err]; [by injection Heq as ->| |by injection Heq as ->].
    symmetry in Heq. apply vet_Err in Heq. done.
Qed.

Lemma publicIPs_settled host tr ips : exec (publicIPs host) tr (Ok ips) → last_transient tr = false.
Proof.
  unfold publicIPs. destruct (ParseAddr host) as [literal|]; [by intros [-> _]|].
  intros (t1 & t2 & l & -> & ->%exec_trigger & -> & Heq)%exec_bind. destruct l as [[|a answer]|]; [done| |done].
  symmetry in Heq. apply vet_Ok in Heq as [Hf _]. change (invalid_first (a :: answer) = false).
  unfold invalid_first. induction Hf as [|x l Hx _ IH]; [done|]. cbn [find]. by rewrite Hx.
Qed.

Lemma read_response_Err repository ref resp e :
  read_response repository ref resp = Err e → is_retryable e = transient_response resp.
Proof.
  unfold read_response, transient_response. set (code := resp_StatusCode resp).
  destruct ((code =? 408) || (code =? 429))%Z eqn:H1; [by intros [= <-]|]. cbn [orb].
  destruct ((400 <=? code) && (code <? 500))%Z eqn:H2.
  { intros [= <-]. rewrite (proj2 (Z.leb_gt 500 code)), (proj2 (Z.eqb_neq code 200)); [done|lia..]. }
  destruct (500 <=? code)%Z; [by intros [= <-]|]. destruct (code =? 200)%Z; [|by intros [= <-]]. cbn [negb orb andb].
  destruct (ParseMediaType _); [|by intros [= <-]]. destruct (EqualFold _ _); [|by intros [= <-]].
  destruct (resp_Body resp) as [body|]; [|by intros [= <-]].
  destruct (maxAdvertisementBytes <? Z.of_nat (length body))%Z; [intros [= <-]; done|].
  destruct (parseAdvertisement _); [|by intros [= <-]]. destruct (resolveRef _ _); [done|by intros [= <-]].
Qed.

(** What is refused before any call is refused for good. *)
Ltac refused := repeat match goal with |- context [if ?c then _ else _] => destruct c end; by intros [= <-].
Lemma validateRef_permanent ref e : validateRef ref = Some e → is_retryable e = false.
Proof. unfold validateRef. cbv zeta. refused. Qed.
Lemma validateURLShape_permanent u b e : validateURLShape u b = Some e → is_retryable e = false.
Proof. unfold validateURLShape. refused. Qed.
Lemma parseRepositoryURL_permanent raw e : parseRepositoryURL raw = Err e → is_retryable e = false.
Proof.
  unfold parseRepositoryURL. destruct (_ || _); [by intros [= <-]|]. destruct (ParseURL raw) as [u|]; [|by intros [= <-]].
  destruct (validateURLShape u false) eqn:Hs; [|done]. intros [= <-]. by eapply validateURLShape_permanent.
Qed.

(** A failure is left to be retried exactly when the last reply says nothing about
    the repository or the ref: DNS failed or gave no addresses, the transport failed,
    the server timed out, limited the rate or broke, or the body could not be read.
    Every other failure is permanent, and a request refused before any call is too. *)
Theorem retry_iff_transient repoURL ref tr e :
  exec (ResolveCommit repoURL ref) tr (Err e) → is_retryable e = last_transient tr.
Proof.
  unfold ResolveCommit. destruct (validateRef ref) eqn:Hr.
  { intros [-> [= ->]]. by eapply validateRef_permanent. }
  destruct (parseRepositoryURL repoURL) as [u|e'] eqn:Hu.
  2:{ intros [-> [= ->]]. by eapply parseRepositoryURL_permanent. }
  intros (t1 & t2 & ips & -> & Hips & Hk)%exec_bind. destruct ips as [ips|e'].
  2:{ destruct Hk as [-> [= ->]]. rewrite app_nil_r, is_retryable_wrap. by eapply publicIPs_Err. }
  cbv zeta in Hk. destruct (NewRequest _).
  { destruct Hk as [-> [= ->]]. rewrite app_nil_r. symmetry. by eapply publicIPs_settled. }
  apply exec_bind in Hk as (t3 & t4 & resp & -> & ->%exec_trigger & -> & Hk). rewrite app_nil_r.
  unfold last_transient. rewrite last_snoc. destruct resp as [resp|e'].
  - symmetry in Hk. by apply read_response_Err in Hk.
  - injection Hk as ->. rewrite is_retryable_wrap. by destruct e'.
Qed.
End reach.

(** ** A repository at a public host *)
Module GitResolverExample.
#[local] Instance tables : UnicodeTables := ascii_tables.

Definition repo : URL :=
  {| u_Scheme := "HTTPS"; u_Opaque := ""; u_HasUser := false; u_Host := "git.example"; u_Path := "/team/app/";
     u_RawPath := ""; u_ForceQuery := false; u_RawQuery := ""; u_Fragment := "" |}.
#[local] Instance urls : UrlLib := {|
  ParseURL s := if decide (s = "HTTPS://git.example/team/app/") then Ok repo else Err "not a URL";
  Hostname := u_Host;
  Port _ := "";
  Query _ := [];
  Redacted _ := "https://git.example/team/app/";
  NewRequest _ := None;
  ParseMediaType := Ok;
  ParseAddr _ := None;
  AddrString _ := "";
  SplitHostPort s := if decide (s = "git.example:443") then Ok ("git.example", "443") else Err "missing port";
|}.

Definition main_sha : string := "0123456789abcdef0123456789abcdef01234567".
Definition refs : list (string * string) := [("HEAD", main_sha); ("refs/heads/main", main_sha)].
Definition caps : list (option (list ascii)) := [Some (bytes "multi_ack agent=git/2"); None].
Definition body : list ascii := print_advertisement (zip_with (λ e c, line_of e.1 e.2 c) refs caps).

Definition response (status : Z) : Response :=
  {| resp_StatusCode := status; resp_Status := ""; resp_ContentType := advertisementMediaType; resp_Body := Ok body |}.
Definition address : list ascii := byte <$> [93; 184; 216; 34].

(** DNS answers with [ips], the first dial fails, the server answers [status]. *)
Definition network (ips : list (list ascii)) (status : Z) (X : Set) (e : GitE X) (dials : nat) : X * nat :=
  match e in GitE X return X * nat with
  | LookupIP _ => (Ok ((., "") <$> ips), dials)
  | Dial _ _ _ => (if decide (dials = 0) then Err "refused" else Ok tt, S dials)
  | CtxErr => (None, dials)
  | ClientDo _ => (Ok (response status), dials)
  end.

Definition resolving (status : Z) := run (network [address] status) (ResolveCommit "HTTPS://git.example/team/app/" "main") 0.
Definition dialing := run (network [address; byte <$> [1; 1; 1; 1]] 200) (dialContext "tcp" "git.example:443") 0.

Example resolves : (resolving 200).1.1 = Ok main_sha.
Proof. vm_compute. reflexivity. Qed.
Example dials_both : omap dialed dialing.1.2 = [("tcp", IP4 1572395042, "443"); ("tcp", IP4 16843009, "443")].
Proof. vm_compute. reflexivity. Qed.
(** One private address in the answer, and nothing is dialed. *)
Example rebinding :
  omap dialed (run (network [address; byte <$> [10; 0; 0; 1]] 200) (dialContext "tcp" "git.example:443") 0).1.2 = [].
Proof. vm_compute. reflexivity. Qed.
Lemma resolving_exec status : exec (ResolveCommit "HTTPS://git.example/team/app/" "main") (resolving status).1.2 (resolving status).1.1.
Proof. apply run_exec. Qed.
Lemma dialing_exec : exec (dialContext "tcp" "git.example:443") dialing.1.2 dialing.1.1.
Proof. apply run_exec. Qed.

Lemma public_ip_iff_witness : plain (IP4 1572395042) ∧ isPublicIP (IP4 1572395042) = true.
Proof. assert (plain (IP4 1572395042)) by (cbn; lia). split; [done|]. rewrite public_ip_iff by done. vm_compute. reflexivity. Defined.

Lemma advertisement_roundtrip_witness : parseAdvertisement body = Ok (list_to_map refs).
Proof.
  apply (advertisement_roundtrip refs caps); [reflexivity| | |].
  - apply (bool_decide_eq_true_1 _). vm_compute. reflexivity.
  - repeat constructor.
  - repeat constructor; vm_compute; discriminate.
Defined.

Lemma dial_only_public_witness : isPublicIP (IP4 16843009) = true.
Proof.
  destruct (dial_only_public "tcp" "git.example:443" _ _ "tcp" (IP4 16843009) "443" dialing_exec)
    as (host & lookups & dials & _ & _ & _ & Hp & _); [|exact Hp].
  rewrite dials_both. set_solver.
Defined.

Lemma ResolveCommit_sound_witness : isLowerHexSHA (bytes main_sha) = true.
Proof.
  pose proof (resolving_exec 200) as Hex. rewrite resolves in Hex. exact (proj1 (ResolveCommit_sound _ _ _ _ Hex)).
Defined.

Lemma retry_iff_transient_witness :
  is_retryable (ResolveFailed "git: upload-pack advertisement answered ") = true ∧ last_transient (resolving 503).1.2 = true.
Proof.
  pose proof (resolving_exec 503) as Hex.
  replace (resolving 503).1.1 with (@Err ResolveError string (ResolveFailed "git: upload-pack advertisement answered ")) in Hex
    by (vm_compute; reflexivity).
  split; [done|]. by rewrite <- (retry_iff_transient _ _ _ _ Hex).
Defined.
End GitResolverExample.
