(* ===== verification/Paths.v ===== *)
(** * Slash-separated paths

    Go's [path.Clean], [path.Join], [filepath.Join] and [filepath.Dir] on Unix, by the
    rules their documentation gives: a path is the sequence of its elements, an empty
    element and [.] disappear, [..] removes the element before it, and stays only at the
    front of a relative path. *)
From S2P Require Import Prelude Regex GoStrings.
From Stdlib Require Import Ascii.

Definition slash : ascii := "/"%char.
Definition rooted (p : string) : bool := HasPrefix p "/".

(** One element onto the elements so far, the last one first. *)
Definition clean_step (root : bool) (stack : list string) (e : string) : list string :=
  if decide (e = "" ∨ e = ".") then stack
  else if decide (e = "..") then
    match stack with
    | [] => if root then [] else [".."]
    | top :: rest => if decide (top = "..") then ".." :: stack else rest
    end
  else e :: stack.

(** The elements of a path after cleaning. *)
Definition elements (p : string) : list string := rev (foldl (clean_step (rooted p)) [] (Split p slash)).

Definition print_path (root : bool) (l : list string) : string :=
  if root then "/" +:+ Join l "/" else if decide (l = []) then "." else Join l "/".

Definition Clean (p : string) : string := if decide (p = "") then "." else print_path (rooted p) (elements p).

(** [filepath.Join] of two elements, and [path.Join] *)
Definition path_Join (l : list string) : string :=
  match filter (λ e, e ≠ "") l with [] => "" | l => Clean (Join l "/") end.

(** [filepath.Dir]: what comes up to the last slash, cleaned *)
Definition Dir (p : string) : string :=
  Clean (of_bytes (rev (drop_while (λ c, negb (bool_decide (c = slash))) (rev (bytes p))))).

(** ** Safe elements *)
Definition safe_element (e : string) : Prop := e ≠ "" ∧ e ≠ "." ∧ e ≠ ".." ∧ (slash ∉ bytes e).

Lemma clean_step_safe root stack e : safe_element e → clean_step root stack e = e :: stack.
Proof. intros (H1 & H2 & H3 & _). unfold clean_step. by rewrite !decide_False by tauto. Qed.

Lemma clean_safe root stack l : Forall safe_element l → foldl (clean_step root) stack l = rev l ++ stack.
Proof.
  intros Hl. revert stack. induction Hl as [|e l He _ IH]; intros stack; [done|].
  cbn [foldl rev]. rewrite clean_step_safe, IH by done. by rewrite <- app_assoc.
Qed.

Lemma split_bytes_concat sep l1 l2 : split_bytes sep (l1 ++ sep :: l2) = split_bytes sep l1 ++ split_bytes sep l2.
Proof.
  induction l1 as [|c l1 IH]; cbn; [by rewrite decide_True|]. case_decide; [by rewrite IH|].
  rewrite IH. by destruct (split_bytes sep l1) eqn:Hs; [destruct l1; cbn in Hs; repeat case_match|].
Qed.
Lemma Split_app sep s t : Split (s +:+ String sep t) sep = Split s sep ++ Split t sep.
Proof.
  unfold Split. rewrite bytes_app. change (bytes (String sep t)) with (sep :: bytes t).
  by rewrite split_bytes_concat, fmap_app.
Qed.
Lemma split_bytes_free sep l : Forall (λ w, sep ∉ w) (split_bytes sep l).
Proof.
  induction l as [|c l IH]; cbn; [constructor; [set_solver|constructor]|]. case_decide; [constructor; [set_solver|done]|].
  destruct (split_bytes sep l) as [|w ws]; [constructor; [set_solver|constructor]|]. inversion IH; subst. constructor; [set_solver|done].
Qed.
Lemma Split_free sep s : Forall (λ w, sep ∉ bytes w) (Split s sep).
Proof. unfold Split. apply Forall_fmap. eapply Forall_impl; [apply split_bytes_free|]. cbn. intros w. by rewrite bytes_of_bytes. Qed.

Lemma rooted_app p q : p ≠ "" → rooted (p +:+ q) = rooted p.
Proof. destruct p as [|c p]; [done|]. intros _. unfold rooted. cbn. destruct p; [by destruct q|done]. Qed.

(** ** What cleaning leaves *)

(** Elements that cleaning does not change: leading [..] of a relative path, then safe ones. *)
Inductive cleaned (root : bool) : list string → Prop :=
| cleaned_intro n l : (root = true → n = 0) → Forall safe_element l → cleaned root (replicate n ".." ++ l).

Lemma rev_replicate {A} n (x : A) : rev (replicate n x) = replicate n x.
Proof. rewrite rev_alt. apply reverse_replicate. Qed.

Lemma cleaned_step root stack e : (slash ∉ bytes e) → cleaned root (rev stack) → cleaned root (rev (clean_step root stack e)).
Proof.
  intros He Hc. unfold clean_step. destruct (decide (e = "" ∨ e = ".")) as [|Hne]; [done|].
  inversion Hc as [n l Hn Hl Heq]. destruct (decide (e = "..")) as [->|Hdd].
  - assert (Hs : stack = rev l ++ replicate n "..").
    { rewrite <- (rev_involutive stack), <- Heq, rev_app_distr. f_equal. rewrite rev_replicate. done. }
    destruct (rev l) as [|x l'] eqn:Hr.
    + assert (l = []) as -> by (rewrite <- (rev_involutive l), Hr; done). rewrite Hs. cbn [app]. destruct n as [|n].
      * cbn. destruct root; [by apply (cleaned_intro _ 0 [])|apply (cleaned_intro _ 1 []); [done|constructor]].
      * cbn [replicate]. rewrite decide_True by done.
        change (".." :: ".." :: replicate n "..") with (replicate (S (S n)) ".."). rewrite rev_replicate.
        rewrite <- (app_nil_r (replicate _ _)). apply cleaned_intro; [intros Hroot; by specialize (Hn Hroot)|constructor].
    + assert (Hl' : l = rev l' ++ [x]) by (rewrite <- (rev_involutive l), Hr; done).
      rewrite Hl', Forall_app in Hl. destruct Hl as [Hfl Hx]. rewrite Hs. cbn [app].
      rewrite decide_False by (inversion Hx as [|? ? (? & ? & ? & ?)]; done).
      rewrite rev_app_distr, rev_replicate. by apply cleaned_intro.
  - cbn [rev]. rewrite <- Heq, <- app_assoc. apply cleaned_intro; [done|]. apply Forall_app. split; [done|].
    repeat constructor; tauto.
Qed.

Lemma elements_cleaned p : cleaned (rooted p) (elements p).
Proof.
  unfold elements. pose proof (Split_free slash p) as Hf. assert (Hc : cleaned (rooted p) (rev [])).
  { by apply (cleaned_intro _ 0 []). }
  revert Hc. generalize (@nil string). induction Hf as [|e l He _ IH]; intros stack Hc; [done|].
  apply IH. by apply cleaned_step.
Qed.

Lemma cleaned_fixed root l : cleaned root l → foldl (clean_step root) [] l = rev l.
Proof.
  intros [n l' Hn Hl]. rewrite foldl_app. assert (Hd : foldl (clean_step root) [] (replicate n "..") = replicate n "..").
  { destruct n as [|n]; [done|]. destruct root; [by specialize (Hn eq_refl)|].
    assert (∀ m k, foldl (clean_step false) (replicate (S k) "..") (replicate m "..") = replicate (m + S k) "..") as Hm.
    { induction m as [|m IH]; intros k; [done|]. cbn [replicate foldl]. cbn [replicate clean_step].
      change (clean_step false (".." :: replicate k "..") "..") with (replicate (S (S k)) "..").
      rewrite IH. f_equal. lia. }
    cbn [replicate foldl]. change (clean_step false [] "..") with (replicate 1 ".."). by rewrite Hm, Nat.add_1_r. }
  rewrite Hd, clean_safe, rev_app_distr by done. f_equal. by rewrite rev_replicate.
Qed.

Lemma cleaned_elements root l e : cleaned root l → e ∈ l → e ≠ "" ∧ (slash ∉ bytes e).
Proof.
  intros [n l' Hn Hl] [Hin|Hin]%elem_of_app.
  - apply elem_of_replicate in Hin as [-> _]. split; [done|]. by apply not_in_literal.
  - rewrite Forall_forall in Hl. by destruct (Hl _ Hin) as (? & ? & ? & ?).
Qed.
Lemma cleaned_free root l : cleaned root l → Forall (λ w, slash ∉ bytes w) l.
Proof. intros Hc. apply Forall_forall. intros e He. by eapply cleaned_elements. Qed.

Lemma Join_nonempty l : l ≠ [] → (∀ e, e ∈ l → e ≠ "") → Join l "/" ≠ "".
Proof.
  destruct l as [|e l]; [done|]. intros _ He Hj. assert (e ≠ "") by (apply He; left). destruct e; [done|].
  by destruct l.
Qed.
Lemma Join_unrooted l : (∀ e, e ∈ l → e ≠ "" ∧ (slash ∉ bytes e)) → rooted (Join l "/") = false.
Proof.
  destruct l as [|e l]; [done|]. intros He. destruct (He e) as [Hne Hf]; [left|]. destruct e as [|c e]; [done|].
  assert (Hc : slash ≠ c) by (intros <-; apply Hf; left). 
  assert (Hr : rooted (String c e) = false) by (unfold rooted; cbn [HasPrefix]; by rewrite bool_decide_false).
  destruct l as [|x l]; [done|]. change (rooted (String c e +:+ ("/" +:+ Join (x :: l) "/")) = false). by rewrite rooted_app.
Qed.

Lemma Split_print root l : cleaned root l → l ≠ [] →
  Split (print_path root l) slash = (if root then [""] else []) ++ l.
Proof.
  intros Hc Hne. pose proof (cleaned_free _ _ Hc) as Hf. unfold print_path. destruct root.
  - change ("/" +:+ Join l "/") with ("" +:+ String slash (Join l (String slash ""))).
    by rewrite Split_app, Split_Join by done.
  - rewrite decide_False by done. by apply Split_Join.
Qed.

(** Printing and reading elements is the identity on clean ones. *)
Lemma elements_print root l : cleaned root l → elements (print_path root l) = l ∧ rooted (print_path root l) = root.
Proof.
  intros Hc. assert (Hr : rooted (print_path root l) = root).
  { unfold print_path. destruct root; [by destruct (Join l "/")|]. case_decide; [by subst|].
    apply Join_unrooted. intros e He. by eapply cleaned_elements. }
  split; [|done]. destruct (decide (l = [])) as [->|Hne]; [by destruct root|].
  unfold elements. rewrite Hr, Split_print by done. destruct root; cbn [app foldl].
  - change (clean_step true [] "") with (@nil string). by rewrite cleaned_fixed, rev_involutive.
  - by rewrite cleaned_fixed, rev_involutive.
Qed.

Lemma Clean_print root l : cleaned root l → Clean (print_path root l) = print_path root l.
Proof.
  intros Hc. destruct (elements_print _ _ Hc) as [He Hr]. unfold Clean. rewrite He, Hr. rewrite decide_False; [done|].
  unfold print_path. destruct root; [done|]. case_decide as Hl; [done|]. apply Join_nonempty; [done|].
  intros e Hin. by eapply cleaned_elements.
Qed.

(** Joining safe elements onto a directory appends them to its elements. *)
Lemma path_Join_safe dest rel :
  dest ≠ "" → rel ≠ [] → Forall safe_element rel →
  path_Join [dest; Join rel "/"] = print_path (rooted dest) (elements dest ++ rel).
Proof.
  intros Hd Hne Hs.
  assert (Hj : Join rel "/" ≠ "").
  { apply Join_nonempty; [done|]. intros e He. rewrite Forall_forall in Hs. by destruct (Hs e He). }
  unfold path_Join. rewrite !filter_cons_True, filter_nil by done. cbn [Join]. unfold Clean.
  rewrite decide_False by (by destruct dest).
  change (dest +:+ "/" +:+ Join rel "/") with (dest +:+ String slash (Join rel (String slash ""))).
  unfold elements. rewrite rooted_app, Split_app, Split_Join, foldl_app, clean_safe, rev_app_distr, rev_involutive; try done.
  eapply Forall_impl; [exact Hs|]. by intros e (? & ? & ? & ?).
Qed.

Lemma cleaned_app root l rel : cleaned root l → Forall safe_element rel → cleaned root (l ++ rel).
Proof. intros [n l' Hn Hl] Hr. rewrite <- app_assoc. apply cleaned_intro; [done|]. by apply Forall_app. Qed.

Lemma Join_snoc l e : l ≠ [] → Join (l ++ [e]) "/" = Join l "/" +:+ String slash e.
Proof.
  induction l as [|x l IH]; [done|]. intros _. destruct l as [|y l]; [done|].
  change (Join ((x :: y :: l) ++ [e]) "/") with (x +:+ "/" +:+ Join ((y :: l) ++ [e]) "/"). rewrite IH by done.
  change (Join (x :: y :: l) "/") with (x +:+ "/" +:+ Join (y :: l) "/"). by rewrite !str_app_assoc.
Qed.

Lemma up_to_slash p e : (slash ∉ bytes e) →
  of_bytes (rev (drop_while (λ c, negb (bool_decide (c = slash))) (rev (bytes (p +:+ String slash e))))) = p +:+ "/".
Proof.
  intros He. rewrite bytes_app. change (bytes (String slash e)) with ([slash] ++ bytes e).
  rewrite !rev_app_distr. cbn [rev app]. rewrite <- app_assoc. cbn [app].
  assert (Hd : ∀ l r, (slash ∉ l) → drop_while (λ c, negb (bool_decide (c = slash))) (l ++ slash :: r) = slash :: r).
  { induction l as [|c l IH]; intros r Hl; cbn; [done|]. rewrite bool_decide_false by set_solver. apply IH. set_solver. }
  rewrite Hd by (rewrite list_elem_of_In, <- in_rev, <- list_elem_of_In; done). cbn [rev]. rewrite rev_involutive.
  apply bytes_inj. by rewrite bytes_of_bytes, bytes_app.
Qed.

(** The directory of a path is its elements but the last. *)
Lemma Dir_print root l e : cleaned root l → safe_element e → Dir (print_path root (l ++ [e])) = print_path root l.
Proof.
  intros Hc He. pose proof He as (_ & _ & _ & Hf). unfold Dir.
  destruct (decide (l = [])) as [->|Hne].
  { destruct root; cbn [print_path app Join].
    - change ("/" +:+ e) with ("" +:+ String slash e). rewrite up_to_slash by done. done.
    - rewrite decide_False by done.
      assert (Hz : drop_while (λ c, negb (bool_decide (c = slash))) (rev (bytes e)) = []).
      { assert (Hr : slash ∉ rev (bytes e)) by (by rewrite list_elem_of_In, <- in_rev, <- list_elem_of_In).
        induction (rev (bytes e)) as [|c r IH]; [done|]. cbn. rewrite bool_decide_false by set_solver. apply IH. set_solver. }
      by rewrite Hz. }
  assert (Hp : print_path root (l ++ [e]) = print_path root l +:+ String slash e).
  { unfold print_path. rewrite Join_snoc, (decide_False (P := l ++ [e] = [])), (decide_False (P := l = [])) by (done || by destruct l).
    destruct root; [by rewrite str_app_assoc|done]. }
  rewrite Hp, up_to_slash by done. unfold Clean.
  assert (Hpn : print_path root l ≠ "").
  { unfold print_path. destruct root; [done|]. rewrite decide_False by done. apply Join_nonempty; [done|].
    intros x Hx. by eapply cleaned_elements. }
  rewrite decide_False by (destruct (print_path root l); done).
  destruct (elements_print _ _ Hc) as [Hel Hro]. f_equal; [by rewrite rooted_app|].
  change "/" with (String slash ""). unfold elements. rewrite rooted_app, Split_app, foldl_app by done.
  cbn [foldl Split]. change (clean_step ?r ?s "") with s. exact Hel.
Qed.
