(* ===== verification/SourceArchive.v ===== *)
(** * Source archives

    [internal/sourcearchive/archive.go], [internal/sourcearchive/registry.go] and
    [operator/internal/sourcefetch/fetch.go]: checking an uploaded ZIP, storing it in
    and fetching it from the registry, and extracting it.  The ZIP reader, the file
    system and the registry answer anything; sizes are 64-bit with their wrap-around. *)
From S2P Require Import Prelude Regex GoStrings Effects Sha256 Kube Api Names Features Dispatcher GitResolver Paths.
From Stdlib Require Import Ascii.

Definition MaxCompressedBytes : Z := Z.shiftl 32 20.
Definition MaxUncompressedBytes : Z := Z.shiftl 256 20.
Definition MaxFiles : Z := 10000.
Definition MaxCompressionRatio : Z := 200.

(** ** Entries *)

(** What is used of [zip.File]: sizes are [uint64], [zf_Mode] is an [os.FileMode]. *)
Record ZipFile : Set := {
  zf_Name : string;
  zf_Flags : Z;
  zf_Method : Z;
  zf_Mode : Z;
  zf_CompressedSize64 : Z;
  zf_UncompressedSize64 : Z;
}.
(** [zip.Store], [zip.Deflate] *)
Definition Store : Z := 0.
Definition Deflate : Z := 8.

Section mode.
#[local] Open Scope Z_scope.
Definition ModeDir : Z := 2 ^ 31.
Definition ModeSymlink : Z := 2 ^ 27.
Definition ModeDevice : Z := 2 ^ 26.
Definition ModeNamedPipe : Z := 2 ^ 25.
Definition ModeSocket : Z := 2 ^ 24.
Definition ModeCharDevice : Z := 2 ^ 21.
Definition ModeIrregular : Z := 2 ^ 19.
Definition ModeType : Z :=
  Z.lor ModeDir (Z.lor ModeSymlink (Z.lor ModeNamedPipe (Z.lor ModeSocket (Z.lor ModeDevice (Z.lor ModeCharDevice ModeIrregular))))).
Definition IsDir (m : Z) : bool := negb (Z.land m ModeDir =? 0).
Definition IsRegular (m : Z) : bool := Z.land m ModeType =? 0.
Definition Perm (m : Z) : Z := Z.land m 511.
Definition wrap64 (z : Z) : Z := z mod 2 ^ 64.
End mode.

(** ** Paths *)
Definition safePath (name : string) : result string string :=
  if bool_decide (name = "") || existsb (λ c, bool_decide (c = zero)) (bytes name) || Contains name "\" || HasPrefix name "/"
  then Err name
  else
    let clean := Clean name in
    if bool_decide (clean = ".") || bool_decide (clean = "..") || HasPrefix clean "../" then Err name
    else Ok clean.

(** ** Inspect *)
Record Info : Set := { info_Files : Z; info_UncompressedBytes : Z }.
Inductive ArchiveError : Set :=
| OpenZipError (err : string)
| NoFiles
| TooManyFiles (n : nat)
| UnsafePath (name : string)
| DuplicatePath (path : string)
| Encrypted (path : string)
| UnsupportedMethod (path : string) (method : Z)
| NotRegular (path : string)
| ExpandsBeyondLimit
| CompressionRatio (path : string)
| NoRegularFiles
| ReadDestination (err : string)
| DestinationNotEmpty
| CreateDirectory (path err : string)
| OpenEntryError (path err : string)
| CreateFileError (path err : string)
| ExtractError (path err : string)
| ExceededSize (path : string).

Section inspect.
#[local] Open Scope Z_scope.

(** The size checks of a regular file. *)
Definition inspect_size (clean : string) (file : ZipFile) (info : Info) : result ArchiveError Info :=
  let size := zf_UncompressedSize64 file in
  if wrap64 (MaxUncompressedBytes - info_UncompressedBytes info) <? size then Err ExpandsBeyondLimit
  else if (2 ^ 20 <? size) && (wrap64 (wrap64 (zf_CompressedSize64 file + 1) * MaxCompressionRatio) <? size) then
    Err (CompressionRatio clean)
  else Ok {| info_Files := info_Files info + 1; info_UncompressedBytes := wrap64 (info_UncompressedBytes info + size) |}.

Fixpoint inspect_loop (files : list ZipFile) (seen : list string) (info : Info) : result ArchiveError Info :=
  match files with
  | [] => if info_Files info =? 0 then Err NoRegularFiles else Ok info
  | file :: files =>
      match safePath (zf_Name file) with
      | Err name => Err (UnsafePath name)
      | Ok clean =>
          if decide (clean ∈ seen) then Err (DuplicatePath clean)
          else if negb (Z.land (zf_Flags file) 1 =? 0) then Err (Encrypted clean)
          else if negb (zf_Method file =? Store) && negb (zf_Method file =? Deflate) then
            Err (UnsupportedMethod clean (zf_Method file))
          else if negb (IsDir (zf_Mode file)) && negb (IsRegular (zf_Mode file)) then Err (NotRegular clean)
          else if IsDir (zf_Mode file) then inspect_loop files (clean :: seen) info
          else
            match inspect_size clean file info with
            | Err e => Err e
            | Ok info => inspect_loop files (clean :: seen) info
            end
      end
  end.

Definition inspect_files (files : list ZipFile) : result ArchiveError Info :=
  if decide (files = []) then Err NoFiles
  else if MaxFiles <? Z.of_nat (length files) then Err (TooManyFiles (length files))
  else inspect_loop files [] {| info_Files := 0; info_UncompressedBytes := 0 |}.
End inspect.

(** ** Calls *)
Record descriptor : Set := { desc_MediaType : string; desc_Digest : string; desc_Size : Z }.
(** The manifest of an archive, before it is written as JSON. *)
Record Manifest : Set := {
  man_ArtifactType : string;
  man_Config : descriptor;
  man_Layers : list descriptor;
  man_Title : string;
}.

Inductive ArchiveE : Set → Type :=
| OpenZip (filename : string) : ArchiveE (result string (list ZipFile))
(** the number of entries *)
| ReadDir (dir : string) : ArchiveE (result string nat)
| MkdirAll (dir : string) : ArchiveE (result string unit)
| OpenEntry (index : nat) : ArchiveE (result string unit)
(** [os.OpenFile] for writing, which must not exist yet *)
| CreateExcl (target : string) (mode : Z) : ArchiveE (result string unit)
(** [io.Copy] from a limited reader, and closing both ends: the bytes written to
    the file and the error *)
| CopyEntry (target : string) (limit : Z) : ArchiveE (Z * option string)
| CreateTemp : ArchiveE (result string string)
| CloseTemp : ArchiveE (option string)
(** rewinding the blob to upload *)
| SeekStart : ArchiveE (option string)
(** the status, the [Location] header and the error of closing the body *)
| PostUpload (url : URL) : ArchiveE (result string (Z * string * option string))
(** the status *)
| PutBlob (url : URL) (mediaType : string) (size : Z) : ArchiveE (result string Z)
| PutManifest (url : URL) (m : Manifest) : ArchiveE (result string Z)
(** a blob: the status, and what copying the body through a limit gives *)
| GetBlob (url : URL) (limit : Z) : ArchiveE (result string (Z * result string (list ascii))).

Definition Inspect (filename : string) : prog ArchiveE (result ArchiveError Info) :=
  let! r := trigger (OpenZip filename) in
  Ret (match r with Err e => Err (OpenZipError e) | Ok files => inspect_files files end).

(** ** Extract *)
Section extract.
#[local] Open Scope Z_scope.
Context (destination : string).

(** One entry; [extracted] bytes are written so far. *)
Definition extract_entry (index : nat) (archived : ZipFile) (extracted : Z) : prog ArchiveE (result ArchiveError Z) :=
  match safePath (zf_Name archived) with
  | Err name => Ret (Err (UnsafePath name))
  | Ok clean =>
      let target := path_Join [destination; clean] in
      if IsDir (zf_Mode archived) then
        let! m := trigger (MkdirAll target) in
        Ret (match m with Err e => Err (CreateDirectory clean e) | Ok _ => Ok extracted end)
      else
        let! m := trigger (MkdirAll (Dir target)) in
        match m with
        | Err e => Ret (Err (CreateDirectory clean e))
        | Ok _ =>
            let! i := trigger (OpenEntry index) in
            match i with
            | Err e => Ret (Err (OpenEntryError clean e))
            | Ok _ =>
                let mode := if Z.land (Perm (zf_Mode archived)) 73 =? 0 then 420 else 493 in
                let! o := trigger (CreateExcl target mode) in
                match o with
                | Err e => Ret (Err (CreateFileError clean e))
                | Ok _ =>
                    let remaining := wrap64 (MaxUncompressedBytes - extracted) in
                    let! c := trigger (CopyEntry target (remaining + 1)) in
                    let '(written, copyErr) := c in
                    Ret (match copyErr with
                         | Some e => Err (ExtractError clean e)
                         | None =>
                             if (written <? 0) || (remaining <? written) then Err (ExceededSize clean)
                             else if negb (written =? zf_UncompressedSize64 archived) then Err (ExceededSize clean)
                             else Ok (wrap64 (extracted + written))
                         end)
                end
            end
        end
  end.

Fixpoint extract_loop (index : nat) (files : list ZipFile) (extracted : Z) : prog ArchiveE (result ArchiveError unit) :=
  match files with
  | [] => Ret (Ok tt)
  | archived :: files =>
      let! e := extract_entry index archived extracted in
      match e with
      | Err e => Ret (Err e)
      | Ok extracted => extract_loop (S index) files extracted
      end
  end.

Definition Extract (filename : string) : prog ArchiveE (result ArchiveError unit) :=
  let! i := Inspect filename in
  match i with
  | Err e => Ret (Err e)
  | Ok _ =>
      let! entries := trigger (ReadDir destination) in
      match entries with
      | Err e => Ret (Err (ReadDestination e))
      | Ok n =>
          if decide (n ≠ 0%nat) then Ret (Err DestinationNotEmpty)
          else
            let! r := trigger (OpenZip filename) in
            match r with
            | Err e => Ret (Err (OpenZipError e))
            | Ok files => extract_loop 0 files 0
            end
      end
  end.
End extract.

(** ** The registry *)
Definition SourceMediaType : string := "application/vnd.orkano.source.zip.v1".
Definition ArtifactMediaType : string := "application/vnd.orkano.source.v1".
Definition manifestMediaType : string := "application/vnd.oci.image.manifest.v1+json".
Definition configMediaType : string := "application/vnd.oci.empty.v1+json".

Inductive RegistryError : Set :=
| InvalidURL (raw : string)
| CrossOriginRedirect
| TooManyRedirects
| InvalidAppName (name : string)
| InvalidDigest (digest : string)
| BadSize (size : Z)
| Rewinding (err : string)
| BuildingRequest (err : string)
| RequestFailed (err : string)
| RegistryStatus (code : Z)
| ClosingResponse (err : string)
| NoUploadLocation
| ParsingLocation (err : string)
| CrossOriginLocation
| ReadingArchive (err : string)
| ArchiveTooLarge
| DigestMismatch (got want : string).

(** What the source uses of [net/url] beyond [UrlLib]. *)
Class UrlRefs : Type := {
  ResolveReference : URL → URL → URL;
  (** the query of a URL with one key set, encoded *)
  query_with : URL → string → string → string;
}.

Definition with_path (u : URL) (p : string) : URL :=
  {| u_Scheme := u_Scheme u; u_Opaque := u_Opaque u; u_HasUser := u_HasUser u; u_Host := u_Host u; u_Path := p;
     u_RawPath := u_RawPath u; u_ForceQuery := u_ForceQuery u; u_RawQuery := u_RawQuery u; u_Fragment := u_Fragment u |}.
Definition with_query (u : URL) (q : string) : URL :=
  {| u_Scheme := u_Scheme u; u_Opaque := u_Opaque u; u_HasUser := u_HasUser u; u_Host := u_Host u; u_Path := u_Path u;
     u_RawPath := u_RawPath u; u_ForceQuery := u_ForceQuery u; u_RawQuery := q; u_Fragment := u_Fragment u |}.

Definition appNamePattern : re := Cat dnsLabel (Star (Cat (Lit "."%char) dnsLabel)).

Definition validateReference (appName digest : string) : option RegistryError :=
  if negb (MatchString appNamePattern appName) || (253 <? len appName) then Some (InvalidAppName appName)
  else if negb (MatchString digestPattern digest) then Some (InvalidDigest digest)
  else None.

Definition sha256_digest (l : list ascii) : string := "sha256:" +:+ EncodeToString (Sum256 l).
Definition sourceRepository (appName : string) : string :=
  "orkano-sources/app-" +:+ EncodeToString (Sum256 (bytes appName)).

Section registry.
Context `{UrlLib, UrlRefs}.

(** The base URL of the client. *)
Definition NewRegistry (rawURL : string) : result RegistryError URL :=
  match ParseURL rawURL with
  | Err _ => Err (InvalidURL rawURL)
  | Ok base =>
      if bool_decide (u_Scheme base ≠ "https") || bool_decide (u_Host base = "") || u_HasUser base ||
         bool_decide (u_RawQuery base ≠ "") || bool_decide (u_Fragment base ≠ "")
      then Err (InvalidURL rawURL)
      else Ok (with_path base (TrimRight (u_Path base) "/"))
  end.

Context (base : URL).

Definition same_origin (u : URL) : bool :=
  bool_decide (u_Scheme u = u_Scheme base) && bool_decide (u_Host u = u_Host base) && negb (u_HasUser u).

(** [CheckRedirect], after [via] requests; [previous] is the check of the given client. *)
Definition checkRegistryRedirect (previous : option (URL → nat → option RegistryError)) (u : URL) (via : nat)
    : option RegistryError :=
  if negb (same_origin u) then Some CrossOriginRedirect
  else
    match previous with
    | Some check => check u via
    | None => if 10 <=? via then Some TooManyRedirects else None
    end.

Definition endpoint (parts : list string) : URL := with_path base (path_Join (u_Path base :: parts)).

Definition resolveUploadLocation (location : string) : result RegistryError URL :=
  if decide (location = "") then Err NoUploadLocation
  else
    match ParseURL location with
    | Err e => Err (ParsingLocation e)
    | Ok parsed =>
        let resolved := ResolveReference base parsed in
        if negb (same_origin resolved) then Err CrossOriginLocation else Ok resolved
    end.

Definition uploadBlob (appName : string) (size : Z) (digest mediaType : string) : prog ArchiveE (option RegistryError) :=
  let! sk := trigger SeekStart in
  match sk with
  | Some e => Ret (Some (Rewinding e))
  | None =>
  let start := endpoint ["v2"; sourceRepository appName; "blobs"; "uploads"] in
  let startURL := with_path start (u_Path start +:+ "/") in
  match NewRequest startURL with
  | Some e => Ret (Some (BuildingRequest e))
  | None =>
  let! resp := trigger (PostUpload startURL) in
  match resp with
  | Err e => Ret (Some (RequestFailed e))
  | Ok (status, location, closeErr) =>
  if negb (status =? 202)%Z then Ret (Some (RegistryStatus status))
  else match closeErr with
  | Some e => Ret (Some (ClosingResponse e))
  | None =>
  match resolveUploadLocation location with
  | Err e => Ret (Some e)
  | Ok uploadURL =>
  let uploadURL := with_query uploadURL (query_with uploadURL "digest" digest) in
  match NewRequest uploadURL with
  | Some e => Ret (Some (BuildingRequest e))
  | None =>
      let! resp := trigger (PutBlob uploadURL mediaType size) in
      Ret (match resp with
           | Err e => Some (RequestFailed e)
           | Ok status => if negb (status =? 201)%Z && negb (status =? 202)%Z then Some (RegistryStatus status) else None
           end)
  end end end end end end.

Definition config_blob : list ascii := bytes "{}".
Definition source_manifest (filename : string) (size : Z) (digest : string) : Manifest :=
  {| man_ArtifactType := ArtifactMediaType;
     man_Config := {| desc_MediaType := configMediaType; desc_Digest := sha256_digest config_blob;
                      desc_Size := Z.of_nat (length config_blob) |};
     man_Layers := [{| desc_MediaType := SourceMediaType; desc_Digest := digest; desc_Size := size |}];
     man_Title := filename |}.

Definition Upload (appName filename : string) (size : Z) (digest : string) : prog ArchiveE (option RegistryError) :=
  match validateReference appName digest with
  | Some e => Ret (Some e)
  | None =>
  if ((size <? 1) || (MaxCompressedBytes <? size))%Z then Ret (Some (BadSize size))
  else
  let! e := uploadBlob appName size digest SourceMediaType in
  match e with
  | Some e => Ret (Some e)
  | None =>
  let! e := uploadBlob appName (Z.of_nat (length config_blob)) (sha256_digest config_blob) configMediaType in
  match e with
  | Some e => Ret (Some e)
  | None =>
  let requestURL := endpoint ["v2"; sourceRepository appName; "manifests"; TrimPrefix digest "sha256:"] in
  match NewRequest requestURL with
  | Some e => Ret (Some (BuildingRequest e))
  | None =>
      let! resp := trigger (PutManifest requestURL (source_manifest filename size digest)) in
      Ret (match resp with
           | Err e => Some (RequestFailed e)
           | Ok status => if negb (status =? 201)%Z && negb (status =? 202)%Z then Some (RegistryStatus status) else None
           end)
  end end end end.

(** The bytes that reach the destination. *)
Definition Download (appName digest : string) : prog ArchiveE (result RegistryError (list ascii)) :=
  match validateReference appName digest with
  | Some e => Ret (Err e)
  | None =>
  let requestURL := endpoint ["v2"; sourceRepository appName; "blobs"; digest] in
  match NewRequest requestURL with
  | Some e => Ret (Err (BuildingRequest e))
  | None =>
  let! resp := trigger (GetBlob requestURL (MaxCompressedBytes + 1)) in
  Ret (match resp with
       | Err e => Err (RequestFailed e)
       | Ok (status, body) =>
           if negb (status =? 200)%Z then Err (RegistryStatus status)
           else
             match body with
             | Err e => Err (ReadingArchive e)
             | Ok body =>
                 if (MaxCompressedBytes <? Z.of_nat (length body))%Z then Err ArchiveTooLarge
                 else if decide (sha256_digest body ≠ digest) then Err (DigestMismatch (sha256_digest body) digest)
                 else Ok body
             end
       end)
  end end.
End registry.

(** ** Fetch *)
Inductive FetchError : Set :=
| DestinationNotAbsolute
| CreatingDestination (err : string)
| ReadingDestination (err : string)
| NotEmpty
| CreatingTemp (err : string)
| Downloading (err : RegistryError)
| ClosingTemp (err : string)
| Extracting (err : ArchiveError).

(** [downloader] writes to the temporary file. *)
Definition Fetch {A} (downloader : string → string → prog ArchiveE (result RegistryError A))
    (appName digest destination : string) : prog ArchiveE (option FetchError) :=
  if bool_decide (destination = "") || negb (HasPrefix destination "/") then Ret (Some DestinationNotAbsolute)
  else
  let! m := trigger (MkdirAll destination) in
  match m with
  | Err e => Ret (Some (CreatingDestination e))
  | Ok _ =>
  let! entries := trigger (ReadDir destination) in
  match entries with
  | Err e => Ret (Some (ReadingDestination e))
  | Ok n =>
  if decide (n ≠ 0) then Ret (Some NotEmpty)
  else
  let! tmp := trigger CreateTemp in
  match tmp with
  | Err e => Ret (Some (CreatingTemp e))
  | Ok tmpName =>
  let! d := downloader appName digest in
  match d with
  | Err e => let! _ := trigger CloseTemp in Ret (Some (Downloading e))
  | Ok _ =>
  let! c := trigger CloseTemp in
  match c with
  | Some e => Ret (Some (ClosingTemp e))
  | None =>
      let! x := Extract destination tmpName in
      Ret (match x with Err e => Some (Extracting e) | Ok _ => None end)
  end end end end end.

(** ** Safe paths *)

(** A relative path of safe elements without zero bytes or backslashes. *)
Definition safe_relative (rel : list string) : Prop :=
  Forall safe_element rel ∧ Forall (λ e, (zero ∉ bytes e) ∧ (byte 92 ∉ bytes e)) rel.

Lemma clean_step_source root stack e x : x ∈ clean_step root stack e → x ∈ stack ∨ x = e ∨ x = "..".
Proof.
  unfold clean_step. destruct (decide (e = "" ∨ e = ".")); [by left|].
  destruct (decide (e = "..")) as [->|]; [|rewrite elem_of_cons; tauto].
  destruct stack as [|top rest]; [destruct root; [by left|rewrite elem_of_cons; tauto]|].
  destruct (decide (top = "..")); rewrite !elem_of_cons; tauto.
Qed.
Lemma elements_source p x : x ∈ elements p → x ∈ Split p slash ∨ x = "..".
Proof.
  unfold elements. rewrite list_elem_of_In, <- in_rev, <- list_elem_of_In.
  assert (Hg : ∀ l stack, x ∈ foldl (clean_step (rooted p)) stack l → x ∈ stack ∨ x ∈ l ∨ x = "..").
  { induction l as [|e l IH]; intros stack; [set_solver|]. cbn [foldl]. rewrite elem_of_cons.
    intros [Hin%clean_step_source|Hin]%IH; tauto. }
  intros [?%not_elem_of_nil|?]%Hg; tauto.
Qed.
Lemma split_bytes_source sep l w c : w ∈ split_bytes sep l → c ∈ w → c ∈ l.
Proof.
  revert w. induction l as [|d l IH]; intros w; cbn; [by intros ->%list_elem_of_singleton|]. case_decide.
  - intros [->|Hw]%elem_of_cons Hc; [by apply not_elem_of_nil in Hc|]. right. by eapply IH.
  - destruct (split_bytes sep l) as [|w' ws] eqn:Hs.
    { intros ->%list_elem_of_singleton ->%list_elem_of_singleton. by left. }
    intros [->|Hw]%elem_of_cons Hc; [|right; eapply IH; [by right|done]].
    apply elem_of_cons in Hc as [->|Hc]; [by left|right; eapply IH; [by left|done]].
Qed.
Lemma Split_source sep s w c : w ∈ Split s sep → c ∈ bytes w → c ∈ bytes s.
Proof. unfold Split. intros (l & -> & Hl)%list_elem_of_fmap. rewrite bytes_of_bytes. by eapply split_bytes_source. Qed.

Lemma Contains_backslash s : Contains s "\" = false → (byte 92 ∉ bytes s).
Proof.
  intros Hc Hin. apply not_true_iff_false in Hc. apply Hc, Contains_spec.
  apply list_elem_of_split in Hin as (a & c & ->). by exists a, c.
Qed.

Lemma dotdot_refused n l : Forall safe_element l →
  bool_decide (print_path false (replicate (S n) ".." ++ l) = "..") ||
  HasPrefix (print_path false (replicate (S n) ".." ++ l)) "../" = true.
Proof.
  intros _. cbn [replicate app print_path]. rewrite decide_False by done.
  destruct (replicate n ".." ++ l) as [|x rest]; [done|].
  change (Join (".." :: x :: rest) "/") with ("../" +:+ Join (x :: rest) "/"). apply orb_true_iff. right.
  apply HasPrefix_spec. exists (bytes (Join (x :: rest) "/")). apply bytes_app.
Qed.

Lemma safePath_Ok name clean :
  safePath name = Ok clean → ∃ rel, rel ≠ [] ∧ safe_relative rel ∧ clean = Join rel "/".
Proof.
  unfold safePath. destruct (_ || _) eqn:Hn; [done|]. rewrite !orb_false_iff in Hn. destruct Hn as (((Hne & Hz) & Hb) & Hr).
  destruct (_ || _) eqn:Hc; [done|]. intros [= <-].
  apply bool_decide_eq_false in Hne. unfold Clean in *. rewrite decide_False in * by done.
  change (HasPrefix name "/") with (rooted name) in Hr. rewrite Hr in *.
  pose proof (elements_cleaned name) as Hcl. rewrite Hr in Hcl.
  assert (Hsrc : Forall (λ e, (zero ∉ bytes e) ∧ (byte 92 ∉ bytes e)) (elements name)).
  { apply Forall_forall. intros e [He| ->]%elements_source.
    - split; intros Hin; eapply Split_source in Hin; try done; [|by apply Contains_backslash in Hin].
      apply not_true_iff_false in Hz. apply Hz, existsb_exists. exists zero. split; [by apply list_elem_of_In|done].
    - split; apply (bool_decide_eq_true_1 _); vm_compute; reflexivity. }
  inversion Hcl as [n l _ Hl Heq]. rewrite <- Heq in *. rewrite <- orb_assoc in Hc.
  destruct n as [|n]; [|by rewrite dotdot_refused, orb_true_r in Hc].
  cbn [replicate app] in *. exists l. unfold print_path in *.
  destruct (decide (l = [])) as [->|Hne']; [done|]. done.
Qed.

(** ** What an inspected archive is *)
Definition regular (f : ZipFile) : bool := negb (IsDir (zf_Mode f)).
Definition sizes (files : list ZipFile) : Z :=
  foldr (λ f n, ((if regular f then zf_UncompressedSize64 f else 0) + n)%Z) 0%Z files.
Definition count (files : list ZipFile) : Z := foldr (λ f n, ((if regular f then 1 else 0) + n)%Z) 0%Z files.

(** An entry that may be extracted, by exact arithmetic. *)
Definition entry_ok (f : ZipFile) : Prop :=
  Z.land (zf_Flags f) 1 = 0%Z ∧ (zf_Method f = Store ∨ zf_Method f = Deflate) ∧
  (IsDir (zf_Mode f) = true ∨ IsRegular (zf_Mode f) = true) ∧
  (regular f = true → (zf_UncompressedSize64 f <= 2 ^ 20 ∨
     zf_UncompressedSize64 f <= (zf_CompressedSize64 f + 1) * MaxCompressionRatio)%Z).
Definition paths_ok (files : list ZipFile) (seen : list string) : Prop :=
  ∃ paths, Forall2 (λ f p, safePath (zf_Name f) = Ok p) files paths ∧ NoDup paths ∧ (∀ p, p ∈ paths → (p ∉ seen)).

Definition u64 (z : Z) : Prop := (0 <= z < 2 ^ 64)%Z.
Definition sized (f : ZipFile) : Prop := u64 (zf_CompressedSize64 f) ∧ u64 (zf_UncompressedSize64 f).

Section sizes.
#[local] Open Scope Z_scope.

Lemma wrap64_le z : 0 <= z -> wrap64 z <= z.
Proof. intros Hz. apply Z.mod_le; lia. Qed.
Lemma wrap64_id z : u64 z -> wrap64 z = z.
Proof. apply Z.mod_small. Qed.

(** The guards of [inspect_size] without wrap-around. *)
Lemma inspect_size_Ok clean f info out :
  sized f -> 0 <= info_UncompressedBytes info <= MaxUncompressedBytes -> inspect_size clean f info = Ok out ->
  out = {| info_Files := info_Files info + 1; info_UncompressedBytes := info_UncompressedBytes info + zf_UncompressedSize64 f |} /\
  info_UncompressedBytes info + zf_UncompressedSize64 f <= MaxUncompressedBytes /\
  (zf_UncompressedSize64 f <= 2 ^ 20 \/ zf_UncompressedSize64 f <= (zf_CompressedSize64 f + 1) * MaxCompressionRatio).
Proof.
  unfold sized, u64, inspect_size. cbv zeta. intros [[Hc1 Hc2] [Hu1 Hu2]] Hi. change MaxUncompressedBytes with (2 ^ 28) in *.
  rewrite (wrap64_id (2 ^ 28 - _)) by (unfold u64; lia).
  destruct (Z.ltb_spec (2 ^ 28 - info_UncompressedBytes info) (zf_UncompressedSize64 f)) as [|Hs]; [done|].
  destruct (_ && _) eqn:Hr; [done|]. intros [= <-]. rewrite wrap64_id by (unfold u64; lia). split; [done|]. split; [lia|].
  apply andb_false_iff in Hr as [Hr|Hr]; [left; lia|right]. apply Z.ltb_ge in Hr.
  pose proof (wrap64_le (zf_CompressedSize64 f + 1)). pose proof (Z.mod_pos_bound (zf_CompressedSize64 f + 1) (2 ^ 64)).
  fold (wrap64 (zf_CompressedSize64 f + 1)) in *. pose proof (wrap64_le (wrap64 (zf_CompressedSize64 f + 1) * MaxCompressionRatio)).
  unfold MaxCompressionRatio in *. lia.
Qed.

Lemma inspect_size_complete clean f info :
  sized f -> zf_CompressedSize64 f < 2 ^ 56 ->
  0 <= info_UncompressedBytes info -> info_UncompressedBytes info + zf_UncompressedSize64 f <= MaxUncompressedBytes ->
  (zf_UncompressedSize64 f <= 2 ^ 20 \/ zf_UncompressedSize64 f <= (zf_CompressedSize64 f + 1) * MaxCompressionRatio) ->
  inspect_size clean f info =
    Ok {| info_Files := info_Files info + 1; info_UncompressedBytes := info_UncompressedBytes info + zf_UncompressedSize64 f |}.
Proof.
  unfold sized, u64, inspect_size. cbv zeta. intros [[Hc1 Hc2] [Hu1 Hu2]] Hcs Hi Hs Hr. change MaxUncompressedBytes with (2 ^ 28) in *.
  unfold MaxCompressionRatio in *. rewrite !wrap64_id by (unfold u64; rewrite ?wrap64_id by (unfold u64; lia); lia).
  rewrite (proj2 (Z.ltb_ge _ _)) by lia.
  destruct (Z.ltb_spec (2 ^ 20) (zf_UncompressedSize64 f)); cbn [andb]; [|done]. by rewrite (proj2 (Z.ltb_ge _ _)) by lia.
Qed.
End sizes.

Lemma inspect_head f files seen info :
  inspect_loop (f :: files) seen info =
  match safePath (zf_Name f) with
  | Err name => Err (UnsafePath name)
  | Ok clean =>
      if decide (clean ∈ seen) then Err (DuplicatePath clean)
      else if negb (Z.land (zf_Flags f) 1 =? 0)%Z then Err (Encrypted clean)
      else if (negb (zf_Method f =? Store) && negb (zf_Method f =? Deflate))%Z then Err (UnsupportedMethod clean (zf_Method f))
      else if negb (IsDir (zf_Mode f)) && negb (IsRegular (zf_Mode f)) then Err (NotRegular clean)
      else if IsDir (zf_Mode f) then inspect_loop files (clean :: seen) info
      else match inspect_size clean f info with Err e => Err e | Ok info => inspect_loop files (clean :: seen) info end
  end.
Proof. done. Qed.

(** The checks that do not look at sizes. *)
Definition form_ok (f : ZipFile) : Prop :=
  Z.land (zf_Flags f) 1 = 0%Z ∧ (zf_Method f = Store ∨ zf_Method f = Deflate) ∧
  (IsDir (zf_Mode f) = true ∨ IsRegular (zf_Mode f) = true).

(** One step of the loop, both ways. *)
Lemma inspect_step f files seen info out :
  inspect_loop (f :: files) seen info = Ok out ↔
  ∃ clean, safePath (zf_Name f) = Ok clean ∧ (clean ∉ seen) ∧ form_ok f ∧
    (if regular f then ∃ info', inspect_size clean f info = Ok info' ∧ inspect_loop files (clean :: seen) info' = Ok out
     else inspect_loop files (clean :: seen) info = Ok out).
Proof.
  rewrite inspect_head. unfold form_ok, regular. split.
  - destruct (safePath (zf_Name f)) as [clean|]; [|done]. destruct (decide (clean ∈ seen)); [done|].
    destruct (Z.eqb_spec (Z.land (zf_Flags f) 1) 0); [|done]. cbn [negb].
    destruct (Z.eqb_spec (zf_Method f) Store), (Z.eqb_spec (zf_Method f) Deflate); try done;
      destruct (IsDir (zf_Mode f)) eqn:Hd, (IsRegular (zf_Mode f)) eqn:Hr; try done; cbn [negb andb]; intros Hl;
      exists clean; (split_and!; [done|done|tauto|tauto|tauto|]); try done;
      (destruct (inspect_size clean f info) as [info'|]; [by exists info'|done]).
  - intros (clean & -> & Hs & (Hf & Hm & Ht) & Hk). rewrite decide_False by done. rewrite Hf. cbn [negb Z.eqb].
    assert ((negb (zf_Method f =? Store) && negb (zf_Method f =? Deflate))%Z = false) as ->
      by (destruct Hm as [-> | ->]; done).
    destruct (IsDir (zf_Mode f)); cbn [negb andb] in *; [done|]. destruct Ht as [|Ht]; [done|]. rewrite Ht. cbn [negb].
    by destruct Hk as (info' & -> & ->).
Qed.

Lemma paths_ok_cons f files seen :
  paths_ok (f :: files) seen ↔ ∃ clean, safePath (zf_Name f) = Ok clean ∧ (clean ∉ seen) ∧ paths_ok files (clean :: seen).
Proof.
  unfold paths_ok. split.
  - intros (paths & Hp & Hnd & Hs). apply Forall2_cons_inv_l in Hp as (p & ps & Hf & Hps & ->).
    apply NoDup_cons in Hnd as [Hn Hnd]. exists p. split_and!; [done|apply Hs; by left|]. exists ps.
    split_and!; [done..|]. intros q Hq [->|Hin]%elem_of_cons; [done|]. by apply (Hs q); [right|].
  - intros (p & Hf & Hs & ps & Hps & Hnd & Hd). exists (p :: ps). split_and!; [by constructor| |].
    + constructor; [|done]. intros Hin. apply (Hd p Hin). by left.
    + intros q [->|Hq]%elem_of_cons Hin; [done|]. apply (Hd q Hq). by right.
Qed.

(** What a passed archive is: safe, distinct paths, entries of an allowed form and
    ratio, and exact totals within the limits. *)
Definition archive_ok (files : list ZipFile) (seen : list string) (info out : Info) : Prop :=
  paths_ok files seen ∧ Forall entry_ok files ∧
  info_UncompressedBytes out = (info_UncompressedBytes info + sizes files)%Z ∧
  (info_UncompressedBytes out <= MaxUncompressedBytes)%Z ∧
  info_Files out = (info_Files info + count files)%Z ∧ info_Files out ≠ 0%Z.

Lemma sizes_nonneg files : Forall sized files → (0 <= sizes files)%Z.
Proof.
  induction 1 as [|f files [_ [? _]] _ IH]; [done|]. unfold sizes. cbn [foldr]. fold (sizes files).
  destruct (regular f); lia.
Qed.

Lemma inspect_loop_sound files seen info out :
  Forall sized files → (0 <= info_UncompressedBytes info <= MaxUncompressedBytes)%Z →
  inspect_loop files seen info = Ok out → archive_ok files seen info out.
Proof.
  intros Hs. revert seen info. induction Hs as [|f files Hf Hs IH]; intros seen info Hi Hl.
  { cbn in Hl. destruct (Z.eqb_spec (info_Files info) 0); [done|]. injection Hl as <-.
    split_and!; [|by constructor|cbn; lia|lia|cbn; lia|done]. exists []. split_and!; [constructor|constructor|]. set_solver. }
  apply inspect_step in Hl as (clean & Hp & Hseen & Hform & Hk). unfold archive_ok. rewrite paths_ok_cons.
  destruct (regular f) eqn:Hr.
  - destruct Hk as (info' & Hsz & Hl). destruct (inspect_size_Ok _ _ _ _ Hf Hi Hsz) as (-> & Hmax & Hratio).
    apply IH in Hl as (Hps & He & Hb & Hm & Hc & Hn); [|cbn; destruct Hf as [_ [? _]]; lia]. cbn [info_UncompressedBytes info_Files] in Hb, Hc.
    split_and!; [eauto|constructor; [by destruct Hform as (? & ? & ?); repeat split|done]| |done| |done];
      unfold sizes, count in *; cbn [foldr]; rewrite Hr; lia.
  - apply IH in Hk as (Hps & He & Hb & Hm & Hc & Hn); [|done].
    split_and!; [eauto|constructor; [|done]| |done| |done].
    + destruct Hform as (? & ? & ?). split_and!; try done. by rewrite Hr.
    + unfold sizes in *; cbn [foldr]; rewrite Hr; lia.
    + unfold count in *; cbn [foldr]; rewrite Hr; lia.
Qed.

Lemma inspect_loop_complete files seen info out :
  Forall sized files → Forall (λ f, (zf_CompressedSize64 f < 2 ^ 56)%Z) files → (0 <= info_UncompressedBytes info)%Z →
  archive_ok files seen info out → inspect_loop files seen info = Ok out.
Proof.
  intros Hs. revert seen info. induction Hs as [|f files Hf Hs IH]; intros seen info Hc56 Hi (Hp & He & Hb & Hm & Hc & Hn).
  { cbn in *. destruct out as [fs bs], info as [fs' bs']; cbn in *. rewrite Z.add_0_r in *. subst.
    destruct (Z.eqb_spec fs' 0); [done|]. done. }
  apply paths_ok_cons in Hp as (clean & Hp & Hseen & Hps). inversion He as [|? ? (Hfl & Hme & Hty & Hra) He']; subst.
  inversion Hc56 as [|? ? H56 Hc56']; subst. apply inspect_step. exists clean. split_and!; [done..|by repeat split|].
  pose proof (sizes_nonneg _ Hs) as Hsn. unfold sizes, count in Hb, Hc. cbn [foldr] in Hb, Hc. fold (sizes files) in Hb. fold (count files) in Hc.
  destruct (regular f) eqn:Hr.
  - eexists. split; [apply inspect_size_complete; [done|done|done|lia|by apply Hra]|].
    apply IH; [done|cbn; destruct Hf as [_ [? _]]; lia|]. unfold archive_ok. cbn [info_UncompressedBytes info_Files].
    split_and!; try done; lia.
  - apply IH; [done|done|]. unfold archive_ok. split_and!; try done; lia.
Qed.

(** Inspection is exact: it passes an archive only if it has between one and ten
    thousand entries with safe, pairwise different paths, none encrypted, all stored or
    deflated files and directories, at least one file, no file over 1 MiB that expands
    more than two hundredfold, and exactly the returned number of files and bytes, at
    most 256 MiB: by exact arithmetic, however large the 64-bit sizes it declares.  And
    every such archive passes, if compressed sizes are below 2^56. *)
Theorem inspect_exact files info :
  Forall sized files →
  let ok := files ≠ [] ∧ (Z.of_nat (length files) <= MaxFiles)%Z ∧
            archive_ok files [] {| info_Files := 0; info_UncompressedBytes := 0 |} info in
  (inspect_files files = Ok info → ok) ∧
  (ok → Forall (λ f, (zf_CompressedSize64 f < 2 ^ 56)%Z) files → inspect_files files = Ok info).
Proof.
  intros Hs. unfold inspect_files. split.
  - destruct (decide (files = [])); [done|]. destruct (Z.ltb_spec MaxFiles (Z.of_nat (length files))); [done|].
    intros Hl. split_and!; [done..|]. by apply inspect_loop_sound.
  - intros (Hne & Hmax & Hok) H56. rewrite decide_False by done. rewrite (proj2 (Z.ltb_ge _ _)) by done.
    by apply inspect_loop_complete.
Qed.

(** ** Extraction *)

(** The paths a program creates, and the bytes it writes. *)
Definition touched (c : call ArchiveE) : option string :=
  match c with
  | Call (MkdirAll p) _ | Call (CreateExcl p _) _ | Call (CopyEntry p _) _ => Some p
  | _ => None
  end.
Definition written (c : call ArchiveE) : option Z :=
  match c with
  | Call e x => match e in ArchiveE X return X → _ with CopyEntry _ _ => λ x, Some x.1 | _ => λ _, None end x
  end.
(** A copy from a limited reader writes no more than the limit. *)
Definition limited (c : call ArchiveE) : Prop :=
  match c with
  | Call e x => match e in ArchiveE X return X → Prop with CopyEntry _ limit => λ x, (0 <= x.1 <= limit)%Z | _ => λ _, True end x
  end.
Definition total (l : list Z) : Z := foldr Z.add 0%Z l.

(** Below the destination, by safe elements. *)
Definition inside (destination p : string) : Prop :=
  ∃ rel, safe_relative rel ∧ p = print_path (rooted destination) (elements destination ++ rel).

Lemma target_inside destination name clean :
  destination ≠ "" → safePath name = Ok clean →
  inside destination (path_Join [destination; clean]) ∧ inside destination (Dir (path_Join [destination; clean])).
Proof.
  intros Hd (rel & Hne & [Hs Hb] & ->)%safePath_Ok. rewrite path_Join_safe by done. split; [by exists rel|].
  destruct rel as [|x rel _] using rev_ind; [done|]. apply Forall_app in Hs as [Hs Hx], Hb as [Hb _].
  apply Forall_cons_1 in Hx as [Hx _]. rewrite app_assoc, Dir_print; [by exists rel| |exact Hx].
  apply cleaned_app; [apply elements_cleaned|done].
Qed.

Section extraction.
Context (destination : string) (Hd : destination ≠ "").

Lemma extract_entry_spec index f extracted tr x :
  (0 <= extracted <= MaxUncompressedBytes)%Z → exec (extract_entry destination index f extracted) tr x → Forall limited tr →
  (∀ p, p ∈ omap touched tr → inside destination p) ∧
  (extracted + total (omap written tr) <= MaxUncompressedBytes + 1)%Z ∧
  (∀ n, x = Ok n → n = (extracted + total (omap written tr))%Z ∧ (0 <= n <= MaxUncompressedBytes)%Z ∧
     total (omap written tr) = if regular f then zf_UncompressedSize64 f else 0%Z).
Proof.
  intros He. unfold extract_entry, regular. destruct (safePath (zf_Name f)) as [clean|name] eqn:Hp.
  2:{ intros [-> ->] _. split_and!; [by intros p ?%not_elem_of_nil|cbn; lia|done]. }
  destruct (target_inside _ _ _ Hd Hp) as [Hin Hdir]. cbv zeta. destruct (IsDir (zf_Mode f)); cbn [negb].
  { intros (m & tr1 & -> & -> & ->) _. split_and!; [by intros p ->%list_elem_of_singleton|cbn; lia|].
    intros n Hn. destruct m; [|done]. injection Hn as <-. cbn. lia. }
  intros (m & tr1 & -> & Hk) Hl. cbn [prog_bind] in Hk. destruct m as [u|e].
  2:{ destruct Hk as [-> ->]. split_and!; [by intros p ->%list_elem_of_singleton|cbn; lia|done]. }
  destruct Hk as (i & tr2 & -> & Hk). cbn [prog_bind] in Hk. destruct i as [u'|e].
  2:{ destruct Hk as [-> ->]. split_and!; [by intros p ->%list_elem_of_singleton|cbn; lia|done]. }
  destruct Hk as (o & tr3 & -> & Hk). cbn [prog_bind] in Hk.
  assert (Htwo : ∀ p, p ∈ [Dir (path_Join [destination; clean]); path_Join [destination; clean]] → inside destination p).
  { intros p. by intros [->| ->%list_elem_of_singleton]%elem_of_cons. }
  destruct o as [u''|e]; [|destruct Hk as [-> ->]; split_and!; [exact Htwo|cbn; lia|done]].
  destruct Hk as ([w err] & tr4 & -> & -> & ->).
  rewrite !Forall_cons in Hl. destruct Hl as (_ & _ & _ & [Hw1 Hw2] & _). cbn [fst] in Hw1, Hw2.
  unfold wrap64 in *. rewrite (Z.mod_small (MaxUncompressedBytes - extracted)) in * by (change MaxUncompressedBytes with (2 ^ 28)%Z in *; lia).
  change (omap written _) with [w]. cbn [total foldr]. split_and!.
  - intros p Hpin. apply Htwo. change (p ∈ [Dir (path_Join [destination; clean]); path_Join [destination; clean]; path_Join [destination; clean]]) in Hpin.
    set_solver.
  - lia.
  - intros n Hn. destruct err; [done|]. destruct ((w <? 0) || _)%Z eqn:Hb; [done|].
    destruct (Z.eqb_spec w (zf_UncompressedSize64 f)) as [Heq|]; [|done]. injection Hn as <-.
    apply orb_false_iff in Hb as [_ Hb]. apply Z.ltb_ge in Hb.
    rewrite Z.mod_small by (change MaxUncompressedBytes with (2 ^ 28)%Z in *; lia). lia.
Qed.

Lemma total_app l1 l2 : total (l1 ++ l2) = (total l1 + total l2)%Z.
Proof. unfold total. induction l1 as [|z l1 IH]; cbn [foldr app]; lia. Qed.

Lemma extract_loop_spec index files extracted tr x :
  (0 <= extracted <= MaxUncompressedBytes)%Z → exec (extract_loop destination index files extracted) tr x → Forall limited tr →
  (∀ p, p ∈ omap touched tr → inside destination p) ∧
  (extracted + total (omap written tr) <= MaxUncompressedBytes + 1)%Z ∧
  (x = Ok tt → (extracted + total (omap written tr) <= MaxUncompressedBytes)%Z ∧ total (omap written tr) = sizes files).
Proof.
  revert index extracted tr. induction files as [|f files IH]; intros index extracted tr He; cbn [extract_loop].
  { intros [-> ->] _. split_and!; [by intros p ?%not_elem_of_nil|cbn; lia|cbn; lia]. }
  intros (tr1 & tr2 & e & -> & Hentry & Hk)%exec_bind [Hl1 Hl2]%Forall_app.
  apply extract_entry_spec in Hentry as (Hin & Hb & Hok); [|done..]. rewrite !omap_app, total_app. destruct e as [n|e].
  - destruct (Hok n eq_refl) as (-> & Hn & Hsz).
    destruct (IH _ _ _ Hn Hk Hl2) as (Hin2 & Hb2 & Hok2).
    split_and!; [intros p [?|?]%elem_of_app; auto|lia|]. intros ->. destruct (Hok2 eq_refl) as [? Hsz2].
    split; [lia|]. unfold sizes. cbn [foldr]. fold (sizes files). lia.
  - destruct Hk as [-> ->]. split_and!; [intros p [?|?%not_elem_of_nil]%elem_of_app; [auto|done]|cbn; lia|done].
Qed.
End extraction.

(** C27. Extraction stays inside and is bounded: whatever the archive holds, even if it
    changed after it was inspected, every directory and file made is the destination or
    below it by elements that are neither empty, [.] nor [..] and hold no slash,
    backslash or zero byte; no more than one byte above 256 MiB is ever written, and
    when extraction succeeds at most 256 MiB, exactly the declared sizes. *)
Theorem extract_contained destination filename tr x :
  destination ≠ "" → exec (Extract destination filename) tr x → Forall limited tr →
  (∀ p, p ∈ omap touched tr → inside destination p) ∧
  (total (omap written tr) <= MaxUncompressedBytes + 1)%Z ∧
  (x = Ok tt → (total (omap written tr) <= MaxUncompressedBytes)%Z ∧
     ∃ files, Call (OpenZip filename) (Ok files) ∈ tr ∧ total (omap written tr) = sizes files).
Proof.
  intros Hd. unfold Extract, Inspect. cbn [prog_bind trigger]. intros (r1 & tr1 & -> & Hk) Hl.
  assert (Hmax : (0 <= MaxUncompressedBytes)%Z) by done.
  destruct (match r1 with Ok files => inspect_files files | Err e => Err (OpenZipError e) end) as [info|e].
  2:{ destruct Hk as [-> ->]. split_and!; [by intros p ?%not_elem_of_nil|cbn; lia|done]. }
  destruct Hk as (n & tr2 & -> & Hk). destruct n as [n|e].
  2:{ destruct Hk as [-> ->]. split_and!; [by intros p ?%not_elem_of_nil|cbn; lia|done]. }
  destruct (decide (n ≠ 0)) as [|Hn]. { destruct Hk as [-> ->]. split_and!; [by intros p ?%not_elem_of_nil|cbn; lia|done]. }
  destruct Hk as (r & tr3 & -> & Hk). cbn [prog_bind] in Hk. destruct r as [files|e].
  2:{ destruct Hk as [-> ->]. split_and!; [by intros p ?%not_elem_of_nil|cbn; lia|done]. }
  rewrite !Forall_cons in Hl. destruct Hl as (_ & _ & _ & Hl).
  apply (extract_loop_spec _ Hd) in Hk as (Hin & Hb & Hok); [|lia|done].
  split_and!; [exact Hin|exact Hb|]. intros Hx. destruct (Hok Hx) as [? Hsz]. split; [done|].
  exists files. split; [do 2 right; by left|exact Hsz].
Qed.

(** ** The registry client *)
Definition requested (c : call ArchiveE) : option URL :=
  match c with
  | Call (PostUpload u) _ | Call (PutBlob u _ _) _ | Call (PutManifest u _) _ | Call (GetBlob u _) _ => Some u
  | _ => None
  end.
(** A manifest that was sent. *)
Definition published (c : call ArchiveE) : option Manifest :=
  match c with Call (PutManifest _ m) _ => Some m | _ => None end.
(** A blob the registry took. *)
Definition stored (c : call ArchiveE) : option (URL * string * Z) :=
  match c with
  | Call e x =>
      match e in ArchiveE X return X → _ with
      | PutBlob u mediaType size =>
          λ x, match x with Ok status => if decide (status = 201 ∨ status = 202)%Z then Some (u, mediaType, size) else None | Err _ => None end
      | _ => λ _, None
      end x
  end.

Section client.
Context `{UrlLib, UrlRefs} (base : URL).

Definition at_origin (u : URL) : Prop := u_Scheme u = u_Scheme base ∧ u_Host u = u_Host base ∧ u_HasUser u = false.

Lemma same_origin_true u : same_origin base u = true → at_origin u.
Proof.
  unfold same_origin. rewrite !andb_true_iff, !bool_decide_eq_true, negb_true_iff. by intros [[? ?] ?].
Qed.
Lemma endpoint_origin parts : u_HasUser base = false → at_origin (endpoint base parts).
Proof. done. Qed.

(** A blob upload makes requests to the origin only and, when it succeeds, leaves the
    blob under its digest. *)
Definition stored_as (tr : list (call ArchiveE)) (digest mediaType : string) (size : Z) : Prop :=
  ∃ u, (with_query u (query_with u "digest" digest), mediaType, size) ∈ omap stored tr.

Lemma uploadBlob_spec appName size digest mediaType tr x :
  u_HasUser base = false → exec (uploadBlob base appName size digest mediaType) tr x →
  (∀ u, u ∈ omap requested tr → at_origin u) ∧ omap published tr = [] ∧ (x = None → stored_as tr digest mediaType size).
Proof.
  intros Hb (sk & tr1 & -> & Hk). cbn [prog_bind] in Hk. cbv zeta in Hk.
  destruct sk; [destruct Hk as [-> ->]; split_and!; [by intros u ?%not_elem_of_nil|done..]|].
  destruct (NewRequest _); [destruct Hk as [-> ->]; split_and!; [by intros u ?%not_elem_of_nil|done..]|].
  destruct Hk as (resp & tr2 & -> & Hk). cbn [prog_bind] in Hk.
  assert (Hone : ∀ u, u ∈ [with_path (endpoint base ["v2"; sourceRepository appName; "blobs"; "uploads"])
    (u_Path (endpoint base ["v2"; sourceRepository appName; "blobs"; "uploads"]) +:+ "/")] → at_origin u).
  { by intros u ->%list_elem_of_singleton. }
  destruct resp as [[[status location] closeErr]|e]; [|destruct Hk as [-> ->]; by split_and!].
  destruct (negb (status =? 202)%Z); [destruct Hk as [-> ->]; by split_and!|].
  destruct closeErr; [destruct Hk as [-> ->]; by split_and!|].
  unfold resolveUploadLocation in Hk. destruct (decide (location = "")); [destruct Hk as [-> ->]; by split_and!|].
  destruct (ParseURL location) as [parsed|e]; [|destruct Hk as [-> ->]; by split_and!].
  destruct (same_origin base (ResolveReference base parsed)) eqn:Ho; cbn [negb] in Hk; [|destruct Hk as [-> ->]; by split_and!].
  apply same_origin_true in Ho. cbv zeta in Hk. destruct (NewRequest _); [destruct Hk as [-> ->]; by split_and!|].
  destruct Hk as (put & tr3 & -> & -> & ->). split_and!; [|done|].
  - intros u [->|Hu]%elem_of_cons; [done|]. apply list_elem_of_singleton in Hu as ->. done.
  - destruct put as [st|e]; [|done]. destruct (_ && _) eqn:Hst; [done|]. intros _. exists (ResolveReference base parsed).
    change (omap stored _) with (omap stored [Call (PutBlob (with_query (ResolveReference base parsed)
      (query_with (ResolveReference base parsed) "digest" digest)) mediaType size) (Ok st)]).
    cbn. rewrite decide_True by (apply andb_false_iff in Hst; lia). by left.
Qed.

Lemma Download_Ok appName digest tr body :
  exec (Download base appName digest) tr (Ok body) →
  sha256_digest body = digest ∧ (Z.of_nat (length body) <= MaxCompressedBytes)%Z ∧
  tr = [Call (GetBlob (endpoint base ["v2"; sourceRepository appName; "blobs"; digest]) (MaxCompressedBytes + 1)) (Ok (200%Z, Ok body))].
Proof.
  unfold Download. destruct (validateReference appName digest); [by intros [_ [=]]|]. cbv zeta.
  destruct (NewRequest _); [by intros [_ [=]]|]. intros (resp & tr1 & -> & -> & Hk). destruct resp as [[status b]|e]; [|done].
  destruct (Z.eqb_spec status 200) as [->|]; [|done]. cbn [negb] in Hk. destruct b as [b|e]; [|done].
  destruct (Z.ltb_spec MaxCompressedBytes (Z.of_nat (length b))); [done|].
  destruct (decide (sha256_digest b ≠ digest)) as [|Hdig]; [done|]. injection Hk as ->. apply dec_stable in Hdig. done.
Qed.

Lemma Download_quiet appName digest tr x :
  exec (Download base appName digest) tr x → omap touched tr = [] ∧ omap written tr = [].
Proof.
  unfold Download. destruct (validateReference appName digest); [by intros [-> _]|]. cbv zeta.
  destruct (NewRequest _); [by intros [-> _]|]. by intros (resp & tr1 & -> & -> & _).
Qed.
End client.

(** Uploads stay at the registry and publish only what is there: a client for an
    HTTPS registry URL sends every request of an upload to that scheme and host without
    credentials, even if the registry answers with another upload location; the manifest
    is sent only for a well-formed name and digest and 1 byte to 32 MiB, after the
    registry took the archive under that digest and the empty configuration under its own. *)
Theorem upload_published `{UrlLib, UrlRefs} rawURL base appName filename size digest tr x :
  NewRegistry rawURL = Ok base → exec (Upload base appName filename size digest) tr x →
  (∀ u, u ∈ omap requested tr → u_Scheme u = "https" ∧ u_Host u = u_Host base ∧ u_HasUser u = false) ∧
  (∀ m, m ∈ omap published tr → m = source_manifest filename size digest ∧
     validateReference appName digest = None ∧ (1 <= size <= MaxCompressedBytes)%Z ∧
     stored_as tr digest SourceMediaType size ∧ stored_as tr (sha256_digest config_blob) configMediaType 2) ∧
  (x = None → omap published tr ≠ []).
Proof.
  unfold NewRegistry. destruct (ParseURL rawURL) as [b|]; [|done]. destruct (_ || _) eqn:Hb; [done|]. intros [= <-].
  set (base := with_path b _). rewrite !orb_false_iff, !bool_decide_eq_false in Hb.
  destruct Hb as ((((Hs & _) & Hu) & _) & _). apply dec_stable in Hs.
  assert (Hat : ∀ u, at_origin base u → u_Scheme u = "https" ∧ u_Host u = u_Host base ∧ u_HasUser u = false).
  { intros u (-> & -> & ->). done. }
  unfold Upload. destruct (validateReference appName digest) eqn:Hv.
  { intros [-> ->]. split_and!; [by intros u ?%not_elem_of_nil|by intros u ?%not_elem_of_nil|done]. }
  destruct (_ || _)%Z eqn:Hsz.
  { intros [-> ->]. split_and!; [by intros u ?%not_elem_of_nil|by intros u ?%not_elem_of_nil|done]. }
  intros (tr1 & tr2 & e & -> & H1 & Hk)%exec_bind. apply (uploadBlob_spec base) in H1 as (Hr1 & Hp1 & Hst1); [|done].
  destruct e as [e|]; [destruct Hk as [-> ->]; rewrite app_nil_r, Hp1; split_and!; [auto|by intros u ?%not_elem_of_nil|done]|].
  apply exec_bind in Hk as (tr3 & tr4 & e & -> & H2 & Hk). apply (uploadBlob_spec base) in H2 as (Hr2 & Hp2 & Hst2); [|done].
  rewrite !omap_app, Hp1, Hp2, !app_nil_l.
  assert (Hr12 : ∀ u, u ∈ omap requested tr1 ++ omap requested tr3 → u_Scheme u = "https" ∧ u_Host u = u_Host base ∧ u_HasUser u = false).
  { intros u [?|?]%elem_of_app; auto. }
  destruct e as [e|]; [destruct Hk as [-> ->]; split_and!; [|by intros u ?%not_elem_of_nil|done]|].
  { cbn. by rewrite app_nil_r. }
  cbv zeta in Hk. destruct (NewRequest _); [destruct Hk as [-> ->]; split_and!; [|by intros u ?%not_elem_of_nil|done]|].
  { cbn. by rewrite app_nil_r. }
  destruct Hk as (resp & tr5 & -> & -> & ->). split_and!; [| |done].
  - intros u [?|[?|Hin]%elem_of_app]%elem_of_app; [auto..|]. apply list_elem_of_singleton in Hin as ->. by apply Hat.
  - intros m ->%list_elem_of_singleton. destruct (Hst1 eq_refl) as [u1 H1], (Hst2 eq_refl) as [u2 H2].
    apply orb_false_iff in Hsz as [Hlo Hhi]. apply Z.ltb_ge in Hlo, Hhi.
    split_and!; [done..| |]; [exists u1|exists u2]; rewrite !omap_app, !elem_of_app; auto.
Qed.

(** ** Fetching *)

(** The build sees only the archive it was given: whatever registry, file system and
    ZIP reader answer, a fetch creates nothing outside its destination and writes at most
    one byte above 256 MiB; and it writes a byte, or succeeds, only after the registry
    returned for the archive's digest, with status 200, at most 32 MiB that hash to it. *)
Theorem fetch_pinned `{UrlLib, UrlRefs} base appName digest destination tr x :
  exec (Fetch (Download base) appName digest destination) tr x → Forall limited tr →
  (∀ p, p ∈ omap touched tr → p = destination ∨ inside destination p) ∧
  (total (omap written tr) <= MaxUncompressedBytes + 1)%Z ∧
  (x = None ∨ omap written tr ≠ [] → ∃ body, sha256_digest body = digest ∧
     (Z.of_nat (length body) <= MaxCompressedBytes)%Z ∧
     Call (GetBlob (endpoint base ["v2"; sourceRepository appName; "blobs"; digest]) (MaxCompressedBytes + 1)) (Ok (200%Z, Ok body)) ∈ tr).
Proof.
  unfold Fetch. destruct (bool_decide (destination = "") || _) eqn:Hd.
  { intros [-> ->] _. split_and!; [by intros p ?%not_elem_of_nil|done|naive_solver]. }
  apply orb_false_iff in Hd as [Hd%bool_decide_eq_false _]. intros (m & tr1 & -> & Hk) Hl. cbn [prog_bind] in Hk.
  assert (Hstart : ∀ p, p ∈ [destination] → p = destination ∨ inside destination p).
  { intros p ->%list_elem_of_singleton. by left. }
  destruct m as [u|e]; [|destruct Hk as [-> ->]; split_and!; [exact Hstart|done|naive_solver]].
  destruct Hk as (n & tr2 & -> & Hk). cbn [prog_bind] in Hk.
  destruct n as [n|e]; [|destruct Hk as [-> ->]; split_and!; [exact Hstart|done|naive_solver]].
  destruct (decide (n ≠ 0)) as [|Hn]; [destruct Hk as [-> ->]; split_and!; [exact Hstart|done|naive_solver]|].
  destruct Hk as (t & tr3 & -> & Hk). cbn [prog_bind] in Hk.
  destruct t as [tmpName|e]; [|destruct Hk as [-> ->]; split_and!; [exact Hstart|done|naive_solver]].
  apply exec_bind in Hk as (tr4 & tr5 & d & -> & Hdl & Hk). destruct (Download_quiet _ _ _ _ _ Hdl) as [Hqt Hqw].
  change (omap touched (_ :: _ :: _ :: tr4 ++ tr5)) with (destination :: omap touched (tr4 ++ tr5)).
  change (omap written (_ :: _ :: _ :: tr4 ++ tr5)) with (omap written (tr4 ++ tr5)).
  rewrite !omap_app, Hqt, Hqw, !app_nil_l. rewrite !Forall_cons, Forall_app in Hl. destruct Hl as (_ & _ & _ & _ & Hl).
  destruct d as [body|e].
  2:{ destruct Hk as (c & tr6 & -> & -> & ->). split_and!; [exact Hstart|done|naive_solver]. }
  apply Download_Ok in Hdl as (Hdig & Hlen & ->).
  destruct Hk as (c & tr6 & -> & Hk). cbn [prog_bind] in Hk. rewrite Forall_cons in Hl. destruct Hl as [_ Hl].
  assert (Hbody : ∃ b, sha256_digest b = digest ∧ (Z.of_nat (length b) <= MaxCompressedBytes)%Z ∧
    Call (GetBlob (endpoint base ["v2"; sourceRepository appName; "blobs"; digest]) (MaxCompressedBytes + 1)) (Ok (200%Z, Ok b)) ∈
    Call (MkdirAll destination) (Ok u) :: Call (ReadDir destination) (Ok n) :: Call CreateTemp (Ok tmpName) ::
      [Call (GetBlob (endpoint base ["v2"; sourceRepository appName; "blobs"; digest]) (MaxCompressedBytes + 1)) (Ok (200%Z, Ok body))] ++
      Call CloseTemp c :: tr6).
  { exists body. split_and!; [done..|]. do 3 right. by left. }
  destruct c as [e|]; [destruct Hk as [-> ->]; split_and!; [exact Hstart|done|naive_solver]|].
  apply exec_bind in Hk as (tr7 & tr8 & r & -> & Hx & [-> ->]). rewrite app_nil_r in *.
  apply extract_contained in Hx as (Hin & Hb & _); [|done..]. split_and!; [|exact Hb|by intros _].
  intros p [->|Hp]%elem_of_cons; [by left|]. right. by apply Hin.
Qed.

(** ** A worked archive *)
Module ArchiveExample.
Definition file (name : string) (size : Z) : ZipFile :=
  {| zf_Name := name; zf_Flags := 0; zf_Method := Deflate; zf_Mode := 420; zf_CompressedSize64 := 10; zf_UncompressedSize64 := size |}.
Definition directory (name : string) : ZipFile :=
  {| zf_Name := name; zf_Flags := 0; zf_Method := Store; zf_Mode := ModeDir + 493; zf_CompressedSize64 := 0; zf_UncompressedSize64 := 0 |}.
Definition files : list ZipFile := [directory "src/"; file "src//./main.go" 40; file "a/../go.mod" 7].
Definition info : Info := {| info_Files := 2; info_UncompressedBytes := 47 |}.

Example passes : inspect_files files = Ok info.
Proof. vm_compute. reflexivity. Qed.
Example slips : inspect_files [file "src/../../etc/passwd" 5] = Err (UnsafePath "src/../../etc/passwd").
Proof. vm_compute. reflexivity. Qed.
Example bomb : inspect_files [file "zeros" (2 ^ 27)] = Err (CompressionRatio "zeros").
Proof. vm_compute. reflexivity. Qed.
(** The product wraps around, and the entry is refused all the same. *)
Example wraps : inspect_files [{| zf_Name := "zeros"; zf_Flags := 0; zf_Method := Deflate; zf_Mode := 420;
    zf_CompressedSize64 := 2 ^ 64 - 1; zf_UncompressedSize64 := 2 ^ 21 |}] = Err (CompressionRatio "zeros").
Proof. vm_compute. reflexivity. Qed.

Definition base : URL :=
  {| u_Scheme := "https"; u_Opaque := ""; u_HasUser := false; u_Host := "registry"; u_Path := "";
     u_RawPath := ""; u_ForceQuery := false; u_RawQuery := ""; u_Fragment := "" |}.
#[local] Instance urls : UrlLib := {|
  ParseURL s := Ok base; Hostname := u_Host; Port _ := ""; Query _ := []; Redacted _ := ""; NewRequest _ := None;
  ParseMediaType := Ok; ParseAddr _ := None; AddrString _ := ""; SplitHostPort _ := Err "" |}.
#[local] Instance refs : UrlRefs := {| ResolveReference b u := u; query_with _ k v := k +:+ "=" +:+ v |}.

Definition data : list ascii := bytes "PK".
(** A registry with the archive, and a file system that takes everything. *)
Definition world (X : Set) (e : ArchiveE X) (st : list Z) : X * list Z :=
  match e in ArchiveE X return X * list Z with
  | OpenZip _ => (Ok files, st)
  | ReadDir _ => (Ok 0, st)
  | MkdirAll _ => (Ok tt, st)
  | OpenEntry _ => (Ok tt, st)
  | CreateExcl _ _ => (Ok tt, st)
  | CopyEntry _ _ => match st with n :: st => ((n, None), st) | [] => ((0%Z, None), []) end
  | CreateTemp => (Ok "/tmp/a.zip", st)
  | CloseTemp => (None, st)
  | SeekStart => (None, st)
  | PostUpload _ => (Ok (202%Z, "/v2/upload/1", None), st)
  | PutBlob _ _ _ => (Ok 201%Z, st)
  | PutManifest _ _ => (Ok 201%Z, st)
  | GetBlob _ _ => (Ok (200%Z, Ok data), st)
  end.
Definition fetching := run world (Fetch (Download base) "shop" (sha256_digest data) "/work") [40; 7]%Z.
Definition uploading := run world (Upload base "shop" "shop.zip" 2 (sha256_digest data)) [].
Definition extracting := run world (Extract "/work" "/tmp/a.zip") [40; 7]%Z.

Example fetched : fetching.1.1 = None ∧ omap touched fetching.1.2 =
  ["/work"; "/work/src"; "/work/src"; "/work/src/main.go"; "/work/src/main.go"; "/work"; "/work/go.mod"; "/work/go.mod"].
Proof. vm_compute. done. Qed.
Lemma fetching_limited : Forall limited fetching.1.2.
Proof. vm_compute. repeat constructor; discriminate. Qed.
Lemma fetching_exec : exec (Fetch (Download base) "shop" (sha256_digest data) "/work") fetching.1.2 fetching.1.1.
Proof. apply run_exec. Qed.
Lemma uploading_exec : exec (Upload base "shop" "shop.zip" 2 (sha256_digest data)) uploading.1.2 uploading.1.1.
Proof. apply run_exec. Qed.
Lemma extracting_exec : exec (Extract "/work" "/tmp/a.zip") extracting.1.2 extracting.1.1.
Proof. apply run_exec. Qed.
Lemma extracting_limited : Forall limited extracting.1.2.
Proof. vm_compute. repeat constructor; discriminate. Qed.

Lemma inspect_exact_witness : sizes files = 47%Z.
Proof.
  assert (Hs : Forall sized files) by (repeat constructor; vm_compute; discriminate || done).
  destruct (proj1 (inspect_exact files info Hs) passes) as (_ & _ & _ & _ & Hb & _).
  symmetry. exact Hb.
Defined.

Lemma extract_contained_witness : total (omap written extracting.1.2) = 47%Z.
Proof.
  destruct (extract_contained "/work" "/tmp/a.zip" _ _ ltac:(discriminate) extracting_exec extracting_limited) as (_ & _ & Hok).
  destruct Hok as [_ (fs & _ & _)]; [vm_compute; reflexivity|]. vm_compute. reflexivity.
Defined.

Lemma upload_published_witness : omap published uploading.1.2 = [source_manifest "shop.zip" 2 (sha256_digest data)].
Proof.
  assert (Hb : NewRegistry "https://registry" = Ok base) by (vm_compute; reflexivity).
  destruct (upload_published "https://registry" base "shop" "shop.zip" 2 (sha256_digest data) _ _ Hb uploading_exec)
    as (_ & _ & Hne). specialize (Hne ltac:(vm_compute; reflexivity)). vm_compute. reflexivity.
Defined.

Lemma fetch_pinned_witness : ∃ body, sha256_digest body = sha256_digest data ∧ (Z.of_nat (length body) <= MaxCompressedBytes)%Z.
Proof.
  destruct (fetch_pinned base "shop" (sha256_digest data) "/work" _ _ fetching_exec fetching_limited) as (_ & _ & Hb).
  destruct Hb as (body & Hd & Hl & _); [left; apply fetched|]. exists body. split; [exact Hd|exact Hl].
Defined.
End ArchiveExample.
