(* ===== verification/BuildJob.v ===== *)
(** * The build Job

    Models [operator/internal/buildjob/job.go]: [Compose], which turns a Build
    into a BuildKit invocation, and [Render], which renders the Kubernetes Job
    that runs it.  Both are pure.  A shell script of the source is written here
    with a caret for each double quote. *)
From S2P Require Import Prelude Regex GoStrings Sha256 Kube Api Names.
From Stdlib Require Import Ascii.

(** ** Constants *)
Definition Namespace : string := "orkano-builds".
Definition RegistryHost : string := "orkano-registry.orkano-system.svc.cluster.local".
Definition DefaultImage : string :=
  "moby/buildkit:v0.30.0-rootless@sha256:d76eb1caecac5733ef7553c1e90a1b21f1bb218cd1142d3553de0747b4a14ba9".
Definition DefaultGitImage : string :=
  "alpine/git:2.49.1@sha256:c0280cf9572316299b08544065d3bf35db65043d5e3963982ec50647d2746e26".
Definition DefaultNixpacksImage : string :=
  "ghcr.io/railwayapp/nixpacks:latest@sha256:fafdd33327c3c824402c7ac5dc93110da2613ef2a6ba9c5390a8c34c241e548f".
Definition podLabelKey : string := "app.kubernetes.io/name".
Definition podLabelValue : string := "orkano-build".
Definition serviceAccountName : string := "orkano-build".
Definition AnnotationBuildName : string := "orkano.io/build-name".
Definition AnnotationBuildNamespace : string := "orkano.io/build-namespace".
Definition CAConfigMapName : string := "orkano-registry-ca".
Definition caMountPath : string := "/orkano-registry-ca".
Definition configConfigMapName : string := "orkano-buildkit-config".
Definition configMountPath : string := "/orkano-buildkit-config".
Definition appArmorProfileName : string := "orkano-buildkit".
Definition DefaultTimeoutSeconds : Z := 900.
Definition DefaultDockerfile : string := "Dockerfile".
Definition DefaultGitBaseURL : string := "https://github.com/".
Definition StaticServerImage : string :=
  "nginxinc/nginx-unprivileged:1.30-alpine-slim@sha256:bcb4860e2d7877cf140e4c945f5f9cb304ccb5efbe1dd4fa606a2206142241bf".
Definition staticServeRoot : string := "/usr/share/nginx/html/".
Definition dockerfileLocalName : string := "dockerfile".
Definition dockerfileMountPath : string := "/orkano-dockerfile".
Definition sourceMountPath : string := "/workspace/source".

(** ** Compose *)
Record LocalSource : Set := {
  local_GitURL : string;
  local_Commit : string;
  local_ArchiveDigest : string;
  local_AppName : string;
  local_SubPath : string;
}.

Record Invocation : Set := {
  inv_ContextURL : string;
  inv_LocalSource : option LocalSource;
  inv_DockerfilePath : string;
  inv_GeneratedDockerfile : string;
  inv_ImageRef : string;
  inv_Nixpacks : bool;
  inv_NixpacksConfigPath : string;
}.

Inductive ComposeError : Set :=
| BuildRequired
| UploadDigestMismatch
| ExactlyOneSource
| DockerfileMismatched
| StaticMismatched
| NixpacksMismatched
| UnsupportedStrategy (strategy : string).

Definition buildImageTag (build : Build) : string :=
  let m := build_Meta build in
  let identity :=
    if decide (meta_Name m = "") then
      build_AppName (build_Spec build) +:+ "/" +:+ build_Commit (build_Spec build)
    else meta_Namespace m +:+ "/" +:+ meta_Name m in
  let sum := Sum256 (bytes identity) in
  let revision := build_Commit (build_Spec build) in
  let revision := if 12 <? len revision then slice_to 12 revision else revision in
  revision +:+ "-" +:+ EncodeToString sum.

Definition nl : string := String newline "".

Definition staticDockerfile (dir : string) : string :=
  "FROM " +:+ StaticServerImage +:+ nl +:+
  "COPY " +:+ TrimRight dir "/" +:+ "/ " +:+ staticServeRoot +:+ nl.

Definition count_some {A} (o : option A) : nat := match o with Some _ => 1 | None => 0 end.

(** The part of [Compose] up to the choice of strategy: source, context and
    image reference. *)
Definition compose_source (build : Build) (gitBaseURL : string) : result ComposeError Invocation :=
  let spec := build_Spec build in
  let src := build_Source spec in
  let base := if decide (gitBaseURL = "") then DefaultGitBaseURL else gitBaseURL in
  let gitURL := match source_GitHub src with
                | Some github => base +:+ github_Repo github +:+ ".git" | None => "" end in
  let gitURL := match source_Git src with Some git => git_URL git | None => gitURL end in
  let mismatch := match source_Upload src with
                  | Some upload => negb (bool_decide
                      (TrimPrefix (upload_Digest upload) "sha256:" = build_Commit spec))
                  | None => false end in
  let sourceCount := count_some (source_GitHub src) + count_some (source_Git src) +
                     count_some (source_Upload src) in
  if mismatch then Err UploadDigestMismatch
  else if decide (sourceCount ≠ 1) then Err ExactlyOneSource
  else
  let ctxURL := if decide (gitURL = "") then "" else gitURL +:+ "#" +:+ build_Commit spec in
  let sub := Trim (source_SubPath src) "/" in
  let ctxURL := if bool_decide (sub = "") || bool_decide (ctxURL = "") then ctxURL
                else ctxURL +:+ ":" +:+ sub in
  let needsLocal := has (source_Upload src) ||
    bool_decide (strategy_Strategy (build_Strategy spec) = StrategyNixpacks) in
  Ok {| inv_ContextURL := if needsLocal then "" else ctxURL;
        inv_LocalSource :=
          if needsLocal then
            Some {| local_GitURL := gitURL; local_Commit := build_Commit spec;
                    local_ArchiveDigest := match source_Upload src with
                                           | Some upload => upload_Digest upload | None => "" end;
                    local_AppName := build_AppName spec; local_SubPath := source_SubPath src |}
          else None;
        inv_DockerfilePath := ""; inv_GeneratedDockerfile := "";
        inv_ImageRef := RegistryHost +:+ "/" +:+ build_AppName spec +:+ ":" +:+ buildImageTag build;
        inv_Nixpacks := false; inv_NixpacksConfigPath := "" |}.

Definition with_strategy (inv : Invocation) (dockerfile generated : string) (nixpacks : bool)
    (config : string) : Invocation :=
  {| inv_ContextURL := inv_ContextURL inv; inv_LocalSource := inv_LocalSource inv;
     inv_DockerfilePath := dockerfile; inv_GeneratedDockerfile := generated;
     inv_ImageRef := inv_ImageRef inv; inv_Nixpacks := nixpacks; inv_NixpacksConfigPath := config |}.

(** The switch on the strategy. *)
Definition compose_strategy (strategy : BuildStrategy) (inv : Invocation)
    : result ComposeError Invocation :=
  if decide (strategy_Strategy strategy = StrategyDockerfile) then
    if has (strategy_Static strategy) || has (strategy_Nixpacks strategy)
    then Err DockerfileMismatched
    else Ok (with_strategy inv
               (match strategy_Dockerfile strategy with
                | Some df => if decide (dockerfile_Path df = "") then DefaultDockerfile
                             else dockerfile_Path df
                | None => DefaultDockerfile end) "" false "")
  else if decide (strategy_Strategy strategy = StrategyStatic) then
    match strategy_Static strategy, strategy_Dockerfile strategy, strategy_Nixpacks strategy with
    | Some s, None, None => Ok (with_strategy inv "" (staticDockerfile (static_Dir s)) false "")
    | _, _, _ => Err StaticMismatched
    end
  else if decide (strategy_Strategy strategy = StrategyNixpacks) then
    match strategy_Nixpacks strategy, strategy_Dockerfile strategy, strategy_Static strategy with
    | Some n, None, None =>
        Ok (with_strategy inv ".nixpacks/Dockerfile" "" true (nixpacks_ConfigPath n))
    | _, _, _ => Err NixpacksMismatched
    end
  else Err (UnsupportedStrategy (strategy_Strategy strategy)).

Definition Compose (build : option Build) (gitBaseURL : string) : result ComposeError Invocation :=
  match build with
  | None => Err BuildRequired
  | Some build =>
      inv ← compose_source build gitBaseURL;
      compose_strategy (build_Strategy (build_Spec build)) inv
  end.

(** ** The init containers *)
Definition quoted (s : string) : string :=
  of_bytes ((λ c, if decide (c = "^"%char) then byte 34 else c) <$> bytes s).

Definition mount (name path : string) (ro : bool) : VolumeMount :=
  {| vm_Name := name; vm_MountPath := path; vm_ReadOnly := ro |}.
Definition env_value (name value : string) : CoreEnvVar :=
  {| cenv_Name := name; cenv_Value := value; cenv_ValueFrom := None |}.

Definition initResources (cpu memory : string) : ResourceRequirements :=
  {| res_Requests := {[ResourceCPU := MustParse cpu; ResourceMemory := MustParse memory]};
     res_Limits := {[ResourceCPU := MustParse cpu; ResourceMemory := MustParse memory]} |}.

Definition restrictedInitSecurityContext : SecurityContext :=
  {| sc_RunAsUser := Some 1000%Z; sc_RunAsGroup := Some 1000%Z; sc_RunAsNonRoot := Some true;
     sc_AllowPrivilegeEscalation := Some false; sc_ReadOnlyRootFilesystem := Some true;
     sc_Privileged := None; sc_CapDrop := ["ALL"]; sc_CapAdd := [];
     sc_SeccompProfile := Some "RuntimeDefault"; sc_AppArmorProfile := None |}.

Definition dockerfileInitContainer (image dockerfile : string) : Container :=
  job_container "render-dockerfile" image
    ["sh"; "-c"; quoted "printf '%s' ^$ORKANO_DOCKERFILE^ > " +:+ dockerfileMountPath +:+ "/" +:+ DefaultDockerfile]
    [] [env_value "ORKANO_DOCKERFILE" dockerfile] (initResources "50m" "32Mi")
    restrictedInitSecurityContext [mount dockerfileLocalName dockerfileMountPath false].

Definition archiveInitContainer (image : string) (source : LocalSource) : Container :=
  job_container "fetch-source-archive" image []
    ["source-fetch"; "--app=" +:+ local_AppName source; "--digest=" +:+ local_ArchiveDigest source;
     "--destination=" +:+ sourceMountPath; "--registry-url=https://" +:+ RegistryHost;
     "--ca-file=" +:+ caMountPath +:+ "/ca.crt"]
    [] (initResources "100m" "128Mi") restrictedInitSecurityContext
    [mount "source" sourceMountPath false; mount "tmp" "/tmp" false; mount "registry-ca" caMountPath true].

Definition git_script : string := quoted
"umask 022
git init ^$ORKANO_SOURCE_DIR^
git -C ^$ORKANO_SOURCE_DIR^ remote add origin ^$ORKANO_GIT_URL^
git -C ^$ORKANO_SOURCE_DIR^ -c protocol.file.allow=never fetch --depth=1 origin ^$ORKANO_COMMIT^
test ^$(git -C ^$ORKANO_SOURCE_DIR^ rev-parse FETCH_HEAD)^ = ^$ORKANO_COMMIT^
git -C ^$ORKANO_SOURCE_DIR^ checkout --detach FETCH_HEAD
test ^$(git -C ^$ORKANO_SOURCE_DIR^ rev-parse HEAD)^ = ^$ORKANO_COMMIT^
rm -rf ^$ORKANO_SOURCE_DIR/.git^".

Definition gitInitContainer (image : string) (source : LocalSource) : Container :=
  job_container "checkout-source" image ["/bin/sh"; "-ec"] [git_script]
    [env_value "ORKANO_SOURCE_DIR" sourceMountPath; env_value "ORKANO_GIT_URL" (local_GitURL source);
     env_value "ORKANO_COMMIT" (local_Commit source)]
    (initResources "100m" "128Mi") restrictedInitSecurityContext [mount "source" sourceMountPath false].

Definition nixpacks_script : string := quoted
"set -euo pipefail
case ^$(uname -m)^ in
  x86_64) asset=x86_64-unknown-linux-musl; expected=0f55de7874507b9cf7502113120bd96f2ab6979f78d10eaf2eb2ade9207b3af6 ;;
  aarch64|arm64) asset=aarch64-unknown-linux-musl; expected=912bd02dd2bb6f9c3a9ed965fe8a68b4aa318dc7a2546e2eca6f2806a894ba39 ;;
  *) echo ^unsupported Nixpacks architecture: $(uname -m)^ >&2; exit 1 ;;
esac
archive=/tmp/nixpacks.tar.gz
curl --proto '=https' --tlsv1.2 -fsSL ^https://github.com/railwayapp/nixpacks/releases/download/v1.41.0/nixpacks-v1.41.0-${asset}.tar.gz^ -o ^$archive^
printf '%s  %s\n' ^$expected^ ^$archive^ | sha256sum -c -
tar -xzf ^$archive^ -C /tmp
set -- /tmp/nixpacks build ^$ORKANO_SOURCE_DIR^ --out ^$ORKANO_SOURCE_DIR^
if [ -n ^$ORKANO_NIXPACKS_CONFIG^ ]; then set -- ^$@^ --config ^$ORKANO_NIXPACKS_CONFIG^; fi
^$@^
test -s ^$ORKANO_SOURCE_DIR/.nixpacks/Dockerfile^".

Definition nixpacksInitContainer (image sourceDir configPath : string) : Container :=
  job_container "generate-nixpacks" image ["/bin/bash"; "-ec"] [nixpacks_script]
    [env_value "HOME" "/tmp"; env_value "ORKANO_SOURCE_DIR" sourceDir;
     env_value "ORKANO_NIXPACKS_CONFIG" configPath]
    (initResources "100m" "256Mi") restrictedInitSecurityContext
    [mount "source" sourceMountPath false; mount "tmp" "/tmp" false].

(** ** Render *)
Definition JobName (buildName : string) : string :=
  if len buildName <=? 63 then buildName
  else TrimRight (slice_to 54 buildName) "-." +:+ "-" +:+
       EncodeToString (take 4 (Sum256 (bytes buildName))).

Record Options : Set := {
  opt_ContextURL : string;
  opt_LocalSource : option LocalSource;
  opt_DockerfilePath : string;
  opt_GeneratedDockerfile : string;
  opt_ImageRef : string;
  opt_Image : string;
  opt_SourceFetcherImage : string;
  opt_GitImage : string;
  opt_NixpacksImage : string;
  opt_Nixpacks : bool;
  opt_NixpacksConfigPath : string;
}.

Inductive RenderError : Set :=
| NoNameOrNamespace
| ExactlyOneContext (name : string)
| NixpacksNeedsLocal (name : string)
| FetcherRequired (name : string).

Definition or_default (s fallback : string) : string := if decide (s = "") then fallback else s.

Definition buildkitSecurityContext : SecurityContext :=
  {| sc_RunAsUser := Some 1000%Z; sc_RunAsGroup := Some 1000%Z; sc_RunAsNonRoot := Some true;
     sc_AllowPrivilegeEscalation := Some true; sc_ReadOnlyRootFilesystem := None;
     sc_Privileged := None; sc_CapDrop := ["ALL"]; sc_CapAdd := ["SETUID"; "SETGID"];
     sc_SeccompProfile := None; sc_AppArmorProfile := Some ("Localhost", appArmorProfileName) |}.

Definition base_mounts : list VolumeMount :=
  [mount "buildkitd" "/home/user/.local/share/buildkit" false; mount "tmp" "/tmp" false;
   mount "registry-ca" caMountPath true; mount "buildkit-config" configMountPath true].
Definition base_volumes : list Volume :=
  [{| vol_Name := "buildkitd"; vol_Source := EmptyDir None |};
   {| vol_Name := "tmp"; vol_Source := EmptyDir None |};
   {| vol_Name := "registry-ca"; vol_Source := ConfigMapVolume CAConfigMapName |};
   {| vol_Name := "buildkit-config"; vol_Source := ConfigMapVolume configConfigMapName |}].

(** The directory BuildKit reads a local source from. *)
Definition context_path (source : LocalSource) : string :=
  let sub := Trim (local_SubPath source) "/" in
  if decide (sub = "") then sourceMountPath else sourceMountPath +:+ "/" +:+ sub.

Definition source_args (opts : Options) : list string :=
  match opt_LocalSource opts with
  | None => ["--opt=context=" +:+ opt_ContextURL opts]
  | Some source => ["--local=context=" +:+ context_path source]
  end.

Definition source_inits (opts : Options) : list Container :=
  match opt_LocalSource opts with
  | None => []
  | Some source =>
      [if decide (local_ArchiveDigest source = "")
       then gitInitContainer (or_default (opt_GitImage opts) DefaultGitImage) source
       else archiveInitContainer (opt_SourceFetcherImage opts) source] ++
      (if opt_Nixpacks opts then
         [nixpacksInitContainer (or_default (opt_NixpacksImage opts) DefaultNixpacksImage)
            (context_path source) (opt_NixpacksConfigPath opts)]
       else [])
  end.

Definition dockerfile_args (opts : Options) : list string :=
  if negb (bool_decide (opt_GeneratedDockerfile opts = "")) then
    ["--local=dockerfile=" +:+ dockerfileMountPath; "--opt=dockerfilekey=" +:+ dockerfileLocalName;
     "--opt=filename=" +:+ DefaultDockerfile]
  else if negb (bool_decide (opt_DockerfilePath opts = "")) then
    (match opt_LocalSource opts with
     | Some source => ["--local=dockerfile=" +:+ context_path source] | None => [] end) ++
    ["--opt=filename=" +:+ opt_DockerfilePath opts]
  else [].

Definition Render (build : Build) (opts : Options) : result RenderError Job :=
  let m := build_Meta build in
  if bool_decide (meta_Name m = "") || bool_decide (meta_Namespace m = "") then Err NoNameOrNamespace
  else if Bool.eqb (bool_decide (opt_ContextURL opts = "")) (negb (has (opt_LocalSource opts))) ||
          bool_decide (opt_ImageRef opts = "") then Err (ExactlyOneContext (meta_Name m))
  else if opt_Nixpacks opts && negb (has (opt_LocalSource opts)) then Err (NixpacksNeedsLocal (meta_Name m))
  else if match opt_LocalSource opts with
          | Some source => negb (bool_decide (local_ArchiveDigest source = "")) &&
                           bool_decide (opt_SourceFetcherImage opts = "")
          | None => false end then Err (FetcherRequired (meta_Name m))
  else
  let image := or_default (opt_Image opts) DefaultImage in
  let timeout := build_TimeoutSeconds (build_Spec build) in
  let timeout := if decide (timeout = 0)%Z then DefaultTimeoutSeconds else timeout in
  let local := has (opt_LocalSource opts) in
  let generated := negb (bool_decide (opt_GeneratedDockerfile opts = "")) in
  let args := ["build"; "--frontend=dockerfile.v0"] ++ source_args opts ++ dockerfile_args opts ++
    ["--output=type=image,name=" +:+ opt_ImageRef opts +:+ ",push=true"] in
  let mounts := base_mounts ++ (if local then [mount "source" sourceMountPath true] else []) ++
    (if generated then [mount dockerfileLocalName dockerfileMountPath true] else []) in
  let volumes := base_volumes ++
    (if local then [{| vol_Name := "source"; vol_Source := EmptyDir (Some (NewQuantity (Z.shiftl 300 20))) |}] else []) ++
    (if generated then [{| vol_Name := dockerfileLocalName; vol_Source := EmptyDir None |}] else []) in
  let inits := source_inits opts ++
    (if generated then [dockerfileInitContainer image (opt_GeneratedDockerfile opts)] else []) in
  Ok {| job_Meta := new_meta Namespace (JobName (meta_Name m)) {[podLabelKey := podLabelValue]}
          {[AnnotationBuildName := meta_Name m; AnnotationBuildNamespace := meta_Namespace m]};
        job_BackoffLimit := Some 0%Z;
        job_ActiveDeadlineSeconds := Some timeout;
        job_TemplateLabels := {[podLabelKey := podLabelValue]};
        job_Pod :=
          {| pod_RestartPolicy := "Never";
             pod_ServiceAccountName := serviceAccountName;
             pod_AutomountServiceAccountToken := Some false;
             pod_InitContainers := inits;
             pod_Containers :=
               [job_container "buildkit" image ["buildctl-daemonless.sh"] args
                  [env_value "BUILDKITD_FLAGS"
                     ("--oci-worker-no-process-sandbox --config=" +:+ configMountPath +:+ "/buildkitd.toml")]
                  {| res_Requests := {[ResourceCPU := MustParse "500m"; ResourceMemory := MustParse "1Gi"]};
                     res_Limits := {[ResourceCPU := MustParse "2"; ResourceMemory := MustParse "4Gi"]} |}
                  buildkitSecurityContext mounts];
             pod_Volumes := volumes;
             pod_HostNetwork := false; pod_SecurityContext := None |};
        job_Status := no_job_status |}.

(** The options the Build controller passes on. *)
Definition options_of (inv : Invocation) (sourceFetcherImage : string) : Options :=
  {| opt_ContextURL := inv_ContextURL inv; opt_LocalSource := inv_LocalSource inv;
     opt_DockerfilePath := inv_DockerfilePath inv;
     opt_GeneratedDockerfile := inv_GeneratedDockerfile inv; opt_ImageRef := inv_ImageRef inv;
     opt_Image := ""; opt_SourceFetcherImage := sourceFetcherImage; opt_GitImage := "";
     opt_NixpacksImage := ""; opt_Nixpacks := inv_Nixpacks inv;
     opt_NixpacksConfigPath := inv_NixpacksConfigPath inv |}.

(** ** Lemmas: bytes that cannot occur *)
Lemma not_in_alphabet r s c :
  MatchString r s = true → alphabet r c = false → c ∉ bytes s.
Proof.
  intros Hm%MatchString_alphabet Ha Hin. rewrite Forall_forall in Hm.
  specialize (Hm c Hin). congruence.
Qed.

Lemma hex_not_in c l : is_hex c = false → Forall (λ c, is_hex c = true) l → c ∉ l.
Proof. intros Hc HF Hin. rewrite Forall_forall in HF. specialize (HF _ Hin). congruence. Qed.

Lemma Trim_part s cutset : ∃ a c, bytes s = a ++ bytes (Trim s cutset) ++ c.
Proof.
  unfold Trim, TrimLeft.
  destruct (TrimRight_spec (of_bytes (drop_while (one_of cutset) (bytes s))) cutset) as (t & Heq & _).
  rewrite bytes_of_bytes in Heq.
  destruct (drop_while_spec (one_of cutset) (bytes s)) as (t' & Heq' & _).
  exists t', t. by rewrite <- Heq.
Qed.

Lemma elem_of_Trim c s cutset : c ∈ bytes (Trim s cutset) → c ∈ bytes s.
Proof. destruct (Trim_part s cutset) as (a & t & ->). rewrite !elem_of_app. tauto. Qed.

Lemma revision_hex b :
  MatchString commitPattern (build_Commit (build_Spec b)) = true →
  ∃ rev, buildImageTag b = rev +:+ "-" +:+ EncodeToString (Sum256 (bytes
      (if decide (meta_Name (build_Meta b) = "") then
         build_AppName (build_Spec b) +:+ "/" +:+ build_Commit (build_Spec b)
       else meta_Namespace (build_Meta b) +:+ "/" +:+ meta_Name (build_Meta b)))) ∧
    len rev = 12 ∧ Forall (λ c, is_hex c = true) (bytes rev).
Proof.
  intros [Hl HF]%commit_hex. eexists. split; [reflexivity|].
  rewrite (proj2 (Nat.ltb_lt _ _)) by lia. split; [rewrite len_slice_to; lia|].
  unfold slice_to. rewrite bytes_of_bytes. by apply Forall_take.
Qed.

Lemma not_in_tag b c :
  MatchString commitPattern (build_Commit (build_Spec b)) = true →
  is_hex c = false → c ≠ "-"%char → c ∉ bytes (buildImageTag b).
Proof.
  intros (rev & -> & _ & HF)%revision_hex Hc Hd. rewrite !bytes_app, !elem_of_app.
  intros [Hin|[Hin|Hin]].
  - by apply (hex_not_in c _ Hc HF).
  - simpl in Hin. by apply list_elem_of_singleton in Hin.
  - revert Hin. apply hex_not_in; [done|apply EncodeToString_hex].
Qed.

(** ** Lemmas: Compose *)

(** Where the source of a Build is cloned from; empty for an upload. *)
Definition git_url (b : Build) (base : string) : string :=
  let src := build_Source (build_Spec b) in
  match source_Git src, source_GitHub src with
  | Some git, _ => git_URL git
  | None, Some github => or_default base DefaultGitBaseURL +:+ github_Repo github +:+ ".git"
  | None, None => ""
  end.

Definition needs_local (b : Build) : bool :=
  has (source_Upload (build_Source (build_Spec b))) ||
  bool_decide (strategy_Strategy (build_Strategy (build_Spec b)) = StrategyNixpacks).

Definition sub_path (b : Build) : string := Trim (source_SubPath (build_Source (build_Spec b))) "/".

Definition image_ref (b : Build) : string :=
  RegistryHost +:+ "/" +:+ build_AppName (build_Spec b) +:+ ":" +:+ buildImageTag b.

Definition local_source (b : Build) (base : string) : LocalSource :=
  {| local_GitURL := git_url b base; local_Commit := build_Commit (build_Spec b);
     local_ArchiveDigest := match source_Upload (build_Source (build_Spec b)) with
                            | Some u => upload_Digest u | None => "" end;
     local_AppName := build_AppName (build_Spec b);
     local_SubPath := source_SubPath (build_Source (build_Spec b)) |}.

(** The context fragment: the commit, and the directory if there is one. *)
Definition context_url (b : Build) (base : string) : string :=
  git_url b base +:+ "#" +:+ build_Commit (build_Spec b) +:+
    (if decide (sub_path b = "") then "" else ":" +:+ sub_path b).

Lemma app_ne_empty s c t : s +:+ String c t ≠ "".
Proof. by destruct s. Qed.

Lemma str_app_nil (s : string) : s +:+ "" = s.
Proof. apply bytes_inj. by rewrite bytes_app, app_nil_r. Qed.

Lemma compose_source_git_url b base :
  match source_Git (build_Source (build_Spec b)) with
  | Some git => git_URL git
  | None => match source_GitHub (build_Source (build_Spec b)) with
            | Some github => (if decide (base = "") then DefaultGitBaseURL else base) +:+
                             github_Repo github +:+ ".git"
            | None => "" end
  end = git_url b base.
Proof. reflexivity. Qed.

Lemma compose_source_inv b base inv :
  compose_source b base = Ok inv →
  inv_ImageRef inv = image_ref b ∧
  inv_LocalSource inv = (if needs_local b then Some (local_source b base) else None) ∧
  inv_ContextURL inv = (if needs_local b then "" else
    if decide (git_url b base = "") then "" else context_url b base) ∧
  (∀ u, source_Upload (build_Source (build_Spec b)) = Some u →
    TrimPrefix (upload_Digest u) "sha256:" = build_Commit (build_Spec b)).
Proof.
  unfold compose_source. cbv zeta. rewrite compose_source_git_url.
  fold (sub_path b) (needs_local b) (image_ref b) (local_source b base).
  destruct (match source_Upload _ with Some _ => negb _ | None => false end) eqn:Hm; [done|].
  case_decide; [done|]. intros [= <-]. cbn [inv_ImageRef inv_LocalSource inv_ContextURL].
  split_and!; [done..| |].
  - destruct (needs_local b); [done|]. unfold context_url. case_decide; [by rewrite orb_true_r|].
    rewrite (bool_decide_false (_ +:+ _ = "")) by apply app_ne_empty. rewrite orb_false_r.
    case_bool_decide; [rewrite decide_True by done; by rewrite str_app_nil|].
    rewrite decide_False by done. by rewrite !str_app_assoc.
  - intros u Hu. rewrite Hu in Hm. by apply negb_false_iff, bool_decide_eq_true in Hm.
Qed.

Lemma compose_strategy_inv st inv inv' :
  compose_strategy st inv = Ok inv' →
  inv_ImageRef inv' = inv_ImageRef inv ∧ inv_LocalSource inv' = inv_LocalSource inv ∧
  inv_ContextURL inv' = inv_ContextURL inv ∧
  (inv_Nixpacks inv' = true → strategy_Strategy st = StrategyNixpacks) ∧
  (inv_GeneratedDockerfile inv' = "" ∨ ∃ s, strategy_Static st = Some s ∧
    inv_GeneratedDockerfile inv' = staticDockerfile (static_Dir s)).
Proof.
  unfold compose_strategy. repeat (case_match; try done); intros [= <-]; simpl; split_and!; try done; eauto.
Qed.

Lemma Compose_Ok_inv b base inv :
  Compose (Some b) base = Ok inv →
  inv_ImageRef inv = image_ref b ∧
  inv_LocalSource inv = (if needs_local b then Some (local_source b base) else None) ∧
  inv_ContextURL inv = (if needs_local b then "" else
    if decide (git_url b base = "") then "" else context_url b base) ∧
  (inv_Nixpacks inv = true → needs_local b = true).
Proof.
  simpl. destruct (compose_source b base) as [inv0|] eqn:Hs; [|done]. simpl.
  intros (-> & -> & -> & Hn & _)%compose_strategy_inv.
  apply compose_source_inv in Hs as (? & ? & ? & _). split_and!; [done..|].
  intros Hx. unfold needs_local. by rewrite (bool_decide_true _ (Hn Hx)), orb_true_r.
Qed.

(** ** Lemmas: admitted Builds *)
Definition upload_matches (b : Build) : Prop :=
  ∀ u, source_Upload (build_Source (build_Spec b)) = Some u →
    TrimPrefix (upload_Digest u) "sha256:" = build_Commit (build_Spec b).

Lemma compose_source_admitted b base :
  valid_BuildSpec (build_Spec b) = true → upload_matches b →
  ∃ inv, compose_source b base = Ok inv.
Proof.
  intros (_ & _ & _ & Hsrc & _)%valid_BuildSpec_inv Hu. unfold compose_source, upload_matches in *.
  destruct (valid_Source_one _ Hsrc) as [(g & H1 & H2 & H3 & _)|[(g & H1 & H2 & H3 & _)|(u & H1 & H2 & H3 & _)]];
    rewrite H1, H2, H3; simpl; [eauto..|].
  rewrite (bool_decide_true _ (Hu u H3)). simpl. eauto.
Qed.

Lemma compose_strategy_admitted st inv :
  valid_BuildStrategy st = true → ∃ inv', compose_strategy st inv = Ok inv'.
Proof.
  unfold compose_strategy.
  intros [(-> & -> & -> & _)|[(-> & -> & -> & s & -> & _)|(-> & -> & -> & n & -> & _)]]%valid_BuildStrategy_cases;
    simpl; eauto.
Qed.

Lemma Compose_admitted b base :
  valid_BuildSpec (build_Spec b) = true → upload_matches b → ∃ inv, Compose (Some b) base = Ok inv.
Proof.
  intros Hv Hu. destruct (compose_source_admitted b base Hv Hu) as [inv Hi]. simpl. rewrite Hi.
  apply compose_strategy_admitted. by apply valid_BuildSpec_inv.
Qed.

(** A Git source of an admitted Build has a URL. *)
Lemma git_url_admitted b base :
  valid_BuildSpec (build_Spec b) = true → needs_local b = false → git_url b base ≠ "".
Proof.
  intros (_ & _ & _ & Hsrc & _)%valid_BuildSpec_inv Hl. unfold git_url, needs_local in *.
  destruct (valid_Source_one _ Hsrc) as [(g & H1 & H2 & H3 & _)|[(g & H1 & H2 & H3 & Hg)|(u & H1 & H2 & H3 & _)]];
    rewrite H1, H2, ?H3 in *; [|intros Hn|done].
  - intros Hn. apply (f_equal len) in Hn. rewrite !len_app in Hn. unfold len in Hn. simpl in Hn. lia.
  - unfold valid_GitSource in Hg. rewrite Hn in Hg. done.
Qed.

Lemma upload_nonempty u : valid_UploadSource u = true → upload_Digest u ≠ "".
Proof. unfold valid_UploadSource. intros Hv Hn. rewrite Hn in Hv. done. Qed.

(** ** Lemmas: Render *)
Definition restricted (c : Container) : Prop := c_SecurityContext c = Some restrictedInitSecurityContext.

(** Never root, no extra capability but the two the rootless daemon needs, no
    secret in the environment, bounded memory and CPU. *)
Definition confined (c : Container) : Prop :=
  (∃ sc, c_SecurityContext c = Some sc ∧ sc_RunAsNonRoot sc = Some true ∧
    sc_RunAsUser sc = Some 1000%Z ∧ sc_Privileged sc = None ∧ sc_CapDrop sc = ["ALL"] ∧
    sc_CapAdd sc ⊆ ["SETUID"; "SETGID"]) ∧
  is_Some (res_Limits (c_Resources c) !! ResourceMemory) ∧
  is_Some (res_Limits (c_Resources c) !! ResourceCPU) ∧
  (∀ e, e ∈ c_Env c → cenv_ValueFrom e = None) ∧
  (∀ v, v ∈ c_VolumeMounts c → vm_Name v ∈
    ["buildkitd"; "tmp"; "registry-ca"; "buildkit-config"; "source"; "dockerfile"]).

Lemma confined_init name image command args env cpu memory mounts :
  (∀ e, e ∈ env → cenv_ValueFrom e = None) →
  (∀ v, v ∈ mounts → vm_Name v ∈
    ["buildkitd"; "tmp"; "registry-ca"; "buildkit-config"; "source"; "dockerfile"]) →
  let c := job_container name image command args env (initResources cpu memory)
    restrictedInitSecurityContext mounts in confined c ∧ restricted c.
Proof.
  intros He Hm. split; [|done]. split_and!; [|by eexists..|done|done].
  eexists. split_and!; [done..|]. simpl. apply list_subseteq_nil.
Qed.

Lemma source_inits_confined opts c : c ∈ source_inits opts → confined c ∧ restricted c.
Proof.
  unfold source_inits. destruct (opt_LocalSource opts) as [source|]; [|by intros ?%not_elem_of_nil].
  rewrite elem_of_app, list_elem_of_singleton. intros [->|Hc].
  - case_decide; apply confined_init; intros x Hx;
      rewrite ?elem_of_cons, ?elem_of_nil in Hx; destruct_or?; subst; simpl; set_solver.
  - destruct (opt_Nixpacks opts); [|by apply not_elem_of_nil in Hc].
    apply list_elem_of_singleton in Hc as ->. apply confined_init; intros x Hx;
      rewrite ?elem_of_cons, ?elem_of_nil in Hx; destruct_or?; subst; simpl; set_solver.
Qed.

(** ** Properties *)

(** Every admitted Build can be run: when the API server accepted the Build
    (and an upload's digest is its recorded commit), [Compose] succeeds and
    [Render] accepts what it composed, whatever Git base is configured. *)
Theorem admitted_builds_render b base fetcher :
  valid_BuildSpec (build_Spec b) = true → upload_matches b →
  meta_Name (build_Meta b) ≠ "" → meta_Namespace (build_Meta b) ≠ "" → fetcher ≠ "" →
  ∃ inv job, Compose (Some b) base = Ok inv ∧ Render b (options_of inv fetcher) = Ok job.
Proof.
  intros Hv Hu Hn Hns Hf. destruct (Compose_admitted b base Hv Hu) as [inv Hc].
  exists inv. pose proof (Compose_Ok_inv _ _ _ Hc) as (Hi & Hl & Hctx & Hnix).
  unfold Render, options_of. simpl. rewrite !bool_decide_false by done. simpl.
  rewrite (bool_decide_false (inv_ImageRef inv = "")) by (rewrite Hi; done). rewrite orb_false_r.
  rewrite (bool_decide_false (fetcher = "")) by done. rewrite Hl, Hctx.
  destruct (needs_local b) eqn:Hneed; simpl.
  - rewrite andb_false_r, andb_false_r. eauto.
  - rewrite decide_False by (by apply git_url_admitted).
    rewrite bool_decide_false by (unfold context_url; apply app_ne_empty). simpl.
    destruct (inv_Nixpacks inv); [by specialize (Hnix eq_refl)|]. simpl. eauto.
Qed.

(** C5. Every rendered Job is confined, whatever the options: it runs in the build
    namespace under the powerless service account with no token mounted, once,
    with a deadline; every container is non-root with dropped capabilities,
    bounded memory and CPU, no secret in its environment and only the Job's own
    volumes; every init container has the restricted security context; and the
    only volumes are scratch directories and the two public ConfigMaps. *)
Theorem Render_confined b opts job :
  Render b opts = Ok job →
  let pod := job_Pod job in
  ObjectKey (job_Meta job) = {| key_Namespace := "orkano-builds"; key_Name := JobName (meta_Name (build_Meta b)) |} ∧
  job_TemplateLabels job !! podLabelKey = Some podLabelValue ∧
  meta_Annotations (job_Meta job) !! AnnotationBuildName = Some (meta_Name (build_Meta b)) ∧
  meta_Annotations (job_Meta job) !! AnnotationBuildNamespace = Some (meta_Namespace (build_Meta b)) ∧
  job_BackoffLimit job = Some 0%Z ∧
  job_ActiveDeadlineSeconds job = Some (if decide (build_TimeoutSeconds (build_Spec b) = 0)%Z
    then 900%Z else build_TimeoutSeconds (build_Spec b)) ∧
  pod_RestartPolicy pod = "Never" ∧ pod_ServiceAccountName pod = "orkano-build" ∧
  pod_AutomountServiceAccountToken pod = Some false ∧ pod_HostNetwork pod = false ∧
  (∀ c, c ∈ pod_InitContainers pod → confined c ∧ restricted c) ∧
  (∃ c, pod_Containers pod = [c] ∧ confined c) ∧
  (∀ v, v ∈ pod_Volumes pod → match vol_Source v with
    | EmptyDir _ => True | ConfigMapVolume name => name ∈ [CAConfigMapName; configConfigMapName] end).
Proof.
  unfold Render. cbv zeta. repeat (destruct (_ || _); [done|]). destruct (_ && _); [done|].
  destruct (match opt_LocalSource opts with Some _ => _ | None => _ end); [done|]. intros [= <-].
  cbn [job_Pod job_Meta job_TemplateLabels job_BackoffLimit job_ActiveDeadlineSeconds
       pod_InitContainers pod_Containers pod_Volumes pod_RestartPolicy pod_ServiceAccountName
       pod_AutomountServiceAccountToken pod_HostNetwork].
  split_and!; try done.
  - intros c. rewrite elem_of_app. intros [Hc|Hc]; [by eapply source_inits_confined|].
    destruct (negb _) in Hc; [|by apply not_elem_of_nil in Hc].
    apply list_elem_of_singleton in Hc as ->. apply confined_init; set_solver.
  - eexists. split; [done|]. split_and!; [|by eexists..| |].
    + eexists. split_and!; done.
    + simpl. set_solver.
    + simpl. destruct (has (opt_LocalSource opts)), (negb _); simpl; set_solver.
  - intros v. unfold base_volumes. destruct (has _), (negb _); simpl; intros Hv;
      repeat (apply elem_of_cons in Hv as [->|Hv]; [simpl; set_solver|]); by apply not_elem_of_nil in Hv.
Qed.

(** The arguments of a rendered build end with the push target. *)
Lemma Render_args b opts job :
  Render b opts = Ok job →
  ∃ c, pod_Containers (job_Pod job) = [c] ∧
    c_Args c = ["build"; "--frontend=dockerfile.v0"] ++ source_args opts ++ dockerfile_args opts ++
      ["--output=type=image,name=" +:+ opt_ImageRef opts +:+ ",push=true"].
Proof.
  unfold Render. cbv zeta. repeat (destruct (_ || _); [done|]). destruct (_ && _); [done|].
  destruct (match opt_LocalSource opts with Some _ => _ | None => _ end); [done|]. intros [= <-].
  eexists. split; [done|]. done.
Qed.

Lemma args_no_output opts a :
  a ∈ source_args opts ++ dockerfile_args opts → HasPrefix a "--output" = false.
Proof.
  unfold source_args, dockerfile_args. repeat case_match; simpl; intros Hin;
    repeat (apply elem_of_cons in Hin as [->|Hin]; [done|]); by apply not_elem_of_nil in Hin.
Qed.

Lemma comma_not_in_ref b :
  valid_BuildSpec (build_Spec b) = true → ","%char ∉ bytes (image_ref b).
Proof.
  intros (Ha & _ & Hc & _)%valid_BuildSpec_inv. unfold image_ref. rewrite !bytes_app, !elem_of_app.
  intros [Hin|[Hin|[Hin|[Hin|Hin]]]]; revert Hin;
    [|..|apply not_in_tag; [done|vm_compute; reflexivity|done]].
  - apply not_in_literal. done.
  - apply not_in_literal. done.
  - apply (not_in_alphabet dnsSubdomainPattern); [done|vm_compute; reflexivity].
  - apply not_in_literal. done.
Qed.

(** The push target cannot be redirected through a Build: the output option
    of the rendered command is the only one, comes last, and is exactly the three
    fields type, name and push, the name being the in-cluster registry, the App
    and the Build's own tag. *)
Theorem rendered_push_target b base fetcher inv job :
  valid_BuildSpec (build_Spec b) = true →
  Compose (Some b) base = Ok inv → Render b (options_of inv fetcher) = Ok job →
  ∃ c args output, pod_Containers (job_Pod job) = [c] ∧ c_Args c = args ++ [output] ∧
    (∀ a, a ∈ args → HasPrefix a "--output" = false) ∧
    Split output ","%char = ["--output=type=image";
      "name=" +:+ RegistryHost +:+ "/" +:+ build_AppName (build_Spec b) +:+ ":" +:+ buildImageTag b;
      "push=true"].
Proof.
  intros Hv HC HR. apply Compose_Ok_inv in HC as (Hi & _).
  destruct (Render_args _ _ _ HR) as (c & Hc & Ha). set (opts := options_of inv fetcher) in *.
  exists c, (["build"; "--frontend=dockerfile.v0"] ++ source_args opts ++ dockerfile_args opts),
    ("--output=type=image,name=" +:+ opt_ImageRef opts +:+ ",push=true").
  split_and!; [done|by rewrite Ha, <- !app_assoc| |].
  - intros a. simpl. rewrite !elem_of_cons. intros [->|[->|Hin]]; [done..|by eapply args_no_output].
  - simpl opt_ImageRef. rewrite Hi. pose proof (comma_not_in_ref b Hv) as Hno. fold (image_ref b).
    change ("--output=type=image,name=" +:+ image_ref b +:+ ",push=true") with
      ("--output=type=image" +:+ String "," ("name=" +:+ image_ref b +:+ String "," "push=true")).
    rewrite Split_field by (apply not_in_literal; done).
    rewrite <- (str_app_assoc "name="), Split_field, Split_last by
      (rewrite ?bytes_app, ?elem_of_app; try (intros [Hin|?]; [|done]; revert Hin);
       apply not_in_literal; done).
    done.
Qed.

(** The directory of an admitted Build stays inside the context. *)
Lemma sub_path_admitted b c :
  valid_BuildSpec (build_Spec b) = true → path_char c = false → c ∉ bytes (sub_path b).
Proof.
  intros (_ & _ & _ & Hsrc & _)%valid_BuildSpec_inv Hc Hin%elem_of_Trim.
  destruct (valid_Source_SubPath _ Hsrc) as [Hs|[Hm _]%valid_path_inv].
  - rewrite Hs in Hin. by apply not_elem_of_nil in Hin.
  - revert Hin. apply (not_in_alphabet pathPattern); [done|]. simpl. by rewrite Hc.
Qed.

Lemma sub_path_no_dotdot b :
  valid_BuildSpec (build_Spec b) = true → Contains (sub_path b) ".." = false.
Proof.
  intros (_ & _ & _ & Hsrc & _)%valid_BuildSpec_inv. unfold sub_path.
  destruct (Trim_part (source_SubPath (build_Source (build_Spec b))) "/") as (a & c & Heq).
  apply (Contains_part _ _ _ _ _ Heq).
  destruct (valid_Source_SubPath _ Hsrc) as [->|(_ & _ & ?)%valid_path_inv]; done.
Qed.

Lemma git_url_no_hash b base :
  valid_BuildSpec (build_Spec b) = true → "#"%char ∉ bytes base → "#"%char ∉ bytes (git_url b base).
Proof.
  intros (_ & _ & _ & Hsrc & _)%valid_BuildSpec_inv Hbase. unfold git_url, or_default.
  destruct (valid_Source_one _ Hsrc) as [(g & -> & -> & _ & Hg)|[(g & -> & -> & _ & Hg)|(u & -> & -> & _)]].
  - unfold valid_GitHubSource in Hg. rewrite !andb_true_iff in Hg. destruct Hg as [[Hg _] _].
    rewrite !bytes_app, !elem_of_app. intros [Hin|[Hin|Hin]].
    + case_decide; [revert Hin; by apply not_in_literal|done].
    + revert Hin. apply (not_in_alphabet githubRepoPattern); [done|vm_compute; reflexivity].
    + revert Hin. by apply not_in_literal.
  - unfold valid_GitSource in Hg. rewrite !andb_true_iff in Hg. destruct Hg as [[[_ _] Hg] _].
    apply (not_in_alphabet gitURLPattern); [done|vm_compute; reflexivity].
  - apply not_elem_of_nil.
Qed.

(** What is built is what is recorded: for an admitted Build the composed
    source is either the Git URL with a fragment that is exactly the recorded
    commit and optionally one directory without dot-dot, or a local source for
    that commit (checked out from Git, or the archive whose digest is the commit);
    never both, whatever the App's fields contain. *)
Theorem composed_source_pinned b base inv :
  valid_BuildSpec (build_Spec b) = true → "#"%char ∉ bytes base → Compose (Some b) base = Ok inv →
  let commit := build_Commit (build_Spec b) in
  (inv_LocalSource inv = None ∧
     ∃ fragment, Split (inv_ContextURL inv) "#"%char = [git_url b base; fragment] ∧
       (Split fragment ":"%char = [commit] ∨
        Split fragment ":"%char = [commit; sub_path b] ∧ Contains (sub_path b) ".." = false)) ∨
  (inv_ContextURL inv = "" ∧ ∃ local, inv_LocalSource inv = Some local ∧ local_Commit local = commit ∧
     (local_ArchiveDigest local = "" ∧ local_GitURL local = git_url b base ∨
      TrimPrefix (local_ArchiveDigest local) "sha256:" = commit)).
Proof.
  intros Hv Hb HC commit. pose proof (Compose_Ok_inv _ _ _ HC) as (_ & Hl & Hctx & _).
  pose proof (commit_hex commit (proj1 (proj2 (proj2 (valid_BuildSpec_inv _ Hv))))) as [_ Hhex].
  destruct (needs_local b) eqn:Hn.
  - right. split; [done|]. eexists. split; [exact Hl|]. split; [done|]. unfold local_source. simpl.
    destruct (source_Upload (build_Source (build_Spec b))) as [u|] eqn:Hu; [right|by left].
    simpl in HC. destruct (compose_source b base) eqn:Hs; [|done].
    apply compose_source_inv in Hs as (_ & _ & _ & Hm). by apply Hm.
  - left. split; [done|]. rewrite decide_False in Hctx by (by apply git_url_admitted).
    rewrite Hctx. unfold context_url. fold commit.
    exists (commit +:+ (if decide (sub_path b = "") then "" else ":" +:+ sub_path b)).
    change (git_url b base +:+ "#" +:+ ?t) with (git_url b base +:+ String "#" t).
    rewrite Split_field by (by apply git_url_no_hash). split.
    + rewrite Split_last; [done|]. rewrite bytes_app, elem_of_app. intros [Hin|Hin].
      * by apply (hex_not_in "#" _ eq_refl Hhex).
      * case_decide; [by apply not_elem_of_nil in Hin|]. apply elem_of_cons in Hin as [?|Hin]; [done|].
        by apply (sub_path_admitted b "#" Hv eq_refl).
    + case_decide.
      * left. rewrite str_app_nil. apply Split_last. by apply (hex_not_in ":" _ eq_refl Hhex).
      * right. split; [|by apply sub_path_no_dotdot]. change (":" +:+ ?t) with (String ":" t).
        rewrite Split_field by (by apply (hex_not_in ":" _ eq_refl Hhex)). f_equal.
        apply Split_last. by apply (sub_path_admitted b ":" Hv eq_refl).
Qed.

(** The generated Dockerfile of an admitted Static build is exactly two
    instructions, FROM the pinned server image and one COPY of the directory,
    whose path has no blank, no line break and no dot-dot. *)
Theorem staticDockerfile_two_lines dir :
  valid_path dir = true →
  let path := TrimRight dir "/" in
  Split (staticDockerfile dir) newline =
    ["FROM " +:+ StaticServerImage; "COPY " +:+ path +:+ "/ /usr/share/nginx/html/"; ""] ∧
  (newline ∉ bytes path) ∧ (" "%char ∉ bytes path) ∧ Contains path ".." = false.
Proof.
  intros (Hm & _ & Hd)%valid_path_inv path.
  destruct (TrimRight_spec dir "/") as (t & Heq & _). fold path in Heq.
  assert (Hno : ∀ c, alphabet pathPattern c = false → c ∉ bytes path).
  { intros c Hc Hin. apply (not_in_alphabet _ _ _ Hm Hc). rewrite Heq. apply elem_of_app. by left. }
  assert (Hn : newline ∉ bytes path) by (apply Hno; vm_compute; reflexivity).
  split_and!; [|done|apply Hno; vm_compute; reflexivity|by apply (Contains_part dir path [] t)].
  unfold staticDockerfile, nl. fold path.
  change ("FROM " +:+ StaticServerImage +:+ String newline "" +:+ ?t) with
    (("FROM " +:+ StaticServerImage) +:+ String newline t).
  rewrite Split_field by (by apply not_in_literal). f_equal.
  rewrite <- !str_app_assoc.
  change (String newline "") with (String newline ("" +:+ "")).
  rewrite Split_field; [rewrite Split_last by (apply not_elem_of_nil); by rewrite !str_app_assoc|].
  rewrite !bytes_app, !elem_of_app. intros [[[Hin|Hin]|Hin]|Hin]; [|done|..]; revert Hin;
    by apply not_in_literal.
Qed.

(** Job names fit a label: at most 63 bytes, a legal object name whenever the
    Build's name is one, and the Build's own name when that fits. *)
Theorem JobName_valid name :
  MatchString dnsSubdomainPattern name = true →
  len (JobName name) ≤ 63 ∧ MatchString dnsSubdomainPattern (JobName name) = true ∧
  (len name ≤ 63 → JobName name = name).
Proof.
  intros Hn. unfold JobName. destruct (len name <=? 63) eqn:Hl.
  { apply Nat.leb_le in Hl. done. }
  apply Nat.leb_gt in Hl. set (hash := EncodeToString _).
  assert (Hh : len hash = 8).
  { unfold hash. by rewrite len_EncodeToString, length_take, length_Sum256. }
  split_and!; [| |lia].
  - rewrite !len_app, Hh. change (len "-") with 1.
    pose proof (len_TrimRight (slice_to 54 name) "-."). rewrite len_slice_to in *. lia.
  - apply dns_match. rewrite !bytes_app. apply dns_extend.
    + intros Hz. rewrite len_bytes, Hz in Hh. done.
    + eapply Forall_impl; [apply EncodeToString_hex|]. apply hex_dns.
    + apply dns_cut; [lia|done].
Qed.

(** Concurrent Builds do not share a tag: the tag is 77 bytes, and two admitted
    Builds with names have the same tag only if the SHA-256 sums of their
    namespace and name are equal. *)
Theorem buildImageTag_identity b1 b2 :
  MatchString commitPattern (build_Commit (build_Spec b1)) = true →
  MatchString commitPattern (build_Commit (build_Spec b2)) = true →
  meta_Name (build_Meta b1) ≠ "" → meta_Name (build_Meta b2) ≠ "" →
  len (buildImageTag b1) = 77 ∧
  (buildImageTag b1 = buildImageTag b2 →
    Sum256 (bytes (meta_Namespace (build_Meta b1) +:+ "/" +:+ meta_Name (build_Meta b1))) =
    Sum256 (bytes (meta_Namespace (build_Meta b2) +:+ "/" +:+ meta_Name (build_Meta b2)))).
Proof.
  intros (r1 & -> & Hl1 & _)%revision_hex (r2 & -> & Hl2 & _)%revision_hex H1 H2.
  rewrite !decide_False by done. generalize (meta_Namespace (build_Meta b1) +:+ "/" +:+ meta_Name (build_Meta b1)),
    (meta_Namespace (build_Meta b2) +:+ "/" +:+ meta_Name (build_Meta b2)). intros id1 id2. split.
  - rewrite !len_app, Hl1, len_EncodeToString, length_Sum256. done.
  - intros Heq. apply (f_equal bytes) in Heq. rewrite !bytes_app in Heq. rewrite len_bytes in Hl1, Hl2.
    apply app_inj_1 in Heq as [_ Heq]; [|lia]. apply app_inj_1 in Heq as [_ Heq]; [|done].
    apply EncodeToString_inj; [by rewrite !length_Sum256|]. by apply bytes_inj.
Qed.

(** ** Worked examples *)
Module BuildJobExample.
Definition commit : string := "0123456789abcdef0123456789abcdef01234567".
Definition build (name : string) : Build :=
  {| build_Meta := new_meta "orkano-apps" name ∅ ∅;
     build_Spec :=
       {| build_AppName := "shop"; build_Commit := commit;
          build_Source := {| source_GitHub := Some {| github_Repo := "acme/shop"; github_Ref := "main" |};
                             source_Git := None; source_Upload := None; source_SubPath := "/web/" |};
          build_Strategy := {| strategy_Strategy := StrategyStatic; strategy_Dockerfile := None;
                               strategy_Static := Some {| static_Dir := "dist/" |}; strategy_Nixpacks := None |};
          build_TimeoutSeconds := 600 |};
     build_Status := no_build_status |}.
Definition inv : Invocation :=
  match Compose (Some (build "shop-1")) "" with Ok inv => inv | Err _ =>
    {| inv_ContextURL := ""; inv_LocalSource := None; inv_DockerfilePath := ""; inv_GeneratedDockerfile := "";
       inv_ImageRef := ""; inv_Nixpacks := false; inv_NixpacksConfigPath := "" |} end.
Definition job : Job :=
  match Render (build "shop-1") (options_of inv "orkano/operator") with Ok job => job | Err _ =>
    {| job_Meta := new_meta "" "" ∅ ∅; job_BackoffLimit := None; job_ActiveDeadlineSeconds := None;
       job_TemplateLabels := ∅; job_Pod := {| pod_RestartPolicy := ""; pod_ServiceAccountName := "";
         pod_AutomountServiceAccountToken := None; pod_InitContainers := []; pod_Containers := [];
         pod_Volumes := []; pod_HostNetwork := false; pod_SecurityContext := None |}; job_Status := no_job_status |} end.
Lemma composed : Compose (Some (build "shop-1")) "" = Ok inv.
Proof. vm_compute. reflexivity. Qed.
Lemma rendered : Render (build "shop-1") (options_of inv "orkano/operator") = Ok job.
Proof. vm_compute. reflexivity. Qed.
Lemma admitted : valid_BuildSpec (build_Spec (build "shop-1")) = true.
Proof. vm_compute. reflexivity. Qed.
End BuildJobExample.

Lemma admitted_builds_render_witness : ∃ inv job,
  Compose (Some (BuildJobExample.build "shop-1")) "" = Ok inv ∧
  Render (BuildJobExample.build "shop-1") (options_of inv "orkano/operator") = Ok job.
Proof.
  apply (admitted_builds_render (BuildJobExample.build "shop-1") "" "orkano/operator");
    [exact BuildJobExample.admitted|intros u; discriminate|discriminate..].
Defined.

Lemma Render_confined_witness :
  pod_AutomountServiceAccountToken (job_Pod BuildJobExample.job) = Some false.
Proof.
  destruct (Render_confined _ _ _ BuildJobExample.rendered)
    as (_ & _ & _ & _ & _ & _ & _ & _ & Ht & _). exact Ht.
Defined.

Lemma rendered_push_target_witness : ∃ c args output,
  pod_Containers (job_Pod BuildJobExample.job) = [c] ∧ c_Args c = args ++ [output] ∧
  length (Split output ","%char) = 3.
Proof.
  destruct (rendered_push_target _ _ _ _ _ BuildJobExample.admitted BuildJobExample.composed
    BuildJobExample.rendered) as (c & args & output & Hc & Ha & _ & Hs).
  exists c, args, output. by rewrite Hs.
Defined.

Lemma composed_source_pinned_witness :
  inv_LocalSource BuildJobExample.inv = None ∨ inv_ContextURL BuildJobExample.inv = "".
Proof.
  destruct (composed_source_pinned _ "" _ BuildJobExample.admitted (not_elem_of_nil _)
    BuildJobExample.composed) as [[H _]|[H _]]; [by left|by right].
Defined.

Lemma staticDockerfile_two_lines_witness : length (Split (staticDockerfile "dist/") newline) = 3.
Proof.
  destruct (staticDockerfile_two_lines "dist/" ltac:(vm_compute; reflexivity)) as [Hs _]. by rewrite Hs.
Defined.

Lemma JobName_valid_witness : len (JobName "shop-0123456789ab") ≤ 63.
Proof. apply JobName_valid. vm_compute. reflexivity. Defined.

Lemma buildImageTag_identity_witness : len (buildImageTag (BuildJobExample.build "shop-1")) = 77.
Proof.
  apply (buildImageTag_identity (BuildJobExample.build "shop-1") (BuildJobExample.build "shop-2"));
    [vm_compute; reflexivity..|discriminate|discriminate].
Defined.
