(* ===== verification/RegistryDigest.v ===== *)
(** * The registry digest resolver

    [operator/internal/registry/resolver.go]: turning the tag a build pushed into a
    digest by one manifest HEAD to the registry, over TLS rooted in the CA bundle the
    install publishes.  The API server, PEM parsing and the registry answer anything. *)
From S2P Require Import Prelude Regex GoStrings Effects Sha256 Kube Api Names Features Dispatcher BuildJob.
From Stdlib Require Import Ascii.

Definition caKey : string := "ca.crt".
Definition acceptedManifestTypes : string :=
  "application/vnd.oci.image.manifest.v1+json, " +:+ "application/vnd.oci.image.index.v1+json, " +:+
  "application/vnd.docker.distribution.manifest.v2+json, " +:+ "application/vnd.docker.distribution.manifest.list.v2+json".

Inductive DigestError : Set :=
| NoHostSplit (ref : string)
| AlreadyPinned (ref : string)
| NoTag (ref : string)
| FetchingCA (err : ApiError)
| NoCAKey
| NoCertificate
| BuildingHead (err : string)
| HeadFailed (err : string)
| HeadStatus (status : string)
| NoUsableDigest (header : string).

Inductive DigestE : Set → Type :=
(** the CA bundle's value under [caKey] *)
| GetCAConfigMap (namespace name : string) : DigestE (result ApiError (option string))
(** [AppendCertsFromPEM] *)
| ParseCertificates (pem : string) : DigestE bool
| NewHeadRequest (url : string) : DigestE (option string)
(** the status code, its text and the digest header *)
| HeadManifest (url accept : string) : DigestE (result string (Z * string * string)).

Definition parseRef (imageRef : string) : result DigestError (string * string * string) :=
  match Cut imageRef "/"%char with
  | None => Err (NoHostSplit imageRef)
  | Some (host, rest) =>
      if bool_decide (host = "") || bool_decide (rest = "") then Err (NoHostSplit imageRef)
      else if Contains rest "@" then Err (AlreadyPinned imageRef)
      else
        match LastIndexByte (bytes rest) ":"%char with
        | None => Err (NoTag imageRef)
        | Some i =>
            if (i =? 0) || (i =? len rest - 1) then Err (NoTag imageRef)
            else
              let repo := of_bytes (take i (bytes rest)) in
              let tag := of_bytes (drop (S i) (bytes rest)) in
              if Contains tag "/" then Err (NoTag imageRef) else Ok (host, repo, tag)
        end
  end.

Definition caPool : prog DigestE (option DigestError) :=
  let! cm := trigger (GetCAConfigMap Namespace CAConfigMapName) in
  match cm with
  | Err e => Ret (Some (FetchingCA e))
  | Ok pem =>
      let pem := default "" pem in
      if decide (pem = "") then Ret (Some NoCAKey)
      else
        let! ok := trigger (ParseCertificates pem) in
        Ret (if ok : bool then None else Some NoCertificate)
  end.

Definition manifest_url (host repo tag : string) : string := "https://" +:+ host +:+ "/v2/" +:+ repo +:+ "/manifests/" +:+ tag.

Definition ResolveDigest (imageRef : string) : prog DigestE (result DigestError string) :=
  match parseRef imageRef with
  | Err e => Ret (Err e)
  | Ok (host, repo, tag) =>
      let! pool := caPool in
      match pool with
      | Some e => Ret (Err e)
      | None =>
          let url := manifest_url host repo tag in
          let! req := trigger (NewHeadRequest url) in
          match req with
          | Some e => Ret (Err (BuildingHead e))
          | None =>
              let! resp := trigger (HeadManifest url acceptedManifestTypes) in
              Ret (match resp with
                   | Err e => Err (HeadFailed e)
                   | Ok (code, status, digest) =>
                       if negb (code =? 200)%Z then Err (HeadStatus status)
                       else if negb (MatchString digestPattern digest) then Err (NoUsableDigest digest)
                       else Ok (host +:+ "/" +:+ repo +:+ "@" +:+ digest)
                   end)
          end
      end
  end.

(** ** Splitting a reference *)
Lemma Contains_absent s c : (c ∉ bytes s) → Contains s (String c "") = false.
Proof.
  intros Hc. apply not_true_iff_false. intros (a & d & Heq)%Contains_spec. apply Hc. rewrite Heq.
  rewrite !elem_of_app. right. left. by left.
Qed.

Lemma parseRef_print host repo tag :
  host ≠ "" → repo ≠ "" → tag ≠ "" → ("/"%char ∉ bytes host) → ("@"%char ∉ bytes repo) →
  ("@"%char ∉ bytes tag) → (":"%char ∉ bytes tag) → ("/"%char ∉ bytes tag) →
  parseRef (host +:+ "/" +:+ repo +:+ ":" +:+ tag) = Ok (host, repo, tag).
Proof.
  intros Hh Hr Ht Hhs Hra Hta Htc Hts. unfold parseRef, Cut.
  assert (Hb : bytes (host +:+ "/" +:+ repo +:+ ":" +:+ tag) = bytes host ++ "/"%char :: bytes (repo +:+ ":" +:+ tag)).
  { by rewrite bytes_app. }
  rewrite Hb, cut_byte_first by done. cbn [fmap option_fmap option_map fst snd]. rewrite !of_bytes_bytes.
  rewrite (bool_decide_false (host = "")) by done. rewrite bool_decide_false by (by destruct repo). cbn [orb].
  assert (Hb2 : bytes (repo +:+ ":" +:+ tag) = bytes repo ++ ":"%char :: bytes tag) by (by rewrite bytes_app).
  rewrite Contains_absent by (rewrite Hb2, elem_of_app, elem_of_cons; intros [?|[?|?]]; done).
  rewrite Hb2, LastIndexByte_last by done.
  assert (Hlr : 0 < length (bytes repo)) by (rewrite <- len_bytes; destruct repo; [done|cbn; lia]).
  assert (Hlt : 0 < length (bytes tag)) by (rewrite <- len_bytes; destruct tag; [done|cbn; lia]).
  rewrite (proj2 (Nat.eqb_neq _ 0)) by lia. rewrite len_bytes, Hb2, length_app. cbn [length orb].
  rewrite (proj2 (Nat.eqb_neq _ _)) by lia. cbn [orb]. rewrite take_app_length.
  replace (drop (S (length (bytes repo))) (bytes repo ++ ":"%char :: bytes tag)) with (bytes tag).
  2:{ by rewrite <- Nat.add_1_r, drop_app_add. }
  rewrite !of_bytes_bytes, Contains_absent by done. done.
Qed.

(** ** Properties *)

(** The requests made. *)
Definition headed (c : call DigestE) : option string := match c with Call (HeadManifest url _) _ => Some url | _ => None end.

(** The digest is of the image this very build pushed: for every build the API admits,
    the reference composed for it splits back into the in-cluster registry, the App and
    the build's tag; resolving it asks that registry, by HTTPS and at most once, for the
    manifest of exactly that tag, and any reference it returns names the same repository
    at a SHA-256 digest. *)
Theorem digest_of_own_image b tr x :
  valid_BuildSpec (build_Spec b) = true → exec (ResolveDigest (image_ref b)) tr x →
  parseRef (image_ref b) = Ok (RegistryHost, build_AppName (build_Spec b), buildImageTag b) ∧
  (omap headed tr = [] ∨ omap headed tr = [manifest_url RegistryHost (build_AppName (build_Spec b)) (buildImageTag b)]) ∧
  (∀ ref, x = Ok ref → omap headed tr ≠ [] ∧ ∃ digest, MatchString digestPattern digest = true ∧
     ref = RegistryHost +:+ "/" +:+ build_AppName (build_Spec b) +:+ "@" +:+ digest).
Proof.
  intros Hv. assert (Hp : parseRef (image_ref b) = Ok (RegistryHost, build_AppName (build_Spec b), buildImageTag b)).
  { pose proof Hv as (Ha & _ & Hc & _)%valid_BuildSpec_inv. apply parseRef_print; [done| | |by apply not_in_literal| | | |].
    - intros Hn. by rewrite Hn in Ha.
    - unfold buildImageTag. apply app_ne_empty.
    - apply (not_in_alphabet dnsSubdomainPattern); [done|vm_compute; reflexivity].
    - apply not_in_tag; [done|vm_compute; reflexivity|done].
    - apply not_in_tag; [done|vm_compute; reflexivity|done].
    - apply not_in_tag; [done|vm_compute; reflexivity|done]. }
  intros Hex. split; [done|]. unfold ResolveDigest in Hex. rewrite Hp in Hex.
  apply exec_bind in Hex as (tr1 & tr2 & pool & -> & Hpool & Hk).
  assert (Hq : omap headed tr1 = []).
  { unfold caPool in Hpool. destruct Hpool as (cm & tr3 & -> & Hc). cbn [prog_bind] in Hc.
    destruct cm as [pem|e]; [|by destruct Hc as [-> _]]. cbv zeta in Hc. case_decide; [by destruct Hc as [-> _]|].
    by destruct Hc as (ok & tr4 & -> & -> & _). }
  rewrite omap_app, Hq, app_nil_l. destruct pool as [e|]; [destruct Hk as [-> ->]; split; [by left|done]|].
  cbv zeta in Hk. destruct Hk as (req & tr3 & -> & Hk). cbn [prog_bind] in Hk.
  destruct req as [e|]; [destruct Hk as [-> ->]; split; [by left|done]|].
  destruct Hk as (resp & tr4 & -> & -> & ->). split; [by right|]. intros ref Hr. split; [done|].
  destruct resp as [[[code status] digest]|e]; [|done]. destruct (code =? 200)%Z; [|done]. cbn [negb] in Hr.
  destruct (MatchString digestPattern digest) eqn:Hm; [|done]. injection Hr as <-. by exists digest.
Qed.

(** ** A worked example *)
Module RegistryDigestExample.
Definition pinned : string := "sha256:" +:+ EncodeToString (Sum256 (bytes "manifest")).
Definition world (X : Set) (e : DigestE X) (st : unit) : X * unit :=
  (match e in DigestE X return X with
   | GetCAConfigMap _ _ => Ok (Some "-----BEGIN CERTIFICATE-----")
   | ParseCertificates _ => true
   | NewHeadRequest _ => None
   | HeadManifest _ _ => Ok (200%Z, "200 OK", pinned)
   end, st).
Definition resolving := run world (ResolveDigest (image_ref (BuildJobExample.build "shop-1"))) tt.
Lemma digest_resolving_exec : exec (ResolveDigest (image_ref (BuildJobExample.build "shop-1"))) resolving.1.2 resolving.1.1.
Proof. apply run_exec. Qed.
Example already_pinned : parseRef "registry/app@sha256:00" = Err (AlreadyPinned "registry/app@sha256:00").
Proof. vm_compute. reflexivity. Qed.
Example port_is_no_tag : parseRef "registry/app" = Err (NoTag "registry/app").
Proof. vm_compute. reflexivity. Qed.

Lemma digest_of_own_image_witness : omap headed resolving.1.2 ≠ [].
Proof.
  destruct (digest_of_own_image (BuildJobExample.build "shop-1") _ _ ltac:(vm_compute; reflexivity) digest_resolving_exec)
    as (_ & _ & Hok).
  destruct (resolving.1.1) as [ref|e] eqn:Hr; [|vm_compute in Hr; discriminate Hr].
  exact (proj1 (Hok ref eq_refl)).
Defined.
End RegistryDigestExample.
