(* ===== verification/BuildController.v ===== *)
(** * The Build controller

    Models [operator/internal/controller/build_controller.go]: the reconciler
    that runs one Build as one Job and mirrors the Job's life into the Build's
    status.  The cached client, the uncached reader ([APIReader]), the writes and
    the registry's digest resolver are calls with arbitrary replies.  The Go code
    mutates the Build it read; here each step returns the Build as it then is.
    The result's error is the list of the errors joined, empty for nil. *)
From S2P Require Import Prelude Regex GoStrings Effects Sha256 Kube Api Names Features BuildJob.
From Stdlib Require Import Ascii.

(** ** Data *)
Definition buildFinalizer : string := "orkano.io/build".
Definition jobNameLabel : string := "batch.kubernetes.io/job-name".
Definition reasonPending : string := "Pending".
Definition reasonRunning : string := "Running".
Definition reasonSucceeded : string := "Succeeded".
Definition reasonBuildFailed : string := "BuildFailed".
Definition reasonOOMKilled : string := "OOMKilled".
Definition reasonDeadlineExceeded : string := "DeadlineExceeded".
Definition reasonJobConflict : string := "JobConflict".
Definition reasonJobMissing : string := "JobMissing".
Definition reasonResolvingDigest : string := "ResolvingDigest".
Definition reasonFeatureDisabled : string := "FeatureDisabled".
Definition reasonInvalidBuild : string := "InvalidBuild".

Record BuildReconciler : Type := {
  r_hasAPIReader : bool;
  r_GitBaseURL : string;
  r_SourceFetcherImage : string;
  r_Features : FeatureSet;
}.

Inductive BuildE : Set → Type :=
| GetBuild (key : NamespacedName) : BuildE (result ApiError Build)
| GetJob (key : NamespacedName) : BuildE (result ApiError Job)
| LiveGetJob (key : NamespacedName) : BuildE (result ApiError Job)
| CreateJob (job : Job) : BuildE (result ApiError unit)
(** with background propagation *)
| DeleteJob (job : Job) : BuildE (result ApiError unit)
| LiveListPods (namespace jobName : string) : BuildE (result ApiError (list Pod))
(** the stored object comes back *)
| UpdateBuild (b : Build) : BuildE (result ApiError Build)
| UpdateBuildStatus (b : Build) : BuildE (result ApiError unit)
| ResolveDigest (imageRef : string) : BuildE (result string string).

Inductive BuildError : Set :=
| GettingBuild (err : ApiError)
| CheckingStarted (key : NamespacedName) (err : ApiError)
| AddingFinalizer (err : ApiError)
| Composing (err : ComposeError)
| Rendering (err : RenderError)
| ConfirmingGone (name : string) (err : ApiError)
| JobVanished (key : NamespacedName)
| FetchingExisting (name : string) (err : ApiError)
| CreatingJob (err : ApiError)
| FetchingJob (name : string) (err : ApiError)
| NotOwned (job build : NamespacedName)
| ListingPods (name : string) (err : ApiError)
| ResolvingDigest (ref err : string)
| FetchingForCleanup (name : string) (err : ApiError)
| DeletingJob (name : string) (err : ApiError)
| RemovingFinalizer (err : ApiError)
| UpdatingStatus (err : ApiError).

Section reconciler.
Context `{UnicodeTables, KubeLib} (r : BuildReconciler).

(** ** Status *)
Definition with_status (b : Build) (s : BuildStatus) : Build :=
  {| build_Meta := build_Meta b; build_Spec := build_Spec b; build_Status := s |}.

Definition set_phase (phase : string) (b : Build) : Build :=
  let s := build_Status b in
  with_status b {| build_ObservedGeneration := build_ObservedGeneration s; build_Phase := phase;
    build_Image := build_Image s; build_JobRef := build_JobRef s; build_StartedAt := build_StartedAt s;
    build_CompletedAt := build_CompletedAt s; build_Conditions := build_Conditions s |}.
Definition set_image (image : string) (b : Build) : Build :=
  let s := build_Status b in
  with_status b {| build_ObservedGeneration := build_ObservedGeneration s; build_Phase := build_Phase s;
    build_Image := image; build_JobRef := build_JobRef s; build_StartedAt := build_StartedAt s;
    build_CompletedAt := build_CompletedAt s; build_Conditions := build_Conditions s |}.
Definition set_jobref (ref : JobReference) (b : Build) : Build :=
  let s := build_Status b in
  with_status b {| build_ObservedGeneration := build_ObservedGeneration s; build_Phase := build_Phase s;
    build_Image := build_Image s; build_JobRef := Some ref; build_StartedAt := build_StartedAt s;
    build_CompletedAt := build_CompletedAt s; build_Conditions := build_Conditions s |}.
Definition set_started (t : option Time) (b : Build) : Build :=
  let s := build_Status b in
  with_status b {| build_ObservedGeneration := build_ObservedGeneration s; build_Phase := build_Phase s;
    build_Image := build_Image s; build_JobRef := build_JobRef s; build_StartedAt := t;
    build_CompletedAt := build_CompletedAt s; build_Conditions := build_Conditions s |}.
Definition set_completed_at (t : option Time) (b : Build) : Build :=
  let s := build_Status b in
  with_status b {| build_ObservedGeneration := build_ObservedGeneration s; build_Phase := build_Phase s;
    build_Image := build_Image s; build_JobRef := build_JobRef s; build_StartedAt := build_StartedAt s;
    build_CompletedAt := t; build_Conditions := build_Conditions s |}.
Definition set_observed (b : Build) : Build :=
  let s := build_Status b in
  with_status b {| build_ObservedGeneration := meta_Generation (build_Meta b); build_Phase := build_Phase s;
    build_Image := build_Image s; build_JobRef := build_JobRef s; build_StartedAt := build_StartedAt s;
    build_CompletedAt := build_CompletedAt s; build_Conditions := build_Conditions s |}.

Definition setCompleted (status reason message : string) (b : Build) : Build :=
  let s := build_Status b in
  with_status b {| build_ObservedGeneration := build_ObservedGeneration s; build_Phase := build_Phase s;
    build_Image := build_Image s; build_JobRef := build_JobRef s; build_StartedAt := build_StartedAt s;
    build_CompletedAt := build_CompletedAt s;
    build_Conditions := SetStatusCondition (build_Conditions s)
      {| cond_Type := ConditionCompleted; cond_Status := status;
         cond_ObservedGeneration := meta_Generation (build_Meta b); cond_Reason := reason;
         cond_Message := message; cond_LastTransitionTime := None |} |}.

Definition failBuild (reason message : string) (b : Build) : Build :=
  setCompleted ConditionFalse reason message (set_phase BuildFailed b).

Definition isTerminal (b : Build) : bool :=
  bool_decide (build_Phase (build_Status b) = BuildSucceeded ∨
               build_Phase (build_Status b) = BuildFailed).

Definition ownsJob (b : Build) (job : Job) : bool :=
  bool_decide (default "" (meta_Annotations (job_Meta job) !! AnnotationBuildName) =
               meta_Name (build_Meta b)) &&
  bool_decide (default "" (meta_Annotations (job_Meta job) !! AnnotationBuildNamespace) =
               meta_Namespace (build_Meta b)).

Definition effectiveTimeout (b : Build) : Z :=
  if decide (0 < build_TimeoutSeconds (build_Spec b))%Z then build_TimeoutSeconds (build_Spec b)
  else DefaultTimeoutSeconds.

Definition jobCondition (job : Job) (condType : string) : option JobCondition :=
  snd <$> list_find (λ c, jc_Type c = condType ∧ jc_Status c = ConditionTrue)
            (js_Conditions (job_Status job)).

Definition compose_error_text (e : ComposeError) : string :=
  "compose build invocation: " +:+
  match e with
  | BuildRequired => "Build is required"
  | UploadDigestMismatch => "upload digest does not match Build commit"
  | ExactlyOneSource => "exactly one source is required"
  | DockerfileMismatched => "Dockerfile strategy has mismatched members"
  | StaticMismatched => "Static strategy requires only the static member"
  | NixpacksMismatched => "Nixpacks strategy requires only the nixpacks member"
  | UnsupportedStrategy s => "unsupported strategy " +:+ Quote s
  end.

Definition slash (ns name : string) : string := ns +:+ "/" +:+ name.

(** The key of a Build's Job. *)
Definition job_key (b : Build) : NamespacedName :=
  {| key_Namespace := Namespace; key_Name := JobName (meta_Name (build_Meta b)) |}.
Definition job_ref (key : NamespacedName) : JobReference :=
  {| jobref_Namespace := key_Namespace key; jobref_Name := key_Name key |}.

Definition updateStatus (b : Build) (before : BuildStatus) : prog BuildE (list BuildError) :=
  let b := set_observed b in
  if decide (before = build_Status b) then Ret []
  else
    let! w := trigger (UpdateBuildStatus b) in
    Ret (match w with Ok _ => [] | Err e => [UpdatingStatus e] end).

(** ** The Job of a Build *)

(** Whether a Job of this Build already runs; if so it is recorded. *)
Definition adoptStartedJob (b : Build) : prog BuildE (Build * result BuildError bool) :=
  let key := job_key b in
  let! g := trigger (if r_hasAPIReader r then LiveGetJob key else GetJob key) in
  match g with
  | Err e => if IsNotFound e then Ret (b, Ok false) else Ret (b, Err (CheckingStarted key e))
  | Ok job =>
      if negb (ownsJob b job) then Ret (b, Ok false)
      else Ret (set_jobref (job_ref key) b, Ok true)
  end.

Definition refuseForeignJob (b : Build) (job : Job) : Build * BuildError :=
  let key := ObjectKey (job_Meta job) in
  (failBuild reasonJobConflict ("Job " +:+ slash (key_Namespace key) (key_Name key) +:+
     " already exists and does not belong to this Build; remove it and retry with a new Build") b,
   NotOwned key (ObjectKey (build_Meta b))).

Definition ensureJob (b : Build) : prog BuildE (Build * result BuildError Job) :=
  match Compose (Some b) (r_GitBaseURL r) with
  | Err e => Ret (failBuild reasonInvalidBuild (compose_error_text e) b, Err (Composing e))
  | Ok inv =>
    match Render b (options_of inv (r_SourceFetcherImage r)) with
    | Err e => Ret (b, Err (Rendering e))
    | Ok desired =>
      let key := ObjectKey (job_Meta desired) in
      let tracked (job : Job) :=
        (set_jobref {| jobref_Namespace := Namespace; jobref_Name := key_Name key |} b, Ok job) in
      let refuse (job : Job) := let '(b, e) := refuseForeignJob b job in (b, Err e) in
      let! g := trigger (GetJob key) in
      match g with
      | Ok job => if negb (ownsJob b job) then Ret (refuse job) else Ret (tracked job)
      | Err e =>
        if negb (IsNotFound e) then Ret (b, Err (FetchingJob (key_Name key) e))
        else if has (build_JobRef (build_Status b)) then
          let! c := trigger (LiveGetJob key) in
          match c with
          | Ok job => Ret (b, Ok job)
          | Err e =>
            if negb (IsNotFound e) then Ret (b, Err (ConfirmingGone (key_Name key) e))
            else Ret (failBuild reasonJobMissing ("Job " +:+ slash (key_Namespace key) (key_Name key) +:+
                   " was deleted before the build finished; retry by creating a new Build") b,
                   Err (JobVanished key))
          end
        else
          let! c := trigger (CreateJob desired) in
          match c with
          | Ok _ => Ret (tracked desired)
          | Err e =>
            if negb (IsAlreadyExists e) then Ret (b, Err (CreatingJob e))
            else
              let! l := trigger (LiveGetJob key) in
              match l with
              | Err e => Ret (b, Err (FetchingExisting (key_Name key) e))
              | Ok job => if negb (ownsJob b job) then Ret (refuse job) else Ret (tracked job)
              end
          end
      end
    end
  end.

(** ** Observing the Job *)
Definition terminated (cs : ContainerStatus) : option Terminated :=
  match cs_Terminated cs with Some t => Some t | None => cs_LastTerminated cs end.

(** The first container whose end explains the failure. *)
Fixpoint triage (job : Job) (statuses : list ContainerStatus) : option (string * string) :=
  match statuses with
  | [] => None
  | cs :: statuses =>
      match terminated cs with
      | None => triage job statuses
      | Some term =>
          if decide (term_Reason term = "OOMKilled") then
            Some (reasonOOMKilled, "build was OOM-killed; it needs more than the 4Gi memory limit or a smaller build")
          else if decide (term_ExitCode term ≠ 0)%Z then
            Some (reasonBuildFailed, "build exited with code " +:+ pretty (term_ExitCode term) +:+
              "; see the Job pod logs (" +:+ slash (meta_Namespace (job_Meta job)) (meta_Name (job_Meta job)) +:+ ")")
          else triage job statuses
      end
  end.

Definition failureReason (b : Build) (job : Job) (cond : JobCondition)
    : prog BuildE (result BuildError (string * string)) :=
  if decide (jc_Reason cond = JobReasonDeadlineExceeded) then
    Ret (Ok (reasonDeadlineExceeded, "build exceeded its " +:+ pretty (effectiveTimeout b) +:+ "s timeout"))
  else
    let! l := trigger (LiveListPods (meta_Namespace (job_Meta job)) (meta_Name (job_Meta job))) in
    Ret (match l with
         | Err e => Err (ListingPods (meta_Name (job_Meta job)) e)
         | Ok pods =>
             Ok (match triage job (flat_map (λ pod, pod_InitContainerStatuses pod ++ pod_ContainerStatuses pod) pods) with
                 | Some reason => reason
                 | None => (reasonBuildFailed, if decide (jc_Message cond = "")
                     then "build Job failed; see the Job pod logs" else jc_Message cond)
                 end)
         end).

Definition observeJob (b : Build) (job : Job) : prog BuildE (Build * list BuildError) :=
  let b := match build_StartedAt (build_Status b), js_StartTime (job_Status job) with
           | None, Some t => set_started (Some t) b
           | _, _ => b
           end in
  match jobCondition job JobFailed with
  | Some failedCond =>
      let b := set_completed_at (Some (jc_LastTransitionTime failedCond)) b in
      let! f := failureReason b job failedCond in
      Ret (match f with
           | Err e => (b, [e])
           | Ok (reason, message) => (failBuild reason message b, [])
           end)
  | None =>
    match jobCondition job JobComplete with
    | Some _ =>
        match Compose (Some b) (r_GitBaseURL r) with
        | Err e => Ret (b, [Composing e])
        | Ok inv =>
            let ref := inv_ImageRef inv in
            let! d := trigger (ResolveDigest ref) in
            match d with
            | Err e =>
                Ret (set_phase BuildRunning (setCompleted ConditionFalse reasonResolvingDigest
                       ("image pushed; resolving its digest failed: " +:+ e) b), [ResolvingDigest ref e])
            | Ok pinned =>
                Ret (setCompleted ConditionTrue reasonSucceeded ("pushed " +:+ pinned)
                       (set_completed_at (js_CompletionTime (job_Status job))
                          (set_phase BuildSucceeded (set_image pinned b))), [])
            end
        end
    | None =>
        if decide (0 < js_Active (job_Status job))%Z then
          Ret (setCompleted ConditionFalse reasonRunning "build Job is running" (set_phase BuildRunning b), [])
        else if decide (build_Phase (build_Status b) = "" ∨ build_Phase (build_Status b) = BuildPending) then
          Ret (setCompleted ConditionFalse reasonPending "build Job is waiting to start"
                 (set_phase BuildPending b), [])
        else Ret (b, [])
    end
  end.

(** ** Deletion *)
Definition with_finalizers (b : Build) (fs : list string) : Build :=
  {| build_Meta := set_finalizers (build_Meta b) fs; build_Spec := build_Spec b;
     build_Status := build_Status b |}.

(** Removing the finalizer lets the API server drop the Build. *)
Definition release (b : Build) : prog BuildE (list BuildError) :=
  let! u := trigger (UpdateBuild (with_finalizers b
    (RemoveFinalizer (meta_Finalizers (build_Meta b)) buildFinalizer))) in
  Ret (match u with Ok _ => [] | Err e => [RemovingFinalizer e] end).

Definition finalize (b : Build) : prog BuildE (list BuildError) :=
  if negb (ContainsFinalizer (meta_Finalizers (build_Meta b)) buildFinalizer) then Ret []
  else
    let key := job_key b in
    let! g := trigger (GetJob key) in
    match g with
    | Err e => if IsNotFound e then release b else Ret [FetchingForCleanup (key_Name key) e]
    | Ok job =>
        if ownsJob b job then
          let! x := trigger (DeleteJob job) in
          match x with
          | Err e => if IsNotFound e then release b else Ret [DeletingJob (key_Name key) e]
          | Ok _ => release b
          end
        else release b
    end.

(** ** Reconcile *)

(** From the finalizer on: the Build has passed the gates. *)
Definition run_build (b : Build) (before : BuildStatus) : prog BuildE (list BuildError) :=
  let! e := ensureJob b in
  match e with
  | (b, Err err) => let! u := updateStatus b before in Ret (err :: u)
  | (b, Ok job) =>
      let! o := observeJob b job in
      let '(b, errs) := o in
      let! u := updateStatus b before in Ret (errs ++ u)
  end.

Definition add_finalizer (b : Build) (before : BuildStatus) : prog BuildE (list BuildError) :=
  let '(fs, added) := AddFinalizer (meta_Finalizers (build_Meta b)) buildFinalizer in
  if added then
    let! u := trigger (UpdateBuild (with_finalizers b fs)) in
    match u with
    | Err e => Ret [AddingFinalizer e]
    | Ok b => run_build b before
    end
  else run_build b before.

Definition gate_spec (b : Build) : AppSpec :=
  {| app_Source := build_Source (build_Spec b); app_Build := build_Strategy (build_Spec b);
     app_Type := ""; app_Command := []; app_Port := None; app_Replicas := None; app_Env := [];
     app_Resources := None; app_HealthCheck := None |}.

(** A live Build that is not finished: the feature gate, then the Job. *)
Definition reconcile_live (b : Build) : prog BuildE (list BuildError) :=
  let before := build_Status b in
  match build_JobRef (build_Status b), ValidateApp (r_Features r) (gate_spec b) with
  | None, Some disabled =>
      let! s := adoptStartedJob b in
      match s with
      | (_, Err e) => Ret [e]
      | (b, Ok started) =>
          if negb started then
            updateStatus (failBuild reasonFeatureDisabled (DisabledError_Error disabled) b) before
          else add_finalizer b before
      end
  | _, _ => add_finalizer b before
  end.

Definition Reconcile (req : NamespacedName) : prog BuildE (list BuildError) :=
  let! g := trigger (GetBuild req) in
  match g with
  | Err e => Ret (if IsNotFound e then [] else [GettingBuild e])
  | Ok b =>
      if has (meta_DeletionTimestamp (build_Meta b)) then finalize b
      else if isTerminal b then Ret []
      else reconcile_live b
  end.
End reconciler.

(** The watch: which Build a Job belongs to. *)
Definition mapJobToBuild (annotations : gmap string string) : list NamespacedName :=
  let name := default "" (annotations !! AnnotationBuildName) in
  let namespace := default "" (annotations !! AnnotationBuildNamespace) in
  if bool_decide (name = "") || bool_decide (namespace = "") then []
  else [{| key_Namespace := namespace; key_Name := name |}].

(** ** Observing executions *)
Definition status_written (c : call BuildE) : option Build :=
  match c with Call (UpdateBuildStatus b) _ => Some b | _ => None end.
Definition job_created (c : call BuildE) : option Job :=
  match c with Call (CreateJob job) _ => Some job | _ => None end.
Definition job_deleted (c : call BuildE) : option (Job * result ApiError unit) :=
  match c with
  | Call e x =>
      match e in BuildE X return X → _ with
      | DeleteJob job => λ x, Some (job, x)
      | _ => λ _, None
      end x
  end.
Definition build_updated (c : call BuildE) : option (Build * result ApiError Build) :=
  match c with
  | Call e x =>
      match e in BuildE X return X → _ with
      | UpdateBuild b => λ x, Some (b, x)
      | _ => λ _, None
      end x
  end.

Definition read_build (c : call BuildE) : option (result ApiError Build) :=
  match c with
  | Call e x =>
      match e in BuildE X return X → _ with
      | GetBuild _ => λ x, Some x
      | _ => λ _, None
      end x
  end.

(** The API server's status subresource: updating the Build itself stores and
    returns its metadata and spec, and leaves the phase alone. *)
Definition status_subresource (tr : list (call BuildE)) : Prop :=
  ∀ b b', (b, Ok b') ∈ omap build_updated tr →
    ObjectKey (build_Meta b') = ObjectKey (build_Meta b) ∧ build_Spec b' = build_Spec b ∧
    build_Phase (build_Status b') = build_Phase (build_Status b).

(** Nothing but reads and Job creations. *)
Definition quiet (tr : list (call BuildE)) : Prop :=
  omap status_written tr = [] ∧ omap job_deleted tr = [] ∧ omap build_updated tr = [].

Lemma quiet_app tr1 tr2 : quiet tr1 → quiet tr2 → quiet (tr1 ++ tr2).
Proof. unfold quiet. rewrite !omap_app. intros (-> & -> & ->) (-> & -> & ->). done. Qed.

Section lemmas.
Context `{UnicodeTables, KubeLib} (r : BuildReconciler).

Lemma updateStatus_inv b before tr errs :
  exec (updateStatus b before) tr errs →
  (tr = [] ∧ errs = []) ∨
  (∃ w, tr = [Call (UpdateBuildStatus (set_observed b)) w] ∧ before ≠ build_Status (set_observed b)).
Proof.
  unfold updateStatus. case_decide; [intros [-> ->]; by left|].
  intros (w & tr' & -> & -> & _). right. by exists w.
Qed.

(** A created Job carries the annotations that prove ownership. *)
Lemma rendered_owned b opts job : Render b opts = Ok job →
  ownsJob b job = true ∧ ObjectKey (job_Meta job) = job_key b.
Proof.
  unfold Render. cbv zeta. repeat (destruct (_ || _); [done|]). destruct (_ && _); [done|].
  destruct (match opt_LocalSource opts with Some _ => _ | None => _ end); [done|]. intros [= <-].
  split; [|done]. unfold ownsJob. cbn [job_Meta meta_Annotations new_meta].
  by rewrite !bool_decide_true.
Qed.

(** What [ensureJob] does to the Build, and which Job it hands on. *)
Lemma ensureJob_spec b tr b' res :
  exec (ensureJob r b) tr (b', res) →
  quiet tr ∧ build_Meta b' = build_Meta b ∧ build_Spec b' = build_Spec b ∧
  build_Image (build_Status b') = build_Image (build_Status b) ∧
  match res with
  | Ok job => build_Phase (build_Status b') = build_Phase (build_Status b) ∧
      build_JobRef (build_Status b') ≠ None ∧
      (ownsJob b job = true ∨
       build_JobRef (build_Status b) ≠ None ∧ last tr = Some (Call (LiveGetJob (job_key b)) (Ok job)))
  | Err _ => b' = b ∨ build_Phase (build_Status b') = BuildFailed
  end.
Proof.
  unfold ensureJob. destruct (Compose (Some b) (r_GitBaseURL r)) as [inv|e].
  2:{ intros [-> [= -> ->]]. split_and!; try done. by right. }
  destruct (Render b (options_of inv (r_SourceFetcherImage r))) as [desired|e] eqn:HR.
  2:{ intros [-> [= -> ->]]. split_and!; try done. by left. }
  apply rendered_owned in HR as [Hown Hkey]. rewrite Hkey.
  intros (g & tr1 & -> & Hk). cbn [prog_bind] in Hk. destruct g as [job|e].
  { destruct (ownsJob b job) eqn:Ho; simpl in Hk; destruct Hk as [-> [= -> ->]];
      (split_and!; try done); [by left|by right]. }
  destruct (IsNotFound e); simpl in Hk; [|destruct Hk as [-> [= -> ->]]; split_and!; try done; by left].
  destruct (build_JobRef (build_Status b)) eqn:Href; simpl in Hk.
  { destruct Hk as (c & tr2 & -> & Hk). destruct c as [job|e'].
    - destruct Hk as [-> [= -> ->]]. rewrite Href. split_and!; try done. by right.
    - destruct (IsNotFound e'); simpl in Hk; destruct Hk as [-> [= -> ->]];
        (split_and!; try done); [by right|by left]. }
  destruct Hk as (c & tr2 & -> & Hk). destruct c as [[]|e'].
  { destruct Hk as [-> [= -> ->]]. split_and!; try done. by left. }
  destruct (IsAlreadyExists e'); simpl in Hk; [|destruct Hk as [-> [= -> ->]]; split_and!; try done; by left].
  destruct Hk as (l & tr3 & -> & Hk). destruct l as [job|e''].
  - destruct (ownsJob b job) eqn:Ho; simpl in Hk; destruct Hk as [-> [= -> ->]];
      (split_and!; try done); [by left|by right].
  - destruct Hk as [-> [= -> ->]]. split_and!; try done. by left.
Qed.

(** The phases [observeJob] can leave behind, and what each of them needs. *)
Lemma observeJob_spec b job tr b' errs :
  exec (observeJob r b job) tr (b', errs) →
  quiet tr ∧ omap job_created tr = [] ∧ build_Meta b' = build_Meta b ∧ build_Spec b' = build_Spec b ∧
  build_JobRef (build_Status b') = build_JobRef (build_Status b) ∧
  let phase := build_Phase (build_Status b') in
  (phase = build_Phase (build_Status b) ∨ phase = BuildFailed ∧ jobCondition job JobFailed ≠ None ∨
   phase = BuildRunning ∨
   phase = BuildPending ∧ (build_Phase (build_Status b) = "" ∨ build_Phase (build_Status b) = BuildPending) ∨
   phase = BuildSucceeded ∧ jobCondition job JobFailed = None ∧ jobCondition job JobComplete ≠ None ∧
     ∃ inv, Compose (Some b) (r_GitBaseURL r) = Ok inv ∧
       tr = [Call (ResolveDigest (inv_ImageRef inv)) (Ok (build_Image (build_Status b')))]).
Proof.
  unfold observeJob. set (b1 := match build_StartedAt _ with Some _ => _ | None => _ end).
  assert (Hb1 : build_Meta b1 = build_Meta b ∧ build_Spec b1 = build_Spec b ∧
    build_JobRef (build_Status b1) = build_JobRef (build_Status b) ∧
    build_Phase (build_Status b1) = build_Phase (build_Status b) ∧
    Compose (Some b1) (r_GitBaseURL r) = Compose (Some b) (r_GitBaseURL r)).
  { unfold b1. repeat case_match; done. }
  clearbody b1. destruct Hb1 as (Hm & Hs & Hj & Hp & Hcmp).
  destruct (jobCondition job JobFailed) as [cond|] eqn:Hf.
  { rewrite exec_bind. unfold failureReason. intros (tr1 & tr2 & f & -> & Hf1 & [-> Hret]).
    rewrite app_nil_r.
    assert (Hq : quiet tr1 ∧ omap job_created tr1 = []).
    { case_decide; [by destruct Hf1 as [-> _]|]. by destruct Hf1 as (l & tr3 & -> & -> & _). }
    destruct Hq. destruct f as [[reason message]|e]; injection Hret as -> ->; simpl;
      rewrite ?Hm, ?Hs, ?Hj, ?Hp; split_and!; try done; [right; by left|by left]. }
  destruct (jobCondition job JobComplete) as [cc|] eqn:Hc.
  - rewrite Hcmp. destruct (Compose (Some b) (r_GitBaseURL r)) as [inv|e].
    2:{ intros [-> [= -> ->]]. split_and!; try done. by left. }
    intros (d & tr1 & -> & Hk). cbn [prog_bind] in Hk.
    destruct d as [pinned|e]; destruct Hk as [-> [= -> ->]]; split_and!; try done.
    + do 4 right. split_and!; try done. by exists inv.
    + right; right; by left.
  - repeat case_decide; intros [-> [= -> ->]]; split_and!; try done.
    + right; right; by left.
    + do 3 right. left. rewrite <- Hp. done.
    + by left.
Qed.

Lemma Compose_ext b1 b2 base :
  ObjectKey (build_Meta b1) = ObjectKey (build_Meta b2) → build_Spec b1 = build_Spec b2 →
  Compose (Some b1) base = Compose (Some b2) base.
Proof.
  intros Hk Hs. injection Hk as Hns Hn. unfold Compose, compose_source, buildImageTag.
  by rewrite Hs, Hns, Hn.
Qed.

(** A status that may be written for [b]: same Build, and a phase that follows. *)
Definition justified (b : Build) (tr : list (call BuildE)) (b' : Build) : Prop :=
  ObjectKey (build_Meta b') = ObjectKey (build_Meta b) ∧ build_Spec b' = build_Spec b ∧
  let phase := build_Phase (build_Status b') in
  (phase = build_Phase (build_Status b) ∨ phase = BuildFailed ∨ phase = BuildRunning ∨
   phase = BuildPending ∧ (build_Phase (build_Status b) = "" ∨ build_Phase (build_Status b) = BuildPending) ∨
   phase = BuildSucceeded ∧ ∃ inv, Compose (Some b') (r_GitBaseURL r) = Ok inv ∧
     Call (ResolveDigest (inv_ImageRef inv)) (Ok (build_Image (build_Status b'))) ∈ tr).

Lemma justified_mono b tr tr' b' : justified b tr b' → tr ⊆ tr' → justified b tr' b'.
Proof.
  intros (? & ? & Hp) Hsub. split_and!; [done..|].
  destruct Hp as [?|[?|[?|[?|(? & inv & ? & Hin)]]]]; auto. do 4 right. split; [done|].
  exists inv. split; [done|]. by apply Hsub.
Qed.

Lemma justified_from b0 b tr b' :
  ObjectKey (build_Meta b) = ObjectKey (build_Meta b0) → build_Spec b = build_Spec b0 →
  build_Phase (build_Status b) = build_Phase (build_Status b0) →
  justified b tr b' → justified b0 tr b'.
Proof. unfold justified. intros -> -> ->. done. Qed.

Lemma run_build_writes b before tr errs b' :
  exec (run_build r b before) tr errs → b' ∈ omap status_written tr → justified b tr b'.
Proof.
  unfold run_build. rewrite exec_bind. intros (tr1 & tr2 & [b1 res] & -> & He & Hk).
  apply ensureJob_spec in He as ((Hw1 & _) & Hm & Hs & Hi & Hres).
  rewrite omap_app, Hw1. simpl. destruct res as [job|e].
  - apply exec_bind in Hk as (tr3 & tr4 & [b2 errs2] & -> & Ho & Hk).
    apply exec_bind in Hk as (tr5 & tr6 & u & -> & Hu & [-> _]).
    apply observeJob_spec in Ho as ((Hw3 & _) & _ & Hm2 & Hs2 & _ & Hph).
    rewrite !omap_app, Hw3, app_nil_r. simpl.
    apply updateStatus_inv in Hu as [[-> _]|(w & -> & _)]; [by intros ?%not_elem_of_nil|].
    intros ->%list_elem_of_singleton. split_and!; [cbn; by rewrite Hm2, Hm|cbn; by rewrite Hs2, Hs|].
    destruct Hres as (Hp & _). cbn [set_observed with_status build_Status build_Phase build_Image].
    rewrite Hp in Hph. destruct Hph as [?|[[? _]|[?|[?|(? & _ & _ & inv & Hc & Htr)]]]]; auto.
    do 4 right. split; [done|]. exists inv. split; [|rewrite Htr; set_solver].
    rewrite <- Hc. apply Compose_ext; cbn; congruence.
  - apply exec_bind in Hk as (tr5 & tr6 & u & -> & Hu & [-> _]). rewrite app_nil_r.
    apply updateStatus_inv in Hu as [[-> _]|(w & -> & _)]; [by intros ?%not_elem_of_nil|].
    intros ->%list_elem_of_singleton. split_and!; [cbn; by rewrite Hm|cbn; by rewrite Hs|].
    cbn [set_observed with_status build_Status build_Phase]. destruct Hres as [->|?]; auto.
Qed.

Lemma add_finalizer_writes b before tr errs b' :
  exec (add_finalizer r b before) tr errs → status_subresource tr →
  b' ∈ omap status_written tr → justified b tr b'.
Proof.
  unfold add_finalizer. destruct (AddFinalizer _ _) as [fs []]; [|intros; by eapply run_build_writes].
  intros (u & tr1 & -> & Hk) Hsub Hin. cbn [prog_bind] in Hk. destruct u as [b1|e].
  2:{ destruct Hk as [-> _]. by apply not_elem_of_nil in Hin. }
  destruct (Hsub (with_finalizers b fs) b1) as (Hkey & Hs & Hp); [by left|].
  apply (justified_from b b1); [done..|]. eapply justified_mono; [by eapply run_build_writes|].
  intros c Hc. by right.
Qed.

Lemma adoptStartedJob_inv b tr b' res :
  exec (adoptStartedJob r b) tr (b', res) →
  ∃ g, tr = [Call (if r_hasAPIReader r then LiveGetJob (job_key b) else GetJob (job_key b)) g] ∧
    (b' = b ∨ b' = set_jobref (job_ref (job_key b)) b) ∧
    match g with
    | Ok job => res = Ok (ownsJob b job)
    | Err e => res = if IsNotFound e then Ok false else Err (CheckingStarted (job_key b) e)
    end ∧ (res = Ok false → b' = b).
Proof.
  intros (g & tr' & -> & Hk). exists g. cbn [prog_bind] in Hk. destruct g as [job|e].
  - destruct (ownsJob b job); simpl in Hk; destruct Hk as [-> [= -> ->]]; split_and!; try done; auto.
  - destruct (IsNotFound e); destruct Hk as [-> [= -> ->]]; split_and!; auto.
Qed.

(** Deletion writes no status and creates no Job. *)
Lemma finalize_spec b tr errs :
  exec (finalize b) tr errs →
  omap status_written tr = [] ∧ omap job_created tr = [] ∧
  (tr = [] ∨ ∃ g tr', tr = Call (GetJob (job_key b)) g :: tr' ∧
    let freed := ∃ u, tr' = [Call (UpdateBuild (with_finalizers b
      (RemoveFinalizer (meta_Finalizers (build_Meta b)) buildFinalizer))) u] in
    match g with
    | Err e => if IsNotFound e then freed else tr' = []
    | Ok job =>
        if ownsJob b job then
          ∃ x tr'', tr' = Call (DeleteJob job) x :: tr'' ∧
            match x with
            | Err e => if IsNotFound e then omap job_deleted tr'' = [] else tr'' = []
            | Ok _ => omap job_deleted tr'' = []
            end
        else freed
    end).
Proof.
  unfold finalize, release. destruct (negb _); [intros [-> _]; split_and!; auto|].
  intros (g & tr1 & -> & Hk). cbn [prog_bind] in Hk.
  assert (Hgoal : omap status_written tr1 = [] ∧ omap job_created tr1 = [] ∧
    let freed := ∃ u, tr1 = [Call (UpdateBuild (with_finalizers b
      (RemoveFinalizer (meta_Finalizers (build_Meta b)) buildFinalizer))) u] in
    match g with
    | Err e => if IsNotFound e then freed else tr1 = []
    | Ok job => if ownsJob b job then ∃ x tr2, tr1 = Call (DeleteJob job) x :: tr2 ∧
        match x with
        | Err e => if IsNotFound e then omap job_deleted tr2 = [] else tr2 = []
        | Ok _ => omap job_deleted tr2 = []
        end else freed
    end).
  { destruct g as [job|e]; [destruct (ownsJob b job)|destruct (IsNotFound e)].
    - destruct Hk as (x & tr2 & -> & Hk). cbn [prog_bind] in Hk. destruct x as [[]|e].
      + destruct Hk as (u & tr3 & -> & -> & _). split_and!; [done..|]. by eexists _, _.
      + destruct (IsNotFound e) eqn:He.
        * destruct Hk as (u & tr3 & -> & -> & _). split_and!; [done..|]. eexists (Err e), _. split; [done|]. simpl. by rewrite He.
        * destruct Hk as [-> _]. split_and!; [done..|]. eexists (Err e), _. split; [done|]. simpl. by rewrite He.
    - destruct Hk as (u & tr3 & -> & -> & _). split_and!; [done..|]. by exists u.
    - destruct Hk as (u & tr3 & -> & -> & _). split_and!; [done..|]. by exists u.
    - destruct Hk as [-> _]. done. }
  destruct Hgoal as (Hw & Hc & Hg). split_and!; [done..|]. right. by exists g, tr1.
Qed.

Lemma status_subresource_tail tr1 tr2 : status_subresource (tr1 ++ tr2) → status_subresource tr2.
Proof. intros Hs x y Hxy. apply Hs. rewrite omap_app. apply elem_of_app. by right. Qed.

Lemma reconcile_live_writes b tr errs b' :
  exec (reconcile_live r b) tr errs → status_subresource tr → b' ∈ omap status_written tr →
  justified b tr b'.
Proof.
  unfold reconcile_live. intros Hk Hsub Hin.
  destruct (build_JobRef (build_Status b)); [by eapply add_finalizer_writes|].
  destruct (ValidateApp (r_Features r) (gate_spec b)) as [disabled|]; [|by eapply add_finalizer_writes].
  apply exec_bind in Hk as (tr1 & tr2 & [b1 res] & -> & (g & -> & Hb1 & Hres & Hfalse)%adoptStartedJob_inv & Hk).
  set (read := [Call _ g]) in *. rewrite omap_app in Hin.
  assert (Hq : omap status_written read = []) by (unfold read; by destruct (r_hasAPIReader r)).
  rewrite Hq in Hin. simpl in Hin. apply status_subresource_tail in Hsub.
  apply (justified_mono b tr2); [|intros c Hc; apply elem_of_app; by right].
  destruct res as [[]|e]; simpl in Hk.
  - destruct Hb1 as [->| ->]; [by eapply add_finalizer_writes|].
    apply (justified_from b (set_jobref (job_ref (job_key b)) b)); [done..|]. by eapply add_finalizer_writes.
  - rewrite (Hfalse eq_refl) in Hk.
    apply updateStatus_inv in Hk as [[-> _]|(w & -> & _)]; [by apply not_elem_of_nil in Hin|].
    apply list_elem_of_singleton in Hin as ->. split_and!; [done..|]. right. by left.
  - destruct Hk as [-> _]. by apply not_elem_of_nil in Hin.
Qed.

(** Every status the controller writes is justified by the Build it read. *)
Lemma Reconcile_writes req tr errs b' :
  exec (Reconcile r req) tr errs → status_subresource tr → b' ∈ omap status_written tr →
  ∃ b, head tr = Some (Call (GetBuild req) (Ok b)) ∧
    meta_DeletionTimestamp (build_Meta b) = None ∧ isTerminal b = false ∧ justified b tr b'.
Proof.
  intros (g & tr1 & -> & Hk) Hsub Hin. cbn [prog_bind] in Hk.
  destruct g as [b|e]; [|destruct Hk as [-> _]; by apply not_elem_of_nil in Hin].
  exists b. split; [done|]. destruct (meta_DeletionTimestamp (build_Meta b)) eqn:Hd; simpl in Hk.
  { apply finalize_spec in Hk as (Hw & _).
    change (b' ∈ omap status_written tr1) in Hin. rewrite Hw in Hin. by apply not_elem_of_nil in Hin. }
  destruct (isTerminal b) eqn:Ht; [destruct Hk as [-> _]; by apply not_elem_of_nil in Hin|].
  split_and!; [done..|]. apply (justified_mono b tr1); [|intros c Hc; by right].
  eapply reconcile_live_writes; [done| |done].
  by apply (status_subresource_tail [Call (GetBuild req) (Ok b)]).
Qed.

(** A Job is only created for a Build that has none recorded. *)
Lemma ensureJob_creates b tr b' res job :
  exec (ensureJob r b) tr (b', res) → job ∈ omap job_created tr →
  omap job_created tr = [job] ∧ build_JobRef (build_Status b) = None ∧
  (∃ text, head tr = Some (Call (GetJob (job_key b)) (Err (NotFound text)))) ∧
  ∃ inv, Compose (Some b) (r_GitBaseURL r) = Ok inv ∧
    Render b (options_of inv (r_SourceFetcherImage r)) = Ok job.
Proof.
  unfold ensureJob. destruct (Compose (Some b) (r_GitBaseURL r)) as [inv|e].
  2:{ intros [-> _]. by intros ?%not_elem_of_nil. }
  destruct (Render b (options_of inv (r_SourceFetcherImage r))) as [desired|e] eqn:HR.
  2:{ intros [-> _]. by intros ?%not_elem_of_nil. }
  destruct (rendered_owned _ _ _ HR) as [_ Hkey]. rewrite Hkey.
  intros (g & tr1 & -> & Hk). cbn [prog_bind] in Hk. destruct g as [j|e].
  { destruct (ownsJob b j); destruct Hk as [-> _]; by intros ?%not_elem_of_nil. }
  destruct e as [text| | |]; simpl in Hk; try (destruct Hk as [-> _]; by intros ?%not_elem_of_nil).
  destruct (build_JobRef (build_Status b)) as [ref|] eqn:Href; simpl in Hk.
  { destruct Hk as (c & tr2 & -> & Hk). destruct c as [j|e'];
      [|destruct (IsNotFound e')]; destruct Hk as [-> _]; by intros ?%not_elem_of_nil. }
  destruct Hk as (c & tr2 & -> & Hk). intros Hin.
  assert (Hrest : omap job_created tr2 = []).
  { destruct c as [[]|e']; [by destruct Hk as [-> _]|]. destruct (IsAlreadyExists e'); simpl in Hk;
      [|by destruct Hk as [-> _]]. destruct Hk as (l & tr3 & -> & Hk).
    destruct l as [j|]; [destruct (ownsJob b j)|]; by destruct Hk as [-> _]. }
  change (omap job_created _) with (desired :: omap job_created tr2) in Hin |- *.
  rewrite Hrest in *. apply list_elem_of_singleton in Hin as ->. split_and!; eauto.
Qed.

Lemma run_build_creates b before tr errs job :
  exec (run_build r b before) tr errs → job ∈ omap job_created tr →
  omap job_created tr = [job] ∧ build_JobRef (build_Status b) = None ∧
  (∃ text, Call (GetJob (job_key b)) (Err (NotFound text)) ∈ tr) ∧
  ∃ inv, Compose (Some b) (r_GitBaseURL r) = Ok inv ∧
    Render b (options_of inv (r_SourceFetcherImage r)) = Ok job.
Proof.
  unfold run_build. rewrite exec_bind. intros (tr1 & tr2 & [b1 res] & -> & He & Hk) Hin.
  assert (Hrest : omap job_created tr2 = []).
  { destruct res as [j|e].
    - apply exec_bind in Hk as (tr3 & tr4 & [b2 errs2] & -> & Ho & Hk).
      apply exec_bind in Hk as (tr5 & tr6 & u & -> & Hu & [-> _]).
      apply observeJob_spec in Ho as (_ & Hc & _). rewrite !omap_app, Hc, app_nil_r.
      by apply updateStatus_inv in Hu as [[-> _]|(w & -> & _)].
    - apply exec_bind in Hk as (tr5 & tr6 & u & -> & Hu & [-> _]). rewrite app_nil_r.
      by apply updateStatus_inv in Hu as [[-> _]|(w & -> & _)]. }
  rewrite omap_app, Hrest, app_nil_r in *.
  destruct (ensureJob_creates _ _ _ _ _ He Hin) as (? & ? & (text & Hh) & ?). split_and!; [done..| |done].
  exists text. apply elem_of_app. left. destruct tr1; [done|]. injection Hh as ->. by left.
Qed.

Lemma add_finalizer_creates b before tr errs job :
  exec (add_finalizer r b before) tr errs → job ∈ omap job_created tr →
  omap job_created tr = [job] ∧ ∃ bc, (bc = b ∨ ∃ b1, (b1, Ok bc) ∈ omap build_updated tr) ∧
    build_JobRef (build_Status bc) = None ∧
    (∃ text, Call (GetJob (job_key bc)) (Err (NotFound text)) ∈ tr) ∧
    ∃ inv, Compose (Some bc) (r_GitBaseURL r) = Ok inv ∧
      Render bc (options_of inv (r_SourceFetcherImage r)) = Ok job.
Proof.
  unfold add_finalizer. destruct (AddFinalizer _ _) as [fs []].
  2:{ intros He Hin. destruct (run_build_creates _ _ _ _ _ He Hin) as (? & ? & ? & ?).
      split; [done|]. exists b. eauto. }
  intros (u & tr1 & -> & Hk) Hin. cbn [prog_bind] in Hk. destruct u as [b1|e].
  2:{ destruct Hk as [-> _]. by apply not_elem_of_nil in Hin. }
  change (job ∈ omap job_created tr1) in Hin.
  destruct (run_build_creates _ _ _ _ _ Hk Hin) as (? & ? & (text & ?) & ?). split; [done|]. exists b1.
  split_and!; [right; eexists; by left|done|exists text; by right|done].
Qed.

(** A Build that is not being deleted loses no Job. *)
Lemma run_build_no_delete b before tr errs :
  exec (run_build r b before) tr errs → omap job_deleted tr = [].
Proof.
  unfold run_build. rewrite exec_bind. intros (tr1 & tr2 & [b1 res] & -> & He & Hk).
  apply ensureJob_spec in He as ((_ & Hd1 & _) & _). rewrite omap_app, Hd1. simpl. destruct res as [j|e].
  - apply exec_bind in Hk as (tr3 & tr4 & [b2 errs2] & -> & Ho & Hk).
    apply exec_bind in Hk as (tr5 & tr6 & u & -> & Hu & [-> _]).
    apply observeJob_spec in Ho as ((_ & Hd & _) & _). rewrite !omap_app, Hd, app_nil_r.
    by apply updateStatus_inv in Hu as [[-> _]|(w & -> & _)].
  - apply exec_bind in Hk as (tr5 & tr6 & u & -> & Hu & [-> _]). rewrite app_nil_r.
    by apply updateStatus_inv in Hu as [[-> _]|(w & -> & _)].
Qed.

Lemma add_finalizer_no_delete b before tr errs :
  exec (add_finalizer r b before) tr errs → omap job_deleted tr = [].
Proof.
  unfold add_finalizer. destruct (AddFinalizer _ _) as [fs []]; [|apply run_build_no_delete].
  intros (u & tr1 & -> & Hk). cbn [prog_bind] in Hk.
  destruct u as [b1|e]; [|by destruct Hk as [-> _]]. by apply run_build_no_delete in Hk.
Qed.

Lemma reconcile_live_no_delete b tr errs :
  exec (reconcile_live r b) tr errs → omap job_deleted tr = [].
Proof.
  unfold reconcile_live. destruct (build_JobRef _); [apply add_finalizer_no_delete|].
  destruct (ValidateApp _ _); [|apply add_finalizer_no_delete]. rewrite exec_bind.
  intros (tr1 & tr2 & [b1 res] & -> & (g & -> & _)%adoptStartedJob_inv & Hk). rewrite omap_app.
  assert (Hr : omap job_deleted tr2 = []).
  { destruct res as [[]|e]; simpl in Hk; [by eapply add_finalizer_no_delete| |by destruct Hk as [-> _]].
    by apply updateStatus_inv in Hk as [[-> _]|(w & -> & _)]. }
  rewrite Hr. by destruct (r_hasAPIReader r).
Qed.

Lemma reconcile_live_creates b tr errs job :
  exec (reconcile_live r b) tr errs → job ∈ omap job_created tr →
  omap job_created tr = [job] ∧ ∃ bc,
    (bc = b ∨ bc = set_jobref (job_ref (job_key b)) b ∨ ∃ b1, (b1, Ok bc) ∈ omap build_updated tr) ∧
    build_JobRef (build_Status bc) = None ∧
    (∃ text, Call (GetJob (job_key bc)) (Err (NotFound text)) ∈ tr) ∧
    ∃ inv, Compose (Some bc) (r_GitBaseURL r) = Ok inv ∧
      Render bc (options_of inv (r_SourceFetcherImage r)) = Ok job.
Proof.
  assert (Hplain : ∀ tr, exec (add_finalizer r b (build_Status b)) tr errs → job ∈ omap job_created tr →
    omap job_created tr = [job] ∧ ∃ bc,
    (bc = b ∨ bc = set_jobref (job_ref (job_key b)) b ∨ ∃ b1, (b1, Ok bc) ∈ omap build_updated tr) ∧
    build_JobRef (build_Status bc) = None ∧
    (∃ text, Call (GetJob (job_key bc)) (Err (NotFound text)) ∈ tr) ∧
    ∃ inv, Compose (Some bc) (r_GitBaseURL r) = Ok inv ∧
      Render bc (options_of inv (r_SourceFetcherImage r)) = Ok job).
  { intros tr' He Hin. destruct (add_finalizer_creates _ _ _ _ _ He Hin) as (? & bc & [?|?] & ?);
      (split; [done|]); exists bc; auto. }
  unfold reconcile_live. destruct (build_JobRef (build_Status b)); [apply Hplain|].
  destruct (ValidateApp _ _); [|apply Hplain]. rewrite exec_bind.
  intros (tr1 & tr2 & [b1 res] & -> & (g & -> & Hb1 & _)%adoptStartedJob_inv & Hk) Hin.
  set (read := [Call _ g]) in *. rewrite omap_app in *.
  assert (Hr : omap job_created read = [] ∧ omap build_updated read = [])
    by (unfold read; by destruct (r_hasAPIReader r)).
  destruct Hr as [Hr Hr']. rewrite omap_app, Hr, Hr' in *. simpl in Hin |- *.
  destruct res as [[]|e]; simpl in Hk.
  2:{ apply updateStatus_inv in Hk as [[-> _]|(w & -> & _)]; by apply not_elem_of_nil in Hin. }
  2:{ destruct Hk as [-> _]. by apply not_elem_of_nil in Hin. }
  destruct (add_finalizer_creates _ _ _ _ _ Hk Hin) as (? & bc & Hbc & ? & (text & ?) & ?). split; [done|].
  exists bc. split_and!; [|done|exists text; by right|done].
  destruct Hb1 as [->| ->]; destruct Hbc as [->|?]; auto.
Qed.
End lemmas.

(** ** Properties *)
Definition phase_rank (phase : string) : nat :=
  if decide (phase = "") then 0 else if decide (phase = BuildPending) then 1
  else if decide (phase = BuildSucceeded ∨ phase = BuildFailed) then 3 else 2.

Section properties.
Context `{UnicodeTables, KubeLib} (r : BuildReconciler).

(** A finished Build is a closed record: reconciling a Build that succeeded or
    failed and is not being deleted makes no call beyond reading it and reports
    no error. *)
Theorem terminal_build_closed req tr errs b :
  exec (Reconcile r req) tr errs → head tr = Some (Call (GetBuild req) (Ok b)) →
  meta_DeletionTimestamp (build_Meta b) = None → isTerminal b = true →
  length tr = 1 ∧ errs = [].
Proof.
  intros (g & tr1 & -> & Hk) Hh Hd Ht. cbn [prog_bind] in Hk.
  apply (f_equal (λ o, o ≫= read_build)) in Hh. simpl in Hh. injection Hh as ->.
  rewrite Hd, Ht in Hk. simpl in Hk. by destruct Hk as [-> ->].
Qed.

(** C2. Succeeded means pinned: the controller writes the phase Succeeded only
    with the image that the registry's digest resolution just returned for the
    reference composed from that very Build. *)
Theorem succeeded_is_pinned req tr errs b' :
  exec (Reconcile r req) tr errs → status_subresource tr → b' ∈ omap status_written tr →
  build_Phase (build_Status b') = BuildSucceeded →
  ∃ inv, Compose (Some b') (r_GitBaseURL r) = Ok inv ∧
    Call (ResolveDigest (inv_ImageRef inv)) (Ok (build_Image (build_Status b'))) ∈ tr.
Proof.
  intros He Hs Hin Hp.
  destruct (Reconcile_writes _ _ _ _ _ He Hs Hin) as (b & _ & _ & Ht & _ & _ & Hj).
  unfold isTerminal in Ht. apply bool_decide_eq_false in Ht. rewrite Hp in Hj.
  destruct Hj as [Hj|[Hj|[Hj|[[Hj _]|[_ Hj]]]]]; [|done..].
  destruct Ht. by left.
Qed.

(** C13. Phases only move forward: every status written for a Build keeps its
    identity and spec, and its phase never goes back, neither from Running to
    Pending when a stale read shows no active pod nor out of a finished phase. *)
Theorem phase_never_regresses req tr errs b b' :
  exec (Reconcile r req) tr errs → status_subresource tr →
  head tr = Some (Call (GetBuild req) (Ok b)) → b' ∈ omap status_written tr →
  ObjectKey (build_Meta b') = ObjectKey (build_Meta b) ∧ build_Spec b' = build_Spec b ∧
  phase_rank (build_Phase (build_Status b)) ≤ phase_rank (build_Phase (build_Status b')).
Proof.
  intros He Hs Hh Hin.
  destruct (Reconcile_writes _ _ _ _ _ He Hs Hin) as (b0 & Hh0 & _ & Ht & Hk & Hsp & Hj).
  rewrite Hh in Hh0. apply (f_equal (λ o, o ≫= read_build)) in Hh0. simpl in Hh0. injection Hh0 as <-.
  split_and!; [done..|]. unfold isTerminal in Ht. apply bool_decide_eq_false in Ht.
  unfold phase_rank.
  destruct Hj as [->|[->|[->|[[-> Hb]|[-> _]]]]]; [done|..]; repeat case_decide; try lia; try done;
    try (destruct Hb; congruence); try tauto.
Qed.

(** Deleting a Build deletes only its own Job, and first: a Job is deleted only
    while its Build is being deleted, after a read that returned that very Job
    with annotations naming this Build; and the finalizer is released only when
    the Job is absent, belongs to someone else, or its deletion was accepted. *)
Theorem deletion_only_own_job req tr errs b :
  exec (Reconcile r req) tr errs → head tr = Some (Call (GetBuild req) (Ok b)) →
  (∀ job x, (job, x) ∈ omap job_deleted tr →
    meta_DeletionTimestamp (build_Meta b) ≠ None ∧ ownsJob b job = true ∧
    Call (GetJob (job_key b)) (Ok job) ∈ tr) ∧
  (meta_DeletionTimestamp (build_Meta b) ≠ None → omap build_updated tr ≠ [] →
    (∃ text, Call (GetJob (job_key b)) (Err (NotFound text)) ∈ tr) ∨
    ∃ job, Call (GetJob (job_key b)) (Ok job) ∈ tr ∧
      (ownsJob b job = false ∨
       ∃ x, (job, x) ∈ omap job_deleted tr ∧ (x = Ok () ∨ ∃ text, x = Err (NotFound text)))).
Proof.
  intros (g & tr1 & -> & Hk) Hh. cbn [prog_bind] in Hk.
  apply (f_equal (λ o, o ≫= read_build)) in Hh. simpl in Hh. injection Hh as ->.
  change (omap job_deleted (_ :: tr1)) with (omap job_deleted tr1).
  change (omap build_updated (_ :: tr1)) with (omap build_updated tr1).
  destruct (meta_DeletionTimestamp (build_Meta b)) eqn:Hd; simpl in Hk.
  2:{ assert (Hno : omap job_deleted tr1 = []).
      { destruct (isTerminal b); [by destruct Hk as [-> _]|]. by eapply reconcile_live_no_delete. }
      rewrite Hno. split; [by intros ? ? ?%not_elem_of_nil|done]. }
  apply finalize_spec in Hk as (_ & _ & [->|(g & tr2 & -> & Hg)]).
  { split; [by intros ? ? ?%not_elem_of_nil|done]. }
  change (omap job_deleted (_ :: tr2)) with (omap job_deleted tr2).
  change (omap build_updated (_ :: tr2)) with (omap build_updated tr2). destruct g as [job|e]; simpl in Hg.
  - destruct (ownsJob b job) eqn:Ho.
    + destruct Hg as (x & tr3 & -> & Hx).
      change (omap job_deleted (_ :: tr3)) with ((job, x) :: omap job_deleted tr3).
      change (omap build_updated (_ :: tr3)) with (omap build_updated tr3).
      assert (Hno : omap job_deleted tr3 = []) by (destruct x as [|[]]; simpl in Hx; by subst || done).
      rewrite Hno. split.
      * intros job' x' [= -> ->]%list_elem_of_singleton. split_and!; [done..|set_solver].
      * intros _ Hu. right. exists job. split; [set_solver|]. right. exists x. split; [by left|].
        destruct x as [[]|[text| | |]]; simpl in Hx; subst; eauto; done.
    + destruct Hg as (u & ->). split; [by intros ? ? ?%not_elem_of_nil|]. intros _ _. right. exists job.
      split; [set_solver|by left].
  - destruct e as [text| | |]; simpl in Hg; [destruct Hg as (u & ->)|subst tr2..];
      (split; [by intros ? ? ?%not_elem_of_nil|]); [|done..].
    intros _ _. left. exists text. set_solver.
Qed.

(** A disabled feature starts no build: when a Build without a recorded Job
    uses a disabled feature, either a Job of this very Build was found already
    started, or no Job is created and the only status written is Failed. *)
Theorem feature_gate_stops_new_jobs req tr errs b :
  exec (Reconcile r req) tr errs → head tr = Some (Call (GetBuild req) (Ok b)) →
  meta_DeletionTimestamp (build_Meta b) = None → isTerminal b = false →
  build_JobRef (build_Status b) = None → ValidateApp (r_Features r) (gate_spec b) ≠ None →
  (∃ job, ownsJob b job = true ∧ (Call (LiveGetJob (job_key b)) (Ok job) ∈ tr ∨
                                  Call (GetJob (job_key b)) (Ok job) ∈ tr)) ∨
  (omap job_created tr = [] ∧
   ∀ b', b' ∈ omap status_written tr → build_Phase (build_Status b') = BuildFailed).
Proof.
  intros (g & tr1 & -> & Hk) Hh Hd Ht Hj Hv. cbn [prog_bind] in Hk.
  apply (f_equal (λ o, o ≫= read_build)) in Hh. simpl in Hh. injection Hh as ->.
  rewrite Hd, Ht in Hk. simpl in Hk. unfold reconcile_live in Hk. rewrite Hj in Hk.
  destruct (ValidateApp _ _) as [disabled|]; [|done].
  apply exec_bind in Hk as (tr2 & tr3 & [b1 res] & -> & (g & -> & _ & Hres & _)%adoptStartedJob_inv & Hk).
  set (read := Call _ g) in *. destruct g as [job|e].
  - destruct (ownsJob b job) eqn:Ho.
    { left. exists job. split; [done|]. unfold read. destruct (r_hasAPIReader r); set_solver. }
    subst res. simpl in Hk. right. unfold read.
    apply updateStatus_inv in Hk as [[-> _]|(w & -> & _)]; destruct (r_hasAPIReader r);
      (split; [done|]); intros b'; simpl; intros Hin;
      try (by apply not_elem_of_nil in Hin); by apply list_elem_of_singleton in Hin as ->.
  - right. unfold read. destruct (IsNotFound e); subst res; simpl in Hk.
    + apply updateStatus_inv in Hk as [[-> _]|(w & -> & _)]; destruct (r_hasAPIReader r);
        (split; [done|]); intros b'; simpl; intros Hin;
        try (by apply not_elem_of_nil in Hin); by apply list_elem_of_singleton in Hin as ->.
    + destruct Hk as [-> _]. destruct (r_hasAPIReader r); (split; [done|]); by intros ? ?%not_elem_of_nil.
Qed.

(** C14. One Build, one Job: a reconcile creates at most one Job, for a live,
    unfinished Build with no Job recorded, after a read that found none; what it
    creates is exactly the Job rendered from the composed Build, and it carries
    the annotations by which the controller later recognises it. *)
Theorem one_job_per_build req tr errs job :
  exec (Reconcile r req) tr errs → job ∈ omap job_created tr →
  omap job_created tr = [job] ∧
  ∃ b bc, head tr = Some (Call (GetBuild req) (Ok b)) ∧
    meta_DeletionTimestamp (build_Meta b) = None ∧ isTerminal b = false ∧
    (bc = b ∨ bc = set_jobref (job_ref (job_key b)) b ∨ ∃ b1, (b1, Ok bc) ∈ omap build_updated tr) ∧
    build_JobRef (build_Status bc) = None ∧
    (∃ text, Call (GetJob (job_key bc)) (Err (NotFound text)) ∈ tr) ∧ ownsJob bc job = true ∧
    ∃ inv, Compose (Some bc) (r_GitBaseURL r) = Ok inv ∧
      Render bc (options_of inv (r_SourceFetcherImage r)) = Ok job.
Proof.
  intros (g & tr1 & -> & Hk) Hin. cbn [prog_bind] in Hk.
  change (omap job_created (_ :: tr1)) with (omap job_created tr1) in *.
  destruct g as [b|e]; [|destruct Hk as [-> _]; by apply not_elem_of_nil in Hin].
  destruct (meta_DeletionTimestamp (build_Meta b)) eqn:Hd; simpl in Hk.
  { apply finalize_spec in Hk as (_ & Hc & _). rewrite Hc in Hin. by apply not_elem_of_nil in Hin. }
  destruct (isTerminal b) eqn:Ht; [destruct Hk as [-> _]; by apply not_elem_of_nil in Hin|].
  destruct (reconcile_live_creates _ _ _ _ _ Hk Hin) as (Hone & bc & Hbc & Hj & (text & Hn) & inv & Hc & HR).
  split; [done|]. exists b, bc. destruct (rendered_owned _ _ _ HR) as [Ho _].
  split_and!; [done..| |done| |done|by exists inv].
  - destruct Hbc as [?|[?|(b1 & ?)]]; auto. do 2 right. exists b1. done.
  - exists text. by right.
Qed.
End properties.

(** ** Worked examples *)
Module BuildControllerExample.
#[local] Instance tables : UnicodeTables := ascii_tables.
#[local] Instance lib : KubeLib := sample_kube_lib.
Definition reconciler : BuildReconciler :=
  {| r_hasAPIReader := true; r_GitBaseURL := ""; r_SourceFetcherImage := "orkano/operator";
     r_Features := no_features |}.
Definition req : NamespacedName := {| key_Namespace := "orkano-apps"; key_Name := "shop-1" |}.
Definition build (phase : string) (ref : option JobReference) : Build :=
  with_status (BuildJobExample.build "shop-1")
    {| build_ObservedGeneration := 0; build_Phase := phase; build_Image := ""; build_JobRef := ref;
       build_StartedAt := None; build_CompletedAt := None; build_Conditions := [] |}.
Definition job_with (status : JobStatus) (annotations : gmap string string) : Job :=
  {| job_Meta := new_meta Namespace "shop-1" ∅ annotations; job_BackoffLimit := Some 0%Z;
     job_ActiveDeadlineSeconds := Some 600%Z; job_TemplateLabels := ∅;
     job_Pod := job_Pod BuildJobExample.job; job_Status := status |}.
Definition ours : gmap string string :=
  {[AnnotationBuildName := "shop-1"; AnnotationBuildNamespace := "orkano-apps"]}.
Definition complete : JobStatus :=
  {| js_StartTime := Some 10%Z; js_CompletionTime := Some 90%Z; js_Active := 0;
     js_Conditions := [{| jc_Type := JobComplete; jc_Status := ConditionTrue; jc_Reason := "";
                          jc_Message := ""; jc_LastTransitionTime := 90%Z |}] |}.
Definition pinned : string := "registry/shop@sha256:00".

(** A cluster holding one Build; [cached] and [live] are the Job as the cache and
    the API server have it. *)
Definition cluster (b : Build) (cached live : option Job) (X : Set) (e : BuildE X) (s : unit) : X * unit :=
  let found (j : option Job) := match j with Some j => Ok j | None => Err (NotFound "no such Job") end in
  (match e in BuildE X return X with
   | GetBuild _ => Ok b
   | GetJob _ => found cached
   | LiveGetJob _ => found live
   | CreateJob _ => Ok ()
   | DeleteJob _ => Ok ()
   | LiveListPods _ _ => Ok []
   | UpdateBuild b => Ok b
   | UpdateBuildStatus _ => Ok ()
   | ResolveDigest _ => Ok pinned
   end, s).
Definition reconciled (b : Build) (cached live : option Job)
    : list BuildError * list (call BuildE) * unit :=
  run (cluster b cached live) (Reconcile reconciler req) ().

Lemma reconciled_exec b cached live :
  exec (Reconcile reconciler req) (reconciled b cached live).1.2 (reconciled b cached live).1.1.
Proof. apply run_exec. Qed.

(** A running Build whose Job completed. *)
Definition finishing : list BuildError * list (call BuildE) * unit :=
  reconciled (build BuildRunning None) (Some (job_with complete ours)) None.
Definition finishing_writes : list Build := omap status_written finishing.1.2.
Definition done_build : Build := default (build "" None) (head finishing_writes).
Lemma finishing_written : done_build ∈ omap status_written finishing.1.2.
Proof. vm_compute. left. Qed.
Lemma finishing_subresource : status_subresource finishing.1.2.
Proof. intros b b' Hin. vm_compute in Hin. apply list_elem_of_singleton in Hin. by simplify_eq. Qed.

(** A Build being deleted. *)
Definition doomed : Build :=
  let m := build_Meta (build BuildRunning None) in
  {| build_Meta := {| meta_Namespace := meta_Namespace m; meta_Name := meta_Name m; meta_UID := "u";
       meta_Generation := 1; meta_CreationTimestamp := Some 1%Z; meta_DeletionTimestamp := Some 2%Z;
       meta_Labels := ∅; meta_Annotations := ∅; meta_Finalizers := [buildFinalizer];
       meta_OwnerReferences := [] |};
     build_Spec := build_Spec (build BuildRunning None); build_Status := build_Status (build BuildRunning None) |}.
End BuildControllerExample.

Lemma terminal_build_closed_witness :
  length (BuildControllerExample.reconciled (BuildControllerExample.build BuildFailed None) None None).1.2 = 1.
Proof.
  eapply (@terminal_build_closed ascii_tables sample_kube_lib _ _ _ _
    (BuildControllerExample.build BuildFailed None));
    [apply BuildControllerExample.reconciled_exec|reflexivity..].
Defined.

Lemma succeeded_is_pinned_witness : ∃ inv, Compose (Some BuildControllerExample.done_build) "" = Ok inv.
Proof.
  destruct (@succeeded_is_pinned ascii_tables sample_kube_lib BuildControllerExample.reconciler
    BuildControllerExample.req _ _ BuildControllerExample.done_build
    (BuildControllerExample.reconciled_exec _ _ _) BuildControllerExample.finishing_subresource
    BuildControllerExample.finishing_written ltac:(vm_compute; reflexivity)) as (inv & Hc & _).
  by exists inv.
Defined.

Lemma phase_never_regresses_witness :
  phase_rank BuildRunning ≤ phase_rank (build_Phase (build_Status BuildControllerExample.done_build)).
Proof.
  apply (@phase_never_regresses ascii_tables sample_kube_lib BuildControllerExample.reconciler
    BuildControllerExample.req _ _ (BuildControllerExample.build BuildRunning None)
    BuildControllerExample.done_build (BuildControllerExample.reconciled_exec _ _ _)
    BuildControllerExample.finishing_subresource eq_refl BuildControllerExample.finishing_written).
Defined.

Lemma deletion_only_own_job_witness :
  meta_DeletionTimestamp (build_Meta BuildControllerExample.doomed) ≠ None.
Proof.
  set (job := BuildControllerExample.job_with no_job_status BuildControllerExample.ours).
  destruct (@deletion_only_own_job ascii_tables sample_kube_lib BuildControllerExample.reconciler
    BuildControllerExample.req _ _ BuildControllerExample.doomed
    (BuildControllerExample.reconciled_exec BuildControllerExample.doomed (Some job) None) eq_refl) as [Hd _].
  apply (Hd job (Ok ())). vm_compute. left.
Defined.

Definition gated_build : Build :=
  let b := BuildJobExample.build "shop-1" in
  {| build_Meta := build_Meta b; build_Status := no_build_status;
     build_Spec := {| build_AppName := "shop"; build_Commit := BuildJobExample.commit;
       build_Source := build_Source (build_Spec b); build_TimeoutSeconds := 0;
       build_Strategy := {| strategy_Strategy := StrategyNixpacks; strategy_Dockerfile := None;
         strategy_Static := None; strategy_Nixpacks := Some {| nixpacks_ConfigPath := "" |} |} |} |}.

Lemma feature_gate_stops_new_jobs_witness :
  (∃ job, ownsJob gated_build job = true) ∨
  omap job_created (BuildControllerExample.reconciled gated_build None None).1.2 = [].
Proof.
  destruct (@feature_gate_stops_new_jobs ascii_tables sample_kube_lib BuildControllerExample.reconciler
    BuildControllerExample.req _ _ gated_build (BuildControllerExample.reconciled_exec gated_build None None)
    eq_refl eq_refl eq_refl eq_refl ltac:(discriminate)) as [(job & Ho & _)|[Hc _]]; [left; by exists job|by right].
Defined.

Lemma one_job_per_build_witness :
  omap job_created (BuildControllerExample.reconciled (BuildControllerExample.build "" None) None None).1.2 =
  [BuildJobExample.job].
Proof.
  apply (@one_job_per_build ascii_tables sample_kube_lib BuildControllerExample.reconciler
    BuildControllerExample.req _ _ BuildJobExample.job (BuildControllerExample.reconciled_exec _ _ _)).
  vm_compute. left.
Defined.

(** One path skips the ownership check: when the Build records a Job, the cache
    has lost it and the uncached read returns a Job of the same name with foreign
    annotations, that Job is observed as the Build's own and its completion is
    written as the Build's success. *)
Theorem vanished_job_path_adopts_foreign :
  let ref := Some {| jobref_Namespace := Namespace; jobref_Name := "shop-1" |} in
  let b := BuildControllerExample.build BuildRunning ref in
  let foreign := BuildControllerExample.job_with BuildControllerExample.complete ∅ in
  let run := BuildControllerExample.reconciled b None (Some foreign) in
  ownsJob b foreign = false ∧ run.1.1 = [] ∧
  (build_Phase ∘ build_Status) <$> omap status_written run.1.2 = [BuildSucceeded].
Proof. vm_compute. done. Qed.
