(* ===== verification/AppController.v ===== *)
(** * The App controller

    Models [operator/internal/controller/app_controller.go]: the reconciler that
    derives an App's image from its Builds and maintains its Deployment and
    Service.  [controllerutil.CreateOrUpdate] is library code: a call that is
    given the function the controller mutates the object with, and answers with
    an arbitrary object or error; the theorems are about the function it was
    given.  The client calls have arbitrary replies. *)
From S2P Require Import Prelude Regex GoStrings Effects Kube Api.
From Stdlib Require Import Ascii.

(** ** Constants *)
Definition appLabel : string := "app.orkano.io/app".
Definition managedByLabel : string := "app.kubernetes.io/managed-by".
Definition managedByValue : string := "orkano".
Definition defaultWebPort : Z := 8080.
Definition portEnvName : string := "PORT".
Definition containerName : string := "app".
Definition servicePortName : string := "http".
Definition reasonWaitingForBuild : string := "WaitingForBuild".
Definition reasonInvalidImage : string := "InvalidImage".
Definition reasonReconcileError : string := "ReconcileError".
Definition reasonProgressing : string := "Progressing".
Definition reasonAvailable : string := "Available".

(** ** Rendering *)
Definition workloadType (app : App) : string :=
  if decide (app_Type (app_Spec app) = "") then WorkloadWeb else app_Type (app_Spec app).

Definition webPort (app : App) : Z := default defaultWebPort (app_Port (app_Spec app)).

Definition selectorLabels (app : App) : gmap string string := {[appLabel := meta_Name (app_Meta app)]}.

Definition container_env (e : EnvVar) : CoreEnvVar :=
  match env_SecretRef e with
  | None => {| cenv_Name := env_Name e; cenv_Value := env_Value e; cenv_ValueFrom := None |}
  | Some s => {| cenv_Name := env_Name e; cenv_Value := "";
                 cenv_ValueFrom := Some {| sel_Name := secretref_Name s; sel_Key := secretref_Key s |} |}
  end.

Definition containerEnv (app : App) : list CoreEnvVar :=
  let userSetsPort := existsb (λ e, bool_decide (env_Name e = portEnvName)) (app_Env (app_Spec app)) in
  (container_env <$> app_Env (app_Spec app)) ++
  (if bool_decide (workloadType app = WorkloadWeb) && negb userSetsPort then
     [{| cenv_Name := portEnvName; cenv_Value := pretty (webPort app); cenv_ValueFrom := None |}]
   else []).

Definition opt_map (key : string) (q : option Quantity) : gmap string Quantity :=
  match q with Some q => {[key := q]} | None => ∅ end.

Definition containerResources (res : option Resources) : ResourceRequirements :=
  match res with
  | None => no_resources
  | Some res =>
      {| res_Requests := opt_map ResourceCPU (resources_CPU res) ∪ opt_map ResourceMemory (resources_Memory res);
         res_Limits := opt_map ResourceMemory (resources_Memory res) |}
  end.

Definition probes (app : App) (port : Z) : option Probe * option Probe :=
  let probe handler period :=
    {| probe_Handler := handler; probe_PeriodSeconds := period; probe_TimeoutSeconds := 2;
       probe_SuccessThreshold := 1; probe_FailureThreshold := 3 |} in
  match app_HealthCheck (app_Spec app) with
  | Some hc =>
      let httpGet := HTTPGet (health_Path hc) (FromInt32 port) "HTTP" in
      (Some (probe httpGet 10%Z), Some (probe httpGet 20%Z))
  | None => (Some (probe (TCPSocket (FromInt32 port)) 10%Z), None)
  end.

(** [corev1.Container{Name: containerName}] *)
Definition empty_container : Container :=
  {| c_Name := containerName; c_Image := ""; c_Command := []; c_Args := []; c_Env := [];
     c_Resources := no_resources; c_SecurityContext := None; c_VolumeMounts := []; c_Ports := [];
     c_ReadinessProbe := None; c_LivenessProbe := None; c_StartupProbe := None; c_ImagePullPolicy := "";
     c_TerminationMessagePath := "" |}.

(** The container the code assigns to: the existing one if it is ours. *)
Definition own_container (containers : list Container) : Container :=
  match containers with
  | [c] => if decide (c_Name c = containerName) then c else empty_container
  | _ => empty_container
  end.

Definition mutate_container (app : App) (c : Container) : Container :=
  let web := bool_decide (workloadType app = WorkloadWeb) in
  let port := webPort app in
  {| c_Name := c_Name c; c_Image := app_Image (app_Status app); c_Command := app_Command (app_Spec app);
     c_Args := c_Args c; c_Env := containerEnv app; c_Resources := containerResources (app_Resources (app_Spec app));
     c_SecurityContext := c_SecurityContext c; c_VolumeMounts := c_VolumeMounts c;
     c_Ports := if web then [{| cp_Name := servicePortName; cp_ContainerPort := port; cp_Protocol := "TCP" |}] else [];
     c_ReadinessProbe := if web then (probes app port).1 else None;
     c_LivenessProbe := if web then (probes app port).2 else None;
     c_StartupProbe := c_StartupProbe c;
     c_ImagePullPolicy := c_ImagePullPolicy c; c_TerminationMessagePath := c_TerminationMessagePath c |}.

Definition own_labels (app : App) (ls : gmap string string) : gmap string string :=
  <[managedByLabel := managedByValue]> (<[appLabel := meta_Name (app_Meta app)]> ls).

Definition mutateDeployment (app : App) (d : Deployment) : Deployment :=
  let pod := dep_Pod d in
  {| dep_Meta := set_labels (dep_Meta d) (own_labels app (meta_Labels (dep_Meta d)));
     dep_Replicas := app_Replicas (app_Spec app);
     dep_Selector := selectorLabels app;
     dep_TemplateLabels := selectorLabels app;
     dep_TemplateAnnotations := dep_TemplateAnnotations d;
     dep_Pod := {| pod_RestartPolicy := pod_RestartPolicy pod;
                   pod_ServiceAccountName := pod_ServiceAccountName pod;
                   pod_AutomountServiceAccountToken := pod_AutomountServiceAccountToken pod;
                   pod_InitContainers := pod_InitContainers pod;
                   pod_Containers := [mutate_container app (own_container (pod_Containers pod))];
                   pod_Volumes := pod_Volumes pod; pod_HostNetwork := pod_HostNetwork pod;
                   pod_SecurityContext := pod_SecurityContext pod |};
     dep_AvailableReplicas := dep_AvailableReplicas d |}.

Definition mutateService (app : App) (s : Service) : Service :=
  {| svc_Meta := set_labels (svc_Meta s) (own_labels app (meta_Labels (svc_Meta s)));
     svc_Type := "ClusterIP";
     svc_Selector := selectorLabels app;
     svc_Ports := [{| sp_Name := servicePortName; sp_Port := 80; sp_TargetPort := FromString servicePortName;
                      sp_Protocol := "TCP" |}];
     svc_ClusterIP := svc_ClusterIP s |}.

(** ** Builds *)

(** The zero [metav1.Time] is the first of January of year 1. *)
Definition time_value (t : option Time) : Z := default (-62135596800)%Z t.
Definition created_at (b : Build) : Z := time_value (meta_CreationTimestamp (build_Meta b)).

Definition newerBuild (a b : Build) : bool :=
  if negb (created_at a =? created_at b)%Z then (created_at b <? created_at a)%Z
  else negb (bool_decide (String.le (meta_Name (build_Meta a)) (meta_Name (build_Meta b)))).

(** The order [sort.Slice] establishes. *)
Definition build_order (a b : Build) : Prop := newerBuild b a = false.

#[export] Instance build_order_dec : RelDecision build_order.
Proof. intros a b. unfold build_order. apply _. Defined.

Definition with_image (s : AppStatus) (image : string) : AppStatus :=
  {| app_ObservedGeneration := app_ObservedGeneration s; app_Conditions := app_Conditions s;
     app_Image := image; app_URL := app_URL s; app_AvailableReplicas := app_AvailableReplicas s;
     app_LatestBuild := app_LatestBuild s |}.
Definition with_latest (s : AppStatus) (latest : string) : AppStatus :=
  {| app_ObservedGeneration := app_ObservedGeneration s; app_Conditions := app_Conditions s;
     app_Image := app_Image s; app_URL := app_URL s; app_AvailableReplicas := app_AvailableReplicas s;
     app_LatestBuild := latest |}.
Definition with_available (s : AppStatus) (n : Z) : AppStatus :=
  {| app_ObservedGeneration := app_ObservedGeneration s; app_Conditions := app_Conditions s;
     app_Image := app_Image s; app_URL := app_URL s; app_AvailableReplicas := n;
     app_LatestBuild := app_LatestBuild s |}.
Definition with_conditions (s : AppStatus) (cs : list Condition) : AppStatus :=
  {| app_ObservedGeneration := app_ObservedGeneration s; app_Conditions := cs;
     app_Image := app_Image s; app_URL := app_URL s; app_AvailableReplicas := app_AvailableReplicas s;
     app_LatestBuild := app_LatestBuild s |}.
Definition with_observed (s : AppStatus) (g : Z) : AppStatus :=
  {| app_ObservedGeneration := g; app_Conditions := app_Conditions s;
     app_Image := app_Image s; app_URL := app_URL s; app_AvailableReplicas := app_AvailableReplicas s;
     app_LatestBuild := app_LatestBuild s |}.
Definition on_status (f : AppStatus → AppStatus) (app : App) : App :=
  {| app_Meta := app_Meta app; app_Spec := app_Spec app; app_Status := f (app_Status app) |}.

(** The loop over the sorted Builds. *)
Fixpoint first_image (builds : list Build) (image : string) : string :=
  match builds with
  | [] => image
  | b :: builds =>
      if bool_decide (build_Phase (build_Status b) = BuildSucceeded) &&
         negb (bool_decide (build_Image (build_Status b) = ""))
      then build_Image (build_Status b)
      else first_image builds image
  end.

Definition derive_status (builds : list Build) (s : AppStatus) : AppStatus :=
  let sorted := merge_sort build_order builds in
  match sorted with
  | [] => s
  | newest :: _ => with_image (with_latest s (meta_Name (build_Meta newest))) (first_image sorted (app_Image s))
  end.

(** ** The reconciler *)

(** Why [CreateOrUpdate] failed: the mutation refused, or the API server did. *)
Inductive ApplyError : Set :=
| MutateFailed (err : string)
| ApiFailed (err : ApiError).

Inductive AppE : Set → Type :=
| GetApp (key : NamespacedName) : AppE (result ApiError App)
| ListAppBuilds (namespace appName : string) : AppE (result ApiError (list Build))
| ApplyDeployment (key : NamespacedName) (mutate : Deployment → result string Deployment)
    : AppE (result ApplyError Deployment)
| GetService (key : NamespacedName) : AppE (result ApiError Service)
| DeleteService (svc : Service) : AppE (result ApiError unit)
| ApplyService (key : NamespacedName) (mutate : Service → result string Service)
    : AppE (result ApplyError Service)
| UpdateAppStatus (app : App) : AppE (result ApiError unit).

Inductive AppError : Set :=
| GettingApp (err : ApiError)
| ObservingBuilds (err : ApiError)
| NotPinned (text : string)
| ReconcilingDeployment (err : ApplyError)
| CheckingService (err : ApiError)
| DeletingService (err : ApiError)
| ReconcilingService (err : ApplyError)
| UpdatingAppStatus (err : ApiError).

Definition apply_text (e : ApplyError) : string :=
  match e with MutateFailed t => t | ApiFailed e => api_text e end.
Definition apply_conflict (e : ApplyError) : bool :=
  match e with MutateFailed _ => false | ApiFailed e => IsConflict e end.

(** [err.Error()] *)
Definition app_error_text (e : AppError) : string :=
  match e with
  | GettingApp e => api_text e
  | ObservingBuilds e => "observing Builds: " +:+ api_text e
  | NotPinned t => t
  | ReconcilingDeployment e => "reconciling Deployment: " +:+ apply_text e
  | CheckingService e => "checking Service for non-Web app: " +:+ api_text e
  | DeletingService e => "deleting Service for non-Web app: " +:+ api_text e
  | ReconcilingService e => "reconciling Service: " +:+ apply_text e
  | UpdatingAppStatus e => "updating App status: " +:+ api_text e
  end.

(** [apierrors.IsConflict(err)], which looks through wrapping *)
Definition app_error_conflict (e : AppError) : bool :=
  match e with
  | NotPinned _ => false
  | ReconcilingDeployment e | ReconcilingService e => apply_conflict e
  | GettingApp e | ObservingBuilds e | CheckingService e | DeletingService e | UpdatingAppStatus e => IsConflict e
  end.

Section reconciler.
Context `{UnicodeTables, KubeLib}.

Definition setReady (status reason message : string) (app : App) : App :=
  on_status (λ s, with_conditions s (SetStatusCondition (app_Conditions s)
    {| cond_Type := ConditionReady; cond_Status := status;
       cond_ObservedGeneration := meta_Generation (app_Meta app); cond_Reason := reason;
       cond_Message := message; cond_LastTransitionTime := None |})) app.

Definition updateStatus (app : App) (before : AppStatus) : prog AppE (option AppError) :=
  let app := on_status (λ s, with_observed s (meta_Generation (app_Meta app))) app in
  if decide (before = app_Status app) then Ret None
  else
    let! w := trigger (UpdateAppStatus app) in
    Ret (match w with Ok _ => None | Err e => Some (UpdatingAppStatus e) end).

Definition failReady (app : App) (before : AppStatus) (reason : string) (err : AppError)
    : prog AppE (option AppError) :=
  if app_error_conflict err then Ret (Some err)
  else
    let! _ := updateStatus (setReady ConditionFalse reason (app_error_text err) app) before in
    Ret (Some err).

Definition observeBuilds (app : App) : prog AppE (result ApiError App) :=
  let! l := trigger (ListAppBuilds (meta_Namespace (app_Meta app)) (meta_Name (app_Meta app))) in
  Ret (map_ok (λ builds, on_status (derive_status builds) app) l).

(** The function handed to [CreateOrUpdate] for the Deployment. *)
Definition deployment_mutation (app : App) (d : Deployment) : result string Deployment :=
  if has (meta_CreationTimestamp (dep_Meta d)) && negb (has (GetControllerOf (dep_Meta d))) then
    Err ("existing Deployment " +:+ meta_Namespace (dep_Meta d) +:+ "/" +:+ meta_Name (dep_Meta d) +:+
         " is not managed by Orkano; rename the App or delete the Deployment")
  else
    let d := mutateDeployment app d in
    match SetControllerReference (app_Meta app) (dep_Meta d) with
    | Err e => Err (owner_text e)
    | Ok m => Ok {| dep_Meta := m; dep_Replicas := dep_Replicas d; dep_Selector := dep_Selector d;
                    dep_TemplateLabels := dep_TemplateLabels d;
                    dep_TemplateAnnotations := dep_TemplateAnnotations d; dep_Pod := dep_Pod d;
                    dep_AvailableReplicas := dep_AvailableReplicas d |}
    end.

Definition service_mutation (app : App) (s : Service) : result string Service :=
  if has (meta_CreationTimestamp (svc_Meta s)) && negb (has (GetControllerOf (svc_Meta s))) then
    Err ("existing Service " +:+ meta_Namespace (svc_Meta s) +:+ "/" +:+ meta_Name (svc_Meta s) +:+
         " is not managed by Orkano; rename the App or delete the Service")
  else
    let s := mutateService app s in
    match SetControllerReference (app_Meta app) (svc_Meta s) with
    | Err e => Err (owner_text e)
    | Ok m => Ok {| svc_Meta := m; svc_Type := svc_Type s; svc_Selector := svc_Selector s;
                    svc_Ports := svc_Ports s; svc_ClusterIP := svc_ClusterIP s |}
    end.

(** The Service of a Web App, or its removal; [None] when all is well. *)
Definition reconcileService (app : App) (req : NamespacedName) : prog AppE (option AppError) :=
  if decide (workloadType app ≠ WorkloadWeb) then
    let! g := trigger (GetService req) in
    match g with
    | Err e => Ret (if IsNotFound e then None else Some (CheckingService e))
    | Ok svc =>
        if IsControlledBy (svc_Meta svc) (app_Meta app) then
          let! x := trigger (DeleteService svc) in
          Ret (match x with
               | Err e => if IsNotFound e then None else Some (DeletingService e)
               | Ok _ => None
               end)
        else Ret None
    end
  else
    let! x := trigger (ApplyService (ObjectKey (app_Meta app)) (service_mutation app)) in
    Ret (match x with Ok _ => None | Err e => Some (ReconcilingService e) end).

(** The end of a reconcile: replicas and the Ready condition. *)
Definition reportReady (app : App) (available : Z) (before : AppStatus) : prog AppE (option AppError) :=
  let app := on_status (λ s, with_available s available) app in
  let desired := default 1%Z (app_Replicas (app_Spec app)) in
  let replicas := pretty available +:+ "/" +:+ pretty desired +:+ " replicas available" in
  if decide (desired ≤ available)%Z then updateStatus (setReady ConditionTrue reasonAvailable replicas app) before
  else updateStatus (setReady ConditionFalse reasonProgressing replicas app) before.

Definition Reconcile (req : NamespacedName) : prog AppE (option AppError) :=
  let! g := trigger (GetApp req) in
  match g with
  | Err e => Ret (if IsNotFound e then None else Some (GettingApp e))
  | Ok app =>
    if has (meta_DeletionTimestamp (app_Meta app)) then Ret None
    else
    let before := app_Status app in
    let! o := observeBuilds app in
    match o with
    | Err e => Ret (Some (ObservingBuilds e))
    | Ok app =>
      if decide (app_Image (app_Status app) = "") then
        updateStatus (setReady ConditionFalse reasonWaitingForBuild
          "no successful Build has produced an image yet" app) before
      else if negb (Contains (app_Image (app_Status app)) "@sha256:") then
        failReady app before reasonInvalidImage
          (NotPinned ("refusing non-digest-pinned image " +:+ Quote (app_Image (app_Status app))))
      else
      let! d := trigger (ApplyDeployment (ObjectKey (app_Meta app)) (deployment_mutation app)) in
      match d with
      | Err e => failReady app before reasonReconcileError (ReconcilingDeployment e)
      | Ok deploy =>
        let! s := reconcileService app req in
        match s with
        | Some e => failReady app before reasonReconcileError e
        | None => reportReady app (dep_AvailableReplicas deploy) before
        end
      end
    end
  end.
End reconciler.

Definition mapBuildToApp (b : Build) : list NamespacedName :=
  if decide (build_AppName (build_Spec b) = "") then []
  else [{| key_Namespace := meta_Namespace (build_Meta b); key_Name := build_AppName (build_Spec b) |}].

(** ** The order of Builds *)
Lemma build_order_spec a b :
  build_order a b ↔ (created_at b < created_at a)%Z ∨
    created_at b = created_at a ∧ String.le (meta_Name (build_Meta b)) (meta_Name (build_Meta a)).
Proof.
  unfold build_order, newerBuild. destruct (created_at b =? created_at a)%Z eqn:He; simpl.
  - apply Z.eqb_eq in He. rewrite negb_false_iff, bool_decide_eq_true. split; [auto|].
    intros [?|[_ ?]]; [lia|done].
  - apply Z.eqb_neq in He. rewrite Z.ltb_ge. lia.
Qed.

#[export] Instance build_order_trans : Transitive build_order.
Proof.
  intros a b c. rewrite !build_order_spec. intros [?|[? ?]] [?|[? ?]]; [left; lia..|right].
  split; [congruence|]. by etrans.
Qed.

#[export] Instance build_order_total : Total build_order.
Proof.
  intros a b. rewrite !build_order_spec. destruct (Z.lt_total (created_at a) (created_at b)) as [?|[He|?]]; auto.
  destruct (total String.le (meta_Name (build_Meta a)) (meta_Name (build_Meta b))); auto.
Qed.

(** A Build that gives an image. *)
Definition usable (b : Build) : bool :=
  bool_decide (build_Phase (build_Status b) = BuildSucceeded) &&
  negb (bool_decide (build_Image (build_Status b) = "")).

Lemma first_image_spec builds image :
  StronglySorted build_order builds →
  (∃ b, b ∈ builds ∧ usable b = true ∧ first_image builds image = build_Image (build_Status b) ∧
    ∀ b', b' ∈ builds → usable b' = true → newerBuild b' b = false ∨ b' = b) ∨
  (Forall (λ b, usable b = false) builds ∧ first_image builds image = image).
Proof.
  induction 1 as [|b l Hs IH HF]; [by right|]. simpl. fold (usable b). destruct (usable b) eqn:Hu.
  - left. exists b. split_and!; [by left|done..|]. intros b' [->|Hb']%elem_of_cons Hu'; [by right|left].
    rewrite Forall_forall in HF. by apply HF.
  - destruct IH as [(b0 & Hin & Hu0 & Hf & Hmax)|[Hno Hf]]; [left; exists b0|right; by auto].
    split_and!; [by right|done..|]. intros b' [->|Hb']%elem_of_cons Hu'; [congruence|auto].
Qed.

(** ** Mutations *)
Section mutations.
Context `{UnicodeTables, KubeLib}.

Lemma deployment_mutation_Ok app d d' :
  deployment_mutation app d = Ok d' →
  dep_Pod d' = dep_Pod (mutateDeployment app d) ∧ dep_Selector d' = selectorLabels app ∧
  dep_TemplateLabels d' = selectorLabels app ∧ dep_Replicas d' = app_Replicas (app_Spec app) ∧
  (meta_CreationTimestamp (dep_Meta d) = None ∨ GetControllerOf (dep_Meta d) ≠ None) ∧
  SetControllerReference (app_Meta app) (dep_Meta (mutateDeployment app d)) = Ok (dep_Meta d').
Proof.
  unfold deployment_mutation. destruct (has _ && negb _) eqn:Hf; [done|].
  destruct (SetControllerReference _ _) as [m|e] eqn:Hs; [|done]. intros [= <-]. split_and!; try done.
  destruct (meta_CreationTimestamp _), (GetControllerOf _); simpl in Hf; auto.
Qed.

Lemma service_mutation_Ok app s s' :
  service_mutation app s = Ok s' → svc_Type s' = "ClusterIP" ∧ svc_Selector s' = selectorLabels app.
Proof.
  unfold service_mutation. destruct (_ && _); [done|].
  destruct (SetControllerReference _ _); [|done]. by intros [= <-].
Qed.
End mutations.

(** ** Observing executions *)
Definition deployed (c : call AppE) : option (NamespacedName * (Deployment → result string Deployment)) :=
  match c with Call (ApplyDeployment key mutate) _ => Some (key, mutate) | _ => None end.
Definition served (c : call AppE) : option (NamespacedName * (Service → result string Service)) :=
  match c with Call (ApplyService key mutate) _ => Some (key, mutate) | _ => None end.
Definition service_deleted (c : call AppE) : option Service :=
  match c with Call (DeleteService svc) _ => Some svc | _ => None end.

Definition read_app (c : call AppE) : option (result ApiError App) :=
  match c with
  | Call e x =>
      match e in AppE X return X → _ with
      | GetApp _ => λ x, Some x
      | _ => λ _, None
      end x
  end.

Section traces.
Context `{UnicodeTables, KubeLib}.

(** Calls that only write the status. *)
Definition only_status (tr : list (call AppE)) : Prop :=
  omap deployed tr = [] ∧ omap served tr = [] ∧ omap service_deleted tr = [].

Lemma updateStatus_only app before tr x : exec (updateStatus app before) tr x → only_status tr.
Proof.
  unfold updateStatus. case_decide; [by intros [-> _]|]. by intros (w & tr' & -> & -> & _).
Qed.

Lemma failReady_only app before reason err tr x :
  exec (failReady app before reason err) tr x → only_status tr ∧ x = Some err.
Proof.
  unfold failReady. destruct (app_error_conflict err); [by intros [-> ->]|]. rewrite exec_bind.
  intros (tr1 & tr2 & u & -> & Hu%updateStatus_only & [-> ->]). by rewrite app_nil_r.
Qed.

Lemma reportReady_only app n before tr x : exec (reportReady app n before) tr x → only_status tr.
Proof. unfold reportReady. case_decide; apply updateStatus_only. Qed.

Lemma only_status_app tr1 tr2 : only_status tr1 → only_status tr2 → only_status (tr1 ++ tr2).
Proof. unfold only_status. rewrite !omap_app. intros (-> & -> & ->) (-> & -> & ->). done. Qed.

(** What [reconcileService] does for each workload type. *)
Lemma reconcileService_spec app req tr x :
  exec (reconcileService app req) tr x →
  omap deployed tr = [] ∧
  (workloadType app = WorkloadWeb →
    omap served tr = [(ObjectKey (app_Meta app), service_mutation app)] ∧ omap service_deleted tr = []) ∧
  (workloadType app ≠ WorkloadWeb →
    omap served tr = [] ∧
    (∀ svc, svc ∈ omap service_deleted tr →
      IsControlledBy (svc_Meta svc) (app_Meta app) = true ∧ Call (GetService req) (Ok svc) ∈ tr) ∧
    (x = None → (∃ text, Call (GetService req) (Err (NotFound text)) ∈ tr) ∨
      ∃ svc, Call (GetService req) (Ok svc) ∈ tr ∧
        (IsControlledBy (svc_Meta svc) (app_Meta app) = true → svc ∈ omap service_deleted tr))).
Proof.
  unfold reconcileService. case_decide as Hw.
  - intros (g & tr1 & -> & Hk). cbn [prog_bind] in Hk. destruct g as [svc|e].
    + destruct (IsControlledBy _ _) eqn:Hc.
      * destruct Hk as (y & tr2 & -> & -> & ->). split_and!; [done..|]. intros _. split_and!; [done| |].
        -- intros s ->%list_elem_of_singleton. split; [done|by left].
        -- intros _. right. exists svc. split; [by left|]. intros _. by left.
      * destruct Hk as [-> ->]. split_and!; [done..|]. intros _. split_and!; [done|by intros ? ?%not_elem_of_nil|].
        intros _. right. exists svc. split; [by left|]. congruence.
    + destruct Hk as [-> ->]. split_and!; [done..|]. intros _. split_and!; [done|by intros ? ?%not_elem_of_nil|].
      destruct e as [text| | |]; simpl; [|done..]. intros _. left. exists text. by left.
  - intros (y & tr1 & -> & -> & ->). split_and!; [done| |done]. done.
Qed.

(** A reconcile that gets past the image check. *)
Definition rolls_out (req : NamespacedName) (tr : list (call AppE)) (app0 : App) (builds : list Build)
    (app : App) (rest : list (call AppE)) (x : option AppError) : Prop :=
  meta_DeletionTimestamp (app_Meta app0) = None ∧ app = on_status (derive_status builds) app0 ∧
  app_Image (app_Status app) ≠ "" ∧ Contains (app_Image (app_Status app)) "@sha256:" = true ∧
  ∃ d, tr = Call (GetApp req) (Ok app0) ::
      Call (ListAppBuilds (meta_Namespace (app_Meta app0)) (meta_Name (app_Meta app0))) (Ok builds) ::
      Call (ApplyDeployment (ObjectKey (app_Meta app)) (deployment_mutation app)) d :: rest ∧
    match d with
    | Err _ => only_status rest ∧ x ≠ None
    | Ok _ => ∃ tr1 s tr2, rest = tr1 ++ tr2 ∧ exec (reconcileService app req) tr1 s ∧ only_status tr2 ∧
        (s ≠ None → x = s)
    end.

Lemma Reconcile_cases req tr x :
  exec (Reconcile req) tr x → only_status tr ∨ ∃ app0 builds app rest, rolls_out req tr app0 builds app rest x.
Proof.
  intros (g & tr1 & -> & Hk). cbn [prog_bind] in Hk. destruct g as [app0|e]; [|left; by destruct Hk as [-> _]].
  destruct (meta_DeletionTimestamp (app_Meta app0)) eqn:Hd; simpl in Hk; [left; by destruct Hk as [-> _]|].
  destruct Hk as (l & tr2 & -> & Hk). cbn [prog_bind] in Hk.
  destruct l as [builds|e]; simpl in Hk; [|left; by destruct Hk as [-> _]].
  set (app := on_status (derive_status builds) app0) in *.
  assert (Hcons : ∀ t, only_status t → only_status (Call (GetApp req) (Ok app0) ::
    Call (ListAppBuilds (meta_Namespace (app_Meta app0)) (meta_Name (app_Meta app0))) (Ok builds) :: t))
    by (intros t Ht; exact Ht).
  case_decide as Hi; [left; apply Hcons; by eapply updateStatus_only|].
  destruct (Contains _ _) eqn:Hc; simpl in Hk; [|left; apply Hcons; by eapply failReady_only].
  destruct Hk as (d & tr3 & -> & Hk). cbn [prog_bind] in Hk. right. exists app0, builds, app, tr3.
  split_and!; [done..|]. exists d. split; [done|]. destruct d as [deploy|e].
  2:{ apply failReady_only in Hk as [? ->]. done. }
  apply exec_bind in Hk as (tr4 & tr5 & s & -> & Hs & Hk). exists tr4, s, tr5. split_and!; [done..| |].
  - destruct s; [by eapply failReady_only|by eapply reportReady_only].
  - destruct s; [|done]. intros _. by eapply failReady_only.
Qed.

Lemma rolls_out_deployed req tr app0 builds app rest x :
  rolls_out req tr app0 builds app rest x →
  omap deployed tr = [(ObjectKey (app_Meta app), deployment_mutation app)].
Proof.
  intros (_ & _ & _ & _ & d & -> & Hd). cbn. f_equal. destruct d as [deploy|e].
  - destruct Hd as (tr1 & s & tr2 & -> & Hs & Ho & _). rewrite omap_app.
    destruct (reconcileService_spec _ _ _ _ Hs) as (-> & _), Ho as (-> & _). done.
  - by destruct Hd as [(-> & _) _].
Qed.
End traces.

(** ** Properties *)

(** What an App's status says follows from its Builds: the latest Build is one
    that no listed Build is newer than, the image is that of the newest succeeded
    Build with an image, and when no Build is listed or none succeeded an image
    that was rolled out before is kept. *)
Theorem derive_status_spec builds s :
  let s' := derive_status builds s in
  (builds = [] → s' = s) ∧
  (builds ≠ [] → ∃ newest, newest ∈ builds ∧ app_LatestBuild s' = meta_Name (build_Meta newest) ∧
    ∀ b, b ∈ builds → newerBuild b newest = false ∨ b = newest) ∧
  ((∃ b, b ∈ builds ∧ usable b = true ∧ app_Image s' = build_Image (build_Status b) ∧
     ∀ b', b' ∈ builds → usable b' = true → newerBuild b' b = false ∨ b' = b) ∨
   (∀ b, b ∈ builds → usable b = false) ∧ app_Image s' = app_Image s) ∧
  (app_Image s ≠ "" → app_Image s' ≠ "").
Proof.
  intros s'. unfold s', derive_status.
  pose proof (StronglySorted_merge_sort build_order builds) as Hs.
  assert (Hp : ∀ b, b ∈ merge_sort build_order builds ↔ b ∈ builds) by (intros b; by rewrite merge_sort_Permutation).
  destruct (merge_sort build_order builds) as [|newest sorted] eqn:Hm.
  { destruct builds as [|b l]; [|exfalso; apply (not_elem_of_nil b), Hp; by left].
    split_and!; [done..| |done]. right. split; [|done]. by intros ? ?%not_elem_of_nil. }
  cbn [app_LatestBuild app_Image with_image with_latest].
  split_and!.
  - intros ->. assert (Hn : newest ∈ ([] : list Build)) by (apply Hp; by left). by apply not_elem_of_nil in Hn.
  - intros _. exists newest. split_and!; [apply Hp; by left|done|].
    intros b Hb%Hp. apply StronglySorted_inv in Hs as [_ HF]. rewrite Forall_forall in HF.
    apply elem_of_cons in Hb as [->|Hb]; [by right|left; by apply HF].
  - destruct (first_image_spec (newest :: sorted) (app_Image s) Hs) as [(b & Hb & Hu & Hf & Hmax)|[Hno Hf]];
      [left|right].
    + exists b. split_and!; [by apply Hp|done..|]. intros b' Hb'%Hp. by apply Hmax.
    + split; [|done]. intros b Hb%Hp. rewrite Forall_forall in Hno. by apply Hno.
  - intros Hi. destruct (first_image_spec (newest :: sorted) (app_Image s) Hs) as [(b & _ & Hu & -> & _)|[_ ->]];
      [|done]. unfold usable in Hu. apply andb_true_iff in Hu as [_ Hu].
    by apply negb_true_iff, bool_decide_eq_false in Hu.
Qed.

(** C30. Only digest-pinned images are rolled out: the Deployment is applied at most
    once per reconcile, with a mutation that refuses a Deployment someone else
    created and otherwise leaves exactly one container, named app, running the
    image the App's Builds give, which carries a sha256 digest; the workload's
    selector is the App's own label. *)
Theorem deployed_image_pinned `{UnicodeTables, KubeLib} req tr x key mutate :
  exec (Reconcile req) tr x → (key, mutate) ∈ omap deployed tr →
  omap deployed tr = [(key, mutate)] ∧
  ∃ app0 builds, head tr = Some (Call (GetApp req) (Ok app0)) ∧ key = ObjectKey (app_Meta app0) ∧
    Call (ListAppBuilds (meta_Namespace (app_Meta app0)) (meta_Name (app_Meta app0))) (Ok builds) ∈ tr ∧
    let image := app_Image (derive_status builds (app_Status app0)) in
    Contains image "@sha256:" = true ∧
    ∀ d d', mutate d = Ok d' →
      (meta_CreationTimestamp (dep_Meta d) = None ∨ GetControllerOf (dep_Meta d) ≠ None) ∧
      dep_Selector d' = {[appLabel := meta_Name (app_Meta app0)]} ∧
      ∃ c, pod_Containers (dep_Pod d') = [c] ∧ c_Image c = image ∧
        (∀ e, e ∈ c_Env c → cenv_ValueFrom e ≠ None → cenv_Value e = "").
Proof.
  intros [(Ho & _)|(app0 & builds & app & rest & Hr)]%Reconcile_cases Hin.
  { rewrite Ho in Hin. by apply not_elem_of_nil in Hin. }
  pose proof (rolls_out_deployed _ _ _ _ _ _ _ Hr) as Hd. rewrite Hd in Hin |- *.
  apply list_elem_of_singleton in Hin as [= -> ->]. split; [done|]. exists app0, builds.
  destruct Hr as (_ & -> & _ & Hc & d0 & -> & _). split_and!; [done..|right; by left|].
  intros image. split; [done|]. intros d d' (Hpod & Hsel & _ & _ & Hf & _)%deployment_mutation_Ok. split_and!; [done..|].
  rewrite Hpod. eexists. split_and!; [done..|]. cbn [mutate_container c_Env]. intros e.
  unfold containerEnv. rewrite elem_of_app, list_elem_of_fmap. intros [(v & -> & _)|He].
  - unfold container_env. by destruct (env_SecretRef v).
  - destruct (_ && _) in He; [|by apply not_elem_of_nil in He]. by apply list_elem_of_singleton in He as ->.
Qed.

(** The Service follows the workload type: a Web App's Service is applied as a
    ClusterIP on the App's selector and never deleted; for any other type none is
    applied, only a Service this App controls is deleted, and the reconcile
    reports success only after its Service is gone. *)
Theorem service_follows_type `{UnicodeTables, KubeLib} req tr x app0 :
  exec (Reconcile req) tr x → head tr = Some (Call (GetApp req) (Ok app0)) →
  (∀ key mutate, (key, mutate) ∈ omap served tr → workloadType app0 = WorkloadWeb ∧
    ∀ s s', mutate s = Ok s' → svc_Type s' = "ClusterIP" ∧ svc_Selector s' = {[appLabel := meta_Name (app_Meta app0)]}) ∧
  (∀ svc, svc ∈ omap service_deleted tr →
    workloadType app0 ≠ WorkloadWeb ∧ IsControlledBy (svc_Meta svc) (app_Meta app0) = true) ∧
  (x = None → omap deployed tr ≠ [] → workloadType app0 ≠ WorkloadWeb →
    (∃ text, Call (GetService req) (Err (NotFound text)) ∈ tr) ∨
    ∃ svc, Call (GetService req) (Ok svc) ∈ tr ∧
      (IsControlledBy (svc_Meta svc) (app_Meta app0) = true → svc ∈ omap service_deleted tr)).
Proof.
  intros [(Hdep & Hs & Hdel)|(app0' & builds & app & rest & Hr)]%Reconcile_cases Hh.
  { rewrite Hs, Hdel. split_and!; [by intros ? ? ?%not_elem_of_nil|by intros ? ?%not_elem_of_nil|done]. }
  destruct Hr as (_ & -> & _ & _ & d & -> & Hd).
  apply (f_equal (λ o, o ≫= read_app)) in Hh. simpl in Hh. injection Hh as ->.
  set (app := on_status (derive_status builds) app0) in *.
  change (omap served (_ :: _ :: _ :: rest)) with (omap served rest).
  change (omap service_deleted (_ :: _ :: _ :: rest)) with (omap service_deleted rest).
  destruct d as [deploy|e].
  2:{ destruct Hd as [(_ & -> & ->) Hx].
      split_and!; [by intros ? ? ?%not_elem_of_nil|by intros ? ?%not_elem_of_nil|done]. }
  destruct Hd as (tr1 & s & tr2 & -> & Hsvc & (_ & Ho1 & Ho2) & Hx).
  rewrite !omap_app, Ho1, Ho2, !app_nil_r.
  destruct (reconcileService_spec _ _ _ _ Hsvc) as (_ & Hweb & Hother).
  change (workloadType app) with (workloadType app0) in *. change (app_Meta app) with (app_Meta app0) in *.
  destruct (decide (workloadType app0 = WorkloadWeb)) as [Hw|Hw].
  - destruct (Hweb Hw) as [-> ->]. split_and!; [|by intros ? ?%not_elem_of_nil|done].
    intros key mutate [= -> ->]%list_elem_of_singleton. split; [done|]. intros sv sv'.
    by apply service_mutation_Ok.
  - destruct (Hother Hw) as (-> & Hd & Hn). split_and!; [by intros ? ? ?%not_elem_of_nil| |].
    + intros svc Hin. split; [done|]. by apply Hd.
    + intros -> _ _. destruct s as [e|]; [by specialize (Hx ltac:(done))|].
      destruct (Hn eq_refl) as [(text & Ht)|(svc & Ht & Hc)]; [left; exists text|right; exists svc]; [|split; [|done]];
        do 3 right; apply elem_of_app; by left.
Qed.

(** Reconciling settles: mutating a Deployment a second time changes nothing, so
    an unchanged App compares equal and is not written again; and everything the
    API server defaulted (pull policy, termination path, the pod's own settings)
    is left as found. *)
Theorem mutateDeployment_settles app d :
  let d' := mutateDeployment app d in
  mutateDeployment app d' = d' ∧
  pod_RestartPolicy (dep_Pod d') = pod_RestartPolicy (dep_Pod d) ∧
  pod_Volumes (dep_Pod d') = pod_Volumes (dep_Pod d) ∧
  (∀ c, pod_Containers (dep_Pod d) = [c] → c_Name c = containerName →
    ∃ c', pod_Containers (dep_Pod d') = [c'] ∧ c_ImagePullPolicy c' = c_ImagePullPolicy c ∧
      c_TerminationMessagePath c' = c_TerminationMessagePath c ∧ c_SecurityContext c' = c_SecurityContext c).
Proof.
  assert (Hname : ∀ cs, c_Name (own_container cs) = containerName).
  { intros [|c [|]]; simpl; try done. by case_decide. }
  intros d'. split_and!; [|done..|].
  - unfold d', mutateDeployment. cbn [dep_Meta dep_Pod pod_RestartPolicy pod_ServiceAccountName
      pod_AutomountServiceAccountToken pod_InitContainers pod_Containers pod_Volumes pod_HostNetwork
      dep_AvailableReplicas]. f_equal.
    + unfold set_labels. cbn. f_equal. unfold own_labels.
      rewrite (insert_insert_ne _ appLabel managedByLabel), insert_insert_eq by done.
      by rewrite insert_insert_eq.
    + f_equal. simpl. by rewrite decide_True by apply Hname.
  - intros c Hc Hn. unfold d'. cbn. rewrite Hc. simpl. rewrite decide_True by done. eexists. split; done.
Qed.

(** ** A worked example *)
Module AppControllerExample.
#[local] Instance tables : UnicodeTables := ascii_tables.
#[local] Instance lib : KubeLib := sample_kube_lib.
Definition no_status : AppStatus :=
  {| app_ObservedGeneration := 0; app_Conditions := []; app_Image := ""; app_URL := "";
     app_AvailableReplicas := 0; app_LatestBuild := "" |}.
Definition app (type : string) : App :=
  {| app_Meta := new_meta "orkano-apps" "shop" ∅ ∅;
     app_Spec := {| app_Source := {| source_GitHub := Some {| github_Repo := "acme/shop"; github_Ref := "" |};
                                     source_Git := None; source_Upload := None; source_SubPath := "" |};
                    app_Build := {| strategy_Strategy := StrategyDockerfile; strategy_Dockerfile := None;
                                    strategy_Static := None; strategy_Nixpacks := None |};
                    app_Type := type; app_Command := []; app_Port := None; app_Replicas := None;
                    app_Env := [{| env_Name := "TOKEN"; env_Value := ""; env_SecretRef :=
                      Some {| secretref_Name := "shop"; secretref_Key := "token" |} |}];
                    app_Resources := None; app_HealthCheck := None |};
     app_Status := no_status |}.
Definition build (name image : string) (t : Z) : Build :=
  {| build_Meta := {| meta_Namespace := "orkano-apps"; meta_Name := name; meta_UID := name;
       meta_Generation := 1; meta_CreationTimestamp := Some t; meta_DeletionTimestamp := None;
       meta_Labels := ∅; meta_Annotations := ∅; meta_Finalizers := []; meta_OwnerReferences := [] |};
     build_Spec := {| build_AppName := "shop"; build_Commit := ""; build_Source := app_Source (app_Spec (app ""));
       build_Strategy := app_Build (app_Spec (app "")); build_TimeoutSeconds := 0 |};
     build_Status := {| build_ObservedGeneration := 1;
       build_Phase := if decide (image = "") then BuildRunning else BuildSucceeded;
       build_Image := image; build_JobRef := None; build_StartedAt := None; build_CompletedAt := None;
       build_Conditions := [] |} |}.
Definition builds : list Build :=
  [build "shop-1" "r/shop@sha256:01" 10; build "shop-3" "" 30; build "shop-2" "r/shop@sha256:02" 20].
Definition deployment : Deployment :=
  {| dep_Meta := new_meta "orkano-apps" "shop" ∅ ∅; dep_Replicas := None; dep_Selector := ∅;
     dep_TemplateLabels := ∅; dep_TemplateAnnotations := ∅; dep_AvailableReplicas := 1;
     dep_Pod := {| pod_RestartPolicy := "Always"; pod_ServiceAccountName := "";
       pod_AutomountServiceAccountToken := None; pod_InitContainers := []; pod_Containers := [];
       pod_Volumes := []; pod_HostNetwork := false; pod_SecurityContext := None |} |}.
Definition service : Service :=
  {| svc_Meta := with_owners (new_meta "orkano-apps" "shop" ∅ ∅) [controls (app_Meta (app ""))];
     svc_Type := ""; svc_Selector := ∅; svc_Ports := []; svc_ClusterIP := "10.0.0.1" |}.
Definition req : NamespacedName := {| key_Namespace := "orkano-apps"; key_Name := "shop" |}.
Definition cluster (type : string) (X : Set) (e : AppE X) (s : unit) : X * unit :=
  (match e in AppE X return X with
   | GetApp _ => Ok (app type)
   | ListAppBuilds _ _ => Ok builds
   | ApplyDeployment _ mutate => match mutate deployment with Ok d => Ok d | Err e => Err (MutateFailed e) end
   | GetService _ => Ok service
   | DeleteService _ => Ok ()
   | ApplyService _ mutate => match mutate service with Ok s => Ok s | Err e => Err (MutateFailed e) end
   | UpdateAppStatus _ => Ok ()
   end, s).
Definition reconciled (type : string) : option AppError * list (call AppE) * unit :=
  run (cluster type) (Reconcile req) ().
Lemma app_reconciled_exec type : exec (Reconcile req) (reconciled type).1.2 (reconciled type).1.1.
Proof. apply run_exec. Qed.
Definition rolled_out : App := on_status (derive_status builds) (app "Web").
End AppControllerExample.

Lemma deployed_image_pinned_witness :
  omap deployed (AppControllerExample.reconciled "Web").1.2 =
  [(AppControllerExample.req, @deployment_mutation sample_kube_lib AppControllerExample.rolled_out)].
Proof.
  apply (@deployed_image_pinned ascii_tables sample_kube_lib AppControllerExample.req _ _ _ _
    (AppControllerExample.app_reconciled_exec "Web")). left.
Defined.

Lemma service_follows_type_witness :
  omap service_deleted (AppControllerExample.reconciled "Worker").1.2 = [AppControllerExample.service] ∧
  workloadType (AppControllerExample.app "Worker") ≠ WorkloadWeb.
Proof.
  split; [vm_compute; reflexivity|].
  destruct (@service_follows_type ascii_tables sample_kube_lib AppControllerExample.req _ _
    (AppControllerExample.app "Worker") (AppControllerExample.app_reconciled_exec "Worker") eq_refl) as (_ & Hd & _).
  apply (Hd AppControllerExample.service). vm_compute. left.
Defined.
