(* ===== verification/DomainController.v ===== *)
(** * The Domain controller

    Models [operator/internal/controller/domain_controller.go] with the Domain
    resource of [api/v1alpha1/domain_types.go]: which of several Domains claiming a
    host gets it, the Ingress of the winner, the Domain's conditions, and the URL
    it derives for the App.  The informer cache, the uncached reader and
    [CreateOrUpdate] are calls with arbitrary replies.  A Certificate is read as an
    unstructured object. *)
From S2P Require Import Prelude Regex GoStrings Effects Kube Api AppController.
From Stdlib Require Import Ascii.

(** ** Data *)
Definition ConditionCertificateReady : string := "CertificateReady".

Record DomainSpec : Set := { domain_Host : string; domain_AppRef : string }.
#[export] Instance DomainSpec_eq_dec : EqDecision DomainSpec.
Proof. solve_decision. Defined.

Record DomainStatus : Set := { domain_ObservedGeneration : Z; domain_Conditions : list Condition }.
#[export] Instance DomainStatus_eq_dec : EqDecision DomainStatus.
Proof. solve_decision. Defined.

Record Domain : Set := { domain_Meta : ObjectMeta; domain_Spec : DomainSpec; domain_Status : DomainStatus }.
#[export] Instance Domain_eq_dec : EqDecision Domain.
Proof. solve_decision. Defined.

(** [^[a-z0-9]([a-z0-9-]{0,61}[a-z0-9])?(\.[a-z0-9]([a-z0-9-]{0,61}[a-z0-9])?)+$] *)
Definition hostLabel : re :=
  Cat (Cls dns_char) (Opt (Cat (UpTo 61 (Cls (λ c, dns_char c || one_of "-" c))) (Cls dns_char))).
Definition hostPattern : re := Cat hostLabel (Plus (Cat (Lit "."%char) hostLabel)).

Definition valid_LocalObjectRef (name : string) : bool := (1 <=? RuneCount name) && (RuneCount name <=? 253).

Definition valid_Domain (d : Domain) : bool :=
  MatchString hostPattern (domain_Host (domain_Spec d)) && (len (domain_Host (domain_Spec d)) <=? 253) &&
  valid_LocalObjectRef (domain_AppRef (domain_Spec d)) && (len (meta_Name (domain_Meta d)) <=? 249).

(** The transition rules: both fields of the spec are immutable. *)
Definition valid_DomainUpdate (old new : Domain) : bool :=
  valid_Domain new && bool_decide (domain_Host (domain_Spec new) = domain_Host (domain_Spec old)) &&
  bool_decide (domain_AppRef (domain_Spec new) = domain_AppRef (domain_Spec old)).

(** [networkingv1.Ingress]: one HTTP path per rule is all Orkano writes. *)
Record IngressPath : Set := { path_Path : string; path_Type : string; path_Service : string; path_PortName : string }.
Record IngressRule : Set := { rule_Host : string; rule_Paths : list IngressPath }.
Record IngressTLS : Set := { tls_Hosts : list string; tls_SecretName : string }.
Record Ingress : Set := {
  ing_Meta : ObjectMeta;
  ing_ClassName : option string;
  ing_Rules : list IngressRule;
  ing_TLS : list IngressTLS;
}.

(** ** Constants *)
Definition domainFinalizer : string := "orkano.io/domain".
Definition clusterIssuerAnnotation : string := "cert-manager.io/cluster-issuer".
Definition tlsSecretSuffix : string := "-tls".
Definition reasonHostConflict : string := "HostConflict".
Definition reasonAppNotFound : string := "AppNotFound".
Definition reasonAppNotRoutable : string := "AppNotRoutable".
Definition reasonCertificatePending : string := "CertificatePending".
Definition ConditionUnknown : string := "Unknown".
Definition appsNamespace : string := "orkano-apps".

(** ** Calls and errors *)
Inductive DomainE : Set → Type :=
| GetDomain (key : NamespacedName) : DomainE (result ApiError Domain)
(** the object as the server returns it *)
| UpdateDomain (d : Domain) : DomainE (result ApiError Domain)
| ListByHost (host : string) : DomainE (result ApiError (list Domain))
| ListByApp (namespace appName : string) : DomainE (result ApiError (list Domain))
| GetIngress (key : NamespacedName) : DomainE (result ApiError Ingress)
| DeleteIngress (ing : Ingress) : DomainE (result ApiError unit)
| ApplyIngress (key : NamespacedName) (mutate : Ingress → result string Ingress) : DomainE (result ApplyError unit)
| GetCertificate (key : NamespacedName) : DomainE (result ApiError Any)
| GetDomainApp (key : NamespacedName) : DomainE (result ApiError App)
| ReadApp (key : NamespacedName) : DomainE (result ApiError App)
| UpdateAppURL (app : App) : DomainE (result ApiError unit)
| UpdateDomainStatus (d : Domain) : DomainE (result ApiError unit).

Inductive CertError : Set :=
| ReadingCertificate (err : ApiError)
| BadConditions (name err : string).

(** Why [updateAppURL] failed. *)
Inductive URLError : Set :=
| URLRead (err : ApiError)
| URLUpdate (appName : string) (err : ApiError).

Inductive DomainError : Set :=
| GettingDomain (err : ApiError)
| DeletionURL (err : URLError)
| RemovingFinalizer (err : ApiError)
| AddingFinalizer (err : ApiError)
| CheckingConflicts (err : ApiError)
| DeletingIngress (err : ApiError)
| RecomputingURL (err : URLError)
| ReconcilingIngress (err : ApplyError)
| ObservingCertificate (err : CertError)
| FetchingApp (appName : string) (err : ApiError)
| DerivingURL (err : URLError)
| UpdatingDomainStatus (err : ApiError).

Definition cert_error_text (e : CertError) : string :=
  match e with
  | ReadingCertificate e => api_text e
  | BadConditions name e => "reading Certificate " +:+ name +:+ " conditions: " +:+ e
  end.
Definition url_error_text (e : URLError) : string :=
  match e with
  | URLRead e => api_text e
  | URLUpdate appName e => "updating App " +:+ appName +:+ " status.url: " +:+ api_text e
  end.
Definition url_error_conflict (e : URLError) : bool :=
  match e with URLRead e | URLUpdate _ e => IsConflict e end.

Definition domain_error_text (e : DomainError) : string :=
  match e with
  | GettingDomain e => api_text e
  | DeletionURL e => "recomputing App URL on Domain deletion: " +:+ url_error_text e
  | RemovingFinalizer e => "removing finalizer: " +:+ api_text e
  | AddingFinalizer e => "adding finalizer: " +:+ api_text e
  | CheckingConflicts e => "checking host conflicts: " +:+ api_text e
  | DeletingIngress e => "deleting Ingress of conflicting Domain: " +:+ api_text e
  | RecomputingURL e => "recomputing App URL: " +:+ url_error_text e
  | ReconcilingIngress e => "reconciling Ingress: " +:+ apply_text e
  | ObservingCertificate e => "observing Certificate: " +:+ cert_error_text e
  | FetchingApp name e => "fetching App " +:+ name +:+ ": " +:+ api_text e
  | DerivingURL e => "deriving App URL: " +:+ url_error_text e
  | UpdatingDomainStatus e => "updating Domain status: " +:+ api_text e
  end.

Definition domain_error_conflict (e : DomainError) : bool :=
  match e with
  | DeletionURL e | RecomputingURL e | DerivingURL e => url_error_conflict e
  | ReconcilingIngress e => apply_conflict e
  | ObservingCertificate (BadConditions _ _) => false
  | ObservingCertificate (ReadingCertificate e) => IsConflict e
  | GettingDomain e | RemovingFinalizer e | AddingFinalizer e | CheckingConflicts e | DeletingIngress e
  | FetchingApp _ e | UpdatingDomainStatus e => IsConflict e
  end.

(** ** Who gets a host *)
Definition domain_created (d : Domain) : Z := time_value (meta_CreationTimestamp (domain_Meta d)).
Definition domain_name (d : Domain) : string := meta_Name (domain_Meta d).
Definition domain_namespace (d : Domain) : string := meta_Namespace (domain_Meta d).
Definition domain_key (d : Domain) : NamespacedName := ObjectKey (domain_Meta d).
Definition dying (d : Domain) : bool := has (meta_DeletionTimestamp (domain_Meta d)).

(** [a < b] on strings *)
Definition string_lt (a b : string) : bool := negb (bool_decide (String.le b a)).

Definition olderDomain (a b : Domain) : bool :=
  if negb (domain_created a =? domain_created b)%Z then (domain_created a <? domain_created b)%Z
  else if negb (bool_decide (domain_name a = domain_name b)) then string_lt (domain_name a) (domain_name b)
  else string_lt (domain_namespace a) (domain_namespace b).

(** One turn of the loops that look for the oldest. *)
Definition keep_older (best : option Domain) (d : Domain) : option Domain :=
  match best with
  | None => Some d
  | Some w => if olderDomain d w then Some d else best
  end.
Definition pick (best : option Domain) (d : Domain) : option Domain :=
  if dying d then best else keep_older best d.

(** [types.NamespacedName{}] when no Domain is left *)
Definition no_key : NamespacedName := {| key_Namespace := ""; key_Name := "" |}.
Definition winner_of (domains : list Domain) : NamespacedName :=
  match foldl pick None domains with Some w => domain_key w | None => no_key end.

Definition hostWinner (host : string) : prog DomainE (result ApiError NamespacedName) :=
  let! l := trigger (ListByHost host) in
  Ret (map_ok winner_of l).

(** ** The URL of an App *)
Fixpoint url_loop (domains : list Domain) (oldest : option Domain) : prog DomainE (result ApiError (option Domain)) :=
  match domains with
  | [] => Ret (Ok oldest)
  | d :: domains =>
      if dying d then url_loop domains oldest
      else
        let! w := hostWinner (domain_Host (domain_Spec d)) in
        match w with
        | Err e => Ret (Err e)
        | Ok winner =>
            if decide (winner ≠ domain_key d) then url_loop domains oldest
            else url_loop domains (keep_older oldest d)
        end
  end.

Definition url_of (oldest : option Domain) : string :=
  match oldest with Some d => "https://" +:+ domain_Host (domain_Spec d) | None => "" end.

Definition appURL (namespace appName : string) (app : App) : prog DomainE (result ApiError string) :=
  if decide (workloadType app = WorkloadWeb) then
    let! l := trigger (ListByApp namespace appName) in
    match l with
    | Err e => Ret (Err e)
    | Ok domains =>
        let! o := url_loop domains None in
        Ret (map_ok url_of o)
    end
  else Ret (Ok "").

Definition with_url (s : AppStatus) (url : string) : AppStatus :=
  {| app_ObservedGeneration := app_ObservedGeneration s; app_Conditions := app_Conditions s;
     app_Image := app_Image s; app_URL := url; app_AvailableReplicas := app_AvailableReplicas s;
     app_LatestBuild := app_LatestBuild s |}.

Definition updateAppURL (namespace appName : string) : prog DomainE (option URLError) :=
  let! g := trigger (ReadApp {| key_Namespace := namespace; key_Name := appName |}) in
  match g with
  | Err e => Ret (if IsNotFound e then None else Some (URLRead e))
  | Ok app =>
      let! u := appURL namespace appName app in
      match u with
      | Err e => Ret (Some (URLRead e))
      | Ok url =>
          if decide (app_URL (app_Status app) = url) then Ret None
          else
            let! w := trigger (UpdateAppURL (on_status (λ s, with_url s url) app)) in
            Ret (match w with Ok _ => None | Err e => Some (URLUpdate appName e) end)
      end
  end.

(** ** The Ingress and the Certificate *)
Definition tlsSecretName (d : Domain) : string := domain_name d +:+ tlsSecretSuffix.

Definition set_annotations (m : ObjectMeta) (a : gmap string string) : ObjectMeta :=
  {| meta_Namespace := meta_Namespace m; meta_Name := meta_Name m; meta_UID := meta_UID m;
     meta_Generation := meta_Generation m; meta_CreationTimestamp := meta_CreationTimestamp m;
     meta_DeletionTimestamp := meta_DeletionTimestamp m; meta_Labels := meta_Labels m;
     meta_Annotations := a; meta_Finalizers := meta_Finalizers m;
     meta_OwnerReferences := meta_OwnerReferences m |}.

Definition mutateIngress (clusterIssuer : string) (domain : Domain) (ing : Ingress) : Ingress :=
  let host := domain_Host (domain_Spec domain) in
  let app := domain_AppRef (domain_Spec domain) in
  {| ing_Meta := set_annotations
       (set_labels (ing_Meta ing)
         (<[managedByLabel := managedByValue]> (<[appLabel := app]> (meta_Labels (ing_Meta ing)))))
       (<[clusterIssuerAnnotation := clusterIssuer]> (meta_Annotations (ing_Meta ing)));
     ing_ClassName := ing_ClassName ing;
     ing_Rules := [{| rule_Host := host;
       rule_Paths := [{| path_Path := "/"; path_Type := "Prefix"; path_Service := app;
                         path_PortName := servicePortName |}] |}];
     ing_TLS := [{| tls_Hosts := [host]; tls_SecretName := tlsSecretName domain |}] |}.

(** The loop over the Certificate's conditions: status, reason and message of the
    first [Ready] condition with a known status. *)
Fixpoint ready_condition (conditions : list Any) : option (string * string * string) :=
  match conditions with
  | [] => None
  | AnyMap cond :: conditions =>
      match any_field cond "type" with
      | Some (AnyString "Ready") =>
          let status := any_string (any_field cond "status") in
          let reason := any_string (any_field cond "reason") in
          let message := any_string (any_field cond "message") in
          let reason := if decide (reason = "") then "Unknown" else reason in
          if decide (status ∈ [ConditionTrue; ConditionFalse; ConditionUnknown]) then Some (status, reason, message)
          else ready_condition conditions
      | _ => ready_condition conditions
      end
  | _ :: conditions => ready_condition conditions
  end.

(** ** The reconciler *)
Record DomainReconciler : Set := { dr_ClusterIssuer : string }.

Definition with_domain_status (d : Domain) (s : DomainStatus) : Domain :=
  {| domain_Meta := domain_Meta d; domain_Spec := domain_Spec d; domain_Status := s |}.
Definition with_domain_conditions (d : Domain) (cs : list Condition) : Domain :=
  with_domain_status d
    {| domain_ObservedGeneration := domain_ObservedGeneration (domain_Status d); domain_Conditions := cs |}.
Definition with_domain_finalizers (d : Domain) (fs : list string) : Domain :=
  {| domain_Meta := set_finalizers (domain_Meta d) fs; domain_Spec := domain_Spec d; domain_Status := domain_Status d |}.

Section reconciler.
Context `{KubeLib, UnstructuredLib} (r : DomainReconciler).

Definition setDomainCondition (domain : Domain) (condType status reason message : string) : Domain :=
  with_domain_conditions domain (SetStatusCondition (domain_Conditions (domain_Status domain))
    {| cond_Type := condType; cond_Status := status;
       cond_ObservedGeneration := meta_Generation (domain_Meta domain); cond_Reason := reason;
       cond_Message := message; cond_LastTransitionTime := None |}).

Definition setDomainReady (domain : Domain) (status reason message : string) : Domain :=
  setDomainCondition domain ConditionReady status reason message.

Definition updateStatus (domain : Domain) (before : DomainStatus) : prog DomainE (option DomainError) :=
  let domain := with_domain_status domain
    {| domain_ObservedGeneration := meta_Generation (domain_Meta domain);
       domain_Conditions := domain_Conditions (domain_Status domain) |} in
  if decide (before = domain_Status domain) then Ret None
  else
    let! w := trigger (UpdateDomainStatus domain) in
    Ret (match w with Ok _ => None | Err e => Some (UpdatingDomainStatus e) end).

Definition failReady (domain : Domain) (before : DomainStatus) (reason : string) (err : DomainError)
    : prog DomainE (option DomainError) :=
  if domain_error_conflict err then Ret (Some err)
  else
    let! _ := updateStatus (setDomainReady domain ConditionFalse reason (domain_error_text err)) before in
    Ret (Some err).

Definition deleteOwnIngress (domain : Domain) : prog DomainE (option ApiError) :=
  let! g := trigger (GetIngress (domain_key domain)) in
  match g with
  | Err e => Ret (if IsNotFound e then None else Some e)
  | Ok ing =>
      if IsControlledBy (ing_Meta ing) (domain_Meta domain) then
        let! x := trigger (DeleteIngress ing) in
        Ret (match x with Err e => if IsNotFound e then None else Some e | Ok _ => None end)
      else Ret None
  end.

(** The function handed to [CreateOrUpdate]. *)
Definition ingress_mutation (domain : Domain) (ing : Ingress) : result string Ingress :=
  if has (meta_CreationTimestamp (ing_Meta ing)) && negb (has (GetControllerOf (ing_Meta ing))) then
    Err ("existing Ingress " +:+ meta_Namespace (ing_Meta ing) +:+ "/" +:+ meta_Name (ing_Meta ing) +:+
         " is not managed by Orkano; rename the Domain or delete the Ingress")
  else
    let ing := mutateIngress (dr_ClusterIssuer r) domain ing in
    match SetControllerReference (domain_Meta domain) (ing_Meta ing) with
    | Err e => Err (owner_text e)
    | Ok m => Ok {| ing_Meta := m; ing_ClassName := ing_ClassName ing; ing_Rules := ing_Rules ing;
                    ing_TLS := ing_TLS ing |}
    end.

Definition observeCertificate (domain : Domain) : prog DomainE (result CertError (string * string * string)) :=
  let! g := trigger (GetCertificate {| key_Namespace := domain_namespace domain; key_Name := tlsSecretName domain |}) in
  Ret (match g with
       | Err e =>
           if IsNotFound e then
             Ok (ConditionUnknown, reasonCertificatePending,
                 "waiting for cert-manager to create Certificate " +:+ tlsSecretName domain)
           else Err (ReadingCertificate e)
       | Ok cert =>
           match NestedSlice cert ["status"; "conditions"] with
           | Err e => Err (BadConditions (GetName cert) e)
           | Ok conditions =>
               match ready_condition conditions with
               | Some c => Ok c
               | None => Ok (ConditionUnknown, reasonCertificatePending,
                             "Certificate " +:+ tlsSecretName domain +:+ " has no Ready condition yet")
               end
           end
       end).

(** The Domain is being deleted. *)
Definition reconcileDying (domain : Domain) : prog DomainE (option DomainError) :=
  if negb (ContainsFinalizer (meta_Finalizers (domain_Meta domain)) domainFinalizer) then Ret None
  else
    let! u := updateAppURL (domain_namespace domain) (domain_AppRef (domain_Spec domain)) in
    match u with
    | Some e => Ret (Some (DeletionURL e))
    | None =>
        let domain := with_domain_finalizers domain (RemoveFinalizer (meta_Finalizers (domain_Meta domain)) domainFinalizer) in
        let! w := trigger (UpdateDomain domain) in
        Ret (match w with Ok _ => None | Err e => Some (RemovingFinalizer e) end)
    end.

(** Another Domain has the host. *)
Definition reconcileLoser (domain : Domain) (before : DomainStatus) (winner : NamespacedName)
    : prog DomainE (option DomainError) :=
  let! x := deleteOwnIngress domain in
  match x with
  | Some e => failReady domain before reasonReconcileError (DeletingIngress e)
  | None =>
      let domain := with_domain_conditions domain
        (RemoveStatusCondition (domain_Conditions (domain_Status domain)) ConditionCertificateReady) in
      let domain := setDomainReady domain ConditionFalse reasonHostConflict
        ("host " +:+ domain_Host (domain_Spec domain) +:+ " is already claimed by older Domain " +:+
         key_Namespace winner +:+ "/" +:+ key_Name winner) in
      let! u := updateAppURL (domain_namespace domain) (domain_AppRef (domain_Spec domain)) in
      match u with
      | Some e => Ret (Some (RecomputingURL e))
      | None => updateStatus domain before
      end
  end.

(** What the App says about readiness. *)
Definition readiness (domain : Domain) (app : option App) (certReady certMessage : string) : Domain :=
  match app with
  | None => setDomainReady domain ConditionFalse reasonAppNotFound
      ("App " +:+ domain_AppRef (domain_Spec domain) +:+ " does not exist")
  | Some app =>
      if decide (workloadType app ≠ WorkloadWeb) then
        setDomainReady domain ConditionFalse reasonAppNotRoutable
          ("App " +:+ meta_Name (app_Meta app) +:+ " is a " +:+ workloadType app +:+ " app and serves no traffic")
      else if decide (certReady ≠ ConditionTrue) then
        setDomainReady domain ConditionFalse reasonCertificatePending
          ("certificate for " +:+ domain_Host (domain_Spec domain) +:+ " is not ready: " +:+ certMessage)
      else
        setDomainReady domain ConditionTrue reasonAvailable
          ("routing https://" +:+ domain_Host (domain_Spec domain) +:+ " to App " +:+ meta_Name (app_Meta app))
  end.

(** This Domain has the host. *)
Definition reconcileWinner (domain : Domain) (before : DomainStatus) : prog DomainE (option DomainError) :=
  let! i := trigger (ApplyIngress (domain_key domain) (ingress_mutation domain)) in
  match i with
  | Err e => failReady domain before reasonReconcileError (ReconcilingIngress e)
  | Ok _ =>
    let! c := observeCertificate domain in
    match c with
    | Err e => failReady domain before reasonReconcileError (ObservingCertificate e)
    | Ok (certReady, certReason, certMessage) =>
      let domain := setDomainCondition domain ConditionCertificateReady certReady certReason certMessage in
      let appRef := domain_AppRef (domain_Spec domain) in
      let! a := trigger (GetDomainApp {| key_Namespace := domain_namespace domain; key_Name := appRef |}) in
      match (match a with
             | Ok app => Ok (Some app)
             | Err e => if IsNotFound e then Ok None else Err e
             end) with
      | Err e => failReady domain before reasonReconcileError (FetchingApp appRef e)
      | Ok app =>
          let domain := readiness domain app certReady certMessage in
          let! u := updateAppURL (domain_namespace domain) appRef in
          match u with
          | Some e => Ret (Some (DerivingURL e))
          | None => updateStatus domain before
          end
      end
    end
  end.

(** The finalizer is in place and the host's owner is to be found. *)
Definition reconcileLive (domain : Domain) : prog DomainE (option DomainError) :=
  let before := domain_Status domain in
  let! w := hostWinner (domain_Host (domain_Spec domain)) in
  match w with
  | Err e => Ret (Some (CheckingConflicts e))
  | Ok winner =>
      if decide (winner ≠ domain_key domain) then reconcileLoser domain before winner
      else reconcileWinner domain before
  end.

Definition Reconcile (req : NamespacedName) : prog DomainE (option DomainError) :=
  let! g := trigger (GetDomain req) in
  match g with
  | Err e => Ret (if IsNotFound e then None else Some (GettingDomain e))
  | Ok domain =>
    if dying domain then reconcileDying domain
    else
    let '(finalizers, added) := AddFinalizer (meta_Finalizers (domain_Meta domain)) domainFinalizer in
    if added : bool then
      let! w := trigger (UpdateDomain (with_domain_finalizers domain finalizers)) in
      match w with
      | Err e => Ret (Some (AddingFinalizer e))
      | Ok domain => reconcileLive domain
      end
    else reconcileLive domain
  end.
End reconciler.

(** ** What wakes the reconciler *)
Definition mapCertificateToDomain (m : ObjectMeta) : list NamespacedName :=
  if decide (meta_Namespace m ≠ appsNamespace) then []
  else
    match CutSuffix (meta_Name m) tlsSecretSuffix with
    | Some name => if decide (name = "") then [] else [{| key_Namespace := meta_Namespace m; key_Name := name |}]
    | None => []
    end.

Definition keys_of (domains : list Domain) : list NamespacedName := domain_key <$> domains.
Definition peers_of (domain : Domain) (domains : list Domain) : list NamespacedName :=
  filter (λ k, k ≠ domain_key domain) (keys_of domains).

Definition mapDomainToHostPeers (domain : Domain) : prog DomainE (list NamespacedName) :=
  let! l := trigger (ListByHost (domain_Host (domain_Spec domain))) in
  Ret (match l with Err _ => [] | Ok domains => peers_of domain domains end).

Definition mapAppToDomains (m : ObjectMeta) : prog DomainE (list NamespacedName) :=
  let! l := trigger (ListByApp (meta_Namespace m) (meta_Name m)) in
  Ret (match l with Err _ => [] | Ok domains => keys_of domains end).

(** ** The order of Domains *)
Lemma string_lt_spec a b : string_lt a b = true ↔ ¬ String.le b a.
Proof. unfold string_lt. by rewrite negb_true_iff, bool_decide_eq_false. Qed.

Lemma string_not_lt a b : string_lt a b = false ↔ String.le b a.
Proof. unfold string_lt. by rewrite negb_false_iff, bool_decide_eq_true. Qed.

(** [a] is not older than [b]. *)
Lemma not_older a b :
  olderDomain a b = false ↔
  (domain_created b < domain_created a)%Z ∨ domain_created a = domain_created b ∧
    ((domain_name a ≠ domain_name b ∧ String.le (domain_name b) (domain_name a)) ∨
     domain_name a = domain_name b ∧ String.le (domain_namespace b) (domain_namespace a)).
Proof.
  unfold olderDomain. destruct (domain_created a =? domain_created b)%Z eqn:He; simpl.
  - apply Z.eqb_eq in He. case_bool_decide as Hn; simpl; rewrite string_not_lt; naive_solver lia.
  - apply Z.eqb_neq in He. rewrite Z.ltb_ge. lia.
Qed.

Lemma not_older_refl a : olderDomain a a = false.
Proof. rewrite not_older. right. split; [done|]. right. by split. Qed.

Lemma string_le_antisym a b : String.le a b → String.le b a → a = b.
Proof. intros. by apply (anti_symm String.le). Qed.

Lemma not_older_trans a b c : olderDomain a b = false → olderDomain b c = false → olderDomain a c = false.
Proof.
  rewrite !not_older. intros [?|[E1 H1]] [?|[E2 H2]]; [left; lia..|]. right. split; [congruence|].
  destruct H1 as [[N1 H1]|[N1 H1]], H2 as [[N2 H2]|[N2 H2]].
  - left. split; [|by etrans]. intros Heq. apply N1. rewrite Heq in *. by apply string_le_antisym.
  - left. by rewrite <- N2.
  - left. by rewrite N1.
  - right. split; [congruence|by etrans].
Qed.

Lemma not_older_total a b : olderDomain a b = true → olderDomain b a = false.
Proof.
  intros H. rewrite not_older. destruct (Z.lt_total (domain_created a) (domain_created b)) as [?|[E|Hlt]]; [by left| |].
  2:{ assert (olderDomain a b = false) by (rewrite not_older; by left). congruence. }
  right. split; [done|].
  destruct (decide (domain_name b = domain_name a)) as [En|Nn]; [right|left]; split; try done.
  - destruct (total String.le (domain_namespace a) (domain_namespace b)) as [?|Hle]; [done|].
    assert (olderDomain a b = false) by (rewrite not_older; naive_solver). congruence.
  - destruct (total String.le (domain_name a) (domain_name b)) as [?|Hle]; [done|].
    assert (olderDomain a b = false) by (rewrite not_older; naive_solver). congruence.
Qed.

(** Only one Domain can be the oldest. *)
Lemma not_older_antisym a b : olderDomain a b = false → olderDomain b a = false → domain_key a = domain_key b.
Proof.
  rewrite !not_older. intros [?|[E1 H1]] [?|[E2 H2]]; try lia. unfold domain_key, ObjectKey.
  fold (domain_namespace a) (domain_namespace b) (domain_name a) (domain_name b).
  destruct H1 as [[N1 H1]|[N1 H1]], H2 as [[N2 H2]|[N2 H2]]; try congruence.
  - destruct N1. by apply string_le_antisym.
  - rewrite N1. f_equal. by apply string_le_antisym.
Qed.

(** [w] is an oldest Domain of those in [P]. *)
Definition oldest (P : Domain → Prop) (w : Domain) : Prop := P w ∧ ∀ d, P d → olderDomain d w = false.

Lemma oldest_key P w w' : oldest P w → oldest P w' → domain_key w = domain_key w'.
Proof. intros [Hw Hmin] [Hw' Hmin']. apply not_older_antisym; auto. Qed.

(** What the loops find. *)
Lemma foldl_keep_older ds best :
  match foldl keep_older best ds with
  | None => best = None ∧ ds = []
  | Some w => oldest (λ d, best = Some d ∨ d ∈ ds) w
  end.
Proof.
  revert best. induction ds as [|d ds IH]; intros best; cbn [foldl].
  { destruct best as [w|]; [|done]. split; [by left|]. intros d [[= ->]|[]%not_elem_of_nil]. apply not_older_refl. }
  specialize (IH (keep_older best d)). destruct (foldl _ _ _) as [w|].
  2:{ destruct IH as [IH _]. unfold keep_older in IH. by repeat case_match. }
  destruct IH as [Hin Hmin].
  assert (Hk : ∃ k, keep_older best d = Some k ∧ (best = Some k ∨ k = d) ∧
    olderDomain d k = false ∧ ∀ b, best = Some b → olderDomain b k = false).
  { unfold keep_older. destruct best as [b|]; [|exists d; split_and!; [done|by right|apply not_older_refl|done]].
    destruct (olderDomain d b) eqn:Ho.
    - exists d. split_and!; [done|by right|apply not_older_refl|]. intros b' [= <-]. by apply not_older_total.
    - exists b. split_and!; [done|by left|done|]. intros b' [= <-]. apply not_older_refl. }
  destruct Hk as (k & Ek & Hk & Hdk & Hbk). rewrite Ek in Hin, Hmin.
  assert (Hkw : olderDomain k w = false) by (apply Hmin; by left). split.
  - destruct Hin as [[= <-]|Hin]; [|right; by right]. destruct Hk as [Hk| ->]; [by left|right; by left].
  - intros d' [Hb|[->|Hd']%elem_of_cons]; [|by eapply not_older_trans|apply Hmin; by right].
    eapply not_older_trans; [by apply Hbk|done].
Qed.

Definition live (d : Domain) : Prop := dying d = false.
#[export] Instance live_dec d : Decision (live d).
Proof. unfold live. apply _. Defined.

Lemma foldl_pick ds best : foldl pick best ds = foldl keep_older best (filter live ds).
Proof.
  revert best. induction ds as [|d ds IH]; intros best; [done|]. cbn [foldl]. rewrite IH, filter_cons.
  unfold pick. by case_decide as Hd; unfold live in Hd; destruct (dying d).
Qed.

Lemma winner_of_spec ds :
  (∀ d, d ∈ ds → dying d = true) ∧ winner_of ds = no_key ∨
  ∃ w, oldest (λ d, d ∈ ds ∧ live d) w ∧ winner_of ds = domain_key w.
Proof.
  unfold winner_of. rewrite foldl_pick. pose proof (foldl_keep_older (filter live ds) None) as Hf.
  destruct (foldl _ _ _) as [w|].
  - right. exists w. split; [|done]. destruct Hf as [[?|Hw%list_elem_of_filter] Hmin]; [done|]. split; [naive_solver|].
    intros d [Hd Hl]. apply Hmin. right. by apply list_elem_of_filter.
  - left. split; [|done]. intros d Hd. destruct (dying d) eqn:Hy; [done|]. destruct Hf as [_ Hf].
    assert (Hin : d ∈ filter live ds) by (by apply list_elem_of_filter). rewrite Hf in Hin. by apply not_elem_of_nil in Hin.
Qed.

(** Every replica and every listing order agree on the winner. *)
Lemma winner_of_same ds ds' : (∀ d, d ∈ ds ↔ d ∈ ds') → winner_of ds = winner_of ds'.
Proof.
  intros Hs. destruct (winner_of_spec ds) as [[Hn ->]|(w & Hw & ->)], (winner_of_spec ds') as [[Hn' ->]|(w' & Hw' & ->)].
  - done.
  - destruct Hw' as [[Hin Hl] _]. apply Hs, Hn in Hin. unfold live in Hl. congruence.
  - destruct Hw as [[Hin Hl] _]. apply Hs, Hn' in Hin. unfold live in Hl. congruence.
  - eapply oldest_key; [done|]. destruct Hw' as [[Hin Hl] Hmin]. split; [by rewrite Hs|].
    intros d [Hd ?]. apply Hmin. by rewrite <- Hs.
Qed.

(** ** Observing executions *)

(** What a call changes in the cluster. *)
Inductive Act : Type :=
| Updated (d : Domain)
| Routed (key : NamespacedName) (mutate : Ingress → result string Ingress)
| Unrouted (ing : Ingress)
| WroteURL (app : App)
| WroteStatus (d : Domain).
Definition act (c : call DomainE) : option Act :=
  match c with
  | Call (UpdateDomain d) _ => Some (Updated d)
  | Call (ApplyIngress key mutate) _ => Some (Routed key mutate)
  | Call (DeleteIngress ing) _ => Some (Unrouted ing)
  | Call (UpdateAppURL app) _ => Some (WroteURL app)
  | Call (UpdateDomainStatus d) _ => Some (WroteStatus d)
  | _ => None
  end.

Lemma hostWinner_inv host tr w :
  exec (hostWinner host) tr w → ∃ l, tr = [Call (ListByHost host) l] ∧ w = map_ok winner_of l.
Proof. intros (l & tr' & -> & -> & ->). by exists l. Qed.

Lemma url_loop_acts ds o tr x : exec (url_loop ds o) tr x → omap act tr = [].
Proof.
  revert o tr. induction ds as [|d ds IH]; intros o tr; cbn [url_loop]; [by intros [-> _]|].
  destruct (dying d); [apply IH|]. rewrite exec_bind.
  intros (tr1 & tr2 & w & -> & (l & -> & ->)%hostWinner_inv & Hk). rewrite omap_app. simpl.
  destruct l as [l|e]; simpl in Hk; [|by destruct Hk as [-> _]]. case_decide; by eapply IH.
Qed.

Lemma appURL_acts ns name app tr x : exec (appURL ns name app) tr x → omap act tr = [].
Proof.
  unfold appURL. case_decide; [|by intros [-> _]]. intros (l & tr1 & -> & Hk). cbn [prog_bind] in Hk.
  destruct l as [ds|e]; [|by destruct Hk as [-> _]]. apply exec_bind in Hk as (tr2 & tr3 & o & -> & Ho & -> & _).
  rewrite app_nil_r. by apply url_loop_acts in Ho.
Qed.

(** The URL is the only thing [updateAppURL] writes, at most once. *)
Lemma updateAppURL_inv ns name tr x :
  exec (updateAppURL ns name) tr x →
  ∃ g rest, tr = Call (ReadApp {| key_Namespace := ns; key_Name := name |}) g :: rest ∧
    match g with
    | Err e => rest = [] ∧ (x = None → IsNotFound e = true)
    | Ok app => ∃ tr1 tr2 u, rest = tr1 ++ tr2 ∧ exec (appURL ns name app) tr1 u ∧
        match u with
        | Err _ => tr2 = [] ∧ x ≠ None
        | Ok url => app_URL (app_Status app) = url ∧ tr2 = [] ∨
            app_URL (app_Status app) ≠ url ∧ ∃ w, tr2 = [Call (UpdateAppURL (on_status (λ s, with_url s url) app)) w]
        end
    end.
Proof.
  intros (g & rest & -> & Hk). cbn [prog_bind] in Hk. exists g, rest. split; [done|]. destruct g as [app|e].
  2:{ destruct Hk as [-> ->]. split; [done|]. by destruct (IsNotFound e). }
  apply exec_bind in Hk as (tr1 & tr2 & u & -> & Hu & Hk). exists tr1, tr2, u. split_and!; [done..|].
  destruct u as [url|e]; [|by destruct Hk as [-> ->]]. case_decide as Hd.
  - destruct Hk as [-> _]. by left.
  - destruct Hk as (w & tr3 & -> & -> & _). right. split; [done|]. by exists w.
Qed.

Lemma updateAppURL_acts ns name tr x a :
  exec (updateAppURL ns name) tr x → a ∈ omap act tr → ∃ app, a = WroteURL app.
Proof.
  intros (g & rest & -> & Hg)%updateAppURL_inv. simpl. destruct g as [app|e]; [|destruct Hg as [-> _]; by intros ?%not_elem_of_nil].
  destruct Hg as (tr1 & tr2 & u & -> & Hu%appURL_acts & Hk). rewrite omap_app, Hu. simpl.
  destruct u as [url|e]; [|destruct Hk as [-> _]; by intros ?%not_elem_of_nil].
  destruct Hk as [[_ ->]|(_ & w & ->)]; [by intros ?%not_elem_of_nil|]. intros ->%list_elem_of_singleton. by eexists.
Qed.

(** *** The URL, against one state of the cluster *)
Section snapshot.
Context (W : list Domain).

(** The Domains that claim a host; those that serve an App. *)
Definition claiming (host : string) : list Domain := filter (λ d, domain_Host (domain_Spec d) = host) W.
Definition pointing (ns name : string) : list Domain :=
  filter (λ d, domain_namespace d = ns ∧ domain_AppRef (domain_Spec d) = name) W.
Definition owns_host (d : Domain) : Prop := live d ∧ winner_of (claiming (domain_Host (domain_Spec d))) = domain_key d.

(** A reply that lists [W], in any order. *)
Definition lists (c : call DomainE) : Prop :=
  match c with
  | Call e x =>
      match e in DomainE X return X → Prop with
      | ListByHost host => λ x, ∀ l, x = Ok l → l ≡ₚ claiming host
      | ListByApp ns name => λ x, ∀ l, x = Ok l → l ≡ₚ pointing ns name
      | _ => λ _, True
      end x
  end.

(** The URL an App should have: that of the oldest Domain pointing at it that is
    live and owns its host; none for an App that serves no traffic. *)
Definition is_url (ns name : string) (app : App) (url : string) : Prop :=
  (∃ d, workloadType app = WorkloadWeb ∧ oldest (λ d, d ∈ pointing ns name ∧ owns_host d) d ∧
    url = "https://" +:+ domain_Host (domain_Spec d)) ∨
  (workloadType app ≠ WorkloadWeb ∨ ∀ d, d ∈ pointing ns name → ¬ owns_host d) ∧ url = "".

#[local] Instance owns_host_dec d : Decision (owns_host d).
Proof. unfold owns_host. apply _. Defined.

Lemma url_loop_spec ds o tr o' :
  exec (url_loop ds o) tr (Ok o') → Forall lists tr → o' = foldl keep_older o (filter owns_host ds).
Proof.
  revert o tr. induction ds as [|d ds IH]; intros o tr; cbn [url_loop].
  { intros [_ [= ->]] _. done. }
  rewrite filter_cons. destruct (dying d) eqn:Hd.
  { rewrite decide_False; [apply IH|]. intros [Hl _]. unfold live in Hl. congruence. }
  rewrite exec_bind. intros (tr1 & tr2 & w & -> & (l & -> & ->)%hostWinner_inv & Hk) [Hc Hl]%Forall_cons.
  destruct l as [l|e]; simpl in Hk; [|by destruct Hk].
  assert (Hw : winner_of l = winner_of (claiming (domain_Host (domain_Spec d)))).
  { apply winner_of_same. intros d'. by rewrite (Hc l eq_refl). }
  rewrite Hw in Hk. case_decide as Hne.
  - rewrite decide_False; [by eapply IH|]. by intros [_ ?].
  - rewrite decide_True; [by eapply IH|done].
Qed.

Lemma appURL_spec ns name app tr url :
  exec (appURL ns name app) tr (Ok url) → Forall lists tr → is_url ns name app url.
Proof.
  unfold appURL. case_decide as Hw; [|intros [_ [= ->]] _; right; split; [by left|done]].
  intros (l & tr1 & -> & Hk) [Hc Hl]%Forall_cons. cbn [prog_bind] in Hk. destruct l as [ds|e]; [|by destruct Hk].
  apply exec_bind in Hk as (tr2 & tr3 & o & -> & Ho & -> & Hu). rewrite app_nil_r in Hl.
  destruct o as [o|e]; [|done]. injection Hu as ->. apply url_loop_spec in Ho; [|done].
  pose proof (foldl_keep_older (filter owns_host ds) None) as Hf. rewrite <- Ho in Hf.
  assert (Hin : ∀ d, d ∈ filter owns_host ds ↔ d ∈ pointing ns name ∧ owns_host d).
  { intros d. rewrite list_elem_of_filter, (Hc ds eq_refl). tauto. }
  destruct o as [d|].
  - left. exists d. split_and!; [done| |done]. destruct Hf as [[?|Hd%Hin] Hmin]; [done|]. split; [done|].
    intros d' Hd'%Hin. apply Hmin. by right.
  - right. destruct Hf as [_ Hf]. split; [right|done]. intros d Hd Ho'.
    assert (Hn : d ∈ filter owns_host ds) by (by apply Hin). rewrite Hf in Hn. by apply not_elem_of_nil in Hn.
Qed.
End snapshot.

(** *** The reconciler, path by path *)
Section traces.
Context `{KubeLib, UnstructuredLib} (r : DomainReconciler).

(** The status a [failReady] or [updateStatus] writes. *)
Definition recorded (d : Domain) : Domain :=
  with_domain_status d {| domain_ObservedGeneration := meta_Generation (domain_Meta d);
                          domain_Conditions := domain_Conditions (domain_Status d) |}.

Lemma domain_updateStatus_acts d before tr x a :
  exec (updateStatus d before) tr x → a ∈ omap act tr → a = WroteStatus (recorded d).
Proof.
  unfold updateStatus. case_decide; [intros [-> _]; by intros ?%not_elem_of_nil|].
  intros (w & tr' & -> & -> & _). by intros ->%list_elem_of_singleton.
Qed.

Lemma domain_failReady_acts d before reason err tr x a :
  exec (failReady d before reason err) tr x → a ∈ omap act tr →
  a = WroteStatus (recorded (setDomainReady d ConditionFalse reason (domain_error_text err))).
Proof.
  unfold failReady. destruct (domain_error_conflict err); [intros [-> _]; by intros ?%not_elem_of_nil|].
  rewrite exec_bind. intros (tr1 & tr2 & u & -> & Hu & -> & _). rewrite app_nil_r. by eapply domain_updateStatus_acts.
Qed.

Lemma deleteOwnIngress_acts d tr x a :
  exec (deleteOwnIngress d) tr x → a ∈ omap act tr →
  ∃ ing, a = Unrouted ing ∧ IsControlledBy (ing_Meta ing) (domain_Meta d) = true ∧
    Call (GetIngress (domain_key d)) (Ok ing) ∈ tr.
Proof.
  intros (g & tr1 & -> & Hk). cbn [prog_bind] in Hk.
  destruct g as [ing|e]; [|destruct Hk as [-> _]; by intros ?%not_elem_of_nil].
  destruct (IsControlledBy _ _) eqn:Hc; [|destruct Hk as [-> _]; by intros ?%not_elem_of_nil].
  destruct Hk as (y & tr2 & -> & -> & _). intros ->%list_elem_of_singleton. exists ing. split_and!; [done..|by left].
Qed.

(** A Domain that lost its host: nothing is routed, only its own Ingress goes, and
    every status it gets says not Ready. *)
Definition lost (d : Domain) (a : Act) : Prop :=
  match a with
  | Unrouted ing => IsControlledBy (ing_Meta ing) (domain_Meta d) = true
  | WroteURL _ => True
  | WroteStatus d' => ∃ d0 reason message, d' = recorded (setDomainReady d0 ConditionFalse reason message)
  | _ => False
  end.

Lemma reconcileLoser_acts d before winner tr x a :
  exec (reconcileLoser d before winner) tr x → a ∈ omap act tr → lost d a.
Proof.
  unfold reconcileLoser. rewrite exec_bind. intros (tr1 & tr2 & y & -> & Hy & Hk).
  rewrite omap_app, elem_of_app. intros [Ha|Ha].
  { destruct (deleteOwnIngress_acts _ _ _ _ Hy Ha) as (ing & -> & ? & _). done. }
  destruct y as [e|].
  { rewrite (domain_failReady_acts _ _ _ _ _ _ _ Hk Ha). by eexists _, _, _. }
  apply exec_bind in Hk as (tr3 & tr4 & u & -> & Hu & Hk). rewrite omap_app, elem_of_app in Ha.
  destruct Ha as [Ha|Ha]; [by destruct (updateAppURL_acts _ _ _ _ _ Hu Ha) as (app & ->)|].
  destruct u as [e|]; [destruct Hk as [-> _]; by apply not_elem_of_nil in Ha|].
  rewrite (domain_updateStatus_acts _ _ _ _ _ Hk Ha). by eexists _, _, _.
Qed.

(** What has to have happened before a Domain is reported Ready. *)
Definition earned (d : Domain) (tr : list (call DomainE)) : Prop :=
  Call (ApplyIngress (domain_key d) (ingress_mutation r d)) (Ok tt) ∈ tr ∧
  (∃ cert conditions reason message,
    Call (GetCertificate {| key_Namespace := domain_namespace d; key_Name := tlsSecretName d |}) (Ok cert) ∈ tr ∧
    NestedSlice cert ["status"; "conditions"] = Ok conditions ∧
    ready_condition conditions = Some (ConditionTrue, reason, message)) ∧
  (∃ app, Call (GetDomainApp {| key_Namespace := domain_namespace d; key_Name := domain_AppRef (domain_Spec d) |}) (Ok app) ∈ tr ∧
    workloadType app = WorkloadWeb) ∧
  ∃ pre sub post, tr = pre ++ sub ++ post ∧ exec (updateAppURL (domain_namespace d) (domain_AppRef (domain_Spec d))) sub None.

(** A Domain that has its host. *)
Definition won (d : Domain) (tr : list (call DomainE)) (a : Act) : Prop :=
  match a with
  | Routed key mutate => key = domain_key d ∧ mutate = ingress_mutation r d
  | WroteURL _ => True
  | WroteStatus d' =>
      (∃ d0 reason message, d' = recorded (setDomainReady d0 ConditionFalse reason message)) ∨ earned d tr
  | _ => False
  end.

Lemma readiness_cases d app certReady certMessage :
  (∃ reason message, readiness d app certReady certMessage = setDomainReady d ConditionFalse reason message) ∨
  ∃ app', app = Some app' ∧ workloadType app' = WorkloadWeb ∧ certReady = ConditionTrue.
Proof.
  unfold readiness. destruct app as [app|]; [|left; by eexists _, _].
  destruct (decide (workloadType app ≠ WorkloadWeb)) as [?|Hw]; [left; by eexists _, _|].
  destruct (decide (certReady ≠ ConditionTrue)) as [?|Hc]; [left; by eexists _, _|right].
  exists app. split_and!; [done|by apply dec_stable|by apply dec_stable].
Qed.

Lemma observeCertificate_inv d tr c :
  exec (observeCertificate d) tr c →
  ∃ g, tr = [Call (GetCertificate {| key_Namespace := domain_namespace d; key_Name := tlsSecretName d |}) g] ∧
    ∀ reason message, c = Ok (ConditionTrue, reason, message) →
      ∃ cert conditions, g = Ok cert ∧ NestedSlice cert ["status"; "conditions"] = Ok conditions ∧
        ready_condition conditions = Some (ConditionTrue, reason, message).
Proof.
  intros (g & tr' & -> & -> & ->). exists g. split; [done|]. intros reason message Hc.
  destruct g as [cert|e]; [|by destruct (IsNotFound e)]. exists cert.
  destruct (NestedSlice _ _) as [cs|e] eqn:Hn; [|done]. exists cs. split_and!; [done..|].
  by destruct (ready_condition cs) as [c|]; [injection Hc as ->|].
Qed.

Lemma reconcileWinner_acts d before tr x a :
  exec (reconcileWinner r d before) tr x → a ∈ omap act tr → won d tr a.
Proof.
  intros (i & tr1 & -> & Hk). cbn [prog_bind] in Hk. simpl. intros [->|Ha]%elem_of_cons; [done|].
  destruct i as [[]|e]; [|rewrite (domain_failReady_acts _ _ _ _ _ _ _ Hk Ha); left; by eexists _, _, _].
  apply exec_bind in Hk as (tr2 & tr3 & c & -> & (g & -> & Hcert)%observeCertificate_inv & Hk).
  rewrite omap_app in Ha. simpl in Ha.
  destruct c as [[[certReady certReason] certMessage]|e];
    [|rewrite (domain_failReady_acts _ _ _ _ _ _ _ Hk Ha); left; by eexists _, _, _].
  destruct Hk as (ga & tr4 & -> & Hk). cbn [prog_bind] in Hk. simpl in Ha.
  set (d1 := setDomainCondition d _ _ _ _) in Hk.
  destruct (match ga with Ok app => _ | Err e => _ end) as [app|e] eqn:Happ;
    [|rewrite (domain_failReady_acts _ _ _ _ _ _ _ Hk Ha); left; by eexists _, _, _].
  assert (Hgot : ∀ app', app = Some app' → ga = Ok app').
  { intros app' ->. destruct ga as [?|e]; [congruence|]. by destruct (IsNotFound e). }
  apply exec_bind in Hk as (tr5 & tr6 & u & -> & Hu & Hk). rewrite omap_app, elem_of_app in Ha.
  destruct Ha as [Ha|Ha]; [by destruct (updateAppURL_acts _ _ _ _ _ Hu Ha) as (? & ->)|].
  destruct u as [e|]; [destruct Hk as [-> _]; by apply not_elem_of_nil in Ha|].
  rewrite (domain_updateStatus_acts _ _ _ _ _ Hk Ha).
  destruct (readiness_cases d1 app certReady certMessage) as [(reason & message & ->)|(app' & -> & Hw & ->)];
    [left; by eexists _, _, _|right].
  destruct (Hcert _ _ eq_refl) as (cert & cs & -> & Hn & Hr). rewrite (Hgot _ eq_refl). split_and!.
  - left.
  - exists cert, cs, certReason, certMessage. split_and!; [right; left|done..].
  - exists app'. split; [do 2 right; left|done].
  - assert (Hu' : exec (updateAppURL (domain_namespace d) (domain_AppRef (domain_Spec d))) tr5 None).
    { revert Hu. unfold readiness. repeat case_match; exact id. }
    by eexists (_ :: _ :: [_]), tr5, tr6.
Qed.
End traces.

Section reconcile_traces.
Context `{KubeLib, UnstructuredLib} (r : DomainReconciler).

(** The Domain a reconcile works on, as read or as the server returned it. *)
Definition held (req : NamespacedName) (tr : list (call DomainE)) (d : Domain) : Prop :=
  tr = [Call (GetDomain req) (Ok d)] ∧ dying d = false ∨
  ∃ d0, dying d0 = false ∧ tr = [Call (GetDomain req) (Ok d0);
    Call (UpdateDomain (with_domain_finalizers d0 (AddFinalizer (meta_Finalizers (domain_Meta d0)) domainFinalizer).1)) (Ok d)].

Lemma domain_Reconcile_inv req tr x :
  exec (Reconcile r req) tr x →
  (∀ a, a ∈ omap act tr → ∃ d fs, a = Updated (with_domain_finalizers d fs) ∧ dying d = false) ∨
  (∃ d rest, tr = Call (GetDomain req) (Ok d) :: rest ∧ dying d = true ∧ exec (reconcileDying d) rest x) ∨
  ∃ pre d host rest l, tr = pre ++ Call (ListByHost host) (Ok l) :: rest ∧ held req pre d ∧
    host = domain_Host (domain_Spec d) ∧
    (winner_of l ≠ domain_key d ∧ exec (reconcileLoser d (domain_Status d) (winner_of l)) rest x ∨
     winner_of l = domain_key d ∧ exec (reconcileWinner r d (domain_Status d)) rest x).
Proof.
  assert (Hlive : ∀ pre d rest, held req pre d → exec (reconcileLive r d) rest x →
    (∃ e, rest = [Call (ListByHost (domain_Host (domain_Spec d))) (Err e)]) ∨
    ∃ rest' l, rest = Call (ListByHost (domain_Host (domain_Spec d))) (Ok l) :: rest' ∧
    (winner_of l ≠ domain_key d ∧ exec (reconcileLoser d (domain_Status d) (winner_of l)) rest' x ∨
     winner_of l = domain_key d ∧ exec (reconcileWinner r d (domain_Status d)) rest' x)).
  { intros pre d rest _. unfold reconcileLive. rewrite exec_bind.
    intros (tr1 & tr2 & w & -> & (l & -> & ->)%hostWinner_inv & Hk). destruct l as [l|e]; simpl in Hk.
    - right. exists tr2, l. split; [done|]. case_decide; [by left|by right].
    - destruct Hk as [-> _]. left. by exists e. }
  intros (g & tr1 & -> & Hk). cbn [prog_bind] in Hk.
  destruct g as [d|e]; [|destruct Hk as [-> _]; left; by intros a ?%not_elem_of_nil].
  destruct (dying d) eqn:Hd; [right; left; by exists d, tr1|].
  destruct (AddFinalizer _ _) as [fs added] eqn:Haf. destruct added.
  - destruct Hk as (w & tr2 & -> & Hk). cbn [prog_bind] in Hk. destruct w as [d1|e].
    2:{ destruct Hk as [-> _]. left. intros a ->%list_elem_of_singleton. by exists d, fs. }
    assert (Hh : held req [Call (GetDomain req) (Ok d); Call (UpdateDomain (with_domain_finalizers d fs)) (Ok d1)] d1).
    { right. exists d. rewrite Haf. done. }
    destruct (Hlive _ _ _ Hh Hk) as [[e ->]|(rest & l & -> & Hw)].
    + left. intros a ->%list_elem_of_singleton. by exists d, fs.
    + right; right. eexists [_; _], d1, _, rest, l. split_and!; [reflexivity|exact Hh|done..].
  - assert (Hh : held req [Call (GetDomain req) (Ok d)] d) by (by left).
    destruct (Hlive _ _ _ Hh Hk) as [[e ->]|(rest & l & -> & Hw)].
    + left. by intros a ?%not_elem_of_nil.
    + right; right. eexists [_], d, _, rest, l. split_and!; [reflexivity|exact Hh|done..].
Qed.

Lemma held_acts req pre d a :
  held req pre d → a ∈ omap act pre → ∃ d0 fs, a = Updated (with_domain_finalizers d0 fs) ∧ dying d0 = false.
Proof.
  intros [[-> _]|(d0 & Hd & ->)]; [by intros ?%not_elem_of_nil|]. intros ->%list_elem_of_singleton. by eexists d0, _.
Qed.

(** The dying path ends with the finalizer, after the URL. *)
Lemma reconcileDying_acts d tr x a :
  exec (reconcileDying d) tr x → a ∈ omap act tr →
  (∃ app, a = WroteURL app) ∨
  a = Updated (with_domain_finalizers d (RemoveFinalizer (meta_Finalizers (domain_Meta d)) domainFinalizer)) ∧
  ∃ sub w, tr = sub ++ [Call (UpdateDomain (with_domain_finalizers d
      (RemoveFinalizer (meta_Finalizers (domain_Meta d)) domainFinalizer))) w] ∧
    exec (updateAppURL (domain_namespace d) (domain_AppRef (domain_Spec d))) sub None.
Proof.
  unfold reconcileDying. destruct (ContainsFinalizer _ _); cbn [negb]; [|intros [-> _]; by intros ?%not_elem_of_nil].
  rewrite exec_bind. intros (tr1 & tr2 & u & -> & Hu & Hk). rewrite omap_app, elem_of_app. intros [Ha|Ha].
  { left. by eapply updateAppURL_acts. }
  destruct u as [e|]; [destruct Hk as [-> _]; by apply not_elem_of_nil in Ha|].
  destruct Hk as (w & tr3 & -> & -> & _). apply list_elem_of_singleton in Ha as ->. right. split; [done|]. by exists tr1, w.
Qed.
End reconcile_traces.

(** ** Properties *)

(** Each host has one owner: the winner among the Domains claiming a host is the
    oldest one that is not being deleted (by creation time, then name, then
    namespace), whatever the order the Domains are listed in; two Domains that are
    each the oldest are the same Domain; and without a live claimant nobody wins. *)
Theorem host_has_one_owner domains domains' :
  (∀ d, d ∈ domains ↔ d ∈ domains') →
  winner_of domains = winner_of domains' ∧
  ((∀ d, d ∈ domains → dying d = true) ∧ winner_of domains = no_key ∨
   ∃ w, w ∈ domains ∧ dying w = false ∧ winner_of domains = domain_key w ∧
     ∀ d, d ∈ domains → dying d = false → olderDomain d w = false ∧
       ((∀ d', d' ∈ domains → dying d' = false → olderDomain d' d = false) → domain_key d = domain_key w)).
Proof.
  intros Hs. split; [by apply winner_of_same|]. destruct (winner_of_spec domains) as [?|(w & [[Hin Hl] Hmin] & Hw)]; [by left|].
  right. exists w. split_and!; [done..|]. intros d Hd Hy. split; [by apply Hmin|].
  intros Hmin'. apply not_older_antisym; [by apply Hmin|by apply Hmin'].
Qed.

(** C29. Only a host's owner is routed: a reconcile writes an Ingress only for a live
    Domain that the listing of its host made the winner, under that Domain's own
    key and with a mutation that refuses an Ingress nobody controls and otherwise
    leaves exactly one rule, host to App, with TLS for that host; it deletes an
    Ingress only for a Domain that lost, and only one that Domain controls. *)
Theorem ingress_only_for_owner `{KubeLib, UnstructuredLib} r req tr x :
  exec (Reconcile r req) tr x →
  (∀ key mutate, Routed key mutate ∈ omap act tr →
    ∃ pre d l rest, tr = pre ++ Call (ListByHost (domain_Host (domain_Spec d))) (Ok l) :: rest ∧ held req pre d ∧
      winner_of l = domain_key d ∧ key = domain_key d ∧
      ∀ ing ing', mutate ing = Ok ing' →
        (meta_CreationTimestamp (ing_Meta ing) = None ∨ GetControllerOf (ing_Meta ing) ≠ None) ∧
        ing_Rules ing' = [{| rule_Host := domain_Host (domain_Spec d); rule_Paths := [{| path_Path := "/";
          path_Type := "Prefix"; path_Service := domain_AppRef (domain_Spec d); path_PortName := servicePortName |}] |}] ∧
        ing_TLS ing' = [{| tls_Hosts := [domain_Host (domain_Spec d)]; tls_SecretName := tlsSecretName d |}]) ∧
  (∀ ing, Unrouted ing ∈ omap act tr →
    ∃ pre d l rest, tr = pre ++ Call (ListByHost (domain_Host (domain_Spec d))) (Ok l) :: rest ∧ held req pre d ∧
      winner_of l ≠ domain_key d ∧ IsControlledBy (ing_Meta ing) (domain_Meta d) = true).
Proof.
  intros [Hnone|[(d & rest & -> & _ & Hd)|(pre & d & host & rest & l & -> & Hheld & -> & Hcase)]]%domain_Reconcile_inv.
  - split; [intros key mutate Ha|intros ing Ha]; by destruct (Hnone _ Ha) as (? & ? & ? & _).
  - simpl. split; [intros key mutate Ha|intros ing Ha];
      by destruct (reconcileDying_acts _ _ _ _ Hd Ha) as [[? ?]|[? _]].
  - rewrite omap_app. simpl. split.
    + intros key mutate [Ha|Ha]%elem_of_app; [by destruct (held_acts _ _ _ _ Hheld Ha) as (? & ? & ? & _)|].
      destruct Hcase as [[_ Hl]|[Hw Hx]]; [by destruct (reconcileLoser_acts _ _ _ _ _ _ Hl Ha)|].
      destruct (reconcileWinner_acts _ _ _ _ _ _ Hx Ha) as [-> ->]. exists pre, d, l, rest. split_and!; [done..|].
      intros ing ing'. unfold ingress_mutation.
      destruct (has _ && negb _) eqn:Hf; [done|]. destruct (SetControllerReference _ _); [|done]. intros [= <-].
      split_and!; [|done..]. destruct (meta_CreationTimestamp _), (GetControllerOf _); simpl in Hf; auto.
    + intros ing [Ha|Ha]%elem_of_app; [by destruct (held_acts _ _ _ _ Hheld Ha) as (? & ? & ? & _)|].
      destruct Hcase as [[Hw Hl]|[_ Hx]]; [|by destruct (reconcileWinner_acts _ _ _ _ _ _ Hx Ha)].
      exists pre, d, l, rest. split_and!; [done..|]. exact (reconcileLoser_acts _ _ _ _ _ _ Hl Ha).
Qed.

(** Ready is earned: a status that shows the Domain Ready is written only for the
    owner of its host, after its Ingress was applied, its Certificate was read with
    a Ready condition that is True, its App was found and serves traffic, and the
    App's URL was brought up to date, all in the same reconcile. *)
Theorem domain_ready_earned `{KubeLib, !KubeLibLaws, UnstructuredLib} r req tr x d' :
  exec (Reconcile r req) tr x → WroteStatus d' ∈ omap act tr →
  cond_Status <$> FindStatusCondition (domain_Conditions (domain_Status d')) ConditionReady = Some ConditionTrue →
  ∃ pre d l rest, tr = pre ++ Call (ListByHost (domain_Host (domain_Spec d))) (Ok l) :: rest ∧ held req pre d ∧
    winner_of l = domain_key d ∧ earned r d rest.
Proof.
  assert (Hfalse : ∀ d0 reason message, cond_Status <$> FindStatusCondition (domain_Conditions (domain_Status
    (recorded (setDomainReady d0 ConditionFalse reason message)))) ConditionReady = Some ConditionFalse).
  { intros d0 reason message. exact (FindStatusCondition_set _ {| cond_Type := ConditionReady |}). }
  intros [Hnone|[(d & rest & -> & _ & Hd)|(pre & d & host & rest & l & -> & Hheld & -> & Hcase)]]%domain_Reconcile_inv Ha Hr.
  - by destruct (Hnone _ Ha) as (? & ? & ? & _).
  - by destruct (reconcileDying_acts _ _ _ _ Hd Ha) as [[? ?]|[? _]].
  - rewrite omap_app in Ha. simpl in Ha. apply elem_of_app in Ha as [Ha|Ha];
      [by destruct (held_acts _ _ _ _ Hheld Ha) as (? & ? & ? & _)|].
    destruct Hcase as [[Hw Hl]|[Hw Hx]].
    + destruct (reconcileLoser_acts _ _ _ _ _ _ Hl Ha) as (d0 & reason & message & ->). by rewrite Hfalse in Hr.
    + destruct (reconcileWinner_acts _ _ _ _ _ _ Hx Ha) as [(d0 & reason & message & ->)|He];
        [by rewrite Hfalse in Hr|]. by exists pre, d, l, rest.
Qed.

(** The App's URL follows its Domains: when the recomputation reports success and
    its listings show one state of the cluster, then either the App is gone, or its
    URL is what that state calls for (the oldest live Domain pointing at a Web App
    that owns its host, and empty otherwise) and is written exactly when it differs
    from what the uncached read returned, with nothing else of the App changed. *)
Theorem url_follows_domains W ns name tr :
  exec (updateAppURL ns name) tr None → Forall (lists W) tr →
  ∃ g, head tr = Some (Call (ReadApp {| key_Namespace := ns; key_Name := name |}) g) ∧
    match g with
    | Err e => IsNotFound e = true ∧ omap act tr = []
    | Ok app => ∃ url, is_url W ns name app url ∧
        omap act tr = if decide (app_URL (app_Status app) = url) then []
                      else [WroteURL (on_status (λ s, with_url s url) app)]
    end.
Proof.
  intros (g & rest & -> & Hg)%updateAppURL_inv [_ Hl]%Forall_cons. exists g. split; [done|]. simpl.
  destruct g as [app|e]; [|destruct Hg as [-> He]; by auto].
  destruct Hg as (tr1 & tr2 & u & -> & Hu & Hk). apply Forall_app in Hl as [Hl _].
  destruct u as [url|e]; [|by destruct Hk]. exists url. split; [by eapply appURL_spec|].
  rewrite omap_app, (appURL_acts _ _ _ _ _ Hu). simpl.
  destruct Hk as [[He ->]|(Hne & w & ->)]; [by rewrite decide_True|by rewrite decide_False].
Qed.

(** A deleted Domain leaves no URL behind: the reconcile of a Domain that is being
    deleted changes the Domain only to remove its finalizer, as its last call, and
    only after the recomputation of its App's URL (which leaves the dying Domain
    out) has succeeded; nothing is routed for it and no status is written. *)
Theorem finalizer_waits_for_url `{KubeLib, !KubeLibLaws, UnstructuredLib} r req tr x d :
  exec (Reconcile r req) tr x → head tr = Some (Call (GetDomain req) (Ok d)) → dying d = true →
  ∀ a, a ∈ omap act tr →
    (∃ app, a = WroteURL app) ∨
    ∃ d' sub w, a = Updated d' ∧ ContainsFinalizer (meta_Finalizers (domain_Meta d')) domainFinalizer = false ∧
      tr = Call (GetDomain req) (Ok d) :: sub ++ [Call (UpdateDomain d') w] ∧
      exec (updateAppURL (domain_namespace d) (domain_AppRef (domain_Spec d))) sub None ∧
      ∀ W, ¬ owns_host W d.
Proof.
  intros (g & tr1 & -> & Hk) Hh Hd a Ha. cbn [prog_bind] in Hk.
  assert (g = Ok d) as ->.
  { apply (f_equal (λ o, o ≫= λ c, match c with
      | Call e x => match e in DomainE X return X → option (result ApiError Domain) with
                    | GetDomain _ => λ x, Some x | _ => λ _, None end x end)) in Hh.
    simpl in Hh. congruence. }
  rewrite Hd in Hk. simpl in Ha.
  destruct (reconcileDying_acts _ _ _ _ Hk Ha) as [?|(-> & sub & w & -> & Hu)]; [by left|right].
  eexists _, sub, w. split_and!; [done|apply RemoveFinalizer_gone|done|done|].
  intros W [Hl _]. unfold live in Hl. congruence.
Qed.

(** Certificates find their Domain: the event of the Certificate that belongs to
    a Domain of the apps namespace wakes exactly that Domain, and no other object
    of the namespace with another name does. *)
Theorem certificate_wakes_domain m ns name :
  name ≠ "" →
  (mapCertificateToDomain m = [{| key_Namespace := ns; key_Name := name |}] ↔
    ns = appsNamespace ∧ meta_Namespace m = ns ∧ meta_Name m = name +:+ tlsSecretSuffix).
Proof.
  intros Hne. unfold mapCertificateToDomain. destruct (decide (meta_Namespace m ≠ appsNamespace)) as [Hn|Hn].
  { split; [done|]. naive_solver. }
  apply dec_stable in Hn.
  assert (Hs : meta_Name m = name +:+ tlsSecretSuffix ↔ CutSuffix (meta_Name m) tlsSecretSuffix = Some name)
    by (by rewrite CutSuffix_spec).
  rewrite Hs, Hn. destruct (CutSuffix _ _) as [t|]; [|naive_solver]. case_decide; naive_solver.
Qed.

(** ** A worked example *)
Module DomainExample.
#[local] Instance lib : KubeLib := sample_kube_lib.
(** [status.conditions] of a map, in the shape cert-manager writes it *)
Definition sample_unstructured : UnstructuredLib :=
  {| NestedInt64 _ _ := Ok None;
     NestedSlice o path :=
       match foldl (λ v key, match v with Some (AnyMap m) => any_field m key | _ => None end) (Some o) path with
       | Some (AnySlice l) => Ok l
       | Some _ => Err "not a slice"
       | None => Ok []
       end;
     GetName _ := "" |}.
#[local] Instance unstructured : UnstructuredLib := sample_unstructured.

Definition domain (name host : string) (created : Z) (deleted : option Z) : Domain :=
  {| domain_Meta := {| meta_Namespace := appsNamespace; meta_Name := name; meta_UID := name; meta_Generation := 1;
       meta_CreationTimestamp := Some created; meta_DeletionTimestamp := deleted; meta_Labels := ∅;
       meta_Annotations := ∅; meta_Finalizers := [domainFinalizer]; meta_OwnerReferences := [] |};
     domain_Spec := {| domain_Host := host; domain_AppRef := "shop" |};
     domain_Status := {| domain_ObservedGeneration := 0; domain_Conditions := [] |} |}.
Definition first : Domain := domain "first" "shop.example.com" 10 None.
Definition late : Domain := domain "late" "shop.example.com" 20 None.
Definition gone : Domain := domain "gone" "old.example.com" 5 (Some 30%Z).
Definition state : list Domain := [late; gone; first].
Definition certificate : Any :=
  AnyMap [("status", AnyMap [("conditions", AnySlice
    [AnyMap [("type", AnyString "Ready"); ("status", AnyString "True")]])])].
Definition ingress (d : Domain) : Ingress :=
  {| ing_Meta := with_owners (new_meta appsNamespace (domain_name d) ∅ ∅) [controls (domain_Meta d)];
     ing_ClassName := None; ing_Rules := []; ing_TLS := [] |}.
Definition cluster (d : Domain) (X : Set) (e : DomainE X) (s : unit) : X * unit :=
  (match e in DomainE X return X with
   | GetDomain _ => Ok d
   | UpdateDomain d => Ok d
   | ListByHost host => Ok (claiming state host)
   | ListByApp ns name => Ok (pointing state ns name)
   | GetIngress _ => Ok (ingress d)
   | DeleteIngress _ => Ok ()
   | ApplyIngress _ _ => Ok ()
   | GetCertificate _ => Ok certificate
   | GetDomainApp _ => Ok (AppControllerExample.app "Web")
   | ReadApp _ => Ok (AppControllerExample.app "Web")
   | UpdateAppURL _ => Ok ()
   | UpdateDomainStatus _ => Ok ()
   end, s).
Definition reconciler : DomainReconciler := {| dr_ClusterIssuer := "letsencrypt" |}.
Definition reconciled (d : Domain) : option DomainError * list (call DomainE) * unit :=
  run (cluster d) (Reconcile reconciler (domain_key d)) ().
Lemma domain_reconciled_exec d :
  exec (Reconcile reconciler (domain_key d)) (reconciled d).1.2 (reconciled d).1.1.
Proof. apply run_exec. Qed.

Definition url_run : option URLError * list (call DomainE) * unit :=
  run (cluster first) (updateAppURL appsNamespace "shop") ().
Lemma url_run_exec : exec (updateAppURL appsNamespace "shop") url_run.1.2 url_run.1.1.
Proof. apply run_exec. Qed.
Lemma url_run_lists : Forall (lists state) url_run.1.2.
Proof. vm_compute. repeat constructor; intros l [= <-]; reflexivity. Qed.
End DomainExample.

Lemma host_has_one_owner_witness :
  winner_of [DomainExample.late; DomainExample.first] = domain_key DomainExample.first.
Proof.
  etrans; [apply (host_has_one_owner _ [DomainExample.first; DomainExample.late])|vm_compute; reflexivity].
  intros d. set_solver.
Defined.

Lemma ingress_only_for_owner_witness :
  omap act (DomainExample.reconciled DomainExample.late).1.2 !! 0 = Some (Unrouted (DomainExample.ingress DomainExample.late)) ∧
  ∃ pre d l rest, (DomainExample.reconciled DomainExample.late).1.2 =
    pre ++ Call (ListByHost (domain_Host (domain_Spec d))) (Ok l) :: rest ∧ winner_of l ≠ domain_key d.
Proof.
  split; [vm_compute; reflexivity|].
  destruct (@ingress_only_for_owner sample_kube_lib DomainExample.sample_unstructured _ _ _ _
    (DomainExample.domain_reconciled_exec DomainExample.late)) as [_ Hun].
  destruct (Hun (DomainExample.ingress DomainExample.late)) as (pre & d & l & rest & E & _ & Hl & _); [vm_compute; left|].
  by exists pre, d, l, rest.
Defined.

Definition ready_status (d : Domain) : option string :=
  cond_Status <$> @FindStatusCondition sample_kube_lib (domain_Conditions (domain_Status d)) ConditionReady.

Lemma domain_ready_earned_witness :
  ∃ d' pre d l rest, WroteStatus d' ∈ omap act (DomainExample.reconciled DomainExample.first).1.2 ∧
    ready_status d' = Some ConditionTrue ∧
    (DomainExample.reconciled DomainExample.first).1.2 =
      pre ++ Call (ListByHost (domain_Host (domain_Spec d))) (Ok l) :: rest ∧ winner_of l = domain_key d.
Proof.
  set (d' := match last (omap act (DomainExample.reconciled DomainExample.first).1.2) with
             | Some (WroteStatus d') => d' | _ => DomainExample.first end).
  assert (Hw : WroteStatus d' ∈ omap act (DomainExample.reconciled DomainExample.first).1.2)
    by (vm_compute; do 2 right; left).
  assert (Hr : ready_status d' = Some ConditionTrue) by (vm_compute; reflexivity).
  destruct (@domain_ready_earned sample_kube_lib sample_kube_lib_laws DomainExample.sample_unstructured _ _ _ _ d'
    (DomainExample.domain_reconciled_exec DomainExample.first) Hw Hr) as (pre & d & l & rest & E & _ & Hl & _).
  by exists d', pre, d, l, rest.
Defined.

Lemma url_follows_domains_witness :
  ∃ url, is_url DomainExample.state appsNamespace "shop" (AppControllerExample.app "Web") url.
Proof.
  destruct (url_follows_domains DomainExample.state appsNamespace "shop" DomainExample.url_run.1.2)
    as (g & Hh & Hg); [exact DomainExample.url_run_exec|exact DomainExample.url_run_lists|].
  apply (f_equal (λ o, o ≫= λ c, match c with
    | Call e x => match e in DomainE X return X → option (result ApiError App) with
                  | ReadApp _ => λ x, Some x | _ => λ _, None end x end)) in Hh.
  vm_compute in Hh. injection Hh as <-. destruct Hg as (url & Hu & _). exists url. exact Hu.
Defined.

Lemma finalizer_waits_for_url_witness :
  ∃ d' sub w, (DomainExample.reconciled DomainExample.gone).1.2 =
    Call (GetDomain (domain_key DomainExample.gone)) (Ok DomainExample.gone) :: sub ++ [Call (UpdateDomain d') w].
Proof.
  set (d' := with_domain_finalizers DomainExample.gone []).
  assert (Ha : Updated d' ∈ omap act (DomainExample.reconciled DomainExample.gone).1.2) by (vm_compute; right; left).
  destruct (@finalizer_waits_for_url sample_kube_lib sample_kube_lib_laws DomainExample.sample_unstructured _ _ _ _
    DomainExample.gone (DomainExample.domain_reconciled_exec DomainExample.gone) eq_refl eq_refl _ Ha)
    as [[app Happ]|(d1 & sub & w & _ & _ & E & _)]; [discriminate|]. by exists d1, sub, w.
Defined.

Lemma certificate_wakes_domain_witness :
  mapCertificateToDomain (new_meta appsNamespace "shop-tls" ∅ ∅) = [{| key_Namespace := appsNamespace; key_Name := "shop" |}].
Proof. apply certificate_wakes_domain; [discriminate|]. split_and!; reflexivity. Defined.
