(* ===== verification/RegistryCert.v ===== *)
(** * The registry certificate controller

    Models [operator/internal/controller/registrycert_controller.go]: the reconciler
    that rolls the registry's Deployment when cert-manager reissues its certificate,
    by converging an annotation of the pod template to the Certificate's revision. *)
From S2P Require Import Prelude Effects Kube.

Definition registryNamespace : string := "orkano-system".
Definition registryCertificateName : string := "orkano-registry-tls".
Definition registryDeploymentName : string := "orkano-registry".
Definition registryCertRevisionAnnotation : string := "orkano.io/registry-cert-revision".

Inductive RegistryE : Set → Type :=
| GetCertificate (key : NamespacedName) : RegistryE (result ApiError Any)
| GetDeployment (key : NamespacedName) : RegistryE (result ApiError Deployment)
| UpdateDeployment (d : Deployment) : RegistryE (result ApiError unit).

Inductive RegistryError : Set :=
| GettingCertificate (err : ApiError)
| ReadingRevision (name err : string)
| FetchingDeployment (err : ApiError)
| RollingDeployment (revision : string) (err : ApiError).

Definition annotate_template (d : Deployment) (a : gmap string string) : Deployment :=
  {| dep_Meta := dep_Meta d; dep_Replicas := dep_Replicas d; dep_Selector := dep_Selector d;
     dep_TemplateLabels := dep_TemplateLabels d; dep_TemplateAnnotations := a; dep_Pod := dep_Pod d;
     dep_AvailableReplicas := dep_AvailableReplicas d |}.

Definition deploymentKey : NamespacedName :=
  {| key_Namespace := registryNamespace; key_Name := registryDeploymentName |}.

Section reconciler.
Context `{UnstructuredLib}.

(** The Deployment is there; bring its annotation to [want]. *)
Definition rollTo (deploy : Deployment) (want : string) : prog RegistryE (option RegistryError) :=
  if decide (default "" (dep_TemplateAnnotations deploy !! registryCertRevisionAnnotation) = want) then Ret None
  else
    let! w := trigger (UpdateDeployment
      (annotate_template deploy (<[registryCertRevisionAnnotation := want]> (dep_TemplateAnnotations deploy)))) in
    Ret (match w with Ok _ => None | Err e => Some (RollingDeployment want e) end).

Definition Reconcile (req : NamespacedName) : prog RegistryE (option RegistryError) :=
  let! g := trigger (GetCertificate req) in
  match g with
  | Err e => Ret (if IsNotFound e then None else Some (GettingCertificate e))
  | Ok cert =>
      match NestedInt64 cert ["status"; "revision"] with
      | Err e => Ret (Some (ReadingRevision (GetName cert) e))
      | Ok None => Ret None
      | Ok (Some revision) =>
          let! d := trigger (GetDeployment deploymentKey) in
          match d with
          | Err e => Ret (if IsNotFound e then None else Some (FetchingDeployment e))
          | Ok deploy => rollTo deploy (pretty revision)
          end
      end
  end.
End reconciler.

(** The predicate on the watched Certificates, and the map from Deployments. *)
Definition isRegistryCert (m : ObjectMeta) : bool :=
  bool_decide (meta_Namespace m = registryNamespace) && bool_decide (meta_Name m = registryCertificateName).
Definition mapRegistryDeployment (m : ObjectMeta) : list NamespacedName :=
  if decide (meta_Namespace m ≠ registryNamespace ∨ meta_Name m ≠ registryDeploymentName) then []
  else [{| key_Namespace := registryNamespace; key_Name := registryCertificateName |}].

Definition rolled (c : call RegistryE) : option Deployment :=
  match c with Call (UpdateDeployment d) _ => Some d | _ => None end.

(** The registry is rolled exactly when its certificate was reissued: a reconcile
    that read an issued revision and the Deployment writes the Deployment just when
    its pod template does not carry that revision, changing nothing but the
    annotation; after that write the same reconcile writes nothing; and the events
    of the Certificate and of the Deployment lead to the same reconcile. *)
Theorem registry_rolls_once `{UnstructuredLib} req tr x cert deploy revision :
  exec (Reconcile req) tr x →
  (∃ rest, tr = Call (GetCertificate req) (Ok cert) :: Call (GetDeployment deploymentKey) (Ok deploy) :: rest) →
  NestedInt64 cert ["status"; "revision"] = Ok (Some revision) →
  let want := pretty revision in
  let next := annotate_template deploy (<[registryCertRevisionAnnotation := want]> (dep_TemplateAnnotations deploy)) in
  omap rolled tr =
    (if decide (default "" (dep_TemplateAnnotations deploy !! registryCertRevisionAnnotation) = want) then [] else [next]) ∧
  rollTo next want = Ret None ∧
  (∀ m, isRegistryCert m = true → mapRegistryDeployment (new_meta registryNamespace registryDeploymentName ∅ ∅) = [ObjectKey m]).
Proof.
  intros Hex [rest ->] Hrev want next. split_and!.
  - destruct Hex as (g & tr1 & Heq & Hk). cbn [prog_bind] in Hk.
    assert (g = Ok cert ∧ tr1 = Call (GetDeployment deploymentKey) (Ok deploy) :: rest) as [-> ->].
    { split; [|by injection Heq].
      apply (f_equal (λ l, head l ≫= λ c, match c with
        | Call e x => match e in RegistryE X return X → option (result ApiError Any) with
                      | GetCertificate _ => λ x, Some x | _ => λ _, None end x end)) in Heq. simpl in Heq. congruence. }
    rewrite Hrev in Hk. destruct Hk as (d & tr2 & Heq' & Hk). cbn [prog_bind] in Hk.
    assert (d = Ok deploy ∧ tr2 = rest) as [-> ->].
    { split; [|by injection Heq'].
      apply (f_equal (λ l, head l ≫= λ c, match c with
        | Call e x => match e in RegistryE X return X → option (result ApiError Deployment) with
                      | GetDeployment _ => λ x, Some x | _ => λ _, None end x end)) in Heq'. simpl in Heq'. congruence. }
    simpl. unfold rollTo in Hk. fold want in Hk |- *. case_decide; [by destruct Hk as [-> _]|].
    by destruct Hk as (w & tr3 & -> & -> & _).
  - unfold rollTo. rewrite decide_True; [done|]. simpl. by rewrite lookup_insert_eq.
  - intros m [Hn%bool_decide_eq_true Hm%bool_decide_eq_true]%andb_true_iff. unfold ObjectKey. rewrite Hn, Hm. done.
Qed.

(** ** A worked example *)
Module RegistryCertExample.
Definition sample_unstructured : UnstructuredLib :=
  {| NestedSlice _ _ := Ok []; NestedInt64 _ _ := Ok (Some 3%Z); GetName _ := registryCertificateName |}.
Definition deploy : Deployment :=
  {| dep_Meta := new_meta registryNamespace registryDeploymentName ∅ ∅; dep_Replicas := Some 1%Z; dep_Selector := ∅;
     dep_TemplateLabels := ∅; dep_TemplateAnnotations := {[registryCertRevisionAnnotation := "2"]};
     dep_Pod := {| pod_RestartPolicy := "Always"; pod_ServiceAccountName := ""; pod_AutomountServiceAccountToken := None;
       pod_InitContainers := []; pod_Containers := []; pod_Volumes := []; pod_HostNetwork := false;
       pod_SecurityContext := None |};
     dep_AvailableReplicas := 1 |}.
Definition req : NamespacedName := {| key_Namespace := registryNamespace; key_Name := registryCertificateName |}.
Definition cluster (X : Set) (e : RegistryE X) (s : unit) : X * unit :=
  (match e in RegistryE X return X with
   | GetCertificate _ => Ok AnyOther
   | GetDeployment _ => Ok deploy
   | UpdateDeployment _ => Ok ()
   end, s).
Definition reconciled : option RegistryError * list (call RegistryE) * unit :=
  run cluster (@Reconcile sample_unstructured req) ().
Lemma registry_reconciled_exec : exec (@Reconcile sample_unstructured req) reconciled.1.2 reconciled.1.1.
Proof. apply run_exec. Qed.
End RegistryCertExample.

Lemma registry_rolls_once_witness :
  omap rolled RegistryCertExample.reconciled.1.2 =
  [annotate_template RegistryCertExample.deploy {[registryCertRevisionAnnotation := "3"]}].
Proof.
  assert (Hsplit : ∃ rest, RegistryCertExample.reconciled.1.2 =
    Call (GetCertificate RegistryCertExample.req) (Ok AnyOther) ::
    Call (GetDeployment deploymentKey) (Ok RegistryCertExample.deploy) :: rest) by (eexists; vm_compute; reflexivity).
  pose proof (proj1 (@registry_rolls_once RegistryCertExample.sample_unstructured _ _ _ AnyOther RegistryCertExample.deploy
    3%Z RegistryCertExample.registry_reconciled_exec Hsplit eq_refl)) as Hr.
  rewrite Hr. vm_compute. reflexivity.
Defined.
