(* ===== verification/Database.v ===== *)
(** * The database controllers, what they share

    [postgres_controller.go] and [mongo_controller.go] of
    [operator/internal/controller] are two copies of one design: the same checks, the
    same connection Secret, headless Service, StatefulSet and storage rules, in the
    same order, around an engine's own pod template and its optional admin UI.  This
    file models that design once, over an [Engine]: what the Postgres and the Mongo
    code supply.  [PostgresController.v] and [MongoController.v] give the two engines
    and show that they keep what the theorems here ask of one ([EngineLaws]).

    The Postgres and Mongo kinds have the same fields and are one record.  Uncached
    reads, writes, random bytes and [CreateOrUpdate] (given the mutation) are calls
    with arbitrary replies. *)
From S2P Require Import Prelude Regex GoStrings Effects Sha256 Kube Api Names AppController.
From Stdlib Require Import Ascii.

(** ** Data *)

(** [PostgresSpec] and [MongoSpec]; the tool is Pgweb or Mongo Express. *)
Record DatabaseSpec : Set := {
  db_Version : string;
  db_StorageSize : option Quantity;
  db_Tool : option bool;
}.
Record DatabaseStatus : Set := {
  db_ObservedGeneration : Z;
  db_Conditions : list Condition;
  db_SecretName : string;
  db_ToolServiceName : string;
}.
#[export] Instance DatabaseStatus_eq_dec : EqDecision DatabaseStatus.
Proof. solve_decision. Defined.
Record Database : Set := { db_Meta : ObjectMeta; db_Spec : DatabaseSpec; db_Status : DatabaseStatus }.

(** [PgwebEnabled], [MongoExpressEnabled] *)
Definition ToolEnabled (db : Database) : bool := default false (db_Tool (db_Spec db)).

(** [ReadyCondition], [PgwebReadyCondition], [MongoExpressReadyCondition]: the first
    condition of a type; [IsReady]; [ConnectionSecretRef]. *)
Fixpoint first_condition (type : string) (cs : list Condition) : option Condition :=
  match cs with
  | [] => None
  | c :: cs => if decide (cond_Type c = type) then Some c else first_condition type cs
  end.
Definition ReadyCondition (db : Database) : option Condition := first_condition ConditionReady (db_Conditions (db_Status db)).
Definition IsReady (db : Database) : bool :=
  match ReadyCondition db with Some c => bool_decide (cond_Status c = ConditionTrue) | None => false end.
Definition ConnectionSecretRef (db : Database) : option NamespacedName :=
  if decide (db_SecretName (db_Status db) = "") then None
  else Some {| key_Namespace := meta_Namespace (db_Meta db); key_Name := db_SecretName (db_Status db) |}.

Definition db_name (db : Database) : string := meta_Name (db_Meta db).
Definition db_namespace (db : Database) : string := meta_Namespace (db_Meta db).
Definition db_key (db : Database) : NamespacedName := ObjectKey (db_Meta db).

Definition SecretKeyURI : string := "uri".
Definition SecretKeyHost : string := "host".
Definition SecretKeyPort : string := "port".
Definition SecretKeyDatabase : string := "database".
Definition SecretKeyUsername : string := "username".
Definition SecretKeyPassword : string := "password".

Definition maxIdentifierLen : nat := 63.
Definition reasonProvisioning : string := "Provisioning".
Definition reasonProvisionFailed : string := "ProvisionFailed".
Definition reasonToolDisabled : string := "Disabled".
Definition defaultStorageSize : Quantity := MustParse "10Gi".
Definition minStorageSize : Quantity := MustParse "1Gi".

(** [^[a-z]([-a-z0-9]*[a-z0-9])?$] *)
Definition dns1035Label : re := Cat (Cls is_lower) (Opt (Cat (Star (Cls dns_or_dash)) (Cls dns_char))).

(** [strings.ReplaceAll(s, "-", "_")] *)
Definition underscore (s : string) : string :=
  of_bytes ((λ c, if decide (c = "-"%char) then "_"%char else c) <$> bytes s).

(** [resource.Quantity]: [Cmp] and [String]. *)
Class QuantityLib : Type := {
  QuantityCmp : Quantity → Quantity → comparison;
  QuantityString : Quantity → string;
}.

(** ** Calls and errors *)
Inductive ToolKind : Set := ToolDeployment | ToolService | ToolNetworkPolicy | ToolSecret.
#[export] Instance ToolKind_eq_dec : EqDecision ToolKind.
Proof. solve_decision. Defined.

Inductive DbE : Set → Type :=
| GetDatabase (key : NamespacedName) : DbE (result ApiError Database)
| ReadSecret (key : NamespacedName) : DbE (result ApiError Secret)
| CreateSecret (s : Secret) : DbE (result ApiError unit)
| UpdateSecret (s : Secret) : DbE (result ApiError unit)
| RandRead (n : nat) : DbE (result string (list ascii))
| ApplyService (key : NamespacedName) (mutate : Service → result string Service) : DbE (result ApplyError unit)
| ApplyStatefulSet (key : NamespacedName) (mutate : StatefulSet → result string StatefulSet)
    : DbE (result ApplyError StatefulSet)
| ApplyDeployment (key : NamespacedName) (mutate : Deployment → result string Deployment)
    : DbE (result ApplyError Deployment)
| ApplyNetworkPolicy (key : NamespacedName) (mutate : NetworkPolicy → result string NetworkPolicy)
    : DbE (result ApplyError unit)
| ReadPVC (key : NamespacedName) : DbE (result ApiError PersistentVolumeClaim)
| UpdatePVC (pvc : PersistentVolumeClaim) : DbE (result ApiError unit)
(** an object of the tool, read for its metadata and deleted by it *)
| GetTool (kind : ToolKind) (key : NamespacedName) : DbE (result ApiError ObjectMeta)
| DeleteTool (kind : ToolKind) (m : ObjectMeta) : DbE (result ApiError unit)
| UpdateDatabaseStatus (db : Database) : DbE (result ApiError unit).

Inductive SecretError : Set :=
| SecretApi (err : ApiError)
| SecretOwner (err : OwnerError)
| SecretNotOurs (text : string)
| SecretRandom (text : string).

(** Why a step of the tool failed: its prefix and its cause. *)
Inductive ToolError : Set :=
| ToolApply (step : string) (err : ApplyError)
| ToolSecretFailed (err : SecretError).

Inductive StorageError : Set :=
| ReadingPVC (err : ApiError)
| GrowingPVC (size : string) (err : ApiError).

Inductive DatabaseError : Set :=
| GettingDatabase (err : ApiError)
| Refused (text : string)
| DisablingTool (err : ApiError)
| ReconcilingSecret (err : SecretError)
| ReconcilingDbService (err : ApplyError)
| ReconcilingStatefulSet (err : ApplyError)
| ReconcilingStorage (err : StorageError)
| ReconcilingTool (err : ToolError)
| UpdatingDatabaseStatus (err : ApiError).

Definition secret_error_text (e : SecretError) : string :=
  match e with
  | SecretApi e => api_text e
  | SecretOwner e => owner_text e
  | SecretNotOurs t => t
  | SecretRandom t => "generating password: " +:+ t
  end.
Definition tool_error_text (e : ToolError) : string :=
  match e with
  | ToolApply step e => step +:+ ": " +:+ apply_text e
  | ToolSecretFailed e => "session Secret: " +:+ secret_error_text e
  end.
Definition storage_error_text (e : StorageError) : string :=
  match e with
  | ReadingPVC e => api_text e
  | GrowingPVC size e => "growing data PVC to " +:+ size +:+ ": " +:+ api_text e
  end.

(** [apierrors.IsConflict(err)] *)
Definition secret_error_conflict (e : SecretError) : bool :=
  match e with SecretApi e => IsConflict e | _ => false end.
Definition storage_error_conflict (e : StorageError) : bool :=
  match e with ReadingPVC e | GrowingPVC _ e => IsConflict e end.

(** ** The engine *)
Class Engine : Type := {
  (** "Postgres" or "Mongo" as the code's messages put it *)
  eng_Kind : string;
  eng_NameUse : string;
  eng_VersionText : string;
  eng_DefaultVersion : string;
  eng_Images : gmap string string;
  eng_Label : string;
  eng_Port : Z;
  eng_PortName : string;
  eng_DataVolume : string;
  (** the connection URI of an identifier, a password and a host *)
  eng_URI : string → string → string → string;
  (** the pod template's labels, and its pod *)
  eng_TemplateLabels : Database → gmap string string;
  eng_mutatePod : Database → string → string → PodSpec → PodSpec;
  (** the admin UI *)
  eng_ToolText : string;
  eng_ToolCondition : string;
  eng_reconcileTool : Database → prog DbE (Database * option ToolError);
  eng_disableTool : Database → prog DbE (option ApiError);
}.

(** ** Objects *)
Definition on_db_status (f : DatabaseStatus → DatabaseStatus) (db : Database) : Database :=
  {| db_Meta := db_Meta db; db_Spec := db_Spec db; db_Status := f (db_Status db) |}.
Definition with_db_conditions (cs : list Condition) (s : DatabaseStatus) : DatabaseStatus :=
  {| db_ObservedGeneration := db_ObservedGeneration s; db_Conditions := cs; db_SecretName := db_SecretName s;
     db_ToolServiceName := db_ToolServiceName s |}.
Definition with_db_observed (g : Z) (s : DatabaseStatus) : DatabaseStatus :=
  {| db_ObservedGeneration := g; db_Conditions := db_Conditions s; db_SecretName := db_SecretName s;
     db_ToolServiceName := db_ToolServiceName s |}.
Definition with_secret_name (n : string) (s : DatabaseStatus) : DatabaseStatus :=
  {| db_ObservedGeneration := db_ObservedGeneration s; db_Conditions := db_Conditions s; db_SecretName := n;
     db_ToolServiceName := db_ToolServiceName s |}.
Definition with_tool_service (n : string) (s : DatabaseStatus) : DatabaseStatus :=
  {| db_ObservedGeneration := db_ObservedGeneration s; db_Conditions := db_Conditions s;
     db_SecretName := db_SecretName s; db_ToolServiceName := n |}.

Definition secretEnv (name secretName key : string) : CoreEnvVar :=
  {| cenv_Name := name; cenv_Value := ""; cenv_ValueFrom := Some {| sel_Name := secretName; sel_Key := key |} |}.
Definition plainEnv (name value : string) : CoreEnvVar :=
  {| cenv_Name := name; cenv_Value := value; cenv_ValueFrom := None |}.

(** [corev1.Container{Name: name}], and the container the code assigns to. *)
Definition named_container (name : string) : Container :=
  {| c_Name := name; c_Image := ""; c_Command := []; c_Args := []; c_Env := [];
     c_Resources := no_resources; c_SecurityContext := None; c_VolumeMounts := []; c_Ports := [];
     c_ReadinessProbe := None; c_LivenessProbe := None; c_StartupProbe := None; c_ImagePullPolicy := "";
     c_TerminationMessagePath := "" |}.
Definition reuse_container (name : string) (containers : list Container) : Container :=
  match containers with
  | [c] => if decide (c_Name c = name) then c else named_container name
  | _ => named_container name
  end.

Definition runtime_default : string := "RuntimeDefault".
(** The pod security context all four pods get, for a uid. *)
Definition nonroot_pod (uid : Z) : PodSecurityContext :=
  {| psc_RunAsNonRoot := Some true; psc_RunAsUser := Some uid; psc_RunAsGroup := Some uid;
     psc_FSGroup := Some uid; psc_SeccompProfile := Some runtime_default |}.
(** The container security contexts of a database, and of a tool. *)
Definition database_security : SecurityContext :=
  {| sc_RunAsUser := None; sc_RunAsGroup := None; sc_RunAsNonRoot := None;
     sc_AllowPrivilegeEscalation := Some false; sc_ReadOnlyRootFilesystem := None; sc_Privileged := None;
     sc_CapDrop := ["ALL"]; sc_CapAdd := []; sc_SeccompProfile := None; sc_AppArmorProfile := None |}.
Definition tool_security (uid : Z) : SecurityContext :=
  {| sc_RunAsUser := Some uid; sc_RunAsGroup := Some uid; sc_RunAsNonRoot := Some true;
     sc_AllowPrivilegeEscalation := Some false; sc_ReadOnlyRootFilesystem := Some true; sc_Privileged := None;
     sc_CapDrop := ["ALL"]; sc_CapAdd := []; sc_SeccompProfile := Some runtime_default;
     sc_AppArmorProfile := None |}.

Definition new_probe (handler : ProbeHandler) (period timeout failure : Z) : Probe :=
  {| probe_Handler := handler; probe_PeriodSeconds := period; probe_TimeoutSeconds := timeout;
     probe_SuccessThreshold := 1; probe_FailureThreshold := failure |}.

Definition database_resources : ResourceRequirements :=
  {| res_Requests := {[ResourceCPU := MustParse "100m"; ResourceMemory := MustParse "256Mi"]};
     res_Limits := {[ResourceMemory := MustParse "1Gi"]} |}.
Definition tool_resources : ResourceRequirements :=
  {| res_Requests := {[ResourceCPU := MustParse "25m"; ResourceMemory := MustParse "64Mi"]};
     res_Limits := {[ResourceMemory := MustParse "256Mi"]} |}.

(** A container with what the code assigns, and the rest as it was. *)
Definition assign_container (c : Container) (image : string) (args : list string) (port : ContainerPort)
    (env : list CoreEnvVar) (mount : VolumeMount) (res : ResourceRequirements)
    (startup readiness liveness : Probe) (sc : SecurityContext) : Container :=
  {| c_Name := c_Name c; c_Image := image; c_Command := c_Command c; c_Args := args; c_Env := env;
     c_Resources := res; c_SecurityContext := Some sc; c_VolumeMounts := [mount]; c_Ports := [port];
     c_ReadinessProbe := Some readiness; c_LivenessProbe := Some liveness; c_StartupProbe := Some startup;
     c_ImagePullPolicy := c_ImagePullPolicy c; c_TerminationMessagePath := c_TerminationMessagePath c |}.
Definition tcp_port (name : string) (port : Z) : ContainerPort :=
  {| cp_Name := name; cp_ContainerPort := port; cp_Protocol := "TCP" |}.
Definition rw_mount (name path : string) : VolumeMount := {| vm_Name := name; vm_MountPath := path; vm_ReadOnly := false |}.

Section reconciler.
Context `{UnicodeTables, KubeLib, QuantityLib, Engine}.

Definition databaseVersion (db : Database) : string :=
  if decide (db_Version (db_Spec db) = "") then eng_DefaultVersion else db_Version (db_Spec db).
Definition databaseStorageSize (db : Database) : Quantity := default defaultStorageSize (db_StorageSize (db_Spec db)).

Definition set_condition (type : string) (db : Database) (status reason message : string) : Database :=
  on_db_status (λ s, with_db_conditions (SetStatusCondition (db_Conditions s)
    {| cond_Type := type; cond_Status := status; cond_ObservedGeneration := meta_Generation (db_Meta db);
       cond_Reason := reason; cond_Message := message; cond_LastTransitionTime := None |}) s) db.
Definition setReady : Database → string → string → string → Database := set_condition ConditionReady.
Definition setToolReady : Database → string → string → string → Database := set_condition eng_ToolCondition.

Definition updateStatus (db : Database) (before : DatabaseStatus) : prog DbE (option DatabaseError) :=
  let db := on_db_status (with_db_observed (meta_Generation (db_Meta db))) db in
  if decide (before = db_Status db) then Ret None
  else
    let! w := trigger (UpdateDatabaseStatus db) in
    Ret (match w with Ok _ => None | Err e => Some (UpdatingDatabaseStatus e) end).

(** [failReady] for an error with this text that is or is not a conflict. *)
Definition failReady (db : Database) (before : DatabaseStatus) (reason : string) (conflict : bool) (text : string)
    (err : DatabaseError) : prog DbE (option DatabaseError) :=
  if conflict then Ret (Some err)
  else
    let! _ := updateStatus (setReady db ConditionFalse reason text) before in
    Ret (Some err).

(** A permanent refusal. *)
Definition refuse (db : Database) (before : DatabaseStatus) (text : string) : prog DbE (option DatabaseError) :=
  failReady db before reasonProvisionFailed false text (Refused text).

(** *** The connection Secret *)
Definition generatePassword : prog DbE (result string string) :=
  let! b := trigger (RandRead 24) in
  Ret (map_ok EncodeToString b).

Definition connection_data (db : Database) (ident password : string) : gmap string string :=
  let host := db_name db +:+ "." +:+ db_namespace db +:+ ".svc.cluster.local" in
  {[SecretKeyURI := eng_URI ident password host; SecretKeyHost := host; SecretKeyPort := pretty eng_Port;
    SecretKeyDatabase := ident; SecretKeyUsername := ident; SecretKeyPassword := password]}.

(** The Secret to write: the stored one, or a new one, with Orkano's fields. *)
Definition render_secret (db : Database) (base : ObjectMeta) (data : gmap string string) : result OwnerError Secret :=
  let m := set_labels base (<[managedByLabel := managedByValue]> (meta_Labels base)) in
  match SetControllerReference (db_Meta db) m with
  | Err e => Err e
  | Ok m => Ok {| sec_Meta := m; sec_Type := SecretTypeOpaque; sec_Data := data |}
  end.

Definition secret_up_to_date (db : Database) (stored : Secret) (data : gmap string string) : bool :=
  bool_decide (sec_Data stored = data) && bool_decide (sec_Type stored = SecretTypeOpaque) &&
  IsControlledBy (sec_Meta stored) (db_Meta db) &&
  bool_decide (default "" (meta_Labels (sec_Meta stored) !! managedByLabel) = managedByValue).

Definition stored_password (stored : option Secret) : string :=
  match stored with Some s => default "" (sec_Data s !! SecretKeyPassword) | None => "" end.

(** The write, once the password is known. *)
Definition writeSecret (db : Database) (ident : string) (stored : option Secret) (password : string)
    : prog DbE (option SecretError) :=
  let data := connection_data db ident password in
  let base := match stored with Some s => sec_Meta s | None => new_meta (db_namespace db) (db_name db) ∅ ∅ end in
  match render_secret db base data with
  | Err e => Ret (Some (SecretOwner e))
  | Ok secret =>
      let finish (w : result ApiError unit) : option SecretError :=
        match w with Ok _ => None | Err e => Some (SecretApi e) end in
      match stored with
      | None => let! w := trigger (CreateSecret secret) in Ret (finish w)
      | Some s =>
          if secret_up_to_date db s data then Ret None
          else let! w := trigger (UpdateSecret secret) in Ret (finish w)
      end
  end.

Definition ensureSecret (db : Database) (ident : string) : prog DbE (option SecretError) :=
  let! g := trigger (ReadSecret (db_key db)) in
  match (match g with
         | Ok s => Ok (Some s)
         | Err e => if IsNotFound e then Ok None else Err e
         end) with
  | Err e => Ret (Some (SecretApi e))
  | Ok stored =>
      if decide (stored_password stored = "") then
        let! p := generatePassword in
        match p with
        | Err e => Ret (Some (SecretRandom e))
        | Ok password => writeSecret db ident stored password
        end
      else writeSecret db ident stored (stored_password stored)
  end.

(** *** The Service and the StatefulSet *)
Definition not_managed (kind : string) (m : ObjectMeta) : string :=
  "existing " +:+ kind +:+ " " +:+ meta_Namespace m +:+ "/" +:+ meta_Name m +:+
  " is not managed by Orkano; rename the " +:+ eng_Kind +:+ " or delete the " +:+ kind.
(** Created by someone else and controlled by nobody. *)
Definition foreign (m : ObjectMeta) : bool := has (meta_CreationTimestamp m) && negb (has (GetControllerOf m)).
Definition managed_meta (m : ObjectMeta) : ObjectMeta :=
  set_labels m (<[managedByLabel := managedByValue]> (meta_Labels m)).

Definition service_mutation (db : Database) (svc : Service) : result string Service :=
  if foreign (svc_Meta svc) then Err (not_managed "Service" (svc_Meta svc))
  else
    match SetControllerReference (db_Meta db) (managed_meta (svc_Meta svc)) with
    | Err e => Err (owner_text e)
    | Ok m =>
        Ok {| svc_Meta := m; svc_Type := svc_Type svc; svc_Selector := {[eng_Label := db_name db]};
              svc_Ports := [{| sp_Name := eng_PortName; sp_Port := eng_Port; sp_TargetPort := FromString eng_PortName;
                               sp_Protocol := "TCP" |}];
              svc_ClusterIP := ClusterIPNone |}
    end.

Definition ensureService (db : Database) : prog DbE (result ApplyError unit) :=
  trigger (ApplyService (db_key db) (service_mutation db)).

Definition data_claim (storage : Quantity) : VolumeClaim :=
  {| claim_Name := eng_DataVolume; claim_AccessModes := ["ReadWriteOnce"];
     claim_Requests := {[ResourceStorage := storage]} |}.

Definition statefulset_mutation (db : Database) (ident image : string) (storage : Quantity) (sts : StatefulSet)
    : result string StatefulSet :=
  if foreign (sts_Meta sts) then Err (not_managed "StatefulSet" (sts_Meta sts))
  else
    let created := has (meta_CreationTimestamp (sts_Meta sts)) in
    match SetControllerReference (db_Meta db) (managed_meta (sts_Meta sts)) with
    | Err e => Err (owner_text e)
    | Ok m =>
        Ok {| sts_Meta := m;
              sts_Selector := if created then sts_Selector sts else {[eng_Label := db_name db]};
              sts_ServiceName := if created then sts_ServiceName sts else db_name db;
              sts_VolumeClaimTemplates := if created then sts_VolumeClaimTemplates sts else [data_claim storage];
              sts_Replicas := Some 1%Z;
              sts_RetentionPolicy := Some ("Delete", "Retain");
              sts_TemplateLabels := eng_TemplateLabels db;
              sts_Pod := eng_mutatePod db ident image (sts_Pod sts);
              sts_ReadyReplicas := sts_ReadyReplicas sts |}
    end.

Definition ensureStatefulSet (db : Database) (ident image : string) (storage : Quantity)
    : prog DbE (result ApplyError StatefulSet) :=
  trigger (ApplyStatefulSet (db_key db) (statefulset_mutation db ident image storage)).

(** *** Storage *)
Definition pvc_key (db : Database) : NamespacedName :=
  {| key_Namespace := db_namespace db; key_Name := eng_DataVolume +:+ "-" +:+ db_name db +:+ "-0" |}.
(** [resource.Quantity{}] *)
Definition zero_quantity : Quantity := NewQuantity 0.
Definition provisioned (pvc : PersistentVolumeClaim) : Quantity := default zero_quantity (pvc_Requests pvc !! ResourceStorage).

(** [Some] of the provisioned size when the request is below it. *)
Definition reconcileStorage (db : Database) (desired : Quantity) : prog DbE (result StorageError (option Quantity)) :=
  let! g := trigger (ReadPVC (pvc_key db)) in
  match g with
  | Err e => Ret (if IsNotFound e then Ok None else Err (ReadingPVC e))
  | Ok pvc =>
      let current := provisioned pvc in
      match QuantityCmp desired current with
      | Eq => Ret (Ok None)
      | Lt => Ret (Ok (Some current))
      | Gt =>
          let! w := trigger (UpdatePVC {| pvc_Meta := pvc_Meta pvc;
            pvc_Requests := <[ResourceStorage := desired]> (pvc_Requests pvc) |}) in
          Ret (match w with Ok _ => Ok None | Err e => Err (GrowingPVC (QuantityString desired) e) end)
      end
  end.

(** *** The reconciler *)

(** The tail shared by both tool branches: record the tool's failure, report it. *)
Definition failTool (db : Database) (before : DatabaseStatus) (text : string) (err : DatabaseError)
    : prog DbE (option DatabaseError) :=
  let! s := updateStatus (setToolReady db ConditionFalse reasonReconcileError text) before in
  Ret (match s with Some statusErr => Some statusErr | None => Some err end).

(** The database is provisioned; report it and see to the tool. *)
Definition reportDatabase (db : Database) (before : DatabaseStatus) (ready : Z) : prog DbE (option DatabaseError) :=
  let db :=
    if decide (1 ≤ ready)%Z then setReady db ConditionTrue reasonAvailable "database is accepting connections"
    else setReady db ConditionFalse reasonProvisioning "waiting for the database pod to become ready" in
  if ToolEnabled db then
    let! t := eng_reconcileTool db in
    match t with
    | (db, Some e) => failTool db before (tool_error_text e) (ReconcilingTool e)
    | (db, None) => updateStatus db before
    end
  else updateStatus db before.

(** Secret, Service, StatefulSet and storage, in this order. *)
Definition provision (db : Database) (before : DatabaseStatus) (ident image : string) (storage : Quantity)
    : prog DbE (option DatabaseError) :=
  let! s := ensureSecret db ident in
  match s with
  | Some (SecretOwner (AlreadyOwned owner text)) =>
      refuse db before ("connection Secret " +:+ Quote (db_name db) +:+ " already exists and is owned by " +:+
        owner_Kind owner +:+ " " +:+ owner_Name owner +:+ " — pick a different name")
  | Some e =>
      failReady db before reasonReconcileError (secret_error_conflict e)
        ("reconciling connection Secret: " +:+ secret_error_text e) (ReconcilingSecret e)
  | None =>
    let db := on_db_status (with_secret_name (db_name db)) db in
    let! v := ensureService db in
    match v with
    | Err e => failReady db before reasonReconcileError (apply_conflict e)
        ("reconciling Service: " +:+ apply_text e) (ReconcilingDbService e)
    | Ok _ =>
      let! t := ensureStatefulSet db ident image storage in
      match t with
      | Err e => failReady db before reasonReconcileError (apply_conflict e)
          ("reconciling StatefulSet: " +:+ apply_text e) (ReconcilingStatefulSet e)
      | Ok sts =>
        let! g := reconcileStorage db storage in
        match g with
        | Err e => failReady db before reasonReconcileError (storage_error_conflict e)
            ("reconciling storage: " +:+ storage_error_text e) (ReconcilingStorage e)
        | Ok (Some shrunk) =>
            refuse db before ("cannot shrink storageSize: " +:+ QuantityString storage +:+ " requested, " +:+
              QuantityString shrunk +:+ " already provisioned (PVC expansion is one-way)")
        | Ok None => reportDatabase db before (sts_ReadyReplicas sts)
        end
      end
    end
  end.

Definition Reconcile (req : NamespacedName) : prog DbE (option DatabaseError) :=
  let! g := trigger (GetDatabase req) in
  match g with
  | Err e => Ret (if IsNotFound e then None else Some (GettingDatabase e))
  | Ok db =>
    if has (meta_DeletionTimestamp (db_Meta db)) then Ret None
    else
    let before := db_Status db in
    if negb (MatchString dns1035Label (db_name db)) || (maxIdentifierLen <? len (db_name db)) then
      refuse db before ("name " +:+ Quote (db_name db) +:+
        " must be a valid DNS-1035 label (start with a letter, no dots, ≤" +:+ pretty maxIdentifierLen +:+
        " chars) to back " +:+ eng_NameUse)
    else
    let ident := underscore (db_name db) in
    match eng_Images !! databaseVersion db with
    | None => refuse db before ("no image pinned for " +:+ eng_VersionText +:+ " version " +:+ Quote (databaseVersion db))
    | Some image =>
      let storage := databaseStorageSize db in
      if decide (QuantityCmp storage minStorageSize = Lt) then
        refuse db before ("storageSize " +:+ QuantityString storage +:+ " is below the " +:+
          QuantityString minStorageSize +:+ " minimum a database needs to start")
      else if negb (ToolEnabled db) then
        let! d := eng_disableTool db in
        match d with
        | Some e => failTool db before (api_text e) (DisablingTool e)
        | None =>
            let db := on_db_status (with_tool_service "") db in
            let db := setToolReady db ConditionFalse reasonToolDisabled (eng_ToolText +:+ " is disabled") in
            provision db before ident image storage
        end
      else provision db before ident image storage
    end
  end.
End reconciler.

(** ** Observing executions *)
Inductive DbAct : Type :=
| AppliedSet (key : NamespacedName) (mutate : StatefulSet → result string StatefulSet)
| WrotePVC (pvc : PersistentVolumeClaim)
| WroteDbStatus (db : Database).
Definition db_act (c : call DbE) : option DbAct :=
  match c with
  | Call (ApplyStatefulSet key mutate) _ => Some (AppliedSet key mutate)
  | Call (UpdatePVC pvc) _ => Some (WrotePVC pvc)
  | Call (UpdateDatabaseStatus db) _ => Some (WroteDbStatus db)
  | _ => None
  end.
Definition secret_written (c : call DbE) : option Secret :=
  match c with Call (CreateSecret s) _ => Some s | Call (UpdateSecret s) _ => Some s | _ => None end.
Definition drew (c : call DbE) : option nat := match c with Call (RandRead n) _ => Some n | _ => None end.
Definition secret_read (c : call DbE) : option (result ApiError Secret) :=
  match c with
  | Call e x => match e in DbE X return X → _ with ReadSecret _ => λ x, Some x | _ => λ _, None end x
  end.
Definition tool_deleted (c : call DbE) : option (ToolKind * ObjectMeta) :=
  match c with Call (DeleteTool kind m) _ => Some (kind, m) | _ => None end.

(** Calls that leave the database itself alone. *)
Definition beside (X : Set) (e : DbE X) : bool :=
  match e with ApplyStatefulSet _ _ | UpdatePVC _ | UpdateDatabaseStatus _ | GetDatabase _ | ReadPVC _ => false | _ => true end.

Lemma beside_quiet {A} (p : prog DbE A) tr a : calls_only beside p → exec p tr a → omap db_act tr = [].
Proof. apply calls_only_omap. by intros [X []]. Qed.

Definition ready_of `{KubeLib} (db : Database) : option string :=
  cond_Status <$> FindStatusCondition (db_Conditions (db_Status db)) ConditionReady.

(** An image reference that names its content. *)
Definition digest_pinned (image : string) : bool :=
  existsb (λ n, bool_decide (bytes image !! n = Some "@"%char) &&
    MatchString digestPattern (of_bytes (drop (S n) (bytes image)))) (seq 0 (len image)).

(** What the shared code relies on: images are pinned and the default version has
    one; the pod runs the image it is given, reads the password from the Secret and
    settles; and the tool's programs leave the database alone and, of its status,
    the Ready condition. *)
Class EngineLaws `{KubeLib, E : Engine} : Prop := {
  eng_pinned version image : eng_Images !! version = Some image → digest_pinned image = true;
  eng_default : is_Some (eng_Images !! eng_DefaultVersion);
  eng_pod db ident image pod :
    ∃ c, pod_Containers (eng_mutatePod db ident image pod) = [c] ∧ c_Image c = image ∧
      (∃ e, e ∈ c_Env c ∧ cenv_ValueFrom e = Some {| sel_Name := db_name db; sel_Key := SecretKeyPassword |}) ∧
      (∀ e, e ∈ c_Env c → cenv_ValueFrom e ≠ None → cenv_Value e = "");
  eng_pod_settles db ident image pod :
    eng_mutatePod db ident image (eng_mutatePod db ident image pod) = eng_mutatePod db ident image pod;
  eng_condition : eng_ToolCondition ≠ ConditionReady;
  eng_tool_beside db : calls_only beside (eng_reconcileTool db);
  eng_disable_beside db : calls_only beside (eng_disableTool db);
  eng_tool_keeps db tr db' e :
    exec (eng_reconcileTool db) tr (db', e) →
    db_Meta db' = db_Meta db ∧ db_Spec db' = db_Spec db ∧ ready_of db' = ready_of db;
}.

(** ** The connection Secret *)
Section secret.
Context `{UnicodeTables, KubeLib, !KubeLibLaws, QuantityLib, Engine}.

Lemma render_secret_Ok db base data s :
  render_secret db base data = Ok s →
  sec_Data s = data ∧ sec_Type s = SecretTypeOpaque ∧ IsControlledBy (sec_Meta s) (db_Meta db) = true ∧
  meta_Labels (sec_Meta s) !! managedByLabel = Some managedByValue.
Proof.
  unfold render_secret. destruct (SetControllerReference _ _) as [m|e] eqn:Hs; [|done]. intros [= <-]. simpl.
  apply SetControllerReference_meta in Hs as (_ & _ & -> & ->). simpl. by rewrite lookup_insert_eq.
Qed.

Lemma writeSecret_inv db ident stored password tr x s :
  exec (writeSecret db ident stored password) tr x → s ∈ omap secret_written tr →
  omap secret_written tr = [s] ∧ secret_up_to_date db s (connection_data db ident password) = true ∧
  sec_Data s = connection_data db ident password ∧
  (∀ s0, stored = Some s0 → secret_up_to_date db s0 (connection_data db ident password) = false).
Proof.
  unfold writeSecret. destruct (render_secret _ _ _) as [sec|e] eqn:Hr;
    [|intros [-> _]; by intros ?%not_elem_of_nil].
  apply render_secret_Ok in Hr as (Hd & Ht & Hc & Hl).
  assert (Hup : secret_up_to_date db sec (connection_data db ident password) = true).
  { unfold secret_up_to_date. by rewrite Hd, Ht, Hc, Hl, !bool_decide_true. }
  destruct stored as [s0|].
  - destruct (secret_up_to_date db s0 _) eqn:Hu; [intros [-> _]; by intros ?%not_elem_of_nil|].
    intros (w & tr' & -> & -> & _). simpl. intros ->%list_elem_of_singleton. split_and!; [done..|]. by intros ? [= <-].
  - intros (w & tr' & -> & -> & _). simpl. intros ->%list_elem_of_singleton. by split_and!.
Qed.

Lemma writeSecret_draws db ident stored password tr x :
  exec (writeSecret db ident stored password) tr x → omap drew tr = [].
Proof.
  apply (calls_only_omap (λ _ e, match e with RandRead _ => false | _ => true end)); [by intros [X []]|].
  unfold writeSecret. calls.
Qed.

Lemma password_of_data db ident p : connection_data db ident p !! SecretKeyPassword = Some p.
Proof. by unfold connection_data; simplify_map_eq. Qed.

(** How an [ensureSecret] goes on after reading the Secret. *)
Lemma ensureSecret_inv db ident tr x :
  exec (ensureSecret db ident) tr x →
  ∃ g rest, tr = Call (ReadSecret (db_key db)) g :: rest ∧
    (omap secret_written rest = [] ∨
     ∃ stored password tr1 tr2, rest = tr1 ++ tr2 ∧ exec (writeSecret db ident stored password) tr2 x ∧
       (∀ s0, g = Ok s0 ↔ stored = Some s0) ∧
       (tr1 = [] ∧ stored_password stored ≠ "" ∧ password = stored_password stored ∨
        stored_password stored = "" ∧ ∃ b, tr1 = [Call (RandRead 24) (Ok b)] ∧ password = EncodeToString b)).
Proof.
  intros (g & rest & -> & Hk). cbn [prog_bind] in Hk. exists g, rest. split; [done|].
  destruct (match g with Ok s => _ | Err e => _ end) as [stored|e] eqn:Hg; [|left; by destruct Hk as [-> _]].
  assert (Hs : ∀ s0, g = Ok s0 ↔ stored = Some s0).
  { intros s0. destruct g as [s|e]; [naive_solver|]. destruct (IsNotFound e); naive_solver. }
  case_decide as Hp.
  - apply exec_bind in Hk as (tr1 & tr2 & pw & -> & (b & tr3 & -> & -> & ->) & Hk).
    destruct b as [b|e]; simpl in Hk; [|left; by destruct Hk as [-> _]].
    right. eexists stored, _, [_], tr2. split_and!; [done..|]. right. split; [done|]. by exists b.
  - right. exists stored, (stored_password stored), [], rest. split_and!; [done..|]. by left.
Qed.
End secret.

(** ** The reconciler, path by path *)
Section traces.
Context `{UnicodeTables, KubeLib, !KubeLibLaws, QuantityLib, Engine, !EngineLaws}.

Definition observed (db : Database) : Database := on_db_status (with_db_observed (meta_Generation (db_Meta db))) db.

Lemma updateStatus_acts db before tr x a :
  exec (updateStatus db before) tr x → a ∈ omap db_act tr → a = WroteDbStatus (observed db).
Proof.
  unfold updateStatus. case_decide; [intros [-> _]; by intros ?%not_elem_of_nil|].
  intros (w & tr' & -> & -> & _). by intros ->%list_elem_of_singleton.
Qed.

Lemma ready_set db type status reason message :
  ready_of (observed (set_condition type db status reason message)) =
  if decide (type = ConditionReady) then Some status else ready_of db.
Proof.
  unfold ready_of, observed, set_condition. simpl. case_decide as Ht.
  - subst type. exact (FindStatusCondition_set _ {| cond_Type := ConditionReady |}).
  - f_equal. apply FindStatusCondition_set_other. intros He. by apply Ht.
Qed.

(** A status that says the database is not ready. *)
Definition unready (a : DbAct) : Prop :=
  match a with WroteDbStatus db => ready_of db = Some ConditionFalse | _ => False end.

Lemma failReady_acts db before reason conflict text err tr x :
  exec (failReady db before reason conflict text err) tr x → x = Some err ∧ ∀ a, a ∈ omap db_act tr → unready a.
Proof.
  unfold failReady. destruct conflict; [intros [-> ->]; split; [done|by intros ? ?%not_elem_of_nil]|].
  rewrite exec_bind. intros (tr1 & tr2 & u & -> & Hu & -> & ->). split; [done|]. rewrite app_nil_r. intros a Ha.
  rewrite (updateStatus_acts _ _ _ _ _ Hu Ha). simpl. unfold setReady. by rewrite ready_set, decide_True.
Qed.

Lemma failReady_unready db before reason conflict text err tr x a :
  exec (failReady db before reason conflict text err) tr x → a ∈ omap db_act tr → unready a.
Proof. intros Hf. by apply (proj2 (failReady_acts _ _ _ _ _ _ _ _ Hf)). Qed.

Lemma refuse_unready db before text tr x a : exec (refuse db before text) tr x → a ∈ omap db_act tr → unready a.
Proof. apply failReady_unready. Qed.

(** A refusal is a status update and nothing else. *)
Lemma refuse_calls db before text tr x c :
  exec (refuse db before text) tr x → c ∈ tr →
  ∃ d w, c = Call (UpdateDatabaseStatus d) w ∧ ready_of d = Some ConditionFalse.
Proof.
  unfold refuse, failReady. rewrite exec_bind. intros (t1 & t2 & u & -> & Hu & -> & _). rewrite app_nil_r.
  unfold updateStatus in Hu. destruct (decide _) in Hu; [destruct Hu as [-> _]; by intros ?%not_elem_of_nil|].
  destruct Hu as (w & t3 & -> & -> & _). intros ->%list_elem_of_singleton. eexists _, w. split; [done|].
  pose proof (ready_set db ConditionReady ConditionFalse reasonProvisionFailed text) as Hs. by rewrite decide_True in Hs.
Qed.

Lemma ensureSecret_beside db ident : calls_only beside (ensureSecret db ident).
Proof. unfold ensureSecret, writeSecret, generatePassword. calls. Qed.

(** What [reconcileStorage] does with a request. *)
Lemma reconcileStorage_inv db desired tr r :
  exec (reconcileStorage db desired) tr r →
  ∃ g rest, tr = Call (ReadPVC (pvc_key db)) g :: rest ∧
    match g with
    | Err e => rest = [] ∧ (r = Ok None → IsNotFound e = true)
    | Ok pvc =>
        match QuantityCmp desired (provisioned pvc) with
        | Eq => rest = [] ∧ r = Ok None
        | Lt => rest = [] ∧ r = Ok (Some (provisioned pvc))
        | Gt => ∃ w, rest = [Call (UpdatePVC {| pvc_Meta := pvc_Meta pvc;
            pvc_Requests := <[ResourceStorage := desired]> (pvc_Requests pvc) |}) w] ∧ (∀ q, r ≠ Ok (Some q))
        end
    end.
Proof.
  intros (g & rest & -> & Hk). cbn [prog_bind] in Hk. exists g, rest. split; [done|].
  destruct g as [pvc|e]; [|destruct Hk as [-> ->]; split; [done|by destruct (IsNotFound e)]].
  destruct (QuantityCmp _ _); [by destruct Hk as [-> ->]..|].
  destruct Hk as (w & tr' & -> & -> & ->). exists w. split; [done|]. by destruct w.
Qed.

(** The volume is, for all this reconcile has seen, no larger than requested. *)
Definition fits (db : Database) (storage : Quantity) (tr : list (call DbE)) : Prop :=
  (∃ text, Call (ReadPVC (pvc_key db)) (Err (NotFound text)) ∈ tr) ∨
  ∃ pvc, Call (ReadPVC (pvc_key db)) (Ok pvc) ∈ tr ∧ QuantityCmp storage (provisioned pvc) ≠ Lt.

(** What makes a database Ready. *)
Definition provisioned_ok (db : Database) (storage : Quantity) (tr : list (call DbE)) : Prop :=
  (∃ mutate sts, Call (ApplyStatefulSet (db_key db) mutate) (Ok sts) ∈ tr ∧ (1 ≤ sts_ReadyReplicas sts)%Z) ∧
  fits db storage tr.

(** What provisioning may do to the database. *)
Definition provisions (db : Database) (ident image : string) (storage : Quantity) (tr : list (call DbE)) (a : DbAct) : Prop :=
  match a with
  | AppliedSet key mutate => key = db_key db ∧
      mutate = statefulset_mutation (on_db_status (with_secret_name (db_name db)) db) ident image storage
  | WrotePVC pvc' => ∃ pvc, Call (ReadPVC (pvc_key db)) (Ok pvc) ∈ tr ∧
      QuantityCmp storage (provisioned pvc) = Gt ∧
      pvc' = {| pvc_Meta := pvc_Meta pvc; pvc_Requests := <[ResourceStorage := storage]> (pvc_Requests pvc) |}
  | WroteDbStatus db' => ready_of db' = Some ConditionFalse ∨ provisioned_ok db storage tr
  end.

Lemma unready_provisions db ident image storage tr a : unready a → provisions db ident image storage tr a.
Proof. destruct a; simpl; [done|done|by left]. Qed.

(** The report at the end writes one status, with Ready as the replicas say. *)
Lemma reportDatabase_acts db before ready tr x a :
  exec (reportDatabase db before ready) tr x → a ∈ omap db_act tr →
  ∃ db', a = WroteDbStatus db' ∧ (ready_of db' = Some ConditionFalse ∨ (1 ≤ ready)%Z).
Proof.
  unfold reportDatabase.
  set (db1 := if decide _ then _ else _).
  assert (Hdb1 : ∀ db', ready_of db' = ready_of db1 → ready_of db' = Some ConditionFalse ∨ (1 ≤ ready)%Z).
  { intros db' ->. unfold db1. case_decide as Hr; [by right|left].
    pose proof (ready_set db ConditionReady ConditionFalse reasonProvisioning "waiting for the database pod to become ready") as Hs.
    by rewrite decide_True in Hs. }
  destruct (ToolEnabled db1).
  - rewrite exec_bind. intros (tr1 & tr2 & [db2 e] & -> & Ht & Hk). rewrite omap_app.
    rewrite (beside_quiet _ _ _ (eng_tool_beside db1) Ht). simpl. intros Ha.
    destruct (eng_tool_keeps _ _ _ _ Ht) as (_ & _ & Hready). destruct e as [e|].
    + apply exec_bind in Hk as (tr3 & tr4 & u & -> & Hu & -> & _). rewrite app_nil_r in Ha.
      rewrite (updateStatus_acts _ _ _ _ _ Hu Ha). eexists. split; [done|]. apply Hdb1.
      unfold setToolReady. rewrite ready_set, decide_False by apply eng_condition. done.
    + rewrite (updateStatus_acts _ _ _ _ _ Hk Ha). eexists. split; [done|]. by apply Hdb1.
  - intros Hk Ha. rewrite (updateStatus_acts _ _ _ _ _ Hk Ha). eexists. split; [done|]. by apply Hdb1.
Qed.

Lemma provisions_mono db ident image storage pre tr a :
  provisions db ident image storage tr a → provisions db ident image storage (pre ++ tr) a.
Proof.
  assert (Hin : ∀ c, c ∈ tr → c ∈ pre ++ tr) by (intros c; rewrite elem_of_app; by right).
  destruct a as [key mutate|pvc'|db']; simpl; [done| |].
  - intros (pvc & ? & ?). exists pvc. auto.
  - intros [?|[(mutate & sts & ? & ?) [(text & ?)|(pvc & ? & ?)]]]; [by left|right..].
    + split; [exists mutate, sts; auto|left; exists text; auto].
    + split; [exists mutate, sts; auto|right; exists pvc; auto].
Qed.

Lemma provisions_tail db ident image storage c tr a :
  provisions db ident image storage tr a → provisions db ident image storage (c :: tr) a.
Proof. apply (provisions_mono _ _ _ _ [c]). Qed.

(** After the StatefulSet: storage, then the report. *)
Lemma storage_report_acts db ident image storage before sts mutate tr x a :
  exec (let! g := reconcileStorage db storage in
        match g with
        | Err e => failReady db before reasonReconcileError (storage_error_conflict e)
            ("reconciling storage: " +:+ storage_error_text e) (ReconcilingStorage e)
        | Ok (Some shrunk) =>
            refuse db before ("cannot shrink storageSize: " +:+ QuantityString storage +:+ " requested, " +:+
              QuantityString shrunk +:+ " already provisioned (PVC expansion is one-way)")
        | Ok None => reportDatabase db before (sts_ReadyReplicas sts)
        end) tr x →
  a ∈ omap db_act tr → (∀ key m, a ≠ AppliedSet key m) ∧
  provisions db ident image storage (Call (ApplyStatefulSet (db_key db) mutate) (Ok sts) :: tr) a.
Proof.
  rewrite exec_bind. intros (tr1 & tr2 & r & -> & (g & rest & -> & Hg)%reconcileStorage_inv & Hk).
  rewrite omap_app, elem_of_app. intros [Ha|Ha].
  - simpl in Ha. destruct g as [pvc|e]; [|destruct Hg as [-> _]; by apply not_elem_of_nil in Ha].
    destruct (QuantityCmp _ _) eqn:Hc; [destruct Hg as [-> _]; by apply not_elem_of_nil in Ha..|].
    destruct Hg as (w & -> & _). apply list_elem_of_singleton in Ha as ->. split; [done|].
    exists pvc. split_and!; [right; left|done|done].
  - assert (Hun : unready a → (∀ key m, a ≠ AppliedSet key m) ∧
      provisions db ident image storage (Call (ApplyStatefulSet (db_key db) mutate) (Ok sts) ::
        (Call (ReadPVC (pvc_key db)) g :: rest) ++ tr2) a).
    { intros Hu. split; [by destruct a|by apply unready_provisions]. }
    destruct r as [[shrunk|]|e]; [by apply Hun; eapply refuse_unready| |by apply Hun; eapply failReady_unready].
    destruct (reportDatabase_acts _ _ _ _ _ _ Hk Ha) as (db' & -> & [Hf|Hr]); [by apply Hun|].
    split; [done|]. right. split; [exists mutate, sts; split; [left|done]|].
    destruct g as [pvc|e].
    + right. exists pvc. split; [right; left|]. intros Hlt. rewrite Hlt in Hg. by destruct Hg.
    + destruct Hg as [_ Hn]. specialize (Hn eq_refl). destruct e as [text| | |]; try done. left. exists text. right; left.
Qed.

Lemma provision_acts db before ident image storage tr x a :
  exec (provision db before ident image storage) tr x → a ∈ omap db_act tr →
  provisions db ident image storage tr a.
Proof.
  unfold provision. rewrite exec_bind. intros (trS & tr1 & s & -> & Hs & Hk).
  rewrite omap_app, (beside_quiet _ _ _ (ensureSecret_beside db ident) Hs). simpl. intros Ha.
  apply provisions_mono.
  destruct s as [e|].
  { apply unready_provisions. destruct e as [e|[owner text|text]|text|text]; first [by eapply failReady_unready|by eapply refuse_unready]. }
  set (db1 := on_db_status (with_secret_name (db_name db)) db) in *.
  destruct Hk as (v & tr2 & -> & Hk). cbn [prog_bind] in Hk. simpl in Ha. apply provisions_tail.
  destruct v as [_|e]; [|apply unready_provisions; by eapply failReady_unready].
  destruct Hk as (t & tr3 & -> & Hk). cbn [prog_bind] in Hk. simpl in Ha. apply elem_of_cons in Ha as [->|Ha]; [done|].
  destruct t as [sts|e]; [|apply unready_provisions; by eapply failReady_unready].
  destruct (storage_report_acts db1 ident image storage before sts (statefulset_mutation db1 ident image storage) _ _ _ Hk Ha) as [Hn Hp].
  destruct a as [key m|pvc'|db']; [by destruct (Hn key m)|exact Hp|exact Hp].
Qed.

(** Where a reconcile of [db] can go. *)
Lemma Reconcile_inv req tr x a :
  exec (Reconcile req) tr x → a ∈ omap db_act tr →
  ∃ db rest, tr = Call (GetDatabase req) (Ok db) :: rest ∧ meta_DeletionTimestamp (db_Meta db) = None ∧
    (unready a ∧ (∀ c, c ∈ rest → ∃ d w, c = Call (UpdateDatabaseStatus d) w) ∨
     ∃ image, MatchString dns1035Label (db_name db) = true ∧ len (db_name db) ≤ 63 ∧
       eng_Images !! databaseVersion db = Some image ∧ QuantityCmp (databaseStorageSize db) minStorageSize ≠ Lt ∧
       ((∃ db', a = WroteDbStatus db' ∧ ready_of db' = ready_of db ∧ ToolEnabled db = false) ∨
        ∃ db', db_Meta db' = db_Meta db ∧ db_Spec db' = db_Spec db ∧
          provisions db' (underscore (db_name db)) image (databaseStorageSize db) rest a)).
Proof.
  intros (g & rest & -> & Hk) Ha. cbn [prog_bind] in Hk. simpl in Ha.
  destruct g as [db|e]; [|destruct Hk as [-> _]; by apply not_elem_of_nil in Ha].
  exists db, rest. destruct (meta_DeletionTimestamp (db_Meta db)) eqn:Hd; cbn [has] in Hk;
    [destruct Hk as [-> _]; by apply not_elem_of_nil in Ha|]. split_and!; [done..|].
  assert (Href : ∀ text, exec (refuse db (db_Status db) text) rest x →
    unready a ∧ ∀ c, c ∈ rest → ∃ d w, c = Call (UpdateDatabaseStatus d) w).
  { intros text Hr. split; [by eapply refuse_unready|]. intros c Hc.
    destruct (refuse_calls _ _ _ _ _ _ Hr Hc) as (d & w & -> & _). by exists d, w. }
  destruct (MatchString dns1035Label (db_name db)) eqn:Hn; cbn [negb orb] in Hk; [|left; by eapply Href].
  destruct (maxIdentifierLen <? len (db_name db)) eqn:Hl; [left; by eapply Href|]. apply Nat.ltb_ge in Hl.
  destruct (eng_Images !! databaseVersion db) as [image|] eqn:Hi; [|left; by eapply Href].
  destruct (decide (QuantityCmp (databaseStorageSize db) minStorageSize = Lt)) as [Hq|Hq]; [left; by eapply Href|].
  right. exists image. split_and!; [done..|]. destruct (ToolEnabled db) eqn:Ht; cbn [negb] in Hk.
  - right. exists db. split_and!; [done..|]. by eapply provision_acts.
  - apply exec_bind in Hk as (tr1 & tr2 & e & -> & He & Hk).
    rewrite omap_app, (beside_quiet _ _ _ (eng_disable_beside db) He) in Ha. simpl in Ha. destruct e as [e|].
    + left. apply exec_bind in Hk as (tr3 & tr4 & u & -> & Hu & -> & _). rewrite app_nil_r in Ha.
      rewrite (updateStatus_acts _ _ _ _ _ Hu Ha). eexists. split_and!; [done| |done].
      unfold setToolReady. by rewrite ready_set, decide_False by apply eng_condition.
    + right. eexists. split_and!; [| |apply provisions_mono; by eapply provision_acts]; done.
Qed.
End traces.

(** ** Properties *)
Section properties.
Context `{UnicodeTables, KubeLib, !KubeLibLaws, QuantityLib, Engine}.

(** Credentials outlive reconciles: the connection Secret is written at most once
    per pass, owned by the database and holding exactly the six connection keys for
    one password; a password that is already stored is kept (and no randomness is
    drawn), otherwise it is the hex of 24 fresh random bytes; a stored Secret that
    is up to date is not written; and one that was written is left alone when it is
    read back. *)
Theorem connection_secret_stable db ident tr x s :
  exec (ensureSecret db ident) tr x → s ∈ omap secret_written tr →
  omap secret_written tr = [s] ∧ IsControlledBy (sec_Meta s) (db_Meta db) = true ∧
  ∃ g p, head tr = Some (Call (ReadSecret (db_key db)) g) ∧ sec_Data s = connection_data db ident p ∧
    (∀ s0, g = Ok s0 → stored_password (Some s0) ≠ "" → p = stored_password (Some s0) ∧
      secret_up_to_date db s0 (connection_data db ident p) = false ∧ omap drew tr = []) ∧
    ((∀ s0, g = Ok s0 → stored_password (Some s0) = "") → ∃ b, Call (RandRead 24) (Ok b) ∈ tr ∧ p = EncodeToString b) ∧
    (p ≠ "" → ∀ tr' x', exec (ensureSecret db ident) (Call (ReadSecret (db_key db)) (Ok s) :: tr') x' →
      omap secret_written tr' = []).
Proof.
  intros (g & rest & -> & Hr)%ensureSecret_inv Hin. simpl in Hin |- *.
  destruct Hr as [Hnone|(stored & p & tr1 & tr2 & -> & Hw & Hg & Hp)].
  { exfalso. apply (not_elem_of_nil s). by rewrite <- Hnone. }
  assert (Hq : omap secret_written tr1 = []) by (by destruct Hp as [[-> _]|(_ & b & -> & _)]).
  change (list_omap _ _ secret_written (tr1 ++ tr2)) with (omap secret_written (tr1 ++ tr2)) in *.
  rewrite omap_app, Hq in Hin |- *. simpl in Hin |- *.
  destruct (writeSecret_inv _ _ _ _ _ _ _ Hw Hin) as (Hone & Hup & Hdata & Hold).
  assert (Hctl : IsControlledBy (sec_Meta s) (db_Meta db) = true).
  { unfold secret_up_to_date in Hup. by apply andb_true_iff in Hup as [[[_ _]%andb_true_iff ?]%andb_true_iff _]. }
  split_and!; [done..|]. exists g, p. split_and!; [done..| | |].
  - intros s0 Hs0 Hne. pose proof (proj1 (Hg s0) Hs0) as Hst. subst stored.
    destruct Hp as [(-> & _ & ->)|(He & _)]; [|done]. split_and!; [done|by apply Hold|].
    simpl. by eapply writeSecret_draws.
  - intros Hempty. destruct Hp as [(_ & Hne & _)|(_ & b & -> & ->)].
    + destruct stored as [s0|]; [|done]. by destruct Hne; apply Hempty, Hg.
    + exists b. split; [right; left|done].
  - intros Hne tr' x' (g' & rest' & Heq & Hr')%ensureSecret_inv.
    assert (g' = Ok s ∧ tr' = rest') as [-> ->].
    { split; [|by injection Heq]. apply (f_equal (λ l, head l ≫= secret_read)) in Heq. simpl in Heq. congruence. }
    destruct Hr' as [?|(stored' & p' & t1 & t2 & -> & Hw' & Hg' & Hp')]; [done|].
    pose proof (proj1 (Hg' s) eq_refl) as ->.
    assert (Hsp : stored_password (Some s) = p) by (simpl; by rewrite Hdata, password_of_data).
    destruct Hp' as [(-> & _ & ->)|(He & _)]; [|congruence]. rewrite Hsp in Hw'. simpl.
    destruct (omap secret_written t2) as [|s' l] eqn:Ew; [done|exfalso].
    destruct (writeSecret_inv _ _ _ _ _ _ s' Hw') as (_ & _ & _ & Hold'); [rewrite Ew; left|].
    specialize (Hold' s eq_refl). congruence.
Qed.

Context `{!EngineLaws}.

(** The database's workload is set up once and pinned: a StatefulSet is applied
    only under the database's own key, for a name that is a DNS label of at most 63
    characters, with a mutation that refuses a StatefulSet nobody controls, leaves
    the selector, Service name and volume claims of an existing one as they are (a
    new one gets its own label and one claim of the requested size), deletes the
    volume only with the set, and runs one container of a digest-pinned image that
    reads its password from the connection Secret. *)
Theorem statefulset_safe req tr x key mutate :
  exec (Reconcile req) tr x → AppliedSet key mutate ∈ omap db_act tr →
  ∃ db, head tr = Some (Call (GetDatabase req) (Ok db)) ∧ key = db_key db ∧
    MatchString dns1035Label (db_name db) = true ∧ len (db_name db) ≤ 63 ∧
    ∀ sts sts', mutate sts = Ok sts' →
      (meta_CreationTimestamp (sts_Meta sts) = None ∨ GetControllerOf (sts_Meta sts) ≠ None) ∧
      sts_RetentionPolicy sts' = Some ("Delete", "Retain") ∧ sts_Replicas sts' = Some 1%Z ∧
      (meta_CreationTimestamp (sts_Meta sts) ≠ None →
        sts_Selector sts' = sts_Selector sts ∧ sts_ServiceName sts' = sts_ServiceName sts ∧
        sts_VolumeClaimTemplates sts' = sts_VolumeClaimTemplates sts) ∧
      (meta_CreationTimestamp (sts_Meta sts) = None →
        sts_Selector sts' = {[eng_Label := db_name db]} ∧ sts_ServiceName sts' = db_name db ∧
        sts_VolumeClaimTemplates sts' = [data_claim (databaseStorageSize db)]) ∧
      ∃ c, pod_Containers (sts_Pod sts') = [c] ∧ digest_pinned (c_Image c) = true ∧
        ∃ e, e ∈ c_Env c ∧ cenv_Value e = "" ∧
          cenv_ValueFrom e = Some {| sel_Name := db_name db; sel_Key := SecretKeyPassword |}.
Proof.
  intros Hex Ha. destruct (Reconcile_inv _ _ _ _ Hex Ha) as (db & rest & -> & _ & [[[] _]|Hr]).
  destruct Hr as (image & Hn & Hl & Hi & _ & [(db' & ? & _)|(db1 & Em & Es & -> & ->)]); [done|].
  assert (Hname : db_name db1 = db_name db) by (unfold db_name; by rewrite Em).
  exists db. split_and!; [done|by unfold db_key; rewrite Em|done..|]. intros sts sts'. unfold statefulset_mutation.
  destruct (foreign (sts_Meta sts)) eqn:Hf; [done|]. destruct (SetControllerReference _ _) as [m|]; [|done].
  intros [= <-]. simpl. rewrite Hname. split_and!; try done.
  - unfold foreign in Hf. destruct (meta_CreationTimestamp _), (GetControllerOf _); simpl in Hf; auto.
  - by destruct (meta_CreationTimestamp _).
  - intros ->. simpl. unfold db_name. simpl. by rewrite Em.
  - destruct (eng_pod (on_db_status (with_secret_name (db_name db)) db1) (underscore (db_name db)) image (sts_Pod sts))
      as (c & Hc & Him & (e & He & Hv) & Hval).
    exists c. split_and!; [done|rewrite Him; by eapply eng_pinned|]. exists e. split_and!; [done|apply Hval; [done|by rewrite Hv]|].
    rewrite Hv. unfold db_name. simpl. by rewrite Em.
Qed.

(** Storage only grows: the data volume is written only after it was read in the
    same pass and found strictly smaller than the requested size, which is at least
    the minimum, and only its storage request changes. *)
Theorem storage_grows_only req tr x pvc' :
  exec (Reconcile req) tr x → WrotePVC pvc' ∈ omap db_act tr →
  ∃ db pvc, head tr = Some (Call (GetDatabase req) (Ok db)) ∧ Call (ReadPVC (pvc_key db)) (Ok pvc) ∈ tr ∧
    QuantityCmp (databaseStorageSize db) (provisioned pvc) = Gt ∧
    QuantityCmp (databaseStorageSize db) minStorageSize ≠ Lt ∧
    pvc' = {| pvc_Meta := pvc_Meta pvc; pvc_Requests := <[ResourceStorage := databaseStorageSize db]> (pvc_Requests pvc) |}.
Proof.
  intros Hex Ha. destruct (Reconcile_inv _ _ _ _ Hex Ha) as (db & rest & -> & _ & [[[] _]|Hr]).
  destruct Hr as (image & Hn & Hl & Hi & Hq & [(db' & ? & _)|(db1 & Em & Es & pvc & Hin & Hgt & ->)]); [done|].
  exists db, pvc. split_and!; [done| |done..]. right.
  revert Hin. unfold pvc_key, db_namespace, db_name. by rewrite Em.
Qed.

(** Ready is earned: a status written with Ready True follows, in the same pass, a
    StatefulSet that came back with a ready replica and a data volume that is not
    larger than requested (or not created yet), for a database that passed the name,
    version and size checks.  The one exception leaves Ready as it was: a status
    that only records that the admin UI could not be removed. *)
Theorem database_ready_earned req tr x db' :
  exec (Reconcile req) tr x → WroteDbStatus db' ∈ omap db_act tr → ready_of db' = Some ConditionTrue →
  ∃ db rest, tr = Call (GetDatabase req) (Ok db) :: rest ∧ meta_DeletionTimestamp (db_Meta db) = None ∧
    (ToolEnabled db = false ∧ ready_of db = Some ConditionTrue ∨
     MatchString dns1035Label (db_name db) = true ∧ is_Some (eng_Images !! databaseVersion db) ∧
     QuantityCmp (databaseStorageSize db) minStorageSize ≠ Lt ∧
     (∃ mutate sts, Call (ApplyStatefulSet (db_key db) mutate) (Ok sts) ∈ rest ∧ (1 ≤ sts_ReadyReplicas sts)%Z) ∧
     fits db (databaseStorageSize db) rest).
Proof.
  intros Hex Ha Hr. destruct (Reconcile_inv _ _ _ _ Hex Ha) as (db & rest & -> & Hd & [[Hu _]|Hcase]).
  { simpl in Hu. by rewrite Hr in Hu. }
  destruct Hcase as (image & Hn & _ & Hi & Hq & [(db1 & [= <-] & Hk & Ht)|(db1 & Em & Es & [Hu|[(mutate & sts & Hs & Hrep) Hf]])]);
    exists db, rest; (split_and!; [done..|]).
  - left. split; [done|congruence].
  - simpl in Hu. by rewrite Hr in Hu.
  - right. split_and!; [done|by eexists|done| |].
    + exists mutate, sts. unfold db_key in *. by rewrite <- Em.
    + unfold fits, pvc_key, db_namespace, db_name in *. by rewrite <- Em.
Qed.

(** A request Orkano will not serve changes nothing: for a name that is not a DNS
    label of at most 63 characters, a version without an image or a size below the
    minimum, a reconcile makes no call after reading the database but a status
    update that says it is not ready, and reports the refusal; a database that is
    being deleted is not touched at all. *)
Theorem refused_changes_nothing req tr x db rest :
  exec (Reconcile req) tr x → tr = Call (GetDatabase req) (Ok db) :: rest →
  (meta_DeletionTimestamp (db_Meta db) ≠ None → rest = [] ∧ x = None) ∧
  (meta_DeletionTimestamp (db_Meta db) = None →
   MatchString dns1035Label (db_name db) = false ∨ 63 < len (db_name db) ∨
   eng_Images !! databaseVersion db = None ∨ QuantityCmp (databaseStorageSize db) minStorageSize = Lt →
   (∃ text, x = Some (Refused text)) ∧
   ∀ c, c ∈ rest → ∃ d w, c = Call (UpdateDatabaseStatus d) w ∧ ready_of d = Some ConditionFalse).
Proof.
  intros (g & rest' & -> & Hk) Heq. cbn [prog_bind] in Hk.
  assert (g = Ok db ∧ rest' = rest) as [-> ->].
  { split; [|by injection Heq]. apply (f_equal (λ l, head l ≫= λ c, match c with
      | Call e x => match e in DbE X return X → option (result ApiError Database) with
                    | GetDatabase _ => λ x, Some x | _ => λ _, None end x end)) in Heq. simpl in Heq. congruence. }
  clear Heq. destruct (meta_DeletionTimestamp (db_Meta db)) eqn:Hd; cbn [has] in Hk; [by destruct Hk as [-> ->]|].
  split; [done|]. intros _ Hbad.
  assert (Href : ∀ text, exec (refuse db (db_Status db) text) rest x →
    (∃ text, x = Some (Refused text)) ∧
    ∀ c, c ∈ rest → ∃ d w, c = Call (UpdateDatabaseStatus d) w ∧ ready_of d = Some ConditionFalse).
  { intros text Hr. destruct (failReady_acts _ _ _ _ _ _ _ _ Hr) as [-> _]. split; [by exists text|].
    intros c. by eapply refuse_calls. }
  destruct (MatchString dns1035Label (db_name db)) eqn:Hn; cbn [negb orb] in Hk; [|by eapply Href].
  destruct (maxIdentifierLen <? len (db_name db)) eqn:Hl; [by eapply Href|]. apply Nat.ltb_ge in Hl.
  unfold maxIdentifierLen in Hl.
  destruct (eng_Images !! databaseVersion db) as [image|] eqn:Hi; [|by eapply Href].
  destruct (decide (QuantityCmp (databaseStorageSize db) minStorageSize = Lt)) as [Hq|Hq]; [by eapply Href|].
  exfalso. destruct Hbad as [?|[?|[?|?]]]; [done|lia|done|done].
Qed.
End properties.
