(* ===== verification/DatabaseTool.v ===== *)
(** * The databases' admin UIs

    Pgweb and Mongo Express are set up by two copies of the same code in
    [postgres_controller.go] and [mongo_controller.go]; this file models it over what
    tells them apart ([Tool]): the derived object names, the mutations of Service,
    Deployment and NetworkPolicy, and the removal of the objects.  The theorems show
    that the names are valid, that the NetworkPolicy lets in the dashboard alone and
    lets out only towards the database and DNS, and that removal deletes only what
    the database controls. *)
From S2P Require Import Prelude Regex GoStrings Effects Sha256 Kube Api Names AppController Database.
From Stdlib Require Import Ascii.

(** ** Definitions *)
Definition systemNamespace : string := "orkano-system".

(** [pgwebResourceName], [mongoExpressResourceName] *)
Definition toolResourceName (suffix name : string) : string :=
  if len name + len suffix <=? 63 then name +:+ suffix
  else
    let hash := EncodeToString (take 4 (Sum256 (bytes name))) in
    let maxPrefix := 63 - len suffix - len hash - 1 in
    TrimRight (slice_to maxPrefix name) "-" +:+ "-" +:+ hash +:+ suffix.

(** What tells the two tools apart. *)
Record Tool : Set := {
  tool_Text : string;
  tool_Label : string;
  tool_Container : string;
  tool_Suffix : string;
  tool_Port : Z;
  tool_PortName : string;
}.

Section tool.
Context `{KubeLib} (t : Tool) (dbLabel : string) (dbPort : Z).

Definition tool_name (db : Database) : string := toolResourceName (tool_Suffix t) (db_name db).
Definition tool_key (db : Database) : NamespacedName :=
  {| key_Namespace := db_namespace db; key_Name := tool_name db |}.
Definition tool_selector (db : Database) : gmap string string := {[tool_Label t := db_name db]}.

Definition tool_labels (db : Database) : gmap string string :=
  {[tool_Label t := db_name db; managedByLabel := managedByValue; "app.kubernetes.io/name" := tool_Container t;
    "app.kubernetes.io/instance" := tool_name db]}.

(** [pgwebOwnedObjectError], [ownedObjectError] *)
Definition ownedObjectError (kind : string) (m : ObjectMeta) : string :=
  "existing " +:+ kind +:+ " " +:+ meta_Namespace m +:+ "/" +:+ meta_Name m +:+
  match GetControllerOf m with
  | None => " is not managed by Orkano"
  | Some owner => " is owned by " +:+ owner_Kind owner +:+ " " +:+ owner_Name owner
  end +:+ "; delete it or disable " +:+ tool_Text t.

(** Created by someone else. *)
Definition not_ours (db : Database) (m : ObjectMeta) : bool :=
  has (meta_CreationTimestamp m) && negb (IsControlledBy m (db_Meta db)).

(** [clusterIP]: whether the code assigns the Service's type *)
Definition tool_service_mutation (clusterIP : bool) (db : Database) (svc : Service) : result string Service :=
  if not_ours db (svc_Meta svc) then Err (ownedObjectError "Service" (svc_Meta svc))
  else
    match SetControllerReference (db_Meta db) (set_labels (svc_Meta svc) (tool_labels db)) with
    | Err e => Err (owner_text e)
    | Ok m =>
        Ok {| svc_Meta := m; svc_Type := if clusterIP then "ClusterIP" else svc_Type svc;
              svc_Selector := tool_selector db;
              svc_Ports := [{| sp_Name := tool_PortName t; sp_Port := tool_Port t;
                               sp_TargetPort := FromString (tool_PortName t); sp_Protocol := "TCP" |}];
              svc_ClusterIP := svc_ClusterIP svc |}
    end.

Definition tool_deployment_mutation (mutatePod : PodSpec → PodSpec) (db : Database) (d : Deployment)
    : result string Deployment :=
  if not_ours db (dep_Meta d) then Err (ownedObjectError "Deployment" (dep_Meta d))
  else
    match SetControllerReference (db_Meta db) (set_labels (dep_Meta d) (tool_labels db)) with
    | Err e => Err (owner_text e)
    | Ok m =>
        Ok {| dep_Meta := m; dep_Replicas := Some 1%Z;
              dep_Selector := if has (meta_CreationTimestamp (dep_Meta d)) then dep_Selector d else tool_selector db;
              dep_TemplateLabels := tool_labels db; dep_TemplateAnnotations := dep_TemplateAnnotations d;
              dep_Pod := mutatePod (dep_Pod d); dep_AvailableReplicas := dep_AvailableReplicas d |}
    end.

(** The pod of a tool: its one container, an empty [/tmp], no API credentials. *)
Definition tool_pod (uid : Z) (assign : Container → Container) (pod : PodSpec) : PodSpec :=
  {| pod_RestartPolicy := pod_RestartPolicy pod; pod_ServiceAccountName := pod_ServiceAccountName pod;
     pod_AutomountServiceAccountToken := Some false; pod_InitContainers := pod_InitContainers pod;
     pod_Containers := [assign (reuse_container (tool_Container t) (pod_Containers pod))];
     pod_Volumes := [{| vol_Name := "tmp"; vol_Source := EmptyDir None |}];
     pod_HostNetwork := pod_HostNetwork pod; pod_SecurityContext := Some (nonroot_pod uid) |}.

Definition tool_policy_mutation (db : Database) (p : NetworkPolicy) : result string NetworkPolicy :=
  if not_ours db (np_Meta p) then Err (ownedObjectError "NetworkPolicy" (np_Meta p))
  else
    match SetControllerReference (db_Meta db) (set_labels (np_Meta p) (tool_labels db)) with
    | Err e => Err (owner_text e)
    | Ok m =>
        Ok {| np_Meta := m; np_PodSelector := tool_selector db; np_PolicyTypes := ["Ingress"; "Egress"];
              np_Ingress :=
                [{| npr_Peers := [{| peer_NamespaceSelector := Some {["kubernetes.io/metadata.name" := systemNamespace]};
                                     peer_PodSelector := Some {["app.kubernetes.io/name" := "orkano-dashboard"]} |}];
                    npr_Ports := [{| npp_Protocol := "TCP"; npp_Port := tool_Port t |}] |}];
              np_Egress :=
                [{| npr_Peers := [{| peer_NamespaceSelector := None; peer_PodSelector := Some {[dbLabel := db_name db]} |}];
                    npr_Ports := [{| npp_Protocol := "TCP"; npp_Port := dbPort |}] |};
                 {| npr_Peers := [{| peer_NamespaceSelector := Some {["kubernetes.io/metadata.name" := "kube-system"]};
                                     peer_PodSelector := Some {["k8s-app" := "kube-dns"]} |}];
                    npr_Ports := [{| npp_Protocol := "UDP"; npp_Port := 53 |}; {| npp_Protocol := "TCP"; npp_Port := 53 |}] |}] |}
    end.

(** Service, Deployment, NetworkPolicy, and how many replicas are available. *)
Definition ensureTool (clusterIP : bool) (mutatePod : Database → PodSpec → PodSpec) (db : Database)
    : prog DbE (result ToolError Z) :=
  let! s := trigger (ApplyService (tool_key db) (tool_service_mutation clusterIP db)) in
  match s with
  | Err e => Ret (Err (ToolApply "service" e))
  | Ok _ =>
    let! d := trigger (ApplyDeployment (tool_key db) (tool_deployment_mutation (mutatePod db) db)) in
    match d with
    | Err e => Ret (Err (ToolApply "deployment" e))
    | Ok deployment =>
      let! p := trigger (ApplyNetworkPolicy (tool_key db) (tool_policy_mutation db)) in
      Ret (match p with
           | Err e => Err (ToolApply "network policy" e)
           | Ok _ => Ok (dep_AvailableReplicas deployment)
           end)
    end
  end.

(** [deleteOwnedMongoExpressObject], and the body of [disablePgweb]'s loop *)
Definition deleteOwnedTool (db : Database) (kind : ToolKind) : prog DbE (option ApiError) :=
  let! g := trigger (GetTool kind (tool_key db)) in
  match g with
  | Err e => Ret (if IsNotFound e then None else Some e)
  | Ok m =>
      if IsControlledBy m (db_Meta db) then
        let! x := trigger (DeleteTool kind m) in
        Ret (match x with Err e => if IsNotFound e then None else Some e | Ok _ => None end)
      else Ret None
  end.

Fixpoint deleteTools (db : Database) (kinds : list ToolKind) : prog DbE (option ApiError) :=
  match kinds with
  | [] => Ret None
  | kind :: kinds =>
      let! x := deleteOwnedTool db kind in
      match x with
      | Some e => Ret (Some e)
      | None => deleteTools db kinds
      end
  end.
End tool.

(** ** Names *)

(** A DNS-1035 label, spelled out. *)
Definition label_shape (l : list ascii) : Prop :=
  ∃ c l', l = c :: l' ∧ is_lower c = true ∧ Forall (λ c, dns_or_dash c = true) l' ∧
    ∀ l1 d, l' = l1 ++ [d] → dns_char d = true.

Lemma dns1035_spec s : MatchString dns1035Label s = true ↔ label_shape (bytes s).
Proof.
  unfold MatchString. fold (bytes s). rewrite matchb_spec. unfold dns1035Label, label_shape. split.
  - intros (l1 & l2 & -> & (c & -> & Hc)%cls_match & [->|(l3 & l4 & -> & H3%star_cls_match & (d & -> & Hd)%cls_match)%cat_match]%opt_match)%cat_match.
    + exists c, []. split_and!; [done..|constructor|]. by intros [] ? ?.
    + exists c, (l3 ++ [d]). split_and!; [done..| |].
      * apply Forall_app. split; [done|]. repeat constructor. unfold dns_or_dash. by rewrite Hd.
      * intros l1 e [_ [= <-]]%app_inj_2; done.
  - intros (c & l & -> & Hc & Hl & Hlast). apply cat_match. exists [c], l. split_and!; [done|by constructor|].
    apply opt_match. destruct l as [|d l _] using rev_ind; [by left|right].
    apply cat_match. exists l, [d]. apply Forall_app in Hl as [Hl _]. split_and!; [done|by apply star_cls_match|].
    constructor. by eapply Hlast.
Qed.

Lemma lower_not_dash c : is_lower c = true → one_of "-" c = false.
Proof.
  assert (Hi : ∀ c, implb (is_lower c) (negb (one_of "-" c)) = true) by (apply all_ascii_forall; vm_compute; reflexivity).
  specialize (Hi c). intros Hc. rewrite Hc in Hi. by apply negb_true_iff in Hi.
Qed.

Lemma dns_char_or_dash c : dns_char c = true → dns_or_dash c = true.
Proof. unfold dns_or_dash. by intros ->. Qed.

(** A label goes on being one with more of its characters, ending well. *)
Lemma label_extend l l' d :
  label_shape l → Forall (λ c, dns_or_dash c = true) (l' ++ [d]) → dns_char d = true → label_shape (l ++ l' ++ [d]).
Proof.
  intros (c & l1 & -> & Hc & Hl1 & _) HF Hd. exists c, (l1 ++ l' ++ [d]). split_and!; [done..| |].
  - by apply Forall_app.
  - rewrite app_assoc. intros l2 e [_ [= <-]]%app_inj_2; done.
Qed.

(** Cut short and trimmed, a label is one. *)
Lemma label_cut n s :
  1 ≤ n → label_shape (bytes s) → label_shape (bytes (TrimRight (slice_to n s) "-")).
Proof.
  intros Hn (c & l & Hs & Hc & Hl & Hlast). unfold slice_to. rewrite Hs. destruct n as [|n]; [lia|]. cbn [take].
  set (p := of_bytes (c :: take n l)). destruct (TrimRight_spec p "-") as (t & Heq & HF & Hend).
  unfold p in Heq. rewrite bytes_of_bytes in Heq. fold p in Heq.
  destruct (bytes (TrimRight p "-")) as [|c' l'] eqn:Hb.
  { exfalso. simpl in Heq. subst t. apply Forall_cons in HF as [Hd _]. apply lower_not_dash in Hc. congruence. }
  injection Heq as <- Heq. exists c, l'. split_and!; [done..| |].
  - apply (Forall_take _ n) in Hl. rewrite Heq in Hl. by apply Forall_app in Hl as [? _].
  - intros l1 d ->. specialize (Hend (c :: l1) d eq_refl).
    apply (Forall_take _ n) in Hl. rewrite Heq in Hl. apply Forall_app in Hl as [Hl _].
    assert (Hd : dns_or_dash d = true).
    { rewrite Forall_forall in Hl. apply Hl, elem_of_app. right. left. }
    unfold dns_or_dash in Hd. by rewrite Hend, orb_false_r in Hd.
Qed.

(** The derived names are valid: for a database whose name is a DNS label of at
    most 63 characters, the name of the objects of its admin UI is one too, however
    long the database's name is. *)
Theorem toolResourceName_valid suffix name :
  suffix ∈ ["-pgweb"; "-mongo-express"] → MatchString dns1035Label name = true → len name ≤ 63 →
  MatchString dns1035Label (toolResourceName suffix name) = true ∧ len (toolResourceName suffix name) ≤ 63.
Proof.
  intros Hsuf Hname Hlen. rewrite dns1035_spec in Hname |- *.
  assert (Hs : ∃ l d, bytes suffix = l ++ [d] ∧ Forall (λ c, dns_or_dash c = true) (l ++ [d]) ∧ dns_char d = true ∧ len suffix ≤ 14).
  { apply elem_of_cons in Hsuf as [->| ->%list_elem_of_singleton].
    - exists (bytes "-pgwe"), "b"%char. split_and!; [done|repeat constructor; done|done|vm_compute; lia].
    - exists (bytes "-mongo-expres"), "s"%char. split_and!; [done|repeat constructor; done|done|vm_compute; lia]. }
  destruct Hs as (l & d & Eb & HF & Hd & Hl). unfold toolResourceName.
  destruct (len name + len suffix <=? 63) eqn:Hle.
  { apply Nat.leb_le in Hle. rewrite bytes_app, Eb, len_app. split; [by apply label_extend|done]. }
  set (hash := EncodeToString (take 4 (Sum256 (bytes name)))).
  assert (Hh : len hash = 8) by (unfold hash; by rewrite len_EncodeToString, length_take, length_Sum256).
  rewrite Hh. set (n := 63 - len suffix - 8 - 1). assert (Hn : 1 ≤ n) by (unfold n; lia). split.
  - rewrite !bytes_app, Eb. change (bytes "-") with ["-"%char].
    replace (["-"%char] ++ bytes hash ++ l ++ [d]) with (("-"%char :: bytes hash ++ l) ++ [d])
      by (simpl; by rewrite <- app_assoc).
    apply label_extend; [by apply label_cut| |done].
    change (("-"%char :: bytes hash ++ l) ++ [d]) with ("-"%char :: (bytes hash ++ l) ++ [d]).
    apply Forall_cons. split; [done|]. rewrite <- app_assoc. apply Forall_app. split; [|done].
    eapply Forall_impl; [apply EncodeToString_hex|]. intros c Hc. by apply dns_char_or_dash, hex_dns.
  - rewrite !len_app, Hh. change (len "-") with 1.
    pose proof (len_TrimRight (slice_to n name) "-") as Ht. rewrite len_slice_to in Ht. unfold n in *. lia.
Qed.

Lemma toolResourceName_valid_witness :
  len (toolResourceName "-pgweb" "a-database-with-a-name-that-is-as-long-as-a-label-can-ever-be-x") ≤ 63.
Proof. apply toolResourceName_valid; [left|vm_compute; reflexivity|vm_compute; lia]. Defined.

(** ** The network around the tool *)

(** A pod: the labels of its namespace, whether that is the policy's, and its own. *)
Record Peer : Type := {
  pod_NamespaceLabels : gmap string string;
  pod_SameNamespace : bool;
  pod_Labels : gmap string string;
}.

(** What Kubernetes lets through: a peer matches when its namespace (the policy's own
    without a namespace selector) and its labels do; a rule when one of its peers and
    one of its ports do; traffic in a direction the policy names needs a rule. *)
Definition selects (selector labels : gmap string string) : bool := bool_decide (selector ⊆ labels).
Definition peer_matches (peer : NetworkPolicyPeer) (p : Peer) : bool :=
  match peer_NamespaceSelector peer with
  | Some ns => selects ns (pod_NamespaceLabels p)
  | None => pod_SameNamespace p
  end &&
  match peer_PodSelector peer with Some ls => selects ls (pod_Labels p) | None => true end.
Definition rule_allows (p : Peer) (protocol : string) (port : Z) (r : NetworkPolicyRule) : bool :=
  existsb (λ peer, peer_matches peer p) (npr_Peers r) &&
  existsb (λ pp, bool_decide (npp_Protocol pp = protocol) && (npp_Port pp =? port)%Z) (npr_Ports r).
Definition admits (types : list string) (direction : string) (rules : list NetworkPolicyRule) (p : Peer)
    (protocol : string) (port : Z) : bool :=
  negb (bool_decide (direction ∈ types)) || existsb (rule_allows p protocol port) rules.

Lemma selects_one key value labels : selects {[key := value]} labels = true ↔ labels !! key = Some value.
Proof. unfold selects. by rewrite bool_decide_eq_true, map_singleton_subseteq_l. Qed.

(** The admin UI is reachable only through the dashboard: the policy it gets
    applies to its pods, lets in only the dashboard's pods of the system namespace
    and only on its port, and lets out only to the pods of its own database on the
    database's port, and to the cluster's DNS. *)
Theorem tool_isolated `{KubeLib} t dbLabel dbPort db p p' peer protocol port :
  tool_policy_mutation t dbLabel dbPort db p = Ok p' →
  (meta_CreationTimestamp (np_Meta p) = None ∨ IsControlledBy (np_Meta p) (db_Meta db) = true) ∧
  np_PodSelector p' = tool_selector t db ∧ np_PodSelector p' ⊆ tool_labels t db ∧
  (admits (np_PolicyTypes p') "Ingress" (np_Ingress p') peer protocol port = true ↔
    pod_NamespaceLabels peer !! "kubernetes.io/metadata.name" = Some systemNamespace ∧
    pod_Labels peer !! "app.kubernetes.io/name" = Some "orkano-dashboard" ∧
    protocol = "TCP" ∧ port = tool_Port t) ∧
  (admits (np_PolicyTypes p') "Egress" (np_Egress p') peer protocol port = true ↔
    pod_SameNamespace peer = true ∧ pod_Labels peer !! dbLabel = Some (db_name db) ∧ protocol = "TCP" ∧ port = dbPort ∨
    pod_NamespaceLabels peer !! "kubernetes.io/metadata.name" = Some "kube-system" ∧
    pod_Labels peer !! "k8s-app" = Some "kube-dns" ∧ (protocol = "UDP" ∨ protocol = "TCP") ∧ port = 53%Z).
Proof.
  unfold tool_policy_mutation. destruct (not_ours db (np_Meta p)) eqn:Hn; [done|].
  destruct (SetControllerReference _ _) as [m|e]; [|done]. intros [= <-]. simpl. split_and!; [|done|..].
  - unfold not_ours in Hn. destruct (meta_CreationTimestamp _), (IsControlledBy _ _); simpl in Hn; auto.
  - unfold tool_selector, tool_labels. apply map_singleton_subseteq_l. by rewrite lookup_insert_eq.
  - unfold admits, rule_allows, peer_matches. simpl.
    rewrite !orb_false_r, !andb_true_iff, !selects_one, bool_decide_eq_true, Z.eqb_eq. naive_solver.
  - unfold admits, rule_allows, peer_matches. simpl.
    change (match port with Z.pos q => (53 =? q)%positive | _ => false end) with (53 =? port)%Z.
    rewrite !orb_false_r, !orb_true_iff, !andb_true_iff, !orb_true_iff, !andb_true_iff, !selects_one, !bool_decide_eq_true, !Z.eqb_eq.
    split; [intros [((? & ?) & ? & ?)|((? & ?) & [[? ?]|[? ?]])]|intros [(? & ? & ? & ?)|(? & ? & [?|?] & ?)]]; auto 10.
Qed.

(** ** Removing the tool *)
Lemma deleteOwnedTool_spec `{KubeLib} t db kind tr x :
  exec (deleteOwnedTool t db kind) tr x →
  (∀ k m, (k, m) ∈ omap tool_deleted tr → k = kind ∧ IsControlledBy m (db_Meta db) = true ∧
    Call (GetTool kind (tool_key t db)) (Ok m) ∈ tr) ∧
  (x = None → (∃ text, Call (GetTool kind (tool_key t db)) (Err (NotFound text)) ∈ tr) ∨
    ∃ m, Call (GetTool kind (tool_key t db)) (Ok m) ∈ tr ∧
      (IsControlledBy m (db_Meta db) = true → (kind, m) ∈ omap tool_deleted tr)).
Proof.
  intros (g & rest & -> & Hk). cbn [prog_bind] in Hk. destruct g as [m|e].
  - destruct (IsControlledBy m (db_Meta db)) eqn:Hc.
    + destruct Hk as (w & tr' & -> & -> & ->). split.
      * intros k m' [= -> ->]%list_elem_of_singleton. split_and!; [done..|left].
      * intros _. right. exists m. split; [left|intros _; left].
    + destruct Hk as [-> ->]. split; [by intros ? ? ?%not_elem_of_nil|]. intros _. right. exists m. split; [left|congruence].
  - destruct Hk as [-> ->]. split; [by intros ? ? ?%not_elem_of_nil|].
    destruct e as [text| | |]; simpl; [|done..]. intros _. left. exists text. left.
Qed.

(** Removing the admin UI is safe and complete: only objects the database controls
    are deleted, and when the removal reports success every kind of object it was
    asked to remove was found missing, found to belong to someone else, or deleted. *)
Theorem tool_removal `{KubeLib} t db kinds tr x :
  exec (deleteTools t db kinds) tr x →
  (∀ k m, (k, m) ∈ omap tool_deleted tr → k ∈ kinds ∧ IsControlledBy m (db_Meta db) = true) ∧
  (x = None → ∀ kind, kind ∈ kinds →
    (∃ text, Call (GetTool kind (tool_key t db)) (Err (NotFound text)) ∈ tr) ∨
    ∃ m, Call (GetTool kind (tool_key t db)) (Ok m) ∈ tr ∧
      (IsControlledBy m (db_Meta db) = true → (kind, m) ∈ omap tool_deleted tr)).
Proof.
  revert tr. induction kinds as [|kind kinds IH]; intros tr; cbn [deleteTools].
  { intros [-> ->]. split; [by intros ? ? ?%not_elem_of_nil|]. by intros _ ? ?%not_elem_of_nil. }
  rewrite exec_bind. intros (tr1 & tr2 & y & -> & [Hd1 Hc1]%deleteOwnedTool_spec & Hk). rewrite omap_app.
  destruct y as [e|].
  { destruct Hk as [-> ->]. split; [|done]. rewrite app_nil_r. intros k m (-> & ? & _)%Hd1. split; [left|done]. }
  destruct (IH _ Hk) as [Hd2 Hc2]. split.
  - intros k m [(-> & ? & _)%Hd1|[? ?]%Hd2]%elem_of_app; [split; [left|done]|split; [by right|done]].
  - intros Hx k [->|Hin]%elem_of_cons;
      [destruct (Hc1 eq_refl) as [(text & ?)|(m & ? & Hm)]|destruct (Hc2 Hx k Hin) as [(text & ?)|(m & ? & Hm)]];
      [left; exists text|right; exists m|left; exists text|right; exists m]; rewrite !elem_of_app; auto.
Qed.

(** What the tool's programs do not touch. *)
Lemma ensureTool_beside `{KubeLib} t dbLabel dbPort clusterIP mutatePod db :
  calls_only beside (ensureTool t dbLabel dbPort clusterIP mutatePod db).
Proof. unfold ensureTool. calls. Qed.

Lemma deleteTools_beside `{KubeLib} t db kinds : calls_only beside (deleteTools t db kinds).
Proof. induction kinds as [|kind kinds IH]; cbn [deleteTools]; [done|]. unfold deleteOwnedTool. calls. Qed.
#[export] Hint Resolve ensureTool_beside deleteTools_beside : calls.

(** Reusing the container it made settles. *)
Lemma reuse_container_name name cs : c_Name (reuse_container name cs) = name.
Proof. destruct cs as [|c [|]]; simpl; try done. by case_decide. Qed.
Lemma reuse_container_again name c : c_Name c = name → reuse_container name [c] = c.
Proof. intros Hc. simpl. by rewrite decide_True. Qed.
