(* ===== verification/PostgresController.v ===== *)
(** * The Postgres controller

    Models [operator/internal/controller/postgres_controller.go] as an [Engine] of
    [Database.v]: the pinned images, the connection URI, the pod template and Pgweb. *)
From S2P Require Import Prelude Regex GoStrings Effects Sha256 Kube Api Names AppController Database DatabaseTool.
From Stdlib Require Import Ascii.

(** ** Constants *)
Definition postgresLabel : string := "app.orkano.io/postgres".
Definition postgresContainerName : string := "postgres".
Definition postgresPort : Z := 5432.
Definition postgresPortName : string := "postgres".
Definition postgresDataVolume : string := "data".
Definition postgresDataMount : string := "/var/lib/postgresql/data".
Definition postgresPGData : string := postgresDataMount +:+ "/pgdata".
Definition postgresUID : Z := 999.
Definition pgwebPortName : string := "http".
Definition pgwebPort : Z := 8081.
Definition pgwebUID : Z := 1000.
Definition ConditionPgwebReady : string := "PgwebReady".
Definition reasonPgwebProvisioning : string := "Provisioning".
Definition reasonPgwebAvailable : string := "Available".

Definition postgresImages : gmap string string := list_to_map
  [("14", "postgres:14@sha256:d462928b1898dd74b749ef486797968828c1e7fc9befb5e5ca03a33bfbc32d64");
   ("15", "postgres:15@sha256:c2ca90969ca293925ab474466e837689cc712321afdd9e4640bd0cf942fdca3a");
   ("16", "postgres:16@sha256:081f1bc7bd5e143dbb6e487b710bbc27712cdcfaced4c071b8e47349aa1b4171");
   ("17", "postgres:17@sha256:2203e6282d9e7de7c24d7da234e2a744fb325df366a3fd8ed940e8abbee39527")].
Definition pgwebImage : string :=
  "sosedoff/pgweb:0.17.0@sha256:a5256d416e2e8b92d69a4459058e3eca33a9f075d8325491644411d0bc3bd70b".

(** The versions the CRD's enum admits; an absent one defaults to 16. *)
Definition postgresVersions : list string := ["14"; "15"; "16"; "17"].

Definition pgweb : Tool :=
  {| tool_Text := "Pgweb"; tool_Label := "app.orkano.io/pgweb"; tool_Container := "pgweb"; tool_Suffix := "-pgweb";
     tool_Port := pgwebPort; tool_PortName := pgwebPortName |}.

(** ** The database *)
Definition postgresURI (ident password host : string) : string :=
  "postgresql://" +:+ ident +:+ ":" +:+ password +:+ "@" +:+ host +:+ ":" +:+ pretty postgresPort +:+ "/" +:+ ident.

Definition postgresTemplateLabels (pg : Database) : gmap string string :=
  {[postgresLabel := db_name pg; managedByLabel := managedByValue]}.

Definition mutatePostgresPodTemplate (pg : Database) (ident image : string) (pod : PodSpec) : PodSpec :=
  let c := reuse_container postgresContainerName (pod_Containers pod) in
  let isready := ExecAction ["pg_isready"; "-U"; ident; "-d"; ident] in
  {| pod_RestartPolicy := pod_RestartPolicy pod; pod_ServiceAccountName := pod_ServiceAccountName pod;
     pod_AutomountServiceAccountToken := pod_AutomountServiceAccountToken pod;
     pod_InitContainers := pod_InitContainers pod;
     pod_Containers :=
       [assign_container c image (c_Args c) (tcp_port postgresPortName postgresPort)
          [secretEnv "POSTGRES_USER" (db_name pg) SecretKeyUsername;
           secretEnv "POSTGRES_PASSWORD" (db_name pg) SecretKeyPassword;
           secretEnv "POSTGRES_DB" (db_name pg) SecretKeyDatabase;
           plainEnv "PGDATA" postgresPGData]
          (rw_mount postgresDataVolume postgresDataMount) database_resources
          (new_probe isready 5 3 60) (new_probe isready 10 3 3)
          (new_probe (TCPSocket (FromString postgresPortName)) 20 3 3) database_security];
     pod_Volumes := pod_Volumes pod; pod_HostNetwork := pod_HostNetwork pod;
     pod_SecurityContext := Some (nonroot_pod postgresUID) |}.

(** ** Pgweb *)
Definition pgwebURLPrefix (name : string) : string := "api/postgres/" +:+ name +:+ "/pgweb".
Definition pgwebHTTPPath (name : string) : string := "/" +:+ pgwebURLPrefix name +:+ "/".

Definition pgweb_container (pg : Database) (c : Container) : Container :=
  let healthPath := pgwebHTTPPath (db_name pg) +:+ "api/info" in
  let httpProbe := new_probe (HTTPGet healthPath (FromString pgwebPortName) "") in
  assign_container c pgwebImage ["--skip-open"; "--no-ssh"; "--open-retry=60"; "--open-retry-delay=5"]
    (tcp_port pgwebPortName pgwebPort)
    [secretEnv "PGWEB_DATABASE_URL" (db_name pg) SecretKeyURI;
     plainEnv "PGSSLMODE" "disable";
     plainEnv "PGWEB_URL_PREFIX" (pgwebURLPrefix (db_name pg));
     plainEnv "PGWEB_LOCK_SESSION" "1"]
    (rw_mount "tmp" "/tmp") tool_resources (httpProbe 5 3 60)%Z (httpProbe 10 3 3)%Z
    (new_probe (TCPSocket (FromString pgwebPortName)) 20 3 3) (tool_security pgwebUID).

Definition mutatePgwebPodTemplate (pg : Database) : PodSpec → PodSpec := tool_pod pgweb pgwebUID (pgweb_container pg).

Section pgweb.
Context `{KubeLib}.

Definition reconcilePgweb (pg : Database) : prog DbE (Database * option ToolError) :=
  let pg := on_db_status (with_tool_service (tool_name pgweb pg)) pg in
  let! t := ensureTool pgweb postgresLabel postgresPort true mutatePgwebPodTemplate pg in
  Ret (match t with
       | Err e => (pg, Some e)
       | Ok available =>
           (if decide (1 ≤ available)%Z
            then set_condition ConditionPgwebReady pg ConditionTrue reasonPgwebAvailable
                   "Pgweb is available through the authenticated dashboard"
            else set_condition ConditionPgwebReady pg ConditionFalse reasonPgwebProvisioning
                   "waiting for Pgweb to become ready", None)
       end).

Definition disablePgweb (pg : Database) : prog DbE (option ApiError) :=
  deleteTools pgweb pg [ToolDeployment; ToolService; ToolNetworkPolicy].

Definition postgres_engine : Engine :=
  {| eng_Kind := "Postgres"; eng_NameUse := "a Service and a SQL identifier"; eng_VersionText := "PostgreSQL";
     eng_DefaultVersion := "16"; eng_Images := postgresImages; eng_Label := postgresLabel; eng_Port := postgresPort;
     eng_PortName := postgresPortName; eng_DataVolume := postgresDataVolume; eng_URI := postgresURI;
     eng_TemplateLabels := postgresTemplateLabels; eng_mutatePod := mutatePostgresPodTemplate;
     eng_ToolText := "Pgweb"; eng_ToolCondition := ConditionPgwebReady;
     eng_reconcileTool := reconcilePgweb; eng_disableTool := disablePgweb |}.
End pgweb.

Definition PostgresReconcile `{UnicodeTables, KubeLib, QuantityLib} (req : NamespacedName)
    : prog DbE (option DatabaseError) :=
  Reconcile (H2 := postgres_engine) req.

(** ** The engine keeps its promises *)

#[export] Instance postgres_laws `{KubeLib, !KubeLibLaws} : EngineLaws (E := postgres_engine).
Proof.
  split.
  - intros version image Hi. apply elem_of_list_to_map_2 in Hi.
    repeat (apply elem_of_cons in Hi as [[= -> ->]|Hi]; [vm_compute; reflexivity|]). by apply not_elem_of_nil in Hi.
  - by eexists.
  - intros db ident image pod. eexists. split_and!; [done|done| |].
    + eexists. split; [right; left|done].
    + intros e He. simpl in He. repeat (apply elem_of_cons in He as [->|He]; [done|]). by apply not_elem_of_nil in He.
  - intros db ident image pod. unfold eng_mutatePod, postgres_engine, mutatePostgresPodTemplate. f_equal. simpl.
    by rewrite decide_True by apply reuse_container_name.
  - done.
  - intros db. unfold postgres_engine; cbn [eng_reconcileTool]. unfold reconcilePgweb. calls.
  - intros db. unfold postgres_engine; cbn [eng_disableTool]. unfold disablePgweb. calls.
  - intros db tr db' e. unfold postgres_engine; cbn [eng_reconcileTool]. unfold reconcilePgweb. rewrite exec_bind.
    intros (tr1 & tr2 & t & -> & _ & -> & Hret). destruct t as [n|err]; [|by injection Hret as -> ->].
    injection Hret as -> ->. case_decide; (split_and!; [done..|]); unfold ready_of; simpl;
      (f_equal; by apply FindStatusCondition_set_other).
Qed.

(** Postgres is an engine of the shared design: every image is pinned by digest,
    each version the API admits (and the default) has one, the pod takes its
    password from the connection Secret and settles, and Pgweb's code leaves the
    database, its volume and its Ready condition alone. *)
Theorem postgres_engine_laws `{KubeLib, !KubeLibLaws} :
  EngineLaws (E := postgres_engine) ∧
  (∀ version, version ∈ postgresVersions → is_Some (postgresImages !! version)) ∧ digest_pinned pgwebImage = true.
Proof.
  split_and!; [apply _|..].
  - intros version Hv. repeat (apply elem_of_cons in Hv as [->|Hv]; [by eexists|]). by apply not_elem_of_nil in Hv.
  - vm_compute. reflexivity.
Qed.

Lemma postgres_engine_laws_witness : is_Some (postgresImages !! "17").
Proof. apply (@postgres_engine_laws sample_kube_lib sample_kube_lib_laws). do 3 right; left. Defined.

(** ** A worked example *)
Module PostgresExample.
#[local] Instance tables : UnicodeTables := ascii_tables.
#[local] Instance lib : KubeLib := sample_kube_lib.
(** Sizes in gibibytes, which is all the example uses. *)
Definition gibibytes (q : Quantity) : Z :=
  match q with
  | MustParse text => foldl (λ n c, if is_digit c then n * 10 + (byte_z c - 48) else n)%Z 0%Z (bytes text)
  | NewQuantity n => n / 2 ^ 30
  end.
Definition sample_quantities : QuantityLib :=
  {| QuantityCmp a b := (gibibytes a ?= gibibytes b)%Z;
     QuantityString q := match q with MustParse text => text | NewQuantity n => pretty n end |}.
#[local] Instance quantities : QuantityLib := sample_quantities.
#[local] Instance laws : KubeLibLaws := sample_kube_lib_laws.
#[local] Instance engine : Engine := postgres_engine.
Definition database (name : string) (size : Quantity) (tool : bool) : Database :=
  {| db_Meta := new_meta "orkano-apps" name ∅ ∅;
     db_Spec := {| db_Version := ""; db_StorageSize := Some size; db_Tool := Some tool |};
     db_Status := {| db_ObservedGeneration := 0; db_Conditions := []; db_SecretName := ""; db_ToolServiceName := "" |} |}.
Definition shop : Database := database "shop-db" (MustParse "20Gi") true.
Definition plain : Database := database "shop-db" (MustParse "20Gi") false.
Definition req : NamespacedName := db_key shop.
Definition volume : PersistentVolumeClaim :=
  {| pvc_Meta := new_meta "orkano-apps" "data-shop-db-0" ∅ ∅; pvc_Requests := {[ResourceStorage := MustParse "10Gi"]} |}.
Definition empty_pod : PodSpec :=
  {| pod_RestartPolicy := "Always"; pod_ServiceAccountName := ""; pod_AutomountServiceAccountToken := None;
     pod_InitContainers := []; pod_Containers := []; pod_Volumes := []; pod_HostNetwork := false;
     pod_SecurityContext := None |}.
Definition set_up : StatefulSet :=
  {| sts_Meta := new_meta "orkano-apps" "shop-db" ∅ ∅; sts_Selector := ∅; sts_ServiceName := "";
     sts_VolumeClaimTemplates := []; sts_Replicas := None; sts_RetentionPolicy := None; sts_TemplateLabels := ∅;
     sts_Pod := empty_pod; sts_ReadyReplicas := 1 |}.
Definition ui : Deployment :=
  {| dep_Meta := new_meta "orkano-apps" "shop-db-pgweb" ∅ ∅; dep_Replicas := None; dep_Selector := ∅;
     dep_TemplateLabels := ∅; dep_TemplateAnnotations := ∅; dep_Pod := empty_pod; dep_AvailableReplicas := 1 |}.
Definition policy : NetworkPolicy :=
  {| np_Meta := new_meta "orkano-apps" "shop-db-pgweb" ∅ ∅; np_PodSelector := ∅; np_PolicyTypes := [];
     np_Ingress := []; np_Egress := [] |}.
Definition owned : ObjectMeta := with_owners (new_meta "orkano-apps" "shop-db-pgweb" ∅ ∅) [controls (db_Meta shop)].

(** A cluster in which nothing is there yet but a volume that has to grow. *)
Definition cluster (db : Database) (X : Set) (e : DbE X) (s : unit) : X * unit :=
  (match e in DbE X return X with
   | GetDatabase _ => Ok db
   | ReadSecret _ => Err (NotFound "no such secret")
   | CreateSecret _ => Ok ()
   | UpdateSecret _ => Ok ()
   | RandRead n => Ok (replicate n (byte 171))
   | ApplyService _ _ => Ok ()
   | ApplyStatefulSet _ _ => Ok set_up
   | ApplyDeployment _ _ => Ok ui
   | ApplyNetworkPolicy _ _ => Ok ()
   | ReadPVC _ => Ok volume
   | UpdatePVC _ => Ok ()
   | GetTool _ _ => Ok owned
   | DeleteTool _ _ => Ok ()
   | UpdateDatabaseStatus _ => Ok ()
   end, s).
Definition reconciled (db : Database) : option DatabaseError * list (call DbE) * unit :=
  run (cluster db) (Reconcile (db_key db)) ().
Lemma database_reconciled_exec db : exec (Reconcile (db_key db)) (reconciled db).1.2 (reconciled db).1.1.
Proof. apply run_exec. Qed.
Definition secret_run : option SecretError * list (call DbE) * unit := run (cluster shop) (ensureSecret shop "shop_db") ().
Lemma secret_run_exec : exec (ensureSecret shop "shop_db") secret_run.1.2 secret_run.1.1.
Proof. apply run_exec. Qed.
Definition removal_run : option ApiError * list (call DbE) * unit :=
  run (cluster plain) (deleteTools pgweb plain [ToolDeployment; ToolService]) ().
Lemma removal_run_exec : exec (deleteTools pgweb plain [ToolDeployment; ToolService]) removal_run.1.2 removal_run.1.1.
Proof. apply run_exec. Qed.

Lemma connection_secret_stable_witness :
  ∃ s p, omap secret_written secret_run.1.2 = [s] ∧ sec_Data s = connection_data shop "shop_db" p.
Proof.
  assert (Hin : ∃ s, s ∈ omap secret_written secret_run.1.2) by (eexists; vm_compute; left). destruct Hin as [s Hin].
  destruct (connection_secret_stable _ _ _ _ s secret_run_exec Hin) as (E & _ & g & p & _ & Hd & _).
  exists s, p. split; [exact E|exact Hd].
Defined.

Lemma statefulset_safe_witness :
  ∃ key db mutate, omap db_act (reconciled shop).1.2 !! 0 = Some (AppliedSet key mutate) ∧ key = db_key db ∧
    MatchString dns1035Label (db_name db) = true.
Proof.
  assert (Hin : ∃ key mutate, omap db_act (reconciled shop).1.2 !! 0 = Some (AppliedSet key mutate))
    by (eexists _, _; vm_compute; reflexivity).
  destruct Hin as (key & mutate & Hin).
  destruct (statefulset_safe _ _ _ key mutate (database_reconciled_exec shop) (list_elem_of_lookup_2 _ _ _ Hin))
    as (db & _ & Hk & Hm & _). by exists key, db, mutate.
Defined.

Lemma storage_grows_only_witness :
  ∃ db pvc', WrotePVC pvc' ∈ omap db_act (reconciled shop).1.2 ∧
    pvc_Requests pvc' !! ResourceStorage = Some (databaseStorageSize db).
Proof.
  assert (Hin : ∃ pvc, omap db_act (reconciled shop).1.2 !! 1 = Some (WrotePVC pvc)) by (eexists; vm_compute; reflexivity).
  destruct Hin as (pvc' & Hin%list_elem_of_lookup_2).
  destruct (storage_grows_only _ _ _ pvc' (database_reconciled_exec shop) Hin) as (db & pvc & _ & _ & _ & _ & E).
  exists db, pvc'. split; [exact Hin|]. rewrite E. simpl. by rewrite lookup_insert_eq.
Defined.

Lemma database_ready_earned_witness :
  ∃ db db', WroteDbStatus db' ∈ omap db_act (reconciled shop).1.2 ∧ ready_of db' = Some ConditionTrue ∧
    meta_DeletionTimestamp (db_Meta db) = None.
Proof.
  set (db' := match omap db_act (reconciled shop).1.2 !! 2 with Some (WroteDbStatus d) => d | _ => shop end).
  assert (Hin : omap db_act (reconciled shop).1.2 !! 2 = Some (WroteDbStatus db')) by (vm_compute; reflexivity).
  assert (Hr : ready_of db' = Some ConditionTrue) by (vm_compute; reflexivity).
  apply list_elem_of_lookup_2 in Hin.
  destruct (database_ready_earned _ _ _ db' (database_reconciled_exec shop) Hin Hr) as (db & rest & _ & Hd & _).
  by exists db, db'.
Defined.

Definition tiny : Database := database "shop-db" (MustParse "0Gi") false.
Lemma refused_changes_nothing_witness : ∃ text, (reconciled tiny).1.1 = Some (Refused text).
Proof.
  assert (Hsplit : ∃ rest, (reconciled tiny).1.2 = Call (GetDatabase (db_key tiny)) (Ok tiny) :: rest)
    by (eexists; vm_compute; reflexivity).
  destruct Hsplit as [rest Hsplit].
  apply (refused_changes_nothing _ _ _ tiny rest (database_reconciled_exec tiny) Hsplit); [reflexivity|].
  do 3 right. vm_compute. reflexivity.
Defined.

Lemma tool_isolated_witness :
  ∃ p', tool_policy_mutation pgweb postgresLabel postgresPort shop policy = Ok p' ∧
    (admits (np_PolicyTypes p') "Ingress" (np_Ingress p')
       {| pod_NamespaceLabels := ∅; pod_SameNamespace := true; pod_Labels := ∅ |} "TCP" 8081 = true → False).
Proof.
  destruct (tool_policy_mutation pgweb postgresLabel postgresPort shop policy) as [p'|e] eqn:E;
    [|vm_compute in E; discriminate].
  exists p'. split; [reflexivity|]. intros Ha.
  apply (tool_isolated _ _ _ _ _ _ _ _ _ E) in Ha. destruct Ha as [Ha _]. simpl in Ha. by rewrite lookup_empty in Ha.
Defined.

Lemma tool_removal_witness :
  (∃ text, Call (GetTool ToolService (tool_key pgweb plain)) (Err (NotFound text)) ∈ removal_run.1.2) ∨
  ∃ m, Call (GetTool ToolService (tool_key pgweb plain)) (Ok m) ∈ removal_run.1.2.
Proof.
  destruct (tool_removal _ _ _ _ _ removal_run_exec) as [_ Hall].
  destruct (Hall eq_refl ToolService) as [?|(m & ? & _)]; [right; left|by left|right; by exists m].
Defined.
End PostgresExample.
