(* ===== verification/MongoController.v ===== *)
(** * The Mongo controller

    Models [operator/internal/controller/mongo_controller.go] as an [Engine] of
    [Database.v]: the pinned image, the connection URI, the pod template and Mongo
    Express with its session Secret. *)
From S2P Require Import Prelude Regex GoStrings Effects Sha256 Kube Api Names AppController Database DatabaseTool.
From Stdlib Require Import Ascii.

(** ** Constants *)
Definition mongoLabel : string := "app.orkano.io/mongo".
Definition mongoContainerName : string := "mongo".
Definition mongoPort : Z := 27017.
Definition mongoPortName : string := "mongo".
Definition mongoDataVolume : string := "data".
Definition mongoDataMount : string := "/data/db".
Definition mongoUID : Z := 999.
Definition mongoExpressPort : Z := 8081.
Definition mongoExpressPortName : string := "http".
Definition mongoExpressUID : Z := 1000.
Definition mongoExpressCookieSecretKey : string := "cookieSecret".
Definition mongoExpressSessionSecretKey : string := "sessionSecret".
Definition ConditionMongoExpressReady : string := "MongoExpressReady".
Definition reasonMongoExpressProvisioning : string := "Provisioning".
Definition reasonMongoExpressAvailable : string := "Available".

Definition mongoImages : gmap string string := list_to_map
  [("8.0", "mongo:8.0@sha256:3ce3de7f40e914034b03b7dec654005ab54f7dc8306937e44ec6760d9e9409a1")].
Definition mongoExpressImage : string :=
  "mongo-express:1.0.2-20-alpine3.19@sha256:1aae0077525133249133d42980ba23998712a1077e02ac0ac295b50a7a79d550".
Definition mongoVersions : list string := ["8.0"].

Definition mongoExpress : Tool :=
  {| tool_Text := "Mongo Express"; tool_Label := "app.orkano.io/mongo-express"; tool_Container := "mongo-express";
     tool_Suffix := "-mongo-express"; tool_Port := mongoExpressPort; tool_PortName := mongoExpressPortName |}.

(** ** The database *)
Definition mongoURI (ident password host : string) : string :=
  "mongodb://" +:+ ident +:+ ":" +:+ password +:+ "@" +:+ host +:+ ":" +:+ pretty mongoPort +:+ "/" +:+ ident +:+
  "?authSource=admin".

Definition mongoTemplateLabels (mongo : Database) : gmap string string :=
  {[mongoLabel := db_name mongo; managedByLabel := managedByValue]}.

(** The identifier is not used by the template. *)
Definition mutateMongoPodTemplate (mongo : Database) (_ image : string) (pod : PodSpec) : PodSpec :=
  let c := reuse_container mongoContainerName (pod_Containers pod) in
  let tcpProbe := new_probe (TCPSocket (FromString mongoPortName)) in
  {| pod_RestartPolicy := pod_RestartPolicy pod; pod_ServiceAccountName := pod_ServiceAccountName pod;
     pod_AutomountServiceAccountToken := pod_AutomountServiceAccountToken pod;
     pod_InitContainers := pod_InitContainers pod;
     pod_Containers :=
       [assign_container c image (c_Args c) (tcp_port mongoPortName mongoPort)
          [secretEnv "MONGO_INITDB_ROOT_USERNAME" (db_name mongo) SecretKeyUsername;
           secretEnv "MONGO_INITDB_ROOT_PASSWORD" (db_name mongo) SecretKeyPassword;
           secretEnv "MONGO_INITDB_DATABASE" (db_name mongo) SecretKeyDatabase]
          (rw_mount mongoDataVolume mongoDataMount) database_resources
          (tcpProbe 5 3 60)%Z (tcpProbe 10 3 3)%Z (tcpProbe 20 3 3)%Z database_security];
     pod_Volumes := pod_Volumes pod; pod_HostNetwork := pod_HostNetwork pod;
     pod_SecurityContext := Some (nonroot_pod mongoUID) |}.

(** ** Mongo Express *)
Definition mongoExpressBasePath (name : string) : string := "/api/mongo/" +:+ name +:+ "/express/".

Definition mongoExpress_container (mongo : Database) (c : Container) : Container :=
  let secretName := tool_name mongoExpress mongo in
  let healthPath := mongoExpressBasePath (db_name mongo) +:+ "status" in
  let httpProbe := new_probe (HTTPGet healthPath (FromString mongoExpressPortName) "") in
  assign_container c mongoExpressImage (c_Args c) (tcp_port mongoExpressPortName mongoExpressPort)
    [secretEnv "ME_CONFIG_MONGODB_URL" (db_name mongo) SecretKeyURI;
     plainEnv "ME_CONFIG_MONGODB_ENABLE_ADMIN" "true";
     plainEnv "ME_CONFIG_BASICAUTH" "false";
     plainEnv "ME_CONFIG_SITE_BASEURL" (mongoExpressBasePath (db_name mongo));
     plainEnv "ME_CONFIG_HEALTH_CHECK_PATH" "/status";
     plainEnv "ME_CONFIG_OPTIONS_CONFIRM_DELETE" "true";
     plainEnv "VCAP_APP_HOST" "0.0.0.0";
     secretEnv "ME_CONFIG_SITE_COOKIESECRET" secretName mongoExpressCookieSecretKey;
     secretEnv "ME_CONFIG_SITE_SESSIONSECRET" secretName mongoExpressSessionSecretKey]
    (rw_mount "tmp" "/tmp") tool_resources (httpProbe 5 3 60)%Z (httpProbe 10 3 3)%Z (httpProbe 20 3 3)%Z
    (tool_security mongoExpressUID).

Definition mongoExpressResourceName : string → string := toolResourceName (tool_Suffix mongoExpress).
Definition mongoExpressLabels : Database → gmap string string := tool_labels mongoExpress.

Definition mutateMongoExpressPodTemplate (mongo : Database) : PodSpec → PodSpec :=
  tool_pod mongoExpress mongoExpressUID (mongoExpress_container mongo).

(** The loop over the two session keys: a missing one is generated. *)
Fixpoint fill_keys (keys : list string) (data : gmap string string) : prog DbE (result string (gmap string string)) :=
  match keys with
  | [] => Ret (Ok data)
  | key :: keys =>
      if decide (default "" (data !! key) ≠ "") then fill_keys keys data
      else
        let! p := generatePassword in
        match p with
        | Err e => Ret (Err e)
        | Ok value => fill_keys keys (<[key := value]> data)
        end
  end.
Definition session_keys : list string := [mongoExpressCookieSecretKey; mongoExpressSessionSecretKey].

Section express.
Context `{KubeLib}.

Definition ensureMongoExpressSecret (mongo : Database) : prog DbE (option SecretError) :=
  let! g := trigger (ReadSecret (tool_key mongoExpress mongo)) in
  match (match g with
         | Ok s => Ok (Some s)
         | Err e => if IsNotFound e then Ok None else Err e
         end) with
  | Err e => Ret (Some (SecretApi e))
  | Ok stored =>
    let secret := default {| sec_Meta := new_meta (db_namespace mongo) (tool_name mongoExpress mongo) ∅ ∅;
                             sec_Type := ""; sec_Data := ∅ |} stored in
    if has stored && negb (IsControlledBy (sec_Meta secret) (db_Meta mongo)) then
      Ret (Some (SecretNotOurs (ownedObjectError mongoExpress "Secret" (sec_Meta secret))))
    else
    let! d := fill_keys session_keys (sec_Data secret) in
    match d with
    | Err e => Ret (Some (SecretRandom e))
    | Ok data =>
      let m := set_labels (sec_Meta secret) (<[tool_Label mongoExpress := db_name mongo]>
                 (<[managedByLabel := managedByValue]> (meta_Labels (sec_Meta secret)))) in
      match SetControllerReference (db_Meta mongo) m with
      | Err e => Ret (Some (SecretOwner e))
      | Ok m =>
        let next := {| sec_Meta := m; sec_Type := SecretTypeOpaque; sec_Data := data |} in
        match stored with
        | None =>
            let! w := trigger (CreateSecret next) in
            Ret (match w with Ok _ => None | Err e => Some (SecretApi e) end)
        | Some before =>
            if decide (before = next) then Ret None
            else
              let! w := trigger (UpdateSecret next) in
              Ret (match w with Ok _ => None | Err e => Some (SecretApi e) end)
        end
      end
    end
  end.

(** The mutations of the three objects of Mongo Express. *)
Definition mongoExpressService : Database → Service → result string Service :=
  tool_service_mutation mongoExpress false.
Definition mongoExpressDeployment (mongo : Database) : Deployment → result string Deployment :=
  tool_deployment_mutation mongoExpress (mutateMongoExpressPodTemplate mongo) mongo.
Definition mongoExpressNetworkPolicy : Database → NetworkPolicy → result string NetworkPolicy :=
  tool_policy_mutation mongoExpress mongoLabel mongoPort.

Definition reconcileMongoExpress (mongo : Database) : prog DbE (Database * option ToolError) :=
  let mongo := on_db_status (with_tool_service (tool_name mongoExpress mongo)) mongo in
  let! s := ensureMongoExpressSecret mongo in
  match s with
  | Some e => Ret (mongo, Some (ToolSecretFailed e))
  | None =>
      let! t := ensureTool mongoExpress mongoLabel mongoPort false mutateMongoExpressPodTemplate mongo in
      Ret (match t with
           | Err e => (mongo, Some e)
           | Ok available =>
               (if decide (1 ≤ available)%Z
                then set_condition ConditionMongoExpressReady mongo ConditionTrue reasonMongoExpressAvailable
                       "Mongo Express is available through the authenticated dashboard"
                else set_condition ConditionMongoExpressReady mongo ConditionFalse reasonMongoExpressProvisioning
                       "waiting for Mongo Express to become ready", None)
           end)
  end.

Definition deleteOwnedMongoExpressObject : Database → ToolKind → prog DbE (option ApiError) :=
  deleteOwnedTool mongoExpress.

Definition disableMongoExpress (mongo : Database) : prog DbE (option ApiError) :=
  deleteTools mongoExpress mongo [ToolDeployment; ToolService; ToolNetworkPolicy; ToolSecret].

Definition mongo_engine : Engine :=
  {| eng_Kind := "Mongo"; eng_NameUse := "a Service and MongoDB database"; eng_VersionText := "MongoDB";
     eng_DefaultVersion := "8.0"; eng_Images := mongoImages; eng_Label := mongoLabel; eng_Port := mongoPort;
     eng_PortName := mongoPortName; eng_DataVolume := mongoDataVolume; eng_URI := mongoURI;
     eng_TemplateLabels := mongoTemplateLabels; eng_mutatePod := mutateMongoPodTemplate;
     eng_ToolText := "Mongo Express"; eng_ToolCondition := ConditionMongoExpressReady;
     eng_reconcileTool := reconcileMongoExpress; eng_disableTool := disableMongoExpress |}.
End express.

(** This file's copies of the shared functions. *)
Section copies.
Context `{UnicodeTables, KubeLib, QuantityLib}.
#[local] Existing Instance mongo_engine.
Definition mongoEnsureSecret : Database → string → prog DbE (option SecretError) := ensureSecret.
Definition mongoService : Database → Service → result string Service := service_mutation.
Definition mongoStatefulSet (mongo : Database) (image : string) (storage : Quantity) : StatefulSet → result string StatefulSet :=
  statefulset_mutation mongo "" image storage.
Definition mongoReconcileStorage : Database → Quantity → prog DbE (result StorageError (option Quantity)) := reconcileStorage.
Definition mongoVersion : Database → string := databaseVersion.
Definition mongoStorageSize : Database → Quantity := databaseStorageSize.
Definition setMongoExpressReady : Database → string → string → string → Database := setToolReady.
Definition mongoProvision : Database → DatabaseStatus → string → string → Quantity → prog DbE (option DatabaseError) := provision.
End copies.

Definition MongoReconcile `{UnicodeTables, KubeLib, QuantityLib} (req : NamespacedName)
    : prog DbE (option DatabaseError) :=
  Reconcile (H2 := mongo_engine) req.

(** ** The engine keeps its promises *)
Lemma fill_keys_beside keys data : calls_only beside (fill_keys keys data).
Proof.
  revert data. induction keys as [|key keys IH]; intros data; cbn [fill_keys]; [done|].
  case_decide; [apply IH|]. unfold generatePassword. calls.
Qed.
#[export] Hint Resolve fill_keys_beside : calls.

#[export] Instance mongo_laws `{KubeLib, !KubeLibLaws} : EngineLaws (E := mongo_engine).
Proof.
  split.
  - intros version image Hi. apply elem_of_list_to_map_2 in Hi.
    repeat (apply elem_of_cons in Hi as [[= -> ->]|Hi]; [vm_compute; reflexivity|]). by apply not_elem_of_nil in Hi.
  - by eexists.
  - intros db ident image pod. eexists. split_and!; [done|done| |].
    + eexists. split; [right; left|done].
    + intros e He. simpl in He. repeat (apply elem_of_cons in He as [->|He]; [done|]). by apply not_elem_of_nil in He.
  - intros db ident image pod. unfold eng_mutatePod, mongo_engine, mutateMongoPodTemplate. f_equal. simpl.
    by rewrite decide_True by apply reuse_container_name.
  - done.
  - intros db. unfold mongo_engine; cbn [eng_reconcileTool]. unfold reconcileMongoExpress, ensureMongoExpressSecret. calls.
  - intros db. unfold mongo_engine; cbn [eng_disableTool]. unfold disableMongoExpress. calls.
  - intros db tr db' e. unfold mongo_engine; cbn [eng_reconcileTool]. unfold reconcileMongoExpress. rewrite exec_bind.
    intros (tr1 & tr2 & s & -> & _ & Hk). destruct s as [err|]; [destruct Hk as [-> [= -> ->]]; done|].
    apply exec_bind in Hk as (tr3 & tr4 & t & -> & _ & -> & Hret). destruct t as [n|err]; [|by injection Hret as -> ->].
    injection Hret as -> ->. case_decide; (split_and!; [done..|]); unfold ready_of; simpl;
      (f_equal; by apply FindStatusCondition_set_other).
Qed.

(** Mongo is an engine of the shared design: every image is pinned by digest,
    each version the API admits (and the default) has one, the pod takes its
    password from the connection Secret and settles, and Mongo Express's code leaves
    the database, its volume and its Ready condition alone. *)
Theorem mongo_engine_laws `{KubeLib, !KubeLibLaws} :
  EngineLaws (E := mongo_engine) ∧
  (∀ version, version ∈ mongoVersions → is_Some (mongoImages !! version)) ∧ digest_pinned mongoExpressImage = true.
Proof.
  split_and!; [apply _|..].
  - intros version Hv. repeat (apply elem_of_cons in Hv as [->|Hv]; [by eexists|]). by apply not_elem_of_nil in Hv.
  - vm_compute. reflexivity.
Qed.

Lemma mongo_engine_laws_witness : is_Some (mongoImages !! "8.0").
Proof. apply (@mongo_engine_laws sample_kube_lib sample_kube_lib_laws). left. Defined.
