(* ===== verification/RateLimit.v ===== *)
(** * The dashboard's login rate limiter

    [dashboard/internal/server/ratelimit.go]: a fixed-window counter per client
    address.  [allow] takes the limiter and the instant its clock shows and returns
    the decision with the limiter it leaves behind; the mutex makes concurrent
    calls a sequence of such steps, [serve].

    Instants are nanoseconds, and [Sub] is [time.Time.Sub], which saturates at the
    ends of [time.Duration]. *)
From S2P Require Import Prelude GoStrings.
From Stdlib Require Import Ascii.

#[local] Open Scope Z_scope.

(** ** The standard library *)
Definition Second : Z := 1000000000.
Definition Minute : Z := 60 * Second.
Definition Hour : Z := 60 * Minute.

Definition Sub (t u : Z) : Z := Z.max i64_min (Z.min i64_max (t - u)).

Definition colon : ascii := byte 58.
Definition open_bracket : ascii := byte 91.
Definition close_bracket : ascii := byte 93.

(** [net.SplitHostPort]: the host, or nothing for an address it rejects. *)
Definition SplitHost (addr : string) : option string :=
  let l := bytes addr in
  match LastIndexByte l colon with
  | None => None
  | Some i =>
      let bare (host : list ascii) (j k : nat) :=
        if has (IndexByte (drop j l) open_bracket) || has (IndexByte (drop k l) close_bracket)
        then None else Some (of_bytes host) in
      if decide (head l = Some open_bracket) then
        match IndexByte l close_bracket with
        | Some e => if decide (S e = i) then bare (drop 1 (take e l)) 1%nat (S e) else None
        | None => None
        end
      else if has (IndexByte (take i l) colon) then None
      else bare (take i l) 0%nat 0%nat
  end.

(** ** The limiter *)
Definition rateLimitMax : Z := 20.
Definition rateLimitWindow : Z := Minute.

Record rateWindow : Type := { count : Z; windowStart : Z }.
Record rateLimiter : Type := { max : Z; window : Z; counts : gmap string rateWindow }.

Definition newRateLimiter (max window : Z) : rateLimiter :=
  {| max := max; window := window; counts := ∅ |}.

Definition with_counts (rl : rateLimiter) (cs : gmap string rateWindow) : rateLimiter :=
  {| max := max rl; window := window rl; counts := cs |}.

Definition elapsed (rl : rateLimiter) (now : Z) (w : rateWindow) : bool :=
  bool_decide (window rl ≤ Sub now (windowStart w)).

Definition evictLocked (rl : rateLimiter) (now : Z) : rateLimiter :=
  with_counts rl (filter (λ kw, elapsed rl now kw.2 = false) (counts rl)).

Definition allow (rl : rateLimiter) (now : Z) (ip : string) : bool * rateLimiter :=
  let rl := evictLocked rl now in
  let fresh := (true, with_counts rl (<[ip := {| count := 1; windowStart := now |}]> (counts rl))) in
  match counts rl !! ip with
  | None => fresh
  | Some w =>
      if elapsed rl now w then fresh
      else if decide (max rl ≤ count w) then (false, rl)
      else (true, with_counts rl (<[ip := {| count := i64 (count w + 1); windowStart := windowStart w |}]> (counts rl)))
  end.

Definition clientIP (RemoteAddr : string) : string := default RemoteAddr (SplitHost RemoteAddr).

(** ** Sequences of requests *)

(** An arrival: when, from which address. *)
Definition arrival : Type := Z * string.

Fixpoint serve (rl : rateLimiter) (reqs : list arrival) : list (arrival * bool) * rateLimiter :=
  match reqs with
  | [] => ([], rl)
  | (now, ip) :: reqs =>
      let '(ok, rl) := allow rl now ip in
      let '(rest, rl) := serve rl reqs in
      (((now, ip), ok) :: rest, rl)
  end.

(** The clock does not run backwards. *)
Definition in_order (reqs : list arrival) : Prop := StronglySorted (λ a b, a.1 ≤ b.1) reqs.

(** How many requests of [ip] were let through at an instant in [[t, t + d)]. *)
Definition admitted (ip : string) (t d : Z) (log : list (arrival * bool)) : nat :=
  length (filter (λ r, r.1.2 = ip ∧ t ≤ r.1.1 < t + d ∧ r.2 = true) log).

(** ** One step *)

(** The window of [ip] that still counts at [now]. *)
Definition live (rl : rateLimiter) (now : Z) (ip : string) : option rateWindow :=
  match counts rl !! ip with
  | Some w => if decide (now < windowStart w + window rl) then Some w else None
  | None => None
  end.

(** A limiter the code can be in: every counter is between 1 and [max]. *)
Definition wf (rl : rateLimiter) : Prop :=
  0 < window rl ≤ i64_max ∧ 1 ≤ max rl ≤ i64_max ∧
  ∀ ip w, counts rl !! ip = Some w → 1 ≤ count w ≤ max rl.

(** What a request of [ip] leaves in its own slot. *)
Definition bump (rl : rateLimiter) (now : Z) (ip : string) : rateWindow :=
  match live rl now ip with
  | None => {| count := 1; windowStart := now |}
  | Some w => if decide (max rl ≤ count w) then w else {| count := count w + 1; windowStart := windowStart w |}
  end.

Definition decision (rl : rateLimiter) (now : Z) (ip : string) : bool :=
  match live rl now ip with None => true | Some w => bool_decide (count w < max rl) end.

Lemma elapsed_spec rl now w :
  wf rl → elapsed rl now w = bool_decide (windowStart w + window rl ≤ now).
Proof.
  intros (HW & _). unfold elapsed, Sub. apply bool_decide_ext. unfold i64_min, i64_max in *. lia.
Qed.

Lemma evicted_lookup rl now ip : wf rl → counts (evictLocked rl now) !! ip = live rl now ip.
Proof.
  intros Hwf. unfold evictLocked, live. simpl. rewrite map_lookup_filter.
  destruct (counts rl !! ip) as [w|]; simpl; [|done].
  pose proof (elapsed_spec rl now w Hwf) as He.
  destruct (decide (now < windowStart w + window rl)) as [Hlt|Hge].
  - rewrite bool_decide_false in He by lia. by rewrite option_guard_True.
  - rewrite bool_decide_true in He by lia. rewrite option_guard_False; [done|simpl; congruence].
Qed.

Lemma live_count rl now ip w : wf rl → live rl now ip = Some w → 1 ≤ count w ≤ max rl ∧ now < windowStart w + window rl.
Proof.
  intros (_ & _ & Hc). unfold live. destruct (counts rl !! ip) eqn:He; [|done].
  case_decide; [|done]. intros [= ->]. split; [by eapply Hc|done].
Qed.

Lemma allow_spec rl now ip :
  wf rl →
  allow rl now ip =
    (decision rl now ip, with_counts rl (<[ip := bump rl now ip]> (counts (evictLocked rl now)))).
Proof.
  intros Hwf. pose proof Hwf as (_ & Hm & _). unfold allow, decision, bump.
  rewrite evicted_lookup by done. destruct (live rl now ip) as [w|] eqn:Hl; [|done].
  destruct (live_count _ _ _ _ Hwf Hl) as [Hc Hn].
  replace (elapsed (evictLocked rl now) now w) with false.
  2:{ symmetry. change (elapsed rl now w = false). rewrite elapsed_spec by done. apply bool_decide_eq_false. lia. }
  simpl. case_decide; [rewrite bool_decide_false by lia|rewrite bool_decide_true by lia].
  - f_equal. unfold evictLocked, with_counts. simpl. f_equal. symmetry. apply insert_id.
    pose proof (evicted_lookup rl now ip Hwf) as He. simpl in He. by rewrite He.
  - unfold with_counts. simpl. rewrite i64_id; [done|]. unfold in_i64, i64_min, i64_max in *. lia.
Qed.

Lemma allow_wf rl now ip : wf rl → wf (allow rl now ip).2.
Proof.
  intros Hwf. rewrite allow_spec by done. pose proof Hwf as (HW & Hm & Hc).
  split_and!; [apply HW..|apply Hm|apply Hm|]. intros ip' w. cbn [snd with_counts counts].
  rewrite lookup_insert. case_decide.
  - intros [= <-]. unfold bump. destruct (live rl now ip) as [w'|] eqn:Hl; simpl; [|lia].
    destruct (live_count _ _ _ _ Hwf Hl) as [? _]. simpl. case_decide; simpl; lia.
  - rewrite evicted_lookup by done. intros Hl. by destruct (live_count _ _ _ _ Hwf Hl).
Qed.

(** What still counts at a later instant after a request. *)
Lemma allow_live rl now ip now' ip' :
  wf rl → now ≤ now' →
  live (allow rl now ip).2 now' ip' =
    if decide (ip' = ip) then
      if decide (now' < windowStart (bump rl now ip) + window rl) then Some (bump rl now ip) else None
    else live rl now' ip'.
Proof.
  intros Hwf Hle. rewrite allow_spec by done. unfold live at 1. cbn [snd with_counts counts window].
  destruct (decide (ip' = ip)) as [->|Hi]; [by rewrite lookup_insert_eq|].
  rewrite lookup_insert_ne, evicted_lookup by done. unfold live. destruct (counts rl !! ip') as [w|]; [|done].
  repeat case_decide; done || lia.
Qed.

Lemma allow_params rl now ip : wf rl → max (allow rl now ip).2 = max rl ∧ window (allow rl now ip).2 = window rl.
Proof. intros Hwf. by rewrite allow_spec. Qed.

Lemma serve_cons rl now ip reqs :
  serve rl ((now, ip) :: reqs) =
    (((now, ip), (allow rl now ip).1) :: (serve (allow rl now ip).2 reqs).1, (serve (allow rl now ip).2 reqs).2).
Proof. simpl. destruct (allow rl now ip) as [ok rl']. simpl. by destruct (serve rl' reqs). Qed.

Lemma serve_snoc rl reqs now ip : (serve rl (reqs ++ [(now, ip)])).2 = (allow (serve rl reqs).2 now ip).2.
Proof.
  revert rl. induction reqs as [|[u a] reqs IH]; intros rl; simpl app; rewrite !serve_cons; [done|apply IH].
Qed.

Lemma in_order_cons now ip reqs :
  in_order ((now, ip) :: reqs) → in_order reqs ∧ Forall (λ a, now ≤ a.1) reqs.
Proof. intros [Hs Hf]%StronglySorted_inv. done. Qed.

(** ** How many requests get through *)
Lemma admitted_cons ip t d r log :
  admitted ip t d (r :: log) =
    ((if decide (r.1.2 = ip ∧ (t ≤ r.1.1 < t + d)%Z ∧ r.2 = true) then 1 else 0) + admitted ip t d log)%nat.
Proof.
  unfold admitted. rewrite filter_cons.
  destruct (decide (r.1.2 = ip ∧ t ≤ r.1.1 < t + d ∧ r.2 = true)) as [H|H]; [by rewrite decide_True|by rewrite decide_False].
Qed.

(** Nothing is let through in an interval that is over. *)
Lemma admitted_over rl ip t d reqs :
  Forall (λ a, t + d ≤ a.1) reqs → admitted ip t d (serve rl reqs).1 = 0%nat.
Proof.
  revert rl. induction reqs as [|[now ip'] reqs IH]; intros rl Hf; [done|].
  apply Forall_cons in Hf as [Hn Hf]. rewrite serve_cons. cbn [fst]. rewrite admitted_cons, IH by done.
  rewrite decide_False; [done|]. simpl in *. lia.
Qed.

(** What an address may still get in an interval that has begun at [t]. *)
Definition allowance (rl : rateLimiter) (t now : Z) (ip : string) : Z :=
  match live rl now ip with
  | None => max rl
  | Some w => if decide (t ≤ windowStart w) then max rl - count w else 2 * max rl - count w
  end.

Lemma allowance_step rl t now ip :
  wf rl → t ≤ now → (if decision rl now ip then 1 else 0) +
    (if decide (t ≤ windowStart (bump rl now ip)) then max rl - count (bump rl now ip)
     else 2 * max rl - count (bump rl now ip)) ≤ allowance rl t now ip.
Proof.
  intros Hwf Ht. pose proof Hwf as (_ & Hm & _). unfold decision, bump, allowance.
  destruct (live rl now ip) as [w|] eqn:Hl; simpl.
  - destruct (decide (max rl ≤ count w)); simpl; [rewrite bool_decide_false by lia|rewrite bool_decide_true by lia];
      case_decide; lia.
  - rewrite decide_True by lia. lia.
Qed.

Lemma bump_live rl now ip : wf rl → now < windowStart (bump rl now ip) + window rl.
Proof.
  intros Hwf. pose proof Hwf as (HW & _). unfold bump. destruct (live rl now ip) as [w|] eqn:Hl; simpl; [|lia].
  destruct (live_count _ _ _ _ Hwf Hl). by case_decide.
Qed.

Lemma allowance_nonneg rl t now ip : wf rl → 0 ≤ allowance rl t now ip.
Proof.
  intros Hwf. pose proof Hwf as (_ & Hm & _). unfold allowance. destruct (live rl now ip) as [w|] eqn:Hl; [|lia].
  destruct (live_count _ _ _ _ Hwf Hl). case_decide; lia.
Qed.

Lemma allowance_later rl t now now' ip :
  wf rl → now ≤ now' < t + window rl → allowance rl t now' ip ≤ allowance rl t now ip.
Proof.
  intros Hwf Hn. pose proof Hwf as (_ & Hm & Hc). unfold allowance, live.
  destruct (counts rl !! ip) as [w|] eqn:He; [|done]. pose proof (Hc _ _ He).
  repeat case_decide; lia.
Qed.

Lemma admitted_allowance rl t now ip reqs :
  wf rl → in_order reqs → Forall (λ a, now ≤ a.1) reqs → t ≤ now →
  Z.of_nat (admitted ip t (window rl) (serve rl reqs).1) ≤ allowance rl t now ip.
Proof.
  revert rl now. induction reqs as [|[now' ip'] reqs IH]; intros rl now Hwf Ho Hf Ht.
  { by apply allowance_nonneg. }
  apply Forall_cons in Hf as [Hn _]. apply in_order_cons in Ho as [Ho Hf]. simpl in Hn.
  destruct (decide (now' < t + window rl)) as [Hlt|Hge].
  2:{ rewrite admitted_over; [by apply allowance_nonneg|]. apply Forall_cons. split; [simpl; lia|].
      eapply Forall_impl; [exact Hf|]. simpl. lia. }
  rewrite serve_cons. cbn [fst snd]. rewrite admitted_cons. cbn [fst snd].
  specialize (IH (allow rl now' ip').2 now' (allow_wf _ _ _ Hwf) Ho Hf ltac:(lia)).
  destruct (allow_params rl now' ip' Hwf) as [Hm' HW']. rewrite HW' in IH.
  pose proof (allowance_later rl t now now' ip Hwf ltac:(lia)) as Hl.
  unfold allowance at 1 in IH. rewrite Hm', allow_live in IH by (done || lia).
  destruct (decide (ip = ip')) as [->|Hi].
  - rewrite decide_True in IH by by apply bump_live.
    pose proof (allowance_step rl t now' ip' Hwf ltac:(lia)) as Hs.
    assert (Hd : (allow rl now' ip').1 = decision rl now' ip') by by rewrite allow_spec.
    destruct (decide (ip' = ip' ∧ t ≤ now' < t + window rl ∧ (allow rl now' ip').1 = true)) as [(_ & _ & Ha)|_].
    + rewrite <- Hd, Ha in Hs. lia.
    + destruct (decision rl now' ip'); lia.
  - rewrite decide_False by naive_solver. unfold allowance in Hl |- *. lia.
Qed.

Lemma admitted_bound rl ip t reqs :
  wf rl → in_order reqs → Z.of_nat (admitted ip t (window rl) (serve rl reqs).1) ≤ 2 * max rl - 1.
Proof.
  revert rl. induction reqs as [|[now ip'] reqs IH]; intros rl Hwf Ho; pose proof Hwf as (_ & Hm & _).
  { unfold admitted. simpl. lia. }
  destruct (decide (t ≤ now)) as [Ht|Ht].
  - pose proof (admitted_allowance rl t now ip ((now, ip') :: reqs) Hwf Ho) as Ha.
    apply in_order_cons in Ho as [_ Hf]. specialize (Ha ltac:(by constructor) Ht).
    etrans; [exact Ha|].
    unfold allowance. destruct (live rl now ip) as [w|] eqn:Hl; [|lia].
    destruct (live_count _ _ _ _ Hwf Hl). case_decide; lia.
  - apply in_order_cons in Ho as [Ho _]. rewrite serve_cons. cbn [fst]. rewrite admitted_cons.
    rewrite decide_False by (simpl; lia). destruct (allow_params rl now ip' Hwf) as [Hm' HW'].
    specialize (IH _ (allow_wf rl now ip' Hwf) Ho). rewrite Hm', HW' in IH. lia.
Qed.

(** ** What the limiter remembers *)

(** Every window was opened by a request of its own address. *)
Lemma serve_tracked rl reqs ip w :
  wf rl → in_order reqs → counts (serve rl reqs).2 !! ip = Some w →
  counts rl !! ip = Some w ∨ (windowStart w, ip) ∈ reqs ∨
  ∃ w0, counts rl !! ip = Some w0 ∧ windowStart w = windowStart w0.
Proof.
  revert rl. induction reqs as [|[now ip'] reqs IH]; intros rl Hwf Ho Hw; [by left|].
  apply in_order_cons in Ho as [Ho _]. rewrite serve_cons in Hw. cbn [snd] in Hw.
  assert (Hstep : ∀ w1, counts (allow rl now ip').2 !! ip = Some w1 →
    (windowStart w1, ip) ∈ (now, ip') :: reqs ∨ ∃ w0, counts rl !! ip = Some w0 ∧ windowStart w1 = windowStart w0).
  { intros w1. rewrite allow_spec by done. cbn [snd with_counts counts]. destruct (decide (ip = ip')) as [->|Hi].
    - rewrite lookup_insert_eq. intros [= <-]. unfold bump, live.
      destruct (counts rl !! ip') as [w0|] eqn:He; simpl; [|left; by left].
      case_decide; simpl; [|left; by left]. right. exists w0. by case_decide.
    - rewrite lookup_insert_ne, evicted_lookup by done. unfold live.
      destruct (counts rl !! ip) as [w0|] eqn:He; [|done]. case_decide; [|done]. intros [= ->]. right. by exists w1. }
  destruct (IH _ (allow_wf _ _ _ Hwf) Ho Hw) as [H|[H|(w0 & H & E)]].
  - right. destruct (Hstep _ H) as [?|?]; [by left|by right].
  - right. left. by right.
  - right. rewrite E. destruct (Hstep _ H) as [?|?]; [by left|by right].
Qed.

Lemma serve_wf rl reqs : wf rl → wf (serve rl reqs).2.
Proof.
  revert rl. induction reqs as [|[now ip] reqs IH]; intros rl Hwf; [done|].
  rewrite serve_cons. by apply IH, allow_wf.
Qed.

Lemma serve_params rl reqs : wf rl → max (serve rl reqs).2 = max rl ∧ window (serve rl reqs).2 = window rl.
Proof.
  revert rl. induction reqs as [|[now ip] reqs IH]; intros rl Hwf; [done|].
  rewrite serve_cons. cbn [snd]. destruct (allow_params rl now ip Hwf) as [<- <-]. by apply IH, allow_wf.
Qed.

Lemma new_wf mx W : 1 ≤ mx ≤ i64_max → 0 < W ≤ i64_max → wf (newRateLimiter mx W).
Proof. intros Hm HW. split_and!; simpl; try lia. intros ip w. by rewrite lookup_empty. Qed.

Lemma new_tracked mx W reqs ip w :
  1 ≤ mx ≤ i64_max → 0 < W ≤ i64_max → in_order reqs →
  counts (serve (newRateLimiter mx W) reqs).2 !! ip = Some w → (windowStart w, ip) ∈ reqs.
Proof.
  intros Hm HW Ho Hw. destruct (serve_tracked _ _ _ _ (new_wf mx W Hm HW) Ho Hw) as [H|[H|(w0 & H & _)]]; [|done|];
    simpl in H; by rewrite lookup_empty in H.
Qed.

(** ** Addresses do not interfere *)

(** From [now] on, two limiters treat [ip] alike. *)
Definition agree (now : Z) (ip : string) (rl1 rl2 : rateLimiter) : Prop :=
  max rl1 = max rl2 ∧ window rl1 = window rl2 ∧ ∀ now', now ≤ now' → live rl1 now' ip = live rl2 now' ip.

Lemma agree_other now ip now' ip' rl1 rl2 :
  wf rl1 → ip' ≠ ip → now ≤ now' → agree now ip rl1 rl2 → agree now' ip (allow rl1 now' ip').2 rl2.
Proof.
  intros Hwf Hi Hn (Hm & HW & Hl). destruct (allow_params rl1 now' ip' Hwf) as [Hm' HW'].
  split_and!; [congruence..|]. intros u Hu. rewrite allow_live, decide_False by done. apply Hl. lia.
Qed.

Lemma agree_same now ip now' rl1 rl2 :
  wf rl1 → wf rl2 → now ≤ now' → agree now ip rl1 rl2 →
  (allow rl1 now' ip).1 = (allow rl2 now' ip).1 ∧ agree now' ip (allow rl1 now' ip).2 (allow rl2 now' ip).2.
Proof.
  intros H1 H2 Hn (Hm & HW & Hl). destruct (allow_params rl1 now' ip H1), (allow_params rl2 now' ip H2).
  assert (Hb : bump rl1 now' ip = bump rl2 now' ip) by (unfold bump; by rewrite Hl, Hm by lia).
  split; [|split_and!; [congruence..|]].
  - rewrite !allow_spec by done. cbn [fst]. unfold decision. by rewrite Hl, Hm by lia.
  - intros u Hu. rewrite !allow_live, Hb, HW by done. by rewrite (Hl u) by lia.
Qed.

Lemma serve_isolated now ip rl1 rl2 reqs :
  wf rl1 → wf rl2 → agree now ip rl1 rl2 → in_order reqs → Forall (λ a, now ≤ a.1) reqs →
  filter (λ r, r.1.2 = ip) (serve rl1 reqs).1 = (serve rl2 (filter (λ a, a.2 = ip) reqs)).1.
Proof.
  revert now rl1 rl2. induction reqs as [|[now' ip'] reqs IH]; intros now rl1 rl2 H1 H2 Ha Ho Hf; [done|].
  apply Forall_cons in Hf as [Hn _]. apply in_order_cons in Ho as [Ho Hf]. simpl in Hn.
  rewrite serve_cons. cbn [fst]. rewrite !filter_cons. cbn [fst snd]. destruct (decide (ip' = ip)) as [->|Hi].
  - destruct (agree_same _ _ now' _ _ H1 H2 Hn Ha) as [-> Ha']. rewrite serve_cons. cbn [fst]. f_equal.
    by eapply IH; [apply allow_wf..|exact Ha'| |].
  - eapply IH; [by apply allow_wf|done|by eapply agree_other|done..].
Qed.

(** ** Properties *)

(** The limiter bounds guessing: over any sequence of requests, an address gets
    at most [2 * max - 1] requests through in any span of one window's length (a
    burst at the end of one window and one at the start of the next), whatever
    other addresses do, and the counters never overflow. *)
Theorem rate_limit_bound mx W ip t reqs :
  1 ≤ mx ≤ i64_max → 0 < W ≤ i64_max → in_order reqs →
  Z.of_nat (admitted ip t W (serve (newRateLimiter mx W) reqs).1) ≤ 2 * mx - 1.
Proof. intros Hm HW. exact (admitted_bound _ ip t reqs (new_wf mx W Hm HW)). Qed.

(** C40. Addresses are limited separately and nobody is shut out for good: the
    decisions for an address are those it would get alone; an address that made no
    request in the last window is let through; and the memory is bounded, every
    address it holds having made a request within the last window. *)
Theorem rate_limit_fair mx W reqs now ip :
  1 ≤ mx ≤ i64_max → 0 < W ≤ i64_max → in_order (reqs ++ [(now, ip)]) →
  let new := newRateLimiter mx W in
  filter (λ r, r.1.2 = ip) (serve new reqs).1 = (serve new (filter (λ a, a.2 = ip) reqs)).1 ∧
  ((∀ u, (u, ip) ∈ reqs → u + W ≤ now) → (allow (serve new reqs).2 now ip).1 = true) ∧
  ∀ ip' w, counts (serve new (reqs ++ [(now, ip)])).2 !! ip' = Some w →
    ∃ u, now - W < u ≤ now ∧ (u, ip') ∈ reqs ++ [(now, ip)].
Proof.
  intros Hm HW Ho new. pose proof (new_wf mx W Hm HW) as Hwf.
  assert (Hor : in_order reqs) by (eapply StronglySorted_app_1_l; exact Ho).
  destruct (serve_params new reqs Hwf) as [_ HWs]. pose proof (serve_wf new reqs Hwf) as Hws.
  split_and!.
  - destruct reqs as [|[now0 ip0] reqs]; [done|]. apply (serve_isolated now0); [done..|].
    apply in_order_cons in Hor as [_ Hf]. by constructor.
  - intros Hidle. rewrite allow_spec by done. cbn [fst]. unfold decision, live. rewrite HWs.
    destruct (counts _ !! ip) as [w|] eqn:He; [|done].
    apply new_tracked in He; [|done..]. apply Hidle in He. rewrite decide_False; [done|]. simpl. lia.
  - intros ip' w Hw. pose proof Hw as Hin. apply new_tracked in Hin; [|done..].
    exists (windowStart w). split; [|done]. rewrite serve_snoc, allow_spec in Hw by done.
    cbn [snd with_counts counts] in Hw.
    assert (Hle : windowStart w ≤ now).
    { apply elem_of_app in Hin as [Hin|[= <- <-]%list_elem_of_singleton]; [|done].
      by apply (StronglySorted_app_1_elem_of _ _ _ _ (now, ip) Ho Hin); left. }
    enough (now < windowStart w + W) by lia.
    destruct (decide (ip' = ip)) as [->|Hi].
    + rewrite lookup_insert_eq in Hw. injection Hw as <-.
      pose proof (bump_live (serve new reqs).2 now ip Hws) as Hb. by rewrite HWs in Hb.
    + rewrite lookup_insert_ne, evicted_lookup in Hw by done.
      destruct (live_count _ _ _ _ Hws Hw) as [_ Hb]. by rewrite HWs in Hb.
Qed.

(** ** A worked example *)
Module RateLimitExample.
Definition reqs : list arrival :=
  [(0, "10.0.0.7"); (1, "10.0.0.7"); (2, "10.0.0.7"); (3, "10.0.0.8"); (10, "10.0.0.7"); (11, "10.0.0.7"); (12, "10.0.0.7")].
Definition log : list (arrival * bool) := (serve (newRateLimiter 2 10) reqs).1.
Example log_spec : map snd log = [true; true; false; true; true; true; false].
Proof. vm_compute. reflexivity. Qed.
Example addresses :
  map clientIP ["10.0.0.7:4321"; "[2001:db8::1]:443"; "garbage"; "a:b:c"] =
  ["10.0.0.7"; "2001:db8::1"; "garbage"; "a:b:c"].
Proof. vm_compute. reflexivity. Qed.
Lemma reqs_in_order : in_order reqs.
Proof. repeat constructor; simpl; lia. Qed.
End RateLimitExample.

Lemma rate_limit_bound_witness :
  Z.of_nat (admitted "10.0.0.7" 1 10 RateLimitExample.log) = 2 ∧
  Z.of_nat (admitted "10.0.0.7" 1 10 RateLimitExample.log) ≤ 3.
Proof.
  split; [vm_compute; reflexivity|].
  apply (rate_limit_bound 2 10 "10.0.0.7" 1 RateLimitExample.reqs); [unfold i64_max; lia..|].
  apply RateLimitExample.reqs_in_order.
Defined.

Lemma rate_limit_fair_witness :
  (allow (serve (newRateLimiter 2 10) RateLimitExample.reqs).2 30 "10.0.0.7").1 = true.
Proof.
  refine (proj1 (proj2 (rate_limit_fair 2 10 RateLimitExample.reqs 30 "10.0.0.7" _ _ _)) _);
    [unfold i64_max; lia..| |].
  - repeat constructor; simpl; lia.
  - intros u Hu. unfold RateLimitExample.reqs in Hu. set_solver by lia.
Defined.
