(* ===== verification/OidcIdentity.v ===== *)
(** * Identities from an IdP

    The part of [dashboard/internal/oidc/oidc.go] that talks to nobody: the
    configuration and its validation, the claims of a verified token, and the
    allowlist.  What [url.Parse] makes of a URL is an argument. *)
From S2P Require Import Prelude Regex GoStrings.
From Stdlib Require Import Ascii QArith.

(** ** Configuration *)
Definition EnvIssuer : string := "ORKANO_OIDC_ISSUER".
Definition EnvClientID : string := "ORKANO_OIDC_CLIENT_ID".
Definition EnvClientSecret : string := "ORKANO_OIDC_CLIENT_SECRET".
Definition EnvRedirectURL : string := "ORKANO_OIDC_REDIRECT_URL".
Definition EnvAllowedEmails : string := "ORKANO_OIDC_ALLOWED_EMAILS".
Definition EnvAllowedGroups : string := "ORKANO_OIDC_ALLOWED_GROUPS".
Definition EnvScopes : string := "ORKANO_OIDC_SCOPES".
Definition EnvGroupsClaim : string := "ORKANO_OIDC_GROUPS_CLAIM".
Definition defaultGroupsClaim : string := "groups".
(** [gooidc.ScopeOpenID] *)
Definition ScopeOpenID : string := "openid".
Definition defaultScopes : list string := [ScopeOpenID; "profile"; "email"].

Record Config : Set := {
  oc_Issuer : string;
  oc_ClientID : string;
  oc_ClientSecret : string;
  oc_RedirectURL : string;
  oc_AllowedEmails : list string;
  oc_AllowedGroups : list string;
  oc_Scopes : list string;
  oc_GroupsClaim : string;
}.

Record Identity : Set := {
  id_Subject : string;
  id_Issuer : string;
  id_Email : string;
  id_EmailVerified : bool;
  id_Name : string;
  id_Groups : list string;
}.

Inductive ConfigError : Set :=
| ErrNotConfigured
| NotAbsolute (env value : string)
| EmptyField (env : string)
| NoAllowlist.

(** Append unless it is there: a slice with its [seen] map. *)
Definition add_new (out : list string) (v : string) : list string := if decide (v ∈ out) then out else out ++ [v].

Definition scope_separator (c : ascii) : bool := bool_decide (c = ","%char) || bool_decide (c = " "%char).
Definition parseScopes (raw : string) : list string :=
  let raw := TrimSpace raw in
  if decide (raw = "") then defaultScopes
  else
    foldl (λ out f, let f := TrimSpace f in if decide (f = "") then out else add_new out f)
      [ScopeOpenID] (FieldsFunc scope_separator raw).

Definition normalizeList (raw : string) (mapFn : option (string → string)) : list string :=
  foldl (λ out part,
           let v := TrimSpace part in
           if decide (v = "") then out
           else add_new out (match mapFn with Some f => f v | None => v end))
    [] (Split raw ","%char).

Section config.
Context `{UnicodeTables} (url_scheme : string → option string).

(** [u, err := url.Parse(s); err != nil || !u.IsAbs() || u.Scheme is not http(s)],
    negated; [url_scheme] is [u.Scheme] when parsing succeeds. *)
Definition absolute_http (s : string) : bool :=
  match url_scheme s with
  | Some scheme => bool_decide (scheme ≠ "") && (bool_decide (scheme = "http") || bool_decide (scheme = "https"))
  | None => false
  end.

Definition LoadConfig (getenv : string → string) : result ConfigError Config :=
  let issuer := TrimSpace (getenv EnvIssuer) in
  if decide (issuer = "") then Err ErrNotConfigured
  else if negb (absolute_http issuer) then Err (NotAbsolute EnvIssuer issuer)
  else
    let groupsClaim := TrimSpace (getenv EnvGroupsClaim) in
    let cfg := {|
      oc_Issuer := issuer;
      oc_ClientID := TrimSpace (getenv EnvClientID);
      oc_ClientSecret := TrimSpace (getenv EnvClientSecret);
      oc_RedirectURL := TrimSpace (getenv EnvRedirectURL);
      oc_AllowedEmails := normalizeList (getenv EnvAllowedEmails) (Some ToLower);
      oc_AllowedGroups := normalizeList (getenv EnvAllowedGroups) None;
      oc_Scopes := parseScopes (getenv EnvScopes);
      oc_GroupsClaim := if decide (groupsClaim = "") then defaultGroupsClaim else groupsClaim;
    |} in
    if decide (oc_ClientID cfg = "") then Err (EmptyField EnvClientID)
    else if decide (oc_ClientSecret cfg = "") then Err (EmptyField EnvClientSecret)
    else if decide (oc_RedirectURL cfg = "") then Err (EmptyField EnvRedirectURL)
    else if negb (absolute_http (oc_RedirectURL cfg)) then Err (NotAbsolute EnvRedirectURL (oc_RedirectURL cfg))
    else if decide (oc_AllowedEmails cfg = [] ∧ oc_AllowedGroups cfg = []) then Err NoAllowlist
    else Ok cfg.

(** ** Claims *)

(** What [encoding/json] makes of a value of type [any]. *)
#[local] Unset Elimination Schemes.
Inductive Json : Set :=
| JNull
| JBool (b : bool)
| JNumber (n : Q)
| JString (s : string)
| JArray (l : list Json)
| JObject (fields : list (string * Json)).

Definition stringClaim (v : Json) : string := match v with JString s => s | _ => "" end.
Definition boolClaim (v : Json) : bool :=
  match v with
  | JBool b => b
  | JString t => EqualFold t "true"
  | JNumber n => Qeq_bool n 1
  | _ => false
  end.
Definition stringSliceClaim (v : Json) : list string :=
  match v with
  | JString t => if decide (t = "") then [] else [t]
  | JArray l => omap (λ e, match e with JString s => if decide (s = "") then None else Some s | _ => None end) l
  | _ => []
  end.

(** [raw] as the lookup [raw[key]], [nil] when absent *)
Definition identity_of (cfg : Config) (subject : string) (raw : string → Json) : Identity :=
  {| id_Subject := subject;
     id_Issuer := oc_Issuer cfg;
     id_Email := stringClaim (raw "email");
     id_EmailVerified := boolClaim (raw "email_verified");
     id_Name := stringClaim (raw "name");
     id_Groups := stringSliceClaim (raw (oc_GroupsClaim cfg)) |}.

(** ** The allowlist *)
Definition Authorize (cfg : Config) (id : Identity) : bool :=
  if id_EmailVerified id && bool_decide (id_Email id ≠ "") &&
     existsb (λ allowed, bool_decide (ToLower (TrimSpace (id_Email id)) = allowed)) (oc_AllowedEmails cfg)
  then true
  else existsb (λ g, existsb (λ allowed, bool_decide (g = allowed)) (oc_AllowedGroups cfg)) (id_Groups id).
End config.

(** ** Lists without repetition *)
Lemma add_new_elem out v x : x ∈ add_new out v ↔ x ∈ out ∨ x = v.
Proof. unfold add_new. case_decide; set_solver. Qed.
Lemma add_new_NoDup out v : NoDup out → NoDup (add_new out v).
Proof.
  intros Ho. unfold add_new. case_decide; [done|]. apply NoDup_app. split_and!; [done|set_solver|apply NoDup_singleton].
Qed.

(** Fold a list into a set-like one: what is added, and that nothing repeats. *)
Section collect.
Context {A : Type} (f : A → option string).
Definition collect (out : list string) (a : A) : list string := match f a with Some v => add_new out v | None => out end.
Lemma collect_elem l out x : x ∈ foldl collect out l ↔ x ∈ out ∨ ∃ a, a ∈ l ∧ f a = Some x.
Proof.
  revert out. induction l as [|a l IH]; intros out; cbn [foldl]; [set_solver|]. rewrite IH.
  setoid_rewrite elem_of_cons. unfold collect. destruct (f a) as [v|] eqn:Hf; [rewrite add_new_elem|]; naive_solver.
Qed.
Lemma collect_NoDup l out : NoDup out → NoDup (foldl collect out l).
Proof.
  revert out. induction l as [|a l IH]; intros out Ho; cbn [foldl]; [done|]. apply IH. unfold collect.
  destruct (f a); [by apply add_new_NoDup|done].
Qed.
End collect.

Lemma foldl_ext {A B} (f g : A → B → A) a l : (∀ x y, f x y = g x y) → foldl f a l = foldl g a l.
Proof. intros Hfg. revert a. induction l as [|b l IH]; intros a; [done|]. cbn. rewrite Hfg. apply IH. Qed.

Definition entry (mapFn : option (string → string)) (part : string) : option string :=
  let v := TrimSpace part in if decide (v = "") then None else Some (match mapFn with Some f => f v | None => v end).
Lemma normalizeList_collect raw mapFn : normalizeList raw mapFn = foldl (collect (entry mapFn)) [] (Split raw ","%char).
Proof. apply foldl_ext. intros out part. unfold collect, entry. by case_decide. Qed.

Lemma normalizeList_elem raw mapFn x :
  x ∈ normalizeList raw mapFn ↔ ∃ part, part ∈ Split raw ","%char ∧ entry mapFn part = Some x.
Proof. rewrite normalizeList_collect, collect_elem. set_solver. Qed.

Lemma parseScopes_openid raw : NoDup (parseScopes raw) ∧ head (parseScopes raw) = Some ScopeOpenID.
Proof.
  unfold parseScopes. case_decide; [split; [apply (bool_decide_eq_true_1 _); vm_compute; reflexivity|done]|].
  rewrite (foldl_ext _ (collect (λ f, if decide (TrimSpace f = "") then None else Some (TrimSpace f))))
    by (intros; unfold collect; cbv zeta; by case_decide).
  split; [apply collect_NoDup, NoDup_singleton|]. generalize (FieldsFunc scope_separator (TrimSpace raw)) as l.
  assert (Hhd : ∀ l out, head out = Some ScopeOpenID →
    head (foldl (collect (λ f, if decide (TrimSpace f = "") then None else Some (TrimSpace f))) out l) = Some ScopeOpenID).
  { intros l. induction l as [|f l IH]; intros out Ho; [done|]. apply IH. unfold collect.
    destruct (decide (TrimSpace f = "")); [done|]. unfold add_new. case_decide; [done|]. by destruct out. }
  intros l. by apply Hhd.
Qed.

Lemma existsb_elem {A} (p : A → bool) l : existsb p l = true ↔ ∃ x, x ∈ l ∧ p x = true.
Proof. rewrite existsb_exists. split; intros (x & Hx & Hp); exists x; (split; [by apply list_elem_of_In|done]). Qed.

Lemma Authorize_iff `{UnicodeTables} cfg id :
  Authorize cfg id = true ↔
  (id_EmailVerified id = true ∧ id_Email id ≠ "" ∧ ToLower (TrimSpace (id_Email id)) ∈ oc_AllowedEmails cfg) ∨
  (∃ g, g ∈ id_Groups id ∧ g ∈ oc_AllowedGroups cfg).
Proof.
  unfold Authorize.
  assert (He : id_EmailVerified id && bool_decide (id_Email id ≠ "") &&
     existsb (λ allowed, bool_decide (ToLower (TrimSpace (id_Email id)) = allowed)) (oc_AllowedEmails cfg) = true ↔
    id_EmailVerified id = true ∧ id_Email id ≠ "" ∧ ToLower (TrimSpace (id_Email id)) ∈ oc_AllowedEmails cfg).
  { rewrite !andb_true_iff, bool_decide_eq_true, existsb_elem. setoid_rewrite bool_decide_eq_true. naive_solver. }
  rewrite <- He. destruct (_ && _); [naive_solver|]. rewrite existsb_elem. setoid_rewrite existsb_elem.
  setoid_rewrite bool_decide_eq_true. naive_solver.
Qed.

(** What a loaded configuration satisfies. *)
Record valid_Config `{UnicodeTables} (url_scheme : string → option string) (cfg : Config) : Prop := {
  vc_issuer : absolute_http url_scheme (oc_Issuer cfg) = true;
  vc_redirect : absolute_http url_scheme (oc_RedirectURL cfg) = true;
  vc_client : oc_ClientID cfg ≠ "" ∧ oc_ClientSecret cfg ≠ "" ∧ oc_GroupsClaim cfg ≠ "";
  vc_allowlist : oc_AllowedEmails cfg ≠ [] ∨ oc_AllowedGroups cfg ≠ [];
  vc_once : NoDup (oc_AllowedEmails cfg) ∧ NoDup (oc_AllowedGroups cfg);
  vc_scopes : NoDup (oc_Scopes cfg) ∧ head (oc_Scopes cfg) = Some ScopeOpenID;
}.

Lemma LoadConfig_Ok `{UnicodeTables} url_scheme getenv cfg :
  LoadConfig url_scheme getenv = Ok cfg →
  valid_Config url_scheme cfg ∧
  oc_AllowedEmails cfg = normalizeList (getenv EnvAllowedEmails) (Some ToLower) ∧
  oc_AllowedGroups cfg = normalizeList (getenv EnvAllowedGroups) None ∧
  oc_Issuer cfg = TrimSpace (getenv EnvIssuer).
Proof.
  unfold LoadConfig. cbv zeta. destruct (decide (TrimSpace (getenv EnvIssuer) = "")); [done|].
  destruct (absolute_http url_scheme (TrimSpace (getenv EnvIssuer))) eqn:Hi; [|done]. cbn [negb oc_ClientID oc_ClientSecret].
  cbn [oc_RedirectURL]. destruct (decide (TrimSpace (getenv EnvClientID) = "")); [done|].
  destruct (decide (TrimSpace (getenv EnvClientSecret) = "")); [done|].
  destruct (decide (TrimSpace (getenv EnvRedirectURL) = "")); [done|].
  destruct (absolute_http _ (TrimSpace (getenv EnvRedirectURL))) eqn:Hr; [|done]. cbn [negb].
  destruct (decide (_ ∧ _)) as [|Ha]; [done|]. cbn [oc_AllowedEmails oc_AllowedGroups] in Ha. intros [= <-]. split; [|done].
  pose proof (parseScopes_openid (getenv EnvScopes)).
  split; cbn [oc_Issuer oc_RedirectURL oc_ClientID oc_ClientSecret oc_GroupsClaim oc_AllowedEmails oc_AllowedGroups oc_Scopes];
    [done|done| | | |done].
  - split_and!; [done..|]. by destruct (decide (TrimSpace (getenv EnvGroupsClaim) = "")).
  - destruct (decide (normalizeList (getenv EnvAllowedEmails) (Some ToLower) = [])); [|by left]. right. tauto.
  - rewrite !normalizeList_collect. split; apply collect_NoDup, NoDup_nil_2.
Qed.

(** Single sign-on fails closed: a configuration that loads has a non-empty
    allowlist, and it lets a verified identity in exactly when its verified, non-empty
    email equals, trimmed and lower-cased, a non-blank entry of the comma-separated
    email list, or one of its groups is, letter for letter, an entry of the group list;
    what comes first in the scopes is always [openid]. *)
Theorem allowlist_exact `{UnicodeTables} url_scheme getenv cfg id :
  LoadConfig url_scheme getenv = Ok cfg →
  valid_Config url_scheme cfg ∧
  (Authorize cfg id = true ↔
   (id_EmailVerified id = true ∧ id_Email id ≠ "" ∧ ∃ part, part ∈ Split (getenv EnvAllowedEmails) ","%char ∧
      TrimSpace part ≠ "" ∧ ToLower (TrimSpace part) = ToLower (TrimSpace (id_Email id))) ∨
   (∃ part, part ∈ Split (getenv EnvAllowedGroups) ","%char ∧ TrimSpace part ≠ "" ∧ TrimSpace part ∈ id_Groups id)).
Proof.
  intros (Hv & He & Hg & _)%LoadConfig_Ok. split; [done|]. rewrite Authorize_iff, He, Hg.
  rewrite normalizeList_elem. setoid_rewrite normalizeList_elem. unfold entry. cbv zeta.
  split; (intros [(H1 & H2 & part & Hp & Hv')|Hx]; [left; split_and!; [done..|exists part]|right]).
  - destruct (decide (TrimSpace part = "")); [done|]. by injection Hv' as Hv'.
  - destruct Hx as (g & Hin & part & Hp & Hv'). destruct (decide (TrimSpace part = "")); [done|].
    injection Hv' as <-. by exists part.
  - destruct Hv' as [Hne Heq]. split; [done|]. by rewrite decide_False, Heq.
  - destruct Hx as (part & Hp & Hne & Hin). exists (TrimSpace part). split; [done|]. exists part. by rewrite decide_False.
Qed.

(** ** A worked configuration *)
Module OidcIdentityExample.
Definition env (key : string) : string :=
  if decide (key = EnvIssuer) then " https://idp.example "
  else if decide (key = EnvClientID) then "orkano"
  else if decide (key = EnvClientSecret) then "s3cret"
  else if decide (key = EnvRedirectURL) then "https://orkano.example/api/auth/oidc/callback"
  else if decide (key = EnvAllowedEmails) then "Ada@Example.com, ,bob@example.com,ada@example.com"
  else if decide (key = EnvScopes) then "email, groups openid"
  else "".
Definition scheme (url : string) : option string := if HasPrefix url "https:" then Some "https" else None.
Definition config : Config :=
  {| oc_Issuer := "https://idp.example"; oc_ClientID := "orkano"; oc_ClientSecret := "s3cret";
     oc_RedirectURL := "https://orkano.example/api/auth/oidc/callback";
     oc_AllowedEmails := ["ada@example.com"; "bob@example.com"]; oc_AllowedGroups := [];
     oc_Scopes := ["openid"; "email"; "groups"]; oc_GroupsClaim := "groups" |}.
Definition claims (verified : Json) (key : string) : Json :=
  if decide (key = "email") then JString " ADA@example.com"
  else if decide (key = "email_verified") then verified
  else if decide (key = "groups") then JArray [JString "staff"; JNull]
  else JNull.

Example loads : @LoadConfig ascii_tables scheme env = Ok config.
Proof. vm_compute. reflexivity. Qed.
Example no_allowlist :
  @LoadConfig ascii_tables scheme (λ k, if decide (k = EnvAllowedEmails) then " , " else env k) = Err NoAllowlist.
Proof. vm_compute. reflexivity. Qed.
Example ada : @Authorize ascii_tables config (@identity_of ascii_tables config "u1" (claims (JNumber 1))) = true.
Proof. vm_compute. reflexivity. Qed.
Example unverified :
  @Authorize ascii_tables config (@identity_of ascii_tables config "u1" (claims JNull)) = false.
Proof. vm_compute. reflexivity. Qed.

Lemma allowlist_exact_witness :
  oc_AllowedEmails config ≠ [] ∨ oc_AllowedGroups config ≠ [].
Proof.
  exact (vc_allowlist _ _ (proj1 (@allowlist_exact ascii_tables scheme env config
    (@identity_of ascii_tables config "u1" (claims (JNumber 1))) loads))).
Defined.
End OidcIdentityExample.
