(* ===== verification/AesGcm.v ===== *)
(** * AES-256-GCM

    The authenticated cipher of Go's [crypto/aes] and [crypto/cipher] the dashboard
    seals secrets with, executable: the block cipher on a state of sixteen bytes,
    counter mode with a 32-bit counter and the GHASH tag, for a 12-byte nonce and
    no additional data.  Bytes are [Z] in [[0, 256)]; the substitution box is
    computed from its definition, inversion in GF(2^8) and an affine map.  Two
    published test vectors evaluate below. *)
From S2P Require Import Prelude GoStrings Sha256.
From Stdlib Require Import Ascii.

#[local] Open Scope Z_scope.

(** ** GF(2^8) and the substitution box *)
Definition xtime (x : Z) : Z :=
  let y := Z.shiftl x 1 in if Z.testbit y 8 then Z.lxor y 0x11b else y.

Fixpoint gmul_bits (n : nat) (x y : Z) : Z :=
  match n with
  | O => 0
  | S n => Z.lxor (if Z.testbit y 0 then x else 0) (gmul_bits n (xtime x) (Z.shiftr y 1))
  end.
Definition gmul : Z → Z → Z := gmul_bits 8.

(** x^254, which is the inverse of x, and 0 for 0 *)
Definition ginv (x : Z) : Z :=
  let sq y := gmul y y in
  let x2 := sq x in let x4 := sq x2 in let x8 := sq x4 in let x16 := sq x8 in
  let x32 := sq x16 in let x64 := sq x32 in let x128 := sq x64 in
  gmul (gmul (gmul x2 x4) (gmul x8 x16)) (gmul (gmul x32 x64) x128).

Definition rotl8 (n x : Z) : Z := Z.land (Z.lor (Z.shiftl x n) (Z.shiftr x (8 - n))) 255.

Definition sbox_entry (x : Z) : Z :=
  let y := ginv x in
  foldl Z.lxor 0x63 [y; rotl8 1 y; rotl8 2 y; rotl8 3 y; rotl8 4 y].

Definition sbox : list Z := Eval vm_compute in (sbox_entry ∘ Z.of_nat) <$> seq 0 256.
Definition sub (x : Z) : Z := nth (Z.to_nat x) sbox 0.

(** ** The block cipher *)
Definition xor_list : list Z → list Z → list Z := zip_with Z.lxor.

(** The key schedule: words of four bytes, [nk] = 8 words of key, 60 in all. *)
Fixpoint expand (n : nat) (i rcon : Z) (ws : list (list Z)) : list (list Z) :=
  match n with
  | O => []
  | S n =>
      let prev := default [] (last ws) in
      let first := default [] (head ws) in
      let rot := drop 1 prev ++ take 1 prev in
      let t := if Z.eqb (i `mod` 8) 0 then xor_list (sub <$> rot) [rcon; 0; 0; 0]
               else if Z.eqb (i `mod` 8) 4 then sub <$> prev else prev in
      let w := xor_list first t in
      w :: expand n (i + 1) (if Z.eqb (i `mod` 8) 0 then xtime rcon else rcon) (drop 1 ws ++ [w])
  end.

Fixpoint groups {A} (fuel n : nat) (l : list A) : list (list A) :=
  match fuel, l with
  | O, _ | _, [] => []
  | S fuel, _ => take n l :: groups fuel n (drop n l)
  end.

(** Fifteen round keys of sixteen bytes. *)
Definition round_keys (key : list Z) : list (list Z) :=
  let ws := groups 8 4 key in
  groups 15 16 (concat (ws ++ expand 52 8 1 ws)).

(** Byte [i] of the state is in column [i / 4], row [i mod 4]. *)
Definition shift_rows (s : list Z) : list Z :=
  (λ i, nth ((i + 4 * (i mod 4)) mod 16)%nat s 0) <$> seq 0 16.

Definition mix_column (c : list Z) : list Z :=
  (λ i, Z.lxor (Z.lxor (gmul (nth i c 0) 2) (gmul (nth ((i + 1) mod 4)%nat c 0) 3))
               (Z.lxor (nth ((i + 2) mod 4)%nat c 0) (nth ((i + 3) mod 4)%nat c 0))) <$> seq 0 4.
Definition mix_columns (s : list Z) : list Z := concat (mix_column <$> groups 4 4 s).

Fixpoint aes_rounds (s : list Z) (keys : list (list Z)) : list Z :=
  match keys with
  | [] => s
  | [k] => xor_list (shift_rows (sub <$> s)) k
  | k :: keys => aes_rounds (xor_list (mix_columns (shift_rows (sub <$> s))) k) keys
  end.

Definition aes_block (keys : list (list Z)) (block : list Z) : list Z :=
  match keys with
  | [] => block
  | k :: keys => aes_rounds (xor_list block k) keys
  end.

(** ** Galois/counter mode *)
Definition of_be (l : list Z) : Z := foldl (λ z b, z * 256 + b) 0 l.
Definition to_be (n : nat) (z : Z) : list Z := byte_z <$> be_bytes n z.

(** Multiplication in GF(2^128); bit 127 is the coefficient of 1. *)
Fixpoint gf128_mul (n : nat) (x v : Z) : Z :=
  match n with
  | O => 0
  | S n =>
      Z.lxor (if Z.testbit x (Z.of_nat n) then v else 0)
        (gf128_mul n x (if Z.testbit v 0 then Z.lxor (Z.shiftr v 1) (Z.shiftl 0xe1 120) else Z.shiftr v 1))
  end.

Definition pad16 (l : list Z) : list Z :=
  l ++ replicate (Z.to_nat ((- Z.of_nat (length l)) `mod` 16)) 0.

Definition ghash (h : Z) (c : list Z) : Z :=
  let lengths := to_be 8 0 ++ to_be 8 (8 * Z.of_nat (length c)) in
  foldl (λ y b, gf128_mul 128 (Z.lxor y (of_be b)) h) 0 (groups (S (length c)) 16 (pad16 c) ++ [lengths]).

(** The key stream of [n] bytes from counter [i] on. *)
Fixpoint key_stream (fuel : nat) (keys : list (list Z)) (nonce : list Z) (i : Z) : list Z :=
  match fuel with
  | O => []
  | S fuel => aes_block keys (nonce ++ to_be 4 i) ++ key_stream fuel keys nonce (i + 1)
  end.

Definition xor_byte (c : ascii) (k : Z) : ascii := z_byte (Z.lxor (byte_z c) k).

(** Add the key stream; what the stream does not cover is left as it is. *)
Fixpoint add_stream (l : list ascii) (ks : list Z) : list ascii :=
  match l, ks with
  | c :: l, k :: ks => xor_byte c k :: add_stream l ks
  | _, _ => l
  end.

Definition ctr (keys : list (list Z)) (nonce : list Z) (l : list ascii) : list ascii :=
  add_stream l (key_stream (S (length l / 16)) keys nonce 2).

Definition tag (keys : list (list Z)) (nonce : list Z) (c : list ascii) : list ascii :=
  let h := of_be (aes_block keys (replicate 16 0)) in
  z_byte <$> xor_list (aes_block keys (nonce ++ to_be 4 1)) (to_be 16 (ghash h (byte_z <$> c))).

Definition NonceSize : nat := 12.
Definition tagSize : nat := 16.

(** [aead.Seal(nil, nonce, plaintext, nil)] and [aead.Open(nil, nonce, ciphertext, nil)] *)
Definition gcm_seal (key nonce plaintext : list ascii) : list ascii :=
  let keys := round_keys (byte_z <$> key) in
  let nonce := byte_z <$> nonce in
  let c := ctr keys nonce plaintext in c ++ tag keys nonce c.

Definition gcm_open (key nonce ciphertext : list ascii) : option (list ascii) :=
  if decide (length ciphertext < tagSize)%nat then None
  else
    let keys := round_keys (byte_z <$> key) in
    let nonce := byte_z <$> nonce in
    let n := (length ciphertext - tagSize)%nat in
    let c := take n ciphertext in
    if decide (drop n ciphertext = tag keys nonce c) then Some (ctr keys nonce c) else None.

(** ** Test vectors *)
Definition zeros (n : nat) : list ascii := replicate n (byte 0).

Example gcm_test_13 : EncodeToString (gcm_seal (zeros 32) (zeros 12) []) = "530f8afbc74536b9a963b4f1c4cb738b".
Proof. vm_compute. reflexivity. Qed.

Example gcm_test_14 : EncodeToString (gcm_seal (zeros 32) (zeros 12) (zeros 16)) =
  "cea7403d4d606b6e074ec5d3baf39d18d0d1c8a799996bf0265b98b5d48ab919".
Proof. vm_compute. reflexivity. Qed.

(** ** Lengths *)
#[local] Close Scope Z_scope.

Lemma length_xor_list l1 l2 : length (xor_list l1 l2) = min (length l1) (length l2).
Proof. apply length_zip_with. Qed.

Lemma groups_all {A} fuel n m (l : list A) :
  length l = m * n → m ≤ fuel → 0 < n → length (groups fuel n l) = m ∧ Forall (λ g, length g = n) (groups fuel n l).
Proof.
  revert m l. induction fuel as [|fuel IH]; intros m l Hl Hm Hn.
  { assert (m = 0) as -> by lia. done. }
  destruct l as [|x l].
  - simpl in *. split; [|done]. nia.
  - destruct m as [|m]; [done|]. change (length (x :: l) = n + m * n) in Hl. cbn [groups].
    destruct (IH m (drop n (x :: l))) as [H1 H2]; [rewrite length_drop; lia|lia|done|].
    split; [simpl; congruence|]. constructor; [|done]. rewrite length_take. lia.
Qed.

Definition word (w : list Z) : Prop := length w = 4.

Lemma word_end (ws : list (list Z)) :
  ws ≠ [] → Forall word ws → word (default [] (last ws)) ∧ word (default [] (head ws)).
Proof.
  intros Hne Hf. rewrite Forall_forall in Hf. split.
  - destruct (last ws) as [w|] eqn:Hl; [|by apply last_None in Hl]. by apply Hf, last_Some_elem_of.
  - destruct ws as [|w ws]; [done|]. apply Hf. by left.
Qed.

Lemma expand_words n i rcon ws :
  ws ≠ [] → Forall word ws → length (expand n i rcon ws) = n ∧ Forall word (expand n i rcon ws).
Proof.
  revert i rcon ws. induction n as [|n IH]; intros i rcon ws Hne Hf; [done|]. cbn [expand].
  destruct (word_end ws Hne Hf) as [Hl Hh].
  match goal with |- context [xor_list _ ?t] => set (w := xor_list (default [] (head ws)) t) end.
  assert (Hw : word w).
  { unfold w, word. rewrite length_xor_list, Hh. repeat case_match; rewrite ?length_xor_list, ?length_fmap, ?length_app,
      ?length_drop, ?length_take, Hl; done. }
  destruct (IH (i + 1)%Z (if Z.eqb (i `mod` 8) 0 then xtime rcon else rcon) (drop 1 ws ++ [w])) as [H1 H2].
  - by destruct (drop 1 ws).
  - apply Forall_app. split; [by apply Forall_drop|by constructor].
  - split; [simpl; congruence|by constructor].
Qed.

Lemma length_concat_words ws : Forall word ws → length (concat ws) = length ws * 4.
Proof. induction 1 as [|w ws Hw _ IH]; [done|]. simpl. rewrite length_app, Hw, IH. lia. Qed.

Lemma round_keys_spec key :
  length key = 32 → length (round_keys key) = 15 ∧ Forall (λ k, length k = 16) (round_keys key).
Proof.
  intros Hk. destruct (groups_all 8 4 8 key) as [Hn Hf]; [lia..|].
  assert (Hne : groups 8 4 key ≠ []) by (intros E; by rewrite E in Hn).
  destruct (expand_words 52 8 1 _ Hne Hf) as [Hm Hg]. unfold round_keys. revert Hm Hg.
  generalize (expand 52 8 1 (groups 8 4 key)). intros ws Hm Hg.
  apply groups_all; [|lia..]. rewrite length_concat_words by by apply Forall_app. rewrite length_app. lia.
Qed.

Lemma length_aes_rounds s keys :
  keys ≠ [] → Forall (λ k, length k = 16) keys → length (aes_rounds s keys) = 16.
Proof.
  revert s. induction keys as [|k [|k' keys] IH]; intros s Hne Hf; [done| |].
  - apply Forall_cons in Hf as [Hf _]. cbn [aes_rounds]. by rewrite length_xor_list, Hf.
  - apply Forall_cons in Hf as [_ Hf]. change (length (aes_rounds (xor_list (mix_columns (shift_rows (sub <$> s))) k)
      (k' :: keys)) = 16). by apply IH.
Qed.

Lemma length_aes_block key block : length key = 32 → length (aes_block (round_keys key) block) = 16.
Proof.
  intros (Hn & Hf)%round_keys_spec. destruct (round_keys key) as [|k keys]; [done|].
  apply Forall_cons in Hf as [_ Hf]. apply length_aes_rounds; [|done]. by destruct keys.
Qed.

Lemma length_tag key nonce c : length key = 32 → length (tag (round_keys key) nonce c) = tagSize.
Proof.
  intros Hk. unfold tag. rewrite length_fmap, length_xor_list, length_aes_block by done.
  unfold to_be. by rewrite length_fmap, length_be_bytes.
Qed.

Lemma length_add_stream l ks : length (add_stream l ks) = length l.
Proof. revert ks. induction l as [|c l IH]; intros [|k ks]; simpl; auto. Qed.

(** ** Sealing and opening *)
Lemma byte_z_range c : (0 ≤ byte_z c < 256)%Z.
Proof. unfold byte_z. pose proof (nat_ascii_bounded c). lia. Qed.

Lemma byte_z_byte z : byte_z (z_byte z) = (z `mod` 256)%Z.
Proof.
  unfold byte_z, z_byte. pose proof (Z.mod_pos_bound z 256).
  rewrite nat_ascii_embedding, Z2Nat.id by lia. done.
Qed.

Lemma z_byte_z c : z_byte (byte_z c) = c.
Proof.
  unfold z_byte. rewrite Z.mod_small by apply byte_z_range. unfold byte_z. rewrite Nat2Z.id. apply ascii_nat_embedding.
Qed.

Lemma xor_byte_invol c k : xor_byte (xor_byte c k) k = c.
Proof.
  unfold xor_byte. rewrite byte_z_byte. transitivity (z_byte (byte_z c)); [|apply z_byte_z].
  unfold z_byte. do 2 f_equal. change 256%Z with (2 ^ 8)%Z. apply Z.bits_inj'. intros n Hn.
  destruct (decide (n < 8)%Z).
  - rewrite !Z.mod_pow2_bits_low, Z.lxor_spec, Z.mod_pow2_bits_low, Z.lxor_spec by lia.
    by destruct (Z.testbit (byte_z c) n), (Z.testbit k n).
  - rewrite !Z.mod_pow2_bits_high by lia. done.
Qed.

Lemma add_stream_invol l ks : add_stream (add_stream l ks) ks = l.
Proof. revert ks. induction l as [|c l IH]; intros [|k ks]; simpl; [done..|]. by rewrite xor_byte_invol, IH. Qed.

Lemma ctr_invol keys nonce l : ctr keys nonce (ctr keys nonce l) = l.
Proof. unfold ctr. rewrite length_add_stream. apply add_stream_invol. Qed.

Lemma gcm_open_seal key nonce plaintext :
  length key = 32 → gcm_open key nonce (gcm_seal key nonce plaintext) = Some plaintext.
Proof.
  intros Hk. unfold gcm_open, gcm_seal.
  set (keys := round_keys (byte_z <$> key)). set (n := byte_z <$> nonce). set (c := ctr keys n plaintext).
  assert (Ht : length (tag keys n c) = tagSize) by (apply length_tag; by rewrite length_fmap).
  rewrite length_app, Ht, decide_False by lia. replace (length c + tagSize - tagSize) with (length c) by lia.
  rewrite take_app_length, drop_app_length, decide_True by done. f_equal. apply ctr_invol.
Qed.

(** What opens carries the tag of its own ciphertext under the key. *)
Lemma gcm_open_tagged key nonce ct p :
  gcm_open key nonce ct = Some p →
  ∃ c, ct = c ++ tag (round_keys (byte_z <$> key)) (byte_z <$> nonce) c ∧
    p = ctr (round_keys (byte_z <$> key)) (byte_z <$> nonce) c.
Proof.
  unfold gcm_open. case_decide; [done|]. case_decide as Ht; [|done]. intros [= <-].
  eexists. split; [|done]. rewrite <- Ht. symmetry. apply take_drop.
Qed.
