(* ===== verification/Credentials.v ===== *)
(** * Credentials of the dashboard

    [dashboard/internal/auth]: session tokens ([token.go]), recovery codes
    ([recovery.go]), the password policy ([password.go]) and the cipher that seals
    secrets at rest and challenge cookies ([cipher.go]).  Random bytes are a call
    of the surrounding program, so everything here holds for all of them; bcrypt
    and TOTP are calls too and appear with the handlers that make them.

    Base64 and the UTF-8 decoding of [range] loops follow the Go library. *)
From S2P Require Import Prelude Regex GoStrings Effects Sha256 AesGcm.
From Stdlib Require Import Ascii.

(** ** Base64 *)
Definition std_alphabet : list ascii :=
  bytes "ABCDEFGHIJKLMNOPQRSTUVWXYZabcdefghijklmnopqrstuvwxyz0123456789+/".
Definition url_alphabet : list ascii :=
  bytes "ABCDEFGHIJKLMNOPQRSTUVWXYZabcdefghijklmnopqrstuvwxyz0123456789-_".

Section base64.
Context (alphabet : list ascii).

Definition symbol (i : Z) : ascii := nth (Z.to_nat i) alphabet (byte 0).

(** [EncodeToString] without padding *)
Fixpoint raw_encode (l : list ascii) : list ascii :=
  match l with
  | [] => []
  | [a] => let a := byte_z a in [symbol (a `div` 4); symbol (a `mod` 4 * 16)]%Z
  | [a; b] =>
      let a := byte_z a in let b := byte_z b in
      [symbol (a `div` 4); symbol (a `mod` 4 * 16 + b `div` 16); symbol (b `mod` 16 * 4)]%Z
  | a :: b :: c :: l =>
      let a := byte_z a in let b := byte_z b in let c := byte_z c in
      [symbol (a `div` 4); symbol (a `mod` 4 * 16 + b `div` 16);
       symbol (b `mod` 16 * 4 + c `div` 64); symbol (c `mod` 64)]%Z ++ raw_encode l
  end.

Definition value (c : ascii) : option Z :=
  Z.of_nat <$> (fst <$> list_find (λ d, d = c) alphabet).

(** Sextets to bytes; the unused bits of a last partial group are ignored. *)
Fixpoint unpack (l : list Z) : option (list ascii) :=
  match l with
  | [] => Some []
  | [_] => None
  | [a; b] => Some [z_byte (a * 4 + b `div` 16)]%Z
  | [a; b; c] => Some [z_byte (a * 4 + b `div` 16); z_byte (b `mod` 16 * 16 + c `div` 4)]%Z
  | a :: b :: c :: d :: l =>
      rest ← unpack l;
      Some ([z_byte (a * 4 + b `div` 16); z_byte (b `mod` 16 * 16 + c `div` 4); z_byte (c `mod` 4 * 64 + d)]%Z ++ rest)
  end.

Definition no_newlines (l : list ascii) : list ascii := filter (λ c, c ≠ byte 10 ∧ c ≠ byte 13) l.

Definition raw_decode (l : list ascii) : option (list ascii) :=
  sextets ← mapM value (no_newlines l); unpack sextets.

(** [DecodeString] with padding *)
Definition padded_decode (l : list ascii) : option (list ascii) :=
  let l := no_newlines l in
  let '(body, padding) :=
    match rev l with
    | "="%char :: "="%char :: body => (rev body, 2)
    | "="%char :: body => (rev body, 1)
    | body => (rev body, 0)
    end in
  if decide ((length body + padding) mod 4 = 0) then raw_decode body else None.
End base64.

(** ** UTF-8 *)
Definition byte_range (lo hi : nat) (c : ascii) : bool := (lo <=? nat_of_ascii c) && (nat_of_ascii c <=? hi).
Definition continuation : ascii → bool := byte_range 128 191.

(** How many bytes the first rune takes, if the bytes are its encoding. *)
Definition rune_width (l : list ascii) : option nat :=
  match l with
  | [] => None
  | a :: l =>
      if byte_range 0 127 a then Some 1
      else match l with
      | [] => None
      | b :: l =>
          if byte_range 194 223 a && continuation b then Some 2
          else match l with
          | [] => None
          | c :: l =>
              if continuation c &&
                 (bool_decide (a = byte 224) && byte_range 160 191 b ||
                  (byte_range 225 236 a || byte_range 238 239 a) && continuation b ||
                  bool_decide (a = byte 237) && byte_range 128 159 b) then Some 3
              else match l with
              | [] => None
              | d :: _ =>
                  if continuation c && continuation d &&
                     (bool_decide (a = byte 240) && byte_range 144 191 b ||
                      byte_range 241 243 a && continuation b ||
                      bool_decide (a = byte 244) && byte_range 128 143 b) then Some 4
                  else None
              end
          end
      end
  end.

(** The runes of a [range] loop, re-encoded: a bad byte is U+FFFD. *)
Fixpoint runes (fuel : nat) (l : list ascii) : list (list ascii) :=
  match fuel, l with
  | O, _ | _, [] => []
  | S fuel, _ :: rest =>
      match rune_width l with
      | Some n => take n l :: runes fuel (drop n l)
      | None => [byte 239; byte 191; byte 189] :: runes fuel rest
      end
  end.

(** ** Tokens *)
Definition sessionTokenBytes : nat := 32.

Definition HashToken (raw : string) : string := EncodeToString (Sum256 (bytes raw)).

(** ** Passwords *)
Definition MinPasswordLength : nat := 12.

Inductive PasswordError : Type := ErrPasswordTooShort | ErrPasswordTooLong.

Definition ValidatePasswordPolicy (plain : string) : option PasswordError :=
  if len plain <? MinPasswordLength then Some ErrPasswordTooShort
  else if 72 <? len plain then Some ErrPasswordTooLong
  else None.

(** ** Recovery codes *)
Definition recoveryAlphabet : string := "ABCDEFGHJKMNPQRSTVWXYZ0123456789".
Definition recoveryGroups : nat := 4.
Definition recoveryGroupLen : nat := 4.

Section recovery.
Context `{UnicodeTables}.

Definition separators : list ascii := ["-"%char; " "%char; byte 9; byte 10; byte 13].

Definition normalizeRecoveryCode (code : string) : string :=
  let kept := filter (λ r, r ∉ (λ c, [c]) <$> separators) (runes (len code) (bytes code)) in
  ToUpper (of_bytes (concat kept)).

Definition HashRecoveryCode (code : string) : string :=
  EncodeToString (Sum256 (bytes (normalizeRecoveryCode code))).
End recovery.

Definition recovery_char (b : ascii) : ascii :=
  let alphabet := bytes recoveryAlphabet in
  nth (nat_of_ascii b mod length alphabet) alphabet (byte 0).

(** The code spelled by the random bytes [buf]. *)
Definition recovery_code (buf : list ascii) : string :=
  let chars := recovery_char <$> buf in
  Join ((λ g, of_bytes (take recoveryGroupLen (drop (g * recoveryGroupLen) chars))) <$> seq 0 recoveryGroups) "-".

Inductive CodeError : Type :=
| BadCount (n : Z)
| RandomFailed (err : string).

(** ** The cipher *)
Definition cipherVersion : string := "v1".
Definition aes256KeyLen : nat := 32.

Record Cipher : Type := { cipher_key : list ascii }.

Inductive KeyError : Type := KeyNotBase64 | KeyLength (n : nat).

Definition NewCipher (keyB64 : string) : result KeyError Cipher :=
  match padded_decode std_alphabet (bytes keyB64) with
  | None => Err KeyNotBase64
  | Some key => if decide (length key = aes256KeyLen) then Ok {| cipher_key := key |} else Err (KeyLength (length key))
  end.

Inductive OpenError : Type :=
| MissingVersion
| UnknownVersion (version : string)
| NotBase64
| TooShort
| NotAuthentic.

Definition Open (c : Cipher) (sealed : string) : result OpenError string :=
  match cut_byte ":" (bytes sealed) with
  | None => Err MissingVersion
  | Some (version, encoded) =>
      if decide (of_bytes version ≠ cipherVersion) then Err (UnknownVersion (of_bytes version))
      else match raw_decode std_alphabet encoded with
      | None => Err NotBase64
      | Some raw =>
          if length raw <? NonceSize then Err TooShort
          else match gcm_open (cipher_key c) (take NonceSize raw) (drop NonceSize raw) with
          | None => Err NotAuthentic
          | Some plaintext => Ok (of_bytes plaintext)
          end
      end
  end.

(** The text [Seal] returns for a nonce. *)
Definition sealed_with (c : Cipher) (nonce : list ascii) (plaintext : string) : string :=
  cipherVersion +:+ ":" +:+
  of_bytes (raw_encode std_alphabet (nonce ++ gcm_seal (cipher_key c) nonce (bytes plaintext))).

(** ** Drawing random bytes *)
Section random.
Context {E : Set → Type} (rand : nat → prog E (result string (list ascii))).
Context `{UnicodeTables}.

(** [buf := make([]byte, n); rand.Read(buf)]: the buffer has [n] bytes whatever was read. *)
Definition random_bytes (n : nat) : prog E (result string (list ascii)) :=
  let! r := rand n in
  Ret (map_ok (resize n (byte 0)) r).

Definition NewSessionToken : prog E (result string (string * string)) :=
  let! buf := random_bytes sessionTokenBytes in
  Ret (map_ok (λ buf, let raw := of_bytes (raw_encode url_alphabet buf) in (raw, HashToken raw)) buf).

Definition newRecoveryCode : prog E (result string string) :=
  let! buf := random_bytes (recoveryGroups * recoveryGroupLen) in
  Ret (map_ok recovery_code buf).

Fixpoint recovery_loop (n : nat) (plaintext hashes : list string) : prog E (result CodeError (list string * list string)) :=
  match n with
  | O => Ret (Ok (plaintext, hashes))
  | S n =>
      let! code := newRecoveryCode in
      match code with
      | Err e => Ret (Err (RandomFailed e))
      | Ok code => recovery_loop n (plaintext ++ [code]) (hashes ++ [HashRecoveryCode code])
      end
  end.

Definition GenerateRecoveryCodes (n : Z) : prog E (result CodeError (list string * list string)) :=
  if decide (n ≤ 0)%Z then Ret (Err (BadCount n)) else recovery_loop (Z.to_nat n) [] [].

Definition Seal (c : Cipher) (plaintext : string) : prog E (result string string) :=
  let! nonce := random_bytes NonceSize in
  Ret (map_ok (λ nonce, sealed_with c nonce plaintext) nonce).
End random.

(** ** Base64 round trip *)
Lemma std_symbols : Forall (λ i, value std_alphabet (symbol std_alphabet (Z.of_nat i)) = Some (Z.of_nat i) ∧
  symbol std_alphabet (Z.of_nat i) ≠ byte 10 ∧ symbol std_alphabet (Z.of_nat i) ≠ byte 13) (seq 0 64).
Proof. repeat (constructor; [vm_compute; split_and!; congruence|]). constructor. Qed.

Lemma std_symbol i : (0 ≤ i < 64)%Z →
  value std_alphabet (symbol std_alphabet i) = Some i ∧
  symbol std_alphabet i ≠ byte 10 ∧ symbol std_alphabet i ≠ byte 13.
Proof.
  intros Hi. pose proof std_symbols as Hs. rewrite Forall_forall in Hs.
  specialize (Hs (Z.to_nat i)). rewrite Z2Nat.id in Hs by lia. apply Hs. apply elem_of_seq. lia.
Qed.

(** The sextets of an encoding. *)
Fixpoint sextets (l : list ascii) : list Z :=
  match l with
  | [] => []
  | [a] => let a := byte_z a in [a `div` 4; a `mod` 4 * 16]%Z
  | [a; b] => let a := byte_z a in let b := byte_z b in [a `div` 4; a `mod` 4 * 16 + b `div` 16; b `mod` 16 * 4]%Z
  | a :: b :: c :: l =>
      let a := byte_z a in let b := byte_z b in let c := byte_z c in
      [a `div` 4; a `mod` 4 * 16 + b `div` 16; b `mod` 16 * 4 + c `div` 64; c `mod` 64]%Z ++ sextets l
  end.

(** Induction three bytes at a time, the way the coder goes. *)
Lemma three_ind (P : list ascii → Prop) :
  P [] → (∀ a, P [a]) → (∀ a b, P [a; b]) → (∀ a b c l, P l → P (a :: b :: c :: l)) → ∀ l, P l.
Proof.
  intros H0 H1 H2 H3 l. enough (P l ∧ (∀ a, P (a :: l)) ∧ ∀ a b, P (a :: b :: l)) by tauto.
  induction l as [|c l (IH0 & IH1 & IH2)]; split_and!; eauto.
Qed.

Lemma raw_encode_sextets alphabet l : raw_encode alphabet l = symbol alphabet <$> sextets l.
Proof.
  induction l as [|a|a b|a b c l IH] using three_ind; [done..|].
  change (sextets (a :: b :: c :: l)) with
    ([byte_z a `div` 4; byte_z a `mod` 4 * 16 + byte_z b `div` 16; byte_z b `mod` 16 * 4 + byte_z c `div` 64;
      byte_z c `mod` 64]%Z ++ sextets l).
  rewrite fmap_app, <- IH. done.
Qed.

Ltac Zify.zify_post_hook ::= Z.div_mod_to_equations.

Lemma sextets_range l : Forall (λ i, 0 ≤ i < 64)%Z (sextets l).
Proof.
  induction l as [|a|a b|a b c l IH] using three_ind; cbn -[Z.div Z.modulo Z.mul];
    try pose proof (byte_z_range a); try pose proof (byte_z_range b); try pose proof (byte_z_range c);
    repeat (constructor; [lia|]); done || constructor.
Qed.

Lemma z_byte_eq z c : z = byte_z c → z_byte z = c.
Proof. intros ->. apply z_byte_z. Qed.

Lemma unpack_sextets l : unpack (sextets l) = Some l.
Proof.
  induction l as [|a|a b|a b c l IH] using three_ind; cbn -[Z.div Z.modulo Z.mul Z.add z_byte]; [done|..];
    try pose proof (byte_z_range a); try pose proof (byte_z_range b); try pose proof (byte_z_range c).
  - do 2 f_equal. apply z_byte_eq. lia.
  - repeat f_equal; apply z_byte_eq; lia.
  - rewrite IH. cbn -[Z.div Z.modulo Z.mul Z.add z_byte]. repeat f_equal; apply z_byte_eq; lia.
Qed.

Lemma no_newlines_id l : Forall (λ c, c ≠ byte 10 ∧ c ≠ byte 13) l → no_newlines l = l.
Proof. induction 1 as [|c l Hc _ IH]; [done|]. unfold no_newlines in *. by rewrite filter_cons_True, IH. Qed.

Lemma raw_decode_encode l : raw_decode std_alphabet (raw_encode std_alphabet l) = Some l.
Proof.
  unfold raw_decode. rewrite raw_encode_sextets. pose proof (sextets_range l) as Hr.
  rewrite no_newlines_id.
  2:{ apply Forall_fmap. eapply Forall_impl; [exact Hr|]. intros i Hi. by apply std_symbol. }
  replace (mapM (value std_alphabet) (symbol std_alphabet <$> sextets l)) with (Some (sextets l)).
  - apply unpack_sextets.
  - symmetry. apply mapM_Some. induction Hr as [|i l6 Hi _ IH]; [constructor|]. constructor; [by apply std_symbol|done].
Qed.

(** ** The cipher opens what it seals *)
Lemma Open_sealed_with c nonce plaintext :
  length (cipher_key c) = aes256KeyLen → length nonce = NonceSize → Open c (sealed_with c nonce plaintext) = Ok plaintext.
Proof.
  intros Hk Hn. unfold Open, sealed_with.
  set (raw := nonce ++ gcm_seal (cipher_key c) nonce (bytes plaintext)).
  rewrite !bytes_app, bytes_of_bytes. 
  change (bytes cipherVersion ++ (bytes ":" ++ ?x)) with ("v"%char :: ("1"%char :: (":"%char :: x))).
  change (cut_byte ":" (_ :: (_ :: (_ :: ?x)))) with (Some (bytes cipherVersion, x)). cbv beta iota.
  rewrite of_bytes_bytes, decide_False, raw_decode_encode by (intros Hv; by apply Hv). cbv beta iota.
  assert (Hlen : (length raw <? NonceSize) = false) by (apply Nat.ltb_ge; unfold raw; rewrite length_app; lia).
  rewrite Hlen. unfold raw. rewrite <- Hn, take_app_length, drop_app_length, gcm_open_seal by done.
  by rewrite of_bytes_bytes.
Qed.

Lemma NewCipher_Ok key c : NewCipher key = Ok c → length (cipher_key c) = aes256KeyLen.
Proof. unfold NewCipher. destruct (padded_decode _ _); [|done]. case_decide; [|done]. by intros [= <-]. Qed.

(** ** Random bytes *)
Section random_exec.
Context {E : Set → Type} (rand : nat → prog E (result string (list ascii))) `{UnicodeTables}.

Lemma random_bytes_length n tr buf : exec (random_bytes rand n) tr (Ok buf) → length buf = n.
Proof.
  intros (tr1 & tr2 & [r|e] & _ & _ & [_ [= ->]])%exec_bind. apply length_resize.
Qed.

Lemma Seal_Ok c plaintext tr sealed :
  exec (Seal rand c plaintext) tr (Ok sealed) →
  ∃ nonce, length nonce = NonceSize ∧ sealed = sealed_with c nonce plaintext.
Proof.
  intros (tr1 & tr2 & [nonce|e] & _ & Hn & [_ [= ->]])%exec_bind. apply random_bytes_length in Hn. by exists nonce.
Qed.

Lemma NewSessionToken_Ok tr raw hash : exec (NewSessionToken rand) tr (Ok (raw, hash)) → hash = HashToken raw.
Proof. intros (tr1 & tr2 & [buf|e] & _ & _ & [_ [= -> ->]])%exec_bind. done. Qed.

Lemma recovery_loop_Ok n ps hs tr codes hashes :
  exec (recovery_loop rand n ps hs) tr (Ok (codes, hashes)) →
  ∃ bufs, length bufs = n ∧ Forall (λ buf, length buf = recoveryGroups * recoveryGroupLen) bufs ∧
    codes = ps ++ (recovery_code <$> bufs) ∧ hashes = hs ++ (HashRecoveryCode ∘ recovery_code <$> bufs).
Proof.
  revert ps hs tr. induction n as [|n IH]; intros ps hs tr.
  { intros [_ [= -> ->]]. exists []. by rewrite !app_nil_r. }
  intros (tr1 & tr2 & code & _ & Hc & Hk)%exec_bind. destruct code as [code|e]; [|by destruct Hk].
  apply exec_bind in Hc as (tr3 & tr4 & [buf|e] & _ & Hb & [_ [= ->]]). apply random_bytes_length in Hb.
  apply IH in Hk as (bufs & Hn & Hf & -> & ->). exists (buf :: bufs).
  split_and!; [simpl; congruence|by constructor|by rewrite <- app_assoc..].
Qed.
End random_exec.

(** ** Recovery codes as typed *)
Section typed.
Context `{UnicodeTables}.

(** What of ASCII text counts: everything but separators, in upper case. *)
Definition canonical (l : list ascii) : list ascii := upper_ascii <$> filter (.∉ separators) l.

Lemma runes_ascii fuel l :
  length l ≤ fuel → Forall (λ c, nat_of_ascii c < 128) l → runes fuel l = (λ c, [c]) <$> l.
Proof.
  revert l. induction fuel as [|fuel IH]; intros l Hl Hf; [by destruct l; simpl in *; [|lia]|].
  destruct l as [|c l]; [done|]. apply Forall_cons in Hf as [Hc Hf]. simpl in Hl.
  assert (Hw : rune_width (c :: l) = Some 1).
  { unfold rune_width, byte_range. by replace (nat_of_ascii c <=? 127) with true by (symmetry; apply Nat.leb_le; lia). }
  cbn [runes]. rewrite Hw. cbn. rewrite drop_0, IH by (done || lia). done.
Qed.

Lemma filter_singletons (l : list ascii) (seps : list ascii) :
  concat (filter (λ r, r ∉ (λ c, [c]) <$> seps) ((λ c, [c]) <$> l)) = filter (.∉ seps) l.
Proof.
  induction l as [|c l IH]; [done|]. cbn [fmap list_fmap]. rewrite !filter_cons.
  assert (Hs : [c] ∈ (λ c, [c]) <$> seps ↔ c ∈ seps) by (rewrite list_elem_of_fmap; naive_solver).
  destruct (decide (c ∈ seps)) as [Hc|Hc].
  - by rewrite !decide_False by (rewrite ?Hs; naive_solver).
  - rewrite !decide_True by by rewrite ?Hs. simpl. by rewrite IH.
Qed.

Lemma normalize_ascii code :
  is_ascii code = true → normalizeRecoveryCode code = of_bytes (canonical (bytes code)).
Proof.
  intros Ha. pose proof Ha as Hf. apply is_ascii_Forall in Hf. unfold normalizeRecoveryCode.
  rewrite runes_ascii, filter_singletons by (done || by rewrite len_bytes).
  unfold ToUpper. rewrite bytes_of_bytes.
  assert (Hk : is_ascii (of_bytes (filter (.∉ separators) (bytes code))) = true).
  { apply is_ascii_Forall. rewrite bytes_of_bytes. rewrite Forall_forall in Hf |- *.
    intros c [_ Hc]%list_elem_of_filter. by apply Hf. }
  by rewrite Hk.
Qed.

Definition plain_symbol (c : ascii) : Prop := nat_of_ascii c < 128 ∧ upper_ascii c = c ∧ c ∉ separators.
#[local] Instance plain_symbol_dec c : Decision (plain_symbol c) := ltac:(unfold plain_symbol; apply _).

Lemma recovery_symbols : Forall plain_symbol (bytes recoveryAlphabet).
Proof. apply (bool_decide_unpack _). vm_compute. done. Qed.

Lemma recovery_char_plain b : plain_symbol (recovery_char b).
Proof.
  pose proof recovery_symbols as Hs. rewrite Forall_forall in Hs. apply Hs. unfold recovery_char.
  apply list_elem_of_In, nth_In. apply Nat.mod_upper_bound. done.
Qed.

Lemma canonical_plain l : Forall plain_symbol l → canonical l = l.
Proof.
  unfold canonical. induction 1 as [|c l (_ & Hu & Hs) _ IH]; [done|].
  rewrite filter_cons_True by done. cbn. by rewrite Hu, IH.
Qed.

Lemma canonical_app l1 l2 : canonical (l1 ++ l2) = canonical l1 ++ canonical l2.
Proof. unfold canonical. by rewrite filter_app, fmap_app. Qed.

(** A code is its symbols with dashes in between. *)
Lemma recovery_code_bytes buf :
  length buf = recoveryGroups * recoveryGroupLen →
  ∃ g1 g2 g3 g4, recovery_char <$> buf = g1 ++ g2 ++ g3 ++ g4 ∧
    Forall (λ g, length g = recoveryGroupLen) [g1; g2; g3; g4] ∧
    bytes (recovery_code buf) = g1 ++ ["-"%char] ++ g2 ++ ["-"%char] ++ g3 ++ ["-"%char] ++ g4.
Proof.
  intros Hn. set (l := recovery_char <$> buf). assert (Hl : length l = 16) by (unfold l; by rewrite length_fmap).
  exists (take 4 l), (take 4 (drop 4 l)), (take 4 (drop 8 l)), (take 4 (drop 12 l)). split_and!.
  - rewrite <- (take_drop 4 l) at 1. f_equal. rewrite <- (take_drop 4 (drop 4 l)) at 1. f_equal.
    rewrite drop_drop. rewrite <- (take_drop 4 (drop (4 + 4) l)) at 1. f_equal. rewrite drop_drop.
    rewrite take_ge; [done|]. rewrite length_drop. simpl. lia.
  - repeat constructor; rewrite length_take, ?length_drop, Hl; done.
  - unfold recovery_code. fold l. cbn -[take drop bytes]. rewrite !bytes_app, !bytes_of_bytes, drop_0. done.
Qed.

Lemma canonical_code buf :
  length buf = recoveryGroups * recoveryGroupLen →
  is_ascii (recovery_code buf) = true ∧ canonical (bytes (recovery_code buf)) = recovery_char <$> buf.
Proof.
  intros Hn. assert (Hp : Forall plain_symbol (recovery_char <$> buf)).
  { apply Forall_fmap, Forall_true. intros b. apply recovery_char_plain. }
  destruct (recovery_code_bytes buf Hn) as (g1 & g2 & g3 & g4 & E & _ & Hb). rewrite E in *.
  rewrite !Forall_app in Hp. destruct Hp as (H1 & H2 & H3 & H4). split.
  - assert (Hd : Forall (λ c, nat_of_ascii c < 128) ["-"%char]) by by repeat constructor.
    apply is_ascii_Forall. rewrite Hb, !Forall_app. unfold plain_symbol in *.
    split_and!; try done; (eapply Forall_impl; [eassumption|naive_solver]).
  - rewrite Hb, !canonical_app. change (canonical ["-"%char]) with ([] : list ascii).
    by rewrite !canonical_plain.
Qed.
End typed.

(** ** Properties *)
Definition all_bytes : list ascii := byte <$> seq 0 256.

(** Sealing is lossless and opening is checked: a blob sealed under any key the
    constructor accepts, with whatever nonce was drawn, opens to the text that was
    sealed; and whatever opens is a version-1 blob whose GCM tag is the one of its
    ciphertext under that key, so nothing is returned for altered or truncated
    data. *)
Theorem Cipher_seals {E} (rand : nat → prog E (result string (list ascii))) keyB64 c :
  NewCipher keyB64 = Ok c →
  (∀ plaintext tr sealed, exec (Seal rand c plaintext) tr (Ok sealed) → Open c sealed = Ok plaintext) ∧
  (∀ sealed plaintext, Open c sealed = Ok plaintext →
    ∃ encoded nonce ct, bytes sealed = bytes "v1:" ++ encoded ∧ length nonce = NonceSize ∧
      let keys := round_keys (byte_z <$> cipher_key c) in
      raw_decode std_alphabet encoded = Some (nonce ++ ct ++ tag keys (byte_z <$> nonce) ct) ∧
      plaintext = of_bytes (ctr keys (byte_z <$> nonce) ct)).
Proof.
  intros Hk%NewCipher_Ok. split.
  - intros plaintext tr sealed (nonce & Hn & ->)%Seal_Ok. by apply Open_sealed_with.
  - intros sealed plaintext Ho. unfold Open in Ho.
    destruct (cut_byte ":" (bytes sealed)) as [[version encoded]|] eqn:Hc; [|done].
    case_decide as Hv; [done|].
    destruct (raw_decode std_alphabet encoded) as [raw|] eqn:Hr; [|done].
    destruct (length raw <? NonceSize) eqn:Hl; [done|]. apply Nat.ltb_ge in Hl.
    destruct (gcm_open _ _ _) as [p|] eqn:Hg; [|done]. injection Ho as <-.
    apply gcm_open_tagged in Hg as (ct & Hct & ->). exists encoded, (take NonceSize raw), ct. split_and!.
    + apply cut_byte_spec in Hc. rewrite Hc, <- (bytes_of_bytes version), Hv. done.
    + rewrite length_take. lia.
    + cbv zeta. rewrite Hr, <- Hct, take_drop. done.
Qed.

(** Recovery codes keep their entropy and survive typing: [n] codes come with
    their hashes in order; each is spelled by 16 random bytes, any of the 32 symbols
    standing for exactly 8 byte values; and typing a code in any case, with or
    without dashes and blanks, gives the stored hash. *)
Theorem recovery_codes_usable `{UnicodeTables} {E} (rand : nat → prog E (result string (list ascii))) n tr codes hashes :
  exec (GenerateRecoveryCodes rand n) tr (Ok (codes, hashes)) →
  Z.of_nat (length codes) = n ∧ hashes = HashRecoveryCode <$> codes ∧
  (∀ code, code ∈ codes → ∃ buf, length buf = 16 ∧ code = recovery_code buf ∧
    ∀ typed, is_ascii typed = true → canonical (bytes typed) = recovery_char <$> buf →
      HashRecoveryCode typed = HashRecoveryCode code) ∧
  length (bytes recoveryAlphabet) = 32 ∧ NoDup (bytes recoveryAlphabet) ∧
  ∀ c, c ∈ bytes recoveryAlphabet → length (filter (λ b, recovery_char b = c) all_bytes) = 8.
Proof.
  unfold GenerateRecoveryCodes. case_decide as Hn; [by intros [_ [=]]|].
  intros (bufs & Hlen & Hf & -> & ->)%recovery_loop_Ok. split_and!.
  - rewrite app_nil_l, length_fmap. lia.
  - by rewrite !app_nil_l, list_fmap_compose.
  - rewrite app_nil_l. intros code (buf & -> & Hin)%list_elem_of_fmap. rewrite Forall_forall in Hf.
    pose proof (Hf _ Hin) as Hb. exists buf. split_and!; [done..|]. intros typed Ha Ht.
    destruct (canonical_code buf Hb) as [Hc E']. unfold HashRecoveryCode.
    by rewrite !normalize_ascii, Ht, E' by done.
  - done.
  - apply (bool_decide_unpack _). vm_compute. done.
  - intros c. revert c. apply Forall_forall, (bool_decide_unpack _). vm_compute. done.
Qed.

(** ** A worked example *)
Module CredentialsExample.
#[local] Instance tables : UnicodeTables := ascii_tables.
Inductive RandE : Set → Type := RandRead (n : nat) : RandE (result string (list ascii)).
Definition rand (n : nat) : prog RandE (result string (list ascii)) := trigger (RandRead n).

(** A counter in place of the random source. *)
Definition source (X : Set) (e : RandE X) (s : nat) : X * nat :=
  match e in RandE X return X * nat with
  | RandRead n => (Ok (byte <$> seq s n), s + n)
  end.

Definition key : string := "AAECAwQFBgcICQoLDA0ODxAREhMUFRYXGBkaGxwdHh8=".
Definition cipher : Cipher := {| cipher_key := byte <$> seq 0 32 |}.
Definition sealing := run source (Seal rand cipher "otp seed") 100.
Definition sealed : string := match sealing.1.1 with Ok s => s | Err _ => "" end.
Definition generating := run source (GenerateRecoveryCodes rand 2) 7.
Definition code : string := "HJKM-NPQR-STVW-XYZ0".
End CredentialsExample.

Lemma Cipher_seals_witness :
  NewCipher CredentialsExample.key = Ok CredentialsExample.cipher ∧
  Open CredentialsExample.cipher CredentialsExample.sealed = Ok "otp seed".
Proof.
  assert (Hk : NewCipher CredentialsExample.key = Ok CredentialsExample.cipher) by (vm_compute; reflexivity).
  split; [exact Hk|].
  apply (proj1 (Cipher_seals CredentialsExample.rand _ _ Hk) "otp seed" CredentialsExample.sealing.1.2).
  assert (Hs : CredentialsExample.sealing.1.1 = Ok CredentialsExample.sealed) by (vm_compute; reflexivity).
  rewrite <- Hs. apply (run_exec CredentialsExample.source).
Defined.

Lemma recovery_codes_usable_witness :
  CredentialsExample.generating.1.1 = Ok ([CredentialsExample.code; "1234-5678-9ABC-DEFG"],
    [@HashRecoveryCode ascii_tables CredentialsExample.code; @HashRecoveryCode ascii_tables "1234-5678-9ABC-DEFG"]) ∧
  @HashRecoveryCode ascii_tables "hjkm npqr stvw xyz0" = @HashRecoveryCode ascii_tables CredentialsExample.code.
Proof.
  assert (Hg : CredentialsExample.generating.1.1 = Ok ([CredentialsExample.code; "1234-5678-9ABC-DEFG"],
    [@HashRecoveryCode ascii_tables CredentialsExample.code; @HashRecoveryCode ascii_tables "1234-5678-9ABC-DEFG"]))
    by (vm_compute; reflexivity).
  split; [exact Hg|].
  pose proof (run_exec CredentialsExample.source (@GenerateRecoveryCodes CredentialsExample.RandE
    CredentialsExample.rand ascii_tables 2) 7) as He.
  change (run _ _ _) with CredentialsExample.generating in He. rewrite Hg in He.
  destruct (@recovery_codes_usable ascii_tables _ CredentialsExample.rand _ _ _ _ He) as (_ & _ & Hc & _).
  destruct (Hc CredentialsExample.code (list_elem_of_here _ _)) as (buf & Hn & Hb & Ht).
  apply Ht; [vm_compute; reflexivity|].
  destruct (canonical_code buf Hn) as [_ <-]. rewrite <- Hb. vm_compute. reflexivity.
Defined.
