(* ===== verification/Session.v ===== *)
(** * Sessions of the dashboard

    [dashboard/internal/server/session.go], with the pieces of [auth.go] and
    [store.go] every handler shares: the calls to the store, the clock, bcrypt,
    TOTP, the IdP and the random source ([AuthE]), requests and responses, cookies and the
    audit log.  Replies are arbitrary, so the theorems hold for every database
    content and every error; log lines are left out. *)
From S2P Require Import Prelude GoStrings Effects Sha256 RateLimit OidcIdentity AesGcm Credentials.
From Stdlib Require Import Ascii.

(** ** Rows and calls *)
Abbreviation Timestamptz := (option Z).

Record User : Set := {
  user_ID : Z;
  user_Username : string;
  user_PasswordHash : string;
  user_TotpSecret : string;
  user_TotpConfirmedAt : Timestamptz;
  user_FailedLogins : Z;
  user_LockedUntil : Timestamptz;
  user_OidcIssuer : option string;
  user_OidcSubject : option string;
  user_CreatedAt : Timestamptz;
  user_UpdatedAt : Timestamptz;
}.

Record Session : Set := {
  sess_TokenHash : string;
  sess_UserID : Z;
  sess_CreatedAt : Timestamptz;
  sess_ExpiresAt : Timestamptz;
  sess_LastUsedAt : Timestamptz;
  sess_ReauthAt : Timestamptz;
}.

Inductive DbError : Set :=
| ErrNoRows
| PgError (code : string)
| DbFailure (text : string).

(** The JSON values of response bodies and audit details. *)
Inductive Value : Type := VString (s : string) | VBool (b : bool) | VStrings (l : list string) | VInt (n : Z).

Record CreateSessionParams : Type := { cs_TokenHash : string; cs_UserID : Z; cs_ExpiresAt : Timestamptz }.
Record AppendAuditEntryParams : Type := {
  audit_Actor : string;
  audit_Action : string;
  audit_Target : string;
  audit_Outcome : string;
  (** the object [detail] is the JSON of *)
  audit_Detail : gmap string Value;
}.
Record CreateAdminParams : Type := {
  ca_Username : string;
  ca_PasswordHash : string;
  ca_SealedTOTPSecret : string;
  ca_RecoveryCodeHashes : list string;
}.

Record CreateOIDCUserParams : Type := { co_Username : string; co_Issuer : string; co_Subject : string }.

(** A verified ID token, its claims as the lookup in the decoded object. *)
Record IDToken : Set := { tok_Nonce : string; tok_Subject : string; tok_Claims : result string (string → Json) }.

Inductive AuthE : Set → Type :=
| Now : AuthE Z
| RandRead (n : nat) : AuthE (result string (list ascii))
| HashPassword (plain : string) : AuthE (result string string)
| VerifyPassword (hash plain : string) : AuthE bool
| GenerateTOTP (issuer account : string) : AuthE (result string (string * string))
| ValidateTOTP (secret code : string) : AuthE bool
| CountConfirmedAdmins : AuthE (result DbError Z)
| GetUserByUsername (username : string) : AuthE (result DbError User)
| GetUserByID (id : Z) : AuthE (result DbError User)
| ConfirmUserTOTP (id : Z) : AuthE (result DbError unit)
| IncrementFailedLogins (id : Z) : AuthE (result DbError Z)
| LockUser (id : Z) (until : Timestamptz) : AuthE (result DbError unit)
| ResetFailedLogins (id : Z) : AuthE (result DbError unit)
| CreateSession (arg : CreateSessionParams) : AuthE (result DbError unit)
| GetSession (tokenHash : string) : AuthE (result DbError Session)
| TouchSession (tokenHash : string) : AuthE (result DbError unit)
| DeleteSession (tokenHash : string) : AuthE (result DbError unit)
| MarkSessionReauth (tokenHash : string) : AuthE (result DbError unit)
| ConsumeRecoveryCode (userID : Z) (codeHash : string) : AuthE (result DbError Z)
| AppendAuditEntry (arg : AppendAuditEntryParams) : AuthE (result DbError unit)
(** the reply is the ID of the created row *)
| CreateAdmin (arg : CreateAdminParams) : AuthE (result DbError Z)
| GetUserByOIDC (issuer subject : string) : AuthE (result DbError User)
| CreateOIDCUser (arg : CreateOIDCUserParams) : AuthE (result DbError User)
(** [oauth2.GenerateVerifier] *)
| GenerateVerifier : AuthE string
(** the token response's [id_token], if it has one *)
| OAuthExchange (code verifier : string) : AuthE (result string (option string))
(** signature, issuer, audience and expiry *)
| VerifyIDToken (raw : string) : AuthE (result string IDToken).

Definition rand (n : nat) : prog AuthE (result string (list ascii)) := trigger (RandRead n).

(** ** HTTP *)
Record Request : Type := {
  req_Cookies : list (string * string);
  req_RemoteAddr : string;
  req_TLS : bool;
  req_ForwardedProto : string;
  req_Query : list (string * string);
  req_Body : list ascii;
}.

Record Cookie : Type := {
  ck_Name : string;
  ck_Value : string;
  ck_Path : string;
  ck_HttpOnly : bool;
  ck_Secure : bool;
  ck_SameSiteStrict : bool;
  ck_MaxAge : Z;
}.

Inductive Body : Type := NoBody | Object (fields : list (string * Value)) | Location (target : string).

Record Response : Type := {
  resp_Status : Z;
  resp_Cookies : list Cookie;
  resp_Body : Body;
}.

Definition writeJSON (cookies : list Cookie) (status : Z) (fields : list (string * Value)) : Response :=
  {| resp_Status := status; resp_Cookies := cookies; resp_Body := Object fields |}.
Definition writeJSONError (cookies : list Cookie) (status : Z) (code : string) : Response :=
  writeJSON cookies status [("error", VString code)].
Definition writeHeader (cookies : list Cookie) (status : Z) : Response :=
  {| resp_Status := status; resp_Cookies := cookies; resp_Body := NoBody |}.

(** [http.Redirect(w, r, target, http.StatusFound)] *)
Definition Redirect (cookies : list Cookie) (target : string) : Response :=
  {| resp_Status := 302; resp_Cookies := cookies; resp_Body := Location target |}.

(** [r.URL.Query().Get(key)]: the first value, or the empty string *)
Definition query (r : Request) (key : string) : string :=
  default "" ((λ p, p.2.2) <$> list_find (λ p, p.1 = key) (req_Query r)).

(** [r.Cookie(name)]: the value of the first cookie of that name *)
Definition cookie (r : Request) (name : string) : option string :=
  (λ c, c.2.2) <$> list_find (λ c, c.1 = name) (req_Cookies r).

(** [c, err := r.Cookie(name)] with [err == nil && c.Value != ""] *)
Definition cookie_value (r : Request) (name : string) : option string :=
  match cookie r name with
  | Some v => if decide (v = "") then None else Some v
  | None => None
  end.

Definition isHTTPS (r : Request) : bool := req_TLS r || bool_decide (req_ForwardedProto r = "https").

(** ** Lifetimes *)
Definition sessionTTL : Z := 12 * Hour.
Definition stepUpFreshness : Z := 5 * Minute.
Definition sessionCookie : string := "orkano_session".

Record sessionUser : Type := { su_ID : Z; su_Username : string; su_OIDC : bool }.

(** [t.Unix()] of an instant in nanoseconds *)
Definition Unix (t : Z) : Z := (t `div` Second)%Z.

(** What the handlers use of the server's configuration; [OIDC] is the configuration of
    the authenticator, when there is one. *)
Record Server : Type := {
  srv_Cipher : Cipher;
  srv_BootstrapTokenHash : string;
  srv_OIDC : option Config;
  dummyPasswordHash : string;
}.

(** ** Cookies *)
Definition strict_cookie (r : Request) (name value : string) (maxAge : Z) : Cookie :=
  {| ck_Name := name; ck_Value := value; ck_Path := "/"; ck_HttpOnly := true;
     ck_Secure := isHTTPS r; ck_SameSiteStrict := true; ck_MaxAge := maxAge |}.

Definition setSessionCookie (r : Request) (raw : string) : Cookie :=
  strict_cookie r sessionCookie raw (sessionTTL `quot` Second).
Definition clearCookie (r : Request) (name : string) : Cookie := strict_cookie r name "" (-1).

(** ** Audit *)
Definition auditDetail (actor action target outcome : string) (r : Request) (extra : gmap string Value)
    : prog AuthE unit :=
  let! _ := trigger (AppendAuditEntry
    {| audit_Actor := if decide (actor = "") then "anonymous" else actor; audit_Action := action;
       audit_Target := target; audit_Outcome := outcome;
       audit_Detail := extra ∪ {["ip" := VString (clientIP (req_RemoteAddr r))]} |}) in
  Ret tt.

Definition audit (actor action target outcome : string) (r : Request) : prog AuthE unit :=
  auditDetail actor action target outcome r ∅.

(** ** Sessions *)
Inductive MintError : Type := TokenFailed (err : string) | StoreFailed (err : DbError).

Definition mintSession (userID : Z) : prog AuthE (result MintError string) :=
  let! token := NewSessionToken rand in
  match token with
  | Err e => Ret (Err (TokenFailed e))
  | Ok (raw, hash) =>
      let! now := trigger Now in
      let! w := trigger (CreateSession
        {| cs_TokenHash := hash; cs_UserID := userID; cs_ExpiresAt := Some (now + sessionTTL)%Z |}) in
      Ret (match w with Ok _ => Ok raw | Err e => Err (StoreFailed e) end)
  end.

(** The identity and the session row, if the request carries a live session. *)
Definition resolveSession (r : Request) : prog AuthE (option (sessionUser * Session)) :=
  match cookie_value r sessionCookie with
  | None => Ret None
  | Some v =>
      let hash := HashToken v in
      let! g := trigger (GetSession hash) in
      match g with
      | Err _ => Ret None
      | Ok sess =>
          let! u := trigger (GetUserByID (sess_UserID sess)) in
          match u with
          | Err _ => Ret None
          | Ok user =>
              if negb (has (user_TotpConfirmedAt user)) && negb (has (user_OidcSubject user)) then Ret None
              else
                let! _ := trigger (TouchSession hash) in
                Ret (Some ({| su_ID := user_ID user; su_Username := user_Username user;
                              su_OIDC := has (user_OidcSubject user) |}, sess))
          end
      end
  end.

(** The two gates, over the calls of the server they guard: what resolves the session,
    what refuses, and the handler behind. *)
Section gates.
Context {E : Set → Type} {R : Type} (refuse : Response → R).

Definition session_gate (resolve : prog E (option (sessionUser * Session))) (next : sessionUser → prog E R) : prog E R :=
  let! s := resolve in
  match s with
  | None => Ret (refuse (writeJSONError [] 401 "unauthorized"))
  | Some (user, _) => next user
  end.

Definition step_gate (resolve : prog E (option (sessionUser * Session))) (clock : prog E Z)
    (next : sessionUser → prog E R) : prog E R :=
  let! s := resolve in
  match s with
  | None => Ret (refuse (writeJSONError [] 401 "unauthorized"))
  | Some (user, sess) =>
      match sess_ReauthAt sess with
      | None => Ret (refuse (writeJSONError [] 403 "step_up_required"))
      | Some at_ =>
          let! now := clock in
          if decide (stepUpFreshness < Sub now at_)%Z then Ret (refuse (writeJSONError [] 403 "step_up_required"))
          else next user
      end
  end.
End gates.

Definition RequireSession (next : sessionUser → Request → prog AuthE Response) (r : Request) : prog AuthE Response :=
  session_gate id (resolveSession r) (λ user, next user r).

Definition RequireStepUp (next : sessionUser → Request → prog AuthE Response) (r : Request) : prog AuthE Response :=
  step_gate id (resolveSession r) (trigger Now) (λ user, next user r).

(** ** Traces *)

(** Calls that read, ask the IdP, draw random bytes or write the audit log. *)
Definition harmless (X : Set) (e : AuthE X) : bool :=
  match e with
  | Now | RandRead _ | AppendAuditEntry _ | GetSession _ | TouchSession _ | GetUserByID _
  | CountConfirmedAdmins | GetUserByOIDC _ _ | GenerateVerifier | OAuthExchange _ _ | VerifyIDToken _ => true
  | _ => false
  end.

(** The sessions created, the password comparisons made, and so on. *)
Definition minted (c : call AuthE) : option CreateSessionParams :=
  match c with Call (CreateSession arg) _ => Some arg | _ => None end.
Definition compared (c : call AuthE) : option (string * string) :=
  match c with Call (VerifyPassword hash plain) _ => Some (hash, plain) | _ => None end.
Definition counted (c : call AuthE) : option Z :=
  match c with Call (IncrementFailedLogins id) _ => Some id | _ => None end.
Definition locked (c : call AuthE) : option (Z * Timestamptz) :=
  match c with Call (LockUser id until) _ => Some (id, until) | _ => None end.
Definition admins (c : call AuthE) : option CreateAdminParams :=
  match c with Call (CreateAdmin arg) _ => Some arg | _ => None end.
Definition marked (c : call AuthE) : option string :=
  match c with Call (MarkSessionReauth hash) _ => Some hash | _ => None end.

(** What the store answered when a failure was counted. *)
Definition count_reply (c : call AuthE) : option (result DbError Z) :=
  match c with
  | Call e x =>
      match e in AuthE X return X → _ with
      | IncrementFailedLogins _ => λ x, Some x
      | _ => λ _, None
      end x
  end.

(** What the store knew under the name a login gave. *)
Definition found (c : call AuthE) : option (result DbError User) :=
  match c with
  | Call e x =>
      match e in AuthE X return X → _ with
      | GetUserByUsername _ => λ x, Some x
      | _ => λ _, None
      end x
  end.

(** None of these is harmless. *)
Definition silent {B} (obs : call AuthE → option B) : Prop := ∀ c, call_ok harmless c = true → obs c = None.

Lemma observers_silent : silent minted ∧ silent compared ∧ silent counted ∧ silent locked ∧ silent admins ∧ silent marked ∧ silent count_reply ∧
  silent found.
Proof. split_and!; intros [X e x]; by destruct e. Qed.

Definition is_harmless {A} (p : prog AuthE A) : Prop := calls_only harmless p.

Lemma harmless_silent {A B} (obs : call AuthE → option B) (p : prog AuthE A) tr a :
  silent obs → is_harmless p → exec p tr a → omap obs tr = [].
Proof. intros Ho Hp. by apply (calls_only_omap harmless). Qed.

Lemma auditDetail_harmless actor action target outcome r extra :
  calls_only harmless (auditDetail actor action target outcome r extra).
Proof. unfold auditDetail. calls. Qed.

Lemma audit_harmless actor action target outcome r : calls_only harmless (audit actor action target outcome r).
Proof. apply auditDetail_harmless. Qed.

Lemma random_bytes_harmless n : calls_only harmless (random_bytes rand n).
Proof. unfold random_bytes, rand. calls. Qed.
#[export] Hint Resolve audit_harmless random_bytes_harmless : calls.

Lemma Seal_harmless c plaintext : calls_only harmless (Seal rand c plaintext).
Proof. unfold Seal. calls. Qed.

Lemma recovery_loop_harmless `{UnicodeTables} n ps hs : calls_only harmless (recovery_loop rand n ps hs).
Proof.
  revert ps hs. induction n as [|n IH]; intros ps hs; [done|]. cbn [recovery_loop]. unfold newRecoveryCode. calls.
Qed.

Lemma GenerateRecoveryCodes_harmless `{UnicodeTables} n : calls_only harmless (GenerateRecoveryCodes rand n).
Proof. unfold GenerateRecoveryCodes. case_decide; [done|]. apply recovery_loop_harmless. Qed.

Lemma resolveSession_harmless r : calls_only harmless (resolveSession r).
Proof. unfold resolveSession. calls. Qed.
#[export] Hint Resolve Seal_harmless GenerateRecoveryCodes_harmless resolveSession_harmless : calls.

(** A minted session belongs to its user, is stored under the hash of the token the
    caller gets, and ends after twelve hours. *)
Lemma mintSession_spec userID tr x :
  exec (mintSession userID) tr x →
  (∀ arg, arg ∈ omap minted tr → omap minted tr = [arg] ∧ ∃ raw now,
    arg = {| cs_TokenHash := HashToken raw; cs_UserID := userID; cs_ExpiresAt := Some (now + sessionTTL)%Z |} ∧
    Call Now now ∈ tr ∧ (∀ raw', x = Ok raw' → raw' = raw)) ∧
  (∀ raw, x = Ok raw → omap minted tr ≠ []).
Proof.
  intros (tr1 & tr2 & token & -> & Ht & Hk)%exec_bind.
  assert (Hq : omap minted tr1 = []).
  { eapply harmless_silent; [apply observers_silent| |exact Ht]. unfold is_harmless, NewSessionToken. calls. }
  rewrite omap_app, Hq, app_nil_l. destruct token as [[raw hash]|e].
  - apply NewSessionToken_Ok in Ht as ->. destruct Hk as (now & tr3 & -> & w & tr4 & -> & -> & ->).
    split; [|done]. intros arg Ha. change (arg ∈ [{| cs_TokenHash := HashToken raw; cs_UserID := userID;
      cs_ExpiresAt := Some (now + sessionTTL)%Z |}]) in Ha. apply list_elem_of_singleton in Ha as ->.
    split; [done|]. exists raw, now. split_and!; [done|apply elem_of_app; right; by left|].
    intros raw'. by destruct w; intros [= ->].
  - destruct Hk as [-> ->]. split; [|done]. by intros arg ?%not_elem_of_nil.
Qed.

(** What a created session is: one, of this user, stored as the hash of the token
    in the response, for twelve hours. *)
Definition mints (uid : Z) (tr : list (call AuthE)) (resp : Response) (arg : CreateSessionParams) : Prop :=
  omap minted tr = [arg] ∧ ∃ raw now,
    arg = {| cs_TokenHash := HashToken raw; cs_UserID := uid; cs_ExpiresAt := Some (now + sessionTTL)%Z |} ∧
    Call Now now ∈ tr ∧
    ∀ ck, ck ∈ resp_Cookies resp → ck_Name ck = sessionCookie → ck_Value ck = raw.

Lemma mints_app uid tr1 tr2 resp arg : omap minted tr1 = [] → mints uid tr2 resp arg → mints uid (tr1 ++ tr2) resp arg.
Proof.
  intros Hq (Hm & raw & now & -> & Hn & Hc). split; [by rewrite omap_app, Hq, Hm|]. exists raw, now.
  split_and!; [done| |done]. apply elem_of_app. by right.
Qed.

Lemma Forall_silent {B} (obs : call AuthE → option B) tr :
  silent obs → Forall (λ c, call_ok harmless c = true) tr → omap obs tr = [].
Proof. intros Ho. induction 1 as [|c tr Hc _ IH]; [done|]. simpl. by rewrite (Ho c Hc). Qed.

(** The request's cookie names a stored session of a user who may sign in. *)
Definition session_of (r : Request) (tr : list (call AuthE)) (user : sessionUser) (sess : Session) : Prop :=
  ∃ v row, cookie_value r sessionCookie = Some v ∧ Call (GetSession (HashToken v)) (Ok sess) ∈ tr ∧
    Call (GetUserByID (sess_UserID sess)) (Ok row) ∈ tr ∧
    (user_TotpConfirmedAt row ≠ None ∨ user_OidcSubject row ≠ None) ∧
    user = {| su_ID := user_ID row; su_Username := user_Username row; su_OIDC := has (user_OidcSubject row) |}.

Lemma session_of_mono r tr1 tr2 user sess : tr1 ⊆ tr2 → session_of r tr1 user sess → session_of r tr2 user sess.
Proof. intros Hs (v & row & ? & ? & ? & ? & ?). exists v, row. by split_and!; auto. Qed.

Lemma resolveSession_Some r tr user sess :
  exec (resolveSession r) tr (Some (user, sess)) → session_of r tr user sess.
Proof.
  unfold resolveSession. destruct (cookie_value r sessionCookie) as [v|] eqn:Hv; [|by intros [_ [=]]].
  intros (g & tr1 & -> & Hk). cbn [prog_bind] in Hk. destruct g as [sess'|e]; [|by destruct Hk as [_ [=]]].
  destruct Hk as (u & tr2 & -> & Hk). cbn [prog_bind] in Hk. destruct u as [row|e]; [|by destruct Hk as [_ [=]]].
  destruct (_ && _) eqn:Hb in Hk; [by destruct Hk as [_ [=]]|].
  destruct Hk as (t & tr3 & -> & -> & [= -> ->]). exists v, row. split_and!; [done|by left|right; by left| |done].
  destruct (user_TotpConfirmedAt row), (user_OidcSubject row); simpl in Hb; auto; done.
Qed.

(** ** Properties *)

(** Destructive actions need a fresh second factor: behind [RequireStepUp] the
    wrapped handler runs only for a request whose cookie names a stored session of
    a confirmed or IdP-linked user, on which the second factor was re-proved at
    most five minutes before the clock was read; any other request is answered 401
    or 403 after nothing but look-ups. *)
Theorem step_up_gate next r tr resp :
  exec (RequireStepUp next r) tr resp →
  (∃ tr1 tr2 user sess at_ now, tr = tr1 ++ tr2 ∧ exec (next user r) tr2 resp ∧ session_of r tr1 user sess ∧
    sess_ReauthAt sess = Some at_ ∧ Call Now now ∈ tr1 ∧ (now - at_ ≤ stepUpFreshness)%Z ∧
    Forall (λ c, call_ok harmless c = true) tr1) ∨
  (resp_Status resp ∈ [401; 403]%Z ∧ Forall (λ c, call_ok harmless c = true) tr).
Proof.
  intros (tr1 & tr2 & o & -> & Hs & Hk)%exec_bind.
  pose proof (calls_only_exec _ _ _ _ (resolveSession_harmless r) Hs) as Hf.
  destruct o as [[user sess]|]; [|destruct Hk as [-> ->]; right; rewrite app_nil_r; split; [by left|done]].
  destruct (sess_ReauthAt sess) as [at_|] eqn:Ha;
    [|destruct Hk as [-> ->]; right; rewrite app_nil_r; split; [right; by left|done]].
  destruct Hk as (now & tr3 & -> & Hk). cbn [prog_bind] in Hk. case_decide as Hd.
  - destruct Hk as [-> ->]. right. split; [right; by left|]. apply Forall_app. split; [done|by repeat constructor].
  - left. exists (tr1 ++ [Call Now now]), tr3, user, sess, at_, now. rewrite <- app_assoc.
    apply resolveSession_Some in Hs as (v & row & Hv & Hg & Hu & Ho & E).
    split_and!; [done..| |done|apply elem_of_app; right; by left| |].
    + exists v, row. split_and!; [done|apply elem_of_app; by left..|done|done].
    + unfold Sub, stepUpFreshness, Minute, Second, i64_min, i64_max in *. lia.
    + apply Forall_app. split; [done|by repeat constructor].
Qed.

(** ** A worked example *)
Module SessionExample.
Definition user : User :=
  {| user_ID := 7; user_Username := "ada"; user_PasswordHash := "hash"; user_TotpSecret := "sealed";
     user_TotpConfirmedAt := Some 1%Z; user_FailedLogins := 0; user_LockedUntil := None;
     user_OidcIssuer := None; user_OidcSubject := None; user_CreatedAt := Some 0%Z; user_UpdatedAt := Some 0%Z |}.
Definition session (reauth : Timestamptz) : Session :=
  {| sess_TokenHash := HashToken "tok"; sess_UserID := 7; sess_CreatedAt := Some 0%Z;
     sess_ExpiresAt := Some sessionTTL; sess_LastUsedAt := Some 0%Z; sess_ReauthAt := reauth |}.
Definition request : Request :=
  {| req_Cookies := [(sessionCookie, "tok")]; req_RemoteAddr := "10.0.0.7:5000"; req_TLS := true;
     req_ForwardedProto := ""; req_Query := []; req_Body := [] |}.

(** A store with one session, ten minutes into it. *)
Definition store (reauth : Timestamptz) (X : Set) (e : AuthE X) (s : unit) : X * unit :=
  (match e in AuthE X return X with
   | Now => (10 * Minute)%Z
   | RandRead n => Ok (replicate n (byte 0))
   | HashPassword _ => Ok "hash"
   | VerifyPassword _ _ => true
   | GenerateTOTP _ _ => Ok ("seed", "otpauth:")
   | ValidateTOTP _ _ => true
   | CountConfirmedAdmins => Ok 1%Z
   | GetUserByUsername _ => Ok user
   | GetUserByID _ => Ok user
   | ConfirmUserTOTP _ => Ok tt
   | IncrementFailedLogins _ => Ok 1%Z
   | LockUser _ _ => Ok tt
   | ResetFailedLogins _ => Ok tt
   | CreateSession _ => Ok tt
   | GetSession _ => Ok (session reauth)
   | TouchSession _ => Ok tt
   | DeleteSession _ => Ok tt
   | MarkSessionReauth _ => Ok tt
   | ConsumeRecoveryCode _ _ => Ok 1%Z
   | AppendAuditEntry _ => Ok tt
   | CreateAdmin _ => Ok 7%Z
   | GetUserByOIDC _ _ => Err ErrNoRows
   | CreateOIDCUser _ => Err ErrNoRows
   | GenerateVerifier => "verifier"
   | OAuthExchange _ _ => Ok None
   | VerifyIDToken _ => Err "no key"
   end, s).
Definition gated (reauth : Timestamptz) : Response * list (call AuthE) * unit :=
  run (store reauth) (RequireStepUp (λ _ _, Ret (writeHeader [] 204)) request) tt.
Example fresh : (gated (Some (6 * Minute)%Z)).1.1 = writeHeader [] 204.
Proof. vm_compute. reflexivity. Qed.
Example stale : resp_Status (gated (Some (4 * Minute)%Z)).1.1 = 403%Z.
Proof. vm_compute. reflexivity. Qed.
End SessionExample.

Lemma step_up_gate_witness :
  ∃ tr1 tr2 user sess, (SessionExample.gated (Some (6 * Minute)%Z)).1.2 = tr1 ++ tr2 ∧
    session_of SessionExample.request tr1 user sess.
Proof.
  destruct (step_up_gate (λ _ _, Ret (writeHeader [] 204)) SessionExample.request
    (SessionExample.gated (Some (6 * Minute)%Z)).1.2 (SessionExample.gated (Some (6 * Minute)%Z)).1.1
    (run_exec (SessionExample.store _) _ _)) as [(tr1 & tr2 & user & sess & at_ & now & E & _ & Hs & _)|[Hbad _]].
  - by exists tr1, tr2, user, sess.
  - exfalso. rewrite SessionExample.fresh in Hbad. simpl in Hbad. set_solver.
Defined.
