(* ===== verification/Oidc.v ===== *)
(** * Single sign-on

    The handlers of [dashboard/internal/server/oidc.go] with the exchange and the flow
    secrets of [dashboard/internal/oidc/oidc.go]: starting a flow, the callback that
    signs in or steps up, and the sealed cookie between the two.  The OAuth2 client and
    JSON are arguments ([OidcLib]); the IdP, the store and the clock answer anything. *)
From S2P Require Import Prelude GoStrings Effects Sha256 RateLimit OidcIdentity AesGcm Credentials Session.
From Stdlib Require Import Ascii.

Definition maxUsernameLen : nat := 254.
Definition oidcCookie : string := "orkano_oidc".
Definition oidcFlowTTL : Z := 10 * Minute.
Definition flowSecretBytes : nat := 32.

(** ** Redirects with an error code *)
Inductive SSOError : Set :=
| ssoDisabled | ssoNoFlow | ssoStateMismatch | ssoExchange | ssoNotAllowed | ssoInternal | ssoIdP | ssoNoSession | ssoNotOIDC.
Definition sso_code (e : SSOError) : string :=
  match e with
  | ssoDisabled => "disabled"
  | ssoNoFlow => "no_flow"
  | ssoStateMismatch => "state_mismatch"
  | ssoExchange => "exchange_failed"
  | ssoNotAllowed => "not_allowed"
  | ssoInternal => "internal_error"
  | ssoIdP => "idp_error"
  | ssoNoSession => "no_session"
  | ssoNotOIDC => "not_oidc"
  end.
Definition redirectSSOError (cookies : list Cookie) (e : SSOError) : Response := Redirect cookies ("/?sso_error=" +:+ sso_code e).

Record oidcFlow : Type := {
  fl_State : string;
  fl_Nonce : string;
  fl_Verifier : string;
  fl_Reauth : bool;
  fl_UID : Z;
  fl_SessionHash : string;
  fl_Expires : Z;
}.
#[export] Instance oidcFlow_eq_dec : EqDecision oidcFlow.
Proof. solve_decision. Defined.

Class OidcLib : Type := {
  (** [oauth2.Config.AuthCodeURL] with its extra parameters *)
  oauth_AuthCodeURL : Config → string → list (string * string) → string;
  (** [oauth2.S256ChallengeOption] *)
  S256ChallengeOption : string → list (string * string);
  marshal_flow : oidcFlow → result string string;
  unmarshal_flow : string → option oidcFlow;
}.

(** ** The authenticator *)
Definition randToken : prog AuthE (result string string) :=
  let! b := random_bytes rand flowSecretBytes in
  Ret (map_ok (λ b, of_bytes (raw_encode url_alphabet b)) b).

(** State, nonce and PKCE verifier. *)
Definition NewFlowSecrets : prog AuthE (result string (string * string * string)) :=
  let! state := randToken in
  match state with
  | Err e => Ret (Err e)
  | Ok state =>
      let! nonce := randToken in
      match nonce with
      | Err e => Ret (Err e)
      | Ok nonce =>
          let! verifier := trigger GenerateVerifier in
          Ret (Ok (state, nonce, verifier))
      end
  end.

Inductive ExchangeError : Set :=
| CodeExchange (err : string)
| NoIDToken
| VerifyToken (err : string)
| NonceMismatch
| NoSubject
| ParseClaims (err : string).

Section oidc.
Context `{UnicodeTables, OidcLib}.

Definition AuthCodeURL (cfg : Config) (state nonce verifier : string) (reauth : bool) : string :=
  oauth_AuthCodeURL cfg state
    ([("nonce", nonce)] ++ S256ChallengeOption verifier ++ (if reauth then [("prompt", "login")] else [])).

Definition Exchange (cfg : Config) (code nonce verifier : string) : prog AuthE (result ExchangeError Identity) :=
  let! tok := trigger (OAuthExchange code verifier) in
  match tok with
  | Err e => Ret (Err (CodeExchange e))
  | Ok rawID =>
      let rawID := default "" rawID in
      if decide (rawID = "") then Ret (Err NoIDToken)
      else
        let! idToken := trigger (VerifyIDToken rawID) in
        Ret (match idToken with
             | Err e => Err (VerifyToken e)
             | Ok idToken =>
                 if decide (nonce = "" ∨ tok_Nonce idToken = "" ∨ tok_Nonce idToken ≠ nonce) then Err NonceMismatch
                 else if decide (tok_Subject idToken = "") then Err NoSubject
                 else
                   match tok_Claims idToken with
                   | Err e => Err (ParseClaims e)
                   | Ok raw => Ok (identity_of cfg (tok_Subject idToken) raw)
                   end
             end)
  end.

Definition oidcActor (id : Identity) : string := if decide (id_Email id ≠ "") then id_Email id else id_Subject id.

(** ** The flow cookie *)
Definition lax_cookie (r : Request) (value : string) (maxAge : Z) : Cookie :=
  {| ck_Name := oidcCookie; ck_Value := value; ck_Path := "/"; ck_HttpOnly := true;
     ck_Secure := isHTTPS r; ck_SameSiteStrict := false; ck_MaxAge := maxAge |}.
Definition clearOIDCCookie (r : Request) : Cookie := lax_cookie r "" (-1).

Definition with_expiry (flow : oidcFlow) (t : Z) : oidcFlow :=
  {| fl_State := fl_State flow; fl_Nonce := fl_Nonce flow; fl_Verifier := fl_Verifier flow; fl_Reauth := fl_Reauth flow;
     fl_UID := fl_UID flow; fl_SessionHash := fl_SessionHash flow; fl_Expires := t |}.

Context (s : Server).

Definition setOIDCCookie (r : Request) (flow : oidcFlow) : prog AuthE (result Response Cookie) :=
  let! now := trigger Now in
  match marshal_flow (with_expiry flow (Unix (now + oidcFlowTTL))) with
  | Err _ => Ret (Err (redirectSSOError [] ssoInternal))
  | Ok payload =>
      let! sealed := Seal rand (srv_Cipher s) payload in
      Ret (match sealed with
           | Err _ => Err (redirectSSOError [] ssoInternal)
           | Ok sealed => Ok (lax_cookie r sealed (oidcFlowTTL `quot` Second))
           end)
  end.

Definition readOIDCCookie (r : Request) : prog AuthE (option oidcFlow) :=
  match cookie_value r oidcCookie with
  | None => Ret None
  | Some v =>
      match Open (srv_Cipher s) v with
      | Err _ => Ret None
      | Ok plain =>
          match unmarshal_flow plain with
          | None => Ret None
          | Some flow =>
              if decide (fl_State flow = "") then Ret None
              else
                let! now := trigger Now in
                Ret (if decide (fl_Expires flow ≤ Unix now)%Z then None else Some flow)
          end
      end
  end.

(** ** Starting a flow *)

(** The session a step-up binds its flow to: its user and its hash. *)
Definition stepUpBinding (r : Request) : prog AuthE (result SSOError (Z * string)) :=
  let! session := resolveSession r in
  match session with
  | None => Ret (Err ssoNoSession)
  | Some (user, _) =>
      if negb (su_OIDC user) then Ret (Err ssoNotOIDC)
      else
        Ret (match cookie_value r sessionCookie with
             | None => Err ssoNoSession
             | Some v => Ok (su_ID user, HashToken v)
             end)
  end.

Definition handleOIDCLogin (r : Request) : prog AuthE Response :=
  match srv_OIDC s with
  | None => Ret (redirectSSOError [] ssoDisabled)
  | Some cfg =>
      let reauth := bool_decide (query r "stepup" = "1") in
      let! binding := if reauth then stepUpBinding r else Ret (Ok (0%Z, "")) in
      match binding with
      | Err e => Ret (redirectSSOError [] e)
      | Ok (uid, hash) =>
          let! secrets := NewFlowSecrets in
          match secrets with
          | Err _ => Ret (redirectSSOError [] ssoInternal)
          | Ok (state, nonce, verifier) =>
              let! ck := setOIDCCookie r {| fl_State := state; fl_Nonce := nonce; fl_Verifier := verifier;
                fl_Reauth := reauth; fl_UID := uid; fl_SessionHash := hash; fl_Expires := 0 |} in
              Ret (match ck with
                   | Err resp => resp
                   | Ok ck => Redirect [ck] (AuthCodeURL cfg state nonce verifier reauth)
                   end)
          end
      end
  end.

(** ** The callback *)
Definition stepup_failure (cleared : Cookie) (r : Request) (actor : string) (e : SSOError) : prog AuthE Response :=
  let! _ := audit actor "auth.oidc_stepup" actor "failure" r in
  Ret (redirectSSOError [cleared] e).

Definition completeOIDCStepUp (cleared : Cookie) (r : Request) (flow : oidcFlow) (id : Identity) : prog AuthE Response :=
  if decide (fl_SessionHash flow = "") then stepup_failure cleared r (oidcActor id) ssoNoSession
  else
    let! g := trigger (GetSession (fl_SessionHash flow)) in
    match g with
    | Err _ => stepup_failure cleared r (oidcActor id) ssoNoSession
    | Ok sess =>
        if decide (sess_UserID sess ≠ fl_UID flow) then stepup_failure cleared r (oidcActor id) ssoInternal
        else
          let! u := trigger (GetUserByID (sess_UserID sess)) in
          match u with
          | Err _ => Ret (redirectSSOError [cleared] ssoInternal)
          | Ok user =>
              if decide (id_Subject id = "" ∨ user_OidcSubject user ≠ Some (id_Subject id)) then
                stepup_failure cleared r (user_Username user) ssoNotAllowed
              else
                let! m := trigger (MarkSessionReauth (fl_SessionHash flow)) in
                match m with
                | Err _ => stepup_failure cleared r (user_Username user) ssoInternal
                | Ok _ =>
                    let! _ := audit (user_Username user) "auth.oidc_stepup" (user_Username user) "success" r in
                    Ret (Redirect [cleared] "/")
                end
          end
    end.

Definition resolveOIDCUser (id : Identity) : prog AuthE (result DbError (Z * string)) :=
  let! g := trigger (GetUserByOIDC (id_Issuer id) (id_Subject id)) in
  match g with
  | Ok u => Ret (Ok (user_ID u, user_Username u))
  | Err ErrNoRows =>
      let username := if decide (id_Email id = "") then id_Subject id else id_Email id in
      let username := if maxUsernameLen <? len username then slice_to maxUsernameLen username else username in
      let! c := trigger (CreateOIDCUser
        {| co_Username := username; co_Issuer := id_Issuer id; co_Subject := id_Subject id |}) in
      match c with
      | Ok created => Ret (Ok (user_ID created, user_Username created))
      | Err err =>
          let! again := trigger (GetUserByOIDC (id_Issuer id) (id_Subject id)) in
          Ret (match again with
               | Ok u => Ok (user_ID u, user_Username u)
               | Err _ => Err err
               end)
      end
  | Err e => Ret (Err e)
  end.

(** The end of the callback of a login. *)
Definition signInOIDC (cleared : Cookie) (r : Request) (id : Identity) : prog AuthE Response :=
  let! u := resolveOIDCUser id in
  match u with
  | Err _ =>
      let! _ := audit (oidcActor id) "auth.oidc_login" (oidcActor id) "failure" r in
      Ret (redirectSSOError [cleared] ssoInternal)
  | Ok (uid, username) =>
      let! raw := mintSession uid in
      match raw with
      | Err _ =>
          let! _ := audit username "auth.oidc_login" username "failure" r in
          Ret (redirectSSOError [cleared] ssoInternal)
      | Ok raw =>
          let! _ := audit username "auth.oidc_login" username "success" r in
          Ret (Redirect [cleared; setSessionCookie r raw] "/")
      end
  end.

Definition handleOIDCCallback (r : Request) : prog AuthE Response :=
  match srv_OIDC s with
  | None => Ret (redirectSSOError [] ssoDisabled)
  | Some cfg =>
  let! flow := readOIDCCookie r in
  let cleared := clearOIDCCookie r in
  let action := match flow with
                | Some flow => if fl_Reauth flow then "auth.oidc_stepup" else "auth.oidc_login"
                | None => "auth.oidc_login"
                end in
  let refuse e :=
    let! _ := audit "anonymous" action "" "failure" r in
    Ret (redirectSSOError [cleared] e) in
  if decide (query r "error" ≠ "") then refuse ssoIdP
  else match flow with
  | None => refuse ssoNoFlow
  | Some flow =>
  let state := query r "state" in
  if decide (state = "" ∨ state ≠ fl_State flow) then refuse ssoStateMismatch
  else
  let code := query r "code" in
  if decide (code = "") then refuse ssoExchange
  else
  let! id := Exchange cfg code (fl_Nonce flow) (fl_Verifier flow) in
  match id with
  | Err _ => refuse ssoExchange
  | Ok id =>
  if negb (Authorize cfg id) then
    let! _ := audit (oidcActor id) action (oidcActor id) "denied" r in
    Ret (redirectSSOError [cleared] ssoNotAllowed)
  else if fl_Reauth flow then completeOIDCStepUp cleared r flow id
  else signInOIDC cleared r id
  end end end.
End oidc.

(** ** Traces of the callback *)
Section traces.
Context `{UnicodeTables, OidcLib} (s : Server).

Lemma readOIDCCookie_harmless r : calls_only harmless (readOIDCCookie s r).
Proof. unfold readOIDCCookie. calls. Qed.
Lemma Exchange_harmless cfg code nonce verifier : calls_only harmless (Exchange cfg code nonce verifier).
Proof. unfold Exchange. calls. Qed.
Lemma randToken_harmless : calls_only harmless randToken.
Proof. unfold randToken. calls. Qed.
#[local] Hint Resolve readOIDCCookie_harmless Exchange_harmless randToken_harmless : calls.
Lemma handleOIDCLogin_harmless r : calls_only harmless (handleOIDCLogin s r).
Proof. unfold handleOIDCLogin, stepUpBinding, NewFlowSecrets, setOIDCCookie. calls. Qed.

(** The request carries a sealed flow that has not run out, and the state matches. *)
Definition flow_of (r : Request) (tr : list (call AuthE)) (flow : oidcFlow) : Prop :=
  ∃ v plain now, cookie_value r oidcCookie = Some v ∧ Open (srv_Cipher s) v = Ok plain ∧
    unmarshal_flow plain = Some flow ∧ Call Now now ∈ tr ∧ (Unix now < fl_Expires flow)%Z ∧
    query r "state" = fl_State flow ∧ fl_State flow ≠ "" ∧ query r "error" = "".

(** The IdP exchanged the code of the request under the flow's verifier for a token it
    vouches for, which carries the flow's nonce; [id] is what it says. *)
Definition verified (cfg : Config) (r : Request) (flow : oidcFlow) (tr : list (call AuthE)) (id : Identity) : Prop :=
  ∃ rawID tok raw, Call (OAuthExchange (query r "code") (fl_Verifier flow)) (Ok (Some rawID)) ∈ tr ∧
    Call (VerifyIDToken rawID) (Ok tok) ∈ tr ∧ tok_Nonce tok = fl_Nonce flow ∧ fl_Nonce flow ≠ "" ∧
    tok_Subject tok ≠ "" ∧ tok_Claims tok = Ok raw ∧ id = identity_of cfg (tok_Subject tok) raw.

Lemma readOIDCCookie_Some r tr flow :
  exec (readOIDCCookie s r) tr (Some flow) →
  ∃ v plain now, cookie_value r oidcCookie = Some v ∧ Open (srv_Cipher s) v = Ok plain ∧
    unmarshal_flow plain = Some flow ∧ Call Now now ∈ tr ∧ (Unix now < fl_Expires flow)%Z ∧ fl_State flow ≠ "".
Proof.
  unfold readOIDCCookie. destruct (cookie_value r oidcCookie) as [v|] eqn:Hv; [|by intros [_ [=]]].
  destruct (Open (srv_Cipher s) v) as [plain|e] eqn:Ho; [|by intros [_ [=]]].
  destruct (unmarshal_flow plain) as [fl|] eqn:Hu; [|by intros [_ [=]]].
  destruct (decide (fl_State fl = "")) as [|Hs]; [by intros [_ [=]]|]. intros (now & tr1 & -> & -> & E).
  destruct (decide _) as [|He] in E; [done|]. injection E as ->. exists v, plain, now.
  split_and!; [done..|by left|lia|done].
Qed.

Lemma Exchange_Ok cfg r flow tr id :
  exec (Exchange cfg (query r "code") (fl_Nonce flow) (fl_Verifier flow)) tr (Ok id) → verified cfg r flow tr id.
Proof.
  intros (tok & tr1 & -> & Hk). cbn [prog_bind] in Hk. destruct tok as [[rawID|]|e]; [| |by destruct Hk as [_ [=]]].
  2:{ rewrite decide_True in Hk by done. by destruct Hk as [_ [=]]. }
  change (default "" (Some rawID)) with rawID in Hk. cbv zeta in Hk. destruct (decide (rawID = "")) as [|Hr] in Hk; [by destruct Hk as [_ [=]]|].
  destruct Hk as (t & tr2 & -> & -> & E). destruct t as [tok|e]; [|done].
  destruct (decide _) as [|Hn] in E; [done|]. destruct (decide (tok_Subject tok = "")) as [|Hs] in E; [done|].
  destruct (tok_Claims tok) as [raw|e] eqn:Hc; [|done]. injection E as ->.
  assert (tok_Nonce tok = fl_Nonce flow) by (destruct (decide (tok_Nonce tok = fl_Nonce flow)); tauto).
  exists rawID, tok, raw. split_and!; [by left|right; by left|done|tauto|done..].
Qed.

(** A callback is refused with nothing but look-ups and an audit entry, or it goes on
    with a verified identity on the allowlist. *)
Lemma handleOIDCCallback_cases r tr resp :
  exec (handleOIDCCallback s r) tr resp →
  Forall (λ c, call_ok harmless c = true) tr ∨
  ∃ cfg flow id tr1 tr2, tr = tr1 ++ tr2 ∧ Forall (λ c, call_ok harmless c = true) tr1 ∧ srv_OIDC s = Some cfg ∧
    flow_of r tr1 flow ∧ verified cfg r flow tr1 id ∧ Authorize cfg id = true ∧
    exec (if fl_Reauth flow then completeOIDCStepUp (clearOIDCCookie r) r flow id
          else signInOIDC (clearOIDCCookie r) r id) tr2 resp.
Proof.
  unfold handleOIDCCallback. destruct (srv_OIDC s) as [cfg|]; [|intros [-> _]; by left].
  intros (tr1 & tr2 & flow & -> & Hf & Hk)%exec_bind. cbv zeta in Hk.
  pose proof (calls_only_exec _ _ _ _ (readOIDCCookie_harmless r) Hf) as H1.
  assert (Href : ∀ action e tr, exec (let! _ := audit "anonymous" action "" "failure" r in
      Ret (redirectSSOError [clearOIDCCookie r] e)) tr resp → Forall (λ c, call_ok harmless c = true) tr).
  { intros action e tr. apply calls_only_exec. calls. }
  destruct (decide (query r "error" ≠ "")) as [|He]; [left; apply Forall_app; by eauto|].
  destruct flow as [flow|]; [|left; apply Forall_app; by eauto].
  apply readOIDCCookie_Some in Hf as (v & plain & now & Hv & Ho & Hu & Hn & Hx & Hs).
  destruct (decide (query r "state" = "" ∨ _)) as [|Hst]; [left; apply Forall_app; by eauto|].
  destruct (decide (query r "code" = "")); [left; apply Forall_app; by eauto|].
  apply exec_bind in Hk as (tr3 & tr4 & id & -> & Hex & Hk).
  pose proof (calls_only_exec _ _ _ _ (Exchange_harmless _ _ _ _) Hex) as H3.
  destruct id as [id|]; [|left; rewrite !Forall_app; by eauto].
  apply Exchange_Ok in Hex. destruct (Authorize cfg id) eqn:Ha; cbn [negb] in Hk.
  2:{ left. rewrite !Forall_app. split_and!; [done..|]. revert Hk. apply calls_only_exec. calls. }
  right. exists cfg, flow, id, (tr1 ++ tr3), tr4. rewrite app_assoc, Forall_app.
  assert (query r "state" = fl_State flow) by (destruct (decide (query r "state" = fl_State flow)); tauto).
  split_and!; try done.
  - exists v, plain, now. split_and!; try done; [set_solver|]. by apply dec_stable.
  - destruct Hex as (rawID & tok & raw & ? & ? & Hrest). exists rawID, tok, raw. split; [set_solver|]. split; [set_solver|done].
Qed.

(** The store knows the identity under its issuer and subject as [uid]: the row was
    there, was made now, or was made by somebody else meanwhile. *)
Definition provisioned (id : Identity) (tr : list (call AuthE)) (uid : Z) : Prop :=
  (∃ u, user_ID u = uid ∧ Call (GetUserByOIDC (id_Issuer id) (id_Subject id)) (Ok u) ∈ tr) ∨
  (∃ u arg, user_ID u = uid ∧ Call (CreateOIDCUser arg) (Ok u) ∈ tr ∧
     co_Issuer arg = id_Issuer id ∧ co_Subject arg = id_Subject id ∧ len (co_Username arg) <= maxUsernameLen ∧
     Call (GetUserByOIDC (id_Issuer id) (id_Subject id)) (Err ErrNoRows) ∈ tr).

Lemma capped_username u : len (if maxUsernameLen <? len u then slice_to maxUsernameLen u else u) <= maxUsernameLen.
Proof. destruct (Nat.ltb_spec maxUsernameLen (len u)); [rewrite len_slice_to; lia|done]. Qed.

Lemma resolveOIDCUser_spec id tr x :
  exec (resolveOIDCUser id) tr x →
  omap minted tr = [] ∧ omap marked tr = [] ∧ ∀ uid username, x = Ok (uid, username) → provisioned id tr uid.
Proof.
  intros (g & tr1 & -> & Hk). cbn [prog_bind] in Hk. destruct g as [u|e].
  { destruct Hk as [-> ->]. split_and!; [done..|]. intros uid username [= <- _]. left. exists u. split; [done|by left]. }
  destruct e as [|code|text]; [|by destruct Hk as [-> ->]..].
  destruct Hk as (c & tr2 & -> & Hk). cbn [prog_bind] in Hk. destruct c as [created|err].
  { destruct Hk as [-> ->]. split_and!; [done..|]. intros uid username [= <- _]. right. eexists created, _.
    split_and!; [done|right; by left|done|done|apply capped_username|by left]. }
  destruct Hk as (again & tr3 & -> & -> & ->). split_and!; [done..|]. destruct again as [u|e]; [|done].
  intros uid username [= <- _]. left. exists u. split; [done|do 2 right; by left].
Qed.

Lemma signInOIDC_mints r id tr resp arg :
  exec (signInOIDC (clearOIDCCookie r) r id) tr resp → arg ∈ omap minted tr →
  ∃ uid, provisioned id tr uid ∧ mints uid tr resp arg.
Proof.
  intros (tr1 & tr2 & u & -> & Hu & Hk)%exec_bind Ha. apply resolveOIDCUser_spec in Hu as (Hq & _ & Hp).
  rewrite omap_app, Hq, app_nil_l in Ha.
  destruct u as [[uid username]|e]; [|by destruct Hk as (w & tr3 & -> & -> & _); apply not_elem_of_nil in Ha].
  apply exec_bind in Hk as (tr3 & tr4 & x & -> & Hm & Hk). apply mintSession_spec in Hm as [Hm _].
  assert (Hq4 : omap minted tr4 = []) by (destruct x; by destruct Hk as (w & tr5 & -> & -> & _)).
  rewrite omap_app, Hq4, app_nil_r in Ha. destruct (Hm _ Ha) as (Hone & raw & now & -> & Hn & Hraw).
  exists uid. split.
  - destruct (Hp uid username eq_refl) as [(y & ? & ?)|(y & arg & ? & ? & ? & ? & ? & ?)];
      [left; exists y|right; exists y, arg]; split_and!; set_solver.
  - apply mints_app; [done|]. split; [by rewrite omap_app, Hq4, app_nil_r|]. exists raw, now.
    split_and!; [done|set_solver|]. intros ck Hck Hname. destruct x as [raw'|e].
    + rewrite <- (Hraw raw' eq_refl). destruct Hk as (w & tr5 & -> & -> & ->). cbn in Hck.
      apply elem_of_cons in Hck as [->|[->|?%not_elem_of_nil]%elem_of_cons]; done.
    + destruct Hk as (w & tr5 & -> & -> & ->). by apply list_elem_of_singleton in Hck as ->.
Qed.

(** A session obtained from the IdP. *)
Definition oidc_story (r : Request) (tr : list (call AuthE)) (resp : Response) (arg : CreateSessionParams) : Prop :=
  ∃ cfg flow id uid, srv_OIDC s = Some cfg ∧ flow_of r tr flow ∧ fl_Reauth flow = false ∧ verified cfg r flow tr id ∧
    Authorize cfg id = true ∧ provisioned id tr uid ∧ mints uid tr resp arg.

Lemma flow_of_app r tr1 tr2 flow : flow_of r tr1 flow → flow_of r (tr1 ++ tr2) flow.
Proof. intros (v & plain & now & ? & ? & ? & ? & ?). exists v, plain, now. do 3 (split; [done|]). split; [set_solver|done]. Qed.
Lemma verified_app cfg r flow tr1 tr2 id : verified cfg r flow tr1 id → verified cfg r flow (tr1 ++ tr2) id.
Proof. intros (x & tok & raw & ? & ? & ?). exists x, tok, raw. split; [set_solver|]. split; [set_solver|done]. Qed.

Lemma completeOIDCStepUp_minted cleared r flow id tr resp :
  exec (completeOIDCStepUp cleared r flow id) tr resp → omap minted tr = [].
Proof.
  apply (calls_only_omap (λ X e, match e with CreateSession _ => false | _ => true end));
    [intros [X e x]; by destruct e|]. unfold completeOIDCStepUp, stepup_failure, audit, auditDetail. calls.
Qed.

Lemma handleOIDCCallback_mints r tr resp arg :
  exec (handleOIDCCallback s r) tr resp → arg ∈ omap minted tr → oidc_story r tr resp arg.
Proof.
  intros [Hf|(cfg & flow & id & tr1 & tr2 & -> & Hf & Hc & Hfl & Hv & Ha & Hk)]%handleOIDCCallback_cases Hin.
  { rewrite Forall_silent in Hin by (done || apply observers_silent). by apply not_elem_of_nil in Hin. }
  assert (Hq : omap minted tr1 = []) by (apply Forall_silent; [apply observers_silent|done]).
  rewrite omap_app, Hq, app_nil_l in Hin. destruct (fl_Reauth flow) eqn:Hr.
  { rewrite (completeOIDCStepUp_minted _ _ _ _ _ _ Hk) in Hin. by apply not_elem_of_nil in Hin. }
  destruct (signInOIDC_mints _ _ _ _ _ Hk Hin) as (uid & Hp & Hm). exists cfg, flow, id, uid.
  split_and!; try done; [by apply flow_of_app|by apply verified_app| |by apply mints_app].
  destruct Hp as [(y & ? & ?)|(y & arg' & ? & ? & ? & ? & ? & ?)];
    [left; exists y|right; exists y, arg']; split_and!; set_solver.
Qed.

(** ** Starting a flow *)
Lemma randToken_Ok tr t : exec randToken tr (Ok t) → t ≠ "".
Proof.
  intros (tr1 & tr2 & [b|e] & -> & Hb & [_ [= ->]])%exec_bind. apply random_bytes_length in Hb.
  destruct b as [|x [|y [|z b]]]; [done..|]. done.
Qed.

Lemma NewFlowSecrets_Ok tr state nonce verifier : exec NewFlowSecrets tr (Ok (state, nonce, verifier)) → state ≠ "" ∧ nonce ≠ "".
Proof.
  intros (tr1 & tr2 & [st|e] & -> & Hs & Hk)%exec_bind; [|by destruct Hk as [_ [=]]].
  apply exec_bind in Hk as (tr3 & tr4 & [n|e] & -> & Hn & Hk); [|by destruct Hk as [_ [=]]].
  destruct Hk as (v & tr5 & -> & -> & [= -> -> ->]). by split; eapply randToken_Ok.
Qed.

(** The session a step-up flow was started from. *)
Definition bound_to (r : Request) (tr : list (call AuthE)) (uid : Z) (hash : string) : Prop :=
  ∃ user sess v, session_of r tr user sess ∧ su_OIDC user = true ∧ cookie_value r sessionCookie = Some v ∧
    uid = su_ID user ∧ hash = HashToken v.

Lemma stepUpBinding_Ok r tr uid hash : exec (stepUpBinding r) tr (Ok (uid, hash)) → bound_to r tr uid hash.
Proof.
  intros (tr1 & tr2 & o & -> & Hs & Hk)%exec_bind. destruct o as [[user sess]|]; [|by destruct Hk as [_ [=]]].
  destruct (su_OIDC user) eqn:Ho; cbn [negb] in Hk; [|by destruct Hk as [_ [=]]]. destruct Hk as [-> E].
  destruct (cookie_value r sessionCookie) as [v|] eqn:Hv; [|done]. injection E as -> ->.
  rewrite app_nil_r. exists user, sess, v. split_and!; try done. by apply resolveSession_Some.
Qed.

Lemma setOIDCCookie_Ok r flow tr ck :
  length (cipher_key (srv_Cipher s)) = aes256KeyLen → exec (setOIDCCookie s r flow) tr (Ok ck) →
  ck_Name ck = oidcCookie ∧ ck_SameSiteStrict ck = false ∧ ∃ payload now, Call Now now ∈ tr ∧
    marshal_flow (with_expiry flow (Unix (now + oidcFlowTTL))) = Ok payload ∧ Open (srv_Cipher s) (ck_Value ck) = Ok payload.
Proof.
  intros Hk (now & tr1 & -> & He). cbn [prog_bind] in He.
  destruct (marshal_flow _) as [payload|e] eqn:Hm; [|by destruct He as [_ [=]]].
  apply exec_bind in He as (tr2 & tr3 & sealed & -> & Hs & [-> E]). destruct sealed as [sealed|e]; [|done].
  injection E as ->. apply Seal_Ok in Hs as (nonce & Hn & ->). split_and!; [done..|]. exists payload, now.
  split_and!; [by left|done|]. by apply Open_sealed_with.
Qed.
End traces.

(** ** Properties *)

(** The flow survives the trip to the IdP: the one cookie a started flow sets is
    sent on the cross-site way back, and a callback that carries it reads exactly the
    state, nonce and verifier the redirect was made with until ten minutes after the
    start, and nothing from then on; a step-up flow carries the hash and the user of
    the live single sign-on session of the request that started it. *)
Theorem oidc_flow_carried `{UnicodeTables, OidcLib} s cfg r tr resp ck :
  length (cipher_key (srv_Cipher s)) = aes256KeyLen →
  (∀ f p, marshal_flow f = Ok p → unmarshal_flow p = Some f) →
  srv_OIDC s = Some cfg → exec (handleOIDCLogin s r) tr resp → ck ∈ resp_Cookies resp →
  ck_Name ck = oidcCookie ∧ ck_SameSiteStrict ck = false ∧ ∃ flow now, Call Now now ∈ tr ∧
    fl_Expires flow = Unix (now + oidcFlowTTL) ∧ fl_Reauth flow = bool_decide (query r "stepup" = "1") ∧
    (fl_Reauth flow = true → bound_to r tr (fl_UID flow) (fl_SessionHash flow)) ∧
    resp = Redirect [ck] (AuthCodeURL cfg (fl_State flow) (fl_Nonce flow) (fl_Verifier flow) (fl_Reauth flow)) ∧
    ∀ r' tr' x, cookie_value r' oidcCookie = Some (ck_Value ck) → exec (readOIDCCookie s r') tr' x →
      ∃ now', tr' = [Call Now now'] ∧ x = if decide (fl_Expires flow ≤ Unix now')%Z then None else Some flow.
Proof.
  intros Hkey Hjson Hcfg Hex Hck. unfold handleOIDCLogin in Hex. rewrite Hcfg in Hex.
  apply exec_bind in Hex as (tr1 & tr2 & b & -> & Hb & Hk). cbv zeta in Hb.
  destruct b as [[uid hash]|e]; [|destruct Hk as [_ ->]; by apply not_elem_of_nil in Hck].
  apply exec_bind in Hk as (tr3 & tr4 & sec & -> & Hs & Hk).
  destruct sec as [[[state nonce] verifier]|e]; [|destruct Hk as [_ ->]; by apply not_elem_of_nil in Hck].
  apply NewFlowSecrets_Ok in Hs as [Hst Hno]. apply exec_bind in Hk as (tr5 & tr6 & c & -> & Hc & [-> ->]).
  destruct c as [ck'|resp'].
  2:{ exfalso. unfold setOIDCCookie in Hc. destruct Hc as (now & tr7 & -> & He). cbn [prog_bind] in He.
      destruct (marshal_flow _); [|destruct He as [_ [= ->]]; by apply not_elem_of_nil in Hck].
      apply exec_bind in He as (? & ? & sealed & ? & _ & [_ E]). destruct sealed; [done|].
      injection E as ->. by apply not_elem_of_nil in Hck. }
  apply list_elem_of_singleton in Hck as ->.
  apply setOIDCCookie_Ok in Hc as (Hn & Hss & payload & now & Hnow & Hm & Hopen); [|done].
  split_and!; [done..|]. lazymatch type of Hm with marshal_flow ?f = _ => exists f, now end.
  split; [set_solver|]. split; [done|]. split; [done|]. split; [|split; [done|]].
  - cbn. intros Hre. rewrite Hre in Hb. apply stepUpBinding_Ok in Hb as (user & sess & v & Hss' & ? & ? & ? & ?).
    exists user, sess, v. split_and!; try done. eapply session_of_mono; [|done]. set_solver.
  - intros r' tr' x Hv. unfold readOIDCCookie. rewrite Hv, Hopen, (Hjson _ _ Hm). cbn [fl_State with_expiry].
    rewrite decide_False by done. intros (now' & tr7 & -> & -> & ->). by exists now'.
Qed.

(** A step-up through the IdP refreshes only the session it was started from: the one
    session marked is the one whose hash the sealed flow carries; it is still stored, for
    the user the flow names, and that user's stored subject is the subject of a token the
    IdP just vouched for under this flow, of an identity on the allowlist. *)
Theorem oidc_step_up_bound `{UnicodeTables, OidcLib} s r tr resp hash :
  exec (handleOIDCCallback s r) tr resp → hash ∈ omap marked tr →
  omap marked tr = [hash] ∧ ∃ cfg flow id sess user,
    srv_OIDC s = Some cfg ∧ flow_of s r tr flow ∧ fl_Reauth flow = true ∧ verified cfg r flow tr id ∧
    Authorize cfg id = true ∧ hash = fl_SessionHash flow ∧ hash ≠ "" ∧
    Call (GetSession hash) (Ok sess) ∈ tr ∧ sess_UserID sess = fl_UID flow ∧
    Call (GetUserByID (fl_UID flow)) (Ok user) ∈ tr ∧ user_OidcSubject user = Some (id_Subject id).
Proof.
  assert (Hsm : silent marked) by apply observers_silent.
  intros [Hf|(cfg & flow & id & tr1 & tr2 & -> & Hf & Hc & Hfl & Hv & Ha & Hk)]%handleOIDCCallback_cases Hin.
  { rewrite Forall_silent in Hin by done. by apply not_elem_of_nil in Hin. }
  rewrite omap_app, (Forall_silent marked tr1), app_nil_l in Hin |- * by done. destruct (fl_Reauth flow) eqn:Hr.
  2:{ exfalso. apply exec_bind in Hk as (tr3 & tr4 & u & -> & Hu & Hk). apply resolveOIDCUser_spec in Hu as (_ & Hq & _).
      rewrite omap_app, Hq, app_nil_l in Hin.
      destruct u as [[uid username]|e]; [|destruct Hk as (w & tr5 & -> & -> & _); by apply not_elem_of_nil in Hin].
      apply exec_bind in Hk as (tr5 & tr6 & x & -> & Hm & Hk). rewrite omap_app in Hin.
      assert (Hq5 : omap marked tr5 = []).
      { revert Hm. apply (calls_only_omap (λ X e, match e with MarkSessionReauth _ => false | _ => true end));
          [intros [X e y]; by destruct e|]. unfold mintSession, NewSessionToken, random_bytes, rand. calls. }
      rewrite Hq5 in Hin. destruct x; destruct Hk as (w & tr7 & -> & -> & _); by apply not_elem_of_nil in Hin. }
  unfold completeOIDCStepUp in Hk.
  destruct (decide (fl_SessionHash flow = "")); [destruct Hk as (w & tr3 & -> & -> & _); by apply not_elem_of_nil in Hin|].
  destruct Hk as (g & tr3 & -> & Hk). cbn [prog_bind] in Hk.
  destruct g as [sess|e]; [|destruct Hk as (w & tr4 & -> & -> & _); by apply not_elem_of_nil in Hin].
  destruct (decide (sess_UserID sess ≠ fl_UID flow)) as [|Hu];
    [destruct Hk as (w & tr4 & -> & -> & _); by apply not_elem_of_nil in Hin|].
  apply dec_stable in Hu. rewrite Hu in Hk. destruct Hk as (u & tr4 & -> & Hk). cbn [prog_bind] in Hk.
  destruct u as [user|e]; [|destruct Hk as [-> _]; by apply not_elem_of_nil in Hin].
  destruct (decide (_ ∨ _)) as [|Hsub]; [destruct Hk as (w & tr5 & -> & -> & _); by apply not_elem_of_nil in Hin|].
  destruct Hk as (m & tr5 & -> & Hk). cbn [prog_bind] in Hk.
  assert (Hq : omap marked tr5 = []) by (destruct m; by destruct Hk as (w & tr6 & -> & -> & _)).
  change (hash ∈ fl_SessionHash flow :: omap marked tr5) in Hin.
  rewrite Hq in Hin. apply list_elem_of_singleton in Hin as ->.
  split; [change (fl_SessionHash flow :: omap marked tr5 = [fl_SessionHash flow]); by rewrite Hq|]. exists cfg, flow, id, sess, user.
  split_and!; try done; [by apply flow_of_app|by apply verified_app|set_solver|set_solver|].
  apply dec_stable. tauto.
Qed.

(** ** A worked example *)
Module OidcExample.
#[local] Instance tables : UnicodeTables := ascii_tables.
Definition cipher : Cipher := {| cipher_key := byte <$> seq 0 32 |}.
Definition server : Server :=
  {| srv_Cipher := cipher; srv_BootstrapTokenHash := ""; srv_OIDC := Some OidcIdentityExample.config;
     dummyPasswordHash := "dummy" |}.
Definition token : string := of_bytes (raw_encode url_alphabet (replicate 32 (byte 1))).

(** The flow of a step-up or of a login, started ten minutes in. *)
Definition flow (reauth : bool) : oidcFlow :=
  {| fl_State := token; fl_Nonce := token; fl_Verifier := "verifier"; fl_Reauth := reauth;
     fl_UID := if reauth then 7 else 0; fl_SessionHash := if reauth then HashToken "tok" else "";
     fl_Expires := 1200 |}.

(** An encoding of just those two flows. *)
Definition lib : OidcLib := {|
  oauth_AuthCodeURL cfg state params := oc_Issuer cfg +:+ "?state=" +:+ state;
  S256ChallengeOption v := [("code_challenge", v)];
  marshal_flow f := if decide (f = flow true) then Ok "stepup" else if decide (f = flow false) then Ok "login" else Err "unsupported";
  unmarshal_flow t := if decide (t = "stepup") then Some (flow true) else if decide (t = "login") then Some (flow false) else None;
|}.
#[local] Existing Instance lib.
Lemma encodes f p : marshal_flow f = Ok p → unmarshal_flow p = Some f.
Proof.
  cbn [marshal_flow lib]. destruct (decide (f = flow true)) as [->|]; [by intros [= <-]|].
  destruct (decide (f = flow false)) as [->|]; [by intros [= <-]|done].
Qed.

Definition user : User :=
  {| user_ID := 7; user_Username := "ada@example.com"; user_PasswordHash := ""; user_TotpSecret := "";
     user_TotpConfirmedAt := None; user_FailedLogins := 0; user_LockedUntil := None;
     user_OidcIssuer := Some "https://idp.example"; user_OidcSubject := Some "u1";
     user_CreatedAt := Some 0%Z; user_UpdatedAt := Some 0%Z |}.

(** An IdP that vouches for [u1], and a store that does not know it yet. *)
Definition world (X : Set) (e : AuthE X) (st : unit) : X * unit :=
  (match e in AuthE X return X with
   | Now => (10 * Minute)%Z
   | RandRead n => Ok (replicate n (byte 1))
   | HashPassword _ => Ok "hash"
   | VerifyPassword _ _ => false
   | GenerateTOTP _ _ => Ok ("seed", "otpauth:")
   | ValidateTOTP _ _ => false
   | CountConfirmedAdmins => Ok 1%Z
   | GetUserByUsername _ => Err ErrNoRows
   | GetUserByID _ => Ok user
   | ConfirmUserTOTP _ => Ok tt
   | IncrementFailedLogins _ => Ok 1%Z
   | LockUser _ _ => Ok tt
   | ResetFailedLogins _ => Ok tt
   | CreateSession _ => Ok tt
   | GetSession _ => Ok (SessionExample.session None)
   | TouchSession _ => Ok tt
   | DeleteSession _ => Ok tt
   | MarkSessionReauth _ => Ok tt
   | ConsumeRecoveryCode _ _ => Err ErrNoRows
   | AppendAuditEntry _ => Ok tt
   | CreateAdmin _ => Ok 7%Z
   | GetUserByOIDC _ _ => Err ErrNoRows
   | CreateOIDCUser _ => Ok user
   | GenerateVerifier => "verifier"
   | OAuthExchange _ _ => Ok (Some "jwt")
   | VerifyIDToken _ => Ok {| tok_Nonce := token; tok_Subject := "u1";
                              tok_Claims := Ok (OidcIdentityExample.claims (JBool true)) |}
   end, st).

Definition starting : Request :=
  {| req_Cookies := [(sessionCookie, "tok")]; req_RemoteAddr := "10.0.0.7:5000"; req_TLS := true;
     req_ForwardedProto := ""; req_Query := [("stepup", "1")]; req_Body := [] |}.
Definition started := run world (handleOIDCLogin server starting) tt.
Definition nonce : list ascii := replicate 12 (byte 1).
Definition returning (text : string) : Request :=
  {| req_Cookies := [(oidcCookie, sealed_with cipher nonce text)]; req_RemoteAddr := "10.0.0.7:5000"; req_TLS := true;
     req_ForwardedProto := ""; req_Query := [("state", token); ("code", "c0de")]; req_Body := [] |}.
Definition returned (text : string) := run world (handleOIDCCallback server (returning text)) tt.

Example marks : omap marked (returned "stepup").1.2 = [HashToken "tok"].
Proof. vm_compute. reflexivity. Qed.
Example signs_in : length (omap minted (returned "login").1.2) = 1 ∧ resp_Body (returned "login").1.1 = Location "/".
Proof. vm_compute. done. Qed.
Lemma started_exec : exec (handleOIDCLogin server starting) started.1.2 started.1.1.
Proof. apply run_exec. Qed.
Lemma returned_exec text : exec (handleOIDCCallback server (returning text)) (returned text).1.2 (returned text).1.1.
Proof. apply run_exec. Qed.

Definition started_cookie : Cookie := lax_cookie starting (sealed_with cipher nonce "stepup") 600.
Example sets_cookie : resp_Cookies started.1.1 = [started_cookie].
Proof. vm_compute. reflexivity. Qed.

Lemma oidc_flow_carried_witness : ck_Name started_cookie = oidcCookie.
Proof.
  refine (proj1 (oidc_flow_carried server OidcIdentityExample.config starting _ _ started_cookie
    eq_refl encodes eq_refl started_exec _)).
  rewrite sets_cookie. left.
Defined.

Lemma oidc_step_up_bound_witness : omap marked (returned "stepup").1.2 = [HashToken "tok"].
Proof.
  refine (proj1 (oidc_step_up_bound server (returning "stepup") _ _ (HashToken "tok") (returned_exec "stepup") _)).
  rewrite marks. left.
Defined.
End OidcExample.
