(* ===== verification/Auth.v ===== *)
(** * Signing in to the dashboard

    The handlers of [dashboard/internal/server/auth.go]: bootstrap (redeem and
    confirm), the two login steps, logout and step-up, with the challenge cookie
    that carries a caller from the first factor to the second, behind the rate
    limiter as [mountAuthRoutes] mounts them, with the OIDC routes.  Decoding request bodies and
    encoding the challenge are JSON, an argument of the model ([AuthJSON]). *)
From S2P Require Import Prelude GoStrings Effects Sha256 RateLimit OidcIdentity AesGcm Credentials Session Oidc.
From Stdlib Require Import Ascii.

(** ** Constants *)
Definition maxAuthBodyBytes : Z := Z.shiftl 64 10.
Definition maxFailedLogins : Z := 5.
Definition lockoutWindow : Z := 15 * Minute.
Definition enrollChallengeTTL : Z := 10 * Minute.
Definition totpChallengeTTL : Z := 5 * Minute.
Definition recoveryCodeCount : Z := 10.
Definition totpIssuer : string := "Orkano".
Definition challengeCookie : string := "orkano_challenge".
Definition stageEnroll : string := "enroll".
Definition stageTOTP : string := "totp".

Record challenge : Type := { ch_UID : Z; ch_Stage : string; ch_Expires : Z }.

Record redeemRequest : Type := { redeem_Token : string; redeem_Username : string; redeem_Password : string }.
Record codeRequest : Type := { code_Code : string }.
Record loginRequest : Type := { login_Username : string; login_Password : string }.
Record loginTOTPRequest : Type := { totp_Code : string; totp_RecoveryCode : string }.
Record stepUpRequest : Type := { stepup_Password : string; stepup_Code : string }.

(** [encoding/json]: a body read up to a limit, unknown fields refused, and the
    challenge both ways. *)
Class AuthJSON : Type := {
  decode_redeem : Z → list ascii → option redeemRequest;
  decode_code : Z → list ascii → option codeRequest;
  decode_login : Z → list ascii → option loginRequest;
  decode_loginTOTP : Z → list ascii → option loginTOTPRequest;
  decode_stepUp : Z → list ascii → option stepUpRequest;
  marshal_challenge : challenge → result string string;
  unmarshal_challenge : string → option challenge;
}.

Section auth.
Context `{UnicodeTables, AuthJSON, OidcLib} (s : Server).

(** ** Challenge cookies *)
Definition setChallengeCookie (r : Request) (uid : Z) (stage : string) (ttl : Z) : prog AuthE (result Response Cookie) :=
  let! now := trigger Now in
  match marshal_challenge {| ch_UID := uid; ch_Stage := stage; ch_Expires := Unix (now + ttl) |} with
  | Err _ => Ret (Err (writeJSONError [] 500 "internal_error"))
  | Ok payload =>
      let! sealed := Seal rand (srv_Cipher s) payload in
      Ret (match sealed with
           | Err _ => Err (writeJSONError [] 500 "internal_error")
           | Ok sealed => Ok (strict_cookie r challengeCookie sealed (ttl `quot` Second))
           end)
  end.

Definition readChallenge (r : Request) (stage : string) : prog AuthE (option challenge) :=
  match cookie_value r challengeCookie with
  | None => Ret None
  | Some v =>
      match Open (srv_Cipher s) v with
      | Err _ => Ret None
      | Ok plain =>
          match unmarshal_challenge plain with
          | None => Ret None
          | Some ch =>
              if decide (ch_Stage ch ≠ stage) then Ret None
              else
                let! now := trigger Now in
                Ret (if decide (ch_Expires ch ≤ Unix now)%Z then None else Some ch)
          end
      end
  end.

(** ** Lockout *)
Definition recordFailedLogin (userID : Z) : prog AuthE unit :=
  let! c := trigger (IncrementFailedLogins userID) in
  match c with
  | Err _ => Ret tt
  | Ok count =>
      if decide (maxFailedLogins ≤ count)%Z then
        let! now := trigger Now in
        let! _ := trigger (LockUser userID (Some (now + lockoutWindow)%Z)) in
        Ret tt
      else Ret tt
  end.

(** ** 1. Status *)
Definition handleAuthStatus (r : Request) : prog AuthE Response :=
  let oidcEnabled := ("oidcEnabled", VBool (has (srv_OIDC s))) in
  let! session := resolveSession r in
  match session with
  | Some (user, _) =>
      Ret (writeJSON [] 200 [("state", VString "authenticated"); ("username", VString (su_Username user));
                             ("oidc", VBool (su_OIDC user)); oidcEnabled])
  | None =>
      let! n := trigger CountConfirmedAdmins in
      Ret (match n with
           | Err _ => writeJSONError [] 503 "unavailable"
           | Ok n =>
               if decide (n = 0)%Z then writeJSON [] 200 [("state", VString "needs_bootstrap"); oidcEnabled]
               else writeJSON [] 200 [("state", VString "needs_login"); oidcEnabled]
           end)
  end.

(** ** 2. Redeem *)
Definition internal_error : Response := writeJSONError [] 500 "internal_error".

(** From the accepted token on: credentials, the account and the challenge. *)
Definition createAdmin (req : redeemRequest) (r : Request) : prog AuthE Response :=
  let! passwordHash := trigger (HashPassword (redeem_Password req)) in
  match passwordHash with
  | Err _ => Ret internal_error
  | Ok passwordHash =>
  let! totp := trigger (GenerateTOTP totpIssuer (redeem_Username req)) in
  match totp with
  | Err _ => Ret internal_error
  | Ok (secret, otpauthURL) =>
  let! sealedSecret := Seal rand (srv_Cipher s) secret in
  match sealedSecret with
  | Err _ => Ret internal_error
  | Ok sealedSecret =>
  let! codes := GenerateRecoveryCodes rand recoveryCodeCount in
  match codes with
  | Err _ => Ret internal_error
  | Ok (plainCodes, codeHashes) =>
  let! user := trigger (CreateAdmin
    {| ca_Username := redeem_Username req; ca_PasswordHash := passwordHash;
       ca_SealedTOTPSecret := sealedSecret; ca_RecoveryCodeHashes := codeHashes |}) in
  match user with
  | Err _ => Ret internal_error
  | Ok userID =>
  let! ck := setChallengeCookie r userID stageEnroll enrollChallengeTTL in
  match ck with
  | Err resp => Ret resp
  | Ok ck =>
      let! _ := audit (redeem_Username req) "bootstrap.redeem" (redeem_Username req) "success" r in
      Ret (writeJSON [ck] 200 [("otpauthUrl", VString otpauthURL); ("recoveryCodes", VStrings plainCodes)])
  end end end end end end.

Definition handleRedeem (r : Request) : prog AuthE Response :=
  match decode_redeem maxAuthBodyBytes (req_Body r) with
  | None => Ret (writeJSONError [] 400 "invalid_request")
  | Some req =>
      let! n := trigger CountConfirmedAdmins in
      match n with
      | Err _ => Ret (writeJSONError [] 503 "unavailable")
      | Ok n =>
          if decide (0 < n)%Z then
            let! _ := audit "anonymous" "bootstrap.redeem" "" "failure" r in
            Ret (writeJSONError [] 409 "already_bootstrapped")
          else if bool_decide (redeem_Username req = "") || (254 <? len (redeem_Username req)) then
            Ret (writeJSONError [] 400 "invalid_username")
          else if has (ValidatePasswordPolicy (redeem_Password req)) then
            Ret (writeJSONError [] 400 "weak_password")
          else if decide (HashToken (redeem_Token req) ≠ srv_BootstrapTokenHash s) then
            let! _ := audit "anonymous" "bootstrap.redeem" (redeem_Username req) "failure" r in
            Ret (writeJSONError [] 401 "invalid_token")
          else createAdmin req r
      end
  end.

(** ** 3. Confirm the enrollment *)
Definition handleConfirmTOTP (r : Request) : prog AuthE Response :=
  match decode_code maxAuthBodyBytes (req_Body r) with
  | None => Ret (writeJSONError [] 400 "invalid_request")
  | Some req =>
  let! ch := readChallenge r stageEnroll in
  match ch with
  | None => Ret (writeJSONError [] 401 "no_challenge")
  | Some ch =>
  let! u := trigger (GetUserByID (ch_UID ch)) in
  match u with
  | Err _ =>
      let! _ := audit "anonymous" "bootstrap.confirm_totp" "" "failure" r in
      Ret (writeJSONError [] 401 "unauthorized")
  | Ok user =>
  let failure := audit (user_Username user) "bootstrap.confirm_totp" (user_Username user) "failure" r in
  if has (user_TotpConfirmedAt user) then
    let! _ := failure in
    Ret (writeJSONError [] 401 "unauthorized")
  else match Open (srv_Cipher s) (user_TotpSecret user) with
  | Err _ => Ret internal_error
  | Ok secret =>
  let! ok := trigger (ValidateTOTP secret (code_Code req)) in
  if negb ok then
    let! _ := failure in
    Ret (writeJSONError [] 401 "invalid_code")
  else
  let! c := trigger (ConfirmUserTOTP (user_ID user)) in
  match c with
  | Err (PgError code) =>
      if decide (code = "23505") then
        let! _ := failure in
        Ret (writeJSONError [] 409 "already_bootstrapped")
      else Ret internal_error
  | Err _ => Ret internal_error
  | Ok _ =>
  let cleared := clearCookie r challengeCookie in
  let! raw := mintSession (user_ID user) in
  match raw with
  | Err _ => Ret (writeJSONError [cleared] 500 "internal_error")
  | Ok raw =>
      let! _ := audit (user_Username user) "bootstrap.confirm_totp" (user_Username user) "success" r in
      Ret (writeJSON [cleared; setSessionCookie r raw] 200
             [("state", VString "authenticated"); ("username", VString (user_Username user))])
  end end end end end end.

(** ** 4. Login, first factor *)
Definition invalid_credentials : Response := writeJSONError [] 401 "invalid_credentials".

Definition handleLogin (r : Request) : prog AuthE Response :=
  match decode_login maxAuthBodyBytes (req_Body r) with
  | None => Ret (writeJSONError [] 400 "invalid_request")
  | Some req =>
  let! u := trigger (GetUserByUsername (login_Username req)) in
  match u with
  | Err _ =>
      let! _ := trigger (VerifyPassword (dummyPasswordHash s) (login_Password req)) in
      let! _ := audit (login_Username req) "auth.login" (login_Username req) "failure" r in
      Ret invalid_credentials
  | Ok user =>
  let log outcome := audit (user_Username user) "auth.login" (user_Username user) outcome r in
  if has (user_OidcSubject user) then
    let! _ := trigger (VerifyPassword (dummyPasswordHash s) (login_Password req)) in
    let! _ := log "failure" in
    Ret invalid_credentials
  else
  let! locked :=
    match user_LockedUntil user with
    | None => Ret false
    | Some until => let! now := trigger Now in Ret (bool_decide (now < until)%Z)
    end in
  if locked : bool then
    let! _ := log "locked" in
    Ret (writeJSONError [] 423 "account_locked")
  else
  let! pwOK := trigger (VerifyPassword (user_PasswordHash user) (login_Password req)) in
  if negb pwOK || negb (has (user_TotpConfirmedAt user)) then
    let! _ :=
      if has (user_TotpConfirmedAt user) && negb pwOK then recordFailedLogin (user_ID user) else Ret tt in
    let! _ := log "failure" in
    Ret invalid_credentials
  else
  let! ck := setChallengeCookie r (user_ID user) stageTOTP totpChallengeTTL in
  match ck with
  | Err resp => Ret resp
  | Ok ck =>
      let! _ := log "success" in
      Ret (writeJSON [ck] 200 [("state", VString "totp_required")])
  end end end.

(** ** 5. Login, second factor *)
Definition secondFactorOK (user : User) (req : loginTOTPRequest) : prog AuthE bool :=
  if decide (totp_Code req ≠ "") then
    match Open (srv_Cipher s) (user_TotpSecret user) with
    | Err _ => Ret false
    | Ok secret => trigger (ValidateTOTP secret (totp_Code req))
    end
  else if decide (totp_RecoveryCode req ≠ "") then
    let! c := trigger (ConsumeRecoveryCode (user_ID user) (HashRecoveryCode (totp_RecoveryCode req))) in
    Ret (is_ok c)
  else Ret false.

Definition handleLoginTOTP (r : Request) : prog AuthE Response :=
  match decode_loginTOTP maxAuthBodyBytes (req_Body r) with
  | None => Ret (writeJSONError [] 400 "invalid_request")
  | Some req =>
  let! ch := readChallenge r stageTOTP in
  match ch with
  | None => Ret (writeJSONError [] 401 "no_challenge")
  | Some ch =>
  let! u := trigger (GetUserByID (ch_UID ch)) in
  match u with
  | Err _ => Ret (writeJSONError [] 401 "unauthorized")
  | Ok user =>
  if negb (has (user_TotpConfirmedAt user)) then Ret (writeJSONError [] 401 "unauthorized")
  else
  let! ok := secondFactorOK user req in
  if negb ok then
    let! _ := recordFailedLogin (user_ID user) in
    let! _ := audit (user_Username user) "auth.login_totp" (user_Username user) "failure" r in
    Ret invalid_credentials
  else
  let! _ := trigger (ResetFailedLogins (user_ID user)) in
  let cleared := clearCookie r challengeCookie in
  let! raw := mintSession (user_ID user) in
  match raw with
  | Err _ => Ret (writeJSONError [cleared] 500 "internal_error")
  | Ok raw =>
      let! _ := audit (user_Username user) "auth.login_totp" (user_Username user) "success" r in
      Ret (writeJSON [cleared; setSessionCookie r raw] 200
             [("state", VString "authenticated"); ("username", VString (user_Username user))])
  end end end end.

(** ** 6. Logout *)
Definition handleLogout (user : sessionUser) (r : Request) : prog AuthE Response :=
  let! _ :=
    match cookie_value r sessionCookie with
    | None => Ret tt
    | Some v => let! _ := trigger (DeleteSession (HashToken v)) in Ret tt
    end in
  let! _ := audit (su_Username user) "auth.logout" (su_Username user) "success" r in
  Ret (writeHeader [clearCookie r sessionCookie] 204).

(** ** 7. Step-up *)
Definition handleStepUp (user : sessionUser) (r : Request) : prog AuthE Response :=
  let log outcome := audit (su_Username user) "auth.stepup" (su_Username user) outcome r in
  if su_OIDC user then Ret (writeJSONError [] 400 "oidc_stepup_required")
  else match decode_stepUp maxAuthBodyBytes (req_Body r) with
  | None => Ret (writeJSONError [] 400 "invalid_request")
  | Some req =>
  let! u := trigger (GetUserByID (su_ID user)) in
  match u with
  | Err _ => Ret internal_error
  | Ok full =>
  match Open (srv_Cipher s) (user_TotpSecret full) with
  | Err _ => Ret internal_error
  | Ok secret =>
  let! ok := trigger (ValidateTOTP secret (stepup_Code req)) in
  let! ok :=
    if negb ok then Ret false
    else if decide (stepup_Password req = "") then Ret true
    else trigger (VerifyPassword (user_PasswordHash full) (stepup_Password req)) in
  if negb ok then
    let! _ := log "failure" in
    Ret invalid_credentials
  else
  let! marked :=
    match cookie_value r sessionCookie with
    | None => Ret (Ok tt)
    | Some v => trigger (MarkSessionReauth (HashToken v))
    end in
  match marked with
  | Err _ =>
      let! _ := log "failure" in
      Ret internal_error
  | Ok _ =>
      let! _ := log "success" in
      Ret (writeHeader [] 204)
  end end end end.

(** ** The routes *)
Inductive Route : Type := Status | Redeem | ConfirmTOTP | Login | LoginTOTP | OIDCLogin | OIDCCallback | Logout | StepUp.

(** The handler of a route, with the session check of the protected group. *)
Definition handler (route : Route) (r : Request) : prog AuthE Response :=
  match route with
  | Status => handleAuthStatus r
  | Redeem => handleRedeem r
  | ConfirmTOTP => handleConfirmTOTP r
  | Login => handleLogin r
  | LoginTOTP => handleLoginTOTP r
  | OIDCLogin => handleOIDCLogin s r
  | OIDCCallback => handleOIDCCallback s r
  | Logout => RequireSession handleLogout r
  | StepUp => RequireSession handleStepUp r
  end.

(** The limiter in front of a handler. *)
Definition middleware (next : Request → prog AuthE Response) (rl : rateLimiter) (r : Request)
    : prog AuthE (Response * rateLimiter) :=
  let! now := trigger Now in
  let '(ok, rl) := allow rl now (clientIP (req_RemoteAddr r)) in
  if ok : bool then let! resp := next r in Ret (resp, rl)
  else Ret (writeJSONError [] 429 "rate_limited", rl).

(** A request to [/api/auth]: all but the status go through the limiter. *)
Definition mountAuthRoutes (rl : rateLimiter) (route : Route) (r : Request) : prog AuthE (Response * rateLimiter) :=
  match route with
  | Status => let! resp := handler Status r in Ret (resp, rl)
  | _ => middleware (handler route) rl r
  end.
End auth.

(** ** Traces of the handlers *)
Section stories.
Context `{UnicodeTables, AuthJSON, OidcLib} (s : Server).

Lemma setChallengeCookie_harmless r uid stage ttl : calls_only harmless (setChallengeCookie s r uid stage ttl).
Proof. unfold setChallengeCookie. calls. Qed.
Lemma readChallenge_harmless r stage : calls_only harmless (readChallenge s r stage).
Proof. unfold readChallenge. calls. Qed.

(** The request carries a sealed challenge for [uid] at [stage] that has not run out. *)
Definition challenged (r : Request) (stage : string) (uid : Z) (tr : list (call AuthE)) : Prop :=
  ∃ v plain ch now, cookie_value r challengeCookie = Some v ∧ Open (srv_Cipher s) v = Ok plain ∧
    unmarshal_challenge plain = Some ch ∧ ch_Stage ch = stage ∧ ch_UID ch = uid ∧
    Call Now now ∈ tr ∧ (Unix now < ch_Expires ch)%Z.

Lemma challenged_mono r stage uid tr1 tr2 : tr1 ⊆ tr2 → challenged r stage uid tr1 → challenged r stage uid tr2.
Proof. intros Hs (v & plain & ch & now & ? & ? & ? & ? & ? & Hn & ?). exists v, plain, ch, now. by split_and!; auto. Qed.

Lemma readChallenge_Some r stage tr ch :
  exec (readChallenge s r stage) tr (Some ch) → challenged r stage (ch_UID ch) tr.
Proof.
  unfold readChallenge. destruct (cookie_value r challengeCookie) as [v|] eqn:Hv; [|by intros [_ [=]]].
  destruct (Open (srv_Cipher s) v) as [plain|e] eqn:Ho; [|by intros [_ [=]]].
  destruct (unmarshal_challenge plain) as [ch'|] eqn:Hu; [|by intros [_ [=]]].
  case_decide as Hs; [by intros [_ [=]]|]. intros (now & tr1 & -> & -> & E).
  case_decide as He; [done|]. injection E as ->. exists v, plain, ch', now.
  split_and!; [done..|by left|lia].
Qed.

Lemma setChallengeCookie_Ok r uid stage ttl tr ck :
  length (cipher_key (srv_Cipher s)) = aes256KeyLen →
  exec (setChallengeCookie s r uid stage ttl) tr (Ok ck) →
  ∃ payload now, ck_Name ck = challengeCookie ∧ Call Now now ∈ tr ∧
    marshal_challenge {| ch_UID := uid; ch_Stage := stage; ch_Expires := Unix (now + ttl) |} = Ok payload ∧
    Open (srv_Cipher s) (ck_Value ck) = Ok payload.
Proof.
  intros Hk (now & tr1 & -> & He). cbn [prog_bind] in He.
  destruct (marshal_challenge _) as [payload|e] eqn:Hm; [|by destruct He as [_ [=]]].
  apply exec_bind in He as (tr2 & tr3 & sealed & -> & Hs & [-> E]). destruct sealed as [sealed|e]; [|done].
  injection E as ->. apply Seal_Ok in Hs as (nonce & Hn & ->). exists payload, now.
  split_and!; [done|by left|done|]. by apply Open_sealed_with.
Qed.

(** The second step proves a live code or uses up a recovery code. *)
Definition second_factor (user : User) (req : loginTOTPRequest) (tr : list (call AuthE)) : Prop :=
  (∃ secret, totp_Code req ≠ "" ∧ Open (srv_Cipher s) (user_TotpSecret user) = Ok secret ∧
     Call (ValidateTOTP secret (totp_Code req)) true ∈ tr) ∨
  (∃ id, totp_Code req = "" ∧ totp_RecoveryCode req ≠ "" ∧
     Call (ConsumeRecoveryCode (user_ID user) (HashRecoveryCode (totp_RecoveryCode req))) (Ok id) ∈ tr).

Definition factor_check (X : Set) (e : AuthE X) : bool :=
  match e with ValidateTOTP _ _ | ConsumeRecoveryCode _ _ => true | _ => false end.

Lemma secondFactorOK_calls user req : calls_only factor_check (secondFactorOK s user req).
Proof. unfold secondFactorOK. calls. Qed.

Lemma secondFactorOK_true user req tr : exec (secondFactorOK s user req) tr true → second_factor user req tr.
Proof.
  unfold secondFactorOK. case_decide as Hc.
  - destruct (Open _ _) as [secret|e] eqn:Ho; [|by intros [_ [=]]]. intros (ok & tr1 & -> & -> & <-).
    left. exists secret. split_and!; [done..|by left].
  - case_decide as Hr; [|by intros [_ [=]]]. intros (c & tr1 & -> & -> & E). destruct c as [id|e]; [|done].
    right. exists id. split_and!; [done..|by left].
Qed.

(** ** Failed attempts *)
Lemma recordFailedLogin_spec uid tr x :
  exec (recordFailedLogin uid) tr x →
  omap counted tr = [uid] ∧ omap minted tr = [] ∧ omap compared tr = [] ∧
  (∀ id until, (id, until) ∈ omap locked tr → id = uid ∧ ∃ count now,
     Call (IncrementFailedLogins uid) (Ok count) ∈ tr ∧ (maxFailedLogins ≤ count)%Z ∧
     Call Now now ∈ tr ∧ until = Some (now + lockoutWindow)%Z) ∧
  (∀ count, Ok count ∈ omap count_reply tr → (maxFailedLogins ≤ count)%Z → omap locked tr ≠ []).
Proof.
  intros (c & tr1 & -> & Hk). cbn [prog_bind] in Hk. destruct c as [count|e].
  2:{ destruct Hk as [-> ->]. split_and!; [done..|by intros ? ? ?%not_elem_of_nil|].
      by intros count [=]%list_elem_of_singleton. }
  case_decide as Hc.
  - destruct Hk as (now & tr2 & -> & w & tr3 & -> & -> & ->). split_and!; [done..| |done].
    intros id until [= -> ->]%list_elem_of_singleton. split; [done|]. exists count, now.
    split_and!; [by left|done|right; by left|done].
  - destruct Hk as [-> ->]. split_and!; [done..|by intros ? ? ?%not_elem_of_nil|].
    by intros count' [= ->]%list_elem_of_singleton.
Qed.

(** ** Who mints sessions *)
Definition no_mint (X : Set) (e : AuthE X) : bool := match e with CreateSession _ => false | _ => true end.

Lemma harmless_no_mint {A} (p : prog AuthE A) : calls_only harmless p → calls_only no_mint p.
Proof. apply calls_only_mono. intros X e. by destruct e. Qed.
#[local] Hint Resolve setChallengeCookie_harmless readChallenge_harmless : calls.
#[local] Hint Extern 5 (calls_only no_mint _) => apply harmless_no_mint; solve [eauto with calls] : calls.

Lemma recordFailedLogin_no_mint uid : calls_only no_mint (recordFailedLogin uid).
Proof. unfold recordFailedLogin. calls. Qed.
#[local] Hint Resolve recordFailedLogin_no_mint : calls.

Definition signs_in (route : Route) : bool := match route with ConfirmTOTP | LoginTOTP | OIDCCallback => true | _ => false end.

Lemma others_no_mint route r : signs_in route = false → calls_only no_mint (handler s route r).
Proof.
  destruct route; simpl; try done; intros _.
  - unfold handleAuthStatus. calls.
  - unfold handleRedeem, createAdmin. calls.
  - unfold handleLogin. calls.
  - apply harmless_no_mint, handleOIDCLogin_harmless.
  - unfold RequireSession, session_gate, handleLogout. calls.
  - unfold RequireSession, session_gate, handleStepUp. calls.
Qed.

Lemma answer_session uid actor action r fields tr resp arg :
  exec (let! raw := mintSession uid in
        match raw with
        | Err _ => Ret (writeJSONError [clearCookie r challengeCookie] 500 "internal_error")
        | Ok raw =>
            let! _ := audit actor action actor "success" r in
            Ret (writeJSON [clearCookie r challengeCookie; setSessionCookie r raw] 200 fields)
        end) tr resp →
  arg ∈ omap minted tr → mints uid tr resp arg.
Proof.
  intros (tr1 & tr2 & x & -> & Hm & Hk)%exec_bind Ha.
  apply mintSession_spec in Hm as [Hm _].
  assert (Hq : omap minted tr2 = []).
  { destruct x as [raw|e]; [|by destruct Hk as [-> _]]. destruct Hk as (w & tr3 & -> & Hk). by destruct Hk as [-> _]. }
  rewrite omap_app, Hq, app_nil_r in Ha. destruct (Hm _ Ha) as (Hone & raw & now & -> & Hn & Hraw).
  split; [by rewrite omap_app, Hq, app_nil_r|]. exists raw, now. split_and!; [done|apply elem_of_app; by left|].
  intros ck Hck Hname. destruct x as [raw'|e].
  - rewrite <- (Hraw raw' eq_refl). destruct Hk as (w & tr3 & -> & -> & ->). cbn in Hck.
    apply elem_of_cons in Hck as [->|[->|?%not_elem_of_nil]%elem_of_cons]; done.
  - destruct Hk as [-> ->]. by apply list_elem_of_singleton in Hck as ->.
Qed.

(** ** The two ways in *)
Definition login_proved (r : Request) (user : User) (tr : list (call AuthE)) : Prop :=
  user_TotpConfirmedAt user ≠ None ∧
  ∃ req, decode_loginTOTP maxAuthBodyBytes (req_Body r) = Some req ∧ second_factor user req tr.

Definition enrollment_proved (r : Request) (user : User) (tr : list (call AuthE)) : Prop :=
  user_TotpConfirmedAt user = None ∧
  ∃ req secret, decode_code maxAuthBodyBytes (req_Body r) = Some req ∧
    Open (srv_Cipher s) (user_TotpSecret user) = Ok secret ∧
    Call (ValidateTOTP secret (code_Code req)) true ∈ tr ∧ Call (ConfirmUserTOTP (user_ID user)) (Ok tt) ∈ tr.

(** A session obtained at [stage]: an open challenge, its user, the proof, the row. *)
Definition session_story (stage : string) (proved : User → list (call AuthE) → Prop) (r : Request)
    (tr : list (call AuthE)) (resp : Response) (arg : CreateSessionParams) : Prop :=
  ∃ uid user, challenged r stage uid tr ∧ Call (GetUserByID uid) (Ok user) ∈ tr ∧ proved user tr ∧
    mints (user_ID user) tr resp arg.

Lemma second_factor_mono user req tr1 tr2 : tr1 ⊆ tr2 → second_factor user req tr1 → second_factor user req tr2.
Proof.
  intros Hs [(secret & ? & ? & Hc)|(id & ? & ? & Hc)]; [left; exists secret|right; exists id]; by split_and!; auto.
Qed.

Lemma handleLoginTOTP_mints r tr resp arg :
  exec (handleLoginTOTP s r) tr resp → arg ∈ omap minted tr →
  session_story stageTOTP (login_proved r) r tr resp arg.
Proof.
  unfold handleLoginTOTP. destruct (decode_loginTOTP _ _) as [req|] eqn:Hd; [|by intros [-> _] ?%not_elem_of_nil].
  intros (tr1 & tr2 & ch & -> & Hch & Hk)%exec_bind Ha.
  assert (Hq1 : omap minted tr1 = []) by (eapply harmless_silent; [apply observers_silent|apply readChallenge_harmless|done]).
  rewrite omap_app, Hq1 in Ha. destruct ch as [ch|]; [|by destruct Hk as [-> _]; apply not_elem_of_nil in Ha].
  apply readChallenge_Some in Hch. destruct Hk as (u & tr3 & -> & Hk). cbn [prog_bind] in Hk.
  destruct u as [user|e]; [|by destruct Hk as [-> _]; apply not_elem_of_nil in Ha].
  destruct (user_TotpConfirmedAt user) eqn:Hc; cbn [has negb] in Hk; [|by destruct Hk as [-> _]; apply not_elem_of_nil in Ha].
  apply exec_bind in Hk as (tr4 & tr5 & ok & -> & Hf & Hk).
  assert (Hq4 : omap minted tr4 = []).
  { eapply (calls_only_omap factor_check); [|apply secondFactorOK_calls|done]. intros [X e x]. by destruct e. }
  change (omap minted (_ :: tr4 ++ tr5)) with (omap minted (tr4 ++ tr5)) in Ha. rewrite omap_app, Hq4 in Ha.
  destruct ok; cbn [negb] in Hk.
  - apply secondFactorOK_true in Hf. destruct Hk as (w & tr6 & -> & Hk). cbn [prog_bind] in Hk.
    apply answer_session with (arg := arg) in Hk; [|done]. exists (ch_UID ch), user. split_and!.
    + eapply challenged_mono; [|done]. set_solver.
    + apply elem_of_app. right. by left.
    + split; [by rewrite Hc|]. exists req. split; [done|]. eapply second_factor_mono; [|done]. set_solver.
    + apply mints_app; [done|]. apply (mints_app _ (_ :: tr4)); [done|]. by apply (mints_app _ [_]).
  - apply exec_bind in Hk as (tr6 & tr7 & x & -> & Hr & Hk). apply recordFailedLogin_spec in Hr as (_ & Hr & _).
    destruct Hk as (w & tr8 & -> & -> & ->). rewrite omap_app, Hr in Ha. by apply not_elem_of_nil in Ha.
Qed.

Lemma handleConfirmTOTP_mints r tr resp arg :
  exec (handleConfirmTOTP s r) tr resp → arg ∈ omap minted tr →
  session_story stageEnroll (enrollment_proved r) r tr resp arg.
Proof.
  unfold handleConfirmTOTP. destruct (decode_code _ _) as [req|] eqn:Hd; [|by intros [-> _] ?%not_elem_of_nil].
  intros (tr1 & tr2 & ch & -> & Hch & Hk)%exec_bind Ha.
  assert (Hq1 : omap minted tr1 = []) by (eapply harmless_silent; [apply observers_silent|apply readChallenge_harmless|done]).
  rewrite omap_app, Hq1 in Ha. destruct ch as [ch|]; [|by destruct Hk as [-> _]; apply not_elem_of_nil in Ha].
  apply readChallenge_Some in Hch. destruct Hk as (u & tr3 & -> & Hk). cbn [prog_bind] in Hk.
  destruct u as [user|e]; [|by destruct Hk as (w & tr4 & -> & -> & _); apply not_elem_of_nil in Ha].
  destruct (user_TotpConfirmedAt user) eqn:Hc; cbn [has] in Hk;
    [by destruct Hk as (w & tr4 & -> & -> & _); apply not_elem_of_nil in Ha|].
  destruct (Open _ (user_TotpSecret user)) as [secret|e] eqn:Ho; [|by destruct Hk as [-> _]; apply not_elem_of_nil in Ha].
  destruct Hk as (ok & tr4 & -> & Hk). cbn [prog_bind] in Hk.
  destruct ok; cbn [negb] in Hk; [|by destruct Hk as (w & tr5 & -> & -> & _); apply not_elem_of_nil in Ha].
  destruct Hk as (c & tr5 & -> & Hk). cbn [prog_bind] in Hk. destruct c as [[]|e].
  2:{ destruct e; try by destruct Hk as [-> _]; apply not_elem_of_nil in Ha.
      case_decide; [destruct Hk as (w & tr6 & -> & -> & _)|destruct Hk as [-> _]]; by apply not_elem_of_nil in Ha. }
  apply answer_session with (arg := arg) in Hk; [|done]. exists (ch_UID ch), user. split_and!.
  - eapply challenged_mono; [|done]. set_solver.
  - apply elem_of_app. right. by left.
  - split; [done|]. exists req, secret. split_and!; [done..| |]; apply elem_of_app; right; [right; by left|do 2 right; by left].
  - apply mints_app; [done|]. by apply (mints_app _ [_; _; _]).
Qed.

(** How a request earned the session [arg]. *)
Definition earned (route : Route) (r : Request) (tr : list (call AuthE)) (resp : Response) (arg : CreateSessionParams) : Prop :=
  (route = LoginTOTP ∧ session_story stageTOTP (login_proved r) r tr resp arg) ∨
  (route = ConfirmTOTP ∧ session_story stageEnroll (enrollment_proved r) r tr resp arg) ∨
  (route = OIDCCallback ∧ oidc_story s r tr resp arg).

Lemma handler_mints route r tr resp arg :
  exec (handler s route r) tr resp → arg ∈ omap minted tr → earned route r tr resp arg.
Proof.
  intros Hex Ha. destruct (signs_in route) eqn:Hs.
  - destruct route; try done; [right; left|left|right; right]; (split; [done|]).
    + by apply handleConfirmTOTP_mints.
    + by apply handleLoginTOTP_mints.
    + by apply handleOIDCCallback_mints.
  - exfalso. rewrite (calls_only_omap no_mint minted _ _ _ ltac:(intros [X e x]; by destruct e)
      (others_no_mint route r Hs) Hex) in Ha. by apply not_elem_of_nil in Ha.
Qed.

(** ** The first login step *)

(** The lock was looked at and is over (or was never set). *)
Definition unlocked (user : User) (tr : list (call AuthE)) : Prop :=
  (user_LockedUntil user = None ∧ tr = []) ∨
  ∃ until now, user_LockedUntil user = Some until ∧ tr = [Call Now now] ∧ (until ≤ now)%Z.

(** The user the name belongs to, if it may sign in with a password. *)
Definition local_user (u : result DbError User) : option User :=
  match u with Ok user => if has (user_OidcSubject user) then None else Some user | Err _ => None end.

(** The four ways the step can go once the name was looked up. *)
Inductive login_run (r : Request) (req : loginRequest) (u : result DbError User) (tr : list (call AuthE))
    (resp : Response) : Prop :=
| LoginUnknown b w :
    local_user u = None → tr = [Call (VerifyPassword (dummyPasswordHash s) (login_Password req)) b; w] →
    call_ok harmless w = true → resp = invalid_credentials → login_run r req u tr resp
| LoginLocked user until now w :
    local_user u = Some user → user_LockedUntil user = Some until → (now < until)%Z →
    tr = [Call Now now; w] → call_ok harmless w = true → resp = writeJSONError [] 423 "account_locked" →
    login_run r req u tr resp
| LoginFailed user tr1 pwOK tr2 w :
    local_user u = Some user → unlocked user tr1 → pwOK && has (user_TotpConfirmedAt user) = false →
    (if has (user_TotpConfirmedAt user) then exec (recordFailedLogin (user_ID user)) tr2 tt else tr2 = []) →
    tr = tr1 ++ Call (VerifyPassword (user_PasswordHash user) (login_Password req)) pwOK :: tr2 ++ [w] →
    call_ok harmless w = true → resp = invalid_credentials → login_run r req u tr resp
| LoginPassed user tr1 ck tr2 tr3 :
    local_user u = Some user → unlocked user tr1 → user_TotpConfirmedAt user ≠ None →
    exec (setChallengeCookie s r (user_ID user) stageTOTP totpChallengeTTL) tr2 ck →
    tr = tr1 ++ Call (VerifyPassword (user_PasswordHash user) (login_Password req)) true :: tr2 ++ tr3 →
    Forall (λ c, call_ok harmless c = true) tr3 →
    resp = match ck with Ok ck => writeJSON [ck] 200 [("state", VString "totp_required")] | Err e => e end →
    login_run r req u tr resp.

Lemma handleLogin_cases r req tr resp :
  exec (handleLogin s r) tr resp → decode_login maxAuthBodyBytes (req_Body r) = Some req →
  ∃ u tr', tr = Call (GetUserByUsername (login_Username req)) u :: tr' ∧ login_run r req u tr' resp.
Proof.
  intros Hex Hd. unfold handleLogin in Hex. rewrite Hd in Hex. destruct Hex as (u & tr1 & -> & Hk). cbn [prog_bind] in Hk.
  exists u, tr1. split; [done|]. destruct u as [user|e].
  2:{ destruct Hk as (b & tr2 & -> & w & tr3 & -> & -> & ->). by eapply LoginUnknown. }
  destruct (has (user_OidcSubject user)) eqn:Ho.
  { destruct Hk as (b & tr2 & -> & w & tr3 & -> & -> & ->). eapply LoginUnknown; try done. simpl. by rewrite Ho. }
  assert (Hu : local_user (Ok user) = Some user) by (simpl; by rewrite Ho).
  apply exec_bind in Hk as (tr2 & tr3 & lk & -> & Hl & Hk). destruct lk.
  { destruct (user_LockedUntil user) as [until|] eqn:Hlu; [|by destruct Hl].
    destruct Hl as (now & tr4 & -> & -> & E). symmetry in E. apply bool_decide_eq_true in E.
    destruct Hk as (w & tr5 & -> & -> & ->). by eapply LoginLocked. }
  assert (Hun : unlocked user tr2).
  { unfold unlocked. destruct (user_LockedUntil user) as [until|] eqn:Hlu; [|left; by destruct Hl].
    destruct Hl as (now & tr4 & -> & -> & E). symmetry in E. apply bool_decide_eq_false in E.
    right. exists until, now. split_and!; [done..|lia]. }
  destruct Hk as (pwOK & tr4 & -> & Hk). cbn [prog_bind] in Hk.
  destruct (negb pwOK || negb (has (user_TotpConfirmedAt user))) eqn:Hb.
  - apply exec_bind in Hk as (tr5 & tr6 & [] & -> & Hr & w & tr7 & -> & -> & ->).
    eapply (LoginFailed _ _ _ _ _ user tr2 pwOK tr5); try done.
    + destruct pwOK, (has (user_TotpConfirmedAt user)); done.
    + destruct pwOK, (has (user_TotpConfirmedAt user)); try done; by destruct Hr.
  - destruct pwOK, (user_TotpConfirmedAt user) eqn:Hc; try done.
    apply exec_bind in Hk as (tr5 & tr6 & ck & -> & Hs & Hk).
    eapply (LoginPassed _ _ _ _ _ user tr2 ck tr5 tr6); [done|done|by rewrite Hc|done|done|..].
    + destruct ck; [|by destruct Hk as [-> _]]. destruct Hk as (w & tr7 & -> & -> & _). by repeat constructor.
    + destruct ck; [|by destruct Hk as [_ ->]]. by destruct Hk as (w & tr7 & -> & -> & ->).
Qed.

Lemma setChallengeCookie_Err r uid stage ttl tr resp :
  exec (setChallengeCookie s r uid stage ttl) tr (Err resp) → resp = internal_error.
Proof.
  intros (now & tr1 & -> & He). cbn [prog_bind] in He.
  destruct (marshal_challenge _) as [payload|e]; [|by destruct He as [_ [= ->]]].
  apply exec_bind in He as (tr2 & tr3 & [sealed|e] & -> & _ & [_ [= ->]]). done.
Qed.

Lemma unlocked_harmless user tr : unlocked user tr → Forall (λ c, call_ok harmless c = true) tr.
Proof. intros [[_ ->]|(until & now & _ & -> & _)]; by repeat constructor. Qed.

(** What an observer that ignores harmless calls sees of a run. *)
Lemma omap_login {B} (obs : call AuthE → option B) tr1 c tr2 tr3 :
  silent obs → Forall (λ c, call_ok harmless c = true) tr1 → Forall (λ c, call_ok harmless c = true) tr3 →
  omap obs (tr1 ++ c :: tr2 ++ tr3) = omap obs [c] ++ omap obs tr2.
Proof.
  intros Ho Ht1 H3. rewrite omap_app, (Forall_silent obs tr1) by done. simpl.
  rewrite omap_app, (Forall_silent obs tr3), app_nil_r by done. by destruct (obs c).
Qed.

Definition no_lookup (X : Set) (e : AuthE X) : bool := match e with GetUserByUsername _ => false | _ => true end.

Lemma recordFailedLogin_found uid tr x : exec (recordFailedLogin uid) tr x → omap found tr = [].
Proof.
  apply (calls_only_omap no_lookup); [intros [X e y]; by destruct e|]. unfold recordFailedLogin. calls.
Qed.

(** After the look-up a failure is counted once, for a confirmed user with a wrong
    password, or nothing is counted and no confirmed user was turned away. *)
Lemma login_run_counts r req u tr resp :
  login_run r req u tr resp → omap found tr = [] ∧
  ((∃ user tr1 tr2 tr3, local_user u = Some user ∧ user_TotpConfirmedAt user ≠ None ∧
      exec (recordFailedLogin (user_ID user)) tr2 tt ∧
      tr = tr1 ++ Call (VerifyPassword (user_PasswordHash user) (login_Password req)) false :: tr2 ++ tr3 ∧
      Forall (λ c, call_ok harmless c = true) tr1 ∧ Forall (λ c, call_ok harmless c = true) tr3) ∨
   (omap counted tr = [] ∧ omap locked tr = [] ∧ omap count_reply tr = [] ∧
    ∀ user, local_user u = Some user → resp = invalid_credentials → user_TotpConfirmedAt user = None)).
Proof.
  destruct observers_silent as (_ & _ & Hsc & Hsl & _ & _ & Hsr & Hsf).
  intros [b w Hn -> Hw ->|user until now w Hu Hl Hn -> Hw ->|user tr1 pwOK tr2 w Hu Hun Hb Hr -> Hw ->
    |user tr1 ck tr2 tr3 Hu Hun Hcf Hs -> Hf ->].
  - simpl. rewrite (Hsc w Hw), (Hsl w Hw), (Hsr w Hw), (Hsf w Hw). split; [done|]. right. split_and!; [done..|].
    rewrite Hn. done.
  - simpl. rewrite (Hsc w Hw), (Hsl w Hw), (Hsr w Hw), (Hsf w Hw). split; [done|]. right. by split_and!.
  - apply unlocked_harmless in Hun. assert (H3 : Forall (λ c, call_ok harmless c = true) [w]) by by constructor.
    rewrite !omap_login by done. destruct (user_TotpConfirmedAt user) eqn:Hc; cbn [has] in *.
    + rewrite (recordFailedLogin_found _ _ _ Hr). split; [done|]. left. destruct pwOK; [done|].
      exists user, tr1, tr2, [w]. split_and!; try done. by rewrite Hc.
    + subst tr2. split; [done|]. right. split_and!; [done..|]. intros user' Hu' _. congruence.
  - apply unlocked_harmless in Hun. rewrite !omap_login by done.
    assert (Hq : ∀ B (obs : call AuthE → option B), silent obs → omap obs tr2 = []).
    { intros B obs Ho. eapply harmless_silent; [done|apply setChallengeCookie_harmless|done]. }
    rewrite !Hq by done.
    split; [done|]. right. split_and!; [done..|]. intros user' _ E. exfalso.
    destruct ck as [ck|e]; [done|]. apply setChallengeCookie_Err in Hs as ->. done.
Qed.

(** ** Creating the administrator *)
Lemma ValidatePasswordPolicy_None pw : ValidatePasswordPolicy pw = None ↔ 12 ≤ len pw ≤ 72.
Proof.
  unfold ValidatePasswordPolicy, MinPasswordLength.
  destruct (len pw <? 12) eqn:Hlo; [apply Nat.ltb_lt in Hlo|apply Nat.ltb_ge in Hlo]; [naive_solver lia|].
  destruct (72 <? len pw) eqn:Hhi; [apply Nat.ltb_lt in Hhi|apply Nat.ltb_ge in Hhi]; naive_solver lia.
Qed.

Lemma GenerateRecoveryCodes_Ok n tr codes hashes :
  exec (GenerateRecoveryCodes rand n) tr (Ok (codes, hashes)) →
  Z.of_nat (length codes) = n ∧ hashes = HashRecoveryCode <$> codes.
Proof.
  unfold GenerateRecoveryCodes. case_decide as Hn; [by intros [_ [=]]|].
  intros (bufs & Hlen & _ & -> & ->)%recovery_loop_Ok. rewrite !app_nil_l, length_fmap, list_fmap_compose.
  split; [lia|done].
Qed.

(** The stored account: hashed password, sealed seed, hashed recovery codes. *)
Definition account_of (req : redeemRequest) (tr : list (call AuthE)) (resp : Response) (arg : CreateAdminParams) : Prop :=
  ca_Username arg = redeem_Username req ∧
  Call (HashPassword (redeem_Password req)) (Ok (ca_PasswordHash arg)) ∈ tr ∧
  (∃ secret url, Call (GenerateTOTP totpIssuer (redeem_Username req)) (Ok (secret, url)) ∈ tr ∧
     Open (srv_Cipher s) (ca_SealedTOTPSecret arg) = Ok secret) ∧
  ∃ codes, length codes = 10 ∧ ca_RecoveryCodeHashes arg = HashRecoveryCode <$> codes ∧
    (resp_Status resp = 200%Z → ∃ url,
       resp_Body resp = Object [("otpauthUrl", VString url); ("recoveryCodes", VStrings codes)]).

(** Nothing else of the program stores an account. *)
Lemma createAdmin_spec req r tr resp :
  length (cipher_key (srv_Cipher s)) = aes256KeyLen →
  exec (createAdmin s req r) tr resp →
  resp_Status resp ≠ 400%Z ∧
  ∀ arg, arg ∈ omap admins tr → omap admins tr = [arg] ∧ account_of req tr resp arg.
Proof.
  intros Hkey (ph & tr1 & -> & Hk). cbn [prog_bind] in Hk.
  assert (Hsa : silent admins) by apply observers_silent.
  change (omap admins (Call (HashPassword _) ph :: tr1)) with (omap admins tr1).
  destruct ph as [passwordHash|e]; [|destruct Hk as [-> ->]; split; [done|by intros ? ?%not_elem_of_nil]].
  destruct Hk as (t & tr2 & -> & Hk). cbn [prog_bind] in Hk.
  change (omap admins (Call (GenerateTOTP _ _) t :: tr2)) with (omap admins tr2).
  destruct t as [[secret url]|e]; [|destruct Hk as [-> ->]; split; [done|by intros ? ?%not_elem_of_nil]].
  apply exec_bind in Hk as (tr3 & tr4 & sealed & -> & Hseal & Hk).
  rewrite omap_app, (harmless_silent admins _ _ _ Hsa (Seal_harmless _ _) Hseal), app_nil_l.
  destruct sealed as [sealed|e]; [|destruct Hk as [-> ->]; split; [done|by intros ? ?%not_elem_of_nil]].
  apply Seal_Ok in Hseal as (nonce & Hn & ->).
  apply exec_bind in Hk as (tr5 & tr6 & codes & -> & Hcodes & Hk).
  rewrite omap_app, (harmless_silent admins _ _ _ Hsa (GenerateRecoveryCodes_harmless _) Hcodes), app_nil_l.
  destruct codes as [[codes hashes]|e]; [|destruct Hk as [-> ->]; split; [done|by intros ? ?%not_elem_of_nil]].
  apply GenerateRecoveryCodes_Ok in Hcodes as [Hlen ->].
  destruct Hk as (u & tr7 & -> & Hk). cbn [prog_bind] in Hk.
  set (arg := {| ca_Username := _; ca_PasswordHash := _; ca_SealedTOTPSecret := _; ca_RecoveryCodeHashes := _ |}) in *.
  assert (Hend : omap admins tr7 = [] ∧ resp_Status resp ≠ 400%Z ∧ (resp_Status resp = 200%Z →
    resp_Body resp = Object [("otpauthUrl", VString url); ("recoveryCodes", VStrings codes)])).
  { destruct u as [uid|e]; [|by destruct Hk as [-> ->]].
    apply exec_bind in Hk as (tr8 & tr9 & ck & -> & Hck & Hk).
    rewrite omap_app, (harmless_silent admins _ _ _ Hsa (setChallengeCookie_harmless _ _ _ _) Hck).
    destruct ck as [ck|e]; [by destruct Hk as (w & tr10 & -> & -> & ->)|].
    apply setChallengeCookie_Err in Hck as ->. by destruct Hk as [-> ->]. }
  destruct Hend as (Hq & H400 & H200). split; [done|].
  change (omap admins (Call (CreateAdmin arg) u :: tr7)) with (arg :: omap admins tr7). rewrite Hq.
  intros arg' ->%list_elem_of_singleton. split; [done|]. split_and!; [done|by left| |].
  - exists secret, url. split; [right; by left|]. by apply Open_sealed_with.
  - exists codes. unfold recoveryCodeCount in Hlen. split_and!; [lia|done|]. intros Hst. exists url. by apply H200.
Qed.
End stories.

(** ** Properties *)

(** C6. Nobody gets a session for free: whatever the request and whatever store,
    clock, IdP and libraries answer, only three routes create a session.  The second
    login step does with an unexpired sealed challenge of that stage, for a confirmed
    user whose TOTP code was accepted or whose recovery code was consumed; the
    confirmation of an enrollment with its challenge, for an unconfirmed user whose
    code was accepted and whose confirmation the database took; the single sign-on
    callback with an unexpired sealed flow whose state the request repeats, for the
    user stored under issuer and subject of a token the IdP vouches for, with the
    flow's nonce and on the allowlist.  It is one session, for that user, stored as the
    hash of the token in the response's cookie, for twelve hours. *)
Theorem sessions_need_two_factors `{UnicodeTables, AuthJSON, OidcLib} s route r tr resp arg :
  exec (handler s route r) tr resp → arg ∈ omap minted tr →
  (route = LoginTOTP ∧ session_story s stageTOTP (login_proved s r) r tr resp arg) ∨
  (route = ConfirmTOTP ∧ session_story s stageEnroll (enrollment_proved s r) r tr resp arg) ∨
  (route = OIDCCallback ∧ oidc_story s r tr resp arg).
Proof.
  apply handler_mints.
Qed.

(** What a password login answers: an unknown name, an IdP-linked or unconfirmed
    account and a wrong password are answered alike, each after exactly one password
    comparison; a locked account is refused without comparing; and only the right
    password of a confirmed local account whose lock is over gets further: its
    cookie opens to a challenge for that user at the second stage, five minutes
    long, and creates no session. *)
Theorem login_outcomes `{UnicodeTables, AuthJSON, OidcLib} s r req tr resp :
  length (cipher_key (srv_Cipher s)) = aes256KeyLen →
  exec (handler s Login r) tr resp → decode_login maxAuthBodyBytes (req_Body r) = Some req →
  (resp = invalid_credentials ∧ length (omap compared tr) = 1) ∨
  (resp = writeJSONError [] 423 "account_locked" ∧ omap compared tr = [] ∧ ∃ user until now,
     Call (GetUserByUsername (login_Username req)) (Ok user) ∈ tr ∧ user_LockedUntil user = Some until ∧
     Call Now now ∈ tr ∧ (now < until)%Z) ∨
  (∃ user, Call (GetUserByUsername (login_Username req)) (Ok user) ∈ tr ∧
     user_OidcSubject user = None ∧ user_TotpConfirmedAt user ≠ None ∧
     (∀ until, user_LockedUntil user = Some until → ∃ now, Call Now now ∈ tr ∧ (until ≤ now)%Z) ∧
     omap compared tr = [(user_PasswordHash user, login_Password req)] ∧
     Call (VerifyPassword (user_PasswordHash user) (login_Password req)) true ∈ tr ∧
     (resp = internal_error ∨ ∃ ck payload now,
        resp = writeJSON [ck] 200 [("state", VString "totp_required")] ∧ ck_Name ck = challengeCookie ∧
        Call Now now ∈ tr ∧
        marshal_challenge {| ch_UID := user_ID user; ch_Stage := stageTOTP;
                             ch_Expires := Unix (now + totpChallengeTTL) |} = Ok payload ∧
        Open (srv_Cipher s) (ck_Value ck) = Ok payload)).
Proof.
  intros Hkey Hex Hd. destruct (handleLogin_cases s r req tr resp Hex Hd) as (u & tr' & -> & Hrun).
  assert (Hc : silent compared) by apply observers_silent.
  change (omap compared (Call (GetUserByUsername _) u :: tr')) with (omap compared tr').
  assert (Hlocal : ∀ user, local_user u = Some user → u = Ok user ∧ user_OidcSubject user = None).
  { intros user. destruct u as [user'|e]; simpl; [|done]. destruct (user_OidcSubject user') eqn:E; simpl; [done|].
    by intros [= <-]. }
  destruct Hrun as [b w _ -> Hw ->|user until now w Hu Hl Hn -> Hw ->|user tr1 pwOK tr2 w Hu Hun Hb Hr -> Hw ->
    |user tr1 ck tr2 tr3 Hu Hun Hcf Hs -> Hf ->].
  - left. split; [done|]. simpl. by rewrite (Hc w Hw).
  - right; left. destruct (Hlocal user Hu) as [-> _]. split_and!; [done|simpl; by rewrite (Hc w Hw)|].
    exists user, until, now. split_and!; [by left|done|right; by left|done].
  - left. split; [done|]. rewrite (omap_login compared) by (done || by (constructor || eapply unlocked_harmless)).
    destruct (has _); [apply recordFailedLogin_spec in Hr as (_ & _ & -> & _)|rewrite Hr]; done.
  - right; right. exists user. destruct (Hlocal user Hu) as [-> Ho]. split_and!; [by left|done|done| | |set_solver|].
    + intros t Hun'. destruct Hun as [[Hnone _]|(until' & now & Hs' & -> & Hle)]; [congruence|].
      rewrite Hs' in Hun'. injection Hun' as ->. exists now. split; [right; by left|done].
    + rewrite (omap_login compared) by (done || by eapply unlocked_harmless).
      by rewrite (harmless_silent compared _ _ _ Hc (setChallengeCookie_harmless s _ _ _ _) Hs).
    + destruct ck as [ck|e]; [right|left; by eapply setChallengeCookie_Err].
      destruct (setChallengeCookie_Ok s _ _ _ _ _ _ Hkey Hs) as (payload & now & ? & Hn & ? & ?).
      exists ck, payload, now. split_and!; [done..|set_solver|done|done].
Qed.

(** Lockout counts what it should: a failure is counted for exactly the confirmed
    local user whose password was wrong, never for an unknown, IdP-linked or
    unconfirmed account; the account is locked when and only when the count the
    database returned has reached five, for fifteen minutes. *)
Theorem lockout_counts `{UnicodeTables, AuthJSON, OidcLib} s r req tr resp :
  exec (handler s Login r) tr resp → decode_login maxAuthBodyBytes (req_Body r) = Some req →
  (∀ id, id ∈ omap counted tr → omap counted tr = [id] ∧ ∃ user, omap found tr = [Ok user] ∧ id = user_ID user ∧
     user_OidcSubject user = None ∧ user_TotpConfirmedAt user ≠ None ∧
     Call (VerifyPassword (user_PasswordHash user) (login_Password req)) false ∈ tr) ∧
  (∀ user, omap found tr = [Ok user] → user_OidcSubject user = None → user_TotpConfirmedAt user ≠ None →
     resp = invalid_credentials → omap counted tr = [user_ID user]) ∧
  (∀ id until, (id, until) ∈ omap locked tr → omap counted tr = [id] ∧ ∃ count now,
     Call (IncrementFailedLogins id) (Ok count) ∈ tr ∧ (maxFailedLogins ≤ count)%Z ∧
     Call Now now ∈ tr ∧ until = Some (now + lockoutWindow)%Z) ∧
  (∀ count, Ok count ∈ omap count_reply tr → (maxFailedLogins ≤ count)%Z → omap locked tr ≠ []).
Proof.
  intros Hex Hd. destruct (handleLogin_cases s r req tr resp Hex Hd) as (u & tr' & -> & Hrun).
  destruct observers_silent as (_ & _ & Hsc & Hsl & _ & _ & Hsr & _).
  assert (Hlocal : ∀ user, local_user u = Some user ↔ u = Ok user ∧ user_OidcSubject user = None).
  { intros user. destruct u as [user'|e]; simpl; [|naive_solver].
    destruct (user_OidcSubject user') eqn:E; simpl; naive_solver congruence. }
  destruct (login_run_counts s _ _ _ _ _ Hrun) as [Hfound Hcount].
  change (omap found (Call (GetUserByUsername _) u :: tr')) with (u :: omap found tr'). rewrite Hfound.
  change (omap counted (Call (GetUserByUsername _) u :: tr')) with (omap counted tr').
  change (omap locked (Call (GetUserByUsername _) u :: tr')) with (omap locked tr').
  change (omap count_reply (Call (GetUserByUsername _) u :: tr')) with (omap count_reply tr').
  destruct Hcount as [(user & tr1 & tr2 & tr3 & Hu & Hc & Hr & -> & Ht1 & H3)|(-> & -> & -> & Hno)].
  - apply Hlocal in Hu as [-> Ho]. rewrite !omap_login by done. cbn [omap list_omap app].
    destruct (recordFailedLogin_spec _ _ _ Hr) as (-> & _ & _ & Hlk & Hlk').
    split_and!; [| |intros id t Hin|done].
    + intros id [= ->]%list_elem_of_singleton. split; [done|]. exists user. split_and!; [done..|].
      right. apply elem_of_app. right. by left.
    + intros user' [= <-]. done.
    + destruct (Hlk _ _ Hin) as (-> & count & now & Hi & Hm & Hn & ->). split; [done|]. exists count, now.
      split_and!; [set_solver|done|set_solver|done].
  - split_and!; [by intros ? ?%not_elem_of_nil| |by intros ? ? ?%not_elem_of_nil|by intros ? ?%not_elem_of_nil].
    intros user [= ->] Ho Hc Hresp. exfalso. apply Hc, (Hno user); [by apply Hlocal|done].
Qed.

(** The install token guards bootstrap: an account is stored only while no admin is
    confirmed, for a request whose token hashes to the configured hash and whose
    user name and password meet the policy; it is one account, with the bcrypt hash
    of that password, the seed sealed so that it opens to what was generated, and
    the hashes of the ten recovery codes the response shows.  And a 400 tells
    nothing about the token: it is decided by the body's form, name and password
    alone. *)
Theorem redeem_guarded `{UnicodeTables, AuthJSON, OidcLib} s r tr resp :
  length (cipher_key (srv_Cipher s)) = aes256KeyLen →
  exec (handler s Redeem r) tr resp →
  (∀ arg, arg ∈ omap admins tr → omap admins tr = [arg] ∧ ∃ req n,
     decode_redeem maxAuthBodyBytes (req_Body r) = Some req ∧
     Call CountConfirmedAdmins (Ok n) ∈ tr ∧ (n ≤ 0)%Z ∧
     HashToken (redeem_Token req) = srv_BootstrapTokenHash s ∧
     1 ≤ len (redeem_Username req) ≤ 254 ∧ 12 ≤ len (redeem_Password req) ≤ 72 ∧
     account_of s req tr resp arg) ∧
  (resp_Status resp = 400%Z →
     match decode_redeem maxAuthBodyBytes (req_Body r) with
     | None => True
     | Some req => redeem_Username req = "" ∨ 254 < len (redeem_Username req) ∨
                   ValidatePasswordPolicy (redeem_Password req) ≠ None
     end).
Proof.
  intros Hkey Hex. change (exec (handleRedeem s r) tr resp) in Hex. unfold handleRedeem in Hex.
  destruct (decode_redeem _ _) as [req|] eqn:Hd; [|destruct Hex as [-> ->]; split; [by intros ? ?%not_elem_of_nil|done]].
  destruct Hex as (n & tr1 & -> & Hk). cbn [prog_bind] in Hk.
  change (omap admins (Call CountConfirmedAdmins n :: tr1)) with (omap admins tr1).
  destruct n as [n|e]; [|destruct Hk as [-> ->]; split; [by intros ? ?%not_elem_of_nil|done]].
  case_decide as Hn; [destruct Hk as (w & tr2 & -> & -> & ->); split; [by intros ? ?%not_elem_of_nil|done]|].
  destruct (bool_decide _ || _) eqn:Hu.
  { destruct Hk as [-> ->]. split; [by intros ? ?%not_elem_of_nil|]. intros _.
    apply orb_true_iff in Hu as [Hu|Hu]; [left; by apply bool_decide_eq_true in Hu|right; left; by apply Nat.ltb_lt in Hu]. }
  destruct (ValidatePasswordPolicy _) eqn:Hp; cbn [has] in Hk.
  { destruct Hk as [-> ->]. split; [by intros ? ?%not_elem_of_nil|]. intros _. by right; right. }
  case_decide as Ht; [destruct Hk as (w & tr2 & -> & -> & ->); split; [by intros ? ?%not_elem_of_nil|done]|].
  destruct (createAdmin_spec s req r tr1 resp Hkey Hk) as [H400 Hacc]. split; [|done].
  intros arg [Hone (Hname & Hh & (secret & url & Hg & Ho) & Hrest)]%Hacc. split; [done|]. exists req, n.
  apply orb_false_iff in Hu as [Hu1 Hu2]. apply bool_decide_eq_false in Hu1. apply Nat.ltb_ge in Hu2.
  assert (Hlen : 1 ≤ len (redeem_Username req)) by (destruct (redeem_Username req); [done|simpl; lia]).
  apply ValidatePasswordPolicy_None in Hp.
  split_and!; try done; try lia; [by left|]. split_and!; [done|by right| |done]. exists secret, url. split; [by right|done].
Qed.

(** A step-up is earned: the session is marked as freshly re-authenticated only for
    a request on a live session of a local user, after that user's TOTP code was
    accepted and, when a password was sent, the password too; and the row marked is
    the one of the request's own cookie. *)
Theorem step_up_earned `{UnicodeTables, AuthJSON, OidcLib} s r tr resp hash :
  exec (handler s StepUp r) tr resp → hash ∈ omap marked tr →
  omap marked tr = [hash] ∧ ∃ v user sess full req secret,
    cookie_value r sessionCookie = Some v ∧ hash = HashToken v ∧ session_of r tr user sess ∧ su_OIDC user = false ∧
    decode_stepUp maxAuthBodyBytes (req_Body r) = Some req ∧ Call (GetUserByID (su_ID user)) (Ok full) ∈ tr ∧
    Open (srv_Cipher s) (user_TotpSecret full) = Ok secret ∧
    Call (ValidateTOTP secret (stepup_Code req)) true ∈ tr ∧
    (stepup_Password req ≠ "" → Call (VerifyPassword (user_PasswordHash full) (stepup_Password req)) true ∈ tr).
Proof.
  intros Hex Ha. change (exec (RequireSession (handleStepUp s) r) tr resp) in Hex.
  assert (Hsm : silent marked) by apply observers_silent.
  apply exec_bind in Hex as (tr1 & tr2 & o & -> & Hs & Hk).
  rewrite omap_app, (harmless_silent marked _ _ _ Hsm (resolveSession_harmless r) Hs), app_nil_l in Ha |- *.
  destruct o as [[user sess]|]; [|by destruct Hk as [-> _]; apply not_elem_of_nil in Ha].
  apply resolveSession_Some in Hs. unfold handleStepUp in Hk.
  destruct (su_OIDC user) eqn:Ho; [by destruct Hk as [-> _]; apply not_elem_of_nil in Ha|].
  destruct (decode_stepUp _ _) as [req|] eqn:Hd; [|by destruct Hk as [-> _]; apply not_elem_of_nil in Ha].
  destruct Hk as (u & tr3 & -> & Hk). cbn [prog_bind] in Hk.
  destruct u as [full|e]; [|by destruct Hk as [-> _]; apply not_elem_of_nil in Ha].
  destruct (Open _ _) as [secret|e] eqn:Hop; [|by destruct Hk as [-> _]; apply not_elem_of_nil in Ha].
  destruct Hk as (ok & tr4 & -> & Hk). cbn [prog_bind] in Hk.
  change (omap marked (_ :: _ :: tr4)) with (omap marked tr4) in *.
  apply exec_bind in Hk as (tr5 & tr6 & ok2 & -> & Hpw & Hk).
  assert (Hq : omap marked tr5 = []).
  { destruct ok; simpl in Hpw; [|by destruct Hpw as [-> _]]. case_decide; [by destruct Hpw as [-> _]|].
    by destruct Hpw as (b & tr7 & -> & -> & _). }
  rewrite omap_app, Hq, app_nil_l in Ha |- *.
  destruct ok2; cbn [negb] in Hk; [|by destruct Hk as (w & tr7 & -> & -> & _); apply not_elem_of_nil in Ha].
  apply exec_bind in Hk as (tr7 & tr8 & m & -> & Hm & Hk).
  assert (Hq8 : omap marked tr8 = []) by (destruct m; by destruct Hk as (w & tr9 & -> & -> & _)).
  rewrite omap_app, Hq8, app_nil_r in Ha |- *.
  destruct (cookie_value r sessionCookie) as [v|] eqn:Hv; [|by destruct Hm as [-> _]; apply not_elem_of_nil in Ha].
  destruct Hm as (m' & tr9 & -> & -> & _). apply list_elem_of_singleton in Ha as ->. split; [done|].
  destruct ok; simpl in Hpw; [|by destruct Hpw].
  exists v, user, sess, full, req, secret. split_and!; try done.
  - eapply session_of_mono; [|done]. set_solver.
  - set_solver.
  - set_solver.
  - intros Hne. rewrite decide_False in Hpw by done. destruct Hpw as (b & tr7 & -> & -> & <-). set_solver.
Qed.

(** The instants the clock showed. *)
Definition clock (c : call AuthE) : option Z :=
  match c with
  | Call e x => match e in AuthE X return X → _ with Now => λ x, Some x | _ => λ _, None end x
  end.

(** The users read by ID. *)
Definition fetched (c : call AuthE) : option (result DbError User) :=
  match c with
  | Call e x => match e in AuthE X return X → _ with GetUserByID _ => λ x, Some x | _ => λ _, None end x
  end.

(** ** A worked example *)
Module AuthExample.
Definition nonce : list ascii := replicate 12 (byte 1).
Definition cipher : Cipher := {| cipher_key := byte <$> seq 0 32 |}.
Definition server : Server :=
  {| srv_Cipher := cipher; srv_BootstrapTokenHash := HashToken "install-token"; srv_OIDC := None;
     dummyPasswordHash := "dummy" |}.

Definition challenge_text (c : challenge) : string :=
  pretty (ch_UID c) +:+ "/" +:+ ch_Stage c +:+ "/" +:+ pretty (ch_Expires c).
Definition issued (stage : string) : challenge := {| ch_UID := 7; ch_Stage := stage; ch_Expires := 900 |}.

(** One request of each kind, and the two challenges. *)
#[local] Instance json : AuthJSON := {|
  decode_redeem _ _ := Some {| redeem_Token := "install-token"; redeem_Username := "ada";
                               redeem_Password := "correct horse" |};
  decode_code _ _ := Some {| code_Code := "123456" |};
  decode_login _ _ := Some {| login_Username := "ada"; login_Password := "correct horse" |};
  decode_loginTOTP _ _ := Some {| totp_Code := "123456"; totp_RecoveryCode := "" |};
  decode_stepUp _ _ := Some {| stepup_Password := "correct horse"; stepup_Code := "123456" |};
  marshal_challenge c := Ok (challenge_text c);
  unmarshal_challenge text :=
    if decide (text = challenge_text (issued stageTOTP)) then Some (issued stageTOTP)
    else if decide (text = challenge_text (issued stageEnroll)) then Some (issued stageEnroll) else None
|}.
#[local] Instance tables : UnicodeTables := ascii_tables.
#[local] Existing Instance OidcExample.lib.

Definition user (lock : Timestamptz) : User :=
  {| user_ID := 7; user_Username := "ada"; user_PasswordHash := "hash";
     user_TotpSecret := sealed_with cipher nonce "seed"; user_TotpConfirmedAt := Some 1%Z;
     user_FailedLogins := 5; user_LockedUntil := lock; user_OidcIssuer := None; user_OidcSubject := None;
     user_CreatedAt := Some 0%Z; user_UpdatedAt := Some 0%Z |}.
Definition request (stage : string) : Request :=
  {| req_Cookies := [(sessionCookie, "tok"); (challengeCookie, sealed_with cipher nonce (challenge_text (issued stage)))];
     req_RemoteAddr := "10.0.0.7:5000"; req_TLS := true; req_ForwardedProto := ""; req_Query := []; req_Body := [] |}.

(** A store with the user [ada], ten minutes in; the password is as [good] says. *)
Definition store (lock : Timestamptz) (admins : Z) (good : bool) (X : Set) (e : AuthE X) (st : unit) : X * unit :=
  (match e in AuthE X return X with
   | Now => (10 * Minute)%Z
   | RandRead n => Ok (replicate n (byte 1))
   | HashPassword _ => Ok "hash"
   | VerifyPassword _ _ => good
   | GenerateTOTP _ _ => Ok ("seed", "otpauth:")
   | ValidateTOTP secret code => bool_decide (secret = "seed" ∧ code = "123456")
   | CountConfirmedAdmins => Ok admins
   | GetUserByUsername _ => Ok (user lock)
   | GetUserByID _ => Ok (user lock)
   | ConfirmUserTOTP _ => Ok tt
   | IncrementFailedLogins _ => Ok 5%Z
   | LockUser _ _ => Ok tt
   | ResetFailedLogins _ => Ok tt
   | CreateSession _ => Ok tt
   | GetSession _ => Ok (SessionExample.session None)
   | TouchSession _ => Ok tt
   | DeleteSession _ => Ok tt
   | MarkSessionReauth _ => Ok tt
   | ConsumeRecoveryCode _ _ => Ok 1%Z
   | AppendAuditEntry _ => Ok tt
   | CreateAdmin _ => Ok 7%Z
   | GetUserByOIDC _ _ => Err ErrNoRows
   | CreateOIDCUser _ => Err ErrNoRows
   | GenerateVerifier => "verifier"
   | OAuthExchange _ _ => Ok None
   | VerifyIDToken _ => Err "no key"
   end, st).

Definition served (lock : Timestamptz) (admins : Z) (good : bool) (route : Route) : Response * list (call AuthE) * unit :=
  run (store lock admins good) (handler server route (request stageTOTP)) tt.
Lemma auth_served_exec lock admins good route :
  exec (handler server route (request stageTOTP)) (served lock admins good route).1.2 (served lock admins good route).1.1.
Proof. apply run_exec. Qed.

Definition session : CreateSessionParams :=
  {| cs_TokenHash := HashToken (of_bytes (raw_encode url_alphabet (replicate 32 (byte 1)))); cs_UserID := 7;
     cs_ExpiresAt := Some (10 * Minute + sessionTTL)%Z |}.
Example signed_in : omap minted (served None 1 true LoginTOTP).1.2 = [session].
Proof. vm_compute. reflexivity. Qed.
Example wrong_password : (served None 1 false Login).1.1 = invalid_credentials.
Proof. vm_compute. reflexivity. Qed.
Example right_password : resp_Status (served None 1 true Login).1.1 = 200%Z.
Proof. vm_compute. reflexivity. Qed.
Example redeemed : length (omap admins (served None 0 true Redeem).1.2) = 1.
Proof. vm_compute. reflexivity. Qed.
End AuthExample.

(** The second login step does not look at the lock: an account locked until later
    than every instant the clock showed is signed in, with a session and status
    200, by a caller who still holds a challenge and has a valid code. *)
Theorem second_step_ignores_lock :
  ∃ (j : AuthJSON) (l : OidcLib) s r tr resp user until arg,
    exec (@handler ascii_tables j l s LoginTOTP r) tr resp ∧ omap fetched tr = [Ok user] ∧
    user_LockedUntil user = Some until ∧ Forall (λ t, t < until)%Z (omap clock tr) ∧
    omap minted tr = [arg] ∧ cs_UserID arg = user_ID user ∧ resp_Status resp = 200%Z.
Proof.
  exists AuthExample.json, OidcExample.lib, AuthExample.server, (AuthExample.request stageTOTP).
  exists (AuthExample.served (Some (20 * Minute)%Z) 1 true LoginTOTP).1.2.
  exists (AuthExample.served (Some (20 * Minute)%Z) 1 true LoginTOTP).1.1.
  exists (AuthExample.user (Some (20 * Minute)%Z)), (20 * Minute)%Z, AuthExample.session.
  split; [apply AuthExample.auth_served_exec|]. split; [vm_compute; reflexivity|]. split; [reflexivity|].
  split; [apply (bool_decide_unpack _); vm_compute; exact I|]. split; [vm_compute; reflexivity|].
  split; [reflexivity|vm_compute; reflexivity].
Qed.

(** ** Witnesses *)
Lemma sessions_need_two_factors_witness :
  @session_story AuthExample.json AuthExample.server stageTOTP
    (@login_proved ascii_tables AuthExample.json AuthExample.server (AuthExample.request stageTOTP))
    (AuthExample.request stageTOTP) (AuthExample.served None 1 true LoginTOTP).1.2
    (AuthExample.served None 1 true LoginTOTP).1.1 AuthExample.session.
Proof.
  destruct (@sessions_need_two_factors ascii_tables AuthExample.json OidcExample.lib AuthExample.server LoginTOTP _ _ _ AuthExample.session
    (AuthExample.auth_served_exec None 1 true LoginTOTP)) as [[_ Hs]|[[Hr _]|[Hr _]]].
  - rewrite AuthExample.signed_in. left.
  - exact Hs.
  - discriminate Hr.
  - discriminate Hr.
Defined.

Lemma login_outcomes_witness :
  length (omap compared (AuthExample.served None 1 false Login).1.2) = 1.
Proof.
  destruct (@login_outcomes ascii_tables AuthExample.json OidcExample.lib AuthExample.server _ _ _ _ eq_refl
    (AuthExample.auth_served_exec None 1 false Login) eq_refl)
    as [[_ Hc]|[[Hr _]|(user & _ & _ & _ & _ & Hc & _)]].
  - exact Hc.
  - rewrite AuthExample.wrong_password in Hr. discriminate Hr.
  - rewrite Hc. reflexivity.
Defined.

Lemma lockout_counts_witness : omap counted (AuthExample.served None 1 false Login).1.2 = [7%Z].
Proof.
  destruct (@lockout_counts ascii_tables AuthExample.json OidcExample.lib AuthExample.server _ _ _ _
    (AuthExample.auth_served_exec None 1 false Login) eq_refl) as (_ & Hc & _).
  apply (Hc (AuthExample.user None)); [vm_compute; reflexivity|reflexivity|discriminate|].
  apply AuthExample.wrong_password.
Defined.

Lemma redeem_guarded_witness :
  ∃ arg, omap admins (AuthExample.served None 0 true Redeem).1.2 = [arg] ∧ length (ca_RecoveryCodeHashes arg) = 10.
Proof.
  destruct (@redeem_guarded ascii_tables AuthExample.json OidcExample.lib AuthExample.server _ _ _ eq_refl
    (AuthExample.auth_served_exec None 0 true Redeem)) as [Ha _].
  pose proof AuthExample.redeemed as Hl.
  destruct (omap admins (AuthExample.served None 0 true Redeem).1.2) as [|arg l] eqn:E; [discriminate Hl|].
  destruct (Ha arg (list_elem_of_here _ _)) as (Hone & req & n & _ & _ & _ & _ & _ & _ & _ & _ & _ & codes & Hlen & Hh & _).
  exists arg. split; [exact Hone|]. rewrite Hh, length_fmap. exact Hlen.
Defined.

Lemma step_up_earned_witness :
  omap marked (AuthExample.served None 1 true StepUp).1.2 = [HashToken "tok"].
Proof.
  refine (proj1 (@step_up_earned ascii_tables AuthExample.json OidcExample.lib AuthExample.server _ _ _ (HashToken "tok")
    (AuthExample.auth_served_exec None 1 true StepUp) _)).
  assert (E : omap marked (AuthExample.served None 1 true StepUp).1.2 = [HashToken "tok"]) by (vm_compute; reflexivity).
  rewrite E. left.
Defined.
