(* ===== verification/AuthStore.v ===== *)
(** * The dashboard's store on Postgres

    The tables behind the calls of [AuthE]: users, sessions, recovery codes and the audit
    log, with the constraints of migrations 00003, 00005 and 00006, the statements of
    [internal/db/users.sql.go], [sessions.sql.go], [recovery_codes.sql.go] and
    [audit_log.sql.go], and the one transaction of [dashboard/internal/server/store.go].
    A statement is a function on the tables that fails when a constraint on keys, uniqueness,
    references or range does; that any statement may fail for another reason, a length check
    among them, is part of a step.  Requests
    run interleaved on one store: a history is a list of calls tagged with the request
    that made them, with time passing in between. *)
From S2P Require Import Prelude GoStrings Effects Sha256 RateLimit OidcIdentity AesGcm Credentials Session Oidc Auth.
From Stdlib Require Import Ascii.

(** ** Tables *)
Record Db : Type := {
  db_users : gmap Z User;
  db_sessions : gmap string Session;
  (** [used_at] by user and hash *)
  db_codes : gmap (Z * string) Timestamptz;
  db_audit : list AppendAuditEntryParams;
  (** every generated key is below *)
  db_next : Z;
  (** [now()] *)
  db_time : Z;
}.

Definition with_users (s : Db) (u : gmap Z User) : Db :=
  {| db_users := u; db_sessions := db_sessions s; db_codes := db_codes s; db_audit := db_audit s;
     db_next := db_next s; db_time := db_time s |}.
Definition with_sessions (s : Db) (x : gmap string Session) : Db :=
  {| db_users := db_users s; db_sessions := x; db_codes := db_codes s; db_audit := db_audit s;
     db_next := db_next s; db_time := db_time s |}.
Definition with_codes (s : Db) (x : gmap (Z * string) Timestamptz) : Db :=
  {| db_users := db_users s; db_sessions := db_sessions s; db_codes := x; db_audit := db_audit s;
     db_next := db_next s; db_time := db_time s |}.
Definition with_time (s : Db) (t : Z) : Db :=
  {| db_users := db_users s; db_sessions := db_sessions s; db_codes := db_codes s; db_audit := db_audit s;
     db_next := db_next s; db_time := t |}.

(** What a statement may set of a user. *)
Definition set_user (u : User) (confirmed : Timestamptz) (failed : Z) (locked : Timestamptz) (now : Z) : User :=
  {| user_ID := user_ID u; user_Username := user_Username u; user_PasswordHash := user_PasswordHash u;
     user_TotpSecret := user_TotpSecret u; user_TotpConfirmedAt := confirmed; user_FailedLogins := failed;
     user_LockedUntil := locked; user_OidcIssuer := user_OidcIssuer u; user_OidcSubject := user_OidcSubject u;
     user_CreatedAt := user_CreatedAt u; user_UpdatedAt := Some now |}.
Definition set_session (x : Session) (used reauth : Timestamptz) : Session :=
  {| sess_TokenHash := sess_TokenHash x; sess_UserID := sess_UserID x; sess_CreatedAt := sess_CreatedAt x;
     sess_ExpiresAt := sess_ExpiresAt x; sess_LastUsedAt := used; sess_ReauthAt := reauth |}.

Definition confirmed (u : User) : Prop := user_TotpConfirmedAt u ≠ None.
#[export] Instance confirmed_dec u : Decision (confirmed u).
Proof. unfold confirmed. apply _. Defined.
(** A row [DeleteUnconfirmedUsers] removes. *)
Definition unconfirmed (u : User) : Prop := user_TotpConfirmedAt u = None ∧ user_OidcSubject u = None.
#[export] Instance unconfirmed_dec u : Decision (unconfirmed u).
Proof. unfold unconfirmed. apply _. Defined.

Section store.
(** Postgres' [lower] *)
Context (lower : string → string).

(** ** Statements: the result and the tables after, or a violated constraint *)
Definition countConfirmedAdmins (s : Db) : Z := Z.of_nat (size (filter (λ p, confirmed p.2) (db_users s))).

Definition confirmUserTOTP (id : Z) (s : Db) : option (unit * Db) :=
  match db_users s !! id with
  | None => Some (tt, s)
  | Some u =>
      if decide (map_Forall (λ j v, j = id ∨ ¬ confirmed v) (db_users s)) then
        Some (tt, with_users s (<[id := set_user u (Some (db_time s)) (user_FailedLogins u) (user_LockedUntil u) (db_time s)]> (db_users s)))
      else None
  end.

Definition incrementFailedLogins (id : Z) (s : Db) : option (Z * Db) :=
  match db_users s !! id with
  | None => None
  | Some u =>
      let n := (user_FailedLogins u + 1)%Z in
      if decide (n < 2 ^ 31)%Z then
        Some (n, with_users s (<[id := set_user u (user_TotpConfirmedAt u) n (user_LockedUntil u) (db_time s)]> (db_users s)))
      else None
  end.

Definition lockUser (id : Z) (until : Timestamptz) (s : Db) : option (unit * Db) :=
  Some (tt, with_users s (alter (λ u, set_user u (user_TotpConfirmedAt u) (user_FailedLogins u) until (db_time s)) id (db_users s))).
Definition resetFailedLogins (id : Z) (s : Db) : option (unit * Db) :=
  Some (tt, with_users s (alter (λ u, set_user u (user_TotpConfirmedAt u) 0 None (db_time s)) id (db_users s))).

Definition createSession (arg : CreateSessionParams) (s : Db) : option (unit * Db) :=
  match db_users s !! cs_UserID arg, db_sessions s !! cs_TokenHash arg with
  | Some _, None =>
      Some (tt, with_sessions s (<[cs_TokenHash arg :=
        {| sess_TokenHash := cs_TokenHash arg; sess_UserID := cs_UserID arg; sess_CreatedAt := Some (db_time s);
           sess_ExpiresAt := cs_ExpiresAt arg; sess_LastUsedAt := Some (db_time s); sess_ReauthAt := None |}]> (db_sessions s)))
  | _, _ => None
  end.
Definition live (s : Db) (x : Session) : Prop := match sess_ExpiresAt x with Some t => (db_time s < t)%Z | None => False end.
#[export] Instance live_dec s x : Decision (live s x).
Proof. unfold live. destruct (sess_ExpiresAt x); apply _. Defined.
Definition touchSession (h : string) (s : Db) : option (unit * Db) :=
  Some (tt, with_sessions s (alter (λ x, set_session x (Some (db_time s)) (sess_ReauthAt x)) h (db_sessions s))).
Definition deleteSession (h : string) (s : Db) : option (unit * Db) := Some (tt, with_sessions s (delete h (db_sessions s))).
(** No handler runs these two. *)
Definition deleteUserSessions (uid : Z) (s : Db) : option (unit * Db) :=
  Some (tt, with_sessions s (filter (λ p, sess_UserID p.2 ≠ uid) (db_sessions s))).
Definition deleteExpiredSessions (s : Db) : option (Z * Db) :=
  let kept := filter (λ p, live s p.2) (db_sessions s) in
  Some (Z.of_nat (size (db_sessions s)) - Z.of_nat (size kept), with_sessions s kept)%Z.
Definition markSessionReauth (h : string) (s : Db) : option (unit * Db) :=
  Some (tt, with_sessions s (alter (λ x, set_session x (sess_LastUsedAt x) (Some (db_time s))) h (db_sessions s))).

(** The reply is the generated key [id] of the row. *)
Definition consumeRecoveryCode (id uid : Z) (h : string) (s : Db) : option (Z * Db) :=
  match db_codes s !! (uid, h) with
  | Some None => Some (id, with_codes s (<[(uid, h) := Some (db_time s)]> (db_codes s)))
  | _ => None
  end.

Definition appendAuditEntry (arg : AppendAuditEntryParams) (s : Db) : option (unit * Db) :=
  Some (tt, {| db_users := db_users s; db_sessions := db_sessions s; db_codes := db_codes s; db_audit := db_audit s ++ [arg];
               db_next := db_next s; db_time := db_time s |}).

(** A username nobody has, whatever the case of its letters. *)
Definition name_free (name : string) (users : gmap Z User) : Prop := map_Forall (λ _ v, lower (user_Username v) ≠ lower name) users.
#[export] Instance name_free_dec name users : Decision (name_free name users).
Proof. unfold name_free. apply _. Defined.

(** A new row under the generated key [id]. *)
Definition insert_user (id : Z) (u : User) (s : Db) : Db :=
  {| db_users := <[id := u]> (db_users s); db_sessions := db_sessions s; db_codes := db_codes s; db_audit := db_audit s;
     db_next := (id + 1)%Z; db_time := db_time s |}.

Definition oidc_row (id : Z) (arg : CreateOIDCUserParams) (now : Z) : User :=
  {| user_ID := id; user_Username := co_Username arg; user_PasswordHash := ""; user_TotpSecret := "";
     user_TotpConfirmedAt := None; user_FailedLogins := 0; user_LockedUntil := None;
     user_OidcIssuer := Some (co_Issuer arg); user_OidcSubject := Some (co_Subject arg);
     user_CreatedAt := Some now; user_UpdatedAt := Some now |}.
Definition createOIDCUser (id : Z) (arg : CreateOIDCUserParams) (s : Db) : option (User * Db) :=
  if decide ((db_next s <= id)%Z ∧ name_free (co_Username arg) (db_users s) ∧
       map_Forall (λ _ v, ¬ (user_OidcIssuer v = Some (co_Issuer arg) ∧ user_OidcSubject v = Some (co_Subject arg))) (db_users s))
  then let u := oidc_row id arg (db_time s) in Some (u, insert_user id u s)
  else None.

(** Rows deleted with what refers to them. *)
Definition delete_users (D : gset Z) (s : Db) : Db :=
  {| db_users := filter (λ p, p.1 ∉ D) (db_users s); db_sessions := filter (λ p, sess_UserID p.2 ∉ D) (db_sessions s);
     db_codes := filter (λ p, p.1.1 ∉ D) (db_codes s); db_audit := db_audit s; db_next := db_next s; db_time := db_time s |}.

Definition admin_row (id : Z) (arg : CreateAdminParams) (now : Z) : User :=
  {| user_ID := id; user_Username := ca_Username arg; user_PasswordHash := ca_PasswordHash arg;
     user_TotpSecret := ca_SealedTOTPSecret arg; user_TotpConfirmedAt := None; user_FailedLogins := 0;
     user_LockedUntil := None; user_OidcIssuer := None; user_OidcSubject := None;
     user_CreatedAt := Some now; user_UpdatedAt := Some now |}.
Definition insert_codes (uid : Z) (hashes : list string) (s : Db) : Db :=
  with_codes s (foldr (λ h m, <[(uid, h) := None]> m) (db_codes s) hashes).

(** The committed transaction.  [D]: the rows its [DELETE] saw and locked; an enrollment
    another transaction commits meanwhile survives, hence any set of unconfirmed rows. *)
Definition createAdmin_tx (D : gset Z) (id : Z) (arg : CreateAdminParams) (s : Db) : option (Z * Db) :=
  let s1 := delete_users D s in
  if decide ((db_next s <= id)%Z ∧ map_Forall (λ i u, i ∉ D ∨ unconfirmed u) (db_users s) ∧
       name_free (ca_Username arg) (db_users s1) ∧ NoDup (ca_RecoveryCodeHashes arg))
  then Some (id, insert_codes id (ca_RecoveryCodeHashes arg) (insert_user id (admin_row id arg (db_time s)) s1))
  else None.

(** ** Steps *)

(** A reply to a statement with this effect: a statement that fails changes nothing,
    unless the connection broke and it is unknown whether it did. *)
Definition outcome {A} (effect : option (A * Db) → Prop) (s s' : Db) (r : result DbError A) : Prop :=
  match r with
  | Ok a => effect (Some (a, s'))
  | Err (DbFailure _) => s' = s ∨ ∃ a, effect (Some (a, s'))
  | Err _ => s' = s
  end.
Definition writes {A} (f : Db → option (A * Db)) (s s' : Db) : result DbError A → Prop := outcome (λ o, f s = o) s s'.
Definition reads {A} (P : A → Prop) (s s' : Db) (r : result DbError A) : Prop :=
  s' = s ∧ match r with Ok a => P a | Err _ => True end.

Definition db_call (s : Db) (c : call AuthE) (s' : Db) : Prop :=
  match c with
  | Call e x =>
      match e in AuthE X return X → Prop with
      | CountConfirmedAdmins => reads (λ n, n = countConfirmedAdmins s) s s'
      | GetUserByUsername name => reads (λ u, ∃ id, db_users s !! id = Some u ∧ lower (user_Username u) = lower name) s s'
      | GetUserByID id => reads (λ u, db_users s !! id = Some u) s s'
      | GetUserByOIDC iss sub => reads (λ u, ∃ id, db_users s !! id = Some u ∧ user_OidcIssuer u = Some iss ∧ user_OidcSubject u = Some sub) s s'
      | GetSession h => reads (λ x, db_sessions s !! h = Some x ∧ live s x) s s'
      | ConfirmUserTOTP id => writes (confirmUserTOTP id) s s'
      | IncrementFailedLogins id => writes (incrementFailedLogins id) s s'
      | LockUser id until => writes (lockUser id until) s s'
      | ResetFailedLogins id => writes (resetFailedLogins id) s s'
      | CreateSession arg => writes (createSession arg) s s'
      | TouchSession h => writes (touchSession h) s s'
      | DeleteSession h => writes (deleteSession h) s s'
      | MarkSessionReauth h => writes (markSessionReauth h) s s'
      | ConsumeRecoveryCode uid h => outcome (λ o, ∃ id, consumeRecoveryCode id uid h s = o) s s'
      | AppendAuditEntry arg => writes (appendAuditEntry arg) s s'
      | CreateOIDCUser arg => outcome (λ o, ∃ id, createOIDCUser id arg s = o) s s'
      | CreateAdmin arg => outcome (λ o, ∃ D id, createAdmin_tx D id arg s = o) s s'
      | _ => λ _, s' = s
      end x
  end.

(** ** Histories of interleaved requests *)
Inductive history : Db → list (nat * call AuthE) → Db → Prop :=
| history_nil s : history s [] s
| history_call s c s1 i h s2 : db_call s c s1 → history s1 h s2 → history s ((i, c) :: h) s2
| history_time s t h s2 : (db_time s <= t)%Z → history (with_time s t) h s2 → history s h s2.
End store.

(** The calls of one request. *)
Definition calls_of (i : nat) (h : list (nat * call AuthE)) : list (call AuthE) :=
  omap (λ p : nat * call AuthE, if decide (p.1 = i) then Some p.2 else None) h.

(** ** The transaction *)

(** The statements of [pgStore.CreateAdmin] on one connection. *)
Inductive TxE : Set → Type :=
| Begin : TxE (result DbError unit)
| DeleteUnconfirmedUsers : TxE (result DbError unit)
| CreateUser (username passwordHash totpSecret : string) : TxE (result DbError Z)
| InsertRecoveryCode (userID : Z) (codeHash : string) : TxE (result DbError unit)
| Commit : TxE (result DbError unit)
| Rollback : TxE (result DbError unit).

Fixpoint insert_loop (uid : Z) (hashes : list string) : prog TxE (result DbError unit) :=
  match hashes with
  | [] => Ret (Ok tt)
  | h :: hashes =>
      let! r := trigger (InsertRecoveryCode uid h) in
      match r with Err e => Ret (Err e) | Ok _ => insert_loop uid hashes end
  end.

(** [Rollback] is deferred: it runs whatever happens after [Begin]. *)
Definition pgCreateAdmin (arg : CreateAdminParams) : prog TxE (result DbError Z) :=
  let! b := trigger Begin in
  match b with
  | Err e => Ret (Err e)
  | Ok _ =>
      let! r :=
        (let! d := trigger DeleteUnconfirmedUsers in
         match d with
         | Err e => Ret (Err e)
         | Ok _ =>
             let! u := trigger (CreateUser (ca_Username arg) (ca_PasswordHash arg) (ca_SealedTOTPSecret arg)) in
             match u with
             | Err e => Ret (Err e)
             | Ok uid =>
                 let! i := insert_loop uid (ca_RecoveryCodeHashes arg) in
                 match i with
                 | Err e => Ret (Err e)
                 | Ok _ =>
                     let! c := trigger Commit in
                     Ret (match c with Err e => Err e | Ok _ => Ok uid end)
                 end
             end
         end) in
      let! _ := trigger Rollback in
      Ret r
  end.

Definition is_commit (c : call TxE) : option (result DbError unit) :=
  match c with
  | Call e x => match e in TxE X return X → _ with Commit => λ x, Some x | _ => λ _, None end x
  end.

Lemma insert_loop_calls uid hashes tr x :
  exec (insert_loop uid hashes) tr x →
  omap is_commit tr = [] ∧ (x = Ok tt → tr = (λ h, Call (InsertRecoveryCode uid h) (Ok tt)) <$> hashes).
Proof.
  revert tr. induction hashes as [|h hashes IH]; intros tr; cbn [insert_loop]; [by intros [-> ->]|].
  intros (r & tr1 & -> & Hk). cbn [prog_bind] in Hk. destruct r as [[]|e]; [|by destruct Hk as [-> ->]].
  destruct (IH _ Hk) as [Hq Hok]. split; [exact Hq|]. intros ->. by rewrite (Hok eq_refl).
Qed.

(** An administrator is made whole or not at all: whatever Postgres answers, the
    transaction commits at most once, and only after the abandoned enrollments were
    cleared, the user was inserted and every recovery code was stored for that user, in
    this order and each of them accepted; it reports success exactly when the commit was
    accepted, and rolls back afterwards in every case. *)
Theorem create_admin_atomic arg tr x :
  exec (pgCreateAdmin arg) tr x →
  (∀ uid, x = Ok uid → omap is_commit tr = [Ok tt]) ∧
  (∀ r, r ∈ omap is_commit tr → omap is_commit tr = [r] ∧ ∃ uid, x = (match r with Ok _ => Ok uid | Err e => Err e end) ∧ ∃ rb,
     tr = [Call Begin (Ok tt); Call DeleteUnconfirmedUsers (Ok tt);
           Call (CreateUser (ca_Username arg) (ca_PasswordHash arg) (ca_SealedTOTPSecret arg)) (Ok uid)] ++
          ((λ h, Call (InsertRecoveryCode uid h) (Ok tt)) <$> ca_RecoveryCodeHashes arg) ++ [Call Commit r; Call Rollback rb]).
Proof.
  intros (b & tr1 & -> & Hk). cbn [prog_bind] in Hk. destruct b as [[]|e].
  2:{ destruct Hk as [-> ->]. split; [done|by intros r ?%not_elem_of_nil]. }
  apply exec_bind in Hk as (tr2 & tr3 & y & -> & Hin & rb & tr4 & -> & -> & ->).
  destruct Hin as (d & tr5 & -> & Hk). cbn [prog_bind] in Hk.
  destruct d as [[]|e]; [|destruct Hk as [-> ->]; split; [done|by intros r ?%not_elem_of_nil]].
  destruct Hk as (u & tr6 & -> & Hk). cbn [prog_bind] in Hk.
  destruct u as [uid|e]; [|destruct Hk as [-> ->]; split; [done|by intros r ?%not_elem_of_nil]].
  apply exec_bind in Hk as (tr7 & tr8 & i & -> & Hi & Hk). destruct (insert_loop_calls _ _ _ _ Hi) as [Hq Hok].
  assert (Hcommits : ∀ l, omap is_commit (Call Begin (Ok tt) :: (Call DeleteUnconfirmedUsers (Ok tt) ::
    Call (CreateUser (ca_Username arg) (ca_PasswordHash arg) (ca_SealedTOTPSecret arg)) (Ok uid) :: tr7 ++ l) ++ [Call Rollback rb]) = omap is_commit l).
  { intros l. change (omap is_commit ((tr7 ++ l) ++ [Call Rollback rb]) = omap is_commit l).
    by rewrite !omap_app, Hq, app_nil_l, app_nil_r. }
  destruct i as [[]|e].
  2:{ destruct Hk as [-> ->]. rewrite Hcommits. split; [done|by intros r ?%not_elem_of_nil]. }
  rewrite (Hok eq_refl) in *. destruct Hk as (c & tr9 & -> & -> & ->). rewrite Hcommits. split.
  - intros uid' Hx. by destruct c as [[]|].
  - intros r ->%list_elem_of_singleton. split; [done|]. exists uid. split; [by destruct c|]. exists rb.
    cbn [app]. by rewrite <- app_assoc.
Qed.

(** ** The invariant of the tables *)
Section invariant.
Context (lower : string → string).

Record db_ok (s : Db) : Prop := {
  ok_ids : ∀ id u, db_users s !! id = Some u → user_ID u = id ∧ (id < db_next s)%Z;
  ok_single : ∀ i j u v, db_users s !! i = Some u → db_users s !! j = Some v → confirmed u → confirmed v → i = j;
  ok_names : ∀ i j u v, db_users s !! i = Some u → db_users s !! j = Some v →
    lower (user_Username u) = lower (user_Username v) → i = j;
  ok_oidc : ∀ i j u v iss sub, db_users s !! i = Some u → db_users s !! j = Some v →
    user_OidcIssuer u = Some iss → user_OidcSubject u = Some sub →
    user_OidcIssuer v = Some iss → user_OidcSubject v = Some sub → i = j;
  ok_sessions : ∀ h x, db_sessions s !! h = Some x → sess_TokenHash x = h ∧ is_Some (db_users s !! sess_UserID x);
  ok_codes : ∀ uid h t, db_codes s !! (uid, h) = Some t → is_Some (db_users s !! uid);
}.

(** What no statement changes of a row. *)
Definition same_identity (u v : User) : Prop :=
  user_ID u = user_ID v ∧ user_Username u = user_Username v ∧ user_OidcIssuer u = user_OidcIssuer v ∧
  user_OidcSubject u = user_OidcSubject v ∧ user_PasswordHash u = user_PasswordHash v ∧ user_TotpSecret u = user_TotpSecret v.
#[local] Instance same_identity_equiv : Equivalence same_identity.
Proof.
  split; unfold same_identity; [done| |].
  - intros u v (? & ? & ? & ? & ? & ?). repeat split; congruence.
  - intros u v w (? & ? & ? & ? & ? & ?) (? & ? & ? & ? & ? & ?). repeat split; congruence.
Qed.

Lemma set_user_same u c f l t : same_identity u (set_user u c f l t).
Proof. done. Qed.

(** *** Updates of users *)
Lemma users_updated_ok s users' :
  db_ok s →
  (∀ id v, users' !! id = Some v → ∃ u, db_users s !! id = Some u ∧ same_identity u v) →
  (∀ id, is_Some (db_users s !! id) → is_Some (users' !! id)) →
  (∀ i j u v, users' !! i = Some u → users' !! j = Some v → confirmed u → confirmed v → i = j) →
  db_ok (with_users s users').
Proof.
  intros [Hids Hsingle Hnames Hoidc Hsess Hcodes] Hback Hkeep Hone. split; cbn.
  - intros id v Hv. destruct (Hback _ _ Hv) as (u & Hu & (Hid & _)). destruct (Hids _ _ Hu). by rewrite <- Hid.
  - exact Hone.
  - intros i j u v Hu Hv. destruct (Hback _ _ Hu) as (u0 & Hu0 & (_ & Hn & _)), (Hback _ _ Hv) as (v0 & Hv0 & (_ & Hn' & _)).
    rewrite <- Hn, <- Hn'. by apply Hnames.
  - intros i j u v iss sub Hu Hv.
    destruct (Hback _ _ Hu) as (u0 & Hu0 & (_ & _ & <- & <- & _)), (Hback _ _ Hv) as (v0 & Hv0 & (_ & _ & <- & <- & _)).
    by apply Hoidc.
  - intros h x Hx. destruct (Hsess _ _ Hx). auto.
  - intros uid h t Ht. eauto.
Qed.

(** An update that leaves the confirmation alone. *)
Lemma alter_user_ok s id f :
  db_ok s → (∀ u, same_identity u (f u) ∧ user_TotpConfirmedAt (f u) = user_TotpConfirmedAt u) →
  db_ok (with_users s (alter f id (db_users s))).
Proof.
  intros Hok Hf. assert (Hback : ∀ j v, alter f id (db_users s) !! j = Some v → ∃ u, db_users s !! j = Some u ∧
    same_identity u v ∧ user_TotpConfirmedAt v = user_TotpConfirmedAt u).
  { intros j v. rewrite lookup_alter_Some. intros [(-> & u & Hu & ->)|[_ Hv]]; [exists u; split; [done|apply Hf]|by exists v]. }
  apply users_updated_ok; [done| | |].
  - intros j v Hv. destruct (Hback _ _ Hv) as (u & ? & ? & _). eauto.
  - intros j [u Hu]. destruct (decide (id = j)) as [<-|]; [rewrite lookup_alter_eq, Hu; by eexists|].
    by rewrite lookup_alter_ne, Hu.
  - intros i j u v Hu Hv. destruct (Hback _ _ Hu) as (u0 & Hu0 & _ & Hc), (Hback _ _ Hv) as (v0 & Hv0 & _ & Hc').
    unfold confirmed. rewrite Hc, Hc'. by apply (ok_single _ Hok i j u0 v0).
Qed.

Lemma insert_alter {A} (m : gmap Z A) id u (f : A → A) : m !! id = Some u → <[id := f u]> m = alter f id m.
Proof.
  intros Hu. apply map_eq. intros j. destruct (decide (id = j)) as [<-|Hne].
  - by rewrite lookup_insert_eq, lookup_alter_eq, Hu.
  - by rewrite lookup_insert_ne, lookup_alter_ne.
Qed.

Lemma incrementFailedLogins_ok id s n s' : incrementFailedLogins id s = Some (n, s') → db_ok s → db_ok s'.
Proof.
  unfold incrementFailedLogins. destruct (db_users s !! id) as [u|] eqn:Hu; [|done]. destruct (decide _); [|done]. intros [= _ <-] Hok.
  rewrite (insert_alter _ _ u (λ u, set_user u (user_TotpConfirmedAt u) (user_FailedLogins u + 1) (user_LockedUntil u) (db_time s))) by done.
  by apply alter_user_ok.
Qed.
Lemma confirmUserTOTP_ok id s r s' : confirmUserTOTP id s = Some (r, s') → db_ok s → db_ok s'.
Proof.
  unfold confirmUserTOTP. destruct (db_users s !! id) as [u|] eqn:Hu; [|by intros [= _ <-]].
  case_decide as Hd; [|done]. intros [= _ <-] Hok. apply users_updated_ok; [done| | |].
  - intros j v. rewrite lookup_insert_Some. intros [[<- <-]|[_ Hv]]; [by exists u|by exists v].
  - intros j Hj. destruct (decide (id = j)) as [<-|]; [by rewrite lookup_insert_eq|by rewrite lookup_insert_ne].
  - assert (Ho : ∀ j v, <[id:=set_user u (Some (db_time s)) (user_FailedLogins u) (user_LockedUntil u) (db_time s)]> (db_users s) !! j = Some v →
      confirmed v → j = id).
    { intros j v. rewrite lookup_insert_Some. intros [[<- _]|[_ Hv]] Hc; [done|]. by destruct (Hd _ _ Hv). }
    intros i j v w Hv Hw Hcv Hcw. rewrite (Ho _ _ Hv Hcv), (Ho _ _ Hw Hcw). done.
Qed.

(** *** Sessions and codes *)
Lemma sessions_updated_ok s x :
  db_ok s → (∀ h v, x !! h = Some v → sess_TokenHash v = h ∧ is_Some (db_users s !! sess_UserID v)) → db_ok (with_sessions s x).
Proof. intros [] Hx. by split. Qed.
Lemma alter_session_ok s h f :
  db_ok s → (∀ x, sess_TokenHash (f x) = sess_TokenHash x ∧ sess_UserID (f x) = sess_UserID x) →
  db_ok (with_sessions s (alter f h (db_sessions s))).
Proof.
  intros Hok Hf. apply sessions_updated_ok; [done|]. intros j v. rewrite lookup_alter_Some.
  intros [(-> & x & Hx & ->)|[_ Hv]]; [|by apply (ok_sessions _ Hok)]. destruct (Hf x) as [-> ->]. by apply (ok_sessions _ Hok).
Qed.
Lemma createSession_ok arg s r s' : createSession arg s = Some (r, s') → db_ok s → db_ok s'.
Proof.
  unfold createSession. destruct (db_users s !! cs_UserID arg) eqn:Hu; [|done].
  destruct (db_sessions s !! cs_TokenHash arg); [done|]. intros [= _ <-] Hok. apply sessions_updated_ok; [done|].
  intros h v. rewrite lookup_insert_Some. intros [[<- <-]|[_ Hv]]; [cbn; rewrite Hu; eauto|by apply (ok_sessions _ Hok)].
Qed.
Lemma sessions_filter_ok s (P : string * Session → Prop) `{∀ p, Decision (P p)} :
  db_ok s → db_ok (with_sessions s (filter P (db_sessions s))).
Proof.
  intros Hok. apply sessions_updated_ok; [done|]. intros h v [Hv _]%map_lookup_filter_Some. by apply (ok_sessions _ Hok).
Qed.
Lemma deleteUserSessions_ok uid s r s' : deleteUserSessions uid s = Some (r, s') → db_ok s → db_ok s'.
Proof. intros [= _ <-]. apply sessions_filter_ok. Qed.
Lemma deleteExpiredSessions_ok s n s' : deleteExpiredSessions s = Some (n, s') → db_ok s → db_ok s'.
Proof. intros [= _ <-]. apply sessions_filter_ok. Qed.
Lemma consumeRecoveryCode_ok id uid h s r s' : consumeRecoveryCode id uid h s = Some (r, s') → db_ok s → db_ok s'.
Proof.
  unfold consumeRecoveryCode. destruct (db_codes s !! (uid, h)) as [[|]|] eqn:Hc; [done| |done]. intros [= _ <-] Hok.
  destruct Hok. split; try done. cbn. intros uid' h' t. rewrite lookup_insert_Some. intros [[[= <- <-] _]|[_ ?]]; eauto.
Qed.

(** *** New users *)
Lemma insert_user_ok s id u :
  db_ok s → (db_next s <= id)%Z → user_ID u = id → ¬ confirmed u →
  name_free lower (user_Username u) (db_users s) →
  map_Forall (λ _ v, ∀ sub, user_OidcSubject u = Some sub → ¬ (user_OidcIssuer v = user_OidcIssuer u ∧ user_OidcSubject v = Some sub)) (db_users s) →
  db_ok (insert_user id u s).
Proof.
  intros Hok Hn Hid Hc Hname Hoidc. pose proof Hok as [Hids Hsingle Hnames Ho Hsess Hcodes].
  assert (Hnew : ∀ j v, db_users s !! j = Some v → j ≠ id) by (intros j v Hj ->; destruct (Hids _ _ Hj); lia).
  split; cbn.
  - intros j v. rewrite lookup_insert_Some. intros [[<- <-]|[_ Hv]]; [split; [done|lia]|]. destruct (Hids _ _ Hv). split; [done|lia].
  - intros i j a b. rewrite !lookup_insert_Some. intros [[<- <-]|[_ Ha]] [[<- <-]|[_ Hb]]; try done. by apply Hsingle.
  - intros i j a b. rewrite !lookup_insert_Some. intros [[<- <-]|[_ Ha]] [[<- <-]|[_ Hb]] Hl; [done| | |by eapply Hnames].
    + by destruct (Hname _ _ Hb).
    + by destruct (Hname _ _ Ha).
  - intros i j a b iss sub. rewrite !lookup_insert_Some. intros [[<- <-]|[_ Ha]] [[<- <-]|[_ Hb]] Hi1 Hs1 Hi2 Hs2; [done| | |by eapply Ho].
    + destruct (Hoidc _ _ Hb sub Hs1). by rewrite Hi1.
    + destruct (Hoidc _ _ Ha sub Hs2). by rewrite Hi2.
  - intros h x Hx. destruct (Hsess _ _ Hx) as [? [w Hw]]. split; [done|].
    rewrite lookup_insert_ne by (symmetry; by eapply Hnew). by exists w.
  - intros uid h t Ht. destruct (Hcodes _ _ _ Ht) as [w Hw]. rewrite lookup_insert_ne by (symmetry; by eapply Hnew). by exists w.
Qed.
Lemma createOIDCUser_ok id arg s u s' : createOIDCUser lower id arg s = Some (u, s') → db_ok s → db_ok s'.
Proof.
  unfold createOIDCUser. case_decide as Hd; [|done]. destruct Hd as (Hn & Hname & Hoidc). intros [= _ <-] Hok.
  apply insert_user_ok; [done|done|done|by intros []|done|]. intros j v Hv sub [= <-]. by apply (Hoidc j).
Qed.

Lemma delete_users_ok D s : db_ok s → db_ok (delete_users D s).
Proof.
  intros [Hids Hsingle Hnames Ho Hsess Hcodes]. split; cbn.
  - intros id u [Hu _]%map_lookup_filter_Some. by apply Hids.
  - intros i j u v [Hu _]%map_lookup_filter_Some [Hv _]%map_lookup_filter_Some. by apply Hsingle.
  - intros i j u v [Hu _]%map_lookup_filter_Some [Hv _]%map_lookup_filter_Some. by apply Hnames.
  - intros i j u v iss sub [Hu _]%map_lookup_filter_Some [Hv _]%map_lookup_filter_Some. by apply Ho.
  - intros h x [Hx Hd]%map_lookup_filter_Some. destruct (Hsess _ _ Hx) as [? [w Hw]]. split; [done|]. exists w.
    by apply map_lookup_filter_Some.
  - intros uid h t [Ht Hd]%map_lookup_filter_Some. destruct (Hcodes _ _ _ Ht) as [w Hw]. exists w. by apply map_lookup_filter_Some.
Qed.
Lemma insert_codes_lookup (uid : Z) (hashes : list string) (m : gmap (Z * string) Timestamptz) (k : Z * string) :
  foldr (λ h m, <[(uid, h) := None]> m) m hashes !! k =
  if decide (k.1 = uid ∧ k.2 ∈ hashes) then Some None else m !! k.
Proof.
  induction hashes as [|h hashes IH]; cbn [foldr]; [rewrite decide_False by set_solver; done|].
  destruct (decide (k = (uid, h))) as [->|Hne].
  - rewrite lookup_insert_eq, decide_True; [done|]. cbn. set_solver.
  - rewrite lookup_insert_ne, IH by done. destruct k as [a b]. cbn in *.
    destruct (decide (a = uid ∧ b ∈ hashes)), (decide (a = uid ∧ b ∈ h :: hashes)); try done; exfalso; set_solver.
Qed.
Lemma createAdmin_tx_ok D id arg s r s' : createAdmin_tx lower D id arg s = Some (r, s') → db_ok s → db_ok s'.
Proof.
  unfold createAdmin_tx. cbv zeta. case_decide as Hd; [|done]. destruct Hd as (Hn & _ & Hname & _). intros [= _ <-] Hok.
  assert (Hi : db_ok (insert_user id (admin_row id arg (db_time s)) (delete_users D s))).
  { apply insert_user_ok; [by apply delete_users_ok|done|done|by intros []|done|]. by intros j v _ sub [=]. }
  destruct Hi as [H1 H2 H3 H4 H5 H6]. split; try done. cbn. intros uid h t. rewrite insert_codes_lookup. cbn.
  destruct (decide (uid = id ∧ h ∈ ca_RecoveryCodeHashes arg)) as [[-> _]|]; [by rewrite lookup_insert_eq|apply H6].
Qed.

Lemma outcome_elim {A} (P : Db → Prop) (effect : option (A * Db) → Prop) s s' r :
  outcome effect s s' r → P s → (∀ a, effect (Some (a, s')) → P s') → P s'.
Proof.
  destruct r as [a|[|code|text]]; cbn; [intros He _ Hf; by apply (Hf a)|by intros ->|by intros ->|].
  intros [->|[a He]] Hs Hf; [done|by apply (Hf a)].
Qed.

Lemma db_call_ok s c s' : db_call lower s c s' → db_ok s → db_ok s'.
Proof.
  destruct c as [X e x]. destruct e; cbn; try (by intros ->); try (by intros [-> _]);
    intros Ho Hok; revert Ho; (intros Ho; eapply (outcome_elim db_ok _ _ _ _ Ho Hok)); intros a Heff.
  - by eapply confirmUserTOTP_ok.
  - by eapply incrementFailedLogins_ok.
  - injection Heff as _ <-. by apply alter_user_ok.
  - injection Heff as _ <-. by apply alter_user_ok.
  - by eapply createSession_ok.
  - injection Heff as _ <-. by apply alter_session_ok.
  - injection Heff as _ <-. apply sessions_updated_ok; [done|]. intros h v [_ Hv]%lookup_delete_Some. by apply (ok_sessions _ Hok).
  - injection Heff as _ <-. by apply alter_session_ok.
  - destruct Heff as [id Heff]. by eapply consumeRecoveryCode_ok.
  - injection Heff as _ <-. by destruct Hok.
  - destruct Heff as (D & id & Heff). by eapply createAdmin_tx_ok.
  - destruct Heff as [id Heff]. by eapply createOIDCUser_ok.
Qed.

(** ** What one call can change *)
Definition minted_as (c : call AuthE) (h : string) (x : Session) : Prop :=
  ∃ arg, minted c = Some arg ∧ cs_TokenHash arg = h ∧ cs_UserID arg = sess_UserID x ∧ cs_ExpiresAt arg = sess_ExpiresAt x.

Record moves (s : Db) (c : call AuthE) (s' : Db) : Prop := {
  mv_next : (db_next s <= db_next s')%Z;
  mv_users : ∀ id v, db_users s' !! id = Some v →
    (∃ u, db_users s !! id = Some u ∧ same_identity u v) ∨ (db_next s <= id)%Z;
  mv_confirmed : ∀ id u, db_users s !! id = Some u → confirmed u → ∃ v, db_users s' !! id = Some v ∧ confirmed v;
  mv_audit : db_audit s `prefix_of` db_audit s';
  mv_sessions : ∀ h x, db_sessions s' !! h = Some x →
    (∃ x0, db_sessions s !! h = Some x0 ∧ sess_UserID x0 = sess_UserID x ∧ sess_ExpiresAt x0 = sess_ExpiresAt x) ∨ minted_as c h x;
  mv_codes : ∀ k, db_codes s' !! k = Some None → db_codes s !! k = Some None ∨ (db_next s <= k.1)%Z;
}.

Lemma moves_refl s c : moves s c s.
Proof. split; [done|intros id v Hv; left; exists v; split; [done|reflexivity]|eauto|done|intros h x Hx; left; by exists x|auto]. Qed.

Lemma moves_users s c users' :
  (∀ id v, users' !! id = Some v → ∃ u, db_users s !! id = Some u ∧ same_identity u v) →
  (∀ id u, db_users s !! id = Some u → confirmed u → ∃ v, users' !! id = Some v ∧ confirmed v) →
  moves s c (with_users s users').
Proof. intros Hu Hc. split; cbn; [done|intros; left; auto|done|done|intros h x Hx; left; by exists x|auto]. Qed.
Lemma moves_alter_user s c id f :
  (∀ u, same_identity u (f u) ∧ user_TotpConfirmedAt (f u) = user_TotpConfirmedAt u) →
  moves s c (with_users s (alter f id (db_users s))).
Proof.
  intros Hf. apply moves_users.
  - intros j v. rewrite lookup_alter_Some. intros [(-> & u & Hu & ->)|[_ Hv]]; [exists u; split; [done|apply Hf]|by exists v].
  - intros j u Hu Hc. destruct (decide (id = j)) as [<-|]; [rewrite lookup_alter_eq, Hu|rewrite lookup_alter_ne, Hu by done]; eexists;
      (split; [done|]); [|done]. unfold confirmed. by rewrite (proj2 (Hf u)).
Qed.
Lemma moves_sessions s c x :
  (∀ h v, x !! h = Some v → (∃ x0, db_sessions s !! h = Some x0 ∧ sess_UserID x0 = sess_UserID v ∧ sess_ExpiresAt x0 = sess_ExpiresAt v) ∨
     minted_as c h v) →
  moves s c (with_sessions s x).
Proof. intros Hx. split; cbn; [done|intros id v Hv; left; exists v; split; [done|reflexivity]|eauto|done|done|auto]. Qed.
Lemma moves_alter_session s c h f :
  (∀ x, sess_UserID (f x) = sess_UserID x ∧ sess_ExpiresAt (f x) = sess_ExpiresAt x) →
  moves s c (with_sessions s (alter f h (db_sessions s))).
Proof.
  intros Hf. apply moves_sessions. intros j v Hv. rewrite lookup_alter_Some in Hv. left.
  destruct Hv as [(-> & x & Hx & ->)|[_ Hv]]; [exists x; by destruct (Hf x) as [-> ->]|by exists v].
Qed.

Lemma createSession_moves arg r x s s' : createSession arg s = Some (x, s') → moves s (Call (CreateSession arg) r) s'.
Proof.
  unfold createSession. destruct (db_users s !! cs_UserID arg); [|done]. destruct (db_sessions s !! cs_TokenHash arg); [done|].
  intros [= _ <-]. apply moves_sessions. intros h v. rewrite lookup_insert_Some.
  intros [[<- <-]|[_ Hv]]; [right; by exists arg|left; by exists v].
Qed.
Lemma confirmUserTOTP_moves id c x s s' : confirmUserTOTP id s = Some (x, s') → moves s c s'.
Proof.
  unfold confirmUserTOTP. destruct (db_users s !! id) as [u|] eqn:Hu; [|intros [= _ <-]; apply moves_refl].
  case_decide; [|done]. intros [= _ <-]. apply moves_users.
  - intros j v. rewrite lookup_insert_Some. intros [[<- <-]|[_ Hv]]; [by exists u|by exists v].
  - intros j v Hv Hc. destruct (decide (id = j)) as [<-|]; [rewrite lookup_insert_eq|rewrite lookup_insert_ne by done]; by eexists.
Qed.
Lemma insert_user_moves s c id u : (db_next s <= id)%Z → db_ok s → moves s c (insert_user id u s).
Proof.
  intros Hn Hok. split; cbn; [lia| | |done|intros h x Hx; left; by exists x|auto].
  - intros j v. rewrite lookup_insert_Some. intros [[<- _]|[_ Hv]]; [by right|left; by exists v].
  - intros j v Hv Hc. destruct (ok_ids _ Hok _ _ Hv). rewrite lookup_insert_ne by lia. by exists v.
Qed.
Lemma createAdmin_tx_moves D id arg c x s s' : createAdmin_tx lower D id arg s = Some (x, s') → db_ok s → moves s c s'.
Proof.
  unfold createAdmin_tx. cbv zeta. case_decide as Hd; [|done]. destruct Hd as (Hn & HD & _ & _). intros [= _ <-] Hok.
  split; cbn; [lia| | |done| |].
  - intros j v. rewrite lookup_insert_Some. intros [[<- _]|[_ [Hv _]%map_lookup_filter_Some]]; [by right|left; by exists v].
  - intros j v Hv Hc. destruct (decide (id = j)) as [<-|]; [rewrite lookup_insert_eq|rewrite lookup_insert_ne by done].
    + destruct (ok_ids _ Hok _ _ Hv). lia.
    + exists v. split; [|done]. apply map_lookup_filter_Some. split; [done|]. cbn. by destruct (HD _ _ Hv) as [|[? _]].
  - intros h y [Hy _]%map_lookup_filter_Some. left. by exists y.
  - intros k. rewrite insert_codes_lookup. case_decide as Hk; [right; by destruct Hk as [-> _]|].
    intros [Ht _]%map_lookup_filter_Some. by left.
Qed.

Lemma db_call_moves s c s' : db_ok s → db_call lower s c s' → moves s c s'.
Proof.
  intros Hok. destruct c as [X e x]. pose proof (moves_refl s (Call e x)) as Hrefl. revert Hrefl.
  destruct e; cbn; intros Hrefl; try (by intros ->); try (by intros [-> _]);
    intros Ho; eapply (outcome_elim (moves s _) _ _ _ _ Ho Hrefl); intros a Heff.
  - by eapply confirmUserTOTP_moves.
  - unfold incrementFailedLogins in Heff. destruct (db_users s !! id) as [u|] eqn:Hu; [|done].
    destruct (decide _) in Heff; [|done]. injection Heff as _ <-.
    rewrite (insert_alter _ _ u (λ u, set_user u (user_TotpConfirmedAt u) (user_FailedLogins u + 1) (user_LockedUntil u) (db_time s))) by done.
    by apply moves_alter_user.
  - injection Heff as _ <-. by apply moves_alter_user.
  - injection Heff as _ <-. by apply moves_alter_user.
  - by eapply createSession_moves.
  - injection Heff as _ <-. by apply moves_alter_session.
  - injection Heff as _ <-. apply moves_sessions. intros h v [_ Hv]%lookup_delete_Some. left. by exists v.
  - injection Heff as _ <-. by apply moves_alter_session.
  - destruct Heff as [id Heff]. unfold consumeRecoveryCode in Heff.
    destruct (db_codes s !! (userID, codeHash)) as [[|]|]; [done| |done]. injection Heff as _ <-.
    destruct Hrefl. split; try done. cbn. intros k. rewrite lookup_insert_Some. intros [[_ [=]]|[_ Hk]]. by left.
  - injection Heff as _ <-. destruct Hrefl. split; try done. cbn. by apply prefix_app_r.
  - destruct Heff as (D & id & Heff). by eapply createAdmin_tx_moves.
  - destruct Heff as [id Heff]. unfold createOIDCUser in Heff. case_decide as Hd; [|done]. injection Heff as _ <-.
    apply insert_user_moves; [apply Hd|done].
Qed.

(** ** Histories *)
Lemma with_time_ok s t : db_ok s → db_ok (with_time s t).
Proof. by intros []. Qed.

Lemma history_ok s h s' : history lower s h s' → db_ok s → db_ok s'.
Proof.
  induction 1 as [|s c s1 i h s2 Hc _ IH|s t h s2 _ _ IH]; [done|intros Hok; by eapply IH, db_call_ok|].
  intros Hok. by apply IH, with_time_ok.
Qed.

Lemma history_kept s h s' : history lower s h s' → db_ok s →
  db_audit s `prefix_of` db_audit s' ∧
  ∀ id u, db_users s !! id = Some u → confirmed u → ∃ v, db_users s' !! id = Some v ∧ confirmed v.
Proof.
  induction 1 as [s|s c s1 i h s2 Hc _ IH|s t h s2 _ _ IH]; intros Hok; [split; eauto| |by apply IH, with_time_ok].
  destruct (IH (db_call_ok _ _ _ Hc Hok)) as [Ha Hu]. pose proof (db_call_moves _ _ _ Hok Hc) as Hm. split.
  - etrans; [apply (mv_audit _ _ _ Hm)|done].
  - intros id u Hid Hcf. destruct (mv_confirmed _ _ _ Hm _ _ Hid Hcf) as (v & Hv & Hcv). by eapply Hu.
Qed.

(** *** Rows that were shown *)
Definition shown (c : call AuthE) : option User :=
  match c with
  | Call e x =>
      match e in AuthE X return X → _ with
      | GetUserByUsername _ => λ r, match r with Ok u => Some u | Err _ => None end
      | GetUserByID _ => λ r, match r with Ok u => Some u | Err _ => None end
      | GetUserByOIDC _ _ => λ r, match r with Ok u => Some u | Err _ => None end
      | CreateOIDCUser _ => λ r, match r with Ok u => Some u | Err _ => None end
      | _ => λ _, None
      end x
  end.

Lemma shown_stored s c s' u : db_ok s → db_call lower s c s' → shown c = Some u → db_users s' !! user_ID u = Some u.
Proof.
  intros Hok. destruct c as [X e x]. destruct e; cbn; try done; destruct x as [v|]; try done.
  - intros [-> (id & Hid & _)] [= ->]. by rewrite (proj1 (ok_ids _ Hok _ _ Hid)).
  - intros [-> Hid] [= ->]. by rewrite (proj1 (ok_ids _ Hok _ _ Hid)).
  - intros [-> (id & Hid & _)] [= ->]. by rewrite (proj1 (ok_ids _ Hok _ _ Hid)).
  - intros [id Heff] [= ->]. unfold createOIDCUser in Heff. case_decide; [|done]. injection Heff as <- <-. cbn.
    by rewrite lookup_insert_eq.
Qed.

(** A row shown later under an old key is that row. *)
Lemma shown_old s h s' i c u :
  history lower s h s' → db_ok s → (i, c) ∈ h → shown c = Some u → (user_ID u < db_next s)%Z →
  ∃ u0, db_users s !! user_ID u = Some u0 ∧ same_identity u0 u.
Proof.
  induction 1 as [|s c1 s1 j h s2 Hc _ IH|s t h s2 _ _ IH]; intros Hok Hin Hs Hold; [by apply not_elem_of_nil in Hin| |].
  - pose proof (db_call_moves _ _ _ Hok Hc) as Hm.
    assert (Hu1 : ∃ u1, db_users s1 !! user_ID u = Some u1 ∧ same_identity u1 u).
    { apply elem_of_cons in Hin as [[= <- <-]|Hin].
      - exists u. split; [by eapply shown_stored|reflexivity].
      - apply IH; [by eapply db_call_ok|done|done|]. pose proof (mv_next _ _ _ Hm). lia. }
    destruct Hu1 as (u1 & Hu1 & Hsame). destruct (mv_users _ _ _ Hm _ _ Hu1) as [(u0 & Hu0 & Hs0)|]; [|lia].
    exists u0. split; [done|]. by etrans.
  - by apply (IH (with_time_ok _ _ Hok)).
Qed.

(** All rows shown under one key are one user. *)
Lemma shown_same s h s' i j c d u v :
  history lower s h s' → db_ok s → (i, c) ∈ h → (j, d) ∈ h → shown c = Some u → shown d = Some v →
  user_ID u = user_ID v → same_identity u v.
Proof.
  induction 1 as [|s c1 s1 k h s2 Hc Hh IH|s t h s2 _ _ IH]; intros Hok Hi Hj Hu Hv Hid; [by apply not_elem_of_nil in Hi| |].
  - pose proof (db_call_ok _ _ _ Hc Hok) as Hok1.
    assert (Hhead : ∀ a w, shown c1 = Some a → ∀ n e, (n, e) ∈ h → shown e = Some w → user_ID w = user_ID a → same_identity a w).
    { intros a w Ha n e He Hw Heq. pose proof (shown_stored _ _ _ _ Hok Hc Ha) as Hst.
      destruct (shown_old _ _ _ _ _ _ Hh Hok1 He Hw) as (u0 & Hu0 & Hs0).
      - rewrite Heq. by apply (ok_ids _ Hok1 _ _ Hst).
      - rewrite Heq, Hst in Hu0. by injection Hu0 as ->. }
    apply elem_of_cons in Hi as [[= -> ->]|Hi]; apply elem_of_cons in Hj as [[= -> ->]|Hj].
    + rewrite Hu in Hv. injection Hv as ->. reflexivity.
    + by eapply Hhead.
    + symmetry. by eapply Hhead.
    + by eapply IH.
  - by apply (IH (with_time_ok _ _ Hok)).
Qed.

Lemma fetched_key s h s' i id u :
  history lower s h s' → db_ok s → (i, Call (GetUserByID id) (Ok u)) ∈ h → user_ID u = id.
Proof.
  induction 1 as [|s c s1 k h s2 Hc _ IH|s t h s2 _ _ IH]; intros Hok Hin; [by apply not_elem_of_nil in Hin| |].
  - apply elem_of_cons in Hin as [Heq|Hin]; [|by apply IH; [eapply db_call_ok|]]. injection Heq as _ <-.
    destruct Hc as [_ Hid]. by apply (ok_ids _ Hok).
  - by apply (IH (with_time_ok _ _ Hok)).
Qed.

(** *** Where sessions come from *)
Definition session_shown (c : call AuthE) : option (string * Session) :=
  match c with
  | Call e x =>
      match e in AuthE X return X → _ with
      | GetSession h => λ r, match r with Ok x => Some (h, x) | Err _ => None end
      | _ => λ _, None
      end x
  end.

Lemma session_created s h0 i c h1 s' h x :
  history lower s (h0 ++ (i, c) :: h1) s' → db_ok s → session_shown c = Some (h, x) →
  sess_TokenHash x = h ∧
  ((∃ x0, db_sessions s !! h = Some x0 ∧ sess_UserID x0 = sess_UserID x ∧ sess_ExpiresAt x0 = sess_ExpiresAt x) ∨
   ∃ j d, (j, d) ∈ h0 ∧ minted_as d h x).
Proof.
  intros Hh. remember (h0 ++ (i, c) :: h1) as hh eqn:Heq. revert h0 Heq.
  induction Hh as [s|s c1 s1 k hh s2 Hc Hh IH|s t hh s2 _ Hh IH]; intros h0 Heq Hok Hs.
  - by destruct h0.
  - destruct h0 as [|[k' c'] h0]; injection Heq as -> -> ->.
    + destruct c as [X e y]. destruct e; try done. cbn in Hs, Hc. destruct y as [y|]; [|done]. injection Hs as -> ->.
      destruct Hc as [-> [Hy _]]. split; [by apply (ok_sessions _ Hok)|]. left. by exists x.
    + destruct (IH h0 eq_refl (db_call_ok _ _ _ Hc Hok) Hs) as [Hth [(x0 & Hx0 & Hu & He)|(j & d & Hd & Hm)]]; (split; [done|]).
      * destruct (mv_sessions _ _ _ (db_call_moves _ _ _ Hok Hc) _ _ Hx0) as [(y & Hy & Hyu & Hye)|(arg & Ha & Hh' & Hu' & He')].
        -- left. exists y. split_and!; [done|congruence|congruence].
        -- right. exists k', c'. split; [by left|]. exists arg. split_and!; [done|done|congruence|congruence].
      * right. exists j, d. split; [by right|done].
  - by apply IH; [|apply with_time_ok|].
Qed.

(** *** Recovery codes *)
Definition used (uid : Z) (h : string) (c : call AuthE) : bool :=
  match c with
  | Call e x =>
      match e in AuthE X return X → bool with
      | ConsumeRecoveryCode u k => λ r, bool_decide (u = uid ∧ k = h) && is_ok r
      | _ => λ _, false
      end x
  end.

(** A code that is gone, and of a user that existed. *)
Definition spent (s : Db) (uid : Z) (h : string) : Prop := (uid < db_next s)%Z ∧ db_codes s !! (uid, h) ≠ Some None.

Lemma spent_step s c s' uid h : db_ok s → db_call lower s c s' → spent s uid h → spent s' uid h ∧ used uid h c = false.
Proof.
  intros Hok Hc [Hn Hs]. pose proof (db_call_moves _ _ _ Hok Hc) as Hm. split.
  - split; [pose proof (mv_next _ _ _ Hm); lia|]. intros Hc'. destruct (mv_codes _ _ _ Hm _ Hc'); [done|cbn in *; lia].
  - destruct c as [X e x]. destruct e; try done. cbn in *. destruct x as [id|e]; cbn; [|by rewrite andb_false_r].
    rewrite andb_true_r. apply bool_decide_eq_false. intros [-> ->]. destruct Hc as [id' Heff].
    unfold consumeRecoveryCode in Heff. by destruct (db_codes s !! (uid, h)) as [[|]|].
Qed.
Lemma used_spends s c s' uid h : db_ok s → db_call lower s c s' → used uid h c = true → spent s' uid h.
Proof.
  intros Hok Hc. destruct c as [X e x]. destruct e; try done. cbn in *. destruct x as [id|e]; cbn; [|by rewrite andb_false_r].
  rewrite andb_true_r. intros [-> ->]%bool_decide_eq_true. destruct Hc as [id' Heff]. unfold consumeRecoveryCode in Heff.
  destruct (db_codes s !! (uid, h)) as [[|]|] eqn:Hk; [done| |done]. injection Heff as _ <-.
  destruct (ok_codes _ Hok _ _ _ Hk) as [u Hu]. split; [by apply (ok_ids _ Hok _ _ Hu)|]. cbn. by rewrite lookup_insert_eq.
Qed.
Lemma spent_unused s h s' uid k : history lower s h s' → db_ok s → spent s uid k → filter (λ p, used uid k p.2 = true) h = [].
Proof.
  induction 1 as [|s c s1 i h s2 Hc _ IH|s t h s2 _ _ IH]; intros Hok Hs; [done| |by apply IH; [apply with_time_ok|]].
  destruct (spent_step _ _ _ _ _ Hok Hc Hs) as [Hs1 Hu]. rewrite filter_cons_False by (cbn; by rewrite Hu).
  apply IH; [by eapply db_call_ok|done].
Qed.
End invariant.

(** ** Properties *)

(** C28. The tables keep their promises under every interleaving of requests: from tables
    that satisfy them, whatever calls are made and however they end, keys stay fresh, at
    most one user is confirmed, user names are unique up to case and IdP identities
    unique, sessions and codes belong to existing users; the audit log only grows, and a
    confirmed administrator stays there and confirmed. *)
Theorem store_invariant lower s h s' :
  history lower s h s' → db_ok lower s →
  db_ok lower s' ∧ db_audit s `prefix_of` db_audit s' ∧
  ∀ id u, db_users s !! id = Some u → confirmed u → ∃ v, db_users s' !! id = Some v ∧ confirmed v.
Proof. intros Hh Hok. split; [by eapply history_ok|by apply (history_kept lower _ h)]. Qed.

(** A recovery code signs in once: over any interleaving of requests, a code of a user
    is consumed successfully at most once. *)
Theorem recovery_code_once lower s h s' uid code :
  history lower s h s' → db_ok lower s → length (filter (λ p, used uid code p.2 = true) h) <= 1.
Proof.
  induction 1 as [|s c s1 i h s2 Hc Hh IH|s t h s2 _ _ IH]; intros Hok; [cbn; lia| |by apply IH, with_time_ok].
  pose proof (db_call_ok _ _ _ _ Hc Hok) as Hok1. destruct (used uid code c) eqn:Hu.
  - rewrite filter_cons_True by done. by rewrite (spent_unused _ _ _ _ _ _ Hh Hok1 (used_spends _ _ _ _ _ _ Hok Hc Hu)).
  - rewrite filter_cons_False by (cbn; by rewrite Hu). by apply IH.
Qed.

(** Completed requests on one store. *)
Record Served `{UnicodeTables, AuthJSON, OidcLib} (s : Server) (h : list (nat * call AuthE)) : Type := {
  sv_route : nat → Route;
  sv_request : nat → Request;
  sv_response : nat → Response;
  sv_exec : ∀ i, i ∈ h.*1 → exec (handler s (sv_route i) (sv_request i)) (calls_of i h) (sv_response i);
}.
Arguments sv_route {_ _ _ _ _} _ _.
Arguments sv_request {_ _ _ _ _} _ _.
Arguments sv_response {_ _ _ _ _} _ _.
Arguments sv_exec {_ _ _ _ _} _ _ _.

Lemma calls_of_elem i c h : c ∈ calls_of i h ↔ (i, c) ∈ h.
Proof.
  unfold calls_of. rewrite list_elem_of_omap. split.
  - intros ([j d] & Hin & Hd). cbn in Hd. case_decide; [|done]. simplify_eq. done.
  - intros Hin. exists (i, c). split; [done|]. cbn. by rewrite decide_True.
Qed.


(** C7. Every request served as a signed-in user goes back to a sign-in: over any
    interleaving of completed requests on a store that starts without sessions, when a
    request is resolved to a session, an earlier call of one of the requests created
    exactly that session row, with its expiry and for that user, and that request earned
    it: by the second login step, by confirming an enrollment or by a single sign-on.
    Whatever row the earning request was shown under the user's key has the name and the
    kind of account that the later request acts under. *)
Theorem requests_signed_in `{UnicodeTables, AuthJSON, OidcLib} lower server s0 h s1 (sv : Served server h) i user sess :
  history lower s0 h s1 → db_ok lower s0 → db_sessions s0 = ∅ →
  session_of (sv_request sv i) (calls_of i h) user sess →
  ∃ h0 h1 j arg, h = h0 ++ h1 ∧ arg ∈ omap minted (calls_of j h0) ∧
    (∃ v, cookie_value (sv_request sv i) sessionCookie = Some v ∧ cs_TokenHash arg = HashToken v ∧
       Call (GetSession (HashToken v)) (Ok sess) ∈ calls_of i h1) ∧
    cs_UserID arg = su_ID user ∧ cs_ExpiresAt arg = sess_ExpiresAt sess ∧
    earned server (sv_route sv j) (sv_request sv j) (calls_of j h) (sv_response sv j) arg ∧
    ∀ d u, d ∈ calls_of j h → shown d = Some u → user_ID u = su_ID user →
      user_Username u = su_Username user ∧ has (user_OidcSubject u) = su_OIDC user.
Proof.
  intros Hh Hok Hempty (v & row & Hv & Hget & Hrow & _ & ->).
  rewrite calls_of_elem in Hget, Hrow. destruct (list_elem_of_split _ _ Hget) as (h0 & h1 & Heq).
  pose proof Hh as Hh'. rewrite Heq in Hh'.
  destruct (session_created lower _ _ _ _ _ _ (HashToken v) sess Hh' Hok eq_refl) as [_ [(x0 & Hx0 & _)|(j & d & Hd & Hm)]].
  { by rewrite Hempty, lookup_empty in Hx0. }
  destruct Hm as (arg & Harg & Hth & Huid & Hexp).
  assert (Hin : (j, d) ∈ h) by (rewrite Heq; apply elem_of_app; by left).
  assert (Hkey : user_ID row = sess_UserID sess) by (exact (fetched_key lower _ _ _ _ _ _ Hh Hok Hrow)).
  exists h0, ((i, Call (GetSession (HashToken v)) (Ok sess)) :: h1), j, arg. split_and!; [done| | |cbn; congruence|done| |].
  - apply list_elem_of_omap. exists d. split; [by apply calls_of_elem|done].
  - exists v. split_and!; [done|done|]. apply calls_of_elem. by left.
  - apply handler_mints; [apply sv_exec; apply list_elem_of_fmap; by exists (j, d)|].
    apply list_elem_of_omap. exists d. split; [by apply calls_of_elem|done].
  - intros c u Hc%calls_of_elem Hu Hid. cbn in Hid |- *.
    destruct (shown_same lower _ _ _ j i _ _ u row Hh Hok Hc Hrow Hu eq_refl Hid) as (_ & -> & _ & -> & _). done.
Qed.

(** ** A worked example: the statements carried out *)
Module StoreExample.
#[local] Instance tables : UnicodeTables := ascii_tables.
#[local] Existing Instance AuthExample.json.
#[local] Existing Instance OidcExample.lib.

Definition answer {A} (o : option (A * Db)) (s : Db) : result DbError A * Db :=
  match o with Some (a, s') => (Ok a, s') | None => (Err ErrNoRows, s) end.
Definition read {A} (o : option A) (s : Db) : result DbError A * Db :=
  match o with Some a => (Ok a, s) | None => (Err ErrNoRows, s) end.
Definition find (P : User → bool) (s : Db) : option User := head (filter (λ u, P u = true) (map_to_list (db_users s)).*2).

(** One client after the other on the tables; a clock that stands still. *)
Definition world (X : Set) (e : AuthE X) (s : Db) : X * Db :=
  match e in AuthE X return X * Db with
  | Now => (db_time s, s)
  | RandRead n => (Ok (replicate n (byte 1)), s)
  | HashPassword _ => (Ok "hash", s)
  | VerifyPassword _ _ => (true, s)
  | GenerateTOTP _ _ => (Ok ("seed", "otpauth:"), s)
  | ValidateTOTP secret code => (bool_decide (secret = "seed" ∧ code = "123456"), s)
  | CountConfirmedAdmins => (Ok (countConfirmedAdmins s), s)
  | GetUserByUsername name => read (find (λ u, bool_decide (user_Username u = name)) s) s
  | GetUserByID id => read (db_users s !! id) s
  | ConfirmUserTOTP id => answer (confirmUserTOTP id s) s
  | IncrementFailedLogins id => answer (incrementFailedLogins id s) s
  | LockUser id until => answer (lockUser id until s) s
  | ResetFailedLogins id => answer (resetFailedLogins id s) s
  | CreateSession arg => answer (createSession arg s) s
  | GetSession h => read (match db_sessions s !! h with
                          | Some x => match sess_ExpiresAt x with
                                      | Some t => if decide (db_time s < t)%Z then Some x else None
                                      | None => None
                                      end
                          | None => None
                          end) s
  | TouchSession h => answer (touchSession h s) s
  | DeleteSession h => answer (deleteSession h s) s
  | MarkSessionReauth h => answer (markSessionReauth h s) s
  | ConsumeRecoveryCode uid h => answer (consumeRecoveryCode 1 uid h s) s
  | AppendAuditEntry arg => answer (appendAuditEntry arg s) s
  | CreateAdmin arg => answer (createAdmin_tx id ∅ (db_next s) arg s) s
  | GetUserByOIDC iss sub =>
      read (find (λ u, bool_decide (user_OidcIssuer u = Some iss ∧ user_OidcSubject u = Some sub)) s) s
  | CreateOIDCUser arg => answer (createOIDCUser id (db_next s) arg s) s
  | GenerateVerifier => ("verifier", s)
  | OAuthExchange _ _ => (Ok None, s)
  | VerifyIDToken _ => (Err "no key", s)
  end.

Lemma answer_writes {A} (f : Db → option (A * Db)) s : writes f s (answer (f s) s).2 (answer (f s) s).1.
Proof. unfold answer. by destruct (f s) as [[a s']|] eqn:E. Qed.
Lemma answer_outcome {A B} (f : B → option (A * Db)) b s : outcome (λ o, ∃ b, f b = o) s (answer (f b) s).2 (answer (f b) s).1.
Proof. unfold answer. destruct (f b) as [[a s']|] eqn:E; [by exists b|done]. Qed.
Lemma read_reads {A} (P : A → Prop) o s : (∀ a, o = Some a → P a) → reads P s (read o s).2 (read o s).1.
Proof. intros HP. destruct o; split; try done. by apply HP. Qed.
Lemma find_some P s u : find P s = Some u → ∃ id, db_users s !! id = Some u ∧ P u = true.
Proof.
  unfold find. intros Hu. apply head_Some_elem_of in Hu. apply list_elem_of_filter in Hu as [HP Hin].
  apply list_elem_of_fmap in Hin as ([id v] & -> & Hin). apply elem_of_map_to_list in Hin. eauto.
Qed.

Lemma world_call (X : Set) (e : AuthE X) s : db_call id s (Call e (world X e s).1) (world X e s).2.
Proof.
  destruct e; try done; cbn [world db_call]; try apply answer_writes; try (apply read_reads).
  - intros u (i & ? & ?%bool_decide_eq_true)%find_some. exists i. split; [done|]. by f_equal.
  - done.
  - intros x. destruct (db_sessions s !! tokenHash) as [y|]; [|done]. unfold live.
    destruct (sess_ExpiresAt y) as [t|] eqn:E; [|done]. destruct (decide _); [|done]. intros [= <-]. by rewrite E.
  - apply (answer_outcome (λ id, consumeRecoveryCode id userID codeHash s)).
  - pose proof (answer_outcome (λ p, createAdmin_tx id p.1 p.2 arg s) (∅, db_next s) s) as Ho. cbn in Ho. revert Ho.
    generalize (answer (createAdmin_tx id ∅ (db_next s) arg s) s). intros [[a|[]] s']; cbn; try done.
    + intros [[D i] Hi]. by exists D, i.
    + intros [->|(a & [D i] & Hi)]; [by left|right]. by exists a, D, i.
  - intros u (i & ? & ?%bool_decide_eq_true)%find_some. by exists i.
  - apply (answer_outcome (λ i, createOIDCUser id i arg s)).
Qed.

Definition tagged (i : nat) (tr : list (call AuthE)) : list (nat * call AuthE) := pair i <$> tr.
Lemma history_app lower s h s1 h' s2 : history lower s h s1 → history lower s1 h' s2 → history lower s (h ++ h') s2.
Proof. induction 1; [done|by intros; econstructor; eauto|by intros; eapply history_time; eauto]. Qed.
Lemma run_history {A} i (p : prog AuthE A) s : history id s (tagged i (run world p s).1.2) (run world p s).2.
Proof.
  revert s. induction p as [a|X e k IH]; intros s; cbn; [constructor|]. pose proof (world_call X e s) as Hc.
  destruct (world X e s) as [x s']. specialize (IH x s'). destruct (run world (k x) s') as [[a tr] s'']. econstructor; eauto.
Qed.
Lemma calls_of_tagged i j tr : calls_of i (tagged j tr) = if decide (j = i) then tr else [].
Proof.
  unfold calls_of, tagged. case_decide as Hj; [subst j|]; induction tr as [|c tr IH]; try done; cbn.
  - rewrite decide_True by done. by f_equal.
  - by rewrite decide_False.
Qed.

Lemma calls_of_app i h1 h2 : calls_of i (h1 ++ h2) = calls_of i h1 ++ calls_of i h2.
Proof. apply omap_app. Qed.

(** Two requests, one after the other. *)
Definition both (tr1 tr2 : list (call AuthE)) : list (nat * call AuthE) := tagged 0 tr1 ++ tagged 1 tr2.
Lemma both_calls tr1 tr2 i : calls_of i (both tr1 tr2) = if decide (i = 0) then tr1 else if decide (i = 1) then tr2 else [].
Proof.
  unfold both. rewrite calls_of_app, !calls_of_tagged. destruct i as [|[|i]]; [apply app_nil_r|reflexivity|reflexivity].
Qed.
Lemma both_keys i tr1 tr2 : i ∈ (both tr1 tr2).*1 → i = 0 ∨ i = 1.
Proof.
  unfold both, tagged. rewrite fmap_app. intros [Hi|Hi]%elem_of_app;
    rewrite <- list_fmap_compose in Hi; apply list_elem_of_fmap in Hi as (? & -> & _); auto.
Qed.

(** [ada] signs in with the second factor and then steps up on the session she got. *)
Definition stepping : Request :=
  {| req_Cookies := [(sessionCookie, OidcExample.token)]; req_RemoteAddr := "10.0.0.7:5000"; req_TLS := true;
     req_ForwardedProto := ""; req_Query := []; req_Body := [] |}.
Definition route (i : nat) : Route := if decide (i = 0) then LoginTOTP else StepUp.
Definition req (i : nat) : Request := if decide (i = 0) then AuthExample.request stageTOTP else stepping.

Definition code : string := HashRecoveryCode "ABCDE-FGHIJ".
Definition single (u : User) (h : string) (now : Z) : Db :=
  {| db_users := {[user_ID u := u]}; db_sessions := ∅; db_codes := {[(user_ID u, h) := None]}; db_audit := [];
     db_next := user_ID u + 1; db_time := now |}.
Lemma single_ok u h now : db_ok id (single u h now).
Proof.
  split; cbn.
  - intros i v [<- <-]%lookup_singleton_Some. split; [done|lia].
  - by intros i j v w [<- _]%lookup_singleton_Some [<- _]%lookup_singleton_Some.
  - by intros i j v w [<- _]%lookup_singleton_Some [<- _]%lookup_singleton_Some.
  - by intros i j v w iss sub [<- _]%lookup_singleton_Some [<- _]%lookup_singleton_Some.
  - intros k x. by rewrite lookup_empty.
  - intros uid k t [[= <- <-] _]%lookup_singleton_Some. rewrite lookup_singleton_eq. eauto.
Qed.
Definition db0 : Db := single (AuthExample.user None) code (10 * Minute).
Definition first := run world (handler AuthExample.server (route 0) (req 0)) db0.
Definition second := run world (handler AuthExample.server (route 1) (req 1)) first.2.
Definition log : list (nat * call AuthE) := both first.1.2 second.1.2.
Definition ada : sessionUser := {| su_ID := 7; su_Username := "ada"; su_OIDC := false |}.

Lemma log_history : history id db0 log second.2.
Proof. exact (history_app id db0 _ first.2 _ second.2 (run_history 0 _ db0) (run_history 1 _ first.2)). Qed.
Lemma db0_ok : db_ok id db0.
Proof. exact (single_ok (AuthExample.user None) code (10 * Minute)). Qed.
Lemma log_exec i : i ∈ log.*1 →
  exec (handler AuthExample.server (route i) (req i)) (calls_of i log) (if decide (i = 0) then first.1.1 else second.1.1).
Proof.
  intros Hi. unfold log. rewrite both_calls. destruct (both_keys _ _ _ Hi) as [-> | ->].
  - exact (run_exec world _ db0).
  - exact (run_exec world _ first.2).
Qed.
Definition requests : Served AuthExample.server log :=
  {| sv_route := route; sv_request := req; sv_exec := log_exec |}.

Example session_row : db_sessions second.2 !! HashToken OidcExample.token ≠ None.
Proof. vm_compute. discriminate. Qed.
Example stepped_up : resp_Status second.1.1 = 204%Z.
Proof. vm_compute. reflexivity. Qed.
Definition row : Session :=
  {| sess_TokenHash := HashToken OidcExample.token; sess_UserID := 7; sess_CreatedAt := Some (10 * Minute)%Z;
     sess_ExpiresAt := Some (10 * Minute + sessionTTL)%Z; sess_LastUsedAt := Some (10 * Minute)%Z; sess_ReauthAt := None |}.
Example asked : second.1.2 !! 0 = Some (Call (GetSession (HashToken OidcExample.token)) (Ok row)).
Proof. vm_compute. reflexivity. Qed.
Definition ada_row : User := set_user (AuthExample.user None) (Some 1%Z) 0 None (10 * Minute).
Example fetched_ada : second.1.2 !! 1 = Some (Call (GetUserByID 7) (Ok ada_row)).
Proof. vm_compute. reflexivity. Qed.
Lemma second_session : session_of (req 1) second.1.2 ada row.
Proof.
  exists OidcExample.token, ada_row. split_and!; [reflexivity|exact (list_elem_of_lookup_2 _ _ _ asked)|
    exact (list_elem_of_lookup_2 _ _ _ fetched_ada)|left; discriminate|reflexivity].
Qed.

(** Two requests with the same recovery code. *)
Definition spends : prog AuthE (result DbError Z) := trigger (ConsumeRecoveryCode 7 code).
Definition spend1 := run world spends db0.
Definition spend2 := run world spends spend1.2.
Definition spending : list (nat * call AuthE) := both spend1.1.2 spend2.1.2.
Lemma spending_history : history id db0 spending spend2.2.
Proof. exact (history_app id db0 _ spend1.2 _ spend2.2 (run_history 0 _ db0) (run_history 1 _ spend1.2)). Qed.
Example spent_once : spend1.1.1 = Ok 1%Z ∧ spend2.1.1 = Err ErrNoRows.
Proof. vm_compute. done. Qed.

(** A transaction in which every statement is accepted. *)
Definition accepts (X : Set) (e : TxE X) (st : unit) : X * unit :=
  (match e in TxE X return X with
   | Begin => Ok tt | DeleteUnconfirmedUsers => Ok tt | CreateUser _ _ _ => Ok 9%Z
   | InsertRecoveryCode _ _ => Ok tt | Commit => Ok tt | Rollback => Err (DbFailure "tx is closed")
   end, st).
Definition admin : CreateAdminParams :=
  {| ca_Username := "ada"; ca_PasswordHash := "hash"; ca_SealedTOTPSecret := "sealed"; ca_RecoveryCodeHashes := ["h1"; "h2"] |}.
Definition created := run accepts (pgCreateAdmin admin) tt.
Lemma created_exec : exec (pgCreateAdmin admin) created.1.2 created.1.1.
Proof. apply run_exec. Qed.

(** *** Witnesses *)
Lemma create_admin_atomic_witness : omap is_commit created.1.2 = [Ok tt].
Proof. exact (proj1 (create_admin_atomic admin _ _ created_exec) 9%Z eq_refl). Defined.
Lemma store_invariant_witness : db_ok id second.2.
Proof. exact (proj1 (store_invariant id db0 log second.2 log_history db0_ok)). Defined.
Lemma recovery_code_once_witness : length (filter (λ p, used 7 code p.2 = true) spending) <= 1.
Proof. exact (recovery_code_once id db0 spending spend2.2 7 code spending_history db0_ok). Defined.
Lemma requests_signed_in_witness : ∃ j arg, cs_UserID arg = 7%Z ∧
  earned AuthExample.server (route j) (req j) (calls_of j log) (sv_response requests j) arg.
Proof.
  destruct (requests_signed_in id AuthExample.server db0 log second.2 requests 1 ada row log_history db0_ok eq_refl)
    as (h0 & h1 & j & arg & _ & _ & _ & Hu & _ & He & _).
  - unfold log. rewrite both_calls. exact second_session.
  - exists j, arg. exact (conj Hu He).
Defined.
End StoreExample.
