(* ===== verification/ApiServer.v ===== *)
(** * The dashboard API: what its handlers share

    [dashboard/internal/server/api.go], [impersonate.go] and [resource_names.go], with the
    configuration of [server.go]: the calls a handler can make ([ApiE]), requests and
    replies, decoding, paging, the audit of a mutation, the mapping of Kubernetes errors
    and the check that one name is used by one kind.  The sign-in calls of [Session] are
    a part of [ApiE]; replies are arbitrary, so a theorem over all executions holds for
    every cluster and database. *)
From S2P Require Import Prelude Regex GoStrings Effects Kube Api Features Sha256 GitResolver SourceArchive.
From S2P Require Import AppController DomainController Database RateLimit OidcIdentity AesGcm Credentials.
From S2P Require Import Session.
From Stdlib Require Import Ascii.

Definition apiMaxBodyBytes : Z := Z.shiftl 256 10.
Definition appsNamespace : string := "orkano-apps".
Definition systemNamespace : string := "orkano-system".
Definition defaultPageLimit : Z := 50.
Definition maxPageLimit : Z := 200.

(** ** Calls *)

(** A Kubernetes client error, in the cases [writeK8sError] tells apart. *)
Inductive K8sError : Set :=
| KNotFound | KAlreadyExists | KConflict | KInvalid | KBadRequest | KForbidden | KUnauthorized
| KUnavailable
(** [meta.IsNoMatchError]: the kind is not installed *)
| KNoMatch
| KOther (text : string).
#[export] Instance K8sError_eq_dec : EqDecision K8sError.
Proof. solve_decision. Defined.

(** The custom resources the handlers name; the vault's kinds are unstructured. *)
Inductive DbKind : Set := DPostgres | DMongo.
#[export] Instance DbKind_eq_dec : EqDecision DbKind.
Proof. solve_decision. Defined.
Inductive Kind : Set := KApp | KDomain | KDatabase (d : DbKind) | KBuild | KSecretStore | KExternalSecret.
#[export] Instance Kind_eq_dec : EqDecision Kind.
Proof. solve_decision. Defined.

Definition obj (k : Kind) : Set :=
  match k with
  | KApp => App
  | KDomain => Domain
  | KDatabase _ => Database
  | KBuild => Build
  | KSecretStore | KExternalSecret => Any
  end.

(** [cfg.K8s], the dashboard's ServiceAccount, and [cfg.ViewerClient], which impersonates
    the fixed view-only identity. *)
Inductive Client : Set := SA | Viewer.

(** [rest.ImpersonationConfig]; [None] impersonates nobody. *)
Record Impersonation : Set := { imp_UserName : string; imp_Groups : list string; imp_Extra : gmap string (list string) }.
Definition ViewerUser : string := "orkano:viewer".
Definition ViewerGroup : string := "orkano:viewers".
Definition viewerConfig : Impersonation := {| imp_UserName := ViewerUser; imp_Groups := [ViewerGroup]; imp_Extra := ∅ |}.
Definition impersonates (c : Client) : option Impersonation := match c with SA => None | Viewer => Some viewerConfig end.

Record ConfigMap : Set := { cm_Key : NamespacedName; cm_ResourceVersion : string; cm_Data : gmap string string }.

Record NodeCondition : Set := { nc_Type : string; nc_Status : string }.
Record Node : Set := {
  node_Meta : ObjectMeta;
  node_Unschedulable : bool;
  node_KubeletVersion : string;
  node_OSImage : string;
  node_Architecture : string;
  node_Conditions : list NodeCondition;
  (** type and address *)
  node_Addresses : list (string * string);
}.

Record DeployHistory : Set := { dh_OccurredAt : Timestamptz; dh_BuildName : string; dh_Image : string; dh_Status : string }.
Record AuditLog : Set := {
  al_OccurredAt : Timestamptz;
  al_Actor : string;
  al_Action : string;
  al_Target : string;
  al_Outcome : string;
  (** the stored JSON *)
  al_Detail : string;
}.
Record RecordDeployParams : Set := { rd_AppNamespace : string; rd_AppName : string; rd_Status : string }.
Record ListAppDeploysParams : Set := { ld_AppNamespace : string; ld_AppName : string; ld_Limit : Z; ld_Offset : Z }.
Record EnqueueManualDeliveryParams : Set := { em_DeliveryID : string; em_Repo : string; em_AppName : string }.

(** What the GitHub exchange returns. *)
Record GitHubAppCredentials : Set := { gc_ID : Z; gc_Slug : string; gc_PEM : string; gc_WebhookSecret : string }.

Record PodLogOptions : Set := { log_Container : string; log_Follow : bool; log_Previous : bool; log_TailLines : Z }.

(** Why receiving an upload failed: [http.MaxBytesError] or another error. *)
Inductive CopyError : Set := BodyTooLarge | CopyFailed (text : string).

Inductive ApiE : Set → Type :=
| AuthCall {X : Set} (e : AuthE X) : ApiE X
| ArchiveCall {X : Set} (e : ArchiveE X) : ApiE X
| KGet (c : Client) (k : Kind) (key : NamespacedName) : ApiE (result K8sError (obj k))
| KList (c : Client) (k : Kind) (namespace : string) : ApiE (result K8sError (list (obj k)))
(** writes run as the ServiceAccount; the reply is the object as the server stored it *)
| KCreate (k : Kind) (o : obj k) : ApiE (result K8sError (obj k))
| KUpdate (k : Kind) (o : obj k) : ApiE (result K8sError (obj k))
| KDelete (k : Kind) (key : NamespacedName) : ApiE (result K8sError unit)
(** Secrets are written blind: nothing reads one *)
| CreateSecret (sec : Secret) : ApiE (result K8sError unit)
| UpdateSecret (sec : Secret) : ApiE (result K8sError unit)
| GetConfigMap (key : NamespacedName) : ApiE (result K8sError ConfigMap)
| UpdateConfigMap (cm : ConfigMap) : ApiE (result K8sError ConfigMap)
| ListNodes : ApiE (result K8sError (list Node))
| EnqueueManualDelivery (arg : EnqueueManualDeliveryParams) : ApiE (result DbError Z)
| RecordDeploy (arg : RecordDeployParams) : ApiE (result DbError unit)
| ListAppDeploys (arg : ListAppDeploysParams) : ApiE (result DbError (list DeployHistory))
| ListAuditEntries (limit offset : Z) : ApiE (result DbError (list AuditLog))
| ListSettings : ApiE (result DbError (list (string * string)))
| UpsertSetting (key value : string) : ApiE (result DbError unit)
(** [nameMu] *)
| NameLock : ApiE unit
| NameUnlock : ApiE unit
(** the temporary file of an upload: the bytes that reached it, and the error *)
| ReceiveBody (limit : Z) : ApiE (list ascii * option CopyError)
| OpenArchive (filename : string) : ApiE (result string unit)
| CloseArchive : ApiE (option string)
| ExchangeManifest (code : string) : ApiE (result string GitHubAppCredentials)
| ValidateOIDC (env : gmap string string) : ApiE (option string)
| ListPods (namespace label value : string) : ApiE (result K8sError (list string)).

Definition auth {A} (p : prog AuthE A) : prog ApiE A := lift (λ X, @AuthCall X) p.
Definition archive {A} (p : prog ArchiveE A) : prog ApiE A := lift (λ X, @ArchiveCall X) p.

(** ** Requests and replies *)
Record ApiRequest : Type := {
  api_Req : Request;
  (** [chi.URLParam(r, "name")] and ["build"] *)
  api_Name : string;
  api_Build : string;
  api_Path : string;
  api_Host : string;
  api_Method : string;
  api_Header : gmap string string;
  api_ContentLength : Z;
  (** [middleware.GetReqID] *)
  api_ReqID : string;
}.
Definition header (r : ApiRequest) (key : string) : string := default "" (api_Header r !! key).
Definition api_query (r : ApiRequest) (key : string) : string := query (api_Req r) key.

(** [appResponse], [domainResponse] *)
Record objectResponse (S T : Type) : Type := {
  or_Name : string;
  or_Namespace : string;
  or_CreationTimestamp : option Time;
  or_Spec : S;
  or_Status : T;
}.
Arguments Build_objectResponse {_ _}.
Arguments or_Name {_ _}.
Arguments or_Namespace {_ _}.
Arguments or_CreationTimestamp {_ _}.
Arguments or_Spec {_ _}.
Arguments or_Status {_ _}.
Definition appResponse : Type := objectResponse AppSpec AppStatus.
Definition domainResponse : Type := objectResponse DomainSpec DomainStatus.
(** [postgresResponse], [mongoResponse] *)
Record databaseResponse : Type := { dr_Object : objectResponse DatabaseSpec DatabaseStatus; dr_SecretKeys : list string }.
Record buildResponse : Type := {
  br_Name : string;
  br_CreationTimestamp : option Time;
  br_Spec : BuildSpec;
  br_Status : BuildStatus;
}.
Record buildsResponse : Type := {
  bs_Items : list buildResponse;
  bs_Repo : string;
  bs_AutomaticDeploys : bool;
  bs_GitHubConfigured : bool;
  bs_GitHubConnected : bool;
}.
Record featureResponse : Type := {
  fr_ID : string;
  fr_Label : string;
  fr_Description : string;
  fr_Unsafe : bool;
  fr_Enabled : bool;
}.
Record nodeResponse : Type := {
  nr_Name : string;
  nr_Roles : list string;
  nr_Ready : bool;
  nr_Status : string;
  nr_Unschedulable : bool;
  nr_KubeletVersion : string;
  nr_OSImage : string;
  nr_Architecture : string;
  nr_InternalIP : string;
  nr_CreationTimestamp : option Time;
}.
Record secretStoreResponse : Type := {
  ss_Name : string;
  ss_CreationTimestamp : option Time;
  ss_Provider : string;
  ss_Server : string;
  ss_Path : string;
  ss_Version : string;
  ss_Ready : string;
  ss_Reason : string;
  ss_Message : string;
}.
Record syncKeyResponse : Type := { sk_SecretKey : string; sk_RemoteKey : string }.
Record externalSecretResponse : Type := {
  es_Name : string;
  es_CreationTimestamp : option Time;
  es_StoreName : string;
  es_RefreshInterval : string;
  es_Keys : list syncKeyResponse;
  es_Ready : string;
  es_Reason : string;
  es_Message : string;
  es_RefreshTime : string;
}.
Record repoAllowlistResponse : Type := { ra_Repositories : list string; ra_ResourceVersion : string }.
Record setupCheckJSON : Type := {
  sc_ID : string;
  sc_Severity : string;
  sc_Summary : string;
  sc_Outcome : string;
  sc_Message : string;
  sc_Blockers : list string;
  sc_Remediation : string;
}.
Record setupGitHubState : Type := { sg_Connected : bool; sg_AppSlug : string; sg_AppID : string; sg_ConnectedAt : string }.
Record setupStatusResponse : Type := {
  st_Checks : list setupCheckJSON;
  st_AccessMode : string;
  st_WebhookURLConfigured : bool;
  st_PublicURLConfigured : bool;
  st_OIDCRedirectURL : string;
  st_OIDCEnabled : bool;
  st_OIDCPendingRestart : bool;
  st_GitHub : setupGitHubState;
  st_RepoAllowlist : list string;
  st_RepoAllowlistResourceVersion : string;
}.
(** What the reverse proxy does to a request for the tool behind a database: where it
    goes, the headers removed from the request and from the response and those set, the
    rewriting of a [Location], and the answer when the tool is unreachable. *)
Record ProxyPlan : Type := {
  px_Host : string;
  px_DropRequest : list string;
  px_SetRequest : list (string * string);
  px_DropResponse : list string;
  px_SetResponse : list (string * string);
  px_Location : string → string;
  px_Unavailable : Response;
}.

Inductive Payload : Type :=
| Plain (b : Body)
| AppBody (a : appResponse)
| AppItems (l : list appResponse)
| DomainBody (d : domainResponse)
| DomainItems (l : list domainResponse)
| DatabaseBody (d : databaseResponse)
| DatabaseItems (l : list databaseResponse)
| BuildsBody (b : buildsResponse)
| DeployItems (l : list DeployHistory)
| AuditItems (l : list AuditLog)
| FeatureItems (l : list featureResponse)
| NodeItems (l : list nodeResponse)
| StoreBody (s : secretStoreResponse)
| StoreItems (l : list secretStoreResponse)
| SyncBody (s : externalSecretResponse)
| SyncItems (l : list externalSecretResponse)
| AllowlistBody (a : repoAllowlistResponse)
| SetupBody (st : setupStatusResponse)
(** the event stream of some pods' logs *)
| LogStream (namespace : string) (pods : list string) (opts : PodLogOptions)
(** the request handed to the reverse proxy *)
| Proxied (p : ProxyPlan).

Record Reply : Type := { rep_Status : Z; rep_Cookies : list Cookie; rep_Body : Payload }.
Definition of_response (resp : Response) : Reply :=
  {| rep_Status := resp_Status resp; rep_Cookies := resp_Cookies resp; rep_Body := Plain (resp_Body resp) |}.
Definition reply (status : Z) (body : Payload) : Reply := {| rep_Status := status; rep_Cookies := []; rep_Body := body |}.
Definition apiError (status : Z) (code : string) : Reply := of_response (writeJSONError [] status code).
Definition noContent : Reply := of_response (writeHeader [] 204).

(** The parts of the server's [Config] the API reads. *)
Record ApiConfig : Type := {
  cfg_Server : Server;
  cfg_Features : FeatureSet;
  (** the registry [Archives] writes to *)
  cfg_Archives : URL;
  cfg_WebhookURL : string;
  cfg_PublicURL : string;
  cfg_GitHubBaseURL : string;
  cfg_started : Z;
}.

(** ** Numbers *)

(** The value of a run of decimal digits, if it is one and not empty. *)
Fixpoint digits (l : list ascii) (n : Z) : option Z :=
  match l with
  | [] => Some n
  | c :: l => if is_digit c then digits l (n * 10 + Z.of_nat (nat_of_ascii c - nat_of_ascii "0"%char))%Z else None
  end.
Definition ParseUint10 (l : list ascii) : option Z := match l with [] => None | _ => digits l 0 end.

(** [strconv.ParseInt(s, 10, bits)], the error dropped *)
Definition ParseInt10 (bits : Z) (s : string) : option Z :=
  let '(neg, l) :=
    match bytes s with
    | "-"%char :: l => (true, l)
    | "+"%char :: l => (false, l)
    | l => (false, l)
    end in
  match ParseUint10 l with
  | None => None
  | Some n =>
      if decide ((neg = false ∧ 2 ^ (bits - 1) ≤ n) ∨ (neg = true ∧ 2 ^ (bits - 1) < n))%Z then None
      else Some (if neg then - n else n)%Z
  end.

Definition parsePage (r : ApiRequest) : Z * Z :=
  let limit :=
    match ParseInt10 32 (api_query r "limit") with
    | Some n => if decide (0 < n ≤ maxPageLimit)%Z then n else defaultPageLimit
    | None => defaultPageLimit
    end in
  let offset :=
    match ParseInt10 32 (api_query r "offset") with
    | Some n => if decide (0 ≤ n)%Z then n else 0%Z
    | None => 0%Z
    end in
  (limit, offset).

(** ** Helpers of the handlers *)

(** [decodeAPIJSON]: [decode limit body] is the strict JSON decoder of the request's type. *)
Definition decodeAPIJSON {A} (decode : Z → list ascii → option A) (r : ApiRequest) : result Reply A :=
  match decode apiMaxBodyBytes (req_Body (api_Req r)) with
  | Some a => Ok a
  | None => Err (apiError 400 "invalid_request")
  end.

Definition outcome_word (ok : bool) : string := if ok then "success" else "failure".
Definition auditResult (r : ApiRequest) (user : sessionUser) (action target : string) (ok : bool) : prog ApiE unit :=
  auth (audit (su_Username user) action target (outcome_word ok) (api_Req r)).

(** [validation.IsDNS1123Subdomain] finds no fault *)
Definition validResourceName (name : string) : bool := MatchString dnsSubdomainPattern name && (len name <=? 253).

Definition writeK8sError (e : K8sError) : Reply :=
  match e with
  | KNotFound => apiError 404 "not_found"
  | KAlreadyExists => apiError 409 "already_exists"
  | KConflict => apiError 409 "conflict"
  | KInvalid => apiError 422 "invalid"
  | KBadRequest => apiError 400 "bad_request"
  | KForbidden => apiError 403 "forbidden"
  | KUnauthorized => apiError 401 "unauthorized"
  | KUnavailable => apiError 503 "unavailable"
  | KNoMatch => apiError 503 "cluster_not_ready"
  | KOther _ => apiError 500 "internal_error"
  end.

Definition app_key (name : string) : NamespacedName := {| key_Namespace := appsNamespace; key_Name := name |}.

(** ** One name, one kind *)
Definition topLevelNameKinds : list (string * Kind) := 
  [("App", KApp); ("Postgres", KDatabase DPostgres); ("Mongo", KDatabase DMongo)].

Fixpoint conflicting_loop (candidates : list (string * Kind)) (name requestedKind : string) : prog ApiE (result K8sError string) :=
  match candidates with
  | [] => Ret (Ok "")
  | (kindName, k) :: candidates =>
      if decide (kindName = requestedKind) then conflicting_loop candidates name requestedKind
      else
        let! g := trigger (KGet SA k (app_key name)) in
        match g with
        | Ok _ => Ret (Ok kindName)
        | Err KNotFound => conflicting_loop candidates name requestedKind
        | Err e => Ret (Err e)
        end
  end.
Definition conflictingResourceKind : string → string → prog ApiE (result K8sError string) :=
  conflicting_loop topLevelNameKinds.

Definition writeNameInUse (existingKind : string) : Reply :=
  of_response (writeJSON [] 409 [("error", VString "name_in_use"); ("existingKind", VString existingKind)]).

(** [s.nameMu.Lock()] with the deferred [Unlock] *)
Definition with_names {A} (p : prog ApiE A) : prog ApiE A :=
  let! _ := trigger NameLock in
  let! a := p in
  let! _ := trigger NameUnlock in
  Ret a.

Definition writeFeatureDisabled (e : DisabledError) : Reply :=
  of_response (writeJSON [] 403 [("error", VString "feature_disabled"); ("features", VStrings (disabled_IDs e))]).

Definition handleAPINotFound : prog ApiE Reply := Ret (apiError 404 "not_found").
