(* ===== verification/ApiPolicy.v ===== *)
(** * The repository allowlist in the dashboard

    [dashboard/internal/server/repo_allowlist.go]: reading the policy ConfigMap, and the
    update behind step-up that changes what the webhook receiver may enqueue. *)
From S2P Require Import Prelude Regex GoStrings RepoAllowlist Effects Kube Sha256 RateLimit Session ApiServer.
From Stdlib Require Import Ascii.

Record updateRepoAllowlistRequest : Type := {
  (** [None] when the field is absent or null *)
  ur_Repositories : option (list string);
  ur_ResourceVersion : string;
}.

Definition policyDataKey : string := "repositories".
Definition policyConfigMap : string := "orkano-repo-allowlist".
Definition policy_key : NamespacedName := {| key_Namespace := systemNamespace; key_Name := policyConfigMap |}.

(** An API error, or [errRepoAllowlistInvalid]. *)
Inductive PolicyError : Set := PolicyK8s (e : K8sError) | PolicyInvalid.

Record repoAllowlistSnapshot : Type := { snap_Repositories : list string; snap_ResourceVersion : string }.

Class PolicyJSON : Type := { decode_updateRepoAllowlist : Z → list ascii → option updateRepoAllowlistRequest }.

Section policy.
Context `{UnicodeTables, PolicyJSON}.

Definition loadRepoAllowlistSnapshot : prog ApiE (result PolicyError repoAllowlistSnapshot) :=
  let! g := trigger (GetConfigMap policy_key) in
  match g with
  | Err e => Ret (Err (PolicyK8s e))
  | Ok cm =>
      match cm_Data cm !! policyDataKey with
      | None => Ret (Err PolicyInvalid)
      | Some raw =>
          match Parse raw with
          | Err _ => Ret (Err PolicyInvalid)
          | Ok repositories =>
              Ret (Ok {| snap_Repositories := repositories; snap_ResourceVersion := cm_ResourceVersion cm |})
          end
      end
  end.

Definition loadRepoAllowlist : prog ApiE (result PolicyError (list string)) :=
  let! s := loadRepoAllowlistSnapshot in
  Ret (match s with Err e => Err e | Ok snapshot => Ok (snap_Repositories snapshot) end).

Definition writeRepoAllowlistReadError (e : PolicyError) : Reply :=
  match e with
  | PolicyK8s KNotFound => apiError 503 "cluster_not_ready"
  | PolicyInvalid => apiError 503 "unavailable"
  | PolicyK8s e => writeK8sError e
  end.

Definition allowlist_reply (repositories : list string) (version : string) : Reply :=
  reply 200 (AllowlistBody {| ra_Repositories := repositories; ra_ResourceVersion := version |}).

Definition handleGetRepoAllowlist : prog ApiE Reply :=
  let! s := loadRepoAllowlistSnapshot in
  Ret (match s with
       | Err e => writeRepoAllowlistReadError e
       | Ok snapshot => allowlist_reply (snap_Repositories snapshot) (snap_ResourceVersion snapshot)
       end).

Definition repoAllowlistPolicyHash (formatted : string) : string := EncodeToString (Sum256 (bytes formatted)).

Definition policyAction : string := "github.repo_allowlist_update".
(** The detail is a map of strings, whose JSON never fails. *)
Definition policy_entry (r : ApiRequest) (user : sessionUser) (outcome policyHash : string) : AppendAuditEntryParams :=
  let detail : gmap string Value := {["ip" := VString (clientIP (req_RemoteAddr (api_Req r)))]} in
  let detail := if decide (api_ReqID r = "") then detail else <["requestId" := VString (api_ReqID r)]> detail in
  let detail := if decide (policyHash = "") then detail else <["policySha256" := VString policyHash]> detail in
  {| audit_Actor := su_Username user; audit_Action := policyAction; audit_Target := policyConfigMap;
     audit_Outcome := outcome; audit_Detail := detail |}.

Definition appendRepoAllowlistAudit (r : ApiRequest) (user : sessionUser) (outcome policyHash : string)
    : prog ApiE (result DbError unit) :=
  trigger (AuthCall (AppendAuditEntry (policy_entry r user outcome policyHash))).

Definition recordRepoAllowlistAudit (r : ApiRequest) (user : sessionUser) (outcome policyHash : string) : prog ApiE unit :=
  let! _ := appendRepoAllowlistAudit r user outcome policyHash in
  Ret tt.

(** After a failed update: what the stored policy says about it. *)
Definition resolveRepoAllowlistUpdate (policyHash : string) : prog ApiE (repoAllowlistSnapshot * string) :=
  let none := {| snap_Repositories := []; snap_ResourceVersion := "" |} in
  let! s := loadRepoAllowlistSnapshot in
  match s with
  | Err _ => Ret (none, "indeterminate")
  | Ok snapshot =>
      match Format (snap_Repositories snapshot) with
      | Err _ => Ret (none, "indeterminate")
      | Ok formatted =>
          Ret (snapshot, if decide (repoAllowlistPolicyHash formatted = policyHash) then "success" else "failure")
      end
  end.

(** The success entry is part of the answer: without it the caller is not told 200. *)
Definition confirm_policy (r : ApiRequest) (user : sessionUser) (policyHash : string) (rep : Reply) : prog ApiE Reply :=
  let! a := appendRepoAllowlistAudit r user "success" policyHash in
  Ret (match a with Err _ => apiError 503 "unavailable" | Ok _ => rep end).

(** From the point where the intent is on record. *)
Definition apply_policy (r : ApiRequest) (user : sessionUser) (version formatted policyHash : string)
    (repositories : list string) : prog ApiE Reply :=
  let! g := trigger (GetConfigMap policy_key) in
  match g with
  | Err e =>
      let! _ := recordRepoAllowlistAudit r user "failure" policyHash in
      Ret (writeRepoAllowlistReadError (PolicyK8s e))
  | Ok cm =>
      if decide (cm_ResourceVersion cm ≠ version) then
        let! _ := recordRepoAllowlistAudit r user "failure" policyHash in
        Ret (apiError 409 "conflict")
      else
        let! u := trigger (UpdateConfigMap {| cm_Key := cm_Key cm; cm_ResourceVersion := cm_ResourceVersion cm;
                                              cm_Data := <[policyDataKey := formatted]> (cm_Data cm) |}) in
        match u with
        | Err e =>
            let! so := resolveRepoAllowlistUpdate policyHash in
            if decide (so.2 = "success") then
              confirm_policy r user policyHash (allowlist_reply (snap_Repositories so.1) (snap_ResourceVersion so.1))
            else
              let! _ := recordRepoAllowlistAudit r user so.2 policyHash in
              Ret (writeK8sError e)
        | Ok cm => confirm_policy r user policyHash (allowlist_reply repositories (cm_ResourceVersion cm))
        end
  end.

Definition handleUpdateRepoAllowlist (user : sessionUser) (r : ApiRequest) : prog ApiE Reply :=
  let refused rep := let! _ := recordRepoAllowlistAudit r user "failure" "" in Ret rep in
  match decodeAPIJSON decode_updateRepoAllowlist r with
  | Err rep => refused rep
  | Ok req =>
      match ur_Repositories req with
      | None => refused (apiError 400 "invalid_request")
      | Some given =>
          if decide (ur_ResourceVersion req = "") then refused (apiError 400 "invalid_request")
          else
            match Normalize given with
            | Err _ => refused (apiError 422 "invalid_repo_allowlist")
            | Ok repositories =>
                match Format repositories with
                | Err _ => refused (apiError 500 "internal_error")
                | Ok formatted =>
                    let policyHash := repoAllowlistPolicyHash formatted in
                    let! a := appendRepoAllowlistAudit r user "attempt" policyHash in
                    match a with
                    | Err _ => Ret (apiError 503 "unavailable")
                    | Ok _ => apply_policy r user (ur_ResourceVersion req) formatted policyHash repositories
                    end
                end
            end
      end
  end.
End policy.

(** ** Traces *)
Definition policy_updated (c : call ApiE) : option ConfigMap :=
  match c with Call e _ => match e with UpdateConfigMap cm => Some cm | _ => None end end.
Definition policy_read (c : call ApiE) : option ConfigMap :=
  match c with
  | Call e x =>
      match e in ApiE X return X → _ with
      | GetConfigMap key => λ x, match x with Ok cm => Some cm | Err _ => None end
      | _ => λ _, None
      end x
  end.
(** The entries the store acknowledged. *)
Definition acknowledged (c : call ApiE) : option AppendAuditEntryParams :=
  match c with
  | Call e x =>
      match e in ApiE X return X → _ with
      | AuthCall e =>
          match e in AuthE X return X → _ with
          | AppendAuditEntry arg => λ x, match x with Ok _ => Some arg | Err _ => None end
          | _ => λ _, None
          end
      | _ => λ _, None
      end x
  end.

Section policy_facts.
Context `{UnicodeTables, PolicyJSON} (r : ApiRequest) (user : sessionUser).

(** What an update of the ConfigMap is: the map that was read, at the version the caller
    saw, with the policy text replaced. *)
Definition policy_write (tr : list (call ApiE)) (version formatted : string) (cm : ConfigMap) : Prop :=
  ∃ old, old ∈ omap policy_read tr ∧ cm_ResourceVersion old = version ∧
    cm = {| cm_Key := cm_Key old; cm_ResourceVersion := version; cm_Data := <[policyDataKey := formatted]> (cm_Data old) |}.

Lemma append_exec outcome hash tr x :
  exec (appendRepoAllowlistAudit r user outcome hash) tr x →
  omap policy_updated tr = [] ∧ omap policy_read tr = [] ∧
  (x = Ok tt → policy_entry r user outcome hash ∈ omap acknowledged tr).
Proof.
  intros ->%exec_trigger. split_and!; [done..|]. intros ->. by left.
Qed.
Lemma record_exec outcome hash tr x :
  exec (recordRepoAllowlistAudit r user outcome hash) tr x → omap policy_updated tr = [].
Proof. intros (t1 & t2 & y & -> & (Hu & _)%append_exec & -> & _)%exec_bind. by rewrite app_nil_r. Qed.
Lemma snapshot_exec tr x : exec loadRepoAllowlistSnapshot tr x → omap policy_updated tr = [].
Proof. unfold loadRepoAllowlistSnapshot. intros (g & tr1 & -> & Hk). cbn [prog_bind] in Hk. by repeat case_match; destruct Hk as [-> _]. Qed.
Lemma confirm_exec hash rep tr x :
  exec (confirm_policy r user hash rep) tr x →
  omap policy_updated tr = [] ∧ (rep_Status x = 200%Z → x = rep ∧ policy_entry r user "success" hash ∈ omap acknowledged tr).
Proof.
  intros (t1 & t2 & y & -> & (Hu & _ & Ha)%append_exec & -> & ->)%exec_bind. rewrite app_nil_r. split; [done|].
  destruct y as [[]|]; [|done]. intros _. split; [done|]. by apply Ha.
Qed.

Lemma apply_policy_exec version formatted hash repositories tr x :
  exec (apply_policy r user version formatted hash repositories) tr x →
  (∀ cm, cm ∈ omap policy_updated tr → policy_write tr version formatted cm) ∧
  (rep_Status x = 200%Z → omap policy_updated tr ≠ [] ∧ policy_entry r user "success" hash ∈ omap acknowledged tr).
Proof.
  intros (g & tr1 & -> & Hk). cbn [prog_bind] in Hk. destruct g as [old|e].
  2:{ apply exec_bind in Hk as (t1 & t2 & u & -> & Hr%record_exec & -> & ->). rewrite app_nil_r.
      change (omap policy_updated (_ :: t1)) with (omap policy_updated t1). rewrite Hr.
      split; [by intros cm ?%not_elem_of_nil|by destruct e]. }
  case_decide as Hv.
  { apply exec_bind in Hk as (t1 & t2 & u & -> & Hr%record_exec & -> & ->). rewrite app_nil_r.
    change (omap policy_updated (_ :: t1)) with (omap policy_updated t1). rewrite Hr.
    split; [by intros cm ?%not_elem_of_nil|done]. }
  destruct Hk as (u & tr2 & -> & Hk). cbn [prog_bind] in Hk. rewrite Hv.
  set (cm := {| cm_Key := cm_Key old; cm_ResourceVersion := version; cm_Data := <[policyDataKey := formatted]> (cm_Data old) |}) in *.
  assert (Hrest : omap policy_updated tr2 = [] ∧ (rep_Status x = 200%Z → policy_entry r user "success" hash ∈ omap acknowledged tr2)).
  { destruct u as [cm'|e]; [apply confirm_exec in Hk as [? Hx]; split; [done|]; intros Hs; by apply Hx|].
    apply exec_bind in Hk as (t1 & t2 & so & -> & Hres & Hk). apply exec_bind in Hres as (t3 & t4 & o & -> & Hs%snapshot_exec & Hk').
    assert (t4 = []) as ->. { destruct o; [destruct (Format _)|]; by destruct Hk' as [-> _]. }
    rewrite app_nil_r, omap_app, Hs. cbn [app]. case_decide.
    - apply confirm_exec in Hk as [? Hx]. split; [done|]. intros Hst. rewrite omap_app. apply elem_of_app. right. by apply Hx.
    - apply exec_bind in Hk as (t5 & t6 & u & -> & Hr%record_exec & -> & ->). rewrite app_nil_r. split; [done|]. by destruct e. }
  destruct Hrest as [Hu Hst].
  change (omap policy_updated (_ :: _ :: tr2)) with (cm :: omap policy_updated tr2). rewrite Hu. split.
  - intros cm' ->%list_elem_of_singleton. exists old. split_and!; [by left|done|done].
  - intros Hs. split; [done|]. change (omap acknowledged (_ :: _ :: tr2)) with (omap acknowledged tr2). by apply Hst.
Qed.

(** A request is refused before the policy is touched, or its intent is acknowledged first. *)
Lemma update_cases tr rep :
  exec (handleUpdateRepoAllowlist user r) tr rep →
  (omap policy_updated tr = [] ∧ rep_Status rep ≠ 200%Z) ∨
  ∃ req given formatted hash t2, decode_updateRepoAllowlist apiMaxBodyBytes (req_Body (api_Req r)) = Some req ∧
    ur_Repositories req = Some given ∧ is_ok (Normalize given) = true ∧ Parse formatted = Normalize given ∧
    hash = repoAllowlistPolicyHash formatted ∧
    tr = Call (AuthCall (AppendAuditEntry (policy_entry r user "attempt" hash))) (Ok tt) :: t2 ∧
    exec (apply_policy r user (ur_ResourceVersion req) formatted hash (default [] (match Normalize given with Ok l => Some l | _ => None end))) t2 rep.
Proof.
  assert (Hno : ∀ rep0, rep_Status rep0 ≠ 200%Z →
    exec (let! _ := recordRepoAllowlistAudit r user "failure" "" in Ret rep0) tr rep →
    omap policy_updated tr = [] ∧ rep_Status rep ≠ 200%Z).
  { intros rep0 Hs (t1 & t2 & u & -> & Hr%record_exec & -> & ->)%exec_bind. by rewrite app_nil_r. }
  unfold handleUpdateRepoAllowlist, decodeAPIJSON. cbv zeta. intros Hex.
  destruct (decode_updateRepoAllowlist _ _) as [req|]; [|left; eapply Hno; [|exact Hex]; done].
  destruct (ur_Repositories req) as [given|] eqn:Hg; [|left; eapply Hno; [|exact Hex]; done]. case_decide; [left; eapply Hno; [|exact Hex]; done|].
  destruct (Normalize given) as [repositories|] eqn:HN; [|left; eapply Hno; [|exact Hex]; done].
  pose proof (Parse_Format repositories) as HP. destruct (Format repositories) as [formatted|]; [|left; eapply Hno; [|exact Hex]; done].
  destruct Hex as (a & t2 & -> & Hk). cbn [prog_bind] in Hk. destruct a as [[]|]; [|destruct Hk as [-> ->]; by left].
  right. exists req, given, formatted, (repoAllowlistPolicyHash formatted), t2. rewrite HN. split_and!; try done.
  destruct HP as [HP _]. by rewrite HP, (Normalize_idem _ _ HN).
Qed.
End policy_facts.

(** ** Properties *)

(** The policy of the internet-facing receiver changes only as asked and on record.  An
    update request writes the ConfigMap only for a normalizable list and a version the
    caller named; then the ConfigMap written is the one read at exactly that version, its
    other keys untouched, with a text that the receiver parses to the normalized list;
    the intent, with the hash of that text, was acknowledged by the audit log before the
    write; and the caller is told 200 only after a success entry with the same hash was
    acknowledged. *)
Theorem policy_update_recorded `{UnicodeTables, PolicyJSON} user r tr rep :
  exec (handleUpdateRepoAllowlist user r) tr rep →
  (∀ tr1 c tr2 cm, tr = tr1 ++ c :: tr2 → policy_updated c = Some cm →
     ∃ req given formatted, decode_updateRepoAllowlist apiMaxBodyBytes (req_Body (api_Req r)) = Some req ∧
       ur_Repositories req = Some given ∧ is_ok (Normalize given) = true ∧ Parse formatted = Normalize given ∧
       policy_write tr (ur_ResourceVersion req) formatted cm ∧
       policy_entry r user "attempt" (repoAllowlistPolicyHash formatted) ∈ omap acknowledged tr1) ∧
  (rep_Status rep = 200%Z → ∃ hash, policy_entry r user "attempt" hash ∈ omap acknowledged tr ∧
     policy_entry r user "success" hash ∈ omap acknowledged tr ∧ omap policy_updated tr ≠ []).
Proof.
  intros [[Hn Hs]|(req & given & formatted & hash & t2 & Hd & Hg & Hok & Hp & -> & -> & Hex)]%update_cases.
  - split; [|done]. intros tr1 c tr2 cm -> Hc. rewrite omap_app in Hn. simpl in Hn. rewrite Hc in Hn. by apply app_nil in Hn as [_ ?].
  - apply apply_policy_exec in Hex as [Hw Hst]. split.
    + intros tr1 c tr2 cm E Hc. destruct tr1 as [|c1 tr1]; injection E as <- E; [done|]. exists req, given, formatted.
      split_and!; [done..| |by left]. destruct (Hw cm) as (old & Hin & Hv & Hcm).
      { rewrite E, omap_app. apply elem_of_app. right. simpl. rewrite Hc. by left. }
      by exists old.
    + intros Hs. destruct (Hst Hs) as [Hne Hin]. eexists. split_and!; [by left|by right|exact Hne].
Qed.
