(* ===== verification/ApiVault.v ===== *)
(** * External vaults in the dashboard

    [dashboard/internal/server/vault.go]: the API over the External Secrets Operator's
    SecretStore and ExternalSecret, as unstructured objects of a fixed shape, with the
    blind writes of a store's credentials Secret. *)
From S2P Require Import Prelude Regex GoStrings Effects Kube Api GitResolver Session ApiServer.
From Stdlib Require Import Ascii.

Definition credentialsSuffix : string := "-credentials".
Definition envSecretSuffix : string := "-env".
Definition credentialsTokenKey : string := "token".
Definition defaultRefreshInterval : string := "1h".
Definition maxSyncKeys : nat := 64.
Definition maxObjectNameLen : nat := 253.
Definition esoAPIVersion : string := "external-secrets.io/v1".
Definition secretStoreKind : string := "SecretStore".
Definition externalSecretKind : string := "ExternalSecret".

Definition credentialsName (store : string) : string := store +:+ credentialsSuffix.

(** [^[A-Za-z_][A-Za-z0-9_]*$] *)
Definition envNameRe : re := Cat (Cls (λ c, is_upper c || is_lower c || one_of "_" c)) (Star (Cls (λ c, is_alnum c || one_of "_" c))).

(** The accessors of [unstructured] and [time.ParseDuration]; a missing field or one of
    another type reads as the empty string or no keys. *)
Class VaultLib : Type := {
  NestedString : Any → list string → string;
  (** the keys of [NestedMap], in the order the loop meets them *)
  NestedMapKeys : Any → list string → list string;
  GetUID : Any → string;
  GetCreationTimestamp : Any → option Time;
  ParseDuration : string → option Z;
}.

Record secretStoreWriteRequest : Type := {
  sw_Name : string;
  sw_Server : string;
  sw_Path : string;
  sw_Version : string;
  sw_Token : string;
}.
Record externalSecretCreateRequest : Type := {
  ew_Name : string;
  ew_StoreName : string;
  ew_RefreshInterval : string;
  (** secret key and remote key *)
  ew_Keys : list (string * string);
}.
Class VaultJSON : Type := {
  decode_secretStoreWrite : Z → list ascii → option secretStoreWriteRequest;
  decode_externalSecretCreate : Z → list ascii → option externalSecretCreateRequest;
}.

Definition writeVaultK8sError (e : K8sError) : Reply :=
  match e with
  | KNoMatch => apiError 503 "secrets_vault_not_installed"
  | _ => writeK8sError e
  end.

Definition with_store_name (req : secretStoreWriteRequest) (name : string) : secretStoreWriteRequest :=
  {| sw_Name := name; sw_Server := sw_Server req; sw_Path := sw_Path req; sw_Version := sw_Version req; sw_Token := sw_Token req |}.
Definition with_store_version (req : secretStoreWriteRequest) (version : string) : secretStoreWriteRequest :=
  {| sw_Name := sw_Name req; sw_Server := sw_Server req; sw_Path := sw_Path req; sw_Version := version; sw_Token := sw_Token req |}.

Section vault.
Context `{UnicodeTables, UnstructuredLib, UrlLib, VaultLib, VaultJSON}.

(** ** Reading ESO objects *)
Definition ready_step (acc : string * string * string) (c : Any) : string * string * string :=
  match c with
  | AnyMap m =>
      if decide (any_string (any_field m "type") ≠ "Ready") then acc
      else
        let v := any_string (any_field m "status") in
        (if decide (v = "") then acc.1.1 else v, any_string (any_field m "reason"), any_string (any_field m "message"))
  | _ => acc
  end.
Definition readyCondition (u : Any) : string * string * string :=
  let conds := match NestedSlice u ["status"; "conditions"] with Ok l => l | Err _ => [] end in
  foldl ready_step ("Unknown", "", "") conds.

Definition secretStoreToResponse (u : Any) : secretStoreResponse :=
  let '(ready, reason, message) := readyCondition u in
  {| ss_Name := GetName u; ss_CreationTimestamp := GetCreationTimestamp u;
     ss_Provider := default "unknown" (last (NestedMapKeys u ["spec"; "provider"]));
     ss_Server := NestedString u ["spec"; "provider"; "vault"; "server"];
     ss_Path := NestedString u ["spec"; "provider"; "vault"; "path"];
     ss_Version := NestedString u ["spec"; "provider"; "vault"; "version"];
     ss_Ready := ready; ss_Reason := reason; ss_Message := message |}.

Definition sync_key (d : Any) : option syncKeyResponse :=
  match d with
  | AnyMap m =>
      Some {| sk_SecretKey := any_string (any_field m "secretKey");
              sk_RemoteKey := match any_field m "remoteRef" with
                              | Some (AnyMap remote) => any_string (any_field remote "key")
                              | _ => ""
                              end |}
  | _ => None
  end.
Definition externalSecretToResponse (u : Any) : externalSecretResponse :=
  let '(ready, reason, message) := readyCondition u in
  let data := match NestedSlice u ["spec"; "data"] with Ok l => l | Err _ => [] end in
  {| es_Name := GetName u; es_CreationTimestamp := GetCreationTimestamp u;
     es_StoreName := NestedString u ["spec"; "secretStoreRef"; "name"];
     es_RefreshInterval := NestedString u ["spec"; "refreshInterval"];
     es_Keys := omap sync_key data;
     es_Ready := ready; es_Reason := reason; es_Message := message;
     es_RefreshTime := NestedString u ["status"; "refreshTime"] |}.

(** ** Objects the dashboard writes *)
Definition validateStoreRequest (req : secretStoreWriteRequest) : result string secretStoreWriteRequest :=
  if negb (validResourceName (sw_Name req)) || (maxObjectNameLen <? len (credentialsName (sw_Name req))) ||
     HasSuffix (sw_Name req) credentialsSuffix || HasSuffix (sw_Name req) envSecretSuffix
  then Err "invalid_name"
  else if match ParseURL (sw_Server req) with
          | Err _ => true
          | Ok u => bool_decide (u_Scheme u ≠ "https") || bool_decide (u_Host u = "")
          end then Err "vault_server_must_be_https"
  else if bool_decide (sw_Path req = "") || (1024 <? len (sw_Path req)) then Err "invalid_vault_path"
  else if decide (sw_Version req = "") then Ok (with_store_version req "v2")
  else if decide (sw_Version req = "v1" ∨ sw_Version req = "v2") then Ok req
  else Err "invalid_vault_version".

Definition eso_object (kind name : string) (spec : Any) : Any :=
  AnyMap [("apiVersion", AnyString esoAPIVersion); ("kind", AnyString kind);
          ("metadata", AnyMap [("name", AnyString name); ("namespace", AnyString appsNamespace)]);
          ("spec", spec)].
Definition store_spec (req : secretStoreWriteRequest) : Any :=
  AnyMap [("provider", AnyMap [("vault", AnyMap [
    ("server", AnyString (sw_Server req)); ("path", AnyString (sw_Path req)); ("version", AnyString (sw_Version req));
    ("auth", AnyMap [("tokenSecretRef", AnyMap [
      ("name", AnyString (credentialsName (sw_Name req))); ("key", AnyString credentialsTokenKey)])])])])].
Definition secretStoreObject (req : secretStoreWriteRequest) : Any :=
  eso_object secretStoreKind (sw_Name req) (store_spec req).

(** [u.Object[key] = v] *)
Fixpoint set_field (m : list (string * Any)) (key : string) (v : Any) : list (string * Any) :=
  match m with
  | [] => [(key, v)]
  | (k, w) :: m => if decide (k = key) then (k, v) :: m else (k, w) :: set_field m key v
  end.
Definition with_spec (u spec : Any) : Any := match u with AnyMap m => AnyMap (set_field m "spec" spec) | u => u end.

Definition sync_spec (req : externalSecretCreateRequest) : Any :=
  AnyMap [("refreshInterval", AnyString (ew_RefreshInterval req));
          ("secretStoreRef", AnyMap [("kind", AnyString secretStoreKind); ("name", AnyString (ew_StoreName req))]);
          ("target", AnyMap [("name", AnyString (ew_Name req)); ("creationPolicy", AnyString "Owner")]);
          ("data", AnySlice ((λ k, AnyMap [("secretKey", AnyString k.1);
                                           ("remoteRef", AnyMap [("key", AnyString k.2)])]) <$> ew_Keys req))].

Definition credentials_secret (store : Any) (token : string) : Secret :=
  {| sec_Meta := with_owners (new_meta appsNamespace (credentialsName (GetName store)) ∅ ∅)
       [{| owner_Kind := secretStoreKind; owner_Name := GetName store; owner_UID := GetUID store; owner_Controller := false |}];
     sec_Type := SecretTypeOpaque;
     sec_Data := {[credentialsTokenKey := token]} |}.

Definition writeCredentialsSecret (store : Any) (token : string) (allowExisting : bool) : prog ApiE (option K8sError) :=
  let secret := credentials_secret store token in
  let! c := trigger (CreateSecret secret) in
  match c with
  | Ok _ => Ret None
  | Err e =>
      if negb allowExisting || bool_decide (e ≠ KAlreadyExists) then Ret (Some e)
      else
        let! u := trigger (UpdateSecret secret) in
        Ret (match u with Ok _ => None | Err e => Some e end)
  end.

(** ** Name collisions *)

(** [err == nil] is true, [IsNotFound] (and, with [absent], a missing kind) false. *)
Definition probe_name (k : Kind) (absent : bool) (name : string) : prog ApiE (result K8sError bool) :=
  let! g := trigger (KGet SA k (app_key name)) in
  Ret (match g with
       | Ok _ => Ok true
       | Err KNotFound => Ok false
       | Err e => if absent && bool_decide (e = KNoMatch) then Ok false else Err e
       end).

Definition credentialsNameTaken (storeName : string) : prog ApiE (result K8sError bool) :=
  probe_name (KDatabase DPostgres) false (credentialsName storeName).

Definition esoClaimsSecretName (name : string) : prog ApiE (result K8sError bool) :=
  let! es := probe_name KExternalSecret true name in
  match es with
  | Ok true => Ret (Ok true)
  | Err e => Ret (Err e)
  | Ok false =>
      match CutSuffix name credentialsSuffix with
      | None => Ret (Ok false)
      | Some base => if decide (base = "") then Ret (Ok false) else probe_name KSecretStore true base
      end
  end.

(** ** Handlers *)
Definition handleListSecretStores : prog ApiE Reply :=
  let! l := trigger (KList Viewer KSecretStore appsNamespace) in
  Ret (match l with
       | Err e => writeVaultK8sError e
       | Ok items => reply 200 (StoreItems (map secretStoreToResponse items))
       end).

Definition connect_store (user : sessionUser) (r : ApiRequest) (req : secretStoreWriteRequest) : prog ApiE Reply :=
  let! c := trigger (KCreate KSecretStore (secretStoreObject req)) in
  let! _ := auditResult r user "secretstore.create" (sw_Name req) (is_ok c) in
  match c with
  | Err e => Ret (writeVaultK8sError e)
  | Ok store =>
      let! w := writeCredentialsSecret store (sw_Token req) false in
      match w with
      | Some e =>
          let! _ := trigger (KDelete KSecretStore (app_key (GetName store))) in
          let! _ := auditResult r user "secretstore.credentials" (sw_Name req) false in
          Ret (if decide (e = KAlreadyExists) then apiError 409 "credentials_name_taken" else writeVaultK8sError e)
      | None => Ret (reply 201 (StoreBody (secretStoreToResponse store)))
      end
  end.

Definition handleCreateSecretStore (user : sessionUser) (r : ApiRequest) : prog ApiE Reply :=
  match decodeAPIJSON decode_secretStoreWrite r with
  | Err rep => Ret rep
  | Ok req =>
      match validateStoreRequest req with
      | Err code => Ret (apiError 400 code)
      | Ok req =>
          if decide (sw_Token req = "") then Ret (apiError 400 "missing_token")
          else
            let! taken := credentialsNameTaken (sw_Name req) in
            match taken with
            | Err e => Ret (writeK8sError e)
            | Ok true => Ret (apiError 409 "credentials_name_taken")
            | Ok false => connect_store user r req
            end
      end
  end.

(** The read-modify-write of an update, past the collision check. *)
Definition rewire_store (user : sessionUser) (r : ApiRequest) (req : secretStoreWriteRequest) : prog ApiE Reply :=
  let name := api_Name r in
  let! g := trigger (KGet SA KSecretStore (app_key name)) in
  match g with
  | Err e =>
      let! _ := auditResult r user "secretstore.update" name false in
      Ret (writeVaultK8sError e)
  | Ok existing =>
      let! u := trigger (KUpdate KSecretStore (with_spec existing (store_spec req))) in
      let! _ := auditResult r user "secretstore.update" name (is_ok u) in
      match u with
      | Err e => Ret (writeVaultK8sError e)
      | Ok existing =>
          if decide (sw_Token req = "") then Ret (reply 200 (StoreBody (secretStoreToResponse existing)))
          else
            let! w := writeCredentialsSecret existing (sw_Token req) true in
            match w with
            | Some e =>
                let! _ := auditResult r user "secretstore.credentials" name false in
                Ret (writeVaultK8sError e)
            | None => Ret (reply 200 (StoreBody (secretStoreToResponse existing)))
            end
      end
  end.

Definition handleUpdateSecretStore (user : sessionUser) (r : ApiRequest) : prog ApiE Reply :=
  match decodeAPIJSON decode_secretStoreWrite r with
  | Err rep => Ret rep
  | Ok req =>
      match validateStoreRequest (with_store_name req (api_Name r)) with
      | Err code => Ret (apiError 400 code)
      | Ok req =>
          if decide (sw_Token req = "") then rewire_store user r req
          else
            let! taken := credentialsNameTaken (api_Name r) in
            match taken with
            | Err e => Ret (writeK8sError e)
            | Ok true => Ret (apiError 409 "credentials_name_taken")
            | Ok false => rewire_store user r req
            end
      end
  end.

(** The deletions of both kinds. *)
Definition delete_eso (k : Kind) (action : string) (user : sessionUser) (r : ApiRequest) : prog ApiE Reply :=
  let! d := trigger (KDelete k (app_key (api_Name r))) in
  let! _ := auditResult r user action (api_Name r) (is_ok d) in
  Ret (match d with Err e => writeVaultK8sError e | Ok _ => noContent end).
Definition handleDeleteSecretStore : sessionUser → ApiRequest → prog ApiE Reply := delete_eso KSecretStore "secretstore.delete".
Definition handleDeleteExternalSecret : sessionUser → ApiRequest → prog ApiE Reply :=
  delete_eso KExternalSecret "externalsecret.delete".

Definition handleListExternalSecrets : prog ApiE Reply :=
  let! l := trigger (KList Viewer KExternalSecret appsNamespace) in
  Ret (match l with
       | Err e => writeVaultK8sError e
       | Ok items => reply 200 (SyncItems (map externalSecretToResponse items))
       end).

Fixpoint valid_sync_keys (keys : list (string * string)) (seen : gset string) : bool :=
  match keys with
  | [] => true
  | (secretKey, remoteKey) :: keys =>
      MatchString envNameRe secretKey && bool_decide (secretKey ∉ seen) &&
      negb (bool_decide (remoteKey = "") || (2048 <? len remoteKey)) && valid_sync_keys keys ({[secretKey]} ∪ seen)
  end.

(** The checks on the body; the request with its refresh interval filled in. *)
Definition validateSyncRequest (req : externalSecretCreateRequest) : result string externalSecretCreateRequest :=
  if negb (validResourceName (ew_Name req)) || (maxObjectNameLen <? len (ew_Name req)) then Err "invalid_name"
  else if HasSuffix (ew_Name req) credentialsSuffix || HasSuffix (ew_Name req) envSecretSuffix then Err "reserved_name"
  else
    let interval := if decide (ew_RefreshInterval req = "") then defaultRefreshInterval else ew_RefreshInterval req in
    if match ParseDuration interval with Some d => (d <=? 0)%Z | None => true end then Err "invalid_refresh_interval"
    else if (length (ew_Keys req) =? 0) || (maxSyncKeys <? length (ew_Keys req)) then Err "invalid_keys"
    else if negb (valid_sync_keys (ew_Keys req) ∅) then Err "invalid_keys"
    else Ok {| ew_Name := ew_Name req; ew_StoreName := ew_StoreName req; ew_RefreshInterval := interval; ew_Keys := ew_Keys req |}.

Definition handleCreateExternalSecret (user : sessionUser) (r : ApiRequest) : prog ApiE Reply :=
  match decodeAPIJSON decode_externalSecretCreate r with
  | Err rep => Ret rep
  | Ok req =>
      match validateSyncRequest req with
      | Err code => Ret (apiError 400 code)
      | Ok req =>
          let! taken := probe_name (KDatabase DPostgres) true (ew_Name req) in
          match taken with
          | Ok true => Ret (apiError 409 "name_conflict")
          | Err e => Ret (writeK8sError e)
          | Ok false =>
              let! g := trigger (KGet SA KSecretStore (app_key (ew_StoreName req))) in
              match g with
              | Err KNotFound => Ret (apiError 400 "unknown_store")
              | Err e => Ret (writeVaultK8sError e)
              | Ok _ =>
                  let! c := trigger (KCreate KExternalSecret (eso_object externalSecretKind (ew_Name req) (sync_spec req))) in
                  let! _ := auditResult r user "externalsecret.create" (ew_Name req) (is_ok c) in
                  Ret (match c with
                       | Err e => writeVaultK8sError e
                       | Ok es => reply 201 (SyncBody (externalSecretToResponse es))
                       end)
              end
          end
      end
  end.
End vault.
