(* ===== verification/ApiApps.v ===== *)
(** * Apps, domains and read views in the dashboard

    [app.go], [secrets.go], [builds.go], [deploys.go], [source_archive.go], [domain.go],
    [features.go], [nodes.go] and [audit_view.go] of [dashboard/internal/server]: the
    handlers over Apps, their environment, builds, deploy history and source archives,
    over Domains, and the plain read views.  A handler that writes takes the session's
    user, for the audit log. *)
From S2P Require Import Prelude Regex GoStrings Effects Kube Api Features Sha256 GitResolver SourceArchive.
From S2P Require Import DomainController Session ApiServer ApiPolicy ApiVault.
From Stdlib Require Import Ascii.

Record appCreateRequest : Type := { ac_Name : string; ac_Spec : AppSpec }.
Record appUpdateRequest : Type := { au_Spec : AppSpec }.
Record appSourceUpdateRequest : Type := { as_Source : Source; as_Build : BuildStrategy }.
Record setEnvRequest : Type := { se_Secrets : gmap string string }.
Record domainCreateRequest : Type := { dc_Name : string; dc_Spec : DomainSpec }.
Class AppJSON : Type := {
  decode_appCreate : Z → list ascii → option appCreateRequest;
  decode_appUpdate : Z → list ascii → option appUpdateRequest;
  decode_appSourceUpdate : Z → list ascii → option appSourceUpdateRequest;
  decode_setEnv : Z → list ascii → option setEnvRequest;
  decode_domainCreate : Z → list ascii → option domainCreateRequest;
}.

(** [controllerutil.SetOwnerReference(owner, object)] *)
Class AppLib : Type := { SetOwnerReference : ObjectMeta → ObjectMeta → result string ObjectMeta }.

(** ** Data transfer objects *)
Definition object_response {S T} (m : ObjectMeta) (spec : S) (status : T) : objectResponse S T :=
  {| or_Name := meta_Name m; or_Namespace := meta_Namespace m; or_CreationTimestamp := meta_CreationTimestamp m;
     or_Spec := spec; or_Status := status |}.
Definition appToResponse (app : App) : appResponse := object_response (app_Meta app) (app_Spec app) (app_Status app).
Definition domainToResponse (d : Domain) : domainResponse := object_response (domain_Meta d) (domain_Spec d) (domain_Status d).
Definition buildToResponse (b : Build) : buildResponse :=
  {| br_Name := meta_Name (build_Meta b); br_CreationTimestamp := meta_CreationTimestamp (build_Meta b);
     br_Spec := build_Spec b; br_Status := build_Status b |}.

Definition no_app_status : AppStatus :=
  {| app_ObservedGeneration := 0; app_Conditions := []; app_Image := ""; app_URL := ""; app_AvailableReplicas := 0;
     app_LatestBuild := "" |}.
Definition new_app (name : string) (spec : AppSpec) : App :=
  {| app_Meta := new_meta appsNamespace name ∅ ∅; app_Spec := spec; app_Status := no_app_status |}.
Definition new_domain (name : string) (spec : DomainSpec) : Domain :=
  {| domain_Meta := new_meta appsNamespace name ∅ ∅; domain_Spec := spec;
     domain_Status := {| domain_ObservedGeneration := 0; domain_Conditions := [] |} |}.
Definition with_app_spec (app : App) (spec : AppSpec) : App :=
  {| app_Meta := app_Meta app; app_Spec := spec; app_Status := app_Status app |}.
Definition with_source (spec : AppSpec) (source : Source) (build : BuildStrategy) : AppSpec :=
  {| app_Source := source; app_Build := build; app_Type := app_Type spec; app_Command := app_Command spec;
     app_Port := app_Port spec; app_Replicas := app_Replicas spec; app_Env := app_Env spec;
     app_Resources := app_Resources spec; app_HealthCheck := app_HealthCheck spec |}.
Definition with_env (spec : AppSpec) (env : list EnvVar) : AppSpec :=
  {| app_Source := app_Source spec; app_Build := app_Build spec; app_Type := app_Type spec; app_Command := app_Command spec;
     app_Port := app_Port spec; app_Replicas := app_Replicas spec; app_Env := env;
     app_Resources := app_Resources spec; app_HealthCheck := app_HealthCheck spec |}.

(** ** The deploy queue *)
Definition deployStatusCreated : string := "created".
Definition deployStatusUpdated : string := "updated".
Definition recordDeploy (app status : string) : prog ApiE unit :=
  let! _ := trigger (RecordDeploy {| rd_AppNamespace := appsNamespace; rd_AppName := app; rd_Status := status |}) in
  Ret tt.

Definition sourceQueueKey (source : Source) : string :=
  match source_GitHub source, source_Git source, source_Upload source with
  | Some g, _, _ => github_Repo g
  | None, Some g, _ => "git:" +:+ EncodeToString (Sum256 (bytes (git_URL g)))
  | None, None, Some u => "zip:" +:+ upload_Digest u
  | None, None, None => "unknown"
  end.
Definition sourceDisplayName (source : Source) : string :=
  match source_GitHub source, source_Git source, source_Upload source with
  | Some g, _, _ => github_Repo g
  | None, Some g, _ => git_URL g
  | None, None, Some u => if decide (upload_FileName u = "") then upload_Digest u else upload_FileName u
  | None, None, None => ""
  end.

Definition manualDeliveryPrefix : string := "manual-".
Definition newManualDeliveryID : prog ApiE (result string string) :=
  let! raw := auth (rand 16) in
  Ret (match raw with Err e => Err e | Ok raw => Ok (manualDeliveryPrefix +:+ EncodeToString raw) end).

(** [None] for every error, which the callers only log. *)
Fixpoint enqueue_loop (attempts : nat) (appName repo : string) : prog ApiE (option string) :=
  match attempts with
  | 0 => Ret None
  | S attempts =>
      let! id := newManualDeliveryID in
      match id with
      | Err _ => Ret None
      | Ok deliveryID =>
          let! inserted := trigger (EnqueueManualDelivery
            {| em_DeliveryID := deliveryID; em_Repo := repo; em_AppName := appName |}) in
          match inserted with
          | Err _ => Ret None
          | Ok n => if decide (n = 1%Z) then Ret (Some deliveryID) else enqueue_loop attempts appName repo
          end
      end
  end.
Definition enqueueManualDeploy : string → string → prog ApiE (option string) := enqueue_loop 3.

Definition repoAllowed `{UnicodeTables} (repositories : list string) (repo : string) : bool :=
  existsb (λ allowed, EqualFold (TrimSpace allowed) (TrimSpace repo)) repositories.

Section apps.
Context `{UnicodeTables, UrlLib, UrlRefs, PolicyJSON, AppJSON, AppLib} (s : ApiConfig).

(** ** Apps *)
Definition handleListApps : prog ApiE Reply :=
  let! l := trigger (KList Viewer KApp appsNamespace) in
  Ret (match l with Err e => writeK8sError e | Ok items => reply 200 (AppItems (map appToResponse items)) end).

Definition handleGetApp (r : ApiRequest) : prog ApiE Reply :=
  let! g := trigger (KGet Viewer KApp (app_key (api_Name r))) in
  Ret (match g with Err e => writeK8sError e | Ok app => reply 200 (AppBody (appToResponse app)) end).

(** The deploy that follows a created or re-sourced App, and its audit entry. *)
Definition queue_deploy (user : sessionUser) (r : ApiRequest) (name : string) (source : Source) : prog ApiE unit :=
  let! d := enqueueManualDeploy name (sourceQueueKey source) in
  auditResult r user "app.deploy" name (has d).

Definition create_app (user : sessionUser) (r : ApiRequest) (req : appCreateRequest) : prog ApiE Reply :=
  let! kind := conflictingResourceKind (ac_Name req) "App" in
  match kind with
  | Err e =>
      let! _ := auditResult r user "app.create" (ac_Name req) false in
      Ret (writeK8sError e)
  | Ok kind =>
      if decide (kind ≠ "") then
        let! _ := auditResult r user "app.create" (ac_Name req) false in
        Ret (writeNameInUse kind)
      else
        let! c := trigger (KCreate KApp (new_app (ac_Name req) (ac_Spec req))) in
        let! _ := auditResult r user "app.create" (ac_Name req) (is_ok c) in
        match c with
        | Err e => Ret (writeK8sError e)
        | Ok app =>
            let! _ := recordDeploy (ac_Name req) deployStatusCreated in
            let! _ := queue_deploy user r (ac_Name req) (app_Source (ac_Spec req)) in
            Ret (reply 201 (AppBody (appToResponse app)))
        end
  end.
Definition handleCreateApp (user : sessionUser) (r : ApiRequest) : prog ApiE Reply :=
  match decodeAPIJSON decode_appCreate r with
  | Err rep => Ret rep
  | Ok req =>
      if negb (validResourceName (ac_Name req)) then Ret (apiError 400 "invalid_name")
      else
        match ValidateApp (cfg_Features s) (ac_Spec req) with
        | Some e => Ret (writeFeatureDisabled e)
        | None => with_names (create_app user r req)
        end
  end.

Definition handleUpdateApp (user : sessionUser) (r : ApiRequest) : prog ApiE Reply :=
  let name := api_Name r in
  match decodeAPIJSON decode_appUpdate r with
  | Err rep => Ret rep
  | Ok req =>
      let! g := trigger (KGet SA KApp (app_key name)) in
      match g with
      | Err e =>
          let! _ := auditResult r user "app.update" name false in
          Ret (writeK8sError e)
      | Ok app =>
          if decide (app_Source (app_Spec app) ≠ app_Source (au_Spec req) ∨ app_Build (app_Spec app) ≠ app_Build (au_Spec req)) then
            let! _ := auditResult r user "app.update" name false in
            Ret (apiError 409 "source_update_required")
          else
            let! u := trigger (KUpdate KApp (with_app_spec app (au_Spec req))) in
            let! _ := auditResult r user "app.update" name (is_ok u) in
            match u with
            | Err e => Ret (writeK8sError e)
            | Ok app =>
                let! _ := recordDeploy name deployStatusUpdated in
                Ret (reply 200 (AppBody (appToResponse app)))
            end
      end
  end.

Definition resource_app (user : sessionUser) (r : ApiRequest) (app : App) (req : appSourceUpdateRequest) : prog ApiE Reply :=
  let name := api_Name r in
  let candidate := with_source (app_Spec app) (as_Source req) (as_Build req) in
  match ValidateApp (cfg_Features s) candidate with
  | Some e =>
      let! _ := auditResult r user "app.source.update" name false in
      Ret (writeFeatureDisabled e)
  | None =>
      let! u := trigger (KUpdate KApp (with_app_spec app candidate)) in
      match u with
      | Err e =>
          let! _ := auditResult r user "app.source.update" name false in
          Ret (writeK8sError e)
      | Ok app =>
          let! _ := auditResult r user "app.source.update" name true in
          let! _ := recordDeploy name deployStatusUpdated in
          let! _ := queue_deploy user r name (as_Source req) in
          Ret (reply 200 (AppBody (appToResponse app)))
      end
  end.
Definition handleUpdateAppSource (user : sessionUser) (r : ApiRequest) : prog ApiE Reply :=
  match decodeAPIJSON decode_appSourceUpdate r with
  | Err rep => Ret rep
  | Ok req =>
      let! g := trigger (KGet SA KApp (app_key (api_Name r))) in
      match g with
      | Err e =>
          let! _ := auditResult r user "app.source.update" (api_Name r) false in
          Ret (writeK8sError e)
      | Ok app =>
          if decide (app_Source (app_Spec app) ≠ as_Source req ∨ app_Build (app_Spec app) ≠ as_Build req)
          then resource_app user r app req
          else
            let! _ := auditResult r user "app.source.update" (api_Name r) true in
            Ret (reply 200 (AppBody (appToResponse app)))
      end
  end.

(** The deletions of Apps, Domains and databases. *)
Definition delete_object (k : Kind) (action : string) (user : sessionUser) (r : ApiRequest) : prog ApiE Reply :=
  let! d := trigger (KDelete k (app_key (api_Name r))) in
  let! _ := auditResult r user action (api_Name r) (is_ok d) in
  Ret (match d with Err e => writeK8sError e | Ok _ => noContent end).
Definition handleDeleteApp : sessionUser → ApiRequest → prog ApiE Reply := delete_object KApp "app.delete".

(** ** The environment editor *)
Definition maxEnvVars : nat := 64.
Definition envSecretName (app : string) : string := app +:+ "-env".

Definition valid_env_key (k : string) : bool := (len k <=? 253) && MatchString envNameRe k.
Definition sortedEnvKeys (secrets : gmap string string) : option (list string) :=
  let keys := elements (dom secrets) in
  if forallb valid_env_key keys then Some (merge_sort String.le keys) else None.

Definition kept_ref (secretName : string) (keys : list string) (e : EnvVar) : Prop :=
  (env_Name e ∉ keys) ∧ (secretref_Name <$> env_SecretRef e) ≠ Some secretName.
#[export] Instance kept_ref_dec secretName keys e : Decision (kept_ref secretName keys e).
Proof. unfold kept_ref. apply _. Defined.
Definition env_ref (secretName k : string) : EnvVar :=
  {| env_Name := k; env_Value := ""; env_SecretRef := Some {| secretref_Name := secretName; secretref_Key := k |} |}.
Definition reconcileEnvRefs (env : list EnvVar) (secretName : string) (keys : list string) : list EnvVar :=
  filter (kept_ref secretName keys) env ++ (env_ref secretName <$> keys).

Definition auditEnv (r : ApiRequest) (user : sessionUser) (app : string) (keys : list string) (ok : bool) : prog ApiE unit :=
  auth (auditDetail (su_Username user) "env.update" app (outcome_word ok) (api_Req r) {["keys" := VStrings keys]}).

Definition env_secret (app : App) (secrets : gmap string string) : result string Secret :=
  match SetOwnerReference (app_Meta app) (new_meta appsNamespace (envSecretName (meta_Name (app_Meta app))) ∅ ∅) with
  | Err e => Err e
  | Ok m => Ok {| sec_Meta := m; sec_Type := SecretTypeOpaque; sec_Data := secrets |}
  end.
Definition writeEnvSecret (app : App) (secrets : gmap string string) : prog ApiE (option K8sError) :=
  match env_secret app secrets with
  | Err e => Ret (Some (KOther e))
  | Ok secret =>
      let! c := trigger (CreateSecret secret) in
      match c with
      | Ok _ => Ret None
      | Err KAlreadyExists =>
          let! u := trigger (UpdateSecret secret) in
          Ret (match u with Ok _ => None | Err e => Some e end)
      | Err e => Ret (Some e)
      end
  end.

(** The two writes, once the new environment is known to fit. *)
Definition write_env (user : sessionUser) (r : ApiRequest) (app : App) (secrets : gmap string string) (keys : list string)
    (newEnv : list EnvVar) : prog ApiE Reply :=
  let name := api_Name r in
  let! w := writeEnvSecret app secrets in
  match w with
  | Some e =>
      let! _ := auditEnv r user name keys false in
      Ret (writeK8sError e)
  | None =>
      let! u := trigger (KUpdate KApp (with_app_spec app (with_env (app_Spec app) newEnv))) in
      let! _ := auditEnv r user name keys (is_ok u) in
      Ret (match u with Err e => writeK8sError e | Ok app => reply 200 (AppBody (appToResponse app)) end)
  end.
Definition handleSetEnv (user : sessionUser) (r : ApiRequest) : prog ApiE Reply :=
  let name := api_Name r in
  if maxObjectNameLen <? len (envSecretName name) then Ret (apiError 400 "app_name_too_long")
  else
    match decodeAPIJSON decode_setEnv r with
    | Err rep => Ret rep
    | Ok req =>
        match sortedEnvKeys (se_Secrets req) with
        | None => Ret (apiError 400 "invalid_env")
        | Some keys =>
            let! g := trigger (KGet SA KApp (app_key name)) in
            match g with
            | Err e =>
                let! _ := auditEnv r user name keys false in
                Ret (writeK8sError e)
            | Ok app =>
                let newEnv := reconcileEnvRefs (app_Env (app_Spec app)) (envSecretName name) keys in
                if maxEnvVars <? length newEnv then Ret (apiError 400 "env_limit_exceeded")
                else write_env user r app (se_Secrets req) keys newEnv
            end
        end
    end.
End apps.
