(* ===== verification/ApiViews.v ===== *)
(** * Builds, archives, domains and read views in the dashboard

    [builds.go], [deploys.go], [source_archive.go], [domain.go], [features.go],
    [nodes.go], [audit_view.go] and the gates of [logs.go] of
    [dashboard/internal/server].  A log stream is what the handler commits to: the
    namespace, pods and options it tails. *)
From S2P Require Import Prelude Regex GoStrings Effects Kube Api Features Sha256 GitResolver SourceArchive.
From S2P Require Import DomainController Database Session ApiServer ApiPolicy ApiVault ApiApps.
From Stdlib Require Import Ascii.

(** ** Settings *)
Definition settingAccessMode : string := "access_mode".
Definition settingGitHubAppSlug : string := "github_app_slug".
Definition settingGitHubAppID : string := "github_app_id".
Definition settingGitHubConnectedAt : string := "github_connected_at".
Definition settingOIDCConfiguredAt : string := "oidc_configured_at".

(** A later row of a key replaces an earlier one. *)
Definition loadSettings : prog ApiE (result DbError (gmap string string)) :=
  let! rows := trigger ListSettings in
  Ret (match rows with
       | Err e => Err e
       | Ok rows => Ok (foldl (λ m row, <[row.1 := row.2]> m) ∅ rows)
       end).
(** [settings[key]] *)
Definition setting (settings : gmap string string) (key : string) : string := default "" (settings !! key).

Section views.
Context `{UnicodeTables, UrlLib, UrlRefs, PolicyJSON, AppJSON, AppLib} (s : ApiConfig).

(** ** Builds *)

(** [a.After(b)]; an unset time is before every other *)
Definition after (a b : option Time) : bool :=
  match a, b with
  | Some a, Some b => bool_decide (b < a)%Z
  | Some _, None => true
  | None, _ => false
  end.
Definition not_older (a b : Build) : Prop :=
  after (meta_CreationTimestamp (build_Meta b)) (meta_CreationTimestamp (build_Meta a)) = false.
#[export] Instance not_older_dec a b : Decision (not_older a b).
Proof. unfold not_older. apply _. Defined.
(** the stable sort, newest first, and the App's own *)
Definition app_builds (name : string) (items : list Build) : list buildResponse :=
  map buildToResponse (filter (λ b, build_AppName (build_Spec b) = name) (merge_sort not_older items)).

Definition builds_reply (app : App) (items : list buildResponse) (automatic configured connected : bool) : Reply :=
  reply 200 (BuildsBody {| bs_Items := items; bs_Repo := sourceDisplayName (app_Source (app_Spec app));
    bs_AutomaticDeploys := automatic; bs_GitHubConfigured := configured; bs_GitHubConnected := connected |}).

Definition handleListBuilds (r : ApiRequest) : prog ApiE Reply :=
  let name := api_Name r in
  if negb (validResourceName name) then Ret (apiError 400 "invalid_request")
  else
    let! g := trigger (KGet Viewer KApp (app_key name)) in
    match g with
    | Err e => Ret (writeK8sError e)
    | Ok app =>
        let! l := trigger (KList Viewer KBuild appsNamespace) in
        match l with
        | Err e => Ret (writeK8sError e)
        | Ok builds =>
            let items := app_builds name builds in
            match source_GitHub (app_Source (app_Spec app)) with
            | None => Ret (builds_reply app items false false false)
            | Some gh =>
                let! repositories := loadRepoAllowlist in
                match repositories with
                | Err e => Ret (writeRepoAllowlistReadError e)
                | Ok repositories =>
                    let! settings := loadSettings in
                    Ret (match settings with
                         | Err _ => apiError 503 "unavailable"
                         | Ok settings =>
                             builds_reply app items (repoAllowed repositories (github_Repo gh))
                               (negb (bool_decide (cfg_WebhookURL s = "")))
                               (negb (bool_decide (setting settings settingGitHubConnectedAt = "")))
                         end)
                end
            end
        end
    end.

Definition handleDeployApp (user : sessionUser) (r : ApiRequest) : prog ApiE Reply :=
  let name := api_Name r in
  if negb (validResourceName name) then Ret (apiError 400 "invalid_request")
  else
    let! g := trigger (KGet SA KApp (app_key name)) in
    match g with
    | Err e =>
        let! _ := auditResult r user "app.deploy" name false in
        Ret (writeK8sError e)
    | Ok app =>
        match ValidateApp (cfg_Features s) (app_Spec app) with
        | Some e =>
            let! _ := auditResult r user "app.deploy" name false in
            Ret (writeFeatureDisabled e)
        | None =>
            let! d := enqueueManualDeploy name (sourceQueueKey (app_Source (app_Spec app))) in
            let! _ := auditResult r user "app.deploy" name (has d) in
            Ret (match d with
                 | None => apiError 503 "unavailable"
                 | Some id => of_response (writeJSON [] 202 [("status", VString "queued"); ("requestId", VString id)])
                 end)
        end
    end.

(** ** Deploy history and audit log *)
Definition handleListDeploys (r : ApiRequest) : prog ApiE Reply :=
  let '(limit, offset) := parsePage r in
  let! rows := trigger (ListAppDeploys
    {| ld_AppNamespace := appsNamespace; ld_AppName := api_Name r; ld_Limit := limit; ld_Offset := offset |}) in
  Ret (match rows with Err _ => apiError 503 "unavailable" | Ok rows => reply 200 (DeployItems rows) end).

Definition handleListAudit (r : ApiRequest) : prog ApiE Reply :=
  let '(limit, offset) := parsePage r in
  let! rows := trigger (ListAuditEntries limit offset) in
  Ret (match rows with Err _ => apiError 503 "unavailable" | Ok rows => reply 200 (AuditItems rows) end).

(** ** Source archives *)
Definition store_archive (user : sessionUser) (r : ApiRequest) (filename tmpName : string) (data : list ascii) : prog ApiE Reply :=
  let name := api_Name r in
  let digest := sha256_digest data in
  let! o := trigger (OpenArchive tmpName) in
  match o with
  | Err _ => Ret (apiError 503 "unavailable")
  | Ok _ =>
      let! u := archive (Upload (cfg_Archives s) name filename (Z.of_nat (length data)) digest) in
      let! c := trigger CloseArchive in
      let ok := negb (has u) && negb (has c) in
      let! _ := auditResult r user "app.source.upload" name ok in
      Ret (if ok then of_response (writeJSON [] 201 [("digest", VString digest); ("fileName", VString filename)])
           else apiError 503 "unavailable")
  end.

Definition receive_archive (user : sessionUser) (r : ApiRequest) (filename : string) : prog ApiE Reply :=
  let name := api_Name r in
  let! t := archive (trigger CreateTemp) in
  match t with
  | Err _ => Ret (apiError 503 "unavailable")
  | Ok tmpName =>
      let! b := trigger (ReceiveBody MaxCompressedBytes) in
      let! closeErr := archive (trigger CloseTemp) in
      match b.2, closeErr with
      | Some BodyTooLarge, _ => Ret (apiError 413 "archive_too_large")
      | Some (CopyFailed _), _ | None, Some _ => Ret (apiError 400 "invalid_archive")
      | None, None =>
          if decide (length b.1 = 0) then Ret (apiError 422 "invalid_archive")
          else
            let! i := archive (Inspect tmpName) in
            match i with
            | Err _ =>
                let! _ := auditResult r user "app.source.upload" name false in
                Ret (apiError 422 "invalid_archive")
            | Ok _ => store_archive user r filename tmpName b.1
            end
      end
  end.

Definition zip_media (mediaType : result string string) : bool :=
  match mediaType with
  | Ok m => bool_decide (m = "application/zip") || bool_decide (m = "application/x-zip-compressed")
  | Err _ => false
  end.
Definition handleUploadSourceArchive (user : sessionUser) (r : ApiRequest) : prog ApiE Reply :=
  let name := api_Name r in
  if negb (validResourceName name) then Ret (apiError 400 "invalid_name")
  else if negb (Enabled (cfg_Features s) SourceZip) then
    let! _ := auditResult r user "app.source.upload" name false in
    Ret (writeFeatureDisabled {| disabled_IDs := [SourceZip] |})
  else
    let filename := header r "X-Orkano-Filename" in
    if negb (MatchString zipNamePattern filename) then Ret (apiError 400 "invalid_filename")
    else if negb (zip_media (ParseMediaType (header r "Content-Type"))) then Ret (apiError 415 "zip_required")
    else if (MaxCompressedBytes <? api_ContentLength r)%Z then Ret (apiError 413 "archive_too_large")
    else
      let! g := trigger (KGet SA KApp (app_key name)) in
      match g with
      | Err e =>
          let! _ := auditResult r user "app.source.upload" name false in
          Ret (writeK8sError e)
      | Ok _ => receive_archive user r filename
      end.

(** ** Domains *)
Definition handleListDomains : prog ApiE Reply :=
  let! l := trigger (KList Viewer KDomain appsNamespace) in
  Ret (match l with Err e => writeK8sError e | Ok items => reply 200 (DomainItems (map domainToResponse items)) end).

Definition handleGetDomain (r : ApiRequest) : prog ApiE Reply :=
  let! g := trigger (KGet Viewer KDomain (app_key (api_Name r))) in
  Ret (match g with Err e => writeK8sError e | Ok d => reply 200 (DomainBody (domainToResponse d)) end).

Definition handleCreateDomain (user : sessionUser) (r : ApiRequest) : prog ApiE Reply :=
  match decodeAPIJSON decode_domainCreate r with
  | Err rep => Ret rep
  | Ok req =>
      if negb (validResourceName (dc_Name req)) then Ret (apiError 400 "invalid_name")
      else
        let! c := trigger (KCreate KDomain (new_domain (dc_Name req) (dc_Spec req))) in
        let! _ := auditResult r user "domain.create" (dc_Name req) (is_ok c) in
        Ret (match c with Err e => writeK8sError e | Ok d => reply 201 (DomainBody (domainToResponse d)) end)
  end.

Definition handleDeleteDomain : sessionUser → ApiRequest → prog ApiE Reply := delete_object KDomain "domain.delete".

(** ** Features *)
Definition feature_item (d : FeatureDefinition) : featureResponse :=
  {| fr_ID := feature_ID d; fr_Label := feature_Name d; fr_Description := feature_Description d;
     fr_Unsafe := feature_Unsafe d; fr_Enabled := Enabled (cfg_Features s) (feature_ID d) |}.
Definition handleFeatures : prog ApiE Reply := Ret (reply 200 (FeatureItems (map feature_item definitions))).

(** ** Nodes *)
Definition nodeRolePrefix : string := "node-role.kubernetes.io/".
Definition node_role (label : string) : option string :=
  if HasPrefix label nodeRolePrefix then
    let role := TrimPrefix label nodeRolePrefix in
    if decide (role = "") then None else Some role
  else None.
Definition nodeRoles (node : Node) : list string :=
  let roles := omap node_role (elements (dom (meta_Labels (node_Meta node)))) in
  if decide (roles = []) then ["worker"] else merge_sort String.le roles.

(** readiness and its word; the last [Ready] condition decides *)
Definition node_ready_step (acc : bool * string) (c : NodeCondition) : bool * string :=
  if decide (nc_Type c ≠ "Ready") then acc
  else if decide (nc_Status c = ConditionTrue) then (true, "Ready") else (acc.1, "NotReady").
Definition nodeToResponse (node : Node) : nodeResponse :=
  let '(ready, status) := foldl node_ready_step (false, "Unknown") (node_Conditions node) in
  {| nr_Name := meta_Name (node_Meta node); nr_Roles := nodeRoles node; nr_Ready := ready; nr_Status := status;
     nr_Unschedulable := node_Unschedulable node; nr_KubeletVersion := node_KubeletVersion node;
     nr_OSImage := node_OSImage node; nr_Architecture := node_Architecture node;
     nr_InternalIP := default "" ((λ p, p.2.2) <$> list_find (λ a, a.1 = "InternalIP") (node_Addresses node));
     nr_CreationTimestamp := meta_CreationTimestamp (node_Meta node) |}.
Definition name_le (a b : nodeResponse) : Prop := String.le (nr_Name a) (nr_Name b).
#[export] Instance name_le_dec a b : Decision (name_le a b).
Proof. unfold name_le. apply _. Defined.
Definition handleListNodes : prog ApiE Reply :=
  let! l := trigger ListNodes in
  Ret (match l with
       | Err e => writeK8sError e
       | Ok nodes => reply 200 (NodeItems (merge_sort name_le (map nodeToResponse nodes)))
       end).

(** ** Logs *)
Definition appPodLabel : string := "app.orkano.io/app".
Definition appContainerName : string := "app".
Definition postgresPodLabel : string := "app.orkano.io/postgres".
Definition postgresContainerName : string := "postgres".
Definition mongoPodLabel : string := "app.orkano.io/mongo".
Definition mongoContainerName : string := "mongo".
Definition buildJobPodLabel : string := "batch.kubernetes.io/job-name".
Definition buildContainerName : string := "buildkit".
Definition buildsNamespace : string := "orkano-builds".
Definition defaultTailLines : Z := 200.
Definition maxTailLines : Z := 5000.

(** [strconv.ParseBool] *)
Definition ParseBool (v : string) : option bool :=
  if decide (v ∈ ["1"; "t"; "T"; "true"; "TRUE"; "True"]) then Some true
  else if decide (v ∈ ["0"; "f"; "F"; "false"; "FALSE"; "False"]) then Some false
  else None.

(** [validation.IsDNS1123Label] finds no fault *)
Definition valid_label (c : string) : bool := MatchString dnsLabel c && (len c <=? 63).

(** The flag of a query parameter: its default when absent, [None] when malformed. *)
Definition query_flag (r : ApiRequest) (key : string) (dflt : bool) : option bool :=
  let v := api_query r key in
  if decide (v = "") then Some dflt else ParseBool v.
Definition query_container (r : ApiRequest) (dflt : string) : option string :=
  let c := api_query r "container" in
  if decide (c = "") then Some dflt else if valid_label c then Some c else None.
Definition query_tail (r : ApiRequest) : option Z :=
  let v := api_query r "tail" in
  if decide (v = "") then Some defaultTailLines
  else
    match ParseInt10 64 v with
    | Some n => if decide (n < 0)%Z then None else Some (Z.min n maxTailLines)
    | None => None
    end.
Definition parseLogOptions (r : ApiRequest) (defaultContainer : string) : option PodLogOptions :=
  c ← query_container r defaultContainer;
  follow ← query_flag r "follow" true;
  previous ← query_flag r "previous" false;
  n ← query_tail r;
  Some {| log_Container := c; log_Follow := follow && negb previous; log_Previous := previous; log_TailLines := n |}.

Definition handleLabeledLogs (r : ApiRequest) (namespace podLabel labelValue container : string) : prog ApiE Reply :=
  match parseLogOptions r container with
  | None => Ret (apiError 400 "invalid_request")
  | Some opts =>
      let! p := trigger (ListPods namespace podLabel labelValue) in
      match p with
      | Err e => Ret (writeK8sError e)
      | Ok pods =>
          let wantPod := api_query r "pod" in
          if decide (wantPod = "") then Ret (reply 200 (LogStream namespace pods opts))
          else if negb (validResourceName wantPod) || bool_decide (wantPod ∉ pods) then Ret (apiError 404 "not_found")
          else Ret (reply 200 (LogStream namespace [wantPod] opts))
      end
  end.

Definition handleResourceLogs (r : ApiRequest) (podLabel container : string) : prog ApiE Reply :=
  if negb (validResourceName (api_Name r)) then Ret (apiError 400 "invalid_request")
  else handleLabeledLogs r appsNamespace podLabel (api_Name r) container.
Definition handleAppLogs (r : ApiRequest) : prog ApiE Reply := handleResourceLogs r appPodLabel appContainerName.
Definition handlePostgresLogs (r : ApiRequest) : prog ApiE Reply := handleResourceLogs r postgresPodLabel postgresContainerName.
Definition handleMongoLogs (r : ApiRequest) : prog ApiE Reply := handleResourceLogs r mongoPodLabel mongoContainerName.

Definition handleBuildLogs (r : ApiRequest) : prog ApiE Reply :=
  if negb (validResourceName (api_Name r)) || negb (validResourceName (api_Build r)) then Ret (apiError 400 "invalid_request")
  else
    let! g := trigger (KGet Viewer KBuild (app_key (api_Build r))) in
    match g with
    | Err e => Ret (writeK8sError e)
    | Ok build =>
        if decide (build_AppName (build_Spec build) ≠ api_Name r) then Ret (apiError 404 "not_found")
        else
          match build_JobRef (build_Status build) with
          | None => Ret (apiError 409 "logs_not_ready")
          | Some ref =>
              if bool_decide (jobref_Namespace ref ≠ buildsNamespace) || negb (validResourceName (jobref_Name ref))
              then Ret (apiError 409 "logs_not_ready")
              else handleLabeledLogs r buildsNamespace buildJobPodLabel (jobref_Name ref) buildContainerName
          end
    end.
End views.
