(* ===== verification/ApiDatabases.v ===== *)
(** * The database catalog in the dashboard

    [postgres.go] and [mongo.go] of [dashboard/internal/server], one text for two kinds:
    a definition over [DbKind] with the error codes and names of each, and the handlers
    of each kind as its instances.  The reverse proxy to a database's tool is the request
    it hands on, with what it does to headers on the way; the transport is not
    modelled. *)
From S2P Require Import Prelude Regex GoStrings Effects Kube Api GitResolver Database PostgresController.
From S2P Require Import MongoController RateLimit Session ApiServer ApiVault ApiApps.
From Stdlib Require Import Ascii.

Record databaseCreateRequest : Type := { bc_Name : string; bc_Spec : DatabaseSpec }.
Record databaseUpdateRequest : Type := { bu_Spec : DatabaseSpec }.
Record toolUpdateRequest : Type := { tu_Enabled : bool }.
Class DatabaseJSON : Type := {
  decode_databaseCreate : DbKind → Z → list ascii → option databaseCreateRequest;
  decode_databaseUpdate : DbKind → Z → list ascii → option databaseUpdateRequest;
  decode_toolUpdate : DbKind → Z → list ascii → option toolUpdateRequest;
}.

(** ** The words of each kind *)
Definition kind_name (d : DbKind) : string := match d with DPostgres => "Postgres" | DMongo => "Mongo" end.
Definition action_prefix (d : DbKind) : string := match d with DPostgres => "postgres" | DMongo => "mongo" end.
Definition tool_action (d : DbKind) : string := match d with DPostgres => "postgres.pgweb" | DMongo => "mongo.express" end.
(** the prefix of the tool's error codes, and its path segment *)
Definition tool_code (d : DbKind) : string := match d with DPostgres => "pgweb" | DMongo => "mongo_express" end.
Definition tool_segment (d : DbKind) : string := match d with DPostgres => "pgweb" | DMongo => "express" end.
Definition tool_condition (d : DbKind) : string :=
  match d with DPostgres => "PgwebReady" | DMongo => "MongoExpressReady" end.
Definition action (d : DbKind) (verb : string) : string := action_prefix d +:+ "." +:+ verb.

(** ** Objects *)
Definition connectionSecretKeys : list string :=
  [SecretKeyURI; SecretKeyHost; SecretKeyPort; SecretKeyDatabase; SecretKeyUsername; SecretKeyPassword].
Definition databaseToResponse (db : Database) : databaseResponse :=
  {| dr_Object := object_response (db_Meta db) (db_Spec db) (db_Status db); dr_SecretKeys := connectionSecretKeys |}.
Definition with_tool (spec : DatabaseSpec) (tool : option bool) : DatabaseSpec :=
  {| db_Version := db_Version spec; db_StorageSize := db_StorageSize spec; db_Tool := tool |}.
Definition with_storage (spec : DatabaseSpec) (size : option Quantity) : DatabaseSpec :=
  {| db_Version := db_Version spec; db_StorageSize := size; db_Tool := db_Tool spec |}.
Definition with_db_spec (db : Database) (spec : DatabaseSpec) : Database :=
  {| db_Meta := db_Meta db; db_Spec := spec; db_Status := db_Status db |}.
Definition new_database (name : string) (spec : DatabaseSpec) : Database :=
  {| db_Meta := new_meta appsNamespace name ∅ ∅; db_Spec := spec;
     db_Status := {| db_ObservedGeneration := 0; db_Conditions := []; db_SecretName := ""; db_ToolServiceName := "" |} |}.

(** [s.dashboardBaseURL(r)] of [github.go] *)
Definition dashboardBaseURL (s : ApiConfig) (r : ApiRequest) : string :=
  if decide (cfg_PublicURL s = "") then
    (if isHTTPS (api_Req r) then "https" else "http") +:+ "://" +:+ api_Host r
  else cfg_PublicURL s.

(** [u.RequestURI()] *)
Class ProxyLib : Type := { RequestURI : URL → string }.

Section databases.
Context `{UnicodeTables, KubeLib, QuantityLib, UrlLib, ProxyLib, DatabaseJSON} (s : ApiConfig) (d : DbKind).

(** ** Reading *)
Definition handleListDatabase : prog ApiE Reply :=
  let! l := trigger (KList Viewer (KDatabase d) appsNamespace) in
  Ret (match l with Err e => writeK8sError e | Ok items => reply 200 (DatabaseItems (map databaseToResponse items)) end).

Definition handleGetDatabase (r : ApiRequest) : prog ApiE Reply :=
  let! g := trigger (KGet Viewer (KDatabase d) (app_key (api_Name r))) in
  Ret (match g with Err e => writeK8sError e | Ok db => reply 200 (DatabaseBody (databaseToResponse db)) end).

(** ** Creating *)
Definition create_database (user : sessionUser) (r : ApiRequest) (name : string) (spec : DatabaseSpec) : prog ApiE Reply :=
  let failed rep := let! _ := auditResult r user (action d "create") name false in Ret rep in
  let! kind := conflictingResourceKind name (kind_name d) in
  match kind with
  | Err e => failed (writeK8sError e)
  | Ok kind =>
      if decide (kind ≠ "") then failed (writeNameInUse kind)
      else
        let! taken := esoClaimsSecretName name in
        match taken with
        | Err e => failed (writeK8sError e)
        | Ok true => failed (apiError 409 "name_conflict")
        | Ok false =>
            let! c := trigger (KCreate (KDatabase d) (new_database name spec)) in
            let! _ := auditResult r user (action d "create") name (is_ok c) in
            Ret (match c with Err e => writeK8sError e | Ok db => reply 201 (DatabaseBody (databaseToResponse db)) end)
        end
  end.
Definition handleCreateDatabase (user : sessionUser) (r : ApiRequest) : prog ApiE Reply :=
  match decodeAPIJSON (decode_databaseCreate d) r with
  | Err rep => Ret rep
  | Ok req =>
      if negb (validResourceName (bc_Name req)) then Ret (apiError 400 "invalid_name")
      else if default false (db_Tool (bc_Spec req)) then Ret (apiError 400 (tool_code d +:+ "_requires_step_up"))
      else with_names (create_database user r (bc_Name req) (with_tool (bc_Spec req) None))
  end.

(** ** Updating *)

(** The storage size of an update: kept when omitted, [None] when it shrinks. *)
Definition updated_storage (wanted stored : option Quantity) : option (option Quantity) :=
  match wanted, stored with
  | None, _ => Some stored
  | Some w, Some q => match QuantityCmp w q with Lt => None | _ => Some (Some w) end
  | Some w, None => Some (Some w)
  end.

Definition save_database (user : sessionUser) (r : ApiRequest) (action : string) (db : Database) : prog ApiE Reply :=
  let! u := trigger (KUpdate (KDatabase d) db) in
  let! _ := auditResult r user action (api_Name r) (is_ok u) in
  Ret (match u with Err e => writeK8sError e | Ok db => reply 200 (DatabaseBody (databaseToResponse db)) end).

Definition handleUpdateDatabase (user : sessionUser) (r : ApiRequest) : prog ApiE Reply :=
  match decodeAPIJSON (decode_databaseUpdate d) r with
  | Err rep => Ret rep
  | Ok req =>
      let! g := trigger (KGet SA (KDatabase d) (app_key (api_Name r))) in
      match g with
      | Err e =>
          let! _ := auditResult r user (action d "update") (api_Name r) false in
          Ret (writeK8sError e)
      | Ok db =>
          match updated_storage (db_StorageSize (bu_Spec req)) (db_StorageSize (db_Spec db)) with
          | None => Ret (apiError 400 "storage_shrink_forbidden")
          | Some size =>
              if match db_Tool (bu_Spec req) with Some b => negb (Bool.eqb b (ToolEnabled db)) | None => false end
              then Ret (apiError 400 ("use_" +:+ tool_code d +:+ "_endpoint"))
              else save_database user r (action d "update")
                     (with_db_spec db (with_tool (with_storage (bu_Spec req) size) (db_Tool (db_Spec db))))
          end
      end
  end.

Definition handleUpdateTool (user : sessionUser) (r : ApiRequest) : prog ApiE Reply :=
  match decodeAPIJSON (decode_toolUpdate d) r with
  | Err rep => Ret rep
  | Ok req =>
      let! g := trigger (KGet SA (KDatabase d) (app_key (api_Name r))) in
      match g with
      | Err e =>
          let! _ := auditResult r user (tool_action d +:+ ".update") (api_Name r) false in
          Ret (writeK8sError e)
      | Ok db =>
          save_database user r (tool_action d +:+ if tu_Enabled req then ".enable" else ".disable")
            (with_db_spec db (with_tool (db_Spec db) (if tu_Enabled req then Some true else None)))
      end
  end.

Definition handleDeleteDatabase : sessionUser → ApiRequest → prog ApiE Reply :=
  delete_object (KDatabase d) (action d "delete").

(** ** The tool behind the proxy *)
Definition handleToolRedirect (r : ApiRequest) : prog ApiE Reply :=
  Ret {| rep_Status := 307; rep_Cookies := []; rep_Body := Plain (Location (api_Path r +:+ "/")) |}.

Definition tool_prefix (name : string) : string := "/api/" +:+ action_prefix d +:+ "/" +:+ name +:+ "/" +:+ tool_segment d +:+ "/".
Definition tool_host (serviceName : string) : string := serviceName +:+ "." +:+ appsNamespace +:+ ".svc.cluster.local:8081".
(** An absolute [Location] at the tool becomes one at the dashboard. *)
Definition proxy_location (serviceName location : string) : string :=
  if decide (location = "") then location
  else match ParseURL location with
  | Ok parsed =>
      if bool_decide (u_Scheme parsed ≠ "") && bool_decide (u_Host parsed = tool_host serviceName) then RequestURI parsed
      else location
  | Err _ => location
  end.
Definition proxy_plan (r : ApiRequest) (serviceName : string) : ProxyPlan :=
  let prefix := tool_prefix (api_Name r) in
  let source := TrimRight (dashboardBaseURL s r) "/" +:+ prefix in
  {| px_Host := tool_host serviceName;
     px_DropRequest := ["Authorization"; "Cookie"; "Forwarded"; "X-Forwarded-For"; "X-Forwarded-Host"; "X-Forwarded-Proto"];
     px_SetRequest := [("X-Forwarded-Prefix", prefix)];
     px_DropResponse := ["Set-Cookie"; "WWW-Authenticate"];
     px_SetResponse := [("Cache-Control", "no-store"); ("X-Content-Type-Options", "nosniff"); ("X-Frame-Options", "DENY");
       ("Referrer-Policy", "no-referrer"); ("Permissions-Policy", "camera=(), geolocation=(), microphone=(), payment=(), usb=()");
       ("Content-Security-Policy", "default-src 'none'; base-uri 'none'; object-src 'none'; frame-ancestors 'none'; script-src 'self' 'unsafe-inline' 'unsafe-eval'; style-src 'self' 'unsafe-inline'; img-src 'self' data:; font-src 'self'; connect-src "
          +:+ source +:+ "; form-action " +:+ source)];
     px_Location := proxy_location serviceName;
     px_Unavailable := writeJSONError [] 502 (tool_code d +:+ "_unavailable") |}.

Definition handleToolProxy (user : sessionUser) (r : ApiRequest) : prog ApiE Reply :=
  let not_ready := apiError 503 (tool_code d +:+ "_not_ready") in
  let! g := trigger (KGet Viewer (KDatabase d) (app_key (api_Name r))) in
  match g with
  | Err e => Ret (writeK8sError e)
  | Ok db =>
      if negb (ToolEnabled db) then Ret (apiError 409 (tool_code d +:+ "_disabled"))
      else
        let serviceName := db_ToolServiceName (db_Status db) in
        let ready := match FindStatusCondition (db_Conditions (db_Status db)) (tool_condition d) with
                     | Some c => bool_decide (cond_Status c = ConditionTrue)
                     | None => false
                     end in
        if negb ready || bool_decide (serviceName = "") then Ret not_ready
        else if negb (MatchString dns1035Label serviceName && (len serviceName <=? 63)) then Ret not_ready
        else if negb (HasPrefix (api_Path r) (tool_prefix (api_Name r))) then Ret (apiError 400 "invalid_request")
        else
          let proxied := reply 200 (Proxied (proxy_plan r serviceName)) in
          if bool_decide (api_Method r = "GET") && bool_decide (api_Path r = tool_prefix (api_Name r)) then
            let! _ := auditResult r user (tool_action d +:+ ".open") (api_Name r) true in
            Ret proxied
          else Ret proxied
  end.
End databases.

Section kinds.
Context `{UnicodeTables, KubeLib, QuantityLib, UrlLib, ProxyLib, DatabaseJSON} (s : ApiConfig).
Definition handleListPostgres : prog ApiE Reply := handleListDatabase DPostgres.
Definition handleGetPostgres : ApiRequest → prog ApiE Reply := handleGetDatabase DPostgres.
Definition handleCreatePostgres : sessionUser → ApiRequest → prog ApiE Reply := handleCreateDatabase DPostgres.
Definition handleUpdatePostgres : sessionUser → ApiRequest → prog ApiE Reply := handleUpdateDatabase DPostgres.
Definition handleUpdatePgweb : sessionUser → ApiRequest → prog ApiE Reply := handleUpdateTool DPostgres.
Definition handlePgwebRedirect : ApiRequest → prog ApiE Reply := handleToolRedirect.
Definition handlePgwebProxy : sessionUser → ApiRequest → prog ApiE Reply := handleToolProxy s DPostgres.
Definition handleDeletePostgres : sessionUser → ApiRequest → prog ApiE Reply := handleDeleteDatabase DPostgres.
Definition handleListMongo : prog ApiE Reply := handleListDatabase DMongo.
Definition handleGetMongo : ApiRequest → prog ApiE Reply := handleGetDatabase DMongo.
Definition handleCreateMongo : sessionUser → ApiRequest → prog ApiE Reply := handleCreateDatabase DMongo.
Definition handleUpdateMongo : sessionUser → ApiRequest → prog ApiE Reply := handleUpdateDatabase DMongo.
Definition handleUpdateMongoExpress : sessionUser → ApiRequest → prog ApiE Reply := handleUpdateTool DMongo.
Definition handleMongoExpressRedirect : ApiRequest → prog ApiE Reply := handleToolRedirect.
Definition handleMongoExpressProxy : sessionUser → ApiRequest → prog ApiE Reply := handleToolProxy s DMongo.
Definition handleDeleteMongo : sessionUser → ApiRequest → prog ApiE Reply := handleDeleteDatabase DMongo.
End kinds.
