(* ===== verification/ApiGitHub.v ===== *)
(** * Connecting GitHub from the dashboard

    [dashboard/internal/server/github.go]: the manifest flow that creates a GitHub App
    and writes its credentials blind into two Secrets, the sealed flow cookie that
    authenticates the callback, and the production exchanger. *)
From S2P Require Import Prelude Regex GoStrings Effects Kube Sha256 Api RateLimit OidcIdentity AesGcm.
From S2P Require Import Credentials Session ApiServer ApiViews ApiDatabases.
From Stdlib Require Import Ascii.

(** ** Names *)
Definition githubAppSecretName : string := "orkano-github-app".
Definition githubAppIDKey : string := "app-id".
Definition githubAppPrivateKeyKey : string := "private-key.pem".
Definition NameWebhook : string := "orkano-webhook-secret".
Definition KeyWebhookSecret : string := "secret".
Definition githubCookie : string := "orkano_github".
Definition githubFlowTTL : Z := 15 * Minute.
Definition defaultGitHubBaseURL : string := "https://github.com".
Definition githubCallbackPath : string := "/api/github/app/callback".
Definition ghNoFlow : string := "no_flow".
Definition ghStateMismatch : string := "state_mismatch".
Definition ghNoCode : string := "no_code".
Definition ghExchange : string := "exchange_failed".
Definition ghWrite : string := "write_failed".
Definition defaultAppName : string := "orkano".

(** [^[A-Za-z0-9](?:[A-Za-z0-9-]{0,37}[A-Za-z0-9])?$] *)
Definition orgNameRe : re :=
  Cat (Cls is_alnum) (Opt (Cat (UpTo 37 (Cls (λ c, is_alnum c || one_of "-" c))) (Cls is_alnum))).
(** [^[A-Za-z0-9][A-Za-z0-9 _-]{0,33}$] *)
Definition appNameRe : re := Cat (Cls is_alnum) (UpTo 33 (Cls (λ c, is_alnum c || one_of " _-" c))).

(** ** Escaping ([net/url]) *)
Definition unreserved (c : ascii) : bool := is_alnum c || one_of "-_.~" c.
Definition upper_hex (n : nat) : ascii := byte (if n <? 10 then 48 + n else 55 + n).
Definition escape_byte (c : ascii) : list ascii :=
  ["%"%char; upper_hex (nat_of_ascii c / 16); upper_hex (nat_of_ascii c mod 16)].
Definition PathEscape (s : string) : string :=
  of_bytes (bytes s ≫= λ c, if unreserved c || one_of "$&+=:@" c then [c] else escape_byte c).
Definition QueryEscape (s : string) : string :=
  of_bytes (bytes s ≫= λ c, if unreserved c then [c] else if decide (c = " "%char) then ["+"%char] else escape_byte c).

(** ** The manifest and the flow *)
Record manifest : Type := {
  mf_Name : string;
  mf_URL : string;
  mf_HookURL : string;
  mf_RedirectURL : string;
  mf_CallbackURLs : list string;
  mf_Public : bool;
  mf_DefaultPermissions : gmap string string;
  mf_DefaultEvents : list string;
}.
Record githubFlow : Type := { gf_State : string; gf_Actor : string; gf_Expires : Z }.
Class GitHubJSON : Type := {
  marshal_manifest : manifest → result string string;
  marshal_githubFlow : githubFlow → result string string;
  unmarshal_githubFlow : string → option githubFlow;
  unmarshal_conversion : string → result string GitHubAppCredentials;
}.
(** [t.UTC().Format(time.RFC3339)] and [time.Parse] *)
Class TimeLib : Type := { FormatRFC3339 : Z → string; ParseRFC3339 : string → option Z }.

Section github.
Context `{UnicodeTables, GitHubJSON, TimeLib} (s : ApiConfig).
Let cipher : Cipher := srv_Cipher (cfg_Server s).

Definition githubBaseURL : string :=
  if decide (cfg_GitHubBaseURL s = "") then defaultGitHubBaseURL else cfg_GitHubBaseURL s.
Definition newAppURL (org state : string) : string :=
  let path := if decide (org = "") then githubBaseURL +:+ "/settings/apps/new"
              else githubBaseURL +:+ "/organizations/" +:+ PathEscape org +:+ "/settings/apps/new" in
  path +:+ "?state=" +:+ QueryEscape state.

Definition randomState : prog ApiE (result string string) :=
  let! b := auth (rand 16) in
  Ret (match b with Err e => Err e | Ok b => Ok (EncodeToString b) end).

(** *** The flow cookie *)
Definition github_cookie (r : ApiRequest) (value : string) (maxAge : Z) : Cookie :=
  {| ck_Name := githubCookie; ck_Value := value; ck_Path := "/"; ck_HttpOnly := true;
     ck_Secure := isHTTPS (api_Req r); ck_SameSiteStrict := false; ck_MaxAge := maxAge |}.
Definition clearGitHubCookie (r : ApiRequest) : Cookie := github_cookie r "" (-1).

Definition setGitHubCookie (r : ApiRequest) (state actor : string) : prog ApiE (result Reply Cookie) :=
  let! now := auth (trigger Now) in
  match marshal_githubFlow {| gf_State := state; gf_Actor := actor; gf_Expires := Unix (now + githubFlowTTL) |} with
  | Err _ => Ret (Err (apiError 500 "internal_error"))
  | Ok payload =>
      let! sealed := auth (Seal rand cipher payload) in
      Ret (match sealed with
           | Err _ => Err (apiError 500 "internal_error")
           | Ok sealed => Ok (github_cookie r sealed (githubFlowTTL `quot` Second))
           end)
  end.

Definition readGitHubCookie (r : ApiRequest) : prog ApiE (option githubFlow) :=
  match cookie_value (api_Req r) githubCookie with
  | None => Ret None
  | Some v =>
      match Open cipher v with
      | Err _ => Ret None
      | Ok plain =>
          match unmarshal_githubFlow plain with
          | None => Ret None
          | Some flow =>
              if decide (gf_State flow = "") then Ret None
              else
                let! now := auth (trigger Now) in
                Ret (if decide (gf_Expires flow ≤ Unix now)%Z then None else Some flow)
          end
      end
  end.

(** *** Starting *)
Definition github_manifest (name redirectURL : string) : manifest :=
  {| mf_Name := name; mf_URL := "https://github.com/orkanoio/orkano"; mf_HookURL := cfg_WebhookURL s;
     mf_RedirectURL := redirectURL; mf_CallbackURLs := [redirectURL]; mf_Public := false;
     mf_DefaultPermissions := {["contents" := "read"; "metadata" := "read"]}; mf_DefaultEvents := ["push"] |}.

Definition start_github (user : sessionUser) (r : ApiRequest) (org name : string) : prog ApiE Reply :=
  let! state := randomState in
  match state with
  | Err _ => Ret (apiError 500 "internal_error")
  | Ok state =>
      match marshal_manifest (github_manifest name (dashboardBaseURL s r +:+ githubCallbackPath)) with
      | Err _ => Ret (apiError 500 "internal_error")
      | Ok body =>
          let! ck := setGitHubCookie r state (su_Username user) in
          Ret (match ck with
               | Err rep => rep
               | Ok ck => of_response (writeJSON [ck] 200 [("postUrl", VString (newAppURL org state)); ("manifest", VString body)])
               end)
      end
  end.

Definition handleGitHubManifest (user : sessionUser) (r : ApiRequest) : prog ApiE Reply :=
  if decide (cfg_WebhookURL s = "") then Ret (apiError 409 "webhook_url_not_configured")
  else
    let org := api_query r "org" in
    if bool_decide (org ≠ "") && negb (MatchString orgNameRe org) then Ret (apiError 400 "invalid_org")
    else
      let name := TrimSpace (api_query r "name") in
      if decide (name = "") then start_github user r org defaultAppName
      else if negb (MatchString appNameRe name) then Ret (apiError 400 "invalid_name")
      else start_github user r org name.

(** *** Finishing *)
Definition blindUpdateSecret (name : string) (data : gmap string string) : prog ApiE (result K8sError unit) :=
  trigger (UpdateSecret {| sec_Meta := new_meta systemNamespace name ∅ ∅; sec_Type := SecretTypeOpaque; sec_Data := data |}).

Definition writeGitHubSecrets (creds : GitHubAppCredentials) : prog ApiE (result K8sError unit) :=
  let! a := blindUpdateSecret githubAppSecretName
    {[githubAppIDKey := pretty (gc_ID creds); githubAppPrivateKeyKey := gc_PEM creds]} in
  match a with
  | Err e => Ret (Err e)
  | Ok _ => blindUpdateSecret NameWebhook {[KeyWebhookSecret := gc_WebhookSecret creds]}
  end.

(** [recordGitHubConnected] of [setup.go]: the time is read before the first write, failures are ignored *)
Definition recordGitHubConnected (creds : GitHubAppCredentials) : prog ApiE unit :=
  let! now := auth (trigger Now) in
  let! _ := trigger (UpsertSetting settingGitHubAppSlug (gc_Slug creds)) in
  let! _ := trigger (UpsertSetting settingGitHubAppID (pretty (gc_ID creds))) in
  let! _ := trigger (UpsertSetting settingGitHubConnectedAt (FormatRFC3339 now)) in
  Ret tt.

(** Every exit redirects and clears the flow cookie. *)
Definition github_redirect (r : ApiRequest) (target : string) : Reply := of_response (Redirect [clearGitHubCookie r] target).
Definition redirectGitHubError (r : ApiRequest) (code : string) : Reply := github_redirect r ("/?github_error=" +:+ code).
Definition connectAction : string := "github.app_connect".
Definition connect_failed (r : ApiRequest) (actor target code : string) : prog ApiE Reply :=
  let! _ := auth (audit actor connectAction target "failure" (api_Req r)) in
  Ret (redirectGitHubError r code).

Definition connect_github (r : ApiRequest) (actor code : string) : prog ApiE Reply :=
  let! x := trigger (ExchangeManifest code) in
  match x with
  | Err _ => connect_failed r actor "" ghExchange
  | Ok creds =>
      let! w := writeGitHubSecrets creds in
      match w with
      | Err _ => connect_failed r actor (gc_Slug creds) ghWrite
      | Ok _ =>
          let! _ := recordGitHubConnected creds in
          let! _ := auth (auditDetail actor connectAction (gc_Slug creds) "success" (api_Req r) {["app_id" := VInt (gc_ID creds)]}) in
          Ret (github_redirect r "/?github=connected")
      end
  end.

Definition handleGitHubCallback (r : ApiRequest) : prog ApiE Reply :=
  let! flow := readGitHubCookie r in
  let actor := match flow with Some flow => gf_Actor flow | None => "anonymous" end in
  if decide (api_query r "error" ≠ "") then connect_failed r actor "" ghExchange
  else
    match flow with
    | None => connect_failed r actor "" ghNoFlow
    | Some flow =>
        let state := api_query r "state" in
        if decide (state = "" ∨ state ≠ gf_State flow) then connect_failed r actor "" ghStateMismatch
        else
          let code := api_query r "code" in
          if decide (code = "") then connect_failed r actor "" ghNoCode
          else connect_github r actor code
    end.
End github.

(** ** The production exchanger *)
Definition defaultGitHubAPIBase : string := "https://api.github.com".
Definition maxConversionRespBytes : Z := Z.shiftl 1 20.

Inductive ExchangeE : Set → Type :=
(** the status, its text, and what reading the body through the limit gives *)
| PostConversion (url : string) (limit : Z) : ExchangeE (result string (Z * string * result string string)).

Definition NewGitHubExchanger (apiBaseURL : string) : string :=
  if decide (apiBaseURL = "") then defaultGitHubAPIBase else apiBaseURL.
Definition truncate (s : string) (max : nat) : string :=
  if len s <=? max then s else slice_to max s +:+ of_bytes (byte <$> [226; 128; 166]).

Definition Exchange `{GitHubJSON} (apiBaseURL code : string) : prog ExchangeE (result string GitHubAppCredentials) :=
  let! resp := trigger (PostConversion (apiBaseURL +:+ "/app-manifests/" +:+ PathEscape code +:+ "/conversions") maxConversionRespBytes) in
  Ret (match resp with
       | Err e => Err ("requesting manifest conversion: " +:+ e)
       | Ok (_, _, Err e) => Err ("reading conversion response: " +:+ e)
       | Ok (status, text, Ok body) =>
           if decide (status ≠ 201%Z) then
             Err ("GitHub answered " +:+ text +:+ " to the manifest conversion: " +:+ truncate body 256)
           else
             match unmarshal_conversion body with
             | Err e => Err ("decoding conversion response: " +:+ e)
             | Ok conv =>
                 if decide ((gc_ID conv ≤ 0)%Z ∨ gc_PEM conv = "" ∨ gc_WebhookSecret conv = "")
                 then Err "conversion response is missing the id, pem, or webhook secret"
                 else Ok conv
             end
       end).
