(* ===== verification/ApiSetup.v ===== *)
(** * The setup wizard in the dashboard

    [dashboard/internal/server/setup.go]: the wizard's checks, run by the registry of
    [CheckRegistry] and [CheckRun], the access-mode choice and the OIDC connect step.

    The probes that read the cluster or the database have no requirements, so the runner
    always runs them, in registration order ([setup_order] of [ApiFlows]); the handler makes
    their reads in that order and runs the registry over the replies ([setupReads]).
    The request is taken to be alive throughout. *)
From S2P Require Import Prelude GoStrings CheckRegistry CheckRun RepoAllowlist Effects Kube GitResolver Api.
From S2P Require Import DomainController OidcIdentity RateLimit Credentials Session ApiServer ApiPolicy.
From S2P Require Import ApiVault ApiViews ApiDatabases ApiGitHub.
From Stdlib Require Import Ascii.

(** ** Check identifiers *)
Definition checkAdminBootstrapped : string := "auth.admin-bootstrapped".
Definition checkOIDCConfigured : string := "auth.oidc-configured".
Definition checkWebhookURLConfigured : string := "github.webhook-url-configured".
Definition checkGitHubAppConnected : string := "github.app-connected".
Definition checkDomainTLSReady : string := "domains.tls-ready".
Definition checkAccessModeChosen : string := "setup.access-mode-chosen".
Definition checkVaultConnected : string := "secrets.vault-connected".
Definition checkNodesReady : string := "cluster.nodes-ready".
Definition checkFirstAppDeployed : string := "apps.first-app-deployed".

(** What the probes read. *)
Record setupReads : Type := {
  sr_Nodes : result K8sError (list Node);
  sr_Admins : result DbError Z;
  sr_Stores : result K8sError (list Any);
  sr_Domains : result K8sError (list Domain);
  sr_Apps : result K8sError (list App);
}.

(** [err.Error()] *)
Class ErrorText : Type := { k8s_text : K8sError → string; db_text : DbError → string }.

Record accessModeRequest : Type := { am_Mode : string }.
Record setupOIDCRequest : Type := {
  so_Issuer : string;
  so_ClientID : string;
  so_ClientSecret : string;
  so_AllowedEmails : string;
  so_AllowedGroups : string;
  so_Scopes : string;
  so_GroupsClaim : string;
}.
Class SetupJSON : Type := {
  decode_accessMode : Z → list ascii → option accessModeRequest;
  decode_setupOIDC : Z → list ascii → option setupOIDCRequest;
}.

Definition accessModes : list string := ["proxy"; "tailscale"; "iap"; "public"].
Definition oidcCallbackPath : string := "/api/auth/oidc/callback".
Definition NameOIDC : string := "orkano-oidc".

Section setup.
Context `{UnicodeTables, UnstructuredLib, UrlLib, VaultLib, TimeLib, ErrorText, SetupJSON} (s : ApiConfig).

(** ** The checks *)
Definition probe_type : Type := setupReads → panics (result string Result) * setupReads.
(** A probe that returns a result computed from the reads. *)
Definition probing (f : setupReads → result string Result) : probe_type := λ w, (Returned (f w), w).
Definition pass (msg : string) : result string Result := Ok (mkResult StatusPass msg).
Definition fail (msg : string) : result string Result := Ok (mkResult StatusFail msg).
Definition skip (msg : string) : result string Result := Ok (mkResult StatusSkip msg).
Definition setup_check (id : string) (sev : Severity) (summary remediation : string) (reqs : list string)
    (f : setupReads → result string Result) : Check setupReads :=
  mkCheck id sev summary remediation reqs (Some (probing f)) None.

Definition count {A} (p : A → bool) (l : list A) : Z := Z.of_nat (length (filter (λ a, p a = true) l)).

Definition node_is_ready (n : Node) : bool :=
  existsb (λ c, bool_decide (nc_Type c = "Ready") && bool_decide (nc_Status c = ConditionTrue)) (node_Conditions n).
Definition nodes_probe (w : setupReads) : result string Result :=
  match sr_Nodes w with
  | Err e => Err ("listing nodes: " +:+ k8s_text e)
  | Ok nodes =>
      if decide (nodes = []) then Err "the node list came back empty — the cluster state is unreadable"
      else
        let ready := count node_is_ready nodes in
        if decide (ready = Z.of_nat (length nodes)) then pass (pretty ready +:+ " node(s) Ready")
        else fail (pretty ready +:+ " of " +:+ pretty (length nodes) +:+ " node(s) Ready")
  end.

Definition access_probe (settings : gmap string string) (_ : setupReads) : result string Result :=
  let mode := setting settings settingAccessMode in
  if decide (mode = "") then fail "no access mode chosen yet" else pass ("access mode: " +:+ mode).

Definition admin_probe (w : setupReads) : result string Result :=
  match sr_Admins w with
  | Err e => Err ("counting confirmed admins: " +:+ db_text e)
  | Ok n => if decide (0 < n)%Z then pass "local admin enrolled" else fail "no confirmed admin yet"
  end.

Definition oidc_probe (oidcPending : bool) (_ : setupReads) : result string Result :=
  if has (srv_OIDC (cfg_Server s)) then
    pass (if oidcPending then "OIDC sign-in enabled; an updated configuration awaits a dashboard restart" else "OIDC sign-in enabled")
  else if oidcPending then fail "OIDC credentials written; restart the dashboard to activate them"
  else fail "no identity provider connected (optional)".

Definition webhook_probe (_ : setupReads) : result string Result :=
  if decide (cfg_WebhookURL s = "") then fail "no webhook URL configured" else pass (cfg_WebhookURL s).

Definition github_probe (settings : gmap string string) (_ : setupReads) : result string Result :=
  if decide (setting settings settingGitHubConnectedAt = "") then fail "no GitHub App connected yet"
  else
    let slug := setting settings settingGitHubAppSlug in
    pass (if decide (slug = "") then "GitHub App connected" else "GitHub App connected: " +:+ slug).

Definition store_ready (u : Any) : bool := bool_decide ((readyCondition u).1.1 = "True").
Definition vault_probe (w : setupReads) : result string Result :=
  match sr_Stores w with
  | Err KNoMatch => skip "External Secrets Operator not installed — optional; add it with `orkano init --secrets-vault`"
  | Err e => Err ("listing secret stores: " +:+ k8s_text e)
  | Ok stores =>
      if decide (stores = []) then fail "the External Secrets Operator is installed but no store is connected yet"
      else
        let ready := count store_ready stores in
        if decide (ready < Z.of_nat (length stores))%Z then
          fail (pretty ready +:+ " of " +:+ pretty (length stores) +:+
                " store(s) Ready — check the others' credentials and server addresses")
        else pass (pretty (length stores) +:+ " store(s) connected and Ready")
  end.

Definition condition_true (type : string) (cs : list Condition) : bool :=
  existsb (λ c, bool_decide (cond_Type c = type) && bool_decide (cond_Status c = "True")) cs.
Definition domain_probe (w : setupReads) : result string Result :=
  match sr_Domains w with
  | Err e => Err ("listing domains: " +:+ k8s_text e)
  | Ok domains =>
      if decide (domains = []) then skip "no Domains yet — not applicable until an app has a custom domain"
      else
        let ready := count (λ d, condition_true ConditionCertificateReady (domain_Conditions (domain_Status d))) domains in
        if decide (0 < ready)%Z then
          pass (pretty ready +:+ " of " +:+ pretty (length domains) +:+ " domain(s) have a ready certificate")
        else fail (pretty (length domains) +:+ " domain(s), none with a ready certificate yet")
  end.

Definition apps_probe (w : setupReads) : result string Result :=
  match sr_Apps w with
  | Err e => Err ("listing apps: " +:+ k8s_text e)
  | Ok apps =>
      if decide (apps = []) then fail "no apps yet — create your first app"
      else
        let running := count (λ a, condition_true ConditionReady (app_Conditions (app_Status a))) apps in
        if decide (0 < running)%Z then pass (pretty (length apps) +:+ " app(s), " +:+ pretty running +:+ " running")
        else fail (pretty (length apps) +:+ " app(s) created, none Ready yet — check their build and deploy status")
  end.

Definition setupChecks (settings : gmap string string) (oidcPending : bool) : list (Check setupReads) :=
  [setup_check checkNodesReady SeverityWarning "every cluster node is Ready"
     "inspect the node on the Settings page and on the host; a NotReady node stops scheduling new workloads until the kubelet recovers"
     [] nodes_probe;
   setup_check checkAccessModeChosen SeverityWarning "an access mode for reaching the dashboard has been chosen"
     "choose how the dashboard is reached (orkano proxy, Tailscale, identity-aware proxy, or public with enforced SSO) in the setup wizard"
     [] (access_probe settings);
   setup_check checkAdminBootstrapped SeverityCritical "a local admin with a confirmed second factor exists"
     "redeem the install token printed by orkano init to create the admin account" [] admin_probe;
   setup_check checkOIDCConfigured SeverityInfo "single sign-on via an OIDC identity provider is active"
     "connect an identity provider in the setup wizard (the local admin remains as break-glass)" [] (oidc_probe oidcPending);
   setup_check checkWebhookURLConfigured SeverityCritical "the receiver's public webhook URL is configured"
     "re-run orkano init with --receiver-host, or set ORKANO_WEBHOOK_URL on the orkano-dashboard Deployment" [] webhook_probe;
   setup_check checkGitHubAppConnected SeverityCritical "a GitHub App delivers push webhooks to this install"
     "connect GitHub from the setup wizard (one click creates the App via the manifest flow)"
     [checkWebhookURLConfigured] (github_probe settings);
   setup_check checkVaultConnected SeverityInfo "an external secret store is connected and Ready"
     "connect your vault from the dashboard's Vault page; if the External Secrets Operator is not installed, add it any time by re-running `orkano init --secrets-vault`"
     [] vault_probe;
   setup_check checkDomainTLSReady SeverityInfo "at least one Domain has a ready TLS certificate"
     "add a Domain from an app screen and point its DNS at the cluster; certificates issue via the orkano-platform issuer (Let's Encrypt staging unless init ran with --acme-prod)"
     [] domain_probe;
   setup_check checkFirstAppDeployed SeverityInfo "a first application is deployed and running"
     "create an app from the Apps page — a build queues automatically, and GitHub pushes redeploy it once the App is connected"
     [] apps_probe].

(** ** Status *)
Definition pinnedOIDCRedirectURL : string :=
  if decide (cfg_PublicURL s = "") then "" else cfg_PublicURL s +:+ oidcCallbackPath.

Definition oidcRestartPending (settings : gmap string string) : bool :=
  let marker := setting settings settingOIDCConfiguredAt in
  if decide (marker = "") then false
  else if negb (has (srv_OIDC (cfg_Server s))) then true
  else match ParseRFC3339 marker with Some ts => bool_decide (cfg_started s < ts)%Z | None => false end.

(** [reg.Register] over the checks, stopping at the first error *)
Fixpoint register_checks (reg : Registry setupReads) (cs : list (Check setupReads)) : result RegisterError (Registry setupReads) :=
  match cs with
  | [] => Ok reg
  | c :: cs => match Register reg c with Err e => Err e | Ok reg => register_checks reg cs end
  end.

Definition setup_item (res : CheckResult) : setupCheckJSON :=
  {| sc_ID := ResID res; sc_Severity := severity_text (ResSeverity res); sc_Summary := ResSummary res;
     sc_Outcome := outcome_text (ResOutcome res); sc_Message := ResMessage res; sc_Blockers := Blockers res;
     sc_Remediation := ResRemediation res |}.

Definition setup_status (settings : gmap string string) (policy : repoAllowlistSnapshot) (run : list CheckResult) : setupStatusResponse :=
  {| st_Checks := map setup_item run; st_AccessMode := setting settings settingAccessMode;
     st_WebhookURLConfigured := negb (bool_decide (cfg_WebhookURL s = ""));
     st_PublicURLConfigured := negb (bool_decide (cfg_PublicURL s = ""));
     st_OIDCRedirectURL := pinnedOIDCRedirectURL; st_OIDCEnabled := has (srv_OIDC (cfg_Server s));
     st_OIDCPendingRestart := oidcRestartPending settings;
     st_GitHub := {| sg_Connected := negb (bool_decide (setting settings settingGitHubConnectedAt = ""));
                     sg_AppSlug := setting settings settingGitHubAppSlug; sg_AppID := setting settings settingGitHubAppID;
                     sg_ConnectedAt := setting settings settingGitHubConnectedAt |};
     st_RepoAllowlist := snap_Repositories policy; st_RepoAllowlistResourceVersion := snap_ResourceVersion policy |}.

Definition setup_reads : prog ApiE setupReads :=
  let! nodes := trigger ListNodes in
  let! admins := auth (trigger CountConfirmedAdmins) in
  let! stores := trigger (KList Viewer KSecretStore appsNamespace) in
  let! domains := trigger (KList Viewer KDomain appsNamespace) in
  let! apps := trigger (KList Viewer KApp appsNamespace) in
  Ret {| sr_Nodes := nodes; sr_Admins := admins; sr_Stores := stores; sr_Domains := domains; sr_Apps := apps |}.

Definition run_setup (reg : Registry setupReads) (w : setupReads) : result GraphError (list CheckResult) :=
  (Run (λ _, None) (λ _, "") reg w).1.

Definition handleSetupStatus : prog ApiE Reply :=
  let! settings := loadSettings in
  match settings with
  | Err _ => Ret (apiError 503 "unavailable")
  | Ok settings =>
      let! policy := loadRepoAllowlistSnapshot in
      match policy with
      | Err e => Ret (writeRepoAllowlistReadError e)
      | Ok policy =>
          match register_checks New (setupChecks settings (oidcRestartPending settings)) with
          | Err _ => Ret (apiError 500 "internal_error")
          | Ok reg =>
              let! w := setup_reads in
              Ret (match run_setup reg w with
                   | Err _ => apiError 500 "internal_error"
                   | Ok run => reply 200 (SetupBody (setup_status settings policy run))
                   end)
          end
      end
  end.

(** ** Access mode *)
Definition handleSetAccessMode (user : sessionUser) (r : ApiRequest) : prog ApiE Reply :=
  match decodeAPIJSON decode_accessMode r with
  | Err rep => Ret rep
  | Ok req =>
      if decide (am_Mode req ∉ accessModes) then Ret (apiError 400 "invalid_access_mode")
      else
        let! u := trigger (UpsertSetting settingAccessMode (am_Mode req)) in
        let! _ := auditResult r user "setup.access_mode" (am_Mode req) (is_ok u) in
        Ret (match u with Err _ => apiError 503 "unavailable" | Ok _ => noContent end)
  end.

(** ** OIDC connect *)
Definition url_scheme (u : string) : option string := match ParseURL u with Ok u => Some (u_Scheme u) | Err _ => None end.

Definition oidc_env (req : setupOIDCRequest) (redirectURL : string) : gmap string string :=
  list_to_map
    [(EnvIssuer, TrimSpace (so_Issuer req)); (EnvClientID, TrimSpace (so_ClientID req)); (EnvClientSecret, so_ClientSecret req);
     (EnvRedirectURL, redirectURL); (EnvAllowedEmails, TrimSpace (so_AllowedEmails req));
     (EnvAllowedGroups, TrimSpace (so_AllowedGroups req)); (EnvScopes, TrimSpace (so_Scopes req));
     (EnvGroupsClaim, TrimSpace (so_GroupsClaim req))].
Definition getenv (env : gmap string string) (k : string) : string := default "" (env !! k).

Definition countList (l : string) : Z := Z.of_nat (length (filter (λ part, TrimSpace part ≠ "") (Split l ","%char))).

Definition oidcAction : string := "setup.oidc_configure".
Definition handleSetupOIDC (user : sessionUser) (r : ApiRequest) : prog ApiE Reply :=
  match decodeAPIJSON decode_setupOIDC r with
  | Err rep => Ret rep
  | Ok req =>
      let redirectURL := dashboardBaseURL s r +:+ oidcCallbackPath in
      let env := oidc_env req redirectURL in
      let issuer := getenv env EnvIssuer in
      let failed rep := let! _ := auditResult r user oidcAction issuer false in Ret rep in
      match LoadConfig url_scheme (getenv env) with
      | Err _ => failed (apiError 422 "invalid_oidc_config")
      | Ok _ =>
          let! v := trigger (ValidateOIDC env) in
          match v with
          | Some _ => failed (apiError 422 "oidc_discovery_failed")
          | None =>
              let! u := blindUpdateSecret NameOIDC (filter (λ kv, kv.2 ≠ "") env) in
              match u with
              | Err e => failed (writeK8sError e)
              | Ok _ =>
                  let! now := auth (trigger Now) in
                  let! _ := trigger (UpsertSetting settingOIDCConfiguredAt (FormatRFC3339 now)) in
                  let! _ := auth (auditDetail (su_Username user) oidcAction issuer "success" (api_Req r)
                    {["allowed_emails" := VInt (countList (getenv env EnvAllowedEmails));
                      "allowed_groups" := VInt (countList (getenv env EnvAllowedGroups))]}) in
                  Ret (of_response (writeJSON [] 200 [("redirectUrl", VString redirectURL); ("restartRequired", VBool true)]))
              end
          end
      end
  end.
End setup.
