(* ===== verification/ApiRoutes.v ===== *)
(** * The routes of the dashboard API

    [mountAPIRoutes] of [dashboard/internal/server/api.go]: which handler answers which
    route and which gates stand before it, and what the gates guarantee of every
    request: nothing happens without a session, and nothing destructive without a second
    factor proved in the last five minutes.  [/api/doctor], modelled in [DoctorReport.v],
    is left out. *)
From S2P Require Import Prelude Regex GoStrings Effects Kube Api GitResolver SourceArchive Database RateLimit.
From S2P Require Import Session ApiServer ApiPolicy ApiVault ApiApps ApiViews ApiDatabases ApiGitHub ApiSetup.
From Stdlib Require Import Ascii.

Inductive ApiRoute : Type :=
| GetFeatures | GetAllowlist | PutAllowlist | GetNodes
| ListApps | PostApp | GetApp | GetDeploys | GetBuilds | PostDeploy | PostArchive | PutSource | GetBuildLogs | GetAppLogs
| PutApp | DeleteApp | PutEnv
| ListDomains | PostDomain | GetDomain | DeleteDomain
| ListDatabases (d : DbKind) | PostDatabase (d : DbKind) | PutTool (d : DbKind) | GetTool (d : DbKind) | ProxyTool (d : DbKind)
| GetDbLogs (d : DbKind) | GetDatabase (d : DbKind) | PutDatabase (d : DbKind) | DeleteDatabase (d : DbKind)
| ListStores | PostStore | PutStore | DeleteStore
| ListSyncs | PostSync | DeleteSync
| GetAudit | GetManifest | GitHubCallback
| GetSetup | PostAccessMode | PostSetupOIDC
| OtherAPI.

(** [With(s.RequireSession)] or [Use] of it; both gates, in a group or one after the
    other; the step-up gate alone; none. *)
Inductive Tier : Type := SessionTier | SessionStepUpTier | StepUpTier | OpenTier.

Definition tier (route : ApiRoute) : Tier :=
  match route with
  | PutAllowlist => StepUpTier
  | DeleteApp | PutEnv | DeleteDomain | PutTool _ | DeleteDatabase _
  | PostStore | PutStore | DeleteStore | PostSync | DeleteSync | PostSetupOIDC => SessionStepUpTier
  | GitHubCallback | OtherAPI => OpenTier
  | _ => SessionTier
  end.

(** The user [userFromContext] finds where no gate put one: none, whose name is audited as anonymous. *)
Definition no_user : sessionUser := {| su_ID := 0; su_Username := "anonymous"; su_OIDC := false |}.

Definition api_session (next : sessionUser → prog ApiE Reply) (r : ApiRequest) : prog ApiE Reply :=
  session_gate of_response (auth (resolveSession (api_Req r))) next.
Definition api_step_up (next : sessionUser → prog ApiE Reply) (r : ApiRequest) : prog ApiE Reply :=
  step_gate of_response (auth (resolveSession (api_Req r))) (auth (trigger Now)) next.
Definition guard (t : Tier) (next : sessionUser → prog ApiE Reply) (r : ApiRequest) : prog ApiE Reply :=
  match t with
  | SessionTier => api_session next r
  | SessionStepUpTier => api_session (λ _, api_step_up next r) r
  | StepUpTier => api_step_up next r
  | OpenTier => next no_user
  end.

Class ApiLib : Type := {
  api_unicode :: UnicodeTables;
  api_kube :: KubeLib;
  api_quantity :: QuantityLib;
  api_unstructured :: UnstructuredLib;
  api_url :: UrlLib;
  api_refs :: UrlRefs;
  api_vault :: VaultLib;
  api_proxy :: ProxyLib;
  api_time :: TimeLib;
  api_text :: ErrorText;
  api_app :: AppLib;
  api_policyJSON :: PolicyJSON;
  api_vaultJSON :: VaultJSON;
  api_appJSON :: AppJSON;
  api_databaseJSON :: DatabaseJSON;
  api_githubJSON :: GitHubJSON;
  api_setupJSON :: SetupJSON;
}.

Section routes.
Context `{ApiLib} (s : ApiConfig).

Definition handle (route : ApiRoute) (user : sessionUser) (r : ApiRequest) : prog ApiE Reply :=
  match route with
  | GetFeatures => handleFeatures s
  | GetAllowlist => handleGetRepoAllowlist
  | PutAllowlist => handleUpdateRepoAllowlist user r
  | GetNodes => handleListNodes
  | ListApps => handleListApps
  | PostApp => handleCreateApp s user r
  | GetApp => handleGetApp r
  | GetDeploys => handleListDeploys r
  | GetBuilds => handleListBuilds s r
  | PostDeploy => handleDeployApp s user r
  | PostArchive => handleUploadSourceArchive s user r
  | PutSource => handleUpdateAppSource s user r
  | GetBuildLogs => handleBuildLogs r
  | GetAppLogs => handleAppLogs r
  | PutApp => handleUpdateApp user r
  | DeleteApp => handleDeleteApp user r
  | PutEnv => handleSetEnv user r
  | ListDomains => handleListDomains
  | PostDomain => handleCreateDomain user r
  | GetDomain => handleGetDomain r
  | DeleteDomain => handleDeleteDomain user r
  | ListDatabases d => handleListDatabase d
  | PostDatabase d => handleCreateDatabase d user r
  | PutTool d => handleUpdateTool d user r
  | GetTool _ => handleToolRedirect r
  | ProxyTool d => handleToolProxy s d user r
  | GetDbLogs DPostgres => handlePostgresLogs r
  | GetDbLogs DMongo => handleMongoLogs r
  | GetDatabase d => handleGetDatabase d r
  | PutDatabase d => handleUpdateDatabase d user r
  | DeleteDatabase d => handleDeleteDatabase d user r
  | ListStores => handleListSecretStores
  | PostStore => handleCreateSecretStore user r
  | PutStore => handleUpdateSecretStore user r
  | DeleteStore => handleDeleteSecretStore user r
  | ListSyncs => handleListExternalSecrets
  | PostSync => handleCreateExternalSecret user r
  | DeleteSync => handleDeleteExternalSecret user r
  | GetAudit => handleListAudit r
  | GetManifest => handleGitHubManifest s user r
  | GitHubCallback => handleGitHubCallback s r
  | GetSetup => handleSetupStatus s
  | PostAccessMode => handleSetAccessMode user r
  | PostSetupOIDC => handleSetupOIDC s user r
  | OtherAPI => handleAPINotFound
  end.

Definition mountAPIRoutes (route : ApiRoute) (r : ApiRequest) : prog ApiE Reply :=
  guard (tier route) (λ user, handle route user r) r.
End routes.

(** The handlers and the steps they are made of, to be unfolded when one is walked. *)
Create HintDb handlers.
#[export] Hint Unfold
  handleGetRepoAllowlist handleUpdateRepoAllowlist apply_policy confirm_policy resolveRepoAllowlistUpdate
  recordRepoAllowlistAudit appendRepoAllowlistAudit loadRepoAllowlist loadSettings
  handleListApps handleGetApp handleCreateApp create_app handleUpdateApp handleUpdateAppSource resource_app recordDeploy
  handleDeleteApp with_names delete_object handleSetEnv write_env writeEnvSecret auditEnv conflictingResourceKind enqueueManualDeploy
  handleListBuilds handleDeployApp handleListDeploys handleListAudit handleUploadSourceArchive receive_archive store_archive
  handleListDomains handleGetDomain handleCreateDomain handleDeleteDomain handleFeatures handleListNodes
  handleLabeledLogs handleResourceLogs handleAppLogs handlePostgresLogs handleMongoLogs handleBuildLogs
  handleListDatabase handleGetDatabase handleCreateDatabase create_database handleUpdateDatabase save_database handleUpdateTool
  handleDeleteDatabase handleToolRedirect handleToolProxy
  handleListSecretStores handleCreateSecretStore connect_store handleUpdateSecretStore rewire_store writeCredentialsSecret
  credentialsNameTaken probe_name delete_eso handleDeleteSecretStore handleDeleteExternalSecret handleListExternalSecrets
  handleCreateExternalSecret handleGitHubManifest start_github randomState setGitHubCookie handleGitHubCallback readGitHubCookie
  connect_failed connect_github writeGitHubSecrets blindUpdateSecret recordGitHubConnected
  handleSetupStatus setup_reads handleSetAccessMode handleSetupOIDC handleAPINotFound : handlers.
Ltac walk_handler := autounfold with handlers; calls.

(** ** Traces *)

(** The sign-in calls of a trace. *)
Definition auth_of (c : call ApiE) : option (call AuthE) :=
  match c with
  | Call e x =>
      match e in ApiE X return X → _ with
      | AuthCall e => λ x, Some (Call e x)
      | _ => λ _, None
      end x
  end.

(** Calls that look a session up. *)
Definition looks_up (X : Set) (e : ApiE X) : bool :=
  match e with
  | AuthCall e => match e with GetSession _ | GetUserByID _ | TouchSession _ | Now => true | _ => false end
  | _ => false
  end.

(** Calls that destroy or rewire: a deletion, a Secret, the policy, the vault's objects. *)
Definition destructive (X : Set) (e : ApiE X) : bool :=
  match e with
  | KDelete _ _ | CreateSecret _ | UpdateSecret _ | UpdateConfigMap _ => true
  | KCreate k _ | KUpdate k _ => match k with KSecretStore | KExternalSecret => true | _ => false end
  | _ => false
  end.
Definition gentle (X : Set) (e : ApiE X) : bool := negb (destructive X e).

Lemma lookup_calls r : calls_only looks_up (auth (resolveSession r)).
Proof. apply calls_only_lift. unfold resolveSession. calls. Qed.

Lemma auth_of_lift (tr : list (call AuthE)) : omap auth_of (lift_call (λ X, @AuthCall X) <$> tr) = tr.
Proof. induction tr as [|[X e x] tr IH]; [done|]. cbn. f_equal. exact IH. Qed.

(** ** Steps the handlers share

    The calls of these steps are all [plain]; a predicate that covers the plain calls
    holds of every shared step, by the hint below. *)
Definition plain (X : Set) (e : ApiE X) : bool :=
  match e with
  | AuthCall _ | ArchiveCall _ | KGet _ _ _ | EnqueueManualDelivery _ | GetConfigMap _ | ListPods _ _ _ => true
  | _ => false
  end.
Class CoversPlain (ok : ∀ X : Set, ApiE X → bool) : Prop := covers_plain : ∀ X e, plain X e = true → ok X e = true.

Lemma auth_plain {A} (p : prog AuthE A) : calls_only plain (auth p).
Proof. apply calls_only_lift. induction p as [|X e k IH]; [done|]. by split. Qed.
Lemma archive_plain {A} (p : prog ArchiveE A) : calls_only plain (archive p).
Proof. apply calls_only_lift. induction p as [|X e k IH]; [done|]. by split. Qed.
Lemma auditResult_plain r user action target ok : calls_only plain (auditResult r user action target ok).
Proof. apply auth_plain. Qed.
#[export] Hint Resolve auth_plain archive_plain auditResult_plain : calls.
Lemma conflicting_plain cs name k : calls_only plain (conflicting_loop cs name k).
Proof. induction cs as [|[n k'] cs IH]; [done|]. cbn [conflicting_loop]. calls. Qed.
Lemma enqueue_plain n app repo : calls_only plain (enqueue_loop n app repo).
Proof. induction n as [|n IH]; [done|]. cbn [enqueue_loop]. unfold newManualDeliveryID. calls. Qed.
Lemma snapshot_plain `{UnicodeTables} : calls_only plain loadRepoAllowlistSnapshot.
Proof. unfold loadRepoAllowlistSnapshot. calls. Qed.
#[export] Hint Resolve conflicting_plain enqueue_plain snapshot_plain : calls.
Lemma queue_deploy_plain user r name source : calls_only plain (queue_deploy user r name source).
Proof. unfold queue_deploy, enqueueManualDeploy. calls. Qed.
Lemma eso_plain name : calls_only plain (esoClaimsSecretName name).
Proof. unfold esoClaimsSecretName, probe_name. calls. Qed.
Lemma logs_plain r ns label value container : calls_only plain (handleLabeledLogs r ns label value container).
Proof. unfold handleLabeledLogs. calls. Qed.
Lemma start_github_plain `{ApiLib} s user r org name : calls_only plain (start_github s user r org name).
Proof. unfold start_github, randomState, setGitHubCookie. calls. Qed.
#[export] Hint Resolve queue_deploy_plain eso_plain logs_plain start_github_plain : calls.

Lemma plain_calls ok {A} (p : prog ApiE A) : CoversPlain ok → calls_only plain p → calls_only ok p.
Proof. intros Hok. by apply calls_only_mono. Qed.
#[export] Hint Extern 5 (calls_only _ _) => apply plain_calls; [apply _|solve [eauto with calls]] : calls.
#[export] Instance gentle_covers : CoversPlain gentle.
Proof. intros X e. by destruct e. Qed.

(** ** What the gates let through *)
Definition lookups (tr : list (call ApiE)) : Prop := Forall (λ c, call_ok looks_up c = true) tr.

(** The request's session is [sess], of [user]. *)
Definition signed_in (r : ApiRequest) (tr : list (call ApiE)) (user : sessionUser) (sess : Session) : Prop :=
  session_of (api_Req r) (omap auth_of tr) user sess.
(** Its second factor was proved in the five minutes before the clock was read. *)
Definition fresh (tr : list (call ApiE)) (sess : Session) : Prop :=
  ∃ at_ now, sess_ReauthAt sess = Some at_ ∧ Call (AuthCall Now) now ∈ tr ∧ (now - at_ ≤ stepUpFreshness)%Z.

Lemma signed_in_app r tr1 tr2 user sess : signed_in r tr2 user sess → signed_in r (tr1 ++ tr2) user sess.
Proof. unfold signed_in. rewrite omap_app. apply session_of_mono. set_solver. Qed.

Lemma resolve_exec r tr o :
  exec (auth (resolveSession (api_Req r))) tr o →
  lookups tr ∧ ∀ user sess, o = Some (user, sess) → signed_in r tr user sess.
Proof.
  intros Hex. split; [by eapply calls_only_exec; [apply lookup_calls|]|]. intros user sess ->.
  apply exec_lift in Hex as (tr' & -> & Hex). unfold signed_in. rewrite auth_of_lift. by apply resolveSession_Some.
Qed.

Lemma session_inv next r tr rep :
  exec (api_session next r) tr rep →
  (∃ tr1 tr2 user sess, tr = tr1 ++ tr2 ∧ exec (next user) tr2 rep ∧ signed_in r tr1 user sess ∧ lookups tr1) ∨
  (rep_Status rep ∈ [401; 403]%Z ∧ lookups tr).
Proof.
  intros (tr1 & tr2 & o & -> & [Hl Hs]%resolve_exec & Hk)%exec_bind. destruct o as [[user sess]|].
  - left. exists tr1, tr2, user, sess. split_and!; auto.
  - destruct Hk as [-> ->]. right. rewrite app_nil_r. split; [by left|done].
Qed.

Lemma step_up_inv next r tr rep :
  exec (api_step_up next r) tr rep →
  (∃ tr1 tr2 user sess, tr = tr1 ++ tr2 ∧ exec (next user) tr2 rep ∧ signed_in r tr1 user sess ∧ fresh tr1 sess ∧ lookups tr1) ∨
  (rep_Status rep ∈ [401; 403]%Z ∧ lookups tr).
Proof.
  intros (tr1 & tr2 & o & -> & [Hl Hs]%resolve_exec & Hk)%exec_bind.
  destruct o as [[user sess]|]; [|destruct Hk as [-> ->]; right; rewrite app_nil_r; split; [by left|done]].
  destruct (sess_ReauthAt sess) as [at_|] eqn:Ha;
    [|destruct Hk as [-> ->]; right; rewrite app_nil_r; split; [right; by left|done]].
  destruct Hk as (now & tr3 & -> & Hk). cbn [auth lift prog_bind] in Hk.
  assert (Hl' : lookups (tr1 ++ [Call (AuthCall Now) now])) by (apply Forall_app; split; [done|by repeat constructor]).
  case_decide as Hd.
  - destruct Hk as [-> ->]. right. split; [right; by left|done].
  - left. exists (tr1 ++ [Call (AuthCall Now) now]), tr3, user, sess. rewrite <- app_assoc. split_and!; [done|done| | |done].
    + unfold signed_in. rewrite omap_app. eapply session_of_mono, Hs; [set_solver|done].
    + exists at_, now. split_and!; [done|apply elem_of_app; right; by left|].
      unfold Sub, stepUpFreshness, Minute, Second, i64_min, i64_max in *. lia.
Qed.

Definition steps_up (t : Tier) : bool := match t with SessionStepUpTier | StepUpTier => true | _ => false end.

Lemma guard_inv t next r tr rep :
  exec (guard t next r) tr rep → t ≠ OpenTier →
  (∃ tr1 tr2 user sess, tr = tr1 ++ tr2 ∧ exec (next user) tr2 rep ∧ signed_in r tr1 user sess ∧
     (steps_up t = true → fresh tr1 sess) ∧ lookups tr1) ∨
  (rep_Status rep ∈ [401; 403]%Z ∧ lookups tr).
Proof.
  destruct t; [| | |done]; intros Hex _.
  - apply session_inv in Hex as [(tr1 & tr2 & user & sess & ? & ? & ? & ?)|?]; [|by right].
    left. by exists tr1, tr2, user, sess.
  - apply session_inv in Hex as [(tr1 & tr2 & user0 & sess0 & -> & Hex & _ & Hl)|?]; [|by right].
    apply step_up_inv in Hex as [(tr3 & tr4 & user & sess & -> & Hex & Hs & Hf & Hl')|[? Hl']].
    + left. exists (tr1 ++ tr3), tr4, user, sess. rewrite app_assoc. split_and!; [done|done|by apply signed_in_app| |].
      * intros _. destruct Hf as (at_ & now & ? & Hn & ?). exists at_, now. split_and!; [done| |done]. apply elem_of_app. by right.
      * by apply Forall_app.
    + right. split; [done|]. by apply Forall_app.
  - apply step_up_inv in Hex as [(tr1 & tr2 & user & sess & ? & ? & ? & ? & ?)|?]; [|by right].
    left. by exists tr1, tr2, user, sess.
Qed.

(** ** Which routes destroy *)
Lemma session_tier_gentle `{ApiLib} s route user r :
  tier route = SessionTier → calls_only gentle (handle s route user r).
Proof.
  destruct route; intros Ht; try discriminate Ht; clear Ht; cbn [handle]; try destruct d; walk_handler.
Qed.

(** In a list that starts with elements of [P], an element outside [P] comes after them. *)
Lemma prefix_split {A} (P : A → Prop) (t1 t2 l1 l2 : list A) a :
  Forall P t1 → ¬ P a → l1 ++ a :: l2 = t1 ++ t2 → ∃ t3, l1 = t1 ++ t3 ∧ t2 = t3 ++ a :: l2.
Proof.
  intros Ht Ha. revert l1. induction Ht as [|b t1 Hb Ht IH]; intros l1 E; [by exists l1|].
  destruct l1 as [|c l1]; injection E as -> E; [done|]. destruct (IH l1 E) as (t3 & -> & ->). by exists t3.
Qed.

(** ** Properties *)

(** C8. The API acts only for a signed-in caller, and destroys only for one who has just
    proved the second factor.  On every gated route, whatever the cluster and the
    database answer: before any call other than a session look-up, the request's cookie
    was found to name a stored session of a confirmed or IdP-linked user; before a
    deletion, a Secret write, a policy update or a vault write, that session's second
    factor had been re-proved within the last five minutes; and a request without a
    session is answered 401 or 403. *)
Theorem api_gated `{ApiLib} s route r tr rep :
  exec (mountAPIRoutes s route r) tr rep → tier route ≠ OpenTier →
  (∀ tr1 c tr2, tr = tr1 ++ c :: tr2 → call_ok looks_up c = false →
     ∃ user sess, signed_in r tr1 user sess ∧ (call_ok destructive c = true → fresh tr1 sess)) ∧
  (rep_Status rep ∉ [401; 403]%Z → ∃ user sess, signed_in r tr user sess).
Proof.
  intros Hex Ht. apply guard_inv in Hex as [(t1 & t2 & user & sess & -> & Hex & Hs & Hf & Hl)|[Hst Hl]]; [|split|done].
  - split.
    + intros tr1 c tr2 E Hc. symmetry in E.
      apply (prefix_split (λ c, call_ok looks_up c = true)) in E as (t3 & -> & ->); [|done|by rewrite Hc].
      exists user, sess. split.
      { unfold signed_in. rewrite omap_app. eapply session_of_mono, Hs. set_solver. }
      intros Hd. destruct (steps_up (tier route)) eqn:Hu.
      * destruct (Hf eq_refl) as (at_ & now & ? & Hn & ?). exists at_, now. split_and!; [done| |done]. apply elem_of_app. by left.
      * exfalso. assert (Hts : tier route = SessionTier) by by destruct (tier route).
        pose proof (calls_only_exec _ _ _ _ (session_tier_gentle s route user r Hts) Hex) as Hg.
        apply Forall_app in Hg as [_ Hg]. inversion Hg as [|? ? Hg1]; subst. destruct c as [X e x]. simpl in Hg1, Hd.
        unfold gentle in Hg1. by rewrite Hd in Hg1.
    + intros _. exists user, sess. unfold signed_in. rewrite omap_app. eapply session_of_mono, Hs. set_solver.
  - intros tr1 c tr2 -> Hc. apply Forall_app in Hl as [_ Hl]. inversion Hl as [|? ? Hl1]; subst. by rewrite Hl1 in Hc.
  - done.
Qed.
