(* ===== verification/ApiAudit.v ===== *)
(** * The audit trail of the dashboard API

    INV-08 promises that every privileged mutation leaves an entry in the append-only audit
    log.  Of every route but one the code keeps it as far as the log answers: the append
    follows the write, and its failure is logged and otherwise ignored ([auditDetail] of
    auth.go, best-effort by its comment); the repository policy alone is written ahead.
    The ghost state of a request is whether it wrote anything yet and the entries it
    offered to the log; each handler is walked once ([handle_told]), and
    [every_write_audited] says what holds of every request, with the log's own replies. *)
From S2P Require Import Prelude Regex GoStrings RepoAllowlist Effects Kube Api GitResolver SourceArchive.
From S2P Require Import Database RateLimit OidcIdentity Session ApiServer ApiPolicy ApiVault ApiApps ApiViews.
From S2P Require Import ApiDatabases ApiGitHub ApiSetup ApiRoutes.
From Stdlib Require Import Ascii.

(** ** What is observed *)

(** Calls that change the cluster, the build queue, the settings or the archive store. *)
Definition mutates (X : Set) (e : ApiE X) : bool :=
  match e with
  | KCreate _ _ | KUpdate _ _ | KDelete _ _ | CreateSecret _ | UpdateSecret _ | UpdateConfigMap _
  | EnqueueManualDelivery _ | UpsertSetting _ _ => true
  | ArchiveCall e => match e with PutManifest _ _ => true | _ => false end
  | _ => false
  end.
Definition entry_in {X : Set} (e : AuthE X) : option AppendAuditEntryParams :=
  match e with AppendAuditEntry arg => Some arg | _ => None end.
Definition entry_of (c : call ApiE) : option AppendAuditEntryParams :=
  match c with Call e _ => match e with AuthCall e => entry_in e | _ => None end end.

(** The entries the log would not take. *)
Definition refused (c : call ApiE) : option AppendAuditEntryParams :=
  match c with
  | Call e x =>
      match e in ApiE X return X → _ with
      | AuthCall e =>
          match e in AuthE X return X → _ with
          | AppendAuditEntry arg => λ x, match x with Ok _ => None | Err _ => Some arg end
          | _ => λ _, None
          end
      | _ => λ _, None
      end x
  end.
(** What became of an entry that was offered: on record, or refused by the log itself. *)
Definition settled_entry (tr : list (call ApiE)) (e : AppendAuditEntryParams) : Prop :=
  e ∈ omap acknowledged tr ∨ e ∈ omap refused tr.
Lemma entry_settled tr e : e ∈ omap entry_of tr → settled_entry tr e.
Proof.
  intros ([X a x] & Hin & He)%list_elem_of_omap. unfold settled_entry. rewrite !list_elem_of_omap.
  destruct a as [X a| | | | | | | | | | | | | | | | | | | | | | | | |]; try done. destruct a; try done.
  destruct x as [[]|]; [left|right]; by eexists.
Qed.

Definition trail : Type := bool * list AppendAuditEntryParams.
Definition audit_step (X : Set) (e : ApiE X) (_ : X) (st : trail) : trail :=
  (st.1 || mutates X e, st.2 ++ match e with AuthCall e => option_list (entry_in e) | _ => [] end).
Abbreviation awp := (wp (λ _ _ _, True) audit_step).

Lemma trail_of (tr : list (call ApiE)) (st : trail) :
  foldl (step_call audit_step) st tr = (st.1 || existsb (call_ok mutates) tr, st.2 ++ omap entry_of tr).
Proof.
  revert st. induction tr as [|[X e x] tr IH]; intros [w es]; cbn [foldl existsb].
  - by rewrite orb_false_r, app_nil_r.
  - rewrite IH. cbn [step_call audit_step fst snd call_ok]. rewrite orb_assoc, <- app_assoc. f_equal. f_equal.
    destruct e; try done. cbn. by destruct (entry_in _).
Qed.

(** ** What an entry says *)
Definition route_actions (route : ApiRoute) : list string :=
  match route with
  | PutAllowlist => [policyAction]
  | PostApp => ["app.create"]
  | PostDeploy => ["app.deploy"]
  | PostArchive => ["app.source.upload"]
  | PutSource => ["app.source.update"]
  | PutApp => ["app.update"]
  | DeleteApp => ["app.delete"]
  | PutEnv => ["env.update"]
  | PostDomain => ["domain.create"]
  | DeleteDomain => ["domain.delete"]
  | PostDatabase d => [action d "create"]
  | PutTool d => [tool_action d +:+ ".enable"; tool_action d +:+ ".disable"]
  | PutDatabase d => [action d "update"]
  | DeleteDatabase d => [action d "delete"]
  | PostStore => ["secretstore.create"; "secretstore.credentials"]
  | PutStore => ["secretstore.update"; "secretstore.credentials"]
  | DeleteStore => ["secretstore.delete"]
  | PostSync => ["externalsecret.create"]
  | DeleteSync => ["externalsecret.delete"]
  | PostAccessMode => ["setup.access_mode"]
  | PostSetupOIDC => [oidcAction]
  | _ => []
  end.

(** The entry is by the user, about this route, and its outcome agrees with the status. *)
Definition accounts (route : ApiRoute) (user : sessionUser) (rep : Reply) (e : AppendAuditEntryParams) : Prop :=
  (audit_Actor e = su_Username user ∨ (su_Username user = "" ∧ audit_Actor e = "anonymous")) ∧
  audit_Action e ∈ route_actions route ∧
  (audit_Outcome e = "success" ↔ (rep_Status rep < 400)%Z).
Definition told (route : ApiRoute) (user : sessionUser) (rep : Reply) (st : trail) : Prop :=
  st.1 = true → ∃ e, e ∈ st.2 ∧ accounts route user rep e.

Section rules.
Context (route : ApiRoute) (user : sessionUser) (r : ApiRequest).

(** ** Rules *)
Definition silent_auth (X : Set) (e : AuthE X) : bool := match e with AppendAuditEntry _ => false | _ => true end.
Lemma awp_auth {A} (p : prog AuthE A) (Q : A → trail → Prop) st :
  calls_only silent_auth p → (∀ a, Q a st) → awp (auth p) Q st.
Proof.
  intros Hp HQ. apply (wp_calls_only _ _ (λ X e, match e with AuthCall e => silent_auth _ e | _ => false end)); [|by apply calls_only_lift|done].
  intros X e [w es] He. split; [done|]. intros x. destruct e as [X e| | | | | | | | | | | | | | | | | | | | | | | | |]; try done.
  unfold audit_step. cbn [fst snd]. by destruct w, e; cbn; rewrite ?app_nil_r.
Qed.

Lemma awp_archive {A} (p : prog ArchiveE A) (Q : A → trail → Prop) st :
  (∀ a w, Q a (w, st.2)) → awp (archive p) Q st.
Proof.
  intros HQ. revert st HQ. induction p as [a|X e k IH]; intros [w es] HQ; [apply HQ|]. split; [done|]. intros x.
  apply IH. intros a w'. cbn. rewrite app_nil_r. apply HQ.
Qed.

Definition unpublished (X : Set) (e : ArchiveE X) : bool := match e with PutManifest _ _ => false | _ => true end.
Lemma awp_archive_quiet {A} (p : prog ArchiveE A) (Q : A → trail → Prop) st :
  calls_only unpublished p → (∀ a, Q a st) → awp (archive p) Q st.
Proof.
  intros Hp HQ. apply (wp_calls_only _ _ (λ X e, match e with ArchiveCall e => unpublished _ e | _ => false end)); [|by apply calls_only_lift|done].
  intros X e [w es] He. split; [done|]. intros x. destruct e as [|X e| | | | | | | | | | | | | | | | | | | | | | | |]; try done.
  unfold audit_step. cbn [fst snd]. rewrite app_nil_r. by destruct w, e.
Qed.

Definition entry (actor act target outcome : string) (extra : gmap string Value) : AppendAuditEntryParams :=
  {| audit_Actor := if decide (actor = "") then "anonymous" else actor; audit_Action := act; audit_Target := target;
     audit_Outcome := outcome; audit_Detail := extra ∪ {["ip" := VString (clientIP (req_RemoteAddr (api_Req r)))]} |}.
Lemma awp_detail actor act target outcome extra (Q : unit → trail → Prop) st :
  Q tt (st.1, st.2 ++ [entry actor act target outcome extra]) →
  awp (auth (auditDetail actor act target outcome (api_Req r) extra)) Q st.
Proof. intros HQ. split; [done|]. intros x. destruct st as [w es]. cbn [lift wp]. unfold audit_step. by destruct w. Qed.
Lemma awp_result act target ok (Q : unit → trail → Prop) st :
  Q tt (st.1, st.2 ++ [entry (su_Username user) act target (outcome_word ok) ∅]) →
  awp (auditResult r user act target ok) Q st.
Proof. apply awp_detail. Qed.

Lemma entry_accounts rep act target outcome extra :
  act ∈ route_actions route → (outcome = "success" ↔ (rep_Status rep < 400)%Z) →
  accounts route user rep (entry (su_Username user) act target outcome extra).
Proof. intros Ha Ho. split_and!; [|done|done]. simpl. case_decide; auto. Qed.

Lemma told_quiet rep es : told route user rep (false, es).
Proof. done. Qed.
Lemma told_last rep w es act target outcome extra :
  act ∈ route_actions route → (outcome = "success" ↔ (rep_Status rep < 400)%Z) →
  told route user rep (w, es ++ [entry (su_Username user) act target outcome extra]).
Proof. intros Ha Ho _. eexists. split; [apply elem_of_app; right; by left|]. by apply entry_accounts. Qed.
End rules.

(** Errors of the API server are answered with an error status. *)
Lemma k8s_error_status e : (400 ≤ rep_Status (writeK8sError e))%Z.
Proof. by destruct e. Qed.
Lemma vault_error_status e : (400 ≤ rep_Status (writeVaultK8sError e))%Z.
Proof. by destruct e. Qed.

Definition signs (X : Set) (e : ApiE X) : bool := match e with AuthCall _ => true | _ => false end.
Lemma step_unsigned {X : Set} (e : ApiE X) x st : signs X e = false → audit_step X e x st = (st.1 || mutates X e, st.2).
Proof. intros Hs. unfold audit_step. by destruct e; try done; rewrite app_nil_r. Qed.

Lemma awp_read {X : Set} (e : ApiE X) (Q : X → trail → Prop) st :
  signs X e = false → mutates X e = false → (∀ x, Q x st) → awp (trigger e) Q st.
Proof.
  intros Hs Hm HQ. split; [done|]. intros x. cbn [wp]. rewrite step_unsigned, Hm, orb_false_r by done. by destruct st.
Qed.
Lemma awp_write {X : Set} (e : ApiE X) (Q : X → trail → Prop) st :
  signs X e = false → mutates X e = true → (∀ x, Q x (true, st.2)) → awp (trigger e) Q st.
Proof. intros Hs Hm HQ. split; [done|]. intros x. cbn [wp]. by rewrite step_unsigned, Hm, orb_true_r. Qed.

(** Reads of the cluster, the settings, the policy. *)
Definition reads (X : Set) (e : ApiE X) : bool :=
  match e with
  | KGet _ _ _ | KList _ _ _ | GetConfigMap _ | ListNodes | ListSettings | ListAppDeploys _ | ListAuditEntries _ _ | ListPods _ _ _
  | RecordDeploy _ | NameLock | NameUnlock => true
  | _ => false
  end.
Lemma awp_reads {A} (p : prog ApiE A) (Q : A → trail → Prop) st :
  calls_only reads p → (∀ a, Q a st) → awp p Q st.
Proof.
  intros Hp HQ. apply (wp_calls_only _ _ reads); [|done..]. intros X e [w es] He. split; [done|]. intros x.
  rewrite step_unsigned by by destruct e. cbn [fst snd]. by destruct e; rewrite ?orb_false_r.
Qed.
Lemma conflicting_reads cs name k : calls_only reads (conflicting_loop cs name k).
Proof. induction cs as [|[n k'] cs IH]; [done|]. cbn [conflicting_loop]. calls. Qed.
Lemma eso_reads name : calls_only reads (esoClaimsSecretName name).
Proof. unfold esoClaimsSecretName, probe_name. calls. Qed.
Lemma snapshot_reads `{UnicodeTables} : calls_only reads loadRepoAllowlistSnapshot.
Proof. unfold loadRepoAllowlistSnapshot. calls. Qed.

(** Queueing a build appends nothing to the log. *)
Lemma awp_enqueue n app repo (Q : option string → trail → Prop) st :
  (∀ d w, (d ≠ None → w = true) → Q d (w || st.1, st.2)) → awp (enqueue_loop n app repo) Q st.
Proof.
  intros HQ. revert st HQ. induction n as [|n IH]; intros [w es] HQ; [apply (HQ None false); done|].
  cbn [enqueue_loop]. unfold newManualDeliveryID. apply wp_bind, wp_bind, awp_auth; [by split|]. intros raw.
  destruct raw as [raw|e]; [|apply (HQ None false); done]. apply wp_bind, awp_write; [done..|]. intros x.
  destruct x as [z|e]; [|apply (HQ None true); done]. case_decide; [apply (HQ (Some _) true); done|].
  apply IH. intros d w' Hd. rewrite orb_true_r. apply (HQ d true). done.
Qed.
Lemma awp_queue_deploy user r name source (Q : unit → trail → Prop) st :
  (∀ w e, Q tt (w || st.1, st.2 ++ [e])) → awp (queue_deploy user r name source) Q st.
Proof. intros HQ. unfold queue_deploy. apply wp_bind, awp_enqueue. intros d w _. apply awp_result, HQ. Qed.

(** Walk a handler, then settle what is left: the entry that accounts for the writes. *)
Ltac awalk_step :=
  lazymatch goal with
  | |- awp (prog_bind _ _) _ _ => apply wp_bind
  | |- awp (let _ := _ in _) _ _ => cbv zeta
  | |- awp (match ?x with _ => _ end) _ _ => destruct x eqn:?
  | |- awp (Ret _) _ _ => cbn [wp]
  | |- awp (trigger _) _ _ =>
      first [apply awp_read; [reflexivity|reflexivity|intros ?] | apply awp_write; [reflexivity|reflexivity|intros ?]]; cbn [fst snd]
  | |- awp (auditResult _ _ _ _ _) _ _ => apply awp_result; cbn [fst snd]
  | |- awp (auth (auditDetail _ _ _ _ _ _)) _ _ => apply awp_detail; cbn [fst snd]
  | |- awp (auth (trigger Now)) _ _ => apply awp_auth; [by split|intros ?]
  | |- awp (archive (Upload _ _ _ _ _)) _ _ => apply awp_archive; intros ? ?; cbn [fst snd]
  | |- awp (archive _) _ _ => apply awp_archive_quiet; [solve [unfold Inspect; calls]|intros ?]
  | |- awp (conflicting_loop _ _ _) _ _ => apply awp_reads; [apply conflicting_reads|intros ?]
  | |- awp (esoClaimsSecretName _) _ _ => apply awp_reads; [apply eso_reads|intros ?]
  | |- awp loadRepoAllowlistSnapshot _ _ => apply awp_reads; [apply snapshot_reads|intros ?]
  | |- awp (queue_deploy _ _ _ _) _ _ => apply awp_queue_deploy; intros ? ?; cbn [fst snd]
  | |- awp (enqueue_loop _ _ _) _ _ => apply awp_enqueue; intros ? ? ?; cbn [fst snd]
  end.
Ltac awalk := repeat awalk_step.

Ltac outcome_agrees :=
  repeat match goal with |- context [match ?x with _ => _ end] => destruct x end;
  lazymatch goal with
  | |- context [writeK8sError ?e] => pose proof (k8s_error_status e)
  | |- context [writeVaultK8sError ?e] => pose proof (vault_error_status e)
  | |- _ => idtac
  end; split; intros ?; first [done | lia | reflexivity].
Ltac settle := first
  [ apply told_quiet
  | apply told_last; [by repeat constructor|outcome_agrees] ].

(** ** The handlers *)
Section handlers.
Context `{ApiLib} (s : ApiConfig) (user : sessionUser) (r : ApiRequest).
Abbreviation tells route := (λ rep st, told route user rep st).

Lemma create_app_told : awp (handleCreateApp s user r) (tells PostApp) (false, []).
Proof.
  unfold handleCreateApp, with_names, create_app, conflictingResourceKind, recordDeploy. awalk; try settle.
  intros _. eexists. split; [by left|]. by apply entry_accounts; [repeat constructor|].
Qed.
Lemma deploy_app_told : awp (handleDeployApp s user r) (tells PostDeploy) (false, []).
Proof. unfold handleDeployApp, enqueueManualDeploy. awalk; settle. Qed.
Lemma upload_told : awp (handleUploadSourceArchive s user r) (tells PostArchive) (false, []).
Proof. unfold handleUploadSourceArchive, receive_archive, store_archive. awalk; settle. Qed.
Lemma source_told : awp (handleUpdateAppSource s user r) (tells PutSource) (false, []).
Proof.
  unfold handleUpdateAppSource, resource_app, recordDeploy. awalk; try settle.
  intros _. eexists. split; [by left|]. by apply entry_accounts; [repeat constructor|].
Qed.
Lemma update_app_told : awp (handleUpdateApp user r) (tells PutApp) (false, []).
Proof. unfold handleUpdateApp, recordDeploy. awalk; settle. Qed.
Lemma env_told : awp (handleSetEnv user r) (tells PutEnv) (false, []).
Proof. unfold handleSetEnv, write_env, writeEnvSecret, auditEnv. awalk; settle. Qed.
Lemma domain_told : awp (handleCreateDomain user r) (tells PostDomain) (false, []).
Proof. unfold handleCreateDomain. awalk; settle. Qed.
Lemma create_database_told d : awp (handleCreateDatabase d user r) (tells (PostDatabase d)) (false, []).
Proof. unfold handleCreateDatabase, with_names, create_database, conflictingResourceKind. awalk; settle. Qed.
Lemma update_database_told d : awp (handleUpdateDatabase d user r) (tells (PutDatabase d)) (false, []).
Proof. unfold handleUpdateDatabase, save_database. awalk; settle. Qed.
Lemma tool_told d : awp (handleUpdateTool d user r) (tells (PutTool d)) (false, []).
Proof. unfold handleUpdateTool, save_database. awalk; try settle. destruct (tu_Enabled a); settle. Qed.
Lemma delete_told k act route :
  act ∈ route_actions route → awp (delete_object k act user r) (tells route) (false, []).
Proof. intros Ha. unfold delete_object. awalk. apply (told_last route user r _ true []); [done|outcome_agrees]. Qed.
Lemma delete_eso_told k act route :
  act ∈ route_actions route → awp (delete_eso k act user r) (tells route) (false, []).
Proof. intros Ha. unfold delete_eso. awalk. apply (told_last route user r _ true []); [done|outcome_agrees]. Qed.
Lemma create_store_told : awp (handleCreateSecretStore user r) (tells PostStore) (false, []).
Proof.
  unfold handleCreateSecretStore, credentialsNameTaken, probe_name, connect_store, writeCredentialsSecret. awalk; settle.
Qed.
Lemma update_store_told : awp (handleUpdateSecretStore user r) (tells PutStore) (false, []).
Proof.
  unfold handleUpdateSecretStore, credentialsNameTaken, probe_name, rewire_store, writeCredentialsSecret. awalk; settle.
Qed.
Lemma sync_told : awp (handleCreateExternalSecret user r) (tells PostSync) (false, []).
Proof. unfold handleCreateExternalSecret, probe_name. awalk; settle. Qed.
Lemma access_told : awp (handleSetAccessMode user r) (tells PostAccessMode) (false, []).
Proof. unfold handleSetAccessMode. awalk; settle. Qed.
Lemma oidc_told : awp (handleSetupOIDC s user r) (tells PostSetupOIDC) (false, []).
Proof. unfold handleSetupOIDC, blindUpdateSecret. awalk; settle. Qed.

(** The policy update appends its own entries. *)
Lemma awp_append outcome hash (Q : result DbError unit → trail → Prop) st :
  (∀ x, Q x (st.1, st.2 ++ [policy_entry r user outcome hash])) → awp (appendRepoAllowlistAudit r user outcome hash) Q st.
Proof. intros HQ. split; [done|]. intros x. destruct st as [w es]. cbn [wp]. unfold audit_step. by destruct w. Qed.
Lemma awp_record outcome hash (Q : unit → trail → Prop) st :
  Q tt (st.1, st.2 ++ [policy_entry r user outcome hash]) → awp (recordRepoAllowlistAudit r user outcome hash) Q st.
Proof. intros HQ. apply wp_bind, awp_append. by intros x. Qed.
Lemma policy_accounts rep outcome hash :
  (outcome = "success" ↔ (rep_Status rep < 400)%Z) → accounts PutAllowlist user rep (policy_entry r user outcome hash).
Proof. intros Ho. split_and!; [by left|by left|done]. Qed.

Lemma apply_policy_told version formatted hash repositories :
  awp (apply_policy r user version formatted hash repositories) (tells PutAllowlist)
    (false, [policy_entry r user "attempt" hash]).
Proof.
  assert (Ho : ∀ rep w es, (400 ≤ rep_Status rep)%Z → told PutAllowlist user rep (w, policy_entry r user "attempt" hash :: es)).
  { intros rep w es Hst _. eexists. split; [by left|]. apply policy_accounts. split; [done|lia]. }
  assert (Hs : ∀ rep w es, (rep_Status rep < 400)%Z → told PutAllowlist user rep (w, es ++ [policy_entry r user "success" hash])).
  { intros rep w es Hst _. eexists. split; [apply elem_of_app; right; by left|]. by apply policy_accounts. }
  assert (Hr : ∀ e, (400 ≤ rep_Status (writeRepoAllowlistReadError (PolicyK8s e)))%Z) by by intros [].
  unfold apply_policy. apply wp_bind, awp_read; [done..|]. intros [cm|e]; cbn [fst snd].
  2:{ apply wp_bind, awp_record, Ho, Hr. }
  case_decide; [by apply wp_bind, awp_record, Ho|]. apply wp_bind, awp_write; [done..|]. intros [cm'|e]; cbn [fst snd].
  - unfold confirm_policy. apply wp_bind, awp_append. intros [[]|]; cbn [wp fst snd]; [by apply (Hs _ _ [_])|by apply Ho].
  - apply wp_bind. unfold resolveRepoAllowlistUpdate. apply wp_bind, awp_reads; [apply snapshot_reads|]. intros o.
    assert (Hfin : ∀ so, awp (if decide (so.2 = "success") then
        confirm_policy r user hash (allowlist_reply (snap_Repositories so.1) (snap_ResourceVersion so.1))
      else let! _ := recordRepoAllowlistAudit r user so.2 hash in Ret (writeK8sError e)) (tells PutAllowlist)
      (true, [policy_entry r user "attempt" hash])).
    { intros so. case_decide.
      - unfold confirm_policy. apply wp_bind, awp_append. intros [[]|]; cbn [wp fst snd]; [by apply (Hs _ _ [_])|by apply Ho].
      - apply wp_bind, awp_record, Ho, k8s_error_status. }
    destruct o as [snap|e']; [|apply Hfin]. destruct (Format _); apply Hfin.
Qed.
Lemma policy_told : awp (handleUpdateRepoAllowlist user r) (tells PutAllowlist) (false, []).
Proof.
  unfold handleUpdateRepoAllowlist. cbv zeta.
  assert (Hr : ∀ rep, awp (let! _ := recordRepoAllowlistAudit r user "failure" "" in Ret rep) (tells PutAllowlist) (false, [])).
  { intros rep. by apply wp_bind, awp_record. }
  destruct (decodeAPIJSON _ _) as [req|]; [|apply Hr]. destruct (ur_Repositories req); [|apply Hr]. case_decide; [apply Hr|].
  destruct (Normalize _); [|apply Hr]. destruct (Format _); [|apply Hr].
  apply wp_bind, awp_append. intros [[]|]; [apply apply_policy_told|done].
Qed.

(** Reads write nothing. *)
Definition quiet (X : Set) (e : ApiE X) : bool := negb (mutates X e).
Lemma quiet_told route {A} (p : prog ApiE A) (rep : A → Reply) es :
  calls_only quiet p → awp p (λ a st, told route user (rep a) st) (false, es).
Proof.
  intros Hp. revert es. induction p as [a|X e k IH]; intros es; [done|]. destruct Hp as [He Hk]. split; [done|]. intros x.
  unfold audit_step. cbn [fst snd]. unfold quiet in He. destruct (mutates X e); [done|]. by apply IH.
Qed.
Lemma auth_quiet {A} (p : prog AuthE A) : calls_only quiet (auth p).
Proof. apply calls_only_lift. induction p as [|X e k IH]; [done|]. by split. Qed.
#[local] Hint Resolve auth_quiet : calls.
Lemma result_quiet act target ok : calls_only quiet (auditResult r user act target ok).
Proof. apply auth_quiet. Qed.
Lemma reads_quiet {A} (p : prog ApiE A) : calls_only reads p → calls_only quiet p.
Proof. apply calls_only_mono. intros X e. by destruct e. Qed.
#[local] Hint Resolve result_quiet : calls.
#[local] Hint Extern 5 (calls_only quiet _) => apply reads_quiet; solve [eauto using snapshot_reads] : calls.

Lemma handle_told route : tier route ≠ OpenTier → awp (handle s route user r) (tells route) (false, []).
Proof.
  destruct route; intros Ht; try (exfalso; by apply Ht); clear Ht; cbn [handle];
    try first [apply policy_told | apply create_app_told | apply deploy_app_told | apply upload_told | apply source_told
      | apply update_app_told | apply env_told | apply domain_told | apply create_database_told | apply update_database_told
      | apply tool_told | apply create_store_told | apply update_store_told | apply sync_told | apply access_told | apply oidc_told
      | apply delete_told; by left | apply delete_eso_told; by left]; apply (quiet_told _ _ id); try destruct d;
    walk_handler.
Qed.
End handlers.

(** The one write of the policy route is the ConfigMap, after the intent was acknowledged. *)
Definition policy_only (X : Set) (e : ApiE X) : bool :=
  match e with UpdateConfigMap _ => true | _ => negb (mutates X e) end.
Lemma policy_writes `{ApiLib} user r : calls_only policy_only (handleUpdateRepoAllowlist user r).
Proof.
  unfold handleUpdateRepoAllowlist, apply_policy, resolveRepoAllowlistUpdate, loadRepoAllowlistSnapshot, confirm_policy,
    recordRepoAllowlistAudit, appendRepoAllowlistAudit. cbv zeta. calls.
Qed.
Lemma policy_written_ahead `{ApiLib} user r tr1 c tr2 rep :
  exec (handleUpdateRepoAllowlist user r) (tr1 ++ c :: tr2) rep → call_ok mutates c = true →
  ∃ hash, policy_entry r user "attempt" hash ∈ omap acknowledged tr1.
Proof.
  intros Hex Hm. pose proof (calls_only_exec _ _ _ _ (policy_writes user r) Hex) as Hall.
  rewrite Forall_forall in Hall. specialize (Hall c ltac:(set_solver)).
  assert (∃ cm, policy_updated c = Some cm) as [cm Hcm]. { destruct c as [X e x]. simpl in *. destruct e; try done; [|by eexists]. cbn in Hall, Hm. by rewrite Hm in Hall. }
  destruct (policy_update_recorded _ _ _ _ Hex) as [Hw _].
  destruct (Hw _ _ _ _ eq_refl Hcm) as (req & given & formatted & _ & _ & _ & _ & _ & Hin). eauto.
Qed.
Lemma existsb_write (tr1 tr2 : list (call ApiE)) c : call_ok mutates c = true → existsb (call_ok mutates) (tr1 ++ c :: tr2) = true.
Proof. intros Hc. apply existsb_exists. exists c. split; [apply list_elem_of_In; set_solver|done]. Qed.
Lemma split_after {A} (a b l1 l2 : list A) (c : A) :
  a ++ c :: b = l1 ++ l2 → c ∉ l1 → ∃ m, a = l1 ++ m ∧ l2 = m ++ c :: b.
Proof.
  intros (k & [[-> E]|[-> E]])%app_eq_app Hn; [by exists k|].
  destruct k as [|x k]; [exists []; by rewrite !app_nil_r|]. injection E as -> ->. destruct Hn. set_solver.
Qed.

(** ** Properties *)

