(* ===== verification/ApiNames.v ===== *)
(** * One name, one kind

    Apps, Postgres and Mongo databases derive child objects of their own name, so the
    dashboard keeps a name from being used by two of these kinds: a create first looks
    the name up under the other kinds, holding [nameMu] across the check and the create
    ([resource_names.go], [server.go]).  Here any number of requests run interleaved
    against one API server, one call at a time ([sys_step]), while objects are deleted
    from outside and the dashboard restarts; a name is never taken twice, and the lock
    never wedges. *)
From S2P Require Import Prelude Regex GoStrings RepoAllowlist Effects Kube Api GitResolver SourceArchive.
From S2P Require Import Database RateLimit OidcIdentity Session ApiServer ApiPolicy ApiVault ApiApps ApiViews.
From S2P Require Import ApiDatabases ApiGitHub ApiSetup ApiRoutes.
From Stdlib Require Import Ascii.

(** ** The world *)
Definition top_level (k : Kind) : bool := match k with KApp | KDatabase _ => true | _ => false end.
Definition obj_name (k : Kind) : obj k → string :=
  match k return obj k → string with
  | KApp => λ a, meta_Name (app_Meta a)
  | KDatabase _ => λ d, meta_Name (db_Meta d)
  | _ => λ _, ""
  end.

(** The names in use in [orkano-apps], by kind, and the thread that holds [nameMu]. *)
Record World : Type := { w_Objects : Kind → gset string; w_Lock : option nat }.
Definition with_objects (w : World) (k : Kind) (f : gset string → gset string) : World :=
  {| w_Objects k' := if decide (k' = k) then f (w_Objects w k) else w_Objects w k'; w_Lock := w_Lock w |}.
Definition added (w : World) (k : Kind) (n : string) : World := with_objects w k (λ ns, {[n]} ∪ ns).
Definition removed (w : World) (k : Kind) (n : string) : World := with_objects w k (λ ns, ns ∖ {[n]}).
Definition with_lock (w : World) (o : option nat) : World := {| w_Objects := w_Objects w; w_Lock := o |}.

(** What the API server and the mutex may answer thread [t], and the world after it.  A
    create whose answer is an error may still have been carried out; a delete may or
    may not have been. *)
Definition serves (t : nat) {X : Set} (e : ApiE X) (w : World) : X → World → Prop :=
  match e in ApiE X return X → World → Prop with
  | KGet _ k key => λ x w', w' = w ∧ (key_Namespace key = appsNamespace →
      match x with
      | Ok _ => key_Name key ∈ w_Objects w k
      | Err KNotFound => key_Name key ∉ w_Objects w k
      | Err _ => True
      end)
  | KCreate k o => λ x w',
      match x with
      | Ok _ => (obj_name k o ∉ w_Objects w k) ∧ w' = added w k (obj_name k o)
      | Err KAlreadyExists => obj_name k o ∈ w_Objects w k ∧ w' = w
      | Err _ => w' = w ∨ w' = added w k (obj_name k o)
      end
  | KDelete k key => λ _ w', w' = w ∨ w' = removed w k (key_Name key)
  | NameLock => λ _ w', w_Lock w = None ∧ w' = with_lock w (Some t)
  | NameUnlock => λ _ w', w_Lock w = Some t ∧ w' = with_lock w None
  | _ => λ _ w', w' = w
  end.

Definition one_kind (w : World) : Prop :=
  ∀ n k1 k2, top_level k1 = true → top_level k2 = true → n ∈ w_Objects w k1 → n ∈ w_Objects w k2 → k1 = k2.

(** ** Concurrent requests *)
Definition threads : Type := list (prog ApiE Reply).

Section system.
Context `{ApiLib} (s : ApiConfig).

Inductive sys_step : World * threads → World * threads → Prop :=
| step_request w ts route r : sys_step (w, ts) (w, ts ++ [mountAPIRoutes s route r])
| step_call w w' ts t (X : Set) (e : ApiE X) (k : X → prog ApiE Reply) x :
    ts !! t = Some (Vis e k) → serves t e w x w' → sys_step (w, ts) (w', <[t := k x]> ts)
(** an object is deleted by somebody else *)
| step_gone w ts k n : sys_step (w, ts) (removed w k n, ts)
(** the process restarts: its requests and its lock are gone *)
| step_restart w ts : sys_step (w, ts) (with_lock w None, []).
End system.

(** ** The discipline of a request

    Outside the lock, or inside it with the names that were looked up and not found since
    the lock was taken or the last create. *)
Inductive Phase : Type := Out | In (checked : list (Kind * string)).

Definition kind_free (k : Kind) (n : string) (checked : list (Kind * string)) : Prop :=
  ∀ k', top_level k' = true → k' ≠ k → (k', n) ∈ checked.
Definition name_pre (X : Set) (e : ApiE X) (g : Phase) : Prop :=
  match e with
  | NameLock => g = Out
  | NameUnlock => g ≠ Out
  | KCreate k o => top_level k = true → ∃ checked, g = In checked ∧ kind_free k (obj_name k o) checked
  | _ => True
  end.
Definition name_step (X : Set) (e : ApiE X) : X → Phase → Phase :=
  match e in ApiE X return X → Phase → Phase with
  | NameLock => λ _ _, In []
  | NameUnlock => λ _ _, Out
  | KCreate _ _ => λ _ g, match g with In _ => In [] | Out => Out end
  | KGet _ k key => λ x g,
      match x, g with
      | Err KNotFound, In checked =>
          if decide (key_Namespace key = appsNamespace) then In ((k, key_Name key) :: checked) else g
      | _, _ => g
      end
  | _ => λ _ g, g
  end.
Abbreviation nwp := (wp name_pre name_step).
(** A request that is disciplined from [g] on, and ends outside the lock. *)
Definition disciplined (p : prog ApiE Reply) (g : Phase) : Prop := nwp p (λ _ g, g = Out) g.

(** Programs that neither lock nor create a top-level object. *)
Definition calm (X : Set) (e : ApiE X) : bool :=
  match e with
  | NameLock | NameUnlock => false
  | KCreate k _ => negb (top_level k)
  | _ => true
  end.
Lemma calm_out {A} (p : prog ApiE A) (Q : A → Phase → Prop) :
  calls_only calm p → (∀ a, Q a Out) → nwp p Q Out.
Proof.
  intros Hp HQ. induction p as [a|X e k IH]; [apply HQ|]. destruct Hp as [He Hk]. split.
  - destruct e; try done. simpl in He. intros Ht. by rewrite Ht in He.
  - intros x. assert (name_step X e x Out = Out) as ->; [|by apply IH]. by destruct e; try done; destruct x as [?|[]].
Qed.

(** Inside the lock, a program that creates nothing only learns more. *)
Definition looking (X : Set) (e : ApiE X) : bool :=
  match e with NameLock | NameUnlock | KCreate _ _ => false | _ => true end.
Lemma looking_step (X : Set) (e : ApiE X) x checked :
  looking X e = true → ∃ checked', name_step X e x (In checked) = In checked' ∧ checked ⊆ checked'.
Proof.
  intros He. destruct e; try done; try (by exists checked). destruct x as [o|[]]; try (by exists checked).
  cbn [name_step]. case_decide; [|by exists checked]. eexists. split; [done|]. set_solver.
Qed.
Lemma looking_in {A} (p : prog ApiE A) (Q : A → Phase → Prop) checked :
  calls_only looking p → (∀ a checked', checked ⊆ checked' → Q a (In checked')) → nwp p Q (In checked).
Proof.
  revert checked. induction p as [a|X e k IH]; intros checked Hp HQ; [by apply HQ|]. destruct Hp as [He Hk].
  split; [by destruct e|]. intros x. destruct (looking_step X e x checked He) as (checked' & -> & Hs).
  apply IH; [done|]. intros a c2 Hc. apply HQ. by trans checked'.
Qed.
#[local] Instance looking_covers : CoversPlain looking.
Proof. intros X e. by destruct e. Qed.

(** ** The two creates *)

(** The check: a name it reports free was not found under any other kind. *)
Lemma conflicting_checks name requested k cs (Q : result K8sError string → Phase → Prop) checked :
  (∀ n k', (n, k') ∈ cs → n ≠ "" ∧ (n = requested ↔ k' = k)) →
  (∀ e checked', Q (Err e) (In checked')) →
  (∀ n checked', n ≠ "" → Q (Ok n) (In checked')) →
  (∀ checked', (∀ n k', (n, k') ∈ cs → k' ≠ k → (k', name) ∈ checked') → checked ⊆ checked' → Q (Ok "") (In checked')) →
  nwp (conflicting_loop cs name requested) Q (In checked).
Proof.
  intros Hcs HE HU HF. revert checked Hcs HF. induction cs as [|[n k'] cs IH]; intros checked Hcs HF; cbn [conflicting_loop].
  { apply HF; [|done]. by intros ? ? ?%not_elem_of_nil. }
  destruct (Hcs n k') as [Hn Hk]; [by left|].
  assert (Hrest : ∀ n0 k0, (n0, k0) ∈ cs → n0 ≠ "" ∧ (n0 = requested ↔ k0 = k)) by (intros ? ? ?; apply Hcs; by right).
  case_decide as Hr.
  - apply IH; [done|]. intros c2 Hc Hs. apply HF; [|done]. intros n0 k0 [[= -> ->]|Hin]%elem_of_cons Hne; [naive_solver|by eapply Hc].
  - apply wp_bind. split; [done|]. intros [o|e]; cbn [name_step]; [by apply HU|]. destruct e; try apply HE.
    cbn [app_key key_Namespace key_Name]. rewrite decide_True by done. apply IH; [done|].
    intros c2 Hc Hs. apply HF; [|set_solver]. intros n0 k0 [[= -> ->]|Hin]%elem_of_cons Hne; [apply Hs; by left|by eapply Hc].
Qed.

Lemma top_kinds k : top_level k = true → ∃ n, (n, k) ∈ topLevelNameKinds.
Proof. destruct k as [| |[]| | |]; try done; intros _; eexists; repeat constructor. Qed.

Lemma conflicting_free name requested k (Q : result K8sError string → Phase → Prop) checked :
  (requested, k) ∈ topLevelNameKinds →
  (∀ e checked', Q (Err e) (In checked')) →
  (∀ n checked', n ≠ "" → Q (Ok n) (In checked')) →
  (∀ checked', kind_free k name checked' → Q (Ok "") (In checked')) →
  nwp (conflictingResourceKind name requested) Q (In checked).
Proof.
  intros Hk HE HU HF. apply (conflicting_checks name requested k); [|done..|].
  - intros n k' Hin. unfold topLevelNameKinds in Hk, Hin. rewrite !elem_of_cons, elem_of_nil in Hk, Hin.
    destruct Hk as [[= -> ->]|[[= -> ->]|[[= -> ->]|[]]]], Hin as [[= -> ->]|[[= -> ->]|[[= -> ->]|[]]]];
      (split; [done|split; congruence]).
  - intros c2 Hc _. apply HF. intros k' Ht Hne. destruct (top_kinds k' Ht) as [n Hin]. by eapply Hc.
Qed.

Lemma create_app_disciplined `{ApiLib} s user r : disciplined (handleCreateApp s user r) Out.
Proof.
  unfold disciplined, handleCreateApp. destruct (decodeAPIJSON _ _) as [req|]; [|done].
  case_match; [done|]. case_match; [done|]. unfold with_names. apply wp_bind. split; [done|]. intros u. cbn [wp name_step].
  apply wp_bind, (wp_mono _ _ _ (λ _ g, g ≠ Out)).
  { intros rep g Hg. cbn beta. apply wp_bind. split; [done|]. by intros ?. }
  unfold create_app. apply wp_bind, (conflicting_free _ _ KApp); [by left| | |].
  - intros e checked. apply looking_in; [calls|done].
  - intros n checked Hn. rewrite decide_True by done. apply looking_in; [calls|done].
  - intros checked Hc. rewrite decide_False by naive_solver. apply wp_bind. split; [intros _; by exists checked|].
    intros c. cbn [name_step wp]. apply looking_in; [unfold recordDeploy; calls|done].
Qed.
Lemma create_database_disciplined `{ApiLib} d user r : disciplined (handleCreateDatabase d user r) Out.
Proof.
  unfold disciplined, handleCreateDatabase. destruct (decodeAPIJSON _ _) as [req|]; [|done].
  case_match; [done|]. case_match; [done|]. unfold with_names. apply wp_bind. split; [done|]. intros u. cbn [wp name_step].
  apply wp_bind, (wp_mono _ _ _ (λ _ g, g ≠ Out)).
  { intros rep g Hg. cbn beta. apply wp_bind. split; [done|]. by intros ?. }
  unfold create_database. cbv zeta. apply wp_bind, (conflicting_free _ _ (KDatabase d)).
  { destruct d; repeat constructor. }
  - intros e checked. apply looking_in; [calls|done].
  - intros n checked Hn. rewrite decide_True by done. apply looking_in; [calls|done].
  - intros checked Hc. rewrite decide_False by naive_solver. apply wp_bind, looking_in; [calls|]. intros taken c2 Hs.
    destruct taken as [[]|]; [apply looking_in; [calls|done]| |apply looking_in; [calls|done]].
    apply wp_bind. split; [intros _; exists c2; split; [done|]; intros k' ? ?; by apply Hs, Hc|].
    intros c. cbn [name_step wp]. apply looking_in; [calls|done].
Qed.

(** ** Every request *)
#[local] Instance calm_covers : CoversPlain calm.
Proof. intros X e. by destruct e. Qed.

Definition creates_named (route : ApiRoute) : bool := match route with PostApp | PostDatabase _ => true | _ => false end.
Lemma others_calm `{ApiLib} s route user r : creates_named route = false → calls_only calm (handle s route user r).
Proof.
  destruct route; intros Ht; try discriminate Ht; clear Ht; cbn [handle]; try destruct d; walk_handler.
Qed.

Lemma guard_disciplined t next r : (∀ user, disciplined (next user) Out) → disciplined (guard t next r) Out.
Proof.
  intros Hn. assert (Hu : disciplined (api_step_up next r) Out).
  { apply wp_bind, calm_out; [apply (plain_calls _ _ _), auth_plain|]. intros [[user sess]|]; [|done]. destruct (sess_ReauthAt sess); [|done].
    apply wp_bind, calm_out; [apply (plain_calls _ _ _), auth_plain|]. intros now. case_decide; [done|apply Hn]. }
  assert (Hs : ∀ next', (∀ user, disciplined (next' user) Out) → disciplined (api_session next' r) Out).
  { intros next' Hn'. apply wp_bind, calm_out; [apply (plain_calls _ _ _), auth_plain|]. intros [[user sess]|]; [apply Hn'|done]. }
  destruct t; [by apply Hs|by apply Hs|done|apply Hn].
Qed.
Lemma request_disciplined `{ApiLib} s route r : disciplined (mountAPIRoutes s route r) Out.
Proof.
  apply guard_disciplined. intros user. destruct (creates_named route) eqn:Hr; [|apply calm_out; [by apply others_calm|done]].
  destruct route; try done; [apply create_app_disciplined|apply create_database_disciplined].
Qed.

(** ** The invariant *)

(** What the holder of the lock has looked up is still so. *)
Definition holds (g : Phase) (w : World) : Prop :=
  match g with Out => True | In checked => ∀ k n, top_level k = true → (k, n) ∈ checked → n ∉ w_Objects w k end.

Record sys_ok (w : World) (ts : threads) (gs : list Phase) : Prop := {
  sys_threads : Forall2 disciplined ts gs;
  sys_lock t g : gs !! t = Some g → (g ≠ Out ↔ w_Lock w = Some t);
  (** nobody outside holds it *)
  sys_held t : w_Lock w = Some t → t < length gs;
  sys_holds t g : gs !! t = Some g → holds g w;
  sys_one : one_kind w;
}.

Lemma holds_removed g w k n : holds g w → holds g (removed w k n).
Proof. destruct g; [done|]. intros Hh k' n' Ht Hin. specialize (Hh k' n' Ht Hin). simpl. case_decide; set_solver. Qed.
Lemma one_kind_removed w k n : one_kind w → one_kind (removed w k n).
Proof.
  intros Ho n' k1 k2 H1 H2. simpl. intros Hn1 Hn2. apply (Ho n'); [done..| |]; repeat case_decide; set_solver.
Qed.
Lemma one_kind_added w k n checked :
  (top_level k = true → kind_free k n checked) → holds (In checked) w → one_kind w → one_kind (added w k n).
Proof.
  intros Hf Hh Ho n' k1 k2 H1 H2. simpl. intros Hn1 Hn2.
  destruct (decide (k1 = k)) as [->|Hk1], (decide (k2 = k)) as [->|Hk2]; [done| | |by apply (Ho n')].
  - apply elem_of_union in Hn1 as [->%elem_of_singleton|Hn1]; [|by apply (Ho n')]. by destruct (Hh k2 n H2 (Hf H1 k2 H2 Hk2)).
  - apply elem_of_union in Hn2 as [->%elem_of_singleton|Hn2]; [|by apply (Ho n')]. by destruct (Hh k1 n H1 (Hf H2 k1 H1 Hk1)).
Qed.

(** One call of one thread. *)
Lemma serves_ok t {X : Set} (e : ApiE X) x w w' g :
  serves t e w x w' → name_pre X e g → (g ≠ Out ↔ w_Lock w = Some t) → holds g w → one_kind w →
  one_kind w' ∧ holds (name_step X e x g) w' ∧ (name_step X e x g ≠ Out ↔ w_Lock w' = Some t) ∧
  (∀ t', t' ≠ t → (w_Lock w' = Some t' ↔ w_Lock w = Some t')) ∧
  (g = Out → ∀ k n, top_level k = true → n ∈ w_Objects w' k → n ∈ w_Objects w k).
Proof.
  intros Hs Hp Hl Hh Ho. destruct e; cbn [serves] in Hs; try (subst w'; by auto).
  - destruct Hs as [-> Hx]. assert (Hout : name_step _ (KGet c k key) x g = Out ↔ g = Out).
    { destruct g; [by destruct x as [|[]]|]. destruct x as [|[]]; simpl; try done. by case_decide. }
    split_and!; [done| |by rewrite Hout|done|done]. destruct x as [o'|[]]; try done. destruct g as [|checked]; [done|]. simpl.
    case_decide as Hns; [|done]. intros k' n' Ht [[= -> ->]|Hin]%elem_of_cons; [by apply Hx|by apply Hh].
  - assert (Hw : w' = w ∨ w' = added w k (obj_name k o)) by (destruct x as [|[]]; naive_solver).
    assert (Hout : name_step _ (KCreate k o) x g = Out ↔ g = Out) by by destruct g.
    assert (Hlock : w_Lock w' = w_Lock w) by by destruct Hw as [->| ->]. rewrite Hlock, Hout. cbn [name_pre] in Hp.
    split_and!; [|by destruct g; [|intros ? ? ? ?%not_elem_of_nil]|done|done|].
    + destruct Hw as [->| ->]; [done|]. destruct (top_level k) eqn:Ht.
      * destruct (Hp eq_refl) as (checked & -> & Hf). by eapply one_kind_added.
      * apply (one_kind_added _ _ _ []); [by rewrite Ht|by intros ? ? ? ?%not_elem_of_nil|done].
    + intros -> k' n Hk'. destruct Hw as [->| ->]; [done|]. simpl. case_decide as Hk; [|done]. subst k'.
      by destruct (Hp Hk') as (? & ? & ?).
  - assert (Hlock : w_Lock w' = w_Lock w) by by destruct Hs as [->| ->]. rewrite Hlock.
    split_and!; [| |done|done|]; destruct Hs as [->| ->]; try done; [by apply one_kind_removed|by apply holds_removed|].
    intros _ k' n' _. simpl. case_decide; set_solver.
  - destruct Hs as [Hf ->]. cbn [name_pre] in Hp. subst g. cbn [name_step with_lock w_Lock w_Objects].
    split_and!; [done|by intros ? ? ? ?%not_elem_of_nil|done| |done]. intros t' Ht. rewrite Hf. naive_solver.
  - destruct Hs as [Hf ->]. cbn [name_step with_lock w_Lock w_Objects].
    split_and!; [done|done|done| |done]. intros t' Ht. rewrite Hf. naive_solver.
Qed.

Lemma sys_ok_step `{ApiLib} s w ts w' ts' gs :
  sys_ok w ts gs → sys_step s (w, ts) (w', ts') → ∃ gs', sys_ok w' ts' gs'.
Proof.
  intros [Hd Hl Hlt Hh Ho] Hstep. inversion Hstep as [? ? route r|? ? ? t X e k x Ht Hs|? ? k n|]; subst.
  - exists (gs ++ [Out]). split; [| | | |done].
    + apply Forall2_app; [done|]. constructor; [apply request_disciplined|done].
    + intros t g [Hg|[Hn Hg]]%lookup_app_Some; [by apply Hl|]. apply list_lookup_singleton_Some in Hg as [Hz <-].
      split; [done|]. intros Hlt'%Hlt. lia.
    + intros t ?%Hlt. rewrite length_app. lia.
    + intros t g [Hg|[Hn Hg]]%lookup_app_Some; [by eapply Hh|]. by apply list_lookup_singleton_Some in Hg as [_ <-].
  - destruct (Forall2_lookup_l _ _ _ _ _ Hd Ht) as (g & Hg & Hp & Hk).
    destruct (serves_ok t e x w w' g Hs Hp (Hl t g Hg) (Hh t g Hg) Ho) as (Ho' & Hh' & Hl' & Hoth & Hkeep).
    exists (<[t := name_step X e x g]> gs). split; [| | | |done].
    + apply Forall2_insert; [done|apply Hk].
    + intros t' g' Hg'. destruct (decide (t' = t)) as [->|Hne].
      * rewrite list_lookup_insert_eq in Hg' by by eapply lookup_lt_Some. by simplify_eq.
      * rewrite list_lookup_insert_ne in Hg' by done. rewrite (Hl t' g' Hg'). by rewrite Hoth.
    + intros t' Ht'. rewrite length_insert. destruct (decide (t' = t)) as [->|Hne]; [by eapply lookup_lt_Some|]. by apply Hlt, Hoth.
    + intros t' g' Hg'. destruct (decide (t' = t)) as [->|Hne].
      * rewrite list_lookup_insert_eq in Hg' by by eapply lookup_lt_Some. by simplify_eq.
      * rewrite list_lookup_insert_ne in Hg' by done. destruct g' as [|checked]; [done|].
        assert (Hg0 : g = Out). { destruct g; [done|]. exfalso. apply Hne. assert (w_Lock w = Some t') by by apply (Hl t' _ Hg').
          assert (w_Lock w = Some t) by by apply (Hl t _ Hg). congruence. }
        intros k' n' Htop Hin Hn'. by apply (Hh t' _ Hg' k' n' Htop Hin), Hkeep.
  - exists gs. split; [done|done|done| |by apply one_kind_removed]. intros t g Hg. by apply holds_removed, (Hh t).
  - exists []. split; [constructor|done|done|done|done].
Qed.

Lemma sys_reach `{ApiLib} s a b :
  rtc (sys_step s) a b → (∃ gs, sys_ok a.1 a.2 gs) → ∃ gs, sys_ok b.1 b.2 gs.
Proof.
  induction 1 as [|[w ts] [w' ts'] c Hs _ IH]; [done|]. intros [gs Hok]. apply IH. by eapply sys_ok_step.
Qed.

(** ** Properties *)

(** The call waits for the lock. *)
Definition waits (X : Set) (e : ApiE X) : bool := match e with NameLock => true | _ => false end.

(** C10. One name, one kind, whatever the requests and however they interleave: from a cluster
    where no name is shared between Apps, Postgres and Mongo databases, any number of
    concurrent requests to the API, with their calls interleaved in any order, creates
    that are carried out although their answer is lost, deletions from outside and
    restarts of the dashboard, never lead to a name that two of these kinds use; and a
    request that holds the lock always has a next call to make, and one that does not
    wait for the lock, so requests never deadlock. *)
Theorem names_unique `{ApiLib} s w0 w ts :
  one_kind w0 → w_Lock w0 = None → rtc (sys_step s) (w0, []) (w, ts) →
  one_kind w ∧
  ∀ t, w_Lock w = Some t → ∃ (X : Set) (e : ApiE X) k, ts !! t = Some (Vis e k) ∧ waits X e = false.
Proof.
  intros Ho Hl Hr. apply sys_reach in Hr as [gs [Hd Hlk Hlt Hh Ho']].
  2:{ exists []. split; [apply Forall2_nil_2|done| |done|done]. simpl. by rewrite Hl. }
  split; [done|]. intros t Ht. destruct (lookup_lt_is_Some_2 gs t (Hlt t Ht)) as [g Hg].
  assert (Hout : g ≠ Out) by by apply (Hlk t g Hg). destruct (Forall2_lookup_r _ _ _ _ _ Hd Hg) as (p & Hp & Hdp).
  destruct p as [a|X e k]; [done|]. exists X, e, k. split; [done|]. destruct Hdp as [Hpre _]. by destruct e.
Qed.
