(* ===== verification/ApiBlind.v ===== *)
(** * Secret values stay out of the dashboard's records

    INV-03: the value of a secret reaches the Kubernetes Secret it is written to and
    nothing else.  Two requests that differ only in secret values do the same: the same
    calls in the same order with the same arguments, up to the values inside the Secrets
    they write, and the same reply.  So no response, no audit entry, no row and no other
    object depends on a value. *)
From S2P Require Import Prelude Regex GoStrings Effects Kube Api GitResolver Database RateLimit Session.
From S2P Require Import ApiServer ApiPolicy ApiVault ApiApps ApiViews ApiDatabases ApiGitHub ApiSetup.
From S2P Require Import ApiRoutes.
From Stdlib Require Import Ascii.

(** ** Redaction *)
Definition redact (sec : Secret) : Secret :=
  {| sec_Meta := sec_Meta sec; sec_Type := sec_Type sec; sec_Data := (λ _, "") <$> sec_Data sec |}.
Definition redact_call (c : call ApiE) : call ApiE :=
  match c with
  | Call e x =>
      match e in ApiE X return X → call ApiE with
      | CreateSecret sec => λ x, Call (CreateSecret (redact sec)) x
      | UpdateSecret sec => λ x, Call (UpdateSecret (redact sec)) x
      | e => λ x, Call e x
      end x
  end.

(** Programs that agree up to the values inside the Secrets they write. *)
Inductive mirrors {A} : prog ApiE A → prog ApiE A → Prop :=
| mirrors_refl p : mirrors p p
| mirrors_vis {X : Set} (e : ApiE X) k k' : (∀ x, mirrors (k x) (k' x)) → mirrors (Vis e k) (Vis e k')
| mirrors_create sec sec' k k' :
    redact sec = redact sec' → (∀ x, mirrors (k x) (k' x)) → mirrors (Vis (CreateSecret sec) k) (Vis (CreateSecret sec') k')
| mirrors_update sec sec' k k' :
    redact sec = redact sec' → (∀ x, mirrors (k x) (k' x)) → mirrors (Vis (UpdateSecret sec) k) (Vis (UpdateSecret sec') k').

Lemma mirrors_exec {A} (p q : prog ApiE A) tr a :
  mirrors p q → exec p tr a → ∃ tr', exec q tr' a ∧ redact_call <$> tr = redact_call <$> tr'.
Proof.
  intros Hm. revert tr. induction Hm as [p|X e k k' _ IH|sec sec' k k' E _ IH|sec sec' k k' E _ IH]; intros tr Hex.
  - by exists tr.
  - destruct Hex as (x & tr1 & -> & (tr2 & Hx & E)%IH). exists (Call e x :: tr2). split; [by exists x, tr2|]. by rewrite !fmap_cons, E.
  - destruct Hex as (x & tr1 & -> & (tr2 & Hx & E')%IH). exists (Call (CreateSecret sec') x :: tr2). split; [by exists x, tr2|].
    rewrite !fmap_cons, E'. simpl. by rewrite E.
  - destruct Hex as (x & tr1 & -> & (tr2 & Hx & E')%IH). exists (Call (UpdateSecret sec') x :: tr2). split; [by exists x, tr2|].
    rewrite !fmap_cons, E'. simpl. by rewrite E.
Qed.

Lemma mirrors_bind {A B} (p q : prog ApiE A) (f g : A → prog ApiE B) :
  mirrors p q → (∀ a, mirrors (f a) (g a)) → mirrors (prog_bind p f) (prog_bind q g).
Proof.
  intros Hm Hf. induction Hm as [p|X e k k' _ IH|sec sec' k k' E _ IH|sec sec' k k' E _ IH]; simpl.
  - induction p as [a|X e k IH]; [apply Hf|]. simpl. by apply mirrors_vis.
  - by apply mirrors_vis.
  - by apply mirrors_create.
  - by apply mirrors_update.
Qed.

(** Walk two programs together. *)
Create HintDb mirrors.
Ltac mirror_step :=
  lazymatch goal with
  | |- mirrors ?p ?p => apply mirrors_refl
  | |- mirrors (prog_bind _ _) (prog_bind _ _) => apply mirrors_bind; [|intros ?]
  | |- mirrors (match ?x with _ => _ end) (match ?x with _ => _ end) => destruct x
  | |- mirrors (trigger (CreateSecret _)) (trigger _) => apply mirrors_create; [|intros ?]
  | |- mirrors (trigger (UpdateSecret _)) (trigger _) => apply mirrors_update; [|intros ?]
  end.
Ltac mirror := repeat first [mirror_step | solve [eauto with mirrors] | solve [apply mirrors_refl]].

(** ** Requests that differ in secret values *)
Definition with_body (r : ApiRequest) (body : list ascii) : ApiRequest :=
  {| api_Req := {| req_Cookies := req_Cookies (api_Req r); req_RemoteAddr := req_RemoteAddr (api_Req r);
                   req_TLS := req_TLS (api_Req r); req_ForwardedProto := req_ForwardedProto (api_Req r);
                   req_Query := req_Query (api_Req r); req_Body := body |};
     api_Name := api_Name r; api_Build := api_Build r; api_Path := api_Path r; api_Host := api_Host r;
     api_Method := api_Method r; api_Header := api_Header r; api_ContentLength := api_ContentLength r; api_ReqID := api_ReqID r |}.

Definition with_token (req : secretStoreWriteRequest) (token : string) : secretStoreWriteRequest :=
  {| sw_Name := sw_Name req; sw_Server := sw_Server req; sw_Path := sw_Path req; sw_Version := sw_Version req; sw_Token := token |}.

(** The same environment keys, or the same store with a token or without one. *)
Definition alike `{ApiLib} (route : ApiRoute) (b1 b2 : list ascii) : Prop :=
  match route with
  | PutEnv => ∃ q1 q2, decode_setEnv apiMaxBodyBytes b1 = Some q1 ∧ decode_setEnv apiMaxBodyBytes b2 = Some q2 ∧
      dom (se_Secrets q1) = dom (se_Secrets q2)
  | PostStore | PutStore => ∃ q token, decode_secretStoreWrite apiMaxBodyBytes b1 = Some q ∧
      decode_secretStoreWrite apiMaxBodyBytes b2 = Some (with_token q token) ∧ (sw_Token q = "" ↔ token = "")
  | _ => False
  end.

Lemma redact_same m ty d1 d2 :
  dom d1 = dom d2 →
  redact {| sec_Meta := m; sec_Type := ty; sec_Data := d1 |} = redact {| sec_Meta := m; sec_Type := ty; sec_Data := d2 |}.
Proof.
  intros Hd. unfold redact. simpl. f_equal. apply map_eq. intros k. rewrite !lookup_fmap.
  assert (is_Some (d1 !! k) ↔ is_Some (d2 !! k)) as Hs by by rewrite <- !elem_of_dom, Hd.
  destruct (d1 !! k), (d2 !! k); try done; exfalso; [destruct (proj1 Hs)|destruct (proj2 Hs)]; done.
Qed.

Section blind.
Context `{ApiLib} (s : ApiConfig) (r : ApiRequest) (b1 b2 : list ascii).

Lemma sortedEnvKeys_dom m1 m2 : dom m1 = dom m2 → sortedEnvKeys m1 = sortedEnvKeys m2.
Proof. intros Hd. unfold sortedEnvKeys. by rewrite Hd. Qed.

Lemma writeEnvSecret_mirrors app m1 m2 : dom m1 = dom m2 → mirrors (writeEnvSecret app m1) (writeEnvSecret app m2).
Proof.
  intros Hd. unfold writeEnvSecret, env_secret. destruct (SetOwnerReference _ _) as [m|]; [|apply mirrors_refl].
  pose proof (redact_same m SecretTypeOpaque m1 m2 Hd). mirror; done.
Qed.
#[local] Hint Resolve writeEnvSecret_mirrors : mirrors.

Lemma setEnv_mirrors user :
  alike PutEnv b1 b2 → mirrors (handleSetEnv user (with_body r b1)) (handleSetEnv user (with_body r b2)).
Proof.
  intros (q1 & q2 & H1 & H2 & Hd). unfold handleSetEnv, decodeAPIJSON. cbn [with_body api_Name api_Req req_Body].
  rewrite H1, H2, (sortedEnvKeys_dom _ _ Hd). case_match; [apply mirrors_refl|]. case_match; [|apply mirrors_refl].
  unfold write_env, auditEnv. mirror.
Qed.

Lemma credentials_mirrors store t1 t2 allow : mirrors (writeCredentialsSecret store t1 allow) (writeCredentialsSecret store t2 allow).
Proof.
  unfold writeCredentialsSecret, credentials_secret. cbv zeta.
  assert (Hd : redact (credentials_secret store t1) = redact (credentials_secret store t2)).
  { apply redact_same. by rewrite !dom_singleton_L. }
  mirror; exact Hd.
Qed.
#[local] Hint Resolve credentials_mirrors : mirrors.

Lemma validateStore_token q t :
  validateStoreRequest (with_token q t) =
  match validateStoreRequest q with Ok q' => Ok (with_token q' t) | Err e => Err e end.
Proof. unfold validateStoreRequest. cbn [with_token sw_Name sw_Server sw_Path sw_Version]. by repeat case_match. Qed.
Lemma validateStore_keeps q q' : validateStoreRequest q = Ok q' → sw_Token q' = sw_Token q.
Proof. unfold validateStoreRequest. repeat case_match; intros; simplify_eq; done. Qed.

Lemma createStore_mirrors user :
  alike PostStore b1 b2 → mirrors (handleCreateSecretStore user (with_body r b1)) (handleCreateSecretStore user (with_body r b2)).
Proof.
  intros (q & t & H1 & H2 & Ht). unfold handleCreateSecretStore, decodeAPIJSON. cbn [with_body api_Req req_Body].
  rewrite H1, H2, validateStore_token. destruct (validateStoreRequest q) as [q'|] eqn:Hv; [|apply mirrors_refl].
  apply validateStore_keeps in Hv. cbn [with_token sw_Token sw_Name].
  destruct (decide (sw_Token q' = "")) as [E|E]; [rewrite decide_True by (apply Ht; congruence); apply mirrors_refl|].
  rewrite decide_False by (intros Hn; apply E; rewrite Hv; by apply Ht). unfold connect_store. mirror.
Qed.

Lemma updateStore_mirrors user :
  alike PutStore b1 b2 → mirrors (handleUpdateSecretStore user (with_body r b1)) (handleUpdateSecretStore user (with_body r b2)).
Proof.
  intros (q & t & H1 & H2 & Ht). unfold handleUpdateSecretStore, decodeAPIJSON. cbn [with_body api_Req req_Body api_Name].
  rewrite H1, H2. change (with_store_name (with_token q t) (api_Name r)) with (with_token (with_store_name q (api_Name r)) t).
  rewrite validateStore_token. destruct (validateStoreRequest _) as [q'|] eqn:Hv; [|apply mirrors_refl].
  apply validateStore_keeps in Hv. cbn [with_store_name sw_Token] in Hv. cbn [with_token sw_Token].
  destruct (decide (sw_Token q' = "")) as [E|E].
  - rewrite decide_True by (apply Ht; congruence). unfold rewire_store. cbn [with_body api_Name with_token sw_Token].
    mirror. rewrite !decide_True by (first [done|apply Ht; congruence]). apply mirrors_refl.
  - assert (E' : t ≠ "") by (intros Hn; apply E; rewrite Hv; by apply Ht).
    rewrite decide_False by done. unfold rewire_store. cbn [with_body api_Name with_token sw_Token].
    mirror; rewrite !decide_False by done; mirror.
Qed.
End blind.

(** ** Properties *)

