(* ===== verification/ApiUpdates.v ===== *)
(** * What an update may change

    The update handlers read an object, change the part their route is about and write it
    back.  The ghost state of a request is what it has read as the ServiceAccount and the
    Secrets it has stored ([Seen]); each update is held against it ([scoped_app],
    [scoped_db]). *)
From S2P Require Import Prelude Regex GoStrings Effects Kube Api Features GitResolver SourceArchive Database.
From S2P Require Import RateLimit OidcIdentity Session ApiServer ApiPolicy ApiVault ApiApps ApiViews.
From S2P Require Import ApiDatabases ApiGitHub ApiSetup ApiRoutes.
From Stdlib Require Import Ascii.

(** ** The environment *)
Section env.
Context (secretName : string) (keys : list string).

Lemma reconcile_bound env e k :
  k ∈ keys → e ∈ reconcileEnvRefs env secretName keys → env_Name e = k → e = env_ref secretName k.
Proof.
  intros Hk [[[Hn _] _]%list_elem_of_filter|(k' & -> & _)%list_elem_of_fmap]%elem_of_app E; [by rewrite E in Hn|]. simpl in E. by subst.
Qed.
Lemma reconcile_covers env k : k ∈ keys → env_ref secretName k ∈ reconcileEnvRefs env secretName keys.
Proof. intros Hk. apply elem_of_app. right. by apply list_elem_of_fmap_2. Qed.
(** An entry of another name that does not point into the App's Secret stays, in place. *)
Lemma reconcile_keeps env : filter (kept_ref secretName keys) (reconcileEnvRefs env secretName keys) = filter (kept_ref secretName keys) env.
Proof.
  unfold reconcileEnvRefs. rewrite filter_app, list_filter_filter_l by done.
  assert (filter (kept_ref secretName keys) (env_ref secretName <$> keys) = []) as ->; [|by rewrite app_nil_r].
  assert (H : ∀ l, l ⊆ keys → filter (kept_ref secretName keys) (env_ref secretName <$> l) = []).
  { induction l as [|k l IH]; [done|]. intros Hs. rewrite fmap_cons, filter_cons, decide_False; [apply IH; set_solver|].
    intros [Hn _]. apply Hn. simpl. set_solver. }
  by apply H.
Qed.
(** So a retry writes the same environment again. *)
Lemma reconcile_idempotent env :
  reconcileEnvRefs (reconcileEnvRefs env secretName keys) secretName keys = reconcileEnvRefs env secretName keys.
Proof. unfold reconcileEnvRefs at 1. by rewrite reconcile_keeps. Qed.
Lemma reconcile_names env :
  NoDup (env_Name <$> env) → NoDup keys → NoDup (env_Name <$> reconcileEnvRefs env secretName keys).
Proof.
  intros He Hk. unfold reconcileEnvRefs. rewrite fmap_app. apply NoDup_app. split_and!.
  - eapply sublist_NoDup; [exact He|]. apply fmap_sublist, sublist_filter.
  - intros n (e & -> & [[Hn _] _]%list_elem_of_filter)%list_elem_of_fmap (e' & E & (k & -> & Hin)%list_elem_of_fmap)%list_elem_of_fmap.
    simpl in E. by rewrite E in Hn.
  - rewrite <- list_fmap_compose. by rewrite (list_fmap_ext _ id), list_fmap_id.
Qed.
End env.

Lemma sortedEnvKeys_Some secrets keys :
  sortedEnvKeys secrets = Some keys →
  NoDup keys ∧ StronglySorted String.le keys ∧ (∀ k, k ∈ keys ↔ is_Some (secrets !! k)) ∧ Forall (λ k, valid_env_key k = true) keys.
Proof.
  unfold sortedEnvKeys. destruct (forallb _ _) eqn:Hf; [|done]. intros [= <-].
  assert (Hp : merge_sort String.le (elements (dom secrets)) ≡ₚ elements (dom secrets)) by apply merge_sort_Permutation.
  split_and!.
  - rewrite Hp. apply NoDup_elements.
  - apply StronglySorted_merge_sort; apply _.
  - intros k. rewrite Hp, elem_of_elements. apply elem_of_dom.
  - rewrite Hp, Forall_forall. intros k Hk. rewrite forallb_forall in Hf. apply Hf. by apply list_elem_of_In.
Qed.

(** ** What has been seen *)
Definition read_app (c : call ApiE) : option (NamespacedName * App) :=
  match c with
  | Call e x =>
      match e in ApiE X return X → option (NamespacedName * App) with
      | KGet SA k key =>
          match k return result K8sError (obj k) → option (NamespacedName * App) with
          | KApp => λ x, match x with Ok a => Some (key, a) | Err _ => None end
          | _ => λ _, None
          end
      | _ => λ _, None
      end x
  end.
Definition read_db (c : call ApiE) : option (DbKind * NamespacedName * Database) :=
  match c with
  | Call e x =>
      match e in ApiE X return X → option (DbKind * NamespacedName * Database) with
      | KGet SA k key =>
          match k return result K8sError (obj k) → option (DbKind * NamespacedName * Database) with
          | KDatabase d => λ x, match x with Ok db => Some (d, key, db) | Err _ => None end
          | _ => λ _, None
          end
      | _ => λ _, None
      end x
  end.
Definition stored_secret (c : call ApiE) : option Secret :=
  match c with
  | Call e x =>
      match e in ApiE X return X → _ with
      | CreateSecret sec | UpdateSecret sec => λ x, match x with Ok _ => Some sec | Err _ => None end
      | _ => λ _, None
      end x
  end.

Record Seen : Type := {
  seen_apps : list (NamespacedName * App);
  seen_dbs : list (DbKind * NamespacedName * Database);
  seen_secrets : list Secret;
}.
Definition seen_in (tr : list (call ApiE)) : Seen :=
  {| seen_apps := omap read_app tr; seen_dbs := omap read_db tr; seen_secrets := omap stored_secret tr |}.
Definition see (X : Set) (e : ApiE X) (x : X) (st : Seen) : Seen :=
  {| seen_apps := seen_apps st ++ option_list (read_app (Call e x));
     seen_dbs := seen_dbs st ++ option_list (read_db (Call e x));
     seen_secrets := seen_secrets st ++ option_list (stored_secret (Call e x)) |}.

Lemma seen_foldl tr st :
  foldl (step_call see) st tr =
  {| seen_apps := seen_apps st ++ omap read_app tr; seen_dbs := seen_dbs st ++ omap read_db tr;
     seen_secrets := seen_secrets st ++ omap stored_secret tr |}.
Proof.
  revert st. induction tr as [|[X e x] tr IH]; intros st; cbn [foldl]; [by rewrite !app_nil_r; destruct st|].
  rewrite IH. cbn [step_call see seen_apps seen_dbs seen_secrets]. rewrite <- !app_assoc.
  f_equal; f_equal; cbn [omap list_omap]; by destruct (_ (Call e x)).
Qed.

Section scope.
Context `{ApiLib} (s : ApiConfig) (route : ApiRoute) (r : ApiRequest).

(** ** The scope of each route *)
Definition scoped_app (old new : App) (st : Seen) : Prop :=
  match route with
  | PutApp => ∃ spec, new = with_app_spec old spec ∧ app_Source spec = app_Source (app_Spec old) ∧
      app_Build spec = app_Build (app_Spec old)
  | PutSource => ∃ source build, new = with_app_spec old (with_source (app_Spec old) source build) ∧
      ValidateApp (cfg_Features s) (app_Spec new) = None
  | PutEnv => ∃ sec keys, sec ∈ seen_secrets st ∧ sortedEnvKeys (sec_Data sec) = Some keys ∧
      new = with_app_spec old (with_env (app_Spec old)
        (reconcileEnvRefs (app_Env (app_Spec old)) (envSecretName (api_Name r)) keys)) ∧
      length (app_Env (app_Spec new)) ≤ maxEnvVars
  | _ => False
  end.
Definition scoped_db (d : DbKind) (old new : Database) : Prop :=
  match route with
  | PutDatabase d' => d' = d ∧ db_Meta new = db_Meta old ∧ db_Status new = db_Status old ∧
      db_Tool (db_Spec new) = db_Tool (db_Spec old) ∧
      ∀ q, db_StorageSize (db_Spec old) = Some q →
        ∃ q', db_StorageSize (db_Spec new) = Some q' ∧ (q' = q ∨ QuantityCmp q' q ≠ Lt)
  | PutTool d' => d' = d ∧ ∃ on : bool, new = with_db_spec old (with_tool (db_Spec old) (if on then Some true else None))
  | _ => False
  end.

Definition in_scope (X : Set) (e : ApiE X) (st : Seen) : Prop :=
  match e with
  | KUpdate k o =>
      match k return obj k → Prop with
      | KApp => λ new, ∃ old, (app_key (api_Name r), old) ∈ seen_apps st ∧ scoped_app old new st
      | KDatabase d => λ new, ∃ old, (d, app_key (api_Name r), old) ∈ seen_dbs st ∧ scoped_db d old new
      | _ => λ _, True
      end o
  | _ => True
  end.
Definition within (p : prog ApiE Reply) (st : Seen) : Prop := wp in_scope see p (λ _ _, True) st.

(** Programs that update no top-level object. *)
Definition no_update (X : Set) (e : ApiE X) : bool :=
  match e with KUpdate k _ => match k with KApp | KDatabase _ => false | _ => true end | _ => true end.
Lemma no_update_wp {A} (p : prog ApiE A) (Q : A → Seen → Prop) st :
  calls_only no_update p → (∀ a st, Q a st) → wp in_scope see p Q st.
Proof.
  revert st. induction p as [a|X e k IH]; intros st Hp HQ; [apply HQ|]. destruct Hp as [He Hk].
  split; [|intros x; by apply IH]. destruct e as [| | | | |k' o| | | | | | | | | | | | | | | | | | | |]; try done. by destruct k'.
Qed.
#[local] Instance no_update_covers : CoversPlain no_update.
Proof. intros X e. by destruct e. Qed.

Definition updates (route : ApiRoute) : bool :=
  match route with PutApp | PutSource | PutEnv | PutDatabase _ | PutTool _ => true | _ => false end.
Lemma others_no_update user : updates route = false → calls_only no_update (handle s route user r).
Proof.
  destruct route; intros Ht; try discriminate Ht; clear Ht; cbn [handle]; try destruct d; walk_handler.
Qed.
End scope.

(** ** The five updates *)
Section walks.
Context `{ApiLib} (s : ApiConfig) (r : ApiRequest) (user : sessionUser).
Let none : Seen := {| seen_apps := []; seen_dbs := []; seen_secrets := [] |}.

(** After the update nothing more is at stake. *)
#[local] Existing Instance no_update_covers.
Ltac rest := apply no_update_wp; [unfold recordDeploy; calls|done].

Lemma put_app_within : within s PutApp r (handleUpdateApp user r) none.
Proof.
  unfold within, handleUpdateApp. destruct (decodeAPIJSON _ _) as [req|]; [|done]. apply wp_bind. split; [done|].
  intros [app|e]; cbn [wp]; [|rest]. case_decide as Hs; [rest|]. apply wp_bind. split.
  - exists app. split; [by left|]. exists (au_Spec req). split; [done|].
    split; apply dec_stable; intros Hn; apply Hs; [left|right]; congruence.
  - intros u. cbn [wp]. rest.
Qed.
Lemma put_source_within : within s PutSource r (handleUpdateAppSource s user r) none.
Proof.
  unfold within, handleUpdateAppSource. destruct (decodeAPIJSON _ _) as [req|]; [|done]. apply wp_bind. split; [done|].
  intros [app|e]; cbn [wp]; [|rest]. case_decide; [|rest]. unfold resource_app. cbv zeta.
  destruct (ValidateApp _ _) eqn:Hv; [rest|]. apply wp_bind. split.
  - exists app. split; [by left|]. by exists (as_Source req), (as_Build req).
  - intros u. cbn [wp]. rest.
Qed.
Lemma put_database_within d : within s (PutDatabase d) r (handleUpdateDatabase d user r) none.
Proof.
  unfold within, handleUpdateDatabase. destruct (decodeAPIJSON _ _) as [req|]; [|done]. apply wp_bind. split; [done|].
  intros [db|e]; cbn [wp]; [|rest]. destruct (updated_storage _ _) as [size|] eqn:Hsz; [|done]. case_match; [done|].
  unfold save_database. apply wp_bind. split; [|intros u; cbn [wp]; rest]. exists db. split; [by left|]. split_and!; [done..|].
  intros q Hq. cbn [with_db_spec with_tool with_storage db_Spec db_StorageSize]. rewrite Hq in Hsz. unfold updated_storage in Hsz.
  destruct (db_StorageSize (bu_Spec req)) as [w|]; [|injection Hsz as <-; exists q; auto].
  destruct (QuantityCmp w q) eqn:Hc; [| |]; simplify_eq; exists w; split; [done|right; by rewrite Hc|done|right; by rewrite Hc].
Qed.
Lemma put_tool_within d : within s (PutTool d) r (handleUpdateTool d user r) none.
Proof.
  unfold within, handleUpdateTool. destruct (decodeAPIJSON _ _) as [req|]; [|done]. apply wp_bind. split; [done|].
  intros [db|e]; cbn [wp]; [|rest]. unfold save_database. apply wp_bind. split; [|intros u; cbn [wp]; rest].
  exists db. split; [by left|]. split; [done|]. by exists (tu_Enabled req).
Qed.

(** The Secret is stored, with exactly the requested data, before the App refers to it. *)
Lemma env_secret_stored app secrets (Q : option K8sError → Seen → Prop) st :
  (∀ e st', Q (Some e) st') →
  (∀ sec st', seen_apps st' = seen_apps st → sec ∈ seen_secrets st' → sec_Data sec = secrets → Q None st') →
  wp (in_scope s PutEnv r) see (writeEnvSecret app secrets) Q st.
Proof.
  intros HE HQ. unfold writeEnvSecret, env_secret. destruct (SetOwnerReference _ _) as [m|e]; [|apply HE].
  set (sec := {| sec_Meta := m; sec_Type := SecretTypeOpaque; sec_Data := secrets |}).
  apply wp_bind. split; [done|]. intros [[]|e]; cbn [wp].
  - apply (HQ sec); [simpl; by rewrite app_nil_r|apply elem_of_app; right; by left|done].
  - destruct e; try apply HE. apply wp_bind. split; [done|]. intros [[]|e]; cbn [wp]; [|apply HE].
    apply (HQ sec); [simpl; by rewrite !app_nil_r|apply elem_of_app; right; by left|done].
Qed.
Lemma put_env_within : within s PutEnv r (handleSetEnv user r) none.
Proof.
  unfold within, handleSetEnv. cbv zeta. case_match; [done|]. destruct (decodeAPIJSON _ _) as [req|]; [|done].
  destruct (sortedEnvKeys _) as [keys|] eqn:Hk; [|done]. apply wp_bind. split; [done|]. unfold auditEnv.
  intros [app|e]; cbn [wp]; [|rest]. case_match eqn:Hlen; [done|]. apply Nat.ltb_ge in Hlen. unfold write_env, auditEnv.
  apply wp_bind, env_secret_stored; [intros e st; rest|]. intros sec st Ha Hsec Hd. apply wp_bind.
  split; [|intros u; cbn [wp]; rest]. exists app. split; [rewrite Ha; by left|]. exists sec, keys. by rewrite Hd.
Qed.

Lemma handle_within route : within s route r (handle s route user r) none.
Proof.
  destruct (updates route) eqn:Hu; [|apply no_update_wp; [by apply others_no_update|done]].
  destruct route; try discriminate Hu; cbn [handle];
    [apply put_source_within|apply put_app_within|apply put_env_within|apply put_tool_within|apply put_database_within].
Qed.
End walks.

(** ** Properties *)


(** The new environment [new] of an App whose old one is [env]. *)
Definition env_set (app : string) (secrets : gmap string string) (keys : list string) (env new : list EnvVar) : Prop :=
  (∀ k, env_ref (envSecretName app) k ∈ new ↔ is_Some (secrets !! k)) ∧
  (∀ e, e ∈ new → (secretref_Name <$> env_SecretRef e) = Some (envSecretName app) ∨ is_Some (secrets !! env_Name e) →
     e = env_ref (envSecretName app) (env_Name e)) ∧
  filter (kept_ref (envSecretName app) keys) new = filter (kept_ref (envSecretName app) keys) env ∧
  (NoDup (env_Name <$> env) → NoDup (env_Name <$> new)) ∧
  reconcileEnvRefs new (envSecretName app) keys = new.

(** The environment editor sets exactly the variables asked for.  For accepted keys, the
    new environment has, for every requested key and no other, one reference into the
    App's Secret under that key's name; every other variable stays, in its order; names
    stay unique; and saving the same keys again changes nothing. *)
Theorem env_editor_exact env app secrets keys :
  sortedEnvKeys secrets = Some keys → env_set app secrets keys env (reconcileEnvRefs env (envSecretName app) keys).
Proof.
  intros (Hnd & _ & Hk & _)%sortedEnvKeys_Some. unfold env_set. split_and!.
  - intros k. rewrite <- Hk. split; [|apply reconcile_covers].
    intros [[[_ Hn] _]%list_elem_of_filter|(k' & E & ?)%list_elem_of_fmap]%elem_of_app; [by destruct Hn|]. by injection E as <-.
  - intros e Hin [Hs|Hs%Hk]; [|by eapply reconcile_bound].
    apply elem_of_app in Hin as [[[_ Hn] _]%list_elem_of_filter|(k' & -> & _)%list_elem_of_fmap]; [by rewrite Hs in Hn|done].
  - apply reconcile_keeps.
  - intros He. by apply reconcile_names.
  - apply reconcile_idempotent.
Qed.
Lemma env_editor_exact_witness :
  reconcileEnvRefs [env_ref "db" "URL"; env_ref "shop-env" "OLD"] (envSecretName "shop") ["DEBUG"; "URL"] =
    [env_ref "shop-env" "DEBUG"; env_ref "shop-env" "URL"] ∧
  env_ref (envSecretName "shop") "DEBUG" ∈ reconcileEnvRefs [env_ref "db" "URL"; env_ref "shop-env" "OLD"] (envSecretName "shop") ["DEBUG"; "URL"].
Proof.
  split; [vm_compute; reflexivity|].
  apply (env_editor_exact [env_ref "db" "URL"; env_ref "shop-env" "OLD"] "shop" {["DEBUG" := "1"; "URL" := "x"]} ["DEBUG"; "URL"]);
    [vm_compute; reflexivity|by exists "1"].
Defined.
