(* ===== verification/ApiFlows.v ===== *)
(** * Flows through the dashboard API

    What holds of the handlers that lead a request through several steps: uploading a
    source archive ([source_archive.go]), connecting GitHub ([github.go]), connecting an
    identity provider and the wizard's status ([setup.go]). *)
From S2P Require Import Prelude Regex GoStrings Effects Kube Api Features Sha256 GitResolver SourceArchive.
From S2P Require Import Database RateLimit CheckRegistry CheckRun OidcIdentity AesGcm Credentials Session.
From S2P Require Import ApiServer ApiPolicy ApiVault ApiApps ApiViews ApiDatabases ApiGitHub ApiSetup.
From S2P Require Import ApiRoutes ApiAudit ApiUpdates.
From Stdlib Require Import Ascii.

(** ** Uploads *)

(** Calls that write to the archive registry. *)
Definition pushes (X : Set) (e : ApiE X) : bool :=
  match e with
  | ArchiveCall e => match e with PostUpload _ | PutBlob _ _ _ | PutManifest _ _ => true | _ => false end
  | _ => false
  end.
(** The bytes of an upload that arrived whole. *)
Definition received (c : call ApiE) : option (list ascii) :=
  match c with
  | Call e x =>
      match e in ApiE X return X → _ with
      | ReceiveBody _ => λ x, match x.2 with None => Some x.1 | Some _ => None end
      | _ => λ _, None
      end x
  end.
(** The entries of an archive that was opened. *)
Definition opened (c : call ApiE) : option (list ZipFile) :=
  match c with
  | Call e x =>
      match e in ApiE X return X → _ with
      | ArchiveCall e =>
          match e in ArchiveE X return X → _ with
          | OpenZip _ => λ x, match x with Ok files => Some files | Err _ => None end
          | _ => λ _, None
          end
      | _ => λ _, None
      end x
  end.

Section upload.
Context `{UnicodeTables, UrlLib, UrlRefs} (s : ApiConfig) (user : sessionUser) (r : ApiRequest).

(** What must be known before anything is pushed. *)
Definition vetted (data : list ascii) (tr : list (call ApiE)) : Prop :=
  Enabled (cfg_Features s) SourceZip = true ∧ validResourceName (api_Name r) = true ∧
  (∃ app, (app_key (api_Name r), app) ∈ omap read_app tr) ∧ data ∈ omap received tr ∧
  ∃ files info, files ∈ omap opened tr ∧ inspect_files files = Ok info.
Definition push_pre (X : Set) (e : ApiE X) (tr : list (call ApiE)) : Prop := pushes X e = true → ∃ data, vetted data tr.

Lemma vetted_app data tr tr' : vetted data tr → vetted data (tr ++ tr').
Proof. unfold vetted. rewrite !omap_app. intros (? & ? & (app & ?) & ? & files & info & ? & ?). split_and!; [done|done|set_solver|set_solver|]. exists files, info. set_solver. Qed.

Definition created (tr : list (call ApiE)) (rep : Reply) : Prop :=
  rep_Status rep = 201%Z → ∃ data tr1 tru tr2, vetted data tr1 ∧
    tr = tr1 ++ (lift_call (λ X, @ArchiveCall X) <$> tru) ++ tr2 ∧
    exec (Upload (cfg_Archives s) (api_Name r) (header r "X-Orkano-Filename") (Z.of_nat (length data)) (sha256_digest data)) tru None ∧
    rep = of_response (writeJSON [] 201 [("digest", VString (sha256_digest data)); ("fileName", VString (header r "X-Orkano-Filename"))]).

Definition ends (rep : Reply) (tr : list (call ApiE)) : Prop := created tr rep.
Abbreviation uwp p := (wp push_pre hist p ends).

Lemma store_walk tmp data tr :
  vetted data tr → uwp (store_archive s user r (header r "X-Orkano-Filename") tmp data) tr.
Proof.
  intros Hv. apply wp_hist; [intros X e tr' _; exists data; by apply vetted_app|]. intros tr' rep.
  unfold store_archive. intros (o & t1 & -> & Hk). cbn [prog_bind] in Hk. destruct o as [[]|]; [|by destruct Hk as [_ ->]].
  apply exec_bind in Hk as (t2 & t3 & u & -> & (tru & -> & Hu)%exec_lift & Hk).
  destruct Hk as (c & t4 & -> & Hk). cbn [prog_bind] in Hk. apply exec_bind in Hk as (t5 & t6 & [] & -> & _ & -> & ->).
  destruct u; [done|]. destruct c; [done|]. intros _. exists data, (tr ++ [Call (OpenArchive tmp) (Ok tt)]), tru.
  eexists. split; [by apply vetted_app|]. split; [by rewrite <- app_assoc|]. done.
Qed.

Lemma quiet_walk {A} (p : prog ApiE A) (Q : A → list (call ApiE) → Prop) tr :
  calls_only (λ X e, negb (pushes X e)) p → (∀ tr' a, exec p tr' a → Q a (tr ++ tr')) → wp push_pre hist p Q tr.
Proof.
  revert tr. induction p as [a|X e k IH]; intros tr Hp HQ; simpl.
  - rewrite <- (app_nil_r tr). by apply HQ.
  - destruct Hp as [He Hk]. split; [by intros E; rewrite E in He|]. intros x. unfold hist. apply IH; [done|].
    intros tr' a Hex. rewrite <- app_assoc. apply HQ. by exists x, tr'.
Qed.
Lemma auth_pushless {A} (p : prog AuthE A) : calls_only (λ X e, negb (pushes X e)) (auth p).
Proof. apply calls_only_lift. induction p as [|X e k IH]; [done|]. by split. Qed.

(** An exit that answers with [rep0] after an audit entry, or at once. *)
Lemma exit_walk rep0 tr (p : prog ApiE unit) :
  calls_only (λ X e, negb (pushes X e)) p → rep_Status rep0 ≠ 201%Z → uwp (let! _ := p in Ret rep0) tr.
Proof. intros Hp Hs. apply wp_bind, quiet_walk; [done|]. intros tr' [] _. by intros E. Qed.

Lemma receive_walk tr app :
  Enabled (cfg_Features s) SourceZip = true → validResourceName (api_Name r) = true →
  (app_key (api_Name r), app) ∈ omap read_app tr → uwp (receive_archive s user r (header r "X-Orkano-Filename")) tr.
Proof.
  intros Hf Hn Ha. unfold receive_archive. cbv zeta. apply wp_bind. split; [done|]. intros [tmp|]; cbn [lift wp]; [|done].
  apply wp_bind. split; [done|]. intros [data e]. cbn [wp fst snd]. apply wp_bind. split; [done|]. intros c. cbn [lift wp].
  destruct e as [[|]|]; [done|done|]. destruct c; [done|]. case_decide; [done|]. apply wp_bind. split; [done|].
  intros [files|err]; cbn [prog_bind lift wp].
  - destruct (inspect_files files) as [info|] eqn:Hi; [|apply exit_walk; [apply auth_pushless|done]].
    apply store_walk. unfold hist. split_and!; [done|done| | |].
    + exists app. rewrite !omap_app. set_solver.
    + rewrite !omap_app. apply elem_of_app. left. apply elem_of_app. left. apply elem_of_app. right. by left.
    + exists files, info. split; [|done]. rewrite omap_app. apply elem_of_app. right. by left.
  - apply exit_walk; [apply auth_pushless|done].
Qed.

Lemma upload_walk : uwp (handleUploadSourceArchive s user r) (@nil (call ApiE)).
Proof.
  unfold handleUploadSourceArchive. cbv zeta. destruct (validResourceName _) eqn:Hn; cbn [negb]; [|done].
  destruct (Enabled _ _) eqn:Hf; cbn [negb]; [|apply exit_walk; [apply auth_pushless|done]].
  do 3 (case_match; [done|]). apply wp_bind. split; [done|]. intros [app|e]; cbn [wp].
  - eapply receive_walk; [done|done|]. by left.
  - apply exit_walk; [apply auth_pushless|by destruct e].
Qed.
End upload.

(** ** Connecting GitHub *)
Definition updated_secret (c : call ApiE) : option Secret :=
  match c with Call e _ => match e with UpdateSecret sec => Some sec | _ => None end end.
Definition exchanged (c : call ApiE) : option (string * GitHubAppCredentials) :=
  match c with
  | Call e x =>
      match e in ApiE X return X → _ with
      | ExchangeManifest code => λ x, match x with Ok creds => Some (code, creds) | Err _ => None end
      | _ => λ _, None
      end x
  end.
(** The code that was sent to GitHub, whatever came of it. *)
Definition exchanging (c : call ApiE) : option string :=
  match c with Call e _ => match e with ExchangeManifest code => Some code | _ => None end end.

Definition github_secret (creds : GitHubAppCredentials) (sec : Secret) : Prop :=
  sec = {| sec_Meta := new_meta systemNamespace githubAppSecretName ∅ ∅; sec_Type := SecretTypeOpaque;
           sec_Data := {[githubAppIDKey := pretty (gc_ID creds); githubAppPrivateKeyKey := gc_PEM creds]} |} ∨
  sec = {| sec_Meta := new_meta systemNamespace NameWebhook ∅ ∅; sec_Type := SecretTypeOpaque;
           sec_Data := {[KeyWebhookSecret := gc_WebhookSecret creds]} |}.
Definition connect_entry (r : ApiRequest) (actor target outcome : string) (extra : gmap string Value) : AppendAuditEntryParams :=
  {| audit_Actor := if decide (actor = "") then "anonymous" else actor; audit_Action := connectAction;
     audit_Target := target; audit_Outcome := outcome;
     audit_Detail := extra ∪ {["ip" := VString (clientIP (req_RemoteAddr (api_Req r)))]} |}.

Section github.
Context `{UnicodeTables, GitHubJSON, TimeLib} (s : ApiConfig) (r : ApiRequest).
Let cipher : Cipher := srv_Cipher (cfg_Server s).

(** The flow the request's cookie carries: sealed by this dashboard, with a state, and
    not yet expired when the clock was read. *)
Definition carries_flow (tr : list (call ApiE)) (flow : githubFlow) : Prop :=
  ∃ v plain now, cookie_value (api_Req r) githubCookie = Some v ∧ Open cipher v = Ok plain ∧
    unmarshal_githubFlow plain = Some flow ∧ gf_State flow ≠ "" ∧ Call (AuthCall Now) now ∈ tr ∧ (Unix now < gf_Expires flow)%Z.

Lemma readGitHubCookie_exec tr o :
  exec (readGitHubCookie s r) tr o →
  Forall (λ c, call_ok looks_up c = true) tr ∧ ∀ flow, o = Some flow → carries_flow tr flow.
Proof.
  unfold readGitHubCookie, carries_flow. fold cipher. intros Hex.
  destruct (cookie_value _ _) as [v|] eqn:Hv; [|destruct Hex as [-> ->]; done].
  destruct (Open cipher v) as [plain|] eqn:Ho; [|destruct Hex as [-> ->]; done].
  destruct (unmarshal_githubFlow plain) as [flow|] eqn:Hf; [|destruct Hex as [-> ->]; done].
  case_decide as Hst; [destruct Hex as [-> ->]; done|]. destruct Hex as (now & tr1 & -> & -> & ->).
  split; [by repeat constructor|]. intros flow' E. case_decide; [done|]. injection E as <-.
  exists v, plain, now. split_and!; [done..|by left|lia].
Qed.

Lemma connect_failed_exec actor target code tr rep :
  exec (connect_failed r actor target code) tr rep →
  rep = redirectGitHubError r code ∧ omap entry_of tr = [connect_entry r actor target "failure" ∅] ∧
  omap updated_secret tr = [] ∧ omap exchanging tr = [].
Proof.
  intros (t1 & t2 & [] & -> & Ha & -> & ->)%exec_bind. split; [done|]. rewrite app_nil_r.
  destruct Ha as (x & t3 & -> & Ha). cbn [prog_bind] in Ha. by destruct Ha as [-> _].
Qed.

Lemma error_not_connected code : redirectGitHubError r code ≠ github_redirect r "/?github=connected".
Proof.
  intros E%(f_equal (λ rep, match rep_Body rep with Plain (Location t) => t | _ => "" end)). cbn in E. discriminate E.
Qed.

Lemma auth_silent (p : prog AuthE unit) tr x : exec (auth p) tr x → omap updated_secret tr = [] ∧ omap exchanging tr = [].
Proof. intros (tr' & -> & _)%exec_lift. by induction tr' as [|[X e y] tr' IH]. Qed.

Lemma writeGitHubSecrets_exec creds tr x :
  exec (writeGitHubSecrets creds) tr x →
  Forall (github_secret creds) (omap updated_secret tr) ∧ omap exchanging tr = [] ∧
  (is_ok x = true → ∀ sec, github_secret creds sec → sec ∈ omap stored_secret tr).
Proof.
  intros (a & tr1 & -> & Hk). cbn [prog_bind] in Hk. destruct a as [[]|e]; cbn [prog_bind] in Hk.
  - destruct Hk as (b & tr2 & -> & -> & ->). split_and!; [|done|].
    + apply Forall_cons; split; [by left|]. apply Forall_cons; split; [by right|done].
    + destruct b as [[]|]; [|done]. intros _ sec [->| ->]; [by left|by right; left].
  - destruct Hk as [-> ->]. split_and!; [|done|done]. apply Forall_cons; split; [by left|done].
Qed.

Lemma connect_github_exec actor code tr rep :
  exec (connect_github r actor code) tr rep →
  rep_Cookies rep = [clearGitHubCookie r] ∧ rep_Status rep = 302%Z ∧ omap exchanging tr = [code] ∧
  (∀ sec, sec ∈ omap updated_secret tr → ∃ creds, (code, creds) ∈ omap exchanged tr ∧ github_secret creds sec) ∧
  (rep = github_redirect r "/?github=connected" → ∃ creds, (code, creds) ∈ omap exchanged tr ∧
     (∀ sec, github_secret creds sec → sec ∈ omap stored_secret tr) ∧
     connect_entry r actor (gc_Slug creds) "success" {["app_id" := VInt (gc_ID creds)]} ∈ omap entry_of tr).
Proof.
  intros (x & tr1 & -> & Hk). cbn [prog_bind] in Hk. destruct x as [creds|e].
  2:{ apply connect_failed_exec in Hk as (-> & _ & Hu & He).
      change (omap updated_secret (_ :: tr1)) with (omap updated_secret tr1).
      change (omap exchanging (_ :: tr1)) with (code :: omap exchanging tr1).
      rewrite Hu, He. split_and!; [done..| |by intros ?%error_not_connected]. by intros sec ?%not_elem_of_nil. }
  change (omap updated_secret (_ :: tr1)) with (omap updated_secret tr1).
  change (omap exchanging (_ :: tr1)) with (code :: omap exchanging tr1).
  change (omap exchanged (_ :: tr1)) with ((code, creds) :: omap exchanged tr1).
  change (omap stored_secret (_ :: tr1)) with (omap stored_secret tr1).
  change (omap entry_of (_ :: tr1)) with (omap entry_of tr1).
  apply exec_bind in Hk as (t1 & t2 & w & -> & (Hf & Hx & Hst)%writeGitHubSecrets_exec & Hk).
  rewrite !omap_app, Hx. destruct w as [[]|e].
  2:{ apply connect_failed_exec in Hk as (-> & _ & Hu & He). rewrite Hu, He, !app_nil_r.
      split_and!; [done..| |by intros ?%error_not_connected].
      intros sec Hs. rewrite Forall_forall in Hf. exists creds. split; [by left|by apply Hf]. }
  apply exec_bind in Hk as (t3 & t4 & [] & -> & Hr & Hk).
  apply exec_bind in Hk as (t5 & t6 & [] & -> & Ha & -> & ->). rewrite app_nil_r, !omap_app.
  assert (Hq : omap updated_secret t3 = [] ∧ omap exchanging t3 = []).
  { unfold recordGitHubConnected in Hr. destruct Hr as (now & u1 & -> & y1 & u2 & -> & y2 & u3 & -> & y3 & u4 & -> & -> & _). done. }
  destruct Hq as [-> ->]. destruct (auth_silent _ _ _ Ha) as [-> ->]. rewrite !app_nil_r. split_and!; [done..| |].
  - intros sec Hs. rewrite Forall_forall in Hf. exists creds. split; [by left|by apply Hf].
  - intros _. exists creds. split_and!; [by left| |].
    + intros sec Hs. apply elem_of_app. left. by apply Hst.
    + apply elem_of_app. right. apply elem_of_app. right.
      destruct Ha as (y & t7 & -> & Ha). cbn [prog_bind] in Ha. destruct Ha as [-> _]. by left.
Qed.
End github.

(** ** Connecting an identity provider *)
Section idp.
Context `{UnicodeTables, UrlLib, TimeLib, SetupJSON} (s : ApiConfig) (user : sessionUser) (r : ApiRequest).

(** What the dashboard's environment has when it restarts with the Secret mounted. *)
Definition mounted (sec : Secret) (k : string) : string := default "" (sec_Data sec !! k).

Lemma LoadConfig_ext f g : (∀ k, f k = g k) → LoadConfig url_scheme f = LoadConfig url_scheme g.
Proof. intros E. unfold LoadConfig. by rewrite !E. Qed.
Lemma getenv_filtered (env : gmap string string) k : default "" (filter (λ kv, kv.2 ≠ "") env !! k) = getenv env k.
Proof.
  unfold getenv. destruct (env !! k) as [v|] eqn:E.
  - destruct (decide (v = "")) as [->|Hv].
    + assert (filter (λ kv, kv.2 ≠ "") env !! k = None) as ->; [|done]. apply map_lookup_filter_None. right. intros v E'. simpl. congruence.
    + assert (filter (λ kv, kv.2 ≠ "") env !! k = Some v) as ->; [|done]. by apply map_lookup_filter_Some.
  - assert (filter (λ kv, kv.2 ≠ "") env !! k = None) as ->; [|done]. apply map_lookup_filter_None. by left.
Qed.

(** The environment the provider was tried with. *)
Definition discovered (c : call ApiE) : option (gmap string string) :=
  match c with
  | Call e x =>
      match e in ApiE X return X → _ with
      | ValidateOIDC env => λ x, match x with None => Some env | Some _ => None end
      | _ => λ _, None
      end x
  end.

Definition oidc_pre (X : Set) (e : ApiE X) (tr : list (call ApiE)) : Prop :=
  match e with
  | UpdateSecret sec =>
      meta_Namespace (sec_Meta sec) = systemNamespace ∧ meta_Name (sec_Meta sec) = NameOIDC ∧
      ∃ env cfg, env ∈ omap discovered tr ∧ LoadConfig url_scheme (getenv env) = Ok cfg ∧
        LoadConfig url_scheme (mounted sec) = Ok cfg ∧
        oc_RedirectURL cfg = TrimSpace (dashboardBaseURL s r +:+ oidcCallbackPath)
  | _ => True
  end.

Lemma LoadConfig_redirect f cfg : LoadConfig url_scheme f = Ok cfg → oc_RedirectURL cfg = TrimSpace (f EnvRedirectURL).
Proof.
  unfold LoadConfig. cbv zeta. intros E. case_decide; [done|]. do 5 (case_match; [done|]). case_match; [done|]. by injection E as <-.
Qed.

Lemma oidc_walk : wp oidc_pre hist (handleSetupOIDC s user r) (λ _ _, True) (@nil (call ApiE)).
Proof.
  assert (Ha : ∀ A (p : prog AuthE A) (Q : A → list (call ApiE) → Prop) tr,
    (∀ a tr', Q a tr') → wp oidc_pre hist (auth p) Q tr).
  { intros A p Q. induction p as [a|X e k IH]; intros tr HQ; [apply HQ|]. split; [done|]. intros x. by apply IH. }
  unfold handleSetupOIDC. cbv zeta. destruct (decodeAPIJSON _ _) as [req|]; [|done].
  set (env := oidc_env _ _). destruct (LoadConfig _ _) as [cfg|] eqn:Hl; [|by apply wp_bind, Ha].
  apply wp_bind. split; [done|]. intros [e|]; cbn [wp]; [by apply wp_bind, Ha|]. apply wp_bind. split.
  - split_and!; [done..|]. exists env, cfg. split_and!; [by left|done| |].
    + rewrite <- Hl. apply LoadConfig_ext. intros k. unfold mounted. cbn [sec_Data]. apply getenv_filtered.
    + by rewrite (LoadConfig_redirect _ _ Hl).
  - intros [[]|e]; cbn [wp]; [|by apply wp_bind, Ha]. apply wp_bind, Ha. intros now tr. apply wp_bind. split; [done|]. intros y. cbn [wp].
    by apply wp_bind, Ha.
Qed.
End idp.

(** ** The wizard's status *)
Section wizard.
Context `{UnicodeTables, UnstructuredLib, UrlLib, VaultLib, TimeLib, ErrorText, SetupJSON} (s : ApiConfig).

Definition setup_ids : list string :=
  [checkNodesReady; checkAccessModeChosen; checkAdminBootstrapped; checkOIDCConfigured; checkWebhookURLConfigured;
   checkGitHubAppConnected; checkVaultConnected; checkDomainTLSReady; checkFirstAppDeployed].

(** The probes run in the order they were registered, and the graph has no cycle. *)
Lemma setup_order settings pending :
  ∃ reg, register_checks New (setupChecks s settings pending) = Ok reg ∧ Plan reg = Ok (setupChecks s settings pending).
Proof.
  unfold setupChecks, setup_check.
  generalize (probing nodes_probe) (probing (access_probe settings)) (probing admin_probe) (probing (oidc_probe s pending))
    (probing (webhook_probe s)) (probing (github_probe settings)) (probing vault_probe) (probing domain_probe) (probing apps_probe).
  intros. set (cs := [_; _; _; _; _; _; _; _; _]).
  exists (match register_checks New cs with Ok reg => reg | Err _ => New end). split.
  - assert (is_ok (register_checks New cs) = true) by (vm_compute; reflexivity). by destruct (register_checks New cs).
  - vm_compute. reflexivity.
Qed.

Local Abbreviation probed := (probe (λ _, None) (λ _, "")).
(** A check whose requirements are met is probed, and reading changes nothing. *)
Lemma run_loop_probing (c : Check setupReads) cs results run w f :
  Requires c = [] → Probe c = Some (probing f) →
  run_loop (λ _, None) (λ _, "") (c :: cs) results run w =
  run_loop (λ _, None) (λ _, "") cs (<[ID c := (probed c (base_result c) w).1]> results) (run ++ [(probed c (base_result c) w).1]) w.
Proof.
  intros Hr Hp. cbn [run_loop]. unfold run_check. rewrite Hr. cbn [sort_requirements length].
  rewrite !decide_False by lia. unfold probe. rewrite Hp. unfold probing.
  destruct (f w) as [[[] msg]|]; reflexivity.
Qed.

Definition blocked_by (c : Check setupReads) (reqs : list string) : CheckResult :=
  CheckRun.with_outcome (base_result c) OutcomeBlocked ("not run: requirement(s) " +:+ fmt_strings reqs +:+ " did not pass") None reqs.
Definition setup_result (w : setupReads) (c : Check setupReads) : CheckResult :=
  if decide (ID c = checkGitHubAppConnected ∧ cfg_WebhookURL s = "") then blocked_by c [checkWebhookURLConfigured]
  else (probed c (base_result c) w).1.

Lemma run_loop_gated (c : Check setupReads) cs results run w f q qres :
  Requires c = [q] → Probe c = Some (probing f) → results !! q = Some qres → ResOutcome qres ≠ OutcomeSkip →
  run_loop (λ _, None) (λ _, "") (c :: cs) results run w =
  let res := if decide (ResOutcome qres = OutcomePass) then (probed c (base_result c) w).1 else blocked_by c [q] in
  run_loop (λ _, None) (λ _, "") cs (<[ID c := res]> results) (run ++ [res]) w.
Proof.
  intros Hr Hp Hq Hs. cbn [run_loop]. unfold run_check. rewrite Hr. cbn [sort_requirements]. unfold outcome_of. rewrite Hq.
  cbv zeta. unfold probe. rewrite Hp. unfold probing. destruct (decide (ResOutcome qres = OutcomePass)) as [E|E].
  - rewrite E. destruct (f w) as [[[] msg]|]; reflexivity.
  - by destruct (ResOutcome qres).
Qed.

(** What the wizard reports: each probe's verdict on what was read, and GitHub blocked
    while there is no webhook URL. *)
Lemma setup_run settings pending reg w :
  Plan reg = Ok (setupChecks s settings pending) →
  run_setup reg w = Ok (setup_result w <$> setupChecks s settings pending).
Proof.
  intros Hp. unfold run_setup, Run. rewrite Hp. unfold setupChecks.
  do 5 (erewrite run_loop_probing by reflexivity). erewrite run_loop_gated; [|reflexivity|reflexivity|by rewrite lookup_insert_eq|].
  2:{ cbn. unfold webhook_probe. by case_decide. }
  cbv zeta. do 3 (erewrite run_loop_probing by reflexivity). cbn [run_loop fst app fmap list_fmap].
  assert (Hs : ∀ c, ID c ≠ checkGitHubAppConnected → setup_result w c = (probed c (base_result c) w).1).
  { intros c Hc. unfold setup_result. by rewrite decide_False by tauto. }
  rewrite !Hs by discriminate. f_equal. do 5 f_equal. f_equal. unfold setup_result.
  destruct (decide (cfg_WebhookURL s = "")) as [E|E].
  - rewrite decide_False, decide_True; [done..|]. cbn. unfold webhook_probe. by rewrite decide_True.
  - rewrite decide_True, decide_False; [done|tauto|]. cbn. unfold webhook_probe. by rewrite decide_False.
Qed.

Lemma setup_item_id w c : sc_ID (setup_item (setup_result w c)) = ID c.
Proof. unfold setup_result. case_decide; [done|]. cbn [setup_item sc_ID]. by rewrite probe_id. Qed.
Lemma setup_item_github settings w sev summary remediation reqs :
  let item := setup_item (setup_result w (setup_check checkGitHubAppConnected sev summary remediation reqs (github_probe settings))) in
  if decide (cfg_WebhookURL s = "") then sc_Outcome item = "blocked" ∧ sc_Blockers item = [checkWebhookURLConfigured]
  else sc_Blockers item = [] ∧
    sc_Outcome item = if decide (setting settings settingGitHubConnectedAt = "") then "fail" else "pass".
Proof.
  cbv zeta. unfold setup_result. destruct (decide (cfg_WebhookURL s = "")) as [E|E].
  - by rewrite decide_True.
  - rewrite decide_False by tauto. unfold probe. cbn [setup_check Probe]. unfold probing, github_probe.
    by destruct (decide (setting settings settingGitHubConnectedAt = "")).
Qed.
End wizard.

Definition settings_read (c : call ApiE) : option (list (string * string)) :=
  match c with
  | Call e x =>
      match e in ApiE X return X → _ with
      | ListSettings => λ x, match x with Ok rows => Some rows | Err _ => None end
      | _ => λ _, None
      end x
  end.
(** ** Read views *)
Definition pods_listed (c : call ApiE) : option (string * string * string * list string) :=
  match c with
  | Call e x =>
      match e in ApiE X return X → _ with
      | ListPods ns label value => λ x, match x with Ok pods => Some (ns, label, value, pods) | Err _ => None end
      | _ => λ _, None
      end x
  end.
Definition build_read (c : call ApiE) : option (NamespacedName * Build) :=
  match c with
  | Call e x =>
      match e in ApiE X return X → option (NamespacedName * Build) with
      | KGet Viewer k key =>
          match k return result K8sError (obj k) → option (NamespacedName * Build) with
          | KBuild => λ x, match x with Ok b => Some (key, b) | Err _ => None end
          | _ => λ _, None
          end
      | _ => λ _, None
      end x
  end.
(** The rows of a page. *)
Definition page_of (c : call ApiE) : option (Z * Z) :=
  match c with
  | Call e _ =>
      match e with
      | ListAppDeploys arg => Some (ld_Limit arg, ld_Offset arg)
      | ListAuditEntries limit offset => Some (limit, offset)
      | _ => None
      end
  end.

(** The pods a log route may tail: where they live, and the label that selects them. *)
Definition log_scope (route : ApiRoute) (r : ApiRequest) (tr : list (call ApiE)) (ns label value : string) : Prop :=
  match route with
  | GetAppLogs => ns = appsNamespace ∧ label = appPodLabel ∧ value = api_Name r
  | GetDbLogs DPostgres => ns = appsNamespace ∧ label = postgresPodLabel ∧ value = api_Name r
  | GetDbLogs DMongo => ns = appsNamespace ∧ label = mongoPodLabel ∧ value = api_Name r
  | GetBuildLogs => ns = buildsNamespace ∧ label = buildJobPodLabel ∧
      ∃ b ref, (app_key (api_Build r), b) ∈ omap build_read tr ∧ build_AppName (build_Spec b) = api_Name r ∧
        build_JobRef (build_Status b) = Some ref ∧ jobref_Name ref = value
  | _ => False
  end.

Lemma parsePage_bounds r : (1 ≤ (parsePage r).1 ≤ maxPageLimit)%Z ∧ (0 ≤ (parsePage r).2 < 2 ^ 31)%Z.
Proof.
  assert (Hb : ∀ s n, ParseInt10 32 s = Some n → (n < 2 ^ 31)%Z).
  { intros s n. unfold ParseInt10. destruct (match bytes s with [] => _ | _ => _ end) as [neg l].
    destruct (ParseUint10 l) as [m|] eqn:Hm; [|done]. case_decide as Hd; [done|]. intros [= <-].
    assert (Hnn : (0 ≤ m)%Z).
    { assert (Hdig : ∀ l n m, (0 ≤ n)%Z → digits l n = Some m → (0 ≤ m)%Z).
      { induction l0 as [|c l0 IH]; intros n0 m0 Hn; cbn [digits]; [by intros [= <-]|]. case_match; [|done]. apply IH. lia. }
      destruct l; [done|]. by eapply Hdig; [|exact Hm]. }
    change (32 - 1)%Z with 31%Z in Hd. destruct neg; [lia|]. apply Z.nle_gt. intros ?. apply Hd. by left. }
  unfold parsePage, maxPageLimit, defaultPageLimit. cbn [fst snd]. split.
  - destruct (ParseInt10 32 _); [|lia]. case_decide; lia.
  - destruct (ParseInt10 32 (api_query r "offset")) as [n|] eqn:E; [|lia]. apply Hb in E. case_decide; lia.
Qed.

Lemma parseLogOptions_Some r c opts :
  parseLogOptions r c = Some opts →
  (0 ≤ log_TailLines opts ≤ maxTailLines)%Z ∧ (log_Follow opts = true → log_Previous opts = false).
Proof.
  unfold parseLogOptions. intros (x & _ & (f & _ & (p & _ & (n & Hn & [= <-])%bind_Some)%bind_Some)%bind_Some)%bind_Some.
  cbn [log_TailLines log_Follow log_Previous]. split; [|by destruct f, p].
  unfold query_tail, maxTailLines, defaultTailLines in *. case_decide; [simplify_eq; lia|].
  destruct (ParseInt10 64 _); [|done]. case_decide; [done|]. simplify_eq. lia.
Qed.

(** What a stream's handler did. *)
Definition stream_ok (route : ApiRoute) (r : ApiRequest) (tr : list (call ApiE)) (rep : Reply) : Prop :=
  ∀ ns pods opts, rep_Body rep = LogStream ns pods opts →
    (0 ≤ log_TailLines opts ≤ maxTailLines)%Z ∧ (log_Follow opts = true → log_Previous opts = false) ∧
    ∃ label value listed, (ns, label, value, listed) ∈ omap pods_listed tr ∧ pods ⊆ listed ∧ log_scope route r tr ns label value.

Lemma labeled_stream route r ns label value container tr0 tr rep :
  exec (handleLabeledLogs r ns label value container) tr rep → log_scope route r tr0 ns label value → stream_ok route r (tr0 ++ tr) rep.
Proof.
  unfold handleLabeledLogs. intros Hex Hsc. destruct (parseLogOptions _ _) as [opts|] eqn:Ho; [|by destruct Hex as [_ ->]].
  apply parseLogOptions_Some in Ho as [Ht Hf]. destruct Hex as (x & t1 & -> & Hk). cbn [prog_bind] in Hk.
  destruct x as [listed|e]; [|destruct Hk as [_ ->]; by destruct e].
  assert (Hok : ∀ pods, pods ⊆ listed → t1 = [] → stream_ok route r (tr0 ++ Call (ListPods ns label value) (Ok listed) :: t1) (reply 200 (LogStream ns pods opts))).
  { intros pods Hp -> ns' pods' opts' [= <- <- <-]. split_and!; [lia..|done|]. exists label, value, listed.
    rewrite omap_app. split_and!; [apply elem_of_app; right; by left|done|].
    destruct route; try done. destruct Hsc as (-> & -> & b & ref & Hb & ?). split_and!; [done..|].
    exists b, ref. split; [rewrite omap_app; apply elem_of_app; by left|done]. }
  cbv zeta in Hk. case_decide; [destruct Hk as [-> ->]; by apply Hok|].
  destruct (negb (validResourceName _) || _) eqn:Hw; destruct Hk as [-> ->]; [done|]. apply Hok; [|done].
  apply orb_false_elim in Hw as [_ Hw]. apply bool_decide_eq_false in Hw. apply dec_stable in Hw. set_solver.
Qed.

Definition unpaged (X : Set) (e : ApiE X) : bool :=
  match e with ListAppDeploys _ | ListAuditEntries _ _ => false | _ => true end.
#[local] Instance unpaged_covers : CoversPlain unpaged.
Proof. intros X e. by destruct e. Qed.

Definition streams (route : ApiRoute) : bool :=
  match route with GetAppLogs | GetBuildLogs | GetDbLogs _ => true | _ => false end.
Lemma log_routes_ok `{ApiLib} s route user r tr rep :
  streams route = true → exec (handle s route user r) tr rep → stream_ok route r tr rep.
Proof.
  assert (Hl : ∀ route label container, log_scope route r [] appsNamespace label (api_Name r) →
    exec (handleResourceLogs r label container) tr rep → stream_ok route r tr rep).
  { intros ro label container Hsc. unfold handleResourceLogs. case_match; [by intros [_ ->]|]. intros Hex.
    exact (labeled_stream ro _ _ _ _ _ [] _ _ Hex Hsc). }
  destruct route; try discriminate; intros _; cbn [handle].
  - unfold handleBuildLogs. case_match; [by intros [_ ->]|]. intros (x & t & -> & Hk). cbn [prog_bind] in Hk.
    destruct x as [b|e]; [|destruct Hk as [_ ->]; by destruct e]. case_decide as Ha; [by destruct Hk as [_ ->]|].
    destruct (build_JobRef _) as [ref|] eqn:Hr; [|by destruct Hk as [_ ->]].
    case_match; [by destruct Hk as [_ ->]|].
    refine (labeled_stream GetBuildLogs _ _ _ _ _ [_] _ _ Hk _). split_and!; [done..|]. exists b, ref. split_and!; [by left|done..].
  - by apply Hl.
  - destruct d; by apply Hl.
Qed.
(** No other route streams. *)
Definition no_log (rep : Reply) : Prop := match rep_Body rep with LogStream _ _ _ => False | _ => True end.
Lemma k8s_no_log e : no_log (writeK8sError e).
Proof. by destruct e. Qed.
Lemma vault_no_log e : no_log (writeVaultK8sError e).
Proof. by destruct e. Qed.
Lemma policy_no_log e : no_log (writeRepoAllowlistReadError e).
Proof. by destruct e as [[]|]. Qed.
Lemma decode_no_log {A} (decode : Z → list ascii → option A) r rep : decodeAPIJSON decode r = Err rep → no_log rep.
Proof. unfold decodeAPIJSON. destruct (decode _ _); [done|]. by intros [= <-]. Qed.
Lemma cookie_no_log `{GitHubJSON} s r state actor :
  returns (λ x, match x with Err rep => no_log rep | Ok _ => True end) (setGitHubCookie s r state actor).
Proof. intros now. cbn [auth lift prog_bind]. destruct (marshal_githubFlow _); [|done]. apply returns_bind. by intros [?|?]. Qed.
Lemma start_no_log `{UnicodeTables, GitHubJSON} s user r org name : returns no_log (start_github s user r org name).
Proof.
  apply returns_bind. intros [state|]; [|done]. destruct (marshal_manifest _); [|done].
  eapply returns_through; [apply cookie_no_log|]. by intros [ck|rep].
Qed.
Create HintDb replies.
#[local] Hint Resolve k8s_no_log vault_no_log policy_no_log decode_no_log start_no_log : replies.
Ltac reply_step :=
  lazymatch goal with
  | |- returns _ (prog_bind _ (λ a, prog_bind (trigger NameUnlock) _)) =>
      apply (returns_through no_log); [|intros ? ? ?; cbn [prog_bind returns]; assumption]
  | |- returns _ (start_github _ _ _ _ _) => apply start_no_log
  | |- returns _ (prog_bind _ _) => apply returns_bind; intros ?
  | |- returns _ (match ?x with _ => _ end) => destruct x eqn:?
  | |- returns _ (let _ := _ in _) => cbv zeta
  | |- returns _ (Ret _) => cbn [returns]
  | |- no_log (match ?x with _ => _ end) => destruct x
  end.
Lemma no_stream `{ApiLib} s route user r tr rep ns pods opts :
  streams route = false → exec (handle s route user r) tr rep → rep_Body rep = LogStream ns pods opts → False.
Proof.
  intros Ht Hex Hb. assert (Hn : returns no_log (handle s route user r)).
  { clear Hex Hb. destruct route; try discriminate Ht; clear Ht; cbn [handle];
      lazymatch goal with |- returns _ (handleGitHubManifest _ _ _) => unfold handleGitHubManifest | _ => autounfold with handlers end;
      repeat first [reply_step|done|solve [eauto with replies]]. }
  apply (returns_exec _ _ _ _ Hn) in Hex. unfold no_log in Hex. by rewrite Hb in Hex.
Qed.

(** ** Properties *)

(** Only a vetted archive reaches the registry, under its own digest.  A request to
    upload a source archive writes to the archive registry only when the feature is
    enabled, after the App of that name was found, the whole body was received within the
    limit and the archive it makes passed inspection; and a caller told 201 is told the
    SHA-256 of the bytes received, for which the upload to the registry succeeded. *)
Theorem upload_verified `{UnicodeTables, UrlLib, UrlRefs} s user r tr rep :
  exec (handleUploadSourceArchive s user r) tr rep →
  (∀ tr1 c tr2, tr = tr1 ++ c :: tr2 → call_ok pushes c = true → ∃ data, vetted s r data tr1) ∧
  created s r tr rep.
Proof.
  intros Hex. split; [|exact (wp_hist_exec _ _ _ _ _ (upload_walk s user r) Hex)].
  intros tr1 [X e x] tr2 -> Hc. exact (wp_hist_pre _ _ _ _ _ _ _ (upload_walk s user r) Hex Hc).
Qed.

(** C24. The GitHub callback, which no session guards, writes credentials only for a flow this
    dashboard started.  Every callback ends in a redirect that clears the flow cookie;
    GitHub is asked only with the request's code and only when the cookie opens, under the
    dashboard's key, to a flow that has not expired and whose state is the request's; a
    Secret is written only with what GitHub answered; and the caller is sent to the
    success page only when both Secrets were stored and the connection is in the audit
    log under the name of the user who started the flow. *)
Theorem github_connect_bound `{UnicodeTables, GitHubJSON, TimeLib} s r tr rep :
  exec (handleGitHubCallback s r) tr rep →
  rep_Cookies rep = [clearGitHubCookie r] ∧ rep_Status rep = 302%Z ∧
  (∀ code, code ∈ omap exchanging tr → code = api_query r "code" ∧
     ∃ flow, carries_flow s r tr flow ∧ api_query r "state" = gf_State flow) ∧
  (∀ sec, sec ∈ omap updated_secret tr → ∃ code creds, (code, creds) ∈ omap exchanged tr ∧ github_secret creds sec) ∧
  (rep = github_redirect r "/?github=connected" → ∃ flow creds, carries_flow s r tr flow ∧
     (∀ sec, github_secret creds sec → sec ∈ omap stored_secret tr) ∧
     connect_entry r (gf_Actor flow) (gc_Slug creds) "success" {["app_id" := VInt (gc_ID creds)]} ∈ omap entry_of tr).
Proof.
  intros (t1 & t2 & o & -> & [Hl Hf]%readGitHubCookie_exec & Hk)%exec_bind.
  assert (Hq : omap exchanging t1 = [] ∧ omap updated_secret t1 = []).
  { clear Hk Hf. induction Hl as [|[X e x] t1 Hc _ IH]; [done|]. by destruct e. }
  destruct Hq as [Hx Hu]. rewrite !omap_app, Hx, Hu.
  assert (Hfail : ∀ actor code, exec (connect_failed r actor "" code) t2 rep →
    rep_Cookies rep = [clearGitHubCookie r] ∧ rep_Status rep = 302%Z ∧ omap exchanging t2 = [] ∧ omap updated_secret t2 = [] ∧
    rep ≠ github_redirect r "/?github=connected").
  { intros actor code (-> & _ & ? & ?)%connect_failed_exec. split_and!; [done..|]. apply error_not_connected. }
  cbn [app]. cbv zeta in Hk.
  case_decide as He; [apply Hfail in Hk as (? & ? & -> & -> & ?); split_and!; [done|done|set_solver|set_solver|done]|].
  destruct o as [flow|]; [|apply Hfail in Hk as (? & ? & -> & -> & ?); split_and!; [done|done|set_solver|set_solver|done]].
  case_decide as Hst; [apply Hfail in Hk as (? & ? & -> & -> & ?); split_and!; [done|done|set_solver|set_solver|done]|].
  case_decide as Hc; [apply Hfail in Hk as (? & ? & -> & -> & ?); split_and!; [done|done|set_solver|set_solver|done]|].
  assert (Hcar : carries_flow s r (t1 ++ t2) flow).
  { destruct (Hf flow eq_refl) as (v & plain & now & ? & ? & ? & ? & ? & ?). exists v, plain, now. split_and!; try done. set_solver. }
  apply connect_github_exec in Hk as (? & ? & -> & Hs & Hok). split_and!; [done|done| | |].
  - intros code ->%list_elem_of_singleton. split; [done|]. exists flow. split; [done|]. apply dec_stable. tauto.
  - intros sec (creds & ? & ?)%Hs. exists (api_query r "code"), creds. split; [set_solver|done].
  - intros (creds & _ & ? & ?)%Hok. exists flow, creds. split_and!; [done| |set_solver].
    intros sec Hsec. set_solver.
Qed.

(** The flow survives the trip to GitHub: the state in the URL a started flow posts to is
    the one its cookie carries, so that, until fifteen minutes after the start, a
    callback with that cookie, that state and a code is not turned away: it asks GitHub. *)
Theorem github_flow_carried `{UnicodeTables, GitHubJSON, TimeLib} s user r tr rep ck :
  length (cipher_key (srv_Cipher (cfg_Server s))) = aes256KeyLen →
  (∀ f p, marshal_githubFlow f = Ok p → unmarshal_githubFlow p = Some f) →
  exec (handleGitHubManifest s user r) tr rep → ck ∈ rep_Cookies rep →
  ck_Name ck = githubCookie ∧ ck_SameSiteStrict ck = false ∧
  ∃ state now body, Call (AuthCall Now) now ∈ tr ∧
    rep = of_response (writeJSON [ck] 200 [("postUrl", VString (newAppURL s (api_query r "org") state)); ("manifest", VString body)]) ∧
    ∀ r' tr' rep', cookie_value (api_Req r') githubCookie = Some (ck_Value ck) →
      api_query r' "error" = "" → api_query r' "state" = state → state ≠ "" → api_query r' "code" ≠ "" →
      exec (handleGitHubCallback s r') tr' rep' →
      (∀ now', Call (AuthCall Now) now' ∈ tr' → (Unix now' < Unix (now + githubFlowTTL))%Z) →
      omap exchanging tr' = [api_query r' "code"].
Proof.
  intros Hkey Hjson Hex Hck.
  assert (Hstart : ∃ name, exec (start_github s user r (api_query r "org") name) tr rep).
  { unfold handleGitHubManifest in Hex. cbv zeta in Hex.
    repeat (case_match; try (destruct Hex as [_ ->]; by apply not_elem_of_nil in Hck)); eauto. }
  clear Hex. destruct Hstart as [name Hex]. apply exec_bind in Hex as (t1 & t2 & st & -> & _ & Hk).
  destruct st as [state|]; [|destruct Hk as [_ ->]; by apply not_elem_of_nil in Hck].
  destruct (marshal_manifest _) as [body|]; [|destruct Hk as [_ ->]; by apply not_elem_of_nil in Hck].
  apply exec_bind in Hk as (t3 & t4 & c & -> & Hc & -> & ->).
  destruct Hc as (now & t5 & -> & Hc). cbn [auth prog_bind lift] in Hc.
  destruct (marshal_githubFlow _) as [payload|] eqn:Hm; [|destruct Hc as [_ ->]; by apply not_elem_of_nil in Hck].
  apply exec_bind in Hc as (t6 & t7 & sealed & -> & (t8 & -> & Hseal)%exec_lift & -> & ->).
  destruct sealed as [sealed|]; [|by apply not_elem_of_nil in Hck]. apply list_elem_of_singleton in Hck as ->.
  split_and!; [done..|]. exists state, now, body. split_and!; [set_solver|done|].
  apply Seal_Ok in Hseal as (nonce & Hn & ->). intros r' tr' rep' Hv He Hst Hne Hcode Hex Hclock.
  apply exec_bind in Hex as (u1 & u2 & o & -> & Hr & Hk). unfold readGitHubCookie in Hr. rewrite Hv in Hr. cbn [ck_Value github_cookie] in Hr.
  rewrite Open_sealed_with, (Hjson _ _ Hm) in Hr by done. cbn [gf_State gf_Expires] in Hr. rewrite decide_False in Hr by done.
  destruct Hr as (now' & u3 & -> & -> & ->). cbn [auth prog_bind lift] in Hk. assert (Hlt := Hclock now' ltac:(by left)).
  destruct (decide (Unix (now + githubFlowTTL) ≤ Unix now')%Z); [lia|]. cbv zeta in Hk. rewrite He, Hst in Hk. cbn [gf_State] in Hk.
  case_decide as E1; [done|]. case_decide as E2; [by destruct E2|]. case_decide as E3; [done|].
  apply connect_github_exec in Hk as (_ & _ & Hx & _). by rewrite omap_app, Hx.
Qed.

(** Single sign-on is set up only with a configuration that works.  The setup route
    writes no Secret but the OIDC one, and writes it only after the provider answered for
    that configuration; and what it writes is what a restarted dashboard loads: reading
    the Secret back gives the very configuration that was tried, complete and with a
    redirect to this dashboard's callback. *)
Theorem oidc_setup_loadable `{UnicodeTables, UrlLib, TimeLib, SetupJSON} s user r tr rep tr1 c tr2 sec :
  exec (handleSetupOIDC s user r) tr rep → tr = tr1 ++ c :: tr2 → updated_secret c = Some sec →
  meta_Name (sec_Meta sec) = NameOIDC ∧
  ∃ env cfg, env ∈ omap discovered tr1 ∧ LoadConfig url_scheme (getenv env) = Ok cfg ∧
    LoadConfig url_scheme (mounted sec) = Ok cfg ∧ valid_Config url_scheme cfg ∧
    oc_RedirectURL cfg = TrimSpace (dashboardBaseURL s r +:+ oidcCallbackPath).
Proof.
  intros Hex -> Hc. pose proof (wp_hist_pre _ _ _ _ _ _ _ (oidc_walk s user r) Hex) as Hp.
  destruct c as [X e x]. destruct e; try done. injection Hc as ->. destruct Hp as (_ & Hn & env & cfg & ? & Hl & ? & ?).
  split; [done|]. exists env, cfg. split_and!; try done. by apply LoadConfig_Ok in Hl as [? _].
Qed.

(** The wizard's status is complete and honest about order: once settings and policy are
    readable the reply is 200 whatever the cluster answers to the probes, with the nine
    checks in their fixed order; connecting GitHub is reported blocked by the missing
    webhook URL until there is one, and from then on passes exactly when a connection is
    recorded. *)
Theorem setup_status_complete
    `{UnicodeTables, UnstructuredLib, UrlLib, VaultLib, TimeLib, ErrorText} s rows cm raw repositories tr rep :
  exec (handleSetupStatus s) tr rep → omap settings_read tr = [rows] → omap policy_read tr = [cm] →
  cm_Data cm !! policyDataKey = Some raw → RepoAllowlist.Parse raw = Ok repositories →
  let settings : gmap string string := foldl (λ m row, <[row.1 := row.2]> m) ∅ rows in
  ∃ st item, rep = reply 200 (SetupBody st) ∧ sc_ID <$> st_Checks st = setup_ids ∧
    st_Checks st !! 5 = Some item ∧ sc_ID item = checkGitHubAppConnected ∧
    if decide (cfg_WebhookURL s = "") then sc_Outcome item = "blocked" ∧ sc_Blockers item = [checkWebhookURLConfigured]
    else sc_Blockers item = [] ∧
      sc_Outcome item = if decide (setting settings settingGitHubConnectedAt = "") then "fail" else "pass".
Proof.
  intros Hex Hrows Hcm Hraw Hparse settings. destruct Hex as (x & t1 & -> & Hk). cbn [prog_bind] in Hk.
  destruct x as [rows'|e]; [|by destruct Hk as [-> ->]].
  change (omap settings_read (_ :: t1)) with (rows' :: omap settings_read t1) in Hrows. injection Hrows as -> Hrows.
  change (omap policy_read (_ :: t1)) with (omap policy_read t1) in Hcm.
  destruct Hk as (y & t2 & -> & Hk). cbn [prog_bind] in Hk.
  destruct y as [cm'|e]; cbn [prog_bind] in Hk.
  2:{ destruct Hk as [-> ->]. discriminate Hcm. }
  change (omap policy_read (_ :: t2)) with (cm' :: omap policy_read t2) in Hcm. injection Hcm as -> Hcm.
  rewrite Hraw in Hk. rewrite Hparse in Hk. cbn [prog_bind] in Hk.
  destruct (setup_order s settings (oidcRestartPending s settings)) as (reg & Hreg & Hplan). fold settings in Hk.
  rewrite Hreg in Hk. apply exec_bind in Hk as (t3 & t4 & w & -> & _ & -> & ->).
  rewrite (setup_run s _ _ reg w Hplan). eexists _, _. split; [reflexivity|]. split; [|split; [reflexivity|]].
  - cbn [setup_status st_Checks]. change (@map CheckResult) with (@fmap list _ CheckResult). rewrite <- !list_fmap_compose. 
    unfold setupChecks. cbn [fmap list_fmap compose]. by rewrite !setup_item_id.
  - rewrite setup_item_id. split; [done|]. apply setup_item_github.
Qed.

(** What a read can see is bounded, and a log belongs to its route.  Every page the API
    asks the database for has between 1 and 200 rows at a 32-bit offset, whatever the
    query says; a log stream tails at most 5000 lines, never follows a terminated
    container, and tails only pods that were just listed under the label of the App or
    database named in the path, or, for a build, of the Job of a Build of that App. *)
Theorem reads_bounded `{ApiLib} s route user r tr rep :
  exec (handle s route user r) tr rep →
  (∀ limit offset, (limit, offset) ∈ omap page_of tr → (1 ≤ limit ≤ maxPageLimit)%Z ∧ (0 ≤ offset < 2 ^ 31)%Z) ∧
  stream_ok route r tr rep.
Proof.
  intros Hex. split.
  - intros limit offset Hin. assert (Hno : calls_only unpaged (handle s route user r) → (1 ≤ limit ≤ maxPageLimit)%Z ∧ (0 ≤ offset < 2 ^ 31)%Z).
    { intros Hp. exfalso. apply list_elem_of_omap in Hin as ([X e x] & Hc & Hpg).
      pose proof (calls_only_exec _ _ _ _ Hp Hex) as Hall. rewrite Forall_forall in Hall. specialize (Hall _ Hc). by destruct e. }
    pose proof (parsePage_bounds r) as Hb.
    destruct route; try solve [apply Hno; cbn [handle]; try destruct d; walk_handler]; cbn [handle] in Hex.
    + unfold handleListDeploys in Hex. destruct (parsePage r) as [lim off]. destruct Hex as (x & t & -> & -> & _).
      apply list_elem_of_singleton in Hin as [= -> ->]. exact Hb.
    + unfold handleListAudit in Hex. destruct (parsePage r) as [lim off]. destruct Hex as (x & t & -> & -> & _).
      apply list_elem_of_singleton in Hin as [= -> ->]. exact Hb.
  - destruct (streams route) eqn:Hs; [by eapply log_routes_ok|]. intros ns pods opts Hb. exfalso. by eapply no_stream.
Qed.
