(* ===== verification/ApiExample.v ===== *)
(** * A small cluster behind the dashboard API

    One App, one database and their Secrets, in a world that answers every call of the
    API ([cluster]): the theorems of the API files at concrete requests, and what happens
    to a database whose connection Secret has the name of an App's environment Secret. *)
From S2P Require Import Prelude Regex GoStrings RepoAllowlist Effects Kube Api Features Sha256 GitResolver.
From S2P Require Import SourceArchive DomainController Database PostgresController RateLimit OidcIdentity.
From S2P Require Import AesGcm Credentials Session Auth ApiServer ApiPolicy ApiVault ApiApps ApiViews.
From S2P Require Import ApiDatabases ApiGitHub ApiSetup ApiRoutes ApiAudit ApiNames ApiBlind ApiUpdates.
From S2P Require Import ApiFlows.
From Stdlib Require Import Ascii.

Module ApiExample.
(** ** Libraries *)
Definition registry : URL :=
  {| u_Scheme := "https"; u_Opaque := ""; u_HasUser := false; u_Host := "registry"; u_Path := "";
     u_RawPath := ""; u_ForceQuery := false; u_RawQuery := ""; u_Fragment := "" |}.
Definition field (o : Any) (path : list string) : option Any :=
  foldl (λ v key, match v with Some (AnyMap m) => any_field m key | _ => None end) (Some o) path.

Definition source : Source :=
  {| source_GitHub := Some {| github_Repo := "acme/shop"; github_Ref := "main" |}; source_Git := None;
     source_Upload := None; source_SubPath := "" |}.
Definition strategy : BuildStrategy :=
  {| strategy_Strategy := "Nixpacks"; strategy_Dockerfile := None; strategy_Static := None; strategy_Nixpacks := None |}.
Definition app_spec : AppSpec :=
  {| app_Source := source; app_Build := strategy; app_Type := "Web"; app_Command := []; app_Port := None; app_Replicas := None;
     app_Env := []; app_Resources := None; app_HealthCheck := None |}.
Definition db_spec : DatabaseSpec := {| db_Version := ""; db_StorageSize := None; db_Tool := None |}.
Definition flow : githubFlow :=
  {| gf_State := EncodeToString (replicate 16 (byte 0)); gf_Actor := "ada"; gf_Expires := Unix (25 * Minute) |}.
#[local] Instance githubFlow_eq_dec : EqDecision githubFlow.
Proof. solve_decision. Defined.
Definition oidc_request : setupOIDCRequest :=
  {| so_Issuer := "https://idp"; so_ClientID := "orkano"; so_ClientSecret := "s3cret"; so_AllowedEmails := "ada@acme.io";
     so_AllowedGroups := ""; so_Scopes := ""; so_GroupsClaim := "" |}.

(** Each decoder knows one request; a secret environment has its value from the body. *)
Definition lib : ApiLib := {|
  api_unicode := ascii_tables;
  api_kube := sample_kube_lib;
  api_quantity := PostgresExample.sample_quantities;
  api_unstructured := {|
    NestedInt64 _ _ := Ok None;
    NestedSlice o path := match field o path with Some (AnySlice l) => Ok l | Some _ => Err "not a slice" | None => Ok [] end;
    GetName o := any_string (field o ["metadata"; "name"]) |};
  api_url := {|
    ParseURL _ := Ok registry; Hostname := u_Host; Port _ := ""; Query _ := []; Redacted _ := ""; NewRequest _ := None;
    ParseMediaType := Ok; ParseAddr _ := None; AddrString _ := ""; SplitHostPort _ := Err "" |};
  api_refs := {| ResolveReference _ u := u; query_with _ k v := k +:+ "=" +:+ v |};
  api_vault := {|
    NestedString o path := any_string (field o path);
    NestedMapKeys o path := match field o path with Some (AnyMap m) => m.*1 | _ => [] end;
    GetUID _ := "uid"; GetCreationTimestamp _ := None; ParseDuration _ := Some Minute |};
  api_proxy := {| RequestURI := u_Path |};
  api_time := {| FormatRFC3339 := pretty; ParseRFC3339 _ := None |};
  api_text := {| k8s_text _ := "error"; db_text _ := "error" |};
  api_app := {| SetOwnerReference owner m := Ok (with_owners m [{| owner_Kind := "App"; owner_Name := meta_Name owner;
                                                                  owner_UID := meta_UID owner; owner_Controller := false |}]) |};
  api_policyJSON := {| decode_updateRepoAllowlist _ _ := Some {| ur_Repositories := Some ["acme/shop"]; ur_ResourceVersion := "7" |} |};
  api_vaultJSON := {|
    decode_secretStoreWrite _ body := Some {| sw_Name := "vault"; sw_Server := "https://vault"; sw_Path := "kv"; sw_Version := "";
                                              sw_Token := of_bytes body |};
    decode_externalSecretCreate _ _ := None |};
  api_appJSON := {|
    decode_appCreate _ _ := Some {| ac_Name := "shop"; ac_Spec := app_spec |};
    decode_appUpdate _ _ := Some {| au_Spec := app_spec |};
    decode_appSourceUpdate _ _ := None;
    decode_setEnv _ body := Some {| se_Secrets := {["DEBUG" := of_bytes body]} |};
    decode_domainCreate _ _ := None |};
  api_databaseJSON := {|
    decode_databaseCreate _ _ body := Some {| bc_Name := of_bytes body; bc_Spec := db_spec |};
    decode_databaseUpdate _ _ _ := None;
    decode_toolUpdate _ _ _ := None |};
  api_githubJSON := {|
    marshal_manifest _ := Ok "manifest";
    marshal_githubFlow f := if decide (f = flow) then Ok "flow" else Err "not the flow";
    unmarshal_githubFlow p := if decide (p = "flow") then Some flow else None;
    unmarshal_conversion _ := Err "" |};
  api_setupJSON := {| decode_accessMode _ _ := Some {| am_Mode := "proxy" |}; decode_setupOIDC _ _ := Some oidc_request |};
|}.
#[local] Existing Instance lib.

(** ** The cluster *)
Record cluster : Type := {
  cl_Apps : list string;
  cl_Databases : list (DbKind * string);
  cl_Stores : list string;
  (** the Secrets of [orkano-apps], by name *)
  cl_Secrets : gmap string Secret;
}.
Definition with_secrets (c : cluster) (m : gmap string Secret) : cluster :=
  {| cl_Apps := cl_Apps c; cl_Databases := cl_Databases c; cl_Stores := cl_Stores c; cl_Secrets := m |}.
Definition with_database (c : cluster) (d : DbKind) (n : string) : cluster :=
  {| cl_Apps := cl_Apps c; cl_Databases := (d, n) :: cl_Databases c; cl_Stores := cl_Stores c; cl_Secrets := cl_Secrets c |}.

Definition found {A} (b : bool) (a : A) : result K8sError A := if b then Ok a else Err KNotFound.
Definition stored (c : cluster) (k : Kind) (n : string) : result K8sError (obj k) :=
  match k return result K8sError (obj k) with
  | KApp => found (bool_decide (n ∈ cl_Apps c)) (new_app n app_spec)
  | KDatabase d => found (bool_decide ((d, n) ∈ cl_Databases c)) (new_database n db_spec)
  | KSecretStore => found (bool_decide (n ∈ cl_Stores c)) (eso_object secretStoreKind n (AnyMap []))
  | _ => Err KNotFound
  end.
Definition policy : ConfigMap := {| cm_Key := policy_key; cm_ResourceVersion := "7"; cm_Data := {[policyDataKey := "acme/old"]} |}.

Definition archive_bytes : list ascii := bytes "PK".
Definition serve (X : Set) (e : ApiE X) (c : cluster) : X * cluster :=
  match e in ApiE X return X * cluster with
  | AuthCall e => ((SessionExample.store (Some (6 * Minute)%Z) _ e tt).1, c)
  | ArchiveCall e => ((ArchiveExample.world _ e []).1, c)
  | KGet _ k key => (stored c k (key_Name key), c)
  | KList _ _ _ => (Ok [], c)
  | KCreate k o =>
      (Ok o, match k return obj k → cluster with KDatabase d => λ o, with_database c d (meta_Name (db_Meta o)) | _ => λ _, c end o)
  | KUpdate _ o => (Ok o, c)
  | KDelete _ _ => (Ok tt, c)
  | CreateSecret sec =>
      let n := meta_Name (sec_Meta sec) in
      match cl_Secrets c !! n with
      | Some _ => (Err KAlreadyExists, c)
      | None => (Ok tt, with_secrets c (<[n := sec]> (cl_Secrets c)))
      end
  | UpdateSecret sec =>
      let n := meta_Name (sec_Meta sec) in
      if decide (meta_Namespace (sec_Meta sec) = systemNamespace) then (Ok tt, c)
      else match cl_Secrets c !! n with
      | Some _ => (Ok tt, with_secrets c (<[n := sec]> (cl_Secrets c)))
      | None => (Err KNotFound, c)
      end
  | GetConfigMap _ => (Ok policy, c)
  | UpdateConfigMap cm => (Ok cm, c)
  | ListNodes => (Ok [], c)
  | EnqueueManualDelivery _ => (Ok 1%Z, c)
  | RecordDeploy _ => (Ok tt, c)
  | ListAppDeploys _ => (Ok [], c)
  | ListAuditEntries _ _ => (Ok [], c)
  | ListSettings => (Ok [], c)
  | UpsertSetting _ _ => (Ok tt, c)
  | NameLock => (tt, c)
  | NameUnlock => (tt, c)
  | ReceiveBody _ => ((archive_bytes, None), c)
  | OpenArchive _ => (Ok tt, c)
  | CloseArchive => (None, c)
  | ExchangeManifest _ => (Ok {| gc_ID := 42; gc_Slug := "orkano-acme"; gc_PEM := "pem"; gc_WebhookSecret := "whsec" |}, c)
  | ValidateOIDC _ => (None, c)
  | ListPods _ _ _ => (Ok ["shop-1"], c)
  end.

Definition config : ApiConfig :=
  {| cfg_Server := AuthExample.server; cfg_Features := {| enabled := {[SourceZip]} |}; cfg_Archives := registry;
     cfg_WebhookURL := "https://hooks.acme.io"; cfg_PublicURL := "https://orkano.acme.io"; cfg_GitHubBaseURL := ""; cfg_started := 0 |}.
Definition with_query (q : list (string * string)) (cookies : list (string * string)) (body : string) (name : string) : ApiRequest :=
  {| api_Req := {| req_Cookies := cookies; req_RemoteAddr := "10.0.0.7:5000"; req_TLS := true; req_ForwardedProto := "";
                   req_Query := q; req_Body := bytes body |};
     api_Name := name; api_Build := ""; api_Path := ""; api_Host := "orkano.acme.io"; api_Method := "PUT";
     api_Header := {["X-Orkano-Filename" := "shop.zip"; "Content-Type" := "application/zip"]};
     api_ContentLength := 2; api_ReqID := "req-1" |}.
Definition request (name body : string) : ApiRequest := with_query [] [(sessionCookie, "tok")] body name.

Definition small : cluster := {| cl_Apps := ["shop"]; cl_Databases := []; cl_Stores := []; cl_Secrets := ∅ |}.
Definition served (route : ApiRoute) (r : ApiRequest) (c : cluster) : Reply * list (call ApiE) * cluster :=
  run serve (mountAPIRoutes config route r) c.
Lemma api_served_exec route r c : exec (mountAPIRoutes config route r) (served route r c).1.2 (served route r c).1.1.
Proof. apply run_exec. Qed.
Example env_set : rep_Status (served PutEnv (request "shop" "1") small).1.1 = 200%Z ∧ length (served PutEnv (request "shop" "1") small).1.2 = 11.
Proof. split; vm_compute; reflexivity. Qed.

(** A database's connection Secret, as the operator writes it. *)
Definition connection (kind name : string) : Secret :=
  {| sec_Meta := with_owners (new_meta appsNamespace name ∅ ∅)
       [{| owner_Kind := kind; owner_Name := name; owner_UID := "db"; owner_Controller := true |}];
     sec_Type := SecretTypeOpaque; sec_Data := {[SecretKeyPassword := "hunter2"]} |}.
(** A connected store next to a database of the name of its credentials. *)
Definition beside (d : DbKind) : cluster :=
  {| cl_Apps := []; cl_Databases := [(d, "vault-credentials")]; cl_Stores := ["vault"];
     cl_Secrets := {["vault-credentials" := connection (kind_name d) "vault-credentials"]} |}.
Definition password (c : cluster) (name : string) : option string := sec ← cl_Secrets c !! name; sec_Data sec !! SecretKeyPassword.

(** The callback of the flow the dashboard started. *)
Definition callback : ApiRequest :=
  with_query [("state", gf_State flow); ("code", "c0de")] [(githubCookie, sealed_with AuthExample.cipher (replicate 12 (byte 0)) "flow")] "" "".
Definition handled {A} (p : prog ApiE A) : A * list (call ApiE) * cluster := run serve p small.
Lemma handled_exec {A} (p : prog ApiE A) : exec p (handled p).1.2 (handled p).1.1.
Proof. apply run_exec. Qed.
(** The same world with an audit log that refuses every entry. *)
Definition full_log (X : Set) (e : ApiE X) (c : cluster) : X * cluster :=
  match e in ApiE X return X * cluster → X * cluster with
  | AuthCall e =>
      match e in AuthE X return X * cluster → X * cluster with
      | AppendAuditEntry _ => λ _, (Err (DbFailure "no space left"), c)
      | _ => λ a, a
      end
  | _ => λ a, a
  end (serve X e c).
Definition ada : sessionUser := {| su_ID := 7; su_Username := "ada"; su_OIDC := false |}.
End ApiExample.

(** ** Properties at concrete requests *)
#[local] Existing Instance ApiExample.lib.
Abbreviation ex_env := (ApiExample.served PutEnv (ApiExample.request "shop" "1") ApiExample.small).

Lemma api_gated_witness : ∃ user sess, signed_in (ApiExample.request "shop" "1") ex_env.1.2 user sess.
Proof.
  refine (proj2 (api_gated ApiExample.config PutEnv _ _ _ (ApiExample.api_served_exec _ _ _) _) _); [discriminate|].
  vm_compute. intros Hin. by repeat (inversion Hin; clear Hin; subst; rename select (_ ∈ _) into Hin).
Defined.

Abbreviation ex_put := (ApiExample.served PutAllowlist (ApiExample.request "" "") ApiExample.small).

Lemma names_unique_witness :
  let free : World := {| w_Objects _ := ∅; w_Lock := None |} in
  one_kind free ∧ ∀ t, w_Lock free = Some t → ∃ (X : Set) (e : ApiE X) k,
    [mountAPIRoutes ApiExample.config PostApp (ApiExample.request "" "")] !! t = Some (Vis e k) ∧ waits X e = false.
Proof.
  intros free. apply (names_unique ApiExample.config free free); [|done|].
  - intros n k1 k2 _ _ Hn. by apply not_elem_of_empty in Hn.
  - apply rtc_once. exact (step_request ApiExample.config free [] PostApp (ApiExample.request "" "")).
Defined.



Abbreviation ex_policy := (ApiExample.handled (handleUpdateRepoAllowlist ApiExample.ada (ApiExample.request "" ""))).
Lemma policy_update_recorded_witness :
  ∃ hash, policy_entry (ApiExample.request "" "") ApiExample.ada "success" hash ∈ omap acknowledged ex_policy.1.2.
Proof.
  destruct (proj2 (policy_update_recorded _ _ _ _ (ApiExample.handled_exec (handleUpdateRepoAllowlist ApiExample.ada (ApiExample.request "" "")))))
    as (hash & _ & Hs & _); [vm_compute; reflexivity|]. exists hash. exact Hs.
Defined.

Abbreviation ex_upload := (ApiExample.handled (handleUploadSourceArchive ApiExample.config ApiExample.ada (ApiExample.request "shop" ""))).
Lemma upload_verified_witness :
  ∃ data tr1, vetted ApiExample.config (ApiExample.request "shop" "") data tr1 ∧
    ex_upload.1.1 = of_response (writeJSON [] 201 [("digest", VString (sha256_digest data)); ("fileName", VString (header (ApiExample.request "shop" "") "X-Orkano-Filename"))]).
Proof.
  destruct (proj2 (upload_verified _ _ _ _ _ (ApiExample.handled_exec
    (handleUploadSourceArchive ApiExample.config ApiExample.ada (ApiExample.request "shop" "")))))
    as (data & tr1 & tru & tr2 & Hv & _ & _ & E); [vm_compute; reflexivity|]. exists data, tr1. split; [exact Hv|exact E].
Defined.

Abbreviation ex_callback := (ApiExample.handled (handleGitHubCallback ApiExample.config ApiExample.callback)).
Lemma github_connect_bound_witness :
  ∃ flow creds, carries_flow ApiExample.config ApiExample.callback ex_callback.1.2 flow ∧
    ∀ sec, github_secret creds sec → sec ∈ omap stored_secret ex_callback.1.2.
Proof.
  destruct (github_connect_bound _ _ _ _ (ApiExample.handled_exec (handleGitHubCallback ApiExample.config ApiExample.callback)))
    as (_ & _ & _ & _ & Hok). destruct Hok as (flow & creds & Hf & Hs & _); [vm_compute; reflexivity|]. exists flow, creds. split; [exact Hf|exact Hs].
Defined.

Abbreviation ex_manifest := (ApiExample.handled (handleGitHubManifest ApiExample.config ApiExample.ada (ApiExample.request "" ""))).
Lemma github_flow_carried_witness :
  ∃ ck, ck ∈ rep_Cookies ex_manifest.1.1 ∧ ck_Name ck = githubCookie ∧ ck_SameSiteStrict ck = false.
Proof.
  assert (Hc : length (rep_Cookies ex_manifest.1.1) = 1) by (vm_compute; reflexivity).
  destruct (rep_Cookies ex_manifest.1.1) as [|ck cks] eqn:E; [discriminate|]. exists ck. split; [by left|].
  destruct (github_flow_carried ApiExample.config ApiExample.ada (ApiExample.request "" "") ex_manifest.1.2 ex_manifest.1.1 ck)
    as (Hn & Hs & _); [reflexivity| |apply ApiExample.handled_exec|rewrite E; by left|split; [exact Hn|exact Hs]].
  intros f p. cbn. case_decide; [|done]. intros [= <-]. by subst.
Defined.

Abbreviation ex_oidc := (ApiExample.handled (handleSetupOIDC ApiExample.config ApiExample.ada (ApiExample.request "" ""))).
Lemma oidc_setup_loadable_witness :
  ∃ sec cfg, sec ∈ omap updated_secret ex_oidc.1.2 ∧ LoadConfig url_scheme (mounted sec) = Ok cfg ∧ valid_Config url_scheme cfg.
Proof.
  destruct (ex_oidc.1.2 !! 1) as [c|] eqn:E; [|vm_compute in E; discriminate].
  assert (Hc : is_Some (c ← ex_oidc.1.2 !! 1; updated_secret c)) by (vm_compute; eauto).
  rewrite E in Hc. destruct Hc as [sec Hc]. cbn in Hc. exists sec.
  destruct (oidc_setup_loadable ApiExample.config ApiExample.ada (ApiExample.request "" "") ex_oidc.1.2 ex_oidc.1.1
    (take 1 ex_oidc.1.2) c (drop 2 ex_oidc.1.2) sec (ApiExample.handled_exec _)) as (_ & env & cfg & _ & _ & Hl & Hv & _);
    [symmetry; by apply take_drop_middle|exact Hc|]. exists cfg. split_and!; [|exact Hl|exact Hv].
  apply list_elem_of_omap. exists c. split; [by eapply list_elem_of_lookup_2|exact Hc].
Defined.

Abbreviation ex_setup := (ApiExample.handled (handleSetupStatus ApiExample.config)).
Lemma setup_status_complete_witness :
  ∃ st, ex_setup.1.1 = reply 200 (SetupBody st) ∧ sc_ID <$> st_Checks st = setup_ids.
Proof.
  destruct (setup_status_complete ApiExample.config [] ApiExample.policy "acme/old" ["acme/old"] ex_setup.1.2 ex_setup.1.1)
    as (st & item & Hr & Hi & _); [apply ApiExample.handled_exec|vm_compute; reflexivity..|]. exists st. split; [exact Hr|exact Hi].
Defined.

Abbreviation ex_logs := (ApiExample.handled (handle ApiExample.config GetAppLogs ApiExample.ada (ApiExample.request "shop" ""))).
Lemma reads_bounded_witness : stream_ok GetAppLogs (ApiExample.request "shop" "") ex_logs.1.2 ex_logs.1.1.
Proof. apply (reads_bounded ApiExample.config GetAppLogs ApiExample.ada). apply ApiExample.handled_exec. Defined.
Example logs_stream : rep_Body ex_logs.1.1 = LogStream "orkano-apps" ["shop-1"]
  {| log_Container := "app"; log_Follow := true; log_Previous := false; log_TailLines := 200 |}.
Proof. vm_compute. reflexivity. Qed.

(** ** One Secret, two owners *)

(** Nothing reserves the name of an App's environment Secret for the App.  Next to an App
    "shop", the API creates a Postgres database "shop-env" whose connection Secret the
    operator then stores under that name; setting a secret variable of the App, which is
    answered 200, replaces that Secret whole, and the database's password is gone. *)
Theorem env_editor_takes_connection_secret :
  let '(created, _, c1) := ApiExample.served (PostDatabase DPostgres) (ApiExample.request "" "shop-env") ApiExample.small in
  let c2 := ApiExample.with_secrets c1 {["shop-env" := ApiExample.connection "Postgres" "shop-env"]} in
  let '(saved, _, c3) := ApiExample.served PutEnv (ApiExample.request "shop" "1") c2 in
  rep_Status created = 201%Z ∧ (DPostgres, "shop-env") ∈ ApiExample.cl_Databases c1 ∧
  ApiExample.password c2 "shop-env" = Some "hunter2" ∧ rep_Status saved = 200%Z ∧
  ApiExample.password c3 "shop-env" = None ∧
  (sec_Data <$> ApiExample.cl_Secrets c3 !! "shop-env") = Some {["DEBUG" := "1"]}.
Proof. vm_compute. split_and!; [reflexivity|by left|reflexivity..]. Qed.

(** The append to the audit log follows the write and is best-effort: with a log that takes
    nothing, saving the environment is answered 200, the App and its Secret are written,
    and no entry is on record. *)
Theorem write_without_entry :
  let '(saved, tr, _) := run ApiExample.full_log (mountAPIRoutes ApiExample.config PutEnv (ApiExample.request "shop" "1")) ApiExample.small in
  rep_Status saved = 200%Z ∧ existsb (call_ok mutates) tr = true ∧ length (omap refused tr) = 1 ∧ length (omap acknowledged tr) = 0.
Proof. vm_compute. done. Qed.

(** The collision guard of a vault's token rotation knows only one of the two kinds of
    database: where the Secret "vault-credentials" belongs to a Postgres the rotation is
    refused with 409 and the password stays; where it belongs to a Mongo the rotation is
    answered 200 and overwrites it. *)
Theorem vault_rotation_ignores_mongo :
  let '(refused, _, kept) := ApiExample.served PutStore (ApiExample.request "vault" "t0ken") (ApiExample.beside DPostgres) in
  let '(done_, _, lost) := ApiExample.served PutStore (ApiExample.request "vault" "t0ken") (ApiExample.beside DMongo) in
  rep_Status refused = 409%Z ∧ ApiExample.password kept "vault-credentials" = Some "hunter2" ∧
  rep_Status done_ = 200%Z ∧ ApiExample.password lost "vault-credentials" = None.
Proof. vm_compute. done. Qed.
