(* ===== verification/GitHubApp.v ===== *)
(** * GitHub App tokens and commits

    Models [operator/internal/githubapp] ([token.go], [repo.go]): minting App JWTs and
    installation tokens, caching them until just before they expire, and resolving the
    commit of a repository from GitHub's API, with the credentials the dashboard's
    connect flow stored.

    The Secret, the clock and HTTP are calls with arbitrary replies; a reply carries what
    reading its body through the 1 MiB limit gave.  PEM, RSA and JSON decoding are
    arguments ([AppLib]).  A token source is its configuration and its cache; the lock
    around minting makes calls follow one another, so a history of the source is a list
    of requests ([resolve_all]).  Only the default HTTP client is modelled. *)
From S2P Require Import Prelude Regex GoStrings Effects Sha256 Kube Api Names Dispatcher RateLimit Session.
From S2P Require Import Credentials ApiServer ApiGitHub.
From Stdlib Require Import Ascii.

(** ** Constants *)
Definition SecretNamespace : string := "orkano-system".
Definition DefaultSecretName : string := "orkano-github-app".
Definition AppIDKey : string := "app-id".
Definition PrivateKeyKey : string := "private-key.pem".
Definition defaultBaseURL : string := "https://api.github.com".
Definition githubAPIVersion : string := "2022-11-28".
Definition jwtBackdate : Z := 60 * Second.
Definition jwtTTL : Z := 8 * Minute.
Definition expiryGuard : Z := 2 * Minute.
Definition httpTimeout : Z := 15 * Second.
Definition maxResponseBytes : Z := Z.shiftl 1 20.
(** [^[0-9a-f]{40}$] *)
Definition commitSHAPattern : re := Rep 40 (Cls is_hex).
(** the zero [time.Time], 1 January of year 1 *)
Definition zeroTime : Z := -62135596800 * Second.

(** ** Calls *)
Record HttpClient : Set := { hc_Timeout : Z; hc_FollowsRedirects : bool; hc_DisableKeepAlives : bool }.
Record HttpRequest : Set := { hr_Method : string; hr_URL : string; hr_Header : list (string * string) }.
Record HttpReply : Set := { hp_StatusCode : Z; hp_Status : string; hp_Body : result string string }.

Inductive AppE : Set → Type :=
| GetSecret (ref : NamespacedName) : AppE (result string (gmap string string))
| Clock : AppE Z
(** a request, and the limit its reply's body is read through *)
| HttpDo (client : HttpClient) (req : HttpRequest) (limit : Z) : AppE (result string HttpReply).

Record cachedToken : Type := { ct_token : string; ct_expires : Z }.
Abbreviation cache := (gmap Z cachedToken).

(** Decoders of the standard library. *)
Class AppLib : Type := {
  RsaKey : Type;
  pem_Decode : string → option string;
  ParsePKCS1PrivateKey : string → option RsaKey;
  (** an RSA key, or the name of the type of another *)
  ParsePKCS8PrivateKey : string → result string (RsaKey + string);
  SignPKCS1v15 : RsaKey → list ascii → result string (list ascii);
  (** why [http.NewRequest] refuses a method and URL *)
  request_error : string → string → option string;
  unmarshal_token : string → result string (string * Z);
  unmarshal_commit : string → result string string;
  unmarshal_installation : string → result string Z;
  unmarshal_repo : string → result string string;
}.

Record TokenSource : Type := { ts_SecretRef : NamespacedName; ts_BaseURL : string }.
Record appCredentials {lib : AppLib} : Type := { appID : Z; app_key : RsaKey }.
Record jwtClaims : Type := { Iat : Z; Exp : Z; Iss : string }.

(** ** JSON of the JWT *)
Definition dq : string := String (byte 34) "".
Definition jstring (s : string) : string := dq +:+ s +:+ dq.
Definition jwtHeader : string :=
  "{" +:+ jstring "alg" +:+ ":" +:+ jstring "RS256" +:+ "," +:+ jstring "typ" +:+ ":" +:+ jstring "JWT" +:+ "}".
(** [json.Marshal]: the issuer is a number in decimal, which nothing escapes *)
Definition marshal_claims (c : jwtClaims) : string :=
  "{" +:+ jstring "iat" +:+ ":" +:+ pretty (Iat c) +:+ "," +:+ jstring "exp" +:+ ":" +:+ pretty (Exp c) +:+ "," +:+
  jstring "iss" +:+ ":" +:+ jstring (Iss c) +:+ "}".

(** ** Paths *)

(** [url.URL.EscapedPath] of a path without a raw form *)
Definition path_safe (c : ascii) : bool := unreserved c || one_of "$&+,/:;=@" c.
Definition EscapedPath (p : string) : string :=
  if decide (p = "*") then "*" else of_bytes (bytes p ≫= λ c, if path_safe c then [c] else escape_byte c).
Definition githubPath (segments : list string) : string := EscapedPath ("/" +:+ Join segments "/").

Definition splitRepo (repo : string) : option (string * string) :=
  match Cut repo "/"%char with
  | Some (owner, name) =>
      if decide (owner = "" ∨ name = "" ∨ Contains name "/" = true) then None else Some (owner, name)
  | None => None
  end.

(** ** Tokens *)
Section tokens.
Context `{UnicodeTables} {lib : AppLib} (s : TokenSource).

Definition secretRef : NamespacedName :=
  if decide (key_Name (ts_SecretRef s) ≠ "") then ts_SecretRef s
  else {| key_Namespace := SecretNamespace; key_Name := DefaultSecretName |}.
Definition baseURL : string := if decide (ts_BaseURL s ≠ "") then ts_BaseURL s else defaultBaseURL.
Definition httpClient : HttpClient :=
  {| hc_Timeout := httpTimeout; hc_FollowsRedirects := false; hc_DisableKeepAlives := true |}.

Definition parseRSAPrivateKey (pemBytes : string) : result string RsaKey :=
  match pem_Decode pemBytes with
  | None => Err "private key is not PEM-encoded"
  | Some block =>
      match ParsePKCS1PrivateKey block with
      | Some key => Ok key
      | None =>
          match ParsePKCS8PrivateKey block with
          | Err e => Err ("parsing private key (tried PKCS#1 and PKCS#8): " +:+ e)
          | Ok (inl key) => Ok key
          | Ok (inr other) => Err ("private key is " +:+ other +:+ ", want an RSA key")
          end
      end
  end.

Definition ref_text : string := key_Namespace secretRef +:+ "/" +:+ key_Name secretRef.
Definition missing_key (key : string) : string := "GitHub App secret " +:+ ref_text +:+ " is missing the " +:+ Quote key +:+ " key".

Definition loadCredentials : prog AppE (result string appCredentials) :=
  let! secret := trigger (GetSecret secretRef) in
  Ret (match secret with
       | Err e => Err ("reading GitHub App secret " +:+ ref_text +:+ ": " +:+ e)
       | Ok data =>
           let rawID := default "" (data !! AppIDKey) in
           if decide (rawID = "") then Err (missing_key AppIDKey)
           else match ParseInt10 64 (TrimSpace rawID) with
           | None => Err ("GitHub App secret " +:+ ref_text +:+ ": " +:+ Quote AppIDKey +:+ " is not a numeric app id")
           | Some id =>
               let pemBytes := default "" (data !! PrivateKeyKey) in
               if decide (pemBytes = "") then Err (missing_key PrivateKeyKey)
               else match parseRSAPrivateKey pemBytes with
               | Err e => Err ("GitHub App secret " +:+ ref_text +:+ ": " +:+ e)
               | Ok key => Ok {| appID := id; app_key := key |}
               end
           end
       end).

Definition claims_at (id now : Z) : jwtClaims :=
  {| Iat := Unix (now - jwtBackdate); Exp := Unix (now + jwtTTL); Iss := pretty id |}.
Definition b64url (t : string) : string := of_bytes (raw_encode url_alphabet (bytes t)).
Definition signing_input (id now : Z) : string := b64url jwtHeader +:+ "." +:+ b64url (marshal_claims (claims_at id now)).
Definition buildAppJWT (id : Z) (key : RsaKey) (now : Z) : result string string :=
  let signingInput := signing_input id now in
  match SignPKCS1v15 key (Sum256 (bytes signingInput)) with
  | Err e => Err ("signing App JWT: " +:+ e)
  | Ok sig => Ok (signingInput +:+ "." +:+ of_bytes (raw_encode url_alphabet sig))
  end.

Definition mintAppJWT : prog AppE (result string string) :=
  let! creds := loadCredentials in
  match creds with
  | Err e => Ret (Err e)
  | Ok creds =>
      let! now := trigger Clock in
      Ret (buildAppJWT (appID creds) (app_key creds) now)
  end.

(** The request both endpoints' callers build. *)
Definition api_request (method authorization path : string) : HttpRequest :=
  {| hr_Method := method; hr_URL := TrimRight baseURL "/" +:+ path;
     hr_Header := [("Authorization", authorization); ("Accept", "application/vnd.github+json");
                   ("X-GitHub-Api-Version", githubAPIVersion)] |}.
Definition tokens_path (id : Z) : string := "/app/installations/" +:+ pretty id +:+ "/access_tokens".
Definition token_request (jwt : string) (id : Z) : HttpRequest := api_request "POST" ("Bearer " +:+ jwt) (tokens_path id).

(** What a reply to the token request means. *)
Definition read_token (id : Z) (resp : result string HttpReply) : result string (string * Z) :=
  match resp with
  | Err e => Err ("requesting installation token: " +:+ e)
  | Ok resp =>
      match hp_Body resp with
      | Err e => Err ("reading installation-token response: " +:+ e)
      | Ok body =>
          if decide (hp_StatusCode resp ≠ 201%Z) then
            Err ("GitHub answered " +:+ hp_Status resp +:+ " minting a token for installation " +:+ pretty id +:+ ": " +:+
                 truncate (TrimSpace body) 256)
          else match unmarshal_token body with
          | Err e => Err ("decoding installation-token response: " +:+ e)
          | Ok (token, expires) =>
              if decide (token = "") then Err "GitHub returned an empty installation token"
              else if decide (expires = zeroTime) then Err "GitHub returned an installation token without an expiry"
              else Ok (token, expires)
          end
      end
  end.

Definition requestInstallationToken (jwt : string) (id : Z) : prog AppE (result string (string * Z)) :=
  let req := token_request jwt id in
  match request_error (hr_Method req) (hr_URL req) with
  | Some e => Ret (Err ("building installation-token request: " +:+ e))
  | None =>
      let! resp := trigger (HttpDo httpClient req maxResponseBytes) in
      Ret (read_token id resp)
  end.

(** The part under the lock, on a cache miss. *)
Definition mint (c : cache) (id : Z) : prog AppE (result string string * cache) :=
  let! jwt := mintAppJWT in
  match jwt with
  | Err e => Ret (Err e, c)
  | Ok jwt =>
      let! t := requestInstallationToken jwt id in
      Ret (match t with
           | Err e => (Err e, c)
           | Ok (token, expires) => (Ok token, <[id := {| ct_token := token; ct_expires := expires |}]> c)
           end)
  end.

Definition InstallationToken (c : cache) (id : Z) : prog AppE (result string string * cache) :=
  if decide (id ≤ 0)%Z then Ret (Err ("installation id must be positive, got " +:+ pretty id), c)
  else match c !! id with
  | Some tok =>
      let! now := trigger Clock in
      if decide (now < ct_expires tok - expiryGuard)%Z then Ret (Ok (ct_token tok), c) else mint c id
  | None => mint c id
  end.

(** ** Repositories *)
Definition failed {A} (e : string) : result ResolveError A := Err (ResolveFailed e).
Definition unresolvable {A} (e : string) : result ResolveError A :=
  Err (Unresolvable (e +:+ ": github: repository or ref cannot be resolved")).

(** What a reply to a GET means, [dec] being the decoder of the expected value. *)
Definition read_json {A} (path : string) (dec : string → result string A) (resp : result string HttpReply)
    : result ResolveError A :=
  match resp with
  | Err e => failed ("github: GET " +:+ path +:+ ": " +:+ e)
  | Ok resp =>
      match hp_Body resp with
      | Err e => failed ("github: reading " +:+ path +:+ " response: " +:+ e)
      | Ok body =>
          if decide (hp_StatusCode resp = 200%Z) then
            match dec body with
            | Err e => failed ("github: decoding " +:+ path +:+ " response: " +:+ e)
            | Ok a => Ok a
            end
          else if decide (hp_StatusCode resp = 404%Z ∨ hp_StatusCode resp = 422%Z) then
            unresolvable ("github: GET " +:+ path +:+ " answered " +:+ hp_Status resp)
          else failed ("github: GET " +:+ path +:+ " answered " +:+ hp_Status resp +:+ ": " +:+ truncate (TrimSpace body) 256)
      end
  end.

Definition getJSON {A} (authorization path : string) (dec : string → result string A)
    : prog AppE (result ResolveError A) :=
  let req := api_request "GET" authorization path in
  match request_error (hr_Method req) (hr_URL req) with
  | Some e => Ret (failed ("github: building request for " +:+ path +:+ ": " +:+ e))
  | None =>
      let! resp := trigger (HttpDo httpClient req maxResponseBytes) in
      Ret (read_json path dec resp)
  end.

Definition installation_path (owner name : string) : string := githubPath ["repos"; owner; name; "installation"].
Definition repo_path (owner name : string) : string := githubPath ["repos"; owner; name].
Definition commit_path (owner name ref : string) : string := githubPath ["repos"; owner; name; "commits"; ref].

Definition installationID (owner name : string) : prog AppE (result ResolveError Z) :=
  let! jwt := mintAppJWT in
  match jwt with
  | Err e => Ret (failed e)
  | Ok jwt =>
      let! inst := getJSON ("Bearer " +:+ jwt) (installation_path owner name) unmarshal_installation in
      Ret (match inst with
           | Err e => Err e
           | Ok id =>
               if decide (id ≤ 0)%Z then
                 unresolvable ("github: installation lookup for " +:+ owner +:+ "/" +:+ name +:+ " returned id " +:+ pretty id)
               else Ok id
           end)
  end.

Definition defaultBranch (token owner name : string) : prog AppE (result ResolveError string) :=
  let! info := getJSON ("Bearer " +:+ token) (repo_path owner name) unmarshal_repo in
  Ret (match info with
       | Err e => Err e
       | Ok branch =>
           if decide (branch = "") then
             unresolvable ("github: " +:+ owner +:+ "/" +:+ name +:+ " response carried no default_branch")
           else if Contains branch ".." then
             unresolvable ("github: " +:+ owner +:+ "/" +:+ name +:+ " default branch " +:+ Quote branch +:+ " contains '..'")
           else Ok branch
       end).

Definition read_commit (token owner name ref : string) : prog AppE (result ResolveError string) :=
  let! commit := getJSON ("Bearer " +:+ token) (commit_path owner name ref) unmarshal_commit in
  Ret (match commit with
       | Err e => Err e
       | Ok sha =>
           if MatchString commitSHAPattern sha then Ok sha
           else unresolvable ("github: commit " +:+ owner +:+ "/" +:+ name +:+ "@" +:+ ref +:+ " resolved to " +:+
                              Quote sha +:+ ", not a 40-char SHA")
       end).

(** With a token: the ref asked for, or the default branch. *)
Definition read_head (token owner name ref : string) : prog AppE (result ResolveError string) :=
  if decide (ref = "") then
    let! branch := defaultBranch token owner name in
    match branch with
    | Err e => Ret (Err e)
    | Ok branch => read_commit token owner name branch
    end
  else read_commit token owner name ref.

Definition ResolveCommit (c : cache) (repo ref : string) : prog AppE (result ResolveError string * cache) :=
  match splitRepo repo with
  | None => Ret (unresolvable ("github: repo " +:+ Quote repo +:+ " is not in owner/name form"), c)
  | Some (owner, name) =>
      if Contains ref ".." then Ret (unresolvable ("github: ref " +:+ Quote ref +:+ " contains '..'"), c)
      else
        let! inst := installationID owner name in
        match inst with
        | Err e => Ret (Err e, c)
        | Ok id =>
            let! t := InstallationToken c id in
            match t with
            | (Err e, c) => Ret (failed e, c)
            | (Ok token, c) =>
                let! sha := read_head token owner name ref in
                Ret (sha, c)
            end
        end
  end.

(** A history of the source: the cache is carried from one request to the next. *)
Fixpoint resolve_all (c : cache) (reqs : list (string * string)) : prog AppE (list (result ResolveError string) * cache) :=
  match reqs with
  | [] => Ret ([], c)
  | (repo, ref) :: reqs =>
      let! r := ResolveCommit c repo ref in
      let! rs := resolve_all r.2 reqs in
      Ret (r.1 :: rs.1, rs.2)
  end.
End tokens.

(** ** Observing executions *)
Definition exchanged (c : call AppE) : option (HttpRequest * result string HttpReply) :=
  match c with
  | Call e x =>
      match e in AppE X return X → _ with
      | HttpDo _ req _ => λ x, Some (req, x)
      | _ => λ _, None
      end x
  end.
Definition clock_read (c : call AppE) : option Z :=
  match c with
  | Call e x => match e in AppE X return X → _ with Clock => λ x, Some x | _ => λ _, None end x
  end.
Definition read_secret (c : call AppE) : option (NamespacedName * result string (gmap string string)) :=
  match c with
  | Call e x => match e in AppE X return X → _ with GetSecret ref => λ x, Some (ref, x) | _ => λ _, None end x
  end.

Section spec.
Context `{UnicodeTables} {lib : AppLib} (s : TokenSource).

(** [tr] mints the App token [jwt]: the credentials are read and signed at the time read. *)
Definition mints (tr : list (call AppE)) (jwt : string) : Prop :=
  ∃ data creds now, tr = [Call (GetSecret (secretRef s)) (Ok data); Call Clock now] ∧
    exec (loadCredentials s) [Call (GetSecret (secretRef s)) (Ok data)] (Ok creds) ∧
    buildAppJWT (appID creds) (app_key creds) now = Ok jwt.

(** GitHub answered the token request of an installation with [tok], good until [exp]. *)
Definition issued (tr : list (call AppE)) (id : Z) (tok : string) (exp : Z) : Prop :=
  ∃ jwt resp, (token_request s jwt id, resp) ∈ omap exchanged tr ∧ read_token id resp = Ok (tok, exp).

Definition cache_ok (tr : list (call AppE)) (c : cache) : Prop :=
  ∀ id t, c !! id = Some t → issued tr id (ct_token t) (ct_expires t).

(** [tok] is the newest GitHub gave, or the clock just said it lasts. *)
Definition fresh (tr : list (call AppE)) (id : Z) (tok : string) (exp : Z) : Prop :=
  issued tr id tok exp ∨ ∃ now, now ∈ omap clock_read tr ∧ (now < exp - expiryGuard)%Z.

(** A GET and the value its reply decodes to. *)
Definition answered {A} (tr : list (call AppE)) (cred path : string) (dec : string → result string A) (a : A) : Prop :=
  ∃ resp, (api_request s "GET" ("Bearer " +:+ cred) path, resp) ∈ omap exchanged tr ∧ read_json path dec resp = Ok a.

Lemma issued_app tr1 tr2 id tok exp :
  issued tr1 id tok exp ∨ issued tr2 id tok exp → issued (tr1 ++ tr2) id tok exp.
Proof. intros [(jwt & resp & Hin & Hr)|(jwt & resp & Hin & Hr)]; exists jwt, resp; rewrite omap_app, elem_of_app; tauto. Qed.
Lemma answered_app {A} tr1 tr2 cred path dec (a : A) :
  answered tr1 cred path dec a ∨ answered tr2 cred path dec a → answered (tr1 ++ tr2) cred path dec a.
Proof. intros [(resp & Hin & Hr)|(resp & Hin & Hr)]; exists resp; rewrite omap_app, elem_of_app; tauto. Qed.
Lemma fresh_app tr1 tr2 id tok exp : fresh tr1 id tok exp ∨ fresh tr2 id tok exp → fresh (tr1 ++ tr2) id tok exp.
Proof.
  intros [[Hi|(now & Hn & Hl)]|[Hi|(now & Hn & Hl)]]; [left; apply issued_app; by left|right|left; apply issued_app; by right|right];
    exists now; rewrite omap_app, elem_of_app; tauto.
Qed.
Lemma cache_ok_app tr1 tr2 c : cache_ok tr1 c → cache_ok (tr1 ++ tr2) c.
Proof. intros Hc id t Ht. apply issued_app. left. by apply Hc. Qed.

(** *** Minting *)
Lemma mintAppJWT_inv tr r :
  exec (mintAppJWT s) tr r → omap exchanged tr = [] ∧ ∀ jwt, r = Ok jwt → mints tr jwt.
Proof.
  unfold mintAppJWT. rewrite exec_bind. intros (tr1 & tr2 & creds & -> & Hl & Hk).
  pose proof Hl as (x & tr' & -> & -> & E).
  destruct creds as [creds|e]; [|by destruct Hk as [-> ->]].
  destruct Hk as (now & tr3 & -> & -> & ->). split; [done|]. intros jwt Hjwt.
  destruct x as [data|e]; [|done]. exists data, creds, now. done.
Qed.

Lemma requestInstallationToken_inv jwt id tr r :
  exec (requestInstallationToken s jwt id) tr r →
  (∃ e, tr = [] ∧ r = Err e) ∨
  ∃ resp, tr = [Call (HttpDo httpClient (token_request s jwt id) maxResponseBytes) resp] ∧ r = read_token id resp.
Proof.
  unfold requestInstallationToken. destruct (request_error _ _) as [e|].
  - intros [-> ->]. left. by eexists.
  - intros (resp & tr' & -> & -> & ->). right. by exists resp.
Qed.

Lemma mint_inv c id tr r c' :
  exec (mint s c id) tr (r, c') →
  (∃ e, r = Err e ∧ c' = c) ∨
  ∃ tok exp, r = Ok tok ∧ issued tr id tok exp ∧ c' = <[id := {| ct_token := tok; ct_expires := exp |}]> c.
Proof.
  unfold mint. rewrite exec_bind. intros (tr1 & tr2 & jwt & -> & Hm & Hk).
  destruct jwt as [jwt|e]; [|destruct Hk as [_ [= -> ->]]; left; by eexists].
  apply exec_bind in Hk as (tr3 & tr4 & t & -> & Hreq & -> & Hret).
  apply requestInstallationToken_inv in Hreq as [(e & -> & ->)|(resp & -> & ->)]; [simplify_eq; left; by eexists|].
  destruct (read_token id resp) as [[tok exp]|e] eqn:Hr; simplify_eq; [right|left; by eexists].
  exists tok, exp. split_and!; [done| |done]. apply issued_app. right. exists jwt, resp. split; [by left|done].
Qed.

Lemma InstallationToken_spec tr0 c id tr r c' :
  cache_ok tr0 c → exec (InstallationToken s c id) tr (r, c') →
  cache_ok (tr0 ++ tr) c' ∧
  ∀ tok, r = Ok tok → ∃ exp, issued (tr0 ++ tr) id tok exp ∧ fresh tr id tok exp.
Proof.
  intros Hc. unfold InstallationToken. case_decide as Hid.
  { intros [-> [= -> ->]]. split; [by rewrite app_nil_r|done]. }
  assert (Hmint : ∀ t0 tr, exec (mint s c id) tr (r, c') →
    cache_ok (tr0 ++ t0 ++ tr) c' ∧ ∀ tok, r = Ok tok → ∃ exp, issued (tr0 ++ t0 ++ tr) id tok exp ∧ fresh (t0 ++ tr) id tok exp).
  { intros t0 tr' [(e & -> & ->)|(tok & exp & -> & Hi & ->)]%mint_inv; [split; [by apply cache_ok_app|done]|].
    assert (Hi' : issued (t0 ++ tr') id tok exp) by (apply issued_app; by right). split.
    - intros id' t. destruct (decide (id' = id)) as [->|Hne].
      + rewrite lookup_insert_eq. intros [= <-]. apply issued_app. by right.
      + rewrite lookup_insert_ne by done. intros Ht. apply issued_app. left. by apply Hc.
    - intros tok' [= ->]. exists exp. split; [apply issued_app; by right|by left]. }
  destruct (c !! id) as [t|] eqn:Ht; [|exact (Hmint [] tr)].
  cbn [prog_bind trigger]. intros (now & tr' & -> & Hk). case_decide as Hnow.
  - destruct Hk as [-> [= -> ->]]. split; [by apply cache_ok_app|]. intros tok [= <-]. exists (ct_expires t).
    split; [apply issued_app; left; by apply Hc|]. right. exists now. split; [by left|done].
  - exact (Hmint [Call Clock now] tr' Hk).
Qed.

(** *** Reading *)
Lemma getJSON_inv {A} auth path (dec : string → result string A) tr r :
  exec (getJSON s auth path dec) tr r →
  (∃ e, tr = [] ∧ r = failed e) ∨
  ∃ resp, tr = [Call (HttpDo httpClient (api_request s "GET" auth path) maxResponseBytes) resp] ∧
    r = read_json path dec resp.
Proof.
  unfold getJSON. destruct (request_error _ _) as [e|].
  - intros [-> ->]. left. by eexists.
  - intros (resp & tr' & -> & -> & ->). right. by exists resp.
Qed.

Lemma getJSON_Ok {A} cred path (dec : string → result string A) tr a :
  exec (getJSON s ("Bearer " +:+ cred) path dec) tr (Ok a) → answered tr cred path dec a.
Proof. intros [(e & _ & [=])|(resp & -> & Hr)]%getJSON_inv. exists resp. split; [by left|done]. Qed.

Lemma installationID_Ok owner name tr id :
  exec (installationID s owner name) tr (Ok id) →
  (0 < id)%Z ∧ ∃ jwt tr1 tr2, tr = tr1 ++ tr2 ∧ mints tr1 jwt ∧
    answered tr2 jwt (installation_path owner name) unmarshal_installation id.
Proof.
  unfold installationID. rewrite exec_bind. intros (tr1 & tr2 & jwt & -> & Hm & Hk).
  destruct jwt as [jwt|e]; [|by destruct Hk]. apply mintAppJWT_inv in Hm as [_ Hm].
  apply exec_bind in Hk as (tr3 & tr4 & r & -> & Hg & -> & E).
  destruct r as [id'|e]; [|done]. case_decide; [done|]. simplify_eq. split; [lia|].
  exists jwt, tr1, tr3. rewrite app_nil_r. split_and!; [done|by apply Hm|by apply getJSON_Ok].
Qed.

(** Which ref is read: the one asked for, or the default branch GitHub names. *)
Definition ref_read (tr : list (call AppE)) (tok owner name ref ref' : string) : Prop :=
  ref ≠ "" ∧ ref' = ref ∨
  ref = "" ∧ ref' ≠ "" ∧ answered tr tok (repo_path owner name) unmarshal_repo ref'.

Lemma read_commit_Ok tok owner name ref tr sha :
  exec (read_commit s tok owner name ref) tr (Ok sha) →
  MatchString commitSHAPattern sha = true ∧
  ∃ resp, omap exchanged tr = [(api_request s "GET" ("Bearer " +:+ tok) (commit_path owner name ref), resp)] ∧
    read_json (commit_path owner name ref) unmarshal_commit resp = Ok sha.
Proof.
  unfold read_commit. rewrite exec_bind. intros (tr1 & tr2 & r & -> & Hg & -> & E).
  destruct r as [sha'|e]; [|done]. destruct (MatchString commitSHAPattern sha') eqn:Hm; simplify_eq. split; [done|].
  apply getJSON_inv in Hg as [(e & _ & [=])|(resp & -> & Hr)]. by exists resp.
Qed.

Lemma read_head_Ok tok owner name ref tr sha :
  Contains ref ".." = false → exec (read_head s tok owner name ref) tr (Ok sha) →
  MatchString commitSHAPattern sha = true ∧
  ∃ ref' resp, ref_read tr tok owner name ref ref' ∧ Contains ref' ".." = false ∧
    last (omap exchanged tr) = Some (api_request s "GET" ("Bearer " +:+ tok) (commit_path owner name ref'), resp) ∧
    read_json (commit_path owner name ref') unmarshal_commit resp = Ok sha.
Proof.
  intros Hdots. unfold read_head. case_decide as Href.
  - rewrite exec_bind. intros (tr1 & tr2 & branch & -> & Hb & Hk). destruct branch as [branch|e]; [|by destruct Hk].
    unfold defaultBranch in Hb. apply exec_bind in Hb as (tr3 & tr4 & r & -> & Hg & -> & E).
    destruct r as [branch'|e]; [|done]. case_decide; [done|].
    destruct (Contains branch' "..") eqn:Hdots'; [done|]. simplify_eq. rewrite app_nil_r.
    apply read_commit_Ok in Hk as (Hm & resp & Ho & Hr). split; [done|]. exists branch', resp. split_and!; [|done| |done].
    + right. split_and!; [done..|]. apply answered_app. left. by apply getJSON_Ok.
    + by rewrite omap_app, last_app, Ho.
  - intros (Hm & resp & Ho & Hr)%read_commit_Ok. split; [done|]. exists ref, resp. split_and!; [by left|done| |done].
    by rewrite Ho.
Qed.

(** The commit [sha] of [repo] at [ref] is GitHub's own answer: the installation was looked
    up with a fresh App token, the token used is GitHub's for that installation and still
    good, and the last exchange is the commit endpoint answering with the full hash. *)
Definition resolved (before during : list (call AppE)) (repo ref sha : string) : Prop :=
  ∃ owner name jwt id tok exp ref' resp,
    splitRepo repo = Some (owner, name) ∧
    (0 < id)%Z ∧ (∃ tr1 tr2, during = tr1 ++ tr2 ∧ mints tr1 jwt) ∧
    answered during jwt (installation_path owner name) unmarshal_installation id ∧
    issued (before ++ during) id tok exp ∧ fresh during id tok exp ∧
    ref_read during tok owner name ref ref' ∧ Contains ref' ".." = false ∧
    last (omap exchanged during) = Some (api_request s "GET" ("Bearer " +:+ tok) (commit_path owner name ref'), resp) ∧
    read_json (commit_path owner name ref') unmarshal_commit resp = Ok sha ∧
    MatchString commitSHAPattern sha = true.

Lemma ref_read_app tr1 tr2 tok owner name ref ref' :
  ref_read tr2 tok owner name ref ref' → ref_read (tr1 ++ tr2) tok owner name ref ref'.
Proof. intros [?|(? & ? & ?)]; [by left|right]. split_and!; [done..|]. apply answered_app. by right. Qed.

Lemma ResolveCommit_spec tr0 c repo ref tr r c' :
  cache_ok tr0 c → exec (ResolveCommit s c repo ref) tr (r, c') →
  cache_ok (tr0 ++ tr) c' ∧ ∀ sha, r = Ok sha → resolved tr0 tr repo ref sha.
Proof.
  intros Hc. unfold ResolveCommit. destruct (splitRepo repo) as [[owner name]|] eqn:Hrepo.
  2:{ intros [-> [= -> ->]]. by rewrite app_nil_r. }
  destruct (Contains ref "..") eqn:Hdots; [intros [-> [= -> ->]]; by rewrite app_nil_r|].
  rewrite exec_bind. intros (tr1 & tr2 & inst & -> & Hi & Hk).
  destruct inst as [id|e]; [|destruct Hk as [-> [= -> ->]]; split; [by apply cache_ok_app|done]].
  apply installationID_Ok in Hi as (Hpos & jwt & t1 & t2 & -> & Hm & Ha).
  apply exec_bind in Hk as (tr3 & tr4 & [t c1] & -> & Ht & Hk).
  apply (InstallationToken_spec (tr0 ++ t1 ++ t2)) in Ht as [Hc1 Hf]; [|by apply cache_ok_app].
  destruct t as [tok|e]; [|destruct Hk as [-> [= -> ->]]; split; [rewrite app_nil_r, !app_assoc in *; done|done]].
  apply exec_bind in Hk as (tr5 & tr6 & sha & -> & Hh & -> & [= -> ->]). rewrite app_nil_r in *.
  split; [by rewrite <- !app_assoc in *; rewrite !app_assoc in *; apply cache_ok_app|].
  intros sha' ->. destruct (Hf tok eq_refl) as (exp & Hiss & Hfresh).
  apply read_head_Ok in Hh as (Hsha & ref' & resp & Hrr & Hd & Hlast & Hr); [|done].
  exists owner, name, jwt, id, tok, exp, ref', resp. split_and!; [done|done| | | | | |done| |done|done].
  - exists t1, (t2 ++ tr3 ++ tr5). by rewrite <- app_assoc.
  - rewrite <- !app_assoc. apply answered_app. right. apply answered_app. by left.
  - rewrite !app_assoc in *. apply issued_app. by left.
  - apply fresh_app. right. apply fresh_app. by left.
  - rewrite app_assoc. by apply ref_read_app.
  - by rewrite !omap_app, !last_app, Hlast.
Qed.

(** Whatever the API server, the clock and the network answer, a commit that a token
    source returns over any run of requests was read from GitHub's commit endpoint of that
    repository, at the ref asked for or at the default branch GitHub names, with a token
    GitHub issued for the installation it said covers the repository, issued in the same
    request or with more than two minutes left on the clock. *)
Theorem resolve_authoritative reqs tr rs c :
  exec (resolve_all s ∅ reqs) tr (rs, c) →
  Forall2 (λ rq r, ∀ sha, r = Ok sha →
    ∃ before during, before ++ during `prefix_of` tr ∧ resolved before during rq.1 rq.2 sha) reqs rs.
Proof.
  assert (Hgen : ∀ tr0 c0, cache_ok tr0 c0 → exec (resolve_all s c0 reqs) tr (rs, c) →
    Forall2 (λ rq r, ∀ sha, r = Ok sha →
      ∃ before during, before ++ during `prefix_of` tr0 ++ tr ∧ resolved before during rq.1 rq.2 sha) reqs rs).
  { revert tr rs. induction reqs as [|[repo ref] reqs IH]; intros tr rs tr0 c0 Hc; cbn [resolve_all].
    { intros [-> [= -> ->]]. constructor. }
    intros (tr1 & tr2 & [r c1] & -> & Hr & Hk)%exec_bind. cbn [fst snd] in Hk.
    apply exec_bind in Hk as (tr3 & tr4 & [rs' c2] & -> & Hrs & -> & [= -> ->]). cbn [fst snd].
    rewrite app_nil_r. destruct (ResolveCommit_spec _ _ _ _ _ _ _ Hc Hr) as [Hc1 Hok]. constructor.
    - intros sha Hsha. exists tr0, tr1. split; [rewrite app_assoc; by eexists|by apply Hok].
    - rewrite app_assoc. by eapply IH. }
  apply (Hgen [] ∅). by intros ? ?.
Qed.
End spec.

(** ** Paths survive escaping *)
Definition hex_value (c : ascii) : option nat :=
  if is_digit c then Some (nat_of_ascii c - 48)
  else if in_range "A" "F" c then Some (nat_of_ascii c - 55)
  else if in_range "a" "f" c then Some (nat_of_ascii c - 87) else None.

(** [url.PathUnescape] *)
Fixpoint unescape (l : list ascii) : option (list ascii) :=
  match l with
  | [] => Some []
  | c :: l =>
      if decide (c = "%"%char) then
        match l with
        | a :: b :: l => x ← hex_value a; y ← hex_value b; cons (byte (16 * x + y)) <$> unescape l
        | _ => None
        end
      else cons c <$> unescape l
  end.
Definition escape (c : ascii) : list ascii := if path_safe c then [c] else escape_byte c.

(** The two digits of a byte, read back. *)
Definition digits_back (c : ascii) : bool :=
  let n := nat_of_ascii c in
  bool_decide (hex_value (upper_hex (n / 16)) = Some (n / 16) ∧ hex_value (upper_hex (n mod 16)) = Some (n mod 16) ∧
               byte (16 * (n / 16) + n mod 16) = c).
Lemma escape_digits c :
  hex_value (upper_hex (nat_of_ascii c / 16)) = Some (nat_of_ascii c / 16) ∧
  hex_value (upper_hex (nat_of_ascii c mod 16)) = Some (nat_of_ascii c mod 16) ∧
  byte (16 * (nat_of_ascii c / 16) + nat_of_ascii c mod 16) = c.
Proof.
  pose proof (all_ascii_forall digits_back ltac:(vm_compute; reflexivity) c) as Hd.
  unfold digits_back in Hd. by apply bool_decide_eq_true in Hd.
Qed.

Lemma unescape_escape c l : unescape (escape c ++ l) = cons c <$> unescape l.
Proof.
  unfold escape. destruct (path_safe c) eqn:Hc.
  - cbn [app unescape]. by rewrite decide_False by (intros ->; done).
  - destruct (escape_digits c) as (H1 & H2 & H3).
    unfold escape_byte. cbn [app unescape]. rewrite decide_True by done. rewrite H1, H2. cbn [mbind option_bind]. by rewrite H3.
Qed.

(** Bytes an escaped path can hold: no query, fragment or space can start in it. *)
Definition path_byte (c : ascii) : bool := path_safe c || one_of "%" c.
Lemma escape_bytes c : Forall (λ d, path_byte d = true) (escape c).
Proof.
  unfold escape, path_byte. destruct (path_safe c) eqn:Hc; [constructor; [by rewrite Hc|constructor]|].
  pose proof (all_ascii_forall (λ c, forallb (λ d, path_safe d || one_of "%" d) (escape_byte c)) ltac:(vm_compute; reflexivity) c) as Hf.
  cbv beta in Hf. rewrite forallb_forall in Hf. apply Forall_forall. intros d Hd. apply Hf. by apply list_elem_of_In.
Qed.

Lemma githubPath_escape segments : githubPath segments = of_bytes (bytes ("/" +:+ Join segments "/") ≫= escape).
Proof. unfold githubPath, EscapedPath. rewrite decide_False by (intros [=]). done. Qed.

(** Decoding the path of a request gives back the segments asked for, joined by slashes,
    and nothing in it can start a query or a fragment. *)
Lemma githubPath_faithful segments :
  unescape (bytes (githubPath segments)) = Some (bytes ("/" +:+ Join segments "/")) ∧
  Forall (λ c, path_byte c = true) (bytes (githubPath segments)).
Proof.
  rewrite githubPath_escape, bytes_of_bytes. generalize (bytes ("/" +:+ Join segments "/")). intros l.
  induction l as [|c l [IH1 IH2]]; [by split|]. cbn [mbind list_bind]. split.
  - by rewrite unescape_escape, IH1.
  - apply Forall_app. split; [apply escape_bytes|done].
Qed.

(** ** Where credentials go *)
Section confined.
Context `{UnicodeTables} {lib : AppLib} (s : TokenSource) (reqs : list (string * string)).

Definition asked_for (owner name : string) : Prop := ∃ repo ref, (repo, ref) ∈ reqs ∧ splitRepo repo = Some (owner, name).

(** GitHub said that this installation covers the repository. *)
Definition covers (tr : list (call AppE)) (owner name : string) (id : Z) : Prop :=
  (0 < id)%Z ∧ ∃ jwt, answered s tr jwt (installation_path owner name) unmarshal_installation id.

(** A request that may carry its credential, given everything that happened before. *)
Inductive confined (tr : list (call AppE)) : HttpRequest → Prop :=
| lookup_installation a sub z jwt owner name :
    tr = a ++ sub ++ z → mints s sub jwt → asked_for owner name →
    confined tr (api_request s "GET" ("Bearer " +:+ jwt) (installation_path owner name))
| exchange_token a sub z jwt id owner name :
    tr = a ++ sub ++ z → mints s sub jwt → asked_for owner name → covers tr owner name id → confined tr (token_request s jwt id)
| look_at_repo id tok exp owner name :
    asked_for owner name → covers tr owner name id → issued s tr id tok exp →
    confined tr (api_request s "GET" ("Bearer " +:+ tok) (repo_path owner name))
| look_at_commit id tok exp owner name ref :
    asked_for owner name → covers tr owner name id → issued s tr id tok exp → Contains ref ".." = false →
    confined tr (api_request s "GET" ("Bearer " +:+ tok) (commit_path owner name ref)).

Definition all_confined (tr0 tr : list (call AppE)) : Prop :=
  ∀ a c z p, tr = a ++ c :: z → exchanged c = Some p → confined (tr0 ++ a) p.1.

Lemma covers_app tr1 tr2 owner name id : covers tr1 owner name id ∨ covers tr2 owner name id → covers (tr1 ++ tr2) owner name id.
Proof. intros [[? [jwt Hj]]|[? [jwt Hj]]]; (split; [done|]); exists jwt; apply answered_app; auto. Qed.

Lemma all_confined_app tr0 tr1 tr2 :
  all_confined tr0 tr1 → all_confined (tr0 ++ tr1) tr2 → all_confined tr0 (tr1 ++ tr2).
Proof.
  intros H1 H2 a c z p (k & [[-> E]|[-> E]])%app_eq_app Hc.
  - destruct k as [|x k]; [rewrite !app_nil_r in *; rewrite <- (app_nil_r (tr0 ++ a)); by eapply (H2 [])|].
    injection E as <- _. by eapply H1.
  - rewrite app_assoc. by eapply H2.
Qed.
Lemma all_confined_quiet tr0 tr : omap exchanged tr = [] → all_confined tr0 tr.
Proof.
  intros Hq a c z p -> Hc. exfalso. rewrite omap_app in Hq. cbn [omap list_omap] in Hq. rewrite Hc in Hq. by destruct (omap exchanged a).
Qed.
Lemma all_confined_one tr0 c p : exchanged c = Some p → confined tr0 p.1 → all_confined tr0 [c].
Proof.
  intros Hq Hc a c' z p' E Hc'. destruct a as [|x a]; [|by destruct a]. injection E as <- _. rewrite Hq in Hc'. injection Hc' as <-.
  by rewrite app_nil_r.
Qed.

Lemma getJSON_confined {A} tr0 auth path (dec : string → result string A) tr r :
  exec (getJSON s auth path dec) tr r → confined tr0 (api_request s "GET" auth path) → all_confined tr0 tr.
Proof. intros [(e & -> & _)|(resp & -> & _)]%getJSON_inv Hc; [by apply all_confined_quiet|by eapply all_confined_one]. Qed.

Lemma installationID_confined tr0 owner name tr r :
  asked_for owner name → exec (installationID s owner name) tr r → all_confined tr0 tr.
Proof.
  intros Ha. unfold installationID. rewrite exec_bind. intros (tr1 & tr2 & jwt & -> & [Hq Hm]%mintAppJWT_inv & Hk).
  apply all_confined_app; [by apply all_confined_quiet|].
  destruct jwt as [jwt|e]; [|destruct Hk as [-> _]; by apply all_confined_quiet].
  apply exec_bind in Hk as (tr3 & tr4 & r' & -> & Hg & -> & _). rewrite app_nil_r. eapply getJSON_confined; [exact Hg|].
  eapply (lookup_installation _ tr0 tr1 []); [by rewrite app_nil_r|by apply Hm|done].
Qed.

Lemma mint_confined tr0 c id owner name tr r :
  asked_for owner name → covers tr0 owner name id → exec (mint s c id) tr r → all_confined tr0 tr.
Proof.
  intros Ha Hid. unfold mint. rewrite exec_bind. intros (tr1 & tr2 & jwt & -> & [Hq Hm]%mintAppJWT_inv & Hk).
  apply all_confined_app; [by apply all_confined_quiet|].
  destruct jwt as [jwt|e]; [|destruct Hk as [-> _]; by apply all_confined_quiet].
  apply exec_bind in Hk as (tr3 & tr4 & t & -> & Hreq & -> & _). rewrite app_nil_r.
  apply requestInstallationToken_inv in Hreq as [(e & -> & _)|(resp & -> & _)]; [by apply all_confined_quiet|].
  eapply all_confined_one; [done|]. eapply (exchange_token _ tr0 tr1 []); [by rewrite app_nil_r|by apply Hm|done|]. apply covers_app. by left.
Qed.

Lemma InstallationToken_confined tr0 c id owner name tr r :
  asked_for owner name → covers tr0 owner name id → exec (InstallationToken s c id) tr r → all_confined tr0 tr.
Proof.
  intros Ha Hcov. unfold InstallationToken. case_decide as Hid; [intros [-> _]; by apply all_confined_quiet|].
  destruct (c !! id) as [t|]; [|by eapply mint_confined]. cbn [prog_bind trigger]. intros (now & tr' & -> & Hk).
  apply (all_confined_app _ [Call Clock now] tr'); [by apply all_confined_quiet|].
  case_decide; [destruct Hk as [-> _]; by apply all_confined_quiet|]. eapply mint_confined; [done| |exact Hk]. apply covers_app. by left.
Qed.

Lemma read_commit_confined tr0 id tok exp owner name ref tr r :
  asked_for owner name → covers tr0 owner name id → issued s tr0 id tok exp → Contains ref ".." = false →
  exec (read_commit s tok owner name ref) tr r → all_confined tr0 tr.
Proof.
  intros Ha Hcov Hi Hd. unfold read_commit. rewrite exec_bind. intros (tr1 & tr2 & x & -> & Hg & -> & _). rewrite app_nil_r.
  eapply getJSON_confined; [exact Hg|]. by eapply look_at_commit.
Qed.

Lemma read_head_confined tr0 id tok exp owner name ref tr r :
  asked_for owner name → covers tr0 owner name id → issued s tr0 id tok exp → Contains ref ".." = false →
  exec (read_head s tok owner name ref) tr r → all_confined tr0 tr.
Proof.
  intros Ha Hcov Hi Hd. unfold read_head. case_decide; [|by eapply read_commit_confined].
  rewrite exec_bind. intros (tr1 & tr2 & branch & -> & Hb & Hk).
  unfold defaultBranch in Hb. apply exec_bind in Hb as (tr3 & tr4 & x & -> & Hg & -> & E). rewrite app_nil_r.
  apply all_confined_app; [eapply getJSON_confined; [exact Hg|by eapply look_at_repo]|].
  destruct x as [branch'|e]; [|simplify_eq; destruct Hk as [-> _]; by apply all_confined_quiet].
  case_decide; [simplify_eq; destruct Hk as [-> _]; by apply all_confined_quiet|].
  destruct (Contains branch' "..") eqn:Hd'; simplify_eq; [destruct Hk as [-> _]; by apply all_confined_quiet|].
  eapply read_commit_confined; [done| | |done|done]; [apply covers_app|apply issued_app]; by left.
Qed.

Lemma ResolveCommit_confined tr0 c repo ref tr r :
  (repo, ref) ∈ reqs → cache_ok s tr0 c → exec (ResolveCommit s c repo ref) tr r → all_confined tr0 tr.
Proof.
  intros Hin Hc. unfold ResolveCommit. destruct (splitRepo repo) as [[owner name]|] eqn:Hrepo.
  2:{ intros [-> _]. by apply all_confined_quiet. }
  assert (Ha : asked_for owner name) by (by exists repo, ref).
  destruct (Contains ref "..") eqn:Hdots; [intros [-> _]; by apply all_confined_quiet|].
  rewrite exec_bind. intros (tr1 & tr2 & inst & -> & Hi & Hk).
  apply all_confined_app; [by eapply installationID_confined|].
  destruct inst as [id|e]; [|destruct Hk as [-> _]; by apply all_confined_quiet].
  assert (Hcov : covers (tr0 ++ tr1) owner name id).
  { apply installationID_Ok in Hi as (Hid & jwt & t1 & t2 & -> & _ & Hans). split; [done|]. exists jwt.
    apply answered_app; right. apply answered_app. by right. }
  apply exec_bind in Hk as (tr3 & tr4 & [t c1] & -> & Ht & Hk).
  apply all_confined_app; [by eapply InstallationToken_confined|].
  apply (InstallationToken_spec s (tr0 ++ tr1)) in Ht as [_ Hf]; [|by apply cache_ok_app].
  destruct t as [tok|e]; [|destruct Hk as [-> _]; by apply all_confined_quiet].
  apply exec_bind in Hk as (tr5 & tr6 & sha & -> & Hh & -> & _). rewrite app_nil_r.
  destruct (Hf tok eq_refl) as (exp & Hiss & _). eapply read_head_confined; [done| |done|done|done]. apply covers_app. by left.
Qed.

Lemma resolve_all_confined tr0 c rest tr r :
  (∀ rq, rq ∈ rest → rq ∈ reqs) → cache_ok s tr0 c → exec (resolve_all s c rest) tr r → all_confined tr0 tr.
Proof.
  revert tr0 c tr r. induction rest as [|[repo ref] rest IH]; intros tr0 c tr r Hsub Hc; cbn [resolve_all].
  { intros [-> _]. by apply all_confined_quiet. }
  intros (tr1 & tr2 & [x c1] & -> & Hr & Hk)%exec_bind. cbn [fst snd] in Hk.
  apply exec_bind in Hk as (tr3 & tr4 & [rs' c2] & -> & Hrs & -> & _). rewrite app_nil_r.
  apply all_confined_app; [eapply ResolveCommit_confined; [|done..]; apply Hsub; by left|].
  eapply IH; [|by eapply ResolveCommit_spec|done]. intros rq Hrq. apply Hsub. by right.
Qed.
End confined.

(** Only through the client that follows no redirect, and never reading without a limit. *)
Definition safe_client (X : Set) (e : AppE X) : bool :=
  match e with
  | HttpDo client _ limit => negb (hc_FollowsRedirects client) && (limit =? maxResponseBytes)%Z
  | _ => true
  end.

Section credentials.
Context `{UnicodeTables} {lib : AppLib} (s : TokenSource).

Lemma mint_calls c id : calls_only safe_client (mint s c id).
Proof. unfold mint, mintAppJWT, loadCredentials, requestInstallationToken. calls. Qed.
Lemma getJSON_calls {A} auth path (dec : string → result string A) : calls_only safe_client (getJSON s auth path dec).
Proof. unfold getJSON. calls. Qed.
Lemma ResolveCommit_calls c repo ref : calls_only safe_client (ResolveCommit s c repo ref).
Proof.
  pose proof mint_calls. pose proof @getJSON_calls.
  unfold ResolveCommit, installationID, mintAppJWT, loadCredentials, InstallationToken, read_head, defaultBranch, read_commit. calls.
Qed.
Lemma resolve_all_calls c reqs : calls_only safe_client (resolve_all s c reqs).
Proof.
  revert c. induction reqs as [|[repo ref] reqs IH]; intros c; [done|]. cbn [resolve_all].
  apply calls_only_bind; [apply ResolveCommit_calls|]. intros r. apply calls_only_bind; [apply IH|done].
Qed.

(** C21. Whatever is answered, over any run of requests, every request a token source sends
    is one of four: the installation lookup of a repository asked for, with an App token just
    signed from the stored key; the token exchange of an installation GitHub said covers such
    a repository, likewise; or the page or a commit of a repository asked for, at a ref
    without a parent segment, with a token that GitHub issued for the very installation it
    said covers that repository.  All of it happened before the request.  No request follows
    a redirect, so no credential leaves for another host, and no body is read without its
    limit. *)
Theorem credentials_confined reqs tr r :
  exec (resolve_all s ∅ reqs) tr r →
  (∀ before c after req resp, tr = before ++ c :: after → exchanged c = Some (req, resp) → confined s reqs before req) ∧
  Forall (λ c, call_ok safe_client c = true) tr.
Proof.
  intros Hex. split; [|by eapply calls_only_exec; [apply resolve_all_calls|]].
  intros before c after req resp Heq Hc.
  refine (resolve_all_confined s reqs [] ∅ reqs tr r _ _ Hex before c after (req, resp) Heq Hc); [done|]. by intros ? ?.
Qed.

(** ** Dropping and retrying *)

(** A value GitHub cannot mean, in the 200 answer of one of the three reads of a repository. *)
Inductive impossible (owner name : string) : HttpRequest → string → Prop :=
| no_installation jwt body id :
    unmarshal_installation body = Ok id → (id ≤ 0)%Z →
    impossible owner name (api_request s "GET" ("Bearer " +:+ jwt) (installation_path owner name)) body
| no_branch tok body branch :
    unmarshal_repo body = Ok branch → branch = "" ∨ Contains branch ".." = true →
    impossible owner name (api_request s "GET" ("Bearer " +:+ tok) (repo_path owner name)) body
| no_commit tok ref body sha :
    unmarshal_commit body = Ok sha → MatchString commitSHAPattern sha = false →
    impossible owner name (api_request s "GET" ("Bearer " +:+ tok) (commit_path owner name ref)) body.
(** A GET answered readably with 404, 422 or such a value: asking again would not help. *)
Definition definitive (owner name : string) (p : HttpRequest * result string HttpReply) : Prop :=
  hr_Method p.1 = "GET" ∧ ∃ resp body, p.2 = Ok resp ∧ hp_Body resp = Ok body ∧
    (hp_StatusCode resp = 404%Z ∨ hp_StatusCode resp = 422%Z ∨ hp_StatusCode resp = 200%Z ∧ impossible owner name p.1 body).
Definition malformed (repo ref : string) : Prop := splitRepo repo = None ∨ Contains ref ".." = true.

(** The three paths of a repository differ. *)
Lemma join_repo a b c : Join ("repos" :: a :: b :: c) "/" = ("repos/" +:+ a +:+ "/" +:+ b) +:+ Join ("" :: c) "/".
Proof. destruct c as [|x c]; apply bytes_inj; cbn [Join]; rewrite !bytes_app; cbn [bytes]; by rewrite ?app_nil_r, <- ?app_assoc. Qed.
Lemma path_tail a b c d : githubPath ("repos" :: a :: b :: c) = githubPath ("repos" :: a :: b :: d) → Join ("" :: c) "/" = Join ("" :: d) "/".
Proof.
  intros Heq. destruct (githubPath_faithful ("repos" :: a :: b :: c)) as [H1 _], (githubPath_faithful ("repos" :: a :: b :: d)) as [H2 _].
  rewrite Heq, H2, !join_repo in H1. injection H1 as H1. rewrite !bytes_app in H1. apply bytes_inj. symmetry. by eapply app_inv_head.
Qed.
Lemma request_path auth1 auth2 p1 p2 : api_request s "GET" auth1 p1 = api_request s "GET" auth2 p2 → p1 = p2.
Proof.
  intros Heq. apply (f_equal hr_URL), (f_equal bytes) in Heq. cbn [hr_URL api_request] in Heq. rewrite !bytes_app in Heq.
  by apply app_inv_head, bytes_inj in Heq.
Qed.
Lemma impossible_inv owner name auth path body :
  impossible owner name (api_request s "GET" auth path) body →
  path = installation_path owner name ∧ (∃ id, unmarshal_installation body = Ok id ∧ (id ≤ 0)%Z) ∨
  path = repo_path owner name ∧ (∃ branch, unmarshal_repo body = Ok branch ∧ (branch = "" ∨ Contains branch ".." = true)) ∨
  (∃ ref, path = commit_path owner name ref) ∧ (∃ sha, unmarshal_commit body = Ok sha ∧ MatchString commitSHAPattern sha = false).
Proof.
  remember (api_request s "GET" auth path) as req eqn:Hreq. intros Himp. revert Hreq.
  destruct Himp as [jwt body' id Hu Hle|tok body' branch Hu Hb|tok ref body' sha Hu Hm]; intros <-%request_path; [left|right; left|right; right]; eauto.
Qed.

(** Whether an outcome fits how its last exchange ended. *)
Definition inconclusive (owner name : string) (tr : list (call AppE)) : Prop :=
  ∀ p, last (omap exchanged tr) = Some p → ¬ definitive owner name p.
Definition classed {A} (owner name : string) (tr : list (call AppE)) (r : result ResolveError A) : Prop :=
  match r with
  | Err (Unresolvable _) => ∃ p, last (omap exchanged tr) = Some p ∧ definitive owner name p
  | _ => inconclusive owner name tr
  end.

Lemma classed_seq {A} owner name tr1 tr2 (r : result ResolveError A) :
  inconclusive owner name tr1 → classed owner name tr2 r → classed owner name (tr1 ++ tr2) r.
Proof.
  intros H1 H2. unfold classed, inconclusive in *. rewrite omap_app, last_app.
  destruct (last (omap exchanged tr2)) as [p|]; [done|]. destruct r as [a|[e|e]]; [done| |done]. by destruct H2 as (p & [=] & _).
Qed.
Lemma inconclusive_nil owner name : inconclusive owner name [].
Proof. done. Qed.

(** A checked read: it is a drop exactly when its answer is definitive. *)
Lemma checked_classed {A B} owner name auth path (dec : string → result string A) (k : A → result ResolveError B) tr r :
  (∀ body, impossible owner name (api_request s "GET" auth path) body ↔ ∃ a e, dec body = Ok a ∧ k a = Err (Unresolvable e)) →
  (∀ a, match k a with Err (ResolveFailed _) => False | _ => True end) →
  exec (let! x := getJSON s auth path dec in Ret (match x with Err e => Err e | Ok a => k a end)) tr r → classed owner name tr r.
Proof.
  intros Himp Hk. rewrite exec_bind. intros (tr1 & tr2 & x & -> & Hg & -> & ->). rewrite app_nil_r.
  apply getJSON_inv in Hg as [(e & -> & ->)|(resp & -> & ->)]; [apply inconclusive_nil|].
  set (req := api_request s "GET" auth path) in *.
  assert (Hno : ∀ resp', (∀ out body, resp' = Ok out → hp_Body out = Ok body → hp_StatusCode out ≠ 404%Z ∧ hp_StatusCode out ≠ 422%Z ∧
      (hp_StatusCode out = 200%Z → ¬ impossible owner name req body)) →
    inconclusive owner name [Call (HttpDo httpClient req maxResponseBytes) resp']).
  { intros resp' Hr p [= <-] (_ & out & body & E & Hb & Hst). destruct (Hr out body E Hb) as (H4 & H2 & H0). tauto. }
  destruct resp as [out|e]; [|by apply Hno]. cbn [read_json]. destruct (hp_Body out) as [body|e] eqn:Hb.
  2:{ apply Hno. intros out' body [= <-] Hb'. congruence. }
  case_decide as H200.
  - destruct (dec body) as [a|e] eqn:Hd.
    + specialize (Hk a). specialize (Himp body). destruct (k a) as [b|[e|e]] eqn:Hka; [| |done].
      * apply Hno. intros out' body' [= <-] Hb'. assert (body' = body) as -> by congruence. split_and!; [congruence..|].
        intros _ (a' & e & Ha & He)%Himp. congruence.
      * eexists. split; [reflexivity|]. split; [done|]. exists out, body. split_and!; [done..|]. right; right. split; [done|]. apply Himp. by exists a, e.
    + apply Hno. intros out' body' [= <-] Hb'. assert (body' = body) as -> by congruence. split_and!; [congruence..|].
      intros _ (a' & e' & Ha & _)%Himp. congruence.
  - case_decide as Hm.
    + eexists. split; [reflexivity|]. split; [done|]. exists out, body. split_and!; [done..|]. tauto.
    + apply Hno. intros out' body' [= <-] _. tauto.
Qed.

Lemma installationID_classed owner name tr r : exec (installationID s owner name) tr r → classed owner name tr r.
Proof.
  unfold installationID. rewrite exec_bind. intros (tr1 & tr2 & jwt & -> & [Hq _]%mintAppJWT_inv & Hk).
  assert (H1 : inconclusive owner name tr1) by (unfold inconclusive; by rewrite Hq).
  destruct jwt as [jwt|e]; [|by destruct Hk as [-> ->]; rewrite app_nil_r].
  apply classed_seq; [done|]. eapply checked_classed; [| |exact Hk]; [|intros id; cbn beta; by case_decide].
  intros body. split.
  - intros [[_ (id & Hu & Hle)]|[[E _]|[[ref E] _]]]%impossible_inv; [|by apply path_tail in E..].
    exists id. eexists. split; [done|]. rewrite decide_True by done. reflexivity.
  - intros (id & e & Hu & He). case_decide; [|done]. by eapply no_installation.
Qed.
Lemma read_commit_classed tok owner name ref tr r : exec (read_commit s tok owner name ref) tr r → classed owner name tr r.
Proof.
  apply checked_classed; [|intros sha; cbn beta; by destruct (MatchString _ _)]. intros body. split.
  - intros [[E _]|[[E _]|[_ (sha & Hu & Hm)]]]%impossible_inv; [by apply path_tail in E..|].
    exists sha. eexists. split; [done|]. rewrite Hm. reflexivity.
  - intros (sha & e & Hu & He). destruct (MatchString commitSHAPattern sha) eqn:Hm; [done|]. by eapply no_commit.
Qed.
Lemma defaultBranch_classed tok owner name tr r : exec (defaultBranch s tok owner name) tr r → classed owner name tr r.
Proof.
  apply checked_classed; [|intros b; cbn beta; case_decide; [done|]; by destruct (Contains _ _)]. intros body. split.
  - intros [[E _]|[[_ (b & Hu & Hb)]|[[ref E] _]]]%impossible_inv; [by apply path_tail in E| |by apply path_tail in E].
    exists b. case_decide; [by eexists|]. destruct Hb as [?| ->]; [done|by eexists].
  - intros (b & e & Hu & He). eapply no_branch; [done|]. case_decide; [by left|]. destruct (Contains b ".."); [by right|done].
Qed.
Lemma read_head_classed tok owner name ref tr r : exec (read_head s tok owner name ref) tr r → classed owner name tr r.
Proof.
  unfold read_head. case_decide; [|apply read_commit_classed].
  rewrite exec_bind. intros (tr1 & tr2 & branch & -> & H1%defaultBranch_classed & Hk).
  destruct branch as [branch|e]; [|by destruct Hk as [-> ->]; rewrite app_nil_r].
  apply classed_seq; [exact H1|]. by apply read_commit_classed in Hk.
Qed.

(** Minting only posts. *)
Lemma InstallationToken_posts c id tr r :
  exec (InstallationToken s c id) tr r → Forall (λ p, hr_Method p.1 ≠ "GET") (omap exchanged tr).
Proof.
  assert (Hmint : ∀ tr, exec (mint s c id) tr r → Forall (λ p, hr_Method p.1 ≠ "GET") (omap exchanged tr)).
  { intros tr'. unfold mint. rewrite exec_bind. intros (tr1 & tr2 & jwt & -> & [Hq _]%mintAppJWT_inv & Hk).
    rewrite omap_app, Hq. destruct jwt as [jwt|e]; [|destruct Hk as [-> _]; constructor].
    apply exec_bind in Hk as (tr3 & tr4 & t & -> & Hreq & -> & _). rewrite app_nil_r.
    apply requestInstallationToken_inv in Hreq as [(e & -> & _)|(resp & -> & _)]; constructor; [done|constructor]. }
  unfold InstallationToken. case_decide; [intros [-> _]; constructor|].
  destruct (c !! id) as [t|]; [|exact (Hmint tr)]. cbn [prog_bind trigger]. intros (now & tr' & -> & Hk).
  change (omap exchanged (Call Clock now :: tr')) with (omap exchanged tr').
  case_decide; [destruct Hk as [-> _]; constructor|exact (Hmint tr' Hk)].
Qed.
Lemma posts_inconclusive owner name tr1 tr2 :
  Forall (λ p, hr_Method p.1 ≠ "GET") (omap exchanged tr2) → inconclusive owner name tr1 → inconclusive owner name (tr1 ++ tr2).
Proof.
  intros HF H1 p. rewrite omap_app, last_app. destruct (last (omap exchanged tr2)) as [p'|] eqn:Hl; [|apply H1].
  intros [= <-] [Hg _]. apply last_Some_elem_of in Hl. rewrite Forall_forall in HF. by apply (HF p' Hl).
Qed.
Lemma ResolveCommit_classed c repo ref owner name tr r c' :
  splitRepo repo = Some (owner, name) → Contains ref ".." = false → exec (ResolveCommit s c repo ref) tr (r, c') → classed owner name tr r.
Proof.
  intros Hrepo Hdots. unfold ResolveCommit. rewrite Hrepo, Hdots.
  intros (tr1 & tr2 & inst & -> & Hi%installationID_classed & Hk)%exec_bind.
  destruct inst as [id|e1]; [|destruct Hk as [-> [= -> ->]]; by rewrite app_nil_r].
  apply exec_bind in Hk as (tr3 & tr4 & [t c1] & -> & Ht%InstallationToken_posts & Hk).
  assert (H3 : inconclusive owner name (tr1 ++ tr3)) by (by apply posts_inconclusive).
  destruct t as [tok|e1]; [|destruct Hk as [-> [= -> ->]]; by rewrite app_nil_r].
  apply exec_bind in Hk as (tr5 & tr6 & sha & -> & Hh%read_head_classed & -> & [= <- ->]). rewrite app_nil_r, app_assoc.
  by apply classed_seq.
Qed.

(** C33. A repository or ref is given up for good exactly when it is malformed, in which case
    nothing was asked, or when the last exchange was definitive: GitHub answered a GET, in
    full, with 404, with 422, or with a 200 whose body decodes to an installation that is
    not positive, to a default branch that is empty or has a parent segment, or to a commit
    that is not a full hash.  So a body that does not decode, a failing network, signing,
    token exchange, rate limit or server is always retried, and none of the definitive
    cases ever is. *)
Theorem drop_iff_definitive c repo ref tr r c' :
  exec (ResolveCommit s c repo ref) tr (r, c') →
  ((∃ e, r = Err (Unresolvable e)) ↔
   malformed repo ref ∨
   ∃ owner name p, splitRepo repo = Some (owner, name) ∧ last (omap exchanged tr) = Some p ∧ definitive owner name p) ∧
  (malformed repo ref → tr = []).
Proof.
  intros Hex. destruct (splitRepo repo) as [[owner name]|] eqn:Hrepo.
  2:{ unfold ResolveCommit in Hex. rewrite Hrepo in Hex. destruct Hex as [-> [= -> ->]]. unfold malformed.
      split; [|done]. split; [by left; left|by eexists]. }
  destruct (Contains ref "..") eqn:Hdots.
  { unfold ResolveCommit in Hex. rewrite Hrepo, Hdots in Hex. destruct Hex as [-> [= -> ->]]. split; [|done].
    split; [by left; right|by eexists]. }
  pose proof (ResolveCommit_classed _ _ _ _ _ _ _ _ Hrepo Hdots Hex) as Hc.
  split; [|intros [?|?]; congruence]. split.
  - intros [e ->]. right. destruct Hc as (p & Hl & Hd). by exists owner, name, p.
  - intros [[?|?]|(o & n & p & [= <- <-] & Hl & Hd)]; [congruence..|].
    destruct r as [sha|[e|e]]; [by destruct (Hc p Hl)|by eexists|by destruct (Hc p Hl)].
Qed.
End credentials.

(** ** What the dashboard stores is what the operator loads *)
Lemma pretty_N_char_digit x : (x < 10)%N →
  is_digit (pretty_N_char x) = true ∧ Z.of_nat (nat_of_ascii (pretty_N_char x) - nat_of_ascii "0"%char) = Z.of_N x.
Proof.
  intros Hx. assert (x = 0 ∨ x = 1 ∨ x = 2 ∨ x = 3 ∨ x = 4 ∨ x = 5 ∨ x = 6 ∨ x = 7 ∨ x = 8 ∨ x = 9)%N as Hc by lia.
  by repeat (destruct Hc as [->|Hc]; [done|]); subst x.
Qed.

(** The decimal digits of a number, and their value. *)
Lemma pretty_N_go_digits x t :
  ∃ d, bytes (pretty_N_go x t) = d ++ bytes t ∧ Forall (λ c, is_digit c = true) d ∧ ((0 < x)%N → d ≠ []) ∧
    ∀ rest n, digits (d ++ rest) n = digits rest (n * 10 ^ Z.of_nat (length d) + Z.of_N x)%Z.
Proof.
  revert t. induction (N.lt_wf_0 x) as [x _ IH]; intros t.
  assert (x = 0 ∨ 0 < x)%N as [->|Hx] by lia.
  { exists []. split_and!; [done|constructor|lia|]. intros rest n. cbn [app length]. f_equal. lia. }
  rewrite pretty_N_go_step by done.
  destruct (IH (x `div` 10)%N ltac:(by apply N.div_lt) (String (pretty_N_char (x `mod` 10)) t)) as (d & Hd & HF & _ & Hv).
  destruct (pretty_N_char_digit (x `mod` 10)%N) as [Hdig Hval]; [by apply N.mod_lt|].
  exists (d ++ [pretty_N_char (x `mod` 10)]). split_and!.
  - rewrite Hd, <- app_assoc. done.
  - apply Forall_app. split; [done|]. by constructor.
  - intros _ Hnil. by destruct d.
  - intros rest n. rewrite <- app_assoc, Hv. cbn [app digits]. rewrite Hdig, Hval. f_equal.
    rewrite length_app. cbn [length]. rewrite Nat2Z.inj_add, Z.pow_add_r by lia.
    pose proof (N.div_mod x 10 ltac:(done)) as Hdm. rewrite N2Z.inj_mod, N2Z.inj_div.
    change (Z.of_N 10) with 10%Z. lia.
Qed.

Lemma pretty_pos_digits (p : positive) :
  bytes (pretty (Zpos p)) ≠ [] ∧ Forall (λ c, is_digit c = true) (bytes (pretty (Zpos p))) ∧ digits (bytes (pretty (Zpos p))) 0 = Some (Zpos p).
Proof.
  change (pretty (Zpos p)) with (pretty_N_go (Npos p) "").
  destruct (pretty_N_go_digits (Npos p) "") as (d & -> & HF & Hne & Hv). rewrite app_nil_r. split_and!; [by apply Hne|done|].
  specialize (Hv [] 0%Z). rewrite app_nil_r in Hv. rewrite Hv. cbn [digits]. f_equal.
Qed.

(** [strconv.ParseInt(strings.TrimSpace(strconv.FormatInt(id)))] *)
Lemma ParseInt10_pretty id : (0 < id ≤ i64_max)%Z → ParseInt10 64 (TrimSpace (pretty id)) = Some id.
Proof.
  destruct id as [|p|p]; [lia| |lia]. intros [_ Hmax].
  destruct (pretty_pos_digits p) as (Hne & HF & Hv).
  rewrite TrimSpace_solid.
  2:{ eapply Forall_impl; [exact HF|]. intros c Hc.
      pose proof (all_ascii_forall (λ c, implb (is_digit c) (solid c)) ltac:(vm_compute; reflexivity) c) as Hs.
      cbv beta in Hs. by rewrite Hc in Hs. }
  unfold ParseInt10, ParseUint10. destruct (bytes (pretty (Zpos p))) as [|c l] eqn:Hb; [done|].
  apply Forall_cons in HF as [Hc _].
  assert (c ≠ "-"%char ∧ c ≠ "+"%char) as [H1 H2] by (split; intros ->; done).
  match goal with |- (let '(_, _) := ?m in _) = _ => replace m with (false, c :: l) end.
  2:{ destruct c as [[] [] [] [] [] [] [] []]; done. }
  rewrite Hv. rewrite decide_False; [done|]. unfold i64_max in Hmax. lia.
Qed.

(** The token source [operator/main.go] makes. *)
Definition operator_source (githubBaseURL : string) : TokenSource :=
  {| ts_SecretRef := {| key_Namespace := ""; key_Name := "" |}; ts_BaseURL := githubBaseURL |}.

Lemma conversion_Ok `{GitHubJSON} base code tr creds :
  exec (Exchange base code) tr (Ok creds) → (0 < gc_ID creds)%Z ∧ gc_PEM creds ≠ "".
Proof.
  intros (resp & tr' & -> & -> & E). destruct resp as [[[status text] [body|e]]|e]; [|done..].
  case_decide; [done|]. destruct (unmarshal_conversion body) as [conv|e]; [|done].
  case_decide as Hc; [done|]. injection E as ->. split; [|tauto]. destruct (Z_le_gt_dec (gc_ID conv) 0); [tauto|lia].
Qed.

(** Claims GitHub accepts: nine minutes from backdated issue to expiry, around now. *)
Lemma claims_window id now :
  (Exp (claims_at id now) - Iat (claims_at id now) = 540)%Z ∧
  (Iat (claims_at id now) < Unix now < Exp (claims_at id now))%Z.
Proof. unfold claims_at, Unix, jwtBackdate, jwtTTL, Minute, Second. cbn [Exp Iat]. lia. Qed.

(** C35. The connect flow and the operator agree: the Secret that the dashboard writes with
    the credentials GitHub's manifest conversion returned is the Secret the operator reads,
    and from it the operator loads exactly that App id and key, and signs with them a token
    for that issuer that GitHub's ten-minute rule accepts. *)
Theorem connected_credentials_load `{UnicodeTables, GitHubJSON} {lib : AppLib} githubURL base code tr creds tr' w key now :
  exec (Exchange base code) tr (Ok creds) → (gc_ID creds ≤ i64_max)%Z → parseRSAPrivateKey (gc_PEM creds) = Ok key →
  exec (writeGitHubSecrets creds) tr' w →
  ∃ sec x rest, tr' = Call (UpdateSecret sec) x :: rest ∧
    ObjectKey (sec_Meta sec) = secretRef (operator_source githubURL) ∧
    exec (mintAppJWT (operator_source githubURL))
      [Call (GetSecret (ObjectKey (sec_Meta sec))) (Ok (sec_Data sec)); Call Clock now]
      (buildAppJWT (gc_ID creds) key now) ∧
    Iss (claims_at (gc_ID creds) now) = pretty (gc_ID creds) ∧
    (0 < Exp (claims_at (gc_ID creds) now) - Iat (claims_at (gc_ID creds) now) < 600)%Z.
Proof.
  intros [Hid Hpem]%conversion_Ok Hmax Hkey Hw.
  unfold writeGitHubSecrets, blindUpdateSecret in Hw. destruct Hw as (x & rest & -> & _).
  eexists _, x, rest. split; [done|]. cbn [sec_Meta sec_Data]. split; [done|]. split; [|split; [done|]].
  - unfold mintAppJWT, loadCredentials. cbn [prog_bind trigger].
    eexists _, _. split; [done|]. change AppIDKey with githubAppIDKey. change PrivateKeyKey with githubAppPrivateKeyKey.
    cbv beta iota zeta. rewrite lookup_insert_eq. cbn [default from_option id].
    rewrite decide_False.
    2:{ intros Hn. assert (Hb : bytes (pretty (gc_ID creds)) = []) by (by rewrite Hn).
        destruct (gc_ID creds) as [|p|p]; [lia| |lia]. by destruct (pretty_pos_digits p) as [Hne _]. }
    rewrite ParseInt10_pretty by done.
    rewrite lookup_insert_ne, lookup_singleton_eq by done. cbn [default from_option id]. rewrite decide_False by done.
    rewrite Hkey. cbn [prog_bind trigger]. by exists now, [].
  - destruct (claims_window (gc_ID creds) now) as [-> _]. lia.
Qed.
