(* ===== verification/GitHubLink.v ===== *)
(** * The dispatcher on GitHub

    Links the dispatcher ([Dispatcher.v]) to the token source of [GitHubApp.v] the way
    [operator/main.go] wires them: the commit resolver the dispatcher calls is
    [TokenSource.ResolveCommit], whose cache lives as long as the process.  The example at
    the end runs the linked dispatcher against a small GitHub. *)
From S2P Require Import Prelude Regex GoStrings Effects Sha256 Kube Api Names Features Dispatcher RateLimit Session.
From S2P Require Import Credentials ApiServer ApiGitHub GitHubApp.
From Stdlib Require Import Ascii.

Inductive OperatorE (X : Set) : Type :=
| Disp (e : DispatchE X)
| GitHub (e : AppE X).
Arguments Disp {_} _.
Arguments GitHub {_} _.

Definition disp_of (c : call OperatorE) : option (call DispatchE) :=
  match c with Call (Disp e) x => Some (Call e x) | _ => None end.
Definition app_of (c : call OperatorE) : option (call AppE) :=
  match c with Call (GitHub e) x => Some (Call e x) | _ => None end.

Section link.
Context `{UnicodeTables} {lib : AppLib} (s : TokenSource) (d : Dispatcher).

Definition pass {X : Set} (e : DispatchE X) (c : cache) : prog OperatorE (X * cache) :=
  let! x := trigger (Disp e) in Ret (x, c).
Definition github_link (X : Set) (e : DispatchE X) (c : cache) : prog OperatorE (X * cache) :=
  match e in DispatchE X return prog OperatorE (X * cache) with
  | GitHubResolve repo ref => lift (λ X, @GitHub X) (ResolveCommit s c repo ref)
  | ListBuilds => pass ListBuilds c
  | ListApps => pass ListApps c
  | ClaimNext => pass ClaimNext c
  | Ack del => pass (Ack del) c
  | Nack del => pass (Nack del) c
  | GitResolve url ref => pass (GitResolve url ref) c
  | CreateBuild b => pass (CreateBuild b) c
  end.

(** The loop of [Start], for as many firings of its ticker. *)
Fixpoint ticks (n : nat) : prog DispatchE unit :=
  match n with
  | O => Ret tt
  | S n => let! _ := tick d in ticks n
  end.

(** ** The resolver's part of a run *)
Lemma lifted_trace tr :
  omap disp_of (lift_call (λ X, @GitHub X) <$> tr) = [] ∧ omap app_of (lift_call (λ X, @GitHub X) <$> tr) = tr.
Proof. induction tr as [|[X e x] tr [IH1 IH2]]; [done|]. cbn [fmap list_fmap omap list_omap lift_call disp_of app_of]. split; [exact IH1|by f_equal]. Qed.

(** Every call but the resolver's goes through unchanged. *)
Lemma pass_inv {X : Set} (e : DispatchE X) c tr x c' :
  exec (pass e c) tr (x, c') → c' = c ∧ tr = [Call (Disp e) x].
Proof. intros (y & t & -> & -> & [= -> ->]). done. Qed.

Definition resolves (c : call DispatchE) : option (string * string * string) :=
  match c with
  | Call e x =>
      match e in DispatchE X return X → _ with
      | GitHubResolve repo ref => λ x, match x with Ok sha => Some (repo, ref, sha) | Err _ => None end
      | _ => λ _, None
      end x
  end.

Lemma linked_trace tr0 tr c trF c' :
  cache_ok s tr0 c → carries github_link tr c trF c' →
  omap created (omap disp_of trF) = omap created tr ∧
  (∀ repo ref sha, (repo, ref, sha) ∈ omap resolves tr →
    ∃ before during, before ++ during `prefix_of` tr0 ++ omap app_of trF ∧ resolved s before during repo ref sha).
Proof.
  revert tr0 c trF. induction tr as [|[X e x] tr IH]; intros tr0 c trF Hc; cbn [carries].
  { intros [-> ->]. split; [done|]. by intros ? ? ? ?%not_elem_of_nil. }
  intros (t1 & t2 & c1 & -> & He & Hk). destruct e.
  6:{ cbn [github_link] in He. apply exec_lift in He as (t & -> & He).
      destruct (ResolveCommit_spec s _ _ _ _ _ _ _ Hc He) as [Hc1 Hr]. destruct (lifted_trace t) as [L1 L2].
      destruct (IH _ _ _ Hc1 Hk) as [I1 I2]. rewrite !omap_app, L1, L2. split; [exact I1|].
      intros repo0 ref0 sha Hin. destruct x as [sha'|err]; [apply elem_of_cons in Hin as [[= -> -> ->]|Hin]|].
      - exists tr0, t. split; [rewrite app_assoc; by eexists|by apply Hr].
      - rewrite app_assoc. by apply I2.
      - rewrite app_assoc. by apply I2. }
  all: cbn [github_link] in He; apply pass_inv in He as [-> ->]; destruct (IH _ _ _ Hc Hk) as [I1 I2];
    split; [|exact I2]; rewrite omap_app; cbn [omap list_omap disp_of app created]; rewrite ?I1; done.
Qed.

(** ** The Builds of a run *)
Lemma tick_loop_genuine n tr u b x :
  exec (tick_loop d n) tr u → (b, x) ∈ omap created tr → ∃ del app, genuine d tr del app b.
Proof.
  revert tr. induction n as [|n IH]; intros tr; cbn [tick_loop].
  { intros [-> _] []%not_elem_of_nil. }
  rewrite exec_bind. intros (tr1 & tr2 & [p err] & -> & Hp & Hk). rewrite omap_app, elem_of_app. intros [Hin|Hin].
  - apply processOne_spec in Hp as (c & tr' & -> & Hc). cbn [omap list_omap created] in Hin.
    destruct c as [[del|]|e]; [|destruct Hc as [-> _]; by apply not_elem_of_nil in Hin..].
    destruct Hc as (mid & ack & herr & y & Hh & -> & _). destruct (handle_spec _ _ _ _ _ Hh) as (_ & _ & Hg & _).
    assert (Hmid : (b, x) ∈ omap created mid) by (rewrite omap_app in Hin; destruct ack; cbn in Hin; by rewrite app_nil_r in Hin).
    destruct (Hg _ _ Hmid) as (_ & _ & app & _ & _ & Hgen). exists del, app.
    apply genuine_mono. left. apply (genuine_mono d [_]). right. apply genuine_mono. by left.
  - assert (Hgo : ∃ del app, genuine d tr2 del app b).
    { destruct p, err; try (by destruct Hk as [-> _]; apply not_elem_of_nil in Hin). by apply IH. }
    destruct Hgo as (del & app & Hgen). exists del, app. apply genuine_mono. by right.
Qed.

Lemma ticks_genuine n tr u b x :
  exec (ticks n) tr u → (b, x) ∈ omap created tr → ∃ del app, genuine d tr del app b.
Proof.
  revert tr. induction n as [|n IH]; intros tr; cbn [ticks].
  { intros [-> _] []%not_elem_of_nil. }
  rewrite exec_bind. intros (tr1 & tr2 & v & -> & (r & t & -> & Ht) & Hk). cbn [prog_bind] in Ht.
  rewrite omap_app, elem_of_app. intros [Hin|Hin].
  - cbn [omap list_omap created] in Hin. destruct r as [builds|e]; [|destruct Ht as [-> _]; by apply not_elem_of_nil in Hin].
    cbn [map_ok] in Ht. destruct (tick_loop_genuine _ _ _ _ _ Ht Hin) as (del & app & Hg). exists del, app.
    apply genuine_mono. left. apply (genuine_mono d [_]). by right.
  - destruct (IH _ Hk Hin) as (del & app & Hg). exists del, app. apply genuine_mono. by right.
Qed.

Lemma genuine_resolves tr del app b gh :
  genuine d tr del app b → source_GitHub (build_Source (build_Spec b)) = Some gh →
  (github_Repo gh, github_Ref gh, build_Commit (build_Spec b)) ∈ omap resolves tr.
Proof.
  intros (_ & sub & sha & x & Hr & (a & z & ->) & ->) Hgh. change (source_GitHub (app_Source (app_Spec app)) = Some gh) in Hgh.
  change (build_Commit _) with sha. unfold resolveCommit in Hr. rewrite Hgh in Hr.
  destruct (d_hasGitHub d); [|by destruct Hr]. destruct Hr as (y & t & -> & -> & <-).
  rewrite !omap_app. apply elem_of_app. right. apply elem_of_app. left. by left.
Qed.

(** C11. End to end, however long the operator runs and whatever the cluster, the queue and
    the network answer: a Build that the dispatcher creates for a GitHub App is pinned to a
    commit that GitHub's API gave for the repository and ref of the Build's own source,
    read with a token GitHub issued for that repository's installation and still good. *)
Theorem dispatched_commit_authoritative n tr u c b x gh :
  exec (interp github_link (ticks n) ∅) tr (u, c) →
  (b, x) ∈ omap created (omap disp_of tr) → source_GitHub (build_Source (build_Spec b)) = Some gh →
  ∃ before during, before ++ during `prefix_of` omap app_of tr ∧
    resolved s before during (github_Repo gh) (github_Ref gh) (build_Commit (build_Spec b)).
Proof.
  intros (trD & Hex & Hcar)%exec_interp Hin Hgh.
  assert (H0 : cache_ok s [] ∅) by (intros id t Ht; by rewrite lookup_empty in Ht).
  destruct (linked_trace [] _ _ _ _ H0 Hcar) as [Hcr Hres]. rewrite Hcr in Hin.
  destruct (ticks_genuine _ _ _ _ _ Hex Hin) as (del & app & Hgen). apply Hres. by eapply genuine_resolves.
Qed.
End link.

(** ** A worked example *)
Module GitHubExample.
Import DispatcherExample.
#[export] Instance tables : UnicodeTables := ascii_tables.
Definition far : Z := 10 ^ 19.
#[export] Instance lib : AppLib := {|
  RsaKey := string;
  pem_Decode pem := Some pem;
  ParsePKCS1PrivateKey block := Some block;
  ParsePKCS8PrivateKey _ := Err "not PKCS#8";
  SignPKCS1v15 _ digest := Ok digest;
  request_error _ _ := None;
  unmarshal_token body := Ok (body, far);
  unmarshal_commit body := Ok body;
  unmarshal_installation _ := Ok 7%Z;
  unmarshal_repo body := Ok body |}.
#[export] Instance json : GitHubJSON := {|
  marshal_manifest _ := Ok ""; marshal_githubFlow _ := Ok ""; unmarshal_githubFlow _ := None;
  unmarshal_conversion body := Ok {| gc_ID := 42; gc_Slug := "orkano"; gc_PEM := body; gc_WebhookSecret := "w" |} |}.
Definition src : TokenSource := operator_source "".

Definition http (status : Z) (body : string) : result string HttpReply :=
  Ok {| hp_StatusCode := status; hp_Status := ""; hp_Body := Ok body |}.
(** A GitHub whose App is installed on every repository, or on none. *)
Definition answer (installed : bool) (req : HttpRequest) : result string HttpReply :=
  if decide (hr_Method req = "POST") then http 201 "ghs_token"
  else if HasSuffix (hr_URL req) "/installation" then if installed then http 200 "" else http 404 ""
  else if Contains (hr_URL req) "/commits/" then http 200 commit else http 200 "main".
Definition github (installed : bool) (X : Set) (e : AppE X) (u : unit) : X * unit :=
  match e in AppE X return X * unit with
  | GetSecret _ => (Ok {[AppIDKey := "42"; PrivateKeyKey := "pem"]}, u)
  | Clock => (1700000000000000000%Z, u)
  | HttpDo _ req _ => (answer installed req, u)
  end.
Definition operator (X : Set) (e : OperatorE X) (w : world) : X * world :=
  match e with
  | Disp e => environment X e w
  | GitHub e => ((github true X e tt).1, w)
  end.

Definition requests : list (string * string) := [("acme/shop", ""); ("acme/blog", "release/1.x")].
Definition resolving := run (github true) (resolve_all src ∅ requests) tt.
Definition refusing := run (github false) (ResolveCommit src ∅ "acme/shop" "") tt.
Definition operating := run operator (interp (github_link src) (ticks (dispatcher 1) 2) ∅) (queue, []).

Lemma github_resolving_exec : exec (resolve_all src ∅ requests) resolving.1.2 (resolving.1.1.1, resolving.1.1.2).
Proof. rewrite <- surjective_pairing. exact (run_exec (github true) (resolve_all src ∅ requests) tt). Qed.
Lemma refusing_exec : exec (ResolveCommit src ∅ "acme/shop" "") refusing.1.2 (refusing.1.1.1, refusing.1.1.2).
Proof. rewrite <- surjective_pairing. exact (run_exec (github false) (ResolveCommit src ∅ "acme/shop" "") tt). Qed.
Lemma operating_exec :
  exec (interp (github_link src) (ticks (dispatcher 1) 2) ∅) operating.1.2 (operating.1.1.1, operating.1.1.2).
Proof.
  rewrite <- surjective_pairing.
  exact (run_exec operator (interp (github_link src) (ticks (dispatcher 1) 2) ∅) (queue, [])).
Qed.
Lemma resolving_results : resolving.1.1.1 = [Ok commit; Ok commit].
Proof. vm_compute. reflexivity. Qed.
(** One mint serves both repositories of the installation. *)
Lemma resolving_mints : length (filter (λ p, hr_Method p.1 = "POST") (omap exchanged resolving.1.2)) = 1.
Proof. vm_compute. reflexivity. Qed.
End GitHubExample.
Import GitHubExample.

Lemma resolve_authoritative_witness :
  ∃ before during, before ++ during `prefix_of` resolving.1.2 ∧
    resolved src before during "acme/shop" "" DispatcherExample.commit.
Proof.
  pose proof (resolve_authoritative src _ _ _ _ github_resolving_exec) as HF. rewrite resolving_results in HF.
  apply Forall2_cons in HF as [H1 _]. exact (H1 _ eq_refl).
Defined.

Lemma credentials_confined_witness :
  ∃ before c after req resp,
    resolving.1.2 = before ++ c :: after ∧ exchanged c = Some (req, resp) ∧ hr_Method req = "GET" ∧
    confined src requests before req ∧ Forall (λ c, call_ok safe_client c = true) resolving.1.2.
Proof.
  assert (Hc : is_Some (resolving.1.2 !! 2)) by (vm_compute; eexists; reflexivity). destruct Hc as [c Hc].
  assert (Hx : ∃ p, exchanged c = Some p ∧ hr_Method p.1 = "GET")
    by (vm_compute in Hc; apply Some_inj in Hc as <-; by eexists).
  destruct Hx as ([req resp] & Hx & Hg). destruct (credentials_confined src requests _ _ github_resolving_exec) as [Hconf Hsafe].
  exists (take 2 resolving.1.2), c, (drop 3 resolving.1.2), req, resp.
  assert (Heq : resolving.1.2 = take 2 resolving.1.2 ++ c :: drop 3 resolving.1.2) by (symmetry; by apply take_drop_middle).
  split_and!; [exact Heq|exact Hx|exact Hg|by eapply Hconf|exact Hsafe].
Defined.

Lemma drop_iff_definitive_witness :
  ∃ p, last (omap exchanged refusing.1.2) = Some p ∧ definitive src "acme" "shop" p ∧ ∃ e, refusing.1.1.1 = Err (Unresolvable e).
Proof.
  assert (Hl : ∃ p, last (omap exchanged refusing.1.2) = Some p ∧ definitive src "acme" "shop" p).
  { eexists. split; [vm_compute; reflexivity|]. split; [done|]. eexists _, _. split_and!; [done..|by left]. }
  destruct Hl as (p & Hl & Hd). exists p. split_and!; [done..|].
  apply (drop_iff_definitive src _ _ _ _ _ _ refusing_exec). right. by exists "acme", "shop", p.
Defined.

Lemma connected_credentials_load_witness :
  (0 < Exp (claims_at 42 0) - Iat (claims_at 42 0) < 600)%Z.
Proof.
  destruct (connected_credentials_load "" "https://api.github.com" "code"
    [Call (PostConversion "https://api.github.com/app-manifests/code/conversions" maxConversionRespBytes) (Ok (201%Z, "", Ok "pem"))]
    {| gc_ID := 42; gc_Slug := "orkano"; gc_PEM := "pem"; gc_WebhookSecret := "w" |}
    [Call (UpdateSecret {| sec_Meta := new_meta systemNamespace githubAppSecretName ∅ ∅; sec_Type := SecretTypeOpaque;
       sec_Data := {[githubAppIDKey := pretty 42%Z; githubAppPrivateKeyKey := "pem"]} |}) (Err (KOther ""))]
    (Err (KOther "")) ("pem" : RsaKey (AppLib := lib)) 0) as (sec & x & rest & _ & _ & _ & _ & Hw);
    [by eexists _, _|by vm_compute|done|by eexists _, _|exact Hw].
Defined.

Lemma dispatched_commit_authoritative_witness :
  ∃ before during, before ++ during `prefix_of` omap app_of operating.1.2 ∧
    resolved src before during "acme/shop" "" DispatcherExample.commit.
Proof.
  exact (dispatched_commit_authoritative src _ _ _ _ _
    (build_for (DispatcherExample.app "shop-web" "acme/shop") DispatcherExample.commit (DispatcherExample.push 1 "d1" "acme/shop"))
    (Ok ()) {| github_Repo := "acme/shop"; github_Ref := "" |} operating_exec ltac:(vm_compute; left) eq_refl).
Defined.
