(* ===== verification/PlatformSecrets.v ===== *)
(** * The platform's generate-once Secrets

    [internal/platformsecrets] (the credentials an install generates and the ordered table
    of Secrets that hold them), the in-cluster seeder [operator/internal/bootstrap], the
    role set-up [internal/db/roles.go], and [orkano bootstrap-token]
    ([cli/internal/cmd/bootstraptoken.go]).

    Random bytes, the API server, Postgres, the clock and the terminal are calls with
    arbitrary replies.  [seed_step] says what a call does to the Secrets of the namespace;
    a failed request may have been carried out, and other writers may add Secrets at any
    time.  The rollout wait has fuel for the 62 polls that fit its two minutes
    ([rollout_wait_returns]). *)
From S2P Require Import Prelude Regex GoStrings Effects Sha256 Kube RepoAllowlist RateLimit AesGcm Credentials.
From S2P Require Import Session ApiServer ApiGitHub ApiSetup.
From Stdlib Require Import Ascii.

(** Go on with the value of a reply, or return its error. *)
Notation "'try!' x := p 'in' k" := (prog_bind p (λ r, match r with Ok x => k | Err e => Ret (Err e) end))
  (at level 10, x binder, p at level 200, k at level 200) : prog_scope.

(** ** Names *)
Definition Namespace : string := "orkano-system".
Definition postgresDSNHost : string := "orkano-postgres.orkano-system.svc".
Definition NameSuperuser : string := "orkano-postgres-superuser".
Definition NameOperatorDB : string := "orkano-operator-db".
Definition NameReceiverDB : string := "orkano-receiver-db".
Definition NameDashboardDB : string := "orkano-dashboard-db".
Definition NameDashboardEncKey : string := "orkano-dashboard-enc-key".
Definition NameBootstrapToken : string := "orkano-bootstrap-token".
Definition NameGitHubApp : string := "orkano-github-app".
Definition KeyPassword : string := "password".
Definition KeyDSN : string := "dsn".
Definition KeyEncKey : string := "key".
Definition KeyTokenSHA256 : string := "token-sha256".

Record Values : Type := {
  v_SuperuserPassword : string;
  v_ReceiverPassword : string;
  v_DispatcherPassword : string;
  v_DashboardPassword : string;
  v_WebhookSecret : string;
  v_BootstrapToken : string;
  v_DashboardEncKey : string;
}.
Record Spec : Type := { spec_Name : string; spec_Data : gmap string string }.

(** [base64.StdEncoding.EncodeToString] *)
Definition padding (n : nat) : list ascii := replicate ((3 - n mod 3) mod 3) "="%char.
Definition std_encode (l : list ascii) : list ascii := raw_encode std_alphabet l ++ padding (length l).

(** ** Generating *)
Section generate.
Context {E : Set → Type} (rand : nat → prog E (result string (list ascii))).

Definition randomHex (n : nat) : prog E (result string string) :=
  let! b := random_bytes rand n in
  Ret (match b with
       | Err e => Err ("platformsecrets: generate random bytes: " +:+ e)
       | Ok b => Ok (EncodeToString b)
       end).
Definition randomKeyB64 (n : nat) : prog E (result string string) :=
  let! b := random_bytes rand n in
  Ret (match b with
       | Err e => Err ("platformsecrets: generate key: " +:+ e)
       | Ok b => Ok (of_bytes (std_encode b))
       end).
Definition GenerateBootstrapToken : prog E (result string string) :=
  let! b := random_bytes rand 32 in
  Ret (match b with
       | Err e => Err ("platformsecrets: generate token: " +:+ e)
       | Ok b => Ok (of_bytes (raw_encode url_alphabet b))
       end).

Definition Generate : prog E (result string Values) :=
  try! superuser := randomHex 24 in
  try! receiver := randomHex 24 in
  try! dispatcher := randomHex 24 in
  try! dashboard := randomHex 24 in
  try! webhook := randomHex 24 in
  try! token := GenerateBootstrapToken in
  try! key := randomKeyB64 32 in
  Ret (Ok {| v_SuperuserPassword := superuser; v_ReceiverPassword := receiver; v_DispatcherPassword := dispatcher;
             v_DashboardPassword := dashboard; v_WebhookSecret := webhook; v_BootstrapToken := token;
             v_DashboardEncKey := key |}).
End generate.

(** ** The table *)
Definition HashToken (raw : string) : string := EncodeToString (Sum256 (bytes raw)).
Definition RoleDSN (role password : string) : string :=
  "postgres://" +:+ role +:+ ":" +:+ password +:+ "@" +:+ postgresDSNHost +:+ ":5432/orkano?sslmode=disable".

Fixpoint first_empty (fields : list (string * string)) : option string :=
  match fields with
  | [] => None
  | (name, value) :: fields =>
      if decide (value = "") then Some ("platformsecrets: " +:+ name +:+ " is empty") else first_empty fields
  end.
Definition validate (v : Values) : option string :=
  first_empty [("SuperuserPassword", v_SuperuserPassword v); ("ReceiverPassword", v_ReceiverPassword v);
               ("DispatcherPassword", v_DispatcherPassword v); ("DashboardPassword", v_DashboardPassword v);
               ("WebhookSecret", v_WebhookSecret v); ("BootstrapToken", v_BootstrapToken v);
               ("DashboardEncKey", v_DashboardEncKey v)].

Definition role_secret (name role password : string) : Spec :=
  {| spec_Name := name; spec_Data := {[KeyPassword := password; KeyDSN := RoleDSN role password]} |}.
Definition spec_table (v : Values) : list Spec :=
  [role_secret NameSuperuser "orkano" (v_SuperuserPassword v);
   role_secret NameOperatorDB "orkano_dispatcher" (v_DispatcherPassword v);
   role_secret NameReceiverDB "orkano_receiver" (v_ReceiverPassword v);
   role_secret NameDashboardDB "orkano_dashboard" (v_DashboardPassword v);
   {| spec_Name := NameDashboardEncKey; spec_Data := {[KeyEncKey := v_DashboardEncKey v]} |};
   {| spec_Name := NameWebhook; spec_Data := {[KeyWebhookSecret := v_WebhookSecret v]} |};
   {| spec_Name := NameBootstrapToken; spec_Data := {[KeyTokenSHA256 := HashToken (v_BootstrapToken v)]} |};
   {| spec_Name := NameGitHubApp; spec_Data := ∅ |};
   {| spec_Name := NameOIDC; spec_Data := ∅ |}].
Definition Specs (v : Values) : result string (list Spec) :=
  match validate v with
  | Some e => Err e
  | None => Ok (spec_table v)
  end.

(** ** Calls *)
Record Rollout : Set := {
  ro_SpecReplicas : option Z;
  ro_Generation : Z;
  ro_ObservedGeneration : Z;
  ro_Replicas : Z;
  ro_UpdatedReplicas : Z;
  ro_AvailableReplicas : Z;
}.
Inductive SetupE : Set → Type :=
| RandRead (n : nat) : SetupE (result string (list ascii))
| CreateSecret (sec : Secret) : SetupE (result ApiError unit)
| GetSecret (name : string) : SetupE (result ApiError Secret)
| UpdateSecret (sec : Secret) : SetupE (result ApiError unit)
| CreateConfigMap (name : string) (data : gmap string string) : SetupE (result ApiError unit)
| NewClient (kubeconfig : string) : SetupE (result string unit)
| PatchDeployment (name patch : string) : SetupE (result ApiError unit)
| GetDeployment (name : string) : SetupE (result ApiError Rollout)
| SetupNow : SetupE Z
(** waiting for the poll interval; [false] when the context ends first *)
| Pause (d : Z) : SetupE bool
| PrintLine (text : string) : SetupE unit.
Definition rand_read (n : nat) : prog SetupE (result string (list ascii)) := trigger (RandRead n).

(** ** Seeding from inside the cluster *)
Record SeedResult : Type := { res_Created : list string; res_Existed : list string }.
Definition spec_secret (s : Spec) : Secret :=
  {| sec_Meta := new_meta "" (spec_Name s) ∅ ∅; sec_Type := SecretTypeOpaque; sec_Data := spec_Data s |}.

Fixpoint seed_loop (specs : list Spec) (res : SeedResult) : prog SetupE (SeedResult * option string) :=
  match specs with
  | [] => Ret (res, None)
  | s :: specs =>
      let! r := trigger (CreateSecret (spec_secret s)) in
      match r with
      | Ok _ => seed_loop specs {| res_Created := res_Created res ++ [spec_Name s]; res_Existed := res_Existed res |}
      | Err e =>
          if IsAlreadyExists e then
            seed_loop specs {| res_Created := res_Created res; res_Existed := res_Existed res ++ [spec_Name s] |}
          else Ret (res, Some ("create secret " +:+ spec_Name s +:+ ": " +:+ api_text e))
      end
  end.
Definition no_result : SeedResult := {| res_Created := []; res_Existed := [] |}.

(** [(result, error)]; the result is nil only with an error *)
Definition seed (v : Values) : prog SetupE (option SeedResult * option string) :=
  match Specs v with
  | Err e => Ret (None, Some e)
  | Ok specs => let! r := seed_loop specs no_result in Ret (Some r.1, r.2)
  end.
Definition SeedSecrets : prog SetupE (option SeedResult * option string) :=
  let! v := Generate rand_read in
  match v with
  | Err e => Ret (None, Some e)
  | Ok v => seed v
  end.

Definition ConfigMapName : string := "orkano-repo-allowlist".
Definition DataKey : string := "repositories".
Inductive SeedPolicyError : Type := BadPolicy (e : AllowlistError) | PolicyWrite (text : string).
Definition SeedRepoAllowlist `{UnicodeTables} (repos : list string) : prog SetupE (result SeedPolicyError bool) :=
  match Format repos with
  | Err e => Ret (Err (BadPolicy e))
  | Ok data =>
      let! r := trigger (CreateConfigMap ConfigMapName {[DataKey := data]}) in
      Ret (match r with
           | Ok _ => Ok true
           | Err e => if IsAlreadyExists e then Ok false
                      else Err (PolicyWrite ("create configmap " +:+ ConfigMapName +:+ ": " +:+ api_text e))
           end)
  end.

(** ** The database roles *)
Definition ReceiverRole : string := "orkano_receiver".
Definition DispatcherRole : string := "orkano_dispatcher".
Definition DashboardRole : string := "orkano_dashboard".
Record RolePasswords : Type := { rp_Receiver : string; rp_Dispatcher : string; rp_Dashboard : string }.
(** [^[A-Za-z0-9._~-]+$] *)
Definition safe_char (c : ascii) : bool := is_alnum c || one_of "._~-" c.
Definition safePassword : re := Plus (Cls safe_char).

Inductive RoleE : Set → Type :=
| OpenDB (dsn : string) : RoleE (result string unit)
| ExecSQL (statement : string) : RoleE (result string unit).

Fixpoint unsafe_role (roles : list (string * string)) : option string :=
  match roles with
  | [] => None
  | (name, password) :: roles =>
      if decide (password = "") then Some ("password for " +:+ name +:+ " is empty")
      else if negb (MatchString safePassword password) then Some ("password for " +:+ name +:+ " contains unsupported characters")
      else unsafe_role roles
  end.
Definition alter_role (role password : string) : string := "ALTER ROLE " +:+ role +:+ " LOGIN PASSWORD '" +:+ password +:+ "'".
Fixpoint set_passwords (roles : list (string * string)) : prog RoleE (option string) :=
  match roles with
  | [] => Ret None
  | (name, password) :: roles =>
      let! r := trigger (ExecSQL (alter_role name password)) in
      match r with
      | Err e => Ret (Some ("set password for " +:+ name +:+ ": " +:+ e))
      | Ok _ => set_passwords roles
      end
  end.
Definition role_list (pw : RolePasswords) : list (string * string) :=
  [(ReceiverRole, rp_Receiver pw); (DispatcherRole, rp_Dispatcher pw); (DashboardRole, rp_Dashboard pw)].
Definition SetupRoles (superuserDSN : string) (pw : RolePasswords) : prog RoleE (option string) :=
  match unsafe_role (role_list pw) with
  | Some e => Ret (Some e)
  | None =>
      let! r := trigger (OpenDB superuserDSN) in
      match r with
      | Err e => Ret (Some ("open db: " +:+ e))
      | Ok _ => set_passwords (role_list pw)
      end
  end.

(** ** A new bootstrap token *)
Definition dashboardDeployment : string := "orkano-dashboard".
Definition rolloutWaitTimeout : Z := 2 * Minute.
Definition rolloutPollInterval : Z := 2 * Second.
Definition rolloutPolls : nat := 62.

Definition rolloutComplete (dep : Rollout) : bool :=
  match ro_SpecReplicas dep with
  | None => false
  | Some replicas =>
      if decide (ro_ObservedGeneration dep < ro_Generation dep)%Z then false
      else bool_decide (replicas ≤ ro_UpdatedReplicas dep)%Z && bool_decide (ro_Replicas dep ≤ ro_UpdatedReplicas dep)%Z &&
           bool_decide (ro_UpdatedReplicas dep ≤ ro_AvailableReplicas dep)%Z
  end.

(** [None]: more polls than the fuel *)
Fixpoint rollout_loop (fuel : nat) (deadline : Z) : prog SetupE (option bool) :=
  match fuel with
  | O => Ret None
  | S fuel =>
      let! dep := trigger (GetDeployment dashboardDeployment) in
      if (match dep with Ok dep => rolloutComplete dep | Err _ => false end) then Ret (Some true)
      else
        let! now := trigger SetupNow in
        if decide (deadline < now)%Z then Ret (Some false)
        else
          let! more := trigger (Pause rolloutPollInterval) in
          if more : bool then rollout_loop fuel deadline else Ret (Some false)
  end.
Definition waitDashboardRollout : prog SetupE (option bool) :=
  let! now := trigger SetupNow in
  rollout_loop rolloutPolls (now + rolloutWaitTimeout).

Definition hash_secret (hash : string) : Secret :=
  {| sec_Meta := new_meta Namespace NameBootstrapToken ∅ ∅; sec_Type := SecretTypeOpaque;
     sec_Data := {[KeyTokenSHA256 := hash]} |}.
Definition with_hash (sec : Secret) (hash : string) : Secret :=
  {| sec_Meta := sec_Meta sec; sec_Type := sec_Type sec; sec_Data := <[KeyTokenSHA256 := hash]> (sec_Data sec) |}.
Definition attempts : nat := 3.
Fixpoint update_hash (n : nat) (hash : string) : prog SetupE (option string) :=
  match n with
  | O => Ret (Some ("update secret " +:+ NameBootstrapToken +:+ ": conflicted 3 times"))
  | S n =>
      let! sec := trigger (GetSecret NameBootstrapToken) in
      match sec with
      | Err e => Ret (Some ("read secret " +:+ NameBootstrapToken +:+ ": " +:+ api_text e))
      | Ok sec =>
          let! u := trigger (UpdateSecret (with_hash sec hash)) in
          match u with
          | Ok _ => Ret None
          | Err e =>
              if IsConflict e then update_hash n hash
              else Ret (Some ("update secret " +:+ NameBootstrapToken +:+ ": " +:+ api_text e))
          end
      end
  end.
Definition storeTokenHash (hash : string) : prog SetupE (option string) :=
  let! c := trigger (CreateSecret (hash_secret hash)) in
  match c with
  | Ok _ => Ret None
  | Err e =>
      if IsAlreadyExists e then update_hash attempts hash
      else Ret (Some ("create secret " +:+ NameBootstrapToken +:+ ": " +:+ api_text e))
  end.

Section bootstrap_token.
Context `{UnicodeTables, TimeLib}.

Definition q (s : string) : string := String (byte 34) "" +:+ s +:+ String (byte 34) "".
Definition restart_patch (now : Z) : string :=
  "{" +:+ q "spec" +:+ ":{" +:+ q "template" +:+ ":{" +:+ q "metadata" +:+ ":{" +:+ q "annotations" +:+ ":{" +:+
  q "kubectl.kubernetes.io/restartedAt" +:+ ":" +:+ Quote (FormatRFC3339 now) +:+ "}}}}}".
Definition restartDashboard : prog SetupE (result ApiError unit) :=
  let! now := trigger SetupNow in
  trigger (PatchDeployment dashboardDeployment (restart_patch now)).

Definition nl : string := String (byte 10) "".
Definition token_text (token : string) : string :=
  nl +:+ "Bootstrap token (shown once; store it now):" +:+ nl +:+ "  " +:+ token +:+ nl +:+ nl +:+
  "Only its sha256 hash is stored, so the plaintext token cannot be recovered." +:+ nl +:+
  "Redeem it at first dashboard login. Any bootstrap token issued earlier no longer" +:+ nl +:+
  "works. If an admin account already exists, redeeming returns " +:+ q ("already" +:+ nl +:+ "bootstrapped") +:+
  " and no token can create a second one; recover that account instead." +:+ nl.

(** What is said about the restart; none of it can fail. *)
Definition report_restart : prog SetupE unit :=
  let! r := restartDashboard in
  match r with
  | Err (NotFound _) =>
      trigger (PrintLine ("deploy/" +:+ dashboardDeployment +:+ " not found; it will read the new hash when it first starts" +:+ nl))
  | Err e =>
      trigger (PrintLine ("could not restart deploy/" +:+ dashboardDeployment +:+ ": " +:+ api_text e +:+ nl +:+
        "Restart it yourself, or the dashboard keeps comparing against the previous hash:" +:+ nl +:+
        "  kubectl -n " +:+ Namespace +:+ " rollout restart deploy/" +:+ dashboardDeployment +:+ nl))
  | Ok _ =>
      let! ready := waitDashboardRollout in
      match ready with
      | Some true => trigger (PrintLine ("dashboard restarted and ready; it now compares against the new hash" +:+ nl))
      | _ => trigger (PrintLine ("dashboard restart is still in progress; the new token is rejected until the restarted pod is Ready" +:+ nl))
      end
  end.

Definition runBootstrapToken (kubeconfig : string) : prog SetupE (option string) :=
  let! cs := trigger (NewClient kubeconfig) in
  match cs with
  | Err e => Ret (Some e)
  | Ok _ =>
      let! token := GenerateBootstrapToken rand_read in
      match token with
      | Err e => Ret (Some e)
      | Ok token =>
          let! st := storeTokenHash (HashToken token) in
          match st with
          | Some e => Ret (Some e)
          | None =>
              let! _ := trigger (PrintLine ("stored the new token hash in " +:+ Namespace +:+ "/" +:+ NameBootstrapToken +:+ nl)) in
              let! _ := report_restart in
              let! _ := trigger (PrintLine (token_text token)) in
              Ret None
          end
      end
  end.
End bootstrap_token.

(** ** Base64 with padding *)
Lemma raw_encode_symbols l : Forall (λ c, c ≠ "="%char ∧ c ≠ byte 10 ∧ c ≠ byte 13) (raw_encode std_alphabet l).
Proof.
  rewrite raw_encode_sextets. apply Forall_fmap. eapply Forall_impl; [apply sextets_range|]. intros i Hi.
  destruct (std_symbol i Hi) as (Hv & H1 & H2). split; [|done]. intros Heq. by rewrite Heq in Hv.
Qed.

Lemma raw_encode_length l : (length (raw_encode std_alphabet l) + (3 - length l mod 3) mod 3) mod 4 = 0.
Proof.
  induction l as [|a|a b|a b c l IH] using three_ind; [done..|].
  change (raw_encode std_alphabet (a :: b :: c :: l)) with
    ([symbol std_alphabet (byte_z a `div` 4); symbol std_alphabet (byte_z a `mod` 4 * 16 + byte_z b `div` 16);
      symbol std_alphabet (byte_z b `mod` 16 * 4 + byte_z c `div` 64); symbol std_alphabet (byte_z c `mod` 64)]%Z ++ raw_encode std_alphabet l).
  rewrite length_app. cbn [length]. 
  replace (S (S (S (length l)))) with (length l + 1 * 3) by lia. rewrite Nat.Div0.mod_add.
  replace (4 + length (raw_encode std_alphabet l) + (3 - length l mod 3) mod 3)
    with (length (raw_encode std_alphabet l) + (3 - length l mod 3) mod 3 + 1 * 4) by lia.
  by rewrite Nat.Div0.mod_add.
Qed.

(** What [padded_decode] takes off the end. *)
Lemma strip_padding (l : list ascii) n :
  n ≤ 2 → Forall (λ c, c ≠ "="%char) l →
  match rev (l ++ replicate n "="%char) with
  | "="%char :: "="%char :: body => (rev body, 2)
  | "="%char :: body => (rev body, 1)
  | body => (rev body, 0)
  end = (l, n).
Proof.
  intros Hn HF. rewrite rev_app_distr. assert (Hrev : Forall (λ c, c ≠ "="%char) (rev l)) by (by apply Forall_rev).
  destruct n as [|[|[|n]]]; [| | |lia]; cbn [replicate rev app].
  - destruct (rev l) as [|c t] eqn:El; [by rewrite <- (rev_involutive l), El|].
    apply Forall_cons in Hrev as [Hc _]. 
    replace l with (rev (c :: t)) by (rewrite <- El; apply rev_involutive).
    destruct c as [[] [] [] [] [] [] [] []]; done.
  - destruct (rev l) as [|c t] eqn:El; [by rewrite <- (rev_involutive l), El|].
    apply Forall_cons in Hrev as [Hc _].
    replace l with (rev (c :: t)) by (rewrite <- El; apply rev_involutive).
    destruct c as [[] [] [] [] [] [] [] []]; done.
  - by rewrite rev_involutive.
Qed.

(** [base64.StdEncoding]: decoding gives back what was encoded. *)
Lemma padded_decode_encode l : padded_decode std_alphabet (std_encode l) = Some l.
Proof.
  unfold padded_decode, std_encode, padding. pose proof (raw_encode_symbols l) as HF.
  set (n := (3 - length l mod 3) mod 3).
  assert (Hn : n ≤ 2) by (unfold n; pose proof (Nat.mod_upper_bound (3 - length l mod 3) 3); lia).
  rewrite no_newlines_id.
  2:{ apply Forall_app. split; [eapply Forall_impl; [exact HF|]; by intros c (? & ? & ?)|]. apply Forall_replicate. done. }
  rewrite strip_padding; [|done|eapply Forall_impl; [exact HF|]; by intros c (? & ? & ?)].
  rewrite decide_True by (unfold n; apply raw_encode_length). apply raw_decode_encode.
Qed.

(** ** Generated values work *)
Lemma hex_safe l : Forall (λ c, safe_char c = true) (bytes (EncodeToString l)).
Proof.
  eapply Forall_impl; [apply EncodeToString_hex|]. intros c Hc.
  pose proof (all_ascii_forall (λ c, implb (is_hex c) (safe_char c)) ltac:(vm_compute; reflexivity) c) as Hs.
  cbv beta in Hs. by rewrite Hc in Hs.
Qed.
Lemma bytes_nonempty s : bytes s ≠ [] → s ≠ "".
Proof. by intros Hs ->. Qed.
Lemma safe_password s : s ≠ "" → Forall (λ c, safe_char c = true) (bytes s) → MatchString safePassword s = true.
Proof. intros Hne HF. apply matchb_spec, plus_cls_match. split; [|done]. intros Hb. by destruct s. Qed.

(** A password that [SetupRoles] takes. *)
Definition role_password (s : string) : Prop := s ≠ "" ∧ MatchString safePassword s = true.

Section generated.
Context {E : Set → Type} (rand : nat → prog E (result string (list ascii))).

(** The bytes behind a value drawn successfully. *)
Lemma drawn_Ok {A} n (err : string → string) (f : list ascii → A) tr a :
  exec (let! b := random_bytes rand n in Ret (match b with Err e => Err (err e) | Ok b => Ok (f b) end)) tr (Ok a) →
  ∃ b, length b = n ∧ a = f b.
Proof.
  intros (tr1 & tr2 & b & _ & Hb & _ & E1)%exec_bind. destruct b as [b|e]; [|done].
  injection E1 as ->. exists b. split; [by eapply random_bytes_length|done].
Qed.

Lemma randomHex_Ok n tr s : exec (randomHex rand n) tr (Ok s) → 0 < n → len s = 2 * n ∧ role_password s.
Proof.
  intros (b & Hb & ->)%(drawn_Ok _ (String.append _)) Hn.
  assert (Hl : len (EncodeToString b) = 2 * n) by (by rewrite len_EncodeToString, Hb). split; [done|].
  assert (Hne : EncodeToString b ≠ "") by (intros Hz; rewrite Hz in Hl; cbn in Hl; lia).
  split; [done|]. apply safe_password; [done|apply hex_safe].
Qed.
Lemma randomKeyB64_Ok n tr s : exec (randomKeyB64 rand n) tr (Ok s) → ∃ b, length b = n ∧ s = of_bytes (std_encode b).
Proof. apply (drawn_Ok _ (String.append _)). Qed.
Lemma GenerateBootstrapToken_Ok tr s : exec (GenerateBootstrapToken rand) tr (Ok s) →
  ∃ b, length b = 32 ∧ s = of_bytes (raw_encode url_alphabet b).
Proof. apply (drawn_Ok _ (String.append _)). Qed.

Lemma NewCipher_generated b : length b = 32 → NewCipher (of_bytes (std_encode b)) = Ok {| cipher_key := b |}.
Proof. intros Hb. unfold NewCipher. rewrite bytes_of_bytes, padded_decode_encode. by rewrite decide_True. Qed.

Lemma token_nonempty b : length b = 32 → of_bytes (raw_encode url_alphabet b) ≠ "".
Proof.
  intros Hb. apply bytes_nonempty. rewrite bytes_of_bytes.
  destruct b as [|b0 [|b1 [|b2 b]]]; [done..|]. by cbn [raw_encode app].
Qed.
Lemma key_nonempty b : length b = 32 → of_bytes (std_encode b) ≠ "".
Proof.
  intros Hb. apply bytes_nonempty. rewrite bytes_of_bytes. unfold std_encode.
  destruct b as [|b0 [|b1 [|b2 b]]]; [done..|]. by cbn [raw_encode app].
Qed.

Ltac draw H := let t1 := fresh "t" in let t2 := fresh "t" in let r := fresh "r" in let Hd := fresh "Hd" in
  apply exec_bind in H as (t1 & t2 & r & -> & Hd & H); destruct r as [r|?]; [|by destruct H].

(** What an install generates works: every Secret of the table can be written, the four
    database passwords and the webhook secret are 48 hex digits that the role set-up
    accepts, the dashboard's cipher is built from the stored key with exactly the 32 random
    bytes drawn, and the stored token hash is the one the dashboard compares against, of a
    token that is not empty. *)
Theorem generated_usable tr v :
  exec (Generate rand) tr (Ok v) →
  Specs v = Ok (spec_table v) ∧
  Forall (λ s, len s = 48 ∧ role_password s)
    [v_SuperuserPassword v; v_ReceiverPassword v; v_DispatcherPassword v; v_DashboardPassword v; v_WebhookSecret v] ∧
  (∃ key, length key = aes256KeyLen ∧ NewCipher (v_DashboardEncKey v) = Ok {| cipher_key := key |}) ∧
  v_BootstrapToken v ≠ "" ∧ HashToken (v_BootstrapToken v) = Credentials.HashToken (v_BootstrapToken v) ∧
  unsafe_role (role_list {| rp_Receiver := v_ReceiverPassword v; rp_Dispatcher := v_DispatcherPassword v;
                            rp_Dashboard := v_DashboardPassword v |}) = None.
Proof.
  unfold Generate. intros H. do 7 draw H. destruct H as [_ [= ->]].
  repeat match goal with
  | H : exec (randomHex _ 24) _ (Ok _) |- _ => apply randomHex_Ok in H as [? [? ?]]; [|lia]
  end.
  match goal with H : exec (GenerateBootstrapToken _) _ (Ok _) |- _ => apply GenerateBootstrapToken_Ok in H as (tok & Htok & ->) end.
  match goal with H : exec (randomKeyB64 _ _) _ (Ok _) |- _ => apply randomKeyB64_Ok in H as (key & Hkey & ->) end.
  pose proof (token_nonempty tok Htok). pose proof (key_nonempty key Hkey). split_and!.
  - unfold Specs, validate. cbn [first_empty v_SuperuserPassword v_ReceiverPassword v_DispatcherPassword v_DashboardPassword
      v_WebhookSecret v_BootstrapToken v_DashboardEncKey]. by rewrite !decide_False by done.
  - repeat (apply Forall_cons; split; [done|]). constructor.
  - exists key. split; [done|]. by apply NewCipher_generated.
  - done.
  - done.
  - unfold role_list. cbn [unsafe_role rp_Receiver rp_Dispatcher rp_Dashboard v_ReceiverPassword v_DispatcherPassword v_DashboardPassword].
    repeat (rewrite decide_False by done; match goal with H : MatchString _ ?p = true |- context [MatchString _ ?p] => rewrite H end; cbn [negb]).
    done.
Qed.
End generated.

(** ** Seeding on the API server *)
Definition sec_name (sec : Secret) : string := meta_Name (sec_Meta sec).

(** What a call does to the Secrets of the namespace. *)
Definition seed_step (w : gmap string Secret) (c : call SetupE) (w' : gmap string Secret) : Prop :=
  match c with
  | Call e x =>
      match e in SetupE X return X → Prop with
      | CreateSecret sec => λ x,
          match x with
          | Ok _ => w !! sec_name sec = None ∧ w' = <[sec_name sec := sec]> w
          | Err e =>
              if IsAlreadyExists e then is_Some (w !! sec_name sec) ∧ w' = w
              else w' = w ∨ (w !! sec_name sec = None ∧ w' = <[sec_name sec := sec]> w)
          end
      | UpdateSecret sec => λ x,
          is_Some (w !! sec_name sec) ∧ w' = <[sec_name sec := sec]> w ∨ is_ok x = false ∧ w' = w
      | _ => λ _, w' = w
      end x
  end.
Inductive seed_runs : gmap string Secret → list (call SetupE) → gmap string Secret → Prop :=
| seed_done w : seed_runs w [] w
| seed_call w c w1 tr w2 : seed_step w c w1 → seed_runs w1 tr w2 → seed_runs w (c :: tr) w2
(** another writer adds a Secret *)
| seed_other w name sec tr w2 : w !! name = None → seed_runs (<[name := sec]> w) tr w2 → seed_runs w tr w2.

Lemma seed_runs_app w tr1 tr2 w2 : seed_runs w (tr1 ++ tr2) w2 → ∃ w1, seed_runs w tr1 w1 ∧ seed_runs w1 tr2 w2.
Proof.
  intros Hr. remember (tr1 ++ tr2) as tr eqn:Etr. revert tr1 Etr.
  induction Hr as [w|w c w1 tr w2 Hs Hr IH|w name sec tr w2 Hn Hr IH]; intros tr1 Etr.
  - symmetry in Etr. apply app_nil in Etr as [-> ->]. exists w. split; constructor.
  - destruct tr1 as [|c1 tr1]; [exists w; split; [constructor|]; cbn in Etr; subst tr2; by econstructor|].
    injection Etr as -> Etr. destruct (IH tr1 Etr) as (w3 & H1 & H2). exists w3. split; [by econstructor|done].
  - destruct (IH tr1 Etr) as (w3 & H1 & H2). exists w3. split; [by eapply seed_other|done].
Qed.

(** Only creations: nothing that is there changes. *)
Definition creates_only (X : Set) (e : SetupE X) : bool := match e with UpdateSecret _ => false | _ => true end.
Lemma seed_step_keeps w c w' name sec :
  call_ok creates_only c = true → seed_step w c w' → w !! name = Some sec → w' !! name = Some sec.
Proof.
  assert (Hins : ∀ s, w !! sec_name s = None → w !! name = Some sec → <[sec_name s := s]> w !! name = Some sec).
  { intros s Hs Hn. rewrite lookup_insert_ne; [done|]. intros Heq. by rewrite Heq, Hn in Hs. }
  destruct c as [X e x]. destruct e; cbn; intros Hok Hs Hn; try (by subst w'); [|done].
  destruct x as [[]|e]; [destruct Hs as [Hs ->]; by apply Hins|].
  destruct (IsAlreadyExists e); [by destruct Hs as [_ ->]|]. destruct Hs as [->|[Hs ->]]; [done|by apply Hins].
Qed.
Lemma seed_runs_keeps w tr w' name sec :
  seed_runs w tr w' → Forall (λ c, call_ok creates_only c = true) tr → w !! name = Some sec → w' !! name = Some sec.
Proof.
  induction 1 as [w|w c w1 tr w2 Hs Hr IH|w name' sec' tr w2 Hn Hr IH]; intros HF Hw; [done| |].
  - apply Forall_cons in HF as [Hc HF]. apply IH; [done|]. by eapply seed_step_keeps.
  - apply IH; [done|]. rewrite lookup_insert_ne; [done|]. intros ->. by rewrite Hn in Hw.
Qed.

Lemma seed_loop_creates specs res : calls_only creates_only (seed_loop specs res).
Proof. revert res. induction specs as [|s specs IH]; intros res; cbn [seed_loop]; calls; by apply IH. Qed.
Lemma Generate_creates : calls_only creates_only (Generate rand_read).
Proof. unfold Generate, randomHex, randomKeyB64, GenerateBootstrapToken, random_bytes, rand_read. calls. Qed.
Lemma SeedSecrets_creates : calls_only creates_only SeedSecrets.
Proof.
  unfold SeedSecrets, seed. apply calls_only_bind; [apply Generate_creates|]. intros [v|e]; [|done].
  destruct (Specs v); [|done]. apply calls_only_bind; [apply seed_loop_creates|done].
Qed.

(** The first call of a run, after whatever others added. *)
Lemma seed_runs_cons w c tr w2 :
  seed_runs w (c :: tr) w2 → ∃ w0 w1, seed_runs w [] w0 ∧ seed_step w0 c w1 ∧ seed_runs w1 tr w2.
Proof.
  intros Hr. remember (c :: tr) as l eqn:El. induction Hr as [w|w c' w1 tr' w2 Hs Hr IH|w name sec tr' w2 Hn Hr IH].
  - done.
  - injection El as -> ->. exists w, w1. split; [constructor|done].
  - destruct (IH El) as (w0 & w1 & H0 & H1 & H2). exists w0, w1. split; [by eapply seed_other|done].
Qed.

(** The creations of a run with their replies, and what the replies say. *)
Definition create_reply (c : call SetupE) : option (Secret * result ApiError unit) :=
  match c with
  | Call e x => match e in SetupE X return X → _ with CreateSecret sec => λ x, Some (sec, x) | _ => λ _, None end x
  end.
Definition was_created (p : Secret * result ApiError unit) : option string :=
  match p.2 with Ok _ => Some (sec_name p.1) | Err _ => None end.
Definition had_existed (p : Secret * result ApiError unit) : option string :=
  match p.2 with Err e => if IsAlreadyExists e then Some (sec_name p.1) else None | Ok _ => None end.

Lemma created_in_run w tr w' sec :
  seed_runs w tr w' → Forall (λ c, call_ok creates_only c = true) tr → (sec, Ok tt) ∈ omap create_reply tr →
  w !! sec_name sec = None ∧ w' !! sec_name sec = Some sec.
Proof.
  induction 1 as [w|w c w1 tr w2 Hs Hr IH|w name' sec' tr w2 Hn Hr IH]; intros HF Hin; [by apply not_elem_of_nil in Hin| |].
  - apply Forall_cons in HF as [Hc HF].
    assert (Hcases : create_reply c = Some (sec, Ok tt) ∨ (sec, Ok tt) ∈ omap create_reply tr).
    { cbn [omap list_omap] in Hin. destruct (create_reply c); [apply elem_of_cons in Hin as [<-|?]; auto|auto]. }
    destruct Hcases as [Hcr|Hin'].
    + destruct c as [X e x]. destruct e; try done. cbn in Hcr. injection Hcr as -> ->. destruct Hs as [Hfree ->].
      split; [done|]. eapply seed_runs_keeps; [exact Hr|done|by rewrite lookup_insert_eq].
    + destruct (IH HF Hin') as [Hnone Hsome]. split; [|done].
      destruct (w !! sec_name sec) as [s0|] eqn:Hw; [|done]. by rewrite (seed_step_keeps _ _ _ _ _ Hc Hs Hw) in Hnone.
  - destruct (IH HF Hin) as [Hnone Hsome]. split; [|done].
    destruct (decide (name' = sec_name sec)) as [->|Hne]; [done|]. by rewrite lookup_insert_ne in Hnone by done.
Qed.

Lemma existed_in_run w tr w' sec e :
  seed_runs w tr w' → Forall (λ c, call_ok creates_only c = true) tr → (sec, Err e) ∈ omap create_reply tr →
  IsAlreadyExists e = true → is_Some (w' !! sec_name sec).
Proof.
  intros Hr HF Hin He. induction Hr as [w|w c w1 tr w2 Hs Hr IH|w name' sec' tr w2 Hn Hr IH];
    [by apply not_elem_of_nil in Hin| |by apply IH].
  apply Forall_cons in HF as [Hc HF].
  assert (Hcases : create_reply c = Some (sec, Err e) ∨ (sec, Err e) ∈ omap create_reply tr).
  { cbn [omap list_omap] in Hin. destruct (create_reply c); [apply elem_of_cons in Hin as [<-|?]; auto|auto]. }
  destruct Hcases as [Hcr|Hin']; [|by apply IH].
  destruct c as [X e0 x]. destruct e0; try done. cbn in Hcr. injection Hcr as -> ->. cbn in Hs. rewrite He in Hs.
  destruct Hs as [[s0 Hs0] ->]. exists s0. by eapply seed_runs_keeps.
Qed.

(** The loop, call by call: it goes through the table and keeps score. *)
Lemma seed_loop_trace specs res tr res' err :
  exec (seed_loop specs res) tr (res', err) →
  res_Created res' = res_Created res ++ omap was_created (omap create_reply tr) ∧
  res_Existed res' = res_Existed res ++ omap had_existed (omap create_reply tr) ∧
  (omap create_reply tr).*1 `prefix_of` spec_secret <$> specs ∧
  (err = None → (omap create_reply tr).*1 = spec_secret <$> specs ∧
    Forall (λ p, has (was_created p) || has (had_existed p) = true) (omap create_reply tr)).
Proof.
  revert res tr. induction specs as [|s specs IH]; intros res tr; cbn [seed_loop].
  { intros [-> [= -> ->]]. rewrite !app_nil_r. split_and!; [done..|]. intros _. split; [done|constructor]. }
  cbn [prog_bind trigger]. intros (x & tr' & -> & Hk). cbn [omap list_omap create_reply fmap list_fmap].
  destruct x as [[]|e]; [|destruct (IsAlreadyExists e) eqn:He].
  - apply IH in Hk as (Hc & He & Hp & Hok). cbn [was_created had_existed snd fst] in *. rewrite Hc, He. cbn [res_Created res_Existed].
    split_and!; [by rewrite <- app_assoc|done|by apply prefix_cons|].
    intros Herr. destruct (Hok Herr) as [Heq HF]. split; [cbn; by f_equal|]. constructor; [done|exact HF].
  - apply IH in Hk as (Hc & Hx & Hp & Hok). unfold was_created at 1, had_existed at 1. cbn [snd fst] in *. rewrite Hc, Hx, He. cbn [res_Created res_Existed].
    split_and!; [done|by rewrite <- app_assoc|by apply prefix_cons|].
    intros Herr. destruct (Hok Herr) as [Heq HF]. split; [cbn; by f_equal|]. constructor; [|exact HF].
    unfold was_created, had_existed. cbn. by rewrite He.
  - destruct Hk as [-> [= -> ->]]. unfold was_created, had_existed. cbn. rewrite He, !app_nil_r. split_and!; [done..| |done].
    apply prefix_cons, prefix_nil.
Qed.

Lemma score_complete l :
  Forall (λ p, has (was_created p) || has (had_existed p) = true) l →
  omap was_created l ++ omap had_existed l ≡ₚ (λ p, sec_name p.1) <$> l.
Proof.
  induction 1 as [|p l Hp HF IH]; [done|]. destruct p as [sec x]. unfold was_created, had_existed in Hp. cbn in Hp.
  destruct x as [[]|e]; [cbn; by rewrite IH|]. destruct (IsAlreadyExists e) eqn:He; [|done].
  cbn. rewrite He. by rewrite <- Permutation_middle, IH.
Qed.

(** C19. Seeding is generate-once.  Whatever replies are lost and whatever other seeders
    add meanwhile: a Secret that was there keeps every byte; all that is ever written is
    the table of one freshly generated set of values, with the token only as its hash; a
    name reported as created was free and now holds its row; and when seeding succeeds, all
    nine Secrets exist and each is reported once. *)
Theorem seed_generate_once tr res err w w' :
  exec SeedSecrets tr (res, err) → seed_runs w tr w' →
  (∀ name sec, w !! name = Some sec → w' !! name = Some sec) ∧
  (∀ r, res = Some r → ∃ tr1 v, exec (Generate rand_read) tr1 (Ok v) ∧ tr1 `prefix_of` tr ∧
    (∀ p, p ∈ omap create_reply tr → p.1 ∈ spec_secret <$> spec_table v) ∧
    (∀ name, name ∈ res_Created r → w !! name = None ∧
      ∃ s, s ∈ spec_table v ∧ spec_Name s = name ∧ w' !! name = Some (spec_secret s)) ∧
    (err = None → res_Created r ++ res_Existed r ≡ₚ spec_Name <$> spec_table v ∧
      Forall (λ s, is_Some (w' !! spec_Name s)) (spec_table v))).
Proof.
  intros Hex Hr. pose proof (calls_only_exec _ _ _ _ SeedSecrets_creates Hex) as HF.
  split; [intros name sec; by eapply seed_runs_keeps|]. intros r ->.
  unfold SeedSecrets in Hex. apply exec_bind in Hex as (tr1 & tr2 & v & -> & Hg & Hk).
  destruct v as [v|e]; [|by destruct Hk]. unfold seed in Hk.
  destruct (Specs v) as [specs|e] eqn:Hspec; [|by destruct Hk].
  assert (specs = spec_table v) as -> by (unfold Specs in Hspec; destruct (validate v); [done|by injection Hspec as <-]).
  apply exec_bind in Hk as (tr3 & tr4 & [r' err'] & -> & Hl & -> & [= -> ->]). rewrite app_nil_r in *.
  assert (Hquiet : omap create_reply tr1 = []).
  { eapply (calls_only_omap (λ X e, match e with RandRead _ => true | _ => false end)); [|
      |exact Hg]; [intros [X e x]; by destruct e|].
    unfold Generate, randomHex, randomKeyB64, GenerateBootstrapToken, random_bytes, rand_read. calls. }
  assert (Hcr : omap create_reply (tr1 ++ tr3) = omap create_reply tr3) by (by rewrite omap_app, Hquiet).
  apply seed_loop_trace in Hl as (Hc & He & Hp & Hok). cbn [res_Created res_Existed no_result app] in Hc, He.
  exists tr1, v. split_and!; [done|by eexists| | |].
  - intros p Hp'. rewrite Hcr in Hp'. destruct Hp as [rest Hrest]. rewrite Hrest. apply elem_of_app. left. by apply list_elem_of_fmap_2.
  - intros name Hn. rewrite Hc in Hn. apply list_elem_of_omap in Hn as ([sec x] & Hin & Hw).
    unfold was_created in Hw. cbn in Hw. destruct x as [[]|e]; [|done]. injection Hw as <-.
    destruct (created_in_run _ _ _ sec Hr HF) as [Hnone Hsome]; [by rewrite Hcr|]. split; [done|].
    assert (Hs : sec ∈ spec_secret <$> spec_table v).
    { destruct Hp as [rest Hrest]. rewrite Hrest. apply elem_of_app. left. by apply (list_elem_of_fmap_2 fst _ (sec, Ok tt)). }
    apply list_elem_of_fmap in Hs as (s & -> & Hs). by exists s.
  - intros ->. destruct (Hok eq_refl) as [Heq HFo].
    assert (Hnames : spec_Name <$> spec_table v = (λ p, sec_name p.1) <$> omap create_reply tr3).
    { trans (sec_name <$> (omap create_reply tr3).*1); [by rewrite Heq, <- list_fmap_compose|by rewrite <- list_fmap_compose]. }
    split.
    + rewrite Hc, He, Hnames. by apply score_complete.
    + enough (HA : Forall (λ n, is_Some (w' !! n)) (spec_Name <$> spec_table v)) by exact (proj1 (Forall_fmap _ _ _) HA).
      rewrite Hnames. apply Forall_fmap, Forall_forall. intros [sec x] Hin.
      rewrite Forall_forall in HFo. specialize (HFo _ Hin). unfold was_created, had_existed in HFo. cbn in *.
      destruct x as [[]|e]; [destruct (created_in_run _ _ _ sec Hr HF) as [_ Hs]; [by rewrite Hcr|by rewrite Hs]|].
      destruct (IsAlreadyExists e) eqn:Hae; [|done]. eapply existed_in_run; [exact Hr|done|by rewrite Hcr|done].
Qed.

(** ** The new token *)
Definition said (c : call SetupE) : option string :=
  match c with Call e _ => match e with PrintLine t => Some t | _ => None end end.
Definition polled (c : call SetupE) : option Z :=
  match c with Call e x => match e in SetupE X return X → _ with SetupNow => λ x, Some x | _ => λ _, None end x end.
(** An acknowledged write of the token Secret that leaves [hash] in it: a new Secret, or the
    one just read with only that key set. *)
Definition stores (tr : list (call SetupE)) (hash : string) : Prop :=
  (∃ a z, tr = a ++ [Call (CreateSecret (hash_secret hash)) (Ok tt)] ++ z) ∨
  (∃ a sec z, tr = a ++ [Call (GetSecret NameBootstrapToken) (Ok sec); Call (UpdateSecret (with_hash sec hash)) (Ok tt)] ++ z).

Lemma stores_app tr1 tr2 tr3 hash : stores tr2 hash → stores (tr1 ++ tr2 ++ tr3) hash.
Proof.
  intros [(a & z & ->)|(a & sec & z & ->)]; [left; exists (tr1 ++ a), (z ++ tr3)|right; exists (tr1 ++ a), sec, (z ++ tr3)];
    by rewrite <- !app_assoc.
Qed.

Lemma stores_cons c tr hash : stores tr hash → stores (c :: tr) hash.
Proof. intros Hs. apply (stores_app [c] tr []) in Hs. by rewrite app_nil_r in Hs. Qed.

Lemma update_hash_stores n hash tr : exec (update_hash n hash) tr None → stores tr hash.
Proof.
  revert tr. induction n as [|n IH]; intros tr; cbn [update_hash]; [by intros [_ ?]|].
  cbn [prog_bind trigger]. intros (sec & tr1 & -> & Hk). destruct sec as [sec|e]; [|by destruct Hk].
  destruct Hk as (u & tr2 & -> & Hk). destruct u as [[]|e].
  - destruct Hk as [-> _]. right. by exists [], sec, [].
  - destruct (IsConflict e); [|by destruct Hk]. apply IH in Hk. by do 2 apply stores_cons.
Qed.
Lemma storeTokenHash_stores hash tr : exec (storeTokenHash hash) tr None → stores tr hash.
Proof.
  unfold storeTokenHash. cbn [prog_bind trigger]. intros (c & tr1 & -> & Hk). destruct c as [[]|e].
  - destruct Hk as [-> _]. left. by exists [], [].
  - destruct (IsAlreadyExists e); [|by destruct Hk]. apply update_hash_stores in Hk. by apply stores_cons.
Qed.

Definition silent (X : Set) (e : SetupE X) : bool := match e with PrintLine _ => false | _ => true end.
Lemma silent_said {A} (p : prog SetupE A) tr a : calls_only silent p → exec p tr a → omap said tr = [].
Proof. apply (calls_only_omap silent). intros [X e x]. by destruct e. Qed.
Lemma update_hash_silent n hash : calls_only silent (update_hash n hash).
Proof. induction n as [|n IH]; cbn [update_hash]; calls; exact IH. Qed.
Lemma storeTokenHash_silent hash : calls_only silent (storeTokenHash hash).
Proof. pose proof update_hash_silent. unfold storeTokenHash. calls. Qed.
Lemma rollout_loop_silent fuel deadline : calls_only silent (rollout_loop fuel deadline).
Proof. induction fuel as [|fuel IH]; cbn [rollout_loop]; calls; exact IH. Qed.

Section token.
Context `{UnicodeTables, TimeLib}.

Lemma report_restart_said tr u : exec report_restart tr u → ∃ t, omap said tr = [t].
Proof.
  unfold report_restart, restartDashboard. cbn [prog_bind trigger].
  intros (now & tr1 & -> & r & tr2 & -> & Hk). cbn [omap list_omap said].
  destruct r as [[]|e].
  - apply exec_bind in Hk as (tr3 & tr4 & ready & -> & Hw & Hk).
    assert (Hq : omap said tr3 = []).
    { eapply silent_said; [|exact Hw]. unfold waitDashboardRollout. apply calls_only_bind; [calls|]. intros ?. apply rollout_loop_silent. }
    rewrite omap_app, Hq. destruct ready as [[]|]; destruct Hk as (y & tr5 & -> & -> & _); by eexists.
  - destruct e; destruct Hk as (y & tr3 & -> & -> & _); by eexists.
Qed.

(** C20. The plaintext of a new bootstrap token is shown only when it works: a run that
    fails prints nothing at all, and one that succeeds prints exactly three messages, the
    token only in the last call of all, after an acknowledged write left the hash the
    dashboard will compare against in the token Secret, with every other key of a Secret
    that was there kept. *)
Theorem token_shown_only_when_stored kubeconfig tr r :
  exec (runBootstrapToken kubeconfig) tr r →
  match r with
  | Some _ => omap said tr = []
  | None => ∃ token tr0 t1 t2,
      tr = tr0 ++ [Call (PrintLine (token_text token)) tt] ∧ omap said tr0 = [t1; t2] ∧
      stores tr0 (Credentials.HashToken token)
  end.
Proof.
  unfold runBootstrapToken. cbn [prog_bind trigger]. intros (cs & tr1 & -> & Hk).
  destruct cs as [[]|e]; [|by destruct Hk as [-> ->]].
  apply exec_bind in Hk as (tr2 & tr3 & token & -> & Hg & Hk).
  assert (Hq2 : omap said tr2 = []).
  { eapply silent_said; [|exact Hg]. unfold GenerateBootstrapToken, random_bytes, rand_read. calls. }
  destruct token as [token|e]; [|destruct Hk as [-> ->]; by rewrite app_nil_r].
  apply exec_bind in Hk as (tr4 & tr5 & st & -> & Hs & Hk).
  pose proof (silent_said _ _ _ (storeTokenHash_silent _) Hs) as Hq4.
  destruct st as [e|]; [destruct Hk as [-> ->]; cbn [omap list_omap said]; by rewrite app_nil_r, omap_app, Hq2, Hq4|].
  apply storeTokenHash_stores in Hs. cbn [prog_bind trigger] in Hk. destruct Hk as ([] & tr6 & -> & Hk).
  apply exec_bind in Hk as (tr7 & tr8 & u & -> & [t Ht]%report_restart_said & [] & tr9 & -> & -> & ->).
  set (c0 := Call (NewClient kubeconfig) (Ok ())). set (c1 := Call (PrintLine _) ()).
  exists token, (c0 :: tr2 ++ tr4 ++ c1 :: tr7). eexists _, t. split_and!.
  - by rewrite <- !app_comm_cons, <- !app_assoc, <- app_comm_cons.
  - cbn [omap list_omap said]. rewrite !omap_app, Hq2, Hq4. cbn [app omap list_omap said c1]. by rewrite Ht.
  - apply (stores_app (c0 :: tr2) tr4 (c1 :: tr7)). exact Hs.
Qed.
End token.

(** ** The rollout wait *)

(** The clock goes on by at least the poll interval from one poll to the next. *)
Definition paced (start : Z) (readings : list Z) : Prop :=
  ∀ i t, readings !! i = Some t → (start + Z.of_nat i * rolloutPollInterval ≤ t)%Z.

Lemma rollout_loop_returns fuel i start tr :
  i ≤ 61 → i + fuel = rolloutPolls →
  (∀ j t, omap polled tr !! j = Some t → (start + Z.of_nat (i + j) * rolloutPollInterval ≤ t)%Z) →
  ¬ exec (rollout_loop fuel (start + rolloutWaitTimeout)) tr None.
Proof.
  unfold rolloutPolls. revert i tr. induction fuel as [|fuel IH]; intros i tr Hi Hf Hp; [lia|]. cbn [rollout_loop prog_bind trigger].
  intros (dep & tr1 & -> & Hk). destruct (match dep with Ok dep => _ | Err _ => false end); [by destruct Hk|].
  destruct Hk as (now & tr2 & -> & Hk). pose proof (Hp 0 now eq_refl) as Hnow. case_decide as Hd; [by destruct Hk|].
  destruct Hk as (more & tr3 & -> & Hk). destruct more; [|by destruct Hk].
  apply (IH (S i) tr3); [|lia| |exact Hk].
  - unfold rolloutPollInterval, rolloutWaitTimeout, Minute, Second in *. lia.
  - intros j t Hj. specialize (Hp (S j) t Hj). by replace (S i + j) with (i + S j) by lia.
Qed.

(** C38. Waiting for the dashboard ends: as long as each poll finds the clock at least one
    interval further, the wait answers within its 62 polls, which is what fits the two
    minutes, and does not run on. *)
Theorem rollout_wait_returns tr r start readings :
  exec waitDashboardRollout tr r → omap polled tr = start :: readings → paced start readings → is_Some r.
Proof.
  unfold waitDashboardRollout. cbn [prog_bind trigger]. intros (now & tr1 & -> & Hk) [= -> <-] Hp.
  destruct r as [b|]; [by eexists|]. exfalso. eapply (rollout_loop_returns rolloutPolls 0); [lia|done| |exact Hk].
  intros j t Hj. exact (Hp j t Hj).
Qed.

(** ** Role passwords in SQL *)
Lemma unsafe_role_None roles :
  unsafe_role roles = None → Forall (λ p, p.2 ≠ "" ∧ Forall (λ c, safe_char c = true) (bytes p.2)) roles.
Proof.
  induction roles as [|[name pw] roles IH]; [constructor|]. cbn [unsafe_role]. case_decide; [done|].
  destruct (MatchString safePassword pw) eqn:Hm; cbn [negb]; [|done]. intros Hu. constructor; [|by apply IH].
  split; [done|]. by apply matchb_spec, plus_cls_match in Hm as [_ HF].
Qed.
Definition executed (c : call RoleE) : option string :=
  match c with Call e _ => match e with ExecSQL t => Some t | _ => None end end.
Lemma set_passwords_statements roles tr r :
  exec (set_passwords roles) tr r → omap executed tr `prefix_of` (λ p, alter_role p.1 p.2) <$> roles.
Proof.
  revert tr. induction roles as [|[name pw] roles IH]; intros tr; cbn [set_passwords]; [by intros [-> _]|].
  cbn [prog_bind trigger]. intros (x & tr1 & -> & Hk). cbn [omap list_omap executed fmap list_fmap].
  destruct x as [[]|e]; [apply IH in Hk; by apply prefix_cons|]. destruct Hk as [-> _]. apply prefix_cons, prefix_nil.
Qed.

(** Nothing is concatenated into SQL but passwords without a quote or a backslash, and the
    database is not even opened for any other. *)
Lemma SetupRoles_safe dsn pw tr r :
  exec (SetupRoles dsn pw) tr r →
  omap executed tr `prefix_of` (λ p, alter_role p.1 p.2) <$> role_list pw ∧
  (tr ≠ [] → Forall (λ p, p.2 ≠ "" ∧ Forall (λ c, c ≠ "'"%char ∧ c ≠ "\"%char) (bytes p.2)) (role_list pw)).
Proof.
  unfold SetupRoles. destruct (unsafe_role (role_list pw)) as [e|] eqn:Hu; [intros [-> ->]; split; [apply prefix_nil|done]|].
  apply unsafe_role_None in Hu. cbn [prog_bind trigger]. intros (x & tr1 & -> & Hk). split.
  - cbn [omap list_omap executed]. destruct x as [[]|e]; [by eapply set_passwords_statements|]. destruct Hk as [-> _]. apply prefix_nil.
  - intros _. eapply Forall_impl; [exact Hu|]. intros p [Hne HF]. split; [done|]. eapply Forall_impl; [exact HF|].
    intros c Hc. split; intros ->; by vm_compute in Hc.
Qed.

(** ** A worked example *)
Module SeedExample.
#[export] Instance tables : UnicodeTables := ascii_tables.
#[export] Instance times : TimeLib := {| FormatRFC3339 := pretty; ParseRFC3339 _ := None |}.
(** A cluster that answers truthfully; its clock gains two seconds at each reading and its
    dashboard is ready from the third poll on. *)
Record world : Type := { w_secrets : gmap string Secret; w_now : Z; w_polls : nat }.
Definition ready : Rollout :=
  {| ro_SpecReplicas := Some 1%Z; ro_Generation := 2; ro_ObservedGeneration := 2; ro_Replicas := 1;
     ro_UpdatedReplicas := 1; ro_AvailableReplicas := 1 |}.
Definition starting : Rollout :=
  {| ro_SpecReplicas := Some 1%Z; ro_Generation := 2; ro_ObservedGeneration := 2; ro_Replicas := 2;
     ro_UpdatedReplicas := 1; ro_AvailableReplicas := 1 |}.
Definition cluster (X : Set) (e : SetupE X) (w : world) : X * world :=
  match e in SetupE X return X * world with
  | RandRead n => (Ok (replicate n (byte 7)), w)
  | CreateSecret sec =>
      match w_secrets w !! sec_name sec with
      | Some _ => (Err (AlreadyExists ""), w)
      | None => (Ok tt, {| w_secrets := <[sec_name sec := sec]> (w_secrets w); w_now := w_now w; w_polls := w_polls w |})
      end
  | GetSecret name => (match w_secrets w !! name with Some sec => Ok sec | None => Err (NotFound "") end, w)
  | UpdateSecret sec =>
      match w_secrets w !! sec_name sec with
      | Some _ => (Ok tt, {| w_secrets := <[sec_name sec := sec]> (w_secrets w); w_now := w_now w; w_polls := w_polls w |})
      | None => (Err (NotFound ""), w)
      end
  | CreateConfigMap _ _ => (Ok tt, w)
  | NewClient _ => (Ok tt, w)
  | PatchDeployment _ _ => (Ok tt, w)
  | GetDeployment _ =>
      (Ok (if 2 <=? w_polls w then ready else starting),
       {| w_secrets := w_secrets w; w_now := w_now w; w_polls := S (w_polls w) |})
  | SetupNow => (w_now w, {| w_secrets := w_secrets w; w_now := w_now w + 2 * Second; w_polls := w_polls w |})
  | Pause _ => (true, w)
  | PrintLine _ => (tt, w)
  end.

Lemma cluster_runs {A} (p : prog SetupE A) w : seed_runs (w_secrets w) (run cluster p w).1.2 (w_secrets (run cluster p w).2).
Proof.
  revert w. induction p as [a|X e k IH]; intros w; [constructor|]. cbn [run].
  destruct (cluster X e w) as [x w1] eqn:Hc. specialize (IH x w1). destruct (run cluster (k x) w1) as [[a tr] w2].
  eapply seed_call; [|exact IH]. clear IH k.
  destruct e; cbn [cluster] in Hc; try (injection Hc as <- <-; reflexivity);
    destruct (w_secrets w !! sec_name sec) as [old|] eqn:Hs; injection Hc as <- <-; cbn; eauto.
Qed.

Definition old_token : Secret := hash_secret "stored-before".
Definition fresh_world : world := {| w_secrets := {[NameBootstrapToken := old_token]}; w_now := 0; w_polls := 0 |}.
Definition seeding := run cluster SeedSecrets fresh_world.
Definition showing := run cluster (runBootstrapToken "orkano.kubeconfig") fresh_world.
Definition waiting := run cluster waitDashboardRollout fresh_world.
Lemma seeding_exec : exec SeedSecrets seeding.1.2 (seeding.1.1.1, seeding.1.1.2).
Proof. rewrite <- surjective_pairing. exact (run_exec cluster SeedSecrets fresh_world). Qed.
Lemma showing_exec : exec (runBootstrapToken "orkano.kubeconfig") showing.1.2 showing.1.1.
Proof. exact (run_exec cluster (runBootstrapToken "orkano.kubeconfig") fresh_world). Qed.
Lemma waiting_exec : exec waitDashboardRollout waiting.1.2 waiting.1.1.
Proof. exact (run_exec cluster waitDashboardRollout fresh_world). Qed.
Lemma showing_succeeds : showing.1.1 = None.
Proof. vm_compute. reflexivity. Qed.
Definition generating := run cluster (Generate rand_read) fresh_world.
End SeedExample.
Import SeedExample.

Lemma generated_usable_witness : ∃ v key, exec (Generate rand_read) generating.1.2 (Ok v) ∧
  NewCipher (v_DashboardEncKey v) = Ok {| cipher_key := key |}.
Proof.
  pose proof (run_exec cluster (Generate rand_read) fresh_world) as Hex. fold generating in Hex.
  assert (Hok : is_ok generating.1.1 = true) by (vm_compute; reflexivity).
  destruct generating.1.1 as [v|e]; [|done].
  destruct (generated_usable rand_read _ _ Hex) as (_ & _ & (key & _ & Hkey) & _). by exists v, key.
Defined.

Lemma seed_generate_once_witness : w_secrets seeding.2 !! NameBootstrapToken = Some old_token.
Proof.
  apply (seed_generate_once _ _ _ _ _ seeding_exec (cluster_runs SeedSecrets fresh_world)).
  cbn [fresh_world w_secrets]. apply lookup_singleton_eq.
Defined.

Lemma token_shown_only_when_stored_witness : ∃ token tr0,
  showing.1.2 = tr0 ++ [Call (PrintLine (token_text token)) tt] ∧ stores tr0 (Credentials.HashToken token).
Proof.
  pose proof (token_shown_only_when_stored _ _ _ showing_exec) as Ht. rewrite showing_succeeds in Ht.
  destruct Ht as (token & tr0 & t1 & t2 & Htr & _ & Hs). by exists token, tr0.
Defined.

Lemma rollout_wait_returns_witness : is_Some waiting.1.1.
Proof.
  apply (rollout_wait_returns _ _ 0 [2 * Second; 4 * Second]%Z waiting_exec); [vm_compute; reflexivity|].
  intros [|[|i]] t [= <-]; unfold rolloutPollInterval, Second; lia.
Defined.
