(* ===== verification/Net.v ===== *)
(** * Addresses and fields

    What the installer uses of Go's [net] and [strings] to read a node's answers:
    [net.ParseIP] (only whether an address parses is ever looked at) and [strings.Fields].
    [ParseIP] accepts no zone, so an address holds nothing but hexadecimal digits, dots and
    colons ([ParseIP_chars]). *)
From S2P Require Import Prelude Regex GoStrings.
From Stdlib Require Import Ascii.

(** ** [strings.Fields] *)
Definition flush (cur : list ascii) (rest : list (list ascii)) : list (list ascii) := if decide (cur = []) then rest else cur :: rest.
Fixpoint fields (l cur : list ascii) : list (list ascii) :=
  match l with
  | [] => flush cur []
  | a :: l1 =>
      if space1 a then flush cur (fields l1 [])
      else match l1 with
      | [] => fields l1 (cur ++ [a])
      | b :: l2 =>
          if space2 a b then flush cur (fields l2 [])
          else match l2 with
          | [] => fields l1 (cur ++ [a])
          | c :: l3 => if space3 a b c then flush cur (fields l3 []) else fields l1 (cur ++ [a])
          end
      end
  end.
Definition Fields (s : string) : list string := of_bytes <$> fields (bytes s) [].

(** ** [net.ParseIP] *)
Definition is_hex (c : ascii) : bool := is_digit c || one_of "abcdefABCDEF" c.
Definition hex_val (c : ascii) : nat :=
  if is_digit c then nat_of_ascii c - 48 else if is_lower c then nat_of_ascii c - 87 else nat_of_ascii c - 55.

(** [parseIPv4Fields]: the byte before, the octet so far, the octets done and the digits of this one *)
Fixpoint ipv4_fields (l : list ascii) (prev : option ascii) (val pos digLen : nat) : bool :=
  match l with
  | [] => 3 <=? pos
  | c :: l =>
      if is_digit c then
        if (digLen =? 1) && (val =? 0) then false
        else
          let val := val * 10 + hex_val c in
          if 255 <? val then false else ipv4_fields l (Some c) val pos (S digLen)
      else if decide (c = "."%char) then
        if bool_decide (prev = None ∨ l = [] ∨ prev = Some "."%char) then false
        else if pos =? 3 then false
        else ipv4_fields l (Some c) 0 (S pos) 0
      else false
  end.
Definition parseIPv4 (l : list ascii) : bool := ipv4_fields l None 0 0 0.

(** The digits of one group: how many, and what follows. *)
Fixpoint hex_group (l : list ascii) (off acc : nat) : option (nat * list ascii) :=
  match l with
  | [] => Some (off, [])
  | c :: l' =>
      if is_hex c then
        let acc := acc * 16 + hex_val c in
        if 3 <? off then None
        else if Z.to_nat 65535 <? acc then None
        else hex_group l' (S off) acc
      else Some (off, l)
  end.
(** The loop over groups, [n] of which are still free (the source's [i] is [16 - 2 * n]):
    those left free, whether there was an ellipsis, and the text left. *)
Fixpoint ipv6_groups (n : nat) (ellipsis : bool) (s : list ascii) : option (nat * bool * list ascii) :=
  match n with
  | O => Some (O, ellipsis, s)
  | S n' =>
      match hex_group s 0 0 with
      | None | Some (O, _) => None
      | Some (_, rest) =>
          match rest with
          | [] => Some (n', ellipsis, [])
          | c :: rest =>
              if decide (c = "."%char) then
                if negb ellipsis && negb (n =? 2) then None
                else if n <? 2 then None
                else if ipv4_fields s None 0 0 0 then Some (n - 2, ellipsis, []) else None
              else if decide (c ≠ ":"%char) then None
              else match rest with
              | [] => None
              | d :: rest' =>
                  if decide (d = ":"%char) then
                    if ellipsis then None
                    else if decide (rest' = []) then Some (n', true, []) else ipv6_groups n' true rest'
                  else ipv6_groups n' ellipsis rest
              end
          end
      end
  end.
Definition parseIPv6 (l : list ascii) : bool :=
  if decide ("%"%char ∈ l) then false
  else
    let groups ellipsis s :=
      match ipv6_groups 8 ellipsis s with
      | None => false
      | Some (free, ellipsis, s) => bool_decide (s = []) && (if 0 <? free then ellipsis else negb ellipsis)
      end in
    match l with
    | a :: b :: s =>
        if decide (a = ":"%char ∧ b = ":"%char) then if decide (s = []) then true else groups true s
        else groups false l
    | _ => groups false l
    end.

(** Which of the two forms, by the first of the three marks. *)
Fixpoint parse_addr (l s : list ascii) : bool :=
  match l with
  | [] => false
  | c :: l =>
      if decide (c = "."%char) then parseIPv4 s
      else if decide (c = ":"%char) then parseIPv6 s
      else if decide (c = "%"%char) then false
      else parse_addr l s
  end.
(** [net.ParseIP(s) != nil] *)
Definition ParseIP (s : string) : bool := parse_addr (bytes s) (bytes s).

(** ** What an address is made of *)
Definition ip_char (c : ascii) : bool := is_hex c || one_of ".:" c.

Lemma is_hex_ip c : is_hex c = true → ip_char c = true.
Proof. intros Hc. unfold ip_char. by rewrite Hc. Qed.
Lemma ipv4_chars l prev val pos d : ipv4_fields l prev val pos d = true → Forall (λ c, ip_char c = true) l.
Proof.
  revert prev val pos d. induction l as [|c l IH]; intros prev val pos d; cbn [ipv4_fields]; [constructor|].
  destruct (is_digit c) eqn:Hd.
  - destruct (_ && _); [done|]. destruct (255 <? _); [done|]. intros Hl. constructor; [|by eapply IH].
    apply is_hex_ip. unfold is_hex. by rewrite Hd.
  - case_decide as Hc; [|done]. subst c. case_bool_decide; [done|]. destruct (pos =? 3); [done|]. intros Hl. constructor; [done|by eapply IH].
Qed.
Lemma hex_group_chars l off acc k rest :
  hex_group l off acc = Some (k, rest) → ∃ ds, l = ds ++ rest ∧ Forall (λ c, ip_char c = true) ds.
Proof.
  revert off acc. induction l as [|c l IH]; intros off acc; cbn [hex_group]; [intros [= <- <-]; by exists []|].
  destruct (is_hex c) eqn:Hc; [|intros [= <- <-]; by exists []].
  destruct (3 <? off); [done|]. destruct (_ <? _); [done|]. intros (ds & -> & HF)%IH. exists (c :: ds). split; [done|].
  constructor; [by apply is_hex_ip|done].
Qed.
Lemma ipv6_chars n e s free e' rest :
  ipv6_groups n e s = Some (free, e', rest) → rest = [] → Forall (λ c, ip_char c = true) s.
Proof.
  revert e s. induction n as [|n IH]; intros e s; cbn [ipv6_groups]; [intros [= <- <- ->] ->; constructor|].
  destruct (hex_group s 0 0) as [[[|k] tail]|] eqn:Hg; [done| |done]. apply hex_group_chars in Hg as (ds & Hs & HF).
  destruct tail as [|c tail]; [intros _ _; by rewrite Hs, app_nil_r|]. case_decide as Hdot.
  { destruct (_ && _); [done|]. destruct (_ <? 2); [done|]. destruct (ipv4_fields s None 0 0 0) eqn:H4; [|done]. intros _ _. by eapply ipv4_chars. }
  case_decide as Hcol; [done|]. assert (c = ":"%char) as -> by (by destruct (decide (c = ":"%char))).
  assert (Hgo : Forall (λ c, ip_char c = true) tail → Forall (λ c, ip_char c = true) s).
  { intros Ht. rewrite Hs. apply Forall_app. split; [done|]. by constructor. }
  destruct tail as [|d tail']; [done|]. case_decide as Hd.
  - subst d. destruct e; [done|]. case_decide as Hnil; [subst tail'; intros _ _; apply Hgo; by repeat constructor|].
    intros Hr Hn. apply Hgo. constructor; [done|]. by eapply IH.
  - intros Hr Hn. apply Hgo. by eapply IH.
Qed.

Lemma ParseIP_chars s : ParseIP s = true → Forall (λ c, ip_char c = true) (bytes s).
Proof.
  unfold ParseIP. assert (Hgo : ∀ l, parse_addr l (bytes s) = true → parseIPv4 (bytes s) = true ∨ parseIPv6 (bytes s) = true).
  { induction l as [|c l IH]; cbn [parse_addr]; [done|]. repeat case_decide; auto. done. }
  intros [H4|H6]%Hgo; [by eapply ipv4_chars|]. unfold parseIPv6 in H6. case_decide; [done|].
  assert (Hgr : ∀ e t, match ipv6_groups 8 e t with
      | None => false | Some (free, ell, r) => bool_decide (r = []) && (if 0 <? free then ell else negb ell) end = true →
      Forall (λ c, ip_char c = true) t).
  { intros e t. destruct (ipv6_groups 8 e t) as [[[free ell] r]|] eqn:Hr; [|done].
    intros [Hn%bool_decide_eq_true _]%andb_prop. by eapply ipv6_chars. }
  assert (Hall : Forall (λ c, ip_char c = true) (bytes s) ∨ ∃ t, bytes s = ":"%char :: ":"%char :: t ∧ Forall (λ c, ip_char c = true) t).
  { destruct (bytes s) as [|a [|b t]]; [by apply Hgr in H6; left..|]. case_decide as Hab; [|left; by apply Hgr in H6].
    destruct Hab as [-> ->]. right. exists t. split; [done|]. case_decide as Ht; [subst t; constructor|by apply Hgr in H6]. }
  destruct Hall as [?|(t & -> & Ht)]; [done|]. by repeat constructor.
Qed.
Lemma ip_not_newline s : ParseIP s = true → newline ∉ bytes s.
Proof. intros Hs%ParseIP_chars Hin. rewrite Forall_forall in Hs. by specialize (Hs _ Hin). Qed.

Example parsed_addresses : (λ s, ParseIP s) <$> ["10.43.0.7"; "fd00::7"; "::ffff:10.0.0.1"; "::"; "1::"; "1:2:3:4:5:6:7:8"] = replicate 6 true.
Proof. vm_compute. reflexivity. Qed.
Example unparsed_addresses : (λ s, ParseIP s) <$>
  [""; "10.43.0"; "10.43.0.07"; "256.0.0.1"; "1.2.3.4."; "fe80::1%eth0"; "1:2:3:4:5:6:7:8::"; "1::2::3"; "12345::"; "None"] = replicate 10 false.
Proof. vm_compute. reflexivity. Qed.
