(* ===== verification/InstallNode.v ===== *)
(** * Commands on a node

    [internal/install/ensure.go] and [wait.go]: what the installer does on a server over
    SSH.  A command is a value of [Cmd]; [text] is the exact line sent, and running it is a
    call with an arbitrary exit status and output.  [fs_step] says what a line does to the
    node's files: one that fails may have been carried out, or, when it writes, may have
    left anything in the file it writes; a rename is atomic.

    Waits poll until a reply is good or their context ends; both are replies of the
    environment, and [fuel] bounds the polls ([None] when it runs out).  Log lines are left
    out. *)
From S2P Require Import Prelude Regex GoStrings Effects Sha256 Paths RateLimit Credentials ApiServer PlatformSecrets.
From Stdlib Require Import Ascii.

Definition k3sBin : string := "/usr/local/bin/k3s".
Definition maxInlineBase64 : nat := Z.to_nat (96 * 1024).
Definition chunkBase64 : nat := Z.to_nat (48 * 1024).
Definition waitPollInterval : Z := 5 * Second.

(** ** Commands *)
Inductive Cmd : Set :=
| CatFile (p : string)
(** [mkdir -p dir && ]printf %s 'payload' | base64 -d | tee [-a ]target >/dev/null *)
| Pipe (mkdir : option string) (append : bool) (payload target : string)
| Mv (a b : string)
| RmF (p : string)
| Chmod (mode p : string)
| Kubectl (args : string)
(** printf %s 'payload' | base64 -d | kubectl verb -f - *)
| KubectlIn (payload verb : string)
| RestartK3s.
#[export] Instance Cmd_eq_dec : EqDecision Cmd.
Proof. solve_decision. Defined.

Definition text (sudo : string) (c : Cmd) : string :=
  match c with
  | CatFile p => sudo +:+ "cat " +:+ p
  | Pipe mkdir app payload target =>
      (match mkdir with Some dir => sudo +:+ "mkdir -p " +:+ dir +:+ " && " | None => "" end) +:+
      "printf %s '" +:+ payload +:+ "' | base64 -d | " +:+ sudo +:+ (if app : bool then "tee -a " else "tee ") +:+ target +:+ " >/dev/null"
  | Mv a b => sudo +:+ "mv " +:+ a +:+ " " +:+ b
  | RmF p => sudo +:+ "rm -f " +:+ p
  | Chmod mode p => sudo +:+ "chmod " +:+ mode +:+ " " +:+ p
  | Kubectl args => sudo +:+ k3sBin +:+ " kubectl " +:+ args
  | KubectlIn payload verb => "printf %s '" +:+ payload +:+ "' | base64 -d | " +:+ sudo +:+ k3sBin +:+ " kubectl " +:+ verb +:+ " -f -"
  | RestartK3s => sudo +:+ "systemctl restart k3s"
  end.

Record RunResult : Set := { ExitStatus : Z; Stdout : string; Stderr : string }.
Inductive NodeE : Set → Type :=
| Run (c : Cmd) : NodeE (result string RunResult)
(** the select of a poll loop: [true] for the next tick, [false] when the wait is over *)
| NextTick (interval : Z) : NodeE bool
| NodeRand (n : nat) : NodeE (result string (list ascii)).

(** The prefix of [newNode]. *)
Definition newNode (sudo : bool) : string := if sudo then "sudo " else "".

Definition firstLine (s : string) : string :=
  match IndexByte (bytes s) newline with Some i => slice_to i s | None => s end.

Definition runOK (c : Cmd) (desc : string) : prog NodeE (result string unit) :=
  let! res := trigger (Run c) in
  Ret (match res with
       | Err e => Err ("install: " +:+ desc +:+ ": " +:+ e)
       | Ok res =>
           if decide (ExitStatus res ≠ 0%Z) then
             Err ("install: " +:+ desc +:+ " exited " +:+ pretty (ExitStatus res) +:+ ": " +:+ firstLine (Stderr res))
           else Ok tt
       end).

(** ** Writing files *)
Definition tmp_of (p : string) : string := p +:+ ".tmp".

Definition writeInline (p enc : string) : prog NodeE (result string unit) :=
  try! _ := runOK (Pipe (Some (Dir p)) false enc (tmp_of p)) ("write " +:+ p) in
  runOK (Mv (tmp_of p) p) ("finalize " +:+ p).

(** The loop over the pieces; the first creates the file. *)
Fixpoint write_pieces (p : string) (first : bool) (pieces : list (list ascii)) : prog NodeE (result string unit) :=
  match pieces with
  | [] => Ret (Ok tt)
  | piece :: pieces =>
      try! _ := runOK (if first then Pipe (Some (Dir p)) false (of_bytes piece) (tmp_of p)
                       else Pipe None true (of_bytes piece) (tmp_of p)) ("write chunk of " +:+ p) in
      write_pieces p false pieces
  end.
Definition writeChunked (p enc : string) : prog NodeE (result string unit) :=
  try! _ := write_pieces p true (chunks (len enc) chunkBase64 (bytes enc)) in
  runOK (Mv (tmp_of p) p) ("finalize " +:+ p).

Definition ensureFile (p : string) (content : list ascii) (mode : string) : prog NodeE (result string bool) :=
  let! cur := trigger (Run (CatFile p)) in
  match cur with
  | Err e => Ret (Err ("install: read " +:+ p +:+ ": " +:+ e))
  | Ok cur =>
      if decide (ExitStatus cur = 0%Z ∧ Stdout cur = of_bytes content) then Ret (Ok false)
      else
        let enc := of_bytes (std_encode content) in
        try! _ := (if len enc <=? maxInlineBase64 then writeInline p enc else writeChunked p enc) in
        try! _ := runOK (Chmod mode p) ("chmod " +:+ p) in
        Ret (Ok true)
  end.

Record manifestFile : Type := { mf_name : string; mf_legacyName : string; mf_content : list ascii }.

Definition migrate_command (legacyPath currentPath : string) (current : RunResult) : Cmd :=
  if decide (ExitStatus current = 0%Z) then RmF legacyPath else Mv legacyPath currentPath.
Fixpoint migrateLegacyManifests (base : string) (files : list manifestFile) (changed : bool) : prog NodeE (result string bool) :=
  match files with
  | [] => Ret (Ok changed)
  | f :: files =>
      if decide (mf_legacyName f = "") then migrateLegacyManifests base files changed
      else
        let legacyPath := path_Join [base; mf_legacyName f] in
        let! legacy := trigger (Run (CatFile legacyPath)) in
        match legacy with
        | Err e => Ret (Err ("install: read legacy manifest " +:+ legacyPath +:+ ": " +:+ e))
        | Ok legacy =>
            if decide (ExitStatus legacy ≠ 0%Z) then migrateLegacyManifests base files changed
            else
              let currentPath := path_Join [base; mf_name f] in
              let! current := trigger (Run (CatFile currentPath)) in
              match current with
              | Err e => Ret (Err ("install: read replacement manifest " +:+ currentPath +:+ ": " +:+ e))
              | Ok current =>
                  try! _ := runOK (migrate_command legacyPath currentPath current) ("migrate legacy manifest " +:+ mf_legacyName f) in
                  migrateLegacyManifests base files true
              end
        end
  end.

(** ** Waiting *)
Record Workload : Type := { wl_Namespace : string; wl_Kind : string; wl_Name : string }.

(** [strconv.Atoi], its error dropped: zero for what is no number, the nearest bound for one out of range *)
Definition Atoi (s : string) : Z :=
  let '(neg, l) :=
    match bytes s with
    | "-"%char :: l => (true, l)
    | "+"%char :: l => (false, l)
    | l => (false, l)
    end in
  match ParseUint10 l with
  | None => 0
  | Some n => Z.max i64_min (Z.min i64_max (if neg then - n else n))
  end.

Definition workloadReady (w : Workload) : prog NodeE (result string bool) :=
  let! res := trigger (Run (Kubectl ("-n " +:+ wl_Namespace w +:+ " get " +:+ wl_Kind w +:+ " " +:+ wl_Name w +:+
                                     " -o jsonpath='{.status.readyReplicas}'"))) in
  Ret (match res with
       | Err e => Err e
       | Ok res =>
           if decide (ExitStatus res ≠ 0%Z) then Ok false
           else Ok (bool_decide (1 ≤ Atoi (TrimSpace (Stdout res)))%Z)
       end).

(** One pass over the pending workloads: those still not ready. *)
Fixpoint still_pending (pending : list Workload) : prog NodeE (list Workload) :=
  match pending with
  | [] => Ret []
  | w :: pending =>
      let! ready := workloadReady w in
      let! still := still_pending pending in
      Ret (match ready with Ok true => still | _ => w :: still end)
  end.
Definition not_ready (timeout : string) (pending : list Workload) : string :=
  "install: components not ready within " +:+ timeout +:+ ": " +:+
  Join ((λ w, wl_Namespace w +:+ "/" +:+ wl_Kind w +:+ "/" +:+ wl_Name w) <$> pending) ", ".
Fixpoint wait_ready (fuel : nat) (timeout : string) (pending : list Workload) : prog NodeE (option (result string unit)) :=
  match fuel with
  | O => Ret None
  | S fuel =>
      let! still := still_pending pending in
      match still with
      | [] => Ret (Some (Ok tt))
      | _ =>
          let! tick := trigger (NextTick waitPollInterval) in
          if tick : bool then wait_ready fuel timeout still else Ret (Some (Err (not_ready timeout still)))
      end
  end.

(** Polling one command until its reply is good. *)
Fixpoint poll (fuel : nat) (c : Cmd) (good : RunResult → bool) (failure : string) : prog NodeE (option (result string unit)) :=
  match fuel with
  | O => Ret None
  | S fuel =>
      let! res := trigger (Run c) in
      if (match res with Ok res => good res | Err _ => false end) then Ret (Some (Ok tt))
      else
        let! tick := trigger (NextTick waitPollInterval) in
        if tick : bool then poll fuel c good failure else Ret (Some (Err failure))
  end.
Definition waitNamespace (fuel : nat) (ns timeout : string) : prog NodeE (option (result string unit)) :=
  poll fuel (Kubectl ("get namespace " +:+ ns +:+ " -o name")) (λ res, bool_decide (ExitStatus res = 0%Z))
    ("install: namespace " +:+ ns +:+ " not created within " +:+ timeout).

Record crdManifest : Type := { crd_file : manifestFile; crd_path : string; crd_name : string }.

Definition established (names : list string) (remote : string) : Cmd :=
  Kubectl ("wait --for=condition=Established " +:+ Join ((λ n, "crd/" +:+ n) <$> names) " " +:+ " --timeout=" +:+ remote).
(** [timeout - 5s], or [timeout] when nothing is left; [dur] is how Go prints a duration *)
Definition remote_timeout (timeout : Z) : Z := let remote := (timeout - 5 * Second)%Z in if decide (remote ≤ 0)%Z then timeout else remote.
Definition waitCRDsEstablished (dur : Z → string) (names : list string) (timeout : Z) : prog NodeE (result string unit) :=
  if decide (names = []) then Ret (Ok tt)
  else runOK (established names (dur (remote_timeout timeout))) "wait for CRDs to be established".
Fixpoint apply_crds (crds : list crdManifest) : prog NodeE (result string unit) :=
  match crds with
  | [] => Ret (Ok tt)
  | c :: crds =>
      try! _ := runOK (Kubectl ("apply -f " +:+ crd_path c)) ("apply CRD " +:+ crd_name c) in
      apply_crds crds
  end.
Definition applyAndWaitCRDs (dur : Z → string) (crds : list crdManifest) (timeout : Z) : prog NodeE (result string unit) :=
  try! _ := apply_crds crds in
  waitCRDsEstablished dur (crd_name <$> crds) timeout.

(** ** Reading and applying *)
Definition kubectlOutput (args : string) : prog NodeE (result string string) :=
  let! res := trigger (Run (Kubectl args)) in
  Ret (match res with
       | Err e => Err ("install: kubectl " +:+ args +:+ ": " +:+ e)
       | Ok res =>
           if decide (ExitStatus res ≠ 0%Z) then
             Err ("install: kubectl " +:+ args +:+ " exited " +:+ pretty (ExitStatus res) +:+ ": " +:+ firstLine (Stderr res))
           else Ok (TrimSpace (Stdout res))
       end).
Definition applyManifest (desc : string) (manifest : string) : prog NodeE (result string unit) :=
  runOK (KubectlIn (of_bytes (std_encode (bytes manifest))) "apply") ("apply " +:+ desc).

(** ** Files *)
Definition run_reply (c : call NodeE) : option (Cmd * result string RunResult) :=
  match c with
  | Call e x => match e in NodeE X return X → _ with Run c => λ x, Some (c, x) | _ => λ _, None end x
  end.
Definition succeeded (x : result string RunResult) : bool :=
  match x with Ok res => bool_decide (ExitStatus res = 0%Z) | Err _ => false end.

(** What a line does to the files of the node, given how it ended. *)
Definition line_step (fs : gmap string (list ascii)) (c : Cmd) (x : result string RunResult) (fs' : gmap string (list ascii)) : Prop :=
  match c with
  | CatFile p => fs' = fs ∧ ∀ res, x = Ok res → ExitStatus res = 0%Z → fs !! p = Some (bytes (Stdout res))
  | Pipe _ app payload target =>
      if succeeded x then
        fs' = <[target := (if app : bool then default [] (fs !! target) else []) ++ default [] (padded_decode std_alphabet (bytes payload))]> fs
      else fs' = fs ∨ ∃ anything, fs' = <[target := anything]> fs
  | Mv a b =>
      let moved := ∃ data, fs !! a = Some data ∧ fs' = <[b := data]> (delete a fs) in
      if succeeded x then moved else fs' = fs ∨ moved
  | RmF p => if succeeded x then fs' = delete p fs else fs' = fs ∨ fs' = delete p fs
  | Chmod _ _ | Kubectl _ | KubectlIn _ _ | RestartK3s => fs' = fs
  end.
Fixpoint fs_runs (fs : gmap string (list ascii)) (lines : list (Cmd * result string RunResult)) (fs' : gmap string (list ascii)) : Prop :=
  match lines with
  | [] => fs' = fs
  | (c, x) :: lines => ∃ fs1, line_step fs c x fs1 ∧ fs_runs fs1 lines fs'
  end.
Lemma fs_runs_app fs l1 l2 fs' : fs_runs fs (l1 ++ l2) fs' ↔ ∃ fs1, fs_runs fs l1 fs1 ∧ fs_runs fs1 l2 fs'.
Proof.
  revert fs. induction l1 as [|[c x] l1 IH]; intros fs; cbn [app fs_runs].
  - split; [intros Hr; by exists fs|by intros (fs1 & -> & Hr)].
  - split.
    + intros (fs1 & Hs & (fs2 & H1 & H2)%IH). exists fs2. split; [by exists fs1|done].
    + intros (fs2 & (fs1 & Hs & H1) & H2). exists fs1. split; [done|]. apply IH. by exists fs2.
Qed.

(** ** Base64 in pieces *)
Lemma sextets_app l1 l2 : length l1 mod 3 = 0 → sextets (l1 ++ l2) = sextets l1 ++ sextets l2.
Proof.
  induction l1 as [|a|a b|a b c l1 IH] using three_ind; [done..|]. intros Hm. cbn [length] in Hm.
  replace (S (S (S (length l1)))) with (length l1 + 1 * 3) in Hm by lia. rewrite Nat.Div0.mod_add in Hm.
  change ((a :: b :: c :: l1) ++ l2) with (a :: b :: c :: (l1 ++ l2)).
  cbn -[Z.div Z.modulo Z.mul]. by rewrite IH.
Qed.
Lemma length_sextets l k : length l = 3 * k → length (sextets l) = 4 * k.
Proof.
  revert k. induction l as [|a|a b|a b c l IH] using three_ind; intros k Hk; cbn in Hk; [destruct k; [done|lia]|lia|lia|].
  destruct k as [|k]; [lia|]. cbn -[Z.div Z.modulo Z.mul]. rewrite (IH k); lia.
Qed.

(** A multiple of three bytes is encoded on its own. *)
Lemma std_encode_app l1 l2 k : length l1 = 3 * k → std_encode (l1 ++ l2) = std_encode l1 ++ std_encode l2 ∧ length (std_encode l1) = 4 * k.
Proof.
  intros Hl. assert (Hm : length l1 mod 3 = 0) by (rewrite Hl, Nat.mul_comm; apply Nat.Div0.mod_mul).
  assert (Hp1 : padding (length l1) = []) by (unfold padding; by rewrite Hm).
  assert (Hp : padding (length (l1 ++ l2)) = padding (length l2)).
  { unfold padding. rewrite length_app, Nat.Div0.add_mod, Hm, Nat.add_0_l, Nat.Div0.mod_mod. done. }
  unfold std_encode. rewrite Hp1, Hp, app_nil_r, !raw_encode_sextets, length_fmap, sextets_app, fmap_app, app_assoc by done.
  split; [done|by apply length_sextets].
Qed.
Lemma std_encode_length l : length (std_encode l) = 4 * ((length l + 2) / 3).
Proof.
  induction l as [|a|a b|a b c l IH] using three_ind; [done..|].
  destruct (std_encode_app [a; b; c] l 1 eq_refl) as [Happ Hlen].
  change (a :: b :: c :: l) with ([a; b; c] ++ l). rewrite Happ, !length_app, Hlen, IH.
  cbn [length]. replace (3 + length l + 2) with (length l + 2 + 1 * 3) by lia. rewrite Nat.div_add by done. lia.
Qed.

Definition decoded (piece : list ascii) : list ascii := default [] (padded_decode std_alphabet piece).

(** The pieces decode one by one to the whole. *)
Lemma pieces_decode fuel k l :
  0 < k → length (std_encode l) ≤ fuel → concat (decoded <$> chunks fuel (4 * k) (std_encode l)) = l.
Proof.
  intros Hk. revert l. induction fuel as [|fuel IH]; intros l Hl.
  { rewrite std_encode_length in Hl. destruct l as [|c l]; [done|]. cbn [length] in Hl.
    pose proof (Nat.div_str_pos (S (length l) + 2) 3). lia. }
  destruct (decide (l = [])) as [->|Hne]; [done|].
  assert (Hcons : chunks (S fuel) (4 * k) (std_encode l) =
    take (4 * k) (std_encode l) :: chunks fuel (4 * k) (drop (4 * k) (std_encode l))).
  { cbn [chunks]. destruct (std_encode l) as [|c e] eqn:He; [|done]. pose proof (std_encode_length l) as Hlen. rewrite He in Hlen.
    destruct l as [|c l]; [done|]. cbn [length] in Hlen. pose proof (Nat.div_str_pos (S (length l) + 2) 3). lia. }
  rewrite Hcons. cbn [fmap list_fmap concat]. destruct (decide (3 * k ≤ length l)) as [Hle|Hlt].
  - destruct (std_encode_app (take (3 * k) l) (drop (3 * k) l) k) as [Happ Hlen]; [rewrite length_take; lia|].
    rewrite take_drop in Happ. rewrite Happ, <- Hlen, take_app_length, drop_app_length, Hlen.
    unfold decoded at 1. rewrite padded_decode_encode. cbn [default from_option id]. rewrite IH; [apply take_drop|].
    rewrite Happ, length_app, Hlen in Hl. lia.
  - assert (Hshort : length (std_encode l) ≤ 4 * k).
    { rewrite std_encode_length. assert ((length l + 2) / 3 ≤ k); [|lia]. apply Nat.lt_succ_r, Nat.Div0.div_lt_upper_bound. lia. }
    rewrite take_ge, drop_ge by done. unfold decoded at 1. rewrite padded_decode_encode. cbn [default from_option id].
    assert (Hnil : chunks fuel (4 * k) [] = []) by (by destruct fuel). rewrite Hnil. apply app_nil_r.
Qed.
Lemma chunkBase64_quads : chunkBase64 = 4 * Z.to_nat (12 * 1024).
Proof. unfold chunkBase64. lia. Qed.

(** ** Atomic writes *)

(** [P] holds of the files before and after every line, however each line ends. *)
Fixpoint always (P : gmap string (list ascii) → Prop) (fs : gmap string (list ascii)) (lines : list (Cmd * result string RunResult)) : Prop :=
  P fs ∧ match lines with [] => True | (c, x) :: lines => ∀ fs1, line_step fs c x fs1 → always P fs1 lines end.

Lemma always_now P fs lines : always P fs lines → P fs.
Proof. destruct lines as [|[c x] lines]; by intros [? _]. Qed.
Lemma always_end P fs lines fs' : always P fs lines → fs_runs fs lines fs' → P fs'.
Proof.
  revert fs. induction lines as [|[c x] lines IH]; intros fs; cbn [always fs_runs]; [by intros [? _] ->|].
  intros [_ Ha] (fs1 & Hs & Hr). eapply IH; [by apply Ha|done].
Qed.
Lemma always_app P fs l1 l2 : always P fs l1 → (∀ fs1, fs_runs fs l1 fs1 → always P fs1 l2) → always P fs (l1 ++ l2).
Proof.
  revert fs. induction l1 as [|[c x] l1 IH]; intros fs; cbn [app always fs_runs]; [intros _ H2; by apply H2|].
  intros [HP Ha] H2. split; [done|]. intros fs1 Hs. apply IH; [by apply Ha|]. intros fs2 Hr. apply H2. by exists fs1.
Qed.

(** Lines that write one file change nothing else. *)
Definition writes_to (t : string) (l : Cmd * result string RunResult) : Prop := ∃ mkdir app payload, l.1 = Pipe mkdir app payload t.
Lemma line_step_keeps t c x fs fs1 q : writes_to t (c, x) → line_step fs c x fs1 → q ≠ t → fs1 !! q = fs !! q.
Proof.
  intros (m & a & pl & Hc) Hs Hq. cbn in Hc. subst c. cbn in Hs. destruct (succeeded x).
  - subst fs1. by rewrite lookup_insert_ne.
  - destruct Hs as [->|[d ->]]; [done|by rewrite lookup_insert_ne].
Qed.
Lemma writes_keep t lines fs fs' q : Forall (writes_to t) lines → fs_runs fs lines fs' → q ≠ t → fs' !! q = fs !! q.
Proof.
  intros HF. revert fs. induction HF as [|[c x] lines Hc HF IH]; intros fs; cbn [fs_runs]; [by intros ->|].
  intros (fs1 & Hs & Hr) Hq. rewrite (IH _ Hr Hq). by eapply line_step_keeps.
Qed.

Lemma runOK_inv c desc tr r :
  exec (runOK c desc) tr r → ∃ x, omap run_reply tr = [(c, x)] ∧ is_ok r = succeeded x.
Proof.
  intros (x & tr1 & -> & -> & ->). exists x. split; [done|]. destruct x as [res|e]; [|done]. cbn.
  case_decide as He; [by rewrite bool_decide_eq_false_2|]. rewrite bool_decide_eq_true_2; [done|].
  destruct (decide (ExitStatus res = 0%Z)); [done|by destruct He].
Qed.

(** The lines of a loop over pieces, and the file they leave when all succeed. *)
Lemma write_pieces_inv p first pieces tr r :
  exec (write_pieces p first pieces) tr r →
  Forall (writes_to (tmp_of p)) (omap run_reply tr) ∧
  (is_ok r = true → ∀ fs fs1, fs_runs fs (omap run_reply tr) fs1 →
    default [] (fs1 !! tmp_of p) =
      (if first && negb (bool_decide (pieces = [])) then [] else default [] (fs !! tmp_of p)) ++ concat (decoded <$> pieces)).
Proof.
  revert first tr. induction pieces as [|piece pieces IH]; intros first tr; cbn [write_pieces].
  { intros [-> ->]. split; [constructor|]. intros _ fs fs1 ->. rewrite andb_false_r. by rewrite app_nil_r. }
  rewrite exec_bind. intros (tr1 & tr2 & w & -> & (x & Ho & Hx)%runOK_inv & Hk). rewrite omap_app, Ho.
  set (c := if first then _ else _) in *.
  assert (Hc : writes_to (tmp_of p) (c, x)) by (unfold c; destruct first; by eexists _, _, _).
  destruct w as [[]|e]; [|destruct Hk as [-> ->]; split; [by constructor|done]].
  destruct (IH _ _ Hk) as [HF Hd]. split; [by constructor|]. intros Hok fs fs1.
  cbn [app fs_runs]. intros (fs0 & Hs & Hr). rewrite (Hd Hok _ _ Hr). cbn [is_ok] in Hx.
  cbn [andb concat fmap list_fmap]. rewrite app_assoc. f_equal.
  rewrite bool_decide_eq_false_2 by done. unfold c in Hs. destruct first; cbn [line_step] in Hs; rewrite <- Hx in Hs; subst fs0;
    rewrite lookup_insert_eq, bytes_of_bytes; done.
Qed.

(** Writing ends with the rename, of a file that holds the content. *)
Lemma write_inv p content tr r :
  let enc := of_bytes (std_encode content) in
  exec (if len enc <=? maxInlineBase64 then writeInline p enc else writeChunked p enc) tr r →
  ∃ ws ms, omap run_reply tr = ws ++ ms ∧ Forall (writes_to (tmp_of p)) ws ∧
    (ms = [] ∧ is_ok r = false ∨
     ∃ x, ms = [(Mv (tmp_of p) p, x)] ∧ is_ok r = succeeded x ∧
       ∀ fs fs1, fs_runs fs ws fs1 → default [] (fs1 !! tmp_of p) = content).
Proof.
  intros enc. destruct (len enc <=? maxInlineBase64) eqn:Hsize.
  - unfold writeInline. rewrite exec_bind. intros (tr1 & tr2 & w & -> & (x & Ho & Hx)%runOK_inv & Hk).
    rewrite omap_app, Ho. destruct w as [[]|e].
    2:{ destruct Hk as [-> ->]. exists [(Pipe (Some (Dir p)) false enc (tmp_of p), x)], []. split_and!; [done| |by left].
        constructor; [by eexists _, _, _|constructor]. }
    apply runOK_inv in Hk as (y & -> & Hy). eexists [_], [_]. split_and!; [done|constructor; [by eexists _, _, _|constructor]|].
    right. exists y. split_and!; [done..|]. intros fs fs1 (fs0 & Hs & Heq). cbn in Heq. subst fs1. cbn in Hs, Hx. rewrite <- Hx in Hs.
    subst fs0. unfold enc. by rewrite lookup_insert_eq, bytes_of_bytes, padded_decode_encode.
  - unfold writeChunked. rewrite exec_bind. intros (tr1 & tr2 & w & -> & [HF Hd]%write_pieces_inv & Hk). rewrite omap_app.
    destruct w as [[]|e].
    2:{ destruct Hk as [-> ->]. exists (omap run_reply tr1), []. split_and!; [done|done|by left]. }
    apply runOK_inv in Hk as (y & -> & Hy). eexists _, [_]. split_and!; [done..|].
    right. exists y. split_and!; [done..|]. intros fs fs1 Hr. rewrite (Hd eq_refl _ _ Hr).
    unfold enc. rewrite len_bytes, bytes_of_bytes, chunkBase64_quads, pieces_decode by lia.
    assert (Hpieces : chunks (length (std_encode content)) (4 * Z.to_nat (12 * 1024)) (std_encode content) ≠ []).
    { unfold enc in Hsize. rewrite len_bytes, bytes_of_bytes in Hsize. destruct (std_encode content); [done|].
      apply Nat.leb_gt in Hsize. cbn [length chunks]. done. }
    by rewrite bool_decide_eq_false_2.
Qed.

Lemma tmp_of_ne p : tmp_of p ≠ p.
Proof.
  intros Heq. apply (f_equal len) in Heq. unfold tmp_of in Heq. rewrite len_app in Heq. cbn in Heq. lia.
Qed.

(** What an observer of the file can see while it is being replaced. *)
Definition old_or_new (p : string) (content : list ascii) (before fs : gmap string (list ascii)) : Prop :=
  (fs !! p = before !! p ∨ fs !! p = Some content) ∧ ∀ q, q ≠ p → q ≠ tmp_of p → fs !! q = before !! q.

Lemma writes_old_or_new p content before fs lines :
  Forall (writes_to (tmp_of p)) lines → old_or_new p content before fs → always (old_or_new p content before) fs lines.
Proof.
  intros HF. revert fs. induction HF as [|[c x] lines Hc HF IH]; intros fs Hfs; cbn [always]; [done|].
  split; [done|]. intros fs1 Hs. apply IH. destruct Hfs as [Hp Hq]. pose proof (tmp_of_ne p) as Hne. split.
  - by rewrite (line_step_keeps _ _ _ _ _ p Hc Hs) by done.
  - intros q H1 H2. rewrite (line_step_keeps _ _ _ _ _ q Hc Hs) by done. by apply Hq.
Qed.

Lemma move_old_or_new p content before fs fs1 x :
  default [] (fs !! tmp_of p) = content → old_or_new p content before fs → line_step fs (Mv (tmp_of p) p) x fs1 →
  old_or_new p content before fs1 ∧ (succeeded x = true → fs1 !! p = Some content).
Proof.
  intros Hc [Hp Hq] Hs. pose proof (tmp_of_ne p) as Hne.
  assert (Hm : (∃ data, fs !! tmp_of p = Some data ∧ fs1 = <[p := data]> (delete (tmp_of p) fs)) →
    old_or_new p content before fs1 ∧ fs1 !! p = Some content).
  { intros (data & Hd & ->). rewrite Hd in Hc. cbn in Hc. subst data. split; [|by rewrite lookup_insert_eq]. split.
    - right. by rewrite lookup_insert_eq.
    - intros q H1 H2. rewrite lookup_insert_ne, lookup_delete_ne by done. by apply Hq. }
  cbn in Hs. destruct (succeeded x); [destruct (Hm Hs); auto|]. destruct Hs as [->|Hs]; [by split|]. by destruct (Hm Hs).
Qed.

(** Changing modes changes no content. *)
Lemma chmod_keeps P f mode p lines :
  Forall (λ l, l.1 = Chmod mode p) lines → P f → always P f lines ∧ ∀ f', fs_runs f lines f' → f' = f.
Proof.
  intros HF HP. induction HF as [|[c y] lines Hc HF IH]; [split; [done|by intros f' ->]|].
  cbn in Hc. subst c. destruct IH as [H1 H2]. split; [split; [done|]; by intros f1 ->|]. intros f' (f1 & -> & Hr). by apply H2.
Qed.

Lemma ensureFile_files p content mode tr r fs :
  exec (ensureFile p content mode) tr r →
  always (old_or_new p content fs) fs (omap run_reply tr) ∧
  (∀ fs', is_ok r = true → fs_runs fs (omap run_reply tr) fs' → fs' !! p = Some content).
Proof.
  assert (H0 : old_or_new p content fs fs) by (split; [by left|done]).
  intros (cur & tr1 & -> & Hk). cbn [prog_bind] in Hk. cbn [omap list_omap run_reply].
  assert (Hcat : ∀ fs1, line_step fs (CatFile p) cur fs1 → fs1 = fs) by (by intros fs1 [-> _]).
  destruct cur as [cur|e].
  2:{ destruct Hk as [-> ->]. split; [|done]. split; [done|]. by intros fs1 ->%Hcat. }
  case_decide as Hsame.
  { destruct Hk as [-> ->]. split; [split; [done|]; by intros fs1 ->%Hcat|].
    intros fs' _ (fs1 & Hs & Heq). cbn in Heq. subst fs'. rewrite (Hcat _ Hs). destruct Hs as [_ Hs], Hsame as [He Ho].
    rewrite (Hs cur eq_refl He), Ho. by rewrite bytes_of_bytes. }
  apply exec_bind in Hk as (tr2 & tr3 & w & -> & (ws & ms & Hl & HF & Hms)%write_inv & Hk).
  rewrite omap_app, Hl. assert (Hws : always (old_or_new p content fs) fs ws) by (by apply writes_old_or_new).
  destruct Hms as [[-> Herr]|(x & -> & Hx & Hcont)].
  { destruct w as [[]|e]; [done|]. destruct Hk as [-> ->]. rewrite !app_nil_r. split; [|done]. split; [done|]. by intros fs1 ->%Hcat. }
  assert (Hrest : ∃ chm, omap run_reply tr3 = chm ∧ Forall (λ l, l.1 = Chmod mode p) chm ∧ (is_ok r = true → succeeded x = true)).
  { eexists. split; [done|]. destruct w as [[]|e].
    - apply exec_bind in Hk as (t1 & t2 & ch & -> & (y & Ho & Hy)%runOK_inv & Hk). destruct ch as [[]|e']; destruct Hk as [-> ->].
      all: rewrite app_nil_r, Ho; split; [by repeat constructor|]; intros _; by rewrite <- Hx.
    - destruct Hk as [-> ->]. by split; [constructor|]. }
  destruct Hrest as (chm & -> & HFc & Hokx).
  pose proof (λ f, chmod_keeps (old_or_new p content fs) f mode p chm HFc) as Hchm.
  rewrite <- app_assoc. split.
  - split; [done|]. intros fs1 ->%Hcat. apply always_app; [done|]. intros f1 Hr1. cbn [app].
    pose proof (always_end _ _ _ _ Hws Hr1) as Hf1. split; [done|]. intros f2 Hs.
    destruct (move_old_or_new _ _ _ _ _ _ (Hcont _ _ Hr1) Hf1 Hs) as [Hf2 _]. by apply Hchm.
  - intros fs' Hok (fs1 & Hs & Hr). rewrite (Hcat _ Hs) in Hr. apply fs_runs_app in Hr as (f1 & Hr1 & f2 & Hmv & Hr2).
    pose proof (always_end _ _ _ _ Hws Hr1) as Hf1.
    destruct (move_old_or_new _ _ _ _ _ _ (Hcont _ _ Hr1) Hf1 Hmv) as [Hf2 Hp]. rewrite (proj2 (Hchm _ Hf2) _ Hr2). by apply Hp, Hokx.
Qed.

(** C16. Replacing a file on a node is atomic: whatever lines fail, wherever the run stops,
    the file holds either what it held or exactly the new content, and no other file but
    its temporary one changes; and when the step succeeds the file holds the content, also
    when it is sent in pieces. *)
Theorem ensure_file_atomic p content mode tr r fs :
  exec (ensureFile p content mode) tr r →
  always (old_or_new p content fs) fs (omap run_reply tr) ∧
  (∀ fs', is_ok r = true → fs_runs fs (omap run_reply tr) fs' → fs' !! p = Some content).
Proof. apply ensureFile_files. Qed.

(** ** Command lengths *)

(** Linux takes one argument of at most 128 KiB. *)
Definition MAX_ARG_STRLEN : nat := Z.to_nat (128 * 1024).
Definition PATH_MAX : nat := Z.to_nat 4096.

Lemma chunks_length fuel n l : Forall (λ piece, length piece ≤ n) (chunks fuel n l).
Proof.
  revert l. induction fuel as [|fuel IH]; intros [|c l]; cbn [chunks]; try constructor; [|apply IH].
  rewrite length_take. lia.
Qed.

Definition fits (sudo : string) (l : Cmd * result string RunResult) : Prop := len (text sudo l.1) ≤ MAX_ARG_STRLEN.
Lemma pipe_fits sudo p mkdir app payload x :
  len sudo ≤ 5 → len p ≤ PATH_MAX → len (Dir p) ≤ PATH_MAX → len payload ≤ maxInlineBase64 → (mkdir = None ∨ mkdir = Some (Dir p)) →
  fits sudo (Pipe mkdir app payload (tmp_of p), x).
Proof.
  intros Hs Hp Hd Hpl Hm. unfold fits, MAX_ARG_STRLEN, PATH_MAX, maxInlineBase64, tmp_of in *. cbn [fst text].
  destruct Hm as [->| ->]; destruct app; rewrite !len_app; cbn [len String.length]; lia.
Qed.
Lemma mv_fits sudo p x : len sudo ≤ 5 → len p ≤ PATH_MAX → fits sudo (Mv (tmp_of p) p, x).
Proof. intros Hs Hp. unfold fits, MAX_ARG_STRLEN, PATH_MAX, tmp_of in *. cbn [fst text]. rewrite !len_app. cbn [len String.length]. lia. Qed.

Lemma write_pieces_fits sudo p first pieces tr r :
  len sudo ≤ 5 → len p ≤ PATH_MAX → len (Dir p) ≤ PATH_MAX → Forall (λ piece, length piece ≤ chunkBase64) pieces →
  exec (write_pieces p first pieces) tr r → Forall (fits sudo) (omap run_reply tr).
Proof.
  intros Hs Hp Hd HF. revert first tr. induction HF as [|piece pieces Hl HF IH]; intros first tr; cbn [write_pieces].
  { intros [-> _]. constructor. }
  rewrite exec_bind. intros (tr1 & tr2 & w & -> & (x & Ho & _)%runOK_inv & Hk). rewrite omap_app, Ho.
  assert (Hlen : len (of_bytes piece) ≤ maxInlineBase64).
  { rewrite len_bytes, bytes_of_bytes. unfold chunkBase64, maxInlineBase64 in *. lia. }
  apply Forall_app. split; [constructor; [destruct first; apply pipe_fits; auto|constructor]|].
  destruct w as [[]|e]; [by apply (IH false)|]. destruct Hk as [-> _]. constructor.
Qed.

(** C39. No line is too long for the kernel: whatever the size of the content, every line
    that replaces a file stays within the 128 KiB one argument may have, for paths that
    themselves are within the system's limit. *)
Theorem ensure_file_lines_fit sudo p content mode tr r :
  len p ≤ PATH_MAX → len (Dir p) ≤ PATH_MAX → len mode ≤ 16 →
  exec (ensureFile p content mode) tr r → Forall (fits (newNode sudo)) (omap run_reply tr).
Proof.
  intros Hp Hd Hmode. assert (Hs : len (newNode sudo) ≤ 5) by (destruct sudo; cbn; lia).
  assert (Hone : ∀ c x, len (text (newNode sudo) c) ≤ len p + 40 → fits (newNode sudo) (c, x)).
  { intros c x Hc. unfold fits, MAX_ARG_STRLEN, PATH_MAX in *. cbn [fst]. lia. }
  intros (cur & tr1 & -> & Hk). cbn [prog_bind] in Hk. cbn [omap list_omap run_reply]. constructor.
  { apply Hone. cbn [text]. rewrite !len_app. cbn [len String.length]. lia. }
  destruct cur as [cur|e]; [|destruct Hk as [-> _]; constructor]. case_decide; [destruct Hk as [-> _]; constructor|].
  apply exec_bind in Hk as (tr2 & tr3 & w & -> & Hw & Hk). rewrite omap_app. apply Forall_app. split.
  - set (enc := of_bytes (std_encode content)) in *. destruct (len enc <=? maxInlineBase64) eqn:Hsize.
    + apply exec_bind in Hw as (t1 & t2 & v & -> & (x & Ho & _)%runOK_inv & Hv). rewrite omap_app, Ho.
      apply Nat.leb_le in Hsize. constructor; [apply pipe_fits; auto|]. destruct v as [[]|e]; [|destruct Hv as [-> _]; constructor].
      apply runOK_inv in Hv as (y & -> & _). constructor; [by apply mv_fits|constructor].
    + apply exec_bind in Hw as (t1 & t2 & v & -> & Hpc & Hv). rewrite omap_app. apply Forall_app. split.
      * exact (write_pieces_fits _ _ _ _ _ _ Hs Hp Hd (chunks_length _ _ _) Hpc).
      * destruct v as [[]|e]; [|destruct Hv as [-> _]; constructor].
        apply runOK_inv in Hv as (y & -> & _). constructor; [by apply mv_fits|constructor].
  - destruct w as [[]|e]; [|destruct Hk as [-> _]; constructor].
    apply exec_bind in Hk as (t1 & t2 & ch & -> & (y & Ho & _)%runOK_inv & Hk). rewrite omap_app, Ho.
    constructor; [|destruct ch as [[]|e]; destruct Hk as [-> _]; constructor].
    apply Hone. cbn [text]. rewrite !len_app. cbn [len String.length]. lia.
Qed.
