(* ===== verification/Install.v ===== *)
(** * The installer

    [internal/install]: [install.go] (which manifests are written, and [Apply]),
    [components.go] (the per-install ones), [secrets.go] and [repo_allowlist.go] (what is
    created once).  The embedded trees are arguments ([Embedded]), as are text templates,
    YAML, JSON and the printing of durations ([InstallLib]).  The two poll loops of [Apply]
    have [fuel]; [OutOfFuel] is the outcome when an environment lets them poll longer. *)
From S2P Require Import Prelude Regex GoStrings RepoAllowlist Effects Sha256 Kube Features RateLimit Credentials.
From S2P Require Import Paths ApiServer ApiGitHub PlatformSecrets InstallNode.
From Stdlib Require Import Ascii.

(** ** Constants *)
Definition DefaultAutoDeployDir : string := "/var/lib/rancher/k3s/server/manifests".
Definition manifestSubdir : string := "orkano".
Definition DefaultWaitTimeout : Z := 5 * Minute.
Definition manifestMode : string := "0600".
Definition crdManifestPrefix : string := "crd-".
Definition systemNS : string := Namespace.
Definition legacyRepoAllowlistEnv : string := "ORKANO_REPO_ALLOWLIST".
Definition receiverDeploymentName : string := "orkano-receiver".
Definition ignoreNotFoundKubectlOption : string := "--ignore-not-found=true".
Definition imageRepo : string := "ghcr.io/orkanoio".
Definition acmeStagingServer : string := "https://acme-staging-v02.api.letsencrypt.org/directory".
Definition acmeProdServer : string := "https://acme-v02.api.letsencrypt.org/directory".
Definition templateExt : string := ".yaml.tmpl".
Definition receiverIngressTemplate : string := "receiver-ingress.yaml.tmpl".
Definition componentPrefix : string := "components".

(** ** Data *)
Record Entry : Type := { ent_path : string; ent_isDir : bool; ent_read : result string (list ascii) }.
Record Embedded : Type := { emb_static : list Entry; emb_externalSecrets : list Entry; emb_templates : list Entry }.
Record templateData : Type := {
  td_OperatorImage : string; td_ReceiverImage : string; td_DashboardImage : string; td_ACMEServer : string;
  td_ACMEEmail : string; td_UnsafeFeatures : string; td_SourceZipEnabled : bool; td_ReceiverHost : string;
}.
Record LegacyDeployment : Type := { ldep_Name : string; ldep_Containers : list (list CoreEnvVar) }.
Class InstallLib : Type := {
  (** parse and execute a template: its name, text and data *)
  render_template : string → list ascii → templateData → result string (list ascii);
  (** the kind and the name of a YAML document *)
  yaml_kind_name : list ascii → result string (string * string);
  unmarshal_deployment : string → result string LegacyDeployment;
  duration_text : Z → string;
}.
Record InstallConfig : Type := {
  ic_AutoDeployDir : string;
  ic_Version : string;
  ic_ACMEEmail : string;
  ic_ACMEProd : bool;
  ic_RepoAllowlist : list string;
  ic_UnsafeFeatures : list string;
  ic_ReceiverHost : string;
  ic_SecretsVault : bool;
  ic_ReadinessTargets : list Workload;
  ic_WaitTimeout : Z;
  ic_RestartReadyTimeout : Z;
  ic_Sudo : bool;
}.
Record InstallResult : Type := { ir_Changed : bool; ir_BootstrapToken : string }.
Inductive outcome : Type :=
| Done (res : option InstallResult) (err : option string)
| OutOfFuel.

Definition autoDeployDir (c : InstallConfig) : string := if decide (ic_AutoDeployDir c = "") then DefaultAutoDeployDir else ic_AutoDeployDir c.
Definition waitTimeout (c : InstallConfig) : Z := if decide (ic_WaitTimeout c ≤ 0)%Z then DefaultWaitTimeout else ic_WaitTimeout c.

(** ** Readiness targets *)

(** [^[a-z0-9]([-a-z0-9.]*[a-z0-9])?$] *)
Definition lower_alnum (c : ascii) : bool := is_lower c || is_digit c.
Definition workloadNameRe : re :=
  Cat (Cls lower_alnum) (Opt (Cat (Star (Cls (λ c, lower_alnum c || one_of "-." c))) (Cls lower_alnum))).
Definition workloadKinds : list string := ["deployment"; "statefulset"].
Definition DefaultReadinessTargets : list Workload :=
  (λ p, {| wl_Namespace := p.1.1; wl_Kind := p.1.2; wl_Name := p.2 |}) <$>
  [("cert-manager", "deployment", "cert-manager-webhook"); ("cert-manager", "deployment", "cert-manager");
   ("cert-manager", "deployment", "cert-manager-cainjector"); ("orkano-system", "statefulset", "orkano-postgres");
   ("orkano-system", "deployment", "orkano-registry"); ("orkano-system", "deployment", "orkano-operator");
   ("orkano-system", "deployment", "orkano-receiver"); ("orkano-system", "deployment", "orkano-dashboard")].
Definition SecretsVaultReadinessTargets : list Workload :=
  (λ n, {| wl_Namespace := "external-secrets"; wl_Kind := "deployment"; wl_Name := n |}) <$>
  ["external-secrets"; "external-secrets-webhook"; "external-secrets-cert-controller"].

Section install.
Context `{UnicodeTables} {lib : InstallLib} (emb : Embedded).

Fixpoint validateTargets (targets : list Workload) : option string :=
  match targets with
  | [] => None
  | w :: targets =>
      if negb (MatchString workloadNameRe (wl_Namespace w)) || negb (MatchString workloadNameRe (wl_Name w)) then
        Some ("install: invalid readiness target namespace/name " +:+ Quote (wl_Namespace w) +:+ "/" +:+ Quote (wl_Name w))
      else if decide (wl_Kind w ∉ workloadKinds) then
        Some ("install: unsupported readiness target kind " +:+ Quote (wl_Kind w) +:+ " (want deployment or statefulset)")
      else validateTargets targets
  end.

(** ** Manifest names *)

(** [path.Ext] and [path.Base] *)
Fixpoint ext_rev (l acc : list ascii) : string :=
  match l with
  | [] => ""
  | c :: l => if decide (c = "/"%char) then "" else if decide (c = "."%char) then of_bytes (c :: acc) else ext_rev l (c :: acc)
  end.
Definition Ext (p : string) : string := ext_rev (rev (bytes p)) [].
Definition Base (p : string) : string :=
  if decide (p = "") then "."
  else
    let stripped := drop_while (λ c, bool_decide (c = "/"%char)) (rev (bytes p)) in
    let last := rev (default stripped ((λ i, take i stripped) <$> IndexByte stripped "/"%char)) in
    if decide (last = []) then "/" else of_bytes last.

Definition yaml : string := ".yaml".
Definition TrimSuffix (s suffix : string) : string := default s (CutSuffix s suffix).

(** The loop of [manifestFilename]: the name so far and whether a dash is pending. *)
Definition separator (c : ascii) : bool := one_of "/._-" c.
Fixpoint flatten (stem name : list ascii) (pendingDash : bool) : option (list ascii) :=
  match stem with
  | [] => Some name
  | r :: stem =>
      if lower_alnum r then
        flatten stem (name ++ (if pendingDash && negb (bool_decide (name = [])) then ["-"%char] else []) ++ [r]) false
      else if separator r then flatten stem name (negb (bool_decide (name = [])))
      else None
  end.
Definition manifestFilename (sourcePath : string) : result string string :=
  if decide (Ext sourcePath ≠ yaml) then Err ("install: embedded manifest " +:+ sourcePath +:+ " must use the .yaml extension")
  else match flatten (bytes (TrimSuffix sourcePath yaml)) [] false with
  | None => Err ("install: embedded manifest " +:+ sourcePath +:+ " contains a character which has no k3s-safe filename mapping")
  | Some name =>
      if decide (name = []) then Err ("install: embedded manifest " +:+ sourcePath +:+ " has no k3s-safe filename")
      else if 253 <? length name then Err ("install: embedded manifest " +:+ sourcePath +:+ " produces an AddOn name longer than 253 characters")
      else Ok (of_bytes name +:+ yaml)
  end.

Definition addon_char (c : ascii) : bool := lower_alnum c || one_of "-" c.
Definition invalid_file (f : manifestFile) : option string :=
  if decide (Base (mf_name f) ≠ mf_name f ∨ Ext (mf_name f) ≠ yaml) then Some ("install: invalid k3s manifest filename " +:+ Quote (mf_name f))
  else
    let stem := TrimSuffix (mf_name f) yaml in
    if decide (stem = "" ∨ 253 < len stem) then Some ("install: invalid k3s AddOn name " +:+ Quote stem)
    else if negb (forallb addon_char (bytes stem)) then Some ("install: k3s AddOn name " +:+ Quote stem +:+ " contains an unsupported character")
    else if decide (head (bytes stem) = Some "-"%char ∨ last (bytes stem) = Some "-"%char) then
      Some ("install: k3s AddOn name " +:+ Quote stem +:+ " must start and end with an alphanumeric character")
    else None.
Fixpoint validate_files (seen : list string) (files : list manifestFile) : option string :=
  match files with
  | [] => None
  | f :: files =>
      match invalid_file f with
      | Some e => Some e
      | None =>
          let stem := TrimSuffix (mf_name f) yaml in
          if decide (stem ∈ seen) then Some ("install: duplicate k3s AddOn name " +:+ Quote stem)
          else validate_files (stem :: seen) files
      end
  end.
Definition validateManifestFiles (files : list manifestFile) : option string := validate_files [] files.

(** ** The embedded trees *)
Definition dashes (p : string) : string := of_bytes ((λ c, if decide (c = "/"%char) then "-"%char else c) <$> bytes p).
Fixpoint walk (entries : list Entry) (sources : gmap string string) (files : list manifestFile) : result string (list manifestFile) :=
  match entries with
  | [] => Ok files
  | e :: entries =>
      if decide (ent_isDir e = true ∨ Ext (ent_path e) ≠ yaml) then walk entries sources files
      else match ent_read e with
      | Err err => Err ("read embedded " +:+ ent_path e +:+ ": " +:+ err)
      | Ok content =>
          match manifestFilename (ent_path e) with
          | Err err => Err err
          | Ok name =>
              match sources !! name with
              | Some previous => Err ("install: embedded manifests " +:+ previous +:+ " and " +:+ ent_path e +:+ " both map to " +:+ name)
              | None =>
                  let legacy := dashes (ent_path e) in
                  walk entries (<[name := ent_path e]> sources)
                    (files ++ [{| mf_name := name; mf_legacyName := if decide (legacy = name) then "" else legacy; mf_content := content |}])
              end
          end
      end
  end.
Definition by_name (f g : manifestFile) : Prop := String.le (mf_name f) (mf_name g).
#[local] Instance by_name_dec f g : Decision (by_name f g).
Proof. unfold by_name. apply _. Defined.
Definition manifestsFromFS (entries : list Entry) : result string (list manifestFile) :=
  match walk entries ∅ [] with
  | Err e => Err ("walk embedded manifests: " +:+ e)
  | Ok [] => Err "install: no embedded manifests found"
  | Ok files => Ok (merge_sort by_name files)
  end.

(** ** Per-install components *)

(** [^[A-Za-z0-9][A-Za-z0-9._-]*$], [^[A-Za-z0-9._%+-]+@[A-Za-z0-9.-]+\.[A-Za-z]{2,}$] and the host pattern *)
Definition versionRe : re := Cat (Cls is_alnum) (Star (Cls (λ c, is_alnum c || one_of "._-" c))).
Definition letter (c : ascii) : bool := is_upper c || is_lower c.
Definition emailRe : re :=
  Cat (Plus (Cls (λ c, is_alnum c || one_of "._%+-" c))) (Cat (Lit "@"%char) (Cat (Plus (Cls (λ c, is_alnum c || one_of ".-" c)))
    (Cat (Lit "."%char) (Cat (Rep 2 (Cls letter)) (Star (Cls letter)))))).
Definition hostLabel : re := Cat (Cls lower_alnum) (Opt (Cat (Star (Cls (λ c, lower_alnum c || one_of "-" c))) (Cls lower_alnum))).
Definition hostRe : re := Cat hostLabel (Star (Cat (Lit "."%char) hostLabel)).

Definition acmeServer (prod : bool) : string := if prod then acmeProdServer else acmeStagingServer.
Definition allowlist_text (e : AllowlistError) : string :=
  match e with
  | TooManyRepositories => "repository allowlist has more than " +:+ pretty MaxRepositories +:+ " entries"
  | RepositoryTooLong r => "repository " +:+ Quote r +:+ " is longer than " +:+ pretty MaxRepositoryLength +:+ " characters"
  | InvalidRepository r => "invalid repository " +:+ Quote r +:+ " (want owner/repository)"
  end.
Definition feature_text (e : FeatureError) : string :=
  match e with
  | EmptyFeature => "features: feature ID must not be empty"
  | UnknownFeature id allowed => "features: unknown unsafe feature " +:+ Quote id +:+ " (allowed: " +:+ allowed +:+ ")"
  end.
Definition component_data (cfg : InstallConfig) (unsafe : FeatureSet) : templateData :=
  {| td_OperatorImage := imageRepo +:+ "/orkano-operator:" +:+ ic_Version cfg;
     td_ReceiverImage := imageRepo +:+ "/orkano-receiver:" +:+ ic_Version cfg;
     td_DashboardImage := imageRepo +:+ "/orkano-dashboard:" +:+ ic_Version cfg;
     td_ACMEServer := acmeServer (ic_ACMEProd cfg); td_ACMEEmail := ic_ACMEEmail cfg; td_UnsafeFeatures := CSV unsafe;
     td_SourceZipEnabled := Enabled unsafe SourceZip; td_ReceiverHost := ic_ReceiverHost cfg |}.
Fixpoint render_entries (cfg : InstallConfig) (data : templateData) (entries : list Entry) : result string (list manifestFile) :=
  match entries with
  | [] => Ok []
  | e :: entries =>
      let name := Base (ent_path e) in
      if decide (ent_isDir e = true ∨ HasSuffix name templateExt = false) then render_entries cfg data entries
      else if decide (name = receiverIngressTemplate ∧ ic_ReceiverHost cfg = "") then render_entries cfg data entries
      else
        raw ← match ent_read e with Err err => Err ("read template " +:+ name +:+ ": " +:+ err) | Ok raw => Ok raw end;
        content ← match render_template name raw data with Err err => Err ("render template " +:+ name +:+ ": " +:+ err) | Ok c => Ok c end;
        let bare := TrimSuffix name ".tmpl" in
        file ← manifestFilename (componentPrefix +:+ "/" +:+ bare);
        rest ← render_entries cfg data entries;
        Ok ({| mf_name := file; mf_legacyName := bare; mf_content := content |} :: rest)
  end.
Definition renderComponents (cfg : InstallConfig) : result string (list manifestFile) :=
  match ParseFeatures (ic_UnsafeFeatures cfg) with
  | Err e => Err ("install: unsafe features: " +:+ feature_text e)
  | Ok unsafe =>
      if decide (ic_Version cfg = "") then Ok []
      else if negb (MatchString versionRe (ic_Version cfg)) then
        Err ("install: invalid version " +:+ Quote (ic_Version cfg) +:+ " for component image tags")
      else match Normalize (ic_RepoAllowlist cfg) with
      | Err e => Err ("install: repository allowlist: " +:+ allowlist_text e)
      | Ok _ =>
          if decide (ic_ACMEEmail cfg ≠ "" ∧ MatchString emailRe (ic_ACMEEmail cfg) = false) then
            Err ("install: invalid ACME email " +:+ Quote (ic_ACMEEmail cfg))
          else if decide (ic_ReceiverHost cfg ≠ "" ∧ MatchString hostRe (ic_ReceiverHost cfg) = false) then
            Err ("install: invalid receiver host " +:+ Quote (ic_ReceiverHost cfg))
          else render_entries cfg (component_data cfg unsafe) (emb_templates emb)
      end
  end.

Definition writeSet (cfg : InstallConfig) : result string (list manifestFile) :=
  files ← manifestsFromFS (emb_static emb);
  eso ← (if ic_SecretsVault cfg then manifestsFromFS (emb_externalSecrets emb) else Ok []);
  comps ← renderComponents cfg;
  Ok (files ++ eso ++ comps).

(** ** CRDs *)
Fixpoint one_document (lines : list string) (seenContent : bool) : bool :=
  match lines with
  | [] => true
  | line :: lines =>
      let trimmed := TrimSpace line in
      if decide (trimmed = "---") then if seenContent then false else one_document lines seenContent
      else one_document lines (seenContent || (bool_decide (trimmed ≠ "") && negb (HasPrefix trimmed "#")))
  end.
Definition ensureSingleDocument (content : list ascii) : option string :=
  if one_document (Split (of_bytes content) newline) false then None
  else Some "multi-document manifest; CRD files must hold exactly one CRD".
Definition crdName (content : list ascii) : result string string :=
  match ensureSingleDocument content with
  | Some e => Err e
  | None =>
      match yaml_kind_name content with
      | Err e => Err e
      | Ok (kind, name) =>
          if decide (kind ≠ "CustomResourceDefinition") then Err ("kind " +:+ Quote kind +:+ " is not CustomResourceDefinition")
          else if decide (name = "") then Err "metadata.name is empty"
          else Ok name
      end
  end.
Fixpoint splitCRDManifests (base : string) (files : list manifestFile) : result string (list crdManifest * list manifestFile) :=
  match files with
  | [] => Ok ([], [])
  | f :: files =>
      if HasPrefix (mf_name f) crdManifestPrefix then
        match crdName (mf_content f) with
        | Err e => Err ("install: parse " +:+ mf_name f +:+ ": " +:+ e)
        | Ok name =>
            r ← splitCRDManifests base files;
            Ok ({| crd_file := f; crd_path := path_Join [base; mf_name f]; crd_name := name |} :: r.1, r.2)
        end
      else
        r ← splitCRDManifests base files;
        Ok (r.1, f :: r.2)
  end.

(** ** Created once *)
Definition secret_line (k v : string) : string := "  " +:+ k +:+ ": " +:+ of_bytes (std_encode (bytes v)) +:+ nl.
Definition secretManifest (name : string) (data : gmap string string) : string :=
  "apiVersion: v1" +:+ nl +:+ "kind: Secret" +:+ nl +:+ "metadata:" +:+ nl +:+ "  name: " +:+ name +:+ nl +:+
  "  namespace: " +:+ systemNS +:+ nl +:+ "type: Opaque" +:+ nl +:+
  (if decide (data = ∅) then "data: {}" +:+ nl
   else "data:" +:+ nl +:+ Join ((λ k, secret_line k (default "" (data !! k))) <$> merge_sort String.le (map_to_list data).*1) "").

Definition check_secret (name : string) : Cmd := Kubectl ("-n " +:+ systemNS +:+ " get secret " +:+ name +:+ " -o name").
Definition createSecretIfAbsent (name manifest : string) : prog NodeE (result string bool) :=
  let! got := trigger (Run (check_secret name)) in
  match got with
  | Err e => Ret (Err ("install: check secret " +:+ name +:+ ": " +:+ e))
  | Ok got =>
      if decide (ExitStatus got = 0%Z) then Ret (Ok false)
      else
        try! _ := runOK (KubectlIn (of_bytes (std_encode (bytes manifest))) "apply") ("create secret " +:+ name) in
        Ret (Ok true)
  end.

(** [(token, changed, err)] *)
Fixpoint ensure_specs (token : string) (specs : list Spec) (shown : string) (changed : bool) : prog NodeE (string * bool * option string) :=
  match specs with
  | [] => Ret (shown, changed, None)
  | s :: specs =>
      let! created := createSecretIfAbsent (spec_Name s) (secretManifest (spec_Name s) (spec_Data s)) in
      match created with
      | Err e => Ret (shown, changed, Some e)
      | Ok false => ensure_specs token specs shown changed
      | Ok true => ensure_specs token specs (if decide (spec_Name s = NameBootstrapToken) then token else shown) true
      end
  end.
Definition ensureSecrets (v : Values) : prog NodeE (string * bool * option string) :=
  match Specs v with
  | Err e => Ret ("", false, Some e)
  | Ok specs => ensure_specs (v_BootstrapToken v) specs "" false
  end.

Definition read_receiver : Cmd :=
  Kubectl ("-n " +:+ systemNS +:+ " get deployment " +:+ receiverDeploymentName +:+ " " +:+ ignoreNotFoundKubectlOption +:+ " -o json").
(** The loops over containers and their variables. *)
Fixpoint legacy_env (vars : list CoreEnvVar) (raw : option string) : result string (option string) :=
  match vars with
  | [] => Ok raw
  | v :: vars =>
      if decide (cenv_Name v ≠ legacyRepoAllowlistEnv) then legacy_env vars raw
      else if has raw then Err ("install: legacy receiver Deployment has duplicate " +:+ legacyRepoAllowlistEnv +:+ " entries")
      else if has (cenv_ValueFrom v) then Err ("install: legacy receiver Deployment " +:+ legacyRepoAllowlistEnv +:+ " must be a literal value")
      else legacy_env vars (Some (cenv_Value v))
  end.
(** [(repositories, found)] *)
Definition read_legacy (got : RunResult) : result string (list string * bool) :=
  if decide (ExitStatus got ≠ 0%Z) then
    Err ("install: read legacy receiver repository allowlist exited " +:+ pretty (ExitStatus got) +:+ ": " +:+ firstLine (Stderr got))
  else if decide (TrimSpace (Stdout got) = "") then Ok ([], false)
  else match unmarshal_deployment (Stdout got) with
  | Err e => Err ("install: parse legacy receiver Deployment: " +:+ e)
  | Ok dep =>
      if decide (ldep_Name dep ≠ receiverDeploymentName) then
        Err ("install: legacy receiver Deployment has name " +:+ Quote (ldep_Name dep) +:+ ", want " +:+ Quote receiverDeploymentName)
      else match legacy_env (concat (ldep_Containers dep)) None with
      | Err e => Err e
      | Ok None => Ok ([], true)
      | Ok (Some raw) =>
          match Normalize (Split raw ","%char) with
          | Err e => Err ("install: legacy receiver repository allowlist: " +:+ allowlist_text e)
          | Ok repositories => Ok (repositories, true)
          end
      end
  end.
Definition legacyReceiverRepoAllowlist : prog NodeE (result string (list string * bool)) :=
  let! got := trigger (Run read_receiver) in
  Ret (match got with
       | Err e => Err ("install: read legacy receiver repository allowlist: " +:+ e)
       | Ok got => read_legacy got
       end).

Definition repoAllowlistManifest (data : string) : string :=
  "apiVersion: v1" +:+ nl +:+ "kind: ConfigMap" +:+ nl +:+ "metadata:" +:+ nl +:+ "  name: " +:+ ConfigMapName +:+ nl +:+
  "  namespace: " +:+ Namespace +:+ nl +:+ "data:" +:+ nl +:+ "  " +:+ DataKey +:+ ": " +:+ Quote data +:+ nl.
Definition create_command (manifest : string) : Cmd := KubectlIn (of_bytes (std_encode (bytes manifest))) "create".
Definition confirm_command (name : string) : Cmd := Kubectl ("-n " +:+ systemNS +:+ " get configmap " +:+ name +:+ " -o name").
Definition createConfigMapIfAbsent (name manifest : string) : prog NodeE (result string bool) :=
  let! created := trigger (Run (create_command manifest)) in
  match created with
  | Err e => Ret (Err ("install: create configmap " +:+ name +:+ ": " +:+ e))
  | Ok created =>
      if decide (ExitStatus created = 0%Z) then Ret (Ok true)
      else
        let! got := trigger (Run (confirm_command name)) in
        Ret (match got with
             | Err e => Err ("install: confirm configmap " +:+ name +:+ " after create failed: " +:+ e)
             | Ok got =>
                 if decide (ExitStatus got = 0%Z) then Ok false
                 else Err ("install: create configmap " +:+ name +:+ " exited " +:+ pretty (ExitStatus created) +:+ ": " +:+ firstLine (Stderr created))
             end)
  end.
Definition ensureRepoAllowlist (repositories : list string) : prog NodeE (result string bool) :=
  match Format repositories with
  | Err e => Ret (Err ("install: repository allowlist: " +:+ allowlist_text e))
  | Ok data => createConfigMapIfAbsent ConfigMapName (repoAllowlistManifest data)
  end.

(** ** Apply *)

(** Go on with a stage's value, or end with its outcome. *)
Notation "'stage!' x := p 'in' k" := (prog_bind p (λ r, match r with inl o => Ret (inl o) | inr x => k end))
  (at level 10, x binder, p at level 200, k at level 200) : prog_scope.
Definition fail_nil {A} (e : string) : outcome + A := inl (Done None (Some e)).
Definition fail_res {A} (changed : bool) (token e : string) : outcome + A :=
  inl (Done (Some {| ir_Changed := changed; ir_BootstrapToken := token |}) (Some e)).
Definition or_nil {A} (r : result string A) : outcome + A := match r with Ok a => inr a | Err e => fail_nil e end.

(** The repository policy to seed, whether it is in place, and whether this changed anything. *)
Definition settle_policy (cfg : InstallConfig) (seed : list string) : prog NodeE (outcome + (list string * bool * bool)) :=
  if decide (ic_Version cfg ≠ "" ∧ seed = []) then
    let! legacy := legacyReceiverRepoAllowlist in
    match legacy with
    | Err e => Ret (fail_nil e)
    | Ok (legacy, false) => Ret (inr (legacy, false, false))
    | Ok (legacy, true) =>
        let! r := ensureRepoAllowlist legacy in
        Ret (match r with
             | Err e => fail_res false "" e
             | Ok changed => inr (legacy, true, changed)
             end)
    end
  else Ret (inr (seed, false, false)).

Fixpoint write_crds (crds : list crdManifest) (changed : bool) : prog NodeE (outcome + bool) :=
  match crds with
  | [] => Ret (inr changed)
  | c :: crds =>
      let! r := ensureFile (crd_path c) (mf_content (crd_file c)) manifestMode in
      match r with
      | Err e => Ret (fail_nil e)
      | Ok wrote => write_crds crds (wrote || changed)
      end
  end.
Fixpoint write_rest (base : string) (files : list manifestFile) (changed : bool) : prog NodeE (outcome + bool) :=
  match files with
  | [] => Ret (inr changed)
  | f :: files =>
      let! r := ensureFile (path_Join [base; mf_name f]) (mf_content f) manifestMode in
      match r with
      | Err e => Ret (fail_nil e)
      | Ok wrote => write_rest base files (wrote || changed)
      end
  end.

Definition write_manifests (cfg : InstallConfig) (base : string) (files : list manifestFile) (changed : bool) : prog NodeE (outcome + bool) :=
  let! migrated := migrateLegacyManifests base files false in
  match migrated with
  | Err e => Ret (fail_nil e)
  | Ok migrated =>
      match splitCRDManifests base files with
      | Err e => Ret (fail_nil e)
      | Ok (crds, rest) =>
          stage! changed := write_crds crds (migrated || changed) in
          stage! _ := (if decide (crds = []) then Ret (inr tt)
                       else let! r := applyAndWaitCRDs duration_text crds (waitTimeout cfg) in Ret (or_nil r)) in
          write_rest base rest changed
      end
  end.

(** The token to show and whether anything changed. *)
Definition create_once (fuel : nat) (cfg : InstallConfig) (seed : list string) (ready changed : bool) : prog NodeE (outcome + (string * bool)) :=
  if decide (ic_Version cfg = "") then Ret (inr ("", changed))
  else
    let! ns := waitNamespace fuel systemNS (duration_text (waitTimeout cfg)) in
    match ns with
    | None => Ret (inl OutOfFuel)
    | Some (Err e) => Ret (fail_nil e)
    | Some (Ok _) =>
        let! vals := Generate (λ n, trigger (NodeRand n)) in
        match vals with
        | Err e => Ret (fail_nil e)
        | Ok vals =>
            let! sec := ensureSecrets vals in
            match sec with
            | (token, secChanged, Some e) => Ret (fail_res (changed || secChanged) token e)
            | (token, secChanged, None) =>
                if ready then Ret (inr (token, changed || secChanged))
                else
                  let! r := ensureRepoAllowlist seed in
                  Ret (match r with
                       | Err e => fail_res (changed || secChanged) token e
                       | Ok allowlistChanged => inr (token, changed || secChanged || allowlistChanged)
                       end)
            end
        end
    end.

Definition finish (fuel : nat) (cfg : InstallConfig) (token : string) (changed : bool) : prog NodeE outcome :=
  let res := {| ir_Changed := changed; ir_BootstrapToken := token |} in
  if decide (ic_ReadinessTargets cfg = []) then Ret (Done (Some res) None)
  else
    let! r := wait_ready fuel (duration_text (waitTimeout cfg)) (ic_ReadinessTargets cfg) in
    Ret (match r with
         | None => OutOfFuel
         | Some (Err e) => Done (Some res) (Some e)
         | Some (Ok _) => Done (Some res) None
         end).

(** What [Apply] does once its input is accepted. *)
Definition apply_files (fuel : nat) (cfg : InstallConfig) (files : list manifestFile) (seed : list string) : prog NodeE outcome :=
  let! out :=
    (stage! policy := settle_policy cfg seed in
     let '(seed, ready, changed) := policy in
     stage! changed := write_manifests cfg (path_Join [autoDeployDir cfg; manifestSubdir]) files changed in
     create_once fuel cfg seed ready changed) in
  match out with
  | inl o => Ret o
  | inr (token, changed) => finish fuel cfg token changed
  end.

Definition Apply (fuel : nat) (cfg : InstallConfig) : prog NodeE outcome :=
  match validateTargets (ic_ReadinessTargets cfg) with
  | Some e => Ret (Done None (Some e))
  | None =>
      match writeSet cfg with
      | Err e => Ret (Done None (Some e))
      | Ok files =>
          match validateManifestFiles files with
          | Some e => Ret (Done None (Some e))
          | None =>
              match Normalize (ic_RepoAllowlist cfg) with
              | Err e => Ret (Done None (Some ("install: repository allowlist: " +:+ allowlist_text e)))
              | Ok seed => apply_files fuel cfg files seed
              end
          end
      end
  end.
End install.

(** ** Names *)
Section names.
Context `{UnicodeTables} {lib : InstallLib} (emb : Embedded).

Lemma ext_rev_yaml l acc : ext_rev (rev (bytes yaml) ++ l) acc = of_bytes (bytes yaml ++ acc).
Proof. done. Qed.
Lemma Ext_yaml s : Ext (s +:+ yaml) = yaml.
Proof. unfold Ext. rewrite bytes_app, rev_app_distr, ext_rev_yaml. done. Qed.
Lemma TrimSuffix_app s suffix : TrimSuffix (s +:+ suffix) suffix = s.
Proof. unfold TrimSuffix. by rewrite (proj2 (CutSuffix_spec (s +:+ suffix) suffix s) eq_refl). Qed.

(** What the flattening loop builds. *)
Definition addon_stem (l : list ascii) : Prop :=
  Forall (λ c, addon_char c = true) l ∧ head l ≠ Some "-"%char ∧ last l ≠ Some "-"%char.
Lemma lower_alnum_addon c : lower_alnum c = true → addon_char c = true ∧ c ≠ "-"%char.
Proof. intros Hc. split; [unfold addon_char; by rewrite Hc|]. intros ->. done. Qed.
Lemma flatten_stem stem name dash out : addon_stem name → flatten stem name dash = Some out → addon_stem out.
Proof.
  revert name dash. induction stem as [|r stem IH]; intros name dash Hn; cbn [flatten]; [by intros [= <-]|].
  destruct (lower_alnum r) eqn:Hr; [|destruct (separator r); [by apply IH|done]]. apply IH.
  destruct Hn as (HF & Hh & Hl), (lower_alnum_addon r Hr) as [Hc Hd]. rewrite app_assoc. split_and!.
  - apply Forall_app. split; [|by constructor]. apply Forall_app. split; [done|]. destruct (dash && _); repeat constructor.
  - destruct name as [|c name]; [|done]. rewrite andb_false_r. cbn. by intros [= ->].
  - rewrite last_snoc. by intros [= ->].
Qed.

Lemma no_slash_Base s : s ≠ "" → (∀ c, c ∈ bytes s → c ≠ "/"%char) → Base s = s.
Proof.
  intros Hne Hs. unfold Base. rewrite decide_False by done.
  assert (Hr : ∀ c, c ∈ rev (bytes s) → c ≠ "/"%char) by (intros c Hc; apply Hs; by apply list_elem_of_In, in_rev, list_elem_of_In).
  assert (Hnil : rev (bytes s) ≠ []).
  { intros Hn. apply (f_equal (@rev ascii)) in Hn. rewrite rev_involutive in Hn. by destruct s. }
  assert (Hd : drop_while (λ c, bool_decide (c = "/"%char)) (rev (bytes s)) = rev (bytes s)).
  { destruct (rev (bytes s)) as [|c l]; [done|]. cbn. rewrite bool_decide_eq_false_2; [done|]. apply Hr. by left. }
  rewrite Hd.
  assert (Hi : ∀ l : list ascii, (∀ c, c ∈ l → c ≠ "/"%char) → IndexByte l "/"%char = None).
  { induction l as [|c l IH]; intros Hl; [done|]. cbn [IndexByte]. rewrite decide_False by (apply Hl; by left).
    rewrite IH; [done|]. intros d Hd'. apply Hl. by right. }
  rewrite (Hi _ Hr). cbn [fmap option_fmap option_map default from_option id]. rewrite rev_involutive.
  rewrite decide_False; [apply of_bytes_bytes|]. intros Hn. by rewrite Hn in Hnil.
Qed.

(** The two halves agree: a name the installer derives is one it accepts. *)
Lemma manifestFilename_valid p name legacy content :
  manifestFilename p = Ok name → invalid_file {| mf_name := name; mf_legacyName := legacy; mf_content := content |} = None.
Proof.
  unfold manifestFilename. case_decide; [done|]. destruct (flatten _ [] false) as [l|] eqn:Hf; [|done].
  case_decide as Hne; [done|]. destruct (253 <? length l) eqn:Hlen; [done|]. intros [= <-].
  assert (Hst : addon_stem l) by (eapply flatten_stem; [|exact Hf]; split_and!; [constructor|done|done]).
  destruct Hst as (HF & Hh & Hl). unfold invalid_file. cbn [mf_name]. rewrite TrimSuffix_app, bytes_of_bytes.
  assert (Hsn : of_bytes l +:+ yaml ≠ "") by (destruct l; done).
  assert (Hsl : ∀ c, c ∈ bytes (of_bytes l +:+ yaml) → c ≠ "/"%char).
  { intros c Hc ->. rewrite bytes_app, bytes_of_bytes in Hc. apply elem_of_app in Hc as [Hc|Hc].
    - rewrite Forall_forall in HF. by specialize (HF _ Hc).
    - cbn in Hc. repeat (apply elem_of_cons in Hc as [?|Hc]; [done|]). by apply not_elem_of_nil in Hc. }
  rewrite decide_False by (rewrite no_slash_Base, Ext_yaml by done; naive_solver).
  apply Nat.ltb_ge in Hlen. rewrite decide_False.
  2:{ rewrite len_bytes, bytes_of_bytes. intros [Hz|Hz]; [|lia]. apply Hne. by rewrite <- (bytes_of_bytes l), Hz. }
  assert (Hall : forallb addon_char l = true) by (apply forallb_forall; intros c Hc%list_elem_of_In; by rewrite Forall_forall in HF; apply HF).
  rewrite Hall. cbn [negb]. rewrite decide_False by naive_solver. done.
Qed.

Definition valid_files (files : list manifestFile) : Prop := Forall (λ f, invalid_file f = None) files.
Lemma walk_valid entries sources files out : valid_files files → walk entries sources files = Ok out → valid_files out.
Proof.
  revert sources files. induction entries as [|e entries IH]; intros sources files Hv; cbn [walk]; [by intros [= <-]|].
  case_decide; [by apply IH|]. destruct (ent_read e) as [content|err]; [|done].
  destruct (manifestFilename (ent_path e)) as [name|err] eqn:Hn; [|done]. destruct (sources !! name); [done|].
  apply IH. apply Forall_app. split; [done|]. constructor; [by eapply manifestFilename_valid|constructor].
Qed.
Lemma manifestsFromFS_valid entries out : manifestsFromFS entries = Ok out → valid_files out.
Proof.
  unfold manifestsFromFS. destruct (walk entries ∅ []) as [files|e] eqn:Hw; [|done].
  apply walk_valid in Hw; [|constructor]. destruct files as [|f files]; [done|]. intros [= <-].
  unfold valid_files. by rewrite merge_sort_Permutation.
Qed.
Lemma render_entries_valid cfg data entries out : render_entries cfg data entries = Ok out → valid_files out.
Proof.
  revert out. induction entries as [|e entries IH]; intros out; cbn [render_entries]; [intros [= <-]; constructor|].
  case_decide; [apply IH|]. case_decide; [apply IH|]. destruct (ent_read e) as [raw|err]; [|done]. cbn.
  destruct (render_template _ raw data) as [content|err]; [|done]. cbn.
  destruct (manifestFilename _) as [file|err] eqn:Hf; [|done]. cbn.
  destruct (render_entries cfg data entries) as [rest|err]; [|done]. cbn. intros [= <-].
  constructor; [by eapply manifestFilename_valid|by apply IH].
Qed.

Lemma renderComponents_valid cfg out : renderComponents emb cfg = Ok out → valid_files out.
Proof.
  unfold renderComponents. destruct (ParseFeatures _) as [unsafe|e]; [|done]. case_decide; [intros [= <-]; constructor|].
  destruct (MatchString versionRe _); [|done]. cbn [negb]. destruct (Normalize _); [|done].
  case_decide; [done|]. case_decide; [done|]. apply render_entries_valid.
Qed.

Lemma validate_files_None seen files :
  validate_files seen files = None ↔
  valid_files files ∧ NoDup ((λ f, TrimSuffix (mf_name f) yaml) <$> files) ∧ Forall (λ f, TrimSuffix (mf_name f) yaml ∉ seen) files.
Proof.
  revert seen. induction files as [|f files IH]; intros seen; cbn [validate_files fmap list_fmap].
  { split; [|done]. intros _. split_and!; constructor. }
  unfold valid_files. rewrite !Forall_cons, NoDup_cons. destruct (invalid_file f) as [e|] eqn:Hi; [naive_solver|].
  case_decide as Hs; [naive_solver|]. rewrite IH. clear IH. split.
  - intros (HF & Hnd & Hf). split_and!; [done|done| |done|done|].
    + intros (g & Hg & Hin)%list_elem_of_fmap. rewrite Forall_forall in Hf. apply (Hf g Hin). rewrite Hg. by left.
    + eapply Forall_impl; [exact Hf|]. intros g Hg Hx. apply Hg. by right.
  - intros ((_ & HF) & (Hnin & Hnd) & _ & Hf). split_and!; [done|done|].
    apply Forall_forall. intros g Hg Hx. apply elem_of_cons in Hx as [Hx|Hx].
    + apply Hnin. rewrite <- Hx. apply (list_elem_of_fmap_2 (λ f, TrimSuffix (mf_name f) yaml)). done.
    + rewrite Forall_forall in Hf. by apply (Hf g Hg).
Qed.

(** C37. Every manifest the installer assembles, embedded, opted in or rendered, already has
    a legal file name; so the check before anything is written refuses exactly the sets in
    which two files would claim the same AddOn. *)
Theorem write_set_names cfg files :
  writeSet emb cfg = Ok files →
  valid_files files ∧ (validateManifestFiles files = None ↔ NoDup ((λ f, TrimSuffix (mf_name f) yaml) <$> files)).
Proof.
  unfold writeSet. destruct (manifestsFromFS (emb_static emb)) as [static|e] eqn:Hs; [|done]. cbn.
  destruct (if ic_SecretsVault cfg then _ else _) as [eso|e] eqn:He; [|done]. cbn.
  destruct (renderComponents emb cfg) as [comps|e] eqn:Hc; [|done]. cbn. intros [= <-].
  assert (Hv : valid_files (static ++ eso ++ comps)).
  { apply Forall_app. split; [by eapply manifestsFromFS_valid|]. apply Forall_app. split.
    - destruct (ic_SecretsVault cfg); [by eapply manifestsFromFS_valid|]. injection He as <-. constructor.
    - by eapply renderComponents_valid. }
  split; [done|]. unfold validateManifestFiles. rewrite validate_files_None. split; [naive_solver|].
  intros Hnd. split_and!; [done..|]. apply Forall_forall. intros f _. apply not_elem_of_nil.
Qed.
End names.
