(* ===== verification/InstallFlow.v ===== *)
(** * What an installer run guarantees

    Over [Install.v]: the order in which [Apply] does things, what it reports, what is
    created only once, and how the existence check of a Secret falls short of that. *)
From S2P Require Import Prelude Regex GoStrings RepoAllowlist Effects Sha256 Kube Features RateLimit Credentials.
From S2P Require Import Paths ApiServer ApiGitHub PlatformSecrets InstallNode Install.
From Stdlib Require Import Ascii.

Abbreviation line := (Cmd * result string RunResult)%type.
Definition changes_files (c : Cmd) : bool := match c with Pipe _ _ _ _ | Mv _ _ | RmF _ => true | _ => false end.
Definition leaves_files (X : Set) (e : NodeE X) : bool := match e with Run c => negb (changes_files c) | _ => true end.

Lemma leaves_files_lines {A} (p : prog NodeE A) tr a :
  calls_only leaves_files p → exec p tr a → Forall (λ l, changes_files l.1 = false) (omap run_reply tr).
Proof.
  intros Hp Hex. pose proof (calls_only_exec _ _ _ _ Hp Hex) as HF. clear Hp Hex.
  induction HF as [|[X e x] tr Hc HF IH]; [constructor|]. destruct e; try exact IH.
  cbn [omap list_omap run_reply]. constructor; [|exact IH]. cbn in Hc. by apply negb_true_iff in Hc.
Qed.

(** A line that one part cannot make comes after all of it. *)
Lemma after_part {B} (P : B → Prop) (l1 l2 a b : list B) c :
  l1 ++ l2 = a ++ c :: b → Forall P l1 → ¬ P c → ∃ a', a = l1 ++ a' ∧ l2 = a' ++ c :: b.
Proof.
  revert a. induction l1 as [|d l1 IH]; intros a Heq HF Hc; [by exists a|]. apply Forall_cons in HF as [Hd HF].
  destruct a as [|d' a]; cbn in Heq; injection Heq as -> Heq; [done|].
  destruct (IH a Heq HF Hc) as (a' & -> & ->). by exists a'.
Qed.

Section flow.
Context `{UnicodeTables} {lib : InstallLib} (emb : Embedded) (cfg : InstallConfig).

(** ** The repository policy comes first *)

(** The policy [repos] is in the cluster: its ConfigMap was created, or one is there. *)
Definition policy_stored (repos : list string) (lines : list line) : Prop :=
  ∃ data x, Format repos = Ok data ∧ succeeded x = true ∧
    ((create_command (repoAllowlistManifest data), x) ∈ lines ∨ (confirm_command ConfigMapName, x) ∈ lines).
(** Nothing of the old receiver is lost by replacing it: a policy is given, or the old
    receiver was read and has none, or its policy is stored. *)
Definition policy_settled (lines : list line) : Prop :=
  ic_Version cfg = "" ∨ (∃ seed, Normalize (ic_RepoAllowlist cfg) = Ok seed ∧ seed ≠ []) ∨
  ∃ got repos found, (read_receiver, Ok got) ∈ lines ∧ read_legacy got = Ok (repos, found) ∧
    (found = true → policy_stored repos lines).

Lemma policy_stored_app repos l1 l2 : policy_stored repos l1 → policy_stored repos (l1 ++ l2).
Proof. intros (data & x & ? & ? & Hin). exists data, x. rewrite !elem_of_app. tauto. Qed.
Lemma policy_settled_app l1 l2 : policy_settled l1 → policy_settled (l1 ++ l2).
Proof.
  intros [?|[?|(got & repos & found & Hin & Hr & Hs)]]; [by left|right; by left|right; right].
  exists got, repos, found. rewrite elem_of_app. split_and!; [by left|done|]. intros Hf. by apply policy_stored_app, Hs.
Qed.

Lemma ensureRepoAllowlist_stored repos tr b : exec (ensureRepoAllowlist repos) tr (Ok b) → policy_stored repos (omap run_reply tr).
Proof.
  unfold ensureRepoAllowlist. destruct (Format repos) as [data|e] eqn:Hf; [|by intros [_ ?]].
  unfold createConfigMapIfAbsent. intros (x & tr1 & -> & Hk). cbn [prog_bind] in Hk. cbn [omap list_omap run_reply].
  destruct x as [res|e]; [|by destruct Hk]. case_decide as He.
  - exists data, (Ok res). split_and!; [done| |left; by left]. cbn. by rewrite bool_decide_eq_true_2.
  - destruct Hk as (got & tr2 & -> & -> & Hr). destruct got as [got|e]; [|done]. case_decide as Hg; [|done].
    exists data, (Ok got). split_and!; [done| |right; right; by left]. cbn. by rewrite bool_decide_eq_true_2.
Qed.
Lemma ensureRepoAllowlist_leaves repos : calls_only leaves_files (ensureRepoAllowlist repos).
Proof. unfold ensureRepoAllowlist, createConfigMapIfAbsent. calls. Qed.

Lemma settle_policy_spec seed tr r :
  Normalize (ic_RepoAllowlist cfg) = Ok seed → exec (settle_policy cfg seed) tr r →
  Forall (λ l, changes_files l.1 = false) (omap run_reply tr) ∧ ∀ p, r = inr p → policy_settled (omap run_reply tr).
Proof.
  intros Hn Hex. split.
  - eapply leaves_files_lines; [|exact Hex]. unfold settle_policy, legacyReceiverRepoAllowlist. pose proof ensureRepoAllowlist_leaves. calls.
  - intros p ->. unfold settle_policy in Hex. case_decide as Hd.
    + apply exec_bind in Hex as (tr1 & tr2 & legacy & -> & (got & t & -> & -> & El) & Hk). rewrite omap_app.
      destruct legacy as [[repos found]|e]; [|by destruct Hk]. destruct got as [got|e]; [|done].
      right; right. exists got, repos, found. split_and!; [apply elem_of_app; left; by left|done|]. intros ->.
      apply exec_bind in Hk as (tr3 & tr4 & x & -> & Hr & -> & E0). destruct x as [b|e]; [|done].
      apply ensureRepoAllowlist_stored in Hr as (data & y & ? & ? & Hin). exists data, y. rewrite app_nil_r, !elem_of_app. tauto.
    + destruct (decide (ic_Version cfg = "")); [by left|]. right; left. exists seed. split; [done|]. intros ->. by apply Hd.
Qed.

(** ** CRDs before controllers *)
Definition pipes_to (l : line) : option string := match l.1 with Pipe _ _ _ t => Some t | _ => None end.

Lemma ensureFile_pipes p content mode tr r :
  exec (ensureFile p content mode) tr r → Forall (λ t, t = tmp_of p) (omap pipes_to (omap run_reply tr)).
Proof.
  intros (cur & tr1 & -> & Hk). cbn [prog_bind] in Hk. cbn [omap list_omap run_reply pipes_to fst].
  destruct cur as [cur|e]; [|destruct Hk as [-> _]; constructor]. case_decide; [destruct Hk as [-> _]; constructor|].
  apply exec_bind in Hk as (tr2 & tr3 & w & -> & (ws & ms & Hl & HF & Hms)%write_inv & Hk).
  rewrite !omap_app, Hl, omap_app. apply Forall_app. split; [apply Forall_app; split|].
  - clear -HF. induction HF as [|[c x] ws (m & a & pl & Hc) HF IH]; [constructor|]. cbn in Hc. subst c. cbn. by constructor.
  - destruct Hms as [[-> _]|(x & -> & _)]; constructor.
  - destruct w as [[]|e]; [|destruct Hk as [-> _]; constructor].
    apply exec_bind in Hk as (t1 & t2 & ch & -> & (y & Ho & _)%runOK_inv & Hk). rewrite omap_app, Ho.
    destruct ch as [[]|e]; destruct Hk as [-> _]; constructor.
Qed.

Lemma write_crds_pipes crds changed tr r :
  exec (write_crds crds changed) tr r → Forall (λ t, t ∈ tmp_of ∘ crd_path <$> crds) (omap pipes_to (omap run_reply tr)).
Proof.
  revert changed tr. induction crds as [|c crds IH]; intros changed tr; cbn [write_crds]; [intros [-> _]; constructor|].
  rewrite exec_bind. intros (tr1 & tr2 & w & -> & Hf%ensureFile_pipes & Hk). rewrite !omap_app. apply Forall_app. split.
  - eapply Forall_impl; [exact Hf|]. intros t ->. by left.
  - destruct w as [wrote|e]; [|destruct Hk as [-> _]; constructor]. apply IH in Hk. eapply Forall_impl; [exact Hk|]. intros t Ht. by right.
Qed.

Definition no_pipes (X : Set) (e : NodeE X) : bool := match e with Run (Pipe _ _ _ _) => false | _ => true end.
Lemma no_pipes_lines {A} (p : prog NodeE A) tr a : calls_only no_pipes p → exec p tr a → omap pipes_to (omap run_reply tr) = [].
Proof.
  intros Hp Hex. pose proof (calls_only_exec _ _ _ _ Hp Hex) as HF. clear Hp Hex.
  induction HF as [|[X e x] tr Hc HF IH]; [done|]. destruct e; try exact IH. destruct c; try exact IH. done.
Qed.
Lemma migrate_no_pipes base files changed : calls_only no_pipes (migrateLegacyManifests base files changed).
Proof.
  revert changed. induction files as [|f files IH]; intros changed; cbn [migrateLegacyManifests]; [done|].
  case_decide; [apply IH|]. split; [done|]. intros [legacy|e]; [|done]. cbn [prog_bind]. case_decide; [apply IH|].
  split; [done|]. intros [current|e]; [|done]. cbn [prog_bind]. unfold migrate_command, runOK. case_decide; calls; apply IH.
Qed.

(** The CRDs were applied and became Established. *)
Definition crds_established (crds : list crdManifest) (lines : list line) : Prop :=
  crds = [] ∨ ∃ remote x, (established (crd_name <$> crds) remote, x) ∈ lines ∧ succeeded x = true.
Lemma applyAndWaitCRDs_established crds timeout tr :
  crds ≠ [] → exec (applyAndWaitCRDs duration_text crds timeout) tr (Ok tt) → crds_established crds (omap run_reply tr).
Proof.
  intros Hne. unfold applyAndWaitCRDs. rewrite exec_bind. intros (tr1 & tr2 & a & -> & _ & Hk).
  destruct a as [[]|e]; [|by destruct Hk]. unfold waitCRDsEstablished in Hk. case_decide as Hn; [by destruct crds|].
  apply runOK_inv in Hk as (x & Ho & Hx). right. eexists _, x. split; [rewrite omap_app, Ho; apply elem_of_app; right; by left|done].
Qed.
Lemma apply_crds_no_pipes crds timeout : calls_only no_pipes (applyAndWaitCRDs duration_text crds timeout).
Proof.
  unfold applyAndWaitCRDs, waitCRDsEstablished, established. apply calls_only_bind.
  - induction crds as [|c crds IH]; cbn [apply_crds]; [done|]. unfold runOK. calls; apply IH.
  - intros [[]|e]; [|done]. unfold runOK. calls.
Qed.

(** Where content is written: into CRD files, and elsewhere only after the CRDs are there. *)
Lemma write_manifests_order base files changed tr r crds rest :
  splitCRDManifests base files = Ok (crds, rest) → exec (write_manifests cfg base files changed) tr r →
  ∀ a l b t, omap run_reply tr = a ++ l :: b → pipes_to l = Some t → t ∉ tmp_of ∘ crd_path <$> crds → crds_established crds a.
Proof.
  intros Hsplit. unfold write_manifests. rewrite exec_bind. intros (tr1 & tr2 & m & -> & Hm & Hk) a l b t Hl Ht Hnc.
  pose proof (no_pipes_lines _ _ _ (migrate_no_pipes _ _ _) Hm) as Q1. rewrite omap_app in Hl.
  assert (Hin : ∀ (lines : list line) l' t', l' ∈ lines → pipes_to l' = Some t' → t' ∈ omap pipes_to lines).
  { intros lines l' t' H1 H2. apply list_elem_of_omap. by exists l'. }
  assert (Hpart : ∀ (lines rest' x : list line), lines ++ rest' = x ++ l :: b → (t ∉ omap pipes_to lines) → ∃ x', x = lines ++ x' ∧ rest' = x' ++ l :: b).
  { intros lines rest' x Heq Hno. apply (after_part (λ l', l' ∈ lines) lines rest' x b l Heq); [by apply Forall_forall|].
    intros Hl'. apply Hno. by eapply Hin. }
  destruct (Hpart _ _ _ Hl) as (a1 & -> & Hl1); [rewrite Q1; apply not_elem_of_nil|].
  destruct m as [migrated|e]; [|by destruct Hk as [-> _]; destruct a1]. rewrite Hsplit in Hk.
  apply exec_bind in Hk as (tr3 & tr4 & w & -> & Hw%write_crds_pipes & Hk). rewrite omap_app in Hl1.
  destruct (Hpart _ _ _ Hl1) as (a2 & -> & Hl2); [intros Hx; rewrite Forall_forall in Hw; by apply Hnc, Hw|].
  destruct w as [o|changed']; [by destruct Hk as [-> _]; destruct a2|].
  apply exec_bind in Hk as (tr5 & tr6 & e & -> & He & Hk). rewrite omap_app in Hl2.
  case_decide as Hcrds; [by left|]. apply exec_bind in He as (t1 & t2 & r' & -> & Hap & -> & ->). rewrite app_nil_r in Hl2.
  destruct (Hpart _ _ _ Hl2) as (a3 & -> & Hl3).
  { rewrite (no_pipes_lines _ _ _ (apply_crds_no_pipes _ _) Hap). apply not_elem_of_nil. }
  destruct r' as [[]|err]; [|by destruct Hk as [-> _]; destruct a3].
  destruct (applyAndWaitCRDs_established _ _ _ Hcrds Hap) as [?|(remote & x & Hx & Hs)]; [by left|right].
  exists remote, x. split; [|done]. rewrite !elem_of_app. auto.
Qed.

(** *** The rest of a run writes no files *)
Lemma waits_leave fuel : (∀ c good failure, no_pipes _ (Run c) = true → leaves_files _ (Run c) = true →
    calls_only no_pipes (poll fuel c good failure) ∧ calls_only leaves_files (poll fuel c good failure)) ∧
  (∀ timeout pending, calls_only no_pipes (wait_ready fuel timeout pending)).
Proof.
  split.
  - intros c good failure H1 H2. induction fuel as [|fuel [IH1 IH2]]; [done|]. cbn [poll prog_bind trigger]. split.
    + split; [done|]. intros x. destruct (match x with Ok _ => _ | _ => _ end); [done|]. split; [done|]. by intros [].
    + split; [done|]. intros x. destruct (match x with Ok _ => _ | _ => _ end); [done|]. split; [done|]. by intros [].
  - induction fuel as [|fuel IH]; intros timeout pending; [done|]. cbn [wait_ready]. apply calls_only_bind.
    + induction pending as [|w pending IHp]; cbn [still_pending]; [done|]. unfold workloadReady. calls; exact IHp.
    + intros [|w still]; [done|]. split; [done|]. intros []; [apply IH|done].
Qed.
Lemma ensure_specs_no_pipes token specs shown changed : calls_only no_pipes (ensure_specs token specs shown changed).
Proof.
  revert shown changed. induction specs as [|s specs IH]; intros shown changed; cbn [ensure_specs]; [done|].
  unfold createSecretIfAbsent, runOK. calls; apply IH.
Qed.
Lemma create_once_no_pipes fuel seed ready changed : calls_only no_pipes (create_once fuel cfg seed ready changed).
Proof.
  unfold create_once. case_decide; [done|]. apply calls_only_bind; [by apply waits_leave|]. intros [[[]|e]|]; [|done..].
  apply calls_only_bind.
  { unfold Generate, randomHex, randomKeyB64, GenerateBootstrapToken, random_bytes. calls. }
  intros [vals|e]; [|done]. apply calls_only_bind.
  { unfold ensureSecrets. destruct (Specs vals); [apply ensure_specs_no_pipes|done]. }
  intros [[token sc] [e|]]; [done|]. destruct ready; [done|]. unfold ensureRepoAllowlist, createConfigMapIfAbsent. calls.
Qed.
Lemma finish_no_pipes fuel token changed : calls_only no_pipes (finish fuel cfg token changed).
Proof. unfold finish. case_decide; [done|]. apply calls_only_bind; [apply waits_leave|done]. Qed.

Lemma split_at {B} (l1 l2 a b : list B) c :
  l1 ++ l2 = a ++ c :: b → (∃ b1, l1 = a ++ c :: b1) ∨ ∃ a2, a = l1 ++ a2 ∧ l2 = a2 ++ c :: b.
Proof.
  revert a. induction l1 as [|d l1 IH]; intros a Heq; [right; by exists a|].
  destruct a as [|d' a]; cbn in Heq; injection Heq as -> Heq; [left; by exists l1|].
  destruct (IH a Heq) as [(b1 & ->)|(a2 & -> & ->)]; [left; by exists b1|right; by exists a2].
Qed.

Definition manifests_base : string := path_Join [autoDeployDir cfg; manifestSubdir].
(** The line writes content only where and when it may. *)
Definition in_order (files : list manifestFile) (before : list line) (l : line) : Prop :=
  (changes_files l.1 = true → policy_settled before) ∧
  (∀ t, pipes_to l = Some t → ∃ crds rest, splitCRDManifests manifests_base files = Ok (crds, rest) ∧
    (t ∈ tmp_of ∘ crd_path <$> crds ∨ crds_established crds before)).

Lemma crds_established_app crds l1 l2 : crds_established crds l2 → crds_established crds (l1 ++ l2).
Proof. intros [?|(remote & x & Hin & Hs)]; [by left|right]. exists remote, x. rewrite elem_of_app. auto. Qed.

Lemma apply_files_order fuel files seed tr out a l b :
  Normalize (ic_RepoAllowlist cfg) = Ok seed → exec (apply_files fuel cfg files seed) tr out →
  omap run_reply tr = a ++ l :: b → in_order files a l.
Proof.
  intros Hn. unfold apply_files. rewrite exec_bind. intros (tr1 & tr2 & o & -> & Hst & Hk) Hl.
  apply exec_bind in Hst as (trP & trR & p & -> & [HP Hsettled]%settle_policy_spec & Hst); [|done].
  rewrite !omap_app, <- app_assoc in Hl.
  assert (Hquiet : pipes_to l = None ∨ ∃ t, pipes_to l = Some t ∧ changes_files l.1 = true).
  { destruct l as [c x]. destruct c; cbn; eauto. }
  assert (Hchg : changes_files l.1 = true → ∃ a', a = omap run_reply trP ++ a' ∧ omap run_reply trR ++ omap run_reply tr2 = a' ++ l :: b).
  { intros Hc. apply (after_part (λ l, changes_files l.1 = false) _ _ _ b l Hl HP). by rewrite Hc. }
  destruct p as [o'|[[seed' ready] ch]].
  { destruct Hst as [-> ->]. destruct Hk as [-> ->]. split.
    - intros (a' & _ & Hl')%Hchg. by destruct a'.
    - intros t Ht. destruct Hquiet as [Hq|(_ & _ & Hc)]; [by rewrite Hq in Ht|]. apply Hchg in Hc as (a' & _ & Hl'). by destruct a'. }
  split.
  { intros (a' & -> & _)%Hchg. apply policy_settled_app. by eapply Hsettled. }
  intros t Ht. destruct Hquiet as [Hq|(_ & _ & Hc)]; [by rewrite Hq in Ht|]. apply Hchg in Hc as (a' & -> & Hl'). clear Hchg Hl.
  apply exec_bind in Hst as (trM & trC & m & -> & Hm & Hst). rewrite omap_app, <- app_assoc in Hl'.
  assert (Hno : ∀ tr', omap pipes_to (omap run_reply tr') = [] → l ∉ omap run_reply tr').
  { intros tr' Hnil Hin. assert (Hx : t ∈ omap pipes_to (omap run_reply tr')) by (apply list_elem_of_omap; by exists l).
    rewrite Hnil in Hx. by apply not_elem_of_nil in Hx. }
  apply split_at in Hl' as [(b1 & HM)|(a2 & -> & Hl2)].
  2:{ exfalso. assert (Hin : l ∈ omap run_reply trC ++ omap run_reply tr2) by (rewrite Hl2; apply elem_of_app; right; by left).
      apply elem_of_app in Hin as [Hin|Hin]; revert Hin; apply Hno.
      - destruct m as [o'|ch']; [by destruct Hst as [-> _]|]. by eapply no_pipes_lines; [apply create_once_no_pipes|].
      - destruct o as [o'|[token ch']]; [by destruct Hk as [-> _]|]. by eapply no_pipes_lines; [apply finish_no_pipes|]. }
  fold manifests_base in Hm.
  destruct (splitCRDManifests manifests_base files) as [[crds rest]|e] eqn:Hsplit.
  - exists crds, rest. split; [done|]. destruct (decide (t ∈ tmp_of ∘ crd_path <$> crds)); [by left|right].
    apply crds_established_app. by eapply write_manifests_order.
  - exfalso. apply (Hno trM); [|rewrite HM; apply elem_of_app; right; by left].
    unfold write_manifests in Hm. rewrite Hsplit in Hm. apply exec_bind in Hm as (t1 & t2 & mg & -> & Hmg & Hk2).
    rewrite !omap_app, (no_pipes_lines _ _ _ (migrate_no_pipes _ _ _) Hmg). by destruct mg as [mg|e']; destruct Hk2 as [-> _].
Qed.

(** C17. An install never loses a policy and never starts a controller early.  Whatever the
    node answers: before any file on it changes, the repository policy is settled, that is,
    given by the caller, or the running receiver was read and either has none or its policy
    is stored in the cluster; and content goes into a manifest that is not a CRD only after
    the cluster reported every CRD of the set as Established. *)
Theorem apply_in_order fuel tr out a l b :
  exec (Apply emb fuel cfg) tr out → omap run_reply tr = a ++ l :: b →
  ∃ files, writeSet emb cfg = Ok files ∧ validateManifestFiles files = None ∧ in_order files a l.
Proof.
  unfold Apply. intros Hex Hl. assert (Hnil : omap run_reply tr ≠ []) by (intros Hz; rewrite Hz in Hl; by destruct a).
  destruct (validateTargets _); [by destruct Hex as [-> _]|]. destruct (writeSet emb cfg) as [files|e]; [|by destruct Hex as [-> _]].
  destruct (validateManifestFiles files) eqn:Hv; [by destruct Hex as [-> _]|].
  destruct (Normalize _) as [seed|e] eqn:Hn; [|by destruct Hex as [-> _]]. exists files. split_and!; [done..|]. by eapply apply_files_order.
Qed.
End flow.

(** ** What is created once *)
Section secrets.
Context `{UnicodeTables} {lib : InstallLib}.

(** The Secret [name] was reported missing and then written with [manifest]. *)
Definition created_here (name manifest : string) (lines : list line) : Prop :=
  ∃ got y a z, lines = a ++ [(check_secret name, Ok got); (KubectlIn (of_bytes (std_encode (bytes manifest))) "apply", y)] ++ z ∧
    ExitStatus got ≠ 0%Z ∧ succeeded y = true.
Lemma created_here_app name manifest l1 l2 l3 : created_here name manifest l2 → created_here name manifest (l1 ++ l2 ++ l3).
Proof. intros (got & y & a & z & -> & ? & ?). exists got, y, (l1 ++ a), (z ++ l3). by rewrite <- !app_assoc. Qed.

(** What the payload of a write can be: the manifest of a row of the table. *)
Definition applied (l : line) : option string := match l.1 with KubectlIn payload _ => Some payload | _ => None end.
Definition spec_payload (s : Spec) : string := of_bytes (std_encode (bytes (secretManifest (spec_Name s) (spec_Data s)))).

Lemma createSecretIfAbsent_inv name manifest tr r :
  exec (createSecretIfAbsent name manifest) tr r →
  (r = Ok true → created_here name manifest (omap run_reply tr)) ∧
  Forall (λ p, p = of_bytes (std_encode (bytes manifest))) (omap applied (omap run_reply tr)) ∧
  (∀ got, (check_secret name, Ok got) ∈ omap run_reply tr → ExitStatus got = 0%Z → omap applied (omap run_reply tr) = []).
Proof.
  unfold createSecretIfAbsent. cbn [prog_bind trigger]. intros (x & tr1 & -> & Hk). cbn [omap list_omap run_reply].
  destruct x as [got|e].
  2:{ destruct Hk as [-> ->]. split_and!; [done|constructor|done]. }
  case_decide as Hg; [destruct Hk as [-> ->]; split_and!; [done|constructor|done]|].
  apply exec_bind in Hk as (t1 & t2 & w & -> & (y & Ho & Hy)%runOK_inv & Hk). rewrite omap_app, Ho.
  assert (t2 = [] ∧ r = match w with Ok _ => Ok true | Err e => Err e end) as [-> ->] by (destruct w; by destruct Hk as [-> ->]).
  split_and!.
  - destruct w as [[]|e]; [|done]. intros _. by exists got, y, [], [].
  - cbn. by repeat constructor.
  - intros got' Hin He. exfalso. cbn in Hin. apply elem_of_cons in Hin as [[= ->]|Hin]; [done|].
    by apply list_elem_of_singleton in Hin.
Qed.

Lemma ensure_specs_inv token specs shown changed tr shown' changed' err :
  exec (ensure_specs token specs shown changed) tr (shown', changed', err) →
  Forall (λ p, p ∈ spec_payload <$> specs) (omap applied (omap run_reply tr)) ∧
  (shown' = shown ∨ shown' = token ∧ ∃ s, s ∈ specs ∧ spec_Name s = NameBootstrapToken ∧
    created_here NameBootstrapToken (secretManifest NameBootstrapToken (spec_Data s)) (omap run_reply tr)).
Proof.
  revert shown changed tr. induction specs as [|s specs IH]; intros shown changed tr; cbn [ensure_specs].
  { intros [-> [= -> -> ->]]. split; [constructor|by left]. }
  rewrite exec_bind. intros (tr1 & tr2 & created & -> & (Hc & Hp & _)%createSecretIfAbsent_inv & Hk). rewrite !omap_app.
  assert (Hp1 : Forall (λ p, p ∈ spec_payload <$> s :: specs) (omap applied (omap run_reply tr1))).
  { eapply Forall_impl; [exact Hp|]. intros p ->. by left. }
  destruct created as [b|e]; [|destruct Hk as [-> [= -> -> ->]]; rewrite !app_nil_r; split; [done|by left]].
  assert (Hrest : ∃ shown1 changed1, exec (ensure_specs token specs shown1 changed1) tr2 (shown', changed', err) ∧
    (shown1 = shown ∨ b = true ∧ shown1 = token ∧ spec_Name s = NameBootstrapToken)).
  { destruct b; [|by exists shown, changed; split; [|left]]. eexists _, true. split; [exact Hk|]. case_decide; auto. }
  destruct Hrest as (shown1 & changed1 & Hex & Hs1). destruct (IH _ _ _ Hex) as [HF Hs]. split.
  - apply Forall_app. split; [done|]. eapply Forall_impl; [exact HF|]. intros p Hin. by right.
  - destruct Hs as [->|(-> & s' & Hin & Hn & Hcr)].
    + destruct Hs1 as [->|(-> & -> & Hn)]; [by left|right]. split; [done|]. exists s. split_and!; [by left|done|].
      specialize (Hc eq_refl). rewrite Hn in Hc. exact (created_here_app _ _ [] _ _ Hc).
    + right. split; [done|]. exists s'. split_and!; [by right|done|].
      rewrite <- (app_nil_r (omap run_reply tr2)). by apply created_here_app.
Qed.

Lemma ensureSecrets_inv v tr token changed err :
  exec (ensureSecrets v) tr (token, changed, err) →
  Forall (λ p, p ∈ spec_payload <$> spec_table v) (omap applied (omap run_reply tr)) ∧
  (token ≠ "" → token = v_BootstrapToken v ∧
    created_here NameBootstrapToken
      (secretManifest NameBootstrapToken {[KeyTokenSHA256 := Credentials.HashToken token]}) (omap run_reply tr)).
Proof.
  unfold ensureSecrets. destruct (Specs v) as [specs|e] eqn:Hsp; [|intros [-> [= -> -> ->]]; split; [constructor|done]].
  assert (specs = spec_table v) as -> by (unfold Specs in Hsp; destruct (validate v); [done|by injection Hsp as <-]).
  intros [HF Hs]%ensure_specs_inv. split; [done|]. intros Hne. destruct Hs as [?|(-> & s & Hin & Hn & Hc)]; [done|]. split; [done|].
  assert (Hd : spec_Data s = {[KeyTokenSHA256 := HashToken (v_BootstrapToken v)]}).
  { unfold spec_table in Hin. repeat (apply elem_of_cons in Hin as [->|Hin]; [first [done|by vm_compute in Hn]|]). by apply not_elem_of_nil in Hin. }
  by rewrite Hd in Hc.
Qed.

(** The installer shows a bootstrap token only when the token is the one it stored in
    this very run: the Secret was reported missing and then written, with the hash of that
    token, and everything that is written is the table of the values it generated. *)
Theorem installer_token_stored v tr token changed err :
  exec (ensureSecrets v) tr (token, changed, err) →
  Forall (λ p, p ∈ spec_payload <$> spec_table v) (omap applied (omap run_reply tr)) ∧
  (token ≠ "" → token = v_BootstrapToken v ∧
    created_here NameBootstrapToken
      (secretManifest NameBootstrapToken {[KeyTokenSHA256 := Credentials.HashToken token]}) (omap run_reply tr)).
Proof. apply ensureSecrets_inv. Qed.

(** *** A failed check is taken for absence *)

(** A cluster that holds the Secret, with [stored] as its manifest, while the API server
    cannot be reached for the one request that looks. *)
Definition flaky (X : Set) (e : NodeE X) (stored : string) : X * string :=
  match e in NodeE X return X * string with
  | Run (KubectlIn payload _) => (Ok {| ExitStatus := 0; Stdout := ""; Stderr := "" |}, payload)
  | Run (Kubectl _) =>
      (Ok {| ExitStatus := 1; Stdout := ""; Stderr := "The connection to the server 127.0.0.1:6443 was refused" |}, stored)
  | Run _ => (Ok {| ExitStatus := 0; Stdout := ""; Stderr := "" |}, stored)
  | NextTick _ => (false, stored)
  | NodeRand n => (Ok (replicate n (byte 7)), stored)
  end.

(** Generate-once does not hold for the installer: any failing exit of the existence
    check counts as absence, and the write that follows is an apply, so a Secret that is
    there is replaced by the newly generated one and reported as created. *)
Theorem failed_check_replaces_secret name manifest stored :
  let out := run flaky (createSecretIfAbsent name manifest) stored in
  exec (createSecretIfAbsent name manifest) out.1.2 (Ok true) ∧
  out.2 = of_bytes (std_encode (bytes manifest)) ∧
  Forall (λ l, is_ok l.2 = true) (omap run_reply out.1.2).
Proof.
  intros out. split; [exact (run_exec flaky (createSecretIfAbsent name manifest) stored)|]. split; [done|].
  by repeat constructor.
Qed.
End secrets.
