(* ===== verification/InstallRegistry.v ===== *)
(** * Wiring the registry

    [internal/install/registry.go]: what the first server publishes once the registry runs
    ([WireRegistry]) and what every node is told ([WriteNodeRegistry]): the CA, the k3s
    registry configuration and one line of [/etc/hosts].  PEM decoding is an argument
    ([pem_type]: the type of the first block).  The offset in a base64 error and log lines are left
    out; [fuel] bounds the polls of [waitAPIReady]. *)
From S2P Require Import Prelude Regex GoStrings Names Effects Sha256 Kube Paths RateLimit Credentials ApiServer GitHubApp.
From S2P Require Import PlatformSecrets Net InstallNode Install.
From Stdlib Require Import Ascii.

(** ** Constants *)
Definition registryHost : string := "orkano-registry.orkano-system.svc.cluster.local".
Definition registryTLSSecret : string := "orkano-registry-tls".
Definition registryService : string := "orkano-registry".
Definition buildsNS : string := "orkano-builds".
Definition registryCAConfigMap : string := "orkano-registry-ca".
Definition nodeRegistriesPath : string := "/etc/rancher/k3s/registries.yaml".
Definition nodeRegistryCAPath : string := "/etc/rancher/k3s/orkano-registry-ca.crt".
Definition nodeHostsPath : string := "/etc/hosts".
Definition nodeRegistriesMode : string := "0600".
Definition nodeRegistryCAMode : string := "0644".
Definition registryHostsMarker : string := " # orkano-registry".
Definition defaultRestartReadyTimeout : Z := 2 * Minute.
Definition restartReadyTimeout (c : InstallConfig) : Z :=
  if decide (ic_RestartReadyTimeout c ≤ 0)%Z then defaultRestartReadyTimeout else ic_RestartReadyTimeout c.

Record RegistryInfo : Type := { ri_CA : list ascii; ri_ClusterIP : string }.

(** ** Rendering *)
Definition managed_line (ip host : string) : string := ip +:+ " " +:+ host +:+ registryHostsMarker.
Definition is_managed (line : string) : bool := HasSuffix line registryHostsMarker.
Definition renderHosts (current ip host : string) : string :=
  let kept := filter (λ line, is_managed line = false) (Split current newline) in
  let body := TrimRight (Join kept nl) nl in
  body +:+ nl +:+ managed_line ip host +:+ nl.

Definition ca_lines (lines : list string) : string := Join ((λ line, "    " +:+ line +:+ nl) <$> lines) "".
Definition registryCAConfigMapManifest (ca : list ascii) : string :=
  "apiVersion: v1" +:+ nl +:+ "kind: ConfigMap" +:+ nl +:+ "metadata:" +:+ nl +:+ "  name: " +:+ registryCAConfigMap +:+ nl +:+
  "  namespace: " +:+ buildsNS +:+ nl +:+ "data:" +:+ nl +:+ "  ca.crt: |" +:+ nl +:+
  ca_lines (Split (TrimRight (of_bytes ca) nl) newline).

Definition hostCIDR (ip : string) : string := if Contains ip ":" then ip +:+ "/128" else ip +:+ "/32".
Definition block_lines (ip : string) : string :=
  "        - ipBlock:" +:+ nl +:+ "            cidr: " +:+ hostCIDR ip +:+ nl.
Definition registryIngressNodesManifest (nodeIPs : list string) : string :=
  "apiVersion: networking.k8s.io/v1" +:+ nl +:+ "kind: NetworkPolicy" +:+ nl +:+ "metadata:" +:+ nl +:+
  "  name: orkano-registry-ingress-nodes" +:+ nl +:+ "  namespace: " +:+ systemNS +:+ nl +:+ "spec:" +:+ nl +:+
  "  podSelector:" +:+ nl +:+ "    matchLabels:" +:+ nl +:+ "      app.kubernetes.io/name: orkano-registry" +:+ nl +:+
  "  policyTypes: [Ingress]" +:+ nl +:+ "  ingress:" +:+ nl +:+ "    - ports:" +:+ nl +:+ "        - port: 5000" +:+ nl +:+
  "          protocol: TCP" +:+ nl +:+ "      from:" +:+ nl +:+ Join (block_lines <$> nodeIPs) "".

Definition registriesYAML : list ascii :=
  bytes ("configs:" +:+ nl +:+ "  " +:+ dq +:+ registryHost +:+ dq +:+ ":" +:+ nl +:+ "    tls:" +:+ nl +:+
         "      ca_file: " +:+ nodeRegistryCAPath +:+ nl).

Section registry.
Context `{UnicodeTables} (dur : Z → string) (pem_type : list ascii → option string).

(** ** Reading the cluster *)
Definition read_ca : string := "get secret " +:+ registryTLSSecret +:+ " -n " +:+ systemNS +:+ " -o 'jsonpath={.data.ca\.crt}'".
Definition readRegistryCA : prog NodeE (result string (list ascii)) :=
  try! out := kubectlOutput read_ca in
  if decide (out = "") then Ret (Err ("install: registry CA (" +:+ systemNS +:+ "/" +:+ registryTLSSecret +:+ " ca.crt) is not yet issued"))
  else match padded_decode std_alphabet (bytes out) with
  | None => Ret (Err "install: decode registry CA: illegal base64 data")
  | Some ca =>
      if decide (pem_type ca = Some "CERTIFICATE") then Ret (Ok ca)
      else Ret (Err "install: registry CA is not a PEM certificate")
  end.
Definition readRegistryClusterIP : prog NodeE (result string string) :=
  try! out := kubectlOutput ("get svc " +:+ registryService +:+ " -n " +:+ systemNS +:+ " -o 'jsonpath={.spec.clusterIP}'") in
  Ret (if ParseIP out then Ok out else Err ("install: registry ClusterIP " +:+ Quote out +:+ " is not a valid IP")).
Fixpoint first_invalid (ips : list string) : option string :=
  match ips with
  | [] => None
  | ip :: ips => if ParseIP ip then first_invalid ips else Some ip
  end.
Definition readNodeInternalIPs : prog NodeE (result string (list string)) :=
  try! out := kubectlOutput ("get nodes -o 'jsonpath={.items[*].status.addresses[?(@.type==" +:+ dq +:+ "InternalIP" +:+ dq +:+ ")].address}'") in
  let ips := Fields out in
  if decide (ips = []) then Ret (Err "install: no node InternalIPs found")
  else match first_invalid ips with
  | Some ip => Ret (Err ("install: node InternalIP " +:+ Quote ip +:+ " is not a valid IP"))
  | None => Ret (Ok ips)
  end.

Definition WireRegistry : prog NodeE (result string RegistryInfo) :=
  try! ca := readRegistryCA in
  try! clusterIP := readRegistryClusterIP in
  try! nodeIPs := readNodeInternalIPs in
  try! _ := applyManifest "registry CA ConfigMap" (registryCAConfigMapManifest ca) in
  try! _ := applyManifest "registry node-ingress policy" (registryIngressNodesManifest nodeIPs) in
  Ret (Ok {| ri_CA := ca; ri_ClusterIP := clusterIP |}).

(** ** Telling a node *)
Definition ensureHostsEntry (ip host : string) : prog NodeE (result string bool) :=
  let! cur := trigger (Run (CatFile nodeHostsPath)) in
  match cur with
  | Err e => Ret (Err ("install: read " +:+ nodeHostsPath +:+ ": " +:+ e))
  | Ok cur =>
      if decide (ExitStatus cur ≠ 0%Z) then
        Ret (Err ("install: " +:+ nodeHostsPath +:+ " is unreadable (exit " +:+ pretty (ExitStatus cur) +:+ ")"))
      else
        let desired := renderHosts (Stdout cur) ip host in
        if decide (Stdout cur = desired) then Ret (Ok false)
        else
          try! _ := runOK (Pipe None false (of_bytes (std_encode (bytes desired))) nodeHostsPath) ("update " +:+ nodeHostsPath) in
          Ret (Ok true)
  end.
Definition readyz : Cmd := Kubectl "get --raw=/readyz".
Definition api_ready (res : RunResult) : bool := bool_decide (ExitStatus res = 0%Z ∧ TrimSpace (Stdout res) = "ok").
Definition waitAPIReady (fuel : nat) (timeout : Z) : prog NodeE (option (result string unit)) :=
  poll fuel readyz api_ready ("install: k3s apiserver did not become ready within " +:+ dur timeout +:+ " after restart").

(** [None]: out of fuel; otherwise [(changed, err)] *)
Definition incomplete (info : RegistryInfo) : bool := bool_decide (ri_CA info = []) || negb (ParseIP (ri_ClusterIP info)).
Definition WriteNodeRegistry (fuel : nat) (info : RegistryInfo) (cfg : InstallConfig) : prog NodeE (option (bool * option string)) :=
  if incomplete info then Ret (Some (false, Some "install: registry info is incomplete"))
  else
    let! ca := ensureFile nodeRegistryCAPath (ri_CA info) nodeRegistryCAMode in
    match ca with
    | Err e => Ret (Some (false, Some e))
    | Ok caChanged =>
        let! conf := ensureFile nodeRegistriesPath registriesYAML nodeRegistriesMode in
        match conf with
        | Err e => Ret (Some (false, Some e))
        | Ok cfgChanged =>
            let! hosts := ensureHostsEntry (ri_ClusterIP info) registryHost in
            match hosts with
            | Err e => Ret (Some (false, Some e))
            | Ok hostsChanged =>
                if negb caChanged && negb cfgChanged then Ret (Some (caChanged || cfgChanged || hostsChanged, None))
                else
                  let! r := runOK RestartK3s "restart k3s" in
                  match r with
                  | Err e => Ret (Some (true, Some e))
                  | Ok _ =>
                      let! w := waitAPIReady fuel (restartReadyTimeout cfg) in
                      Ret (match w with
                           | None => None
                           | Some (Err e) => Some (true, Some e)
                           | Some (Ok _) => Some (true, None)
                           end)
                  end
            end
        end
    end.
End registry.

(** ** [/etc/hosts] *)

Definition blank_or_managed (line : string) : bool := is_managed line || bool_decide (line = "").
Definition other_lines (s : string) : list string := filter (λ line, blank_or_managed line = false) (Split s newline).

Lemma managed_line_free ip host :
  ParseIP ip = true → (newline ∉ bytes host) → newline ∉ bytes (managed_line ip host).
Proof.
  intros Hip%ip_not_newline Hh Hin. unfold managed_line in Hin. rewrite !bytes_app, !elem_of_app in Hin.
  pose proof (not_in_literal newline " " eq_refl). pose proof (not_in_literal newline registryHostsMarker eq_refl). tauto.
Qed.
Lemma managed_line_managed ip host : is_managed (managed_line ip host) = true.
Proof.
  unfold is_managed, managed_line.
  pose proof (proj2 (CutSuffix_spec ((ip +:+ " " +:+ host) +:+ registryHostsMarker) registryHostsMarker (ip +:+ " " +:+ host)) eq_refl) as Hc.
  unfold CutSuffix in Hc. rewrite !str_app_assoc in Hc. by destruct (HasSuffix _ _).
Qed.

(** Taking newlines off the end takes blank lines off the end. *)
Lemma split_newlines k l : split_bytes newline (l ++ replicate k newline) = split_bytes newline l ++ replicate k [].
Proof.
  assert (Hr : split_bytes newline (replicate k newline) = replicate (S k) []).
  { induction k as [|k IH]; [done|]. cbn [replicate split_bytes]. by rewrite decide_True, IH. }
  destruct k as [|k]; [by rewrite !app_nil_r|]. cbn [replicate] in Hr |- *. rewrite split_bytes_concat. f_equal.
  cbn [split_bytes] in Hr. rewrite decide_True in Hr by done. by injection Hr.
Qed.
Lemma Split_TrimRight s : ∃ k, Split s newline = Split (TrimRight s nl) newline ++ replicate k "".
Proof.
  destruct (TrimRight_spec s nl) as (t & Heq & HF & _).
  assert (Ht : t = replicate (length t) newline).
  { clear Heq. induction HF as [|c t Hc HF IH]; [done|]. cbn [length replicate]. f_equal; [|done].
    apply bool_decide_eq_true in Hc. by apply list_elem_of_singleton in Hc. }
  exists (length t). unfold Split. rewrite Heq, Ht, split_newlines, fmap_app, length_replicate. by rewrite fmap_replicate.
Qed.
Lemma Join_Split s sep : Join (Split s sep) (String sep "") = s.
Proof.
  induction s as [|c s IH]; [done|]. unfold Split in *. change (bytes (String c s)) with (c :: bytes s). cbn [split_bytes].
  case_decide as Hc.
  - subst c. destruct (split_bytes sep (bytes s)) as [|w ws] eqn:Hs.
    { destruct (bytes s); cbn in Hs; [done|]. repeat case_match; done. }
    change (Join (of_bytes <$> [] :: w :: ws) (String sep "")) with (String sep "" +:+ Join (of_bytes <$> w :: ws) (String sep "")).
    by rewrite IH.
  - destruct (split_bytes sep (bytes s)) as [|w ws]; [by rewrite <- IH|]. rewrite <- IH. by destruct ws.
Qed.

Lemma filter_none {A} (P : A → Prop) `{∀ x, Decision (P x)} (l : list A) : Forall (λ x, ¬ P x) l → filter P l = [].
Proof. induction 1; [done|]. by rewrite filter_cons_False. Qed.
Lemma drop_while_idem p l : drop_while p (drop_while p l) = drop_while p l.
Proof. induction l as [|c l IH]; [done|]. cbn. destruct (p c) eqn:Hc; [done|]. cbn. by rewrite Hc. Qed.
Lemma TrimRight_again s : TrimRight (TrimRight s nl +:+ nl) nl = TrimRight s nl.
Proof.
  unfold TrimRight at 1. rewrite bytes_app, rev_app_distr. unfold TrimRight. rewrite bytes_of_bytes, rev_involutive.
  change (rev (bytes nl)) with [newline]. cbn [app drop_while]. change (one_of nl newline) with true. cbn iota.
  by rewrite drop_while_idem.
Qed.
Lemma Join_last s : Join (Split s newline ++ [""]) nl = s +:+ nl.
Proof. rewrite <- (Join_Split (s +:+ nl) newline). unfold nl. by rewrite Split_app. Qed.

(** The lines kept, as the file of them is split again. *)
Lemma kept_lines cur :
  let kept := filter (λ line, is_managed line = false) (Split cur newline) in
  ∃ k, Split (TrimRight (Join kept nl) nl) newline ++ replicate k "" = kept ∨
       kept = [] ∧ Split (TrimRight (Join kept nl) nl) newline = [""].
Proof.
  intros kept. destruct (decide (kept = [])) as [->|Hne]; [exists 0; right; split; [done|vm_compute; reflexivity]|].
  destruct (Split_TrimRight (Join kept nl)) as [k Hk]. exists k. left. rewrite <- Hk. apply Split_Join; [done|].
  apply Forall_forall. intros line [_ Hin]%list_elem_of_filter. pose proof (Split_free newline cur) as HF.
  rewrite Forall_forall in HF. by apply HF.
Qed.

Section hosts.
Context (ip host : string) (Hip : ParseIP ip = true) (Hhost : newline ∉ bytes host).

Definition hosts_body (cur : string) : string := TrimRight (Join (filter (λ line, is_managed line = false) (Split cur newline)) nl) nl.
Lemma renderHosts_lines cur : Split (renderHosts cur ip host) newline = Split (hosts_body cur) newline ++ [managed_line ip host; ""].
Proof using Hip Hhost.
  unfold renderHosts. fold (hosts_body cur). change (nl +:+ managed_line ip host +:+ nl) with (String newline (managed_line ip host +:+ nl)).
  rewrite Split_app. f_equal. unfold nl. rewrite Split_field by (by apply managed_line_free). done.
Qed.
Lemma hosts_body_lines cur : Forall (λ line, is_managed line = false) (Split (hosts_body cur) newline).
Proof using.
  unfold hosts_body. destruct (kept_lines cur) as [k [Hk|[_ Hk]]]; [|rewrite Hk; by repeat constructor].
  assert (HF : Forall (λ line, is_managed line = false) (filter (λ line, is_managed line = false) (Split cur newline))).
  { apply Forall_forall. by intros line [? _]%list_elem_of_filter. }
  rewrite <- Hk in HF. by apply Forall_app in HF as [? _].
Qed.
Lemma other_lines_body cur :
  filter (λ line, blank_or_managed line = false) (Split (hosts_body cur) newline) = other_lines cur.
Proof using.
  assert (Hsub : other_lines cur = filter (λ line, blank_or_managed line = false) (filter (λ line, is_managed line = false) (Split cur newline))).
  { unfold other_lines. rewrite list_filter_filter. apply list_filter_iff. intros line. unfold blank_or_managed.
    destruct (is_managed line); cbn; naive_solver. }
  rewrite Hsub. unfold hosts_body. destruct (kept_lines cur) as [k [Hk|[Hk0 Hk]]].
  - rewrite <- Hk at 2. rewrite filter_app.
    assert (Hb : filter (λ line, blank_or_managed line = false) (replicate k "") = []).
    { clear. induction k as [|k IH]; [done|]. cbn [replicate]. by rewrite filter_cons_False. }
    by rewrite Hb, app_nil_r.
  - rewrite Hk, Hk0. by rewrite filter_cons_False.
Qed.
End hosts.

(** Rendering a rendered file replaces the address. *)
Lemma renderHosts_again cur ip ip' :
  ParseIP ip = true → renderHosts (renderHosts cur ip registryHost) ip' registryHost = renderHosts cur ip' registryHost.
Proof.
  intros Hip. set (out := renderHosts cur ip registryHost).
  assert (Hh : newline ∉ bytes registryHost) by (by apply not_in_literal).
  pose proof (renderHosts_lines ip registryHost Hip Hh cur) as Hl. fold out in Hl.
  pose proof (hosts_body_lines cur) as Hb. pose proof (managed_line_managed ip registryHost) as Hm.
  assert (Hbody : hosts_body out = hosts_body cur); [|unfold renderHosts; by fold (hosts_body out) (hosts_body cur); rewrite Hbody].
  unfold hosts_body at 1. rewrite Hl, filter_app, filter_cons_False by (by rewrite Hm).
  rewrite filter_all by (by apply Forall_forall). rewrite filter_cons_True, filter_nil, Join_last by done. apply TrimRight_again.
Qed.

(** C36. The installer owns one line of a node's hosts file.  Whatever the file holds and
    whatever valid address it maps, the rewritten file has exactly one managed line, the one
    for this address, and every other line that is not blank, in its order; writing again
    changes nothing, and a later address gives what writing that address at once would. *)
Theorem hosts_entry_exact cur ip ip' :
  ParseIP ip = true → ParseIP ip' = true →
  let out := renderHosts cur ip registryHost in
  filter (λ line, is_managed line = true) (Split out newline) = [managed_line ip registryHost] ∧
  other_lines out = other_lines cur ∧
  renderHosts out ip' registryHost = renderHosts cur ip' registryHost.
Proof.
  intros Hip Hip' out. assert (Hh : newline ∉ bytes registryHost) by (by apply not_in_literal).
  pose proof (renderHosts_lines ip registryHost Hip Hh cur) as Hl. fold out in Hl.
  pose proof (hosts_body_lines cur) as Hb. pose proof (managed_line_managed ip registryHost) as Hm. split_and!.
  - rewrite Hl, filter_app, filter_cons_True, filter_cons_False by done.
    replace (filter _ (Split (hosts_body cur) newline)) with (@nil string); [done|]. symmetry.
    apply filter_none. eapply Forall_impl; [exact Hb|]. by intros line ->.
  - unfold other_lines at 1. rewrite Hl, filter_app, other_lines_body, !filter_cons_False; [apply app_nil_r|done|].
    unfold blank_or_managed. by rewrite Hm.
  - by apply renderHosts_again.
Qed.

(** ** Restarts *)
Section restarts.
Context `{UnicodeTables} (dur : Z → string).

Lemma ensureFile_Ok p content mode tr b fs fs' :
  exec (ensureFile p content mode) tr (Ok b) → fs_runs fs (omap run_reply tr) fs' →
  fs' !! p = Some content ∧ ∀ q, q ≠ p → q ≠ tmp_of p → fs' !! q = fs !! q.
Proof.
  intros Hex Hr. destruct (ensureFile_files _ _ _ _ _ fs Hex) as [Ha Hok]. split; [by apply Hok|].
  by apply (always_end _ _ _ _ Ha Hr).
Qed.
(** What is there already is left alone. *)
Lemma ensureFile_same p content mode tr r fs fs' :
  exec (ensureFile p content mode) tr r → fs_runs fs (omap run_reply tr) fs' → fs !! p = Some content →
  Forall (λ l, succeeded l.2 = true) (omap run_reply tr) →
  r = Ok false ∧ fs' = fs ∧ Forall (λ l, l.1 = CatFile p) (omap run_reply tr).
Proof.
  intros (cur & tr1 & -> & Hk) Hr Hp HF. cbn [prog_bind] in Hk. cbn [omap list_omap run_reply] in *.
  destruct Hr as (fs1 & [-> Hcat] & Hr). apply Forall_cons in HF as [Hs HF].
  destruct cur as [cur|e]; [|done]. cbn [succeeded snd] in Hs. apply bool_decide_eq_true in Hs.
  specialize (Hcat cur eq_refl Hs). rewrite Hp in Hcat. injection Hcat as ->.
  rewrite of_bytes_bytes, decide_True in Hk by done. destruct Hk as [-> ->]. cbn in Hr. subst fs'. by repeat constructor.
Qed.

Lemma ensureHostsEntry_Ok ip host tr b fs fs' :
  exec (ensureHostsEntry ip host) tr (Ok b) → fs_runs fs (omap run_reply tr) fs' →
  (∃ cur, fs' !! nodeHostsPath = Some (bytes (renderHosts cur ip host))) ∧ ∀ q, q ≠ nodeHostsPath → fs' !! q = fs !! q.
Proof.
  intros (cur & tr1 & -> & Hk) Hr. cbn [prog_bind] in Hk. cbn [omap list_omap run_reply] in *.
  destruct Hr as (fs1 & [-> Hcat] & Hr). destruct cur as [cur|e]; [|by destruct Hk]. case_decide as He; [by destruct Hk|].
  assert (Hz : ExitStatus cur = 0%Z) by (by destruct (decide (ExitStatus cur = 0%Z))).
  case_decide as Hd.
  - destruct Hk as [-> _]. cbn in Hr. subst fs'. split; [|done]. exists (Stdout cur). rewrite <- Hd. by apply Hcat.
  - apply exec_bind in Hk as (t1 & t2 & w & -> & (x & Ho & Hx)%runOK_inv & Hk). rewrite omap_app, Ho in Hr.
    destruct w as [[]|e]; [|by destruct Hk]. destruct Hk as [-> _]. cbn [app omap list_omap fs_runs] in Hr.
    destruct Hr as (fs2 & Hs & ->). cbn [is_ok] in Hx. cbn [line_step] in Hs. rewrite <- Hx in Hs. subst fs2.
    rewrite bytes_of_bytes, padded_decode_encode. cbn [default from_option id app]. split.
    + exists (Stdout cur). by rewrite lookup_insert_eq.
    + intros q Hq. by rewrite lookup_insert_ne.
Qed.
Lemma ensureHostsEntry_same ip tr r fs fs' cur :
  ParseIP ip = true → exec (ensureHostsEntry ip registryHost) tr r → fs_runs fs (omap run_reply tr) fs' →
  fs !! nodeHostsPath = Some (bytes (renderHosts cur ip registryHost)) → Forall (λ l, succeeded l.2 = true) (omap run_reply tr) →
  r = Ok false ∧ Forall (λ l, l.1 = CatFile nodeHostsPath) (omap run_reply tr).
Proof.
  intros Hip (got & tr1 & -> & Hk) Hr Hp HF. cbn [prog_bind] in Hk. cbn [omap list_omap run_reply] in *.
  destruct Hr as (fs1 & [-> Hcat] & Hr). apply Forall_cons in HF as [Hs HF].
  destruct got as [got|e]; [|done]. cbn [succeeded snd] in Hs. apply bool_decide_eq_true in Hs.
  specialize (Hcat got eq_refl Hs). rewrite Hp in Hcat. injection Hcat as Hb. apply bytes_inj in Hb.
  rewrite decide_False in Hk by naive_solver. rewrite <- Hb, renderHosts_again, decide_True in Hk by done.
  destruct Hk as [-> ->]. by repeat constructor.
Qed.

Lemma kubectl_poll_files fuel args good failure tr r fs fs' :
  exec (poll fuel (Kubectl args) good failure) tr r → fs_runs fs (omap run_reply tr) fs' → fs' = fs.
Proof.
  revert tr. induction fuel as [|fuel IH]; intros tr; cbn [poll]; [by intros [-> _] ->|].
  intros (x & tr1 & -> & Hk). cbn [prog_bind] in Hk. cbn [omap list_omap run_reply]. intros (fs1 & -> & Hr).
  destruct (match x with Ok _ => _ | _ => _ end); [by destruct Hk as [-> _]|].
  destruct Hk as (tick & tr2 & -> & Hk). cbn [prog_bind omap list_omap run_reply] in Hk, Hr.
  destruct tick; [by eapply IH|]. by destruct Hk as [-> _].
Qed.

(** A run that got as far as the restart left every file as it should be. *)
Lemma WriteNodeRegistry_files fuel info cfg tr e fs fs' :
  exec (WriteNodeRegistry dur fuel info cfg) tr (Some (true, e)) → fs_runs fs (omap run_reply tr) fs' →
  incomplete info = false ∧ fs' !! nodeRegistryCAPath = Some (ri_CA info) ∧ fs' !! nodeRegistriesPath = Some registriesYAML ∧
  ∃ cur, fs' !! nodeHostsPath = Some (bytes (renderHosts cur (ri_ClusterIP info) registryHost)).
Proof.
  unfold WriteNodeRegistry. destruct (incomplete info); [by intros [_ ?]|].
  rewrite exec_bind. intros (tr1 & tr2 & ca & -> & H1 & Hk). destruct ca as [b1|err]; [|by destruct Hk].
  apply exec_bind in Hk as (tr3 & tr4 & conf & -> & H2 & Hk). destruct conf as [b2|err]; [|by destruct Hk].
  apply exec_bind in Hk as (tr5 & tr6 & hosts & -> & H3 & Hk). destruct hosts as [b3|err]; [|by destruct Hk].
  rewrite !omap_app. intros (f1 & Hr1 & (f2 & Hr2 & (f3 & Hr3 & Hr4)%fs_runs_app)%fs_runs_app)%fs_runs_app.
  destruct (ensureFile_Ok _ _ _ _ _ _ _ H1 Hr1) as [E1 _], (ensureFile_Ok _ _ _ _ _ _ _ H2 Hr2) as [E2 K2],
    (ensureHostsEntry_Ok _ _ _ _ _ _ H3 Hr3) as [E3 K3].
  assert (Hq : fs' = f3).
  { destruct (_ && _); [by destruct Hk as [-> _]|]. apply exec_bind in Hk as (t1 & t2 & r & -> & (x & Ho & _)%runOK_inv & Hk).
    rewrite omap_app, Ho in Hr4. destruct Hr4 as (f4 & -> & Hr4). destruct r as [[]|err]; [|by destruct Hk as [-> _]].
    apply exec_bind in Hk as (t3 & t4 & w & -> & Hp & -> & _). rewrite app_nil_r in Hr4. by eapply kubectl_poll_files. }
  subst fs'. split_and!; [done| | |done].
  - rewrite K3, K2 by done. done.
  - by rewrite K3 by done.
Qed.

(** A restart that fails is never made up for.  When a run wrote the registry
    configuration but failed to restart k3s, or to see it come back, a second run that can
    read the node's files reports success with nothing changed, and restarts nothing: the
    configuration stays on disk, unread by the running k3s. *)
Theorem registry_restart_lost fuel info cfg tr1 e fs fs1 tr2 out fs2 :
  exec (WriteNodeRegistry dur fuel info cfg) tr1 (Some (true, Some e)) → fs_runs fs (omap run_reply tr1) fs1 →
  exec (WriteNodeRegistry dur fuel info cfg) tr2 out → fs_runs fs1 (omap run_reply tr2) fs2 →
  Forall (λ l, succeeded l.2 = true) (omap run_reply tr2) →
  out = Some (false, None) ∧ Forall (λ l, l.1 ≠ RestartK3s) (omap run_reply tr2).
Proof.
  intros H1 Hr1 H2 Hr2 HF. destruct (WriteNodeRegistry_files _ _ _ _ _ _ _ H1 Hr1) as (Hinc & Hca & Hcfg & cur & Hh).
  assert (Hip : ParseIP (ri_ClusterIP info) = true).
  { unfold incomplete in Hinc. apply orb_false_iff in Hinc as [_ Hinc]. by apply negb_false_iff in Hinc. }
  unfold WriteNodeRegistry in H2. rewrite Hinc in H2.
  apply exec_bind in H2 as (ta & tr3 & ca & -> & Ha & Hk). rewrite omap_app in Hr2, HF |- *.
  apply fs_runs_app in Hr2 as (f1 & Hra & Hr2). apply Forall_app in HF as [HFa HF].
  destruct (ensureFile_same _ _ _ _ _ _ _ Ha Hra Hca HFa) as (-> & -> & La).
  apply exec_bind in Hk as (tb & tr4 & conf & -> & Hb & Hk). rewrite omap_app in Hr2, HF |- *.
  apply fs_runs_app in Hr2 as (f1' & Hrb & Hr2). apply Forall_app in HF as [HFb HF].
  destruct (ensureFile_same _ _ _ _ _ _ _ Hb Hrb Hcfg HFb) as (-> & -> & Lb).
  apply exec_bind in Hk as (tc & tr5 & hosts & -> & Hc & Hk). rewrite omap_app in Hr2, HF |- *.
  apply fs_runs_app in Hr2 as (f1'' & Hrc & Hr2). apply Forall_app in HF as [HFc HF].
  destruct (ensureHostsEntry_same _ _ _ _ _ _ Hip Hc Hrc Hh HFc) as (-> & Lc).
  destruct Hk as [-> ->]. split; [done|]. rewrite app_nil_r, !Forall_app.
  split_and!; (eapply Forall_impl; [eassumption|]; by intros l ->).
Qed.
End restarts.

(** ** What the first server publishes *)

(** How many bits an address has in the form it is written in, which is the form a CIDR of
    it is read in. *)
Definition address_bits (ip : string) : nat := if parseIPv4 (bytes ip) then 32 else 128.

Lemma ipv4_no_colon l prev val pos d : ipv4_fields l prev val pos d = true → ":"%char ∉ l.
Proof.
  revert prev val pos d. induction l as [|c l IH]; intros prev val pos d; cbn [ipv4_fields]; [intros _; apply not_elem_of_nil|].
  destruct (is_digit c) eqn:Hd.
  - destruct (_ && _); [done|]. destruct (255 <? _); [done|]. intros Hl%IH [<-|?]%elem_of_cons; [done|by apply Hl].
  - case_decide as Hc; [|done]. subst c. case_bool_decide; [done|]. destruct (pos =? 3); [done|].
    intros Hl%IH [?|?]%elem_of_cons; [done|by apply Hl].
Qed.
Lemma parse_addr_no_colon l s : (":"%char ∉ l) → parse_addr l s = true → parseIPv4 s = true.
Proof.
  induction l as [|c l IH]; cbn [parse_addr]; [done|]. intros Hn. case_decide; [done|].
  rewrite decide_False by (intros ->; apply Hn; by left). case_decide; [done|]. apply IH. intros Hin. apply Hn. by right.
Qed.
Lemma Contains_byte s c : Contains s (String c "") = true ↔ c ∈ bytes s.
Proof.
  rewrite Contains_spec. split.
  - intros (a & b & ->). apply elem_of_app. right. by left.
  - intros (a & b & ->)%list_elem_of_split. by exists a, b.
Qed.
Lemma hostCIDR_bits ip : ParseIP ip = true → hostCIDR ip = ip +:+ "/" +:+ pretty (address_bits ip).
Proof.
  intros Hip. unfold hostCIDR, address_bits. destruct (Contains ip ":") eqn:Hc.
  - apply Contains_byte in Hc. destruct (parseIPv4 (bytes ip)) eqn:H4; [|done]. by apply ipv4_no_colon in H4.
  - destruct (parseIPv4 (bytes ip)) eqn:H4; [done|]. rewrite (parse_addr_no_colon (bytes ip)) in H4; [done| |done].
    intros Hin%Contains_byte. by rewrite Hin in Hc.
Qed.

Section publish.
Context `{UnicodeTables} (pem_type : list ascii → option string) (pem_empty : pem_type [] = None).

Lemma kubectlOutput_inv args tr out : exec (kubectlOutput args) tr out → ∃ x, omap run_reply tr = [(Kubectl args, x)].
Proof. intros (x & tr1 & -> & -> & _). by exists x. Qed.
Lemma one_read {A} (k : string → prog NodeE (result string A)) args tr a :
  exec (try! out := kubectlOutput args in k out) tr a → (∀ out, ∃ v, k out = Ret v) → length (omap run_reply tr) = 1.
Proof.
  rewrite exec_bind. intros (t1 & t2 & out & -> & (z & Lz)%kubectlOutput_inv & Hk) Hret. rewrite omap_app, Lz.
  destruct out as [out|e]; [|by destruct Hk as [-> _]]. destruct (Hret out) as [v Hv]. rewrite Hv in Hk. by destruct Hk as [-> _].
Qed.
Lemma readRegistryCA_Ok tr ca : exec (readRegistryCA pem_type) tr (Ok ca) → pem_type ca = Some "CERTIFICATE".
Proof.
  unfold readRegistryCA. rewrite exec_bind. intros (tr1 & tr2 & out & -> & _ & Hk). destruct out as [out|e]; [|by destruct Hk].
  case_decide; [by destruct Hk|]. destruct (padded_decode _ _); [|by destruct Hk]. case_decide; [|by destruct Hk]. by destruct Hk as [_ [= ->]].
Qed.
Lemma readRegistryClusterIP_Ok tr ip : exec readRegistryClusterIP tr (Ok ip) → ParseIP ip = true.
Proof.
  unfold readRegistryClusterIP. rewrite exec_bind. intros (tr1 & tr2 & out & -> & _ & Hk). destruct out as [out|e]; [|by destruct Hk].
  destruct (ParseIP out) eqn:Ho; destruct Hk as [_ Hk]; [by injection Hk as ->|done].
Qed.
Lemma first_invalid_None ips : first_invalid ips = None → Forall (λ ip, ParseIP ip = true) ips.
Proof. induction ips as [|ip ips IH]; cbn; [constructor|]. destruct (ParseIP ip) eqn:Hi; [|done]. constructor; auto. Qed.
Lemma readNodeInternalIPs_Ok tr ips : exec readNodeInternalIPs tr (Ok ips) → ips ≠ [] ∧ Forall (λ ip, ParseIP ip = true) ips.
Proof.
  unfold readNodeInternalIPs. rewrite exec_bind. intros (tr1 & tr2 & out & -> & _ & Hk). destruct out as [out|e]; [|by destruct Hk].
  case_decide as Hn; [by destruct Hk|]. destruct (first_invalid (Fields out)) eqn:Hf; destruct Hk as [_ Hk]; [done|]. injection Hk as ->.
  split; [done|]. by apply first_invalid_None.
Qed.

Definition apply_line (manifest : string) : Cmd := KubectlIn (of_bytes (std_encode (bytes manifest))) "apply".

(** What the first server publishes is what every node can use: the information handed
    on is complete, so no node refuses it; the CA is a certificate and is the one published
    to the build pods; and the policy that opens the registry names at least one address,
    each of them valid and each with exactly as many bits as its written form has, so that
    it admits single hosts and nothing wider. *)
Theorem wired_registry_usable tr info :
  exec (WireRegistry pem_type) tr (Ok info) →
  incomplete info = false ∧ pem_type (ri_CA info) = Some "CERTIFICATE" ∧
  ∃ ips x y, ips ≠ [] ∧
    omap run_reply tr = take 3 (omap run_reply tr) ++
      [(apply_line (registryCAConfigMapManifest (ri_CA info)), x); (apply_line (registryIngressNodesManifest ips), y)] ∧
    Forall (λ ip, ParseIP ip = true ∧ hostCIDR ip = ip +:+ "/" +:+ pretty (address_bits ip)) ips.
Proof using pem_empty.
  unfold WireRegistry. rewrite exec_bind. intros (t1 & r1 & ca & -> & H1 & Hk). destruct ca as [ca|e]; [|by destruct Hk].
  apply exec_bind in Hk as (t2 & r2 & cip & -> & H2 & Hk). destruct cip as [cip|e]; [|by destruct Hk].
  apply exec_bind in Hk as (t3 & r3 & ips & -> & H3 & Hk). destruct ips as [ips|e]; [|by destruct Hk].
  apply exec_bind in Hk as (t4 & r4 & a1 & -> & (x & L4 & _)%runOK_inv & Hk). destruct a1 as [[]|e]; [|by destruct Hk].
  apply exec_bind in Hk as (t5 & r5 & a2 & -> & (y & L5 & _)%runOK_inv & Hk). destruct a2 as [[]|e]; [|by destruct Hk].
  destruct Hk as [-> [= ->]]. pose proof (readRegistryCA_Ok _ _ H1) as Hca. destruct (readNodeInternalIPs_Ok _ _ H3) as [Hne HF].
  split_and!; [|done|].
  - unfold incomplete. cbn [ri_CA ri_ClusterIP]. rewrite (readRegistryClusterIP_Ok _ _ H2), orb_false_r.
    apply bool_decide_eq_false. intros ->. by rewrite pem_empty in Hca.
  - exists ips, x, y. split_and!; [done| |].
    + assert (N1 : length (omap run_reply t1) = 1).
      { eapply one_read; [exact H1|]. cbv beta. intros out. case_decide; [eauto|]. destruct (padded_decode _ _); [case_decide|]; eauto. }
      assert (N2 : length (omap run_reply t2) = 1) by (eapply one_read; [exact H2|]; eauto).
      assert (N3 : length (omap run_reply t3) = 1).
      { eapply one_read; [exact H3|]. cbv beta zeta. intros out. case_decide; [|destruct (first_invalid _)]; eauto. }
      rewrite !omap_app, L4, L5. destruct (omap run_reply t1) as [|? [|]], (omap run_reply t2) as [|? [|]], (omap run_reply t3) as [|? [|]];
        cbn in N1, N2, N3; try lia. done.
    + eapply Forall_impl; [exact HF|]. intros ip Hip. split; [done|]. by apply hostCIDR_bits.
Qed.
End publish.
