(* ===== verification/InstallToken.v ===== *)
(** * Where a bootstrap token comes from

    Which lines of the installer ([Install.v]) and of the registry wiring
    ([InstallRegistry.v]) write the Secret of the bootstrap token, and what [Apply] then
    yields: the token of that write, and none without a write. *)
From S2P Require Import Prelude Regex GoStrings RepoAllowlist Effects Sha256 Kube Features RateLimit Credentials ApiServer PlatformSecrets.
From S2P Require Import Net InstallNode Install InstallFlow InstallRegistry.
From Stdlib Require Import Ascii.

(** ** Lines that write the Secret *)
Abbreviation lines_t := (list (Cmd * result string RunResult)).
Definition token_head : string :=
  "apiVersion: v1" +:+ nl +:+ "kind: Secret" +:+ nl +:+ "metadata:" +:+ nl +:+ "  name: " +:+ NameBootstrapToken +:+ nl.
(** The document a payload stands for is one for the Secret of the token. *)
Definition names_token (payload : string) : bool :=
  match padded_decode std_alphabet (bytes payload) with Some l => HasPrefix (of_bytes l) token_head | None => false end.
Definition token_write (l : Cmd * result string RunResult) : option string :=
  match l.1 with
  | KubectlIn payload _ => if names_token payload && succeeded l.2 then Some payload else None
  | _ => None
  end.
(** The payloads with which it was written, as far as the answers say. *)
Definition token_writes (lines : lines_t) : list string := omap token_write lines.
Definition token_payload (token : string) : string :=
  of_bytes (std_encode (bytes (secretManifest NameBootstrapToken {[KeyTokenSHA256 := Credentials.HashToken token]}))).
Definition writes_of (token : string) : list string := if decide (token = "") then [] else [token_payload token].

Definition no_token (X : Set) (e : NodeE X) : bool :=
  match e with Run c => match c with KubectlIn payload _ => negb (names_token payload) | _ => true end | _ => true end.
(** Neither a document for the API server nor a restart. *)
Definition benign (X : Set) (e : NodeE X) : bool :=
  match e with Run c => match c with KubectlIn _ _ | RestartK3s => false | _ => true end | _ => true end.
Lemma benign_no_token {A} (p : prog NodeE A) : calls_only benign p → calls_only no_token p.
Proof. apply calls_only_mono. intros X e. destruct e as [c| |]; [by destruct c|done..]. Qed.

Lemma token_writes_app l1 l2 : token_writes (l1 ++ l2) = token_writes l1 ++ token_writes l2.
Proof. apply omap_app. Qed.
Lemma no_token_writes {A} (p : prog NodeE A) tr a : calls_only no_token p → exec p tr a → token_writes (omap run_reply tr) = [].
Proof.
  intros Hp Hex. pose proof (calls_only_exec _ _ _ _ Hp Hex) as HF. clear Hp Hex.
  induction HF as [|[X e x] tr Hc HF IH]; [done|]. destruct e as [c| |]; [|exact IH..].
  change (token_writes ((c, x) :: omap run_reply tr) = []). unfold token_writes. cbn [omap list_omap].
  destruct c; try exact IH. cbn in Hc |- *. apply negb_true_iff in Hc. rewrite Hc. exact IH.
Qed.
Lemma names_token_manifest manifest : names_token (of_bytes (std_encode (bytes manifest))) = HasPrefix manifest token_head.
Proof. unfold names_token. by rewrite bytes_of_bytes, padded_decode_encode, of_bytes_bytes. Qed.

Section token.
Context `{UnicodeTables} {lib : InstallLib} (emb : Embedded) (fuel : nat).

(** ** The parts of the installer *)
Lemma ensureFile_benign p content mode : calls_only benign (InstallNode.ensureFile p content mode).
Proof.
  assert (Hpc : ∀ pieces first, calls_only benign (write_pieces p first pieces)).
  { induction pieces as [|piece pieces IH]; intros first; cbn [write_pieces]; [done|]. unfold InstallNode.runOK. destruct first; calls; apply IH. }
  unfold InstallNode.ensureFile, writeInline, writeChunked, InstallNode.runOK. calls.
Qed.
Lemma poll_benign args good failure n : calls_only benign (poll n (Kubectl args) good failure).
Proof.
  induction n as [|n IH]; [done|]. cbn [poll]. split; [done|]. intros x. cbn [prog_bind].
  destruct (match x with Ok res => good res | Err _ => false end); [done|]. split; [done|]. intros tick. cbn [prog_bind]. by destruct tick.
Qed.
Lemma migrate_benign base files b : calls_only benign (migrateLegacyManifests base files b).
Proof.
  revert b. induction files as [|f files' IH]; intros b; cbn [migrateLegacyManifests]; [done|].
  case_decide; [apply IH|]. split; [done|]. intros [legacy|e]; [|done]. cbn [prog_bind]. case_decide; [apply IH|].
  split; [done|]. intros [current|e]; [|done]. cbn [prog_bind]. unfold migrate_command, InstallNode.runOK. case_decide; calls; apply IH.
Qed.
Lemma write_manifests_benign cfg base files changed : calls_only benign (write_manifests cfg base files changed).
Proof.
  unfold write_manifests. apply calls_only_bind; [apply migrate_benign|].
  intros [m|e]; [|done]. destruct (splitCRDManifests _ _) as [[crds rest]|e]; [|done]. apply calls_only_bind.
  { generalize (m || changed). induction crds as [|x crds IH]; intros b; cbn [write_crds]; [done|].
    apply calls_only_bind; [apply ensureFile_benign|]. intros [w|e]; [apply IH|done]. }
  intros [o|ch']; [done|]. apply calls_only_bind.
  { case_decide; [done|]. apply calls_only_bind; [|done]. unfold applyAndWaitCRDs, waitCRDsEstablished, established. apply calls_only_bind.
    - clear. induction crds as [|x crds IH]; cbn [apply_crds]; [done|]. unfold InstallNode.runOK. calls; apply IH.
    - intros [[]|e]; [|done]. unfold InstallNode.runOK. calls. }
  intros [o|[]]; [done|]. generalize ch'. induction rest as [|f rest IH]; intros b; cbn [write_rest]; [done|].
  apply calls_only_bind; [apply ensureFile_benign|]. intros [w|e]; [apply IH|done].
Qed.
Lemma legacy_benign : calls_only benign legacyReceiverRepoAllowlist.
Proof. unfold legacyReceiverRepoAllowlist. calls. Qed.
Lemma namespace_benign name timeout : calls_only benign (waitNamespace fuel name timeout).
Proof. unfold waitNamespace. apply poll_benign. Qed.
Lemma generate_benign : calls_only benign (Generate (λ n, trigger (NodeRand n))).
Proof. unfold Generate, randomHex, randomKeyB64, GenerateBootstrapToken, random_bytes. calls. Qed.
Lemma finish_benign cfg token changed : calls_only benign (finish fuel cfg token changed).
Proof.
  unfold finish. case_decide; [done|]. apply calls_only_bind; [|done]. generalize (ic_ReadinessTargets cfg). generalize fuel.
  intros n. induction n as [|n IH]; intros pending; cbn [InstallNode.wait_ready]; [done|]. apply calls_only_bind.
  - induction pending as [|w pending IHp]; cbn [still_pending]; [done|]. unfold workloadReady. calls; exact IHp.
  - intros [|w still]; [done|]. split; [done|]. intros []; [apply IH|done].
Qed.

(** The ConfigMap of the policy and the registry's documents are not the Secret. *)
Lemma allowlist_no_token l : calls_only no_token (ensureRepoAllowlist l).
Proof.
  unfold ensureRepoAllowlist, createConfigMapIfAbsent. destruct (Format l) as [data|e]; [|done]. split.
  - unfold create_command. cbn [no_token]. by rewrite names_token_manifest.
  - intros [created|e]; [|done]. cbn [prog_bind]. case_decide; [done|]. calls.
Qed.
Lemma settle_no_write cfg seed : calls_only no_token (settle_policy cfg seed).
Proof.
  unfold settle_policy. case_decide; [|done]. apply calls_only_bind; [apply benign_no_token, legacy_benign|].
  intros [[legacy []]|e]; [|done..]. apply calls_only_bind; [apply allowlist_no_token|done].
Qed.
Lemma wire_no_token pem_type : calls_only no_token (WireRegistry pem_type).
Proof.
  assert (Ha : ∀ desc m, HasPrefix m token_head = false → calls_only no_token (applyManifest desc m)).
  { intros desc m Hm. unfold applyManifest, InstallNode.runOK. split; [|done]. cbn [no_token]. by rewrite names_token_manifest, Hm. }
  assert (Hr : calls_only benign (readRegistryCA pem_type)) by (unfold readRegistryCA, kubectlOutput; calls).
  assert (Hi : calls_only benign readRegistryClusterIP) by (unfold readRegistryClusterIP, kubectlOutput; calls).
  assert (Hn : calls_only benign readNodeInternalIPs) by (unfold readNodeInternalIPs, kubectlOutput; calls).
  unfold WireRegistry. repeat (first [apply calls_only_bind; [first [by apply benign_no_token|by apply Ha]|intros [?|?]; [|done]]|done]).
Qed.
Lemma node_registry_no_token dur info cfg : calls_only no_token (WriteNodeRegistry dur fuel info cfg).
Proof.
  unfold WriteNodeRegistry. destruct (incomplete info); [done|].
  apply calls_only_bind; [apply benign_no_token, ensureFile_benign|]. intros [b1|e]; [|done].
  apply calls_only_bind; [apply benign_no_token, ensureFile_benign|]. intros [b2|e]; [|done].
  apply calls_only_bind; [unfold ensureHostsEntry, InstallNode.runOK; calls|]. intros [b3|e]; [|done].
  destruct (negb b1 && negb b2); [done|]. apply calls_only_bind; [unfold InstallNode.runOK; calls|]. intros [[]|e]; [|done].
  apply calls_only_bind; [|by intros [[[]|e]|]]. apply benign_no_token, poll_benign.
Qed.

(** ** The Secrets that are created once *)
Lemma createSecretIfAbsent_writes name manifest tr r :
  exec (createSecretIfAbsent name manifest) tr r →
  token_writes (omap run_reply tr) =
    match r with
    | Ok true => if HasPrefix manifest token_head then [of_bytes (std_encode (bytes manifest))] else []
    | _ => []
    end.
Proof.
  unfold createSecretIfAbsent. intros (got & t1 & -> & Hk). cbn [prog_bind] in Hk.
  change (omap run_reply (_ :: t1)) with ((check_secret name, got) :: omap run_reply t1).
  change (token_writes (_ :: omap run_reply t1)) with (token_writes (omap run_reply t1)).
  destruct got as [got|e]; [|by destruct Hk as [-> ->]]. case_decide; [by destruct Hk as [-> ->]|].
  apply exec_bind in Hk as (t2 & t3 & w & -> & (y & Ho & Hy)%runOK_inv & Hk).
  assert (t3 = [] ∧ r = match w with Ok _ => Ok true | Err e => Err e end) as [-> ->] by (destruct w; by destruct Hk as [-> ->]).
  rewrite app_nil_r, Ho. unfold token_writes. cbn [omap list_omap token_write fst snd]. rewrite names_token_manifest.
  destruct w as [[]|e]; cbn in Hy; rewrite <- Hy; [by destruct (HasPrefix _ _)|by rewrite andb_false_r].
Qed.
Definition token_spec (s : Spec) : Prop :=
  HasPrefix (secretManifest (spec_Name s) (spec_Data s)) token_head = bool_decide (spec_Name s = NameBootstrapToken).
Lemma ensure_specs_writes token specs shown changed tr shown' changed' err :
  exec (ensure_specs token specs shown changed) tr (shown', changed', err) → Forall token_spec specs → NoDup (spec_Name <$> specs) →
  token_writes (omap run_reply tr) = [] ∧ shown' = shown ∨
  ∃ s, s ∈ specs ∧ spec_Name s = NameBootstrapToken ∧ shown' = token ∧ token_writes (omap run_reply tr) = [spec_payload s].
Proof.
  revert shown changed tr. induction specs as [|s specs IH]; intros shown changed tr; cbn [ensure_specs].
  { intros [-> [= -> -> ->]] _ _. by left. }
  rewrite exec_bind. intros (t1 & t2 & created & -> & Hc%createSecretIfAbsent_writes & Hk) [Hs HF]%Forall_cons [Hn Hnd]%NoDup_cons.
  rewrite omap_app, token_writes_app, Hc, Hs. clear Hc.
  destruct created as [b|e]; [|destruct Hk as [-> [= -> -> ->]]; by left].
  destruct b; cbn [app].
  - case_bool_decide as Hname.
    + rewrite decide_True in Hk by done. destruct (IH _ _ _ Hk HF Hnd) as [[-> ->]|(s' & Hin & Hn' & _)].
      * right. exists s. split_and!; [by left|done|done|done].
      * exfalso. apply Hn. rewrite Hname, <- Hn'. apply list_elem_of_fmap. by exists s'.
    + rewrite decide_False in Hk by done. destruct (IH _ _ _ Hk HF Hnd) as [?|(s' & Hin & ?)]; [by left|right].
      exists s'. split; [by right|done].
  - destruct (IH _ _ _ Hk HF Hnd) as [?|(s' & Hin & ?)]; [by left|right]. exists s'. split; [by right|done].
Qed.
Lemma spec_table_tokens v : Forall token_spec (spec_table v) ∧ NoDup (spec_Name <$> spec_table v).
Proof.
  split.
  - unfold spec_table. repeat constructor.
  - apply (bool_decide_unpack _). vm_compute. exact I.
Qed.
Lemma validate_token v : validate v = None → v_BootstrapToken v ≠ "".
Proof. unfold validate. cbn [first_empty]. repeat case_decide; congruence. Qed.
Lemma ensureSecrets_writes v tr token changed err :
  exec (ensureSecrets v) tr (token, changed, err) → token_writes (omap run_reply tr) = writes_of token.
Proof.
  unfold ensureSecrets, Specs. destruct (validate v) eqn:Hv; [by intros [-> [= -> -> ->]]|]. apply validate_token in Hv.
  destruct (spec_table_tokens v) as [HF Hnd]. intros Hex.
  destruct (ensure_specs_writes _ _ _ _ _ _ _ _ Hex HF Hnd) as [[-> ->]|(s & Hin & Hn & -> & ->)]; [done|].
  unfold writes_of. rewrite decide_False by done. f_equal. unfold spec_payload, token_payload. rewrite Hn. do 4 f_equal.
  unfold spec_table in Hin. repeat (apply elem_of_cons in Hin as [->|Hin]; [first [done|by vm_compute in Hn]|]). by apply not_elem_of_nil in Hin.
Qed.

(** ** What [Apply] yields *)

(** The Secret with the hash of the token was missing and was written. *)
Definition created (token : string) (lines : list (Cmd * result string RunResult)) : Prop :=
  created_here NameBootstrapToken (secretManifest NameBootstrapToken {[KeyTokenSHA256 := Credentials.HashToken token]}) lines.
Lemma created_part token l1 l2 l3 : created token l2 → created token (l1 ++ l2 ++ l3).
Proof. apply created_here_app. Qed.
(** The token of an outcome that ends a stage early. *)
Definition token_of (o : outcome) : string := match o with Done (Some res) _ => ir_BootstrapToken res | _ => "" end.

Lemma settle_no_token cfg seed : returns (λ r, match r with inl o => token_of o = "" | inr _ => True end) (settle_policy cfg seed).
Proof.
  unfold settle_policy. case_decide; [|done]. apply returns_bind. intros [[legacy []]|e]; [|done..]. apply returns_bind. by intros [ch|e].
Qed.
Lemma manifests_no_token cfg base files changed :
  returns (λ r, match r with inl o => token_of o = "" | inr _ => True end) (write_manifests cfg base files changed).
Proof.
  assert (Hstage : ∀ {B C} (p : prog NodeE (outcome + B)) (k : B → prog NodeE (outcome + C)),
    returns (λ r, match r with inl o => token_of o = "" | inr _ => True end) p →
    (∀ b, returns (λ r, match r with inl o => token_of o = "" | inr _ => True end) (k b)) →
    returns (λ r, match r with inl o => token_of o = "" | inr _ => True end) (prog_bind p (λ r, match r with inl o => Ret (inl o) | inr x => k x end))).
  { intros B C p k Hp Hk. eapply returns_through; [exact Hp|]. intros [o|b] Ho; [exact Ho|apply Hk]. }
  unfold write_manifests. apply returns_bind. intros [m|e]; [|done]. destruct (splitCRDManifests _ _) as [[crds rest]|e]; [|done].
  apply Hstage.
  { generalize (m || changed). induction crds as [|x crds IH]; intros b; cbn [write_crds]; [done|].
    apply returns_bind. intros [w|e]; [apply IH|done]. }
  intros ch. apply Hstage; [case_decide; [done|]; apply returns_bind; by intros [[]|e]|]. intros _.
  generalize ch. induction rest as [|f rest IH]; intros b; cbn [write_rest]; [done|]. apply returns_bind. intros [w|e]; [apply IH|done].
Qed.
Lemma create_once_token cfg seed ready changed tr r :
  exec (create_once fuel cfg seed ready changed) tr r →
  let token := match r with inl o => token_of o | inr (token, _) => token end in
  token_writes (omap run_reply tr) = writes_of token ∧ (token ≠ "" → created token (omap run_reply tr)).
Proof.
  unfold create_once. case_decide; [by intros [-> ->]|]. rewrite exec_bind. intros (t1 & t2 & ns & -> & H1 & Hk). cbv zeta.
  pose proof (no_token_writes _ _ _ (benign_no_token _ (namespace_benign _ _)) H1) as W1. rewrite omap_app, token_writes_app, W1. cbn [app].
  destruct ns as [[[]|e]|]; [|by destruct Hk as [-> ->]..].
  apply exec_bind in Hk as (t3 & t4 & vals & -> & H3 & Hk).
  pose proof (no_token_writes _ _ _ (benign_no_token _ generate_benign) H3) as W3. rewrite omap_app, token_writes_app, W3. cbn [app].
  destruct vals as [vals|e]; [|by destruct Hk as [-> ->]].
  apply exec_bind in Hk as (t5 & t6 & [[token sc] err] & -> & H5 & Hk). pose proof (ensureSecrets_writes _ _ _ _ _ H5) as W5.
  apply ensureSecrets_inv in H5 as [_ H5]. rewrite omap_app, token_writes_app, W5.
  assert (Htok : match r with inl o => token_of o | inr (token, _) => token end = token ∧ token_writes (omap run_reply t6) = []).
  { destruct err as [e|]; [by destruct Hk as [-> ->]|]. destruct ready; [by destruct Hk as [-> ->]|].
    apply exec_bind in Hk as (t7 & t8 & w & -> & H7 & -> & ->). rewrite app_nil_r.
    by rewrite (no_token_writes _ _ _ (allowlist_no_token _) H7); destruct w. }
  destruct Htok as [-> ->]. rewrite app_nil_r. split; [done|]. intros Hne. destruct (H5 Hne) as [_ Hc].
  rewrite app_assoc. by apply created_part.
Qed.

(** When the installer ends, the Secret was written with the hash of the token it yields,
    once, or it yields none and the Secret was not written. *)
Lemma Apply_token cfg tr res err :
  exec (Apply emb fuel cfg) tr (Done res err) →
  let token := match res with Some res => ir_BootstrapToken res | None => "" end in
  token_writes (omap run_reply tr) = writes_of token ∧ (token ≠ "" → created token (omap run_reply tr)).
Proof.
  unfold Apply. destruct (validateTargets _); [by intros [-> [= -> ->]]|]. destruct (writeSet _ _) as [files|e]; [|by intros [-> [= -> ->]]].
  destruct (validateManifestFiles files); [by intros [-> [= -> ->]]|]. destruct (Normalize _) as [seed|e]; [|by intros [-> [= -> ->]]].
  unfold apply_files. rewrite exec_bind. intros (t1 & t2 & o & -> & H1 & Hk). cbv zeta. rewrite omap_app, token_writes_app.
  set (token := match res with Some res => _ | None => _ end).
  assert (Hend : match o with inl o => token_of o | inr (token, _) => token end = token ∧ token_writes (omap run_reply t2) = []).
  { destruct o as [o'|[token' ch]]; [destruct Hk as [-> <-]; by destruct res|].
    rewrite (no_token_writes _ _ _ (benign_no_token _ (finish_benign _ _ _)) Hk). unfold finish in Hk. case_decide; [by destruct Hk as [_ [= -> _]]|].
    apply exec_bind in Hk as (t7 & t8 & w & -> & _ & _ & Hr). destruct w as [[[]|e]|]; [| |done]; by injection Hr as -> _. }
  destruct Hend as [Htok ->]. rewrite app_nil_r.
  assert (Hgoal : token_writes (omap run_reply t1) = writes_of token ∧ (token ≠ "" → created token (omap run_reply t1))).
  2:{ destruct Hgoal as [? Hc]. split; [done|]. intros Hne. apply (created_part _ []). by apply Hc. }
  rewrite <- Htok. clear token Htok Hk.
  apply exec_bind in H1 as (t3 & t4 & p & -> & H3 & H1). rewrite omap_app, token_writes_app, (no_token_writes _ _ _ (settle_no_write _ _) H3). cbn [app].
  destruct p as [o'|[[seed' ready] ch]].
  { destruct H1 as [-> ->]. pose proof (returns_exec _ _ _ _ (settle_no_token _ _) H3) as Ht. cbn in Ht. by rewrite Ht. }
  apply exec_bind in H1 as (t5 & t6 & m & -> & H5 & H1).
  rewrite omap_app, token_writes_app, (no_token_writes _ _ _ (benign_no_token _ (write_manifests_benign _ _ _ _)) H5). cbn [app].
  destruct m as [o'|ch'].
  { destruct H1 as [-> ->]. pose proof (returns_exec _ _ _ _ (manifests_no_token _ _ _ _) H5) as Ht. cbn in Ht. by rewrite Ht. }
  apply create_once_token in H1 as [-> Hc]. split; [done|]. intros Hne. rewrite <- (app_nil_r (omap run_reply t6)), app_assoc.
  apply created_part. by apply Hc.
Qed.
End token.
