(* ===== verification/Host.v ===== *)
(** * A host before there is a cluster

    [internal/k3s] and [internal/nodeprep] prepare a machine over the same transport, with
    helpers of the same shape: [runOK], [ensureFile] and [firstLine].  A command is a value
    of [HostCmd], [host_text] the line sent, and running it a call with an arbitrary reply.
    [host_step] is what a line does to the machine's files; unlike the installer's, a write
    here goes straight to the file, so one that fails may leave anything in it. *)
From S2P Require Import Prelude Regex GoStrings Effects Sha256 Kube RateLimit Credentials ApiServer PlatformSecrets Net InstallNode.
From Stdlib Require Import Ascii.

Definition installURL : string := "https://get.k3s.io".

Inductive HostCmd : Set :=
| HCat (p : string)
(** mkdir -p dir && printf %s 'payload' | base64 -d | tee p >/dev/null && chmod mode p *)
| HWrite (p payload mode : string)
| K3sVersion
| SysctlLoad (p : string)
| MkdirPrivate (p : string)
| InstallK3s (version : string)
| Systemctl (verb : string)
| GetNodes
| EncryptStatus
| TestFile (p : string)
| AppArmorLoad (p : string).
#[export] Instance HostCmd_eq_dec : EqDecision HostCmd.
Proof. solve_decision. Defined.

(** [path[:strings.LastIndex(path, "/")]], for the rooted paths that are written *)
Definition parent (p : string) : string :=
  match LastIndexByte (bytes p) "/"%char with Some i => slice_to i p | None => p end.
Definition host_text (sudo : string) (c : HostCmd) : string :=
  match c with
  | HCat p => sudo +:+ "cat " +:+ p
  | HWrite p payload mode =>
      sudo +:+ "mkdir -p " +:+ parent p +:+ " && printf %s '" +:+ payload +:+ "' | base64 -d | " +:+ sudo +:+ "tee " +:+ p +:+
      " >/dev/null && " +:+ sudo +:+ "chmod " +:+ mode +:+ " " +:+ p
  | K3sVersion => k3sBin +:+ " --version"
  | SysctlLoad p => sudo +:+ "sysctl -p " +:+ p
  | MkdirPrivate p => sudo +:+ "mkdir -p -m 700 " +:+ p
  | InstallK3s version => "curl -sfL " +:+ installURL +:+ " | INSTALL_K3S_VERSION='" +:+ version +:+ "' sh -s - server"
  | Systemctl verb => sudo +:+ "systemctl " +:+ verb +:+ " k3s"
  | GetNodes => sudo +:+ k3sBin +:+ " kubectl get nodes --no-headers"
  | EncryptStatus => sudo +:+ k3sBin +:+ " secrets-encrypt status"
  | TestFile p => sudo +:+ "test -f " +:+ p
  | AppArmorLoad p => sudo +:+ "apparmor_parser -r " +:+ p
  end.

Inductive HostE : Set → Type :=
| HRun (c : HostCmd) : HostE (result string RunResult)
(** the select of a poll loop: [None] for the next tick, or why the wait is over *)
| HTick (interval : Z) : HostE (option string)
(** the select of a pause: [None] when it is over, or the error of the cancelled context *)
| HPause (d : Z) : HostE (option string).

(** The first line that is not blank, trimmed. *)
Fixpoint first_text (lines : list string) : string :=
  match lines with
  | [] => ""
  | line :: lines => let t := TrimSpace line in if decide (t = "") then first_text lines else t
  end.
Definition firstLine (s : string) : string := first_text (Split s newline).

Section package.
Context (pkg : string).

Definition exited (desc : string) (res : RunResult) : string :=
  pkg +:+ ": " +:+ desc +:+ " exited " +:+ pretty (ExitStatus res) +:+ ": " +:+ firstLine (Stderr res).
Definition runOK (c : HostCmd) (desc : string) : prog HostE (result string unit) :=
  let! res := trigger (HRun c) in
  Ret (match res with
       | Err e => Err (pkg +:+ ": " +:+ desc +:+ ": " +:+ e)
       | Ok res => if decide (ExitStatus res ≠ 0%Z) then Err (exited desc res) else Ok tt
       end).
Definition ensureFile (p : string) (content : list ascii) (mode : string) : prog HostE (result string bool) :=
  let! cur := trigger (HRun (HCat p)) in
  match cur with
  | Err e => Ret (Err (pkg +:+ ": read " +:+ p +:+ ": " +:+ e))
  | Ok cur =>
      if decide (ExitStatus cur = 0%Z ∧ Stdout cur = of_bytes content) then Ret (Ok false)
      else
        try! _ := runOK (HWrite p (of_bytes (std_encode content)) mode) ("write " +:+ p) in
        Ret (Ok true)
  end.
End package.

(** ** Lines and files *)
Abbreviation host_line := (HostCmd * result string RunResult)%type.
Definition host_reply (c : call HostE) : option host_line :=
  match c with
  | Call e x => match e in HostE X return X → _ with HRun c => λ x, Some (c, x) | _ => λ _, None end x
  end.
Definition host_lines (tr : list (call HostE)) : list host_line := omap host_reply tr.
Definition host_step (fs : gmap string (list ascii)) (c : HostCmd) (x : result string RunResult) (fs' : gmap string (list ascii)) : Prop :=
  match c with
  | HCat p => fs' = fs ∧ ∀ res, x = Ok res → ExitStatus res = 0%Z → fs !! p = Some (bytes (Stdout res))
  | HWrite p payload _ =>
      if succeeded x then fs' = <[p := default [] (padded_decode std_alphabet (bytes payload))]> fs
      else fs' = fs ∨ ∃ anything, fs' = <[p := anything]> fs
  | _ => fs' = fs
  end.
Fixpoint host_runs (fs : gmap string (list ascii)) (lines : list host_line) (fs' : gmap string (list ascii)) : Prop :=
  match lines with
  | [] => fs' = fs
  | (c, x) :: lines => ∃ fs1, host_step fs c x fs1 ∧ host_runs fs1 lines fs'
  end.
Lemma host_runs_app fs l1 l2 fs' : host_runs fs (l1 ++ l2) fs' ↔ ∃ fs1, host_runs fs l1 fs1 ∧ host_runs fs1 l2 fs'.
Proof.
  revert fs. induction l1 as [|[c x] l1 IH]; intros fs; cbn [app host_runs].
  - split; [intros Hr; by exists fs|by intros (fs1 & -> & Hr)].
  - split.
    + intros (fs1 & Hs & (fs2 & H1 & H2)%IH). exists fs2. split; [by exists fs1|done].
    + intros (fs2 & (fs1 & Hs & H1) & H2). exists fs1. split; [done|]. apply IH. by exists fs2.
Qed.
Lemma host_lines_app t1 t2 : host_lines (t1 ++ t2) = host_lines t1 ++ host_lines t2.
Proof. apply omap_app. Qed.

Lemma host_runOK_inv pkg c desc tr r :
  exec (runOK pkg c desc) tr r → ∃ x, host_lines tr = [(c, x)] ∧ is_ok r = succeeded x.
Proof.
  intros (x & tr1 & -> & -> & ->). exists x. split; [done|]. destruct x as [res|e]; [|done]. cbn.
  case_decide as He; [by rewrite bool_decide_eq_false_2|]. rewrite bool_decide_eq_true_2; [done|].
  destruct (decide (ExitStatus res = 0%Z)); [done|by destruct He].
Qed.

(** How a write step goes: it read the content and left the file alone, or wrote it. *)
Lemma host_ensureFile_inv pkg p content mode tr b :
  exec (ensureFile pkg p content mode) tr (Ok b) →
  ∃ cur, ((HCat p, Ok cur) ∈ host_lines tr) ∧
    (b = false ∧ host_lines tr = [(HCat p, Ok cur)] ∧ ExitStatus cur = 0%Z ∧ Stdout cur = of_bytes content ∨
     b = true ∧ ¬ (ExitStatus cur = 0%Z ∧ Stdout cur = of_bytes content) ∧
       ∃ x, host_lines tr = [(HCat p, Ok cur); (HWrite p (of_bytes (std_encode content)) mode, x)] ∧ succeeded x = true).
Proof.
  intros (cur & tr1 & -> & Hk). cbn [prog_bind] in Hk. destruct cur as [cur|e]; [|by destruct Hk].
  exists cur. split; [by left|]. case_decide as Hsame.
  - destruct Hk as [-> [= ->]]. left. split_and!; [done|done|apply Hsame..].
  - apply exec_bind in Hk as (t1 & t2 & w & -> & (x & Ho & Hx)%host_runOK_inv & Hk).
    destruct w as [[]|e]; [|by destruct Hk]. destruct Hk as [-> [= ->]]. right. split_and!; [done..|].
    exists x. split; [|done]. change (host_lines (Call (HRun (HCat p)) (Ok cur) :: t1 ++ [])) with ((HCat p, Ok cur) :: host_lines (t1 ++ [])).
    by rewrite host_lines_app, Ho.
Qed.
Lemma host_ensureFile_files pkg p content mode tr b fs fs' :
  exec (ensureFile pkg p content mode) tr (Ok b) → host_runs fs (host_lines tr) fs' →
  fs' !! p = Some content ∧ ∀ q, q ≠ p → fs' !! q = fs !! q.
Proof.
  intros (cur & _ & [(_ & -> & He & Ho)|(_ & _ & x & -> & Hx)])%host_ensureFile_inv; cbn [host_runs].
  - intros (fs1 & [-> Hcat] & ->). split; [|done]. rewrite (Hcat cur eq_refl He), Ho. by rewrite bytes_of_bytes.
  - intros (fs1 & [-> _] & fs2 & Hs & ->). cbn [host_step] in Hs. rewrite Hx in Hs. subst fs2.
    rewrite bytes_of_bytes, padded_decode_encode. split; [by rewrite lookup_insert_eq|]. intros q Hq. by rewrite lookup_insert_ne.
Qed.
