(* ===== verification/K3s.v ===== *)
(** * Bootstrapping a k3s server

    [internal/k3s/k3s.go]: [Bootstrap] and its steps over a host ([Host.v]), with the
    rendering of [templates/config.yaml.tmpl].  The three embedded files without
    placeholders are arguments.  The result that the source fills in step by step is
    threaded through.  [fuel] bounds the polls of [waitReady] ([None]: out of fuel); log
    lines are left out. *)
From S2P Require Import Prelude Regex GoStrings Effects Sha256 Kube RateLimit Credentials ApiServer GitHubApp PlatformSecrets.
From S2P Require Import Net InstallNode Host.
From Stdlib Require Import Ascii.

(** ** Constants and patterns *)
Definition DefaultK3sVersion : string := "v1.35.5+k3s1".
Definition DefaultReadyTimeout : Z := 5 * Minute.
Definition DefaultSnapshotCron : string := "0 */12 * * *".
Definition DefaultSnapshotRetention : Z := 5.
Definition pathConfig : string := "/etc/rancher/k3s/config.yaml".
Definition pathServerDir : string := "/var/lib/rancher/k3s/server".
Definition pathAudit : string := pathServerDir +:+ "/audit.yaml".
Definition pathPSA : string := pathServerDir +:+ "/psa.yaml".
Definition pathAuditLogDir : string := pathServerDir +:+ "/logs".
Definition pathAuditLog : string := pathAuditLogDir +:+ "/audit.log".
Definition pathToken : string := pathServerDir +:+ "/token".
Definition pathSysctl : string := "/etc/sysctl.d/90-kubelet.conf".
Definition pathKubeconfig : string := "/etc/rancher/k3s/k3s.yaml".
Definition localServer : string := "https://127.0.0.1:6443".
Definition readyPollInterval : Z := 5 * Second.
Definition auditRetryInterval : Z := 2 * Second.

Definition digits : re := Plus (Cls is_digit).
Definition host_char (c : ascii) : bool := is_alnum c || one_of "._-" c.
Definition cron_char (c : ascii) : bool := is_alnum c || one_of " @*/,-" c.
Definition token_char (c : ascii) : bool := is_alnum c || one_of ":._-" c.
(** [^v\d+\.\d+\.\d+\+k3s\d+$] *)
Definition versionRe : re :=
  Cat (Lit "v"%char) (Cat digits (Cat (Lit "."%char) (Cat digits (Cat (Lit "."%char) (Cat digits (Cat (Word "+k3s") digits)))))).
Definition hostRe : re := Plus (Cls host_char).
Definition cronRe : re := Plus (Cls cron_char).
Definition tokenRe : re := Plus (Cls token_char).
(** [^https://[A-Za-z0-9._-]+:[0-9]+$] *)
Definition serverURLRe : re := Cat (Word "https://") (Cat hostRe (Cat (Lit ":"%char) digits)).

(** [installedVersionRe.FindString]: the leftmost match, each run of digits as long as it goes *)
Fixpoint take_digits (l : list ascii) : list ascii * list ascii :=
  match l with
  | c :: l' => if is_digit c then let '(ds, rest) := take_digits l' in (c :: ds, rest) else ([], l)
  | [] => ([], [])
  end.
Definition digits1 (l : list ascii) : option (list ascii * list ascii) :=
  let '(ds, rest) := take_digits l in if decide (ds = []) then None else Some (ds, rest).
Definition literal (s : string) (l : list ascii) : option (list ascii * list ascii) :=
  if decide (take (len s) l = bytes s) then Some (bytes s, drop (len s) l) else None.
Definition version_parts : list (list ascii → option (list ascii * list ascii)) :=
  [literal "v"; digits1; literal "."; digits1; literal "."; digits1; literal "+k3s"; digits1].
Fixpoint match_parts (ps : list (list ascii → option (list ascii * list ascii))) (l : list ascii) : option (list ascii) :=
  match ps with
  | [] => Some []
  | p :: ps => '(w, rest) ← p l; (app w) <$> match_parts ps rest
  end.
Fixpoint find_version (l : list ascii) : list ascii :=
  match l with
  | [] => []
  | _ :: l' => match match_parts version_parts l with Some w => w | None => find_version l' end
  end.

(** ** Configuration *)
Record Config : Type := {
  NodeAddress : string; ExtraTLSSANs : list string; ServerURL : string; Token : string; MinReadyNodes : Z;
  K3sVersion_ : string; SnapshotCron : string; SnapshotRetention : Z; c_Sudo : bool; ReadyTimeout : Z;
}.
Definition version (c : Config) : string := if decide (K3sVersion_ c = "") then DefaultK3sVersion else K3sVersion_ c.
Definition readyTimeout (c : Config) : Z := if decide (ReadyTimeout c ≤ 0)%Z then DefaultReadyTimeout else ReadyTimeout c.
Definition snapshotCron (c : Config) : string := if decide (SnapshotCron c = "") then DefaultSnapshotCron else SnapshotCron c.
Definition snapshotRetention (c : Config) : Z := if decide (SnapshotRetention c ≤ 0)%Z then DefaultSnapshotRetention else SnapshotRetention c.
Definition minReadyNodes (c : Config) : Z := if decide (MinReadyNodes c ≤ 0)%Z then 1 else MinReadyNodes c.
Definition tlsSANs (c : Config) : list string := NodeAddress c :: ExtraTLSSANs c.

Record Result : Type := {
  AlreadyInstalled : bool; Changed : bool; Version : string; SecretsEncryption : string; AuditLogPresent : bool;
  Kubeconfig : string; r_Token : string;
}.
Definition empty_result : Result :=
  {| AlreadyInstalled := false; Changed := false; Version := ""; SecretsEncryption := ""; AuditLogPresent := false; Kubeconfig := ""; r_Token := "" |}.
Definition set_changed (b : bool) (r : Result) : Result :=
  {| AlreadyInstalled := AlreadyInstalled r; Changed := b || Changed r; Version := Version r; SecretsEncryption := SecretsEncryption r;
     AuditLogPresent := AuditLogPresent r; Kubeconfig := Kubeconfig r; r_Token := r_Token r |}.
Definition set_installed (v : string) (r : Result) : Result :=
  {| AlreadyInstalled := true; Changed := Changed r; Version := v; SecretsEncryption := SecretsEncryption r;
     AuditLogPresent := AuditLogPresent r; Kubeconfig := Kubeconfig r; r_Token := r_Token r |}.
Definition set_version (v : string) (r : Result) : Result :=
  {| AlreadyInstalled := AlreadyInstalled r; Changed := true; Version := v; SecretsEncryption := SecretsEncryption r;
     AuditLogPresent := AuditLogPresent r; Kubeconfig := Kubeconfig r; r_Token := r_Token r |}.
Definition set_verified (enc : string) (r : Result) : Result :=
  {| AlreadyInstalled := AlreadyInstalled r; Changed := Changed r; Version := Version r; SecretsEncryption := enc;
     AuditLogPresent := true; Kubeconfig := Kubeconfig r; r_Token := r_Token r |}.
Definition set_kubeconfig (kc : string) (r : Result) : Result :=
  {| AlreadyInstalled := AlreadyInstalled r; Changed := Changed r; Version := Version r; SecretsEncryption := SecretsEncryption r;
     AuditLogPresent := AuditLogPresent r; Kubeconfig := kc; r_Token := r_Token r |}.
Definition set_token (t : string) (r : Result) : Result :=
  {| AlreadyInstalled := AlreadyInstalled r; Changed := Changed r; Version := Version r; SecretsEncryption := SecretsEncryption r;
     AuditLogPresent := AuditLogPresent r; Kubeconfig := Kubeconfig r; r_Token := t |}.

(** ** Rendering [config.yaml] *)
Definition quoted (s : string) : string := dq +:+ s +:+ dq.
Definition config_head (c : Config) : list string :=
  ["# Managed by `orkano init` — generated from";
   "# internal/k3s/templates/config.yaml.tmpl. CIS-aligned k3s server configuration";
   "# (docs.k3s.io/security/hardening-guide). The hardening flags here are read by";
   "# k3s at startup, so the file is written before the server is installed."] ++
  (if decide (ServerURL c ≠ "") then
     ["# Joins the existing embedded-etcd cluster at ServerURL using the shared token.";
      "server: " +:+ quoted (ServerURL c); "token: " +:+ quoted (Token c)]
   else ["# Initialises the embedded-etcd cluster (the first server)."; "cluster-init: true"]).
Definition config_hardening (c : Config) : list string :=
  ["secrets-encryption: true"; "protect-kernel-defaults: true"; "write-kubeconfig-mode: " +:+ quoted "0600";
   "# Scheduled embedded-etcd snapshots for local disaster recovery. Defaults mirror";
   "# k3s (every 12h, keep the last 5); shipping snapshots off-box is a later concern.";
   "etcd-snapshot-schedule-cron: " +:+ quoted (snapshotCron c); "etcd-snapshot-retention: " +:+ pretty (snapshotRetention c);
   "tls-san:"] ++ ((λ s, "  - " +:+ quoted s) <$> tlsSANs c).
Definition config_args : list string :=
  ["kube-apiserver-arg:"] ++
  ((λ s, "  - " +:+ quoted s) <$>
    ["enable-admission-plugins=NodeRestriction,EventRateLimit"; "admission-control-config-file=/var/lib/rancher/k3s/server/psa.yaml";
     "audit-log-path=/var/lib/rancher/k3s/server/logs/audit.log"; "audit-policy-file=/var/lib/rancher/k3s/server/audit.yaml";
     "audit-log-maxage=30"; "audit-log-maxbackup=10"; "audit-log-maxsize=100"; "service-account-extend-token-expiration=false"]) ++
  ["kube-controller-manager-arg:"; "  - " +:+ quoted "terminated-pod-gc-threshold=100"; "kubelet-arg:";
   "  - " +:+ quoted "streaming-connection-idle-timeout=5m";
   "  - " +:+ quoted ("tls-cipher-suites=TLS_ECDHE_ECDSA_WITH_AES_256_GCM_SHA384,TLS_ECDHE_RSA_WITH_AES_256_GCM_SHA384," +:+
     "TLS_ECDHE_ECDSA_WITH_AES_128_GCM_SHA256,TLS_ECDHE_RSA_WITH_AES_128_GCM_SHA256," +:+
     "TLS_ECDHE_ECDSA_WITH_CHACHA20_POLY1305,TLS_ECDHE_RSA_WITH_CHACHA20_POLY1305")].
Definition config_lines (c : Config) : list string := config_head c ++ config_hardening c ++ config_args.
Definition config_yaml (c : Config) : list ascii := bytes (Join (config_lines c) nl +:+ nl).

(** ** Text *)

(** [strings.ReplaceAll(s, old, new)], [old] not empty: [skip] bytes of a replaced part are still to go *)
Fixpoint replace_all (old new : list ascii) (skip : nat) (l : list ascii) : list ascii :=
  match l with
  | [] => []
  | c :: l' =>
      match skip with
      | S skip => replace_all old new skip l'
      | O =>
          if decide (take (length old) l = old) then new ++ replace_all old new (length old - 1) l'
          else c :: replace_all old new 0 l'
      end
  end.
Definition ReplaceAll (s old new : string) : string := of_bytes (replace_all (bytes old) (bytes new) 0 (bytes s)).

Definition is_ready (line : string) : bool := bool_decide (Fields line !! 1%nat = Some "Ready").
Definition countReady (out : string) : Z := Z.of_nat (length (filter (λ line, is_ready line = true) (Split out newline))).

(** What follows the first occurrence of a key. *)
Fixpoint text_after (key s : string) : option string :=
  if HasPrefix s key then Some (of_bytes (drop (len key) (bytes s)))
  else match s with "" => None | String _ s => text_after key s end.
Fixpoint status_of (lines : list string) : string :=
  match lines with
  | [] => ""
  | line :: lines => match text_after "Encryption Status:" line with Some rest => TrimSpace rest | None => status_of lines end
  end.
Definition encryptionStatus (out : string) : string := status_of (Split out newline).

(** ** The steps *)
Section bootstrap.
Context `{UnicodeTables} (dur : Z → string) (sysctlConf auditYAML psaYAML : list ascii) (cfg : Config).

Definition run_ok : HostCmd → string → prog HostE (result string unit) := runOK "k3s".
Definition ensure_file (p : string) (content : list ascii) (mode : string) (res : Result) : prog HostE (result string (bool * Result)) :=
  try! wrote := ensureFile "k3s" p content mode in
  Ret (Ok (wrote, set_changed wrote res)).

Definition detectInstalled (res : Result) : prog HostE (result string Result) :=
  let! got := trigger (HRun K3sVersion) in
  Ret (match got with
       | Err e => Err ("k3s: probe installed version: " +:+ e)
       | Ok got => Ok (if decide (ExitStatus got ≠ 0%Z) then res else set_installed (of_bytes (find_version (bytes (Stdout got)))) res)
       end).

Definition applyHostPrereqs (res : Result) : prog HostE (result string Result) :=
  try! r := ensure_file pathSysctl sysctlConf "0644" res in
  let '(changed, res) := r in
  try! _ := (if changed || negb (AlreadyInstalled res) then run_ok (SysctlLoad pathSysctl) "apply kernel parameters" else Ret (Ok tt)) in
  try! _ := run_ok (MkdirPrivate pathAuditLogDir) "create audit log directory" in
  try! r := ensure_file pathAudit auditYAML "0600" res in
  try! r := ensure_file pathPSA psaYAML "0600" r.2 in
  Ret (Ok r.2).

Definition installOrConverge (res : Result) : prog HostE (result string Result) :=
  try! r := ensure_file pathConfig (config_yaml cfg) "0600" res in
  let '(configChanged, res) := r in
  let want := version cfg in
  if negb (AlreadyInstalled res) || negb (bool_decide (Version res = want)) then
    try! _ := run_ok (InstallK3s want) "install k3s" in
    Ret (Ok (set_version want res))
  else if configChanged : bool then
    try! _ := run_ok (Systemctl "restart") "restart k3s" in
    Ret (Ok (set_changed true res))
  else
    let! got := trigger (HRun (Systemctl "is-active")) in
    match got with
    | Err e => Ret (Err ("k3s: check service state: " +:+ e))
    | Ok got =>
        if decide (TrimSpace (Stdout got) ≠ "active") then
          try! _ := run_ok (Systemctl "start") "start k3s" in
          Ret (Ok (set_changed true res))
        else Ret (Ok res)
    end.

Definition enough (want : Z) (got : result string RunResult) : bool :=
  match got with Ok got => bool_decide (ExitStatus got = 0%Z ∧ (want ≤ countReady (Stdout got))%Z) | Err _ => false end.
Fixpoint wait_ready (fuel : nat) : prog HostE (option (result string unit)) :=
  match fuel with
  | O => Ret None
  | S fuel =>
      let want := minReadyNodes cfg in
      let! got := trigger (HRun GetNodes) in
      if enough want got then Ret (Some (Ok tt))
      else
        let! tick := trigger (HTick readyPollInterval) in
        match tick with
        | None => wait_ready fuel
        | Some why =>
            Ret (Some (Err ("k3s: fewer than " +:+ pretty want +:+ " node(s) became Ready within " +:+ dur (readyTimeout cfg) +:+ ": " +:+ why)))
        end
  end.

(** The attempts to see the audit log. *)
Fixpoint audit_log (attempts : nat) : prog HostE (result string bool) :=
  match attempts with
  | O => Ret (Ok false)
  | S attempts =>
      let! got := trigger (HRun (TestFile pathAuditLog)) in
      match got with
      | Err e => Ret (Err ("k3s: check audit log: " +:+ e))
      | Ok got =>
          if decide (ExitStatus got = 0%Z) then Ret (Ok true)
          else
            let! p := trigger (HPause auditRetryInterval) in
            match p with Some why => Ret (Err why) | None => audit_log attempts end
      end
  end.
Definition verify (res : Result) : prog HostE (result string Result) :=
  let! got := trigger (HRun EncryptStatus) in
  match got with
  | Err e => Ret (Err ("k3s: check secrets encryption: " +:+ e))
  | Ok got =>
      if decide (ExitStatus got ≠ 0%Z) then Ret (Err (exited "k3s" "secrets-encrypt status" got))
      else
        let enc := encryptionStatus (Stdout got) in
        if negb (EqualFold enc "Enabled") then Ret (Err ("k3s: secrets encryption is not enabled (status: " +:+ Quote enc +:+ ")"))
        else
          try! present := audit_log 3 in
          Ret (if present : bool then Ok (set_verified enc res)
               else Err ("k3s: audit log " +:+ pathAuditLog +:+ " not found; auditing may not be active"))
  end.

Definition remote_server : string := "https://" +:+ NodeAddress cfg +:+ ":6443".
Definition fetchKubeconfig (res : Result) : prog HostE (result string Result) :=
  let! got := trigger (HRun (HCat pathKubeconfig)) in
  Ret (match got with
       | Err e => Err ("k3s: read kubeconfig: " +:+ e)
       | Ok got =>
           if decide (ExitStatus got ≠ 0%Z) then Err (exited "k3s" "read kubeconfig" got)
           else
             let kc := ReplaceAll (Stdout got) localServer remote_server in
             if Contains kc remote_server then Ok (set_kubeconfig kc res)
             else Err ("k3s: kubeconfig did not contain the expected server URL " +:+ Quote localServer +:+ " to rewrite")
       end).
Definition fetchToken (res : Result) : prog HostE (result string Result) :=
  if decide (ServerURL cfg ≠ "") then Ret (Ok res)
  else
    let! got := trigger (HRun (HCat pathToken)) in
    Ret (match got with
         | Err e => Err ("k3s: read cluster token: " +:+ e)
         | Ok got =>
             if decide (ExitStatus got ≠ 0%Z) then Err (exited "k3s" "read cluster token" got)
             else
               let tok := TrimSpace (Stdout got) in
               if MatchString tokenRe tok then Ok (set_token tok res) else Err "k3s: cluster token file had unexpected contents"
         end).

(** The checks of [Bootstrap] before anything is run. *)
Fixpoint invalid_san (sans : list string) : option string :=
  match sans with
  | [] => None
  | s :: sans => if MatchString hostRe s then invalid_san sans else Some ("k3s: invalid TLS SAN " +:+ Quote s)
  end.
Definition invalid_join : option string :=
  if decide (ServerURL cfg = "") then None
  else if negb (MatchString serverURLRe (ServerURL cfg)) then
    Some ("k3s: invalid join server URL " +:+ Quote (ServerURL cfg) +:+ " (want https://host:port)")
  else if decide (Token cfg = "") then Some "k3s: a join token is required when ServerURL is set"
  else if negb (MatchString tokenRe (Token cfg)) then Some "k3s: join token has an unexpected format"
  else None.
Definition invalid_config : option string :=
  if negb (MatchString hostRe (NodeAddress cfg)) then Some ("k3s: invalid node address " +:+ Quote (NodeAddress cfg) +:+ " (hostname or IPv4 only)")
  else match invalid_san (ExtraTLSSANs cfg) with
  | Some e => Some e
  | None =>
      if negb (MatchString versionRe (version cfg)) then Some ("k3s: invalid k3s version " +:+ Quote (version cfg) +:+ " (want vX.Y.Z+k3sN)")
      else if negb (MatchString cronRe (snapshotCron cfg)) then Some ("k3s: invalid snapshot schedule " +:+ Quote (snapshotCron cfg))
      else invalid_join
  end.

Definition after_ready (res : Result) : prog HostE (result string Result) :=
  try! res := verify res in
  try! res := fetchKubeconfig res in
  fetchToken res.
Definition converge : prog HostE (result string Result) :=
  try! res := detectInstalled empty_result in
  try! res := applyHostPrereqs res in
  installOrConverge res.
Definition Bootstrap (fuel : nat) : prog HostE (option (result string Result)) :=
  match invalid_config with
  | Some e => Ret (Some (Err e))
  | None =>
      let! r := converge in
      match r with
      | Err e => Ret (Some (Err e))
      | Ok res =>
          let! w := wait_ready fuel in
          match w with
          | None => Ret None
          | Some (Err e) => Ret (Some (Err e))
          | Some (Ok _) => let! r := after_ready res in Ret (Some r)
          end
      end
  end.
End bootstrap.

Example versions : (λ s, of_bytes (find_version (bytes s))) <$>
  ["k3s version v1.35.5+k3s1 (abc)"; "v1.2"; "vv1.2.3+k3s45x"; "v1.2.3+k3s"] = ["v1.35.5+k3s1"; ""; "v1.2.3+k3s45"; ""].
Proof. vm_compute. reflexivity. Qed.
Example replaced : ReplaceAll "server: https://127.0.0.1:6443 x" localServer "https://n:6443" = "server: https://n:6443 x".
Proof. vm_compute. reflexivity. Qed.

(** ** What a successful run has seen *)

(** Lines that start, restart or replace the service. *)
Definition service_action (c : HostCmd) : bool :=
  match c with InstallK3s _ => true | Systemctl verb => negb (bool_decide (verb = "is-active")) | _ => false end.
Definition actions (lines : list host_line) : list HostCmd := filter (λ c, service_action c = true) (fst <$> lines).
Definition no_action (X : Set) (e : HostE X) : bool := match e with HRun c => negb (service_action c) | _ => true end.

Lemma actions_app l1 l2 : actions (l1 ++ l2) = actions l1 ++ actions l2.
Proof. unfold actions. by rewrite fmap_app, filter_app. Qed.
Lemma no_action_lines {A} (p : prog HostE A) tr a : calls_only no_action p → exec p tr a → actions (host_lines tr) = [].
Proof.
  intros Hp Hex. pose proof (calls_only_exec _ _ _ _ Hp Hex) as HF. clear Hp Hex.
  induction HF as [|[X e x] tr Hc HF IH]; [done|]. destruct e; try exact IH. cbn in Hc |- *. unfold actions in *.
  change (filter (λ c, service_action c = true) (c :: (fst <$> host_lines tr)) = []). rewrite filter_cons_False; [exact IH|].
  by destruct (service_action c).
Qed.

Section facts.
Context `{UnicodeTables} (dur : Z → string) (sysctlConf auditYAML psaYAML : list ascii) (cfg : Config).

Lemma ensure_file_inv p content mode res tr b res' :
  exec (ensure_file p content mode res) tr (Ok (b, res')) → res' = set_changed b res ∧ exec (ensureFile "k3s" p content mode) tr (Ok b).
Proof.
  unfold ensure_file. rewrite exec_bind. intros (t1 & t2 & w & -> & Hw & Hk). destruct w as [w|e]; [|by destruct Hk].
  destruct Hk as [-> [= -> ->]]. by rewrite app_nil_r.
Qed.

(** *** Service actions *)
Lemma ensure_file_quiet p content mode res : calls_only no_action (ensure_file p content mode res).
Proof. unfold ensure_file, ensureFile, runOK. calls. Qed.
Lemma detect_quiet res : calls_only no_action (detectInstalled res).
Proof. unfold detectInstalled. calls. Qed.
Lemma prereqs_quiet res : calls_only no_action (applyHostPrereqs sysctlConf auditYAML psaYAML res).
Proof. unfold applyHostPrereqs, ensure_file, ensureFile, run_ok, runOK. calls. Qed.
Lemma after_ready_quiet res : calls_only no_action (after_ready cfg res).
Proof. unfold after_ready, verify, fetchKubeconfig, fetchToken. cbn [audit_log]. calls. Qed.
Lemma wait_ready_quiet fuel : calls_only no_action (wait_ready dur cfg fuel).
Proof.
  induction fuel as [|fuel IH]; [done|]. cbn [wait_ready]. split; [done|]. intros got. cbn [prog_bind].
  destruct (enough _ _); [done|]. split; [done|]. intros tick. cbn [prog_bind]. by destruct tick.
Qed.

Definition probed (got : RunResult) : option string :=
  if decide (ExitStatus got ≠ 0%Z) then None else Some (of_bytes (find_version (bytes (Stdout got)))).
Lemma detect_inv res tr res' :
  exec (detectInstalled res) tr (Ok res') →
  ∃ got, host_lines tr = [(K3sVersion, Ok got)] ∧ res' = match probed got with Some v => set_installed v res | None => res end.
Proof.
  intros (got & t1 & -> & -> & Hr). destruct got as [got|e]; [|done]. injection Hr as ->. exists got. split; [done|].
  unfold probed. by case_decide.
Qed.

(** Preparing the host keeps what was detected. *)
Lemma prereqs_keep res tr res' :
  exec (applyHostPrereqs sysctlConf auditYAML psaYAML res) tr (Ok res') → AlreadyInstalled res' = AlreadyInstalled res ∧ Version res' = Version res.
Proof.
  unfold applyHostPrereqs. rewrite exec_bind. intros (t1 & t2 & r1 & -> & H1 & Hk). destruct r1 as [[b1 res1]|e]; [|by destruct Hk].
  apply ensure_file_inv in H1 as [-> _].
  apply exec_bind in Hk as (t3 & t4 & r2 & -> & _ & Hk). destruct r2 as [[]|e]; [|by destruct Hk].
  apply exec_bind in Hk as (t5 & t6 & r3 & -> & _ & Hk). destruct r3 as [[]|e]; [|by destruct Hk].
  apply exec_bind in Hk as (t7 & t8 & r4 & -> & H4 & Hk). destruct r4 as [[b4 res4]|e]; [|by destruct Hk].
  apply ensure_file_inv in H4 as [-> _].
  apply exec_bind in Hk as (t9 & t10 & r5 & -> & H5 & Hk). destruct r5 as [[b5 res5]|e]; [|by destruct Hk].
  apply ensure_file_inv in H5 as [-> _]. by destruct Hk as [_ [= ->]].
Qed.

(** The configuration is already what the run would write. *)
Definition config_current (cur : RunResult) : Prop := ExitStatus cur = 0%Z ∧ Stdout cur = of_bytes (config_yaml cfg).

(** The line was run and exited 0. *)
Definition ran (c : HostCmd) (lines : list host_line) : Prop := ∃ x, (c, x) ∈ lines ∧ succeeded x = true.
(** What the step does to the service. *)
Inductive service_step (installed : option string) (lines : list host_line) : list HostCmd → Prop :=
| step_install : installed ≠ Some (version cfg) → ran (InstallK3s (version cfg)) lines →
    service_step installed lines [InstallK3s (version cfg)]
| step_restart cur : installed = Some (version cfg) → (HCat pathConfig, Ok cur) ∈ lines → ¬ config_current cur →
    ran (Systemctl "restart") lines → service_step installed lines [Systemctl "restart"]
| step_start cur st : installed = Some (version cfg) → (HCat pathConfig, Ok cur) ∈ lines → config_current cur →
    (Systemctl "is-active", Ok st) ∈ lines → TrimSpace (Stdout st) ≠ "active" →
    ran (Systemctl "start") lines → service_step installed lines [Systemctl "start"]
| step_none cur st : installed = Some (version cfg) → (HCat pathConfig, Ok cur) ∈ lines → config_current cur →
    (Systemctl "is-active", Ok st) ∈ lines → TrimSpace (Stdout st) = "active" → service_step installed lines [].

Lemma service_step_more installed l1 l2 l3 acts : service_step installed l2 acts → service_step installed (l1 ++ l2 ++ l3) acts.
Proof.
  assert (Hin : ∀ l : host_line, l ∈ l2 → l ∈ l1 ++ l2 ++ l3) by (intros l Hl; rewrite !elem_of_app; auto).
  assert (Hran : ∀ c, ran c l2 → ran c (l1 ++ l2 ++ l3)) by (intros c (x & Hl & Hx); exists x; auto).
  destruct 1; [apply step_install|eapply step_restart|eapply step_start|eapply step_none]; eauto.
Qed.

Definition detected (res : Result) : option string := if AlreadyInstalled res then Some (Version res) else None.
Lemma installOrConverge_step res tr res' :
  exec (installOrConverge cfg res) tr (Ok res') →
  service_step (detected res) (host_lines tr) (actions (host_lines tr)) ∧ Version res' = version cfg.
Proof.
  unfold installOrConverge. rewrite exec_bind. intros (t1 & t2 & r1 & -> & H1 & Hk). destruct r1 as [[b res1]|e]; [|by destruct Hk].
  pose proof (no_action_lines _ _ _ (ensure_file_quiet _ _ _ _) H1) as Q1. apply ensure_file_inv in H1 as [-> H1].
  apply host_ensureFile_inv in H1 as (cur & Hcur & Hb). rewrite host_lines_app, actions_app, Q1. cbn [app].
  cbn [set_changed AlreadyInstalled Version] in Hk. destruct (negb (AlreadyInstalled res) || _) eqn:Hneed.
  - apply exec_bind in Hk as (t3 & t4 & w & -> & (x & Ho & Hx)%host_runOK_inv & Hk). destruct w as [[]|e]; [|by destruct Hk].
    destruct Hk as [-> [= ->]]. rewrite host_lines_app, Ho. split; [|done].
    apply step_install; [|exists x; split; [apply elem_of_app; right; by left|done]]. unfold detected. intros Hd.
    destruct (AlreadyInstalled res); [|done]. injection Hd as Hd. by rewrite (bool_decide_eq_true_2 _ Hd) in Hneed.
  - apply orb_false_iff in Hneed as [Hai Hv]. apply negb_false_iff in Hai, Hv. apply bool_decide_eq_true in Hv.
    assert (Hdet : detected res = Some (version cfg)) by (unfold detected; by rewrite Hai, Hv).
    destruct Hb as [(-> & _ & Hsame)|(-> & Hdiff & _)].
    + destruct Hk as (got & t3 & -> & Hk). cbn [prog_bind] in Hk. destruct got as [got|e]; [|by destruct Hk]. case_decide as Hact.
      * apply exec_bind in Hk as (t4 & t5 & w & -> & (x & Ho & Hx)%host_runOK_inv & Hk). destruct w as [[]|e]; [|by destruct Hk].
        destruct Hk as [-> [= ->]]. split; [|done].
        change (host_lines (Call (HRun (Systemctl "is-active")) (Ok got) :: t4 ++ [])) with ((Systemctl "is-active", Ok got) :: host_lines (t4 ++ [])).
        rewrite host_lines_app, Ho. eapply step_start; [done| |done| |done|exists x; split; [|done]]; rewrite !elem_of_app; [by left|right; by left|].
        right. right. rewrite elem_of_app. left. by left.
      * destruct Hk as [-> [= ->]]. split; [|done].
        eapply step_none; [done| |done| |done]; rewrite elem_of_app; [by left|right; by left].
    + apply exec_bind in Hk as (t3 & t4 & w & -> & (x & Ho & Hx)%host_runOK_inv & Hk). destruct w as [[]|e]; [|by destruct Hk].
      destruct Hk as [-> [= ->]]. rewrite host_lines_app, Ho. split; [|done].
      eapply step_restart; [done| |exact Hdiff|exists x; split; [|done]]; rewrite elem_of_app; [by left|]. right. by left.
Qed.

(** *** The parts of a run *)
Lemma converge_inv tr res :
  exec (converge sysctlConf auditYAML psaYAML cfg) tr (Ok res) →
  ∃ t1 t2 t3 r1 r2, tr = t1 ++ t2 ++ t3 ∧ exec (detectInstalled empty_result) t1 (Ok r1) ∧
    exec (applyHostPrereqs sysctlConf auditYAML psaYAML r1) t2 (Ok r2) ∧ exec (installOrConverge cfg r2) t3 (Ok res).
Proof.
  unfold converge. rewrite exec_bind. intros (t1 & u1 & r1 & -> & H1 & Hk). destruct r1 as [r1|e]; [|by destruct Hk].
  apply exec_bind in Hk as (t2 & t3 & r2 & -> & H2 & H3). destruct r2 as [r2|e]; [|by destruct H3]. by exists t1, t2, t3, r1, r2.
Qed.
Lemma Bootstrap_inv fuel tr res :
  exec (Bootstrap dur sysctlConf auditYAML psaYAML cfg fuel) tr (Some (Ok res)) →
  invalid_config cfg = None ∧ ∃ t1 t2 t3 r1, tr = t1 ++ t2 ++ t3 ∧ exec (converge sysctlConf auditYAML psaYAML cfg) t1 (Ok r1) ∧
    exec (wait_ready dur cfg fuel) t2 (Some (Ok tt)) ∧ exec (after_ready cfg r1) t3 (Ok res).
Proof.
  unfold Bootstrap. destruct (invalid_config cfg); [by intros [_ ?]|]. intros Hex. split; [done|].
  apply exec_bind in Hex as (t1 & u1 & r1 & -> & H1 & Hk). destruct r1 as [r1|e]; [|by destruct Hk].
  apply exec_bind in Hk as (t2 & u2 & w & -> & H2 & Hk). destruct w as [[[]|e]|]; [|by destruct Hk..].
  apply exec_bind in Hk as (t3 & u3 & r & -> & H3 & -> & Hr). injection Hr as ->. exists t1, t2, t3, r1. by rewrite app_nil_r.
Qed.

Lemma wait_ready_inv fuel tr :
  exec (wait_ready dur cfg fuel) tr (Some (Ok tt)) →
  ∃ got, ((GetNodes, Ok got) ∈ host_lines tr) ∧ ExitStatus got = 0%Z ∧ (minReadyNodes cfg ≤ countReady (Stdout got))%Z.
Proof.
  revert tr. induction fuel as [|fuel IH]; intros tr; cbn [wait_ready]; [by intros [_ ?]|].
  intros (got & t1 & -> & Hk). cbn [prog_bind] in Hk. destruct (enough _ got) eqn:He.
  - destruct got as [got|e]; [|done]. apply bool_decide_eq_true in He as [? ?]. exists got. split_and!; [by left|done..].
  - destruct Hk as (tick & t2 & -> & Hk). cbn [prog_bind] in Hk. destruct tick; [by destruct Hk|].
    destruct (IH _ Hk) as (out & Hin & ? & ?). exists out. split_and!; [by right|done..].
Qed.
Lemma audit_log_inv n tr :
  exec (audit_log n) tr (Ok true) → ∃ got, ((TestFile pathAuditLog, Ok got) ∈ host_lines tr) ∧ ExitStatus got = 0%Z.
Proof.
  revert tr. induction n as [|n IH]; intros tr; cbn [audit_log]; [by intros [_ ?]|].
  intros (got & t1 & -> & Hk). cbn [prog_bind] in Hk. destruct got as [got|e]; [|by destruct Hk]. case_decide as He.
  - exists got. split; [by left|done].
  - destruct Hk as (p & t2 & -> & Hk). cbn [prog_bind] in Hk. destruct p; [by destruct Hk|].
    destruct (IH _ Hk) as (out & Hin & ?). exists out. split; [by right|done].
Qed.

(** What the last steps have seen, and what they report. *)
Record confirmed (lines : list host_line) (res : Result) : Prop := {
  conf_encryption : ∃ got, ((EncryptStatus, Ok got) ∈ lines) ∧ ExitStatus got = 0%Z ∧
    SecretsEncryption res = encryptionStatus (Stdout got) ∧ EqualFold (SecretsEncryption res) "Enabled" = true;
  conf_audit : ∃ got, ((TestFile pathAuditLog, Ok got) ∈ lines) ∧ ExitStatus got = 0%Z;
  conf_kubeconfig : Contains (Kubeconfig res) (remote_server cfg) = true;
  conf_token : ServerURL cfg = "" → MatchString tokenRe (r_Token res) = true;
}.
Lemma confirmed_more l1 l2 res : confirmed l2 res → confirmed (l1 ++ l2) res.
Proof. intros [(g & ? & ?) (g' & ? & ?) ? ?]. split; [exists g|exists g'|done|done]; rewrite elem_of_app; auto. Qed.
Lemma after_ready_inv res tr res' :
  exec (after_ready cfg res) tr (Ok res') → confirmed (host_lines tr) res' ∧ Version res' = Version res.
Proof.
  unfold after_ready. rewrite exec_bind. intros (t1 & u1 & r1 & -> & H1 & Hk). destruct r1 as [r1|e]; [|by destruct Hk].
  apply exec_bind in Hk as (t2 & t3 & r2 & -> & H2 & H3). destruct r2 as [r2|e]; [|by destruct H3].
  assert (Hv : (∃ got, ((EncryptStatus, Ok got) ∈ host_lines t1) ∧ ExitStatus got = 0%Z ∧ SecretsEncryption r1 = encryptionStatus (Stdout got) ∧
      EqualFold (SecretsEncryption r1) "Enabled" = true) ∧ (∃ got, ((TestFile pathAuditLog, Ok got) ∈ host_lines t1) ∧ ExitStatus got = 0%Z) ∧
      Version r1 = Version res).
  { destruct H1 as (got & t4 & -> & Hk). cbn [prog_bind] in Hk. destruct got as [got|e]; [|by destruct Hk].
    case_decide as He; [by destruct Hk|]. cbv zeta in Hk. destruct (EqualFold _ _) eqn:Hf; [|by destruct Hk]. cbn [negb] in Hk.
    apply exec_bind in Hk as (t5 & t6 & p & -> & Ha & Hk). destruct p as [[]|e]; [|by destruct Hk..]. destruct Hk as [-> [= ->]].
    apply audit_log_inv in Ha as (out & Hin & Hz). split_and!; [| |done].
    - exists got. split_and!; [by left|lia|done|done].
    - exists out. split; [|done]. change (host_lines (Call (HRun EncryptStatus) (Ok got) :: t5 ++ [])) with ((EncryptStatus, Ok got) :: host_lines (t5 ++ [])).
      rewrite host_lines_app. right. apply elem_of_app. by left. }
  destruct Hv as ((g & Hg & Henc) & (g' & Hg' & Haud) & Hver).
  assert (Hkc : r2 = set_kubeconfig (Kubeconfig r2) r1 ∧ Contains (Kubeconfig r2) (remote_server cfg) = true).
  { destruct H2 as (got & t4 & -> & -> & Hr). destruct got as [got|e]; [|done]. case_decide; [done|]. cbv zeta in Hr.
    destruct (Contains _ _) eqn:Hc; [|done]. by injection Hr as ->. }
  destruct Hkc as [Hr2 Hkc].
  assert (Htok : res' = set_token (r_Token res') r2 ∧ (ServerURL cfg = "" → MatchString tokenRe (r_Token res') = true)).
  { unfold fetchToken in H3. case_decide as Hs.
    - destruct H3 as [_ [= ->]]. split; [by destruct r2|done].
    - destruct H3 as (got & t4 & -> & -> & Hr). destruct got as [got|e]; [|done]. case_decide; [done|]. cbv zeta in Hr.
      destruct (MatchString _ _) eqn:Hm; [|done]. by injection Hr as ->. }
  destruct Htok as [Hr' Htok]. rewrite !host_lines_app. split; [|by rewrite Hr', Hr2].
  split; [exists g|exists g'| |done]; rewrite ?elem_of_app; [| |by rewrite Hr'].
  - rewrite Hr', Hr2. by split; [left|].
  - by split; [left|].
Qed.

(** *** Files *)
Definition no_write (X : Set) (e : HostE X) : bool := match e with HRun (HWrite _ _ _) => false | _ => true end.
Lemma no_write_files {A} (p : prog HostE A) tr a fs fs' :
  calls_only no_write p → exec p tr a → host_runs fs (host_lines tr) fs' → fs' = fs.
Proof.
  intros Hp Hex. pose proof (calls_only_exec _ _ _ _ Hp Hex) as HF. clear Hp Hex. revert fs.
  induction HF as [|[X e x] tr Hc HF IH]; intros fs; [done|]. destruct e as [c|i|d]; [|exact (IH fs)..].
  change (host_lines (Call (HRun c) x :: tr)) with ((c, x) :: host_lines tr). intros (fs1 & Hs & Hr). apply IH in Hr as ->.
  destruct c; try done. by destruct Hs.
Qed.
Definition hardened (fs : gmap string (list ascii)) : Prop :=
  fs !! pathSysctl = Some sysctlConf ∧ fs !! pathAudit = Some auditYAML ∧ fs !! pathPSA = Some psaYAML ∧ fs !! pathConfig = Some (config_yaml cfg).

Lemma ensure_file_files p content mode res tr r fs fs' :
  exec (ensure_file p content mode res) tr (Ok r) → host_runs fs (host_lines tr) fs' → fs' !! p = Some content ∧ ∀ q, q ≠ p → fs' !! q = fs !! q.
Proof. destruct r as [b res']. intros [_ Hex]%ensure_file_inv. by eapply host_ensureFile_files. Qed.
Lemma prereqs_files res tr res' fs fs' :
  exec (applyHostPrereqs sysctlConf auditYAML psaYAML res) tr (Ok res') → host_runs fs (host_lines tr) fs' →
  fs' !! pathSysctl = Some sysctlConf ∧ fs' !! pathAudit = Some auditYAML ∧ fs' !! pathPSA = Some psaYAML.
Proof.
  unfold applyHostPrereqs. rewrite exec_bind. intros (t1 & t2 & r1 & -> & H1 & Hk) Hr. destruct r1 as [[b1 res1]|e]; [|by destruct Hk].
  apply exec_bind in Hk as (t3 & t4 & r2 & -> & H2 & Hk). destruct r2 as [[]|e]; [|by destruct Hk].
  apply exec_bind in Hk as (t5 & t6 & r3 & -> & H3 & Hk). destruct r3 as [[]|e]; [|by destruct Hk].
  apply exec_bind in Hk as (t7 & t8 & r4 & -> & H4 & Hk). destruct r4 as [r4|e]; [|by destruct Hk].
  apply exec_bind in Hk as (t9 & t10 & r5 & -> & H5 & Hk). destruct r5 as [r5|e]; [|by destruct Hk]. destruct Hk as [-> _].
  rewrite !host_lines_app in Hr. apply host_runs_app in Hr as (f1 & R1 & (f2 & R2 & (f3 & R3 & (f4 & R4 & (f5 & R5 & ->)%host_runs_app)%host_runs_app)%host_runs_app)%host_runs_app).
  assert (f2 = f1) as -> by (eapply no_write_files; [|exact H2|exact R2]; destruct (b1 || _); unfold run_ok, runOK; calls).
  assert (f3 = f1) as -> by (eapply no_write_files; [|exact H3|exact R3]; unfold run_ok, runOK; calls).
  destruct (ensure_file_files _ _ _ _ _ _ _ _ H1 R1) as [E1 _], (ensure_file_files _ _ _ _ _ _ _ _ H4 R4) as [E4 K4],
    (ensure_file_files _ _ _ _ _ _ _ _ H5 R5) as [E5 K5].
  split_and!; [rewrite K5, K4 by done; done|by rewrite K5 by done|done].
Qed.
Lemma converge_files tr res fs fs' :
  exec (converge sysctlConf auditYAML psaYAML cfg) tr (Ok res) → host_runs fs (host_lines tr) fs' → hardened fs'.
Proof.
  intros (t1 & t2 & t3 & r1 & r2 & -> & H1 & H2 & H3)%converge_inv. rewrite !host_lines_app.
  intros (f1 & R1 & (f2 & R2 & R3)%host_runs_app)%host_runs_app. destruct (prereqs_files _ _ _ _ _ H2 R2) as (E1 & E2 & E3).
  unfold installOrConverge in H3. apply exec_bind in H3 as (u1 & u2 & w & -> & H3 & Hk). destruct w as [[b res1]|e]; [|by destruct Hk].
  rewrite host_lines_app in R3. apply host_runs_app in R3 as (f3 & R3 & R4). destruct (ensure_file_files _ _ _ _ _ _ _ _ H3 R3) as [E4 K4].
  assert (fs' = f3) as ->; [|split_and!; [by rewrite K4 by done..|done]].
  eapply no_write_files; [|exact Hk|exact R4]. cbv zeta. destruct (negb _ || _); [unfold run_ok, runOK; calls|]. destruct b; unfold run_ok, runOK; calls.
Qed.
End facts.

(** ** Nothing of the input reaches a shell or a file as syntax *)
Definition inert (c : ascii) : bool := is_alnum c || one_of "+/=._-" c.
(** What is put into a line's text. *)
Definition args (c : HostCmd) : list string :=
  match c with
  | HCat p | SysctlLoad p | MkdirPrivate p | TestFile p | AppArmorLoad p => [p]
  | HWrite p payload mode => [parent p; payload; p; mode]
  | InstallK3s v => [v]
  | Systemctl verb => [verb]
  | K3sVersion | GetNodes | EncryptStatus => []
  end.
Definition inert_string (s : string) : bool := forallb inert (bytes s).
Definition inert_line (l : host_line) : bool := forallb inert_string (args l.1).
Definition inert_call (X : Set) (e : HostE X) : bool := match e with HRun c => forallb inert_string (args c) | _ => true end.

Lemma inert_string_spec s : inert_string s = true ↔ Forall (λ c, inert c = true) (bytes s).
Proof. unfold inert_string. rewrite forallb_forall, Forall_forall. by setoid_rewrite list_elem_of_In. Qed.
Lemma std_encode_inert l : inert_string (of_bytes (std_encode l)) = true.
Proof.
  apply inert_string_spec. rewrite bytes_of_bytes. unfold std_encode. apply Forall_app. split.
  - rewrite raw_encode_sextets. apply Forall_fmap. eapply Forall_impl; [apply sextets_range|]. intros i Hi. cbv beta in Hi |- *.
    assert (Hall : forallb (λ n, inert (symbol std_alphabet (Z.of_nat n))) (seq 0 64) = true) by (vm_compute; reflexivity).
    rewrite forallb_forall in Hall. specialize (Hall (Z.to_nat i)). rewrite Z2Nat.id in Hall by lia. apply Hall, in_seq. lia.
  - unfold padding. by apply Forall_replicate.
Qed.
Lemma version_inert v : MatchString versionRe v = true → inert_string v = true.
Proof.
  intros Hv%MatchString_alphabet. apply inert_string_spec. eapply Forall_impl; [exact Hv|]. intros c Hc.
  assert (Hall : all_ascii (λ c, implb (alphabet versionRe c) (inert c)) = true) by (vm_compute; reflexivity).
  pose proof (all_ascii_forall _ Hall c) as Hi. cbv beta in Hi. by rewrite Hc in Hi.
Qed.

Section inert.
Context `{UnicodeTables} (dur : Z → string) (sysctlConf auditYAML psaYAML : list ascii) (cfg : Config).

Lemma ensureFile_inert pkg p content mode :
  inert_string p = true → inert_string (parent p) = true → inert_string mode = true → calls_only inert_call (ensureFile pkg p content mode).
Proof.
  intros Hp Hd Hm. unfold ensureFile, runOK. split; [cbn; by rewrite Hp|]. intros [cur|e]; [|done]. cbn [prog_bind].
  case_decide; [done|]. apply calls_only_bind; [|by intros [[]|e]]. split; [|done].
  cbn [inert_call args forallb]. by rewrite Hp, Hd, Hm, std_encode_inert.
Qed.
Lemma ensure_file_inert p content mode res :
  inert_string p = true → inert_string (parent p) = true → inert_string mode = true → calls_only inert_call (ensure_file p content mode res).
Proof. intros Hp Hd Hm. unfold ensure_file. apply calls_only_bind; [by apply ensureFile_inert|]. by intros [w|e]. Qed.
Lemma converge_inert : MatchString versionRe (version cfg) = true → calls_only inert_call (converge sysctlConf auditYAML psaYAML cfg).
Proof.
  intros Hv%version_inert. unfold converge. apply calls_only_bind; [unfold detectInstalled; calls|]. intros [res|e]; [|done].
  apply calls_only_bind.
  { unfold applyHostPrereqs, run_ok, runOK. repeat first [calls_step | apply ensure_file_inert; reflexivity]. }
  clear res. intros [res|e]; [|done]. unfold installOrConverge. apply calls_only_bind; [by apply ensure_file_inert|].
  intros [[b res']|e]; [|done]. cbv zeta. destruct (negb _ || _).
  - apply calls_only_bind; [|by intros [[]|e]]. split; [|done]. cbn [inert_call args forallb]. by rewrite Hv.
  - destruct b; unfold run_ok, runOK; calls.
Qed.
Lemma wait_ready_inert fuel : calls_only inert_call (wait_ready dur cfg fuel).
Proof.
  induction fuel as [|fuel IH]; [done|]. cbn [wait_ready]. split; [done|]. intros got. cbn [prog_bind].
  destruct (enough _ _); [done|]. split; [done|]. intros tick. cbn [prog_bind]. by destruct tick.
Qed.
Lemma Bootstrap_inert fuel : calls_only inert_call (Bootstrap dur sysctlConf auditYAML psaYAML cfg fuel).
Proof.
  unfold Bootstrap. destruct (invalid_config cfg) eqn:Hv; [done|].
  assert (Hver : MatchString versionRe (version cfg) = true).
  { unfold invalid_config in Hv. destruct (MatchString hostRe _); [|done]. cbn [negb] in Hv. destruct (invalid_san _); [done|].
    by destruct (MatchString versionRe _). }
  apply calls_only_bind; [by apply converge_inert|]. intros [res|e]; [|done].
  apply calls_only_bind; [apply wait_ready_inert|]. intros [[[]|e]|]; [|done..].
  unfold after_ready, verify, fetchKubeconfig, fetchToken. cbn [audit_log]. calls.
Qed.

(** *** The file *)
Definition yaml_inert (s : string) : Prop := Forall (λ c, c ≠ byte 34 ∧ c ≠ byte 92 ∧ c ≠ newline) (bytes s).
(** The scalars that come from the caller. *)
Definition scalars : list string := (if decide (ServerURL cfg ≠ "") then [ServerURL cfg; Token cfg] else []) ++ [snapshotCron cfg] ++ tlsSANs cfg.

Lemma alphabet_yaml r s :
  all_ascii (λ c, implb (alphabet r c) (negb (one_of (of_bytes [byte 34; byte 92; newline]) c))) = true → MatchString r s = true → yaml_inert s.
Proof.
  intros Hall Hs%MatchString_alphabet. eapply Forall_impl; [exact Hs|]. intros c Hc.
  pose proof (all_ascii_forall _ Hall c) as Hi. cbv beta in Hi. rewrite Hc in Hi. cbn [implb] in Hi.
  split_and!; intros ->; vm_compute in Hi; done.
Qed.
Lemma invalid_san_None sans : invalid_san sans = None → Forall yaml_inert sans.
Proof.
  induction sans as [|s sans IH]; cbn [invalid_san]; [constructor|]. destruct (MatchString hostRe s) eqn:Hs; [|done].
  intros Hn. constructor; [|by apply IH]. apply (alphabet_yaml hostRe); [vm_compute; reflexivity|done].
Qed.
Lemma valid_scalars : invalid_config cfg = None → Forall yaml_inert scalars.
Proof.
  unfold invalid_config, invalid_join, scalars, tlsSANs. destruct (MatchString hostRe _) eqn:H1; [|done]. cbn [negb].
  destruct (invalid_san _) eqn:H2; [done|]. destruct (MatchString versionRe _); [|done]. cbn [negb].
  destruct (MatchString cronRe _) eqn:H3; [|done]. cbn [negb]. intros Hj.
  apply Forall_app. split; [|apply Forall_app; split; [constructor; [apply (alphabet_yaml cronRe); [vm_compute; reflexivity|done]|constructor]|
    constructor; [apply (alphabet_yaml hostRe); [vm_compute; reflexivity|done]|by apply invalid_san_None]]].
  destruct (decide (ServerURL cfg = "")) as [Hs|Hs]; [rewrite decide_False by naive_solver; constructor|].
  rewrite decide_True by done. destruct (MatchString serverURLRe _) eqn:H4; [|done]. cbn [negb] in Hj.
  case_decide; [done|]. destruct (MatchString tokenRe _) eqn:H5; [|done].
  constructor; [apply (alphabet_yaml serverURLRe); [vm_compute; reflexivity|done]|]. constructor; [apply (alphabet_yaml tokenRe); [vm_compute; reflexivity|done]|constructor].
Qed.
End inert.

Section lines.
Context `{UnicodeTables} (cfg : Config).

Lemma no_newline_literal s : forallb (λ d, negb (bool_decide (d = newline))) (bytes s) = true → newline ∉ bytes s.
Proof. apply not_in_literal. Qed.
Lemma quoted_line pre s :
  forallb (λ d, negb (bool_decide (d = newline))) (bytes pre) = true → yaml_inert s → newline ∉ bytes (pre +:+ quoted s).
Proof.
  intros Hpre%not_in_literal Hs Hin. unfold quoted in Hin. rewrite !bytes_app, !elem_of_app in Hin.
  assert (Hq : newline ∉ bytes dq) by (by apply not_in_literal). destruct Hin as [?|[?|[Hin|?]]]; [done|done| |done].
  unfold yaml_inert in Hs. rewrite Forall_forall in Hs. by destruct (Hs _ Hin) as (_ & _ & ?).
Qed.
Lemma literal_lines (l : list string) :
  forallb (λ s, forallb (λ d, negb (bool_decide (d = newline))) (bytes s)) l = true → Forall (λ s, newline ∉ bytes s) l.
Proof. rewrite forallb_forall. intros Hl. apply Forall_forall. intros s Hs%list_elem_of_In%Hl. by apply not_in_literal. Qed.
Lemma retention_line : newline ∉ bytes ("etcd-snapshot-retention: " +:+ pretty (snapshotRetention cfg)).
Proof.
  assert (Hpos : ∃ p, snapshotRetention cfg = Zpos p).
  { unfold snapshotRetention, DefaultSnapshotRetention. case_decide; [by exists 5%positive|].
    destruct (SnapshotRetention cfg) as [|p|p]; [lia|by exists p|lia]. }
  destruct Hpos as [p ->]. destruct (pretty_pos_digits p) as (_ & HF & _). rewrite bytes_app. intros Hin.
  apply elem_of_app in Hin as [Hin|Hin]; [by apply (not_in_literal newline "etcd-snapshot-retention: ")|].
  rewrite Forall_forall in HF. by specialize (HF _ Hin).
Qed.

Lemma config_lines_free : Forall yaml_inert (scalars cfg) → Forall (λ s, newline ∉ bytes s) (config_lines cfg).
Proof.
  unfold scalars. intros [Hj [Hc Hs]%Forall_app]%Forall_app. apply Forall_cons in Hc as [Hc _].
  unfold config_lines, config_head, config_hardening. rewrite !Forall_app. split_and!.
  - apply literal_lines. vm_compute. reflexivity.
  - case_decide; [|apply literal_lines; vm_compute; reflexivity]. apply Forall_cons in Hj as [Hu Hj]. apply Forall_cons in Hj as [Ht _].
    constructor; [by apply not_in_literal|]. constructor; [by apply quoted_line|]. constructor; [by apply quoted_line|constructor].
  - constructor; [by apply not_in_literal|]. constructor; [by apply not_in_literal|]. constructor; [by apply not_in_literal|].
    constructor; [by apply not_in_literal|]. constructor; [by apply not_in_literal|].
    constructor; [by apply quoted_line|]. constructor; [apply retention_line|]. constructor; [by apply not_in_literal|constructor].
  - apply Forall_fmap. eapply Forall_impl; [exact Hs|]. intros s Hi. by apply quoted_line.
  - apply literal_lines. vm_compute. reflexivity.
Qed.
Lemma config_yaml_lines :
  Forall yaml_inert (scalars cfg) → Split (of_bytes (config_yaml cfg)) newline = config_lines cfg ++ [""].
Proof.
  intros Hs. unfold config_yaml. rewrite of_bytes_bytes. apply Split_Join_terminated; [|by apply config_lines_free].
  unfold config_lines, config_head. by destruct (decide _).
Qed.
End lines.

(** ** What a bootstrap guarantees *)
Section guarantees.
Context `{UnicodeTables} (dur : Z → string) (sysctlConf auditYAML psaYAML : list ascii) (cfg : Config).

(** When k3s is touched.  A successful bootstrap does at most one thing to the service,
    and which one follows from the version found, from whether [config.yaml] was what it
    should be, and from whether the service ran: install, restart, start or nothing.
    Nothing else counts, so an audit policy or an admission configuration that is rewritten
    on an up-to-date node leaves k3s running on the old one. *)
Lemma service_action_exact fuel tr res :
  exec (Bootstrap dur sysctlConf auditYAML psaYAML cfg fuel) tr (Some (Ok res)) →
  ∃ probe, ((K3sVersion, Ok probe) ∈ host_lines tr) ∧ service_step cfg (probed probe) (host_lines tr) (actions (host_lines tr)).
Proof.
  intros (_ & t1 & t2 & t3 & r1 & -> & H1 & H2 & H3)%Bootstrap_inv. rewrite !host_lines_app, !actions_app.
  rewrite (no_action_lines _ _ _ (wait_ready_quiet dur cfg fuel) H2), (no_action_lines _ _ _ (after_ready_quiet cfg r1) H3), !app_nil_r.
  apply converge_inv in H1 as (u1 & u2 & u3 & q1 & q2 & -> & Hd & Hp & Hi). rewrite !host_lines_app, !actions_app.
  rewrite (no_action_lines _ _ _ (detect_quiet _) Hd), (no_action_lines _ _ _ (prereqs_quiet _ _ _ _) Hp). cbn [app].
  apply detect_inv in Hd as (probe & Hl & ->). apply prereqs_keep in Hp as [Hai Hver].
  apply installOrConverge_step in Hi as [Hs _]. exists probe. split; [rewrite Hl, !elem_of_app; left; left; by left|].
  assert (Hdet : detected q2 = probed probe) by (unfold detected; rewrite Hai, Hver; by destruct (probed probe)).
  rewrite Hdet in Hs. rewrite <- !app_assoc. rewrite app_assoc. by apply service_step_more.
Qed.
Lemma bootstrap_files fuel tr res fs fs' :
  exec (Bootstrap dur sysctlConf auditYAML psaYAML cfg fuel) tr (Some (Ok res)) → host_runs fs (host_lines tr) fs' →
  hardened sysctlConf auditYAML psaYAML cfg fs'.
Proof.
  intros (_ & t1 & t2 & t3 & r1 & -> & H1 & H2 & H3)%Bootstrap_inv. rewrite !host_lines_app.
  intros (f1 & R1 & (f2 & R2 & R3)%host_runs_app)%host_runs_app. pose proof (converge_files _ _ _ _ _ _ _ _ H1 R1) as Hf.
  assert (f2 = f1) as ->.
  { eapply no_write_files; [|exact H2|exact R2]. clear. induction fuel as [|fuel IH]; [done|]. cbn [wait_ready]. split; [done|].
    intros got. cbn [prog_bind]. destruct (enough _ _); [done|]. split; [done|]. intros tick. cbn [prog_bind]. by destruct tick. }
  assert (fs' = f1) as ->; [|done].
  eapply no_write_files; [|exact H3|exact R3]. unfold after_ready, verify, fetchKubeconfig, fetchToken. cbn [audit_log]. calls.
Qed.

(** C18. A bootstrap that reports success leaves a hardened server.  The version the probe
    printed was the wanted one, or the installer of the wanted version was run and its
    pipeline exited 0; beyond that exactly one line, or none, touched the service, as the
    state of [config.yaml] and of the service asks, and it exited 0.  Enough nodes were seen
    Ready, at-rest encryption was reported enabled and the audit log found; the kubeconfig
    points at the node; a first server yields a token of the shape a joining one accepts;
    and the four hardening files hold exactly what this release ships, whatever was there
    before.  That the node then runs the wanted version is not claimed: the code does not
    look again, and the exit status of the pipeline is that of its shell. *)
Theorem bootstrap_hardened fuel tr res fs fs' :
  exec (Bootstrap dur sysctlConf auditYAML psaYAML cfg fuel) tr (Some (Ok res)) → host_runs fs (host_lines tr) fs' →
  (∃ probe, ((K3sVersion, Ok probe) ∈ host_lines tr) ∧ service_step cfg (probed probe) (host_lines tr) (actions (host_lines tr))) ∧
  confirmed cfg (host_lines tr) res ∧ hardened sysctlConf auditYAML psaYAML cfg fs' ∧
  ∃ got, ((GetNodes, Ok got) ∈ host_lines tr) ∧ ExitStatus got = 0%Z ∧ (minReadyNodes cfg ≤ countReady (Stdout got))%Z.
Proof.
  intros Hex Hr. split; [by eapply service_action_exact|]. split_and!; [|by eapply bootstrap_files|].
  all: apply Bootstrap_inv in Hex as (_ & t1 & t2 & t3 & r1 & -> & H1 & H2 & H3); rewrite !host_lines_app.
  - apply after_ready_inv in H3 as [Hc _]. by do 2 apply confirmed_more.
  - apply wait_ready_inv in H2 as (got & Hin & He & Hn). exists got. rewrite !elem_of_app. auto.
Qed.

(** C31. Input stays data.  Whatever the configuration holds and the node answers, nothing
    put into a line sent to the node's shell has a character the shell gives a meaning; and
    when the configuration is accepted, the file rendered from it has exactly the lines of
    the template, each given value a scalar that cannot leave its quotes. *)
Theorem input_stays_data fuel tr out :
  exec (Bootstrap dur sysctlConf auditYAML psaYAML cfg fuel) tr out →
  Forall (λ l, inert_line l = true) (host_lines tr) ∧
  (invalid_config cfg = None →
   Split (of_bytes (config_yaml cfg)) newline = config_lines cfg ++ [""] ∧ Forall yaml_inert (scalars cfg)).
Proof.
  intros Hex. split.
  - pose proof (calls_only_exec _ _ _ _ (Bootstrap_inert dur sysctlConf auditYAML psaYAML cfg fuel) Hex) as HF. clear Hex.
    induction HF as [|[X e x] tr Hc HF IH]; [constructor|]. destruct e; try exact IH.
    change (host_lines (Call (HRun c) x :: tr)) with ((c, x) :: host_lines tr). by constructor.
  - intros Hv%valid_scalars. split; [by apply config_yaml_lines|done].
Qed.
End guarantees.
