(* ===== verification/NodePrep.v ===== *)
(** * The AppArmor profile of build pods

    [internal/nodeprep/apparmor.go]: [EnsureAppArmorProfile] over a host ([Host.v]) and the
    check that verifies a load.  The embedded profile is an argument; log lines are left
    out. *)
From S2P Require Import Prelude Regex GoStrings Effects Sha256 Kube RateLimit Credentials ApiServer GitHubApp PlatformSecrets.
From S2P Require Import Net InstallNode Host.
From Stdlib Require Import Ascii.

Definition ProfileName : string := "orkano-buildkit".
Definition IDAppArmorProfileLoaded : string := "build.apparmor-profile-loaded".
Definition profilePath : string := "/etc/apparmor.d/" +:+ ProfileName.
Definition profilesFile : string := "/sys/kernel/security/apparmor/profiles".
Definition modeEnforce : string := "enforce".

Record Prepared : Type := { np_Changed : bool; np_Mode : string }.

(** [strings.LastIndex(line, " (")] *)
Fixpoint last_paren (l : list ascii) : option nat :=
  match l with
  | [] => None
  | c :: l' =>
      match last_paren l' with
      | Some i => Some (S i)
      | None => if decide (c = " "%char ∧ head l' = Some "("%char) then Some 0%nat else None
      end
  end.
(** [(mode, loaded)] *)
Fixpoint mode_of (lines : list string) (name : string) : string * bool :=
  match lines with
  | [] => ("", false)
  | line :: lines =>
      let line := TrimSpace line in
      match last_paren (bytes line) with
      | Some open =>
          if HasSuffix line ")" && bool_decide (slice_to open line = name) then
            (of_bytes (drop (open + 2) (take (len line - 1) (bytes line))), true)
          else mode_of lines name
      | None => mode_of lines name
      end
  end.
Definition profileMode (list name : string) : string * bool := mode_of (Split list newline) name.

Section prep.
Context `{UnicodeTables} (apparmorProfile : list ascii).

Definition unreadable (pre : string) (res : RunResult) : string := pre +:+ firstLine (Stderr res).
Definition queryProfile : prog HostE (result string (string * bool)) :=
  let! res := trigger (HRun (HCat profilesFile)) in
  Ret (match res with
       | Err e => Err ("nodeprep: read AppArmor profiles: " +:+ e)
       | Ok res =>
           if decide (ExitStatus res ≠ 0%Z) then
             Err (unreadable ("nodeprep: cannot read " +:+ profilesFile +:+ " (is AppArmor enabled on this node?): ") res)
           else Ok (profileMode (Stdout res) ProfileName)
       end).

(** The verdict on what was read last. *)
Definition conclude (changed : bool) (mode : string) (loaded : bool) : result string Prepared :=
  if negb loaded then
    Err ("nodeprep: AppArmor profile " +:+ ProfileName +:+ " is not loaded after apparmor_parser; is AppArmor enabled on this node?")
  else if decide (mode ≠ modeEnforce) then
    Err ("nodeprep: AppArmor profile " +:+ ProfileName +:+ " loaded in " +:+ Quote mode +:+ " mode, want enforce")
  else Ok {| np_Changed := changed; np_Mode := mode |}.
Definition EnsureAppArmorProfile : prog HostE (result string Prepared) :=
  try! wrote := ensureFile "nodeprep" profilePath apparmorProfile "0644" in
  try! q := queryProfile in
  if wrote || negb q.2 || negb (bool_decide (q.1 = modeEnforce)) then
    try! _ := runOK "nodeprep" (AppArmorLoad profilePath) "load AppArmor profile" in
    try! q := queryProfile in
    Ret (conclude true q.1 q.2)
  else Ret (conclude false q.1 q.2).

(** The probe of [AppArmorProfileLoadedCheck]: [Err] is an error, otherwise whether it passes, and the message. *)
Definition profile_probe : prog HostE (result string (bool * string)) :=
  let! res := trigger (HRun (HCat profilesFile)) in
  Ret (match res with
       | Err e => Err ("read AppArmor profiles: " +:+ e)
       | Ok res =>
           if decide (ExitStatus res ≠ 0%Z) then
             Err (unreadable ("cannot read " +:+ profilesFile +:+ " (is AppArmor enabled and securityfs readable?): ") res)
           else
             let '(mode, loaded) := profileMode (Stdout res) ProfileName in
             if negb loaded then Ok (false, "AppArmor profile " +:+ ProfileName +:+ " is not loaded; build pods confined by it cannot start")
             else if decide (mode ≠ modeEnforce) then
               Ok (false, "AppArmor profile " +:+ ProfileName +:+ " is loaded but in " +:+ Quote mode +:+ " mode, not enforce")
             else Ok (true, "AppArmor profile " +:+ ProfileName +:+ " loaded (enforce)")
       end).

(** ** What a successful preparation has seen *)
Lemma query_inv tr q :
  exec queryProfile tr (Ok q) → ∃ got, host_lines tr = [(HCat profilesFile, Ok got)] ∧ ExitStatus got = 0%Z ∧ q = profileMode (Stdout got) ProfileName.
Proof.
  intros (got & t1 & -> & -> & Hr). destruct got as [got|e]; [|done]. case_decide as He; [done|]. injection Hr as ->.
  exists got. split_and!; [done|lia|done].
Qed.
Lemma conclude_Ok changed mode loaded r : conclude changed mode loaded = Ok r → loaded = true ∧ mode = modeEnforce ∧ r = {| np_Changed := changed; np_Mode := modeEnforce |}.
Proof.
  unfold conclude. destruct loaded; [|done]. cbn [negb]. case_decide as Hm; [done|]. intros [= <-].
  assert (mode = modeEnforce) as -> by (by destruct (decide (mode = modeEnforce))). done.
Qed.

(** A node that is accepted confines its builds.  When the profile step succeeds, the
    last thing it read is the kernel's own list, with the profile in enforce mode, and a
    profile file that was written was loaded between the write and that reading. *)
Theorem profile_enforced tr r :
  exec EnsureAppArmorProfile tr (Ok r) →
  np_Mode r = modeEnforce ∧ ∃ lines got, host_lines tr = lines ++ [(HCat profilesFile, Ok got)] ∧
    ExitStatus got = 0%Z ∧ profileMode (Stdout got) ProfileName = (modeEnforce, true) ∧
    (∀ before payload mode x after, lines = before ++ (HWrite profilePath payload mode, x) :: after →
       ∃ y, ((AppArmorLoad profilePath, y) ∈ after) ∧ succeeded y = true).
Proof.
  unfold EnsureAppArmorProfile. rewrite exec_bind. intros (t1 & u1 & w & -> & H1 & Hk). destruct w as [wrote|e]; [|by destruct Hk].
  apply exec_bind in Hk as (t2 & u2 & q & -> & H2 & Hk). destruct q as [q|e]; [|by destruct Hk].
  apply query_inv in H2 as (g2 & L2 & E2 & ->). apply host_ensureFile_inv in H1 as (cur & _ & H1).
  destruct (wrote || _ || _) eqn:Hneed.
  - apply exec_bind in Hk as (t3 & u3 & l & -> & (y & L3 & Hy)%host_runOK_inv & Hk). destruct l as [[]|e]; [|by destruct Hk].
    apply exec_bind in Hk as (t4 & u4 & q & -> & H4 & Hk). destruct q as [q|e]; [|by destruct Hk].
    apply query_inv in H4 as (g4 & L4 & E4 & ->). destruct Hk as [-> Hc]. symmetry in Hc. apply conclude_Ok in Hc as (Hl & Hm & ->).
    split; [done|]. rewrite !host_lines_app, L2, L3, L4. exists (host_lines t1 ++ [(HCat profilesFile, Ok g2); (AppArmorLoad profilePath, y)]), g4.
    split_and!; [by rewrite <- app_assoc|done|by rewrite (surjective_pairing (profileMode _ _)), Hl, Hm|].
    intros before payload mode x after Heq. exists y. split; [|by rewrite <- Hy].
    assert (Hin : (AppArmorLoad profilePath, y) ∈ after); [|done].
    apply (f_equal last) in Heq as Hlast. rewrite last_app in Hlast. cbn [last] in Hlast.
    destruct after as [|z after] using rev_ind; [by rewrite last_snoc in Hlast|].
    rewrite app_comm_cons, app_assoc, last_snoc in Hlast. injection Hlast as <-. apply elem_of_app. right. by left.
  - apply orb_false_iff in Hneed as [Hneed _]. apply orb_false_iff in Hneed as [-> _].
    destruct Hk as [-> Hc]. symmetry in Hc. apply conclude_Ok in Hc as (Hl & Hm & ->). split; [done|].
    destruct H1 as [(_ & L1 & _)|(? & _)]; [|done]. rewrite !host_lines_app, L1, L2.
    exists [(HCat profilePath, Ok cur)], g2. split_and!; [done|done|by rewrite (surjective_pairing (profileMode _ _)), Hl, Hm|].
    intros before payload mode x after Heq. exfalso. destruct before as [|b [|b' before]]; by inversion Heq.
Qed.
End prep.
