(* ===== verification/InitFlow.v ===== *)
(** * [orkano init]

    [cli/internal/cmd/init.go]: the run that brings up a cluster, over SSH ([runInit]) or on
    the machine itself ([runInitLocal]).  It puts together the bootstrap of k3s ([K3s.v]),
    the AppArmor step ([NodePrep.v]), the installer ([Install.v]) and the registry wiring
    ([InstallRegistry.v]): their calls become calls at a connection, which is a node's
    address, the user and the host key pinned for it.  Dialling, scanning host keys, files,
    the preflight run and what is printed are calls of their own; flags are read elsewhere,
    and the progress lines of the parts are left out as they are there. *)
From S2P Require Import Prelude Regex GoStrings RepoAllowlist Effects Sha256 Kube Features RateLimit Credentials ApiServer PlatformSecrets.
From S2P Require Import Net InstallNode Install InstallRegistry Host NodePrep K3s.
From Stdlib Require Import Ascii.

Inductive Conn : Set :=
| Local
| Ssh (addr user hostKey : string).
#[export] Instance Conn_eq_dec : EqDecision Conn.
Proof. solve_decision. Defined.

Inductive InitE : Set → Type :=
| AtHost (c : Conn) {X : Set} (e : HostE X) : InitE X
| AtNode (c : Conn) {X : Set} (e : NodeE X) : InitE X
| ReadFile (path : string) : InitE (result string string)
| WriteFile (path content mode : string) : InitE (option string)
| ScanHostKey (addr : string) : InitE (result string string)
(** [ssh.New]: the error of a client that cannot be configured *)
| NewClient (c : Conn) (privateKey : string) : InitE (option string)
(** [runPreflight]: the reason to refuse *)
| RunPreflight (c : Conn) (target : string) (sudo : bool) : InitE (option string)
| Geteuid : InitE Z
| LocalAddress : InitE (result string string)
(** standard output and standard error *)
| Out (text : string) : InitE unit
| Say (text : string) : InitE unit.

Record initOptions : Type := {
  o_version : string; o_nodes : list string; o_sshUser : string; o_sshPort : Z; o_sshKeyPath : string;
  o_hostKeyPaths : list string; o_acceptNewKey : bool; o_k3sVersion : string; o_kubeconfig : string; o_readyTimeout : Z;
  o_skipPreflight : bool; o_acmeEmail : string; o_acmeProd : bool; o_allowRepos : list string; o_unsafeFeatures : list string;
  o_receiverHost : string; o_secretsVault : bool; o_local : bool;
}.
Definition set_unsafe (fs : list string) (o : initOptions) : initOptions :=
  {| o_version := o_version o; o_nodes := o_nodes o; o_sshUser := o_sshUser o; o_sshPort := o_sshPort o; o_sshKeyPath := o_sshKeyPath o;
     o_hostKeyPaths := o_hostKeyPaths o; o_acceptNewKey := o_acceptNewKey o; o_k3sVersion := o_k3sVersion o; o_kubeconfig := o_kubeconfig o;
     o_readyTimeout := o_readyTimeout o; o_skipPreflight := o_skipPreflight o; o_acmeEmail := o_acmeEmail o; o_acmeProd := o_acmeProd o;
     o_allowRepos := o_allowRepos o; o_unsafeFeatures := fs; o_receiverHost := o_receiverHost o; o_secretsVault := o_secretsVault o;
     o_local := o_local o |}.

(** ** Programs that may run out of fuel or fail *)
Abbreviation init A := (prog InitE (option (result string A))).
Definition fail {A} (e : string) : init A := Ret (Some (Err e)).
Definition done_ {A} (a : A) : init A := Ret (Some (Ok a)).
Definition andThen {A B} (p : init A) (f : A → init B) : init B :=
  prog_bind p (λ r, match r with None => Ret None | Some (Err e) => Ret (Some (Err e)) | Some (Ok a) => f a end).
Notation "'step!' x := p 'in' k" := (andThen p (λ x, k)) (at level 10, x binder, p at level 200, k at level 200) : prog_scope.
Definition note (pre : string) {A} (r : result string A) : result string A := match r with Err e => Err (pre +:+ ": " +:+ e) | Ok a => Ok a end.
(** [fmt.Errorf(pre + ": %w", err)] around what fails *)
Definition wrap (pre : string) {A} (p : init A) : init A := prog_bind p (λ r, Ret (note pre <$> r)).
Definition total {A} (p : prog InitE (result string A)) : init A := prog_bind p (λ r, Ret (Some r)).
Definition unless (pre : string) (p : prog InitE (option string)) : init unit :=
  prog_bind p (λ r, match r with Some e => fail (pre +:+ e) | None => done_ tt end).
Definition say (text : string) : init unit := prog_bind (trigger (Say text)) (λ _, done_ tt).
Fixpoint out_all (texts : list string) : prog InitE unit :=
  match texts with
  | [] => Ret tt
  | t :: texts => let! _ := trigger (Out t) in out_all texts
  end.
Definition at_host (c : Conn) {A} (p : prog HostE A) : prog InitE A := lift (λ X (e : HostE X), AtHost c e) p.
Definition at_node (c : Conn) {A} (p : prog NodeE A) : prog InitE A := lift (λ X (e : NodeE X), AtNode c e) p.

(** ** Small parts *)
Definition line (text : string) : string := text +:+ nl.
(** [net.JoinHostPort] *)
Definition JoinHostPort (host port : string) : string :=
  if Contains host ":" || Contains host "%" then "[" +:+ host +:+ "]:" +:+ port else host +:+ ":" +:+ port.
Definition node_addr (opt : initOptions) (node : string) : string := JoinHostPort node (pretty (o_sshPort opt)).
Definition use_sudo (opt : initOptions) : bool := negb (bool_decide (o_sshUser opt = "root")).

Fixpoint others_from (i skip : nat) (nodes : list string) : list string :=
  match nodes with
  | [] => []
  | n :: nodes => if decide (i = skip) then others_from (S i) skip nodes else n :: others_from (S i) skip nodes
  end.
Definition otherNodes (nodes : list string) (skip : nat) : list string := others_from 0 skip nodes.
Fixpoint first_seen_twice (seen nodes : list string) : string :=
  match nodes with
  | [] => ""
  | n :: nodes => if decide (n ∈ seen) then n else first_seen_twice (n :: seen) nodes
  end.
Definition firstDuplicate (nodes : list string) : string := first_seen_twice [] nodes.
Definition readinessTargets (opt : initOptions) : list Workload :=
  DefaultReadinessTargets ++ (if o_secretsVault opt then SecretsVaultReadinessTargets else []).
Definition presentLabel (present : bool) : string := if present then "enabled" else "not found".

(** ** What is printed *)
Definition printBootstrapTokenRecovery (kubeconfig : string) : string :=
  nl +:+ line "Bootstrap token already generated on a previous run (not shown again)." +:+
  line "If that first run failed before you copied it, the plaintext token cannot be recovered" +:+
  line "because only its sha256 hash is stored. Mint a new one:" +:+ nl +:+ line ("  orkano bootstrap-token --kubeconfig " +:+ kubeconfig).
Definition after_failure (token : string) : string :=
  nl +:+ line "Bootstrap token (shown once; store it now):" +:+ line ("  " +:+ token) +:+
  line "The install hit an error after creating this token. Re-run `orkano init` after fixing the error;" +:+
  line "this token will not be shown again, but it will work once the dashboard is ready.".
Definition printBootstrapTokenAfterFailure (token : string) : prog InitE unit :=
  if decide (token = "") then Ret tt else let! _ := trigger (Out (after_failure token)) in Ret tt.
Definition shown_once (token more : string) : string :=
  nl +:+ line "Bootstrap token (shown once; store it now):" +:+ line ("  " +:+ token) +:+ line ("Redeem it at first dashboard login to create the admin account" +:+ more).

Definition headline (where_ : string) (res : Result) (fresh changed : bool) : string :=
  line (if fresh then "Installed k3s " +:+ Version res +:+ " on " +:+ where_ +:+ "."
        else if changed then "Converged k3s " +:+ Version res +:+ " on " +:+ where_ +:+ "."
        else "k3s " +:+ Version res +:+ " on " +:+ where_ +:+ " is already up to date.").
Definition hardening_lines (res : Result) : list string :=
  [line ("  secrets encryption: " +:+ SecretsEncryption res); line ("  audit logging:      " +:+ presentLabel (AuditLogPresent res));
   line ("  build confinement:  AppArmor " +:+ ProfileName +:+ " (enforce)")].
Definition option_lines (opt : initOptions) : list string :=
  (if o_secretsVault opt then [line "  secrets vault:      External Secrets Operator deployed (connect a store from the dashboard)"] else []) ++
  (if decide (o_unsafeFeatures opt = []) then [] else [line ("  UNSAFE features:    " +:+ Join (o_unsafeFeatures opt) ", " +:+ " (enabled by explicit opt-in)")]) ++
  [if decide (o_receiverHost opt ≠ "") then line ("  receiver:           https://" +:+ o_receiverHost opt)
   else line "  receiver:           cluster-internal (set --receiver-host to expose it)";
   line ("  kubeconfig:         " +:+ o_kubeconfig opt)].
Definition summary (opt : initOptions) (first : string) (res : Result) (anyFresh anyChanged : bool) (token : string) : list string :=
  let several := 1 <? length (o_nodes opt) in
  [nl; headline first res anyFresh anyChanged] ++ hardening_lines res ++
  (if several then [line ("  servers:            " +:+ pretty (length (o_nodes opt)) +:+ " (HA, embedded etcd)")] else []) ++
  [line "  components:         deployed"; line "  registry:           wired on every node"] ++ option_lines opt ++
  (if several then
     [nl +:+ line ("The kubeconfig points at the first server (" +:+ first +:+ "). The cluster keeps serving") +:+
      line "if another server fails, but API access through this kubeconfig needs the" +:+
      line "first server reachable; for failure-tolerant access put a load balancer in" +:+
      line "front of all servers and re-point the kubeconfig at it."] else []) ++
  [if decide (token ≠ "") then shown_once token " (Phase 2)." else printBootstrapTokenRecovery (o_kubeconfig opt);
   nl +:+ line ("Try it: KUBECONFIG=" +:+ o_kubeconfig opt +:+ " kubectl get nodes")].
Definition local_summary (opt : initOptions) (res : Result) (fresh changed : bool) (token addr : string) : list string :=
  [nl; headline ("this machine (" +:+ addr +:+ ")") res fresh changed] ++ hardening_lines res ++
  [line "  nodes:              1 (single node, not highly available)"; line "  components:         deployed"; line "  registry:           wired"] ++
  option_lines opt ++
  [if decide (token ≠ "") then shown_once token "." else printBootstrapTokenRecovery "/etc/rancher/k3s/k3s.yaml";
   nl +:+ line "Reach the dashboard. It is private, never exposed to the internet." +:+
   line "From your laptop, open one SSH tunnel that also port-forwards it:" +:+ nl +:+
   line ("  ssh -L 9090:127.0.0.1:9090 root@" +:+ addr +:+ " \") +:+
   line "    '/usr/local/bin/k3s kubectl -n orkano-system port-forward --address 127.0.0.1 svc/orkano-dashboard 9090:80'" +:+ nl +:+
   line "then open http://localhost:9090 and redeem the bootstrap token above." +:+
   line "(Connecting as a non-root user? Prefix the remote command with sudo.)";
   nl +:+ line "This is a single node: if it fails, the cluster is down. For high" +:+
   line "availability, install three servers over SSH instead:" +:+ line "  orkano init --node A --node B --node C --ssh-key <key>"].

(** ** The run *)
Section init.
Context `{UnicodeTables} {lib : InstallLib} (emb : Embedded) (sysctlConf auditYAML psaYAML apparmorProfile : list ascii).
Context (pem_type : list ascii → option string) (FingerprintSHA256 : string → result string string) (fuel : nat).

Definition normalizeUnsafeFeatures (opt : initOptions) : result string initOptions :=
  match ParseFeatures (o_unsafeFeatures opt) with
  | Err e => Err ("--enable-unsafe-feature: " +:+ feature_text e)
  | Ok enabled => let csv := CSV enabled in Ok (set_unsafe (if decide (csv = "") then [] else Split csv ","%char) opt)
  end.

Definition resolveHostKey (addr hostKeyPath : string) (acceptNew : bool) : init string :=
  if decide (hostKeyPath ≠ "") then
    let! key := trigger (ReadFile hostKeyPath) in Ret (Some (note "read host key" key))
  else
    step! scanned := (let! k := trigger (ScanHostKey addr) in Ret (Some (note "scan host key" k))) in
    step! fp := Ret (Some (note "fingerprint host key" (FingerprintSHA256 scanned))) in
    if negb acceptNew then
      fail ("host key for " +:+ addr +:+ " is not trusted (fingerprint " +:+ fp +:+ ")" +:+ nl +:+
            "verify it out of band, then re-run with --accept-new-host-key, or pass --ssh-host-key <file>")
    else
      step! _ := say (line ("Trusting host key for " +:+ addr +:+ " (fingerprint " +:+ fp +:+ ")")) in
      done_ scanned.

Definition connect (opt : initOptions) (privateKey node hostKey : string) : init Conn :=
  let c := Ssh (node_addr opt node) (o_sshUser opt) hostKey in
  step! _ := unless ("configure SSH client for " +:+ node +:+ ": ") (trigger (NewClient c privateKey)) in
  done_ c.

(** What is done to one machine before there is a cluster. *)
Definition bootstrap_at (opt : initOptions) (c : Conn) (target : string) (cfg : Config) : init Result :=
  step! _ := (if o_skipPreflight opt then done_ tt else unless "" (trigger (RunPreflight c target (c_Sudo cfg)))) in
  step! _ := say (line ("Bootstrapping k3s on " +:+ target +:+ "...")) in
  at_host c (Bootstrap duration_text sysctlConf auditYAML psaYAML cfg fuel).
Definition bootstrapNode (opt : initOptions) (privateKey node hostKeyPath : string) (cfg : Config) : init (Result * string * bool) :=
  step! hostKey := resolveHostKey (node_addr opt node) hostKeyPath (o_acceptNewKey opt) in
  step! c := connect opt privateKey node hostKey in
  let target := o_sshUser opt +:+ "@" +:+ node in
  step! res := bootstrap_at opt c target cfg in
  step! _ := say (line ("Loading build confinement profile on " +:+ target +:+ "...")) in
  step! np := wrap ("load AppArmor profile on " +:+ node) (total (at_host c (EnsureAppArmorProfile apparmorProfile))) in
  done_ (res, hostKey, np_Changed np).

Definition k3s_config (opt : initOptions) (i : nat) (node serverURL token : string) : Config :=
  {| NodeAddress := node; ExtraTLSSANs := otherNodes (o_nodes opt) i; ServerURL := serverURL; Token := token; MinReadyNodes := Z.of_nat i + 1;
     K3sVersion_ := o_k3sVersion opt; SnapshotCron := ""; SnapshotRetention := 0; c_Sudo := use_sudo opt; ReadyTimeout := o_readyTimeout opt |}.

(** The state of the loop over nodes. *)
Record progress : Type := { p_first : option Result; p_hostKeys : list string; p_serverURL : string; p_token : string; p_changed : bool; p_fresh : bool }.
Definition no_progress : progress := {| p_first := None; p_hostKeys := []; p_serverURL := ""; p_token := ""; p_changed := false; p_fresh := false |}.
Definition advance (i : nat) (node : string) (res : Result) (hostKey : string) (apparmorChanged : bool) (p : progress) : progress :=
  let first := bool_decide (i = 0%nat) in
  {| p_first := if first then Some res else p_first p;
     p_hostKeys := p_hostKeys p ++ [hostKey];
     p_serverURL := if first then "https://" +:+ node +:+ ":6443" else p_serverURL p;
     p_token := if first then r_Token res else p_token p;
     p_changed := p_changed p || Changed res || apparmorChanged;
     p_fresh := p_fresh p || negb (AlreadyInstalled res) |}.
Fixpoint bootstrap_all (opt : initOptions) (privateKey : string) (i : nat) (nodes : list string) (p : progress) : init progress :=
  match nodes with
  | [] => done_ p
  | node :: nodes =>
      let hostKeyPath := default "" (o_hostKeyPaths opt !! i) in
      step! r := wrap ("bootstrap " +:+ node) (bootstrapNode opt privateKey node hostKeyPath (k3s_config opt i node (p_serverURL p) (p_token p))) in
      bootstrap_all opt privateKey (S i) nodes (advance i node r.1.1 r.1.2 r.2 p)
  end.

(** Deploying the components: the token to show, and the error. *)
Definition install_config (opt : initOptions) (sudo : bool) : InstallConfig :=
  {| ic_AutoDeployDir := ""; ic_Version := o_version opt; ic_ACMEEmail := o_acmeEmail opt; ic_ACMEProd := o_acmeProd opt;
     ic_RepoAllowlist := o_allowRepos opt; ic_UnsafeFeatures := o_unsafeFeatures opt; ic_ReceiverHost := o_receiverHost opt;
     ic_SecretsVault := o_secretsVault opt; ic_ReadinessTargets := readinessTargets opt; ic_WaitTimeout := 0;
     ic_RestartReadyTimeout := 0; ic_Sudo := sudo |}.
Definition deployed (o : outcome) : option (string * option string) :=
  match o with
  | OutOfFuel => None
  | Done (Some res) err => Some (ir_BootstrapToken res, err)
  | Done None err => Some ("", err)
  end.
Definition deploy_at (opt : initOptions) (c : Conn) (sudo : bool) : prog InitE (option (string * option string)) :=
  let! o := at_node c (Apply emb fuel (install_config opt sudo)) in Ret (deployed o).
Definition deployOnNode0 (opt : initOptions) (privateKey node hostKey : string) : prog InitE (option (string * option string)) :=
  let! c := connect opt privateKey node hostKey in
  match c with
  | None => Ret None
  | Some (Err e) => Ret (Some ("", Some e))
  | Some (Ok c) => deploy_at opt c (use_sudo opt)
  end.

(** Wiring the registry. *)
Definition registry_config (opt : initOptions) (sudo : bool) : InstallConfig :=
  {| ic_AutoDeployDir := ""; ic_Version := ""; ic_ACMEEmail := ""; ic_ACMEProd := false; ic_RepoAllowlist := []; ic_UnsafeFeatures := [];
     ic_ReceiverHost := ""; ic_SecretsVault := false; ic_ReadinessTargets := []; ic_WaitTimeout := 0;
     ic_RestartReadyTimeout := o_readyTimeout opt; ic_Sudo := sudo |}.
Definition wire_at (c : Conn) : init RegistryInfo := total (at_node c (WireRegistry pem_type)).
Definition verdict (r : option (bool * option string)) : option (result string bool) :=
  (λ r, match r.2 with Some e => Err e | None => Ok r.1 end) <$> r.
Definition write_at (c : Conn) (info : RegistryInfo) (cfg : InstallConfig) : init bool :=
  let! r := at_node c (WriteNodeRegistry duration_text fuel info cfg) in Ret (verdict r).
Fixpoint write_all (opt : initOptions) (privateKey : string) (info : RegistryInfo) (nodes : list (string * string)) : init unit :=
  match nodes with
  | [] => done_ tt
  | (node, hostKey) :: nodes =>
      step! c := connect opt privateKey node hostKey in
      step! _ := say (line ("  configuring the registry on " +:+ node +:+ "...")) in
      step! changed := wrap node (write_at c info (registry_config opt (use_sudo opt))) in
      step! _ := (if changed : bool then say (line ("  applied registry config on " +:+ node)) else done_ tt) in
      write_all opt privateKey info nodes
  end.
Definition wireRegistryOnNodes (opt : initOptions) (privateKey node0 key0 : string) (nodes : list (string * string)) : init unit :=
  step! c := connect opt privateKey node0 key0 in
  step! info := wrap node0 (wire_at c) in
  write_all opt privateKey info nodes.
Definition wireRegistryLocalNode (opt : initOptions) (addr : string) : init unit :=
  step! info := wrap addr (wire_at Local) in
  step! _ := wrap addr (write_at Local info (registry_config opt false)) in
  done_ tt.

(** Deploy, wire and report; a token that was created is shown whatever fails after it. *)
Definition finish_init (deploy : prog InitE (option (string * option string))) (wire : init unit) (report : string → list string) : init unit :=
  let! d := deploy in
  match d with
  | None => Ret None
  | Some (token, Some e) => let! _ := printBootstrapTokenAfterFailure token in fail ("deploy components: " +:+ e)
  | Some (token, None) =>
      let! _ := trigger (Say (line "Wiring the in-cluster registry...")) in
      let! w := wire in
      match w with
      | None => Ret None
      | Some (Err e) => let! _ := printBootstrapTokenAfterFailure token in fail ("wire registry: " +:+ e)
      | Some (Ok _) => let! _ := out_all (report token) in done_ tt
      end
  end.

(** The checks of the flags. *)
Definition invalid_options (opt : initOptions) : option string :=
  let n := length (o_nodes opt) in
  if decide (o_nodes opt = []) then Some "--node is required (repeat it for an HA cluster)"
  else if decide (o_sshKeyPath opt = "") then Some "--ssh-key is required"
  else if decide (n ≠ 1 ∧ n ≠ 3) then Some ("orkano init supports 1 or 3 servers (odd count for etcd quorum); got " +:+ pretty n)
  else if decide (firstDuplicate (o_nodes opt) ≠ "") then Some ("--node " +:+ Quote (firstDuplicate (o_nodes opt)) +:+ " given more than once")
  else if decide (o_hostKeyPaths opt ≠ [] ∧ length (o_hostKeyPaths opt) ≠ n) then
    Some ("--ssh-host-key must be given once per --node (" +:+ pretty n +:+ " nodes, " +:+ pretty (length (o_hostKeyPaths opt)) +:+ " host keys)")
  else None.

Definition init_over_ssh (opt : initOptions) : init unit :=
  match invalid_options opt with
  | Some e => fail e
  | None =>
      step! privateKey := (let! k := trigger (ReadFile (o_sshKeyPath opt)) in Ret (Some (note "read SSH key" k))) in
      step! p := bootstrap_all opt privateKey 0 (o_nodes opt) no_progress in
      match p_first p, o_nodes opt, p_hostKeys p with
      | Some first, node0 :: _, key0 :: _ =>
          step! _ := unless "write kubeconfig: " (trigger (WriteFile (o_kubeconfig opt) (Kubeconfig first) "0600")) in
          step! _ := say (line ("Deploying Orkano components on " +:+ node0 +:+ "...")) in
          finish_init (deployOnNode0 opt privateKey node0 key0) (wireRegistryOnNodes opt privateKey node0 key0 (zip (o_nodes opt) (p_hostKeys p)))
            (summary opt node0 first (p_fresh p) (p_changed p))
      | _, _, _ => fail ""
      end
  end.

Definition ssh_flags (opt : initOptions) : bool :=
  bool_decide (o_sshKeyPath opt ≠ "" ∨ o_hostKeyPaths opt ≠ [] ∨ o_acceptNewKey opt = true ∨
               (o_sshUser opt ≠ "" ∧ o_sshUser opt ≠ "root") ∨ (o_sshPort opt ≠ 0%Z ∧ o_sshPort opt ≠ 22%Z)).
Definition local_config (opt : initOptions) (addr : string) : Config :=
  {| NodeAddress := addr; ExtraTLSSANs := []; ServerURL := ""; Token := ""; MinReadyNodes := 1; K3sVersion_ := o_k3sVersion opt;
     SnapshotCron := ""; SnapshotRetention := 0; c_Sudo := false; ReadyTimeout := o_readyTimeout opt |}.
Definition local_addr (opt : initOptions) : init string :=
  match o_nodes opt with
  | [node] => done_ node
  | _ =>
      let! a := trigger LocalAddress in
      Ret (Some (note "could not determine this machine's address; pass --node <address>" a))
  end.
Definition runInitLocal (opt : initOptions) : init unit :=
  if 1 <? length (o_nodes opt) then
    fail ("--local installs a single node on this machine; got " +:+ pretty (length (o_nodes opt)) +:+ " --node values (use SSH --node for HA)")
  else if ssh_flags opt then
    fail "--local runs on this machine and takes no SSH flags (--ssh-key/--ssh-host-key/--accept-new-host-key/--ssh-user/--ssh-port)"
  else
    let! uid := trigger Geteuid in
    if decide (uid ≠ 0%Z) then fail "orkano init --local must run as root on this machine (re-run with sudo)"
    else
      step! addr := local_addr opt in
      step! _ := (if o_skipPreflight opt then done_ tt else unless "" (trigger (RunPreflight Local ("this machine (" +:+ addr +:+ ")") false))) in
      step! _ := say (line ("Bootstrapping k3s on this machine (" +:+ addr +:+ ")...")) in
      step! res := wrap "bootstrap this machine" (at_host Local (Bootstrap duration_text sysctlConf auditYAML psaYAML (local_config opt addr) fuel)) in
      step! _ := say (line "Loading build confinement profile...") in
      step! np := wrap "load AppArmor profile" (total (at_host Local (EnsureAppArmorProfile apparmorProfile))) in
      step! _ := unless "write kubeconfig: " (trigger (WriteFile (o_kubeconfig opt) (Kubeconfig res) "0600")) in
      step! _ := say (line "Deploying Orkano components...") in
      finish_init (deploy_at opt Local false) (wireRegistryLocalNode opt addr)
        (λ token, local_summary opt res (negb (AlreadyInstalled res)) (Changed res || np_Changed np) token addr).

Definition runInit (opt : initOptions) : init unit :=
  match normalizeUnsafeFeatures opt with
  | Err e => fail e
  | Ok opt => if o_local opt then runInitLocal opt else init_over_ssh opt
  end.
End init.
