(* ===== verification/InitFacts.v ===== *)
(** * What [orkano init] guarantees

    Over [InitFlow.v]: which connections a run over SSH uses and when, the order in which
    nodes are restarted, and that a bootstrap token, once created, is shown exactly once. *)
From S2P Require Import Prelude Regex GoStrings RepoAllowlist Effects Sha256 Kube Features RateLimit Credentials ApiServer PlatformSecrets.
From S2P Require Import Net InstallNode Install InstallFlow InstallRegistry InstallToken Host NodePrep K3s InitFlow.
From Stdlib Require Import Ascii.

(** An element of a concatenation, with what surrounds it. *)
Lemma cons_in_app {A} (l1 l2 a b : list A) c :
  l1 ++ l2 = a ++ c :: b → (∃ b1, l1 = a ++ c :: b1 ∧ b = b1 ++ l2) ∨ c ∈ l2.
Proof.
  intros (k & [[-> E]|[-> ->]])%app_eq_app; [|by right; set_solver].
  destruct k as [|x k]; cbn in E; [right; rewrite <- E; by left|]. injection E as <- ->. left. by exists k.
Qed.

(** ** Lifted programs keep a history *)
Lemma wp_lift {E F : Set → Type} (h : ∀ X : Set, E X → F X) (pre : ∀ X : Set, F X → list (call F) → Prop) {A}
    (p : prog E A) (Q : A → list (call F) → Prop) tr trE :
  wp (λ X e t, pre X (h X e) (tr ++ (lift_call h <$> t))) hist p (λ a t, Q a (tr ++ (lift_call h <$> t))) trE →
  wp pre hist (lift h p) Q (tr ++ (lift_call h <$> trE)).
Proof.
  revert trE. induction p as [a|X e k IH]; intros trE; cbn [lift wp]; [done|]. intros [Hp Hk]. split; [done|].
  intros x. specialize (Hk x). unfold hist in Hk |- *. apply IH in Hk. by rewrite fmap_app, app_assoc in Hk.
Qed.
(** A program whose calls are acceptable whatever came before. *)
Lemma wp_hist_only {E : Set → Type} (pre : ∀ X : Set, E X → list (call E) → Prop) (ok : ∀ X : Set, E X → bool) {A}
    (p : prog E A) (Q : A → list (call E) → Prop) tr :
  (∀ X e tr', ok X e = true → pre X e (tr ++ tr')) → calls_only ok p →
  (∀ tr' a, exec p tr' a → Q a (tr ++ tr')) → wp pre hist p Q tr.
Proof.
  revert tr. induction p as [a|X e k IH]; intros tr Hp Hok HQ; cbn [wp].
  - rewrite <- (app_nil_r tr). by apply HQ.
  - destruct Hok as [He Hok]. split; [rewrite <- (app_nil_r tr); by apply Hp|]. intros x. unfold hist. apply IH; [| |].
    + intros X' e' tr' He'. rewrite <- app_assoc. by apply Hp.
    + apply Hok.
    + intros tr' a Hex. rewrite <- app_assoc. apply HQ. by exists x, tr'.
Qed.

Section wps.
Context (pre : ∀ X : Set, InitE X → list (call InitE) → Prop).
Abbreviation post A := (option (result string A) → list (call InitE) → Prop).
Definition ok_post {A} (P : A → list (call InitE) → Prop) : post A := λ r tr, match r with Some (Ok a) => P a tr | _ => True end.
Lemma wp_andThen {A B} (p : init A) (f : A → init B) P tr :
  wp pre hist p (ok_post (λ a, wp pre hist (f a) (ok_post P))) tr → wp pre hist (andThen p f) (ok_post P) tr.
Proof.
  intros Hp. unfold andThen. apply wp_bind. eapply wp_mono; [|exact Hp]. by intros [[a|e]|] tr'.
Qed.
Lemma wp_wrap {A} s (p : init A) P tr : wp pre hist p (ok_post P) tr → wp pre hist (wrap s p) (ok_post P) tr.
Proof. intros Hp. unfold wrap. apply wp_bind. eapply wp_mono; [|exact Hp]. by intros [[a|e]|] tr'. Qed.
Lemma wp_then {A B} (p : init A) (f : A → init B) (P0 : A → list (call InitE) → Prop) P tr :
  wp pre hist p (ok_post P0) tr → (∀ a tr', P0 a tr' → wp pre hist (f a) (ok_post P) tr') → wp pre hist (andThen p f) (ok_post P) tr.
Proof. intros Hp Hf. apply wp_andThen. eapply wp_mono; [|exact Hp]. intros [[a|e]|] tr'; [apply Hf|done..]. Qed.
End wps.

(** ** Connections *)
Section discipline.
Context `{UnicodeTables} {lib : InstallLib} (emb : Embedded) (sysctlConf auditYAML psaYAML apparmorProfile : list ascii).
Context (pem_type : list ascii → option string) (FingerprintSHA256 : string → result string string) (fuel : nat) (opt : initOptions).
Abbreviation trace := (list (call InitE)).

(** The key was read from the file given for this node, or presented by it and accepted. *)
Definition known (tr : trace) (addr key : string) : Prop :=
  (∃ i node path, o_nodes opt !! i = Some node ∧ o_hostKeyPaths opt !! i = Some path ∧ addr = node_addr opt node ∧
     (Call (ReadFile path) (Ok key) : call InitE) ∈ tr) ∨
  o_acceptNewKey opt = true ∧ (Call (ScanHostKey addr) (Ok key) : call InitE) ∈ tr.
Definition dialed (tr : trace) (c : Conn) : Prop := ∃ pk, (Call (NewClient c pk) None : call InitE) ∈ tr.
Definition cleared (tr : trace) (c : Conn) : Prop :=
  o_skipPreflight opt = true ∨ ∃ target sudo, (Call (RunPreflight c target sudo) None : call InitE) ∈ tr.

(** Lines of the installer with the connection they are run at. *)
Abbreviation conn_line := (Conn * Cmd * result string RunResult)%type.
Definition node_line (c : call InitE) : option conn_line :=
  match c with
  | Call e x => match e in InitE X return X → _ with
                | AtNode c e => λ x, match run_reply (Call e x) with Some l => Some (c, l.1, l.2) | None => None end
                | _ => λ _, None
                end x
  end.
(** Every restarted node has been seen ready again since. *)
Definition settled (lines : list conn_line) : Prop :=
  ∀ c x a b, lines = a ++ (c, RestartK3s, x) :: b → ∃ res, ((c, readyz, Ok res) ∈ b) ∧ api_ready res = true.
Definition restarts {X : Set} (e : NodeE X) : bool := match e with Run RestartK3s => true | _ => false end.

(** Lines of the bootstrap with the connection they are run at. *)
Abbreviation boot_line := (Conn * HostCmd * result string RunResult)%type.
Definition host_at (c : call InitE) : option boot_line :=
  match c with
  | Call e x => match e in InitE X return X → _ with
                | AtHost c e => λ x, match host_reply (Call e x) with Some l => Some (c, l.1, l.2) | None => None end
                | _ => λ _, None
                end x
  end.
(** The connection is to the [i]-th server. *)
Definition server (i : nat) (c : Conn) : Prop :=
  ∃ node key, o_nodes opt !! i = Some node ∧ c = Ssh (node_addr opt node) (o_sshUser opt) key.
(** Every server whose k3s was installed, started or restarted has since listed as many
    Ready nodes as its place in the list. *)
Definition steadied (lines : list boot_line) : Prop :=
  ∀ c cmd x a b, lines = a ++ (c, cmd, x) :: b → service_action cmd = true →
    ∃ i got, server i c ∧ ((c, GetNodes, Ok got) ∈ b) ∧ ExitStatus got = 0%Z ∧ (Z.of_nat i + 1 ≤ countReady (Stdout got))%Z.

Definition allowed (X : Set) (e : InitE X) (tr : trace) : Prop :=
  match e with
  | NewClient (Ssh addr user key) _ => user = o_sshUser opt ∧ known tr addr key
  | NewClient Local _ => False
  | RunPreflight c _ _ => dialed tr c
  | AtHost c e => dialed tr c ∧ cleared tr c ∧ (no_action _ e = false → steadied (omap host_at tr))
  | AtNode c e => dialed tr c ∧ cleared tr c ∧ (restarts e = true → settled (omap node_line tr))
  | _ => True
  end.

(** What was seen stays seen. *)
Lemma known_app tr tr' addr key : known tr addr key → known (tr ++ tr') addr key.
Proof.
  intros [(i & node & path & ? & ? & ? & Hin)|[? Hin]]; [left; exists i, node, path|right]; rewrite elem_of_app; auto.
Qed.
Lemma dialed_app tr tr' c : dialed tr c → dialed (tr ++ tr') c.
Proof. intros [pk Hin]. exists pk. rewrite elem_of_app. by left. Qed.
Lemma cleared_app tr tr' c : cleared tr c → cleared (tr ++ tr') c.
Proof. intros [?|(t & s & Hin)]; [by left|right]. exists t, s. rewrite elem_of_app. by left. Qed.

Lemma settled_app l1 l2 : settled l1 → (∀ c x, (c, RestartK3s, x) ∉ l2) → settled (l1 ++ l2).
Proof.
  intros Hs Hn c x a b [(b1 & -> & ->)|Hin]%cons_in_app; [|by apply Hn in Hin].
  destruct (Hs c x a b1 eq_refl) as (res & Hin & Hr). exists res. split; [|done]. apply elem_of_app. by left.
Qed.

(** *** Parts at one connection *)
Definition quiet_node : ∀ X : Set, NodeE X → bool := λ _ e, negb (restarts e).
Lemma lift_host_lines c (t : list (call HostE)) : omap node_line (lift_call (λ X (e : HostE X), AtHost c e) <$> t) = [].
Proof. induction t as [|[X e x] t IH]; [done|]. cbn. exact IH. Qed.
Definition at_conn (c : Conn) (lines : list (Cmd * result string RunResult)) : list conn_line := (λ l, (c, l.1, l.2)) <$> lines.
Lemma lift_node_lines c (t : list (call NodeE)) :
  omap node_line (lift_call (λ X (e : NodeE X), AtNode c e) <$> t) = at_conn c (omap run_reply t).
Proof.
  induction t as [|[X e x] t IH]; [done|]. destruct e; cbn; [|exact IH..]. f_equal. exact IH.
Qed.
Lemma quiet_lines {A} (p : prog NodeE A) t a c x : calls_only quiet_node p → exec p t a → (c, RestartK3s, x) ∉ at_conn c (omap run_reply t).
Proof.
  intros Hp Hex. pose proof (calls_only_exec _ _ _ _ Hp Hex) as HF. clear Hp Hex.
  intros ([c' y] & Heq & Hin)%list_elem_of_fmap. cbn in Heq. injection Heq as <- <-. apply list_elem_of_omap in Hin as ([X e z] & Hin & Hr).
  rewrite Forall_forall in HF. specialize (HF _ Hin). destruct e; try done. cbn in Hr. injection Hr as -> _. done.
Qed.

(** Lines without a service action leave every server as steady as it was. *)
Lemma steadied_app l1 l2 :
  steadied l1 → (∀ c cmd x, (c, cmd, x) ∈ l2 → service_action cmd = false) → steadied (l1 ++ l2).
Proof.
  intros Hs Hn c cmd x a b [(b1 & -> & ->)|Hin]%cons_in_app Hact; [|by rewrite (Hn _ _ _ Hin) in Hact].
  destruct (Hs c cmd x a b1 eq_refl Hact) as (i & got & Hi & Hin & Hr). exists i, got. split_and!; [done| |apply Hr..].
  apply elem_of_app. by left.
Qed.
(** The history grew, without a line of the installer, and the servers are steady if they were. *)
Definition ext (tr tr' : trace) : Prop :=
  (∃ t, tr' = tr ++ t ∧ omap node_line t = []) ∧ (steadied (omap host_at tr) → steadied (omap host_at tr')).
Lemma ext_refl tr : ext tr tr.
Proof. split; [|done]. exists []. by rewrite app_nil_r. Qed.
Lemma ext_trans tr1 tr2 tr3 : ext tr1 tr2 → ext tr2 tr3 → ext tr1 tr3.
Proof. intros [(t & -> & H1) S1] [(t' & -> & H2) S2]. split; [|auto]. exists (t ++ t'). by rewrite app_assoc, omap_app, H1, H2. Qed.
Lemma ext_call tr (c : call InitE) : node_line c = None → host_at c = None → ext tr (tr ++ [c]).
Proof. intros Hc Hh. split; [exists [c]; split; [done|]; cbn; by rewrite Hc|]. rewrite omap_app. cbn. by rewrite Hh, app_nil_r. Qed.
Lemma ext_lines tr tr' : ext tr tr' → omap node_line tr' = omap node_line tr.
Proof. intros [(t & -> & Ht) _]. by rewrite omap_app, Ht, app_nil_r. Qed.
Lemma known_ext tr tr' addr key : ext tr tr' → known tr addr key → known tr' addr key.
Proof. intros [(t & -> & _) _]. apply known_app. Qed.
Lemma dialed_ext tr tr' c : ext tr tr' → dialed tr c → dialed tr' c.
Proof. intros [(t & -> & _) _]. apply dialed_app. Qed.
Lemma cleared_ext tr tr' c : ext tr tr' → cleared tr c → cleared tr' c.
Proof. intros [(t & -> & _) _]. apply cleared_app. Qed.

Lemma say_wp text tr : wp allowed hist (say text) (ok_post (λ _ tr', ext tr tr')) tr.
Proof. split; [done|]. intros []. cbn. by apply ext_call. Qed.
Definition at_host_conn (c : Conn) (lines : list host_line) : list boot_line := (λ l, (c, l.1, l.2)) <$> lines.
Lemma lift_host_at c (t : list (call HostE)) :
  omap host_at (lift_call (λ X (e : HostE X), AtHost c e) <$> t) = at_host_conn c (host_lines t).
Proof.
  induction t as [|[X e x] t IH]; [done|]. destruct e; cbn; [|exact IH..]. f_equal. exact IH.
Qed.
Lemma inactive_lines t c c' cmd x :
  actions (host_lines t) = [] → (c', cmd, x) ∈ at_host_conn c (host_lines t) → service_action cmd = false.
Proof.
  intros Ha ([cmd' y] & [= -> -> ->] & Hin)%list_elem_of_fmap. destruct (service_action cmd') eqn:E; [|done]. exfalso.
  assert (Hmem : cmd' ∈ actions (host_lines t)).
  { apply list_elem_of_filter. split; [done|]. apply list_elem_of_fmap. by exists (cmd', y). }
  rewrite Ha in Hmem. by apply not_elem_of_nil in Hmem.
Qed.
Lemma host_wp {A} c (p : prog HostE A) (Q : A → trace → Prop) tr :
  calls_only no_action p → dialed tr c → cleared tr c → (∀ a tr', ext tr tr' → Q a tr') → wp allowed hist (at_host c p) Q tr.
Proof.
  intros Hp Hd Hc HQ. rewrite <- (app_nil_r tr). unfold at_host. change (tr ++ []) with (tr ++ (lift_call (λ X (e : HostE X), AtHost c e) <$> [])).
  apply wp_lift. eapply (wp_hist_only _ no_action); [|exact Hp|].
  - intros X e t He. split; [by apply dialed_app|]. split; [by apply cleared_app|]. by rewrite He.
  - intros t a Hex. apply HQ. split; [exists (lift_call (λ X (e : HostE X), AtHost c e) <$> t); split; [done|]; apply lift_host_lines|].
    rewrite omap_app, lift_host_at. intros Hs. apply steadied_app; [done|]. intros c' cmd x. apply inactive_lines.
    by eapply no_action_lines.
Qed.

(** *** One server at a time *)

(** Within a bootstrap: no second service action. *)
Definition first_action (X : Set) (e : HostE X) (t : list (call HostE)) : Prop := no_action X e = false → actions (host_lines t) = [].
Lemma quiet_first {A} (p : prog HostE A) (Q : A → list (call HostE) → Prop) t :
  calls_only no_action p → (∀ a t', actions (host_lines t') = [] → Q a (t ++ t')) → wp first_action hist p Q t.
Proof.
  intros Hp HQ. apply (wp_hist_only _ no_action); [intros X e t' He; unfold first_action; by rewrite He|done|].
  intros t' a Hex. apply HQ. by eapply no_action_lines.
Qed.
Lemma one_line {A} pkg c desc (f : result string unit → prog HostE A) t :
  actions (host_lines t) = [] → (∀ r, calls_only no_action (f r)) → wp first_action hist (let! r := runOK pkg c desc in f r) (λ _ _, True) t.
Proof.
  intros Ha Hf. unfold runOK. split; [by intros _|]. intros x. cbn [prog_bind]. by apply quiet_first.
Qed.
Lemma Bootstrap_first dur cfg fuel' :
  wp first_action hist (Bootstrap dur sysctlConf auditYAML psaYAML cfg fuel') (λ _ _, True) [].
Proof.
  unfold Bootstrap. destruct (invalid_config cfg); [done|]. apply wp_bind.
  assert (Hrest : ∀ res t, wp first_action hist (let! w := wait_ready dur cfg fuel' in
    match w with None => Ret None | Some (Err e) => Ret (Some (Err e)) | Some (Ok _) => let! r := after_ready cfg res in Ret (Some r) end) (λ _ _, True) t).
  { intros res t. apply quiet_first; [|done]. apply calls_only_bind; [apply wait_ready_quiet|]. intros [[[]|e]|]; [|done..].
    apply calls_only_bind; [apply after_ready_quiet|done]. }
  eapply (wp_mono _ _ _ (λ _ _, True)); [intros [res|e] t _; [apply Hrest|done]|].
  unfold converge. apply wp_bind, quiet_first; [apply detect_quiet|]. intros [r1|e] t1 A1; [|done].
  apply wp_bind, quiet_first; [apply prereqs_quiet|]. intros [r2|e] t2 A2; [|done].
  assert (A3 : actions (host_lines (t1 ++ t2)) = []) by by rewrite host_lines_app, actions_app, A1, A2.
  unfold installOrConverge. apply wp_bind, quiet_first; [apply ensure_file_quiet|]. intros [[b res]|e] t3 A4; [|done]. cbv zeta.
  assert (A5 : actions (host_lines ((t1 ++ t2) ++ t3)) = []) by by rewrite host_lines_app, actions_app, A3, A4.
  destruct (negb _ || _); [apply one_line; [done|by intros [[]|e]]|]. destruct b; [apply one_line; [done|by intros [[]|e]]|].
  split; [done|]. intros [got|e]; [|done]. cbn [prog_bind]. case_decide; [|done]. apply one_line; [|by intros [[]|e]].
  unfold hist. cbn [app]. rewrite host_lines_app, actions_app, A5. done.
Qed.
Lemma wp_weaken {E : Set → Type} {S : Type} (pre pre' : ∀ X : Set, E X → S → Prop) step {A} (p : prog E A) (Q : A → S → Prop) s :
  (∀ X e s, pre X e s → pre' X e s) → wp pre step p Q s → wp pre' step p Q s.
Proof. intros Hpre. revert s. induction p as [a|X e k IH]; intros s; cbn [wp]; [done|]. intros [Hp Hk]. split; auto. Qed.
Lemma wp_and_exec {E : Set → Type} (pre : ∀ X : Set, E X → list (call E) → Prop) {A} (p : prog E A) (Q : A → list (call E) → Prop) tr :
  wp pre hist p Q tr → wp pre hist p (λ a t, ∃ t', t = tr ++ t' ∧ exec p t' a) tr.
Proof.
  revert tr. induction p as [a|X e k IH]; intros tr; cbn [wp]; [intros _; exists []; by rewrite app_nil_r|].
  intros [Hp Hk]. split; [done|]. intros x. eapply wp_mono; [|apply IH, Hk]. intros a t (t' & -> & Hex).
  exists (Call e x :: t'). unfold hist. rewrite <- app_assoc. split; [done|]. by exists x, t'.
Qed.

(** A server that is done has listed enough Ready nodes since it was touched. *)
Lemma steadied_by c i t1 t2 t3 lines got :
  server i c → steadied lines → actions (host_lines t2) = [] → actions (host_lines t3) = [] →
  (GetNodes, Ok got) ∈ host_lines t2 → ExitStatus got = 0%Z → (Z.of_nat i + 1 ≤ countReady (Stdout got))%Z →
  steadied (lines ++ at_host_conn c (host_lines (t1 ++ t2 ++ t3))).
Proof.
  intros Hi Hs A2 A3 Hin Hz Hn. rewrite !host_lines_app. unfold at_host_conn. rewrite !fmap_app, app_assoc.
  fold (at_host_conn c (host_lines t1)) (at_host_conn c (host_lines t2)) (at_host_conn c (host_lines t3)).
  intros c' cmd x a b Heq Hact. rewrite app_assoc in Heq.
  apply cons_in_app in Heq as [(b1 & Heq & ->)|Hx]; [|by rewrite (inactive_lines _ _ _ _ _ A3 Hx) in Hact].
  apply cons_in_app in Heq as [(b2 & Heq & ->)|Hx]; [|by rewrite (inactive_lines _ _ _ _ _ A2 Hx) in Hact].
  apply cons_in_app in Heq as [(b3 & Heq & ->)|Hx].
  - destruct (Hs c' cmd x a b3 Heq Hact) as (j & g & Hj & Hg & Hgz & Hgn). exists j, g.
    split_and!; [done| |done..]. rewrite !elem_of_app. auto.
  - apply list_elem_of_fmap in Hx as (l & [= -> _ _] & _). exists i, got. split_and!; [done| |done..].
    rewrite !elem_of_app. left. right. apply list_elem_of_fmap. by exists (GetNodes, Ok got).
Qed.
Lemma Bootstrap_wp dur cfg fuel' c i (Q : option (result string Result) → trace → Prop) tr :
  server i c → minReadyNodes cfg = (Z.of_nat i + 1)%Z → dialed tr c → cleared tr c → steadied (omap host_at tr) →
  (∀ res tr', ext tr tr' → Q (Some (Ok res)) tr') → (∀ r tr', (∀ res, r ≠ Some (Ok res)) → Q r tr') →
  wp allowed hist (at_host c (Bootstrap dur sysctlConf auditYAML psaYAML cfg fuel')) Q tr.
Proof.
  intros Hi Hm Hd Hc Hs HQ Hno. rewrite <- (app_nil_r tr). unfold at_host.
  change (tr ++ []) with (tr ++ (lift_call (λ X (e : HostE X), AtHost c e) <$> [])).
  apply wp_lift. eapply wp_mono; [|eapply wp_weaken; [|exact (wp_and_exec _ _ _ _ (Bootstrap_first dur cfg fuel'))]].
  - cbv beta. intros [[res|e]|] t (t' & -> & Hex); [|by apply Hno..]. cbn [app]. apply HQ. split.
    + exists (lift_call (λ X (e : HostE X), AtHost c e) <$> t'). split; [done|]. apply lift_host_lines.
    + intros _. rewrite omap_app, lift_host_at. apply Bootstrap_inv in Hex as (_ & t1 & t2 & t3 & r1 & -> & _ & H2 & H3).
      pose proof (no_action_lines _ _ _ (wait_ready_quiet _ _ _) H2). pose proof (no_action_lines _ _ _ (after_ready_quiet _ _) H3).
      apply wait_ready_inv in H2 as (got & Hin & Hz & Hn). rewrite Hm in Hn. by eapply steadied_by.
  - intros X e t He. split; [by apply dialed_app|]. split; [by apply cleared_app|]. intros Hact. rewrite omap_app, lift_host_at.
    apply steadied_app; [done|]. intros c' cmd x. apply inactive_lines. by apply He.
Qed.

Definition safe_ext (tr tr' : trace) : Prop := (∃ t, tr' = tr ++ t) ∧ settled (omap node_line tr').
Lemma node_quiet_wp {A} c (p : prog NodeE A) (Q : A → trace → Prop) tr :
  calls_only quiet_node p → dialed tr c → cleared tr c → settled (omap node_line tr) →
  (∀ t a tr', exec p t a → tr' = tr ++ (lift_call (λ X (e : NodeE X), AtNode c e) <$> t) → settled (omap node_line tr') → Q a tr') →
  wp allowed hist (at_node c p) Q tr.
Proof.
  intros Hq Hd Hc Hs HQ. rewrite <- (app_nil_r tr). unfold at_node. change (tr ++ []) with (tr ++ (lift_call (λ X (e : NodeE X), AtNode c e) <$> [])).
  apply wp_lift. eapply (wp_hist_only _ quiet_node); [|exact Hq|].
  - intros X e t He. split; [by apply dialed_app|]. split; [by apply cleared_app|]. unfold quiet_node in He. by destruct (restarts e).
  - intros t a Hex. cbn [app]. eapply HQ; [exact Hex|done|]. rewrite omap_app, lift_node_lines. apply settled_app; [done|].
    intros c' x Hin. assert (c' = c) as -> by (by apply list_elem_of_fmap in Hin as ([? ?] & [= -> _ _] & _)).
    by apply (quiet_lines p t a c x Hq Hex).
Qed.
Lemma settled_ext tr tr' : ext tr tr' → settled (omap node_line tr) → settled (omap node_line tr').
Proof. intros ->%ext_lines. done. Qed.

(** *** Keys and connections *)
Lemma resolve_wp i node addr tr :
  o_nodes opt !! i = Some node → addr = node_addr opt node →
  wp allowed hist (resolveHostKey FingerprintSHA256 addr (default "" (o_hostKeyPaths opt !! i)) (o_acceptNewKey opt))
    (ok_post (λ key tr', known tr' addr key ∧ ext tr tr')) tr.
Proof.
  intros Hn Ha. unfold resolveHostKey. case_decide as Hp.
  - split; [done|]. intros [key|e]; [|done]. cbn. split; [|by apply ext_call]. left.
    destruct (o_hostKeyPaths opt !! i) as [path|] eqn:Hi; [|done]. exists i, node, path. split_and!; [done..|].
    apply elem_of_app. right. by left.
  - eapply (wp_then _ _ _ (λ key tr', ext tr tr' ∧ (Call (ScanHostKey addr) (Ok key) : call InitE) ∈ tr')).
    { split; [done|]. intros [key|e]; [|done]. cbn. split; [by apply ext_call|]. apply elem_of_app. right. by left. }
    intros scanned tr1 [Hx Hin]. apply (wp_then _ _ _ (λ _ tr', tr' = tr1)).
    { cbn. by destruct (FingerprintSHA256 scanned). }
    intros fp tr1' ->. destruct (o_acceptNewKey opt) eqn:Hacc; [|done]. cbn [negb].
    eapply wp_then; [apply say_wp|]. cbv beta. intros _ tr2 Hx2. cbn. split; [|by eapply ext_trans]. right. split; [done|].
    destruct Hx2 as [(t & -> & _) _]. apply elem_of_app. by left.
Qed.
Lemma connect_wp pk node key tr :
  known tr (node_addr opt node) key →
  wp allowed hist (connect opt pk node key)
    (ok_post (λ c tr', c = Ssh (node_addr opt node) (o_sshUser opt) key ∧ dialed tr' c ∧ ext tr tr')) tr.
Proof.
  intros Hk. unfold connect. eapply (wp_then _ _ _ (λ _ tr', dialed tr' (Ssh (node_addr opt node) (o_sshUser opt) key) ∧ ext tr tr')).
  - split; [by split|]. intros [e|]; [done|]. cbn. split; [|by apply ext_call]. exists pk. apply elem_of_app. right. by left.
  - intros _ tr' [Hd Hx]. cbn. done.
Qed.

(** A node that has been prepared: its key is known and it passed the preflight. *)
Definition prepared (tr : trace) (node key : string) : Prop :=
  known tr (node_addr opt node) key ∧ cleared tr (Ssh (node_addr opt node) (o_sshUser opt) key).
Lemma prepared_ext tr tr' node key : ext tr tr' → prepared tr node key → prepared tr' node key.
Proof. intros Hx [? ?]. split; [by eapply known_ext|by eapply cleared_ext]. Qed.
Lemma prepared_more tr t node key : prepared tr node key → prepared (tr ++ t) node key.
Proof. intros [? ?]. split; [by apply known_app|by apply cleared_app]. Qed.

Lemma apparmor_quiet : calls_only no_action (EnsureAppArmorProfile apparmorProfile).
Proof. unfold EnsureAppArmorProfile, queryProfile, Host.ensureFile, Host.runOK. calls. Qed.
Lemma min_ready i node url token : minReadyNodes (k3s_config opt i node url token) = (Z.of_nat i + 1)%Z.
Proof. unfold minReadyNodes, k3s_config. cbn [MinReadyNodes]. by rewrite decide_False by lia. Qed.
Lemma bootstrap_node_wp pk i node cfg tr :
  o_nodes opt !! i = Some node → minReadyNodes cfg = (Z.of_nat i + 1)%Z → steadied (omap host_at tr) →
  wp allowed hist (bootstrapNode sysctlConf auditYAML psaYAML apparmorProfile FingerprintSHA256 fuel opt pk node (default "" (o_hostKeyPaths opt !! i)) cfg)
    (ok_post (λ r tr', prepared tr' node r.1.2 ∧ ext tr tr')) tr.
Proof.
  intros Hn Hm Hs. unfold bootstrapNode. eapply wp_then; [by eapply resolve_wp|]. cbv beta. intros key tr1 [Hk H1].
  eapply wp_then; [by apply connect_wp|]. cbv beta. intros c tr2 (-> & Hd & H2). set (c := Ssh _ _ _) in *. cbv zeta.
  apply (wp_then _ _ _ (λ _ tr', cleared tr' c ∧ ext tr2 tr')).
  - unfold bootstrap_at. apply (wp_then _ _ _ (λ _ tr', cleared tr' c ∧ ext tr2 tr')).
    + destruct (o_skipPreflight opt) eqn:Hskip; [cbn; split; [by left|apply ext_refl]|]. split; [done|].
      intros [e|]; [done|]. cbn. split; [|by apply ext_call]. right. eexists _, _. apply elem_of_app. right. by left.
    + intros _ tr3 [Hc H3]. eapply wp_then; [apply say_wp|]. cbv beta. intros _ tr4 H4.
      apply (Bootstrap_wp _ _ _ _ i); [by eexists _, _|done|by eapply dialed_ext; [|eapply dialed_ext]|by eapply cleared_ext| | |].
      { apply H4, H3, H2, H1, Hs. }
      { intros res tr5 H5. cbn. split; [by eapply cleared_ext; [|eapply cleared_ext]|]. eapply ext_trans; [exact H3|]. by eapply ext_trans. }
      intros [[res|e]|] tr5 Hr; [by destruct (Hr res)|done..].
  - intros res tr3 [Hc H3]. eapply wp_then; [apply say_wp|]. cbv beta. intros _ tr4 H4.
    apply (wp_then _ _ _ (λ _ tr', ext tr4 tr')).
    + apply wp_wrap. unfold total. apply wp_bind. apply host_wp; [apply apparmor_quiet|by do 2 (eapply dialed_ext; [eassumption|])|by eapply cleared_ext|].
      intros [r|e] tr5 H5; [|done]. done.
    + intros np tr5 H5. cbn. assert (H35 : ext tr3 tr5) by (by eapply ext_trans). split; [split|].
      * do 2 (eapply known_ext; [eassumption|]). by eapply known_ext.
      * by eapply cleared_ext.
      * do 2 (eapply ext_trans; [eassumption|]). by eapply ext_trans.
Qed.

Lemma bootstrap_all_wp pk nodes i p tr :
  drop i (o_nodes opt) = nodes → length (p_hostKeys p) = i → steadied (omap host_at tr) → Forall2 (prepared tr) (take i (o_nodes opt)) (p_hostKeys p) →
  wp allowed hist (bootstrap_all sysctlConf auditYAML psaYAML apparmorProfile FingerprintSHA256 fuel opt pk i nodes p)
    (ok_post (λ p' tr', Forall2 (prepared tr') (o_nodes opt) (p_hostKeys p') ∧ ext tr tr')) tr.
Proof.
  revert i p tr. induction nodes as [|node nodes IH]; intros i p tr Hd Hl Hs HF; cbn [bootstrap_all].
  - cbn. split; [|apply ext_refl]. assert (Hle : length (o_nodes opt) ≤ i).
    { apply (f_equal length) in Hd. rewrite length_drop in Hd. cbn in Hd. lia. }
    by rewrite take_ge in HF.
  - assert (Hn : o_nodes opt !! i = Some node) by (rewrite <- (Nat.add_0_r i), <- lookup_drop, Hd; done).
    eapply wp_then; [apply wp_wrap; apply bootstrap_node_wp; [done|by apply min_ready|done]|]. cbv beta. intros r tr1 [Hp H1].
    eapply wp_mono; [|apply IH].
    + intros [[p'|e]|] tr2; [|done..]. cbn. intros [HF2 H2]. split; [done|]. by eapply ext_trans.
    + rewrite (drop_S _ _ _ Hn) in Hd. by injection Hd.
    + cbn [advance p_hostKeys]. rewrite length_app, Hl. cbn. lia.
    + apply H1, Hs.
    + cbn [advance p_hostKeys]. rewrite (take_S_r _ _ _ Hn). apply Forall2_app; [|constructor; [done|constructor]].
      eapply Forall2_impl; [exact HF|]. intros n k. by apply prepared_ext.
Qed.

(** *** Restarts *)
Lemma settled_restart l1 c x l2 :
  settled l1 → (∀ c' y, (c', RestartK3s, y) ∉ l2) → (∃ res, ((c, readyz, Ok res) ∈ l2) ∧ api_ready res = true) →
  settled (l1 ++ (c, RestartK3s, x) :: l2).
Proof.
  intros Hs Hn Hres. revert Hs. induction l1 as [|l l1 IH]; intros Hs c' y a b Heq.
  - destruct a as [|l' a]; cbn in Heq; [injection Heq as -> -> ->; done|]. injection Heq as _ Heq. exfalso.
    apply (Hn c' y). rewrite Heq. apply elem_of_app. right. by left.
  - destruct a as [|l' a]; cbn in Heq.
    + injection Heq as -> <-. destruct (Hs c' y [] l1 eq_refl) as (r & Hin & Hr). exists r. split; [|done]. apply elem_of_app. by left.
    + injection Heq as -> Heq. eapply IH; [|exact Heq]. intros c1 y1 a1 b1 ->. by apply (Hs c1 y1 (l' :: a1) b1).
Qed.
Lemma poll_ready n failure t : exec (poll n readyz api_ready failure) t (Some (Ok tt)) →
  ∃ res, ((readyz, Ok res) ∈ omap run_reply t) ∧ api_ready res = true.
Proof.
  revert t. induction n as [|n IH]; intros t; cbn [poll]; [by intros [_ ?]|].
  intros (x & t1 & -> & Hk). cbn [prog_bind] in Hk. destruct (match x with Ok res => api_ready res | Err _ => false end) eqn:Hr.
  - destruct x as [res|e]; [|done]. exists res. split; [by left|done].
  - destruct Hk as (tick & t2 & -> & Hk). cbn [prog_bind] in Hk. destruct tick; [|by destruct Hk].
    destruct (IH _ Hk) as (res & Hin & ?). exists res. split; [by right|done].
Qed.
Lemma poll_quiet n failure : calls_only quiet_node (poll n readyz api_ready failure).
Proof.
  induction n as [|n IH]; [done|]. cbn [poll]. split; [done|]. intros x. cbn [prog_bind].
  destruct (match x with Ok res => api_ready res | Err _ => false end); [done|]. split; [done|]. intros tick. cbn [prog_bind]. by destruct tick.
Qed.
Lemma ensureFile_quiet p content mode : calls_only quiet_node (InstallNode.ensureFile p content mode).
Proof.
  assert (Hpc : ∀ pieces first, calls_only quiet_node (write_pieces p first pieces)).
  { induction pieces as [|piece pieces IH]; intros first; cbn [write_pieces]; [done|]. unfold InstallNode.runOK. destruct first; calls; apply IH. }
  unfold InstallNode.ensureFile, writeInline, writeChunked, InstallNode.runOK. calls.
Qed.

Section at_one.
Context (c : Conn) (tr : trace) (Hdial : dialed tr c) (Hclear : cleared tr c).
Abbreviation lifted t := (tr ++ (lift_call (λ X (e : NodeE X), AtNode c e) <$> t)).
Definition node_pre : ∀ X : Set, NodeE X → list (call NodeE) → Prop := λ X e t, allowed X (AtNode c e) (lifted t).

Lemma lifted_lines t : omap node_line (lifted t) = omap node_line tr ++ at_conn c (omap run_reply t).
Proof using. by rewrite omap_app, lift_node_lines. Qed.
Lemma quiet_wp {A} (p : prog NodeE A) (Q : A → list (call NodeE) → Prop) t :
  calls_only quiet_node p → settled (omap node_line (lifted t)) →
  (∀ t' a, exec p t' a → settled (omap node_line (lifted (t ++ t'))) → Q a (t ++ t')) → wp node_pre hist p Q t.
Proof using Hclear Hdial.
  intros Hq Hs HQ. apply (wp_hist_only _ quiet_node); [|done|].
  - intros X e t' He. unfold node_pre, allowed. split; [by apply dialed_app|]. split; [by apply cleared_app|].
    unfold quiet_node in He. by destruct (restarts e).
  - intros t' a Hex. apply HQ; [done|]. rewrite lifted_lines in Hs |- *. rewrite omap_app. unfold at_conn in *.
    rewrite fmap_app, app_assoc. apply settled_app; [done|]. intros c' x Hin.
    assert (c' = c) as -> by (by apply list_elem_of_fmap in Hin as ([? ?] & [= -> _ _] & _)). by apply (quiet_lines p t' a c x Hq Hex).
Qed.
Lemma WriteNodeRegistry_wp info cfg :
  settled (omap node_line tr) →
  wp node_pre hist (WriteNodeRegistry duration_text fuel info cfg)
    (λ r t, match r with Some (_, None) => settled (omap node_line (lifted t)) | _ => True end) [].
Proof using Hclear Hdial.
  intros Hs. unfold WriteNodeRegistry. destruct (incomplete info); [done|].
  apply wp_bind, quiet_wp; [apply ensureFile_quiet|by rewrite app_nil_r|]. intros t1 [b1|e] _ H1; [|done].
  apply wp_bind, quiet_wp; [apply ensureFile_quiet|done|]. intros t2 [b2|e] _ H2; [|done].
  apply wp_bind, quiet_wp; [unfold ensureHostsEntry, InstallNode.runOK; calls|done|]. intros t3 [b3|e] _ H3; [|done].
  destruct (negb b1 && negb b2); [done|]. set (t := (_ ++ t3)) in *. apply wp_bind. split.
  { unfold node_pre, allowed. split; [by apply dialed_app|]. split; [by apply cleared_app|done]. }
  intros x. cbn [prog_bind]. unfold hist.
  destruct (match x with Err e => Err _ | Ok res => _ end) as [[]|e]; [|done].
  apply wp_bind. apply (wp_hist_only _ quiet_node); [| |].
  - intros X e t' He. unfold node_pre, allowed. split; [by apply dialed_app|]. split; [by apply cleared_app|].
    unfold quiet_node in He. by destruct (restarts e).
  - apply poll_quiet.
  - intros t' [[[]|e]|] Hex; [|done..]. cbn [wp]. rewrite lifted_lines, !omap_app. cbn [omap list_omap run_reply].
    unfold at_conn. rewrite !fmap_app. cbn [fmap list_fmap]. rewrite <- !app_assoc. cbn [app].
    rewrite app_assoc. fold (at_conn c (omap run_reply t)). rewrite <- lifted_lines. cbn [fst snd]. apply settled_restart; [done| |].
    + intros c' y Hin. assert (c' = c) as -> by (by apply list_elem_of_fmap in Hin as ([? ?] & [= -> _ _] & _)).
      by apply (quiet_lines _ t' _ c y (poll_quiet _ _) Hex).
    + destruct (poll_ready _ _ _ Hex) as (res & Hin & Hr). exists res. split; [|done].
      apply (list_elem_of_fmap_2 (λ l : Cmd * result string RunResult, (c, l.1, l.2)) _ _ Hin).
Qed.
End at_one.

Lemma write_at_wp c info cfg tr :
  dialed tr c → cleared tr c → settled (omap node_line tr) →
  wp allowed hist (write_at fuel c info cfg) (ok_post (λ _ tr', safe_ext tr tr')) tr.
Proof.
  intros Hd Hc Hs. unfold write_at. apply wp_bind. rewrite <- (app_nil_r tr). unfold at_node.
  change (tr ++ []) with (tr ++ (lift_call (λ X (e : NodeE X), AtNode c e) <$> [])). apply wp_lift.
  eapply wp_mono; [|by apply WriteNodeRegistry_wp]. intros [[b [e|]]|] t; cbn; [done| |done]. intros Hset. split; [|done].
  rewrite app_nil_r. by eexists.
Qed.

(** *** Deploying *)
Lemma benign_quiet {A} (p : prog NodeE A) : calls_only benign p → calls_only quiet_node p.
Proof. apply calls_only_mono. intros X e. destruct e as [c| |]; [by destruct c|done..]. Qed.
Lemma apply_quiet cfg : calls_only quiet_node (Apply emb fuel cfg).
Proof.
  unfold Apply. destruct (validateTargets _); [done|]. destruct (writeSet _ _) as [files|e]; [|done].
  destruct (validateManifestFiles files); [done|]. destruct (Normalize _) as [seed|e]; [|done].
  assert (Hallow : ∀ l, calls_only quiet_node (ensureRepoAllowlist l)) by (intros l; unfold ensureRepoAllowlist, createConfigMapIfAbsent; calls).
  unfold apply_files. apply calls_only_bind; [|intros [o|[token ch]]; [done|]; apply benign_quiet, finish_benign].
  apply calls_only_bind.
  { unfold settle_policy. case_decide; [|done]. apply calls_only_bind; [apply benign_quiet, legacy_benign|].
    intros [[legacy []]|e]; [|done..]. by apply calls_only_bind. }
  intros [o|[[seed' ready] ch]]; [done|]. apply calls_only_bind; [apply benign_quiet, write_manifests_benign|].
  intros [o|ch']; [done|]. unfold create_once. case_decide; [done|]. apply calls_only_bind; [apply benign_quiet, namespace_benign|].
  intros [[[]|e]|]; [|done..]. apply calls_only_bind; [apply benign_quiet, generate_benign|].
  intros [vals|e]; [|done]. apply calls_only_bind.
  { unfold ensureSecrets. destruct (Specs vals) as [specs|e]; [|done]. generalize (v_BootstrapToken vals) as tok, "" as shown, false as b.
    induction specs as [|sp specs IH]; intros tok shown b; cbn [ensure_specs]; [done|].
    unfold createSecretIfAbsent, InstallNode.runOK. calls; apply IH. }
  intros [[token sc] [e|]]; [done|]. destruct ready; [done|]. by apply calls_only_bind.
Qed.
Lemma wire_quiet : calls_only quiet_node (WireRegistry pem_type).
Proof.
  unfold WireRegistry, readRegistryCA, readRegistryClusterIP, readNodeInternalIPs, kubectlOutput, applyManifest, InstallNode.runOK. calls.
Qed.
Lemma safe_ext_prepared tr tr' nodes keys : safe_ext tr tr' → Forall2 (prepared tr) nodes keys → Forall2 (prepared tr') nodes keys.
Proof. intros [[t ->] _] HF. eapply Forall2_impl; [exact HF|]. intros n k. by apply prepared_more. Qed.
Lemma ext_safe tr tr' : ext tr tr' → settled (omap node_line tr) → safe_ext tr tr'.
Proof. intros Hx Hs. split; [|by eapply settled_ext]. destruct Hx as [(t & -> & _) _]. by exists t. Qed.
Lemma safe_trans tr1 tr2 tr3 : safe_ext tr1 tr2 → safe_ext tr2 tr3 → safe_ext tr1 tr3.
Proof. intros [[t ->] _] [[t' ->] Hs]. split; [|done]. exists (t ++ t'). by rewrite app_assoc. Qed.

Lemma write_all_wp pk info nodes keys tr :
  Forall2 (prepared tr) nodes keys → settled (omap node_line tr) →
  wp allowed hist (write_all fuel opt pk info (zip nodes keys)) (ok_post (λ _ tr', safe_ext tr tr')) tr.
Proof.
  revert keys tr. induction nodes as [|node nodes IH]; intros keys tr HF Hs; destruct keys as [|key keys]; try by inversion HF.
  { cbn. split; [by exists []; rewrite app_nil_r|done]. }
  apply Forall2_cons in HF as [[Hk Hc] HF]. cbn [zip zip_with write_all].
  eapply wp_then; [by apply connect_wp|]. cbv beta. intros c tr1 (-> & Hd & H1).
  eapply wp_then; [apply say_wp|]. cbv beta. intros _ tr2 H2. assert (H02 : ext tr tr2) by (by eapply ext_trans).
  apply (wp_then _ _ _ (λ _ tr', safe_ext tr2 tr')).
  { apply wp_wrap, write_at_wp; [exact (dialed_ext _ _ _ H2 Hd)|exact (cleared_ext _ _ _ H02 Hc)|exact (settled_ext _ _ H02 Hs)]. }
  intros changed tr3 H3. apply (wp_then _ _ _ (λ _ tr', safe_ext tr3 tr')).
  { destruct changed; [eapply wp_mono; [|apply say_wp]; intros [[a|e]|] tr4; [|done..]; cbn; intros Hx; apply ext_safe; [done|apply H3]|].
    cbn. apply ext_safe; [apply ext_refl|apply H3]. }
  intros _ tr4 H4. assert (H04 : safe_ext tr tr4).
  { eapply safe_trans; [by eapply ext_safe|]. by eapply safe_trans. }
  eapply wp_mono; [|apply IH; [by eapply safe_ext_prepared|apply H04]].
  intros [[a|e]|] tr5; [|done..]. cbn. intros H5. by eapply safe_trans.
Qed.
Lemma wireRegistry_wp pk node key nodes keys tr :
  prepared tr node key → Forall2 (prepared tr) nodes keys → settled (omap node_line tr) →
  wp allowed hist (wireRegistryOnNodes pem_type fuel opt pk node key (zip nodes keys)) (ok_post (λ _ _, True)) tr.
Proof.
  intros [Hk Hc] HF Hs. unfold wireRegistryOnNodes. eapply wp_then; [by apply connect_wp|]. cbv beta. intros c tr1 (-> & Hd & H1).
  apply (wp_then _ _ _ (λ _ tr', safe_ext tr1 tr')).
  { apply wp_wrap. unfold wire_at, total. apply wp_bind.
    apply node_quiet_wp; [apply wire_quiet|done|by eapply cleared_ext|by eapply settled_ext|].
    intros t [a|e] tr2 _ -> Hs2; [|done]. cbn. split; [by eexists|done]. }
  intros info tr2 H2. eapply wp_mono; [|apply write_all_wp; [|apply H2]]; [by intros [[a|e]|]|].
  eapply safe_ext_prepared; [|exact HF]. eapply safe_trans; [by apply ext_safe|done].
Qed.

Lemma out_wp (l : list string) (Q : unit → trace → Prop) tr : (∀ tr', Q tt tr') → wp allowed hist (out_all l) Q tr.
Proof. intros HQ. revert tr. induction l as [|x l IH]; intros tr; cbn [out_all]; [apply HQ|]. split; [done|]. intros []. apply IH. Qed.
Lemma after_failure_wp token (Q : unit → trace → Prop) tr :
  (∀ tr', Q tt tr') → wp allowed hist (printBootstrapTokenAfterFailure token) Q tr.
Proof. intros HQ. unfold printBootstrapTokenAfterFailure. case_decide; [apply HQ|]. split; [done|]. intros []. apply HQ. Qed.

Lemma deploy_wp pk node key tr :
  prepared tr node key → settled (omap node_line tr) →
  wp allowed hist (deployOnNode0 emb fuel opt pk node key) (λ d tr', match d with Some (_, None) => safe_ext tr tr' | _ => True end) tr.
Proof.
  intros [Hk Hc] Hs. unfold deployOnNode0. apply wp_bind. eapply wp_mono; [|by apply connect_wp]. cbv beta.
  intros [[c|e]|] tr1; [|done..]. cbn [ok_post]. intros (-> & Hd & H1). unfold deploy_at. apply wp_bind.
  apply node_quiet_wp; [apply apply_quiet|done|by eapply cleared_ext|by eapply settled_ext|].
  intros t o tr2 _ -> Hs2. cbn [wp]. destruct (deployed o) as [[token [e|]]|]; [done| |done].
  eapply safe_trans; [by apply ext_safe|]. split; [by eexists|done].
Qed.

Lemma init_over_ssh_wp tr :
  settled (omap node_line tr) → steadied (omap host_at tr) →
  wp allowed hist (init_over_ssh emb sysctlConf auditYAML psaYAML apparmorProfile pem_type FingerprintSHA256 fuel opt) (ok_post (λ _ _, True)) tr.
Proof.
  intros Hs Hst. unfold init_over_ssh. destruct (invalid_options opt); [done|].
  eapply (wp_then _ _ _ (λ _ tr', ext tr tr')).
  { split; [done|]. intros [k|e]; [|done]. cbn. by apply ext_call. }
  intros pk tr1 H1. eapply wp_then; [apply bootstrap_all_wp; [by rewrite drop_0|done|apply H1, Hst|rewrite take_0; constructor]|]. cbv beta.
  intros p tr2 [HF H2]. destruct (p_first p) as [first|]; [|done]. destruct (o_nodes opt) as [|node0 nodes] eqn:Hn; [done|].
  destruct (p_hostKeys p) as [|key0 keys]; [done|]. assert (H02 : ext tr tr2) by (by eapply ext_trans).
  apply (wp_then _ _ _ (λ _ tr', ext tr2 tr')). { split; [done|]. intros [e|]; [done|]. cbn. by apply ext_call. }
  intros _ tr3 H3. eapply wp_then; [apply say_wp|]. cbv beta. intros _ tr4 H4. assert (H24 : ext tr2 tr4) by (by eapply ext_trans).
  assert (Hs4 : settled (omap node_line tr4)) by (eapply settled_ext; [exact H24|]; by eapply settled_ext).
  assert (HF4 : Forall2 (prepared tr4) (node0 :: nodes) (key0 :: keys)).
  { eapply Forall2_impl; [exact HF|]. intros n k. by apply prepared_ext. }
  clear tr tr1 tr2 tr3 Hs Hst H1 H2 H3 H02 H4 H24 HF. unfold finish_init. apply wp_bind.
  pose proof HF4 as [Hp0 _]%Forall2_cons. eapply wp_mono; [|apply deploy_wp; [exact Hp0|done]]. cbv beta.
  intros [[token [e|]]|] tr5; [| |done].
  - intros _. apply wp_bind, after_failure_wp. done.
  - intros H5. split; [done|]. intros []. cbn [prog_bind]. unfold hist. set (tr6 := tr5 ++ _).
    assert (H6 : ext tr5 tr6) by (by apply ext_call). apply wp_bind.
    assert (HF6 : Forall2 (prepared tr6) (node0 :: nodes) (key0 :: keys)).
    { eapply Forall2_impl; [by eapply safe_ext_prepared|]. intros n k. by apply prepared_ext. }
    eapply wp_mono; [|apply wireRegistry_wp; [by apply Forall2_cons in HF6 as [? _]|exact HF6|eapply settled_ext; [exact H6|apply H5]]].
    intros [[[]|e]|] tr7 _; [|by apply wp_bind, after_failure_wp|done]. by apply wp_bind, out_wp.
Qed.

End discipline.

Section guarantees.
Context `{UnicodeTables} {lib : InstallLib} (emb : Embedded) (sysctlConf auditYAML psaYAML apparmorProfile : list ascii).
Context (pem_type : list ascii → option string) (FingerprintSHA256 : string → result string string) (fuel : nat) (opt : initOptions).

(** C15. How [orkano init] talks to machines.  In a run over SSH, whatever the machines and
    the files answer: a client is only made for a host key that was read from the file given
    for that node, or that the node presented and the operator chose to accept; unless
    preflight is skipped by flag, nothing is run on a machine before its preflight passed on
    that very connection; the bootstrap installs, starts or restarts k3s on a server only
    when every server it did so on before has since listed at least as many Ready nodes as
    its place in the list of servers; and the registry wiring restarts k3s on a node only
    when every node it restarted before has since answered that it is ready.  The bootstrap's
    condition is a count, as in the code: on a re-run the nodes counted need not include the
    one that was touched. *)
Theorem connection_discipline before c after out :
  o_local opt = false →
  exec (runInit emb sysctlConf auditYAML psaYAML apparmorProfile pem_type FingerprintSHA256 fuel opt) (before ++ c :: after) out →
  match c with Call e _ => allowed opt _ e before end.
Proof.
  intros Hl Hex. unfold runInit, normalizeUnsafeFeatures in Hex. destruct (ParseFeatures _) as [enabled|e]; [|by destruct Hex, before].
  cbn [set_unsafe o_local] in Hex. rewrite Hl in Hex. set (opt' := set_unsafe _ opt) in Hex.
  eapply (wp_hist_pre (allowed opt')) in Hex; [destruct c; exact Hex|]. by apply init_over_ssh_wp; [intros ? ? [] ? ?|intros ? ? ? [] ? ?].
Qed.

(** ** The token *)
Definition out_text (c : call InitE) : option string := match c with Call (Out text) _ => Some text | _ => None end.
Definition outs (tr : list (call InitE)) : list string := omap out_text tr.
(** How every text that shows a token begins. *)
Definition token_notice : string := nl +:+ line "Bootstrap token (shown once; store it now):".
(** Prints nothing on standard output; and does not write the Secret either. *)
Definition mute (X : Set) (e : InitE X) : bool := match e with Out _ => false | _ => true end.
Definition silent (X : Set) (e : InitE X) : bool := match e with Out _ => false | AtNode _ e => no_token _ e | _ => true end.
Lemma mute_outs {A} (p : prog InitE A) tr a : calls_only mute p → exec p tr a → outs tr = [].
Proof.
  intros Hp Hex. apply (calls_only_omap mute out_text p tr a); [|done..]. intros [X e x] Hc. by destruct e.
Qed.
Lemma silent_mute {A} (p : prog InitE A) : calls_only silent p → calls_only mute p.
Proof. apply calls_only_mono. intros X e. by destruct e. Qed.
Lemma silent_outs {A} (p : prog InitE A) tr a : calls_only silent p → exec p tr a → outs tr = [].
Proof. intros Hp. by apply mute_outs, silent_mute. Qed.
(** The installer's lines of a run, wherever they are run. *)
Definition node_lines (tr : list (call InitE)) : lines_t := (λ l : Conn * Cmd * result string RunResult, (l.1.2, l.2)) <$> omap node_line tr.
Definition stored (tr : list (call InitE)) : list string := token_writes (node_lines tr).
Lemma node_lines_app t1 t2 : node_lines (t1 ++ t2) = node_lines t1 ++ node_lines t2.
Proof. unfold node_lines. by rewrite omap_app, fmap_app. Qed.
Lemma stored_app t1 t2 : stored (t1 ++ t2) = stored t1 ++ stored t2.
Proof. unfold stored. by rewrite node_lines_app, token_writes_app. Qed.
Lemma node_lines_lift c (t : list (call NodeE)) : node_lines (lift_call (λ X (e : NodeE X), AtNode c e) <$> t) = omap run_reply t.
Proof.
  unfold node_lines. rewrite lift_node_lines. unfold at_conn. rewrite <- list_fmap_compose. rewrite <- (list_fmap_id (omap run_reply t)) at 2.
  apply list_fmap_ext. by intros i [l x].
Qed.
Lemma silent_stored {A} (p : prog InitE A) tr a : calls_only silent p → exec p tr a → stored tr = [].
Proof.
  intros Hp Hex. pose proof (calls_only_exec _ _ _ _ Hp Hex) as HF. clear Hp Hex. induction HF as [|[X e x] tr Hc HF IH]; [done|].
  change (Call e x :: tr) with ([Call e x] ++ tr). rewrite stored_app, IH, app_nil_r.
  destruct e as [|c X e| | | | | | | | |]; try done. change [Call (AtNode c e) x] with (lift_call (λ X (e : NodeE X), AtNode c e) <$> [Call e x]).
  unfold stored. rewrite node_lines_lift. apply (no_token_writes (trigger e) [Call e x] x); [done|by exists x, []].
Qed.
Lemma outs_app t1 t2 : outs (t1 ++ t2) = outs t1 ++ outs t2.
Proof. apply omap_app. Qed.
Lemma silent_host {A} c (p : prog HostE A) : calls_only silent (at_host c p).
Proof. apply calls_only_lift. by induction p as [a|X e k IH]. Qed.
Lemma silent_node {A} c (p : prog NodeE A) : calls_only no_token p → calls_only silent (at_node c p).
Proof. intros Hp. by apply calls_only_lift. Qed.
Lemma mute_node {A} c (p : prog NodeE A) : calls_only mute (at_node c p).
Proof. apply calls_only_lift. by induction p as [a|X e k IH]. Qed.
Lemma silent_then {A B} (p : init A) (f : A → init B) : calls_only silent p → (∀ a, calls_only silent (f a)) → calls_only silent (andThen p f).
Proof. intros Hp Hf. apply calls_only_bind; [done|]. intros [[a|e]|]; [apply Hf|done..]. Qed.
Lemma silent_wrap {A} s (p : init A) : calls_only silent p → calls_only silent (wrap s p).
Proof. intros Hp. by apply calls_only_bind. Qed.
Lemma silent_total {A} (p : prog InitE (result string A)) : calls_only silent p → calls_only silent (total p).
Proof. intros Hp. by apply calls_only_bind. Qed.
Lemma silent_unless s (p : prog InitE (option string)) : calls_only silent p → calls_only silent (unless s p).
Proof. intros Hp. apply calls_only_bind; [done|]. by intros [e|]. Qed.
Lemma silent_say text : calls_only silent (say text).
Proof. done. Qed.
Hint Resolve silent_host silent_wrap silent_total silent_unless silent_say : calls.

Lemma silent_connect o pk node key : calls_only silent (connect o pk node key).
Proof. unfold connect. cbv zeta. apply silent_then; [by apply silent_unless|done]. Qed.
Lemma silent_bootstrap o pk i nodes p :
  calls_only silent (bootstrap_all sysctlConf auditYAML psaYAML apparmorProfile FingerprintSHA256 fuel o pk i nodes p).
Proof.
  revert i p. induction nodes as [|node nodes IH]; intros i p; cbn [bootstrap_all]; [done|].
  apply silent_then; [|intros r; apply IH]. apply silent_wrap. unfold bootstrapNode. apply silent_then.
  { unfold resolveHostKey. case_decide; [done|]. apply silent_then; [done|]. intros k. apply silent_then; [done|]. intros fp.
    destruct (negb _); [done|]. by apply silent_then. }
  intros key. apply silent_then; [apply silent_connect|]. intros c. cbv zeta. apply silent_then.
  { unfold bootstrap_at. apply silent_then; [destruct (o_skipPreflight o); [done|by apply silent_unless]|]. intros _.
    apply silent_then; [done|]. intros _. apply silent_host. }
  intros res. apply silent_then; [done|]. intros _. apply silent_then; [apply silent_wrap, silent_total, silent_host|done].
Qed.
Lemma mute_deploy_at o c sudo : calls_only mute (deploy_at emb fuel o c sudo).
Proof. unfold deploy_at. apply calls_only_bind; [apply mute_node|done]. Qed.
Lemma silent_write_at c info cfg : calls_only silent (write_at fuel c info cfg).
Proof. unfold write_at. apply calls_only_bind; [apply silent_node, node_registry_no_token|done]. Qed.
Lemma silent_wire o pk node key nodes : calls_only silent (wireRegistryOnNodes pem_type fuel o pk node key nodes).
Proof.
  unfold wireRegistryOnNodes. apply silent_then; [apply silent_connect|]. intros c. apply silent_then.
  { apply silent_wrap, silent_total, silent_node, wire_no_token. }
  intros info. induction nodes as [|[n k] nodes IH]; cbn [write_all]; [done|]. apply silent_then; [apply silent_connect|]. intros c'.
  apply silent_then; [done|]. intros _. apply silent_then; [apply silent_wrap, silent_write_at|]. intros ch.
  apply silent_then; [by destruct ch|]. done.
Qed.
Lemma silent_wire_local o addr : calls_only silent (wireRegistryLocalNode pem_type fuel o addr).
Proof.
  unfold wireRegistryLocalNode. apply silent_then; [apply silent_wrap, silent_total, silent_node, wire_no_token|]. intros info.
  apply silent_then; [apply silent_wrap, silent_write_at|done].
Qed.

(** What is shown of a token: one text that holds it, or nothing when there is none. *)
Definition shown (token : string) (texts : list string) : Prop :=
  if decide (token = "") then texts = [] else ∃ text, texts = [text] ∧ Contains text token = true.
Definition is_notice (t : string) : bool := HasPrefix t token_notice.
Lemma notices_none (l : list string) : forallb (λ t, negb (is_notice t)) l = true → filter (λ t, is_notice t = true) l = [].
Proof.
  rewrite forallb_forall. intros Hl. apply filter_none. apply Forall_forall. intros t Ht Hn.
  specialize (Hl t (proj1 (list_elem_of_In _ _) Ht)). by rewrite Hn in Hl.
Qed.
Lemma Contains_middle a token b : Contains (a +:+ token +:+ b) token = true.
Proof. apply Contains_spec. exists (bytes a), (bytes b). by rewrite !bytes_app. Qed.
Lemma after_failure_shows token : token ≠ "" → shown token (filter (λ t, is_notice t = true) [after_failure token]).
Proof.
  intros Hne. unfold shown. rewrite decide_False by done. rewrite filter_cons_True by (vm_compute; reflexivity). exists (after_failure token).
  split; [done|]. unfold after_failure, line. rewrite !str_app_assoc. rewrite <- (str_app_assoc nl), <- (str_app_assoc _ nl), <- (str_app_assoc _ "  ").
  apply Contains_middle.
Qed.
Lemma shown_once_shows token more : token ≠ "" → shown token (filter (λ t, is_notice t = true) [shown_once token more]).
Proof.
  intros Hne. unfold shown. rewrite decide_False by done. rewrite filter_cons_True by (vm_compute; reflexivity). exists (shown_once token more).
  split; [done|]. unfold shown_once, line. rewrite !str_app_assoc. rewrite <- (str_app_assoc nl), <- (str_app_assoc _ nl), <- (str_app_assoc _ "  ").
  apply Contains_middle.
Qed.
Lemma token_line token more recovery :
  is_notice recovery = false →
  shown token (filter (λ t, is_notice t = true) [if decide (token ≠ "") then shown_once token more else recovery]).
Proof.
  intros Hr. destruct (decide (token = "")) as [->|Hne].
  - rewrite decide_False by naive_solver. unfold shown. rewrite decide_True by done. by rewrite filter_cons_False by (by rewrite Hr).
  - rewrite decide_True by done. by apply shown_once_shows.
Qed.

Lemma notices_only pre a post :
  forallb (λ t, negb (is_notice t)) pre = true → forallb (λ t, negb (is_notice t)) post = true →
  filter (λ t, is_notice t = true) (pre ++ a :: post) = filter (λ t, is_notice t = true) [a].
Proof.
  intros Hpre Hpost. change (a :: post) with ([a] ++ post). by rewrite !filter_app, (notices_none pre Hpre), (notices_none post Hpost), app_nil_r.
Qed.

(** The reports. *)
Lemma headline_quiet where_ res fresh changed : is_notice (headline where_ res fresh changed) = false.
Proof. by destruct fresh, changed. Qed.
Lemma option_lines_quiet o : forallb (λ t, negb (is_notice t)) (option_lines o) = true.
Proof. unfold option_lines. by destruct (o_secretsVault o), (decide (o_unsafeFeatures o = [])), (decide (o_receiverHost o ≠ "")). Qed.
Lemma summary_shows o first res fresh changed token : shown token (filter (λ t, is_notice t = true) (summary o first res fresh changed token)).
Proof.
  unfold summary. cbv zeta. rewrite !app_assoc. rewrite notices_only; [by apply token_line| |done].
  rewrite !forallb_app, option_lines_quiet. cbn [forallb]. rewrite headline_quiet. by destruct (1 <? _).
Qed.
Lemma local_summary_shows o res fresh changed token addr :
  shown token (filter (λ t, is_notice t = true) (local_summary o res fresh changed token addr)).
Proof.
  unfold local_summary. rewrite !app_assoc. rewrite notices_only; [by apply token_line| |done].
  rewrite !forallb_app, option_lines_quiet. cbn [forallb]. by rewrite headline_quiet.
Qed.

Definition notices (tr : list (call InitE)) : list string := filter (λ t, is_notice t = true) (outs tr).
Lemma notices_silent t1 t2 : outs t1 = [] → notices (t1 ++ t2) = notices t2.
Proof. intros Ht. unfold notices. by rewrite outs_app, Ht. Qed.

(** How the token fared: the Secret was written once with the hash of a token that it was
    missing before, and exactly one text shows that token; or it was not written, and no
    token is shown. *)
Definition token_fate (tr : list (call InitE)) : Prop :=
  ∃ token, stored tr = writes_of token ∧ (token ≠ "" → created token (node_lines tr)) ∧ shown token (notices tr).
(** The part that deploys the components yields the token it stored. *)
Definition yields_stored (deploy : prog InitE (option (string * option string))) : Prop :=
  ∀ tr token err, exec deploy tr (Some (token, err)) → stored tr = writes_of token ∧ (token ≠ "" → created token (node_lines tr)).

Lemma nothing_stored tr : stored tr = [] → notices tr = [] → token_fate tr.
Proof. intros Hs Hn. exists "". unfold shown. rewrite decide_True by done. by split_and!. Qed.

(** The end of both runs. *)
Lemma finish_fate deploy wire report tr r :
  calls_only mute deploy → yields_stored deploy → calls_only silent wire →
  (∀ token, shown token (filter (λ t, is_notice t = true) (report token))) →
  exec (finish_init deploy wire report) tr (Some r) → token_fate tr.
Proof.
  unfold token_fate, notices. intros Hd Hy Hw Hr. unfold finish_init. rewrite exec_bind. intros (t1 & t2 & d & -> & H1 & Hk).
  rewrite outs_app, (mute_outs _ _ _ Hd H1), stored_app, node_lines_app. cbn [app].
  destruct d as [[token err]|]; [|by destruct Hk]. destruct (Hy _ _ _ H1) as [Hst Hcr]. exists token. rewrite Hst.
  assert (Hout : ∀ l t u, exec (out_all l) t u → outs t = l ∧ stored t = []).
  { induction l as [|x l IH]; intros t u; cbn [out_all]; [by intros [-> _]|]. intros (y & t' & -> & Hx). cbn [prog_bind] in Hx.
    change (outs (Call (Out x) y :: t')) with (x :: outs t'). destruct (IH _ _ Hx) as [-> Hs]. by split. }
  assert (Hfail : ∀ t e (o : option (result string unit)), exec (let! _ := printBootstrapTokenAfterFailure token in fail e) t o →
    shown token (filter (λ x, is_notice x = true) (outs t)) ∧ stored t = []).
  { intros t e o. unfold printBootstrapTokenAfterFailure. case_decide as Ht.
    - intros [-> _]. unfold shown. by rewrite decide_True.
    - intros (x & t' & -> & -> & _). split; [by apply after_failure_shows|done]. }
  assert (Hend : shown token (filter (λ x, is_notice x = true) (outs t2)) ∧ stored t2 = []).
  2:{ destruct Hend as [Hsh ->]. rewrite app_nil_r. split_and!; [done| |done]. intros Hne. apply (created_part _ []), Hcr, Hne. }
  destruct err as [e|]; [by eapply Hfail|]. destruct Hk as ([] & t3 & -> & Hk). cbn [prog_bind] in Hk.
  change (outs (Call (Say (line "Wiring the in-cluster registry...")) () :: t3)) with (outs t3).
  change (stored (Call (Say (line "Wiring the in-cluster registry...")) () :: t3)) with (stored t3).
  apply exec_bind in Hk as (t4 & t5 & w & -> & H4 & Hk). rewrite outs_app, (silent_outs _ _ _ Hw H4), stored_app, (silent_stored _ _ _ Hw H4). cbn [app].
  destruct w as [[[]|e]|]; [|by eapply Hfail|by destruct Hk].
  apply exec_bind in Hk as (t6 & t7 & [] & -> & H6 & -> & _). rewrite app_nil_r. destruct (Hout _ _ _ H6) as [-> ->]. by split.
Qed.

Lemma deploy_at_stored o c sudo : yields_stored (deploy_at emb fuel o c sudo).
Proof.
  intros tr token err. unfold deploy_at, at_node. rewrite exec_bind. intros (t1 & t2 & out & -> & H1 & -> & Hd). rewrite app_nil_r.
  apply (proj1 (exec_lift (λ X (e : NodeE X), AtNode c e) _ _ _)) in H1 as (lines & -> & Hex). unfold stored. rewrite node_lines_lift.
  destruct out as [res e|]; cbn [deployed] in Hd; [|clear Hex; discriminate Hd]. apply Apply_token in Hex. cbv zeta in Hex.
  destruct res as [res|]; cbn [deployed] in Hd; injection Hd as -> _; exact Hex.
Qed.
Lemma deploy_first_stored o pk node key : yields_stored (deployOnNode0 emb fuel o pk node key).
Proof.
  intros tr token err. unfold deployOnNode0. rewrite exec_bind. intros (t1 & t2 & c & -> & H1 & Hk).
  rewrite stored_app, node_lines_app, (silent_stored _ _ _ (silent_connect _ _ _ _) H1). cbn [app].
  destruct c as [[c|e]|]; [| |by destruct Hk]; [|by destruct Hk as [-> [= -> _]]].
  destruct (deploy_at_stored _ _ _ _ _ _ Hk) as [Hs Hc]. split; [done|]. intros Hne.
  rewrite <- (app_nil_r (node_lines t2)). apply created_part, Hc, Hne.
Qed.

(** A quiet part in front changes nothing. *)
Lemma fate_then {A} (p : init A) (f : A → init unit) tr r :
  calls_only silent p → exec (andThen p f) tr (Some r) → (∀ a tr', exec (f a) tr' (Some r) → token_fate tr') → token_fate tr.
Proof.
  intros Hp Hex Hf. apply exec_bind in Hex as (t1 & t2 & a & -> & H1 & Hk). pose proof (silent_outs _ _ _ Hp H1) as Ho.
  pose proof (silent_stored _ _ _ Hp H1) as Hs. destruct a as [[a|e]|]; [| |by destruct Hk].
  - apply Hf in Hk as (token & Hst & Hc & Hsh). exists token. rewrite stored_app, Hs, node_lines_app, notices_silent by done.
    split_and!; [done| |done]. intros Hne. rewrite <- (app_nil_r (node_lines t2)). apply created_part, Hc, Hne.
  - destruct Hk as [-> _]. rewrite app_nil_r. apply nothing_stored; [done|]. unfold notices. by rewrite Ho.
Qed.
Lemma ssh_fate o tr r :
  exec (init_over_ssh emb sysctlConf auditYAML psaYAML apparmorProfile pem_type FingerprintSHA256 fuel o) tr (Some r) → token_fate tr.
Proof.
  unfold init_over_ssh. destruct (invalid_options o) as [e|]; [intros [-> _]; by apply nothing_stored|].
  intros Hex. refine (fate_then _ _ _ _ _ Hex _); [done|]. clear tr Hex. intros pk tr Hex.
  refine (fate_then _ _ _ _ _ Hex _); [apply silent_bootstrap|]. clear tr Hex. intros p tr Hex.
  destruct (p_first p) as [first|]; [|destruct Hex as [-> _]; by apply nothing_stored].
  destruct (o_nodes o) as [|node0 nodes]; [destruct Hex as [-> _]; by apply nothing_stored|].
  destruct (p_hostKeys p) as [|key0 keys]; [destruct Hex as [-> _]; by apply nothing_stored|].
  refine (fate_then _ _ _ _ _ Hex _); [by apply silent_unless|]. clear tr Hex. intros _ tr Hex.
  refine (fate_then _ _ _ _ _ Hex _); [done|]. clear tr Hex. intros _ tr Hex.
  eapply finish_fate; [|apply deploy_first_stored|apply silent_wire|intros token; apply summary_shows|exact Hex].
  unfold deployOnNode0. apply calls_only_bind; [apply silent_mute, silent_connect|]. intros [[c|e]|]; [apply mute_deploy_at|done..].
Qed.
Lemma local_fate o tr r :
  exec (runInitLocal emb sysctlConf auditYAML psaYAML apparmorProfile pem_type fuel o) tr (Some r) → token_fate tr.
Proof.
  unfold runInitLocal. destruct (1 <? _); [intros [-> _]; by apply nothing_stored|].
  destruct (ssh_flags o); [intros [-> _]; by apply nothing_stored|].
  intros (uid & t & -> & Hex). cbn [prog_bind] in Hex. case_decide; [destruct Hex as [-> _]; by apply nothing_stored|].
  assert (Hf : token_fate t); [|exact Hf].
  refine (fate_then _ _ _ _ _ Hex _); [ |].
  { unfold local_addr. destruct (o_nodes o) as [|n [|n' l]]; [|done|]; split; [done|done|done|done]. }
  clear t Hex. intros addr t Hex. refine (fate_then _ _ _ _ _ Hex _); [destruct (o_skipPreflight o); [done|by apply silent_unless]|].
  clear t Hex. intros _ t Hex. refine (fate_then _ _ _ _ _ Hex _); [done|]. clear t Hex. intros _ t Hex.
  refine (fate_then _ _ _ _ _ Hex _); [apply silent_wrap, silent_host|]. clear t Hex. intros res t Hex.
  refine (fate_then _ _ _ _ _ Hex _); [done|]. clear t Hex. intros _ t Hex.
  refine (fate_then _ _ _ _ _ Hex _); [apply silent_wrap, silent_total, silent_host|]. clear t Hex. intros np t Hex.
  refine (fate_then _ _ _ _ _ Hex _); [by apply silent_unless|]. clear t Hex. intros _ t Hex.
  refine (fate_then _ _ _ _ _ Hex _); [done|]. clear t Hex. intros _ t Hex.
  eapply finish_fate; [apply mute_deploy_at|apply deploy_at_stored|apply silent_wire_local|intros token; apply local_summary_shows|exact Hex].
Qed.

End guarantees.
