(* ===== verification/InstallExample.v ===== *)
(** * Installing on an example machine

    A machine that answers truthfully, driven by the programs of [Install.v],
    [InstallRegistry.v], [K3s.v], [NodePrep.v] and [InitFlow.v]: the instances at which the
    theorems about them are applied. *)
From S2P Require Import Prelude Regex GoStrings RepoAllowlist Effects Sha256 Kube Features RateLimit Credentials Paths ApiServer ApiGitHub GitHubApp PlatformSecrets.
From S2P Require Import Net InstallNode Install InstallFlow InstallRegistry InstallToken Host NodePrep K3s InitFlow InitFacts.
From Stdlib Require Import Ascii.

Module Machine.
#[export] Instance tables : UnicodeTables := ascii_tables.
#[export] Instance library : InstallLib := {|
  render_template _ raw _ := Ok raw;
  yaml_kind_name _ := Ok ("CustomResourceDefinition", "apps.orkano.io");
  unmarshal_deployment _ := Err "no deployment";
  duration_text d := pretty d;
|}.
Definition file (p content : string) : Entry := {| ent_path := p; ent_isDir := false; ent_read := Ok (bytes content) |}.
Definition embedded : Embedded :=
  {| emb_static := [file "crd-apps.yaml" "kind: CustomResourceDefinition"; file "rbac/roles.yaml" "kind: Role"];
     emb_externalSecrets := []; emb_templates := [] |}.

(** Its files, how many restarts still fail, and whether the profile is loaded. *)
Record machine : Type := { m_files : gmap string (list ascii); m_failing : nat; m_loaded : bool }.
Definition with_files (fs : gmap string (list ascii)) (m : machine) : machine :=
  {| m_files := fs; m_failing := m_failing m; m_loaded := m_loaded m |}.
Definition ok (out : string) : result string RunResult := Ok {| ExitStatus := 0; Stdout := out; Stderr := "" |}.
Definition failed : result string RunResult := Ok {| ExitStatus := 1; Stdout := ""; Stderr := "failed" |}.
Definition cat_reply (p : string) (m : machine) : result string RunResult :=
  match m_files m !! p with Some l => ok (of_bytes l) | None => failed end.
Definition decoded_payload (payload : string) : list ascii := default [] (padded_decode std_alphabet (bytes payload)).

Definition ca_text : string := "certificate".
Definition kubectl_reply (args : string) : result string RunResult :=
  if HasPrefix args "-n orkano-system get secret " then failed
  else if decide (args = read_ca) then ok (of_bytes (std_encode (bytes ca_text)))
  else if HasPrefix args "get svc " then ok "10.43.0.7"
  else if HasPrefix args "get nodes " then ok "192.0.2.10 fd00::10"
  else if HasPrefix args "get --raw" then ok "ok"
  else if HasSuffix args "-o json" then ok ""
  else ok "1".
Definition node (X : Set) (e : NodeE X) (m : machine) : X * machine :=
  match e in NodeE X return X * machine with
  | Run c =>
      match c with
      | CatFile p => (cat_reply p m, m)
      | Pipe _ app payload t =>
          (ok "", with_files (<[t := (if app : bool then default [] (m_files m !! t) else []) ++ decoded_payload payload]> (m_files m)) m)
      | Mv a b =>
          match m_files m !! a with
          | Some l => (ok "", with_files (<[b := l]> (delete a (m_files m))) m)
          | None => (failed, m)
          end
      | RmF p => (ok "", with_files (delete p (m_files m)) m)
      | Kubectl args => (kubectl_reply args, m)
      | RestartK3s =>
          match m_failing m with
          | O => (ok "", m)
          | S n => (failed, {| m_files := m_files m; m_failing := n; m_loaded := m_loaded m |})
          end
      | Chmod _ _ | KubectlIn _ _ => (ok "", m)
      end
  | NextTick _ => (false, m)
  | NodeRand n => (Ok (replicate n (byte 7)), m)
  end.
Definition host (X : Set) (e : HostE X) (m : machine) : X * machine :=
  match e in HostE X return X * machine with
  | HRun c =>
      match c with
      | HCat p =>
          if decide (p = profilesFile) then (ok (if m_loaded m then ProfileName +:+ " (enforce)" else ""), m) else (cat_reply p m, m)
      | HWrite p payload _ => (ok "", with_files (<[p := decoded_payload payload]> (m_files m)) m)
      | K3sVersion => (ok ("k3s version " +:+ DefaultK3sVersion), m)
      | GetNodes => (ok "n1   Ready   control-plane", m)
      | EncryptStatus => (ok "Encryption Status: Enabled", m)
      | Systemctl _ => (ok "active", m)
      | AppArmorLoad _ => (ok "", {| m_files := m_files m; m_failing := m_failing m; m_loaded := true |})
      | _ => (ok "", m)
      end
  | HTick _ => (Some "deadline exceeded", m)
  | HPause _ => (None, m)
  end.
Definition site (X : Set) (e : InitE X) (m : machine) : X * machine :=
  match e in InitE X return X * machine with
  | AtHost _ e => host _ e m
  | AtNode _ e => node _ e m
  | ReadFile _ => (Ok "key", m)
  | WriteFile _ _ _ => (None, m)
  | ScanHostKey _ => (Ok "scanned", m)
  | NewClient _ _ => (None, m)
  | RunPreflight _ _ _ => (None, m)
  | Geteuid => (0%Z, m)
  | LocalAddress => (Ok "192.0.2.10", m)
  | Out _ | Say _ => (tt, m)
  end.

Definition config_of (address : string) : Config :=
  {| NodeAddress := address; ExtraTLSSANs := []; ServerURL := ""; Token := ""; MinReadyNodes := 1; K3sVersion_ := ""; SnapshotCron := "";
     SnapshotRetention := 0; c_Sudo := false; ReadyTimeout := 0 |}.
(** An up-to-date server whose audit policy is an old one. *)
Definition up_to_date : machine :=
  {| m_files := <[pathKubeconfig := bytes ("server: " +:+ localServer)]> (<[pathToken := bytes "K10ab::server:cd"]>
       (<[pathConfig := config_yaml (config_of "n1")]> (<[pathAudit := bytes "old policy"]> (<[nodeHostsPath := bytes "127.0.0.1 localhost"]> ∅))));
     m_failing := 0; m_loaded := false |}.
Definition options : initOptions :=
  {| o_version := "v1.0.0"; o_nodes := ["n1"]; o_sshUser := "root"; o_sshPort := 22; o_sshKeyPath := "id"; o_hostKeyPaths := ["n1.pub"];
     o_acceptNewKey := false; o_k3sVersion := ""; o_kubeconfig := "orkano.kubeconfig"; o_readyTimeout := 0; o_skipPreflight := false;
     o_acmeEmail := ""; o_acmeProd := false; o_allowRepos := ["acme/web"]; o_unsafeFeatures := []; o_receiverHost := ""; o_secretsVault := false;
     o_local := false |}.
Definition small_pem (l : list ascii) : option string := if decide (l = []) then None else Some "CERTIFICATE".
Definition info : RegistryInfo := {| ri_CA := bytes ca_text; ri_ClusterIP := "10.43.0.7" |}.
Definition installing : InstallConfig := install_config options false.
End Machine.
Import Machine.

(** ** Files and names *)
Definition p_file : string := "/etc/orkano/a.yaml".
Definition content_file : list ascii := bytes "a: 1".
Definition writing := run node (InstallNode.ensureFile p_file content_file "0600") up_to_date.
Lemma writing_exec : exec (InstallNode.ensureFile p_file content_file "0600") writing.1.2 writing.1.1.
Proof. exact (run_exec node (InstallNode.ensureFile p_file content_file "0600") up_to_date). Qed.

Lemma ensure_file_atomic_witness : always (old_or_new p_file content_file ∅) ∅ (omap run_reply writing.1.2) ∧ is_ok writing.1.1 = true.
Proof. split; [exact (proj1 (ensure_file_atomic _ _ _ _ _ ∅ writing_exec))|vm_compute; reflexivity]. Defined.
Lemma ensure_file_lines_fit_witness : Forall (fits "sudo ") (omap run_reply writing.1.2) ∧ length writing.1.2 = 4.
Proof.
  split; [|vm_compute; reflexivity]. apply (ensure_file_lines_fit true p_file content_file "0600" writing.1.2 writing.1.1); [| | |exact writing_exec];
    unfold PATH_MAX; apply Nat.leb_le; vm_compute; reflexivity.
Defined.

Definition files_of : list manifestFile := match writeSet embedded installing with Ok files => files | Err _ => [] end.
Lemma write_set_names_witness : length files_of = 2 ∧ valid_files files_of.
Proof.
  split; [vm_compute; reflexivity|].
  assert (Hw : writeSet embedded installing = Ok files_of) by (vm_compute; reflexivity). exact (proj1 (write_set_names embedded _ _ Hw)).
Defined.

(** ** The installer *)
Definition applying := run node (Apply embedded 3 installing) up_to_date.
Lemma applying_exec : exec (Apply embedded 3 installing) applying.1.2 applying.1.1.
Proof. exact (run_exec node (Apply embedded 3 installing) up_to_date). Qed.
Lemma find_split {A} (f : A → bool) (l : list A) : existsb f l = true → ∃ a c b, l = a ++ c :: b ∧ f c = true.
Proof. intros (c & (a & b & ->)%list_elem_of_In%list_elem_of_split & Hc)%existsb_exists. by exists a, c, b. Qed.

(** The write of the manifest that is no CRD. *)
Definition roles_tmp : string := "/var/lib/rancher/k3s/server/manifests/orkano/rbac-roles.yaml.tmp".
Definition writes_roles (l : Cmd * result string RunResult) : bool := bool_decide (pipes_to l = Some roles_tmp).
Lemma apply_in_order_witness : ∃ a l b files, omap run_reply applying.1.2 = a ++ l :: b ∧ pipes_to l = Some roles_tmp ∧ in_order installing files a l.
Proof.
  assert (Hex : existsb writes_roles (omap run_reply applying.1.2) = true) by (vm_compute; reflexivity).
  destruct (find_split _ _ Hex) as (a & l & b & Heq & Hl). apply bool_decide_eq_true in Hl.
  destruct (apply_in_order embedded installing 3 _ _ a l b applying_exec Heq) as (files & _ & _ & Ho). exists a, l, b, files.
  exact (conj Heq (conj Hl Ho)).
Defined.

Definition values : Values :=
  {| v_SuperuserPassword := "a"; v_ReceiverPassword := "b"; v_DispatcherPassword := "c"; v_DashboardPassword := "d"; v_WebhookSecret := "e";
     v_BootstrapToken := "token"; v_DashboardEncKey := "key" |}.
Definition storing := run node (ensureSecrets values) up_to_date.
Lemma storing_exec : exec (ensureSecrets values) storing.1.2 (storing.1.1.1.1, storing.1.1.1.2, storing.1.1.2).
Proof. rewrite <- !surjective_pairing. exact (run_exec node (ensureSecrets values) up_to_date). Qed.
Lemma installer_token_stored_witness : storing.1.1.1.1 = "token" ∧
  Forall (λ p, p ∈ spec_payload <$> spec_table values) (omap applied (omap run_reply storing.1.2)).
Proof. split; [vm_compute; reflexivity|]. exact (proj1 (installer_token_stored values _ _ _ _ storing_exec)). Defined.

(** ** The registry *)
Definition wiring := run node (WireRegistry small_pem) up_to_date.
Lemma wired_registry_usable_witness : ∃ i, exec (WireRegistry small_pem) wiring.1.2 (Ok i) ∧ incomplete i = false.
Proof.
  pose proof (run_exec node (WireRegistry small_pem) up_to_date) as Hex. fold wiring in Hex.
  assert (Hok : is_ok wiring.1.1 = true) by (vm_compute; reflexivity). destruct wiring.1.1 as [i|e]; [|done]. exists i.
  split; [done|]. exact (proj1 (wired_registry_usable small_pem eq_refl _ _ Hex)).
Defined.

Lemma hosts_entry_exact_witness :
  other_lines (renderHosts ("127.0.0.1 localhost" +:+ nl) "10.43.0.7" registryHost) = ["127.0.0.1 localhost"].
Proof.
  assert (H1 : ParseIP "10.43.0.7" = true) by (vm_compute; reflexivity). assert (H2 : ParseIP "fd00::7" = true) by (vm_compute; reflexivity).
  destruct (hosts_entry_exact ("127.0.0.1 localhost" +:+ nl) _ _ H1 H2) as (_ & Ho & _). rewrite Ho. vm_compute. reflexivity.
Defined.

(** A node whose restart fails once. *)
Definition unlucky : machine := {| m_files := m_files up_to_date; m_failing := 1; m_loaded := false |}.
Definition telling := run node (WriteNodeRegistry pretty 3 info (registry_config options false)) unlucky.
Definition again := run node (WriteNodeRegistry pretty 3 info (registry_config options false)) telling.2.

Lemma telling_exec : exec (WriteNodeRegistry duration_text 3 info (registry_config options false)) telling.1.2 telling.1.1.
Proof. exact (run_exec node (WriteNodeRegistry pretty 3 info (registry_config options false)) unlucky). Qed.
Lemma again_exec : exec (WriteNodeRegistry duration_text 3 info (registry_config options false)) again.1.2 again.1.1.
Proof. exact (run_exec node (WriteNodeRegistry pretty 3 info (registry_config options false)) telling.2). Qed.

(** The machine does to its files what the lines say. *)
Lemma node_step c m : line_step (m_files m) c (node _ (Run c) m).1 (m_files (node _ (Run c) m).2).
Proof.
  destruct c as [p|mk app payload t|a b|p|mode p|args|payload verb|]; cbn [node fst snd line_step].
  - split; [done|]. unfold cat_reply. destruct (m_files m !! p) as [l|]; [|by intros res [= <-]].
    intros res [= <-] _. cbn. by rewrite bytes_of_bytes.
  - done.
  - destruct (m_files m !! a) as [l|] eqn:Ha; cbn; [by exists l|by left].
  - done.
  - done.
  - done.
  - done.
  - destruct (m_failing m); done.
Qed.
Lemma node_runs {A} (p : prog NodeE A) m : fs_runs (m_files m) (omap run_reply (run node p m).1.2) (m_files (run node p m).2).
Proof.
  revert m. induction p as [a|X e k IH]; intros m; [done|]. cbn [run]. destruct (node X e m) as [x m1] eqn:Hn.
  specialize (IH x m1). destruct (run node (k x) m1) as [[a tr] m2]. destruct e as [c|i|n].
  - pose proof (node_step c m) as Hs. rewrite Hn in Hs. cbn. by exists (m_files m1).
  - injection Hn as <- <-. exact IH.
  - injection Hn as <- <-. exact IH.
Qed.
Lemma registry_restart_lost_witness : again.1.1 = Some (false, None) ∧ Forall (λ l, l.1 ≠ RestartK3s) (omap run_reply again.1.2).
Proof.
  assert (He : ∃ e, telling.1.1 = Some (true, Some e)) by (eexists; vm_compute; reflexivity). destruct He as [e He].
  pose proof telling_exec as H1. rewrite He in H1.
  apply (registry_restart_lost duration_text 3 info (registry_config options false) telling.1.2 e (m_files unlucky) (m_files telling.2)
    again.1.2 again.1.1 (m_files again.2) H1 (node_runs _ _) again_exec (node_runs _ _)).
  apply Forall_forall. intros l Hl. assert (Hall : forallb (λ l, succeeded l.2) (omap run_reply again.1.2) = true) by (vm_compute; reflexivity).
  rewrite forallb_forall in Hall. by apply Hall, list_elem_of_In.
Defined.

(** ** A server *)
Definition sysctl : list ascii := bytes "vm.panic_on_oom=0".
Definition audit : list ascii := bytes "new policy".
Definition psa : list ascii := bytes "psa".
Definition profile : list ascii := bytes "profile orkano-buildkit".
Definition config : Config := config_of "n1".
Definition booting := run host (Bootstrap pretty sysctl audit psa config 3) up_to_date.
Lemma booting_exec : ∃ res, booting.1.1 = Some (Ok res) ∧ exec (Bootstrap pretty sysctl audit psa config 3) booting.1.2 (Some (Ok res)).
Proof.
  pose proof (run_exec host (Bootstrap pretty sysctl audit psa config 3) up_to_date) as Hex. fold booting in Hex.
  assert (Hok : (is_ok <$> booting.1.1) = Some true) by (vm_compute; reflexivity).
  destruct booting.1.1 as [[res|e]|]; [|discriminate Hok..]. exists res. exact (conj eq_refl Hex).
Qed.
Lemma host_step_machine c m : c ≠ HCat profilesFile → host_step (m_files m) c (host _ (HRun c) m).1 (m_files (host _ (HRun c) m).2).
Proof.
  intros Hc. destruct c as [p|p payload mode| | | | | | | | |]; try done. cbn [host]. rewrite decide_False by congruence. split; [done|].
  unfold cat_reply. cbn [fst]. destruct (m_files m !! p) as [l|]; [|by intros res [= <-]]. intros res [= <-] _. cbn. by rewrite bytes_of_bytes.
Qed.
Definition no_list (c : call HostE) : bool := match c with Call (HRun c) _ => negb (bool_decide (c = HCat profilesFile)) | _ => true end.
Lemma host_machine_runs {A} (p : prog HostE A) m :
  forallb no_list (run host p m).1.2 = true → host_runs (m_files m) (host_lines (run host p m).1.2) (m_files (run host p m).2).
Proof.
  revert m. induction p as [a|X e k IH]; intros m; [done|]. cbn [run]. destruct (host X e m) as [x m1] eqn:Hn.
  specialize (IH x m1). destruct (run host (k x) m1) as [[a tr] m2]. cbn [fst snd forallb]. intros [Hc Htr]%andb_prop. specialize (IH Htr).
  destruct e as [c|i|d].
  - pose proof (host_step_machine c m) as Hs. rewrite Hn in Hs. cbn [no_list] in Hc. apply negb_true_iff, bool_decide_eq_false in Hc.
    exists (m_files m1). split; [by apply Hs|exact IH].
  - injection Hn as <- <-. exact IH.
  - injection Hn as <- <-. exact IH.
Qed.
Lemma bootstrap_hardened_witness : m_files up_to_date !! pathAudit = Some (bytes "old policy") ∧ m_files booting.2 !! pathAudit = Some audit.
Proof.
  split; [vm_compute; reflexivity|]. destruct booting_exec as (res & _ & Hex).
  assert (Hr : host_runs (m_files up_to_date) (host_lines booting.1.2) (m_files booting.2)) by (apply host_machine_runs; vm_compute; reflexivity).
  destruct (bootstrap_hardened pretty sysctl audit psa config 3 _ res _ _ Hex Hr) as (_ & _ & (_ & Ha & _) & _). exact Ha.
Defined.

(** A server that still runs an older release, and on which the download of the installer
    fails: the pipeline then runs an empty script, which exits 0. *)
Definition stale (X : Set) (e : HostE X) (m : machine) : X * machine :=
  match e in HostE X return X * machine → X * machine with
  | HRun K3sVersion => λ _, (ok "k3s version v1.30.1+k3s1 (abc)", m)
  | _ => λ a, a
  end (host X e m).
Definition upgrading := run stale (Bootstrap pretty sysctl audit psa config 3) up_to_date.
(** The bootstrap reports the wanted version on a node that still runs the old one. *)
Theorem upgrade_not_checked :
  (λ r, match r with Ok res => Version res | Err e => e end) <$> upgrading.1.1 = Some (version config) ∧
  probed {| ExitStatus := 0; Stdout := "k3s version v1.30.1+k3s1 (abc)"; Stderr := "" |} = Some "v1.30.1+k3s1" ∧
  version config ≠ "v1.30.1+k3s1" ∧ actions (host_lines upgrading.1.2) = [InstallK3s (version config)].
Proof. split_and!; [vm_compute; reflexivity|vm_compute; reflexivity|by intros ?|vm_compute; reflexivity]. Qed.

(** The audit policy is replaced, and nothing is done to the service that runs with the old one. *)
Lemma service_action_exact_witness : ∃ res probe, booting.1.1 = Some (Ok res) ∧ Changed res = true ∧ actions (host_lines booting.1.2) = [] ∧
  service_step config (probed probe) (host_lines booting.1.2) [].
Proof.
  destruct booting_exec as (res & Hres & Hex).
  destruct (service_action_exact pretty sysctl audit psa config 3 _ res Hex) as (probe & _ & Hstep).
  assert (Hacts : actions (host_lines booting.1.2) = []) by (vm_compute; reflexivity). rewrite Hacts in Hstep.
  assert (Hch : (λ r, match r with Some (Ok res) => Changed res | _ => false end) booting.1.1 = true) by (vm_compute; reflexivity).
  rewrite Hres in Hch. exists res, probe. exact (conj Hres (conj Hch (conj Hacts Hstep))).
Defined.
Lemma input_stays_data_witness : Forall (λ l, inert_line l = true) (host_lines booting.1.2).
Proof.
  destruct booting_exec as (res & _ & Hex). exact (proj1 (input_stays_data pretty sysctl audit psa config 3 _ _ Hex)).
Defined.

Definition preparing := run host (EnsureAppArmorProfile profile) up_to_date.
Lemma profile_enforced_witness : ∃ r, exec (EnsureAppArmorProfile profile) preparing.1.2 (Ok r) ∧ np_Mode r = modeEnforce.
Proof.
  pose proof (run_exec host (EnsureAppArmorProfile profile) up_to_date) as Hex. fold preparing in Hex.
  assert (Hok : is_ok preparing.1.1 = true) by (vm_compute; reflexivity). destruct preparing.1.1 as [r|e]; [|discriminate Hok].
  exists r. exact (conj Hex (proj1 (profile_enforced profile _ _ Hex))).
Defined.

(** ** A whole run *)
Definition initialise : init unit := runInit embedded sysctl audit psa profile small_pem Ok 3 options.
Definition initialising := run site initialise up_to_date.
Lemma initialising_exec : exec initialise initialising.1.2 initialising.1.1.
Proof. exact (run_exec site initialise up_to_date). Qed.
Lemma initialising_ends : ∃ r, initialising.1.1 = Some r ∧ is_ok r = true.
Proof.
  assert (Hok : (is_ok <$> initialising.1.1) = Some true) by (vm_compute; reflexivity).
  destruct initialising.1.1 as [r|]; [|discriminate Hok]. injection Hok as Hok. exists r. exact (conj eq_refl Hok).
Qed.
Definition is_restart (c : call InitE) : bool := match node_line c with Some (_, RestartK3s, _) => true | _ => false end.
Lemma connection_discipline_witness : ∃ before c after, initialising.1.2 = before ++ c :: after ∧ is_restart c = true ∧
  match c with Call e _ => allowed options _ e before end.
Proof.
  assert (Hr : existsb is_restart initialising.1.2 = true) by (vm_compute; reflexivity).
  destruct (find_split _ _ Hr) as (before & c & after & Heq & Hc). pose proof initialising_exec as Hex. rewrite Heq in Hex.
  pose proof (connection_discipline embedded sysctl audit psa profile small_pem Ok 3 options before c after _ eq_refl Hex) as Ha.
  exists before, c, after. exact (conj Heq (conj Hc Ha)).
Defined.
