(* ===== verification/Probes.v ===== *)
(** * Probes that make calls

    [internal/preflight] and [internal/doctor] contribute checks whose probes talk to a node
    or to the cluster.  Here such a probe is a program ([Effects.v]) and the world of the
    runner ([CheckRun.v]) is the state of an environment that answers calls, together with
    the calls made so far, so that what a run reports can be read off the replies it got.
    The environment is arbitrary: any function of the call and of its own state. *)
From S2P Require Import Prelude GoStrings CheckRegistry CheckRun Effects.

(** [reg.Register] over a list of checks, stopping at the first error *)
Fixpoint register_list {W} (reg : Registry W) (cs : list (Check W)) : result RegisterError (Registry W) :=
  match cs with
  | [] => Ok reg
  | c :: cs => match Register reg c with Err e => Err e | Ok reg => register_list reg cs end
  end.

Lemma register_list_reachable {W} (reg reg' : Registry W) cs :
  reachable reg → register_list reg cs = Ok reg' → reachable reg'.
Proof.
  revert reg. induction cs as [|c cs IH]; intros reg Hr; cbn [register_list]; [by intros [= <-]|].
  destruct (Register reg c) as [reg1|] eqn:Hc; [|done]. apply IH. by eapply reachable_register.
Qed.

(** A check whose probe is a program: what the package's constructors return, before it is
    known who answers the calls. *)
Record ProbeCheck (E : Set → Type) : Type := {
  pc_ID : string; pc_Severity : Severity; pc_Summary : string; pc_Remediation : string; pc_Requires : list string;
  pc_Probe : prog E (result string Result);
}.
Arguments Build_ProbeCheck {_} _ _ _ _ _ _.
Arguments pc_ID {_} _.
Arguments pc_Severity {_} _.
Arguments pc_Summary {_} _.
Arguments pc_Remediation {_} _.
Arguments pc_Requires {_} _.
Arguments pc_Probe {_} _.

Definition verdict (st : Status) (msg : string) : result string Result := Ok (mkResult st msg).
Abbreviation passing := (verdict StatusPass).
Abbreviation failing := (verdict StatusFail).
Abbreviation skipping := (verdict StatusSkip).

(** What the runner makes of what a probe returns. *)
Definition judged (r : result string Result) : Outcome :=
  match r with
  | Ok res => match ResultStatus res with StatusPass => OutcomePass | StatusFail => OutcomeFail | StatusSkip => OutcomeSkip | StatusOther _ => OutcomeError end
  | Err _ => OutcomeError
  end.
Lemma judged_set r : judged r ≠ OutcomeUnset.
Proof. by destruct r as [[[] ?]|]. Qed.

Section probing.
Context {E : Set → Type} {S : Type} (h : ∀ X : Set, E X → S → X * S).

Record World : Type := { w_state : S; w_calls : list (call E) }.

Definition probing (p : prog E (result string Result)) (w : World) : panics (result string Result) * World :=
  let out := run h p (w_state w) in
  (Returned out.1.1, {| w_state := out.2; w_calls := w_calls w ++ out.1.2 |}).
Definition checking (c : ProbeCheck E) : Check World :=
  mkCheck (pc_ID c) (pc_Severity c) (pc_Summary c) (pc_Remediation c) (pc_Requires c) (Some (probing (pc_Probe c))) None.

(** The context is not cancelled while the run lasts. *)
Context `{UnicodeTables}.
Abbreviation live := (λ _ : World, @None string).
Abbreviation no_stack := (λ _ : World, "").

(** What is reported of a probed check, and the calls the probe made. *)
Definition reported (c : ProbeCheck E) (res : CheckResult) (tr : list (call E)) : Prop :=
  ResID res = pc_ID c ∧ ResSeverity res = pc_Severity c ∧ ∃ r, exec (pc_Probe c) tr r ∧ ResOutcome res = judged r.

Lemma probe_reported c w : ∃ res tr w',
  probe live no_stack (checking c) (base_result (checking c)) w = (res, w') ∧ w_calls w' = w_calls w ++ tr ∧ reported c res tr.
Proof.
  unfold probe. cbn [Probe checking probing].
  assert (Hex : exec (pc_Probe c) (run h (pc_Probe c) (w_state w)).1.2 (run h (pc_Probe c) (w_state w)).1.1) by apply run_exec.
  destruct (run h (pc_Probe c) (w_state w)) as [[r tr] s']. cbn [fst snd] in *.
  destruct r as [[[] msg]|e]; eexists _, tr, _; (split; [reflexivity|]); (split; [reflexivity|]);
    (split; [done|]); (split; [done|]); eexists; (split; [exact Hex|]); done.
Qed.

(** A run of checks that were probed one after the other, with the calls it made. *)
Fixpoint probed_all (cs : list (ProbeCheck E)) (run : list CheckResult) (tr : list (call E)) : Prop :=
  match cs, run with
  | [], [] => tr = []
  | c :: cs, res :: run => ∃ t1 t2, tr = t1 ++ t2 ∧ reported c res t1 ∧ probed_all cs run t2
  | _, _ => False
  end.

Lemma probed_all_length cs run tr : probed_all cs run tr → length run = length cs.
Proof.
  revert run tr. induction cs as [|c cs IH]; intros [|res run] tr; try done. intros (t1 & t2 & _ & _ & Hp). simpl. by rewrite (IH _ _ Hp).
Qed.

Definition requiring (reqs : list string) (c : ProbeCheck E) : Prop := pc_Requires c = reqs ∧ (pc_ID c ∉ reqs).
#[export] Instance requiring_dec reqs c : Decision (requiring reqs c).
Proof. unfold requiring. apply _. Defined.

Lemma sort_requirements_pass results reqs :
  (∀ q, q ∈ reqs → outcome_of results q = OutcomePass) → sort_requirements results reqs [] [] = ([], []).
Proof.
  intros Hp. rewrite sort_requirements_spec. cbn [app].
  assert (∀ (P : string → Prop) `{∀ q, Decision (P q)}, (∀ q, q ∈ reqs → ¬ P q) → filter P reqs = []) as Hn.
  { intros P HP Hno. clear Hp. induction reqs as [|q reqs IH]; [done|]. rewrite filter_cons_False by (apply Hno; left).
    apply IH. intros q' Hq'. apply Hno. by right. }
  rewrite !Hn; [done| |]; intros q Hq; rewrite (Hp q Hq); [done|by intros []].
Qed.

Lemma run_check_cleared c results w :
  (∀ q, q ∈ pc_Requires c → outcome_of results q = OutcomePass) →
  run_check live no_stack results (checking c) w = probe live no_stack (checking c) (base_result (checking c)) w.
Proof. intros Hreq. unfold run_check. change (Requires (checking c)) with (pc_Requires c). by rewrite (sort_requirements_pass _ _ Hreq). Qed.

(** Once the requirements have passed, every check is probed. *)
Lemma run_loop_cleared reqs cs results run w :
  Forall (requiring reqs) cs → (∀ q, q ∈ reqs → outcome_of results q = OutcomePass) →
  ∃ rest tr w', run_loop live no_stack (checking <$> cs) results run w = (run ++ rest, w') ∧
    w_calls w' = w_calls w ++ tr ∧ probed_all cs rest tr.
Proof.
  intros Hi. revert results run w. induction Hi as [|c cs [Hr Hid] _ IH]; intros results run w Hreq.
  { exists [], [], w. rewrite !app_nil_r. done. }
  rewrite fmap_cons. cbn [run_loop]. rewrite run_check_cleared by (by rewrite Hr).
  destruct (probe_reported c w) as (res & t1 & w1 & -> & Hw1 & Hrep).
  match goal with |- context [run_loop _ _ _ ?r ?l _] => destruct (IH r l w1) as (rest & t2 & w' & -> & Hw' & Hall) end.
  { intros q Hq. unfold outcome_of. cbn [ID]. rewrite lookup_insert_ne by (by intros <-). by apply Hreq. }
  exists (res :: rest), (t1 ++ t2), w'. rewrite <- app_assoc. split; [done|]. split; [by rewrite Hw', Hw1, app_assoc|].
  by exists t1, t2.
Qed.

(** With a requirement that failed, errored or was blocked, none is. *)
Lemma run_loop_blocked root cs results run w :
  Forall (requiring [root]) cs → blocks (outcome_of results root) →
  ∃ rest, run_loop live no_stack (checking <$> cs) results run w = (run ++ rest, w).
Proof.
  intros Hi. revert results run. induction Hi as [|c cs [Hr Hid] _ IH]; intros results run Hb.
  { exists []. by rewrite app_nil_r. }
  rewrite fmap_cons. cbn [run_loop]. unfold run_check. cbn [Requires checking]. rewrite Hr, sort_requirements_spec. cbn [app].
  rewrite filter_cons_True by done. cbn [filter list_filter length]. rewrite decide_True by (cbn; lia).
  match goal with |- context [run_loop _ _ _ ?r ?l _] => destruct (IH r l) as [rest ->] end.
  { unfold outcome_of. cbn [ID]. rewrite lookup_insert_ne by set_solver. exact Hb. }
  eexists. by rewrite <- app_assoc.
Qed.
End probing.
Arguments World _ _ : clear implicits.
