(* ===== verification/Preflight.v ===== *)
(** * Checking a node before it is touched

    [internal/preflight]: the five checks [orkano init] runs against a node, as probes over
    the runner ([Probes.v]), and [runPreflight] of [cli/internal/cmd/init.go], the gate
    they make.  Running a command on the node and reading the control host's clock are
    calls with arbitrary replies; a clock reading has its wall and its monotonic part, in
    nanoseconds.  [dur] is [time.Duration.String]; what strconv says of a bad number is left
    out of the messages. *)
From S2P Require Import Prelude GoStrings CheckRegistry CheckRun Effects Sha256 RateLimit ApiServer.
From S2P Require Import Net InstallNode Host Probes.
From Stdlib Require Import Ascii.

(** ** Constants *)
Definition IDSSHReachable : string := "ssh.reachable".
Definition IDArchSupported : string := "arch.supported".
Definition IDToolsPresent : string := "tools.present".
Definition IDPortsFree : string := "ports.free".
Definition IDTimeSynced : string := "time.synced".
Definition DefaultRequiredPorts : list Z := [6443; 2379; 2380; 10250; 80; 443]%Z.
Definition ExistingK3sPorts : list Z := [6443; 2379; 2380; 10250]%Z.
Definition DefaultMaxClockSkew : Z := 5 * Second.

Record Reading : Set := { rd_Wall : Z; rd_Mono : Z }.
Inductive PreE : Set → Type :=
| Execute (cmd : string) : PreE (result string RunResult)
| ReadClock : PreE Reading.

Record Options : Type := {
  Target : string; RequiredPorts : list Z; AllowExistingK3s : bool; opt_Sudo : bool; MaxClockSkew : Z;
}.
Definition ports (o : Options) : list Z := if decide (RequiredPorts o = []) then DefaultRequiredPorts else RequiredPorts o.
Definition maxSkew (o : Options) : Z := if decide (MaxClockSkew o ≤ 0)%Z then DefaultMaxClockSkew else MaxClockSkew o.
Definition target (o : Options) : string := if decide (Target o = "") then "the node" else Target o.

(** ** Durations and times *)

(** [time.Unix(epoch, 0)]: seconds are counted from year 1 in 64 bits *)
Definition unixToInternal : Z := 62135596800.
Definition unix_time (epoch : Z) : Z := (i64 (epoch + unixToInternal) - unixToInternal) * Second.
Definition abs (d : Z) : Z := if decide (d < 0)%Z then i64 (- d) else d.
Definition direction (offset : Z) : string := if decide (offset < 0)%Z then "behind" else "ahead of".
(** [time.Duration.Round] to a positive multiple, of a duration that is not negative: half up *)
Definition round_to (m d : Z) : Z :=
  let r := (d `mod` m)%Z in
  if decide (r + r < m)%Z then d - r
  else let d1 := i64 (d + m - r) in if decide (d < d1)%Z then d1 else i64_max.

(** ** Sockets *)
Definition after_colon (s : string) : option string :=
  match LastIndexByte (bytes s) ":"%char with Some i => Some (of_bytes (drop (S i) (bytes s))) | None => None end.
Definition listening_port `{UnicodeTables} (line : string) : option Z :=
  let fields := Fields line in
  if decide (length fields < 4) then None
  else local ← fields !! 3%nat; port ← after_colon local; ParseInt10 64 port.
Definition listeningPorts `{UnicodeTables} (ssOutput : string) : list Z := omap listening_port (Split ssOutput newline).
Definition joinInts (xs : list Z) : string := Join (pretty <$> xs) ", ".
Definition occupiedAllowedForExistingK3s (occupied : list Z) : bool := forallb (λ p, bool_decide (p ∈ ExistingK3sPorts)) occupied.

(** ** The probes *)
Section preflight.
Context `{UnicodeTables} (dur : Z → string) (opt : Options).

Definition exit_text (what : string) (res : RunResult) : string :=
  what +:+ " exited " +:+ pretty (ExitStatus res) +:+ ": " +:+ firstLine (Stderr res).

Definition ssh_probe : prog PreE (result string Result) :=
  let! res := trigger (Execute "true") in
  Ret (match res with
       | Err e => failing ("cannot reach " +:+ target opt +:+ " over SSH: " +:+ e)
       | Ok res =>
           if decide (ExitStatus res ≠ 0%Z) then
             failing (exit_text ("connected to " +:+ target opt +:+ " but a trivial command") res)
           else passing ("connected to " +:+ target opt +:+ " over SSH")
       end).

Definition supported (machine : string) : option string :=
  if decide (machine ∈ ["x86_64"; "amd64"]) then Some "amd64"
  else if decide (machine ∈ ["aarch64"; "arm64"]) then Some "arm64" else None.
Definition arch_probe : prog PreE (result string Result) :=
  let! res := trigger (Execute "uname -m") in
  Ret (match res with
       | Err e => Err ("run uname: " +:+ e)
       | Ok res =>
           if decide (ExitStatus res ≠ 0%Z) then Err (exit_text "uname -m" res)
           else
             let machine := TrimSpace (Stdout res) in
             match supported machine with
             | Some arch => passing ("architecture " +:+ machine +:+ " (" +:+ arch +:+ ")")
             | None =>
                 if decide (machine = "") then Err "uname -m returned no output"
                 else failing ("unsupported architecture " +:+ machine +:+ "; Orkano supports amd64 and arm64")
             end
       end).

Definition tools_probe : prog PreE (result string Result) :=
  let! res := trigger (Execute "command -v curl") in
  Ret (match res with
       | Err e => Err ("run command -v curl: " +:+ e)
       | Ok res =>
           if decide (ExitStatus res = 0%Z) then
             let path := firstLine (Stdout res) in
             passing ("curl is present" +:+ (if decide (path = "") then "" else " (" +:+ path +:+ ")"))
           else if decide (ExitStatus res = 1%Z) then
             failing "curl is not installed; the k3s installer is `curl -sfL https://get.k3s.io | sh`"
           else Err (exit_text "command -v curl" res)
       end).

Definition readyz_command : string := (if opt_Sudo opt then "sudo " else "") +:+ "/usr/local/bin/k3s kubectl get --raw=/readyz".
Definition answers_ready (res : result string RunResult) : bool :=
  match res with Ok res => bool_decide (ExitStatus res = 0%Z ∧ TrimSpace (Stdout res) = "ok") | Err _ => false end.
Definition existingK3sReady : prog PreE bool :=
  let! res := trigger (Execute readyz_command) in Ret (answers_ready res).

Definition occupied_ports (listening : list Z) : list Z := filter (λ p, p ∈ listening) (ports opt).
Definition ports_probe : prog PreE (result string Result) :=
  let! res := trigger (Execute "ss -Hltn") in
  match res with
  | Err e => Ret (Err ("run ss: " +:+ e))
  | Ok res =>
      if decide (ExitStatus res ≠ 0%Z) then
        Ret (Err ("ss -Hltn exited " +:+ pretty (ExitStatus res) +:+ " (is iproute2 installed?): " +:+ firstLine (Stderr res)))
      else
        let occupied := occupied_ports (listeningPorts (Stdout res)) in
        if decide (occupied = []) then Ret (passing ("required ports free: " +:+ joinInts (ports opt)))
        else
          let! converge := (if AllowExistingK3s opt && occupiedAllowedForExistingK3s occupied then existingK3sReady else Ret false) in
          Ret (if converge : bool then
                 passing ("k3s is already running on required control-plane ports: " +:+ joinInts occupied +:+
                          "; treating as an idempotent converge")
               else failing ("ports already in use: " +:+ joinInts occupied))
  end.

(** How far the node's clock is from the middle of the two readings. *)
Definition clock_offset (before after : Reading) (epoch : Z) : Z :=
  let mid := (rd_Wall before + Z.quot (Sub (rd_Mono after) (rd_Mono before)) 2)%Z in
  Sub (unix_time epoch) mid.
Definition read_date (before after : Reading) (res : result string RunResult) : result string Result :=
  match res with
  | Err e => Err ("run date: " +:+ e)
  | Ok res =>
      if decide (ExitStatus res ≠ 0%Z) then Err (exit_text "date" res)
      else
        let text := TrimSpace (Stdout res) in
        match ParseInt10 64 text with
        | None => Err ("parse node time " +:+ Quote text)
        | Some epoch =>
            let offset := clock_offset before after epoch in
            if decide (maxSkew opt < abs offset)%Z then
              failing ("node clock is ~" +:+ dur (round_to Second (abs offset)) +:+ " " +:+ direction offset +:+
                       " the control host (tolerance " +:+ dur (maxSkew opt) +:+ ")")
            else passing ("node clock within " +:+ dur (maxSkew opt) +:+ " of the control host")
        end
  end.
Definition time_probe : prog PreE (result string Result) :=
  let! before := trigger ReadClock in
  let! res := trigger (Execute "date -u +%s") in
  let! after := trigger ReadClock in
  Ret (read_date before after res).

(** ** The checks and the gate *)
Definition sshReachableCheck : ProbeCheck PreE :=
  Build_ProbeCheck IDSSHReachable SeverityCritical "SSH connection to the node succeeds"
    ("check the address and that sshd is running, and that the key authenticates: ssh " +:+ target opt) [] ssh_probe.
Definition archSupportedCheck : ProbeCheck PreE :=
  Build_ProbeCheck IDArchSupported SeverityCritical "node CPU architecture is amd64 or arm64"
    "Orkano publishes images for amd64 and arm64 only; use a node of one of those architectures" [IDSSHReachable] arch_probe.
Definition toolsPresentCheck : ProbeCheck PreE :=
  Build_ProbeCheck IDToolsPresent SeverityCritical "tools required to install k3s are present"
    "install curl on the node, e.g. `apt-get install -y curl` or `dnf install -y curl`" [IDSSHReachable] tools_probe.
Definition portsFreeCheck : ProbeCheck PreE :=
  Build_ProbeCheck IDPortsFree SeverityCritical "ports required by k3s and the ingress are free"
    "stop whatever is listening on the reported ports, or pick a clean node" [IDSSHReachable] ports_probe.
Definition timeSyncedCheck : ProbeCheck PreE :=
  Build_ProbeCheck IDTimeSynced SeverityWarning "node clock is within tolerance of the control host"
    "enable time sync on the node, e.g. `timedatectl set-ntp true` or install chrony" [IDSSHReachable] time_probe.
Definition Checks : list (ProbeCheck PreE) :=
  [sshReachableCheck; archSupportedCheck; toolsPresentCheck; portsFreeCheck; timeSyncedCheck].

Section environment.
Context {S : Type} (h : ∀ X : Set, PreE X → S → X * S).

Definition RegisterPreflight (reg : Registry (World PreE S)) : result RegisterError (Registry (World PreE S)) :=
  register_list reg (checking h <$> Checks).

(** [ctx_err]: how the context of the run looks; [write]: what writing the report gives *)
Context (ctx_err : World PreE S → option string) (stack : World PreE S → string) (write : list string → option string).
Context (register_text : RegisterError → string) (graph_text : GraphError → string).
Definition runPreflight (w : World PreE S) : option string * World PreE S :=
  match RegisterPreflight New with
  | Err e => (Some ("register preflight checks: " +:+ register_text e), w)
  | Ok reg =>
      let '(out, w') := CheckRun.Run ctx_err stack reg w in
      (match out with
       | Err e => Some ("run preflight: " +:+ graph_text e)
       | Ok run =>
           match write (WriteText run) with
           | Some e => Some e
           | None =>
               if OK run then None
               else Some ("preflight failed; refusing to touch " +:+ Target opt +:+ " (re-run after fixing, or --skip-preflight to override)")
           end
       end, w')
  end.
End environment.
End preflight.

(** ** What each probe runs and when it passes *)
Definition executed (c : call PreE) : option (string * result string RunResult) :=
  match c with
  | @Call _ _ e x =>
      match e in PreE X return X → option (string * result string RunResult) with
      | Execute cmd => λ x, Some (cmd, x)
      | ReadClock => λ _, None
      end x
  end.
Definition exit_ok (x : result string RunResult) : bool :=
  match x with Ok res => bool_decide (ExitStatus res = 0%Z) | Err _ => false end.

Section probes.
Context `{UnicodeTables} (dur : Z → string) (opt : Options).

Definition good_machine (x : result string RunResult) : bool :=
  match x with Ok res => bool_decide (ExitStatus res = 0%Z) && has (supported (TrimSpace (Stdout res))) | Err _ => false end.
(** A port that may not be in use by anything, [ready] being what a second question gave. *)
Definition port_ok (listening : list Z) (ready : bool) (p : Z) : bool :=
  negb (bool_decide (p ∈ listening)) || (AllowExistingK3s opt && bool_decide (p ∈ ExistingK3sPorts) && ready).
Definition good_sockets (x : result string RunResult) (asked : list (string * result string RunResult)) : bool :=
  match x with
  | Ok res =>
      bool_decide (ExitStatus res = 0%Z) &&
      forallb (port_ok (listeningPorts (Stdout res)) (existsb (λ l, answers_ready l.2) asked)) (ports opt)
  | Err _ => false
  end.

Lemma ssh_runs tr r : exec (ssh_probe opt) tr r →
  ∃ x, omap executed tr = [("true", x)] ∧ judged r = if exit_ok x then OutcomePass else OutcomeFail.
Proof.
  intros (x & t & -> & -> & ->). exists x. split; [done|]. destruct x as [res|e]; [|done].
  cbn [exit_ok]. case_decide as Hx; [rewrite bool_decide_false by done|rewrite bool_decide_true by lia]; done.
Qed.
Lemma arch_runs tr r : exec arch_probe tr r →
  ∃ x, omap executed tr = [("uname -m", x)] ∧ judged r ≠ OutcomeSkip ∧ (judged r = OutcomePass ↔ good_machine x = true).
Proof.
  intros (x & t & -> & -> & ->). exists x. split; [done|]. destruct x as [res|e]; [|done].
  cbn [good_machine]. case_decide as Hx; [by rewrite bool_decide_false|]. rewrite bool_decide_true by lia. cbn zeta.
  destruct (supported _); [done|]. by case_decide.
Qed.
Lemma tools_runs tr r : exec tools_probe tr r →
  ∃ x, omap executed tr = [("command -v curl", x)] ∧ judged r ≠ OutcomeSkip ∧ (judged r = OutcomePass ↔ exit_ok x = true).
Proof.
  intros (x & t & -> & -> & ->). exists x. split; [done|]. destruct x as [res|e]; [|done].
  cbn [exit_ok]. case_decide as Hx; [by rewrite bool_decide_true|]. rewrite bool_decide_false by done. by case_decide.
Qed.

Lemma no_occupied listening ready : occupied_ports opt listening = [] → forallb (port_ok listening ready) (ports opt) = true.
Proof.
  unfold occupied_ports. intros Hf. apply forallb_forall. intros p Hp%list_elem_of_In. unfold port_ok.
  rewrite bool_decide_false; [done|]. intros Hin. apply (not_elem_of_nil p). rewrite <- Hf. by apply list_elem_of_filter.
Qed.
Lemma some_occupied listening ready : occupied_ports opt listening ≠ [] →
  forallb (port_ok listening ready) (ports opt) =
  AllowExistingK3s opt && occupiedAllowedForExistingK3s (occupied_ports opt listening) && ready.
Proof.
  unfold occupied_ports, occupiedAllowedForExistingK3s. induction (ports opt) as [|p ps IH]; [done|].
  rewrite filter_cons. cbn [forallb]. unfold port_ok at 1. case_decide as Hp.
  - intros _. rewrite bool_decide_true by done. cbn [negb orb forallb].
    destruct (decide (filter (λ q, q ∈ listening) ps = [])) as [Hn|Hn].
    + pose proof (no_occupied listening ready) as Hno. unfold occupied_ports in Hno.
      rewrite Hn. cbn [forallb]. assert (forallb (port_ok listening ready) ps = true) as ->.
      { apply forallb_forall. intros q Hq%list_elem_of_In. unfold port_ok. rewrite bool_decide_false; [done|].
        intros Hin. apply (not_elem_of_nil q). rewrite <- Hn. by apply list_elem_of_filter. }
      destruct (AllowExistingK3s opt), (bool_decide (p ∈ ExistingK3sPorts)), ready; done.
    + rewrite (IH Hn). generalize (forallb (λ q, bool_decide (q ∈ ExistingK3sPorts)) (filter (λ q, q ∈ listening) ps)). intros rest.
      by destruct (AllowExistingK3s opt), (bool_decide (p ∈ ExistingK3sPorts)), ready, rest.
  - intros Hn. rewrite bool_decide_false by done. by rewrite (IH Hn).
Qed.

Lemma ports_runs tr r : exec (ports_probe opt) tr r →
  ∃ x asked, omap executed tr = ("ss -Hltn", x) :: asked ∧ (asked = [] ∨ ∃ y, asked = [(readyz_command opt, y)]) ∧
    judged r ≠ OutcomeSkip ∧ (judged r = OutcomePass ↔ good_sockets x asked = true).
Proof.
  intros (x & t & -> & Hk). change (omap executed (_ :: t)) with (("ss -Hltn", x) :: omap executed t).
  cbn [prog_bind] in Hk. destruct x as [res|e].
  2:{ destruct Hk as [-> ->]. exists (Err e), []. split_and!; auto; done. }
  case_decide as Hx.
  { destruct Hk as [-> ->]. exists (Ok res), []. cbn [good_sockets]. rewrite bool_decide_false by done. split_and!; auto; done. }
  cbn zeta in Hk. set (listening := listeningPorts (Stdout res)) in *. case_decide as Ho.
  { destruct Hk as [-> ->]. exists (Ok res), []. cbn [good_sockets]. rewrite bool_decide_true by lia. fold listening.
    rewrite (no_occupied _ _ Ho). split_and!; auto; done. }
  destruct (AllowExistingK3s opt && occupiedAllowedForExistingK3s (occupied_ports opt listening)) eqn:Ha.
  - destruct Hk as (y & t' & -> & -> & ->). exists (Ok res), [(readyz_command opt, y)].
    cbn [good_sockets]. rewrite bool_decide_true by lia. fold listening. rewrite (some_occupied _ _ Ho), Ha. cbn [existsb andb snd].
    rewrite orb_false_r. split_and!; [done|by right; exists y|by destruct (answers_ready y)|by destruct (answers_ready y)].
  - destruct Hk as [-> ->]. exists (Ok res), []. cbn [good_sockets]. rewrite bool_decide_true by lia. fold listening.
    rewrite (some_occupied _ _ Ho), Ha. split_and!; auto; done.
Qed.
Lemma time_runs tr r : exec (time_probe dur opt) tr r → ∃ x, omap executed tr = [("date -u +%s", x)].
Proof. intros (b & t & -> & x & t' & -> & a & t'' & -> & -> & _). by exists x. Qed.
End probes.

(** ** The gate *)
Section gate.
Context `{UnicodeTables} (dur : Z → string) (opt : Options) {S : Type} (h : ∀ X : Set, PreE X → S → X * S).

(** The probes run in the order they were registered. *)
Lemma preflight_order : ∃ reg, RegisterPreflight dur opt h New = Ok reg ∧ Plan reg = Ok (checking h <$> Checks dur opt).
Proof.
  unfold RegisterPreflight, Checks, sshReachableCheck, archSupportedCheck, toolsPresentCheck, portsFreeCheck, timeSyncedCheck. generalize (ssh_probe opt) (ports_probe opt) (time_probe dur opt) (target opt). intros.
  cbn [fmap list_fmap]. unfold checking. cbn [pc_ID pc_Severity pc_Summary pc_Remediation pc_Requires pc_Probe].
  repeat match goal with |- context [probing h ?p] => generalize (probing h p); intros end. set (cs := [_; _; _; _; _]).
  exists (match register_list New cs with Ok reg => reg | Err _ => New end). split.
  - assert (is_ok (register_list New cs) = true) by (vm_compute; reflexivity). by destruct (register_list New cs).
  - vm_compute. reflexivity.
Qed.

(** What has to be so for a node to be accepted, in the lines that were run on it. *)
Definition acceptable (l : list (string * result string RunResult)) : Prop :=
  ∃ reached machine curl sockets asked date,
    l = [("true", reached); ("uname -m", machine); ("command -v curl", curl); ("ss -Hltn", sockets)] ++ asked ++ [("date -u +%s", date)] ∧
    exit_ok reached = true ∧ good_machine machine = true ∧ exit_ok curl = true ∧ good_sockets opt sockets asked = true.

(** The four checks after the first, when the node was reached. *)
Lemma others_run run tr : probed_all [archSupportedCheck; toolsPresentCheck; portsFreeCheck opt; timeSyncedCheck dur opt] run tr →
  ∃ m c s asked d ra rc rs rt, run = [ra; rc; rs; rt] ∧
    omap executed tr = [("uname -m", m); ("command -v curl", c); ("ss -Hltn", s)] ++ asked ++ [("date -u +%s", d)] ∧
    (asked = [] ∨ ∃ y, asked = [(readyz_command opt, y)]) ∧
    Forall (λ r, ResSeverity r = SeverityCritical ∧ ResOutcome r ≠ OutcomeSkip ∧ ResOutcome r ≠ OutcomeUnset) [ra; rc; rs] ∧
    ResSeverity rt = SeverityWarning ∧
    (ResOutcome ra = OutcomePass ↔ good_machine m = true) ∧ (ResOutcome rc = OutcomePass ↔ exit_ok c = true) ∧
    (ResOutcome rs = OutcomePass ↔ good_sockets opt s asked = true).
Proof.
  intros Hp. pose proof (probed_all_length _ _ _ Hp) as Hlen. destruct run as [|ra [|rc [|rs [|rt [|]]]]]; try discriminate Hlen.
  clear Hlen. revert Hp. cbn [probed_all]. intros (t1 & u1 & -> & (_ & Hs1 & r1 & (m & Hm & Hk1 & Hp1)%arch_runs & Ho1) &
          t2 & u2 & -> & (_ & Hs2 & r2 & (c & Hc & Hk2 & Hp2)%tools_runs & Ho2) &
          t3 & u3 & -> & (_ & Hs3 & r3 & (s & asked & Hl & Hasked & Hk3 & Hp3)%ports_runs & Ho3) &
          t4 & u4 & -> & (_ & Hs4 & r4 & (d & Hd)%time_runs & Ho4) & ->).
  exists m, c, s, asked, d, ra, rc, rs, rt. rewrite !omap_app, Hm, Hc, Hl, Hd.
  pose proof (judged_set r1). pose proof (judged_set r2). pose proof (judged_set r3).
  rewrite <- Ho1 in *. rewrite <- Ho2 in *. rewrite <- Ho3 in *. split; [reflexivity|]. split; [reflexivity|]. split; [exact Hasked|].
  split; [by repeat apply Forall_cons_2|]. done.
Qed.

Lemma OK_forall run :
  Forall (λ r, ResOutcome r ≠ OutcomeSkip ∧ ResOutcome r ≠ OutcomeUnset) (filter (λ r, ResSeverity r = SeverityCritical) run) →
  OK run = true ↔ Forall (λ r, ResOutcome r = OutcomePass) (filter (λ r, ResSeverity r = SeverityCritical) run).
Proof.
  rewrite !Forall_forall. intros Hs. destruct (ExitCode_spec run) as (_ & _ & ->). unfold critical. split.
  - intros Hok r Hr. destruct (Hs r Hr). apply list_elem_of_filter in Hr as [Hc Hin]. destruct (Hok r Hin Hc) as [?|[?|?]]; done.
  - intros Hp r Hin Hc. left. apply Hp, list_elem_of_filter. done.
Qed.

(** The run of the five checks, and what it comes to. *)
Lemma preflight_run reg w :
  Plan reg = Ok (checking h <$> Checks dur opt) →
  ∃ run tr w', CheckRun.Run (λ _, None) (λ _, "") reg w = (Ok run, w') ∧ w_calls w' = w_calls w ++ tr ∧
    (OK run = true ↔ acceptable (omap executed tr)) ∧
    ((∃ x, omap executed tr = [("true", x)] ∧ exit_ok x = false) ∨ ∃ x rest, omap executed tr = ("true", x) :: rest ∧ exit_ok x = true).
Proof.
  intros Hplan. unfold CheckRun.Run. rewrite Hplan. unfold Checks. rewrite fmap_cons. cbn [run_loop].
  rewrite run_check_cleared by (intros q Hq; by apply not_elem_of_nil in Hq).
  destruct (probe_reported h (sshReachableCheck opt) w) as (r0 & t0 & w0 & -> & Hw0 & Hid & Hsev & r & (x & Hx & Hjx)%ssh_runs & Ho).
  cbn [app]. rewrite Hjx in Ho.
  assert (Hout : outcome_of (<[ID (checking h (sshReachableCheck opt)):=r0]> ∅) IDSSHReachable = ResOutcome r0)
    by (unfold outcome_of; cbn [ID checking sshReachableCheck pc_ID]; by rewrite lookup_insert_eq).
  destruct (exit_ok x) eqn:Hr.
  - edestruct (run_loop_cleared h [IDSSHReachable]
      [archSupportedCheck; toolsPresentCheck; portsFreeCheck opt; timeSyncedCheck dur opt]) as (rest & tr & w' & -> & Hw' & Hall).
    { apply (bool_decide_unpack _). vm_compute. exact I. }
    { intros q ->%list_elem_of_singleton. by rewrite Hout. }
    exists ([r0] ++ rest), (t0 ++ tr), w'. split; [done|]. split; [by rewrite Hw', Hw0, app_assoc|].
    rewrite omap_app, Hx. split; [|right; by exists x, (omap executed tr)].
    apply others_run in Hall as (m & c & s & asked & d & ra & rc & rs & rt & -> & -> & Hasked & Hset & Hwarn & Ha & Hc & Hs).
    apply Forall_cons in Hset as [(Ea & Sa & Ua) Hset]. apply Forall_cons in Hset as [(Ec & Sc & Uc) Hset].
    apply Forall_cons in Hset as [(Es & Ss & Us) _].
    assert (Hf : filter (λ r, ResSeverity r = SeverityCritical) ([r0] ++ [ra; rc; rs; rt]) = [r0; ra; rc; rs]).
    { cbn [app]. rewrite !filter_cons_True by done. rewrite filter_cons_False by (by rewrite Hwarn). done. }
    rewrite OK_forall; rewrite Hf.
    2:{ repeat apply Forall_cons_2; try done. by rewrite Ho. }
    rewrite !Forall_cons, Forall_nil, Ha, Hc, Hs, Ho. split.
    + intros (_ & Hm & Hcu & Hso & _). exists x, m, c, s, asked, d. done.
    + intros (x' & m' & c' & s' & asked' & d' & Heq & _ & Hm & Hcu & Hso). cbn [app] in Heq.
      injection Heq as -> -> -> -> [-> [= ->]]%app_inj_tail. done.
  - edestruct (run_loop_blocked h IDSSHReachable
      [archSupportedCheck; toolsPresentCheck; portsFreeCheck opt; timeSyncedCheck dur opt]) as (rest & ->).
    { apply (bool_decide_unpack _). vm_compute. exact I. }
    { rewrite Hout, Ho. done. }
    exists ([r0] ++ rest), t0, w0. split; [done|]. split; [done|]. rewrite Hx. split; [|left; by exists x]. split.
    + intros Hok. exfalso. destruct (ExitCode_spec ([r0] ++ rest)) as (_ & _ & Hspec). apply Hspec with (res := r0) in Hok; [|by left|done].
      rewrite Ho in Hok. by destruct Hok as [?|[?|?]].
    + intros (x' & m & c & s & asked & d & Heq & _). discriminate Heq.
Qed.

(** A node is refused unless it was looked at and found fit.  Whatever the node answers,
    [runPreflight] accepts it exactly when it could be reached, its architecture is one Orkano is
    published for, curl is there, and no required port has a listener, except, when that is
    allowed, the control plane's own ports while k3s on the node answers that it is ready;
    and on a node that cannot be reached nothing but the first command is run. *)
Theorem preflight_gate register_text graph_text write w :
  (∀ report, write report = None) →
  ∃ why tr w', runPreflight dur opt h (λ _, None) (λ _, "") write register_text graph_text w = (why, w') ∧
    w_calls w' = w_calls w ++ tr ∧ (why = None ↔ acceptable (omap executed tr)) ∧
    (∀ x rest, omap executed tr = ("true", x) :: rest → exit_ok x = false → rest = [] ∧ why ≠ None).
Proof.
  intros Hwrite. destruct preflight_order as (reg & Hreg & Hplan). unfold runPreflight. rewrite Hreg.
  destruct (preflight_run reg w Hplan) as (run & tr & w' & -> & Hw' & Hok & Hfirst). rewrite Hwrite.
  eexists _, tr, w'. split; [reflexivity|]. split; [done|]. split.
  - rewrite <- Hok. by destruct (OK run).
  - intros x rest Heq Hx. destruct Hfirst as [(x' & Heq' & _)|(x' & rest' & Heq' & Hx')]; [|congruence].
    rewrite Heq in Heq'. injection Heq' as <- ->. split; [done|]. destruct (OK run); [|done].
    destruct Hok as [Hok _]. destruct (Hok eq_refl) as (? & ? & ? & ? & ? & ? & Heq2 & _). rewrite Heq in Heq2. discriminate Heq2.
Qed.
End gate.

(** ** The clock *)
Section clock.
Context `{UnicodeTables} (dur : Z → string) (opt : Options).

Lemma unix_time_exact epoch : in_i64 (epoch + unixToInternal) → unix_time epoch = (epoch * Second)%Z.
Proof. intros Hi. unfold unix_time. rewrite i64_id by done. lia. Qed.

(** What the clock check makes of two readings and the seconds the node printed, on 64-bit
    arithmetic: it passes exactly when the node is within tolerance of the middle of the
    readings, or so far behind, by 2^63 nanoseconds or more, that the difference saturates
    at a number whose negation is itself. *)
Theorem clock_verdict before after res epoch :
  ExitStatus res = 0%Z → ParseInt10 64 (TrimSpace (Stdout res)) = Some epoch → in_i64 (epoch + unixToInternal) →
  in_i64 (rd_Mono after - rd_Mono before) → (maxSkew opt < i64_max)%Z →
  let offset := (epoch * Second - (rd_Wall before + Z.quot (rd_Mono after - rd_Mono before) 2))%Z in
  judged (read_date dur opt before after (Ok res)) =
    if decide (Z.abs offset ≤ maxSkew opt ∨ offset ≤ i64_min)%Z then OutcomePass else OutcomeFail.
Proof.
  intros H0 Hp He Hm Hs offset. unfold read_date. rewrite decide_False by lia. rewrite Hp. cbn zeta.
  assert (Hoff : clock_offset before after epoch = Z.max i64_min (Z.min i64_max offset)).
  { unfold clock_offset. rewrite (unix_time_exact epoch He). unfold Sub at 1. unfold offset.
    assert (Sub (rd_Mono after) (rd_Mono before) = rd_Mono after - rd_Mono before)%Z as -> by (unfold Sub, in_i64 in *; lia). done. }
  rewrite Hoff. clearbody offset. assert (0 < maxSkew opt)%Z as Hpos by (unfold maxSkew, DefaultMaxClockSkew, Second; case_decide; lia).
  assert (Habs : (maxSkew opt < abs (Z.max i64_min (Z.min i64_max offset)) ↔ ¬ (Z.abs offset ≤ maxSkew opt ∨ offset ≤ i64_min))%Z).
  { unfold abs. case_decide as Hn.
    - destruct (decide (offset ≤ i64_min)%Z) as [Hb|Hb].
      + assert (Z.max i64_min (Z.min i64_max offset) = i64_min) as -> by (unfold i64_min, i64_max in *; lia).
        assert (i64 (- i64_min) = i64_min) as -> by reflexivity. unfold i64_min in *. lia.
      + rewrite i64_id by (unfold in_i64, i64_min, i64_max in *; lia). unfold i64_min, i64_max in *. lia.
    - unfold i64_min, i64_max in *. lia. }
  destruct (decide (maxSkew opt < abs _)%Z) as [Hlt|Hlt].
  - rewrite decide_False by (by apply Habs). done.
  - rewrite decide_True; [done|]. destruct (decide (Z.abs offset ≤ maxSkew opt ∨ offset ≤ i64_min)%Z) as [Hd|Hd]; [exact Hd|].
    exfalso. apply Hlt, Habs, Hd.
Qed.
End clock.

(** ** A node *)
Section examples.
#[local] Instance preflight_tables : UnicodeTables := ascii_tables.
Definition sh (out : string) : result string RunResult := Ok {| ExitStatus := 0; Stdout := out; Stderr := "" |}.
Definition nlc : string := String newline "".
(** The state is what [ss] prints. *)
Definition node (X : Set) (e : PreE X) : string → X * string :=
  match e in PreE X return string → X * string with
  | Execute cmd => λ sockets,
      (if decide (cmd = "uname -m") then sh ("aarch64" +:+ nlc)
       else if decide (cmd = "ss -Hltn") then sh sockets
       else if decide (cmd = "date -u +%s") then sh "1700000003"
       else if decide (cmd = "/usr/local/bin/k3s kubectl get --raw=/readyz") then sh "ok"
       else sh "", sockets)
  | ReadClock => λ sockets, ({| rd_Wall := 1700000000 * Second; rd_Mono := 7 |}, sockets)
  end.
Definition site : Options := {| Target := "root@a"; RequiredPorts := []; AllowExistingK3s := true; opt_Sudo := false; MaxClockSkew := 0 |}.
Definition gate (sockets : string) : option string :=
  (runPreflight (λ _, "5s") site node (λ _, None) (λ _, "") (λ _, None) (λ _, "") (λ _, "") {| w_state := sockets; w_calls := [] |}).1.

Example empty_node : gate "" = None.
Proof. vm_compute. reflexivity. Qed.
Example converging_node : gate ("LISTEN 0 4096 *:6443 *:*" +:+ nlc +:+ "LISTEN 0 128 [::]:22 [::]:*") = None.
Proof. vm_compute. reflexivity. Qed.
Example busy_node : gate "LISTEN 0 511 0.0.0.0:80 0.0.0.0:*" ≠ None.
Proof. vm_compute. discriminate. Qed.

Lemma preflight_gate_witness :
  ∃ why tr w', runPreflight (λ _, "5s") site node (λ _, None) (λ _, "") (λ _, None) (λ _, "") (λ _, "") {| w_state := ""; w_calls := [] |} = (why, w') ∧
    w_calls w' = [] ++ tr ∧ (why = None ↔ acceptable site (omap executed tr)) ∧
    (∀ x rest, omap executed tr = ("true", x) :: rest → exit_ok x = false → rest = [] ∧ why ≠ None).
Proof. exact (preflight_gate (λ _, "5s") site node (λ _, "") (λ _, "") (λ _, None) {| w_state := ""; w_calls := [] |} (λ _, eq_refl)). Defined.

(** The year 1600 is within tolerance of 2023. *)
Definition old_clock : RunResult := {| ExitStatus := 0; Stdout := "-11676096000"; Stderr := "" |}.
Definition reading : Reading := {| rd_Wall := 1700000000 * Second; rd_Mono := 7 |}.
Lemma clock_verdict_witness : judged (read_date (λ _, "") site reading reading (Ok old_clock)) = OutcomePass.
Proof.
  refine (eq_trans (clock_verdict (λ _, "") site reading reading old_clock (-11676096000) eq_refl eq_refl _ _ _) _).
  - vm_compute. split; discriminate.
  - vm_compute. split; discriminate.
  - vm_compute. reflexivity.
  - vm_compute. reflexivity.
Defined.
End examples.
