(* ===== verification/Canary.v ===== *)
(** * Canary pods

    What the capability probes of [internal/doctor/netpol.go] and
    [internal/preflight/cluster] create and read back: short-lived pods that try the
    forbidden thing, and the part of a pod's status that says how it went.  A probe waits
    under a context with a budget and sleeps between looks, so the number of looks is
    bounded; [patience] is that number, and a wait beyond it finds the deadline passed. *)
From S2P Require Import Prelude Kube RateLimit Effects.

(** [CanaryImage] of [internal/doctor/netpol.go] *)
Definition CanaryImage : string := "busybox:1.37@sha256:9532d8c39891ca2ecde4d30d7710e01fb739c87a8b9299685c63704296b16028".

(** The pod a probe creates: the fields of [corev1.Pod] the probes assign. [cn_NodeName] is
    the node a required affinity on [metadata.name] pins it to. *)
Record CanaryPod : Set := {
  cn_Namespace : string;
  cn_Name : string;
  cn_GenerateName : string;
  cn_Labels : gmap string string;
  cn_ActiveDeadlineSeconds : Z;
  cn_TerminationGracePeriodSeconds : option Z;
  cn_SchedulingGates : list string;
  cn_NodeName : option string;
  cn_Spec : PodSpec;
}.

(** ** What is read back *)
Record TerminatedState : Set := { ts_ExitCode : Z; ts_Reason : string; ts_Message : string }.
Record ContainerStatus : Set := {
  cst_Name : string;
  cst_Waiting : option (string * string);
  cst_Terminated : option TerminatedState;
  cst_LastTerminated : option TerminatedState;
}.
Record PodStatus : Set := {
  ps_Phase : string; ps_Reason : string; ps_Message : string; ps_PodIP : string;
  ps_ContainerStatuses : list ContainerStatus;
}.
Definition PodRunning : string := "Running".
Definition PodSucceeded : string := "Succeeded".
Definition PodFailed : string := "Failed".
Definition terminal (p : PodStatus) : bool := bool_decide (ps_Phase p = PodSucceeded ∨ ps_Phase p = PodFailed).

(** ** The security context both packages give their canaries *)
Definition canary_container (image : string) (command : list string) (env : list CoreEnvVar) : Container :=
  job_container "probe" image command [] env no_resources
    {| sc_RunAsUser := None; sc_RunAsGroup := None; sc_RunAsNonRoot := None; sc_AllowPrivilegeEscalation := Some false;
       sc_ReadOnlyRootFilesystem := Some true; sc_Privileged := None; sc_CapDrop := ["ALL"]; sc_CapAdd := [];
       sc_SeccompProfile := None; sc_AppArmorProfile := None |} [].
Definition canary_spec (image : string) (command : list string) (env : list CoreEnvVar) : PodSpec :=
  {| pod_RestartPolicy := "Never"; pod_ServiceAccountName := ""; pod_AutomountServiceAccountToken := Some false;
     pod_InitContainers := []; pod_Containers := [canary_container image command env]; pod_Volumes := []; pod_HostNetwork := false;
     pod_SecurityContext := Some {| psc_RunAsNonRoot := Some true; psc_RunAsUser := Some 65534%Z; psc_RunAsGroup := None;
       psc_FSGroup := None; psc_SeccompProfile := Some "RuntimeDefault" |} |}.

(** ** Waiting under a budget *)
Definition DeadlineExceeded : string := "context deadline exceeded".
(** how often a loop that sleeps [interval] between looks can sleep before [budget] is over *)
Definition patience (budget interval : Z) : nat := Z.to_nat (budget / interval).
