(* ===== verification/Doctor.v ===== *)
(** * The doctor's checks

    [internal/doctor] but for the canary probe ([DoctorNetpol.v]) and the reports
    ([DoctorReport.v]): [components.go], [features.go], [doctor.go], [tls.go], [backup.go]
    and [secrets.go].  A probe is a program whose calls read the cluster or the doctor's
    clock, with arbitrary replies; an object is what the probe looks at of it, an
    unstructured one an [Any].  The accessors of [unstructured], the parsing and printing of
    times and durations are a parameter ([DoctorLib]).  Times are nanoseconds; the
    floating-point quotients of [fmtDuration], which only messages show, are exact here. *)
From S2P Require Import Prelude GoStrings Features Effects Kube RateLimit ApiServer ApiVault GitHubApp Install K3s.
From S2P Require Import CheckRegistry CheckRun Probes.
From Stdlib Require Import Ascii.

(** ** Constants *)
Definition systemNamespace : string := "orkano-system".
Definition appsNamespace : string := "orkano-apps".
Definition dashboardName : string := "orkano-dashboard".
Definition IDDashboardNotPublic : string := "exposure.dashboard-not-public".
Definition IDComponentsReady : string := "platform.components-ready".
Definition IDUnsafeFeaturesDisabled : string := "features.unsafe-disabled".
Definition IDCertificateExpiry : string := "tls.certificate-expiry".
Definition IDEtcdSnapshotAge : string := "backup.etcd-snapshot-age".
Definition IDSecretsStoreHealth : string := "secrets.store-health".
Definition componentDeployments : list string := ["orkano-operator"; "orkano-receiver"; "orkano-registry"; "orkano-dashboard"].
Definition componentStatefulSets : list string := ["orkano-postgres"].
Definition unsafeFeaturesEnv : string := "ORKANO_UNSAFE_FEATURES".
Definition certMinRemaining : Z := 14 * 24 * Hour.
Definition certRenewalGrace : Z := 7 * 24 * Hour.
Definition certIssuanceGrace : Z := 24 * Hour.
Definition certNamespaces : list string := [systemNamespace; appsNamespace].
Definition DefaultMaxSnapshotAge : Z := 25 * Hour.
Definition etcdMemberAnnotation : string := "etcd.k3s.cattle.io/node-name".
Definition esoRefreshGraceFactor : Z := 2.
Definition esoDefaultRefreshInterval : Z := Hour.
Definition certificateListGVK : string := "CertificateList".
Definition etcdSnapshotFileListGVK : string := "ETCDSnapshotFileList".
Definition esoSecretStoreListGVK : string := "SecretStoreList".
Definition esoExternalSecretListGVK : string := "ExternalSecretList".
Definition traefikIngressRouteListGVKs : list string := ["IngressRouteList"; "IngressRouteTCPList"].

(** ** What is read *)

(** A failed read: [apierrors.IsNotFound], [meta.IsNoMatchError] or another. *)
Inductive DocError : Set := Absent (text : string) | NoMatch (text : string) | Unread (text : string).
Definition doc_text (e : DocError) : string := match e with Absent t | NoMatch t | Unread t => t end.

Record WorkloadView : Set := { wv_Name : string; wv_ReadyReplicas : Z; wv_Containers : list Container }.
Record ServiceView : Set := { sv_Type : string; sv_ExternalIPs : list string; sv_ClusterIP : string }.
(** a backend is the name of its Service, if it is one *)
Record IngressView : Set := { iv_Name : string; iv_Default : option string; iv_Rules : list (list (option string)) }.

Inductive DocE : Set → Type :=
| GetDeployment (name : string) : DocE (result DocError WorkloadView)
| GetStatefulSet (name : string) : DocE (result DocError WorkloadView)
| GetService (namespace name : string) : DocE (result DocError ServiceView)
| ListIngresses (namespace : string) : DocE (result DocError (list IngressView))
(** every namespace when none is given *)
| ListObjects (kind : string) (namespace : option string) : DocE (result DocError (list Any))
(** the annotations of every node *)
| ListNodeAnnotations : DocE (result DocError (list (gmap string string)))
(** when a namespace was created *)
| GetNamespaceAge (name : string) : DocE (result DocError Z)
| GetSecretExists (namespace name : string) : DocE (result DocError unit)
| DoctorNow : DocE Z.

Class DoctorLib : Type := {
  (** [unstructured.NestedString] and [NestedMap]: a field of another type is an error *)
  NestedText : Any → list string → result string (option string);
  NestedObject : Any → list string → result string (option Any);
  ObjNamespace : Any → string;
  ObjKind : Any → string;
  (** the zero time when there is none *)
  ObjCreated : Any → Z;
  parse_duration : string → result string Z;
  parse_time : string → result string Z;
  format_time : Z → string;
  duration_string : Z → string;
}.

Record DoctorOptions : Type := { MaxSnapshotAge : Z; SkipSecretReads : bool }.
Definition maxSnapshotAge (o : DoctorOptions) : Z := if decide (0 < MaxSnapshotAge o)%Z then MaxSnapshotAge o else DefaultMaxSnapshotAge.

Definition fmtDuration (d : Z) : string :=
  let d := Z.max 0 d in
  if decide (48 * Hour ≤ d)%Z then pretty (d / Hour / 24)%Z +:+ "d"
  else if decide (Hour ≤ d)%Z then pretty (d / Hour)%Z +:+ "h"
  else pretty (d / Minute)%Z +:+ "m".
Definition orUnknown (reason : string) : string := if decide (reason = "") then "Unknown" else reason.

Abbreviation probe_of := (prog DocE (result string Result)).
Notation "'try!' x := p 'in' k" := (prog_bind p (λ r, match r with Err e => Ret (Err e) | Ok x => k end))
  (at level 10, x binder, p at level 200, k at level 200) : prog_scope.

(** ** The platform's components *)
Section components.
Definition not_ready (kind : string) (name : string) (r : result DocError WorkloadView) : result string (option string) :=
  match r with
  | Err (Absent _) => Ok (Some (kind +:+ " " +:+ name +:+ " is missing"))
  | Err e => Err ("read " +:+ kind +:+ " " +:+ systemNamespace +:+ "/" +:+ name +:+ ": " +:+ doc_text e)
  | Ok w => Ok (if decide (wv_ReadyReplicas w < 1)%Z then Some (kind +:+ " " +:+ name +:+ " has no ready replicas") else None)
  end.
Fixpoint component_problems (kind : string) (read : string → DocE (result DocError WorkloadView)) (names problems : list string)
    : prog DocE (result string (list string)) :=
  match names with
  | [] => Ret (Ok problems)
  | name :: names =>
      let! r := trigger (read name) in
      match not_ready kind name r with
      | Err e => Ret (Err e)
      | Ok p => component_problems kind read names (problems ++ option_list p)
      end
  end.
Definition components_probe : probe_of :=
  try! problems := component_problems "Deployment" GetDeployment componentDeployments [] in
  try! problems := component_problems "StatefulSet" GetStatefulSet componentStatefulSets problems in
  Ret (if decide (problems ≠ []) then failing (Join problems "; ")
       else passing (pretty (length componentDeployments) +:+ " Deployment(s) and " +:+ pretty (length componentStatefulSets) +:+
                     " StatefulSet(s) in " +:+ systemNamespace +:+ " are ready")).
End components.

(** ** Unsafe features *)
Definition TrimPrefix (s prefix : string) : string := if HasPrefix s prefix then of_bytes (drop (len prefix) (bytes s)) else s.

Section features.
Context `{UnicodeTables}.

Definition env_value (deployment envName container : string) (env : list CoreEnvVar) : result string string :=
  match list_find (λ v, cenv_Name v = envName) env with
  | Some (_, v) =>
      if has (cenv_ValueFrom v) then
        Err ("deployment " +:+ deployment +:+ " sources " +:+ envName +:+ " indirectly; policy must be an explicit pod-template value")
      else Ok (cenv_Value v)
  | None => Err ("deployment " +:+ deployment +:+ " container " +:+ container +:+ " has no " +:+ envName)
  end.
Definition is_container (containerName : string) (c : Container) : Prop :=
  c_Name c = TrimPrefix containerName "orkano-" ∨ c_Name c = containerName.
#[export] Instance is_container_dec n c : Decision (is_container n c).
Proof. unfold is_container. apply _. Defined.
Definition deploymentEnv (deployment : WorkloadView) (containerName envName : string) : result string string :=
  match list_find (is_container containerName) (wv_Containers deployment) with
  | Some (_, c) => env_value (wv_Name deployment) envName (c_Name c) (c_Env c)
  | None => Err ("deployment " +:+ wv_Name deployment +:+ " has no " +:+ containerName +:+ " container")
  end.

(** The policy of one Deployment; [None]: it does not exist. *)
Definition read_policy (name : string) (r : result DocError WorkloadView) : result string (option string) :=
  match r with
  | Err (Absent _) => Ok None
  | Err e => Err ("read Deployment " +:+ systemNamespace +:+ "/" +:+ name +:+ ": " +:+ doc_text e)
  | Ok deployment =>
      match deploymentEnv deployment name unsafeFeaturesEnv with
      | Err e => Err e
      | Ok raw =>
          match ParseCSV raw with
          | Err e => Err ("deployment " +:+ name +:+ " has invalid " +:+ unsafeFeaturesEnv +:+ ": " +:+ feature_text e)
          | Ok set => Ok (Some (CSV set))
          end
      end
  end.
Definition compare_policies (operator dashboard : option string) : result string Result :=
  match operator, dashboard with
  | None, None => skipping "operator and dashboard Deployments are not installed"
  | Some operator, Some dashboard =>
      if decide (operator ≠ dashboard) then
        failing ("unsafe-feature policy drift: operator=" +:+ Quote operator +:+ " dashboard=" +:+ Quote dashboard)
      else if decide (operator ≠ "") then failing ("unsafe features enabled: " +:+ ReplaceAll operator "," ", ")
      else passing "operator and dashboard have no unsafe features enabled"
  | _, _ => Err "only one of the operator and dashboard Deployments exists; unsafe-feature policy cannot be compared"
  end.
Definition features_probe : probe_of :=
  let! r := trigger (GetDeployment "orkano-operator") in
  match read_policy "orkano-operator" r with
  | Err e => Ret (Err e)
  | Ok operator =>
      let! r := trigger (GetDeployment "orkano-dashboard") in
      Ret (match read_policy "orkano-dashboard" r with
           | Err e => Err e
           | Ok dashboard => compare_policies operator dashboard
           end)
  end.
End features.

(** ** Exposure of the dashboard *)
Section exposure.
Context `{UnicodeTables, UnstructuredLib, DoctorLib}.

(** [m, ok := v.(map)] *)
Definition as_map (v : Any) : option Any := match v with AnyMap m => Some (AnyMap m) | _ => None end.
Definition slice_of (u : Any) (path : list string) : list Any := match NestedSlice u path with Ok l => l | Err _ => [] end.
Definition text_of (u : Any) (path : list string) : string := match NestedText u path with Ok (Some s) => s | _ => "" end.
Definition ingressRouteRoutesToService (route : Any) (service : string) : bool :=
  existsb (λ rm, existsb (λ sm, bool_decide (text_of sm ["name"] = service)) (omap as_map (slice_of rm ["services"])))
    (omap as_map (slice_of route ["spec"; "routes"])).
Definition ingressRoutesToService (ing : IngressView) (service : string) : bool :=
  bool_decide (iv_Default ing = Some service) || existsb (existsb (λ b, bool_decide (b = Some service))) (iv_Rules ing).

(** What the Service alone gives away. *)
Definition service_exposed (svc : ServiceView) : option string :=
  if decide (sv_Type svc = "NodePort" ∨ sv_Type svc = "LoadBalancer") then
    Some ("dashboard Service is type " +:+ sv_Type svc +:+ "; it must stay ClusterIP (INV-05)")
  else if decide (sv_ExternalIPs svc ≠ []) then
    Some ("dashboard Service carries externalIPs " +:+ fmt_strings (sv_ExternalIPs svc) +:+ "; it is reachable outside the cluster (INV-05)")
  else None.
Fixpoint traefik_routes (kinds : list string) : probe_of :=
  match kinds with
  | [] => Ret (passing "dashboard Service is ClusterIP without externalIPs and no Ingress or Traefik IngressRoute routes to it")
  | kind :: kinds =>
      let! r := trigger (ListObjects kind (Some systemNamespace)) in
      match r with
      | Err (NoMatch _ | Absent _) => traefik_routes kinds
      | Err e => Ret (Err ("list " +:+ kind +:+ " in " +:+ systemNamespace +:+ ": " +:+ doc_text e))
      | Ok routes =>
          match list_find (λ route, ingressRouteRoutesToService route dashboardName = true) routes with
          | Some (_, route) =>
              Ret (failing ("Traefik " +:+ ObjKind route +:+ " " +:+ GetName route +:+ " routes to the dashboard Service (INV-05)"))
          | None => traefik_routes kinds
          end
      end
  end.
Definition dashboard_probe : probe_of :=
  let! r := trigger (GetService systemNamespace dashboardName) in
  match r with
  | Err (Absent _) =>
      Ret (skipping ("Service " +:+ systemNamespace +:+ "/" +:+ dashboardName +:+ " not found: dashboard not installed, nothing to expose"))
  | Err e => Ret (Err ("read Service " +:+ systemNamespace +:+ "/" +:+ dashboardName +:+ ": " +:+ doc_text e))
  | Ok svc =>
      match service_exposed svc with
      | Some msg => Ret (failing msg)
      | None =>
          let! r := trigger (ListIngresses systemNamespace) in
          match r with
          | Err e => Ret (Err ("list Ingresses in " +:+ systemNamespace +:+ ": " +:+ doc_text e))
          | Ok ingresses =>
              match list_find (λ ing, ingressRoutesToService ing dashboardName = true) ingresses with
              | Some (_, ing) => Ret (failing ("Ingress " +:+ iv_Name ing +:+ " routes to the dashboard Service (INV-05)"))
              | None => traefik_routes traefikIngressRouteListGVKs
              end
          end
      end
  end.
End exposure.

(** ** Certificates *)
Section objects.
Context `{UnicodeTables, UnstructuredLib, DoctorLib}.

(** A time field; absent or empty is [None]. *)
Definition nestedTime (u : Any) (fields : list string) : result string (option Z) :=
  match NestedText u fields with
  | Err e => Err ("read " +:+ Join fields "." +:+ ": " +:+ e)
  | Ok (None | Some "") => Ok None
  | Ok (Some s) =>
      match parse_time s with
      | Err e => Err ("parse " +:+ Join fields "." +:+ " " +:+ Quote s +:+ ": " +:+ e)
      | Ok t => Ok (Some t)
      end
  end.

(** What one Certificate comes to. *)
Inductive CertState : Type :=
| CertPending
| CertProblem (msg : string)
| CertCurrent (remains : Z).
Definition cert_name (c : Any) : string := ObjNamespace c +:+ "/" +:+ GetName c.
Definition never_issued (c : Any) (now : Z) : CertState :=
  let age := Sub now (ObjCreated c) in
  if decide (certIssuanceGrace < age)%Z then CertProblem (cert_name c +:+ " has never been issued (created " +:+ fmtDuration age +:+ " ago)")
  else CertPending.
(** [time.Time.Add] and [After] *)
Definition overdue (now renewal : Z) : bool := bool_decide (renewal + certRenewalGrace < now)%Z.
Definition cert_state (c : Any) (now : Z) : result string CertState :=
  let name := cert_name c in
  match nestedTime c ["status"; "notAfter"] with
  | Err e => Err ("certificate " +:+ name +:+ ": " +:+ e)
  | Ok None => Ok (never_issued c now)
  | Ok (Some notAfter) =>
      let remains := Sub notAfter now in
      if decide (remains ≤ 0)%Z then Ok (CertProblem (name +:+ " expired " +:+ fmtDuration (i64 (- remains)) +:+ " ago"))
      else if decide (remains < certMinRemaining)%Z then Ok (CertProblem (name +:+ " expires in " +:+ fmtDuration remains))
      else
        match nestedTime c ["status"; "renewalTime"] with
        | Err e => Err ("certificate " +:+ name +:+ ": " +:+ e)
        | Ok (Some renewal) =>
            if overdue now renewal then
              Ok (CertProblem (name +:+ " renewal is overdue since " +:+ format_time renewal +:+ " (still valid for " +:+ fmtDuration remains +:+ ")"))
            else Ok (CertCurrent remains)
        | Ok None => Ok (CertCurrent remains)
        end
  end.

Record CertTally : Type := { t_problems : list string; t_pending : Z; t_soonest : option (string * Z) }.
Definition no_certs : CertTally := {| t_problems := []; t_pending := 0; t_soonest := None |}.
Definition sooner (old : option (string * Z)) (name : string) (remains : Z) : option (string * Z) :=
  match old with
  | None => Some (name, remains)
  | Some (n, l) => if decide (n = "" ∨ (remains < l)%Z) then Some (name, remains) else old
  end.
Definition tally (t : CertTally) (c : Any) (st : CertState) : CertTally :=
  match st with
  | CertPending => {| t_problems := t_problems t; t_pending := t_pending t + 1; t_soonest := t_soonest t |}
  | CertProblem msg => {| t_problems := t_problems t ++ [msg]; t_pending := t_pending t; t_soonest := t_soonest t |}
  | CertCurrent remains => {| t_problems := t_problems t; t_pending := t_pending t; t_soonest := sooner (t_soonest t) (cert_name c) remains |}
  end.
Fixpoint tally_all (certs : list Any) (now : Z) (t : CertTally) : result string CertTally :=
  match certs with
  | [] => Ok t
  | c :: certs => match cert_state c now with Err e => Err e | Ok st => tally_all certs now (tally t c st) end
  end.
Definition cert_verdict (n : nat) (t : CertTally) : result string Result :=
  if decide (t_problems t ≠ []) then failing (Join (t_problems t) "; ")
  else match t_soonest t with
  | None =>
      passing (pretty (t_pending t) +:+ " certificate(s) awaiting first issuance (created under " +:+ fmtDuration certIssuanceGrace +:+ " ago)")
  | Some (name, remains) =>
      passing (pretty (Z.of_nat n - t_pending t)%Z +:+ " certificate(s) current; soonest expiry is " +:+ name +:+ " in " +:+ fmtDuration remains +:+
               (if decide (0 < t_pending t)%Z then " (" +:+ pretty (t_pending t) +:+ " awaiting first issuance)" else ""))
  end.
Definition judge_certs (certs : list Any) (now : Z) : result string Result :=
  if decide (certs = []) then
    failing ("no Certificates found in " +:+ systemNamespace +:+ " or " +:+ appsNamespace +:+
             ": the platform PKI (internal CA, registry cert) should always exist; re-run `orkano init`")
  else match tally_all certs now no_certs with
  | Err e => Err e
  | Ok t => cert_verdict (length certs) t
  end.
Fixpoint list_certs (namespaces : list string) (now : Z) (certs : list Any) : probe_of :=
  match namespaces with
  | [] => Ret (judge_certs certs now)
  | ns :: namespaces =>
      let! r := trigger (ListObjects certificateListGVK (Some ns)) in
      match r with
      | Err (NoMatch _) =>
          Ret (failing "cert-manager's Certificate CRD is not installed: the install's TLS subsystem is missing; re-run `orkano init` to restore it")
      | Err e => Ret (Err ("list Certificates in " +:+ ns +:+ ": " +:+ doc_text e))
      | Ok items => list_certs namespaces now (certs ++ items)
      end
  end.
Definition certificates_probe : probe_of :=
  let! now := trigger DoctorNow in list_certs certNamespaces now [].

(** ** Snapshots *)
Definition snapshotError (s : Any) : result string (option string) :=
  match NestedObject s ["status"; "error"] with
  | Err e => Err ("read status.error: " +:+ e)
  | Ok None => Ok None
  | Ok (Some errObj) => Ok (Some (text_of errObj ["message"]))
  end.
Record Snapshots : Type := { sn_newest : Z; sn_name : string; sn_node : string; sn_usable : Z; sn_lastErr : string }.
Definition no_snapshots : Snapshots := {| sn_newest := zeroTime; sn_name := ""; sn_node := ""; sn_usable := 0; sn_lastErr := "" |}.
Definition with_error_text (a : Snapshots) (msg : string) : Snapshots :=
  {| sn_newest := sn_newest a; sn_name := sn_name a; sn_node := sn_node a; sn_usable := sn_usable a; sn_lastErr := msg |}.
Definition with_snapshot (a : Snapshots) (s : Any) (created : Z) : Snapshots :=
  if decide (sn_newest a < created)%Z then
    {| sn_newest := created; sn_name := GetName s; sn_node := text_of s ["spec"; "nodeName"]; sn_usable := sn_usable a + 1; sn_lastErr := sn_lastErr a |}
  else {| sn_newest := sn_newest a; sn_name := sn_name a; sn_node := sn_node a; sn_usable := sn_usable a + 1; sn_lastErr := sn_lastErr a |}.
Definition snapshot_step (a : Snapshots) (s : Any) : result string Snapshots :=
  match snapshotError s with
  | Err e => Err ("snapshot " +:+ GetName s +:+ ": " +:+ e)
  | Ok (Some msg) => Ok (with_error_text a msg)
  | Ok None =>
      match nestedTime s ["status"; "creationTime"] with
      | Err e => Err ("snapshot " +:+ GetName s +:+ ": " +:+ e)
      | Ok None => Ok a
      | Ok (Some created) => Ok (with_snapshot a s created)
      end
  end.
Fixpoint snapshots_from (items : list Any) (a : Snapshots) : result string Snapshots :=
  match items with
  | [] => Ok a
  | s :: items => match snapshot_step a s with Err e => Err e | Ok a => snapshots_from items a end
  end.
Definition snapshot_verdict (n : nat) (now maxAge : Z) (a : Snapshots) : result string Result :=
  if decide (sn_usable a = 0)%Z then
    failing ("none of the " +:+ pretty n +:+ " etcd snapshot record(s) is usable" +:+
             (if decide (sn_lastErr a = "") then "" else "; sample error: " +:+ sn_lastErr a))
  else
    let age := Sub now (sn_newest a) in
    if decide (maxAge < age)%Z then
      failing ("newest usable etcd snapshot " +:+ sn_name a +:+ " (node " +:+ sn_node a +:+ ") is " +:+ fmtDuration age +:+
               " old: older than the " +:+ fmtDuration maxAge +:+ " limit, the schedule has stopped working")
    else
      passing ("newest of " +:+ pretty (sn_usable a) +:+ " usable etcd snapshot(s) is " +:+ sn_name a +:+ " (node " +:+ sn_node a +:+
               "), taken " +:+ fmtDuration age +:+ " ago").
Definition noSnapshotsResult (now maxAge : Z) : probe_of :=
  let! nodes := trigger ListNodeAnnotations in
  match nodes with
  | Err e => Ret (Err ("list Nodes: " +:+ doc_text e))
  | Ok nodes =>
      let etcdMembers := length (filter (λ a, is_Some (a !! etcdMemberAnnotation)) nodes) in
      if decide (etcdMembers = 0) then Ret (skipping "no node runs an embedded-etcd member: there is no etcd to snapshot")
      else
        let! created := trigger (GetNamespaceAge "kube-system") in
        Ret (match created with
             | Err e => Err ("read namespace kube-system: " +:+ doc_text e)
             | Ok created =>
                 let age := Sub now created in
                 if decide (age ≤ maxAge)%Z then
                   skipping ("no snapshots yet, but the cluster is only " +:+ fmtDuration age +:+ " old: the first scheduled window has not elapsed")
                 else
                   failing (pretty etcdMembers +:+ " embedded-etcd member(s) and zero snapshots on a cluster older than " +:+ fmtDuration maxAge +:+
                            ": scheduled snapshots are not running")
             end)
  end.
Definition snapshots_probe (opt : DoctorOptions) : probe_of :=
  let! now := trigger DoctorNow in
  let maxAge := maxSnapshotAge opt in
  let! r := trigger (ListObjects etcdSnapshotFileListGVK None) in
  match r with
  | Err (NoMatch _) =>
      Ret (skipping "the k3s ETCDSnapshotFile CRD is not installed (non-k3s cluster, or k3s too old to record snapshots as CRs): snapshot age is not observable via the API")
  | Err e => Ret (Err ("list ETCDSnapshotFiles: " +:+ doc_text e))
  | Ok [] => noSnapshotsResult now maxAge
  | Ok items => Ret (match snapshots_from items no_snapshots with Err e => Err e | Ok a => snapshot_verdict (length items) now maxAge a end)
  end.
End objects.

(** ** External secrets *)
Section secrets.
Context `{UnicodeTables, UnstructuredLib, DoctorLib} (opt : DoctorOptions).

Definition esoReadyCondition : Any → string * string * string := readyCondition.
(** Why an object is not Ready, if it is not. *)
Definition unready (kind : string) (u : Any) : option string :=
  let '(status, reason, message) := esoReadyCondition u in
  if decide (status ≠ "True") then Some (kind +:+ " " +:+ GetName u +:+ " is not Ready (" +:+ orUnknown reason +:+ "): " +:+ message) else None.

(** The refresh interval, and whether the sync is refreshed periodically. *)
Definition refresh_plan (es : Any) : result string (Z * bool) :=
  let policy := text_of es ["spec"; "refreshPolicy"] in
  let periodic := bool_decide (policy = "" ∨ policy = "Periodic") in
  let raw := text_of es ["spec"; "refreshInterval"] in
  if decide (raw = "") then Ok (esoDefaultRefreshInterval, periodic)
  else match parse_duration raw with
  | Err e => Err ("ExternalSecret " +:+ GetName es +:+ ": parse spec.refreshInterval " +:+ Quote raw +:+ ": " +:+ e)
  | Ok d =>
      if decide (d < 0)%Z then Err ("ExternalSecret " +:+ GetName es +:+ ": negative spec.refreshInterval " +:+ Quote raw)
      else Ok (d, periodic && negb (bool_decide (d = 0%Z)))
  end.
(** [time.Duration(esoRefreshGraceFactor) * interval] wraps *)
Definition refresh_limit (interval : Z) : Z := i64 (esoRefreshGraceFactor * interval).
Definition stale (es : Any) (now interval : Z) : result string (option string) :=
  let name := GetName es in
  match NestedText es ["status"; "refreshTime"] with
  | Err _ | Ok (None | Some "") => Err ("ExternalSecret " +:+ name +:+ " is Ready but carries no readable status.refreshTime")
  | Ok (Some raw) =>
      match parse_time raw with
      | Err e => Err ("ExternalSecret " +:+ name +:+ ": parse status.refreshTime " +:+ Quote raw +:+ ": " +:+ e)
      | Ok refreshed =>
          let age := Sub now refreshed in
          Ok (if decide (refresh_limit interval < age)%Z then
                Some ("ExternalSecret " +:+ name +:+ " last synced " +:+ fmtDuration age +:+ " ago (interval " +:+ duration_string interval +:+
                      "): ESO cannot refresh it")
              else None)
      end
  end.
(** What the object itself says. *)
Definition sync_problem (es : Any) (now : Z) : result string (option string) :=
  match unready "ExternalSecret" es with
  | Some p => Ok (Some p)
  | None =>
      match refresh_plan es with
      | Err e => Err e
      | Ok (interval, periodic) => if periodic : bool then stale es now interval else Ok None
      end
  end.
Definition target_secret (es : Any) : string :=
  let t := text_of es ["spec"; "target"; "name"] in if decide (t = "") then GetName es else t.
Definition checkExternalSecret (es : Any) (now : Z) : prog DocE (result string (option string)) :=
  match sync_problem es now with
  | Err e => Ret (Err e)
  | Ok (Some p) => Ret (Ok (Some p))
  | Ok None =>
      if SkipSecretReads opt then Ret (Ok None)
      else
        let target := target_secret es in
        let! r := trigger (GetSecretExists appsNamespace target) in
        Ret (match r with
             | Ok _ => Ok None
             | Err (Absent _) => Ok (Some ("ExternalSecret " +:+ GetName es +:+ " reports Ready but its target Secret " +:+ target +:+ " is missing"))
             | Err e => Err ("read target Secret " +:+ appsNamespace +:+ "/" +:+ target +:+ ": " +:+ doc_text e)
             end)
  end.
Fixpoint check_syncs (syncs : list Any) (now : Z) (problems : list string) : prog DocE (result string (list string)) :=
  match syncs with
  | [] => Ret (Ok problems)
  | es :: syncs =>
      let! r := checkExternalSecret es now in
      match r with Err e => Ret (Err e) | Ok p => check_syncs syncs now (problems ++ option_list p) end
  end.
Definition eso_missing : result string Result :=
  skipping "External Secrets Operator not installed; enable external vaults with `orkano init --secrets-vault`".
Definition secrets_verdict (stores syncs : list Any) (problems : list string) : result string Result :=
  if decide (problems ≠ []) then failing (Join problems "; ")
  else passing (pretty (length stores) +:+ " store(s) Ready, " +:+ pretty (length syncs) +:+ " sync(s) healthy" +:+
                (if SkipSecretReads opt then "; target-Secret existence is verified only by the CLI doctor"
                 else " with their target Secrets present")).
Definition secrets_probe : probe_of :=
  let! r := trigger (ListObjects esoSecretStoreListGVK (Some appsNamespace)) in
  match r with
  | Err (NoMatch _) => Ret eso_missing
  | Err e => Ret (Err ("list SecretStores in " +:+ appsNamespace +:+ ": " +:+ doc_text e))
  | Ok stores =>
      let! r := trigger (ListObjects esoExternalSecretListGVK (Some appsNamespace)) in
      match r with
      | Err (NoMatch _) => Ret eso_missing
      | Err e => Ret (Err ("list ExternalSecrets in " +:+ appsNamespace +:+ ": " +:+ doc_text e))
      | Ok syncs =>
          if decide (length stores + length syncs = 0) then
            Ret (skipping "External Secrets Operator is installed but no stores or syncs are configured")
          else
            let problems := omap (unready "SecretStore") stores in
            let! now := trigger DoctorNow in
            try! problems := check_syncs syncs now problems in
            Ret (secrets_verdict stores syncs problems)
      end
  end.

(** ** The read-only checks *)
Definition componentsReadyCheck : ProbeCheck DocE :=
  Build_ProbeCheck IDComponentsReady SeverityCritical "the platform control-plane components are running"
    "inspect the workloads with `kubectl -n orkano-system get deploy,statefulset` and the failing pod's events and logs; a component stuck unready is usually a missing Secret or an image pull failure; re-run `orkano init` to repair a partial install"
    [] components_probe.
Definition dashboardNotPublicCheck : ProbeCheck DocE :=
  Build_ProbeCheck IDDashboardNotPublic SeverityCritical "dashboard is not exposed outside the cluster (INV-05)"
    "revert the orkano-dashboard Service to ClusterIP without externalIPs and delete any Ingress or Traefik IngressRoute routing to it; reach the dashboard privately instead (SSH tunnel or kubectl port-forward)"
    [] dashboard_probe.
Definition certificateExpiryCheck : ProbeCheck DocE :=
  Build_ProbeCheck IDCertificateExpiry SeverityWarning "TLS certificates are current and renewal is not stuck"
    "inspect the named Certificate with `kubectl -n <namespace> describe certificate <name>` and the cert-manager logs; for ACME domain certs confirm the domain's DNS still points at this cluster and ports 80/443 reach Traefik (a brand-new domain can also just be waiting out DNS propagation or an ACME rate limit)"
    [] certificates_probe.
Definition etcdSnapshotAgeCheck : ProbeCheck DocE :=
  Build_ProbeCheck IDEtcdSnapshotAge SeverityWarning "etcd snapshots are recent"
    "on a server node, list snapshots with `sudo /usr/local/bin/k3s etcd-snapshot ls`, check `journalctl -u k3s` for snapshot errors, and take one now with `sudo /usr/local/bin/k3s etcd-snapshot save`; confirm etcd-snapshot-schedule-cron is set in /etc/rancher/k3s/config.yaml"
    [] (snapshots_probe opt).
Definition secretsStoreHealthCheck : ProbeCheck DocE :=
  Build_ProbeCheck IDSecretsStoreHealth SeverityWarning "external secret stores and syncs are healthy (ADR-0018)"
    "inspect `kubectl get secretstores,externalsecrets -n orkano-apps`: a store that is not Ready usually means a bad or expired credential (rotate it from the dashboard) or an unreachable server; a stale or missing sync means ESO cannot refresh: `kubectl describe externalsecret <name> -n orkano-apps`"
    [] secrets_probe.
Definition unsafeFeaturesDisabledCheck : ProbeCheck DocE :=
  Build_ProbeCheck IDUnsafeFeaturesDisabled SeverityWarning "default-off unsafe source and build features remain disabled"
    "move Apps back to GitHub plus Dockerfile/Static, then re-run `orkano init` without --enable-unsafe-feature (or set Helm features.unsafe to []) so operator and dashboard roll together"
    [] features_probe.
Definition ReadOnlyChecks : list (ProbeCheck DocE) :=
  [componentsReadyCheck; dashboardNotPublicCheck; certificateExpiryCheck; etcdSnapshotAgeCheck; secretsStoreHealthCheck;
   unsafeFeaturesDisabledCheck].
End secrets.

(** ** What a passing check rests on *)

(** A reply that settles something: an answer, or the definite absence of a kind of route. *)
Definition settles (X : Set) (e : DocE X) : X → bool :=
  match e in DocE X return X → bool with
  | GetDeployment _ | GetStatefulSet _ => is_ok
  | GetService _ _ => is_ok
  | ListIngresses _ => is_ok
  | ListObjects kind _ => λ x,
      match x with
      | Ok _ => true
      | Err (Unread _) => false
      | Err _ => bool_decide (kind ∈ traefikIngressRouteListGVKs)
      end
  | ListNodeAnnotations => is_ok
  | GetNamespaceAge _ => is_ok
  | GetSecretExists _ _ => is_ok
  | DoctorNow => λ _, true
  end.
Definition settled (c : call DocE) : bool := match c with Call e x => settles _ e x end.

(** A program that ends as [P] says only when all its reads settled something. *)
Section grounded.
Context {A : Type}.
Fixpoint grounded (P : A → Prop) (p : prog DocE A) : Prop :=
  match p with
  | Ret _ => True
  | Vis e k => ∀ x, if settles _ e x then grounded P (k x) else returns (λ a, ¬ P a) (k x)
  end.
Lemma grounded_exec (P : A → Prop) p tr a : grounded P p → exec p tr a → P a → Forall (λ c, settled c = true) tr.
Proof.
  revert tr. induction p as [b|X e k IH]; intros tr Hg; cbn [exec]; [by intros [-> _] _|].
  intros (x & tr' & -> & Hex) HP. specialize (Hg x). cbn [grounded] in Hg. destruct (settles X e x) eqn:Hs.
  - constructor; [done|]. by eapply IH.
  - exfalso. by apply (returns_exec _ _ _ _ Hg Hex).
Qed.
End grounded.
Lemma grounded_bind {A B} (Q : A → Prop) (P : B → Prop) (p : prog DocE A) (f : A → prog DocE B) :
  grounded Q p → (∀ a, ¬ Q a → returns (λ b, ¬ P b) (f a)) → (∀ a, grounded P (f a)) → grounded P (prog_bind p f).
Proof.
  intros Hp Hn Hf. induction p as [a|X e k IH]; [apply Hf|]. intros x. specialize (Hp x). cbn [prog_bind grounded] in *.
  destruct (settles X e x); [by apply IH|]. eapply returns_through; [exact Hp|exact Hn].
Qed.
Abbreviation passes := (λ r : result string Result, judged r = OutcomePass).
Abbreviation found := (λ r, is_ok r = true).

Lemma component_problems_grounded kind (read : string → DocE (result DocError WorkloadView)) names problems :
  (∀ n x, settles _ (read n) x = is_ok x) →
  grounded (λ r : result string (list string), r = Ok []) (component_problems kind read names problems) ∧
  (problems ≠ [] → returns (λ r : result string (list string), r ≠ Ok []) (component_problems kind read names problems)).
Proof.
  intros Hs. revert problems. induction names as [|n names IH]; intros problems; cbn [component_problems].
  { split; [done|]. intros Hne. cbn. by intros [= ->]. }
  split.
  - intros r. cbn [prog_bind]. rewrite Hs. destruct r as [w|e]; cbn [is_ok].
    + cbn [not_ready]. apply IH.
    + destruct e; cbn [not_ready]; [|done..]. eapply (proj2 (IH _)). by destruct problems.
  - intros Hne r. cbn [prog_bind]. destruct (not_ready kind n r); [|done]. apply IH. by destruct problems.
Qed.

Section pass.
Context `{UnicodeTables, UnstructuredLib, DoctorLib} (opt : DoctorOptions).

Lemma components_grounded : grounded passes components_probe.
Proof.
  unfold components_probe. eapply grounded_bind; [by apply component_problems_grounded| |].
  - intros [p|e] Hp; [|done]. eapply returns_through.
    { eapply (proj2 (component_problems_grounded _ GetStatefulSet _ p ltac:(done))). by intros ->. }
    intros [p'|e] Hp'; [|done]. cbn. rewrite decide_True by (intros ->; by apply Hp'). done.
  - intros [p|e]; [|done]. eapply grounded_bind; [by apply component_problems_grounded| |by intros []].
    intros [p'|e] Hp'; [|done]. cbn. rewrite decide_True by (intros ->; by apply Hp'). done.
Qed.
Lemma features_grounded : grounded passes features_probe.
Proof.
  unfold features_probe. intros r. cbn [prog_bind settles]. destruct r as [w|[]]; cbn [is_ok read_policy]; try done.
  - destruct (deploymentEnv _ _ _); [|done]. destruct (ParseCSV _) as [set|]; [|done].
    intros r. destruct r as [w'|[]]; cbn; try done.
  - intros r. cbn [prog_bind]. destruct (read_policy _ r) as [[]|]; done.
Qed.
Lemma traefik_grounded kinds : Forall (λ k, k ∈ traefikIngressRouteListGVKs) kinds → grounded passes (traefik_routes kinds).
Proof.
  induction 1 as [|k kinds Hk _ IH]; [done|]. intros r. cbn [traefik_routes prog_bind settles].
  destruct r as [routes|[]]; rewrite ?bool_decide_true by done; [|done..]. by destruct (list_find _ routes) as [[]|].
Qed.
Lemma dashboard_grounded : grounded passes dashboard_probe.
Proof.
  intros r. cbn [dashboard_probe prog_bind settles]. destruct r as [svc|[]]; cbn [is_ok]; [|done..].
  destruct (service_exposed svc); [done|]. intros r. cbn [prog_bind settles]. destruct r as [ings|e]; cbn [is_ok]; [|done].
  destruct (list_find _ ings) as [[]|]; [done|]. apply traefik_grounded. apply (bool_decide_unpack _). vm_compute. exact I.
Qed.
Lemma list_certs_grounded namespaces now certs : grounded passes (list_certs namespaces now certs).
Proof.
  revert certs. induction namespaces as [|ns namespaces IH]; intros certs; [done|]. intros r. cbn [list_certs prog_bind settles].
  assert (bool_decide (certificateListGVK ∈ traefikIngressRouteListGVKs) = false) as -> by reflexivity.
  by destruct r as [items|[]].
Qed.
Lemma certificates_grounded : grounded passes certificates_probe.
Proof. intros now. apply list_certs_grounded. Qed.
Lemma snapshots_grounded : grounded passes (snapshots_probe opt).
Proof.
  intros now r. cbn [snapshots_probe prog_bind settles].
  assert (bool_decide (etcdSnapshotFileListGVK ∈ traefikIngressRouteListGVKs) = false) as -> by reflexivity.
  destruct r as [[|item items]|[]]; try done. intros nodes. cbn [noSnapshotsResult prog_bind settles].
  destruct nodes as [nodes|e]; cbn [is_ok]; [|done]. case_decide; [done|]. intros created. by destruct created.
Qed.

Lemma check_syncs_grounded syncs now problems :
  grounded (λ r : result string (list string), r = Ok []) (check_syncs opt syncs now problems) ∧
  (problems ≠ [] → returns (λ r : result string (list string), r ≠ Ok []) (check_syncs opt syncs now problems)).
Proof.
  revert problems. induction syncs as [|es syncs IH]; intros problems; cbn [check_syncs].
  { split; [done|]. intros Hne. cbn. by intros [= ->]. }
  split.
  - unfold checkExternalSecret. destruct (sync_problem es now) as [[p|]|e]; [apply IH| |done].
    destruct (SkipSecretReads opt); [apply IH|]. intros r. cbn [prog_bind settles].
    destruct r as [|[]]; cbn [is_ok prog_bind]; [apply IH| |done..]. eapply (proj2 (IH _)). by destruct problems.
  - intros Hne. apply returns_bind. intros [p|e]; [|done]. apply IH. by destruct problems.
Qed.
Lemma secrets_grounded : grounded passes (secrets_probe opt).
Proof.
  intros r. cbn [secrets_probe prog_bind settles].
  assert (bool_decide (esoSecretStoreListGVK ∈ traefikIngressRouteListGVKs) = false) as -> by reflexivity.
  destruct r as [stores|[]]; try done. intros r. cbn [prog_bind settles].
  assert (bool_decide (esoExternalSecretListGVK ∈ traefikIngressRouteListGVKs) = false) as -> by reflexivity.
  destruct r as [syncs|[]]; try done. case_decide; [done|]. cbn zeta. intros now. cbn [prog_bind].
  eapply grounded_bind; [apply check_syncs_grounded| |by intros []].
  intros [p|e] Hp; [|done]. cbn. unfold secrets_verdict. rewrite decide_True by (intros ->; by apply Hp). done.
Qed.

(** Unknown never counts as healthy.  A read-only check passes only when every read it made
    settled something: no read that failed, however it failed, is behind a pass, except that
    a kind of Traefik route may be absent, and then no such route can exist. *)
Theorem pass_rests_on_answers c tr r :
  c ∈ ReadOnlyChecks opt → exec (pc_Probe c) tr r → judged r = OutcomePass → Forall (λ c, settled c = true) tr.
Proof.
  intros Hc Hex Hp. refine (grounded_exec passes _ _ _ _ Hex Hp). unfold ReadOnlyChecks in Hc. rewrite !elem_of_cons, elem_of_nil in Hc.
  destruct Hc as [->|[->|[->|[->|[->|[->|[]]]]]]].
  - exact components_grounded.
  - exact dashboard_grounded.
  - exact certificates_grounded.
  - exact snapshots_grounded.
  - exact secrets_grounded.
  - exact features_grounded.
Qed.

(** The face of the dashboard never reads a Secret. *)
Definition blind (X : Set) (e : DocE X) : bool := match e with GetSecretExists _ _ => false | _ => true end.
Lemma read_only_blind c : c ∈ ReadOnlyChecks opt → SkipSecretReads opt = true → calls_only blind (pc_Probe c).
Proof.
  intros Hc Hskip. unfold ReadOnlyChecks in Hc. rewrite !elem_of_cons, elem_of_nil in Hc.
  assert (∀ kind (read : string → DocE (result DocError WorkloadView)) names problems,
    (∀ n, blind _ (read n) = true) → calls_only blind (component_problems kind read names problems)) as Hcomp.
  { intros kind read names problems Hr. revert problems. induction names as [|n names IH]; intros problems; [done|].
    split; [apply Hr|]. intros x. cbn [prog_bind]. destruct (not_ready kind n x); [apply IH|done]. }
  assert (∀ kinds, calls_only blind (traefik_routes kinds)) as Htr.
  { induction kinds as [|k kinds IH]; [done|]. split; [done|]. intros [routes|[]]; cbn [prog_bind]; try done. by destruct (list_find _ routes) as [[]|]. }
  assert (∀ ns now certs, calls_only blind (list_certs ns now certs)) as Hcerts.
  { induction ns as [|n ns IH]; intros now certs; [done|]. split; [done|]. intros [items|[]]; cbn [prog_bind]; [apply IH|done..]. }
  assert (∀ syncs now problems, calls_only blind (check_syncs opt syncs now problems)) as Hsyncs.
  { induction syncs as [|es syncs IH]; intros now problems; [done|]. cbn [check_syncs]. unfold checkExternalSecret. rewrite Hskip.
    destruct (sync_problem es now) as [[p|]|e]; cbn [prog_bind]; [apply IH..|done]. }
  destruct Hc as [->|[->|[->|[->|[->|[->|[]]]]]]]; cbn [pc_Probe componentsReadyCheck dashboardNotPublicCheck certificateExpiryCheck
    etcdSnapshotAgeCheck secretsStoreHealthCheck unsafeFeaturesDisabledCheck].
  - apply calls_only_bind; [by apply Hcomp|]. intros [p|e]; [|done]. apply calls_only_bind; [by apply Hcomp|]. by intros [].
  - split; [done|]. intros [svc|[]]; cbn [prog_bind]; try done. destruct (service_exposed svc); [done|]. split; [done|].
    intros [ings|e]; cbn [prog_bind]; [|done]. by destruct (list_find _ ings) as [[]|].
  - split; [done|]. intros now. apply Hcerts.
  - split; [done|]. intros now. split; [done|]. intros [[|item items]|[]]; cbn [prog_bind]; [|done..]. split; [done|]. intros [nodes|e]; cbn [prog_bind]; [|done].
    by case_decide.
  - split; [done|]. intros [stores|[]]; cbn [prog_bind]; try done. split; [done|]. intros [syncs|[]]; cbn [prog_bind]; try done.
    case_decide; [done|]. split; [done|]. intros now. cbn [prog_bind]. apply calls_only_bind; [apply Hsyncs|]. by intros [].
  - split; [done|]. intros r. cbn [prog_bind]. destruct (read_policy _ r); done.
Qed.
End pass.
