(* ===== verification/DoctorFacts.v ===== *)
(** * What the doctor's checks decide

    For [Doctor.v]: when the exposure check, the certificate check and the snapshot check
    pass, fail and give up, in terms of what they read. *)
From S2P Require Import Prelude GoStrings Effects Kube RateLimit GitHubApp ApiServer.
From S2P Require Import CheckRegistry CheckRun Probes Doctor.
From Stdlib Require Import Ascii.

Section facts.
Context `{UnicodeTables, UnstructuredLib, DoctorLib}.

(** ** Exposure *)

(** What a look at one kind of Traefik route shows. *)
Definition no_route (r : result DocError (list Any)) : bool :=
  match r with
  | Ok routes => negb (existsb (λ route, ingressRouteRoutesToService route dashboardName) routes)
  | Err (NoMatch _ | Absent _) => true
  | Err (Unread _) => false
  end.
Definition shows_route (r : result DocError (list Any)) : bool :=
  match r with Ok routes => existsb (λ route, ingressRouteRoutesToService route dashboardName) routes | Err _ => false end.
Definition private_service (svc : ServiceView) : Prop :=
  sv_Type svc ≠ "NodePort" ∧ sv_Type svc ≠ "LoadBalancer" ∧ sv_ExternalIPs svc = [].

Lemma service_exposed_None svc : service_exposed svc = None ↔ private_service svc.
Proof. unfold service_exposed, private_service. repeat case_decide; naive_solver. Qed.
Lemma find_existsb {A} (f : A → bool) (l : list A) : list_find (λ a, f a = true) l = None ↔ existsb f l = false.
Proof.
  rewrite list_find_None, Forall_forall. split.
  - intros Hf. apply not_true_iff_false. intros (a & Hin%list_elem_of_In & Ha)%existsb_exists. by apply (Hf a).
  - intros Hf a Hin Ha. apply not_true_iff_false in Hf. apply Hf, existsb_exists. exists a. split; [by apply list_elem_of_In|done].
Qed.

(** The looks at Traefik's kinds, in order. *)
Fixpoint looks (kinds : list string) (tr : list (call DocE)) (xs : list (result DocError (list Any))) {struct xs} : Prop :=
  match xs, kinds with
  | [], _ => tr = []
  | x :: xs, kind :: kinds => ∃ tr', tr = Call (ListObjects kind (Some systemNamespace)) x :: tr' ∧ looks kinds tr' xs
  | _ :: _, [] => False
  end.
Definition list_reply (c : call DocE) : option (result DocError (list Any)) :=
  match c with
  | @Call _ _ e x => match e in DocE X return X → option (result DocError (list Any)) with ListObjects _ _ => Some | _ => λ _, None end x
  end.
Lemma looks_replies kinds tr xs : looks kinds tr xs → omap list_reply tr = xs.
Proof.
  revert kinds tr. induction xs as [|x xs IH]; intros [|kind kinds] tr; cbn [looks]; try (by intros ->); [done|].
  intros (tr' & -> & Hl). change (omap list_reply (_ :: tr')) with (x :: omap list_reply tr'). by rewrite (IH _ _ Hl).
Qed.
Lemma looks_inj kinds tr xs xs' : looks kinds tr xs → looks kinds tr xs' → xs = xs'.
Proof. intros <-%looks_replies <-%looks_replies. done. Qed.
Lemma traefik_exact kinds tr r : exec (traefik_routes kinds) tr r →
  ∃ xs, looks kinds tr xs ∧ (judged r = OutcomePass ↔ length xs = length kinds ∧ forallb no_route xs = true) ∧
    (judged r = OutcomeFail ↔ existsb shows_route xs = true).
Proof.
  revert tr. induction kinds as [|kind kinds IH]; intros tr; cbn [traefik_routes].
  { intros [-> ->]. exists []. done. }
  intros (x & tr' & -> & Hk). cbn [prog_bind] in Hk.
  assert (Hgo : no_route x = true → shows_route x = false → exec (traefik_routes kinds) tr' r →
    ∃ xs, looks (kind :: kinds) (Call (ListObjects kind (Some systemNamespace)) x :: tr') xs ∧
      (judged r = OutcomePass ↔ length xs = length (kind :: kinds) ∧ forallb no_route xs = true) ∧
      (judged r = OutcomeFail ↔ existsb shows_route xs = true)).
  { intros Hn Hs (xs & Hl & Hp & Hf)%IH. exists (x :: xs). split; [by exists tr'|]. cbn [length forallb existsb]. rewrite Hn, Hs. cbn.
    rewrite Hp, Hf. split; [|done]. split; intros [Hlen ?]; (split; [lia|done]). }
  destruct x as [routes|[t|t|t]]; [|exact (Hgo eq_refl eq_refl Hk)..|].
  - destruct (list_find _ routes) as [[i route]|] eqn:Hfind.
    + destruct Hk as [-> ->]. exists [Ok routes]. split; [by exists []|].
      assert (existsb (λ route, ingressRouteRoutesToService route dashboardName) routes = true) as Hex.
      { apply not_false_iff_true. rewrite <- find_existsb. by rewrite Hfind. }
      assert (no_route (Ok routes) = false) as Hn by (unfold no_route; by rewrite Hex).
      cbn [length forallb existsb]. rewrite Hn. split; split; try done; [by intros [_ ?]|]. intros _. cbn [shows_route]. by rewrite Hex.
    + apply find_existsb in Hfind. apply Hgo; [unfold no_route; by rewrite Hfind|exact Hfind|exact Hk].
  - destruct Hk as [-> ->]. exists [Err (Unread t)]. split; [by exists []|]. cbn. split; split; try done. by intros [_ ?].
Qed.

Definition service_reply (c : call DocE) : option (result DocError ServiceView) :=
  match c with
  | @Call _ _ e x => match e in DocE X return X → option (result DocError ServiceView) with GetService _ _ => Some | _ => λ _, None end x
  end.
Definition ingress_reply (c : call DocE) : option (result DocError (list IngressView)) :=
  match c with
  | @Call _ _ e x => match e in DocE X return X → option (result DocError (list IngressView)) with ListIngresses _ => Some | _ => λ _, None end x
  end.
Lemma service_call_inj ns n x y (t u : list (call DocE)) :
  Call (GetService ns n) x :: t = Call (GetService ns n) y :: u → x = y ∧ t = u.
Proof. intros Heq. split; [|by apply (f_equal tail) in Heq]. apply (f_equal (λ l, head l ≫= service_reply)) in Heq. by injection Heq. Qed.
Lemma ingress_call_inj ns x y (t u : list (call DocE)) :
  Call (ListIngresses ns) x :: t = Call (ListIngresses ns) y :: u → x = y ∧ t = u.
Proof. intros Heq. split; [|by apply (f_equal tail) in Heq]. apply (f_equal (λ l, head l ≫= ingress_reply)) in Heq. by injection Heq. Qed.

(** The dashboard is reported private exactly when it is, as far as can be seen: the check
    passes if and only if the Service was read and is neither of a type nor has external
    addresses that reach outside, the Ingresses of the namespace were read and none routes to
    it, and for every kind of Traefik route either the kind does not exist or the routes were
    read and none routes to it.  It fails if and only if one of these was seen to be otherwise. *)
Theorem dashboard_private_exact tr r :
  exec dashboard_probe tr r →
  (judged r = OutcomePass ↔ ∃ svc ings xs rest,
     tr = [Call (GetService systemNamespace dashboardName) (Ok svc); Call (ListIngresses systemNamespace) (Ok ings)] ++ rest ∧
     private_service svc ∧ existsb (λ ing, ingressRoutesToService ing dashboardName) ings = false ∧
     looks traefikIngressRouteListGVKs rest xs ∧ length xs = length traefikIngressRouteListGVKs ∧ forallb no_route xs = true) ∧
  (judged r = OutcomeFail ↔ ∃ svc rest, tr = Call (GetService systemNamespace dashboardName) (Ok svc) :: rest ∧
     (¬ private_service svc ∨ ∃ ings rest', rest = Call (ListIngresses systemNamespace) (Ok ings) :: rest' ∧
        (existsb (λ ing, ingressRoutesToService ing dashboardName) ings = true ∨
         ∃ xs, looks traefikIngressRouteListGVKs rest' xs ∧ existsb shows_route xs = true))).
Proof.
  intros (x & tr1 & -> & Hk). cbn [prog_bind] in Hk. destruct x as [svc|e].
  2:{ assert (judged r ≠ OutcomePass ∧ judged r ≠ OutcomeFail) as [Hp Hf] by (by destruct e, Hk as [-> ->]). clear Hk.
      split; (split; [done|]); [intros (? & ? & ? & ? & [? _]%service_call_inj & _)|intros (? & ? & [? _]%service_call_inj & _)]; done. }
  destruct (service_exposed svc) as [msg|] eqn:Hs.
  { destruct Hk as [-> ->]. assert (Hpriv : ¬ private_service svc) by (intros Hp%service_exposed_None; congruence).
    split; [split; [done|intros (? & ? & ? & ? & [_ ?]%service_call_inj & _); done]|].
    split; [|done]. intros _. exists svc, []. split; [done|]. by left. }
  apply service_exposed_None in Hs. destruct Hk as (y & tr2 & -> & Hk). cbn [prog_bind] in Hk. destruct y as [ings|e].
  2:{ destruct Hk as [-> ->]. split; (split; [done|]).
      - intros (? & ? & ? & ? & [_ [? _]%ingress_call_inj]%service_call_inj & _). done.
      - intros (svc' & rest & [[= <-] <-]%service_call_inj & [Hn|(ings & rest' & [? _]%ingress_call_inj & _)]); done. }
  destruct (list_find _ ings) as [[i ing]|] eqn:Hi.
  { assert (existsb (λ ing, ingressRoutesToService ing dashboardName) ings = true) as Hex by (apply not_false_iff_true; rewrite <- find_existsb; by rewrite Hi).
    destruct Hk as [-> ->]. split.
    - split; [done|]. intros (svc' & ings' & xs & rest & [_ [[= <-] _]%ingress_call_inj]%service_call_inj & _ & Hno & _). congruence.
    - split; [|done]. intros _. exists svc, [Call (ListIngresses systemNamespace) (Ok ings)]. split; [done|]. right. exists ings, []. split; [done|]. by left. }
  apply find_existsb in Hi. apply traefik_exact in Hk as (xs & Hl & Hp & Hf). split.
  - rewrite Hp. split.
    + intros [Hlen Hall]. by exists svc, ings, xs, tr2.
    + intros (svc' & ings' & xs' & rest & [_ [_ <-]%ingress_call_inj]%service_call_inj & _ & _ & Hl' & Hlen & Hall).
      by rewrite (looks_inj _ _ _ _ Hl Hl').
  - rewrite Hf. split.
    + intros Hsh. exists svc, (Call (ListIngresses systemNamespace) (Ok ings) :: tr2). split; [done|]. right. exists ings, tr2.
      split; [done|]. right. by exists xs.
    + intros (svc' & rest & [[= <-] <-]%service_call_inj & [Hn|(ings' & rest' & [[= <-] <-]%ingress_call_inj & [Hno|(xs' & Hl' & Hsh)])]);
        [done|congruence|]. by rewrite (looks_inj _ _ _ _ Hl Hl').
Qed.

(** ** Certificates *)
Definition unreadable (c : Any) (now : Z) : bool := negb (is_ok (cert_state c now)).
Definition broken (c : Any) (now : Z) : bool := match cert_state c now with Ok (CertProblem _) => true | _ => false end.
(** Issued less than a day ago at most, or valid for two weeks and not left unrenewed. *)
Definition sound_cert (now : Z) (c : Any) : Prop :=
  match nestedTime c ["status"; "notAfter"] with
  | Ok None => (Sub now (ObjCreated c) ≤ certIssuanceGrace)%Z
  | Ok (Some notAfter) =>
      (certMinRemaining ≤ Sub notAfter now)%Z ∧
      match nestedTime c ["status"; "renewalTime"] with
      | Ok (Some renewal) => (now ≤ renewal + certRenewalGrace)%Z
      | Ok None => True
      | Err _ => False
      end
  | Err _ => False
  end.

Lemma sound_cert_spec now c : sound_cert now c ↔ unreadable c now = false ∧ broken c now = false.
Proof.
  unfold sound_cert, unreadable, broken, cert_state, never_issued, overdue.
  destruct (nestedTime c ["status"; "notAfter"]) as [[t|]|e]; cbn [is_ok negb].
  - assert (0 < certMinRemaining)%Z by (unfold certMinRemaining, Hour, Minute, Second; lia).
    case_decide; cbn [is_ok negb]; [split; [lia|by intros []]|].
    case_decide; cbn [is_ok negb]; [split; [lia|by intros []]|].
    destruct (nestedTime c ["status"; "renewalTime"]) as [[u|]|e]; cbn [is_ok negb]; [|intuition lia|split; [tauto|by intros []]].
    case_bool_decide; cbn [is_ok negb]; intuition lia.
  - case_decide; cbn [is_ok negb]; [split; [lia|by intros []]|]. intuition lia.
  - split; [done|by intros []].
Qed.

Lemma tally_all_spec certs now t :
  if existsb (λ c, unreadable c now) certs then is_ok (tally_all certs now t) = false
  else ∃ t', tally_all certs now t = Ok t' ∧ (t_problems t' = [] ↔ t_problems t = [] ∧ existsb (λ c, broken c now) certs = false).
Proof.
  revert t. induction certs as [|c certs IH]; intros t; cbn [existsb tally_all].
  { exists t. split; [done|]. tauto. }
  unfold unreadable at 1. destruct (cert_state c now) as [st|e] eqn:Hst; cbn [is_ok negb orb]; [|done].
  specialize (IH (tally t c st)). destruct (existsb _ certs); [exact IH|]. destruct IH as (t' & -> & Ht'). exists t'. split; [done|].
  rewrite Ht'. unfold broken at 2. rewrite Hst. destruct st; cbn [tally t_problems orb]; [tauto| |tauto].
  split; [intros [Hn _]; by destruct (t_problems t)|by intros []].
Qed.

(** Certificates pass exactly when there are some and each is sound: all could be read, one
    that was never issued is at most a day old, and every other is valid for two weeks or
    more and at most a week past its renewal time.  The check fails exactly when all could be
    read and there is none or one is not sound. *)
Theorem certificates_exact certs now :
  (judged (judge_certs certs now) = OutcomePass ↔ certs ≠ [] ∧ Forall (sound_cert now) certs) ∧
  (judged (judge_certs certs now) = OutcomeFail ↔
     certs = [] ∨ Forall (λ c, unreadable c now = false) certs ∧ ¬ Forall (sound_cert now) certs).
Proof.
  unfold judge_certs. case_decide as Hn.
  { subst certs. split; [split; [done|by intros [? _]]|]. split; [by left|done]. }
  assert (Hunread : existsb (λ c, unreadable c now) certs = false ↔ Forall (λ c, unreadable c now = false) certs).
  { rewrite <- not_true_iff_false, Forall_forall, existsb_exists. split.
    - intros Hne c Hc. apply not_true_iff_false. intros Hu. apply Hne. exists c. split; [by apply list_elem_of_In|done].
    - intros Hall (c & Hc%list_elem_of_In & Hu). rewrite (Hall c Hc) in Hu. done. }
  assert (Hsound : Forall (sound_cert now) certs ↔
    existsb (λ c, unreadable c now) certs = false ∧ existsb (λ c, broken c now) certs = false).
  { rewrite Hunread, Forall_forall, Forall_forall, <- (not_true_iff_false (existsb _ _)), existsb_exists. split.
    - intros Hall. split; [intros c Hc; by apply sound_cert_spec, Hall|]. intros (c & Hc%list_elem_of_In & Hb).
      apply Hall, sound_cert_spec in Hc as [_ Hb']. congruence.
    - intros [Hu Hb] c Hc. apply sound_cert_spec. split; [by apply Hu|]. apply not_true_iff_false. intros Ht. apply Hb. exists c.
      split; [by apply list_elem_of_In|done]. }
  rewrite Hsound, <- Hunread. pose proof (tally_all_spec certs now no_certs) as Ht.
  destruct (existsb (λ c, unreadable c now) certs).
  { destruct (tally_all certs now no_certs); [done|]. split; (split; [done|]); [by intros (_ & ? & _)|by intros [?|[? _]]]. }
  destruct Ht as (t & -> & Hprob). cbn [no_certs t_problems] in Hprob. unfold cert_verdict. case_decide as Hp.
  - split; split; try done; [intros (_ & _ & Hb); exfalso; apply Hp; tauto|]. intros _. right. split; [done|]. intros [_ Hb]. apply Hp. tauto.
  - assert (t_problems t = []) as Hp0 by (by destruct (t_problems t)). apply Hprob in Hp0 as [_ Hb].
    destruct (t_soonest t) as [[name remains]|]; 
      (split; [done|]); (split; [done|]); (intros [?|[_ Hno]]; [done|exfalso; by apply Hno]).
Qed.

(** ** Snapshots *)
Definition usable_at (s : Any) (t : Z) : Prop := snapshotError s = Ok None ∧ nestedTime s ["status"; "creationTime"] = Ok (Some t).

Lemma snapshots_spec items a a' : snapshots_from items a = Ok a' →
  (sn_usable a ≤ sn_usable a')%Z ∧ (sn_newest a ≤ sn_newest a')%Z ∧
  (∀ s t, s ∈ items → usable_at s t → (t ≤ sn_newest a')%Z ∧ (sn_usable a < sn_usable a')%Z) ∧
  (sn_newest a' = sn_newest a ∨ ∃ s, s ∈ items ∧ usable_at s (sn_newest a')) ∧
  (sn_usable a' = sn_usable a ∨ ∃ s t, s ∈ items ∧ usable_at s t).
Proof.
  revert a. induction items as [|s items IH]; intros a; cbn [snapshots_from].
  { intros [= <-]. split_and!; [lia|lia|by intros ? ? ?%not_elem_of_nil|by left|by left]. }
  destruct (snapshot_step a s) as [a1|e] eqn:Hs; [|done]. intros (Hu & Hn & Hall & Hnew & Husable)%IH.
  assert (Hstep : (∃ t, usable_at s t ∧ a1 = with_snapshot a s t) ∨
    ((∀ t, ¬ usable_at s t) ∧ sn_usable a1 = sn_usable a ∧ sn_newest a1 = sn_newest a)).
  { unfold snapshot_step in Hs. unfold usable_at.
    destruct (snapshotError s) as [[msg|]|e]; [injection Hs as <-; right; split; [by intros t [? _]|done]| |done].
    destruct (nestedTime s _) as [[t|]|e]; [injection Hs as <-; left; by exists t| |done].
    injection Hs as <-. right. split; [by intros t [_ ?]|done]. }
  destruct Hstep as [(t & Ht & ->)|(Hnot & Eu & En)].
  - assert (sn_usable (with_snapshot a s t) = sn_usable a + 1)%Z as Eu by (unfold with_snapshot; by case_decide).
    assert (sn_newest (with_snapshot a s t) = Z.max (sn_newest a) t)%Z as En by (unfold with_snapshot; case_decide; cbn; lia).
    rewrite Eu, En in *. split; [lia|]. split; [lia|]. split; [|split].
    + intros s' t' [->|Hin]%elem_of_cons Hut; [|destruct (Hall s' t' Hin Hut); lia].
      destruct Ht as [_ Ht], Hut as [_ Hut]. rewrite Ht in Hut. injection Hut as ->. lia.
    + destruct Hnew as [Hnew|(s' & Hin & Hs')]; [|right; exists s'; split; [by right|done]].
      destruct (decide (t ≤ sn_newest a)%Z); [left; lia|]. right. exists s. split; [by left|].
      replace (sn_newest a') with t by lia. done.
    + right. exists s, t. split; [by left|done].
  - rewrite Eu, En in *. split; [done|]. split; [done|]. split; [|split].
    + intros s' t' [->|Hin]%elem_of_cons Hut; [by destruct (Hnot t')|by apply (Hall s')].
    + destruct Hnew as [?|(s' & Hin & Hs')]; [by left|]. right. exists s'. split; [by right|done].
    + destruct Husable as [?|(s' & t' & Hin & Hs')]; [by left|]. right. exists s', t'. split; [by right|done].
Qed.

(** Recent means recent.  When snapshots are listed, a pass names one that carries no error
    and was taken within the limit; a failure means that no snapshot without an error was;
    and an unreadable record settles nothing. *)
Theorem snapshots_recent items now maxAge r :
  (0 ≤ now)%Z → (0 < maxAge < i64_max)%Z →
  r = match snapshots_from items no_snapshots with Err e => Err e | Ok a => snapshot_verdict (length items) now maxAge a end →
  (judged r = OutcomePass → ∃ s t, s ∈ items ∧ usable_at s t ∧ (Sub now t ≤ maxAge)%Z) ∧
  (judged r = OutcomeFail → ∀ s t, s ∈ items → usable_at s t → (maxAge < Sub now t)%Z).
Proof.
  intros Hnow Hmax ->. destruct (snapshots_from items no_snapshots) as [a|e] eqn:Ha; [|done].
  apply snapshots_spec in Ha as (_ & _ & Hall & Hnew & Husable). cbn [no_snapshots sn_newest sn_usable] in *. unfold snapshot_verdict.
  case_decide as Hu.
  { split; [done|]. intros _ s t Hin Hs. destruct (Hall s t Hin Hs). lia. }
  case_decide as Hage.
  - split; [done|]. intros _ s t Hin Hs. destruct (Hall s t Hin Hs) as [Ht _]. unfold Sub in *. lia.
  - split; [|done]. intros _. destruct Hnew as [Hz|(s & Hin & Hs)].
    + exfalso. apply Hage. rewrite Hz. unfold Sub, zeroTime, Second, i64_min, i64_max in *. lia.
    + exists s, (sn_newest a). split; [done|]. split; [done|]. lia.
Qed.
End facts.
