(* ===== verification/DoctorNetpol.v ===== *)
(** * The doctor's NetworkPolicy probe

    [internal/doctor/netpol.go]: three canaries are created in the build namespace, and how
    they exit says whether the CNI enforces the policies there.  A leak is tried again with
    fresh pods, so the loop runs over batches; it has as many rounds as [MaxBatches] allows.
    The probe makes the calls of the doctor ([Read]) and its own, with arbitrary replies. *)
From S2P Require Import Prelude GoStrings Features Effects Kube RateLimit GitHubApp ApiServer Canary Doctor.
From S2P Require Preflight.
From S2P Require Import CheckRegistry CheckRun Probes.

Definition IDNetworkPolicyEnforced : string := "net.networkpolicy-enforced".
Definition registryServiceName : string := "orkano-registry".
Definition buildNamespace : string := "orkano-builds".
Definition buildPodLabel : string := "orkano-build".
Definition canaryManagedByValue : string := "orkano-doctor".
Definition canaryLabelValue : string := "orkano-doctor-canary".
Definition probeTargetEnv : string := "ORKANO_PROBE_TARGET".
Definition canaryExitConnected : Z := 0.
Definition canaryExitBlocked : Z := 42.
Definition canaryExitInvalid : Z := 43.

Record NetpolTiming : Type := {
  WaitBudget : Z; PollInterval : Z; CanarySettle : Z; CanaryDeadline : Z; SettleBudget : Z; BatchReserve : Z;
  MinLeakBatches : Z; MaxBatches : Z;
}.
Definition netpolTiming : NetpolTiming := {|
  WaitBudget := 3 * Minute; PollInterval := 2 * Second; CanarySettle := 5 * Second; CanaryDeadline := 60 * Second;
  SettleBudget := 90 * Second; BatchReserve := 70 * Second; MinLeakBatches := 2; MaxBatches := 6 |}.

Definition policyControllerNote : string :=
  " (on k3s the policy controller runs inside the server process, not as a pod: check `journalctl -u k3s` and whether the node was started with --disable-network-policy)".

(** ** The calls *)
Inductive NetE : Set → Type :=
| Read {X : Set} (e : DocE X) : NetE X
(** how many NetworkPolicies a namespace holds *)
| ListPolicies (namespace : string) : NetE (result string nat)
(** [DeleteAllOf] the pods managed by the doctor in the build namespace *)
| SweepPods (namespace managedBy : string) : NetE (result DocError unit)
| CreatePod (p : CanaryPod) : NetE (result string unit)
(** on a context of its own; its error is dropped *)
| DeletePod (namespace name : string) : NetE unit
| GetPod (namespace name : string) : NetE (result string PodStatus)
(** one [PollInterval], or the error of the context *)
| Sleep : NetE (option string)
(** [time.Now()] *)
| Clock : NetE Z
(** [total.Err()] *)
| TotalErr : NetE (option string).

(** ** Legs and batches *)
Inductive legOutcome : Set := legIndeterminate | legConnected | legBlocked.
#[export] Instance legOutcome_eq_dec : EqDecision legOutcome.
Proof. solve_decision. Defined.
Definition leg_text (o : legOutcome) : string :=
  match o with legConnected => "connected" | legBlocked => "blocked" | legIndeterminate => "indeterminate" end.

Record batchResult : Set := { control : legOutcome; denyRegistry : legOutcome; denyEgress : legOutcome; controlDetail : string }.
Definition no_batch : batchResult :=
  {| control := legIndeterminate; denyRegistry := legIndeterminate; denyEgress := legIndeterminate; controlDetail := "" |}.
Definition leaked (b : batchResult) : bool := bool_decide (denyRegistry b = legConnected ∨ denyEgress b = legConnected).

Fixpoint classify_statuses (l : list ContainerStatus) : legOutcome :=
  match l with
  | [] => legIndeterminate
  | cs :: l =>
      if decide (cst_Name cs ≠ "probe") then classify_statuses l
      else match cst_Terminated cs with
           | None => classify_statuses l
           | Some t =>
               if decide (ts_ExitCode t = canaryExitConnected) then legConnected
               else if decide (ts_ExitCode t = canaryExitBlocked) then legBlocked else legIndeterminate
           end
  end.
Definition classifyCanary (pod : PodStatus) : legOutcome := classify_statuses (ps_ContainerStatuses pod).

Definition status_detail (cs : ContainerStatus) : string :=
  match cst_Waiting cs, cst_Terminated cs with
  | Some (reason, _), t =>
      if decide (reason ≠ "") then ", container " +:+ reason
      else match t with
           | Some t => ", container exited " +:+ pretty (ts_ExitCode t) +:+ (if decide (ts_Reason t ≠ "") then " (" +:+ ts_Reason t +:+ ")" else "")
           | None => ""
           end
  | None, Some t => ", container exited " +:+ pretty (ts_ExitCode t) +:+ (if decide (ts_Reason t ≠ "") then " (" +:+ ts_Reason t +:+ ")" else "")
  | None, None => ""
  end.
Definition podDetail (pod : PodStatus) : string :=
  "pod phase " +:+ ps_Phase pod +:+ (if decide (ps_Reason pod ≠ "") then "/" +:+ ps_Reason pod else "") +:+
  Join (status_detail <$> ps_ContainerStatuses pod) "".

(** ** The canaries *)
Definition canaryCommand (settle : Z) : string :=
  let seconds := Z.max 0 (Z.quot (Preflight.round_to Second settle) Second) in
  "sleep " +:+ pretty seconds +:+ "; nc -z -w 5 " +:+ dq +:+ "$" +:+ probeTargetEnv +:+ dq +:+ " 443; case $? in 0) exit " +:+
  pretty canaryExitConnected +:+ ";; 1) exit " +:+ pretty canaryExitBlocked +:+ ";; *) exit " +:+ pretty canaryExitInvalid +:+ ";; esac".
Definition canaryPod (name appLabel vip : string) : CanaryPod :=
  {| cn_Namespace := buildNamespace; cn_Name := name; cn_GenerateName := "";
     cn_Labels := <["app.kubernetes.io/name" := appLabel]> {["app.kubernetes.io/managed-by" := canaryManagedByValue]};
     cn_ActiveDeadlineSeconds := Z.quot (Preflight.round_to Second (CanaryDeadline netpolTiming)) Second;
     cn_TerminationGracePeriodSeconds := None; cn_SchedulingGates := []; cn_NodeName := None;
     cn_Spec := canary_spec CanaryImage ["sh"; "-c"; canaryCommand (CanarySettle netpolTiming)]
       [{| cenv_Name := probeTargetEnv; cenv_Value := vip; cenv_ValueFrom := None |}] |}.

(** ** One batch *)
Section netpol.
Context `{UnicodeTables}.

Definition out_of_time (lastState e : string) : legOutcome * string * option string :=
  (legIndeterminate, lastState, Some ("canary did not finish in time (last state: " +:+ lastState +:+ "): " +:+ e)).
(** [looks] is how often the wait can still sleep before its context is done. *)
Fixpoint wait_canary (looks : nat) (name : string) : prog NetE (legOutcome * string * option string) :=
  let! r := trigger (GetPod buildNamespace name) in
  let again lastState :=
    match looks with
    | O => Ret (out_of_time lastState DeadlineExceeded)
    | S looks =>
        let! e := trigger Sleep in
        match e with Some e => Ret (out_of_time lastState e) | None => wait_canary looks name end
    end in
  match r with
  | Err e => again ("read failed: " +:+ e)
  | Ok pod => if terminal pod then Ret (classifyCanary pod, podDetail pod, None) else again ("phase " +:+ Quote (ps_Phase pod))
  end.
Definition waitCanaryOutcome : string → prog NetE (legOutcome * string * option string) :=
  wait_canary (patience (WaitBudget netpolTiming) (PollInterval netpolTiming)).

Fixpoint create_canaries (pods : list CanaryPod) : prog NetE (option string) :=
  match pods with
  | [] => Ret None
  | p :: pods =>
      let! r := trigger (CreatePod p) in
      match r with Err e => Ret (Some ("create canary pod " +:+ cn_Name p +:+ ": " +:+ e)) | Ok _ => create_canaries pods end
  end.
Fixpoint cleanup (pods : list CanaryPod) : prog NetE unit :=
  match pods with [] => Ret tt | p :: pods => let! _ := trigger (DeletePod (cn_Namespace p) (cn_Name p)) in cleanup pods end.

Definition canary_name (stamp attempt : Z) (role : string) : string :=
  "orkano-doctor-netpol-" +:+ role +:+ "-" +:+ pretty stamp +:+ "-a" +:+ pretty attempt.
Definition control_pod (stamp attempt : Z) (registryVIP : string) : CanaryPod :=
  canaryPod (canary_name stamp attempt "control") buildPodLabel registryVIP.
Definition deny_registry_pod (stamp attempt : Z) (registryVIP : string) : CanaryPod :=
  canaryPod (canary_name stamp attempt "deny-registry") canaryLabelValue registryVIP.
Definition deny_egress_pod (stamp attempt : Z) (apiVIP : string) : CanaryPod :=
  canaryPod (canary_name stamp attempt "deny-egress") canaryLabelValue apiVIP.
Definition batch_pods (stamp attempt : Z) (registryVIP apiVIP : string) : list CanaryPod :=
  [control_pod stamp attempt registryVIP; deny_registry_pod stamp attempt registryVIP; deny_egress_pod stamp attempt apiVIP].

(** the [switch] on the pod's name *)
Definition set_leg (stamp attempt : Z) (b : batchResult) (name : string) (o : legOutcome) (detail : string) : batchResult :=
  if decide (name = canary_name stamp attempt "control") then
    {| control := o; denyRegistry := denyRegistry b; denyEgress := denyEgress b; controlDetail := detail |}
  else if decide (name = canary_name stamp attempt "deny-registry") then
    {| control := control b; denyRegistry := o; denyEgress := denyEgress b; controlDetail := controlDetail b |}
  else if decide (name = canary_name stamp attempt "deny-egress") then
    {| control := control b; denyRegistry := denyRegistry b; denyEgress := o; controlDetail := controlDetail b |}
  else b.
Fixpoint observe (stamp attempt : Z) (pods : list CanaryPod) (b : batchResult) : prog NetE (result string batchResult) :=
  match pods with
  | [] => Ret (Ok b)
  | p :: pods =>
      let! w := waitCanaryOutcome (cn_Name p) in
      let '(o, detail, e) := w in
      match e with
      | Some e => Ret (Err ("wait for canary " +:+ cn_Name p +:+ " (" +:+ detail +:+ "): " +:+ e))
      | None => observe stamp attempt pods (set_leg stamp attempt b (cn_Name p) o detail)
      end
  end.
Definition runCanaryBatch (attempt : Z) (registryVIP apiVIP : string) : prog NetE (result string batchResult) :=
  let! now := trigger (Read DoctorNow) in
  let stamp := (now / Second)%Z in
  let pods := batch_pods stamp attempt registryVIP apiVIP in
  let! failed := create_canaries pods in
  match failed with
  | Some e => let! _ := cleanup pods in Ret (Err e)
  | None => let! out := observe stamp attempt pods no_batch in let! _ := cleanup pods in Ret out
  end.

(** ** The probe *)
Definition serviceVIP (namespace name : string) : prog NetE (result string string) :=
  let! r := trigger (Read (GetService namespace name)) in
  Ret (match r with
       | Err e => Err ("read Service " +:+ namespace +:+ "/" +:+ name +:+ " (a probe target): " +:+ doc_text e)
       | Ok svc =>
           if decide (sv_ClusterIP svc = "" ∨ sv_ClusterIP svc = "None") then
             Err ("service " +:+ namespace +:+ "/" +:+ name +:+ " has no ClusterIP to probe")
           else Ok (sv_ClusterIP svc)
       end).
(** whether there is a policy, and whether that is known *)
Definition networkPoliciesPresent : prog NetE (bool * bool) :=
  let! r := trigger (ListPolicies buildNamespace) in
  Ret (match r with Err _ => (false, false) | Ok n => (bool_decide (0 < n), true) end).
Definition sweepCanaries : prog NetE (result string unit) :=
  let! r := trigger (SweepPods buildNamespace canaryManagedByValue) in
  Ret (match r with
       | Ok _ | Err (Absent _) => Ok tt
       | Err e => Err ("sweep leftover canary pods: " +:+ doc_text e)
       end).

Definition netpolFailResult (b : batchResult) (registryVIP apiVIP suffix : string) : result string Result :=
  let msg :=
    match denyEgress b with
    | legConnected =>
        "an unlabeled pod in " +:+ buildNamespace +:+ " connected to the apiserver ClusterIP " +:+ apiVIP +:+
        ":443: the default-deny egress policy is not being enforced (policy missing or the CNI ignores it)"
    | _ =>
        "an unlabeled pod in " +:+ buildNamespace +:+ " connected to the registry " +:+ registryVIP +:+
        ":443 even though its apiserver egress was blocked: policy evaluation is partial (the registry ingress allowlist or the egress rule set is broken)"
    end in
  failing (msg +:+ suffix +:+ policyControllerNote).

Context (dur : Z → string).
Section rounds.
Context (registryVIP apiVIP : string) (policiesPresent policiesKnown : bool) (ceiling : Z).

Definition unattributable (b : batchResult) : result string Result :=
  Err ("the allowed control path (build-labeled pod -> registry " +:+ registryVIP +:+ ":443) did not connect (" +:+ controlDetail b +:+
       "): cannot attribute the deny results to policy; check the registry's health, and whether the canary image " +:+ CanaryImage +:+
       " is pullable on the nodes (air-gapped or rate-limited installs need it preloaded)").
Definition enforced : result string Result :=
  passing ("both unlabeled canaries were blocked (registry " +:+ registryVIP +:+ ":443 and apiserver " +:+ apiVIP +:+
           ":443) while the build-labeled control connected: the CNI enforces NetworkPolicy in both directions").
Definition unenforced (b : batchResult) : result string Result :=
  netpolFailResult b registryVIP apiVIP
    ("; no NetworkPolicy exists in " +:+ buildNamespace +:+ ", so nothing is being enforced; re-apply config/netpol/").
(** the window closed *)
Definition closing (leaks : Z) (b : batchResult) : result string Result :=
  if bool_decide (MinLeakBatches netpolTiming ≤ leaks)%Z && leaked b then
    netpolFailResult b registryVIP apiVIP
      (", reproduced across " +:+ pretty leaks +:+ " independent canary batches over " +:+ dur (SettleBudget netpolTiming))
  else Err ("could not reach a confident verdict within " +:+ dur (WaitBudget netpolTiming) +:+ ": last batch saw the registry leg " +:+
            leg_text (denyRegistry b) +:+ " and the apiserver leg " +:+ leg_text (denyEgress b) +:+
            " (control connected); if the cluster booted moments ago the policy controller may still be programming the pod firewall; re-run `orkano doctor`" +:+
            policyControllerNote).

Definition settle_deadline (settle : option Z) : prog NetE Z :=
  match settle with Some d => Ret d | None => let! t := trigger Clock in Ret (t + SettleBudget netpolTiming)%Z end.
(** [more] is how many rounds [MaxBatches] still allows after this one *)
Fixpoint rounds (more : nat) (attempt : Z) (settle : option Z) (leaks : Z) : prog NetE (result string Result) :=
  let! r := runCanaryBatch attempt registryVIP apiVIP in
  match r with
  | Err e => Ret (Err e)
  | Ok b =>
      if decide (control b ≠ legConnected) then Ret (unattributable b)
      else if decide (denyEgress b = legBlocked ∧ denyRegistry b = legBlocked) then Ret enforced
      else
        let leaks := (if leaked b then leaks + 1 else leaks)%Z in
        if leaked b && policiesKnown && negb policiesPresent then Ret (unenforced b)
        else
          let! deadline := settle_deadline settle in
          let! now := trigger Clock in
          match more with
          | O => Ret (closing leaks b)
          | S more =>
              if bool_decide (now < deadline)%Z && bool_decide (now + BatchReserve netpolTiming < ceiling)%Z then
                let! e := trigger TotalErr in
                match e with Some _ => Ret (closing leaks b) | None => rounds more (attempt + 1) (Some deadline) leaks end
              else Ret (closing leaks b)
          end
  end.
End rounds.

Definition probeNetworkPolicy : prog NetE (result string Result) :=
  let! r := serviceVIP systemNamespace registryServiceName in
  match r with
  | Err e => Ret (Err e)
  | Ok registryVIP =>
      let! r := serviceVIP "default" "kubernetes" in
      match r with
      | Err e => Ret (Err e)
      | Ok apiVIP =>
          let! policies := networkPoliciesPresent in
          let! r := sweepCanaries in
          match r with
          | Err e => Ret (Err e)
          | Ok _ =>
              let! start := trigger Clock in
              rounds registryVIP apiVIP policies.1 policies.2 (start + WaitBudget netpolTiming)%Z
                (Z.to_nat (MaxBatches netpolTiming - 1)) 1 None 0
          end
      end
  end.

(** ** The checks of [orkano doctor] *)
Definition networkPolicyEnforcedCheck : ProbeCheck NetE :=
  Build_ProbeCheck IDNetworkPolicyEnforced SeverityCritical "the CNI enforces NetworkPolicy (capability-probed, INV-02 substrate)"
    "run `kubectl get networkpolicy -n orkano-builds`: if the policies are missing, re-apply config/netpol/; if they exist, the CNI is not enforcing them: on the stock k3s install kube-router's netpol controller must be running (re-run `orkano init`), on a custom CNI install one that enforces NetworkPolicy"
    [] probeNetworkPolicy.
Definition reading (c : ProbeCheck DocE) : ProbeCheck NetE :=
  Build_ProbeCheck (pc_ID c) (pc_Severity c) (pc_Summary c) (pc_Remediation c) (pc_Requires c) (lift (λ X, Read) (pc_Probe c)).
Definition Checks `{UnstructuredLib, DoctorLib} (opt : DoctorOptions) : list (ProbeCheck NetE) :=
  [reading componentsReadyCheck; reading dashboardNotPublicCheck; reading certificateExpiryCheck; reading (etcdSnapshotAgeCheck opt);
   networkPolicyEnforcedCheck; reading (secretsStoreHealthCheck opt); reading unsafeFeaturesDisabledCheck].
End netpol.

(** ** What a verdict rests on *)
Section facts.
Context `{UnicodeTables} (dur : Z → string).

(** A canary was created, and a look at it found it ended with the outcome [o]. *)
Definition saw_leg (tr : list (call NetE)) (p : CanaryPod) (o : legOutcome) : Prop :=
  Call (CreatePod p) (Ok tt) ∈ tr ∧
  ∃ st, Call (GetPod buildNamespace (cn_Name p)) (Ok st) ∈ tr ∧ terminal st = true ∧ classifyCanary st = o.
(** One round saw the legs [b]: three fresh canaries, named after the round. *)
Definition saw_batch (tr : list (call NetE)) (registryVIP apiVIP : string) (attempt : Z) (b : batchResult) : Prop :=
  ∃ stamp, saw_leg tr (control_pod stamp attempt registryVIP) (control b) ∧
    saw_leg tr (deny_registry_pod stamp attempt registryVIP) (denyRegistry b) ∧
    saw_leg tr (deny_egress_pod stamp attempt apiVIP) (denyEgress b).

Lemma saw_batch_mono tr tr' rv av attempt b : tr ⊆ tr' → saw_batch tr rv av attempt b → saw_batch tr' rv av attempt b.
Proof.
  intros Hsub (stamp & H1 & H2 & H3). exists stamp.
  assert (∀ p o, saw_leg tr p o → saw_leg tr' p o) as Hm by (intros p o (Hc & st & Hg & Ht); split; [auto|]; exists st; auto). auto.
Qed.

Lemma wait_canary_sees looks name tr o detail :
  exec (wait_canary looks name) tr (o, detail, None) →
  ∃ st, Call (GetPod buildNamespace name) (Ok st) ∈ tr ∧ terminal st = true ∧ classifyCanary st = o.
Proof.
  revert tr. induction looks as [|looks IH]; intros tr (r & tr' & -> & Hex); cbn [prog_bind trigger] in Hex.
  - destruct r as [st|e]; [|by destruct Hex]. destruct (terminal st) eqn:Ht; [|by destruct Hex].
    destruct Hex as [-> [= -> ->]]. exists st. split; [by left|done].
  - destruct r as [st|e]; [destruct (terminal st) eqn:Ht|].
    + destruct Hex as [-> [= -> ->]]. exists st. split; [by left|done].
    + destruct Hex as (e & tr2 & -> & Hex). destruct e; [by destruct Hex|].
      apply IH in Hex as (st' & Hin & Hst). exists st'. split; [by do 2 right|done].
    + destruct Hex as (e' & tr2 & -> & Hex). destruct e'; [by destruct Hex|].
      apply IH in Hex as (st' & Hin & Hst). exists st'. split; [by do 2 right|done].
Qed.

Lemma create_canaries_created pods tr : exec (create_canaries pods) tr None → ∀ p, p ∈ pods → Call (CreatePod p) (Ok tt) ∈ tr.
Proof.
  revert tr. induction pods as [|p pods IH]; intros tr; cbn [create_canaries]; [by intros _ ? ?%not_elem_of_nil|].
  intros (r & tr' & -> & Hex) q. cbn [prog_bind] in Hex. destruct r as [[]|e]; [|by destruct Hex]. intros [->|Hq]%elem_of_cons; [by left|].
  right. by apply (IH tr').
Qed.

Lemma roles_differ stamp attempt :
  canary_name stamp attempt "deny-registry" ≠ canary_name stamp attempt "control" ∧
  canary_name stamp attempt "deny-egress" ≠ canary_name stamp attempt "control" ∧
  canary_name stamp attempt "deny-egress" ≠ canary_name stamp attempt "deny-registry".
Proof.
  unfold canary_name. split_and!; intros E.
  - apply (f_equal (String.get 21)) in E. cbn [String.get String.append] in E. discriminate E.
  - apply (f_equal (String.get 21)) in E. cbn [String.get String.append] in E. discriminate E.
  - apply (f_equal (String.get 26)) in E. cbn [String.get String.append] in E. discriminate E.
Qed.

Lemma batch_seen attempt rv av tr b : exec (runCanaryBatch attempt rv av) tr (Ok b) → saw_batch tr rv av attempt b.
Proof.
  unfold runCanaryBatch. intros (now & tr' & -> & Hex). cbn [prog_bind trigger] in Hex.
  apply exec_bind in Hex as (t1 & t2 & failed & -> & Hc & Hex). destruct failed as [e|].
  { apply exec_bind in Hex as (? & ? & ? & -> & _ & [_ [=]]). }
  pose proof (create_canaries_created _ _ Hc) as Hcr. clear Hc.
  apply exec_bind in Hex as (t3 & t4 & out & -> & Ho & Hex). apply exec_bind in Hex as (t5 & t6 & [] & -> & _ & [_ <-]).
  set (stamp := (now / Second)%Z) in *. exists stamp.
  destruct (roles_differ stamp attempt) as (Hn1 & Hn2 & Hn3).
  unfold batch_pods in Ho. cbn [observe cn_Name control_pod deny_registry_pod deny_egress_pod canaryPod] in Ho.
  apply exec_bind in Ho as (w1 & u1 & [[o1 d1] e1] & -> & Hw1 & Ho). destruct e1; [by destruct Ho|].
  apply exec_bind in Ho as (w2 & u2 & [[o2 d2] e2] & -> & Hw2 & Ho). destruct e2; [by destruct Ho|].
  apply exec_bind in Ho as (w3 & u3 & [[o3 d3] e3] & -> & Hw3 & Ho). destruct e3; [by destruct Ho|].
  destruct Ho as [_ [= ->]]. unfold set_leg.
  rewrite !(decide_False (P := canary_name stamp attempt "deny-registry" = canary_name stamp attempt "control")) by done.
  rewrite !(decide_False (P := canary_name stamp attempt "deny-egress" = canary_name stamp attempt "control")) by done.
  rewrite !(decide_False (P := canary_name stamp attempt "deny-egress" = canary_name stamp attempt "deny-registry")) by done.
  rewrite !decide_True by done. cbn [control denyRegistry denyEgress].
  apply wait_canary_sees in Hw1, Hw2, Hw3.
  assert (Hin : ∀ p, p ∈ batch_pods stamp attempt rv av → Call (CreatePod p) (Ok tt) ∈ Call (Read DoctorNow) now :: t1 ++ (w1 ++ w2 ++ w3 ++ u3) ++ t5 ++ t6).
  { intros p Hp. right. apply elem_of_app. left. by apply Hcr. }
  split_and!; (split; [apply Hin; unfold batch_pods; set_solver|]).
  - destruct Hw1 as (st & Hi & Hst). exists st. split; [|done]. set_solver.
  - destruct Hw2 as (st & Hi & Hst). exists st. split; [|done]. set_solver.
  - destruct Hw3 as (st & Hi & Hst). exists st. split; [|done]. set_solver.
Qed.

Definition clean (b : batchResult) : Prop := control b = legConnected ∧ denyEgress b = legBlocked ∧ denyRegistry b = legBlocked.
Definition leak_seen (b : batchResult) : Prop := control b = legConnected ∧ leaked b = true.
Definition all_seen (tr : list (call NetE)) (rv av : string) (attempt : Z) (bs : list batchResult) : Prop :=
  ∀ i b, bs !! i = Some b → saw_batch tr rv av (attempt + Z.of_nat i) b.

Lemma all_seen_one tr tr' rv av attempt b : saw_batch tr rv av attempt b → all_seen (tr ++ tr') rv av attempt [b].
Proof.
  intros Hb [|i] b' Hi; [|by destruct i]. injection Hi as <-. rewrite Z.add_0_r. eapply saw_batch_mono; [|exact Hb]. set_solver.
Qed.
Lemma all_seen_cons t1 t2 t3 rv av attempt b bs :
  saw_batch t1 rv av attempt b → all_seen t3 rv av (attempt + 1) bs → all_seen (t1 ++ t2 ++ t3) rv av attempt (b :: bs).
Proof.
  intros Hb Hbs [|i] b' Hi.
  - injection Hi as <-. rewrite Z.add_0_r. eapply saw_batch_mono; [|exact Hb]. set_solver.
  - replace (attempt + Z.of_nat (S i))%Z with (attempt + 1 + Z.of_nat i)%Z by lia. eapply saw_batch_mono; [|by apply Hbs]. set_solver.
Qed.

Section rounds.
Context (rv av : string) (present known : bool) (ceiling : Z).
Definition counted (leaks : Z) (bs : list batchResult) : Z := (leaks + Z.of_nat (length (filter (λ b, leaked b = true) bs)))%Z.
(** What a verdict says of the batches behind it, [leaks] of which leaked before. *)
Definition rests_on (leaks : Z) (bs : list batchResult) (r : result string Result) : Prop :=
  (judged r = OutcomePass → ∃ b, last bs = Some b ∧ clean b) ∧
  (judged r = OutcomeFail → ∃ b, last bs = Some b ∧ leak_seen b ∧
     (known = true ∧ present = false ∨ (MinLeakBatches netpolTiming ≤ counted leaks bs)%Z)).

Lemma rests_on_error leaks bs r : judged r = OutcomeError → rests_on leaks bs r.
Proof. by intros E; split; rewrite E. Qed.
Lemma rests_on_cons leaks leaks' b bs r :
  leaks' = counted leaks [b] → bs ≠ [] ∨ judged r = OutcomeError → rests_on leaks' bs r → rests_on leaks (b :: bs) r.
Proof.
  intros -> Hne [Hp Hf].
  assert (Hl : ∀ b', last bs = Some b' → last (b :: bs) = Some b') by (intros b'; destruct bs; [done|by intros <-]).
  split; [intros (b' & ? & ?)%Hp; exists b'; auto|]. intros (b' & Hb' & Hs & Hc)%Hf. exists b'. split; [by apply Hl|]. split; [done|].
  destruct Hc as [?|Hc]; [by left|right]. unfold counted in *. rewrite filter_cons in *. cbn [filter list_filter] in *. case_decide; cbn [length] in *; lia.
Qed.

Lemma closing_rests leaks b : control b = legConnected → rests_on leaks [b] (closing dur rv av (counted leaks [b]) b).
Proof.
  intros Hc. unfold closing. destruct (bool_decide _) eqn:Hd; cbn [andb]; [|by apply rests_on_error].
  destruct (leaked b) eqn:Hl; [|by apply rests_on_error]. split; [done|]. intros _. exists b. split; [done|]. split; [done|]. right.
  by apply bool_decide_eq_true in Hd.
Qed.
Lemma rounds_rest more attempt settle leaks tr r :
  exec (rounds dur rv av present known ceiling more attempt settle leaks) tr r →
  ∃ bs, all_seen tr rv av attempt bs ∧ length bs ≤ S more ∧ (bs ≠ [] ∨ judged r = OutcomeError) ∧ rests_on leaks bs r.
Proof.
  revert attempt settle leaks tr. induction more as [|more IH]; intros attempt settle leaks tr Hex; cbn [rounds] in Hex.
  all: apply exec_bind in Hex as (t1 & t2 & [b|e] & -> & Hb & Hex);
    [|destruct Hex as [-> ->]; exists []; split; [by intros [] ?|]; split; [simpl; lia|]; split; [by right|by apply rests_on_error]].
  all: apply batch_seen in Hb.
  all: case_decide as Hc; [destruct Hex as [-> ->]; exists [b]; split; [by apply all_seen_one|];
      split; [simpl; lia|]; split; [by left|]; by apply rests_on_error|].
  all: case_decide as Hd; [destruct Hex as [-> ->]; exists [b]; split; [by apply all_seen_one|];
      split; [simpl; lia|]; split; [by left|]; split; [intros _; by exists b|done]|].
  all: destruct (leaked b && known && negb present) eqn:Hu;
    [destruct Hex as [-> ->]; exists [b]; split; [by apply all_seen_one|]; split; [simpl; lia|]; split; [by left|];
     apply andb_true_iff in Hu as [[Hl Hk]%andb_true_iff Hp%negb_true_iff]; split; [done|]; intros _; exists b; split; [done|]; split; [done|by left]|].
  all: apply exec_bind in Hex as (t3 & t4 & deadline & -> & _ & now & t5 & -> & Hex); cbn [prog_bind trigger] in Hex.
  all: assert (Hcount : (if leaked b then leaks + 1 else leaks)%Z = counted leaks [b]) by
    (unfold counted; rewrite filter_cons; destruct (leaked b); [rewrite decide_True by done|rewrite decide_False by done]; cbn; lia).
  all: rewrite Hcount in Hex.
  - destruct Hex as [-> ->]. exists [b]. split; [by apply all_seen_one|]. split; [simpl; lia|]. split; [by left|]. by apply closing_rests.
  - destruct (bool_decide _ && bool_decide _); [|destruct Hex as [-> ->]; exists [b]; split; [by apply all_seen_one|]; split; [simpl; lia|];
      split; [by left|]; by apply closing_rests].
    destruct Hex as ([e|] & t6 & -> & Hex); [destruct Hex as [-> ->]; exists [b]; split; [by apply all_seen_one|]; split; [simpl; lia|];
      split; [by left|]; by apply closing_rests|].
    apply IH in Hex as (bs & Hbs & Hlen & Hne & Hrest). exists (b :: bs). split; [|split; [simpl; lia|split; [by left|]]]; [|eapply rests_on_cons; [reflexivity|exact Hne|exact Hrest]].
    replace (t1 ++ t3 ++ Call Clock now :: Call TotalErr None :: t6) with (t1 ++ (t3 ++ [Call Clock now; Call TotalErr None]) ++ t6) by
      (by rewrite <- !app_assoc). by apply all_seen_cons.
Qed.
End rounds.

Lemma all_seen_mono tr tr' rv av attempt bs : tr ⊆ tr' → all_seen tr rv av attempt bs → all_seen tr' rv av attempt bs.
Proof. intros Hsub Hb i b Hi. eapply saw_batch_mono; [exact Hsub|by apply Hb]. Qed.
Lemma serviceVIP_reads ns name tr vip : exec (serviceVIP ns name) tr (Ok vip) →
  ∃ svc, Call (Read (GetService ns name)) (Ok svc) ∈ tr ∧ sv_ClusterIP svc = vip.
Proof.
  intros (r & tr' & -> & -> & Hr). destruct r as [svc|e]; [|done]. case_decide; [done|]. injection Hr as ->. exists svc. split; [by left|done].
Qed.

(** The verdict is earned.  The probe passes only when, in the last of at most six batches of
    fresh canaries, the labelled control connected to the registry while the unlabelled
    canaries were blocked both from the registry and from the API server, each seen by its
    exit code.  It fails only when the control connected and an unlabelled canary leaked in
    the last batch, and the namespace holds no policy or two batches leaked.  The addresses
    tried are those of the two Services. *)
Theorem netpol_verdict tr r :
  exec (probeNetworkPolicy dur) tr r →
  judged r = OutcomePass ∨ judged r = OutcomeFail →
  ∃ registry api bs b,
    Call (Read (GetService systemNamespace registryServiceName)) (Ok registry) ∈ tr ∧
    Call (Read (GetService "default" "kubernetes")) (Ok api) ∈ tr ∧
    all_seen tr (sv_ClusterIP registry) (sv_ClusterIP api) 1 bs ∧ length bs ≤ 6 ∧ last bs = Some b ∧
    (judged r = OutcomePass → clean b) ∧
    (judged r = OutcomeFail → leak_seen b ∧
       (Call (ListPolicies buildNamespace) (Ok 0) ∈ tr ∨ 2 ≤ length (filter (λ b, leaked b = true) bs))).
Proof.
  intros Hex Hj. assert (Hne : judged r ≠ OutcomeError) by (destruct Hj as [-> | ->]; done).
  unfold probeNetworkPolicy in Hex. apply exec_bind in Hex as (t1 & t1' & [rv|e] & -> & Hrv & Hex); [|by destruct Hex as [-> ->]].
  apply exec_bind in Hex as (t2 & t2' & [av|e] & -> & Hav & Hex); [|by destruct Hex as [-> ->]].
  apply serviceVIP_reads in Hrv as (registry & Hrv & <-), Hav as (api & Hav & <-).
  apply exec_bind in Hex as (t3 & t3' & policies & -> & Hpol & Hex).
  apply exec_bind in Hex as (t4 & t4' & [[]|e] & -> & _ & Hex); [|by destruct Hex as [-> ->]].
  destruct Hex as (start & t5 & -> & Hex). cbn [prog_bind trigger] in Hex. apply rounds_rest in Hex as (bs & Hseen & Hlen & _ & Hpass & Hfail).
  change (S (Z.to_nat (MaxBatches netpolTiming - 1))) with 6 in Hlen.
  assert (Hb : ∃ b, last bs = Some b) by (destruct Hj as [Hj|Hj]; [destruct (Hpass Hj) as (b & ? & _)|destruct (Hfail Hj) as (b & ? & _)]; by exists b).
  destruct Hb as [b Hb]. exists registry, api, bs, b. split; [rewrite !elem_of_app; tauto|]. split; [rewrite !elem_of_app; tauto|].
  split; [eapply all_seen_mono; [|exact Hseen]; intros c Hc; rewrite !elem_of_app, elem_of_cons; tauto|].
  split; [done|]. split; [done|]. rewrite Hb in Hpass, Hfail. split; [by intros (b' & [= ->] & Hc)%Hpass|].
  intros (b' & [= ->] & Hs & Hc)%Hfail. split; [done|]. destruct Hc as [[Hk Hp]|Hc].
  - left. destruct Hpol as (x & t & -> & -> & ->). destruct x as [n|e]; [|done]. cbn in Hp. apply bool_decide_eq_false in Hp.
    assert (n = 0) as -> by lia. rewrite !elem_of_app, elem_of_cons. tauto.
  - right. unfold counted in Hc. cbn [MinLeakBatches netpolTiming] in Hc. lia.
Qed.
End facts.

(** ** What the probe leaves behind *)
Section cleaned.
Context `{UnicodeTables} (dur : Z → string).

(** A canary of the doctor: restricted, short-lived, in the build namespace, without a token
    of a service account, marked for the sweep. *)
Definition confined (p : CanaryPod) : Prop :=
  cn_Namespace p = buildNamespace ∧ cn_Labels p !! "app.kubernetes.io/managed-by" = Some canaryManagedByValue ∧
  cn_ActiveDeadlineSeconds p = 60%Z ∧ pod_AutomountServiceAccountToken (cn_Spec p) = Some false ∧
  pod_RestartPolicy (cn_Spec p) = "Never" ∧ pod_HostNetwork (cn_Spec p) = false ∧ pod_Volumes (cn_Spec p) = [] ∧
  (∃ sc, pod_SecurityContext (cn_Spec p) = Some sc ∧ psc_RunAsNonRoot sc = Some true ∧ psc_SeccompProfile sc = Some "RuntimeDefault") ∧
  Forall (λ c, c_Image c = CanaryImage ∧ ∃ sc, c_SecurityContext c = Some sc ∧ sc_AllowPrivilegeEscalation sc = Some false ∧
    sc_ReadOnlyRootFilesystem sc = Some true ∧ sc_Privileged sc ≠ Some true ∧ sc_CapDrop sc = ["ALL"] ∧ sc_CapAdd sc = [])
    (pod_InitContainers (cn_Spec p) ++ pod_Containers (cn_Spec p)).
Lemma canaryPod_confined name label vip : confined (canaryPod name label vip).
Proof.
  unfold confined. split_and!; try reflexivity.
  - by eexists.
  - constructor; [|constructor]. split; [done|]. by eexists.
Qed.

(** Ghost state: the pods that were asked for and not yet deleted, and how many were. *)
Record Ghost : Type := { g_live : list string; g_made : nat }.
Definition may (X : Set) (e : NetE X) (g : Ghost) : Prop := match e with CreatePod p => confined p | _ => True end.
Definition moves (X : Set) (e : NetE X) (x : X) (g : Ghost) : Ghost :=
  match e with
  | CreatePod p => {| g_live := cn_Name p :: g_live g; g_made := S (g_made g) |}
  | DeletePod ns n => {| g_live := filter (λ m, ¬ (ns = buildNamespace ∧ m = n)) (g_live g); g_made := g_made g |}
  | _ => g
  end.
Abbreviation tidy := (wp may moves).
Definition quiet (X : Set) (e : NetE X) : bool := match e with CreatePod _ | DeletePod _ _ => false | _ => true end.
Lemma quiet_tidy {A} (p : prog NetE A) (Q : A → Ghost → Prop) g : calls_only quiet p → (∀ a, Q a g) → tidy p Q g.
Proof. intros Hq HQ. refine (wp_calls_only may moves quiet p Q g _ Hq HQ). by intros X [] s Hok. Qed.

Lemma create_canaries_tidy pods g (Q : option string → Ghost → Prop) :
  Forall confined pods →
  (∀ e g', (∀ n, n ∈ g_live g' → n ∈ g_live g ∨ n ∈ cn_Name <$> pods) → g_made g' ≤ g_made g + length pods → Q e g') →
  tidy (create_canaries pods) Q g.
Proof.
  intros Hf. revert g Q. induction Hf as [|p pods Hp _ IH]; intros g Q HQ; cbn [create_canaries].
  { apply HQ; [tauto|simpl; lia]. }
  split; [done|]. intros r. destruct r as [u|e]; cbn [moves].
  - apply IH. cbn [g_live g_made]. intros e g' Hl Hm. apply HQ; [|simpl; lia]. intros n Hn. rewrite fmap_cons, elem_of_cons.
    destruct (Hl n Hn) as [[->|?]%elem_of_cons|?]; tauto.
  - apply HQ; cbn [g_live g_made length]; [|lia]. intros n [->|?]%elem_of_cons; [right; by left|by left].
Qed.
Lemma cleanup_tidy pods g (Q : unit → Ghost → Prop) :
  Forall confined pods → (∀ n, n ∈ g_live g → n ∈ cn_Name <$> pods) → Q tt {| g_live := []; g_made := g_made g |} → tidy (cleanup pods) Q g.
Proof.
  intros Hf. revert g. induction Hf as [|p pods (Hns & _) _ IH]; intros g Hl HQ; cbn [cleanup].
  { destruct g as [l m]. cbn in *. replace l with (@nil string); [done|]. destruct l as [|n l]; [done|].
    exfalso. specialize (Hl n (list_elem_of_here _ _)). by apply elem_of_nil in Hl. }
  split; [done|]. intros x. cbn [moves]. apply IH; [|done]. cbn [g_live]. intros n [Hn Hin]%list_elem_of_filter.
  apply Hl in Hin. rewrite fmap_cons, elem_of_cons in Hin. destruct Hin as [->|?]; [|done]. exfalso. by apply Hn.
Qed.
Lemma wait_canary_quiet looks name : calls_only quiet (wait_canary looks name).
Proof.
  induction looks as [|looks IH]; (split; [done|]); intros [st|e]; cbn [prog_bind trigger]; try (destruct (terminal st); [done|]).
  all: try done. all: split; [done|]; intros [e'|]; done.
Qed.
Lemma observe_quiet stamp attempt pods b : calls_only quiet (observe stamp attempt pods b).
Proof.
  revert b. induction pods as [|p pods IH]; intros b; [done|]. apply calls_only_bind; [apply wait_canary_quiet|]. intros [[o d] [e|]]; [done|apply IH].
Qed.
Lemma batch_tidy attempt rv av g (Q : result string batchResult → Ghost → Prop) :
  g_live g = [] → (∀ r g', g_live g' = [] → g_made g' ≤ g_made g + 3 → Q r g') → tidy (runCanaryBatch attempt rv av) Q g.
Proof.
  intros Hg HQ. split; [done|]. intros now. cbn [moves]. apply wp_bind. cbn [wp trigger]. set (stamp := (now / Second)%Z). apply wp_bind.
  assert (Forall confined (batch_pods stamp attempt rv av)) as Hf by
    (apply Forall_forall; intros p; unfold batch_pods; rewrite !elem_of_cons, elem_of_nil; intros [->|[->|[->|[]]]]; apply canaryPod_confined).
  apply create_canaries_tidy; [done|]. intros [e|] g' Hl Hm.
  - apply wp_bind. apply cleanup_tidy; [done| |]; [intros n Hn; destruct (Hl n Hn) as [Hx|?]; [rewrite Hg in Hx; by apply elem_of_nil in Hx|done]|].
    by apply HQ.
  - apply wp_bind. apply quiet_tidy; [apply observe_quiet|]. intros out. apply wp_bind.
    apply cleanup_tidy; [done| |]; [intros n Hn; destruct (Hl n Hn) as [Hx|?]; [rewrite Hg in Hx; by apply elem_of_nil in Hx|done]|].
    by apply HQ.
Qed.
Lemma rounds_tidy rv av present known ceiling more attempt settle leaks g :
  g_live g = [] →
  tidy (rounds dur rv av present known ceiling more attempt settle leaks) (λ _ g', g_live g' = [] ∧ g_made g' ≤ g_made g + 3 * S more) g.
Proof.
  revert attempt settle leaks g. induction more as [|more IH]; intros attempt settle leaks g Hg; cbn [rounds]; apply wp_bind; apply batch_tidy;
    (try done); intros [b|e] g' Hl Hm; try (split; [done|lia]); (case_decide; [split; [done|lia]|]); (case_decide; [split; [done|lia]|]);
    (destruct (leaked b && known && negb present); [split; [done|lia]|]); apply wp_bind;
    (apply quiet_tidy; [by destruct settle|]); intros deadline; (split; [done|]); intros now; cbn [moves]; [split; [done|lia]|].
  cbn [prog_bind trigger]. case_match; [|split; [done|lia]]. split; [done|]. intros [e|]; cbn [moves]; [split; [done|lia]|].
  eapply wp_mono; [|by apply IH]. cbn beta. intros _ g2 [? ?]. split; [done|lia].
Qed.
Lemma probe_tidy : tidy (probeNetworkPolicy dur) (λ _ g, g_live g = [] ∧ g_made g ≤ 18) {| g_live := []; g_made := 0 |}.
Proof.
  assert (∀ ns n, calls_only quiet (serviceVIP ns n)) as Hs by done.
  unfold probeNetworkPolicy. apply wp_bind, quiet_tidy; [done|]. intros [rv|e]; [|split; [done|simpl; lia]].
  apply wp_bind, quiet_tidy; [done|]. intros [av|e]; [|split; [done|simpl; lia]].
  apply wp_bind, quiet_tidy; [done|]. intros policies. apply wp_bind, quiet_tidy; [done|]. intros [[]|e]; [|split; [done|simpl; lia]].
  split; [done|]. intros start. cbn [moves]. eapply wp_mono; [|by apply rounds_tidy]. done.
Qed.

Lemma stays_live n tr g : n ∈ g_live g → n ∈ g_live (foldl (step_call moves) g tr) ∨ Call (DeletePod buildNamespace n) tt ∈ tr.
Proof.
  revert g. induction tr as [|[X e x] tr IH]; intros g Hn; [by left|]. cbn [foldl step_call].
  assert (n ∈ g_live (moves X e x g) ∨ Call (DeletePod buildNamespace n) tt = Call e x) as [Hin|Hd].
  { destruct e; cbn [moves g_live]; try (by left); [left; by right|]. destruct (decide (namespace = buildNamespace ∧ n = name)) as [[-> ->]|Hno].
    - right. by destruct x.
    - left. by apply list_elem_of_filter. }
  - destruct (IH _ Hin) as [?|?]; [by left|]. right. by right.
  - right. rewrite Hd. left.
Qed.
Definition asked (c : call NetE) : option CanaryPod := match c with Call (CreatePod p) _ => Some p | _ => None end.
Lemma made_asked tr g : g_made (foldl (step_call moves) g tr) = g_made g + length (omap asked tr).
Proof.
  revert g. induction tr as [|[X e x] tr IH]; intros g; [simpl; lia|]. cbn [foldl step_call]. rewrite IH.
  destruct e; cbn [moves g_made omap list_omap asked length]; lia.
Qed.

(** Nothing is left behind.  However the probe ends, and whatever the cluster answers, every
    canary it asked for was deleted afterwards; each was confined, and there are at most
    eighteen. *)
Theorem canaries_removed tr r :
  exec (probeNetworkPolicy dur) tr r →
  length (omap asked tr) ≤ 18 ∧
  ∀ t1 p x t2, tr = t1 ++ Call (CreatePod p) x :: t2 →
    confined p ∧ Call (DeletePod (cn_Namespace p) (cn_Name p)) tt ∈ t2.
Proof.
  intros Hex. pose proof (wp_exec _ _ _ _ _ _ _ probe_tidy Hex) as [Hlive Hmade]. split; [by rewrite made_asked in Hmade|].
  intros t1 p x t2 ->. pose proof (wp_pre _ _ _ _ _ _ _ _ _ probe_tidy Hex) as Hc. cbn [may] in Hc. split; [done|].
  pose proof Hc as [-> _]. rewrite foldl_app in Hlive. cbn [foldl step_call moves] in Hlive.
  match type of Hlive with g_live (foldl _ ?g _) = [] =>
    destruct (stays_live (cn_Name p) t2 g) as [Hin|Hd]; [by left|exfalso; rewrite Hlive in Hin; by apply elem_of_nil in Hin|exact Hd] end.
Qed.
End cleaned.

(** ** A cluster that is still settling

    The policy controller is not ready when the first canaries run, so they leak; the
    second batch is blocked. *)
Module Settling.
Definition service (ip : string) : ServiceView := {| sv_Type := "ClusterIP"; sv_ExternalIPs := []; sv_ClusterIP := ip |}.
Definition exited (code : Z) : PodStatus :=
  {| ps_Phase := if decide (code = 0%Z) then PodSucceeded else PodFailed; ps_Reason := ""; ps_Message := ""; ps_PodIP := "";
     ps_ContainerStatuses := [{| cst_Name := "probe"; cst_Waiting := None;
       cst_Terminated := Some {| ts_ExitCode := code; ts_Reason := ""; ts_Message := "" |}; cst_LastTerminated := None |}] |}.
Definition env_doctor (X : Set) (e : DocE X) : X :=
  match e with
  | GetDeployment _ | GetStatefulSet _ => Err (Absent "")
  | GetService _ name => Ok (service (if decide (name = "kubernetes") then "10.43.0.1" else "10.43.0.9"))
  | ListIngresses _ => Ok []
  | ListObjects _ _ => Ok []
  | ListNodeAnnotations => Ok []
  | GetNamespaceAge _ => Ok 0%Z
  | GetSecretExists _ _ => Ok tt
  | DoctorNow => (1700000000 * Second)%Z
  end.
(** the pods created so far, newest first; policies are enforced once [settled_after] were *)
Definition cluster (settled_after : nat) (X : Set) (e : NetE X) (pods : list CanaryPod) : X * list CanaryPod :=
  match e in NetE X return X * list CanaryPod with
  | Read e => (env_doctor _ e, pods)
  | ListPolicies _ => (Ok 2, pods)
  | SweepPods _ _ => (Ok tt, pods)
  | CreatePod p => (Ok tt, p :: pods)
  | DeletePod _ _ => (tt, pods)
  | GetPod _ name =>
      (match list_find (λ p, cn_Name p = name) pods with
       | Some (_, p) =>
           Ok (exited (if decide (cn_Labels p !! "app.kubernetes.io/name" = Some buildPodLabel) then canaryExitConnected
                       else if decide (settled_after < length pods) then canaryExitBlocked else canaryExitConnected))
       | None => Err "not found"
       end, pods)
  | Sleep => (None, pods)
  | Clock => ((1700000000 * Second)%Z, pods)
  | TotalErr => (None, pods)
  end.
Definition probed (settled_after : nat) := run (cluster settled_after) (@probeNetworkPolicy ascii_tables (λ _, "")) [].

Example settles : judged (probed 3).1.1 = OutcomePass.
Proof. vm_compute. reflexivity. Qed.
Example never_settles : judged (probed 99).1.1 = OutcomeFail.
Proof. vm_compute. reflexivity. Qed.

Lemma probed_exec n : exec (@probeNetworkPolicy ascii_tables (λ _, "")) (probed n).1.2 (probed n).1.1.
Proof. apply run_exec. Qed.
Lemma netpol_verdict_witness :
  judged (probed 99).1.1 = OutcomeFail ∧
  ∃ registry api bs b, all_seen (probed 99).1.2 (sv_ClusterIP registry) (sv_ClusterIP api) 1 bs ∧ last bs = Some b ∧ leak_seen b.
Proof.
  assert (Hj : judged (probed 99).1.1 = OutcomeFail) by (vm_compute; reflexivity). split; [exact Hj|].
  destruct (@netpol_verdict ascii_tables (λ _, "") _ _ (probed_exec 99) (or_intror Hj)) as (registry & api & bs & b & _ & _ & Hs & _ & Hb & _ & Hf).
  exists registry, api, bs, b. split; [exact Hs|]. split; [exact Hb|exact (proj1 (Hf Hj))].
Defined.
Lemma canaries_removed_witness : length (omap asked (probed 3).1.2) = 6 ∧ length (omap asked (probed 3).1.2) ≤ 18.
Proof.
  split; [vm_compute; reflexivity|]. exact (proj1 (@canaries_removed ascii_tables (λ _, "") _ _ (probed_exec 3))).
Defined.
End Settling.
