(* ===== verification/DoctorReport.v ===== *)
(** * The doctor's faces

    [internal/doctor/report.go], [cli/internal/cmd/doctor.go] and
    [dashboard/internal/server/doctor.go]: how a run of the doctor's checks becomes a report
    and an exit code, on the command line and in the dashboard.  The cluster client, the
    process and the writer are arguments; [W] is the world the checks run in. *)
From S2P Require Import Prelude GoStrings Features Effects Kube RateLimit GitHubApp ApiServer ApiSetup Doctor.
From S2P Require Import CheckRegistry CheckRun Probes.

(** ** The gate and the reports *)
Definition GateExitCode (run : list CheckResult) (minScore : Z) : Z :=
  if decide (0 < minScore ∧ Value (RunScore run) < minScore)%Z then ExitCritical else ExitCode run.
Definition fixableFailing (run : list CheckResult) : nat :=
  length (filter (λ res, Fixable res = true ∧ ResOutcome res = OutcomeFail) run).
Definition fix_line (a : FixAttempt) : string :=
  match AttemptErr a with
  | Some e => "fix " +:+ AttemptID a +:+ ": " +:+ e
  | None =>
      if Resolved a then "fix " +:+ AttemptID a +:+ ": applied, the check now passes"
      else "fix " +:+ AttemptID a +:+ ": applied, but the check still does not pass"
  end.
(** the lines of the whole report *)
Definition WriteText (run : list CheckResult) (attempts : list FixAttempt) (minScore : Z) : list string :=
  let s := RunScore run in
  CheckRun.WriteText run ++ (fix_line <$> attempts) ++
  (if decide (0 < fixableFailing run) then [pretty (fixableFailing run) +:+ " failing check(s) have an automatic fix; run `orkano doctor --fix`"] else []) ++
  [""; "Hardening score: " +:+ pretty (Value s) +:+ "% (" +:+ pretty (ScorePassed s) +:+ " of " +:+ pretty (Scored s) +:+ " applicable checks passed)"] ++
  (if decide (0 < minScore)%Z then
     ["Score gate: " +:+ pretty (Value s) +:+ "% " +:+ (if decide (Value s < minScore)%Z then "is below" else "meets") +:+
      " the required " +:+ pretty minScore +:+ "% (--min-score)"]
   else []).

Record jsonCheck : Type := { jc_Result : jsonResult; jc_Fixable : bool }.
Record jsonFix : Type := { jf_ID : string; jf_Error : string; jf_Resolved : bool }.
Record jsonReport : Type := {
  jr_Results : list jsonCheck; jr_Summary : Summary; jr_Score : Score; jr_MinScore : Z; jr_Fixes : list jsonFix; jr_ExitCode : Z;
}.
Definition json_check (res : CheckResult) : jsonCheck :=
  {| jc_Result := mkJsonResult (ResID res) (severity_text (ResSeverity res)) (ResSummary res) (outcome_text (ResOutcome res))
       (ResMessage res) (Blockers res) (ResRemediation res); jc_Fixable := Fixable res |}.
Definition json_fix (a : FixAttempt) : jsonFix :=
  {| jf_ID := AttemptID a; jf_Error := default "" (AttemptErr a); jf_Resolved := Resolved a |}.
Definition WriteJSON (run : list CheckResult) (attempts : list FixAttempt) (minScore : Z) : jsonReport :=
  {| jr_Results := json_check <$> run; jr_Summary := RunSummary run; jr_Score := RunScore run; jr_MinScore := minScore;
     jr_Fixes := json_fix <$> attempts; jr_ExitCode := GateExitCode run minScore |}.

(** ** The command *)
Record doctorOptions : Type := { do_kubeconfig : string; do_json : bool; do_fix : bool; do_local : bool; do_minScore : Z }.
Definition resolveKubeconfig (flag env : string) : string :=
  if decide (flag ≠ "") then flag else if decide (env ≠ "") then env else "orkano.kubeconfig".
(** a command's error: any error, or one that carries an exit code *)
Inductive CmdError : Type :=
| Failed (msg : string)
| exitCodeError (code : Z) (msg : string).
(** [ExitCode] of the command package *)
Definition process_exit (err : option CmdError) : Z :=
  match err with None => 0 | Some (exitCodeError code _) => code | Some (Failed _) => 1 end.

(** what went out *)
Inductive Printed : Type := PrintedText (lines : list string) | PrintedJSON (report : jsonReport).

Section command.
Context {W Client : Type} `{UnicodeTables} (ctx_err : W → option string) (stack : W → string).
Context (geteuid : Z) (env : string) (newDoctorClient : string → result string Client).
Context (registerDoctorChecks : Client → Registry W → result RegisterError (Registry W)) (local_check : Check W).
Context (register_text : RegisterError → string) (graph_text : GraphError → string) (write : Printed → option string).

Definition register_all (opt : doctorOptions) (c : Client) : result string (Registry W) :=
  match registerDoctorChecks c New with
  | Err e => Err ("register doctor checks: " +:+ register_text e)
  | Ok reg =>
      if do_local opt then
        match Register reg local_check with Err e => Err ("register node checks: " +:+ register_text e) | Ok reg => Ok reg end
      else Ok reg
  end.
Definition run_checks (opt : doctorOptions) (reg : Registry W) (w : W) : result string (list CheckResult * list FixAttempt) * W :=
  if do_fix opt then
    match RunAndFix ctx_err stack reg w with
    | (_, _, Some e, w') => (Err (graph_text e), w')
    | (run, attempts, None, w') => (Ok (default [] run, attempts), w')
    end
  else
    match CheckRun.Run ctx_err stack reg w with
    | (Err e, w') => (Err (graph_text e), w')
    | (Ok run, w') => (Ok (run, []), w')
    end.
Definition gate_error (run : list CheckResult) (minScore : Z) : option CmdError :=
  let code := GateExitCode run minScore in
  if decide (code = ExitOK) then None
  else if decide (ExitCode run = ExitCritical) then Some (exitCodeError code "a critical check failed (see the report above)")
  else if decide (code = ExitCritical) then
    Some (exitCodeError code ("hardening score " +:+ pretty (Value (RunScore run)) +:+ "% is below the required " +:+ pretty minScore +:+ "% (see the report above)"))
  else Some (exitCodeError code "a critical check could not be determined (see the report above)").

(** The run and the fixes that were reported, if the report went out, and the error. *)
Definition runDoctor (opt : doctorOptions) (w : W) : option (list CheckResult * list FixAttempt) * option CmdError * W :=
  let failed msg := (None, Some (Failed msg), w) in
  if decide (do_minScore opt < 0 ∨ do_minScore opt > 100)%Z then
    failed ("--min-score must be between 0 and 100, got " +:+ pretty (do_minScore opt))
  else if decide (do_local opt = true ∧ geteuid ≠ 0%Z) then
    failed "orkano doctor --local must run as root on the server (re-run with sudo)"
  else
    match newDoctorClient (resolveKubeconfig (do_kubeconfig opt) env) with
    | Err e => failed e
    | Ok c =>
        match register_all opt c with
        | Err e => failed e
        | Ok reg =>
            match run_checks opt reg w with
            | (Err e, w') => (None, Some (Failed e), w')
            | (Ok (run, attempts), w') =>
                let report := if do_json opt then PrintedJSON (WriteJSON run attempts (do_minScore opt))
                              else PrintedText (WriteText run attempts (do_minScore opt)) in
                match write report with
                | Some e => (None, Some (Failed e), w')
                | None => (Some (run, attempts), gate_error run (do_minScore opt), w')
                end
            end
        end
    end.
End command.

(** ** The face of the dashboard *)
Record doctorReport : Type := {
  dr_Status : string; dr_Score : Score; dr_Summary : Summary; dr_Checks : list setupCheckJSON; dr_CheckedAt : string;
}.
Definition doctorStatus (code : Z) : string :=
  if decide (code = ExitOK) then "healthy" else if decide (code = ExitCritical) then "unhealthy" else "indeterminate".

Section dashboard.
Context `{UnicodeTables, UnstructuredLib, DoctorLib} {S : Type} (h : ∀ X : Set, DocE X → S → X * S).
Abbreviation W := (World DocE S).
Context (ctx_err : W → option string) (stack : W → string) (now : W → Z).

Definition face_options : DoctorOptions := {| MaxSnapshotAge := 0; SkipSecretReads := true |}.
Definition RegisterReadOnly (reg : Registry W) (opt : DoctorOptions) : result RegisterError (Registry W) :=
  register_list reg (checking h <$> ReadOnlyChecks opt).
Definition handleDoctor (w : W) : result Reply doctorReport * W :=
  match RegisterReadOnly New face_options with
  | Err _ => (Err (apiError 500 "internal_error"), w)
  | Ok reg =>
      match CheckRun.Run ctx_err stack reg w with
      | (Err _, w') => (Err (apiError 500 "internal_error"), w')
      | (Ok run, w') =>
          (Ok {| dr_Status := doctorStatus (ExitCode run); dr_Score := RunScore run; dr_Summary := RunSummary run;
                 dr_Checks := setup_item <$> run; dr_CheckedAt := format_time (now w') |}, w')
      end
  end.
End dashboard.

(** ** What an exit code says *)
Lemma gate_error_exit run minScore : process_exit (gate_error run minScore) = GateExitCode run minScore.
Proof. unfold gate_error, ExitOK. repeat case_decide; cbn [process_exit]; congruence. Qed.

Definition settled_well (run : list CheckResult) : Prop :=
  ∀ res, res ∈ run → critical res → ResOutcome res = OutcomePass ∨ ResOutcome res = OutcomeSkip ∨ ResOutcome res = OutcomeUnset.
Definition failed_critical (run : list CheckResult) : Prop := ∃ res, res ∈ run ∧ critical res ∧ ResOutcome res = OutcomeFail.
Definition score_met (run : list CheckResult) (minScore : Z) : Prop := (minScore ≤ 0 ∨ minScore ≤ Value (RunScore run))%Z.

Lemma gate_spec run minScore :
  (GateExitCode run minScore = 0%Z ↔ settled_well run ∧ score_met run minScore) ∧
  (GateExitCode run minScore = 1%Z ↔ failed_critical run ∨ ¬ score_met run minScore) ∧
  (GateExitCode run minScore = 0%Z ∨ GateExitCode run minScore = 1%Z ∨ GateExitCode run minScore = 2%Z).
Proof.
  destruct (ExitCode_spec run) as (H1 & H2 & H0). unfold OK in H0. rewrite bool_decide_eq_true in H0.
  unfold GateExitCode, settled_well, failed_critical, score_met, ExitCritical, ExitOK, ExitIndeterminate in *.
  case_decide as Hd.
  - split; [split; [done|lia]|]. split; [|tauto]. split; [intros _; right; lia|done].
  - assert (Hthree : ExitCode run = 0%Z ∨ ExitCode run = 1%Z ∨ ExitCode run = 2%Z).
    { unfold ExitCode, ExitOK. rewrite exit_loop_spec. unfold ExitCritical, ExitIndeterminate. repeat destruct (decide _); auto. }
    split; [rewrite H0; split; [intros ?; split; [done|lia]|tauto]|]. split; [|done].
    rewrite H1. split; [tauto|intros [?|Hn]; [done|exfalso; lia]].
Qed.

Section exit.
Context {W Client : Type} `{UnicodeTables} (ctx_err : W → option string) (stack : W → string).
Context (geteuid : Z) (env : string) (newDoctorClient : string → result string Client).
Context (registerDoctorChecks : Client → Registry W → result RegisterError (Registry W)) (local_check : Check W).
Context (register_text : RegisterError → string) (graph_text : GraphError → string) (write : Printed → option string).

(** The exit code is the contract of the report.  When a report went out, [orkano doctor]
    exits 0 exactly when every critical check passed or did not apply and the score reaches
    what [--min-score] asks, 1 exactly when a critical check failed or the score is too low,
    and 2 otherwise; the JSON carries the same code; and when none went out it exits 1. *)
Theorem doctor_exit opt w :
  match runDoctor ctx_err stack geteuid env newDoctorClient registerDoctorChecks local_check register_text graph_text write opt w with
  | (None, err, _) => process_exit err = 1%Z
  | (Some (run, attempts), err, _) =>
      (process_exit err = 0%Z ↔ settled_well run ∧ score_met run (do_minScore opt)) ∧
      (process_exit err = 1%Z ↔ failed_critical run ∨ ¬ score_met run (do_minScore opt)) ∧
      (process_exit err = 0%Z ∨ process_exit err = 1%Z ∨ process_exit err = 2%Z) ∧
      jr_ExitCode (WriteJSON run attempts (do_minScore opt)) = process_exit err
  end.
Proof.
  unfold runDoctor. case_decide; [done|]. case_decide; [done|]. destruct (newDoctorClient _) as [c|e]; [|done].
  destruct (register_all _ _ _ _ _) as [reg|e]; [|done]. destruct (run_checks _ _ _ _ _ _) as [[[run attempts]|e] w']; [|done].
  destruct (write _); [done|]. rewrite gate_error_exit. destruct (gate_spec run (do_minScore opt)) as (? & ? & ?). done.
Qed.
End exit.

(** ** What the face of the dashboard does *)
Section face.
Context `{UnicodeTables, UnstructuredLib, DoctorLib} {S : Type} (h : ∀ X : Set, DocE X → S → X * S).

Lemma face_order : ∃ reg, RegisterReadOnly h New face_options = Ok reg ∧ Plan reg = Ok (checking h <$> ReadOnlyChecks face_options).
Proof.
  unfold RegisterReadOnly, ReadOnlyChecks, componentsReadyCheck, dashboardNotPublicCheck, certificateExpiryCheck, etcdSnapshotAgeCheck,
    secretsStoreHealthCheck, unsafeFeaturesDisabledCheck.
  cbn [fmap list_fmap]. unfold checking. cbn [pc_ID pc_Severity pc_Summary pc_Remediation pc_Requires pc_Probe].
  repeat match goal with |- context [probing h ?p] => generalize (probing h p); intros end. set (cs := [_; _; _; _; _; _]).
  exists (match register_list New cs with Ok reg => reg | Err _ => New end). split.
  - assert (is_ok (register_list New cs) = true) by (vm_compute; reflexivity). by destruct (register_list New cs).
  - vm_compute. reflexivity.
Qed.

Lemma probed_all_calls (ok : ∀ X : Set, DocE X → bool) cs run tr :
  Forall (λ c, calls_only ok (pc_Probe c)) cs → probed_all cs run tr → Forall (λ c, call_ok ok c = true) tr.
Proof.
  intros Hok. revert run tr. induction Hok as [|c cs Hc _ IH]; intros [|res run] tr; try done; [by intros ->|].
  intros (t1 & t2 & -> & (_ & _ & r & Hex & _) & Hp). apply Forall_app. split; [by eapply calls_only_exec|by apply (IH run)].
Qed.
Lemma probed_all_ids (cs : list (ProbeCheck DocE)) run tr : probed_all cs run tr → ResID <$> run = pc_ID <$> cs.
Proof.
  revert run tr. induction cs as [|c cs IH]; intros [|res run] tr; try done.
  intros (t1 & t2 & _ & (Hid & _) & Hp). rewrite !fmap_cons, Hid. f_equal. by eapply IH.
Qed.
Lemma status_word code : doctorStatus code = "healthy" ↔ code = 0%Z.
Proof. unfold doctorStatus, ExitOK, ExitCritical. repeat case_decide; by split. Qed.

Lemma probed_all_reported (cs : list (ProbeCheck DocE)) run tr res :
  probed_all cs run tr → res ∈ run → ∃ c t, c ∈ cs ∧ reported c res t.
Proof.
  revert run tr. induction cs as [|c cs IH]; intros [|r run] tr; try done; [by intros _ ?%not_elem_of_nil|].
  intros (t1 & t2 & _ & Hr & Hp) [->|Hin]%elem_of_cons; [exists c, t1; split; [left|done]|].
  destruct (IH _ _ Hp Hin) as (c' & t & Hc & Hr'). exists c', t. split; [by right|done].
Qed.
Lemma read_only_severity c : c ∈ ReadOnlyChecks face_options → pc_Severity c = SeverityCritical ∨ pc_Severity c = SeverityWarning.
Proof.
  unfold ReadOnlyChecks. rewrite !elem_of_cons, elem_of_nil. intros [->|[->|[->|[->|[->|[->|[]]]]]]]; by (left + right).
Qed.

(** The dashboard's doctor is value-blind.  Whatever the cluster answers, it always answers
    with a report of the six read-only checks, in their order; it makes no call but reads,
    none of them of a Secret; and it says "healthy" exactly when every critical check it
    reports passed or did not apply. *)
Theorem face_blind now w :
  ∃ rep tr w', handleDoctor h (λ _, None) (λ _, "") now w = (Ok rep, w') ∧ w_calls w' = w_calls w ++ tr ∧
    Forall (λ c, call_ok blind c = true) tr ∧
    sc_ID <$> dr_Checks rep = [IDComponentsReady; IDDashboardNotPublic; IDCertificateExpiry; IDEtcdSnapshotAge; IDSecretsStoreHealth; IDUnsafeFeaturesDisabled] ∧
    (dr_Status rep = "healthy" ↔
      ∀ c, c ∈ dr_Checks rep → sc_Severity c = "critical" → sc_Outcome c ∈ ["pass"; "skip"]).
Proof.
  destruct face_order as (reg & Hreg & Hplan). unfold handleDoctor, CheckRun.Run. rewrite Hreg, Hplan.
  edestruct (run_loop_cleared h [] (ReadOnlyChecks face_options) ∅ [] w) as (run & tr & w' & Hrun & Hw & Hp).
  { apply Forall_forall. intros c Hc. split; [|apply not_elem_of_nil]. revert Hc. unfold ReadOnlyChecks.
    rewrite !elem_of_cons, elem_of_nil. by intros [->|[->|[->|[->|[->|[->|[]]]]]]]. }
  { by intros q ?%not_elem_of_nil. }
  rewrite Hrun. cbn [app]. eexists _, tr, w'. split; [reflexivity|]. split; [done|].
  cbn [dr_Checks dr_Status]. split; [|split].
  - eapply probed_all_calls; [|exact Hp]. apply Forall_forall. intros c Hc. by apply (read_only_blind face_options).
  - rewrite <- list_fmap_compose. exact (probed_all_ids _ _ _ Hp).
  - rewrite status_word. destruct (gate_spec run 0) as (Hg & _ & _). unfold GateExitCode in Hg. rewrite decide_False in Hg by lia. rewrite Hg. clear Hg.
    unfold settled_well, score_met. split.
    + intros [Hall _] c (res & -> & Hin)%list_elem_of_fmap Hsev. cbn [sc_Severity sc_Outcome setup_item] in *.
      destruct (probed_all_reported _ _ _ _ Hp Hin) as (c & t & Hc & _ & Hs & r & _ & Ho). pose proof (judged_set r).
      destruct (Hall res Hin) as [E|[E|E]]; [|rewrite E; cbn; set_solver..|congruence].
      unfold critical. rewrite Hs in *. destruct (read_only_severity c Hc) as [E|E]; [done|]. by rewrite E in Hsev.
    + intros Hall. split; [|lia]. intros res Hin Hcrit.
      specialize (Hall (setup_item res) (list_elem_of_fmap_2 _ _ _ Hin)). cbn [sc_Severity sc_Outcome setup_item] in Hall. rewrite Hcrit in Hall.
      specialize (Hall eq_refl). destruct (ResOutcome res); cbn [outcome_text] in Hall; auto; exfalso;
        rewrite !elem_of_cons, elem_of_nil in Hall; by destruct Hall as [?|[?|[]]].
Qed.
End face.
