(* ===== verification/ClusterPreflight.v ===== *)
(** * The preflight of an existing cluster

    [internal/preflight/cluster]: the read-only checks ([version.go], [storage.go],
    [ingress.go], [rbac.go]) and the probes that try things in a scratch namespace
    ([netpol.go], [psa.go], [apparmor.go], [seccomp.go], over [live.go]).  A probe is a
    program over [ClusterE], with arbitrary replies.  A context with a budget is over once
    the sleeps under it have used the budget up ([patience]). *)
From S2P Require Import Prelude Regex GoStrings Effects Kube RateLimit GitHubApp ApiServer Canary.
From S2P Require NodePrep DoctorNetpol.
From S2P Require Import CheckRegistry CheckRun Probes.
From Stdlib Require Import Ascii.

(** ** Constants *)
Definition systemNamespace : string := "orkano-system".
Definition appsNamespace : string := "orkano-apps".
Definition buildNamespace : string := "orkano-builds".
Definition certManagerNamespace : string := "cert-manager".
Definition IDVersionSupported : string := "cluster.version-supported".
Definition IDStorageClassDefault : string := "cluster.storageclass-default".
Definition IDIngressClassPresent : string := "cluster.ingressclass-present".
Definition IDRBACSufficient : string := "cluster.rbac-sufficient".
Definition IDNetworkPolicyEnforced : string := "net.networkpolicy-enforced".
Definition IDPodSecurityAdmissionEnforced : string := "cluster.pod-security-admission-enforced".
Definition IDAppArmorCapable : string := "build.apparmor-capable".
Definition IDSeccompDefaultDisabled : string := "build.seccomp-default-disabled".
Definition supportedMajor : Z := 1.
Definition minSupportedMinor : Z := 34.
Definition maxSupportedMinor : Z := 36.
Definition defaultStorageClassAnnotation : string := "storageclass.kubernetes.io/is-default-class".
Definition betaDefaultStorageClassAnnotation : string := "storageclass.beta.kubernetes.io/is-default-class".
Definition defaultIngressClassAnnotation : string := "ingressclass.kubernetes.io/is-default-class".
Definition probeManagedByLabel : string := "app.kubernetes.io/managed-by".
Definition probeManagedByValue : string := "orkano-preflight".
Definition probeRoleLabel : string := "orkano.io/preflight-role".
Definition nodeOSLabel : string := "kubernetes.io/os".
Definition canaryExitExpectedBlocked : Z := 42.
Definition canaryExitInvalid : Z := 43.
Definition liveProbeWaitBudget : Z := 3 * Minute.
Definition liveProbePollInterval : Z := 2 * Second.
Definition scratchCleanupTimeout : Z := Minute.
Definition netpolRoleServer : string := "netpol-server".
Definition netpolRoleControl : string := "netpol-control".
Definition netpolRoleDeny : string := "netpol-deny".

(** ** The calls *)
Inductive Fault : Set := NotFound (text : string) | Forbidden (text : string) | Fails (text : string).
Definition fault_text (e : Fault) : string := match e with NotFound t | Forbidden t | Fails t => t end.

Record VersionInfo : Set := { vi_Major : string; vi_Minor : string; vi_GitVersion : string }.
Record ClassView : Set := { cv_Name : string; cv_Annotations : gmap string string }.
Record NodeView : Set := {
  nv_Name : string; nv_Labels : gmap string string; nv_Conditions : list (string * string);
  nv_Unschedulable : bool; nv_Taints : list string;
}.
Record EventView : Set := { ev_Object : string; ev_Reason : string; ev_Message : string }.
Record accessTuple : Set := { group : string; resource : string; namespace : string }.
(** the two contexts a wait can run under: that of a probe, that of the cleanup *)
Inductive Budget : Set := ProbeBudget | CleanupBudget.

Inductive ClusterE : Set → Type :=
| ServerVersion : ClusterE (result string VersionInfo)
| ListStorageClasses : ClusterE (result string (list ClassView))
| ListIngressClasses : ClusterE (result string (list ClassView))
(** a [SelfSubjectAccessReview] for creating the resource *)
| ReviewAccess (t : accessTuple) : ClusterE (result string bool)
| ListNodes : ClusterE (result string (list NodeView))
(** the name the server generated *)
| CreateNamespace (generateName : string) (labels : gmap string string) : ClusterE (result string string)
| DeleteNamespace (name : string) : ClusterE (result Fault unit)
| GetNamespace (name : string) : ClusterE (result Fault unit)
| CreatePod (p : CanaryPod) : ClusterE (result Fault string)
| GetPod (namespace name : string) : ClusterE (result Fault PodStatus)
| CreatePolicy (p : NetworkPolicy) : ClusterE (result string unit)
| ListEvents (namespace : string) : ClusterE (result string (list EventView))
(** one poll interval, or the error of the context *)
| Sleep (b : Budget) : ClusterE (option string)
(** [ctx.Err()] of the run *)
| RunErr : ClusterE (option string).

Abbreviation probe_of := (prog ClusterE (result string Result)).
Notation "'try!' x := p 'in' k" := (prog_bind p (λ r, match r with Err e => Ret (Err e) | Ok x => k end))
  (at level 10, x binder, p at level 200, k at level 200) : prog_scope.

(** ** The read-only checks *)
Section readonly.
Context `{UnicodeTables}.

Fixpoint leading_digits (l : list ascii) : list ascii :=
  match l with c :: l => if is_digit c then c :: leading_digits l else [] | [] => [] end.
(** [leadingInt]: the leading decimal digits, in 64 bits *)
Definition leadingInt (s : string) : result string Z :=
  match leading_digits (bytes s) with
  | [] => Err ("no leading integer in " +:+ Quote s)
  | l =>
      match ParseInt10 64 (of_bytes l) with
      | Some n => Ok n
      | None => Err ("strconv.Atoi: parsing " +:+ Quote (of_bytes l) +:+ ": value out of range")
      end
  end.
Definition version_window : string :=
  "v" +:+ pretty supportedMajor +:+ "." +:+ pretty minSupportedMinor +:+ "–v" +:+ pretty supportedMajor +:+ "." +:+ pretty maxSupportedMinor.
Definition judge_version (info : VersionInfo) : result string Result :=
  match leadingInt (vi_Major info) with
  | Err e => Err ("parse server major version " +:+ Quote (vi_Major info) +:+ ": " +:+ e)
  | Ok major =>
      match leadingInt (vi_Minor info) with
      | Err e => Err ("parse server minor version " +:+ Quote (vi_Minor info) +:+ ": " +:+ e)
      | Ok minor =>
          let this := "cluster " +:+ vi_GitVersion info +:+ " (v" +:+ pretty major +:+ "." +:+ pretty minor +:+ ")" in
          if decide (major < supportedMajor ∨ (major = supportedMajor ∧ minor < minSupportedMinor))%Z then
            failing (this +:+ " is older than the supported window " +:+ version_window +:+ ": upgrade the cluster")
          else if decide (major > supportedMajor ∨ minor > maxSupportedMinor)%Z then
            failing (this +:+ " is newer than this Orkano release's tested window " +:+ version_window +:+ ": upgrade Orkano")
          else passing (this +:+ " is inside the supported window " +:+ version_window)
      end
  end.
(** [configured]: whether [opt.ServerVersion] is set *)
Definition version_probe (configured : bool) : probe_of :=
  if negb configured then Ret (Err "no server-version reader configured")
  else
    let! r := trigger ServerVersion in
    Ret (match r with Err e => Err ("read server version: " +:+ e) | Ok info => judge_version info end).

Definition annotated (c : ClassView) (key : string) : bool := bool_decide (cv_Annotations c !! key = Some "true").
Definition isDefaultStorageClass (sc : ClassView) : bool :=
  annotated sc defaultStorageClassAnnotation || annotated sc betaDefaultStorageClassAnnotation.
Definition judge_storage (scs : list ClassView) : result string Result :=
  if decide (scs = []) then
    failing "no StorageClass exists: the in-cluster registry, the platform Postgres and every catalog database claim PersistentVolumes and would stay Pending forever"
  else
    let defaults := cv_Name <$> filter (λ sc, isDefaultStorageClass sc = true) scs in
    if decide (defaults = []) then
      failing (pretty (length scs) +:+ " StorageClass(es) exist but none is marked default: the install's PersistentVolumeClaims name no class and would stay Pending")
    else passing ("default StorageClass " +:+ Join defaults ", " +:+ " (" +:+ pretty (length scs) +:+ " present)").
Definition storage_probe : probe_of :=
  let! r := trigger ListStorageClasses in
  Ret (match r with Err e => Err ("list StorageClasses: " +:+ e) | Ok scs => judge_storage scs end).

Definition judge_ingress (classes : list ClassView) : result string Result :=
  if decide (classes = []) then
    failing "no IngressClass exists: no tested ingress controller is detectable, so Domain routing, TLS and receiver exposure for GitHub webhooks cannot be relied on (Apps still deploy and build)"
  else
    let defaults := cv_Name <$> filter (λ c, annotated c defaultIngressClassAnnotation = true) classes in
    if decide (defaults = []) then
      passing ("IngressClasses exist (" +:+ Join (cv_Name <$> classes) ", " +:+ ") but none is default: Domain Ingresses name no class, so mark one default or set ingress.className at install")
    else passing ("default IngressClass " +:+ Join defaults ", " +:+ " (" +:+ pretty (length classes) +:+ " present)").
Definition ingress_probe : probe_of :=
  let! r := trigger ListIngressClasses in
  Ret (match r with Err e => Err ("list IngressClasses: " +:+ e) | Ok classes => judge_ingress classes end).

(** *** What the install must be allowed to create *)
Definition tuple_text (t : accessTuple) : string :=
  let name := if decide (group t ≠ "") then resource t +:+ "." +:+ group t else resource t in
  if decide (namespace t = "") then name +:+ " (cluster-scoped)" else name +:+ " in " +:+ namespace t.
Definition scoped (g r ns : string) : accessTuple := {| group := g; resource := r; namespace := ns |}.
Definition clusterScoped : list accessTuple :=
  [scoped "apiextensions.k8s.io" "customresourcedefinitions" ""; scoped "" "namespaces" "";
   scoped "rbac.authorization.k8s.io" "clusterroles" ""; scoped "rbac.authorization.k8s.io" "clusterrolebindings" "";
   scoped "admissionregistration.k8s.io" "validatingwebhookconfigurations" "";
   scoped "admissionregistration.k8s.io" "mutatingwebhookconfigurations" ""; scoped "cert-manager.io" "clusterissuers" ""].
Definition namespaced : list accessTuple :=
  [scoped "" "serviceaccounts" ""; scoped "rbac.authorization.k8s.io" "roles" ""; scoped "rbac.authorization.k8s.io" "rolebindings" "";
   scoped "apps" "deployments" ""; scoped "apps" "statefulsets" ""; scoped "apps" "daemonsets" ""; scoped "" "services" "";
   scoped "" "configmaps" ""; scoped "" "secrets" ""; scoped "batch" "jobs" ""; scoped "" "persistentvolumeclaims" "";
   scoped "networking.k8s.io" "networkpolicies" ""; scoped "networking.k8s.io" "ingresses" ""; scoped "cert-manager.io" "issuers" "";
   scoped "cert-manager.io" "certificates" ""].
Definition installAccessSet : list accessTuple :=
  clusterScoped ++
  concat ((λ ns, (λ t, scoped (group t) (resource t) ns) <$> namespaced) <$> [systemNamespace; appsNamespace; buildNamespace; certManagerNamespace]).
Definition maxListed : nat := 8.
Fixpoint review_all (tuples : list accessTuple) (denied : list string) : prog ClusterE (result string (list string)) :=
  match tuples with
  | [] => Ret (Ok denied)
  | t :: tuples =>
      let! r := trigger (ReviewAccess t) in
      match r with
      | Err e => Ret (Err ("SelfSubjectAccessReview for create " +:+ tuple_text t +:+ ": " +:+ e))
      | Ok allowed => review_all tuples (if (allowed : bool) then denied else denied ++ [tuple_text t])
      end
  end.
Definition rbac_probe : probe_of :=
  try! denied := review_all installAccessSet [] in
  Ret (if decide (0 < length denied) then
         let more := if decide (maxListed < length denied) then " (+" +:+ pretty (length denied - maxListed) +:+ " more)" else "" in
         failing ("the kubeconfig identity is denied create on " +:+ pretty (length denied) +:+ " of " +:+ pretty (length installAccessSet) +:+
                  " install resources: " +:+ Join (take maxListed denied) ", " +:+ more)
       else passing ("the kubeconfig identity may create all " +:+ pretty (length installAccessSet) +:+ " resource kinds the install writes")).
End readonly.

(** ** The scratch namespace ([live.go]) *)
Section scratch.
Definition scratch_labels (psaLevel : string) : gmap string string :=
  <["app.kubernetes.io/name" := "orkano-preflight"]> (<[probeManagedByLabel := probeManagedByValue]>
    {["pod-security.kubernetes.io/enforce" := psaLevel]}).

(** [looks] is how often the wait can still sleep before its context is done. *)
Fixpoint wait_deleted (looks : nat) (name : string) : prog ClusterE (option string) :=
  let! r := trigger (GetNamespace name) in
  match r with
  | Err (NotFound _) => Ret None
  | Err e => Ret (Some ("wait for deletion: " +:+ fault_text e))
  | Ok _ =>
      match looks with
      | O => Ret (Some ("wait for deletion: " +:+ DeadlineExceeded))
      | S looks =>
          let! e := trigger (Sleep CleanupBudget) in
          match e with Some e => Ret (Some ("wait for deletion: " +:+ e)) | None => wait_deleted looks name end
      end
  end.
Definition deleteScratchNamespace (name : string) : prog ClusterE (option string) :=
  let! r := trigger (DeleteNamespace name) in
  match r with
  | Ok _ | Err (NotFound _) => wait_deleted (patience scratchCleanupTimeout liveProbePollInterval) name
  | Err e => Ret (Some (fault_text e))
  end.
Definition cleaned (name : string) (out : result string Result) (cleanupErr : option string) : result string Result :=
  match cleanupErr, out with
  | None, _ => out
  | Some c, Err e => Err (e +:+ "; delete scratch namespace " +:+ name +:+ ": " +:+ c)
  | Some c, Ok _ => Err ("delete scratch namespace " +:+ name +:+ ": " +:+ c)
  end.
Definition withScratchNamespace (generateName psaLevel : string) (probe : string → probe_of) : probe_of :=
  let! r := trigger (CreateNamespace generateName (scratch_labels psaLevel)) in
  match r with
  | Err e => Ret (Err ("create scratch namespace: " +:+ e))
  | Ok name =>
      if decide (name = "") then Ret (Err "create scratch namespace: API server returned no name")
      else
        let! out := probe name in
        let! c := deleteScratchNamespace name in
        Ret (cleaned name out c)
  end.

(** ** Canaries *)
Definition restrictedCanaryPod (namespace generateName role : string) (command : list string) (deadline : Z) : CanaryPod :=
  {| cn_Namespace := namespace; cn_Name := ""; cn_GenerateName := generateName;
     cn_Labels := <[probeManagedByLabel := probeManagedByValue]> {[probeRoleLabel := role]};
     cn_ActiveDeadlineSeconds := deadline; cn_TerminationGracePeriodSeconds := Some 0%Z; cn_SchedulingGates := []; cn_NodeName := None;
     cn_Spec := canary_spec CanaryImage command [] |}.
(** the assignments the probes make to a canary: to its spec, its one container's security context, its environment *)
Definition with_spec (p : CanaryPod) (f : PodSpec → PodSpec) : CanaryPod :=
  {| cn_Namespace := cn_Namespace p; cn_Name := cn_Name p; cn_GenerateName := cn_GenerateName p; cn_Labels := cn_Labels p;
     cn_ActiveDeadlineSeconds := cn_ActiveDeadlineSeconds p; cn_TerminationGracePeriodSeconds := cn_TerminationGracePeriodSeconds p;
     cn_SchedulingGates := cn_SchedulingGates p; cn_NodeName := cn_NodeName p; cn_Spec := f (cn_Spec p) |}.
Definition with_gates (p : CanaryPod) (gates : list string) : CanaryPod :=
  {| cn_Namespace := cn_Namespace p; cn_Name := cn_Name p; cn_GenerateName := cn_GenerateName p; cn_Labels := cn_Labels p;
     cn_ActiveDeadlineSeconds := cn_ActiveDeadlineSeconds p; cn_TerminationGracePeriodSeconds := cn_TerminationGracePeriodSeconds p;
     cn_SchedulingGates := gates; cn_NodeName := cn_NodeName p; cn_Spec := cn_Spec p |}.
Definition pinCanaryToNode (p : CanaryPod) (node : string) : CanaryPod :=
  {| cn_Namespace := cn_Namespace p; cn_Name := cn_Name p; cn_GenerateName := cn_GenerateName p; cn_Labels := cn_Labels p;
     cn_ActiveDeadlineSeconds := cn_ActiveDeadlineSeconds p; cn_TerminationGracePeriodSeconds := cn_TerminationGracePeriodSeconds p;
     cn_SchedulingGates := cn_SchedulingGates p; cn_NodeName := Some node; cn_Spec := cn_Spec p |}.
Definition with_containers (f : Container → Container) (spec : PodSpec) : PodSpec :=
  {| pod_RestartPolicy := pod_RestartPolicy spec; pod_ServiceAccountName := pod_ServiceAccountName spec;
     pod_AutomountServiceAccountToken := pod_AutomountServiceAccountToken spec; pod_InitContainers := pod_InitContainers spec;
     pod_Containers := f <$> pod_Containers spec; pod_Volumes := pod_Volumes spec; pod_HostNetwork := pod_HostNetwork spec;
     pod_SecurityContext := pod_SecurityContext spec |}.
Definition with_security (f : SecurityContext → SecurityContext) (c : Container) : Container :=
  {| c_Name := c_Name c; c_Image := c_Image c; c_Command := c_Command c; c_Args := c_Args c; c_Env := c_Env c; c_Resources := c_Resources c;
     c_SecurityContext := f <$> c_SecurityContext c; c_VolumeMounts := c_VolumeMounts c; c_Ports := c_Ports c;
     c_ReadinessProbe := c_ReadinessProbe c; c_LivenessProbe := c_LivenessProbe c; c_StartupProbe := c_StartupProbe c;
     c_ImagePullPolicy := c_ImagePullPolicy c; c_TerminationMessagePath := c_TerminationMessagePath c |}.
Definition with_env (env : list CoreEnvVar) (c : Container) : Container :=
  {| c_Name := c_Name c; c_Image := c_Image c; c_Command := c_Command c; c_Args := c_Args c; c_Env := env; c_Resources := c_Resources c;
     c_SecurityContext := c_SecurityContext c; c_VolumeMounts := c_VolumeMounts c; c_Ports := c_Ports c;
     c_ReadinessProbe := c_ReadinessProbe c; c_LivenessProbe := c_LivenessProbe c; c_StartupProbe := c_StartupProbe c;
     c_ImagePullPolicy := c_ImagePullPolicy c; c_TerminationMessagePath := c_TerminationMessagePath c |}.
Definition set_privileged (sc : SecurityContext) : SecurityContext :=
  {| sc_RunAsUser := sc_RunAsUser sc; sc_RunAsGroup := sc_RunAsGroup sc; sc_RunAsNonRoot := sc_RunAsNonRoot sc;
     sc_AllowPrivilegeEscalation := sc_AllowPrivilegeEscalation sc; sc_ReadOnlyRootFilesystem := sc_ReadOnlyRootFilesystem sc;
     sc_Privileged := Some true; sc_CapDrop := sc_CapDrop sc; sc_CapAdd := sc_CapAdd sc; sc_SeccompProfile := sc_SeccompProfile sc;
     sc_AppArmorProfile := sc_AppArmorProfile sc |}.
Definition set_apparmor (profile : string) (sc : SecurityContext) : SecurityContext :=
  {| sc_RunAsUser := sc_RunAsUser sc; sc_RunAsGroup := sc_RunAsGroup sc; sc_RunAsNonRoot := sc_RunAsNonRoot sc;
     sc_AllowPrivilegeEscalation := sc_AllowPrivilegeEscalation sc; sc_ReadOnlyRootFilesystem := sc_ReadOnlyRootFilesystem sc;
     sc_Privileged := sc_Privileged sc; sc_CapDrop := sc_CapDrop sc; sc_CapAdd := sc_CapAdd sc; sc_SeccompProfile := sc_SeccompProfile sc;
     sc_AppArmorProfile := Some ("Localhost", profile) |}.
Definition clear_container_seccomp (sc : SecurityContext) : SecurityContext :=
  {| sc_RunAsUser := sc_RunAsUser sc; sc_RunAsGroup := sc_RunAsGroup sc; sc_RunAsNonRoot := sc_RunAsNonRoot sc;
     sc_AllowPrivilegeEscalation := sc_AllowPrivilegeEscalation sc; sc_ReadOnlyRootFilesystem := sc_ReadOnlyRootFilesystem sc;
     sc_Privileged := sc_Privileged sc; sc_CapDrop := sc_CapDrop sc; sc_CapAdd := sc_CapAdd sc; sc_SeccompProfile := None;
     sc_AppArmorProfile := sc_AppArmorProfile sc |}.
Definition clear_seccomp (spec : PodSpec) : PodSpec :=
  {| pod_RestartPolicy := pod_RestartPolicy spec; pod_ServiceAccountName := pod_ServiceAccountName spec;
     pod_AutomountServiceAccountToken := pod_AutomountServiceAccountToken spec; pod_InitContainers := pod_InitContainers spec;
     pod_Containers := with_security clear_container_seccomp <$> pod_Containers spec; pod_Volumes := pod_Volumes spec;
     pod_HostNetwork := pod_HostNetwork spec;
     pod_SecurityContext := (λ sc, {| psc_RunAsNonRoot := psc_RunAsNonRoot sc; psc_RunAsUser := psc_RunAsUser sc;
       psc_RunAsGroup := psc_RunAsGroup sc; psc_FSGroup := psc_FSGroup sc; psc_SeccompProfile := None |}) <$> pod_SecurityContext spec |}.

(** *** Reading a canary *)
Definition terminalExitCode (p : PodStatus) : option Z :=
  head (omap (λ cs, match cst_Terminated cs, cst_LastTerminated cs with
                    | Some t, _ => Some (ts_ExitCode t)
                    | None, Some t => Some (ts_ExitCode t)
                    | None, None => None
                    end) (ps_ContainerStatuses p)).
Definition when_text (pre s : string) : string := if decide (s ≠ "") then pre +:+ s else "".
Definition status_detail (cs : ContainerStatus) : string :=
  match cst_Waiting cs, cst_Terminated cs with
  | Some (reason, message), _ => ", container " +:+ cst_Name cs +:+ " waiting " +:+ reason +:+ when_text ": " message
  | None, Some t =>
      ", container " +:+ cst_Name cs +:+ " exited " +:+ pretty (ts_ExitCode t) +:+
      (if decide (ts_Reason t ≠ "") then " (" +:+ ts_Reason t +:+ ")" else "") +:+ when_text ": " (ts_Message t)
  | None, None => ""
  end.
Definition podDetail (p : PodStatus) : string :=
  "phase " +:+ ps_Phase p +:+ when_text "/" (ps_Reason p) +:+ when_text ": " (ps_Message p) +:+ Join (status_detail <$> ps_ContainerStatuses p) "".

Fixpoint wait_pod (looks : nat) (namespace name goal : string) (complete : PodStatus → bool) : prog ClusterE (result string PodStatus) :=
  let! r := trigger (GetPod namespace name) in
  let again last :=
    let late e := Err ("canary pod " +:+ namespace +:+ "/" +:+ name +:+ " did not reach " +:+ goal +:+ " (last state: " +:+ last +:+ "): " +:+ e) in
    match looks with
    | O => Ret (late DeadlineExceeded)
    | S looks =>
        let! e := trigger (Sleep ProbeBudget) in
        match e with Some e => Ret (late e) | None => wait_pod looks namespace name goal complete end
    end in
  match r with
  | Err e => again ("read failed: " +:+ fault_text e)
  | Ok pod => if complete pod then Ret (Ok pod) else again (podDetail pod)
  end.
Definition probe_patience : nat := patience liveProbeWaitBudget liveProbePollInterval.
Definition waitForPod : string → string → string → (PodStatus → bool) → prog ClusterE (result string PodStatus) := wait_pod probe_patience.
Definition waitForPodTerminal (namespace name : string) : prog ClusterE (result string PodStatus) :=
  waitForPod namespace name "a terminal phase" terminal.

(** ** The nodes builds can run on *)
Definition nodeReady (node : NodeView) : bool :=
  match list_find (λ c, c.1 = "Ready") (nv_Conditions node) with Some (_, c) => bool_decide (c.2 = "True") | None => false end.
Definition hasHardSchedulingTaint (node : NodeView) : bool :=
  existsb (λ t, bool_decide (t = "NoSchedule" ∨ t = "NoExecute")) (nv_Taints node).
Definition reachable_node (node : NodeView) : bool :=
  nodeReady node && negb (nv_Unschedulable node) && negb (hasHardSchedulingTaint node).
(** the names of the nodes, in the order of the list *)
Fixpoint eligible (nodes : list NodeView) : result string (list string) :=
  match nodes with
  | [] => Ok []
  | node :: nodes =>
      if negb (reachable_node node) then eligible nodes
      else
        let os := default "" (nv_Labels node !! nodeOSLabel) in
        if decide (os = "") then Err ("node " +:+ nv_Name node +:+ " is Ready and schedulable but has no " +:+ nodeOSLabel +:+ " label")
        else if decide (os ≠ "linux") then eligible nodes
        else map_ok (cons (nv_Name node)) (eligible nodes)
  end.
Definition eligibleBuildNodes : prog ClusterE (result string (list string)) :=
  let! r := trigger ListNodes in
  Ret (match r with
       | Err e => Err ("list nodes for build canaries (preflight identity needs node list): " +:+ e)
       | Ok nodes => map_ok (merge_sort String.le) (eligible nodes)
       end).
Definition nodeNames (nodes : list string) : string := Join nodes ", ".

(** a canary is its node and the name the server gave its pod *)
Fixpoint createNodeCanaries (namespace : string) (nodes : list string) (build : CanaryPod) (canaries : list (string * string))
    : prog ClusterE (result string (list (string * string))) :=
  match nodes with
  | [] => Ret (Ok canaries)
  | node :: nodes =>
      let! r := trigger (CreatePod (pinCanaryToNode build node)) in
      match r with
      | Err e => Ret (Err ("create canary for node " +:+ node +:+ ": " +:+ fault_text e))
      | Ok name => createNodeCanaries namespace nodes build (canaries ++ [(node, name)])
      end
  end.
End scratch.

(** ** NetworkPolicy ([netpol.go]) *)
Section netpol.
Definition networkPolicies (namespace : string) : list NetworkPolicy :=
  [{| np_Meta := new_meta namespace "default-deny-egress" ∅ ∅; np_PodSelector := ∅; np_PolicyTypes := ["Egress"]; np_Ingress := []; np_Egress := [] |};
   {| np_Meta := new_meta namespace "allow-control-egress" ∅ ∅; np_PodSelector := {[probeRoleLabel := netpolRoleControl]};
      np_PolicyTypes := ["Egress"]; np_Ingress := [];
      np_Egress := [{| npr_Peers := [{| peer_NamespaceSelector := None; peer_PodSelector := Some {[probeRoleLabel := netpolRoleServer]} |}];
                       npr_Ports := [{| npp_Protocol := "TCP"; npp_Port := 8080 |}] |}] |}].
Fixpoint create_policies (policies : list NetworkPolicy) : prog ClusterE (option string) :=
  match policies with
  | [] => Ret None
  | p :: policies =>
      let! r := trigger (CreatePolicy p) in
      match r with
      | Err e => Ret (Some ("create NetworkPolicy " +:+ meta_Name (np_Meta p) +:+ ": " +:+ e))
      | Ok _ => create_policies policies
      end
  end.

Definition client_command : list string :=
  ["sh"; "-c"; "nc -z -w 5 " +:+ dq +:+ "$ORKANO_PROBE_TARGET" +:+ dq +:+ " 8080; case $? in 0) exit 0;; 1) exit 42;; *) exit 43;; esac"].
Definition client_pod (namespace generateName role serverIP : string) : CanaryPod :=
  with_spec (restrictedCanaryPod namespace generateName role client_command 30)
    (with_containers (with_env [{| cenv_Name := "ORKANO_PROBE_TARGET"; cenv_Value := serverIP; cenv_ValueFrom := None |}])).
Definition createNetworkClientCanaries (namespace generateName role serverIP : string) (nodes : list string) :=
  createNodeCanaries namespace nodes (client_pod namespace generateName role serverIP) [].

Inductive networkOutcome : Set := networkOutcomeConnected | networkOutcomeBlocked.
#[export] Instance networkOutcome_eq_dec : EqDecision networkOutcome.
Proof. solve_decision. Defined.
Definition networkCanaryOutcome (pod : PodStatus) : result string networkOutcome :=
  match terminalExitCode pod with
  | None => Err ("no container exit code (" +:+ podDetail pod +:+ ")")
  | Some code =>
      if decide (ps_Phase pod = PodSucceeded ∧ code = 0%Z) then Ok networkOutcomeConnected
      else if decide (code = canaryExitExpectedBlocked) then Ok networkOutcomeBlocked
      else if decide (code = canaryExitInvalid) then Err ("canary could not execute the connection test (" +:+ podDetail pod +:+ ")")
      else Err ("unexpected canary exit (" +:+ podDetail pod +:+ ")")
  end.
(** wait for a canary and read its outcome *)
Definition canary_outcome (namespace what1 what2 node name : string) : prog ClusterE (result string networkOutcome) :=
  let! r := waitForPodTerminal namespace name in
  Ret (match r with
       | Err e => Err (what1 +:+ " NetworkPolicy canary on " +:+ node +:+ ": " +:+ e)
       | Ok pod => match networkCanaryOutcome pod with
                   | Err e => Err (what2 +:+ " NetworkPolicy canary on " +:+ node +:+ ": " +:+ e)
                   | Ok o => Ok o
                   end
       end).
Fixpoint networkCanariesConnected (namespace role : string) (canaries : list (string * string)) (all : bool) : prog ClusterE (result string bool) :=
  match canaries with
  | [] => Ret (Ok all)
  | (node, name) :: canaries =>
      try! o := canary_outcome namespace ("wait for " +:+ role) role node name in
      networkCanariesConnected namespace role canaries (if decide (o ≠ networkOutcomeConnected) then false else all)
  end.
(** the nodes whose canary connected, and whether none did *)
Fixpoint networkCanariesBlocked (namespace : string) (canaries : list (string * string)) (connected : list string) (all : bool)
    : prog ClusterE (result string (list string * bool)) :=
  match canaries with
  | [] => Ret (Ok (connected, all))
  | (node, name) :: canaries =>
      try! o := canary_outcome namespace "wait for denied" "denied" node name in
      if decide (o = networkOutcomeConnected) then networkCanariesBlocked namespace canaries (connected ++ [node]) false
      else networkCanariesBlocked namespace canaries connected all
  end.
Definition requireNetworkCanariesConnected (namespace role serverIP : string) (canaries : list (string * string)) : prog ClusterE (result string unit) :=
  try! all := networkCanariesConnected namespace role canaries true in
  Ret (if all then Ok tt
       else Err (role +:+ " canary could not reach " +:+ serverIP +:+ ":8080 from every Linux build node: another policy or network control is already blocking a source, so NetworkPolicy enforcement cannot be attributed")).

(** One attempt: whether every control connected, before and after the denied canaries, the
    nodes whose denied canary connected, and whether none did. *)
Definition attempt_once (namespace serverIP : string) (nodes : list string) : prog ClusterE (result string (bool * list string * bool)) :=
  try! control := createNetworkClientCanaries namespace "control-" netpolRoleControl serverIP nodes in
  try! deny := createNetworkClientCanaries namespace "deny-" netpolRoleDeny serverIP nodes in
  try! all := networkCanariesConnected namespace "allowed" control true in
  try! denied := networkCanariesBlocked namespace deny [] true in
  if all then
    try! confirmation := createNetworkClientCanaries namespace "confirm-control-" netpolRoleControl serverIP nodes in
    try! all := networkCanariesConnected namespace "post-deny allowed" confirmation true in
    Ret (Ok (all, denied.1, denied.2))
  else Ret (Ok (false, denied.1, denied.2)).
Definition denied_message (nodes : nat) (serverIP : string) (attempts : Z) : string :=
  "fresh denied TCP canaries were blocked from all " +:+ pretty nodes +:+ " Linux build node(s) while pre- and post-deny allowlisted controls reached " +:+
  serverIP +:+ ":8080 (after " +:+ pretty attempts +:+ " attempt(s))".
Definition net_over (all : bool) (connected : list string) (serverIP : string) (attempts : Z) (e : string) : probe_of :=
  let! c := trigger RunErr in
  Ret (match c with
       | Some c => Err ("NetworkPolicy probe cancelled: " +:+ c)
       | None =>
           if all && bool_decide (connected ≠ []) then
             failing ("egress-denied canaries on " +:+ Join connected ", " +:+ " kept reaching " +:+ serverIP +:+ ":8080 after " +:+ pretty attempts +:+
                      " fresh attempt(s) while every allowlisted control connected: the CNI is not enforcing default-deny egress")
           else Err ("the latest NetworkPolicy canary batch did not prove a healthy allowlisted control and blocked denied source from every Linux build node before " +:+ e)
       end).
Fixpoint net_attempts (looks : nat) (namespace serverIP : string) (nodes : list string) (attempts : Z) : probe_of :=
  try! seen := attempt_once namespace serverIP nodes in
  let '(all, connected, blocked) := seen in
  if all && blocked then Ret (passing (denied_message (length nodes) serverIP attempts))
  else
    match looks with
    | O => net_over all connected serverIP attempts DeadlineExceeded
    | S looks =>
        let! e := trigger (Sleep ProbeBudget) in
        match e with
        | Some e => net_over all connected serverIP attempts e
        | None => net_attempts looks namespace serverIP nodes (attempts + 1)
        end
    end.

Definition server_pod (namespace node : string) : CanaryPod :=
  pinCanaryToNode (restrictedCanaryPod namespace "server-" netpolRoleServer ["sh"; "-c"; "exec httpd -f -p 8080"] 180) node.
Definition serving (pod : PodStatus) : bool := bool_decide (ps_Phase pod = PodRunning ∧ ps_PodIP pod ≠ "").
Definition net_in_scratch (nodes : list string) (node0 : string) (namespace : string) : probe_of :=
  let! r := trigger (CreatePod (server_pod namespace node0)) in
  match r with
  | Err e => Ret (Err ("create NetworkPolicy server canary: " +:+ fault_text e))
  | Ok server =>
      let! r := waitForPod namespace server "Running with a pod IP" (λ pod, serving pod || terminal pod) in
      match r with
      | Err e => Ret (Err ("wait for NetworkPolicy server canary: " +:+ e))
      | Ok pod =>
          if negb (serving pod) then Ret (Err ("NetworkPolicy server canary did not become usable: " +:+ podDetail pod))
          else
            try! baseline := createNetworkClientCanaries namespace "baseline-deny-" netpolRoleDeny (ps_PodIP pod) nodes in
            try! _ := requireNetworkCanariesConnected namespace "pre-policy deny-label" (ps_PodIP pod) baseline in
            let! failed := create_policies (networkPolicies namespace) in
            match failed with
            | Some e => Ret (Err e)
            | None => net_attempts probe_patience namespace (ps_PodIP pod) nodes 1
            end
      end
  end.
Definition netpol_probe : probe_of :=
  try! nodes := eligibleBuildNodes in
  match nodes with
  | [] => Ret (failing "no Ready, schedulable Linux node can run a NetworkPolicy canary")
  | node0 :: _ => withScratchNamespace "orkano-preflight-netpol-" "restricted" (net_in_scratch nodes node0)
  end.
End netpol.

(** ** Pod security, AppArmor and seccomp *)
Section confinement.
Context `{UnicodeTables}.

Definition psa_pod (namespace : string) : CanaryPod :=
  with_spec (with_gates (restrictedCanaryPod namespace "privileged-" "psa" ["sh"; "-c"; "exit 0"] 60) ["orkano.io/preflight-psa"])
    (with_containers (with_security set_privileged)).
Definition judge_psa (r : result Fault string) : result string Result :=
  match r with
  | Ok _ => failing "a privileged pod was admitted in a namespace enforcing restricted; Pod Security Admission is not active"
  | Err (Forbidden t) =>
      if Contains t "PodSecurity" then passing "a scheduling-gated privileged canary was rejected by PodSecurity in a restricted namespace"
      else Err ("create privileged PSA canary: " +:+ t)
  | Err e => Err ("create privileged PSA canary: " +:+ fault_text e)
  end.
Definition psa_probe : probe_of :=
  withScratchNamespace "orkano-preflight-psa-" "restricted" (λ namespace,
    let! r := trigger (CreatePod (psa_pod namespace)) in Ret (judge_psa r)).

(** *** AppArmor *)
Definition appArmorCanaryCommand : string :=
  "profile=$(cat /proc/self/attr/current) || exit 43; [ " +:+ dq +:+ "$profile" +:+ dq +:+ " = " +:+ dq +:+ NodePrep.ProfileName +:+
  " (enforce)" +:+ dq +:+ " ] && exit 0; exit 42".
Definition apparmor_pod (namespace : string) : CanaryPod :=
  with_spec (restrictedCanaryPod namespace "canary-" "apparmor" ["sh"; "-c"; appArmorCanaryCommand] 60)
    (with_containers (with_security (set_apparmor NodePrep.ProfileName))).
Definition names_apparmor (detail : string) : bool := Contains (ToLower detail) "apparmor".
Definition event_evidence (name : string) (ev : EventView) : option string :=
  if decide (ev_Object ev ≠ name) then None
  else let detail := TrimSpace (ev_Reason ev +:+ ": " +:+ ev_Message ev) in if names_apparmor detail then Some detail else None.
Definition events_evidence (name : string) (evs : list EventView) : string := default "" (head (omap (event_evidence name) evs)).
Definition appArmorFailureEvidence (namespace name : string) : prog ClusterE (result string string) :=
  let! r := trigger (GetPod namespace name) in
  let events :=
    let! r := trigger (ListEvents namespace) in
    Ret (match r with
         | Err e => Err ("list events for AppArmor canary: " +:+ e)
         | Ok evs => Ok (events_evidence name evs)
         end) in
  match r with
  | Ok pod => if names_apparmor (podDetail pod) then Ret (Ok (podDetail pod)) else events
  | Err (NotFound _) => events
  | Err e => Ret (Err ("read AppArmor canary: " +:+ fault_text e))
  end.

(** What the canaries showed: the nodes that failed and those nothing is known of; or the
    probe is over. *)
Definition Seen : Type := list string * list string.
Definition unclear (seen : Seen) (what : string) : Seen := (seen.1, seen.2 ++ [what]).
Definition failed_on (seen : Seen) (what : string) : Seen := (seen.1 ++ [what], seen.2).
Definition ended_with (node : string) (pod : PodStatus) : string := node +:+ ": canary ended with " +:+ podDetail pod.
Definition apparmor_seen (seen : Seen) (node : string) (pod : PodStatus) : Seen :=
  match terminalExitCode pod with
  | Some code =>
      if decide (ps_Phase pod = PodSucceeded ∧ code = 0%Z) then seen
      else if decide (code = canaryExitExpectedBlocked) then
        failed_on seen (node +:+ ": Localhost profile " +:+ Quote NodePrep.ProfileName +:+ " was not applied in enforce mode")
      else unclear seen (ended_with node pod)
  | None => unclear seen (ended_with node pod)
  end.
Fixpoint apparmor_canaries (namespace : string) (canaries : list (string * string)) (seen : Seen) : prog ClusterE (result string Result + Seen) :=
  match canaries with
  | [] => Ret (inr seen)
  | (node, name) :: canaries =>
      let! r := waitForPodTerminal namespace name in
      match r with
      | Ok pod => apparmor_canaries namespace canaries (apparmor_seen seen node pod)
      | Err e =>
          let! c := trigger RunErr in
          match c with
          | Some _ => Ret (inl (Err ("wait for AppArmor canary on " +:+ node +:+ ": " +:+ e)))
          | None =>
              let! ev := appArmorFailureEvidence namespace name in
              match ev with
              | Err ee => apparmor_canaries namespace canaries
                            (unclear seen (node +:+ ": " +:+ e +:+ " (and could not inspect AppArmor evidence: " +:+ ee +:+ ")"))
              | Ok evidence =>
                  if decide (evidence ≠ "") then
                    Ret (inl (failing ("orkano-buildkit AppArmor canary failed on " +:+ node +:+ ": " +:+ evidence)))
                  else apparmor_canaries namespace canaries (unclear seen (node +:+ ": " +:+ e))
              end
          end
      end
  end.
Definition apparmor_verdict (nodes : list string) (seen : Seen) : result string Result :=
  if decide (seen.2 ≠ []) then
    Err ("AppArmor capability could not be determined on " +:+ Join seen.2 "; " +:+
         (if decide (seen.1 ≠ []) then "; known failures: " +:+ Join seen.1 "; " else ""))
  else if decide (seen.1 ≠ []) then failing ("orkano-buildkit AppArmor canaries failed: " +:+ Join seen.1 "; ")
  else passing ("orkano-buildkit AppArmor canary ran in enforce mode on " +:+ pretty (length nodes) +:+ " Linux build node(s): " +:+ nodeNames nodes).
Definition apparmor_probe : probe_of :=
  try! nodes := eligibleBuildNodes in
  if decide (nodes = []) then Ret (failing "no Ready, schedulable Linux node can run an Orkano build canary")
  else withScratchNamespace "orkano-preflight-apparmor-" "baseline" (λ namespace,
    try! canaries := createNodeCanaries namespace nodes (apparmor_pod namespace) [] in
    let! out := apparmor_canaries namespace canaries ([], []) in
    Ret (match out with inl r => r | inr seen => apparmor_verdict nodes seen end)).

(** *** seccomp *)
Definition seccompCanaryCommand : string :=
  "if grep -Eq '^Seccomp:[[:space:]]*0$' /proc/self/status; then exit 0; fi; if grep -Eq '^Seccomp:[[:space:]]*[1-9][0-9]*$' /proc/self/status; then exit 42; fi; exit 43".
Definition seccomp_pod (namespace : string) : CanaryPod :=
  with_spec (restrictedCanaryPod namespace "canary-" "seccomp" ["sh"; "-c"; seccompCanaryCommand] 60) clear_seccomp.
Definition seccomp_seen (seen : Seen) (node : string) (r : result string PodStatus) : Seen :=
  match r with
  | Err e => unclear seen (node +:+ ": " +:+ e)
  | Ok pod =>
      match terminalExitCode pod with
      | Some code =>
          if decide (ps_Phase pod = PodSucceeded ∧ code = 0%Z) then seen
          else if decide (code = canaryExitExpectedBlocked) then failed_on seen node
          else if decide (code = canaryExitInvalid) then unclear seen (node +:+ ": canary could not parse /proc/self/status")
          else unclear seen (ended_with node pod)
      | None => unclear seen (ended_with node pod)
      end
  end.
Fixpoint seccomp_canaries (namespace : string) (canaries : list (string * string)) (seen : Seen) : prog ClusterE Seen :=
  match canaries with
  | [] => Ret seen
  | (node, name) :: canaries =>
      let! r := waitForPodTerminal namespace name in seccomp_canaries namespace canaries (seccomp_seen seen node r)
  end.
Definition seccomp_verdict (nodes : list string) (seen : Seen) : result string Result :=
  if decide (seen.2 ≠ []) then
    Err ("nil-seccomp capability could not be determined on " +:+ Join seen.2 "; " +:+
         (if decide (seen.1 ≠ []) then "; nodes with nonzero Seccomp mode: " +:+ Join seen.1 ", " else ""))
  else if decide (seen.1 ≠ []) then
    failing ("nil-seccomp canaries observed a nonzero Seccomp mode on " +:+ Join seen.1 ", " +:+
             ": kubelet seccompDefault or equivalent runtime defaulting would break ADR-0012 rootless builds")
  else passing ("nil-seccomp canary observed Seccomp: 0 on " +:+ pretty (length nodes) +:+ " Linux build node(s): " +:+ nodeNames nodes).
Definition seccomp_probe : probe_of :=
  try! nodes := eligibleBuildNodes in
  if decide (nodes = []) then Ret (failing "no Ready, schedulable Linux node can run a nil-seccomp build canary")
  else withScratchNamespace "orkano-preflight-seccomp-" "baseline" (λ namespace,
    try! canaries := createNodeCanaries namespace nodes (seccomp_pod namespace) [] in
    let! seen := seccomp_canaries namespace canaries ([], []) in
    Ret (seccomp_verdict nodes seen)).

(** ** The checks ([cluster.go]) *)
Definition versionSupportedCheck (configured : bool) : ProbeCheck ClusterE :=
  Build_ProbeCheck IDVersionSupported SeverityCritical ("cluster version is inside the supported window " +:+ version_window)
    ("run Orkano on a cluster inside " +:+ version_window +:+
     ": upgrade the cluster if it is older, or upgrade Orkano if the cluster is newer than this release's window") [] (version_probe configured).
Definition storageClassDefaultCheck : ProbeCheck ClusterE :=
  Build_ProbeCheck IDStorageClassDefault SeverityCritical "a default StorageClass exists for the PersistentVolumeClaims the install creates"
    "install a storage provisioner (CSI driver) if none exists, then mark one class default: kubectl annotate storageclass <name> storageclass.kubernetes.io/is-default-class=true"
    [] storage_probe.
Definition ingressClassPresentCheck : ProbeCheck ClusterE :=
  Build_ProbeCheck IDIngressClassPresent SeverityCritical "an ingress controller is installed so Domain routing and TLS can work"
    "install an ingress controller that registers an IngressClass (Traefik and ingress-nginx are the tested adapters); if one exists without a default class, mark it default or set ingress.className at install"
    [] ingress_probe.
Definition rbacSufficientCheck : ProbeCheck ClusterE :=
  Build_ProbeCheck IDRBACSufficient SeverityCritical "the kubeconfig identity can create everything the install writes"
    "install with an identity holding create on the denied resources (cluster-admin, or an equivalently broad role; RBAC escalation prevention also requires the grants Orkano's own Roles contain)"
    [] rbac_probe.
Definition networkPolicyEnforcedCheck : ProbeCheck ClusterE :=
  Build_ProbeCheck IDNetworkPolicyEnforced SeverityCritical "the CNI enforces default-deny egress (capability-probed)"
    "install or enable a CNI that enforces Kubernetes NetworkPolicy; a policy object alone is not proof: the probe's fresh denied TCP canary must be unable to reach an in-namespace server. Run the preflight with an identity that can list nodes; create, get and delete its labeled scratch namespaces and pods; and create NetworkPolicies"
    [] netpol_probe.
Definition podSecurityAdmissionEnforcedCheck : ProbeCheck ClusterE :=
  Build_ProbeCheck IDPodSecurityAdmissionEnforced SeverityCritical "Pod Security Admission enforces a restricted namespace label"
    "enable the PodSecurity admission plugin (or the managed-cluster equivalent) and ensure namespace labels pod-security.kubernetes.io/enforce=restricted are honored before installing Orkano. Run the preflight with an identity that can create, get and delete its labeled scratch namespaces and create pods"
    [] psa_probe.
Definition appArmorCapableCheck : ProbeCheck ClusterE :=
  Build_ProbeCheck IDAppArmorCapable SeverityCritical "every schedulable Linux build node starts an orkano-buildkit AppArmor canary in enforce mode"
    "load the orkano-buildkit AppArmor profile in enforce mode on every Linux node that can run builds (enable the BYO node-prep DaemonSet when available, or apply the documented manual node preparation); clusters without AppArmor-capable build nodes cannot run Orkano builds. Run the preflight with an identity that can list nodes and events; create and get pods; and delete its labeled scratch namespaces"
    [] apparmor_probe.
Definition seccompDefaultDisabledCheck : ProbeCheck ClusterE :=
  Build_ProbeCheck IDSeccompDefaultDisabled SeverityCritical "nil-seccomp build canaries are unconfined on every schedulable Linux build node"
    "disable kubelet seccompDefault (or any equivalent defaulting that applies RuntimeDefault to fieldless pods) on every Linux build node; ADR-0012's rootless BuildKit configuration requires nil seccomp to remain unconfined. Run the preflight with an identity that can list nodes, create and get pods, and delete its labeled scratch namespaces"
    [] seccomp_probe.
Definition Checks (configured : bool) : list (ProbeCheck ClusterE) :=
  [versionSupportedCheck configured; storageClassDefaultCheck; ingressClassPresentCheck; rbacSufficientCheck; networkPolicyEnforcedCheck;
   podSecurityAdmissionEnforcedCheck; appArmorCapableCheck; seccompDefaultDisabledCheck].
End confinement.
