(* ===== verification/ClusterFacts.v ===== *)
(** * What the preflight of a cluster decides

    For [ClusterPreflight.v]: the version window, what a pass of the access review, of the
    node canaries and of the NetworkPolicy probe rests on, and that a verdict leaves nothing
    behind in the cluster. *)
From S2P Require Import Prelude Regex GoStrings Effects Kube RateLimit GitHubApp ApiServer Canary.
From S2P Require Import CheckRegistry CheckRun Probes ClusterPreflight.
From Stdlib Require Import Ascii.

(** ** The version *)
Section version.
Context `{UnicodeTables}.

Lemma leading_digits_all l : forallb is_digit (leading_digits l) = true.
Proof. induction l as [|c l IH]; [done|]. simpl. destruct (is_digit c) eqn:Hc; [|done]. simpl. by rewrite Hc. Qed.

(** The window is exact.  A version passes exactly when its major is 1 and its minor lies in
    the window; it fails exactly when both read as numbers and it does not; and a part that
    does not start with a number, or with one of 64 bits, settles nothing. *)
Theorem version_exact info :
  (judged (judge_version info) = OutcomePass ↔
     ∃ minor, leadingInt (vi_Major info) = Ok 1%Z ∧ leadingInt (vi_Minor info) = Ok minor ∧ (34 ≤ minor ≤ 36)%Z) ∧
  (judged (judge_version info) = OutcomeFail ↔
     ∃ major minor, leadingInt (vi_Major info) = Ok major ∧ leadingInt (vi_Minor info) = Ok minor ∧ ¬ (major = 1 ∧ 34 ≤ minor ≤ 36)%Z) ∧
  (judged (judge_version info) = OutcomeError ↔ is_ok (leadingInt (vi_Major info)) = false ∨ is_ok (leadingInt (vi_Minor info)) = false).
Proof.
  unfold judge_version. destruct (leadingInt (vi_Major info)) as [major|e]; [destruct (leadingInt (vi_Minor info)) as [minor|e]|].
  - unfold supportedMajor, minSupportedMinor, maxSupportedMinor. split; [|split].
    + case_decide as H1; [split; [done|intros (m & [= ->] & [= ->] & ?); lia]|].
      case_decide as H2; [split; [done|intros (m & [= ->] & [= ->] & ?); lia]|].
      split; [intros _; exists minor; assert (major = 1%Z) as -> by lia; split; [done|]; split; [done|lia]|done].
    + case_decide as H1; [split; [intros _; exists major, minor; split; [done|]; split; [done|lia]|done]|].
      case_decide as H2; [split; [intros _; exists major, minor; split; [done|]; split; [done|lia]|done]|].
      split; [done|]. intros (a & b & [= ->] & [= ->] & ?). lia.
    + split; [repeat case_decide; done|intros [[=]|[=]]].
  - split; [split; [done|by intros (m & _ & [=] & _)]|]. split; [split; [done|by intros (a & b & _ & [=] & _)]|]. split; [by right|done].
  - split; [split; [done|by intros (m & [=] & _)]|]. split; [split; [done|by intros (a & b & [=] & _)]|]. split; [by left|done].
Qed.
End version.

(** ** What the install may create *)
Section access.
Definition reviewed (c : call ClusterE) : option (accessTuple * result string bool) :=
  match c with Call (ReviewAccess t) r => Some (t, r) | _ => None end.
Lemma review_all_runs tuples denied tr d : exec (review_all tuples denied) tr (Ok d) →
  ∃ answers, omap reviewed tr = zip tuples (Ok <$> answers) ∧ length answers = length tuples ∧
    (d = [] ↔ denied = [] ∧ Forall (λ a, a = true) answers).
Proof.
  revert denied tr. induction tuples as [|t tuples IH]; intros denied tr; cbn [review_all].
  { intros [-> [= ->]]. exists []. split; [done|]. split; [done|]. split; [done|tauto]. }
  intros (r & tr' & -> & Hex). cbn [prog_bind] in Hex. destruct r as [allowed|e]; [|by destruct Hex].
  apply IH in Hex as (answers & Hr & Hlen & Hd). exists (allowed :: answers). split; [cbn; by rewrite Hr|]. split; [simpl; by rewrite Hlen|].
  rewrite Hd. destruct allowed; rewrite Forall_cons; [tauto|]. split; [intros [Hn _]; by destruct denied|by intros (_ & [=] & _)].
Qed.

Lemma review_all_fails tuples denied tr e : exec (review_all tuples denied) tr (Err e) → ∃ t x, (t, Err x) ∈ omap reviewed tr.
Proof.
  revert denied tr. induction tuples as [|t tuples IH]; intros denied tr; cbn [review_all]; [by intros [_ [=]]|].
  intros (r & tr' & -> & Hex). cbn [prog_bind] in Hex. destruct r as [allowed|x].
  - apply IH in Hex as (t' & x & Hin). exists t', x. cbn. by right.
  - exists t, x. cbn. left.
Qed.
Lemma zip_all {A} (l : list A) (answers : list bool) : length answers = length l →
  zip l (@Ok string bool <$> answers) = (λ t, (t, Ok true)) <$> l ↔ Forall (λ a, a = true) answers.
Proof.
  revert l. induction answers as [|a answers IH]; intros [|t l] Hlen; try done. injection Hlen as Hlen. rewrite !fmap_cons. cbn [zip zip_with].
  rewrite Forall_cons, <- (IH l Hlen). split; [by intros [= -> ->]|by intros [-> ->]].
Qed.
Lemma zip_fst {A B} (l : list A) (l' : list B) : length l' = length l → (zip l l').*1 = l.
Proof. intros Hlen. apply fst_zip. lia. Qed.

(** The access review is complete.  It passes exactly when each of the sixty-seven resources
    was asked about, once and in order, and creating each was allowed; it fails only when all
    were asked about and one was denied. *)
Theorem access_reviewed tr r :
  exec rbac_probe tr r →
  (judged r = OutcomePass ↔ omap reviewed tr = (λ t, (t, Ok true)) <$> installAccessSet) ∧
  (judged r = OutcomeFail → (omap reviewed tr).*1 = installAccessSet ∧ ∃ t, (t, Ok false) ∈ omap reviewed tr).
Proof.
  unfold rbac_probe. intros (t1 & t2 & [d|e] & -> & Hr & Hex)%exec_bind; destruct Hex as [-> ->]; rewrite app_nil_r.
  - apply review_all_runs in Hr as (answers & Hrev & Hlen & Hd). rewrite Hrev. rewrite (zip_all _ _ Hlen).
    assert (Hd' : d = [] ↔ Forall (λ a, a = true) answers) by tauto. rewrite <- Hd'. case_decide as Hn.
    + split; [split; [done|intros ->; simpl in Hn; lia]|]. intros _. split; [apply zip_fst; by rewrite length_fmap|].
      assert (Hnot : ¬ Forall (λ a, a = true) answers) by (intros ->%Hd'; simpl in Hn; lia).
      apply not_Forall_Exists in Hnot; [|apply _]. apply Exists_exists in Hnot as (a & Hin & Ha).
      unfold compose in Ha. destruct a; [congruence|]. apply list_elem_of_lookup in Hin as [i Hi].
      destruct (lookup_lt_is_Some_2 installAccessSet i) as [t Ht]; [rewrite <- Hlen; by eapply lookup_lt_Some|].
      exists t. apply list_elem_of_lookup. exists i. rewrite lookup_zip_with, Ht, list_lookup_fmap, Hi. done.
    + split; [|done]. split; [intros _; destruct d; [done|simpl in Hn; lia]|done].
  - split; [|done]. split; [done|]. intros Heq. apply review_all_fails in Hr as (t & x & Hin). rewrite Heq in Hin.
    by apply list_elem_of_fmap in Hin as (? & [=] & _).
Qed.
End access.

(** ** Nothing is left behind *)
Section scratch.
Context `{UnicodeTables}.

(** A pod the preflight may create in the scratch namespace [ns]: short-lived, marked, without
    a token or privileges; one that asks for privileges is never scheduled. *)
Definition scratch_pod (ns : string) (p : CanaryPod) : Prop :=
  cn_Namespace p = ns ∧ cn_Labels p !! probeManagedByLabel = Some probeManagedByValue ∧ (cn_ActiveDeadlineSeconds p ≤ 180)%Z ∧
  pod_AutomountServiceAccountToken (cn_Spec p) = Some false ∧ pod_HostNetwork (cn_Spec p) = false ∧ pod_Volumes (cn_Spec p) = [] ∧
  (∃ sc, pod_SecurityContext (cn_Spec p) = Some sc ∧ psc_RunAsNonRoot sc = Some true) ∧
  Forall (λ c, c_Image c = CanaryImage ∧ ∃ sc, c_SecurityContext c = Some sc ∧ sc_AllowPrivilegeEscalation sc = Some false ∧
    sc_CapDrop sc = ["ALL"] ∧ sc_CapAdd sc = [] ∧ (sc_Privileged sc ≠ Some true ∨ cn_SchedulingGates p ≠ []))
    (pod_InitContainers (cn_Spec p) ++ pod_Containers (cn_Spec p)).

(** Ghost state: the scratch namespace that is open. *)
Definition allowed (X : Set) (e : ClusterE X) (open : option string) : Prop :=
  match e with
  | CreateNamespace _ labels => open = None ∧ labels !! probeManagedByLabel = Some probeManagedByValue
  | DeleteNamespace n | GetNamespace n => open = Some n
  | CreatePod p => ∃ ns, open = Some ns ∧ scratch_pod ns p
  | CreatePolicy p => open = Some (meta_Namespace (np_Meta p))
  | _ => True
  end.
Definition after (X : Set) (e : ClusterE X) : X → option string → option string :=
  match e in ClusterE X return X → option string → option string with
  | CreateNamespace _ _ => λ r open, match r with Ok ns => Some ns | Err _ => open end
  | GetNamespace _ => λ r open, match r with Err (NotFound _) => None | _ => open end
  | _ => λ _ open, open
  end.
Abbreviation scoped_by := (wp allowed after).

(** What runs inside leaves the namespace open. *)
Fixpoint inside {A} (ns : string) (p : prog ClusterE A) : Prop :=
  match p with
  | Ret _ => True
  | Vis e k =>
      match e with
      | CreateNamespace _ _ | DeleteNamespace _ | GetNamespace _ => False
      | CreatePod p => scratch_pod ns p
      | CreatePolicy p => meta_Namespace (np_Meta p) = ns
      | _ => True
      end ∧ ∀ x, inside ns (k x)
  end.
Lemma inside_bind {A B} ns (p : prog ClusterE A) (f : A → prog ClusterE B) : inside ns p → (∀ a, inside ns (f a)) → inside ns (prog_bind p f).
Proof. intros Hp Hf. induction p as [a|X e k IH]; [apply Hf|]. destruct Hp as [He Hk]. split; [done|]. intros x. apply IH, Hk. Qed.
Lemma inside_scoped {A} ns (p : prog ClusterE A) (Q : A → option string → Prop) :
  inside ns p → (∀ a, Q a (Some ns)) → scoped_by p Q (Some ns).
Proof.
  intros Hp HQ. induction p as [a|X e k IH]; [apply HQ|]. destruct Hp as [He Hk]. split.
  - destruct e; cbn [allowed]; try done; [by exists ns|by rewrite He].
  - intros x. replace (after X e x (Some ns)) with (Some ns) by (by destruct e). apply IH, Hk.
Qed.
(** A verdict is given only when no namespace is open. *)
Definition closed_verdict (r : result string Result) (open : option string) : Prop := is_ok r = true → open = None.

Lemma wait_deleted_scoped looks ns : scoped_by (wait_deleted looks ns) (λ e open, e = None → open = None) (Some ns).
Proof.
  induction looks as [|looks IH]; (split; [done|]); intros [[]|[]]; cbn [prog_bind trigger after]; try done.
  split; [done|]. intros [e|]; [done|]. exact IH.
Qed.
Lemma scratch_scoped g psa (probe : string → prog ClusterE (result string Result)) :
  (∀ ns, inside ns (probe ns)) → scoped_by (withScratchNamespace g psa probe) closed_verdict None.
Proof.
  intros Hin. split; [split; [done|unfold scratch_labels; by rewrite lookup_insert_ne, lookup_insert_eq by done]|]. intros [ns|e]; cbn [prog_bind trigger after]; [|done].
  case_decide as Hns; [done|]. apply wp_bind, inside_scoped; [apply Hin|]. intros out. apply wp_bind. split; [done|].
  assert (Hw : scoped_by (wait_deleted (patience scratchCleanupTimeout liveProbePollInterval) ns)
    (λ c open, scoped_by (Ret (cleaned ns out c)) closed_verdict open) (Some ns)).
  { eapply wp_mono; [|apply wait_deleted_scoped]. intros c open Hc. cbn [wp]. unfold closed_verdict, cleaned. destruct c; [by destruct out|auto]. }
  intros [u|[t|t|t]]; cbn [prog_bind trigger after]; [exact Hw|exact Hw|by destruct out..].
Qed.
Lemma quiet_scoped {A} (p : prog ClusterE A) (Q : A → option string → Prop) :
  (∀ ns, inside ns p) → calls_only (λ X e, match e with CreatePod _ | CreatePolicy _ => false | _ => true end) p → (∀ a, Q a None) → scoped_by p Q None.
Proof.
  intros Hp Hc HQ. induction p as [a|X e k IH]; [apply HQ|]. destruct Hc as [He Hk]. split.
  - destruct (Hp "") as [Hn _]. destruct e; cbn in He, Hn |- *; done.
  - intros x. replace (after X e x None) with (@None string) by (destruct (Hp "") as [Hn _]; by destruct e).
    apply IH; [|apply Hk]. intros ns. exact (proj2 (Hp ns) x).
Qed.

(** *** The parts of the probes *)
Ltac inside_step :=
  lazymatch goal with
  | |- inside _ (prog_bind _ _) => apply inside_bind; [|intros ?]
  | |- inside _ (match ?x with _ => _ end) => destruct x
  | |- inside _ (Ret _) => exact I
  | |- inside _ (Vis _ _) => split; [exact I|intros ?]
  | |- inside _ (trigger _) => split; [first [exact I|reflexivity]|intros ?; exact I]
  end.
Ltac stays := repeat first [inside_step | solve [eauto]].

Lemma inside_wait ns looks m name goal complete : inside ns (wait_pod looks m name goal complete).
Proof. induction looks as [|looks IH]; (split; [done|]); intros [st|e]; cbn [prog_bind trigger]; stays; (split; [done|]); intros [e'|]; cbn; stays; exact IH. Qed.
Lemma inside_create ns nodes p canaries : scratch_pod ns p → inside ns (createNodeCanaries ns nodes p canaries).
Proof. intros Hp. revert canaries. induction nodes as [|n nodes IH]; intros canaries; [done|]. split; [exact Hp|]. intros [name|e]; [apply IH|done]. Qed.
Lemma inside_outcome ns m w1 w2 node name : inside ns (canary_outcome m w1 w2 node name).
Proof. unfold canary_outcome. apply inside_bind; [apply inside_wait|done]. Qed.
Lemma inside_connected ns m role canaries all : inside ns (networkCanariesConnected m role canaries all).
Proof.
  revert all. induction canaries as [|[node name] canaries IH]; intros all; [done|]. apply inside_bind; [apply inside_outcome|].
  intros [o|e]; [apply IH|done].
Qed.
Lemma inside_blocked ns m canaries connected all : inside ns (networkCanariesBlocked m canaries connected all).
Proof.
  revert connected all. induction canaries as [|[node name] canaries IH]; intros connected all; [done|]. apply inside_bind; [apply inside_outcome|].
  intros [o|e]; [|done]. case_decide; apply IH.
Qed.
Lemma restricted_scratch ns g role command deadline : (deadline ≤ 180)%Z → scratch_pod ns (restrictedCanaryPod ns g role command deadline).
Proof.
  intros Hd. unfold scratch_pod. cbn [restrictedCanaryPod cn_Namespace cn_Labels cn_ActiveDeadlineSeconds cn_Spec canary_spec
    pod_AutomountServiceAccountToken pod_HostNetwork pod_Volumes pod_SecurityContext pod_InitContainers pod_Containers app].
  split_and!; try done; [by eexists|]. constructor; [|done]. split; [done|]. eexists. split_and!; try done. by left.
Qed.
Lemma client_scratch ns g role ip : scratch_pod ns (client_pod ns g role ip).
Proof.
  destruct (restricted_scratch ns g role client_command 30 ltac:(lia)) as (? & ? & ? & ? & ? & ? & ? & _).
  split_and!; try done. constructor; [|constructor]. split; [done|]. eexists. split_and!; try done. by left.
Qed.
Lemma inside_clients ns g role ip nodes : inside ns (createNetworkClientCanaries ns g role ip nodes).
Proof. apply inside_create, client_scratch. Qed.
Lemma inside_attempt ns ip nodes : inside ns (attempt_once ns ip nodes).
Proof.
  unfold attempt_once. apply inside_bind; [apply inside_clients|]. intros [c|e]; [|done]. apply inside_bind; [apply inside_clients|]. intros [d|e]; [|done].
  apply inside_bind; [apply inside_connected|]. intros [all|e]; [|done]. apply inside_bind; [apply inside_blocked|]. intros [den|e]; [|done].
  destruct all; [|done]. apply inside_bind; [apply inside_clients|]. intros [c2|e]; [|done]. apply inside_bind; [apply inside_connected|]. by intros [].
Qed.
Lemma inside_attempts ns looks ip nodes attempts : inside ns (net_attempts looks ns ip nodes attempts).
Proof.
  revert attempts. induction looks as [|looks IH]; intros attempts; cbn [net_attempts]; (apply inside_bind; [apply inside_attempt|]);
    intros [[[all connected] blocked]|e]; try done; (destruct (all && blocked); [done|]); (split; [done|]); intros x; cbn [prog_bind trigger].
  - done.
  - destruct x; [split; done|apply IH].
Qed.
Lemma inside_net ns nodes node0 : inside ns (net_in_scratch nodes node0 ns).
Proof.
  split; [exact (restricted_scratch ns "server-" netpolRoleServer ["sh"; "-c"; "exec httpd -f -p 8080"] 180 ltac:(lia))|].
  intros [server|e]; [|done]. cbn [prog_bind trigger]. apply inside_bind; [apply inside_wait|]. intros [pod|e]; [|done].
  destruct (negb (serving pod)); [done|]. apply inside_bind; [apply inside_clients|]. intros [baseline|e]; [|done].
  apply inside_bind; [apply inside_bind; [apply inside_connected|by intros []]|]. intros [[]|e]; [|done].
  apply inside_bind; [|intros [e|]; [done|apply inside_attempts]]. split; [done|]. intros [[]|e]; [|done]. split; [done|]. by intros [[]|e].
Qed.
Lemma inside_evidence ns m name : inside ns (appArmorFailureEvidence m name).
Proof. split; [done|]. intros [pod|[]]; cbn [prog_bind trigger]; stays. Qed.
Lemma inside_apparmor ns m canaries seen : inside ns (apparmor_canaries m canaries seen).
Proof.
  revert seen. induction canaries as [|[node name] canaries IH]; intros seen; [done|]. apply inside_bind; [apply inside_wait|].
  intros [pod|e]; [apply IH|]. split; [done|]. intros [c|]; [done|]. cbn [prog_bind trigger]. apply inside_bind; [apply inside_evidence|].
  intros [ev|ee]; [|apply IH]. case_decide; [done|apply IH].
Qed.
Lemma inside_seccomp ns m canaries seen : inside ns (seccomp_canaries m canaries seen).
Proof. revert seen. induction canaries as [|[node name] canaries IH]; intros seen; [done|]. apply inside_bind; [apply inside_wait|]. intros r. apply IH. Qed.

Lemma eligible_scoped (f : result string (list string) → prog ClusterE (result string Result)) :
  (∀ r, scoped_by (f r) closed_verdict None) → scoped_by (prog_bind eligibleBuildNodes f) closed_verdict None.
Proof. intros Hf. apply wp_bind, quiet_scoped; [done|done|exact Hf]. Qed.
Lemma check_scoped configured c : c ∈ Checks configured → scoped_by (pc_Probe c) closed_verdict None.
Proof.
  unfold Checks. rewrite !elem_of_cons, elem_of_nil. intros [->|[->|[->|[->|[->|[->|[->|[->|[]]]]]]]]]; cbn [pc_Probe versionSupportedCheck
    storageClassDefaultCheck ingressClassPresentCheck rbacSufficientCheck networkPolicyEnforcedCheck podSecurityAdmissionEnforcedCheck
    appArmorCapableCheck seccompDefaultDisabledCheck].
  - apply quiet_scoped; by destruct configured.
  - by apply quiet_scoped.
  - by apply quiet_scoped.
  - assert (∀ l d ns, inside ns (review_all l d)) as Hi.
    { induction l as [|t l IH]; intros d ns; [done|]. split; [done|]. intros [a|e]; [apply IH|done]. }
    apply wp_bind, quiet_scoped; [by intros ns| |by intros []]. generalize (@nil string). generalize installAccessSet. induction l as [|t l IH]; intros d; [done|].
    split; [done|]. intros [a|e]; [apply IH|done].
  - apply eligible_scoped. intros [[|n nodes]|e]; [done| |done]. apply scratch_scoped. intros ns. apply inside_net.
  - apply scratch_scoped. intros ns. split; [|done].
    pose proof (restricted_scratch ns "privileged-" "psa" ["sh"; "-c"; "exit 0"] 60 ltac:(lia)) as (H1 & H2 & H3 & H4 & H5 & H6 & H7 & H8).
    split_and!; try done. constructor; [|constructor]. split; [done|]. eexists. split_and!; try done. by right.
  - apply eligible_scoped. intros [nodes|e]; [|done]. case_decide; [done|]. apply scratch_scoped. intros ns.
    apply inside_bind; [|intros [canaries|e]; [apply inside_bind; [apply inside_apparmor|by intros []]|done]].
    apply inside_create. pose proof (restricted_scratch ns "canary-" "apparmor" ["sh"; "-c"; appArmorCanaryCommand] 60 ltac:(lia)) as (H1 & H2 & H3 & H4 & H5 & H6 & H7 & H8).
    split_and!; try done. constructor; [|constructor]. split; [done|]. eexists. split_and!; try done. by left.
  - apply eligible_scoped. intros [nodes|e]; [|done]. case_decide; [done|]. apply scratch_scoped. intros ns.
    apply inside_bind; [|intros [canaries|e]; [apply inside_bind; [apply inside_seccomp|done]|done]].
    apply inside_create. pose proof (restricted_scratch ns "canary-" "seccomp" ["sh"; "-c"; seccompCanaryCommand] 60 ltac:(lia)) as (H1 & H2 & H3 & H4 & H5 & H6 & H7 & H8).
    split_and!; try done. by eexists.
Qed.

Fixpoint permitted (tr : list (call ClusterE)) (open : option string) : Prop :=
  match tr with [] => True | Call e x :: tr => allowed _ e open ∧ permitted tr (after _ e x open) end.
Lemma scoped_permitted {A} (p : prog ClusterE A) (Q : A → option string → Prop) tr a open :
  scoped_by p Q open → exec p tr a → permitted tr open ∧ Q a (foldl (step_call after) open tr).
Proof.
  revert tr open. induction p as [b|X e k IH]; intros tr open; [by intros HQ [-> ->]|]. intros [He Hk] (x & tr' & -> & Hex).
  cbn [permitted foldl step_call]. destruct (IH x tr' _ (Hk x) Hex). done.
Qed.
Lemma stays_open ns tr : permitted tr (Some ns) → foldl (step_call after) (Some ns) tr = None →
  ∃ t, Call (GetNamespace ns) (Err (NotFound t)) ∈ tr.
Proof.
  induction tr as [|[X e x] tr IH]; [done|]. cbn [permitted foldl step_call]. intros [He Hp] Hf.
  assert (after X e x (Some ns) = Some ns ∨ ∃ t, Call e x = Call (GetNamespace ns) (Err (NotFound t))) as [Ha|(t & ->)].
  { destruct e; try (by left); cbn [allowed after] in *; [by destruct He|]. injection He as ->. destruct x as [|[t|t|t]]; [by left| |by left..].
    right. by exists t. }
  - rewrite Ha in *. destruct (IH Hp Hf) as [t Ht]. exists t. by right.
  - exists t. left.
Qed.
Lemma permitted_app t1 t2 open : permitted (t1 ++ t2) open → permitted t2 (foldl (step_call after) open t1).
Proof. revert open. induction t1 as [|[X e x] t1 IH]; intros open; [done|]. cbn [app permitted foldl step_call]. intros [_ Hp]. by apply IH. Qed.

(** Nothing is left behind.  Whatever the cluster answers, a check of the preflight that gives
    a verdict has seen every scratch namespace it created gone; and a check creates pods and
    policies only in its open scratch namespace, the pods short-lived and unprivileged, or
    never scheduled. *)
Theorem verdict_leaves_nothing configured c tr r :
  c ∈ Checks configured → exec (pc_Probe c) tr r →
  (is_ok r = true → ∀ t1 g l ns t2, tr = t1 ++ Call (CreateNamespace g l) (Ok ns) :: t2 →
     ∃ t, Call (GetNamespace ns) (Err (NotFound t)) ∈ t2) ∧
  (∀ t1 p x t2, tr = t1 ++ Call (CreatePod p) x :: t2 →
     scratch_pod (cn_Namespace p) p ∧ ∃ g l, Call (CreateNamespace g l) (Ok (cn_Namespace p)) ∈ t1) ∧
  (∀ t1 p x t2, tr = t1 ++ Call (CreatePolicy p) x :: t2 →
     ∃ g l, Call (CreateNamespace g l) (Ok (meta_Namespace (np_Meta p))) ∈ t1).
Proof.
  intros Hc Hex. destruct (scoped_permitted _ _ _ _ _ (check_scoped configured c Hc) Hex) as [Hperm Hclosed].
  assert (Hopened : ∀ t ns, foldl (step_call after) None t = Some ns → ∃ g l, Call (CreateNamespace g l) (Ok ns) ∈ t).
  { intros t. induction t as [|[X e x] t IH] using rev_ind; intros ns; [done|]. rewrite foldl_app. cbn [foldl step_call].
    assert (∀ o, after X e x o = Some ns → o = Some ns ∨ ∃ g l, Call e x = Call (CreateNamespace g l) (Ok ns)) as Hback.
    { intros o. destruct e; cbn [after]; try (by left).
      - destruct x as [n|err]; [|by left]. intros [= ->]. right. by do 2 eexists.
      - destruct x as [|[]]; by left. }
    intros [Ho|(g & l & ->)]%Hback; [destruct (IH ns Ho) as (g & l & Hin); exists g, l; apply elem_of_app; by left|].
    exists g, l. apply elem_of_app. right. left. }
  split; [|split].
  - intros Hr t1 g l ns t2 ->. specialize (Hclosed Hr). rewrite foldl_app in Hclosed. cbn [foldl step_call after] in Hclosed.
    apply permitted_app in Hperm. cbn [permitted after] in Hperm. destruct Hperm as [_ Hperm]. by eapply stays_open.
  - intros t1 p x t2 ->. apply permitted_app in Hperm. cbn [permitted allowed] in Hperm. destruct Hperm as [(ns & Ho & Hp) _].
    assert (cn_Namespace p = ns) as Hns by apply Hp. rewrite Hns. split; [done|by apply Hopened].
  - intros t1 p x t2 ->. apply permitted_app in Hperm. cbn [permitted allowed] in Hperm. destruct Hperm as [Ho _]. by apply Hopened.
Qed.
End scratch.
